(* ===== verification/_CoqProject ===== *)
-Q . S2P
Prelude.v
HashMaps.v
RustStr.v
Externals.v
Ids.v
Json.v
LockPolicy.v
Wire.v
Errors.v
Run.v
ApiErrors.v
Evaluator.v
Verifiers.v
Secrets.v
Entitlements.v
Lifecycle.v
Ownership.v
DeletionJob.v
RateLimit.v
GraphTask.v
GraphWorker.v
PaymentTask.v
PaymentWorker.v
Fence.v
GraphStore.v
TaskStore.v
TaskInv.v
AccessStore.v
AccessDrain.v
DeletionStore.v
DeletionInv.v
DeletionHistory.v
DeletionEvidence.v
TaskWorker.v
Submission.v
InvoiceWorker.v
AccessReads.v
PaymentStore.v
Lanes.v
AccessUse.v
CreateLock.v
Resources.v
DeletionExec.v
DeletionTrace.v
DeletionEffects.v
DeletionWorker.v
DeletionProgress.v
PaymentDrains.v
PaymentSafe.v
PaymentDrainDb.v
PaymentDrainHistory.v
DeletionServer.v
FoldedAuth.v
FoldedStore.v
FoldedInv.v
FoldedSteps.v
FoldedSafe.v
FoldedUse.v
FoldedFlights.v
FoldedServer.v
TaskTables.v
Connect.v
ConnectDb.v
ConnectSafe.v
ConnectServer.v
GraphDb.v
GraphDbSim.v
GraphDbSafe.v
FoldedDb.v
FoldedDbSim.v
FoldedDbSafe.v
Publication.v
Instances.v
Witnesses.v
DeletionWitnesses.v
TaskWitnesses.v
SubmissionWitnesses.v
ExecWitnesses.v
FoldedWitnesses.v
DbWitnesses.v
