(* ===== verification/Prelude.v ===== *)
(** * Locks: a verification development

    The repository is a service that gates content behind locks.  A creator
    publishes a content lock whose criteria (a payment, a graph relation between
    creator and reader) a reader has to meet; the reader submits a proof bundle,
    which becomes a verification task; workers evaluate tasks against Nexus and
    the payment provider; a satisfied task publishes an entitlement, on which
    credentials are issued that guarded reads present; a creator may delete a lock,
    which settles what is owed to its readers first.  The sources are the crates
    under [src/]:

    - [locks-core]: identifiers, lock policies and wire payloads, with their
      validators;
    - [locks-service]: task models and reducers, repositories (in memory and
      Postgres), use cases over ports;
    - [locks-server]: HTTP API, rate limits, and the workers;
    - [locks-sdk]: the client library and its JavaScript bindings.

    ** Files

    - [Prelude], [HashMaps], [RustStr], [Json]: the parts of Rust's standard library and of
      [serde_json] the sources use.  [result] is Rust's [Result] with the error
      type first and a bind notation for [?]; [reject_if] and [ok_or] are the early
      returns; strings are sequences of UTF-8 bytes; machine integers are [Z] with
      checked, saturating and bounded operations written out; times and durations
      are nanosecond counts in [Z].  Tactics: [peel] inverts a successful
      computation into its checks, [pass] discharges the checks of one that is to
      succeed, [props] turns boolean checks into propositions.
    - [Externals]: third-party crates (base32, base64, pubky keys, uuid, mime, time,
      blake3, the AEAD cipher) as classes of operations, with classes of laws that state the
      documented behaviour the theorems use.  [Instances] implements them
      (base 32 by bits, UUIDs by hexadecimal digits) and proves the laws.
    - [Ids] ([locks-core/src/ids.rs]), [LockPolicy]
      ([locks-core/src/lock_policy.rs]), [Wire] ([locks-core/src/verification.rs]):
      every type with its parser, display form and validators, one definition per
      function.
    - [Errors], [Evaluator] ([application/errors.rs],
      [application/entitlement_evaluator.rs]).
    - [Run]: the monad of the use cases, a store, the entitlements and the number of
      clock readings so far, with failures that keep the state they happened in, and
      calls whose request or answer may be lost ([Fate]); [Act]: computations that handle
      every error and report an outcome, with Hoare triples on their worlds.
    - [ApiErrors] ([locks-server/src/api/errors.rs]): codes, status and the
      translation of application errors.
    - [Verifiers] ([infrastructure/verifiers/], the payment policy of
      [application/ports/payment_drain.rs]): the criterion verifiers of v1 locks and
      their registry.
    - [Secrets] ([infrastructure/final_credentials.rs],
      [infrastructure/runtime_master_key.rs]): the encrypted envelope of a final
      credential, its associated data and the derived keys.
    - [Lifecycle] ([application/models/verification.rs]): the record of a v1 task
      and its transitions.
    - [TaskStore] ([memory/verification_tasks.rs],
      [memory/verification_task_claims.rs]): v1 tasks, invoice admissions and the
      claimer's queue on the shared fence; [TaskInv]: their invariant and histories.
    - [TaskWorker] ([use_cases/complete_verification_task.rs],
      [locks-server/src/worker.rs]): completion of a task against a task port, the
      port that fences every write by the lease, and one tick of the worker;
      [InvoiceWorker] ([locks-server/src/worker/invoice.rs]): one tick of the worker
      that asks Paykit for invoices; [Submission] ([use_cases/submit_proof_bundle.rs],
      [get_verification_task.rs], [validate_paykit_payment_submission.rs], the v1 half
      of the handler in [api/verification.rs]): how tasks come to be and are shown.
    - [AccessStore] ([application/models/access.rs],
      [memory/access_credentials.rs]): ordinary and final credentials and what a
      deletion owes to their holders; [AccessDrain], [AccessReads]: what stays
      settled, and final credentials along histories.
    - [DeletionJob] ([application/models/content_lock_deletion.rs],
      [application/ports/content_lock_deletion.rs]), [DeletionStore]
      ([memory/content_lock_deletions.rs]): deletion jobs, publication intents and
      force receipts, on the task store, the access store and path ownership;
      [DeletionInv], [DeletionHistory]: invariant and histories of all of these
      together.
    - [AccessUse] ([use_cases/entitlement_check.rs], [issue_access_credential.rs],
      [validate_access_credential.rs], [proxy_read_guarded_resource.rs]): the use
      cases that give access, on the credential store.
    - [CreateLock] ([use_cases/create_content_lock.rs]): publication of a lock over the
      deletion repository, path ownership and [ContentLockStore], a public store
      whose writes may fail with or without effect.
    - [Ownership] ([memory/content_lock_ownership.rs]): reservation, publication
      and compensation of guarded paths.
    - [RateLimit] ([locks-server/src/rate_limit.rs]): the two rate limiters.
    - [GraphTask] ([application/models/graph0conf.rs],
      [application/graph0conf_reducer.rs]) and [GraphWorker]
      ([locks-server/src/graph_worker.rs]): the snapshot of a graph task, its
      three-valued reduction, and one evaluation by the worker.
    - [PaymentTask] ([application/models/payment_v2.rs],
      [application/payment_v2_reducer.rs]) and [PaymentWorker]
      ([locks-server/src/payment_worker.rs]): the same for payment tasks.
    - [Fence], [GraphStore] ([memory/verification_task_deletion_fence.rs],
      [memory/graph_tasks.rs]): the shared in-memory state as a record, and each
      repository operation on graph tasks as a function on it.
    - [PaymentStore] ([memory/payment_tasks.rs]): the payment repository on the same
      fence, and histories in which both repositories act.
    - [Lanes]: worker and repository together.  [ClaimStore] is the part of the claim port
      ([application/ports/graph_tasks.rs]) the graph worker uses, as a class with laws;
      the in-memory repository implements it, and the worker's plans are proved
      storable against the class.
    - [Entitlements] ([memory/entitlements.rs], [application/ports/entitlement.rs]):
      the write-once store of published entitlements, and [EntitlementStore], a
      class whose implementations may fail at every call, also after a write took
      effect; [Publication]: the publishing half of both workers against it.
    - [Resources] ([memory/guarded_resources.rs], [memory/content_locks.rs],
      [memory/public_content_locks.rs], [memory/lock_service_pointers.rs], their three
      use cases, and the tombstones of [locks-core]): the stores a deletion empties.
    - [DeletionEvidence], [DeletionExec] ([use_cases/
      execute_content_lock_deletion_phase.rs], [execute_forced_content_lock_deletion.rs],
      [no_paykit_deletion_drain.rs], [materialize_final_credentials.rs],
      [memory/content_lock_tombstones.rs],
      [memory/content_lock_deletion_action_ownership.rs]): the execution of a claimed
      job, graceful or forced, and what it reports of its dependencies.
      [DeletionTrace] says which changes an execution may make and when its outcome is
      true, [DeletionEffects] proves both, [DeletionProgress] that phases are left.
    - [PaymentDrains] ([use_cases/drain_lock_payments.rs],
      [application/ports/payment_drain.rs], [payment_drain_repository.rs]): settling the
      payments of a deletion against a drain repository, a provider and an
      entitlement store, each a class; [PaymentSafe]: the traces of outside calls it
      may make.  [PaymentDrainDb] ([postgres/payment_drains.rs]): the database behind
      the drain repository, table by table and statement by statement;
      [PaymentDrainHistory]: how its rows evolve, and the use case run on it.
    - [DeletionWorker] ([locks-server/src/deletion_worker.rs],
      [app_state/readiness.rs]): one iteration of the worker, its retries and the
      readiness it reports, with its theorems for any executor; [DeletionServer]: for the
      executor of the server.
    - [FoldedAuth] ([application/models/folded_auth.rs],
      [infrastructure/folded_auth.rs]), [FoldedStore] ([memory/folded_auth.rs]): attempts
      to authorise a graph verification by a wallet, the cipher of their secrets and
      their repository on the shared fence; [FoldedInv], [FoldedSteps]: its invariant
      and histories, in which graph and payment tasks take part; [FoldedSafe]: what
      histories guarantee; [FoldedUse] ([use_cases/poll_folded_auth.rs],
      [locks-server/src/folded_auth_cleanup.rs]): one poll and one cleanup;
      [FoldedFlights]: the histories together with the polls under way; [FoldedServer]
      ([api/verification.rs], the origin checks of [api/routes.rs] and
      [config/validation.rs]): the handlers of version 2 submissions and of status
      lookups, on both repositories of the fence.
    - [Connect] ([models/creator_authority.rs], [models/frontend_session.rs],
      [ports/creator_authority.rs] and their use cases, the managers of
      [pubky/legacy_creator_authority.rs]): how a creator grants the server authority over a
      homeserver and gets a browser session; its stores are a class, [ConnectStore], whose
      laws ([ConnectLaws]) say when a flow and a code are there and when they are taken.
      [ConnectDb] ([app_state/private_runtime.rs], [postgres/creator_connect_flows.rs],
      [postgres/frontend_sessions.rs], [postgres/creator_authority.rs]): both
      implementations, the cipher of stored secrets, and proofs of the laws; [ConnectSafe]:
      histories of a store and the events runs leave in them; [ConnectServer]
      ([api/creator_authority.rs], [api/auth.rs]): the connection end to end, its handlers
      and the encodings of what reaches the browser.
    - [TaskTables]: the tables behind graph tasks and folded attempts, with the checks
      the migrations put on them.  [GraphDb] ([postgres/graph_tasks.rs]): every statement
      of the Postgres repository of graph tasks; [GraphDbSim]: what the rows it writes
      decode to, the relation between the tables and the in-memory repository, and the
      operations that write one row; [GraphDbSafe]: admission, claims and the theorems.
      [FoldedDb] ([postgres/folded_auth.rs]), [FoldedDbSim], [FoldedDbSafe]: the same for
      folded attempts.
    - [Witnesses], [DeletionWitnesses], [TaskWitnesses], [SubmissionWitnesses],
      [ExecWitnesses], [FoldedWitnesses], [DbWitnesses]: concrete instances of the theorems
      that have hypotheses.

    ** What the theorems show

    - End to end: the plan a worker computes for a claimed task is what the
      repository stores ([Lanes.worker_plan_is_stored],
      [Lanes.payment_plan_is_stored]), and an entitlement is prepared only
      with evidence of the payment.
    - Access: a guarded read returns only bytes the lock describes, to the bearer of
      a current credential with a valid entitlement or of one a deletion still
      serves ([AccessUse.proxy_read_authorized]); credentials are issued within the
      policy and not for a lock under deletion, or by a deletion that still serves
      reads and until its deadline ([issued_credential_bounded]); a failed final read gives its claim back ([failed_read_returns_claim]).
    - Deletion: content is deleted only when everything owed is settled
      ([DeletionHistory.deletion_honours_obligations]); publication and deletion of a
      lock exclude each other ([publication_excludes_deletion]); jobs move forward,
      leases are exclusive and no active job blocks the queue ([deletion_history],
      [deletion_lease_exclusive], [active_job_claimable]); a bundle gets one final
      credential and each of its resources is read at most once
      ([AccessReads.final_credential_replayed], [final_read_at_most_once]); its
      envelope opens only for its own context ([Secrets.final_credential_envelope]).
    - Execution of deletions: whatever calls are lost and whatever others do, an
      execution only makes changes its claim allows, in the lane of its job, and its
      outcome is true ([DeletionEffects.graceful_execution_safe],
      [forced_execution_safe]); undisturbed it touches nothing else
      ([graceful_execution_alone], [forced_execution_alone]); a phase whose conditions
      and obligations are met is left, the payments and the last one apart
      ([DeletionProgress.phase_progresses]); the worker keeps the repository's invariant
      ([DeletionWorker.runtime_tick_ok]), retries with capped delays, returns claims on
      shutdown and reports readiness by what it last observed
      ([transient_failure_retried], [shutdown_returns_claim],
      [readiness_reports_last_observation], [retry_cap_spec]).
    - Payments of a deletion: every write is justified by earlier answers
      ([PaymentSafe.payment_drain_safe]); on the database, obligations are settled
      once, together with their tasks, and no later call of the drain's repository
      changes them ([PaymentDrainHistory.obligation_settled_once]),
      the three checks of progress agree ([progress_checks_agree]), and a drain that
      is over has settled every payment it admitted ([payments_settled]).
    - Folded authorisation: a handle is reserved exactly while an attempt of it is
      pending ([FoldedSteps.folded_invariant]); an approval binds the task to the
      attempt and to the approving reader and settles the handle for good
      ([FoldedSafe.acceptance_settles_handle]); no attempt has two polls under way
      ([FoldedFlights.one_poll_at_a_time]), and a poll reports the truth whatever is
      lost and asks the wallet with the secret its attempt was started with
      ([FoldedUse.poll_reports_truth], [FoldedServer.folded_status_answer]);
      secrets are restored as they were handed over and bound to their attempt
      ([FoldedSafe.flow_secret_restored]); the cleanup is exact ([cleanup_exact]); the
      answer to a version 2 submission is true and wallet flows start only for
      permitted origins ([FoldedServer.v2_submission_answer], [auth_cors_echo]).
    - Postgres and memory: from related states the two repositories of graph tasks and
      the two of folded attempts give the same answers and stay related, but for the
      differences the theorems list ([GraphDbSafe.graph_adapters_agree],
      [FoldedDbSafe.folded_adapters_agree]); a
      claim in Postgres takes the oldest task that is due
      ([GraphDbSafe.pg_claim_takes_oldest]).
    - Connection of creators: however runs interleave, a flow gives one authority and one
      code, a code one session, and both only after the approval of that very flow
      ([ConnectSafe.connect_granted_once]); undisturbed, a creator who approves in time is
      connected ([ConnectServer.connect_succeeds]); the code goes to an allowed origin
      only and arrives as it is ([callback_delivered]), values in the page cannot leave
      their place ([escaped_value_intact], [js_literal_stays_inside]), and stored secrets are
      read back as they were and bound to their creator ([ConnectDb.authority_restored]).
    - Creation of locks: whatever calls are lost, a reported success is a finished
      publication, and a failure leaves nothing public or a publication that is
      fenced or can be taken up again ([CreateLock.create_lock_outcome]); answered
      calls lead to publication ([create_lock_completes]); a refused write is undone
      completely ([refused_write_undone]).
    - Submissions: a success always stands for a stored task of that very submission
      ([Submission.submission_outcome]), a repetition finds it and changes nothing
      ([resubmission_finds_task]), and a payment is admitted on the terms of the lock
      ([paykit_submission_admitted]); errors that reach clients carry no internal
      detail ([ApiErrors.api_errors_opaque]).
    - Version 1 tasks: the four places a task lives in agree in every history, records
      follow the lifecycle and no work is lost ([TaskInv.task_store_invariant],
      [task_history], [task_claimable]); a tick of either worker is safe among the
      calls of the others ([TaskWorker.verification_tick_safe],
      [InvoiceWorker.invoice_tick_safe]), and the Paykit verifier accepts exactly
      qualifying payments ([Verifiers.paykit_verifier_spec]).
    - Publication: only the entitlement of a satisfied task is written, under the
      worker's own live claim; the task completes only after a read has shown it;
      and a deferred attempt can be taken up again
      ([Publication.payment_publication_safe], [payment_publication_resumes],
      [graph_publication_safe]).
    - Reducers: total on valid snapshots, validity kept, terminal roots permanent.
      The graph reducer decides before the deadline exactly what every completion
      of the open predicates agrees on; the payment reducer settles exactly on an
      accepted request with threshold evidence
      ([GraphTask.reduce_graph_snapshot_spec],
      [PaymentTask.reduce_payment_snapshot_spec]).
    - Repository: an invariant of every reachable state, exclusive leases, and the
      behaviour of snapshot replacement on every branch
      ([GraphStore.graph_store_invariant], [graph_lease_exclusive],
      [persist_claimed_graph_snapshot_spec]); the two lanes on one fence stay
      consistent and disjoint ([PaymentStore.lanes_invariant],
      [payment_lease_exclusive]), and admission of payment tasks is idempotent
      ([admit_payment_task_idempotent]).
    - Workers: every evaluation of a claimed pending task yields a plan the
      repository's checks accept, whatever the answers
      ([GraphWorker.evaluate_claimed_task_accepted],
      [PaymentWorker.evaluate_claimed_payment_accepted]).
    - Histories: accepted replacements never contradict a decided graph root, lose
      a created invoice or threshold evidence ([graph_replacement_keeps_decision],
      [payment_history_monotone], [PaymentStore.payment_task_history]); task records
      stay consistent and terminal ones never change
      ([Lifecycle.lifecycle_history]); published paths keep their owner
      ([Ownership.ownership_exclusive]).
    - Validators: each accepts exactly a declaratively stated set
      ([content_lock_v2_validate_spec], [resource_set_validators_agree],
      [paykit_payment_v1_policy_spec], [verified_publication_spec],
      [content_lock_submission_spec], [evaluate_entitlement_spec],
      [transition_to_spec], [reserve_paths_spec]).
    - Defects: some theorems state behaviour the code does not intend: deletions that
      are never completed ([DeletionServer.deletion_never_completes]), a retry
      planned for the deadline that the in-memory repository refuses
      ([GraphStore.retry_at_deadline_refused]), an accepted invoice that fails its
      task ([PaymentWorker.equal_invoice_timestamps_fail_task]), a completed task
      that a deletion freezes as pending
      ([TaskInv.completed_task_pending_in_fence]), a resumed job whose worker loses
      its claim in the access store only
      ([DeletionHistory.resume_detaches_running_claim]), a credential revoked by a
      transient failure ([AccessUse.repository_failure_revokes_credential]), paid
      version 2 entitlements that give no access
      ([AccessUse.payment_entitlement_refused]), payment submissions that take a
      handle reserved by a folded attempt
      ([Submission.reserved_handle_taken_by_payment]), graph evaluations that a worker
      cannot give back in Postgres ([GraphDbSafe.claimed_evaluation_not_released]), a
      poll that another caller's early expiry takes away
      ([FoldedDbSafe.early_expire_frees_poll]), an invoice task that is lost when its
      admission is ready before the task is registered
      ([TaskInv.ready_before_registered_lost]) and used codes that Postgres reports as
      missing ([ConnectDb.code_replay_answers]).
    - Round trips and bounds: identifiers and storage strings parse back, sums are
      exact or reported as overflow, quotas are exact and token credit is bounded
      by burst and rate.

    ** Modelling choices

    - An asynchronous operation that holds its locks throughout is one step.  The
      insertions of the version 1 task store and the call that marks an admission ready
      do not: they release their locks before they tell the claimer, and the latter also
      before it tells the fence.  They are one step in the histories; their parts are
      definitions of their own ([insert_verification_task_writes], [tell_claimer],
      [insert_invoice_pending_task_writes], [mark_invoice_admission_ready_writes],
      [admission_ready_in_fence], [admission_ready_in_queue]), and
      [ready_before_registered_lost] shows an interleaving of them that loses a task.
      Fresh UUIDs, clock readings, Nexus and provider answers, their order of
      completion and the jitter are arguments, so that the theorems quantify over
      them.
    - Histories of the payment repository admit tasks under fresh identifiers and
      persist at evaluator revisions below [u64::MAX]: identifiers are random UUIDs
      and revisions count accepted writes from zero.
    - While a worker publishes, the repository moves only by that worker's calls:
      the action guard holds the lock's admission mutex and the lease keeps others
      from the task.  The v1 worker and the access use cases hold no such guard:
      between any two of their calls the others may act, as far as they have the
      tokens for it ([rely] of [TaskWorker], [interfere], [others]).
    - An execution of a deletion is named by a number; the lanes map a job to the
      execution that holds it, which the source leaves to a guard object.  Between any
      two calls of an execution the others may act ([others]), each call may be lost or
      unanswered ([Fate]), and the time is part of the store.
    - A class stands for a port whose implementations differ ([PaymentDrains],
      [PaykitDrainClient], [EntitlementStoreV1]); the theorems about traces hold for
      all of them, those about the database for [served_drains] and its companions,
      which answer from a [PaymentWorld].
    - A poll of the wallet is a function of the moment and the secret; how often its
      lease is renewed meanwhile is arbitrary.  The folded repository reads its own
      clock at each call.  State tokens are random, so in [FoldedFlights] their hashes
      are new, and in [FoldedServer] the others of a handler do not reissue one.
    - The proof about one poll is made once, against [PollSystem]: a system of processes
      that share the repository.  The histories of the repository are an instance, and so
      are the histories with the polls under way, each held by its process.
    - The entitlement store of a tick of the version 1 worker is not assumed to keep
      anything: a publication is the call that inserts and the call that reads back
      ([published_by]).  What other users of the task store let their tasks publish is
      assumed to be due ([backed]), which every tick guarantees in turn.
    - A table is a finite map from its key to rows with the columns the statements
      use, a statement a function on the tables with the statement's [WHERE] and
      [SET], a transaction one step, since it first locks the rows it changes or takes the
      advisory lock of its admission.  A statement reads the database's clock once.  The
      checks and unique indexes of [verification_tasks] and [folded_auth_attempts] are part
      of [TaskTables]; the constraints of the tables of payment drains, foreign keys, the
      JSON text of a column, [updated_at] and the words of database errors are not
      represented.  The insertion of a graph task is given two databases, the one its
      searches read and the one it writes, and a claim the set of rows others have locked.
    - Creating a lock is proved for one request at a time: the repositories and the
      public store move only by its calls, each of which may be lost or unanswered.
    - The clock of a use case is a sequence of readings, consumed in order; the
      repositories it only reads may answer differently at each point of the run.
      Histories of the deletion repository have non-decreasing clock readings, and
      between its operations tasks and path ownership may change in any way.
    - A history of the connect stores is any sequence of calls of the ports, in the order in
      which they took effect; what it logs is an interleaving of the logs of single runs,
      each of which saw a store others were changing.
    - Where the source iterates a [HashMap], the model goes through the map's list
      of bindings and only uses order-independent results, or takes the order as an
      argument where the result depends on it; where it iterates a [BTreeMap], in
      key order.
    - Expiring the open tasks of a lock takes the locks of the task repository and of
      the fence one after the other in the source; here it is one step.
    - Recursion is structural except for the UTF-8 chunking of [RustStr], whose
      fuel is the length of the string: each chunk consumes at least one byte.
    - Additions of durations to times do not overflow (the source would panic);
      a poisoned mutex and allocation failure are not modelled.
    - Byte strings given to [str] operations are arbitrary; nothing depends on
      their being valid UTF-8.

    ** Not modelled, and the plan

    The SQL adapters of payment and version 1 tasks, deletions, credentials and ownership, the
    other HTTP routes, the clients of homeservers and of the payment provider, configuration,
    process start-up and the SDK are I/O and glue.  Of the page that starts a connection the
    template, its scripts and the QR code are text. *)

From stdpp Require Export sorting prelude gmap strings.
From stdpp Require Export list_relations list_basics list.

#[global] Open Scope Z_scope.

(** * Results

    Rust's [Result<T, E>].  The error type comes first so that [result E] is a
    monad; the [x ← e; k] notation then reads like the source's [?] operator. *)

Inductive result (E A : Type) : Type :=
  | Ok (a : A)
  | Err (e : E).
Arguments Ok {E A} a.
Arguments Err {E A} e.

#[global] Instance result_ret E : MRet (result E) := λ A a, Ok a.

#[global] Instance result_bind E : MBind (result E) := λ A B f r,
  match r with Ok a => f a | Err e => Err e end.

#[global] Instance result_fmap E : FMap (result E) := λ A B f r,
  match r with Ok a => Ok (f a) | Err e => Err e end.

#[global] Instance result_eq_dec {E A} `{EqDecision E, EqDecision A} :
  EqDecision (result E A).
Proof. solve_decision. Defined.

(** [Option::ok_or]. *)
Definition ok_or {E A} (o : option A) (e : E) : result E A :=
  match o with Some a => Ok a | None => Err e end.

(** [Result::map_err]. *)
Definition map_err {E E' A} (f : E → E') (r : result E A) : result E' A :=
  match r with Ok a => Ok a | Err e => Err (f e) end.

(** [Result::ok]. *)
Definition ok {E A} (r : result E A) : option A :=
  match r with Ok a => Some a | Err _ => None end.

Definition is_ok {E A} (r : result E A) : bool :=
  match r with Ok _ => true | Err _ => false end.

(** [if cond { return Err(e); }]. *)
Definition reject_if {E} (cond : bool) (e : E) : result E () :=
  if cond then Err e else Ok ().

(** [for x in xs { check(x)?; }]. *)
Fixpoint try_for_each {E A} (check : A → result E ()) (xs : list A) : result E () :=
  match xs with
  | [] => Ok ()
  | x :: xs => _ ← check x; try_for_each check xs
  end.

(** * Options as booleans *)

Definition is_some {A} (o : option A) : bool :=
  match o with Some _ => true | None => false end.

Definition is_none {A} (o : option A) : bool :=
  match o with Some _ => false | None => true end.

(** [Option::is_some_and] and [Option::is_none_or]. *)
Definition is_some_and {A} (p : A → bool) (o : option A) : bool :=
  match o with Some a => p a | None => false end.

Definition is_none_or {A} (p : A → bool) (o : option A) : bool :=
  match o with Some a => p a | None => true end.

(** [Option::get_or_insert]: the stored value, initialised when absent. *)
Definition get_or_insert {A} (o : option A) (a : A) : option A :=
  match o with Some _ => o | None => Some a end.

Declare Scope locks_scope.
Delimit Scope locks_scope with locks.

(** [==] and [!=] on types with decidable equality. *)
Definition eqb {A} `{EqDecision A} (a b : A) : bool := bool_decide (a = b).
#[global] Arguments eqb {A _} a b : simpl never.
Notation "a == b" := (eqb a b) (at level 70, no associativity) : locks_scope.
Notation "a != b" := (negb (eqb a b)) (at level 70, no associativity) : locks_scope.
#[global] Open Scope locks_scope.

(** * Machine integers

    [u8], [u16], [u32], [u64] and [usize] values are kept as [Z]; the operations
    below write out what the width does. *)

Definition U8_MAX : Z := 2 ^ 8 - 1.
Definition U16_MAX : Z := 2 ^ 16 - 1.
Definition U32_MAX : Z := 2 ^ 32 - 1.
Definition U64_MAX : Z := 2 ^ 64 - 1.
Definition I64_MAX : Z := 2 ^ 63 - 1.

Definition checked_add (max a b : Z) : option Z :=
  if a + b <=? max then Some (a + b) else None.

Definition saturating_add (max a b : Z) : Z := Z.min max (a + b).

(** Unsigned saturating subtraction. *)
Definition saturating_sub (a b : Z) : Z := Z.max 0 (a - b).

(** [(lo..=hi).contains(&x)]. *)
Definition in_range (lo hi x : Z) : bool := (lo <=? x) && (x <=? hi).

(** * Time

    [OffsetDateTime] values are compared and subtracted as instants: nanoseconds
    since the Unix epoch.  [Duration] is a signed count of nanoseconds. *)

Abbreviation OffsetDateTime := Z (only parsing).
Abbreviation Duration := Z (only parsing).

Definition NANOS_PER_SEC : Z := 1000000000.

(** [Duration::seconds] and [Duration::minutes]. *)
Definition seconds (n : Z) : Duration := n * NANOS_PER_SEC.
Definition minutes (n : Z) : Duration := n * 60 * NANOS_PER_SEC.

(** [Duration::whole_seconds]: truncates toward zero. *)
Definition whole_seconds (d : Duration) : Z := Z.quot d NANOS_PER_SEC.

(** [OffsetDateTime::nanosecond]: the sub-second part, always non-negative. *)
Definition nanosecond (t : OffsetDateTime) : Z := t mod NANOS_PER_SEC.

(** [n.is_multiple_of(m)] for [m <> 0]. *)
Definition is_multiple_of (n m : Z) : bool := n mod m =? 0.

(** [Option<OffsetDateTime>] comparisons of the shape
    [o.is_some_and(|t| t <= now)]. *)
Definition opt_le (o : option Z) (now : Z) : bool := is_some_and (λ t, t <=? now) o.
Definition opt_gt (o : option Z) (now : Z) : bool := is_some_and (λ t, now <? t) o.

(** * Ordered maps

    A [BTreeMap<String, V>] is a [gmap string V]; its iterators visit the entries
    in key order, which [btree_iter] makes explicit. *)

Definition key_le {V} (a b : string * V) : Prop := String.le a.1 b.1.

#[global] Instance key_le_dec {V} : RelDecision (@key_le V).
Proof. intros a b. unfold key_le. apply _. Defined.

Definition btree_iter {V} (m : gmap string V) : list (string * V) :=
  merge_sort key_le (map_to_list m).

(** [HashMap::values]: the iteration order is unspecified in Rust; [gmap] fixes
    one.  Statements below either do not depend on it or quantify over states in
    which at most one value matches. *)
Definition hash_values {K V} `{Countable K} (m : gmap K V) : list V :=
  (map_to_list m).*2.

(** * Lemmas on the shared definitions *)

Create HintDb locks discriminated.

Section result_lemmas.
Context {E : Type}.

Lemma bind_of_Ok {A B} a (f : A → result E B) : (Ok a ≫= f) = f a.
Proof. done. Qed.

Lemma bind_Ok {A B} (r : result E A) (f : A → result E B) b :
  (r ≫= f) = Ok b ↔ ∃ a, r = Ok a ∧ f a = Ok b.
Proof. destruct r; cbn; naive_solver. Qed.

Lemma bind_Err {A B} (r : result E A) (f : A → result E B) e :
  (r ≫= f) = Err e ↔ r = Err e ∨ ∃ a, r = Ok a ∧ f a = Err e.
Proof. destruct r; cbn; naive_solver. Qed.

Lemma fmap_Ok {A B} (r : result E A) (f : A → B) b :
  (f <$> r) = Ok b ↔ ∃ a, r = Ok a ∧ b = f a.
Proof. destruct r; cbn; naive_solver. Qed.

Lemma reject_if_Ok (cond : bool) (e : E) u :
  reject_if cond e = Ok u ↔ cond = false.
Proof. destruct cond, u; cbn; naive_solver. Qed.

Lemma reject_if_Err (cond : bool) (e e' : E) :
  reject_if cond e = Err e' ↔ cond = true ∧ e' = e.
Proof. destruct cond; cbn; naive_solver. Qed.

Lemma ok_or_Ok {A} (o : option A) (e : E) a : ok_or o e = Ok a ↔ o = Some a.
Proof. destruct o; cbn; naive_solver. Qed.

Lemma ok_or_Err {A} (o : option A) (e e' : E) :
  ok_or o e = Err e' ↔ o = None ∧ e' = e.
Proof. destruct o; cbn; naive_solver. Qed.

Lemma map_err_Ok {E' A} (f : E → E') (r : result E A) a :
  map_err f r = Ok a ↔ r = Ok a.
Proof. destruct r; cbn; naive_solver. Qed.

Lemma map_err_Err {E' A} (f : E → E') (r : result E A) e' :
  map_err f r = Err e' ↔ ∃ e, r = Err e ∧ e' = f e.
Proof. destruct r; cbn; naive_solver. Qed.

Lemma is_ok_true {A} (r : result E A) : is_ok r = true ↔ ∃ a, r = Ok a.
Proof. destruct r; cbn; naive_solver. Qed.

Lemma try_for_each_Ok {A} (check : A → result E ()) xs u :
  try_for_each check xs = Ok u ↔ Forall (λ x, check x = Ok ()) xs.
Proof.
  destruct u. induction xs as [|x xs IH]; cbn.
  { split; [constructor | done]. }
  rewrite Forall_cons, <- IH, bind_Ok.
  split; [intros ([] & ? & ?) | intros [? ?]]; eauto.
Qed.
End result_lemmas.

Section option_lemmas.
Context {A : Type}.
Implicit Types o : option A.

Lemma is_some_true o : is_some o = true ↔ is_Some o.
Proof. destruct o; cbn; split; naive_solver. Qed.
Lemma is_some_false o : is_some o = false ↔ o = None.
Proof. destruct o; cbn; naive_solver. Qed.
Lemma is_none_true o : is_none o = true ↔ o = None.
Proof. destruct o; cbn; naive_solver. Qed.
Lemma is_none_false o : is_none o = false ↔ is_Some o.
Proof. destruct o; cbn; split; naive_solver. Qed.
Lemma is_some_and_true p o : is_some_and p o = true ↔ ∃ a, o = Some a ∧ p a = true.
Proof. destruct o; cbn; naive_solver. Qed.
Lemma is_some_and_false p o : is_some_and p o = false ↔ ∀ a, o = Some a → p a = false.
Proof. destruct o; cbn; naive_solver. Qed.
Lemma is_none_or_true p o : is_none_or p o = true ↔ ∀ a, o = Some a → p a = true.
Proof. destruct o; cbn; naive_solver. Qed.
Lemma is_none_or_false p o : is_none_or p o = false ↔ ∃ a, o = Some a ∧ p a = false.
Proof. destruct o; cbn; naive_solver. Qed.
Lemma get_or_insert_is_Some o a : is_Some (get_or_insert o a).
Proof. destruct o; cbn; eauto. Qed.

Lemma eqb_true `{EqDecision A} (a b : A) : (a == b) = true ↔ a = b.
Proof. apply bool_decide_eq_true. Qed.
Lemma eqb_false `{EqDecision A} (a b : A) : (a == b) = false ↔ a ≠ b.
Proof. apply bool_decide_eq_false. Qed.
Lemma eqb_same `{EqDecision A} (a : A) : (a == a) = true.
Proof. by apply eqb_true. Qed.
End option_lemmas.

Section integer_lemmas.
Lemma checked_add_Some max a b c : checked_add max a b = Some c ↔ c = a + b ∧ a + b ≤ max.
Proof. unfold checked_add. case_match; naive_solver lia. Qed.
Lemma checked_add_None max a b : checked_add max a b = None ↔ max < a + b.
Proof. unfold checked_add. case_match; naive_solver lia. Qed.
Lemma in_range_true lo hi x : in_range lo hi x = true ↔ lo ≤ x ≤ hi.
Proof. unfold in_range. lia. Qed.
Lemma in_range_false lo hi x : in_range lo hi x = false ↔ x < lo ∨ hi < x.
Proof. unfold in_range. lia. Qed.
End integer_lemmas.

Section btree_lemmas.
Context {V : Type}.
Implicit Types m : gmap string V.

Lemma btree_iter_perm m : btree_iter m ≡ₚ map_to_list m.
Proof. apply merge_sort_Permutation. Qed.

Lemma elem_of_btree_iter m k v : (k, v) ∈ btree_iter m ↔ m !! k = Some v.
Proof. by rewrite btree_iter_perm, elem_of_map_to_list. Qed.

Lemma Forall_btree_iter (P : string * V → Prop) m :
  Forall P (btree_iter m) ↔ ∀ k v, m !! k = Some v → P (k, v).
Proof.
  rewrite Forall_forall. split.
  - intros HP k v Hk. by apply HP, elem_of_btree_iter.
  - intros HP [k v] Hkv. by apply HP, elem_of_btree_iter.
Qed.

#[local] Instance key_le_total : Total (@key_le V).
Proof. intros a b. apply (total String.le). Qed.

(** The iteration really is in key order. *)
Lemma btree_iter_sorted m : Sorted key_le (btree_iter m).
Proof. apply Sorted_merge_sort, _. Qed.

Lemma btree_iter_nil m : btree_iter m = [] ↔ m = ∅.
Proof.
  split.
  - intros Hm. apply map_empty. intros k. destruct (m !! k) eqn:Hk; [|done].
    apply elem_of_btree_iter in Hk. rewrite Hm in Hk. by apply elem_of_nil in Hk.
  - intros ->. apply Permutation_nil_r. by rewrite btree_iter_perm, map_to_list_empty.
Qed.
End btree_lemmas.

Lemma elem_of_hash_values {K V} `{Countable K} (m : gmap K V) v :
  v ∈ hash_values m ↔ ∃ k, m !! k = Some v.
Proof.
  unfold hash_values. rewrite list_elem_of_fmap. split.
  - intros ([k v'] & -> & Hkv). exists k. by apply elem_of_map_to_list.
  - intros [k Hk]. exists (k, v). by rewrite elem_of_map_to_list.
Qed.

(** Peel a successful computation: each bound step, guard and lookup of the
    hypothesis becomes a fact about the program's condition. *)
Ltac peel_step :=
  match goal with
  | H : (_ ≫= _) = Ok _ |- _ => apply bind_Ok in H as (? & ? & ?)
  | H : (_ <$> _) = Ok _ |- _ => apply fmap_Ok in H as (? & ? & ?)
  | H : reject_if _ _ = Ok _ |- _ => apply reject_if_Ok in H
  | H : ok_or _ _ = Ok _ |- _ => apply ok_or_Ok in H
  | H : map_err _ _ = Ok _ |- _ => apply map_err_Ok in H
  | H : try_for_each _ _ = Ok _ |- _ => apply try_for_each_Ok in H
  | H : Ok _ = Ok _ |- _ => injection H as H; try subst
  | H : Err _ = Ok _ |- _ => discriminate H
  | H : Ok _ = Err _ |- _ => discriminate H
  | u : () |- _ => destruct u
  end.
Ltac peel := repeat peel_step.

(** Discharge the next check of a computation that is to succeed: the first goal
    is the check's condition, the second the rest of the computation. *)
Ltac pass :=
  cbn beta; cbn [ok_or]; try (rewrite bind_of_Ok; cbn beta);
  first [ apply bind_Ok; exists (); split;
          [first [apply reject_if_Ok | apply try_for_each_Ok | idtac] |]
        | apply reject_if_Ok | apply try_for_each_Ok ].

(** Turn the boolean conditions of the hypotheses into propositions. *)
Ltac props_step :=
  match goal with
  | H : negb _ = true |- _ => apply negb_true_iff in H
  | H : negb _ = false |- _ => apply negb_false_iff in H
  | H : (_ || _) = false |- _ => apply orb_false_iff in H as [? ?]
  | H : (_ && _) = true |- _ => apply andb_true_iff in H as [? ?]
  | H : eqb _ _ = true |- _ => apply (proj1 (eqb_true _ _)) in H
  | H : eqb _ _ = false |- _ => apply (proj1 (eqb_false _ _)) in H
  | H : is_some _ = true |- _ => apply is_some_true in H
  | H : is_some _ = false |- _ => apply is_some_false in H
  | H : is_none _ = true |- _ => apply is_none_true in H
  | H : is_none _ = false |- _ => apply is_none_false in H
  | H : bool_decide _ = true |- _ => apply (proj1 (bool_decide_eq_true _)) in H
  | H : bool_decide _ = false |- _ => apply (proj1 (bool_decide_eq_false _)) in H
  | H : in_range _ _ _ = true |- _ => apply in_range_true in H
  | H : in_range _ _ _ = false |- _ => apply in_range_false in H
  | H : (_ <? _) = true |- _ => apply Z.ltb_lt in H
  | H : (_ <? _) = false |- _ => apply Z.ltb_ge in H
  | H : (_ <=? _) = true |- _ => apply Z.leb_le in H
  | H : (_ <=? _) = false |- _ => apply Z.leb_gt in H
  | H : (_ =? _) = true |- _ => apply Z.eqb_eq in H
  | H : (_ =? _) = false |- _ => apply Z.eqb_neq in H
  end.
Ltac props := repeat props_step.

(** Case on the first [if] or [match] of the goal (or a hypothesis), remembering
    the condition. *)
Ltac split_match :=
  match goal with
  | |- context [if ?c then _ else _] => destruct c eqn:?
  | |- context [match ?c with _ => _ end] => destruct c eqn:?
  end.
Tactic Notation "split_match" "in" hyp(H) :=
  match type of H with
  | context [if ?c then _ else _] => destruct c eqn:?
  | context [match ?c with _ => _ end] => destruct c eqn:?
  end.

#[export] Hint Resolve eqb_same get_or_insert_is_Some : locks.
