(* ===== verification/HashMaps.v ===== *)
(** Iteration over Rust's [HashMap].

    [HashMap::iter] visits the entries in an unspecified order.  [find_entry] goes
    through the map's list of entries; [find_entry_unique] shows that the order
    does not matter where at most one entry matches.  Where several may match, the
    operations of the model take the order as an argument. *)

From S2P Require Import Prelude.

(** [map.iter().find(|(k, v)| p(k, v))]. *)
Definition find_entry {K V} `{Countable K} (p : K → V → bool) (m : gmap K V) : option (K * V) :=
  snd <$> list_find (λ kv, p kv.1 kv.2 = true) (map_to_list m).

(** [map.values().any(|v| p(v))]. *)
Definition any_value {K V} `{Countable K} (p : V → bool) (m : gmap K V) : bool :=
  existsb p (hash_values m).

(** [iter.min_by_key(key)]: the first of the least elements; [lt] compares the keys. *)
Fixpoint min_by {A} (lt : A → A → bool) (l : list A) : option A :=
  match l with
  | [] => None
  | x :: l =>
      match min_by lt l with
      | Some y => if lt y x then Some y else Some x
      | None => Some x
      end
  end.

(** Rust's order on [Option]: [None] before every [Some]. *)
Definition option_compare (a b : option Z) : comparison :=
  match a, b with
  | None, None => Eq
  | None, Some _ => Lt
  | Some _, None => Gt
  | Some a, Some b => a ?= b
  end.

(** Lexicographic comparison of tuples. *)
Definition then_compare (a b : comparison) : comparison :=
  match a with Eq => b | _ => a end.

Definition is_lt (c : comparison) : bool :=
  match c with Lt => true | _ => false end.

Section lemmas.
  Context {K V : Type} `{Countable K}.
  Implicit Types (m : gmap K V) (p : K → V → bool).

Lemma find_entry_Some p m k v :
  find_entry p m = Some (k, v) → m !! k = Some v ∧ p k v = true.
Proof.
  unfold find_entry. intros ([i [k' v']] & Hf & Heq)%fmap_Some. injection Heq as -> ->.
  apply list_find_Some in Hf as (Hi & Hp & _). split; [|done].
  apply elem_of_map_to_list, list_elem_of_lookup. by exists i.
Qed.

Lemma find_entry_None p m : find_entry p m = None ↔ ∀ k v, m !! k = Some v → p k v = false.
Proof.
  unfold find_entry. rewrite fmap_None, list_find_None, Forall_forall. split.
  - intros Hall k v Hk. apply not_true_iff_false, (Hall (k, v)), elem_of_map_to_list, Hk.
  - intros Hall [k v] Hk%elem_of_map_to_list. apply not_true_iff_false. by apply Hall.
Qed.

Lemma find_entry_unique p m k v :
  m !! k = Some v → p k v = true →
  (∀ k' v', m !! k' = Some v' → p k' v' = true → k' = k) →
  find_entry p m = Some (k, v).
Proof.
  intros Hk Hp Huniq. destruct (find_entry p m) as [[k' v']|] eqn:Hf.
  - apply find_entry_Some in Hf as [Hk' Hp']. assert (k' = k) as -> by eauto.
    rewrite Hk in Hk'. by injection Hk' as <-.
  - by rewrite (proj1 (find_entry_None p m) Hf _ _ Hk) in Hp.
Qed.

Lemma any_value_true (p : V → bool) m :
  any_value p m = true ↔ ∃ k v, m !! k = Some v ∧ p v = true.
Proof.
  unfold any_value. rewrite existsb_exists. setoid_rewrite <- list_elem_of_In.
  setoid_rewrite elem_of_hash_values. naive_solver.
Qed.

Lemma any_value_false (p : V → bool) m :
  any_value p m = false ↔ ∀ k v, m !! k = Some v → p v = false.
Proof.
  split.
  - intros Hf k v Hk. apply not_true_iff_false. intros Hp.
    rewrite (proj2 (any_value_true p m)) in Hf by eauto. done.
  - intros Hall. apply not_true_iff_false. intros (k & v & Hk & Hp)%any_value_true.
    by rewrite (Hall k v Hk) in Hp.
Qed.
End lemmas.

Lemma min_by_elem {A} (lt : A → A → bool) l x : min_by lt l = Some x → x ∈ l.
Proof.
  revert x. induction l as [|y l IH]; cbn; [done|]. intros x.
  destruct (min_by lt l) as [z|] eqn:Hz.
  - destruct (lt z y); intros [= <-]; [right; by apply IH|left].
  - intros [= <-]. left.
Qed.

Lemma min_by_None {A} (lt : A → A → bool) l : min_by lt l = None ↔ l = [].
Proof.
  destruct l as [|y l]; cbn; [done|]. split; [|done].
  destruct (min_by lt l); [destruct (lt a y)|]; done.
Qed.

(** A least element: nothing in the list is below it. *)
Lemma min_by_least {A} (lt : A → A → bool) (le : A → A → Prop) l x :
  (∀ a b, lt a b = false → le b a) → (∀ a b, lt a b = true → le a b) →
  (∀ a b c, le a b → le b c → le a c) → (∀ a, le a a) →
  min_by lt l = Some x → ∀ y, y ∈ l → le x y.
Proof.
  intros Hge Hlt Htrans Hrefl. revert x. induction l as [|z l IH]; cbn; [done|]. intros x.
  destruct (min_by lt l) as [w|] eqn:Hw.
  - specialize (IH w eq_refl). destruct (lt w z) eqn:Hc; intros [= <-] y [->|Hy]%elem_of_cons;
      eauto.
  - apply min_by_None in Hw as ->. intros [= <-] y [->|Hy]%elem_of_cons; [done|].
    by apply elem_of_nil in Hy.
Qed.
