(* ===== verification/RustStr.v ===== *)
(** Rust's [str] and [String]: a string is its sequence of UTF-8 bytes.

    The operations are the standard-library methods the sources call:
    [starts_with], [strip_prefix], [strip_suffix], [contains], [find],
    [split_at], [len], [bytes], [chars], [trim] and [parse::<u64>], with the
    lemmas the components share. *)

From S2P Require Import Prelude.
From Stdlib Require Ascii.
From Stdlib Require String.

Abbreviation ascii := Ascii.ascii.
Abbreviation list_ascii_of_string := String.list_ascii_of_string.
Abbreviation string_of_list_ascii := String.string_of_list_ascii.

Definition str_len (s : string) : Z := Z.of_nat (String.length s).

Definition byte_val (c : ascii) : Z := Z.of_N (Ascii.N_of_ascii c).

(** * Prefixes, suffixes and substrings *)

Fixpoint strip_prefix (pre s : string) : option string :=
  match pre, s with
  | EmptyString, _ => Some s
  | String a pre, String b s => if a == b then strip_prefix pre s else None
  | String _ _, EmptyString => None
  end.

Definition starts_with (pre s : string) : bool := is_some (strip_prefix pre s).

Fixpoint strip_suffix (suf s : string) : option string :=
  if s == suf then Some ""
  else match s with
       | EmptyString => None
       | String c s => String c <$> strip_suffix suf s
       end.

(** [str::find] on a string pattern: the byte offset of the first occurrence. *)
Fixpoint find (pat s : string) : option nat :=
  if starts_with pat s then Some O
  else match s with
       | EmptyString => None
       | String _ s => S <$> find pat s
       end.

Definition contains (pat s : string) : bool := is_some (find pat s).

Fixpoint split_at (n : nat) (s : string) : string * string :=
  match n, s with
  | S n, String c s => let '(l, r) := split_at n s in (String c l, r)
  | _, _ => ("", s)
  end.

(** * Bytes *)

Definition bytes_all (p : ascii → bool) (s : string) : bool :=
  forallb p (list_ascii_of_string s).

Definition bytes_any (p : ascii → bool) (s : string) : bool :=
  existsb p (list_ascii_of_string s).

Definition is_ascii_digit (c : ascii) : bool := in_range 48 57 (byte_val c).
Definition is_ascii_uppercase (c : ascii) : bool := in_range 65 90 (byte_val c).
Definition is_ascii_hexdigit (c : ascii) : bool :=
  is_ascii_digit c || in_range 65 70 (byte_val c) || in_range 97 102 (byte_val c).

(** [s.parse::<u64>()]: an optional [+], then at least one decimal digit, failing
    on overflow. *)
Definition digits_value (l : list ascii) : Z :=
  fold_left (λ acc c, acc * 10 + (byte_val c - 48)) l 0.

Definition parse_u64 (s : string) : option Z :=
  let body := default s (strip_prefix "+" s) in
  if (body == "") || negb (bytes_all is_ascii_digit body) then None
  else let v := digits_value (list_ascii_of_string body) in
       if v <=? U64_MAX then Some v else None.

(** * Characters

    The UTF-8 decoder splits the bytes at character boundaries; [str]s are valid
    UTF-8, so the lead byte of a character tells its width. *)

Definition char_width (lead : ascii) : nat :=
  let b := byte_val lead in
  if b <? 192 then 1%nat
  else if b <? 224 then 2%nat
  else if b <? 240 then 3%nat
  else 4%nat.

Fixpoint utf8_chunks_fuel (fuel : nat) (l : list ascii) : list (list ascii) :=
  match fuel, l with
  | S fuel, b :: r =>
      let k := pred (char_width b) in
      if (k <=? length r)%nat
      then (b :: take k r) :: utf8_chunks_fuel fuel (drop k r)
      else [b] :: utf8_chunks_fuel fuel r
  | _, _ => []
  end.

Definition utf8_chunks (l : list ascii) : list (list ascii) :=
  utf8_chunks_fuel (length l) l.

Definition cont (b : ascii) : Z := Z.land (byte_val b) 63.

Definition code_point (c : list ascii) : Z :=
  match c with
  | [a] => byte_val a
  | [a; b] => Z.lor (Z.shiftl (Z.land (byte_val a) 31) 6) (cont b)
  | [a; b; c] =>
      Z.lor (Z.shiftl (Z.land (byte_val a) 15) 12) (Z.lor (Z.shiftl (cont b) 6) (cont c))
  | [a; b; c; d] =>
      Z.lor (Z.shiftl (Z.land (byte_val a) 7) 18)
        (Z.lor (Z.shiftl (cont b) 12) (Z.lor (Z.shiftl (cont c) 6) (cont d)))
  | _ => 0
  end.

Definition chars (s : string) : list Z :=
  code_point <$> utf8_chunks (list_ascii_of_string s).

(** [char::is_control]: the general category Cc. *)
Definition is_control (c : Z) : bool := in_range 0 31 c || in_range 127 159 c.

(** [char::is_whitespace]: the property White_Space. *)
Definition is_whitespace (c : Z) : bool :=
  in_range 9 13 c || (c =? 32) || (c =? 133) || (c =? 160) || (c =? 5760)
  || in_range 8192 8202 c || (c =? 8232) || (c =? 8233) || (c =? 8239)
  || (c =? 8287) || (c =? 12288).

Fixpoint drop_while {A} (p : A → bool) (l : list A) : list A :=
  match l with
  | [] => []
  | x :: l' => if p x then drop_while p l' else l
  end.

Definition trim_chunks (cs : list (list ascii)) : list (list ascii) :=
  let ws c := is_whitespace (code_point c) in
  reverse (drop_while ws (reverse (drop_while ws cs))).

Definition trim (s : string) : string :=
  string_of_list_ascii (mjoin (trim_chunks (utf8_chunks (list_ascii_of_string s)))).

(** * Lemmas *)

Lemma append_cons c s t : String c s +:+ t = String c (s +:+ t).
Proof. done. Qed.

Lemma append_nil_l s : "" +:+ s = s.
Proof. done. Qed.

Ltac str_simpl := cbn; rewrite ?append_cons, ?append_nil_l; cbn.

Lemma append_nil_r s : s +:+ "" = s.
Proof. induction s as [|c s IH]; [done|]. by rewrite append_cons, IH. Qed.

Lemma append_assoc s t u : (s +:+ t) +:+ u = s +:+ (t +:+ u).
Proof. induction s as [|c s IH]; [done|]. by rewrite !append_cons, IH. Qed.

Lemma length_append s t : String.length (s +:+ t) = (String.length s + String.length t)%nat.
Proof. induction s as [|c s IH]; [done|]. rewrite append_cons. cbn [String.length]. lia. Qed.

Lemma append_inj_l s t u : s +:+ t = s +:+ u → t = u.
Proof. induction s as [|c s IH]; [done|]. rewrite !append_cons. intros [= H]. by apply IH. Qed.

Lemma strip_prefix_Some pre s r : strip_prefix pre s = Some r ↔ s = pre +:+ r.
Proof.
  revert s. induction pre as [|a pre IH]; intros [|b s]; str_simpl; [split; congruence..|].
  destruct (a == b) eqn:Hab; props; subst.
  - rewrite IH. clear IH. split; congruence.
  - clear IH. split; congruence.
Qed.

Lemma strip_prefix_app pre r : strip_prefix pre (pre +:+ r) = Some r.
Proof. by apply strip_prefix_Some. Qed.

Lemma starts_with_true pre s : starts_with pre s = true ↔ ∃ r, s = pre +:+ r.
Proof.
  unfold starts_with. rewrite is_some_true. split.
  - intros [r ?%strip_prefix_Some]. eauto.
  - intros [r ->]. rewrite strip_prefix_app. eauto.
Qed.

Lemma strip_suffix_app suf r : strip_suffix suf (r +:+ suf) = Some r.
Proof.
  induction r as [|c r IH].
  - rewrite append_nil_l. destruct suf; cbn; by rewrite eqb_same.
  - rewrite append_cons. cbn [strip_suffix].
    destruct (_ == suf) eqn:E; [|by rewrite IH].
    props. apply (f_equal String.length) in E.
    cbn [String.length] in E. rewrite length_append in E. lia.
Qed.

Lemma strip_suffix_Some suf s r : strip_suffix suf s = Some r ↔ s = r +:+ suf.
Proof.
  split; [|intros ->; apply strip_suffix_app].
  revert r. induction s as [|c s IH]; intros r; cbn [strip_suffix].
  - destruct (_ == _) eqn:E; [|done]. props. intros [= <-]. done.
  - destruct (_ == _) eqn:E.
    + props. intros [= <-]. done.
    + intros (r' & Hr' & ->)%fmap_Some. apply IH in Hr' as ->. done.
Qed.

Lemma find_app pat s t : find pat (s +:+ (pat +:+ t)) ≠ None.
Proof.
  induction s as [|c s IH].
  - rewrite append_nil_l. assert (starts_with pat (pat +:+ t) = true) as Hs
      by (apply starts_with_true; eauto).
    destruct (pat +:+ t); cbn; by rewrite Hs.
  - rewrite append_cons. cbn [find]. destruct (starts_with _ _); [done|].
    destruct (find _ _); done.
Qed.

(** A string that does not contain [pat] hides no occurrence of it, so the first
    occurrence of [pat] in [s ++ pat ++ t] is at the end of [s] when no proper
    prefix overlap exists: stated for patterns whose first byte is not in [s]. *)
Lemma find_first_byte c pat s t :
  c ∉ list_ascii_of_string s →
  find (String c pat) (s +:+ (String c pat +:+ t)) = Some (String.length s).
Proof.
  induction s as [|d s IH]; intros Hc.
  - rewrite append_nil_l.
    assert (starts_with (String c pat) (String c pat +:+ t) = true) as Hs
      by (apply starts_with_true; eauto).
    rewrite append_cons in *. cbn [find String.length]. by rewrite Hs.
  - cbn in Hc. apply not_elem_of_cons in Hc as [Hcd Hc].
    rewrite append_cons. cbn [find String.length].
    assert (starts_with (String c pat) (String d (s +:+ (String c pat +:+ t))) = false) as ->.
    { unfold starts_with. cbn [strip_prefix]. unfold eqb. by rewrite bool_decide_eq_false_2. }
    by rewrite IH.
Qed.

Lemma split_at_app s t : split_at (String.length s) (s +:+ t) = (s, t).
Proof. induction s as [|c s IH]; [by destruct t|]. str_simpl. by rewrite IH. Qed.

Lemma split_at_eq n s l r : split_at n s = (l, r) → s = l +:+ r.
Proof.
  revert s l r. induction n as [|n IH]; intros [|c s] l r; cbn; [by intros [= <- <-]..|].
  destruct (split_at n s) eqn:E. intros [= <- <-]. str_simpl. f_equal. eauto.
Qed.

Lemma find_Some pat s n :
  find pat s = Some n → ∃ l r, s = l +:+ (pat +:+ r) ∧ String.length l = n.
Proof.
  revert n. induction s as [|c s IH]; intros n; cbn [find].
  - destruct (starts_with _ _) eqn:E; [|done].
    apply starts_with_true in E as [r E]. intros [= <-]. exists "", r. by rewrite append_nil_l.
  - destruct (starts_with _ _) eqn:E.
    + apply starts_with_true in E as [r E]. intros [= <-]. exists "", r. by rewrite append_nil_l.
    + intros (m & Hm & ->)%fmap_Some. apply IH in Hm as (l & r & -> & <-).
      by exists (String c l), r.
Qed.

Lemma contains_false pat s l r : contains pat s = false → s ≠ l +:+ (pat +:+ r).
Proof.
  unfold contains. rewrite is_some_false. intros H ->. by apply find_app in H.
Qed.

Lemma contains_true pat s : contains pat s = true ↔ ∃ l r, s = l +:+ (pat +:+ r).
Proof.
  unfold contains. rewrite is_some_true. split.
  - intros [n Hn]. apply find_Some in Hn as (l & r & -> & _). eauto.
  - intros (l & r & ->). destruct (find _ _) eqn:E; [eauto|]. by apply find_app in E.
Qed.

Lemma list_ascii_append s t :
  list_ascii_of_string (s +:+ t) = list_ascii_of_string s ++ list_ascii_of_string t.
Proof. induction s as [|c s IH]; [done|]. str_simpl. by rewrite IH. Qed.

Lemma length_list_ascii s : length (list_ascii_of_string s) = String.length s.
Proof. induction s; cbn; congruence. Qed.

Lemma list_ascii_inj s t : list_ascii_of_string s = list_ascii_of_string t → s = t.
Proof.
  intros H. by rewrite <- (String.string_of_list_ascii_of_string s), H,
    String.string_of_list_ascii_of_string.
Qed.

Lemma bytes_all_true p s :
  bytes_all p s = true ↔ Forall (λ c, p c = true) (list_ascii_of_string s).
Proof. unfold bytes_all. rewrite forallb_forall, Forall_forall.
  by setoid_rewrite list_elem_of_In. Qed.

(** A decimal string of digits parses to its value when it fits. *)
Lemma parse_u64_digits s v :
  parse_u64 s = Some v → bytes_all is_ascii_digit s = true →
  s ≠ "" ∧ v = digits_value (list_ascii_of_string s) ∧ v ≤ U64_MAX.
Proof.
  intros Hp Hd. unfold parse_u64 in Hp.
  assert (strip_prefix "+" s = None) as Hnp.
  { clear Hp. destruct s as [|c s]; [done|]. cbn.
    destruct (_ == _) eqn:E; [|done]. props; subst.
    apply bytes_all_true, Forall_cons in Hd as [Hd _]. vm_compute in Hd. done. }
  rewrite Hnp in Hp. cbn in Hp. split_match in Hp; [done|]. split_match in Hp; [|done].
  props. simplify_eq. done.
Qed.

(** ** [trim] is idempotent

    Characters are not torn apart by trimming: a contiguous range of the
    characters of a string decodes to itself. *)

Lemma utf8_chunks_fuel_irrelevant n : ∀ fuel fuel' l,
  (length l ≤ n)%nat → (length l ≤ fuel)%nat → (length l ≤ fuel')%nat →
  utf8_chunks_fuel fuel l = utf8_chunks_fuel fuel' l.
Proof.
  induction n as [|n IH]; intros fuel fuel' [|b r] Hn Hf Hf'; cbn in *; try lia;
    [by destruct fuel, fuel'..|].
  destruct fuel as [|fuel], fuel' as [|fuel']; try lia. cbn.
  destruct (_ <=? _)%nat; f_equal; apply IH; rewrite ?length_drop; lia.
Qed.

Lemma utf8_chunks_cons b r :
  utf8_chunks (b :: r) =
  let k := pred (char_width b) in
  if (k <=? length r)%nat then (b :: take k r) :: utf8_chunks (drop k r)
  else [b] :: utf8_chunks r.
Proof.
  unfold utf8_chunks. cbn [utf8_chunks_fuel length]. cbv zeta.
  destruct (_ <=? _)%nat; f_equal.
  apply (utf8_chunks_fuel_irrelevant (length r)); rewrite ?length_drop; lia.
Qed.

(** Induction along the decoding: each character and what follows it. *)
Lemma utf8_chunks_ind (P : list ascii → Prop) :
  P [] →
  (∀ b r, let k := pred (char_width b) in (k ≤ length r)%nat → P (drop k r) → P (b :: r)) →
  (∀ b r, (length r < pred (char_width b))%nat → P r → P (b :: r)) →
  ∀ l, P l.
Proof.
  intros Hnil Hchar Hcut l. remember (length l) as n eqn:Hn. revert l Hn.
  induction (lt_wf n) as [n _ IH]. intros [|b r] ->; [done|].
  destruct (Nat.le_gt_cases (pred (char_width b)) (length r)) as [Hle|Hgt].
  - apply Hchar; [done|]. eapply IH; [|done]. cbn. rewrite length_drop. lia.
  - apply Hcut; [done|]. eapply IH; [|done]. cbn. lia.
Qed.

Lemma mjoin_cons {A} (c : list A) cs : mjoin (c :: cs) = c ++ mjoin cs.
Proof. done. Qed.

Lemma mjoin_utf8_chunks l : mjoin (utf8_chunks l) = l.
Proof.
  induction l as [|b r k Hk IH|b r Hk IH] using utf8_chunks_ind; [done|..];
    rewrite utf8_chunks_cons; cbv zeta.
  - fold k. rewrite (proj2 (Nat.leb_le _ _) Hk), mjoin_cons, IH.
    cbn [app]. f_equal. apply take_drop.
  - by rewrite (proj2 (Nat.leb_gt _ _) Hk), mjoin_cons, IH.
Qed.

Lemma mjoin_take_length {A} n (cs : list (list A)) :
  (length (mjoin (take n cs)) ≤ length (mjoin cs))%nat.
Proof.
  revert n. induction cs as [|c cs IH]; intros [|n]; cbn [take];
    rewrite ?mjoin_cons; try (cbn; lia).
  rewrite !length_app. specialize (IH n). lia.
Qed.

Lemma utf8_chunks_take l n :
  utf8_chunks (mjoin (take n (utf8_chunks l))) = take n (utf8_chunks l).
Proof.
  revert n. induction l as [|b r k Hk IH|b r Hk IH] using utf8_chunks_ind;
    intros [|n]; try done; rewrite utf8_chunks_cons; cbv zeta.
  - fold k. rewrite (proj2 (Nat.leb_le _ _) Hk). cbn [take]. rewrite mjoin_cons. cbn [app]. rewrite utf8_chunks_cons. cbv zeta. fold k.
    rewrite length_app, length_take.
    rewrite (proj2 (Nat.leb_le k _)) by lia.
    rewrite take_app_length' by (rewrite length_take; lia).
    rewrite drop_app_length' by (rewrite length_take; lia). by rewrite IH.
  - rewrite (proj2 (Nat.leb_gt _ _) Hk). cbn [take]. rewrite mjoin_cons. cbn [app]. rewrite utf8_chunks_cons. cbv zeta.
    pose proof (mjoin_take_length n (utf8_chunks r)) as Hlen. rewrite mjoin_utf8_chunks in Hlen.
    rewrite (proj2 (Nat.leb_gt _ _)) by lia. by rewrite IH.
Qed.

Lemma utf8_chunks_drop l n :
  utf8_chunks (mjoin (drop n (utf8_chunks l))) = drop n (utf8_chunks l).
Proof.
  revert n. induction l as [|b r k Hk IH|b r Hk IH] using utf8_chunks_ind;
    intros [|n]; try done; try (rewrite drop_0, mjoin_utf8_chunks; done);
    rewrite utf8_chunks_cons; cbv zeta.
  - fold k. rewrite (proj2 (Nat.leb_le _ _) Hk). cbn [drop]. apply IH.
  - rewrite (proj2 (Nat.leb_gt _ _) Hk). cbn [drop]. apply IH.
Qed.

Section drop_while.
Context {A} (p : A → bool).

Lemma drop_while_drop l : ∃ n, drop_while p l = drop n l.
Proof.
  induction l as [|x l [n IH]]; cbn; [by exists 0%nat|].
  destruct (p x); [by exists (S n)|by exists 0%nat].
Qed.

Lemma drop_while_idemp l : drop_while p (drop_while p l) = drop_while p l.
Proof. induction l as [|x l IH]; cbn; [done|]. destruct (p x) eqn:E; [done|]. cbn. by rewrite E. Qed.

(** A prefix of a list that starts with a kept element starts with it too. *)
Lemma drop_while_take l n : drop_while p (take n (drop_while p l)) = take n (drop_while p l).
Proof.
  induction l as [|x l IH]; cbn; [by rewrite take_nil|]. destruct (p x) eqn:E; [done|].
  destruct n; cbn; [done|]. by rewrite E.
Qed.
End drop_while.

Lemma trim_chunks_range cs : ∃ n m, trim_chunks cs = take m (drop n cs).
Proof.
  unfold trim_chunks. destruct (drop_while_drop (λ c, is_whitespace (code_point c)) cs) as [n ->].
  destruct (drop_while_drop (λ c, is_whitespace (code_point c)) (reverse (drop n cs))) as [m ->].
  exists n. eexists. by rewrite reverse_drop, reverse_involutive.
Qed.

Lemma trim_chunks_idemp cs : trim_chunks (trim_chunks cs) = trim_chunks cs.
Proof.
  unfold trim_chunks. set (ws := λ c, is_whitespace (code_point c)).
  assert (drop_while ws (reverse (drop_while ws (reverse (drop_while ws cs))))
          = reverse (drop_while ws (reverse (drop_while ws cs)))) as ->.
  { destruct (drop_while_drop ws (reverse (drop_while ws cs))) as [m ->].
    rewrite reverse_drop, reverse_involutive. apply drop_while_take. }
  by rewrite reverse_involutive, drop_while_idemp.
Qed.

Lemma utf8_chunks_trim l :
  utf8_chunks (mjoin (trim_chunks (utf8_chunks l))) = trim_chunks (utf8_chunks l).
Proof.
  destruct (trim_chunks_range (utf8_chunks l)) as (n & m & ->).
  rewrite <- (utf8_chunks_drop l n). apply utf8_chunks_take.
Qed.

Lemma list_ascii_of_list_ascii l : list_ascii_of_string (string_of_list_ascii l) = l.
Proof. induction l as [|c l IH]; [done|]. cbn. by rewrite IH. Qed.

Lemma trim_idemp s : trim (trim s) = trim s.
Proof.
  unfold trim. rewrite list_ascii_of_list_ascii, utf8_chunks_trim, trim_chunks_idemp. done.
Qed.
