(* ===== verification/Externals.v ===== *)
(** Third-party code the sources call, as interfaces.

    Each class below is a parameter of the development: the functions of a crate
    that is not part of the repository ([base32], [pubky], [uuid], [mime],
    [serde_json_canonicalizer], [blake3], [time]).  The [...Laws] classes state
    the documented behaviour the theorems rely on; [Instances] implements
    them and proves the laws. *)

From S2P Require Import Prelude RustStr.

(** A [Vec<u8>] or [[u8; N]]. *)
Abbreviation bytes := (list ascii).

(** * [base32] with [Alphabet::Crockford] *)

Class Base32 := {
  b32_encode : bytes → string;
  b32_decode : string → option bytes;
}.

(** Digits and upper-case letters without [I], [L], [O] and [U]. *)
Definition is_crockford (c : ascii) : bool :=
  is_ascii_digit c
  || (is_ascii_uppercase c
      && negb ((byte_val c =? 73) || (byte_val c =? 76) || (byte_val c =? 79)
               || (byte_val c =? 85))).

Class Base32Laws `{Base32} := {
  b32_decode_encode bs : b32_decode (b32_encode bs) = Some bs;
  b32_encode_length bs :
    String.length (b32_encode bs) = ((8 * length bs + 4) / 5)%nat;
  b32_encode_alphabet bs : bytes_all is_crockford (b32_encode bs) = true;
}.

(** * [pubky::PublicKey] *)

Class PubkyKeys := {
  PublicKey : Type;
  public_key_from_str : string → option PublicKey;
  public_key_to_string : PublicKey → string;
}.

Class PubkyKeysLaws `{PubkyKeys} := {
  public_key_roundtrip k : public_key_from_str (public_key_to_string k) = Some k;
  (** A rendered key is [pubky] followed by z-base-32 characters. *)
  public_key_no_slash k :
    bytes_all (λ c, negb (byte_val c =? 47)) (public_key_to_string k) = true;
}.

(** * [uuid::Uuid] *)

(** A 128-bit value. *)
Abbreviation Uuid := Z (only parsing).

Class UuidCrate := {
  uuid_parse_str : string → option Uuid;
  uuid_hyphenated : Uuid → string;
  uuid_get_version_num : Uuid → Z;
}.

Class UuidLaws `{UuidCrate} := {
  uuid_parse_hyphenated u : 0 ≤ u < 2 ^ 128 → uuid_parse_str (uuid_hyphenated u) = Some u;
  uuid_parse_range s u : uuid_parse_str s = Some u → 0 ≤ u < 2 ^ 128;
}.

(** * [mime::Mime], [time] *)

Class MimeCrate := {
  (** [s.parse::<mime::Mime>().is_ok()]. *)
  mime_parses : string → bool;
}.

Class TimeCrate := {
  (** [OffsetDateTime::checked_add]: [None] outside the representable range. *)
  time_checked_add : OffsetDateTime → Duration → option OffsetDateTime;
}.

Class TimeLaws `{TimeCrate} := {
  time_checked_add_exact t d t' : time_checked_add t d = Some t' → t' = t + d;
}.

(** * [blake3] *)

Class Blake3 := {
  blake3_hash : bytes → bytes;
}.

Class Blake3Laws `{Blake3} := {
  blake3_hash_length bs : length (blake3_hash bs) = 32%nat;
}.

(** [blake3::derive_key]: an independent key per context string. *)
Class Blake3Kdf := {
  blake3_derive_key : string → bytes → bytes;
}.

(** * [base64] with [URL_SAFE_NO_PAD] *)

Class Base64Url := {
  b64_encode : bytes → string;
  b64_decode : string → option bytes;
}.

(** Letters, digits, [-] and [_]. *)
Definition is_base64url (c : ascii) : bool :=
  is_ascii_digit c || is_ascii_uppercase c || in_range 97 122 (byte_val c)
  || (byte_val c =? 45) || (byte_val c =? 95).

Class Base64UrlLaws `{Base64Url} := {
  b64_decode_encode bs : b64_decode (b64_encode bs) = Some bs;
  b64_encode_alphabet bs : bytes_all is_base64url (b64_encode bs) = true;
}.

(** * [chacha20poly1305::XChaCha20Poly1305] *)

Class Aead := {
  (** key, nonce, associated data, message *)
  aead_seal : bytes → bytes → bytes → bytes → option bytes;
  aead_open : bytes → bytes → bytes → bytes → option bytes;
}.

(** Decryption accepts exactly what encryption of the plaintext under the same
    key, nonce and associated data produces. *)
Class AeadLaws `{Aead} := {
  aead_open_seal key nonce aad msg ct :
    aead_seal key nonce aad msg = Some ct ↔ aead_open key nonce aad ct = Some msg;
}.
