(* ===== verification/Ids.v ===== *)
(** Identifier and path value objects ([locks-core/src/ids.rs]).

    Lock and bundle identifiers, client references, task identifiers, Pubky
    identities, content-lock paths and addressed lock resources, with their
    parsers and renderers.  The theorems are the round trips the wire format
    relies on and the canonical form of whatever a parser accepts. *)

From S2P Require Import Prelude RustStr Externals.

Definition LOCK_ID_LEN : Z := 52.
Definition LOCK_HASH_BYTES : Z := 32.
Definition BUNDLE_ID_LEN : Z := 26.
Definition BUNDLE_ID_BYTES : Z := 16.
Definition CONTENT_LOCK_PREFIX : string := "/pub/app.locks/".
Definition CONTENT_LOCK_SUFFIX : string := ".json".
Definition CLIENT_REFERENCE_MAX_BYTES : Z := 64.

Inductive IdParseError :=
  | InvalidCrockfordLength (kind : string) (expected : Z)
  | ContainsSeparator (kind : string)
  | InvalidCrockford (kind : string)
  | InvalidTaskId
  | InvalidPubkyIdentity
  | InvalidContentLockPath
  | InvalidPubkyLockResource
  | InvalidClientReference.

#[global] Instance IdParseError_eq_dec : EqDecision IdParseError.
Proof. solve_decision. Defined.

(** * Data *)

Record LockId := MkLockId { LockId_as_str : string }.
Record BundleId := MkBundleId { BundleId_as_str : string }.
Record ClientReference := MkClientReference { ClientReference_as_str : string }.
Record LockHash := MkLockHash { LockHash_as_bytes : bytes }.
Record GuardedResourceHash := MkGuardedResourceHash { GuardedResourceHash_as_bytes : bytes }.
Record TaskId := MkTaskId { TaskId_as_uuid : Uuid }.
Record CreatorPubky := MkCreatorPubky { CreatorPubky_str : string }.
Record LockServerPubky := MkLockServerPubky { LockServerPubky_str : string }.
Record ContentLockPath := MkContentLockPath { path_lock_id : LockId }.
Record PubkyLockResource := MkPubkyLockResource {
  resource_creator : CreatorPubky;
  resource_content_lock_path : ContentLockPath;
}.

#[global] Instance LockId_eq_dec : EqDecision LockId.
Proof. solve_decision. Defined.
#[global] Instance BundleId_eq_dec : EqDecision BundleId.
Proof. solve_decision. Defined.
#[global] Instance ClientReference_eq_dec : EqDecision ClientReference.
Proof. solve_decision. Defined.
#[global] Instance LockHash_eq_dec : EqDecision LockHash.
Proof. solve_decision. Defined.
#[global] Instance GuardedResourceHash_eq_dec : EqDecision GuardedResourceHash.
Proof. solve_decision. Defined.
#[global] Instance TaskId_eq_dec : EqDecision TaskId.
Proof. solve_decision. Defined.
#[global] Instance CreatorPubky_eq_dec : EqDecision CreatorPubky.
Proof. solve_decision. Defined.
#[global] Instance LockServerPubky_eq_dec : EqDecision LockServerPubky.
Proof. solve_decision. Defined.
#[global] Instance ContentLockPath_eq_dec : EqDecision ContentLockPath.
Proof. solve_decision. Defined.
#[global] Instance PubkyLockResource_eq_dec : EqDecision PubkyLockResource.
Proof. solve_decision. Defined.

(** Keys of the in-memory repositories. *)
#[global] Program Instance LockId_countable : Countable LockId :=
  inj_countable' LockId_as_str MkLockId _.
Next Obligation. by intros []. Qed.
#[global] Program Instance BundleId_countable : Countable BundleId :=
  inj_countable' BundleId_as_str MkBundleId _.
Next Obligation. by intros []. Qed.
#[global] Program Instance CreatorPubky_countable : Countable CreatorPubky :=
  inj_countable' CreatorPubky_str MkCreatorPubky _.
Next Obligation. by intros []. Qed.
#[global] Program Instance TaskId_countable : Countable TaskId :=
  inj_countable' TaskId_as_uuid MkTaskId _.
Next Obligation. by intros []. Qed.

Definition resource_lock_id (r : PubkyLockResource) : LockId :=
  path_lock_id (resource_content_lock_path r).

(** * Parsers and renderers *)

Section ids.
  Context `{Base32, PubkyKeys, UuidCrate}.

Definition parse_crockford_id (kind value : string) (encoded_len decoded_len : Z) :
    result IdParseError string :=
  _ ← reject_if (negb (str_len value =? encoded_len)) (InvalidCrockfordLength kind encoded_len);
  _ ← reject_if (contains "-" value) (ContainsSeparator kind);
  decoded ← ok_or
    (d ← b32_decode value; if Z.of_nat (length d) =? decoded_len then Some d else None)
    (InvalidCrockford kind);
  Ok (b32_encode decoded).

Definition parse_pubky_identity (value : string) : result IdParseError string :=
  public_key_to_string <$> ok_or (public_key_from_str value) InvalidPubkyIdentity.

Definition LockId_from_hash (h : LockHash) : LockId :=
  MkLockId (b32_encode (LockHash_as_bytes h)).

Definition LockId_from_str (value : string) : result IdParseError LockId :=
  MkLockId <$> parse_crockford_id "lock id" value LOCK_ID_LEN LOCK_HASH_BYTES.

Definition LockId_display (id : LockId) : string := LockId_as_str id.

Definition BundleId_from_bytes (bs : bytes) : BundleId := MkBundleId (b32_encode bs).

Definition BundleId_from_str (value : string) : result IdParseError BundleId :=
  MkBundleId <$> parse_crockford_id "bundle id" value BUNDLE_ID_LEN BUNDLE_ID_BYTES.

Definition BundleId_display (id : BundleId) : string := BundleId_as_str id.

Definition ClientReference_from_str (value : string) : result IdParseError ClientReference :=
  if (value == "")
     || (CLIENT_REFERENCE_MAX_BYTES <? str_len value)
     || existsb is_control (chars value)
  then Err InvalidClientReference
  else Ok (MkClientReference value).

(** Serialized form of a guarded-resource hash. *)
Definition GuardedResourceHash_serialize (h : GuardedResourceHash) : string :=
  b32_encode (GuardedResourceHash_as_bytes h).

Definition GuardedResourceHash_deserialize (value : string) : option GuardedResourceHash :=
  decoded ← b32_decode value;
  if Z.of_nat (length decoded) =? LOCK_HASH_BYTES
  then Some (MkGuardedResourceHash decoded) else None.

Definition TaskId_display (id : TaskId) : string := uuid_hyphenated (TaskId_as_uuid id).

Definition TaskId_from_str (value : string) : result IdParseError TaskId :=
  uuid ← ok_or (uuid_parse_str value) InvalidTaskId;
  _ ← reject_if (negb (uuid_get_version_num uuid =? 4)) InvalidTaskId;
  Ok (MkTaskId uuid).

Definition CreatorPubky_from_str (value : string) : result IdParseError CreatorPubky :=
  MkCreatorPubky <$> parse_pubky_identity value.

Definition CreatorPubky_display (c : CreatorPubky) : string := CreatorPubky_str c.

Definition LockServerPubky_from_str (value : string) : result IdParseError LockServerPubky :=
  MkLockServerPubky <$> parse_pubky_identity value.

Definition ContentLockPath_from_lock_id (id : LockId) : ContentLockPath :=
  MkContentLockPath id.

Definition ContentLockPath_display (p : ContentLockPath) : string :=
  CONTENT_LOCK_PREFIX +:+ LockId_display (path_lock_id p) +:+ CONTENT_LOCK_SUFFIX.

Definition ContentLockPath_from_str (value : string) : result IdParseError ContentLockPath :=
  lock_id ← ok_or (strip_prefix CONTENT_LOCK_PREFIX value ≫= strip_suffix CONTENT_LOCK_SUFFIX)
    InvalidContentLockPath;
  _ ← reject_if (contains "/" lock_id || contains ":" lock_id) InvalidContentLockPath;
  lock_id ← map_err (λ _, InvalidContentLockPath) (LockId_from_str lock_id);
  Ok (MkContentLockPath lock_id).

Definition PubkyLockResource_display (r : PubkyLockResource) : string :=
  CreatorPubky_display (resource_creator r)
    +:+ ContentLockPath_display (resource_content_lock_path r).

Definition PubkyLockResource_from_str (value : string) : result IdParseError PubkyLockResource :=
  _ ← reject_if (starts_with "pubky://" value) InvalidPubkyLockResource;
  path_start ← ok_or (find CONTENT_LOCK_PREFIX value) InvalidPubkyLockResource;
  let '(creator, path) := split_at path_start value in
  creator ← map_err (λ _, InvalidPubkyLockResource) (CreatorPubky_from_str creator);
  content_lock_path ← map_err (λ _, InvalidPubkyLockResource) (ContentLockPath_from_str path);
  Ok (MkPubkyLockResource creator content_lock_path).

(** ** Canonical values

    What the parsers produce and [from_hash]/[from_bytes] construct: the values
    every other component holds. *)

Definition canonical_lock_id (id : LockId) : Prop :=
  ∃ bs, length bs = 32%nat ∧ LockId_as_str id = b32_encode bs.

Definition canonical_bundle_id (id : BundleId) : Prop :=
  ∃ bs, length bs = 16%nat ∧ BundleId_as_str id = b32_encode bs.

Definition canonical_creator (c : CreatorPubky) : Prop :=
  ∃ k, CreatorPubky_str c = public_key_to_string k.

Definition canonical_path (p : ContentLockPath) : Prop := canonical_lock_id (path_lock_id p).

Definition canonical_resource (r : PubkyLockResource) : Prop :=
  canonical_creator (resource_creator r) ∧ canonical_path (resource_content_lock_path r).

End ids.

(** * Round trips *)

Lemma no_byte_not_contained c s :
  bytes_all (λ x, negb (x == c)) s = true → contains (String c "") s = false.
Proof.
  intros Hall. destruct (contains _ s) eqn:E; [|done]. exfalso.
  apply contains_true in E as (l & r & ->).
  apply bytes_all_true in Hall.
  rewrite !list_ascii_append in Hall.
  apply Forall_app in Hall as [_ Hall]. cbn in Hall.
  apply Forall_cons in Hall as [Hc _]. by rewrite eqb_same in Hc.
Qed.

Lemma bytes_all_impl (p q : ascii → bool) s :
  (∀ c, p c = true → q c = true) → bytes_all p s = true → bytes_all q s = true.
Proof.
  intros Hpq. rewrite !bytes_all_true. intros Hp. eapply Forall_impl; [apply Hp|].
  intros c. apply Hpq.
Qed.

Lemma byte_not_contained p c s :
  p c = false → bytes_all p s = true → contains (String c "") s = false.
Proof.
  intros Hc Hs. apply no_byte_not_contained. revert Hs. apply bytes_all_impl.
  intros d Hd. destruct (d == c) eqn:E; [|done]. props. congruence.
Qed.

Section roundtrips.
  Context `{Base32Laws, PubkyKeysLaws, UuidLaws}.

Lemma parse_crockford_encode kind bs el dl :
  el = Z.of_nat ((8 * length bs + 4) / 5) → dl = Z.of_nat (length bs) →
  parse_crockford_id kind (b32_encode bs) el dl = Ok (b32_encode bs).
Proof.
  intros -> ->. unfold parse_crockford_id, str_len.
  rewrite b32_encode_length, Z.eqb_refl. cbn.
  rewrite (byte_not_contained is_crockford) by (done || apply b32_encode_alphabet).
  cbn. rewrite b32_decode_encode. cbn. by rewrite Z.eqb_refl.
Qed.

Lemma parse_crockford_Ok kind s el dl out :
  parse_crockford_id kind s el dl = Ok out →
  ∃ bs, Z.of_nat (length bs) = dl ∧ out = b32_encode bs.
Proof.
  unfold parse_crockford_id. intros Hp. peel.
  match goal with H : (_ ≫= _) = Some _ |- _ => apply bind_Some in H as (d & _ & Hd) end.
  split_match in Hd; [|done]. props. simplify_eq. eauto.
Qed.

Lemma canonical_lock_id_roundtrip id :
  canonical_lock_id id → LockId_from_str (LockId_display id) = Ok id.
Proof.
  intros (bs & Hlen & Hid). unfold LockId_from_str, LockId_display. rewrite Hid.
  rewrite parse_crockford_encode by (rewrite Hlen; reflexivity).
  destruct id; cbn in *. by subst.
Qed.

Lemma LockId_from_str_canonical s id : LockId_from_str s = Ok id → canonical_lock_id id.
Proof.
  unfold LockId_from_str. intros (out & Hout & ->)%fmap_Ok.
  apply parse_crockford_Ok in Hout as (bs & Hlen & ->).
  exists bs. split; [|done]. unfold LOCK_HASH_BYTES in Hlen. lia.
Qed.

Lemma LockId_from_hash_canonical h :
  length (LockHash_as_bytes h) = 32%nat → canonical_lock_id (LockId_from_hash h).
Proof. intros Hh. by exists (LockHash_as_bytes h). Qed.

Lemma canonical_bundle_id_roundtrip id :
  canonical_bundle_id id → BundleId_from_str (BundleId_display id) = Ok id.
Proof.
  intros (bs & Hlen & Hid). unfold BundleId_from_str, BundleId_display. rewrite Hid.
  rewrite parse_crockford_encode by (rewrite Hlen; reflexivity).
  destruct id; cbn in *. by subst.
Qed.

Lemma BundleId_from_str_canonical s id : BundleId_from_str s = Ok id → canonical_bundle_id id.
Proof.
  unfold BundleId_from_str. intros (out & Hout & ->)%fmap_Ok.
  apply parse_crockford_Ok in Hout as (bs & Hlen & ->).
  exists bs. split; [|done]. unfold BUNDLE_ID_BYTES in Hlen. lia.
Qed.

Lemma canonical_creator_roundtrip c :
  canonical_creator c → CreatorPubky_from_str (CreatorPubky_display c) = Ok c.
Proof.
  intros (k & Hk). unfold CreatorPubky_from_str, parse_pubky_identity, CreatorPubky_display.
  rewrite Hk, public_key_roundtrip. cbn. destruct c; cbn in *. by subst.
Qed.

Lemma CreatorPubky_from_str_canonical s c : CreatorPubky_from_str s = Ok c → canonical_creator c.
Proof.
  unfold CreatorPubky_from_str, parse_pubky_identity.
  intros (out & (k & _ & ->)%fmap_Ok & ->)%fmap_Ok. by exists k.
Qed.

Lemma canonical_lock_id_not_contains c id :
  is_crockford c = false → canonical_lock_id id → contains (String c "") (LockId_as_str id) = false.
Proof.
  intros Hc (bs & _ & ->). eapply byte_not_contained; [done|]. apply b32_encode_alphabet.
Qed.

Lemma canonical_path_roundtrip p :
  canonical_path p → ContentLockPath_from_str (ContentLockPath_display p) = Ok p.
Proof.
  intros Hp. unfold ContentLockPath_from_str, ContentLockPath_display.
  rewrite strip_prefix_app. cbn [mbind option_bind ok_or].
  rewrite strip_suffix_app. cbn [ok_or mbind result_bind].
  unfold LockId_display. rewrite !canonical_lock_id_not_contains by done.
  cbn. fold (LockId_display (path_lock_id p)).
  rewrite canonical_lock_id_roundtrip by done. by destruct p.
Qed.

Lemma ContentLockPath_from_str_canonical s p :
  ContentLockPath_from_str s = Ok p → canonical_path p.
Proof.
  unfold ContentLockPath_from_str. intros Hp. peel. unfold canonical_path; cbn.
  eauto using LockId_from_str_canonical.
Qed.

Lemma canonical_creator_no_slash c :
  canonical_creator c → Ascii.ascii_of_nat 47 ∉ list_ascii_of_string (CreatorPubky_str c).
Proof.
  intros (k & ->) Hin. pose proof (public_key_no_slash k) as Hall.
  apply bytes_all_true in Hall. rewrite Forall_forall in Hall.
  apply Hall in Hin. done.
Qed.

(** Splitting a rendered resource at the first occurrence of the lock prefix
    recovers its two parts. *)
Lemma canonical_resource_split r :
  canonical_resource r →
  find CONTENT_LOCK_PREFIX (PubkyLockResource_display r)
    = Some (String.length (CreatorPubky_display (resource_creator r))).
Proof.
  intros [Hc _]. unfold PubkyLockResource_display, ContentLockPath_display.
  apply find_first_byte. by apply canonical_creator_no_slash.
Qed.

Lemma canonical_resource_not_url r :
  canonical_resource r → starts_with "pubky://" (PubkyLockResource_display r) = false.
Proof.
  intros Hr. destruct (starts_with _ _) eqn:E; [exfalso|done].
  apply starts_with_true in E as [u Hu].
  pose proof (canonical_resource_split r Hr) as Hf.
  destruct Hr as [Hc _]. apply canonical_creator_no_slash in Hc.
  unfold PubkyLockResource_display, CreatorPubky_display, ContentLockPath_display in Hu.
  destruct (resource_creator r) as [s]; cbn in *.
  repeat (destruct s as [|? s];
          [rewrite ?append_nil_l in Hu; discriminate Hu
          |rewrite append_cons in Hu; cbn in Hc; apply not_elem_of_cons in Hc as [? Hc];
           injection Hu as ? Hu; subst; try done]).
Qed.

Lemma canonical_resource_roundtrip r :
  canonical_resource r →
  PubkyLockResource_from_str (PubkyLockResource_display r) = Ok r.
Proof.
  intros Hr. pose proof Hr as [Hc Hp]. unfold PubkyLockResource_from_str.
  rewrite canonical_resource_not_url by done. cbn [reject_if mbind result_bind].
  rewrite canonical_resource_split by done. cbn [ok_or mbind result_bind].
  unfold PubkyLockResource_display at 1. rewrite split_at_app.
  rewrite canonical_creator_roundtrip by done. cbn [map_err mbind result_bind].
  rewrite canonical_path_roundtrip by done. by destruct r.
Qed.

Lemma PubkyLockResource_from_str_canonical s r :
  PubkyLockResource_from_str s = Ok r → canonical_resource r.
Proof.
  unfold PubkyLockResource_from_str. intros Hr. peel.
  destruct (split_at _ _) as [c p]. peel. split; cbn.
  - eauto using CreatorPubky_from_str_canonical.
  - eauto using ContentLockPath_from_str_canonical.
Qed.

(** Parsing an addressed lock resource normalises it: whatever spelling was
    accepted, rendering the parsed value and parsing it again gives the same
    value, the embedded Lock ID and creator are themselves accepted in their
    rendered form, and the rendered text is the creator followed by
    [/pub/app.locks/<lock id>.json]. *)
Theorem PubkyLockResource_parse_normalises s r :
  PubkyLockResource_from_str s = Ok r →
  PubkyLockResource_from_str (PubkyLockResource_display r) = Ok r
  ∧ LockId_from_str (LockId_display (resource_lock_id r)) = Ok (resource_lock_id r)
  ∧ CreatorPubky_from_str (CreatorPubky_display (resource_creator r)) = Ok (resource_creator r)
  ∧ ContentLockPath_from_str (ContentLockPath_display (resource_content_lock_path r))
    = Ok (resource_content_lock_path r)
  ∧ PubkyLockResource_display r
    = CreatorPubky_str (resource_creator r) +:+ "/pub/app.locks/"
      +:+ LockId_as_str (resource_lock_id r) +:+ ".json".
Proof.
  intros Hs. apply PubkyLockResource_from_str_canonical in Hs as Hr.
  split_and!; [by apply canonical_resource_roundtrip| | | |done]; destruct Hr as [Hc Hp].
  - by apply canonical_lock_id_roundtrip.
  - by apply canonical_creator_roundtrip.
  - by apply canonical_path_roundtrip.
Qed.

(** The identifiers derived from a lock hash or from viewer entropy are
    accepted by the corresponding parser, at their fixed length, and identify
    their bytes: two hashes with the same Lock ID are equal, and so are two
    16-byte values with the same Bundle ID. *)
Theorem derived_identifiers_roundtrip h h' e e' :
  length (LockHash_as_bytes h) = 32%nat → length e = 16%nat →
  LockId_from_str (LockId_display (LockId_from_hash h)) = Ok (LockId_from_hash h)
  ∧ str_len (LockId_display (LockId_from_hash h)) = LOCK_ID_LEN
  ∧ (LockId_from_hash h = LockId_from_hash h' → h = h')
  ∧ BundleId_from_str (BundleId_display (BundleId_from_bytes e)) = Ok (BundleId_from_bytes e)
  ∧ str_len (BundleId_display (BundleId_from_bytes e)) = BUNDLE_ID_LEN
  ∧ (BundleId_from_bytes e = BundleId_from_bytes e' → e = e').
Proof.
  assert (Inj (=) (=) b32_encode) as Hinj.
  { intros a b Hab. apply (f_equal b32_decode) in Hab.
    rewrite !b32_decode_encode in Hab. by injection Hab. }
  intros Hh He. split_and!.
  - by apply canonical_lock_id_roundtrip, LockId_from_hash_canonical.
  - unfold str_len, LockId_display; cbn. by rewrite b32_encode_length, Hh.
  - destruct h, h'; cbn. intros [= Heq%(inj b32_encode)]. by subst.
  - apply canonical_bundle_id_roundtrip. by exists e.
  - unfold str_len, BundleId_display; cbn. by rewrite b32_encode_length, He.
  - intros [= Heq%(inj b32_encode)]. done.
Qed.

(** A task identifier is accepted exactly when it is a UUID of version 4,
    and its rendered form parses back to it; a client reference is accepted
    exactly when it has 1 to 64 bytes and no control character, and is kept
    verbatim. *)
Theorem opaque_identifiers_accepted s t cref :
  (TaskId_from_str s = Ok t ↔
     uuid_parse_str s = Some (TaskId_as_uuid t) ∧ uuid_get_version_num (TaskId_as_uuid t) = 4)
  ∧ (TaskId_from_str s = Ok t → TaskId_from_str (TaskId_display t) = Ok t)
  ∧ (ClientReference_from_str s = Ok cref ↔
       ClientReference_as_str cref = s ∧ 1 ≤ str_len s ≤ CLIENT_REFERENCE_MAX_BYTES
       ∧ Forall (λ c, is_control c = false) (chars s)).
Proof.
  assert (∀ s t, TaskId_from_str s = Ok t ↔
     uuid_parse_str s = Some (TaskId_as_uuid t) ∧ uuid_get_version_num (TaskId_as_uuid t) = 4)
    as Htask.
  { intros s' [u]. unfold TaskId_from_str. split.
    - intros Hp. peel. props. simplify_eq. done.
    - cbn [TaskId_as_uuid]. intros [-> Hv]. cbn. by rewrite Hv. }
  split_and!; [apply Htask| |].
  - intros [Hp Hv]%Htask. apply Htask. split; [|done].
    by apply uuid_parse_hyphenated, (uuid_parse_range s).
  - unfold ClientReference_from_str, str_len. destruct cref as [v]; cbn.
    assert (existsb is_control (chars s) = false ↔ Forall (λ c, is_control c = false) (chars s))
      as Hctl.
    { rewrite <- not_true_iff_false, existsb_exists, Forall_forall. split.
      - intros Hn c Hc. apply not_true_is_false. intros ?. apply Hn. exists c.
        by rewrite <- list_elem_of_In.
      - intros Hn (c & Hc & Hcc). rewrite <- list_elem_of_In in Hc.
        apply Hn in Hc. congruence. }
    split.
    + intros Hp. split_match in Hp; [done|]. props. simplify_eq.
      split_and!; [done| |done|by apply Hctl].
      destruct v; [done|]. cbn. lia.
    + intros (-> & [Hlo Hhi] & Hc).
      replace (s == "") with false
        by (symmetry; apply eqb_false; intros ->; cbn in Hlo; lia).
      replace (_ <? _) with false by lia. apply Hctl in Hc as ->. done.
Qed.

End roundtrips.
