(* ===== verification/Json.v ===== *)
(** [serde_json::Value], as far as the sources inspect it: verifier parameters
    and proof payloads are JSON values, read with [as_object], [as_str],
    [as_u64] and [get].  An object is the list of its members in iteration
    order. *)

From S2P Require Import Prelude RustStr.

(** [serde_json::Number]: a [u64], a negative [i64] or a float (kept as its bits). *)
Inductive JsonNumber :=
  | PosInt (n : Z)
  | NegInt (n : Z)
  | Float (float_bits : Z).

#[global] Instance JsonNumber_eq_dec : EqDecision JsonNumber.
Proof. solve_decision. Defined.

Inductive Json :=
  | JNull
  | JBool (b : bool)
  | JNumber (n : JsonNumber)
  | JString (s : string)
  | JArray (items : list Json)
  | JObject (members : list (string * Json)).

#[global] Instance Json_eq_dec : EqDecision Json.
Proof.
  unfold EqDecision. fix go 1. intros a b. unfold Decision in *. decide equality.
  - apply bool_eq_dec.
  - apply JsonNumber_eq_dec.
  - apply String.eq_dec.
  - revert items0. induction items as [|x xs IH]; intros [|y ys];
      [by left|by right|by right|].
    destruct (go x y) as [->|]; [|right; congruence].
    destruct (IH ys) as [->|]; [by left|right; congruence].
  - revert members0. induction members as [|[k x] xs IH]; intros [|[l y] ys];
      [by left|by right|by right|].
    destruct (String.eq_dec k l) as [->|]; [|right; congruence].
    destruct (go x y) as [->|]; [|right; congruence].
    destruct (IH ys) as [->|]; [by left|right; congruence].
Defined.

Definition as_object (v : Json) : option (list (string * Json)) :=
  match v with JObject ms => Some ms | _ => None end.

Definition as_str (v : Json) : option string :=
  match v with JString s => Some s | _ => None end.

Definition as_u64 (v : Json) : option Z :=
  match v with JNumber (PosInt n) => Some n | _ => None end.

Definition as_bool (v : Json) : option bool :=
  match v with JBool b => Some b | _ => None end.

Fixpoint member (key : string) (ms : list (string * Json)) : option Json :=
  match ms with
  | [] => None
  | (k, v) :: ms => if k == key then Some v else member key ms
  end.

(** [Value::get] with a string index. *)
Definition json_get (key : string) (v : Json) : option Json :=
  as_object v ≫= member key.
