(* ===== verification/LockPolicy.v ===== *)
(** Content-lock payloads and their validation ([locks-core/src/lock_policy.rs]).

    The v1 and v2 lock payloads, guarded-resource descriptors, the resource-set
    rules both versions share, the [paykit-payment] policy of v1, the payment and
    graph policies of v2, and the derivation of a lock's identifier. *)

From S2P Require Import Prelude RustStr Externals Ids Json.

Definition CONTENT_LOCK_VERSION : Z := 1.
Definition CONTENT_LOCK_V2_VERSION : Z := 2.
Definition PRIVATE_RESOURCE_CONTENT_PATH_PREFIX : string := "/priv/app.locks/content/".
Definition PRIVATE_PROOF_BUNDLE_PATH_PREFIX : string := "/priv/app.locks/proofs/".
Definition GUARDED_RESOURCE_CONTENT_PATH_PREFIX : string := PRIVATE_RESOURCE_CONTENT_PATH_PREFIX.

Definition verified_proof_bundle_path (b : BundleId) : string :=
  PRIVATE_PROOF_BUNDLE_PATH_PREFIX +:+ BundleId_display b +:+ ".json".

(** * Data *)

Record GuardedResource := MkGuardedResource {
  gr_path : string;
  gr_hash : GuardedResourceHash;
  gr_content_type : string;
  gr_size : Z;
}.

Record SecondaryGuardedResource := MkSecondaryGuardedResource {
  sr_hash : GuardedResourceHash;
  sr_content_type : string;
  sr_size : Z;
}.

Inductive VerifierType := DevStatic | PaykitPayment.

Record Criterion := MkCriterion {
  criterion_id : string;
  criterion_verifier_type : VerifierType;
  criterion_params : Json;
}.

Inductive LockLogic :=
  | LogicAll (criteria : list string)
  | LogicAny (criteria : list string).

Record AccessPolicy := MkAccessPolicy { requested_credential_ttl_seconds : Z }.
Record LockServerConfig := MkLockServerConfig { override_ : option LockServerPubky }.

Record ContentLock := MkContentLock {
  cl_version : Z;
  cl_creator : CreatorPubky;
  cl_primary_resource : option GuardedResource;
  cl_secondary_resources : gmap string SecondaryGuardedResource;
  cl_criteria : list Criterion;
  cl_lock_logic : LockLogic;
  cl_access_policy : AccessPolicy;
  cl_lock_server : LockServerConfig;
  cl_created_at : OffsetDateTime;
}.

Record PaymentPolicyV2 := MkPaymentPolicyV2 {
  pp_recipient_pubky : CreatorPubky;
  pp_amount : string;
  pp_asset : string;
  pp_minimum_confirmations : Z;
}.

Inductive GraphOperatorV2 := And | Or.
Inductive GraphParticipantV2 := Creator | Reader.

Inductive GraphPredicateV2 :=
  | Follows (follower followed : GraphParticipantV2)
  | Tagged (tagger tagged : GraphParticipantV2) (label : string).

Record GraphPolicyV2 := MkGraphPolicyV2 {
  gp_predicates : list GraphPredicateV2;
  gp_operator : option GraphOperatorV2;
}.

Record ContentLockV2 := MkContentLockV2 {
  cl2_version : Z;
  cl2_creator : CreatorPubky;
  cl2_primary_resource : option GuardedResource;
  cl2_secondary_resources : gmap string SecondaryGuardedResource;
  cl2_payment : option PaymentPolicyV2;
  cl2_graph : option GraphPolicyV2;
  cl2_verification_window_seconds : Z;
  cl2_access_policy : AccessPolicy;
  cl2_lock_server : LockServerConfig;
  cl2_created_at : OffsetDateTime;
}.

Inductive ContentLockPayload :=
  | LockV1 (lock : ContentLock)
  | LockV2 (lock : ContentLockV2).

Inductive GuardedResourceValidationError := InvalidPath | InvalidContentType | ZeroSize.

Inductive ContentLockValidationError :=
  | EmptyResourceSet
  | InvalidPrimaryResource (e : GuardedResourceValidationError)
  | InvalidSecondaryResource (path : string) (reason : GuardedResourceValidationError)
  | DuplicatePrimarySecondaryPath (path : string)
  | TotalResourceSizeOverflow.

Inductive PaykitPaymentParamsValidationError :=
  | NotObject
  | MissingField (field : string)
  | UnknownField (field : string)
  | InvalidRecipientPubky
  | InvalidAmount
  | InvalidAsset
  | InvalidPaymentIn.

Inductive PaykitPaymentPolicyValidationError :=
  | MustBeOnlyCriterion
  | InvalidParams (e : PaykitPaymentParamsValidationError)
  | RecipientMustMatchCreator
  | InvalidLockLogic (criterion_id : string).

Inductive ContentLockV2ValidationError :=
  | UnsupportedVersion (v : Z)
  | MissingPolicy
  | InvalidVerificationWindow
  | InvalidResourceSet (e : ContentLockValidationError)
  | PaymentRecipientMustMatchCreator
  | InvalidPaymentAmount
  | InvalidPaymentAsset
  | InvalidMinimumConfirmations
  | InvalidGraphCardinality
  | InvalidGraphOperatorPresence
  | DuplicateGraphPredicate
  | GraphRolesMustDiffer
  | InvalidGraphLabel.

(** Validated public parameters of a [paykit-payment] criterion. *)
Record PaykitPaymentParams := MkPaykitPaymentParams {
  ppp_recipient_pubky : CreatorPubky;
  ppp_amount : string;
  ppp_asset : string;
  ppp_payment_in : Z;
}.

#[global] Instance GuardedResource_eq_dec : EqDecision GuardedResource.
Proof. solve_decision. Defined.
#[global] Instance SecondaryGuardedResource_eq_dec : EqDecision SecondaryGuardedResource.
Proof. solve_decision. Defined.
#[global] Instance VerifierType_eq_dec : EqDecision VerifierType.
Proof. solve_decision. Defined.
#[global] Instance Criterion_eq_dec : EqDecision Criterion.
Proof. solve_decision. Defined.
#[global] Instance LockLogic_eq_dec : EqDecision LockLogic.
Proof. solve_decision. Defined.
#[global] Instance AccessPolicy_eq_dec : EqDecision AccessPolicy.
Proof. solve_decision. Defined.
#[global] Instance LockServerConfig_eq_dec : EqDecision LockServerConfig.
Proof. solve_decision. Defined.
#[global] Instance ContentLock_eq_dec : EqDecision ContentLock.
Proof. solve_decision. Defined.
#[global] Instance PaymentPolicyV2_eq_dec : EqDecision PaymentPolicyV2.
Proof. solve_decision. Defined.
#[global] Instance GraphOperatorV2_eq_dec : EqDecision GraphOperatorV2.
Proof. solve_decision. Defined.
#[global] Instance GraphParticipantV2_eq_dec : EqDecision GraphParticipantV2.
Proof. solve_decision. Defined.
#[global] Instance GraphPredicateV2_eq_dec : EqDecision GraphPredicateV2.
Proof. solve_decision. Defined.
#[global] Instance GraphPolicyV2_eq_dec : EqDecision GraphPolicyV2.
Proof. solve_decision. Defined.
#[global] Instance ContentLockV2_eq_dec : EqDecision ContentLockV2.
Proof. solve_decision. Defined.

(** * Interfaces of this component

    [serde_json_canonicalizer::to_vec] on the two payload types ([None] is a
    serialization failure), and the Unicode lower-case mapping behind
    [str::to_lowercase]. *)

Class JsonCanonicalizer := {
  canonical_json_v1 : ContentLock → option bytes;
  canonical_json_v2 : ContentLockV2 → option bytes;
}.

Class UnicodeCase := { to_lowercase : string → string }.

(** [for x in xs { acc = f(acc, x)?; }]. *)
Fixpoint try_fold {E A B} (f : B → A → result E B) (acc : B) (xs : list A) : result E B :=
  match xs with
  | [] => Ok acc
  | x :: xs => acc ← f acc x; try_fold f acc xs
  end.

(** * Operations *)

Section lock_policy.
  Context `{Base32, PubkyKeys, MimeCrate, Blake3, JsonCanonicalizer, UnicodeCase}.

Definition GuardedResource_new (path : string) (hash : GuardedResourceHash)
    (content_type : string) (size : Z) :
    result GuardedResourceValidationError GuardedResource :=
  _ ← reject_if
        (negb (starts_with GUARDED_RESOURCE_CONTENT_PATH_PREFIX path)
         || (path == GUARDED_RESOURCE_CONTENT_PATH_PREFIX)
         || contains ".." path || contains "//" path || contains "://" path)
        InvalidPath;
  _ ← reject_if (negb (mime_parses content_type)) InvalidContentType;
  _ ← reject_if (size =? 0) ZeroSize;
  Ok (MkGuardedResource path hash content_type size).

(** ** Resource sets of v1 locks *)

Definition resource_count (lock : ContentLock) : Z :=
  (if is_some (cl_primary_resource lock) then 1 else 0)
  + Z.of_nat (size (cl_secondary_resources lock)).

Definition total_resource_size (lock : ContentLock) : result ContentLockValidationError Z :=
  total ← match cl_primary_resource lock with
          | Some p => ok_or (checked_add U64_MAX 0 (gr_size p)) TotalResourceSizeOverflow
          | None => Ok 0
          end;
  try_fold (λ total '(_, s), ok_or (checked_add U64_MAX total (sr_size s))
                               TotalResourceSizeOverflow)
    total (btree_iter (cl_secondary_resources lock)).

Definition resource_for_path (lock : ContentLock) (path : string) : option GuardedResource :=
  let secondary :=
    (λ s, MkGuardedResource path (sr_hash s) (sr_content_type s) (sr_size s))
      <$> cl_secondary_resources lock !! path in
  match cl_primary_resource lock with
  | Some p => if gr_path p == path then Some p else secondary
  | None => secondary
  end.

Definition validate_resource_set (lock : ContentLock) : result ContentLockValidationError () :=
  _ ← reject_if (resource_count lock =? 0) EmptyResourceSet;
  _ ← match cl_primary_resource lock with
      | Some p =>
          _ ← map_err InvalidPrimaryResource
                (GuardedResource_new (gr_path p) (gr_hash p) (gr_content_type p) (gr_size p));
          reject_if (is_some (cl_secondary_resources lock !! gr_path p))
            (DuplicatePrimarySecondaryPath (gr_path p))
      | None => Ok ()
      end;
  _ ← try_for_each
        (λ '(path, s),
           _ ← map_err (InvalidSecondaryResource path)
                 (GuardedResource_new path (sr_hash s) (sr_content_type s) (sr_size s));
           Ok ())
        (btree_iter (cl_secondary_resources lock));
  _ ← total_resource_size lock;
  Ok ().

(** ** Resource sets of v2 locks *)

Definition validate_v2_resource_set (primary_resource : option GuardedResource)
    (secondary_resources : gmap string SecondaryGuardedResource) :
    result ContentLockValidationError () :=
  _ ← reject_if (is_none primary_resource && (secondary_resources == ∅)) EmptyResourceSet;
  _ ← match primary_resource with
      | Some p =>
          _ ← map_err InvalidPrimaryResource
                (GuardedResource_new (gr_path p) (gr_hash p) (gr_content_type p) (gr_size p));
          reject_if (is_some (secondary_resources !! gr_path p))
            (DuplicatePrimarySecondaryPath (gr_path p))
      | None => Ok ()
      end;
  _ ← try_fold
        (λ total '(path, s),
           _ ← map_err (InvalidSecondaryResource path)
                 (GuardedResource_new path (sr_hash s) (sr_content_type s) (sr_size s));
           ok_or (checked_add U64_MAX total (sr_size s)) TotalResourceSizeOverflow)
        (from_option gr_size 0 primary_resource) (btree_iter secondary_resources);
  Ok ().

(** ** The [paykit-payment] policy of v1 *)

Definition validate_paykit_payment_params (params : Json) :
    result PaykitPaymentParamsValidationError PaykitPaymentParams :=
  object ← ok_or (as_object params) NotObject;
  _ ← try_for_each
        (λ key, reject_if
           (negb ((key == "recipient_pubky") || (key == "amount") || (key == "asset")
                  || (key == "payment_in")))
           (UnknownField key))
        object.*1;
  recipient ← ok_or (member "recipient_pubky" object ≫= as_str) (MissingField "recipient_pubky");
  recipient ← map_err (λ _, InvalidRecipientPubky) (CreatorPubky_from_str recipient);
  amount ← ok_or (member "amount" object) (MissingField "amount");
  amount ← ok_or (as_str amount) InvalidAmount;
  _ ← reject_if
        ((amount == "") || negb (bytes_all is_ascii_digit amount)
         || negb (bytes_any (λ b, negb (byte_val b =? 48)) amount))
        InvalidAmount;
  asset ← ok_or (member "asset" object) (MissingField "asset");
  asset ← ok_or (as_str asset) InvalidAsset;
  _ ← reject_if (asset == "") InvalidAsset;
  payment_in ← ok_or (member "payment_in" object) (MissingField "payment_in");
  payment_in ← ok_or (n ← as_u64 payment_in; if 0 <? n then Some n else None) InvalidPaymentIn;
  Ok (MkPaykitPaymentParams recipient amount asset payment_in).

Definition paykit_payment_params (c : Criterion) :
    result PaykitPaymentParamsValidationError (option PaykitPaymentParams) :=
  match criterion_verifier_type c with
  | DevStatic => Ok None
  | PaykitPayment => Some <$> validate_paykit_payment_params (criterion_params c)
  end.

Definition validate_params (c : Criterion) : result PaykitPaymentParamsValidationError () :=
  (λ _, ()) <$> paykit_payment_params c.

Definition validate_paykit_payment_v1_policy (lock : ContentLock) :
    result PaykitPaymentPolicyValidationError () :=
  match List.find (λ c, criterion_verifier_type c == PaykitPayment) (cl_criteria lock) with
  | None => Ok ()
  | Some payment_criterion =>
      _ ← reject_if (negb (length (cl_criteria lock) =? 1)%nat) MustBeOnlyCriterion;
      _ ← map_err InvalidParams (validate_params payment_criterion);
      recipient ← ok_or
        (v ← json_get "recipient_pubky" (criterion_params payment_criterion);
         s ← as_str v; ok (CreatorPubky_from_str s))
        (InvalidParams InvalidRecipientPubky);
      _ ← reject_if (recipient != cl_creator lock) RecipientMustMatchCreator;
      let id := criterion_id payment_criterion in
      let logic_matches :=
        match cl_lock_logic lock with
        | LogicAll criteria | LogicAny criteria => criteria == [id]
        end in
      reject_if (negb logic_matches) (InvalidLockLogic id)
  end.

(** ** Identity of v1 locks *)

Definition lock_hash (lock : ContentLock) : option LockHash :=
  (λ bs, MkLockHash (blake3_hash bs)) <$> canonical_json_v1 lock.

Definition lock_id (lock : ContentLock) : option LockId :=
  LockId_from_hash <$> lock_hash lock.

Definition content_lock_path (lock : ContentLock) : option ContentLockPath :=
  ContentLockPath_from_lock_id <$> lock_id lock.

(** ** v2 policies *)

Definition PaymentPolicyV2_validate (p : PaymentPolicyV2) (creator : CreatorPubky) :
    result ContentLockV2ValidationError () :=
  _ ← reject_if (pp_recipient_pubky p != creator) PaymentRecipientMustMatchCreator;
  _ ← reject_if
        ((pp_amount p == "") || negb (bytes_all is_ascii_digit (pp_amount p))
         || is_none_or (λ amount, amount =? 0) (parse_u64 (pp_amount p)))
        InvalidPaymentAmount;
  _ ← reject_if (pp_asset p != "BTC") InvalidPaymentAsset;
  reject_if (6 <? pp_minimum_confirmations p) InvalidMinimumConfirmations.

Definition valid_graph_label (label : string) : bool :=
  in_range 1 20 (Z.of_nat (length (chars label)))
  && (trim label == label)
  && (to_lowercase label == label)
  && negb (existsb (λ c, is_whitespace c || (c =? 44) || (c =? 58)) (chars label)).

Definition GraphPredicateV2_validate (p : GraphPredicateV2) :
    result ContentLockV2ValidationError () :=
  match p with
  | Follows follower followed =>
      reject_if (follower == followed) GraphRolesMustDiffer
  | Tagged tagger tagged label =>
      _ ← reject_if (tagger == tagged) GraphRolesMustDiffer;
      reject_if (negb (valid_graph_label label)) InvalidGraphLabel
  end.

Definition GraphPolicyV2_validate (g : GraphPolicyV2) : result ContentLockV2ValidationError () :=
  let n := Z.of_nat (length (gp_predicates g)) in
  _ ← reject_if (negb (in_range 1 8 n)) InvalidGraphCardinality;
  _ ← reject_if (negb (eqb (n =? 1) (is_none (gp_operator g)))) InvalidGraphOperatorPresence;
  _ ← reject_if
        (negb (length (remove_dups (gp_predicates g)) =? length (gp_predicates g))%nat)
        DuplicateGraphPredicate;
  try_for_each GraphPredicateV2_validate (gp_predicates g).

Definition ContentLockV2_validate_resource_set (lock : ContentLockV2) :
    result ContentLockValidationError () :=
  validate_v2_resource_set (cl2_primary_resource lock) (cl2_secondary_resources lock).

Definition ContentLockV2_validate (lock : ContentLockV2) :
    result ContentLockV2ValidationError () :=
  _ ← reject_if (negb (cl2_version lock =? CONTENT_LOCK_V2_VERSION))
        (UnsupportedVersion (cl2_version lock));
  _ ← reject_if (is_none (cl2_payment lock) && is_none (cl2_graph lock)) MissingPolicy;
  _ ← reject_if (negb (in_range 60 604800 (cl2_verification_window_seconds lock)))
        InvalidVerificationWindow;
  _ ← map_err InvalidResourceSet (ContentLockV2_validate_resource_set lock);
  _ ← match cl2_payment lock with
      | Some p => PaymentPolicyV2_validate p (cl2_creator lock)
      | None => Ok ()
      end;
  match cl2_graph lock with
  | Some g => GraphPolicyV2_validate g
  | None => Ok ()
  end.

Definition has_graph (lock : ContentLockV2) : bool := is_some (cl2_graph lock).

(** ** Identity of v2 locks: only a valid lock has one *)

Definition canonical_json_bytes_v2 (lock : ContentLockV2) : option bytes :=
  _ ← ok (ContentLockV2_validate lock); canonical_json_v2 lock.

Definition lock_hash_v2 (lock : ContentLockV2) : option LockHash :=
  (λ bs, MkLockHash (blake3_hash bs)) <$> canonical_json_bytes_v2 lock.

Definition lock_id_v2 (lock : ContentLockV2) : option LockId :=
  LockId_from_hash <$> lock_hash_v2 lock.

(** ** Payload dispatch *)

Definition payload_creator (p : ContentLockPayload) : CreatorPubky :=
  match p with LockV1 lock => cl_creator lock | LockV2 lock => cl2_creator lock end.

Definition payload_lock_id (p : ContentLockPayload) : option LockId :=
  match p with LockV1 lock => lock_id lock | LockV2 lock => lock_id_v2 lock end.

End lock_policy.

(** * Guarded-resource descriptors and resource sets *)

Section resource_sets.
  Context `{Base32, PubkyKeys, MimeCrate, Blake3, JsonCanonicalizer, UnicodeCase}.

(** What a stored descriptor promises: a path strictly inside the content
    namespace with no parent or empty segment, a MIME content type and a
    non-empty payload. *)
Definition descriptor_ok (path content_type : string) (size : Z) : Prop :=
  (∃ rest, rest ≠ "" ∧ path = GUARDED_RESOURCE_CONTENT_PATH_PREFIX +:+ rest)
  ∧ contains ".." path = false ∧ contains "//" path = false
  ∧ mime_parses content_type = true ∧ size ≠ 0.

Definition sum_Z (l : list Z) : Z := foldr Z.add 0 l.

Definition resources_total (p : option GuardedResource)
    (s : gmap string SecondaryGuardedResource) : Z :=
  from_option gr_size 0 p + sum_Z ((λ e, sr_size e.2) <$> btree_iter s).

(** The resource-set contract of both payload versions. *)
Record resource_set_ok (p : option GuardedResource)
    (s : gmap string SecondaryGuardedResource) : Prop := {
  set_nonempty : is_Some p ∨ s ≠ ∅;
  set_primary r : p = Some r → descriptor_ok (gr_path r) (gr_content_type r) (gr_size r);
  set_disjoint r : p = Some r → s !! gr_path r = None;
  set_secondary k r : s !! k = Some r → descriptor_ok k (sr_content_type r) (sr_size r);
  set_total : resources_total p s ≤ U64_MAX;
}.

(** Sizes are [u64] values. *)
Definition sizes_u64 (p : option GuardedResource)
    (s : gmap string SecondaryGuardedResource) : Prop :=
  (∀ r, p = Some r → 0 ≤ gr_size r ≤ U64_MAX)
  ∧ (∀ k r, s !! k = Some r → 0 ≤ sr_size r ≤ U64_MAX).

Lemma contains_url_slashes path : contains "//" path = false → contains "://" path = false.
Proof.
  intros Hs. destruct (contains "://" path) eqn:E; [|done].
  apply contains_true in E as (l & r & ->).
  exfalso. apply (contains_false _ _ (l +:+ ":") r Hs).
  by rewrite append_assoc.
Qed.

Lemma GuardedResource_new_Ok path hash ct sz r :
  GuardedResource_new path hash ct sz = Ok r ↔
  descriptor_ok path ct sz ∧ r = MkGuardedResource path hash ct sz.
Proof.
  unfold GuardedResource_new, descriptor_ok. split.
  - intros Hn. peel. props. split; [|done]. split_and!; [|done..].
    match goal with H : starts_with _ _ = true |- _ =>
      apply starts_with_true in H as [rest Hrest] end.
    exists rest. split; [|done]. intros ->. by rewrite append_nil_r in Hrest.
  - intros (((rest & Hne & Hpath) & Hdd & Hds & -> & Hsz) & ->).
    rewrite Hdd, Hds, contains_url_slashes by done.
    replace (starts_with _ path) with true
      by (symmetry; apply starts_with_true; eauto).
    replace (path == _) with false.
    2:{ symmetry. apply eqb_false. intros Heq. apply Hne, (append_inj_l GUARDED_RESOURCE_CONTENT_PATH_PREFIX).
        by rewrite append_nil_r, <- Hpath. }
    replace (sz =? 0) with false by lia. done.
Qed.

Lemma GuardedResource_new_is_Ok path hash ct sz :
  (∃ r, GuardedResource_new path hash ct sz = Ok r) ↔ descriptor_ok path ct sz.
Proof. setoid_rewrite GuardedResource_new_Ok. naive_solver. Qed.

Lemma sum_Z_cons z l : sum_Z (z :: l) = z + sum_Z l.
Proof. done. Qed.

Lemma sum_Z_nonneg l : Forall (λ z, 0 ≤ z) l → 0 ≤ sum_Z l.
Proof. induction 1; rewrite ?sum_Z_cons; [done|lia]. Qed.

(** A loop that checks each entry and adds its size with [checked_add] succeeds
    exactly when every check does and the total fits. *)
Lemma try_fold_checked {E A U} (f : Z → A → result E Z) (chk : A → result E U)
    (sz : A → Z) (e : E) max acc xs t :
  (∀ t x, f t x = (_ ← chk x; ok_or (checked_add max t (sz x)) e)) →
  Forall (λ x, 0 ≤ sz x) xs → acc ≤ max →
  try_fold f acc xs = Ok t ↔
  Forall (λ x, ∃ u, chk x = Ok u) xs ∧ t = acc + sum_Z (sz <$> xs) ∧ t ≤ max.
Proof.
  intros Hf Hpos. revert acc. induction Hpos as [|x xs Hx Hxs IH]; intros acc Hacc;
    rewrite ?fmap_cons, ?sum_Z_cons; cbn [try_fold fmap list_fmap].
  { unfold sum_Z; cbn. split; [intros [= ->]; split_and!; [done|lia..] | intros (_ & -> & _); f_equal; lia]. }
  assert (0 ≤ sum_Z (sz <$> xs)) by (apply sum_Z_nonneg, Forall_fmap, Hxs).
  rewrite bind_Ok, Forall_cons. split.
  - intros (acc' & Hstep & Hrest). rewrite Hf, bind_Ok in Hstep.
    destruct Hstep as (u & Hu & [-> ?]%ok_or_Ok%checked_add_Some).
    apply IH in Hrest as (? & -> & ?); [|done]. split_and!; eauto. lia.
  - intros ([[u Hu] Hall] & -> & Hmax). exists (acc + sz x). split.
    + rewrite Hf, Hu. cbn. apply ok_or_Ok, checked_add_Some. lia.
    + apply IH; [lia|]. split_and!; [done|lia..].
Qed.

Lemma secondary_sizes_nonneg p s :
  sizes_u64 p s → Forall (λ e : string * _, 0 ≤ sr_size e.2) (btree_iter s).
Proof. intros [_ Hs]. apply Forall_btree_iter. intros k r Hk. cbn. apply (Hs k r Hk). Qed.

Lemma secondary_checks_ok s :
  Forall (λ e : string * SecondaryGuardedResource, ∃ u,
    map_err (InvalidSecondaryResource e.1)
      (GuardedResource_new e.1 (sr_hash e.2) (sr_content_type e.2) (sr_size e.2)) = Ok u)
    (btree_iter s)
  ↔ ∀ k r, s !! k = Some r → descriptor_ok k (sr_content_type r) (sr_size r).
Proof.
  rewrite Forall_btree_iter. setoid_rewrite map_err_Ok. cbn.
  by setoid_rewrite GuardedResource_new_is_Ok.
Qed.

(** The part of the two validators that inspects the primary resource. *)
Lemma primary_check_ok p s :
  match p with
  | Some r =>
      _ ← map_err InvalidPrimaryResource
            (GuardedResource_new (gr_path r) (gr_hash r) (gr_content_type r) (gr_size r));
      reject_if (is_some (s !! gr_path r)) (DuplicatePrimarySecondaryPath (gr_path r))
  | None => Ok ()
  end = Ok ()
  ↔ (∀ r, p = Some r → descriptor_ok (gr_path r) (gr_content_type r) (gr_size r))
    ∧ ∀ r : GuardedResource, p = Some r → (s : gmap string SecondaryGuardedResource) !! gr_path r = None.
Proof.
  destruct p as [r|]; [|naive_solver]. rewrite bind_Ok.
  setoid_rewrite map_err_Ok. setoid_rewrite reject_if_Ok. setoid_rewrite is_some_false.
  setoid_rewrite GuardedResource_new_Ok. naive_solver.
Qed.

Lemma total_resource_size_Ok lock t :
  sizes_u64 (cl_primary_resource lock) (cl_secondary_resources lock) →
  total_resource_size lock = Ok t ↔
  t = resources_total (cl_primary_resource lock) (cl_secondary_resources lock) ∧ t ≤ U64_MAX.
Proof.
  intros Htyped. unfold total_resource_size, resources_total.
  assert (match cl_primary_resource lock with
          | Some p => ok_or (checked_add U64_MAX 0 (gr_size p)) TotalResourceSizeOverflow
          | None => Ok 0
          end = Ok (from_option gr_size 0 (cl_primary_resource lock))) as ->.
  { destruct Htyped as [Hp _]. destruct (cl_primary_resource lock) as [p|]; [|done].
    specialize (Hp p eq_refl). cbn. apply ok_or_Ok, checked_add_Some. lia. }
  cbn [mbind result_bind].
  rewrite (try_fold_checked (U := ()) _ (λ _, Ok ()) (λ e, sr_size e.2) TotalResourceSizeOverflow).
  - rewrite Forall_forall. naive_solver.
  - by intros t' [k s].
  - by eapply secondary_sizes_nonneg.
  - destruct Htyped as [Hp _]. destruct (cl_primary_resource lock); cbn; [|done].
    by apply Hp.
Qed.

Lemma resource_count_zero lock :
  (resource_count lock =? 0) = false ↔
  is_Some (cl_primary_resource lock) ∨ cl_secondary_resources lock ≠ ∅.
Proof.
  unfold resource_count. rewrite Z.eqb_neq, <- map_size_non_empty_iff.
  destruct (cl_primary_resource lock); cbn; split; intros Hx;
    [left; eauto|lia|right; lia|destruct Hx as [[? [=]]|]; lia].
Qed.

Lemma validate_resource_set_Ok lock :
  sizes_u64 (cl_primary_resource lock) (cl_secondary_resources lock) →
  validate_resource_set lock = Ok () ↔
  resource_set_ok (cl_primary_resource lock) (cl_secondary_resources lock).
Proof.
  intros Htyped. unfold validate_resource_set. split.
  - intros Hv. apply bind_Ok in Hv as (? & Hne & Hv). apply bind_Ok in Hv as ([] & Hp & Hv).
    apply bind_Ok in Hv as (? & Hs & Hv). apply bind_Ok in Hv as (t & Ht & _).
    apply reject_if_Ok, resource_count_zero in Hne. apply primary_check_ok in Hp as [Hp Hd].
    apply try_for_each_Ok in Hs. apply total_resource_size_Ok in Ht as [-> Ht]; [|done].
    split; [done..| |done]. apply secondary_checks_ok.
    eapply Forall_impl; [exact Hs|]. intros [k r]. cbn. intros (u & ? & _)%bind_Ok. eauto.
  - intros [Hne Hp Hd Hs Ht]. apply resource_count_zero in Hne. rewrite Hne.
    cbn [reject_if mbind result_bind]. rewrite (proj2 (primary_check_ok _ _)) by done.
    cbn [mbind result_bind]. apply bind_Ok. exists (). split.
    + apply try_for_each_Ok. apply secondary_checks_ok in Hs.
      eapply Forall_impl; [exact Hs|]. intros [k r]. cbn. intros [u ->]. done.
    + apply bind_Ok. eexists. split; [|done]. by apply total_resource_size_Ok.
Qed.

Lemma validate_v2_resource_set_Ok p s :
  sizes_u64 p s →
  validate_v2_resource_set p s = Ok () ↔ resource_set_ok p s.
Proof.
  intros Htyped.
  assert (is_none p && (s == ∅) = false ↔ is_Some p ∨ s ≠ ∅) as Hempty.
  { rewrite andb_false_iff, is_none_false, eqb_false. done. }
  assert (from_option gr_size 0 p ≤ U64_MAX) as Hacc.
  { destruct Htyped as [Hp _]. destruct p; cbn; [by apply Hp|done]. }
  assert (Hfold : ∀ t, try_fold
        (λ total '(path, s),
           _ ← map_err (InvalidSecondaryResource path)
                 (GuardedResource_new path (sr_hash s) (sr_content_type s) (sr_size s));
           ok_or (checked_add U64_MAX total (sr_size s)) TotalResourceSizeOverflow)
        (from_option gr_size 0 p) (btree_iter s) = Ok t ↔
      (∀ k r, s !! k = Some r → descriptor_ok k (sr_content_type r) (sr_size r))
      ∧ t = resources_total p s ∧ t ≤ U64_MAX).
  { intros t. rewrite <- secondary_checks_ok.
    apply (try_fold_checked _ (λ e, map_err (InvalidSecondaryResource e.1)
      (GuardedResource_new e.1 (sr_hash e.2) (sr_content_type e.2) (sr_size e.2)))
      (λ e, sr_size e.2) TotalResourceSizeOverflow); [by intros ? []| |done].
    by eapply secondary_sizes_nonneg. }
  unfold validate_v2_resource_set. split.
  - intros Hv. apply bind_Ok in Hv as (? & Hne & Hv). apply bind_Ok in Hv as ([] & Hp & Hv).
    apply bind_Ok in Hv as (t & Ht & _). apply reject_if_Ok, Hempty in Hne.
    apply primary_check_ok in Hp as [Hp Hd]. apply Hfold in Ht as (Hs & -> & Ht). done.
  - intros [Hne Hp Hd Hs Ht]. apply Hempty in Hne as ->. cbn [reject_if mbind result_bind].
    rewrite (proj2 (primary_check_ok _ _)) by done. cbn [mbind result_bind].
    apply bind_Ok. eexists. split; [|done]. by apply Hfold.
Qed.

(** The v1 and v2 resource-set validators accept exactly the same sets, and
    these are the sets of the contract: non-empty, every descriptor well formed,
    the primary path not repeated, and a total size that fits in a [u64]. *)
Theorem resource_set_validators_agree lock :
  sizes_u64 (cl_primary_resource lock) (cl_secondary_resources lock) →
  (validate_resource_set lock = Ok () ↔
   validate_v2_resource_set (cl_primary_resource lock) (cl_secondary_resources lock) = Ok ())
  ∧ (validate_resource_set lock = Ok () ↔
     resource_set_ok (cl_primary_resource lock) (cl_secondary_resources lock)).
Proof.
  intros Htyped. rewrite validate_resource_set_Ok, validate_v2_resource_set_Ok by done. done.
Qed.

(** The aggregate size is the exact sum of the descriptors' sizes, and it is
    refused, with the overflow error and no other, exactly when that sum does
    not fit in a [u64]. *)
Theorem total_resource_size_exact lock :
  sizes_u64 (cl_primary_resource lock) (cl_secondary_resources lock) →
  let total := resources_total (cl_primary_resource lock) (cl_secondary_resources lock) in
  total_resource_size lock =
    if total <=? U64_MAX then Ok total else Err TotalResourceSizeOverflow.
Proof.
  intros Htyped total. destruct (total <=? U64_MAX) eqn:E; props.
  { by apply total_resource_size_Ok. }
  destruct (total_resource_size lock) as [t|e] eqn:Ht.
  { apply total_resource_size_Ok in Ht as [-> ?]; [|done]. subst total. lia. }
  f_equal. unfold total_resource_size in Ht. apply bind_Err in Ht as [Ht|(acc & _ & Ht)].
  - destruct (cl_primary_resource lock); [|done]. by apply ok_or_Err in Ht as [_ ->].
  - clear -Ht. revert acc Ht. induction (btree_iter _) as [|[k r] xs IH]; intros acc; [done|].
    cbn. intros [[_ ->]%ok_or_Err|(? & _ & ?)]%bind_Err; eauto.
Qed.

(** On a validated lock, looking a path up returns exactly the descriptor the
    lock declares for it, as primary or as secondary resource; the two never
    compete, and every descriptor returned is well formed. *)
Theorem resource_for_path_exact lock path r :
  sizes_u64 (cl_primary_resource lock) (cl_secondary_resources lock) →
  validate_resource_set lock = Ok () →
  (resource_for_path lock path = Some r ↔
   gr_path r = path
   ∧ (cl_primary_resource lock = Some r
      ∨ cl_secondary_resources lock !! path
        = Some (MkSecondaryGuardedResource (gr_hash r) (gr_content_type r) (gr_size r))))
  ∧ (resource_for_path lock path = Some r →
     descriptor_ok path (gr_content_type r) (gr_size r)).
Proof.
  intros Htyped Hv. apply validate_resource_set_Ok in Hv as [_ Hp Hd Hs _]; [|done].
  assert (resource_for_path lock path = Some r ↔
    gr_path r = path ∧ (cl_primary_resource lock = Some r
      ∨ cl_secondary_resources lock !! path
        = Some (MkSecondaryGuardedResource (gr_hash r) (gr_content_type r) (gr_size r))))
    as Hlookup.
  { unfold resource_for_path.
    assert ((λ s, MkGuardedResource path (sr_hash s) (sr_content_type s) (sr_size s))
              <$> cl_secondary_resources lock !! path = Some r ↔
            gr_path r = path ∧ cl_secondary_resources lock !! path
              = Some (MkSecondaryGuardedResource (gr_hash r) (gr_content_type r) (gr_size r)))
      as Hsec.
    { rewrite fmap_Some. split.
      - intros (s & -> & ->). by destruct s.
      - destruct r; cbn. intros [-> ->]. eauto. }
    destruct (cl_primary_resource lock) as [q|]; [|rewrite Hsec; naive_solver].
    destruct (gr_path q == path) eqn:E; props.
    - specialize (Hd q eq_refl). rewrite E in Hd. naive_solver.
    - rewrite Hsec. naive_solver. }
  split; [done|]. intros [<- [Hr|Hr]]%Hlookup; [by apply Hp|]. by apply Hs in Hr.
Qed.
End resource_sets.

(** * v2 policies *)

Section v2_policies.
  Context `{Base32, PubkyKeys, MimeCrate, Blake3, JsonCanonicalizer, UnicodeCase}.

Lemma length_remove_dups_le {A} `{EqDecision A} (l : list A) :
  (length (remove_dups l) ≤ length l)%nat.
Proof. induction l as [|x l IH]; cbn; [done|]. case_decide; cbn; lia. Qed.

(** The [HashSet] size test detects duplicates exactly. *)
Lemma remove_dups_length {A} `{EqDecision A} (l : list A) :
  length (remove_dups l) = length l ↔ NoDup l.
Proof.
  induction l as [|x l IH]; cbn; [split; [constructor|done]|].
  rewrite NoDup_cons, <- IH. case_decide as Hx; cbn.
  - pose proof (length_remove_dups_le l). split; [lia|]. intros [? _]. done.
  - split; [intros [= ->]; done|]. intros [_ ->]. done.
Qed.

Definition graph_predicate_ok (p : GraphPredicateV2) : Prop :=
  match p with
  | Follows follower followed => follower ≠ followed
  | Tagged tagger tagged label => tagger ≠ tagged ∧ valid_graph_label label = true
  end.

Record graph_policy_ok (g : GraphPolicyV2) : Prop := {
  graph_cardinality : (1 ≤ length (gp_predicates g) ≤ 8)%nat;
  graph_operator_presence : length (gp_predicates g) = 1%nat ↔ gp_operator g = None;
  graph_no_dup : NoDup (gp_predicates g);
  graph_predicates_ok : Forall graph_predicate_ok (gp_predicates g);
}.

Record payment_policy_ok (creator : CreatorPubky) (p : PaymentPolicyV2) : Prop := {
  payment_recipient : pp_recipient_pubky p = creator;
  payment_amount_digits : bytes_all is_ascii_digit (pp_amount p) = true;
  payment_amount_value : ∃ n, parse_u64 (pp_amount p) = Some n ∧ n ≠ 0;
  payment_asset : pp_asset p = "BTC";
  payment_confirmations : pp_minimum_confirmations p ≤ 6;
}.

Lemma GraphPredicateV2_validate_Ok p :
  GraphPredicateV2_validate p = Ok () ↔ graph_predicate_ok p.
Proof.
  destruct p as [a b|a b label]; cbn [GraphPredicateV2_validate graph_predicate_ok].
  - by rewrite reject_if_Ok, eqb_false.
  - rewrite bind_Ok. setoid_rewrite reject_if_Ok. setoid_rewrite eqb_false.
    setoid_rewrite negb_false_iff. naive_solver.
Qed.

Lemma GraphPolicyV2_validate_Ok g : GraphPolicyV2_validate g = Ok () ↔ graph_policy_ok g.
Proof.
  unfold GraphPolicyV2_validate. split.
  - intros Hv. peel. props.
    split.
    + lia.
    + match goal with H : (_ =? _) = is_none _ |- _ => rename H into Hop end.
      destruct (gp_operator g); cbn in Hop; props; split; intros; [lia|done|done|lia].
    + match goal with H : (_ =? _)%nat = true |- _ => apply Nat.eqb_eq, remove_dups_length in H end.
      done.
    + eapply Forall_impl; [eassumption|]. intros p. apply GraphPredicateV2_validate_Ok.
  - intros [Hc Ho Hn Hp]. cbn zeta. rewrite (proj2 (in_range_true _ _ _)) by lia. cbn.
    assert (((Z.of_nat (length (gp_predicates g)) =? 1) == is_none (gp_operator g)) = true) as ->.
    { apply eqb_true. destruct (gp_operator g); cbn; [apply Z.eqb_neq|apply Z.eqb_eq].
      - intros ?. assert (length (gp_predicates g) = 1%nat) as Hl by lia. by apply Ho in Hl.
      - assert (length (gp_predicates g) = 1%nat) by (by apply Ho). lia. }
    cbn. rewrite (proj2 (Nat.eqb_eq _ _)) by (by apply remove_dups_length). cbn.
    apply try_for_each_Ok. eapply Forall_impl; [exact Hp|]. intros p.
    apply GraphPredicateV2_validate_Ok.
Qed.

Lemma PaymentPolicyV2_validate_Ok p creator :
  PaymentPolicyV2_validate p creator = Ok () ↔ payment_policy_ok creator p.
Proof.
  unfold PaymentPolicyV2_validate. split.
  - intros Hv. peel. props.
    match goal with H : is_none_or _ _ = false |- _ =>
      apply is_none_or_false in H as (n & Hn & ?) end.
    props. split; eauto.
  - intros [-> Hd (n & Hn & Hn0) -> Hc]. rewrite eqb_same. cbn.
    replace (pp_amount p == "") with false
      by (symmetry; apply eqb_false; intros Ha; rewrite Ha in Hn; done).
    rewrite Hd, Hn. cbn. replace (n =? 0) with false by lia. cbn.
    rewrite eqb_same. cbn. by replace (6 <? _) with false by lia.
Qed.

(** The contract of a v2 lock. *)
Record content_lock_v2_ok (lock : ContentLockV2) : Prop := {
  v2_version : cl2_version lock = CONTENT_LOCK_V2_VERSION;
  v2_policy : is_Some (cl2_payment lock) ∨ is_Some (cl2_graph lock);
  v2_window : 60 ≤ cl2_verification_window_seconds lock ≤ 604800;
  v2_resources : resource_set_ok (cl2_primary_resource lock) (cl2_secondary_resources lock);
  v2_payment p : cl2_payment lock = Some p → payment_policy_ok (cl2_creator lock) p;
  v2_graph g : cl2_graph lock = Some g → graph_policy_ok g;
}.

Lemma ContentLockV2_validate_Ok lock :
  sizes_u64 (cl2_primary_resource lock) (cl2_secondary_resources lock) →
  ContentLockV2_validate lock = Ok () ↔ content_lock_v2_ok lock.
Proof.
  intros Htyped. unfold ContentLockV2_validate, ContentLockV2_validate_resource_set. split.
  - intros Hv. peel. props. split.
    + done.
    + destruct (cl2_payment lock), (cl2_graph lock); eauto; done.
    + done.
    + by apply validate_v2_resource_set_Ok.
    + intros p Hp. rewrite Hp in *. by apply PaymentPolicyV2_validate_Ok.
    + intros g Hg. rewrite Hg in *. by apply GraphPolicyV2_validate_Ok.
  - intros [-> Hpol Hw Hr Hp Hg]. cbn [reject_if Z.eqb negb].
    rewrite (proj2 (validate_v2_resource_set_Ok _ _ Htyped) Hr).
    rewrite (proj2 (in_range_true _ _ _)) by lia.
    destruct (cl2_payment lock) as [p|], (cl2_graph lock) as [g|]; cbn;
      try (rewrite (proj2 (PaymentPolicyV2_validate_Ok _ _)) by eauto);
      try (rewrite (proj2 (GraphPolicyV2_validate_Ok _)) by eauto); try done.
    by destruct Hpol as [[? [=]]|[? [=]]].
Qed.

(** A v2 lock is accepted exactly when it meets its contract: version 2, a
    payment or a graph policy, a window of 60 s to 7 days, a well-formed resource
    set, a payment policy that pays the creator a positive [u64] amount of BTC
    with at most six confirmations, and a flat graph policy of one to eight
    distinct predicates on differing roles with an operator iff there are several;
    and only an accepted lock has a lock hash or identifier. *)
Theorem content_lock_v2_validate_spec lock :
  sizes_u64 (cl2_primary_resource lock) (cl2_secondary_resources lock) →
  (ContentLockV2_validate lock = Ok () ↔ content_lock_v2_ok lock)
  ∧ (∀ id, lock_id_v2 lock = Some id →
       content_lock_v2_ok lock
       ∧ ∃ bs, canonical_json_v2 lock = Some bs ∧ id = LockId_from_hash (MkLockHash (blake3_hash bs))).
Proof.
  intros Htyped. pose proof (ContentLockV2_validate_Ok lock Htyped) as Hok. split; [done|].
  unfold lock_id_v2, lock_hash_v2, canonical_json_bytes_v2. intros id Hid.
  apply fmap_Some in Hid as (h & Hh & ->). apply fmap_Some in Hh as (bs & Hbs & ->).
  apply bind_Some in Hbs as ([] & Hval & Hbs).
  destruct (ContentLockV2_validate lock) as [[]|]; [|done]. naive_solver.
Qed.
End v2_policies.

(** * The [paykit-payment] policy of v1 *)

Section paykit_policy.
  Context `{Base32, PubkyKeys, MimeCrate, Blake3, JsonCanonicalizer, UnicodeCase}.

(** What accepted parameters say. *)
Record paykit_members_ok (members : list (string * Json)) (p : PaykitPaymentParams) : Prop := {
  params_known k : k ∈ members.*1 → k ∈ ["recipient_pubky"; "amount"; "asset"; "payment_in"];
  params_recipient : ∃ s, member "recipient_pubky" members = Some (JString s)
                          ∧ CreatorPubky_from_str s = Ok (ppp_recipient_pubky p);
  params_amount : member "amount" members = Some (JString (ppp_amount p));
  params_amount_digits : bytes_all is_ascii_digit (ppp_amount p) = true;
  params_amount_positive : bytes_any (λ b, negb (byte_val b =? 48)) (ppp_amount p) = true;
  params_asset : member "asset" members = Some (JString (ppp_asset p));
  params_asset_nonempty : ppp_asset p ≠ "";
  params_payment_in :
    member "payment_in" members = Some (JNumber (PosInt (ppp_payment_in p)));
  params_payment_in_positive : 0 < ppp_payment_in p;
}.

Lemma as_str_Some v s : as_str v = Some s ↔ v = JString s.
Proof. destruct v; cbn; naive_solver. Qed.
Lemma as_u64_Some v n : as_u64 v = Some n ↔ v = JNumber (PosInt n).
Proof. destruct v as [| |[]| | |]; cbn; naive_solver. Qed.
Lemma as_object_Some v ms : as_object v = Some ms ↔ v = JObject ms.
Proof. destruct v; cbn; naive_solver. Qed.

Lemma validate_paykit_payment_params_Ok params p :
  validate_paykit_payment_params params = Ok p ↔
  ∃ members, params = JObject members ∧ paykit_members_ok members p.
Proof.
  unfold validate_paykit_payment_params. split.
  - intros Hv. peel.
    repeat match goal with
    | H : as_object _ = Some _ |- _ => apply as_object_Some in H as ->
    | H : as_str _ = Some _ |- _ => apply as_str_Some in H as ->
    | H : (_ ≫= _) = Some _ |- _ => apply bind_Some in H as (? & ? & ?)
    | H : as_u64 _ = Some _ |- _ => apply as_u64_Some in H as ->
    end.
    eexists. split; [done|]. 
    match goal with H : (if _ then _ else _) = Some _ |- _ => split_match in H; [|done] end.
    props. simplify_eq. split; cbn; eauto.
    intros k Hk. match goal with Hall : Forall _ _ |- _ =>
      rewrite Forall_forall in Hall; specialize (Hall k Hk) as Hk' end.
    apply reject_if_Ok in Hk'. props. rewrite !orb_true_iff, !eqb_true in Hk'. set_solver.
  - intros (ms & -> & [Hk (r & Hr & Hr') Ha Hd Hpos Has Hne Hpi Hpi0]). cbn.
    rewrite (proj2 (try_for_each_Ok _ _ ())).
    2:{ apply Forall_forall. intros k Hin. apply reject_if_Ok, negb_false_iff.
        apply Hk in Hin. rewrite !orb_true_iff, !eqb_true. set_solver. }
    cbn. rewrite Hr. cbn. rewrite Hr'. cbn. rewrite Ha. cbn. rewrite Hd, Hpos.
    replace (ppp_amount p == "") with false
      by (symmetry; apply eqb_false; intros E; by rewrite E in Hpos).
    cbn. rewrite Has. cbn. rewrite (proj2 (eqb_false _ _)) by done. cbn.
    rewrite Hpi. cbn. rewrite (proj2 (Z.ltb_lt _ _)) by done. by destruct p.
Qed.

(** The payment policy of a v1 lock: no payment criterion at all, or exactly one
    criterion, whose parameters pay the creator and which the lock logic names
    alone. *)
Definition paykit_policy_ok (lock : ContentLock) : Prop :=
  Forall (λ c, criterion_verifier_type c ≠ PaykitPayment) (cl_criteria lock)
  ∨ ∃ c members p,
      cl_criteria lock = [c] ∧ criterion_verifier_type c = PaykitPayment
      ∧ criterion_params c = JObject members ∧ paykit_members_ok members p
      ∧ ppp_recipient_pubky p = cl_creator lock
      ∧ (cl_lock_logic lock = LogicAll [criterion_id c]
         ∨ cl_lock_logic lock = LogicAny [criterion_id c]).

Lemma paykit_criterion_params c u :
  criterion_verifier_type c = PaykitPayment →
  validate_params c = Ok u ↔
  ∃ members p, criterion_params c = JObject members ∧ paykit_members_ok members p.
Proof.
  intros Hc. unfold validate_params, paykit_payment_params. rewrite Hc, fmap_Ok.
  setoid_rewrite fmap_Ok. setoid_rewrite validate_paykit_payment_params_Ok.
  destruct u. naive_solver.
Qed.

(** A v1 lock passes the payment policy check exactly when it has no
    [paykit-payment] criterion, or that criterion is its only one, its
    parameters are complete and well formed, the recipient is the lock's creator
    and the lock logic references exactly this criterion. *)
Theorem paykit_payment_v1_policy_spec lock :
  validate_paykit_payment_v1_policy lock = Ok () ↔ paykit_policy_ok lock.
Proof.
  unfold validate_paykit_payment_v1_policy, paykit_policy_ok.
  destruct (List.find _ _) as [c|] eqn:Hf.
  2:{ split; [|done]. intros _. left. apply Forall_forall. intros c Hc.
      eapply List.find_none in Hf; [|by apply list_elem_of_In]. by props. }
  apply List.find_some in Hf as [Hin%list_elem_of_In Hc]. props. split.
  - intros Hv. right. peel. props.
    assert (cl_criteria lock = [c]) as Hone.
    { destruct (cl_criteria lock) as [|d [|]]; try done. set_solver. }
    match goal with H : validate_params _ = Ok _ |- _ =>
      apply paykit_criterion_params in H as (ms & p & Hms & Hp); [|done] end.
    exists c, ms, p. split_and!; try done.
    + destruct (params_recipient _ _ Hp) as (s & Hs & Hs'). rewrite Hms in *.
      unfold json_get in *. cbn in *. rewrite Hs in *. cbn in *. rewrite Hs' in *. cbn in *.
      by simplify_eq.
    + destruct (cl_lock_logic lock); props; subst; eauto.
  - intros [Hnone|(c' & ms & p & Hone & Hc' & Hms & Hp & Hrec & Hlogic)].
    { rewrite Forall_forall in Hnone. by apply Hnone in Hin. }
    rewrite Hone in *. assert (c' = c) as -> by set_solver. cbn.
    rewrite (proj2 (paykit_criterion_params c () Hc)) by eauto. cbn.
    destruct (params_recipient _ _ Hp) as (s & Hs & Hs').
    rewrite Hms. unfold json_get. cbn. rewrite Hs. cbn. rewrite Hs'. cbn.
    rewrite Hrec, eqb_same. cbn. destruct Hlogic as [-> | ->]; by rewrite eqb_same.
Qed.
End paykit_policy.
