(* ===== verification/Wire.v ===== *)
(** Proof-bundle wire payloads and their pairing with content locks
    ([locks-core/src/verification.rs]).

    Submitted and verified proof bundles of both versions, the version dispatch
    of the closed payload unions, the check that a submission belongs to a lock,
    and the check that a v2 publication belongs to its lock and policy mode. *)

From S2P Require Import Prelude RustStr Externals Ids Json LockPolicy.

Definition SUBMITTED_PROOF_BUNDLE_VERSION : Z := 1.
Definition SUBMITTED_PROOF_BUNDLE_V2_VERSION : Z := 2.
Definition VERIFIED_PROOF_BUNDLE_VERSION : Z := 1.
Definition VERIFIED_PROOF_BUNDLE_V2_VERSION : Z := 2.

(** * Data *)

Record Proof := MkProof {
  proof_criterion_id : string;
  proof_verifier_type : VerifierType;
  proof_payload : Json;
}.

Record SubmittedProofBundle := MkSubmittedProofBundle {
  sb_version : Z;
  sb_bundle_id : BundleId;
  sb_pubky_lock_resource : PubkyLockResource;
  sb_reader_public_key : option CreatorPubky;
  sb_client_reference : option ClientReference;
  sb_proofs : list Proof;
}.

Record SubmittedProofBundleV2 := MkSubmittedProofBundleV2 {
  sb2_version : Z;
  sb2_bundle_id : BundleId;
  sb2_pubky_lock_resource : PubkyLockResource;
  sb2_reader_pubky : option CreatorPubky;
}.

Inductive SubmittedProofBundlePayload :=
  | SubmittedV1 (bundle : SubmittedProofBundle)
  | SubmittedV2 (bundle : SubmittedProofBundleV2).

Record CriterionVerificationResult := MkCriterionVerificationResult {
  cvr_criterion_id : string;
  cvr_satisfied : bool;
  cvr_verified_at : OffsetDateTime;
  cvr_verified_by : LockServerPubky;
  cvr_verifier_type : VerifierType;
}.

Record VerificationResult := MkVerificationResult {
  vr_criteria : list CriterionVerificationResult;
}.

Inductive EntitlementLifetime : Set := Unbounded.

Record VerifiedProofBundle := MkVerifiedProofBundle {
  vb_version : Z;
  vb_bundle_id : BundleId;
  vb_pubky_lock_resource : PubkyLockResource;
  vb_verification_result : VerificationResult;
  vb_entitlement_lifetime : EntitlementLifetime;
}.

Inductive SatisfiedByV2 := ByPayment | ByGraph | ByZeroConfGraph.

Record VerifiedProofBundleV2 := MkVerifiedProofBundleV2 {
  vb2_version : Z;
  vb2_creator : CreatorPubky;
  vb2_reader : CreatorPubky;
  vb2_bundle_id : BundleId;
  vb2_pubky_lock_resource : PubkyLockResource;
  vb2_verified_at : OffsetDateTime;
  vb2_satisfied_by : list SatisfiedByV2;
}.

Inductive VerifiedProofBundlePayload :=
  | VerifiedV1 (bundle : VerifiedProofBundle)
  | VerifiedV2 (bundle : VerifiedProofBundleV2).

Inductive VersionPairValidationError :=
  | CrossVersion
  | UnsupportedWireVersion
  | InvalidContentLock
  | PaymentReaderRequired
  | GraphReaderForbidden
  | ResourceCreatorMismatch
  | ResourceLockIdMismatch.

Inductive VerifiedProofBundleV2ValidationError :=
  | UnsupportedVerifiedVersion (v : Z)
  | CreatorMismatch
  | LockIdMismatch
  | VerifiedInvalidContentLock
  | InvalidSatisfiedBy.

#[global] Instance Proof_eq_dec : EqDecision Proof.
Proof. solve_decision. Defined.
#[global] Instance SubmittedProofBundle_eq_dec : EqDecision SubmittedProofBundle.
Proof. solve_decision. Defined.
#[global] Instance SubmittedProofBundleV2_eq_dec : EqDecision SubmittedProofBundleV2.
Proof. solve_decision. Defined.
#[global] Instance CriterionVerificationResult_eq_dec : EqDecision CriterionVerificationResult.
Proof. solve_decision. Defined.
#[global] Instance VerificationResult_eq_dec : EqDecision VerificationResult.
Proof. solve_decision. Defined.
#[global] Instance EntitlementLifetime_eq_dec : EqDecision EntitlementLifetime.
Proof. solve_decision. Defined.
#[global] Instance VerifiedProofBundle_eq_dec : EqDecision VerifiedProofBundle.
Proof. solve_decision. Defined.
#[global] Instance SatisfiedByV2_eq_dec : EqDecision SatisfiedByV2.
Proof. solve_decision. Defined.
#[global] Instance VerifiedProofBundleV2_eq_dec : EqDecision VerifiedProofBundleV2.
Proof. solve_decision. Defined.

(** * Version dispatch

    The untagged [Wire] unions have decoded one of the two shapes; dispatch
    accepts it only with that shape's own version. *)

Definition ContentLockPayload_dispatch (wire : ContentLockPayload) :
    result Z ContentLockPayload :=
  match wire with
  | LockV1 lock => if cl_version lock =? CONTENT_LOCK_VERSION then Ok wire
                   else Err (cl_version lock)
  | LockV2 lock => if cl2_version lock =? CONTENT_LOCK_V2_VERSION then Ok wire
                   else Err (cl2_version lock)
  end.

Definition SubmittedProofBundlePayload_dispatch (wire : SubmittedProofBundlePayload) :
    result Z SubmittedProofBundlePayload :=
  match wire with
  | SubmittedV1 b => if sb_version b =? SUBMITTED_PROOF_BUNDLE_VERSION then Ok wire
                     else Err (sb_version b)
  | SubmittedV2 b => if sb2_version b =? SUBMITTED_PROOF_BUNDLE_V2_VERSION then Ok wire
                     else Err (sb2_version b)
  end.

Definition VerifiedProofBundlePayload_dispatch (wire : VerifiedProofBundlePayload) :
    result Z VerifiedProofBundlePayload :=
  match wire with
  | VerifiedV1 b => if vb_version b =? VERIFIED_PROOF_BUNDLE_VERSION then Ok wire
                    else Err (vb_version b)
  | VerifiedV2 b => if vb2_version b =? VERIFIED_PROOF_BUNDLE_V2_VERSION then Ok wire
                    else Err (vb2_version b)
  end.

(** * Operations *)

Section wire.
  Context `{Base32, PubkyKeys, MimeCrate, Blake3, JsonCanonicalizer, UnicodeCase}.

Definition validate_lock_resource (creator : CreatorPubky) (id : LockId)
    (resource : PubkyLockResource) : result VersionPairValidationError () :=
  _ ← reject_if (resource_creator resource != creator) ResourceCreatorMismatch;
  reject_if (resource_lock_id resource != id) ResourceLockIdMismatch.

Definition validate_content_lock_submission (content_lock : ContentLockPayload)
    (submitted : SubmittedProofBundlePayload) : result VersionPairValidationError () :=
  match content_lock, submitted with
  | LockV1 lock, SubmittedV1 bundle =>
      _ ← reject_if (negb (cl_version lock =? CONTENT_LOCK_VERSION)
                     || negb (sb_version bundle =? SUBMITTED_PROOF_BUNDLE_VERSION))
            UnsupportedWireVersion;
      id ← ok_or (lock_id lock) InvalidContentLock;
      validate_lock_resource (cl_creator lock) id (sb_pubky_lock_resource bundle)
  | LockV2 lock, SubmittedV2 bundle =>
      _ ← map_err (λ _, InvalidContentLock) (ContentLockV2_validate lock);
      _ ← reject_if (negb (cl2_version lock =? CONTENT_LOCK_V2_VERSION)
                     || negb (sb2_version bundle =? SUBMITTED_PROOF_BUNDLE_V2_VERSION))
            UnsupportedWireVersion;
      id ← ok_or (lock_id_v2 lock) InvalidContentLock;
      _ ← validate_lock_resource (cl2_creator lock) id (sb2_pubky_lock_resource bundle);
      match has_graph lock, is_some (sb2_reader_pubky bundle) with
      | false, true | true, false => Ok ()
      | false, false => Err PaymentReaderRequired
      | true, true => Err GraphReaderForbidden
      end
  | _, _ => Err CrossVersion
  end.

Definition VerifiedProofBundleV2_validate (v : VerifiedProofBundleV2) :
    result VerifiedProofBundleV2ValidationError () :=
  _ ← reject_if (negb (vb2_version v =? VERIFIED_PROOF_BUNDLE_V2_VERSION))
        (UnsupportedVerifiedVersion (vb2_version v));
  _ ← reject_if (resource_creator (vb2_pubky_lock_resource v) != vb2_creator v) CreatorMismatch;
  let canonical :=
    match vb2_satisfied_by v with
    | [ByPayment] | [ByGraph] | [ByZeroConfGraph] | [ByPayment; ByZeroConfGraph] => true
    | _ => false
    end in
  reject_if (negb canonical) InvalidSatisfiedBy.

Definition validate_verified_content_lock_publication (lock : ContentLockV2)
    (v : VerifiedProofBundleV2) : result VerifiedProofBundleV2ValidationError () :=
  _ ← map_err (λ _, VerifiedInvalidContentLock) (ContentLockV2_validate lock);
  _ ← VerifiedProofBundleV2_validate v;
  _ ← reject_if ((vb2_creator v != cl2_creator lock)
                 || (resource_creator (vb2_pubky_lock_resource v) != cl2_creator lock))
        CreatorMismatch;
  id ← ok_or (lock_id_v2 lock) VerifiedInvalidContentLock;
  _ ← reject_if (resource_lock_id (vb2_pubky_lock_resource v) != id) LockIdMismatch;
  let valid_paths :=
    match is_some (cl2_payment lock), is_some (cl2_graph lock) with
    | true, false => match vb2_satisfied_by v with [ByPayment] => true | _ => false end
    | false, true => match vb2_satisfied_by v with [ByGraph] => true | _ => false end
    | true, true =>
        match vb2_satisfied_by v with
        | [ByPayment] | [ByZeroConfGraph] | [ByPayment; ByZeroConfGraph] => true
        | _ => false
        end
    | false, false => false
    end in
  reject_if (negb valid_paths) InvalidSatisfiedBy.

(** * Contracts *)

Lemma validate_lock_resource_Ok creator id r u :
  validate_lock_resource creator id r = Ok u ↔
  resource_creator r = creator ∧ resource_lock_id r = id.
Proof.
  unfold validate_lock_resource. rewrite bind_Ok. setoid_rewrite reject_if_Ok.
  setoid_rewrite negb_false_iff. setoid_rewrite eqb_true. naive_solver.
Qed.

(** A submission addresses a lock: it names the lock's creator and identifier. *)
Definition addresses (r : PubkyLockResource) (payload : ContentLockPayload) : Prop :=
  resource_creator r = payload_creator payload
  ∧ payload_lock_id payload = Some (resource_lock_id r).

Definition submitted_resource (s : SubmittedProofBundlePayload) : PubkyLockResource :=
  match s with
  | SubmittedV1 b => sb_pubky_lock_resource b
  | SubmittedV2 b => sb2_pubky_lock_resource b
  end.

(** Exact version pairing, and the reader identity where each mode wants it: a
    payment-only v2 submission names its reader, a graph-containing one never
    does (the reader authenticates instead). *)
Definition versions_pair (payload : ContentLockPayload) (s : SubmittedProofBundlePayload) : Prop :=
  match payload, s with
  | LockV1 lock, SubmittedV1 b => cl_version lock = 1 ∧ sb_version b = 1
  | LockV2 lock, SubmittedV2 b =>
      ContentLockV2_validate lock = Ok () ∧ cl2_version lock = 2 ∧ sb2_version b = 2
      ∧ (is_Some (cl2_graph lock) ↔ sb2_reader_pubky b = None)
  | _, _ => False
  end.

(** A submission is admitted for a lock exactly when both have the same
    supported version, the submission addresses this very lock, a v2 lock is
    valid, and the reader identity is present exactly when the lock has no
    graph policy. *)
Theorem content_lock_submission_spec payload s :
  validate_content_lock_submission payload s = Ok () ↔
  versions_pair payload s ∧ addresses (submitted_resource s) payload.
Proof.
  unfold addresses. destruct payload as [lock|lock], s as [b|b]; cbn -[Z.eqb]; try naive_solver.
  - split.
    + intros Hv. peel. props.
      match goal with H : validate_lock_resource _ _ _ = Ok _ |- _ =>
        apply validate_lock_resource_Ok in H as [? ?] end. by subst.
    + intros ((Hl & Hb) & Hc & Hid). rewrite Hl, Hb, Hid. cbn.
      by apply validate_lock_resource_Ok.
  - assert (Hgraph : ∀ (o : option GraphPolicyV2) (r : option CreatorPubky),
      match is_some o, is_some r with
      | false, true | true, false => Ok ()
      | false, false => Err PaymentReaderRequired
      | true, true => Err GraphReaderForbidden
      end = Ok () ↔ (is_Some o ↔ r = None)).
    { intros [] []; cbn; split; try naive_solver. }
    unfold has_graph. split.
    + intros Hv. peel. props.
      match goal with H : validate_lock_resource _ _ _ = Ok _ |- _ =>
        apply validate_lock_resource_Ok in H as [? ?] end. subst.
      split_and!; try done. by apply Hgraph.
    + intros ((Hval & Hl & Hb & Hg) & Hc & Hid). rewrite Hval. cbn -[Z.eqb].
      rewrite Hl, Hb, Hid. cbn. rewrite (proj2 (validate_lock_resource_Ok _ _ _ ())) by done.
      cbn. by apply Hgraph.
Qed.

(** The satisfaction paths each policy mode may publish. *)
Definition publishable_paths (lock : ContentLockV2) : list (list SatisfiedByV2) :=
  match cl2_payment lock, cl2_graph lock with
  | Some _, None => [[ByPayment]]
  | None, Some _ => [[ByGraph]]
  | Some _, Some _ => [[ByPayment]; [ByZeroConfGraph]; [ByPayment; ByZeroConfGraph]]
  | None, None => []
  end.

(** A v2 entitlement may be published for a lock exactly when the lock is
    valid, the publication has version 2 and names this creator and this lock,
    and its satisfaction paths are ones the lock's policy mode can produce. *)
Theorem verified_publication_spec lock v :
  validate_verified_content_lock_publication lock v = Ok () ↔
  ContentLockV2_validate lock = Ok ()
  ∧ vb2_version v = 2
  ∧ vb2_creator v = cl2_creator lock
  ∧ addresses (vb2_pubky_lock_resource v) (LockV2 lock)
  ∧ vb2_satisfied_by v ∈ publishable_paths lock.
Proof.
  unfold validate_verified_content_lock_publication, VerifiedProofBundleV2_validate,
    addresses, publishable_paths; cbn -[Z.eqb].
  split.
  - intros Hv. peel. props. subst. split_and!; [done..|congruence|congruence|].
    destruct (cl2_payment lock), (cl2_graph lock); cbn in *; try done;
      repeat match goal with H : match ?x with _ => _ end = true |- _ => destruct x; try done end;
      set_solver.
  - intros (Hval & Hver & Hcr & (Hrc & Hid) & Hpaths). rewrite Hval. cbn -[Z.eqb].
    rewrite Hver, Hrc, Hcr, !eqb_same, Hid. cbn. rewrite eqb_same.
    destruct (cl2_payment lock), (cl2_graph lock); cbn in *; set_unfold in Hpaths;
      destruct_or? Hpaths; try done; by rewrite Hpaths.
Qed.
End wire.
