(* ===== verification/Errors.v ===== *)
(** Errors of the application layer ([locks-service/src/application/errors.rs])
    and the task statuses and terminal reasons they and the task models mention
    ([application/models/verification.rs]).
    Diagnostic texts are kept where the code chooses them. *)

From S2P Require Import Prelude RustStr Ids LockPolicy.

Inductive VerificationTaskStatus :=
  | Pending
  | InProgress
  | PublishingEntitlement
  | Completed
  | Failed
  | Expired.

#[global] Instance VerificationTaskStatus_eq_dec : EqDecision VerificationTaskStatus.
Proof. solve_decision. Defined.

Inductive VerificationTerminalReason :=
  | PaymentRequestRejected
  | PaymentRequestCanceled
  | ReasonProposalExpired
  | PaymentDeadlineExpired
  | ContentLockDeleted
  | GraphConditionNotObservedByDeadline
  | VerificationUnavailableByDeadline
  | InvalidVerifierResponse
  | VerificationConflict.

#[global] Instance VerificationTerminalReason_eq_dec : EqDecision VerificationTerminalReason.
Proof. solve_decision. Defined.

Inductive ApplicationError :=
  | DuplicateRecord (record : string)
  | ContentLockPathConflict (guarded_path : string)
  | ContentLockDeletionInProgress
  | ContentLockPublicationInProgress
  | InvalidContentLockDeletionState (message : string)
  | CorruptContentLockDeletionManifest (message : string)
  | MissingRecord (record : string)
  | Storage (message : string)
  | Verifier (message : string)
  | VerificationPending
  | PaykitPaymentStatusConflict
  | PaykitPaymentStatusInvalidResponse
  | VerificationDependencyUnavailable
  | InvalidPaykitPaymentSubmission
  | InvalidVerificationTaskTransition (from to : VerificationTaskStatus)
  | InvalidVerificationTaskState (message : string)
  | InvalidVerificationTaskFailureMessage
  | VerificationTaskConflict
  | VerificationTaskClaimLost
  | RateLimited
  | UnsupportedCredentialTtl (requested_seconds max_seconds : Z)
  | CredentialGeneration (message : string)
  | FinalCredentialSecret (message : string)
  | FoldedAuthSecret (message : string)
  | InvalidFoldedAuthState (message : string)
  | CreatorAuthorityUnavailable
  | CreatorAuthoritySecret (message : string)
  | InvalidCreatorAuthorityAuthKind (auth_kind : string)
  | CreatorConnectFlowUnavailable
  | CreatorConnectFlowExpired
  | FrontendSessionCodeUnavailable
  | FrontendSessionCodeExpired
  | FrontendSessionCodeAlreadyConsumed
  | FrontendSessionUnavailable
  | FrontendSessionExpired
  | FrontendSessionStateMismatch
  | EmptyContentLockCriteria
  | DuplicateContentLockCriterion (criterion_id : string)
  | DuplicateVerificationResultCriterion (criterion_id : string)
  | UnknownVerificationResultCriterion (criterion_id : string)
  | EntitlementNotFound
  | ContentLockUnavailable
  | ContentLockHashMismatch (expected actual : LockId)
  | EntitlementNotSatisfied
  | ContentLockCanonicalization (message : string)
  | UnsupportedVerifierType (verifier_type : VerifierType)
  | GuardedResourceUnavailable
  | InvalidGuardedResource (message : string)
  | InvalidAccessCredential
  | ExpiredAccessCredential.

#[global] Instance ApplicationError_eq_dec : EqDecision ApplicationError.
Proof. solve_decision. Defined.
