(* ===== verification/Run.v ===== *)
(** Runs of use cases.

    A use case makes a sequence of calls to its ports.  The store it works on, the
    entitlements and the number of clock readings so far make up its world; a run
    is a computation on the world that may fail and keeps the world it failed
    in.

    An [Act] is a computation that cannot fail: a use case that handles every error of
    its ports and reports an outcome.  A [Run] is one of them whose outcome is a [result],
    so binding a [Run] there catches its error. *)

From S2P Require Import Prelude Errors.

Record World (S E : Type) := MkWorld {
  w_store : S;
  w_entitlements : E;
  (** clock readings so far *)
  w_ticks : nat;
}.
Arguments MkWorld {S E}.
Arguments w_store {S E}.
Arguments w_entitlements {S E}.
Arguments w_ticks {S E}.

(** Computations on the world that may fail. *)
Definition Run (S E A : Type) : Type := World S E → result ApplicationError A * World S E.

Definition run_ret {S E A} (a : A) : Run S E A := λ w, (Ok a, w).
Definition run_err {S E A} (e : ApplicationError) : Run S E A := λ w, (Err e, w).
Definition run_bind {S E A B} (f : A → Run S E B) (m : Run S E A) : Run S E B := λ w,
  match m w with
  | (Ok a, w') => f a w'
  | (Err e, w') => (Err e, w')
  end.
Definition run_lift {S E A} (r : result ApplicationError A) : Run S E A := λ w, (r, w).

Declare Scope run_scope.
Delimit Scope run_scope with run.
Notation "x ⟵ m ; k" := (run_bind (λ x, k) m)
  (at level 20, m at level 100, k at level 200, right associativity) : run_scope.

(** The next reading of the clock. *)
Definition now {S E} (clock : nat → OffsetDateTime) : Run S E OffsetDateTime := λ w,
  (Ok (clock (w_ticks w)), MkWorld (w_store w) (w_entitlements w) (w_ticks w + 1)%nat).

Lemma run_bind_inv {S E A B} (f : A → Run S E B) (m : Run S E A) w res w' :
  run_bind f m w = (res, w') →
  (∃ e, m w = (Err e, w') ∧ res = Err e) ∨ ∃ a w1, m w = (Ok a, w1) ∧ f a w1 = (res, w').
Proof. unfold run_bind. destruct (m w) as [[a|e] w1]; [by right; eauto|]. intros [= <- <-]. eauto. Qed.

(** * What a run does to the store *)

(** Whatever its result, the run relates the store before and after. *)
Definition moves {S E A} (R : relation S) (m : Run S E A) : Prop :=
  ∀ w res w', m w = (res, w') → R (w_store w) (w_store w').

Section moves.
  Context {S E : Type} (R : relation S) `{!PreOrder R}.

Lemma moves_ret {A} (a : A) : moves (E := E) R (run_ret a).
Proof. by intros w res w' [= <- <-]. Qed.
Lemma moves_err {A} e : moves (E := E) R (run_err (A := A) e).
Proof. by intros w res w' [= <- <-]. Qed.
Lemma moves_lift {A} (r : result ApplicationError A) : moves (E := E) R (run_lift r).
Proof. by intros w res w' [= <- <-]. Qed.
Lemma moves_now clock : moves (E := E) R (now clock).
Proof. by intros w res w' [= <- <-]. Qed.

Lemma moves_bind {A B} (f : A → Run S E B) (m : Run S E A) :
  moves R m → (∀ a, moves R (f a)) → moves R (run_bind f m).
Proof.
  intros Hm Hf w res w' Hw. apply run_bind_inv in Hw as [(e & Hw & _)|(a & w1 & Hw & Hf')].
  - by eapply Hm.
  - etransitivity; [by eapply Hm|by eapply Hf].
Qed.
End moves.

(** * Calls that may get lost *)

(** What becomes of a request to a repository. *)
Inductive Fate :=
  | Delivered
  | Lost (e : ApplicationError)
  | Unanswered (e : ApplicationError).

(** A call of a repository whose state others change between calls. *)
Definition call {S E A} (fates : nat → Fate) (others : nat → S → S)
    (op : S → result ApplicationError (A * S)) : Run S E A := λ w,
  let s := others (w_ticks w) (w_store w) in
  let goes_to s' := MkWorld s' (w_entitlements w) (w_ticks w + 1)%nat in
  match fates (w_ticks w), op s with
  | Delivered, Ok (a, s') => (Ok a, goes_to s')
  | Delivered, Err e => (Err e, goes_to s)
  | Lost e, _ => (Err e, goes_to s)
  | Unanswered e, Ok (_, s') => (Err e, goes_to s')
  | Unanswered e, Err _ => (Err e, goes_to s)
  end.

(** An error that is a lost request or a lost answer. *)
Definition lost_call (fates : nat → Fate) (e : ApplicationError) : Prop :=
  ∃ n, fates n = Lost e ∨ fates n = Unanswered e.

(** A call either has its effect and answers, or fails: lost, unanswered, or
    refused. *)
Lemma call_inv {S E A} fates others (op : S → result ApplicationError (A * S))
    (w : World S E) res w' :
  call fates others op w = (res, w') →
  let s := others (w_ticks w) (w_store w) in
  (∃ a, res = Ok a ∧ op s = Ok (a, w_store w'))
  ∨ ∃ e, res = Err e
      ∧ (op s = Err e ∧ w_store w' = s
         ∨ lost_call fates e ∧ (w_store w' = s ∨ ∃ a, op s = Ok (a, w_store w'))).
Proof.
  unfold call, lost_call. destruct (fates (w_ticks w)) as [|e|e] eqn:Hf;
    destruct (op _) as [[a s']|e'] eqn:Hop; intros [= <- <-]; cbn; eauto 10.
Qed.

Lemma call_delivered {S E A} fates others (op : S → result ApplicationError (A * S))
    (w : World S E) :
  (∀ n, fates n = Delivered) → (∀ n s, others n s = s) →
  call fates others op w
  = match op (w_store w) with
    | Ok (a, s') => (Ok a, MkWorld s' (w_entitlements w) (w_ticks w + 1)%nat)
    | Err e => (Err e, MkWorld (w_store w) (w_entitlements w) (w_ticks w + 1)%nat)
    end.
Proof. intros Hf Ho. unfold call. rewrite Hf, Ho. by destruct (op _) as [[]|]. Qed.

Lemma moves_call {S E A} (R : relation S) `{!PreOrder R} fates others
    (op : S → result ApplicationError (A * S)) :
  (∀ n s, R s (others n s)) → (∀ s a s', op s = Ok (a, s') → R s s') →
  moves (E := E) R (call fates others op).
Proof.
  intros Hothers Hop w res w' Hw. apply call_inv in Hw. etransitivity; [apply (Hothers (w_ticks w))|].
  destruct Hw as [(a & _ & Ha)|(e & _ & [[_ ->]|(_ & [->|(a & Ha)])])]; [by eapply Hop|done|done|by eapply Hop].
Qed.

Definition Act (S E A : Type) : Type := World S E → A * World S E.

Definition act_ret {S E A} (a : A) : Act S E A := λ w, (a, w).
Definition act_bind {S E A B} (f : A → Act S E B) (m : Act S E A) : Act S E B := λ w,
  let (a, w') := m w in f a w'.

Declare Scope act_scope.
Delimit Scope act_scope with act.
Notation "x ⇐ m ; k" := (act_bind (λ x, k) m)
  (at level 20, m at level 100, k at level 200, right associativity) : act_scope.

(** Reading a clock that is part of the store, after what others have done. *)
Definition look_at {S E A} (others : nat → S → S) (f : S → A) : Act S E A := λ w,
  let s := others (w_ticks w) (w_store w) in
  (f s, MkWorld s (w_entitlements w) (w_ticks w + 1)%nat).

(** * Triples *)

(** From every world that satisfies [P] the computation ends in a result and a world
    that satisfy [Q]. *)
Definition triple {S E A} (P : World S E → Prop) (m : Act S E A)
    (Q : A → World S E → Prop) : Prop :=
  ∀ w, P w → Q (m w).1 (m w).2.

Lemma triple_ret {S E A} (P : World S E → Prop) (a : A) (Q : A → World S E → Prop) :
  (∀ w, P w → Q a w) → triple P (act_ret a) Q.
Proof. intros HQ w Hw. by apply HQ. Qed.

Lemma triple_bind {S E A B} (R : A → World S E → Prop) (P : World S E → Prop)
    (f : A → Act S E B) (m : Act S E A) (Q : B → World S E → Prop) :
  triple P m R → (∀ a, triple (R a) (f a) Q) → triple P (act_bind f m) Q.
Proof.
  intros Hm Hf w Hw. unfold act_bind. specialize (Hm w Hw).
  destruct (m w) as [a w1]. cbn in Hm. by apply (Hf a w1).
Qed.

Lemma triple_run_bind {S E A B} (R : A → World S E → Prop) (P : World S E → Prop)
    (f : A → Run S E B) (m : Run S E A) (Q : result ApplicationError B → World S E → Prop) :
  triple P m (λ r w, match r with Ok a => R a w | Err e => Q (Err e) w end) →
  (∀ a, triple (R a) (f a) Q) → triple P (run_bind f m) Q.
Proof.
  intros Hm Hf w Hw. unfold run_bind. specialize (Hm w Hw).
  destruct (m w) as [[a|e] w1]; cbn in *; [by apply (Hf a w1)|done].
Qed.

Lemma triple_conseq {S E A} (P' : World S E → Prop) (Q' : A → World S E → Prop)
    (P : World S E → Prop) (m : Act S E A) (Q : A → World S E → Prop) :
  triple P' m Q' → (∀ w, P w → P' w) → (∀ a w, Q' a w → Q a w) → triple P m Q.
Proof. intros Hm HP HQ w Hw. by apply HQ, Hm, HP. Qed.

Lemma triple_pure {S E A} (φ : Prop) (P : World S E → Prop) (m : Act S E A) Q :
  (φ → triple P m Q) → triple (λ w, φ ∧ P w) m Q.
Proof. intros Hm w [Hφ Hw]. by apply (Hm Hφ). Qed.

Lemma triple_exists {S E A X} (P : X → World S E → Prop) (m : Act S E A) Q :
  (∀ x, triple (P x) m Q) → triple (λ w, ∃ x, P x w) m Q.
Proof. intros Hm w [x Hw]. by apply (Hm x). Qed.

Lemma triple_and {S E A} (P P' : World S E → Prop) (m : Act S E A) Q Q' :
  triple P m Q → triple P' m Q' → triple (λ w, P w ∧ P' w) m (λ a w, Q a w ∧ Q' a w).
Proof. intros Hm Hm' w [Hw Hw']. split; [by apply Hm|by apply Hm']. Qed.

Lemma triple_lift {S E A B} (P : World S E → Prop) (r : result ApplicationError A)
    (f : A → Run S E B) (Q : result ApplicationError B → World S E → Prop) :
  (∀ a, r = Ok a → triple P (f a) Q) → (∀ e w, P w → Q (Err e) w) →
  triple P (run_bind f (run_lift r)) Q.
Proof. intros Hf He. destruct r as [a|e]; [by apply Hf|]. intros w Hw. by apply He. Qed.

(** * What a computation does to the store *)

Definition acts {S E A} (R : relation S) (m : Act S E A) : Prop :=
  ∀ w, R (w_store w) (w_store (m w).2).

Section acts.
  Context {S E : Type} (R : relation S) `{!PreOrder R}.

Lemma acts_ret {A} (a : A) : acts (E := E) R (act_ret a).
Proof. by intros w. Qed.

Lemma acts_bind {A B} (f : A → Act S E B) (m : Act S E A) :
  acts R m → (∀ a, acts R (f a)) → acts R (act_bind f m).
Proof.
  intros Hm Hf w. unfold act_bind. specialize (Hm w). destruct (m w) as [a w1].
  etransitivity; [exact Hm|apply Hf].
Qed.

Lemma acts_run_bind {A B} (f : A → Run S E B) (m : Run S E A) :
  acts R m → (∀ a, acts R (f a)) → acts R (run_bind f m).
Proof.
  intros Hm Hf w. unfold run_bind. specialize (Hm w). destruct (m w) as [[a|e] w1]; [|exact Hm].
  etransitivity; [exact Hm|apply Hf].
Qed.

Lemma acts_look {A} others (f : S → A) :
  (∀ n s, R s (others n s)) → acts (E := E) R (look_at others f).
Proof. intros Ho w. apply Ho. Qed.

Lemma acts_call {A} fates others (op : S → result ApplicationError (A * S)) :
  (∀ n s, R s (others n s)) → (∀ s a s', op s = Ok (a, s') → R s s') →
  acts (E := E) R (call fates others op).
Proof.
  intros Ho Hop w. destruct (call fates others op w) as [r w'] eqn:Hc.
  by eapply (moves_call R fates others op Ho Hop).
Qed.
End acts.

Lemma call_ticks {S E A} fates others (op : S → result ApplicationError (A * S)) (w : World S E) :
  w_ticks (call fates others op w).2 = (w_ticks w + 1)%nat.
Proof. unfold call. destruct (fates _); try done; by destruct (op (others (w_ticks w) (w_store w))) as [[]|]. Qed.
