(* ===== verification/ApiErrors.v ===== *)
(** Errors of the HTTP interface.

    The codes with their wire names and status, and the translation of the errors
    of the service, from [locks-server/src/api/errors.rs]. *)

From S2P Require Import Prelude LockPolicy Errors.

Inductive ApiErrorCode :=
  | CodeInvalidRequest
  | CodeInvalidIdentifier
  | CodeInvalidAccessCredential
  | CodeExpiredAccessCredential
  | CodeEntitlementNotAuthorized
  | CodeVerificationTaskNotFound
  | CodeFoldedAuthStateNotFound
  | CodeFoldedAuthUnavailable
  | CodeGuardedResourceNotFound
  | CodeContentLockNotFound
  | CodeCreatorAuthorityUnavailable
  | CodeCreatorConnectFlowUnavailable
  | CodeCreatorConnectFlowExpired
  | CodeFrontendSessionCodeUnavailable
  | CodeFrontendSessionCodeExpired
  | CodeFrontendSessionCodeAlreadyConsumed
  | CodeFrontendSessionUnavailable
  | CodeFrontendSessionExpired
  | CodeFrontendSessionStateMismatch
  | CodeContentLockPathConflict
  | CodeContentLockDeletionInProgress
  | CodeContentLockDeletionNotFound
  | CodeTaskStateConflict
  | CodeUnsupportedVerifierType
  | CodePaykitNotConfigured
  | CodeNotPaykitPayment
  | CodeReaderPubkyUnresolvable
  | CodePaykitInvoiceCreationFailed
  | CodePaykitConnectionStateUnavailable
  | CodePaykitConnectionStateTimeout
  | CodeRateLimited
  | CodePayloadTooLarge
  | CodeInternalError.

#[global] Instance ApiErrorCode_eq_dec : EqDecision ApiErrorCode.
Proof. solve_decision. Defined.

Definition ApiErrorCode_as_str (c : ApiErrorCode) : string :=
  match c with
  | CodeInvalidRequest => "invalid_request"
  | CodeInvalidIdentifier => "invalid_identifier"
  | CodeInvalidAccessCredential => "invalid_access_credential"
  | CodeExpiredAccessCredential => "expired_access_credential"
  | CodeEntitlementNotAuthorized => "entitlement_not_authorized"
  | CodeVerificationTaskNotFound => "verification_task_not_found"
  | CodeFoldedAuthStateNotFound => "folded_auth_state_not_found"
  | CodeFoldedAuthUnavailable => "folded_auth_unavailable"
  | CodeGuardedResourceNotFound => "guarded_resource_not_found"
  | CodeContentLockNotFound => "content_lock_not_found"
  | CodeCreatorAuthorityUnavailable => "creator_authority_unavailable"
  | CodeCreatorConnectFlowUnavailable => "creator_connect_flow_unavailable"
  | CodeCreatorConnectFlowExpired => "creator_connect_flow_expired"
  | CodeFrontendSessionCodeUnavailable => "frontend_session_code_unavailable"
  | CodeFrontendSessionCodeExpired => "frontend_session_code_expired"
  | CodeFrontendSessionCodeAlreadyConsumed => "frontend_session_code_already_consumed"
  | CodeFrontendSessionUnavailable => "frontend_session_unavailable"
  | CodeFrontendSessionExpired => "frontend_session_expired"
  | CodeFrontendSessionStateMismatch => "frontend_session_state_mismatch"
  | CodeContentLockPathConflict => "content_lock_path_conflict"
  | CodeContentLockDeletionInProgress => "content_lock_deletion_in_progress"
  | CodeContentLockDeletionNotFound => "content_lock_deletion_not_found"
  | CodeTaskStateConflict => "task_state_conflict"
  | CodeUnsupportedVerifierType => "unsupported_verifier_type"
  | CodePaykitNotConfigured => "paykit_not_configured"
  | CodeNotPaykitPayment => "not_paykit_payment"
  | CodeReaderPubkyUnresolvable => "reader_pubky_unresolvable"
  | CodePaykitInvoiceCreationFailed => "paykit_invoice_creation_failed"
  | CodePaykitConnectionStateUnavailable => "paykit_connection_state_unavailable"
  | CodePaykitConnectionStateTimeout => "paykit_connection_state_timeout"
  | CodeRateLimited => "rate_limited"
  | CodePayloadTooLarge => "payload_too_large"
  | CodeInternalError => "internal_error"
  end.

Definition ApiErrorCode_status_code (c : ApiErrorCode) : Z :=
  match c with
  | CodeInvalidRequest | CodeInvalidIdentifier | CodeFrontendSessionStateMismatch => 400
  | CodeInvalidAccessCredential | CodeExpiredAccessCredential
  | CodeFrontendSessionUnavailable | CodeFrontendSessionExpired => 401
  | CodeEntitlementNotAuthorized => 403
  | CodeVerificationTaskNotFound | CodeFoldedAuthStateNotFound | CodeGuardedResourceNotFound
  | CodeContentLockNotFound | CodeContentLockDeletionNotFound | CodeCreatorConnectFlowUnavailable
  | CodeFrontendSessionCodeUnavailable => 404
  | CodeContentLockPathConflict | CodeContentLockDeletionInProgress | CodeTaskStateConflict => 409
  | CodeCreatorConnectFlowExpired | CodeFrontendSessionCodeExpired
  | CodeFrontendSessionCodeAlreadyConsumed => 410
  | CodePayloadTooLarge => 413
  | CodeUnsupportedVerifierType | CodePaykitNotConfigured | CodeNotPaykitPayment
  | CodeReaderPubkyUnresolvable => 422
  | CodeRateLimited => 429
  | CodeInternalError => 500
  | CodePaykitInvoiceCreationFailed | CodePaykitConnectionStateUnavailable => 502
  | CodeCreatorAuthorityUnavailable | CodeFoldedAuthUnavailable => 503
  | CodePaykitConnectionStateTimeout => 504
  end.

Record ApiError := MkApiError {
  api_code : ApiErrorCode;
  api_message : string;
}.

#[global] Instance ApiError_eq_dec : EqDecision ApiError.
Proof. solve_decision. Defined.

(** [From<ApplicationError> for ApiError]. *)
Definition ApiError_from (e : ApplicationError) : ApiError :=
  match e with
  | MissingRecord record =>
      if record == "verification_task"
      then MkApiError CodeVerificationTaskNotFound "verification task not found"
      else if record == "guarded_resource"
      then MkApiError CodeGuardedResourceNotFound "guarded resource not found"
      else if record == "content_lock"
      then MkApiError CodeContentLockNotFound "content lock not found"
      else MkApiError CodeInternalError "internal server error"
  | GuardedResourceUnavailable =>
      MkApiError CodeGuardedResourceNotFound "guarded resource not found"
  | ContentLockUnavailable => MkApiError CodeContentLockNotFound "content lock not found"
  | InvalidAccessCredential => MkApiError CodeInvalidAccessCredential "invalid access credential"
  | ExpiredAccessCredential => MkApiError CodeExpiredAccessCredential "expired access credential"
  | CreatorAuthorityUnavailable | CreatorAuthoritySecret _ | InvalidCreatorAuthorityAuthKind _ =>
      MkApiError CodeCreatorAuthorityUnavailable "creator authority unavailable"
  | CreatorConnectFlowUnavailable =>
      MkApiError CodeCreatorConnectFlowUnavailable "creator connect flow unavailable"
  | CreatorConnectFlowExpired =>
      MkApiError CodeCreatorConnectFlowExpired "creator connect flow expired"
  | FrontendSessionCodeUnavailable =>
      MkApiError CodeFrontendSessionCodeUnavailable "frontend session code unavailable"
  | FrontendSessionCodeExpired =>
      MkApiError CodeFrontendSessionCodeExpired "frontend session code expired"
  | FrontendSessionCodeAlreadyConsumed =>
      MkApiError CodeFrontendSessionCodeAlreadyConsumed "frontend session code already consumed"
  | FrontendSessionUnavailable =>
      MkApiError CodeFrontendSessionUnavailable "frontend session unavailable"
  | FrontendSessionExpired => MkApiError CodeFrontendSessionExpired "frontend session expired"
  | FrontendSessionStateMismatch =>
      MkApiError CodeFrontendSessionStateMismatch "frontend session state mismatch"
  | ContentLockPathConflict _ =>
      MkApiError CodeContentLockPathConflict "content lock path is already owned"
  | ContentLockDeletionInProgress =>
      MkApiError CodeContentLockDeletionInProgress "content lock deletion is in progress"
  | ContentLockPublicationInProgress =>
      MkApiError CodeContentLockPathConflict "content lock publication is in progress"
  | InvalidGuardedResource _ => MkApiError CodeInvalidRequest "invalid guarded resource"
  | InvalidPaykitPaymentSubmission =>
      MkApiError CodeInvalidRequest "invalid paykit payment submission"
  | EntitlementNotFound | EntitlementNotSatisfied | ContentLockHashMismatch _ _ =>
      MkApiError CodeEntitlementNotAuthorized "entitlement not authorized"
  | InvalidVerificationTaskTransition _ _ | InvalidVerificationTaskState _
  | InvalidVerificationTaskFailureMessage | VerificationPending | VerificationTaskClaimLost
  | VerificationTaskConflict =>
      MkApiError CodeTaskStateConflict "verification task state conflict"
  | PaykitPaymentStatusConflict =>
      MkApiError CodeTaskStateConflict "paykit payment status conflict"
  | PaykitPaymentStatusInvalidResponse => MkApiError CodeInternalError "internal server error"
  | UnsupportedVerifierType _ =>
      MkApiError CodeUnsupportedVerifierType "unsupported verifier type"
  | RateLimited => MkApiError CodeRateLimited "rate limit exceeded"
  | CorruptContentLockDeletionManifest _ => MkApiError CodeInternalError "state_corrupt"
  | Storage _ | VerificationDependencyUnavailable | FinalCredentialSecret _ | FoldedAuthSecret _
  | InvalidFoldedAuthState _ | InvalidContentLockDeletionState _ | Verifier _
  | CredentialGeneration _ | ContentLockCanonicalization _ | DuplicateRecord _
  | UnsupportedCredentialTtl _ _ | EmptyContentLockCriteria | DuplicateContentLockCriterion _
  | DuplicateVerificationResultCriterion _ | UnknownVerificationResultCriterion _ =>
      MkApiError CodeInternalError "internal server error"
  end.

(** What an error carries besides its kind. *)
Definition redact (e : ApplicationError) : ApplicationError :=
  match e with
  | DuplicateRecord _ => DuplicateRecord ""
  | ContentLockPathConflict _ => ContentLockPathConflict ""
  | InvalidContentLockDeletionState _ => InvalidContentLockDeletionState ""
  | CorruptContentLockDeletionManifest _ => CorruptContentLockDeletionManifest ""
  | Storage _ => Storage ""
  | Verifier _ => Verifier ""
  | InvalidVerificationTaskTransition _ _ => InvalidVerificationTaskTransition Pending Pending
  | InvalidVerificationTaskState _ => InvalidVerificationTaskState ""
  | UnsupportedCredentialTtl _ _ => UnsupportedCredentialTtl 0 0
  | CredentialGeneration _ => CredentialGeneration ""
  | FinalCredentialSecret _ => FinalCredentialSecret ""
  | FoldedAuthSecret _ => FoldedAuthSecret ""
  | InvalidFoldedAuthState _ => InvalidFoldedAuthState ""
  | CreatorAuthoritySecret _ => CreatorAuthoritySecret ""
  | InvalidCreatorAuthorityAuthKind _ => InvalidCreatorAuthorityAuthKind ""
  | DuplicateContentLockCriterion _ => DuplicateContentLockCriterion ""
  | DuplicateVerificationResultCriterion _ => DuplicateVerificationResultCriterion ""
  | UnknownVerificationResultCriterion _ => UnknownVerificationResultCriterion ""
  | ContentLockHashMismatch expected _ => ContentLockHashMismatch expected expected
  | ContentLockCanonicalization _ => ContentLockCanonicalization ""
  | UnsupportedVerifierType _ => UnsupportedVerifierType DevStatic
  | InvalidGuardedResource _ => InvalidGuardedResource ""
  | _ => e
  end.

#[global] Instance ApiErrorCode_as_str_inj : Inj (=) (=) ApiErrorCode_as_str.
Proof. intros c c'. by destruct c, c'. Qed.

(** Clients can rely on the wire: the name of a code determines the code, hence the
    status; every status is a client or server error; and a translated error says
    nothing of the messages, identifiers and paths the internal error carries. *)
Theorem api_errors_opaque :
  (∀ c c', ApiErrorCode_as_str c = ApiErrorCode_as_str c' → c = c')
  ∧ (∀ c, 400 ≤ ApiErrorCode_status_code c < 600)
  ∧ ∀ e, ApiError_from (redact e) = ApiError_from e.
Proof.
  split_and!; [apply (inj ApiErrorCode_as_str)| |].
  - intros c. by destruct c.
  - intros e. by destruct e.
Qed.
