(* ===== verification/Evaluator.v ===== *)
(** Entitlement evaluation ([locks-service/src/application/entitlement_evaluator.rs]).

    Whether stored criterion results satisfy a v1 content lock, with the errors
    for malformed locks and results. *)

From S2P Require Import Prelude RustStr Ids Json LockPolicy Wire Errors.

Fixpoint insert_criterion_ids (seen : gset string) (criteria : list Criterion) :
    result ApplicationError (gset string) :=
  match criteria with
  | [] => Ok seen
  | c :: rest =>
      _ ← reject_if (bool_decide (criterion_id c ∈ seen))
            (DuplicateContentLockCriterion (criterion_id c));
      insert_criterion_ids ({[criterion_id c]} ∪ seen) rest
  end.

Definition content_lock_criterion_ids (lock : ContentLock) :
    result ApplicationError (gset string) :=
  match cl_criteria lock with
  | [] => Err EmptyContentLockCriteria
  | criteria => insert_criterion_ids ∅ criteria
  end.

Fixpoint insert_results (ids : gset string) (m : gmap string bool)
    (results : list CriterionVerificationResult) :
    result ApplicationError (gmap string bool) :=
  match results with
  | [] => Ok m
  | r :: rest =>
      let id := cvr_criterion_id r in
      _ ← reject_if (negb (bool_decide (id ∈ ids))) (UnknownVerificationResultCriterion id);
      _ ← reject_if (is_some (m !! id)) (DuplicateVerificationResultCriterion id);
      insert_results ids (<[id := cvr_satisfied r]> m) rest
  end.

Definition verification_result_map (vr : VerificationResult) (ids : gset string) :
    result ApplicationError (gmap string bool) :=
  insert_results ids ∅ (vr_criteria vr).

Definition evaluate_entitlement (lock : ContentLock) (vr : VerificationResult) :
    result ApplicationError bool :=
  criterion_ids ← content_lock_criterion_ids lock;
  result_map ← verification_result_map vr criterion_ids;
  let satisfied id := default false (result_map !! id) in
  match cl_lock_logic lock with
  | LogicAll _ => Ok (forallb satisfied (elements criterion_ids))
  | LogicAny _ => Ok (existsb satisfied (elements criterion_ids))
  end.

(** * Contract *)

Definition lock_criterion_ids (lock : ContentLock) : list string :=
  criterion_id <$> cl_criteria lock.

Definition result_criterion_ids (vr : VerificationResult) : list string :=
  cvr_criterion_id <$> vr_criteria vr.

(** Criterion identifiers are present and unique in the lock, and each result is
    about one of them, at most once. *)
Record evidence_ok (lock : ContentLock) (vr : VerificationResult) : Prop := {
  criteria_present : cl_criteria lock ≠ [];
  criteria_unique : NoDup (lock_criterion_ids lock);
  results_known id : id ∈ result_criterion_ids vr → id ∈ lock_criterion_ids lock;
  results_unique : NoDup (result_criterion_ids vr);
}.

(** A criterion is satisfied when the evidence holds a positive result for it. *)
Definition criterion_satisfied (vr : VerificationResult) (id : string) : Prop :=
  ∃ r, r ∈ vr_criteria vr ∧ cvr_criterion_id r = id ∧ cvr_satisfied r = true.

Lemma insert_criterion_ids_Ok seen cs ids :
  insert_criterion_ids seen cs = Ok ids ↔
  NoDup (criterion_id <$> cs) ∧ (∀ id, id ∈ criterion_id <$> cs → id ∉ seen)
  ∧ ids = list_to_set (criterion_id <$> cs) ∪ seen.
Proof.
  revert seen. induction cs as [|c cs IH]; intros seen; cbn.
  { split.
    - intros [= ->]. split_and!; [constructor|set_solver|set_solver].
    - intros (_ & _ & ->). f_equal. set_solver. }
  rewrite bind_Ok. setoid_rewrite reject_if_Ok. setoid_rewrite bool_decide_eq_false.
  setoid_rewrite IH. rewrite NoDup_cons. split.
  - intros (_ & Hc & Hnd & Hfresh & ->). split_and!; [set_solver|done|set_solver|set_solver].
  - intros ((Hc & Hnd) & Hfresh & ->). exists (). split_and!; [set_solver|done|set_solver|set_solver].
Qed.

Lemma insert_results_Ok ids m rs m' :
  insert_results ids m rs = Ok m' ↔
  NoDup (cvr_criterion_id <$> rs)
  ∧ (∀ id, id ∈ cvr_criterion_id <$> rs → id ∈ ids ∧ m !! id = None)
  ∧ m' = list_to_map ((λ r, (cvr_criterion_id r, cvr_satisfied r)) <$> rs) ∪ m.
Proof.
  revert m. induction rs as [|r rs IH]; intros m; cbn.
  { split.
    - intros [= ->]. split_and!; [constructor|set_solver|by rewrite (left_id_L ∅ (∪))].
    - intros (_ & _ & ->). by rewrite (left_id_L ∅ (∪)). }
  rewrite bind_Ok. setoid_rewrite reject_if_Ok. setoid_rewrite negb_false_iff.
  setoid_rewrite bool_decide_eq_true. setoid_rewrite bind_Ok. setoid_rewrite reject_if_Ok.
  setoid_rewrite is_some_false. setoid_rewrite IH. rewrite NoDup_cons.
  assert (∀ ms : gmap string bool, ms !! cvr_criterion_id r = None →
    ms ∪ <[cvr_criterion_id r:=cvr_satisfied r]> m
    = <[cvr_criterion_id r:=cvr_satisfied r]> ms ∪ m) as Hswap.
  { intros ms Hms. by rewrite <- insert_union_r, insert_union_l. }
  assert (cvr_criterion_id r ∉ cvr_criterion_id <$> rs →
    (list_to_map ((λ r, (cvr_criterion_id r, cvr_satisfied r)) <$> rs) : gmap string bool)
      !! cvr_criterion_id r = None) as Hnone.
  { intros Hr. apply not_elem_of_list_to_map_1. rewrite <- list_fmap_compose.
    intros Hin. apply Hr. clear -Hin. set_unfold. naive_solver. }
  split.
  - intros (_ & Hid & _ & Hm & Hnd & Hall & ->).
    assert (cvr_criterion_id r ∉ cvr_criterion_id <$> rs) as Hr.
    { intros Hin. apply Hall in Hin as [_ Hin]. by rewrite lookup_insert_eq in Hin. }
    split_and!; [done|done| |by rewrite Hswap by auto].
    intros id [->|Hin]%elem_of_cons; [done|]. destruct (Hall id Hin) as [? Hl].
    split; [done|]. rewrite lookup_insert_ne in Hl; [done|]. intros <-. done.
  - intros ((Hr & Hnd) & Hall & ->). exists ().
    destruct (Hall (cvr_criterion_id r)) as [Hid Hm]; [set_solver|].
    split; [done|]. exists (). split_and!; [done|done| |by rewrite Hswap by auto].
    intros id Hin. destruct (Hall id) as [? Hl]; [set_solver|]. split; [done|].
    rewrite lookup_insert_ne; [done|]. intros <-. done.
Qed.

Lemma result_lookup_true vr id :
  NoDup (result_criterion_ids vr) →
  default false ((list_to_map ((λ r, (cvr_criterion_id r, cvr_satisfied r)) <$> vr_criteria vr)
                  : gmap string bool) !! id) = true
  ↔ criterion_satisfied vr id.
Proof.
  intros Hnd. unfold criterion_satisfied, result_criterion_ids in *.
  assert (∀ b, (list_to_map ((λ r, (cvr_criterion_id r, cvr_satisfied r)) <$> vr_criteria vr)
                  : gmap string bool) !! id = Some b ↔
               ∃ r, r ∈ vr_criteria vr ∧ cvr_criterion_id r = id ∧ cvr_satisfied r = b) as Hl.
  { intros b. rewrite <- elem_of_list_to_map.
    - rewrite list_elem_of_fmap. naive_solver.
    - rewrite <- list_fmap_compose. done. }
  destruct (list_to_map _ !! id) as [b|]; cbn; rewrite <- Hl; split; congruence.
Qed.

Lemma evidence_ok_maps lock vr ids m :
  content_lock_criterion_ids lock = Ok ids ∧ verification_result_map vr ids = Ok m ↔
  evidence_ok lock vr ∧ ids = list_to_set (lock_criterion_ids lock)
  ∧ m = list_to_map ((λ r, (cvr_criterion_id r, cvr_satisfied r)) <$> vr_criteria vr).
Proof.
  unfold content_lock_criterion_ids, verification_result_map, lock_criterion_ids,
    result_criterion_ids.
  destruct (cl_criteria lock) as [|c cs] eqn:Hc.
  { split; [naive_solver|]. intros ([Hne _ _ _] & _). done. }
  rewrite insert_criterion_ids_Ok, insert_results_Ok, (right_id_L ∅ (∪)), !(right_id_L ∅ (∪)).
  split.
  - intros ((Hnd & _ & ->) & (Hnd' & Hall & ->)). split_and!; [|done|done].
    split; unfold lock_criterion_ids, result_criterion_ids; rewrite ?Hc; try done.
    intros id Hid. apply Hall in Hid as [Hid _]. by apply elem_of_list_to_set in Hid.
  - intros ([Hne Hnd Hk Hnd'] & -> & ->). unfold lock_criterion_ids, result_criterion_ids in *.
    rewrite Hc in *. split_and!; try done.
    intros id Hid. split; [|done]. by apply elem_of_list_to_set, Hk.
Qed.

(** Evaluation answers exactly on well-formed evidence, and then says
    whether every criterion of the lock ([all]) or at least one of them ([any])
    has a positive result. *)
Theorem evaluate_entitlement_spec lock vr b :
  evaluate_entitlement lock vr = Ok b ↔
  evidence_ok lock vr
  ∧ (b = true ↔
     match cl_lock_logic lock with
     | LogicAll _ => ∀ id, id ∈ lock_criterion_ids lock → criterion_satisfied vr id
     | LogicAny _ => ∃ id, id ∈ lock_criterion_ids lock ∧ criterion_satisfied vr id
     end).
Proof.
  assert (Hdec : ∀ (c : bool) P, (c = true ↔ P) → (Ok c = (Ok b : result ApplicationError bool) ↔ (b = true ↔ P))).
  { intros c P HcP. split; [intros [= <-]; done|]. intros HbP. f_equal.
    destruct b, c; naive_solver. }
  assert (∀ ids m, content_lock_criterion_ids lock = Ok ids → verification_result_map vr ids = Ok m →
    match cl_lock_logic lock with
    | LogicAll _ => Ok (forallb (λ id, default false (m !! id)) (elements ids))
    | LogicAny _ => Ok (existsb (λ id, default false (m !! id)) (elements ids))
    end = (Ok b : result ApplicationError bool) ↔
    (b = true ↔
     match cl_lock_logic lock with
     | LogicAll _ => ∀ id, id ∈ lock_criterion_ids lock → criterion_satisfied vr id
     | LogicAny _ => ∃ id, id ∈ lock_criterion_ids lock ∧ criterion_satisfied vr id
     end)) as Hbool.
  { intros ids m Hids Hm.
    destruct (proj1 (evidence_ok_maps lock vr ids m)) as ([_ _ _ Hnd] & -> & ->); [done|].
    destruct (cl_lock_logic lock); apply Hdec.
    - rewrite forallb_forall. setoid_rewrite <- list_elem_of_In.
      setoid_rewrite elem_of_elements. setoid_rewrite elem_of_list_to_set.
      by setoid_rewrite (result_lookup_true vr _ Hnd).
    - rewrite existsb_exists. setoid_rewrite <- list_elem_of_In.
      setoid_rewrite elem_of_elements. setoid_rewrite elem_of_list_to_set.
      by setoid_rewrite (result_lookup_true vr _ Hnd). }
  unfold evaluate_entitlement. split.
  - intros (ids & Hids & (m & Hm & Hb)%bind_Ok)%bind_Ok.
    split; [by eapply evidence_ok_maps|]. by apply (Hbool ids m).
  - intros [Hev Hb].
    destruct (proj2 (evidence_ok_maps lock vr _ _) (conj Hev (conj eq_refl eq_refl))) as [Hids Hm].
    rewrite Hids. cbn [mbind result_bind]. rewrite Hm. cbn [mbind result_bind].
    by apply (Hbool _ _ Hids Hm).
Qed.

Definition with_lock_logic (lock : ContentLock) (logic : LockLogic) : ContentLock :=
  MkContentLock (cl_version lock) (cl_creator lock) (cl_primary_resource lock)
    (cl_secondary_resources lock) (cl_criteria lock) logic (cl_access_policy lock)
    (cl_lock_server lock) (cl_created_at lock).

(** The identifiers listed inside the lock logic do not influence the
    outcome: only [all] versus [any] does, always over every criterion of the
    lock.  The domain model has the listed identifiers decide. *)
Theorem evaluate_entitlement_ignores_listed_ids lock vr listed listed' :
  evaluate_entitlement (with_lock_logic lock (LogicAll listed)) vr
    = evaluate_entitlement (with_lock_logic lock (LogicAll listed')) vr
  ∧ evaluate_entitlement (with_lock_logic lock (LogicAny listed)) vr
    = evaluate_entitlement (with_lock_logic lock (LogicAny listed')) vr.
Proof. split; reflexivity. Qed.
