(* ===== verification/Verifiers.v ===== *)
(** Criterion verifiers of v1 locks
    ([locks-service/src/infrastructure/verifiers/]): the development verifier, the
    Paykit payment verifier and the registry that dispatches to them, with the
    payment policy they apply ([application/ports/payment_drain.rs]).

    The Paykit client is a parameter: what it answers for a creator and a bundle
    at a point of the run. *)

From S2P Require Import Prelude RustStr Externals Ids Json LockPolicy Wire Errors.

(** * Data *)

Record CriterionVerificationRequest := MkVerificationRequest {
  cr_bundle_id : BundleId;
  cr_creator : CreatorPubky;
  cr_lock_id : LockId;
  cr_criterion : Criterion;
  cr_proof : Proof;
  cr_verified_by : LockServerPubky;
  cr_verified_at : OffsetDateTime;
}.

Inductive CriterionVerificationOutcome :=
  | OutcomePending
  | OutcomeSatisfied (result : CriterionVerificationResult)
  | OutcomeTerminalUnsatisfied (reason : VerificationTerminalReason).

Inductive PaymentState := Undetected | Detected | Confirmed | PaymentExpired.

#[global] Instance PaymentState_eq_dec : EqDecision PaymentState.
Proof. solve_decision. Defined.

Record PaymentObservation := MkPaymentObservation {
  po_confirmations : Z;
  po_amount_matched : bool;
  po_paid_on_time : bool;
}.

Inductive PaykitPaymentRequestState :=
  | RequestProposed
  | RequestProposalExpired
  | RequestAccepted
  | RequestRejected
  | RequestCanceled
  | RequestProofSubmitted
  | RequestActiveRecurring.

Record PaykitPaymentStatus := MkPaykitPaymentStatus {
  ps_request_state : PaykitPaymentRequestState;
  ps_payment_state : PaymentState;
  ps_bitcoin : option PaymentObservation;
  ps_usdt_arbitrum : option PaymentObservation;
}.

Inductive PaykitPaymentStatusError := StatusUnavailable | StatusConflict | StatusInvalidResponse.

(** * Payment policy *)

(** [matches!((minimum_confirmations, payment_state), ...)]. *)
Definition bitcoin_state_ok (minimum_confirmations : Z) (state : PaymentState) : bool :=
  match state with
  | Detected => minimum_confirmations =? 0
  | Confirmed => true
  | Undetected | PaymentExpired => false
  end.

Definition payment_qualifies (state : PaymentState) (bitcoin usdt_arbitrum : option PaymentObservation)
    (minimum_confirmations : Z) : bool :=
  is_some_and (λ p, po_amount_matched p && po_paid_on_time p
                    && (minimum_confirmations <=? po_confirmations p)
                    && bitcoin_state_ok minimum_confirmations state) bitcoin
  || is_some_and (λ p, po_amount_matched p && po_paid_on_time p && (0 <? po_confirmations p)
                       && (state == Confirmed)) usdt_arbitrum.

(** * Verifiers *)

(** An adapter behind the [CriterionVerifier] port. *)
Abbreviation CriterionVerifier :=
  (CriterionVerificationRequest → result ApplicationError CriterionVerificationOutcome).

Definition evidence (request : CriterionVerificationRequest) (satisfied : bool)
    (verifier_type : VerifierType) : CriterionVerificationResult :=
  MkCriterionVerificationResult (criterion_id (cr_criterion request)) satisfied
    (cr_verified_at request) (cr_verified_by request) verifier_type.

Definition DevStaticVerifier_verify : CriterionVerifier := λ request,
  satisfied ← ok_or (json_get "satisfied" (criterion_params (cr_criterion request)) ≫= as_bool)
                (Verifier "dev-static criterion params.satisfied must be a boolean");
  Ok (OutcomeSatisfied (evidence request satisfied DevStatic)).

(** The request is one the payer is bound by. *)
Definition request_active (s : PaykitPaymentRequestState) : bool :=
  match s with
  | RequestAccepted | RequestProofSubmitted | RequestActiveRecurring => true
  | _ => false
  end.

Definition payment_terminal_reason (status : PaykitPaymentStatus) :
    option VerificationTerminalReason :=
  match ps_request_state status with
  | RequestRejected => Some PaymentRequestRejected
  | RequestCanceled => Some PaymentRequestCanceled
  | RequestProposalExpired => Some ReasonProposalExpired
  | RequestAccepted | RequestProofSubmitted | RequestActiveRecurring =>
      if ps_payment_state status == PaymentExpired then Some PaymentDeadlineExpired else None
  | RequestProposed => None
  end.

Definition payment_status_decision (status : option PaykitPaymentStatus)
    (minimum_confirmations : Z) (request : CriterionVerificationRequest) :
    CriterionVerificationOutcome :=
  match status with
  | None => OutcomePending
  | Some status =>
      match payment_terminal_reason status with
      | Some reason => OutcomeTerminalUnsatisfied reason
      | None =>
          if payment_qualifies (ps_payment_state status) (ps_bitcoin status)
               (ps_usdt_arbitrum status) minimum_confirmations
             && request_active (ps_request_state status)
          then OutcomeSatisfied (evidence request true PaykitPayment)
          else OutcomePending
      end
  end.

(** The status service's answer for a creator and a bundle. *)
Abbreviation PaykitPaymentStatusClient :=
  (CreatorPubky → BundleId → sum PaykitPaymentStatusError PaykitPaymentStatus).

Definition PaykitPaymentVerifier_verify (client : PaykitPaymentStatusClient)
    (minimum_confirmations : Z) : CriterionVerifier := λ request,
  match client (cr_creator request) (cr_bundle_id request) with
  | inr status => Ok (payment_status_decision (Some status) minimum_confirmations request)
  | inl StatusConflict => Err PaykitPaymentStatusConflict
  | inl StatusInvalidResponse => Err PaykitPaymentStatusInvalidResponse
  | inl StatusUnavailable => Ok (payment_status_decision None minimum_confirmations request)
  end.

Record StaticCriterionVerifierRegistry := MkRegistry {
  reg_dev_static : option CriterionVerifier;
  reg_paykit_payment : option CriterionVerifier;
}.

Definition Registry_new : StaticCriterionVerifierRegistry := MkRegistry None None.
Definition with_dev_static (r : StaticCriterionVerifierRegistry) (v : CriterionVerifier) :=
  MkRegistry (Some v) (reg_paykit_payment r).
Definition with_paykit_payment (r : StaticCriterionVerifierRegistry) (v : CriterionVerifier) :=
  MkRegistry (reg_dev_static r) (Some v).

Definition verifier_for (r : StaticCriterionVerifierRegistry) (t : VerifierType) :
    option CriterionVerifier :=
  match t with
  | DevStatic => reg_dev_static r
  | PaykitPayment => reg_paykit_payment r
  end.

(** * What payment evidence takes *)

(** A rail carries the full amount, in time, with enough confirmations. *)
Definition rail_paid (state : PaymentState) (minimum : Z) (p : PaymentObservation) : Prop :=
  po_amount_matched p = true ∧ po_paid_on_time p = true ∧ minimum ≤ po_confirmations p
  ∧ (state = Confirmed ∨ minimum = 0 ∧ state = Detected).

Lemma payment_qualifies_true state bitcoin usdt minimum :
  payment_qualifies state bitcoin usdt minimum = true ↔
  (∃ p, bitcoin = Some p ∧ rail_paid state minimum p) ∨ ∃ p, usdt = Some p ∧ rail_paid state 1 p.
Proof.
  unfold payment_qualifies, rail_paid, bitcoin_state_ok.
  rewrite orb_true_iff, !is_some_and_true.
  split.
  - intros [(p & Hp & Hq)|(p & Hp & Hq)]; [left|right]; exists p; (split; [done|]).
    + props. destruct state; props; naive_solver.
    + props. naive_solver lia.
  - intros [(p & Hp & Ha & Ht & Hc & Hs)|(p & Hp & Ha & Ht & Hc & Hs)]; [left|right]; exists p;
      rewrite Ha, Ht; (split; [done|]).
    + rewrite (proj2 (Z.leb_le _ _) Hc). destruct Hs as [-> |[-> ->]]; done.
    + rewrite (proj2 (Z.ltb_lt 0 _)) by lia. destruct Hs as [-> |[? ?]]; [done|lia].
Qed.

(** An active request, short of expiry, is decided by the payment. *)
Lemma decision_satisfied st minimum request r :
  payment_status_decision (Some st) minimum request = OutcomeSatisfied r ↔
  r = evidence request true PaykitPayment ∧ request_active (ps_request_state st) = true
  ∧ payment_qualifies (ps_payment_state st) (ps_bitcoin st) (ps_usdt_arbitrum st) minimum = true.
Proof.
  unfold payment_status_decision. destruct (payment_terminal_reason st) as [x|] eqn:Ht.
  - split; [done|]. intros (_ & Ha & Hq). unfold payment_terminal_reason in Ht.
    assert (ps_payment_state st = PaymentExpired) as He.
    { destruct (ps_request_state st); try done;
        destruct (ps_payment_state st == PaymentExpired) eqn:E; by props. }
    rewrite He in Hq. apply payment_qualifies_true in Hq. unfold rail_paid in Hq. naive_solver.
  - destruct (payment_qualifies _ _ _ _), (request_active _); cbn; naive_solver.
Qed.

(** The Paykit verifier gives evidence exactly when the status service reports
    a request the payer is bound by together with a payment of the full amount, on
    time and confirmed as configured on the bitcoin rail, or confirmed at least
    once on the other rail; a payer's refusal, a cancellation and an expiry
    outrank every payment; an unreachable service leaves the task undecided.
    Evidence is always about the criterion and the time that were asked for. *)
Theorem paykit_verifier_spec client minimum request :
  (∀ r, PaykitPaymentVerifier_verify client minimum request = Ok (OutcomeSatisfied r) ↔
     r = evidence request true PaykitPayment
     ∧ ∃ status, client (cr_creator request) (cr_bundle_id request) = inr status
         ∧ request_active (ps_request_state status) = true
         ∧ ((∃ p, ps_bitcoin status = Some p ∧ rail_paid (ps_payment_state status) minimum p)
            ∨ ∃ p, ps_usdt_arbitrum status = Some p ∧ rail_paid (ps_payment_state status) 1 p))
  ∧ (∀ reason, PaykitPaymentVerifier_verify client minimum request
               = Ok (OutcomeTerminalUnsatisfied reason) ↔
       ∃ status, client (cr_creator request) (cr_bundle_id request) = inr status
                 ∧ payment_terminal_reason status = Some reason)
  ∧ (client (cr_creator request) (cr_bundle_id request) = inl StatusUnavailable →
     PaykitPaymentVerifier_verify client minimum request = Ok OutcomePending).
Proof.
  unfold PaykitPaymentVerifier_verify. split_and!.
  - intros r. destruct (client _ _) as [[]|st]; [naive_solver..|]. split.
    + intros [= (-> & Ha & Hq%payment_qualifies_true)%decision_satisfied]. by eauto.
    + intros (-> & st' & [= <-] & Ha & Hq%payment_qualifies_true). f_equal.
      by apply decision_satisfied.
  - intros reason. destruct (client _ _) as [[]|st]; [naive_solver..|].
    unfold payment_status_decision. destruct (payment_terminal_reason st) eqn:Ht; [naive_solver|].
    destruct (_ && _); naive_solver.
  - by intros ->.
Qed.
