(* ===== verification/Secrets.v ===== *)
(** Encryption of final credentials at rest
    ([locks-service/src/infrastructure/final_credentials.rs]), the keys derived
    from the runtime master key ([infrastructure/runtime_master_key.rs]), and the
    credential values themselves ([application/models/access.rs]).

    An envelope binds its plaintext to a context through associated data: a
    sequence of length-prefixed fields. *)

From S2P Require Import Prelude RustStr Externals Ids Errors.

(** * Bytes *)

Definition byte_of (z : Z) : ascii := Ascii.ascii_of_N (Z.to_N (z mod 256)).

(** [to_be_bytes] of an [n]-byte unsigned integer. *)
Fixpoint be_bytes (n : nat) (v : Z) : bytes :=
  match n with
  | O => []
  | S n => byte_of (v / 256 ^ Z.of_nat n) :: be_bytes n v
  end.

Definition as_bytes (s : string) : bytes := list_ascii_of_string s.

Definition cont_byte (c : ascii) : bool := in_range 128 191 (byte_val c).

(** The validity [String::from_utf8] checks (the Unicode table of well-formed
    byte sequences). *)
Fixpoint valid_utf8 (l : bytes) : bool :=
  match l with
  | [] => true
  | a :: l1 =>
      if byte_val a <=? 127 then valid_utf8 l1
      else match l1 with
      | [] => false
      | b :: l2 =>
          if in_range 194 223 (byte_val a) then cont_byte b && valid_utf8 l2
          else match l2 with
          | [] => false
          | c :: l3 =>
              if byte_val a =? 224
              then in_range 160 191 (byte_val b) && cont_byte c && valid_utf8 l3
              else if byte_val a =? 237
              then in_range 128 159 (byte_val b) && cont_byte c && valid_utf8 l3
              else if in_range 225 239 (byte_val a)
              then cont_byte b && cont_byte c && valid_utf8 l3
              else match l3 with
              | [] => false
              | d :: l4 =>
                  (if byte_val a =? 240 then in_range 144 191 (byte_val b)
                   else if byte_val a =? 244 then in_range 128 143 (byte_val b)
                   else in_range 241 243 (byte_val a) && cont_byte b)
                  && cont_byte c && cont_byte d && valid_utf8 l4
              end
          end
      end
  end.

(** [String::from_utf8]. *)
Definition from_utf8 (bs : bytes) : option string :=
  if valid_utf8 bs then Some (string_of_list_ascii bs) else None.

(** [str::split_once] at one byte. *)
Fixpoint split_once (sep : ascii) (s : string) : option (string * string) :=
  match s with
  | EmptyString => None
  | String c s =>
      if c == sep then Some ("", s)
      else (λ '(a, b), (String c a, b)) <$> split_once sep s
  end.

Definition colon : ascii := byte_of 58.

(** * Data *)

Record AccessCredential := MkCredential { AccessCredential_as_str : string }.
Record EncryptedFinalCredential := MkEncrypted { EncryptedFinalCredential_as_str : string }.

Record FinalCredentialContext := MkContext {
  fcx_deletion_job_id : Uuid;
  fcx_creator : CreatorPubky;
  fcx_bundle_id : BundleId;
}.

Record RuntimeMasterKey := MkMasterKey { master_key_bytes : bytes }.

#[global] Instance AccessCredential_eq_dec : EqDecision AccessCredential.
Proof. solve_decision. Defined.

Definition ENVELOPE_PREFIX : string := "v1.xchacha20poly1305:".
Definition AAD_DOMAIN : string := "pubky-locks-final-credential-aad".
Definition CREATOR_AUTHORITY_KEY_CONTEXT : string :=
  "pubky-locks v1 runtime master key: creator authority secrets".
Definition FINAL_CREDENTIAL_KEY_CONTEXT : string :=
  "pubky-locks v1 runtime master key: final deletion credentials".
Definition FOLDED_AUTH_KEY_CONTEXT : string :=
  "pubky-locks v1 runtime master key: folded auth pending flows".

Definition encrypt_error : ApplicationError :=
  FinalCredentialSecret "failed to encrypt final credential".
Definition decrypt_error : ApplicationError :=
  FinalCredentialSecret "invalid final credential envelope".

(** * Associated data *)

(** The conversion of the length to [u32] panics from 2^32 bytes on. *)
Definition append_field (output field : bytes) : bytes :=
  output ++ be_bytes 4 (Z.of_nat (length field)) ++ field.

Definition associated_data (context : FinalCredentialContext) : bytes :=
  let aad := append_field [] (as_bytes AAD_DOMAIN) in
  let aad := append_field aad [byte_of 1] in
  let aad := append_field aad (be_bytes 16 (fcx_deletion_job_id context)) in
  let aad := append_field aad (as_bytes (CreatorPubky_display (fcx_creator context))) in
  append_field aad (as_bytes (BundleId_display (fcx_bundle_id context))).

(** * The cipher *)

Section cipher.
  Context `{Base64Url, Aead, Blake3Kdf}.

Definition RuntimeMasterKey_from_base64url (value : string) : option RuntimeMasterKey :=
  bs ← b64_decode value;
  if Z.of_nat (length bs) =? 32 then Some (MkMasterKey bs) else None.

Definition creator_authority_key (k : RuntimeMasterKey) : bytes :=
  blake3_derive_key CREATOR_AUTHORITY_KEY_CONTEXT (master_key_bytes k).
Definition final_credential_key (k : RuntimeMasterKey) : bytes :=
  blake3_derive_key FINAL_CREDENTIAL_KEY_CONTEXT (master_key_bytes k).
Definition folded_auth_key (k : RuntimeMasterKey) : bytes :=
  blake3_derive_key FOLDED_AUTH_KEY_CONTEXT (master_key_bytes k).

(** [nonce]: the 24 random bytes drawn for this call. *)
Definition encrypt (key : bytes) (nonce : bytes) (context : FinalCredentialContext)
    (credential : AccessCredential) : result ApplicationError EncryptedFinalCredential :=
  ciphertext ← ok_or (aead_seal key nonce (associated_data context)
                        (as_bytes (AccessCredential_as_str credential))) encrypt_error;
  Ok (MkEncrypted (ENVELOPE_PREFIX +:+ b64_encode nonce +:+ ":" +:+ b64_encode ciphertext)).

Definition decrypt (key : bytes) (context : FinalCredentialContext)
    (envelope : EncryptedFinalCredential) : result ApplicationError AccessCredential :=
  rest ← ok_or (strip_prefix ENVELOPE_PREFIX (EncryptedFinalCredential_as_str envelope))
           decrypt_error;
  '(nonce, ciphertext) ← ok_or (split_once colon rest) decrypt_error;
  nonce ← ok_or (b64_decode nonce) decrypt_error;
  _ ← reject_if (negb (Z.of_nat (length nonce) =? 24)) decrypt_error;
  ciphertext ← ok_or (b64_decode ciphertext) decrypt_error;
  plaintext ← ok_or (aead_open key nonce (associated_data context) ciphertext) decrypt_error;
  MkCredential <$> ok_or (from_utf8 plaintext) decrypt_error.
End cipher.

(** * Length-prefixed fields determine the fields *)

Lemma be_bytes_length n v : length (be_bytes n v) = n.
Proof. induction n as [|n IH]; [done|]. cbn. by rewrite IH. Qed.

Lemma byte_of_inj a b : byte_of a = byte_of b → a mod 256 = b mod 256.
Proof.
  unfold byte_of. intros Heq. pose proof (Z.mod_pos_bound a 256) as Ha.
  pose proof (Z.mod_pos_bound b 256) as Hb. apply (f_equal Ascii.N_of_ascii) in Heq.
  rewrite !Ascii.N_ascii_embedding in Heq by lia. lia.
Qed.

Lemma be_bytes_mod n a b :
  be_bytes n a = be_bytes n b → a mod 256 ^ Z.of_nat n = b mod 256 ^ Z.of_nat n.
Proof.
  revert a b. induction n as [|n IH]; intros a b; cbn [be_bytes].
  - intros _. by rewrite !Z.mod_1_r.
  - intros Heq. injection Heq as Hhd Htl. apply byte_of_inj in Hhd. apply IH in Htl.
    rewrite Nat2Z.inj_succ, Z.pow_succ_r, Z.mul_comm by lia.
    rewrite !Z.rem_mul_r by lia. by rewrite Hhd, Htl.
Qed.

Lemma be_bytes_inj n a b :
  0 ≤ a < 256 ^ Z.of_nat n → 0 ≤ b < 256 ^ Z.of_nat n → be_bytes n a = be_bytes n b → a = b.
Proof. intros Ha Hb Heq%be_bytes_mod. by rewrite !Z.mod_small in Heq by lia. Qed.

(** Fields short enough for their length prefix. *)
Definition field_fits (field : bytes) : Prop := Z.of_nat (length field) < 2 ^ 32.

(** The bytes of a sequence of fields. *)
Fixpoint frames (fields : list bytes) : bytes :=
  match fields with
  | [] => []
  | f :: fields => be_bytes 4 (Z.of_nat (length f)) ++ f ++ frames fields
  end.

Lemma foldl_append out fields : foldl append_field out fields = out ++ frames fields.
Proof.
  revert out. induction fields as [|f fields IH]; intros out; cbn [foldl frames];
    [by rewrite app_nil_r|].
  rewrite IH. unfold append_field. by rewrite <- !app_assoc.
Qed.

Lemma frames_cons_nonempty f fields : frames (f :: fields) ≠ [].
Proof.
  intros Heq%(f_equal length). cbn [frames] in Heq.
  rewrite length_app, be_bytes_length in Heq. discriminate Heq.
Qed.

Lemma frames_inj fields fields' :
  Forall field_fits fields → Forall field_fits fields' →
  frames fields = frames fields' → fields = fields'.
Proof.
  intros Hf. revert fields'.
  induction Hf as [|f fields Hfit Hf IH]; intros [|f' fields'] Hf' Heq; [done|..].
  - by destruct (frames_cons_nonempty f' fields').
  - by destruct (frames_cons_nonempty f fields).
  - apply Forall_cons in Hf' as [Hfit' Hf']. cbn [frames] in Heq.
    apply app_inj_1 in Heq as [Hlen Heq]; [|by rewrite !be_bytes_length].
    unfold field_fits in Hfit, Hfit'.
    apply be_bytes_inj in Hlen; [|lia..].
    apply app_inj_1 in Heq as [-> Heq]; [|lia]. f_equal. by apply IH.
Qed.

Lemma string_of_as_bytes s : string_of_list_ascii (as_bytes s) = s.
Proof. apply String.string_of_list_ascii_of_string. Qed.

Lemma as_bytes_inj s s' : as_bytes s = as_bytes s' → s = s'.
Proof. intros Heq%(f_equal string_of_list_ascii). by rewrite !string_of_as_bytes in Heq. Qed.

(** A context as the sources build it: a 128-bit job identifier and identifiers of
    a few dozen bytes. *)
Record context_ok (c : FinalCredentialContext) : Prop := {
  cx_job : 0 ≤ fcx_deletion_job_id c < 2 ^ 128;
  cx_creator : field_fits (as_bytes (CreatorPubky_str (fcx_creator c)));
  cx_bundle : field_fits (as_bytes (BundleId_as_str (fcx_bundle_id c)));
}.

Definition context_fields (c : FinalCredentialContext) : list bytes :=
  [as_bytes AAD_DOMAIN; [byte_of 1]; be_bytes 16 (fcx_deletion_job_id c);
   as_bytes (CreatorPubky_display (fcx_creator c));
   as_bytes (BundleId_display (fcx_bundle_id c))].

Lemma associated_data_frames c : associated_data c = frames (context_fields c).
Proof. apply (foldl_append [] (context_fields c)). Qed.

Lemma context_fields_fit c : context_ok c → Forall field_fits (context_fields c).
Proof.
  intros [_ Hc Hb]. by repeat constructor.
Qed.

Lemma associated_data_inj c c' :
  context_ok c → context_ok c' → associated_data c = associated_data c' → c = c'.
Proof.
  intros Hok Hok' Heq. rewrite !associated_data_frames in Heq.
  apply frames_inj in Heq; [|by apply context_fields_fit..].
  assert (be_bytes 16 (fcx_deletion_job_id c) = be_bytes 16 (fcx_deletion_job_id c')) as H2
    by exact (f_equal (λ l, default [] (l !! 2%nat)) Heq).
  pose proof (as_bytes_inj _ _ (f_equal (λ l, default [] (l !! 3%nat)) Heq)) as H3.
  pose proof (as_bytes_inj _ _ (f_equal (λ l, default [] (l !! 4%nat)) Heq)) as H4.
  apply be_bytes_inj in H2; [|apply Hok|apply Hok'].
  unfold CreatorPubky_display, BundleId_display in *.
  destruct c as [? [?] [?]], c' as [? [?] [?]]. cbn in *. congruence.
Qed.

(** * Round trip *)

Lemma split_once_at sep a b :
  bytes_all (λ c, negb (c == sep)) a = true → split_once sep (a +:+ String sep b) = Some (a, b).
Proof.
  induction a as [|c a IH].
  - intros _. change (split_once sep (String sep b) = Some ("", b)). cbn. by rewrite eqb_same.
  - unfold bytes_all. cbn. intros [Hc Ha]%andb_true_iff. apply negb_true_iff in Hc.
    change (split_once sep (String c (a +:+ String sep b)) = Some (String c a, b)).
    cbn. by rewrite Hc, IH.
Qed.

Section laws.
  Context `{Base64UrlLaws, AeadLaws}.

Lemma b64_no_colon bs : bytes_all (λ c, negb (c == colon)) (b64_encode bs) = true.
Proof.
  pose proof (b64_encode_alphabet bs) as Hall. revert Hall. unfold bytes_all.
  rewrite !forallb_forall. intros Hall c Hc. specialize (Hall c Hc).
  apply negb_true_iff, eqb_false. by intros ->.
Qed.

(** What [decrypt] does to a well-formed envelope. *)
Lemma decrypt_envelope key context nonce ciphertext :
  Z.of_nat (length nonce) = 24 →
  decrypt key context
    (MkEncrypted (ENVELOPE_PREFIX +:+ b64_encode nonce +:+ ":" +:+ b64_encode ciphertext))
  = plaintext ← ok_or (aead_open key nonce (associated_data context) ciphertext) decrypt_error;
    MkCredential <$> ok_or (from_utf8 plaintext) decrypt_error.
Proof.
  intros Hlen. unfold decrypt. cbn [EncryptedFinalCredential_as_str].
  rewrite strip_prefix_app. cbn [ok_or]. rewrite bind_of_Ok.
  change (":" +:+ b64_encode ciphertext) with (String colon (b64_encode ciphertext)).
  rewrite split_once_at by apply b64_no_colon. cbn [ok_or]. rewrite bind_of_Ok. cbn beta iota.
  rewrite !b64_decode_encode. cbn [ok_or]. rewrite bind_of_Ok.
  rewrite Hlen. cbn [negb reject_if Z.eqb Pos.eqb]. by rewrite !bind_of_Ok.
Qed.

Lemma envelope_opens key nonce context credential envelope :
  encrypt key nonce context credential = Ok envelope → Z.of_nat (length nonce) = 24 →
  valid_utf8 (as_bytes (AccessCredential_as_str credential)) = true →
  decrypt key context envelope = Ok credential.
Proof.
  intros (ct & Hct%ok_or_Ok & He)%bind_Ok Hlen Hutf. injection He as <-.
  rewrite decrypt_envelope by done. apply aead_open_seal in Hct. rewrite Hct. cbn.
  unfold from_utf8. rewrite Hutf. cbn. rewrite string_of_as_bytes. by destruct credential.
Qed.

(** An encrypted final credential decrypts, under the key and the context it was
    encrypted for, to the credential; what decrypts under a context is an
    encryption for that very context; and the associated data of two contexts
    differ whenever the job, the creator or the bundle does. *)
Theorem final_credential_envelope key nonce context credential envelope :
  encrypt key nonce context credential = Ok envelope → Z.of_nat (length nonce) = 24 →
  valid_utf8 (as_bytes (AccessCredential_as_str credential)) = true →
  decrypt key context envelope = Ok credential
  ∧ (∀ context' credential', decrypt key context' envelope = Ok credential' →
       encrypt key nonce context' credential' = Ok envelope)
  ∧ (∀ context', context_ok context → context_ok context' → context ≠ context' →
       associated_data context ≠ associated_data context').
Proof.
  intros Henc Hlen Hutf. split; [by eapply envelope_opens|].
  apply bind_Ok in Henc as (ct & Hct%ok_or_Ok & He). injection He as <-. split.
  - intros context' credential' Hd. rewrite decrypt_envelope in Hd by done.
    apply bind_Ok in Hd as (pt & Hpt%ok_or_Ok & Hd). apply aead_open_seal in Hpt.
    apply fmap_Ok in Hd as (str & Hs%ok_or_Ok & ->). unfold from_utf8 in Hs.
    destruct (valid_utf8 pt); [|done]. injection Hs as <-. unfold encrypt.
    cbn [AccessCredential_as_str]. unfold as_bytes.
    rewrite list_ascii_of_list_ascii. by rewrite Hpt.
  - intros context' Hok Hok' Hne Heq. by apply Hne, associated_data_inj.
Qed.
End laws.
