(* ===== verification/Entitlements.v ===== *)
(** Published entitlements
    ([locks-service/src/infrastructure/memory/entitlements.rs] and the port
    [application/ports/entitlement.rs]).

    The write-once store of verified proof bundles under creator and bundle id, and
    [EntitlementStore], what the publishing workers rely on.  A store behind the
    interface may fail at any call, also after a write has taken effect. *)

From stdpp Require Import pretty.
From S2P Require Import Prelude RustStr Externals Ids Json LockPolicy Wire Errors.

Inductive StoredEntitlement :=
  | EntitlementV1 (bundle : VerifiedProofBundle)
  | EntitlementV2 (bundle : VerifiedProofBundleV2).

#[global] Instance StoredEntitlement_eq_dec : EqDecision StoredEntitlement.
Proof. solve_decision. Defined.

Abbreviation Entitlements := (gmap (CreatorPubky * BundleId) StoredEntitlement).

Definition VerifiedProofBundleV2ValidationError_display
    (e : VerifiedProofBundleV2ValidationError) : string :=
  match e with
  | UnsupportedVerifiedVersion v => "unsupported verified proof bundle v2 version: " +:+ pretty v
  | CreatorMismatch => "verified bundle creator must match pubky_lock_resource creator"
  | LockIdMismatch =>
      "verified bundle pubky_lock_resource Lock ID must match content lock identity"
  | VerifiedInvalidContentLock => "invalid v2 content lock"
  | InvalidSatisfiedBy => "satisfied_by must be a canonical non-empty approved path array"
  end.

(** * The in-memory repository *)

Definition insert_verified_proof_bundle (records : Entitlements) (bundle : VerifiedProofBundle) :
    result ApplicationError Entitlements :=
  let key := (resource_creator (vb_pubky_lock_resource bundle), vb_bundle_id bundle) in
  _ ← reject_if (is_some (records !! key)) (DuplicateRecord "verified_proof_bundle");
  Ok (<[key := EntitlementV1 bundle]> records).

Definition get_verified_proof_bundle (records : Entitlements) (creator : CreatorPubky)
    (bundle_id : BundleId) : option VerifiedProofBundle :=
  records !! (creator, bundle_id) ≫= λ record,
    match record with EntitlementV1 bundle => Some bundle | EntitlementV2 _ => None end.

Definition get_verified_proof_bundle_payload (records : Entitlements) (creator : CreatorPubky)
    (bundle_id : BundleId) : option VerifiedProofBundlePayload :=
  (λ record, match record with
             | EntitlementV1 bundle => VerifiedV1 bundle
             | EntitlementV2 bundle => VerifiedV2 bundle
             end) <$> records !! (creator, bundle_id).

Definition delete_verified_proof_bundle (records : Entitlements) (creator : CreatorPubky)
    (bundle_id : BundleId) : Entitlements :=
  delete (creator, bundle_id) records.

Definition v2_key (bundle : VerifiedProofBundleV2) : CreatorPubky * BundleId :=
  (vb2_creator bundle, vb2_bundle_id bundle).

Definition insert_verified_proof_bundle_v2 (records : Entitlements)
    (bundle : VerifiedProofBundleV2) : result ApplicationError Entitlements :=
  _ ← map_err (λ e, Storage (VerifiedProofBundleV2ValidationError_display e))
        (VerifiedProofBundleV2_validate bundle);
  match records !! v2_key bundle with
  | Some existing =>
      if existing == EntitlementV2 bundle then Ok records
      else Err (DuplicateRecord "verified_proof_bundle_v2")
  | None => Ok (<[v2_key bundle := EntitlementV2 bundle]> records)
  end.

Definition get_verified_proof_bundle_v2 (records : Entitlements) (creator : CreatorPubky)
    (bundle_id : BundleId) : option VerifiedProofBundleV2 :=
  records !! (creator, bundle_id) ≫= λ record,
    match record with EntitlementV1 _ => None | EntitlementV2 bundle => Some bundle end.

(** * What publication relies on *)

Class EntitlementStore (E : Type) := {
  ent_contents : E → Entitlements;
  ent_get_v2 : E → CreatorPubky → BundleId →
    result ApplicationError (option VerifiedProofBundleV2) * E;
  ent_insert_v2 : E → VerifiedProofBundleV2 → result ApplicationError () * E;
}.

(** Reads change nothing and are right when they succeed.  A write puts the bundle
    where nothing or the same bundle was, or leaves the contents alone; its answer does
    not tell which. *)
Class EntitlementStoreLaws (E : Type) `{!EntitlementStore E} : Prop := {
  ent_get_law e creator bundle_id r e' :
    ent_get_v2 e creator bundle_id = (r, e') →
    ent_contents e' = ent_contents e
    ∧ (∀ o, r = Ok o → o = get_verified_proof_bundle_v2 (ent_contents e) creator bundle_id);
  ent_insert_law e bundle r e' :
    ent_insert_v2 e bundle = (r, e') →
    ent_contents e' = ent_contents e
    ∨ insert_verified_proof_bundle_v2 (ent_contents e) bundle = Ok (ent_contents e');
}.

Lemma insert_v2_Ok records bundle records' :
  insert_verified_proof_bundle_v2 records bundle = Ok records' ↔
  VerifiedProofBundleV2_validate bundle = Ok ()
  ∧ (records !! v2_key bundle = None ∨ records !! v2_key bundle = Some (EntitlementV2 bundle))
  ∧ records' = <[v2_key bundle := EntitlementV2 bundle]> records.
Proof.
  unfold insert_verified_proof_bundle_v2. rewrite bind_Ok. split.
  - intros ([] & Hv%map_err_Ok & Hr). destruct (records !! v2_key bundle) as [ex|] eqn:Hex.
    + destruct (ex == EntitlementV2 bundle) eqn:He; [|done]. apply eqb_true in He as ->.
      injection Hr as <-. split_and!; [done|by right|]. by rewrite insert_id.
    + injection Hr as <-. split_and!; [done|by left|done].
  - intros (Hv & Hcase & ->). exists (). rewrite Hv. split; [done|].
    destruct Hcase as [-> | Hex]; [done|]. rewrite Hex, eqb_same. by rewrite insert_id.
Qed.

(** The in-memory repository answers every call. *)
#[global] Instance memory_entitlements : EntitlementStore Entitlements := {|
  ent_contents records := records;
  ent_get_v2 records creator bundle_id :=
    (Ok (get_verified_proof_bundle_v2 records creator bundle_id), records);
  ent_insert_v2 records bundle :=
    match insert_verified_proof_bundle_v2 records bundle with
    | Ok records' => (Ok (), records')
    | Err e => (Err e, records)
    end;
|}.

#[global] Instance memory_entitlements_laws : EntitlementStoreLaws Entitlements.
Proof.
  split; cbn.
  - intros e creator bundle_id r e' [= <- <-]. split; [done|]. by intros o [= <-].
  - intros e bundle r e'. destruct (insert_verified_proof_bundle_v2 e bundle) as [m|] eqn:Hi;
      intros [= <- <-]; [by right|by left].
Qed.

(** * What v1 publication relies on *)

Class EntitlementStoreV1 (E : Type) := {
  ent1_contents : E → Entitlements;
  ent1_get : E → CreatorPubky → BundleId →
    result ApplicationError (option VerifiedProofBundle) * E;
  ent1_insert : E → VerifiedProofBundle → result ApplicationError () * E;
}.

(** As for version 2: reads are right when they succeed; a write takes effect as a
    whole or not at all, and an error does not tell which. *)
Class EntitlementStoreV1Laws (E : Type) `{!EntitlementStoreV1 E} : Prop := {
  ent1_get_law e creator bundle_id r e' :
    ent1_get e creator bundle_id = (r, e') →
    ent1_contents e' = ent1_contents e
    ∧ (∀ o, r = Ok o → o = get_verified_proof_bundle (ent1_contents e) creator bundle_id);
  ent1_insert_law e bundle r e' :
    ent1_insert e bundle = (r, e') →
    (ent1_contents e' = ent1_contents e
     ∨ insert_verified_proof_bundle (ent1_contents e) bundle = Ok (ent1_contents e'));
}.

#[global] Instance memory_entitlements_v1 : EntitlementStoreV1 Entitlements := {|
  ent1_contents records := records;
  ent1_get records creator bundle_id :=
    (Ok (get_verified_proof_bundle records creator bundle_id), records);
  ent1_insert records bundle :=
    match insert_verified_proof_bundle records bundle with
    | Ok records' => (Ok (), records')
    | Err e => (Err e, records)
    end;
|}.

#[global] Instance memory_entitlements_v1_laws : EntitlementStoreV1Laws Entitlements.
Proof.
  split; cbn.
  - intros e creator bundle_id r e' [= <- <-]. split; [done|]. by intros o [= <-].
  - intros e bundle r e'. destruct (insert_verified_proof_bundle e bundle) as [m|] eqn:Hi;
      intros [= <- <-]; [by right|by left].
Qed.

Definition v1_key (bundle : VerifiedProofBundle) : CreatorPubky * BundleId :=
  (resource_creator (vb_pubky_lock_resource bundle), vb_bundle_id bundle).

Lemma get_v1_Some records creator bundle_id bundle :
  get_verified_proof_bundle records creator bundle_id = Some bundle ↔
  records !! (creator, bundle_id) = Some (EntitlementV1 bundle).
Proof.
  unfold get_verified_proof_bundle. destruct (records !! _) as [[b|b]|]; cbn; naive_solver.
Qed.
