(* ===== verification/Lifecycle.v ===== *)
(** The lifecycle of v1 verification tasks
    ([locks-service/src/application/models/verification.rs]).

    Records, the transitions between statuses, the field invariant of each status
    and the storage strings of the closed enumerations. *)

From S2P Require Import Prelude RustStr Externals Ids Json LockPolicy Wire Errors.

(** * Data *)

Record VerificationTaskRecord := MkTaskRecord {
  tr_task_id : TaskId;
  tr_creator : CreatorPubky;
  tr_submitted_proof_bundle : SubmittedProofBundle;
  tr_status : VerificationTaskStatus;
  tr_submitted_at : OffsetDateTime;
  tr_started_at : option OffsetDateTime;
  tr_completed_at : option OffsetDateTime;
  tr_failure_message : option string;
  tr_terminal_reason : option VerificationTerminalReason;
  tr_entitlement_to_publish : option VerifiedProofBundle;
}.

Inductive InvoiceAdmissionPhase := PhaseInvoicePending | PhaseReady | PhaseFailed.
Inductive InvoiceAdmissionRetryReason : Set := ReaderWalletSetupNeeded.

(** * Storage strings *)

Definition VerificationTerminalReason_as_str (r : VerificationTerminalReason) : string :=
  match r with
  | PaymentRequestRejected => "payment_request_rejected"
  | PaymentRequestCanceled => "payment_request_canceled"
  | ReasonProposalExpired => "proposal_expired"
  | PaymentDeadlineExpired => "payment_deadline_expired"
  | ContentLockDeleted => "content_lock_deleted"
  | GraphConditionNotObservedByDeadline => "graph_condition_not_observed_by_deadline"
  | VerificationUnavailableByDeadline => "verification_unavailable_by_deadline"
  | InvalidVerifierResponse => "invalid_verifier_response"
  | VerificationConflict => "verification_conflict"
  end.

(** The arms of a [match value { "text" => Some(...), ..., _ => None }]. *)
Fixpoint match_str {A} (arms : list (string * A)) (value : string) : option A :=
  match arms with
  | [] => None
  | (text, a) :: arms => if value == text then Some a else match_str arms value
  end.

Definition VerificationTerminalReason_from_storage_value (value : string) :
    option VerificationTerminalReason :=
  match_str
    [("payment_request_rejected", PaymentRequestRejected);
     ("payment_request_canceled", PaymentRequestCanceled);
     ("proposal_expired", ReasonProposalExpired);
     ("payment_deadline_expired", PaymentDeadlineExpired);
     ("content_lock_deleted", ContentLockDeleted);
     ("graph_condition_not_observed_by_deadline", GraphConditionNotObservedByDeadline);
     ("verification_unavailable_by_deadline", VerificationUnavailableByDeadline);
     ("invalid_verifier_response", InvalidVerifierResponse);
     ("verification_conflict", VerificationConflict)] value.

Definition InvoiceAdmissionPhase_as_str (p : InvoiceAdmissionPhase) : string :=
  match p with
  | PhaseInvoicePending => "invoice_pending"
  | PhaseReady => "ready"
  | PhaseFailed => "failed"
  end.

Definition InvoiceAdmissionPhase_from_storage_value (value : string) :
    option InvoiceAdmissionPhase :=
  match_str
    [("invoice_pending", PhaseInvoicePending); ("ready", PhaseReady); ("failed", PhaseFailed)]
    value.

Definition InvoiceAdmissionRetryReason_as_str (r : InvoiceAdmissionRetryReason) : string :=
  match r with ReaderWalletSetupNeeded => "reader_wallet_setup_needed" end.

Definition InvoiceAdmissionRetryReason_from_storage_value (value : string) :
    option InvoiceAdmissionRetryReason :=
  match_str [("reader_wallet_setup_needed", ReaderWalletSetupNeeded)] value.

(** * Transitions *)

Definition allowed_transition (from to : VerificationTaskStatus) : bool :=
  match from, to with
  | Pending, InProgress | Pending, Expired
  | InProgress, Pending | InProgress, PublishingEntitlement
  | InProgress, Failed | InProgress, Expired
  | PublishingEntitlement, Completed => true
  | _, _ => false
  end.

Definition validate_transition (r : VerificationTaskRecord) (next : VerificationTaskStatus) :
    result ApplicationError () :=
  reject_if (negb (allowed_transition (tr_status r) next))
    (InvalidVerificationTaskTransition (tr_status r) next).

Definition fields_consistent (r : VerificationTaskRecord) : bool :=
  let started := is_some (tr_started_at r) in
  let completed := is_some (tr_completed_at r) in
  let failure := tr_failure_message r in
  let reason := is_some (tr_terminal_reason r) in
  let payload := is_some (tr_entitlement_to_publish r) in
  match tr_status r with
  | Pending => negb started && negb completed && is_none failure && negb reason && negb payload
  | InProgress => started && negb completed && is_none failure && negb reason && negb payload
  | PublishingEntitlement =>
      started && negb completed && is_none failure && negb reason && payload
  | Completed => started && completed && is_none failure && negb reason && payload
  | Failed =>
      started && completed && is_some_and (λ m, negb (trim m == "")) failure
      && negb reason && negb payload
  | Expired => started && completed && is_none failure && reason && negb payload
  end.

(** [{:?}] of a status. *)
Definition status_debug (s : VerificationTaskStatus) : string :=
  match s with
  | Pending => "Pending"
  | InProgress => "InProgress"
  | PublishingEntitlement => "PublishingEntitlement"
  | Completed => "Completed"
  | Failed => "Failed"
  | Expired => "Expired"
  end.

Definition validate_state (r : VerificationTaskRecord) : result ApplicationError () :=
  reject_if (negb (fields_consistent r))
    (InvalidVerificationTaskState
       ("record fields are inconsistent for " +:+ status_debug (tr_status r))).

Definition validate_failure_message (next : VerificationTaskStatus)
    (failure_message : option string) : result ApplicationError (option string) :=
  match next with
  | Failed =>
      message ← ok_or (m ← trim <$> failure_message; if m == "" then None else Some m)
                  InvalidVerificationTaskFailureMessage;
      Ok (Some message)
  | _ => if is_none failure_message then Ok None else Err InvalidVerificationTaskFailureMessage
  end.

(** The lifecycle fields of a record, in declaration order. *)
Definition with_lifecycle (r : VerificationTaskRecord) (status : VerificationTaskStatus)
    (started completed : option OffsetDateTime) (failure : option string)
    (reason : option VerificationTerminalReason) (payload : option VerifiedProofBundle) :
    VerificationTaskRecord :=
  MkTaskRecord (tr_task_id r) (tr_creator r) (tr_submitted_proof_bundle r) status
    (tr_submitted_at r) started completed failure reason payload.

Definition with_lifecycle_of (r update : VerificationTaskRecord) : VerificationTaskRecord :=
  with_lifecycle r (tr_status update) (tr_started_at update) (tr_completed_at update)
    (tr_failure_message update) (tr_terminal_reason update) (tr_entitlement_to_publish update).

Definition transition_to (r : VerificationTaskRecord) (next : VerificationTaskStatus)
    (at_ : OffsetDateTime) (failure_message : option string) :
    result ApplicationError VerificationTaskRecord :=
  _ ← validate_state r;
  _ ← validate_transition r next;
  trimmed ← validate_failure_message next failure_message;
  match next with
  | Pending => Ok (with_lifecycle r Pending None None None None None)
  | InProgress =>
      Ok (with_lifecycle r InProgress (Some at_) (tr_completed_at r) (tr_failure_message r)
            (tr_terminal_reason r) (tr_entitlement_to_publish r))
  | PublishingEntitlement =>
      Err (InvalidVerificationTaskState "publishing transitions require an entitlement payload")
  | Completed =>
      Ok (with_lifecycle r Completed (tr_started_at r) (Some at_) (tr_failure_message r)
            (tr_terminal_reason r) (tr_entitlement_to_publish r))
  | Failed =>
      Ok (with_lifecycle r Failed (tr_started_at r) (Some at_) trimmed (tr_terminal_reason r)
            (tr_entitlement_to_publish r))
  | Expired =>
      Err (InvalidVerificationTaskState "expired transitions require a terminal reason")
  end.

Definition begin_entitlement_publication (r : VerificationTaskRecord)
    (entitlement : VerifiedProofBundle) : result ApplicationError VerificationTaskRecord :=
  _ ← validate_state r;
  _ ← validate_transition r PublishingEntitlement;
  Ok (with_lifecycle r PublishingEntitlement (tr_started_at r) (tr_completed_at r)
        (tr_failure_message r) (tr_terminal_reason r) (Some entitlement)).

Definition complete_entitlement_publication (r : VerificationTaskRecord) (at_ : OffsetDateTime) :
    result ApplicationError VerificationTaskRecord :=
  transition_to r Completed at_ None.

Definition expire (r : VerificationTaskRecord) (reason : VerificationTerminalReason)
    (at_ : OffsetDateTime) : result ApplicationError VerificationTaskRecord :=
  _ ← validate_state r;
  _ ← validate_transition r Expired;
  _ ← reject_if (negb ((tr_status r == Pending) || (tr_status r == InProgress)))
        (InvalidVerificationTaskState
           "only a pending or in-progress task can expire with a terminal reason");
  Ok (with_lifecycle r Expired (get_or_insert (tr_started_at r) at_) (Some at_) None (Some reason)
        (tr_entitlement_to_publish r)).

(** * Round trips of the storage strings *)

Lemma match_str_Some {A} (arms : list (string * A)) value a :
  match_str arms value = Some a → (value, a) ∈ arms.
Proof.
  induction arms as [|[text b] arms IH]; cbn; [done|].
  destruct (value == text) eqn:E; props; [|by right; apply IH].
  intros [= ->]. subst. left.
Qed.

Lemma match_str_canonical {A} (arms : list (string * A)) (as_str : A → string) value a :
  Forall (λ '(text, b), as_str b = text) arms → match_str arms value = Some a → as_str a = value.
Proof. intros Harms Hm%match_str_Some. by apply (proj1 (Forall_forall _ _) Harms (value, a)). Qed.

(** Storage strings identify the closed enumerations: every value is read back
    from the string it is stored as, and only that string reads as the value. *)
Theorem storage_strings_roundtrip reason phase retry value :
  (VerificationTerminalReason_from_storage_value value = Some reason
   ↔ value = VerificationTerminalReason_as_str reason)
  ∧ (InvoiceAdmissionPhase_from_storage_value value = Some phase
     ↔ value = InvoiceAdmissionPhase_as_str phase)
  ∧ (InvoiceAdmissionRetryReason_from_storage_value value = Some retry
     ↔ value = InvoiceAdmissionRetryReason_as_str retry).
Proof.
  split_and!; (split; [intros Hm; symmetry; eapply match_str_canonical, Hm; repeat constructor|]).
  - intros ->. by destruct reason.
  - intros ->. by destruct phase.
  - intros ->. by destruct retry.
Qed.

(** * Behaviour of the transitions *)

Lemma validate_state_Ok r : validate_state r = Ok () ↔ fields_consistent r = true.
Proof. unfold validate_state. by rewrite reject_if_Ok, negb_false_iff. Qed.

Lemma validate_transition_Ok r next :
  validate_transition r next = Ok () ↔ allowed_transition (tr_status r) next = true.
Proof. unfold validate_transition. by rewrite reject_if_Ok, negb_false_iff. Qed.

Lemma validate_failure_message_Ok next msg trimmed :
  validate_failure_message next msg = Ok trimmed ↔
  match next with
  | Failed => ∃ m, msg = Some m ∧ trim m ≠ "" ∧ trimmed = Some (trim m)
  | _ => msg = None ∧ trimmed = None
  end.
Proof.
  unfold validate_failure_message. destruct next, msg as [m|]; cbn; try naive_solver.
  destruct (trim m == "") eqn:E; props; cbn; naive_solver.
Qed.

(** The fields a consistent record has, by status. *)
Lemma consistent_fields r :
  fields_consistent r = true →
  match tr_status r with
  | Pending =>
      r = with_lifecycle r Pending None None None None None
  | InProgress =>
      ∃ s, r = with_lifecycle r InProgress (Some s) None None None None
  | PublishingEntitlement =>
      ∃ s p, r = with_lifecycle r PublishingEntitlement (Some s) None None None (Some p)
  | Completed =>
      ∃ s c p, r = with_lifecycle r Completed (Some s) (Some c) None None (Some p)
  | Failed =>
      ∃ s c m, trim m ≠ "" ∧ r = with_lifecycle r Failed (Some s) (Some c) (Some m) None None
  | Expired =>
      ∃ s c x, r = with_lifecycle r Expired (Some s) (Some c) None (Some x) None
  end.
Proof.
  destruct r as [id cr b st sub s c m x p]. unfold fields_consistent, with_lifecycle. cbn.
  destruct st, s, c, m as [m|], x, p; cbn; intros Hf; try discriminate Hf; eauto;
    props; try done. by exists z, z0, m.
Qed.

(** [transition_to] succeeds exactly on a consistent record, along an edge it
    serves, with a non-blank failure message exactly for a failure, and then
    changes only what the edge prescribes. *)
Theorem transition_to_spec r next at_ msg r' :
  transition_to r next at_ msg = Ok r' ↔
  fields_consistent r = true
  ∧ match tr_status r, next with
    | Pending, InProgress =>
        msg = None ∧ r' = with_lifecycle r InProgress (Some at_) None None None None
    | InProgress, Pending => msg = None ∧ r' = with_lifecycle r Pending None None None None None
    | InProgress, Failed =>
        ∃ m, msg = Some m ∧ trim m ≠ ""
             ∧ r' = with_lifecycle r Failed (tr_started_at r) (Some at_) (Some (trim m)) None None
    | PublishingEntitlement, Completed =>
        msg = None ∧ r' = with_lifecycle r Completed (tr_started_at r) (Some at_) None None
                            (tr_entitlement_to_publish r)
    | _, _ => False
    end.
Proof.
  unfold transition_to. split.
  - intros ([] & Hv%validate_state_Ok & Ht)%bind_Ok.
    apply bind_Ok in Ht as ([] & Ha%validate_transition_Ok & Ht).
    apply bind_Ok in Ht as (trimmed & Hm%validate_failure_message_Ok & Ht).
    split; [done|]. pose proof (consistent_fields r Hv) as Hf.
    destruct (tr_status r) eqn:Hst, next; try discriminate Ha; try discriminate Ht;
      injection Ht as <-; destruct_and?; try done.
    + by rewrite Hf.
    + destruct Hm as (m & -> & Hne & ->). exists m. split_and!; [done|done|].
      destruct Hf as (s & Hf). by rewrite Hf.
    + destruct Hf as (s & p & Hf). by rewrite Hf.
  - intros [Hv Hcase]. rewrite (proj2 (validate_state_Ok r) Hv). cbn [mbind result_bind].
    pose proof (consistent_fields r Hv) as Hf.
    destruct (tr_status r) eqn:Hst, next; try done;
      (rewrite (proj2 (validate_transition_Ok r _)) by (by rewrite Hst)); cbn [mbind result_bind].
    + destruct Hcase as [-> ->]. cbn. by rewrite Hf.
    + by destruct Hcase as [-> ->].
    + destruct Hcase as (m & -> & Hne & ->).
      rewrite (proj2 (validate_failure_message_Ok Failed (Some m) (Some (trim m)))) by eauto.
      cbn. destruct Hf as (s & Hf). by rewrite Hf.
    + destruct Hcase as [-> ->]. cbn. destruct Hf as (s & p & Hf). by rewrite Hf.
Qed.

(** One successful lifecycle operation. *)
Inductive lifecycle_step (r r' : VerificationTaskRecord) : Prop :=
  | step_transition next at_ msg : transition_to r next at_ msg = Ok r' → lifecycle_step r r'
  | step_begin entitlement :
      begin_entitlement_publication r entitlement = Ok r' → lifecycle_step r r'
  | step_complete at_ : complete_entitlement_publication r at_ = Ok r' → lifecycle_step r r'
  | step_expire reason at_ : expire r reason at_ = Ok r' → lifecycle_step r r'.

Definition is_terminal (s : VerificationTaskStatus) : bool :=
  match s with Completed | Failed | Expired => true | _ => false end.

Definition task_identity (r : VerificationTaskRecord) :=
  (tr_task_id r, tr_creator r, tr_submitted_proof_bundle r, tr_submitted_at r).

(** What one step does to a consistent record. *)
Record step_facts (r r' : VerificationTaskRecord) : Prop := {
  sf_before : fields_consistent r = true;
  sf_after : fields_consistent r' = true;
  sf_identity : task_identity r' = task_identity r;
  sf_edge : allowed_transition (tr_status r) (tr_status r') = true;
  sf_payload : tr_status r = PublishingEntitlement →
    tr_status r' = Completed ∧ tr_started_at r' = tr_started_at r
    ∧ tr_entitlement_to_publish r' = tr_entitlement_to_publish r;
}.

Lemma transition_facts r next at_ msg r' :
  transition_to r next at_ msg = Ok r' → step_facts r r'.
Proof.
  unfold transition_to.
  intros ([] & Hv%validate_state_Ok & Ht)%bind_Ok.
  apply bind_Ok in Ht as ([] & Ha%validate_transition_Ok & Ht).
  apply bind_Ok in Ht as (trimmed & Hm%validate_failure_message_Ok & Ht).
  pose proof (consistent_fields r Hv) as Hf.
  destruct (tr_status r) eqn:Hst, next; try discriminate Ha; try discriminate Ht;
    injection Ht as <-.
  - rewrite Hf. split; solve [done | by rewrite <- Hf].
  - split; try done; by rewrite Hst.
  - destruct Hm as (m & _ & Hne & ->). destruct Hf as (s & Hf). rewrite Hf.
    split; try done. unfold fields_consistent. cbn.
    by rewrite trim_idemp, (proj2 (eqb_false _ _) Hne).
  - destruct Hf as (s & p & Hf). rewrite Hf. split; solve [done | by rewrite <- Hf].
Qed.

Lemma lifecycle_step_facts r r' : lifecycle_step r r' → step_facts r r'.
Proof.
  intros [next at_ msg Ht|entitlement Hb|at_ Hc|reason at_ He].
  - by eapply transition_facts.
  - unfold begin_entitlement_publication in Hb.
    apply bind_Ok in Hb as ([] & Hv%validate_state_Ok & Hb).
    apply bind_Ok in Hb as ([] & Ha%validate_transition_Ok & Hb). injection Hb as <-.
    pose proof (consistent_fields r Hv) as Hf.
    destruct (tr_status r) eqn:Hst; try discriminate Ha. destruct Hf as (s & Hf). rewrite Hf.
    split; solve [done | by rewrite <- Hf].
  - by eapply transition_facts.
  - unfold expire in He.
    apply bind_Ok in He as ([] & Hv%validate_state_Ok & He).
    apply bind_Ok in He as ([] & Ha%validate_transition_Ok & He).
    apply bind_Ok in He as ([] & _ & He). injection He as <-.
    pose proof (consistent_fields r Hv) as Hf.
    destruct (tr_status r) eqn:Hst; try discriminate Ha.
    + rewrite Hf. split; solve [done | by rewrite <- Hf].
    + destruct Hf as (s & Hf). rewrite Hf. split; solve [done | by rewrite <- Hf].
Qed.

Lemma no_step_from_terminal r r' : is_terminal (tr_status r) = true → ¬ lifecycle_step r r'.
Proof.
  intros Ht Hs. apply lifecycle_step_facts in Hs as [_ _ _ Ha _]. by destruct (tr_status r).
Qed.

(** Along every sequence of successful lifecycle operations a record stays
    consistent and keeps its identity; a terminal record never changes; and once
    an entitlement payload has been fixed for publication the only way on is
    completion with exactly that payload. *)
Theorem lifecycle_history r r' :
  rtc lifecycle_step r r' → fields_consistent r = true →
  fields_consistent r' = true ∧ task_identity r' = task_identity r
  ∧ (is_terminal (tr_status r) = true → r' = r)
  ∧ (tr_status r = PublishingEntitlement →
     r' = r ∨ (tr_status r' = Completed ∧ tr_started_at r' = tr_started_at r
               ∧ tr_entitlement_to_publish r' = tr_entitlement_to_publish r)).
Proof.
  induction 1 as [r|r r1 r2 Hstep Hrest IH]; intros Hc; [by split_and!; auto|].
  pose proof (lifecycle_step_facts _ _ Hstep) as [_ Hc1 Hid _ Hpub].
  destruct (IH Hc1) as (Hc2 & Hid2 & Hterm & _). split_and!; [done|congruence| |].
  - intros Ht. by destruct (no_step_from_terminal r r1).
  - intros Hp. right. destruct (Hpub Hp) as (Hst & Hs & Hpay).
    assert (r2 = r1) as -> by (apply Hterm; by rewrite Hst). done.
Qed.

(** Merging an update into a stored record takes over exactly the lifecycle
    fields: the identity written at insertion survives whatever record the caller
    passes, and the merge of a record with the same identity is that record. *)
Theorem with_lifecycle_of_spec stored update :
  task_identity (with_lifecycle_of stored update) = task_identity stored
  ∧ fields_consistent (with_lifecycle_of stored update) = fields_consistent update
  ∧ (with_lifecycle_of stored update = update ↔ task_identity update = task_identity stored).
Proof.
  split_and!; [done|done|]. destruct stored, update. unfold task_identity. cbn.
  split; [by intros [= -> -> -> ->]|by intros [= -> -> -> ->]].
Qed.
