(* ===== verification/Ownership.v ===== *)
(** Exclusive ownership of guarded paths
    ([locks-service/src/infrastructure/memory/content_lock_ownership.rs] and
    [application/models/content_lock_ownership.rs]).

    Creating a content lock reserves its guarded paths, publication makes the
    reservation permanent, and a failed publication releases it. *)

From S2P Require Import Prelude RustStr Externals Ids LockPolicy Errors Lifecycle.

Inductive ContentLockOwnershipStatus := OwnershipReserved | OwnershipPublished.

Record ContentLockOwnership := MkOwnership {
  own_creator : CreatorPubky;
  own_guarded_path : string;
  own_lock_id : LockId;
  own_status : ContentLockOwnershipStatus;
}.

#[global] Instance ContentLockOwnershipStatus_eq_dec : EqDecision ContentLockOwnershipStatus.
Proof. solve_decision. Defined.
#[global] Instance ContentLockOwnership_eq_dec : EqDecision ContentLockOwnership.
Proof. solve_decision. Defined.

Definition ContentLockOwnershipStatus_as_str (s : ContentLockOwnershipStatus) : string :=
  match s with OwnershipReserved => "reserved" | OwnershipPublished => "published" end.

Definition ContentLockOwnershipStatus_from_storage (value : string) :
    result ApplicationError ContentLockOwnershipStatus :=
  ok_or (match_str [("reserved", OwnershipReserved); ("published", OwnershipPublished)] value)
    (Storage ("invalid content lock ownership status: " +:+ value)).

Abbreviation OwnershipRecords := (gmap (CreatorPubky * string) ContentLockOwnership).

(** * Operations *)

Definition reserve_paths (records : OwnershipRecords) (creator : CreatorPubky)
    (guarded_paths : list string) (lock_id : LockId) :
    result ApplicationError OwnershipRecords :=
  _ ← try_for_each
        (λ path,
           reject_if
             (is_some_and
                (λ existing, (own_lock_id existing != lock_id)
                             || (own_status existing == OwnershipReserved))
                (records !! (creator, path)))
             (ContentLockPathConflict path))
        guarded_paths;
  Ok (foldl (λ m path,
               match m !! (creator, path) with
               | Some _ => m
               | None =>
                   <[(creator, path) := MkOwnership creator path lock_id OwnershipReserved]> m
               end) records guarded_paths).

Definition publish_ownership (o : ContentLockOwnership) : ContentLockOwnership :=
  MkOwnership (own_creator o) (own_guarded_path o) (own_lock_id o) OwnershipPublished.

Definition mark_paths_published (records : OwnershipRecords) (creator : CreatorPubky)
    (guarded_paths : list string) (lock_id : LockId) :
    result ApplicationError OwnershipRecords :=
  _ ← try_for_each
        (λ path,
           match records !! (creator, path) with
           | None => Err (MissingRecord "content_lock_ownership")
           | Some ownership =>
               reject_if (own_lock_id ownership != lock_id) (ContentLockPathConflict path)
           end)
        guarded_paths;
  Ok (foldl (λ m path, alter publish_ownership (creator, path) m) records guarded_paths).

Definition compensate_reserved_paths (records : OwnershipRecords) (creator : CreatorPubky)
    (guarded_paths : list string) (lock_id : LockId) : OwnershipRecords :=
  foldl (λ m path,
           if is_some_and (λ o, (own_lock_id o == lock_id) && (own_status o == OwnershipReserved))
                (m !! (creator, path))
           then delete (creator, path) m else m) records guarded_paths.

Definition get_path_ownership (records : OwnershipRecords) (creator : CreatorPubky)
    (guarded_path : string) : option ContentLockOwnership :=
  records !! (creator, guarded_path).

(** * Pointwise behaviour *)

Section pointwise.
Context (creator : CreatorPubky) (lock_id : LockId).

Lemma reserve_fold_lookup (paths : list string) (m : OwnershipRecords)
    (key : CreatorPubky * string) :
  foldl (λ m path,
           match m !! (creator, path) with
           | Some _ => m
           | None =>
               <[(creator, path) := MkOwnership creator path lock_id OwnershipReserved]> m
           end) m paths !! key
  = match m !! key with
    | Some o => Some o
    | None => if decide (key.1 = creator ∧ key.2 ∈ paths)
              then Some (MkOwnership creator key.2 lock_id OwnershipReserved) else None
    end.
Proof.
  revert m. induction paths as [|path paths IH]; intros m; cbn.
  { destruct (m !! key); [done|]. rewrite decide_False; [done|]. set_solver. }
  rewrite IH. destruct (decide (key = (creator, path))) as [->|Hne]; cbn.
  - destruct (m !! (creator, path)) eqn:Hm; [by rewrite Hm|].
    rewrite lookup_insert_eq, decide_True by set_solver. done.
  - assert ((match m !! (creator, path) with
             | Some _ => m
             | None => <[(creator, path) :=
                           MkOwnership creator path lock_id OwnershipReserved]> m
             end) !! key = m !! key) as ->.
    { destruct (m !! (creator, path)); [done|]. by rewrite lookup_insert_ne. }
    destruct (m !! key); [done|]. apply decide_ext. rewrite elem_of_cons.
    destruct key as [c p]. cbn. split; [naive_solver|]. intros [-> [->|?]]; naive_solver.
Qed.

Lemma publish_fold_lookup (paths : list string) (m : OwnershipRecords)
    (key : CreatorPubky * string) :
  foldl (λ m path, alter publish_ownership (creator, path) m) m paths !! key
  = if decide (key.1 = creator ∧ key.2 ∈ paths) then publish_ownership <$> m !! key
    else m !! key.
Proof.
  revert m. induction paths as [|path paths IH]; intros m; cbn.
  { rewrite decide_False; [done|]. set_solver. }
  rewrite IH. destruct (decide (key = (creator, path))) as [->|Hne]; cbn.
  - rewrite lookup_alter_eq, (decide_True (P := creator = creator ∧ path ∈ path :: paths)) by set_solver.
    destruct (m !! (creator, path)) as [o|]; cbn; by destruct (decide _).
  - rewrite lookup_alter_ne by done. apply decide_ext. rewrite elem_of_cons.
    destruct key as [c p]. cbn. split; [naive_solver|]. intros [-> [->|?]]; naive_solver.
Qed.

Lemma compensate_fold_lookup (paths : list string) (m : OwnershipRecords)
    (key : CreatorPubky * string) :
  compensate_reserved_paths m creator paths lock_id !! key
  = if decide (key.1 = creator ∧ key.2 ∈ paths
               ∧ is_some_and (λ o, (own_lock_id o == lock_id)
                                   && (own_status o == OwnershipReserved)) (m !! key) = true)
    then None else m !! key.
Proof.
  unfold compensate_reserved_paths. revert m.
  induction paths as [|path paths IH]; intros m; cbn [foldl].
  { rewrite decide_False; [done|]. set_solver. }
  rewrite IH. destruct (decide (key = (creator, path))) as [->|Hne]; cbn [fst snd].
  - destruct (is_some_and _ (m !! (creator, path))) eqn:Hs.
    + rewrite lookup_delete_eq. rewrite (decide_True (P := _ ∧ _ ∧ true = true)) by set_solver.
      by destruct (decide _).
    + rewrite Hs. rewrite !decide_False by naive_solver. done.
  - assert ((if is_some_and (λ o, (own_lock_id o == lock_id)
                                  && (own_status o == OwnershipReserved)) (m !! (creator, path))
             then delete (creator, path) m else m) !! key = m !! key) as ->.
    { destruct (is_some_and _ _); [|done]. by rewrite lookup_delete_ne. }
    apply decide_ext. rewrite elem_of_cons. destruct key as [c p]. cbn.
    split; [naive_solver|]. intros [-> [[->|?] ?]]; naive_solver.
Qed.
End pointwise.

(** * Contract *)

Definition free_for (records : OwnershipRecords) (creator : CreatorPubky) (lock_id : LockId)
    (path : string) : Prop :=
  match records !! (creator, path) with
  | None => True
  | Some o => own_lock_id o = lock_id ∧ own_status o = OwnershipPublished
  end.

Lemma reserve_paths_checks records creator paths lock_id :
  try_for_each
    (λ path,
       reject_if
         (is_some_and (λ existing, (own_lock_id existing != lock_id)
                                   || (own_status existing == OwnershipReserved))
            (records !! (creator, path)))
         (ContentLockPathConflict path)) paths = Ok ()
  ↔ Forall (free_for records creator lock_id) paths.
Proof.
  rewrite try_for_each_Ok. apply Forall_iff. intros path. rewrite reject_if_Ok. unfold free_for.
  destruct (records !! (creator, path)) as [o|]; cbn; [|done].
  rewrite orb_false_iff, negb_false_iff, eqb_true, eqb_false.
  destruct (own_status o); naive_solver.
Qed.

(** Reserving paths is all or nothing and exclusive.  It succeeds exactly when
    no requested path is owned by another lock or already reserved; then every
    requested path belongs to the lock and nothing else changes.  An error leaves
    the records as they were. *)
Theorem reserve_paths_spec records creator paths lock_id records' :
  reserve_paths records creator paths lock_id = Ok records' ↔
  Forall (free_for records creator lock_id) paths
  ∧ ∀ key, records' !! key =
      match records !! key with
      | Some o => Some o
      | None => if decide (key.1 = creator ∧ key.2 ∈ paths)
                then Some (MkOwnership creator key.2 lock_id OwnershipReserved) else None
      end.
Proof.
  unfold reserve_paths. rewrite bind_Ok. split.
  - intros ([] & Hc & Hr). apply reserve_paths_checks in Hc. injection Hr as <-.
    split; [done|]. intros key. apply reserve_fold_lookup.
  - intros [Hc Hr]. exists (). split; [by apply reserve_paths_checks|]. f_equal.
    apply map_eq. intros key. by rewrite reserve_fold_lookup, Hr.
Qed.

(** Each record sits under its own creator and path. *)
Definition ownership_ok (records : OwnershipRecords) : Prop :=
  ∀ key o, records !! key = Some o → key = (own_creator o, own_guarded_path o).

Inductive ownership_step : OwnershipRecords → OwnershipRecords → Prop :=
  | step_reserve_paths records creator paths lock_id records' :
      reserve_paths records creator paths lock_id = Ok records' → ownership_step records records'
  | step_mark_published records creator paths lock_id records' :
      mark_paths_published records creator paths lock_id = Ok records' →
      ownership_step records records'
  | step_compensate records creator paths lock_id :
      ownership_step records (compensate_reserved_paths records creator paths lock_id).

(** What a step does to one path: it stays, becomes reserved from free, becomes
    published for the same lock, or a reservation is released. *)
Lemma ownership_step_cases records records' key :
  ownership_step records records' →
  records' !! key = records !! key
  ∨ (records !! key = None
     ∧ ∃ lock_id, records' !! key = Some (MkOwnership key.1 key.2 lock_id OwnershipReserved))
  ∨ (∃ o, records !! key = Some o ∧ records' !! key = Some (publish_ownership o))
  ∨ (∃ o, records !! key = Some o ∧ own_status o = OwnershipReserved ∧ records' !! key = None).
Proof.
  destruct key as [c p].
  destruct 1 as [records creator paths lock_id records' Hr|records creator paths lock_id records' Hm
                |records creator paths lock_id].
  - unfold reserve_paths in Hr. apply bind_Ok in Hr as ([] & _ & Hr). injection Hr as <-.
    rewrite reserve_fold_lookup. destruct (records !! (c, p)); [by left|].
    case_decide as Hd; [|by left]. right; left. destruct Hd as [Hc _]. cbn in Hc. subst. eauto.
  - unfold mark_paths_published in Hm. apply bind_Ok in Hm as ([] & _ & Hm). injection Hm as <-.
    rewrite publish_fold_lookup. case_decide as Hd; [|by left].
    destruct (records !! (c, p)) as [o|]; [|by left]. right; right; left. by exists o.
  - rewrite compensate_fold_lookup. case_decide as Hd; [|by left]. right; right; right.
    destruct Hd as (_ & _ & Hs). apply is_some_and_true in Hs as (o & Ho & Hs). props.
    by exists o.
Qed.

Lemma ownership_history records records' key o :
  rtc ownership_step records records' → records !! key = Some o →
  own_status o = OwnershipPublished → records' !! key = Some o.
Proof.
  induction 1 as [|r0 r1 r2 Hstep Hrest IH]; intros Ho Hp; [done|]. apply IH; [|done].
  destruct (ownership_step_cases r0 r1 key Hstep)
    as [Heq|[[Hn _]|[(o' & Ho' & Hr)|(o' & Ho' & Hres & _)]]]; [congruence|congruence| |].
  - rewrite Ho in Ho'. injection Ho' as <-. rewrite Hr. destruct o. cbn in Hp. by subst.
  - congruence.
Qed.

(** In every history of reservations, publications and
    compensating releases a path has at most one owner at a time
    under its own key, ownership passes to another lock only after a reservation
    was released, and a published path belongs to its lock for good. *)
Theorem ownership_exclusive records records' key o :
  rtc ownership_step ∅ records → rtc ownership_step records records' →
  records !! key = Some o →
  key = (own_creator o, own_guarded_path o)
  ∧ (own_status o = OwnershipPublished → records' !! key = Some o)
  ∧ (∀ r1, ownership_step records r1 →
       r1 !! key = Some o ∨ r1 !! key = Some (publish_ownership o)
       ∨ (r1 !! key = None ∧ own_status o = OwnershipReserved)).
Proof.
  intros Hreach Hrest Ho. split_and!.
  - assert (ownership_ok records) as Hok; [|by apply Hok].
    assert (∀ r r', rtc ownership_step r r' → ownership_ok r → ownership_ok r') as Hinv.
    { induction 1 as [|r0 r1 r2 Hstep _ IH]; intros H0; [done|]. apply IH. intros k o1 Ho1.
      destruct (ownership_step_cases r0 r1 k Hstep)
        as [Heq|[(_ & l & Hn)|[(o' & Ho' & Hr)|(o' & _ & _ & Hn)]]].
      - apply H0. congruence.
      - rewrite Ho1 in Hn. injection Hn as ->. by destruct k.
      - rewrite Ho1 in Hr. injection Hr as ->. exact (H0 k o' Ho').
      - congruence. }
    apply (Hinv _ _ Hreach). intros k o1 Hk. by rewrite lookup_empty in Hk.
  - intros Hp. by eapply ownership_history.
  - intros r1 Hstep. destruct (ownership_step_cases records r1 key Hstep)
      as [Heq|[[Hn _]|[(o' & Ho' & Hr)|(o' & Ho' & Hres & Hn)]]];
      [left; congruence|congruence|right; left; congruence|right; right; split; congruence].
Qed.
