(* ===== verification/DeletionJob.v ===== *)
(** Deletion jobs ([locks-service/src/application/models/content_lock_deletion.rs])
    and the checks of publication intents the deletion repository shares between
    its implementations ([application/ports/content_lock_deletion.rs]). *)

From S2P Require Import Prelude HashMaps RustStr Externals Ids Json LockPolicy Errors Lifecycle.

(** * Data *)

Inductive ContentLockDeletionState := DelQueued | DelRunning | DelCompleted | DelFailed.

Inductive ContentLockDeletionFailureCode :=
  | TombstoneMissing
  | TombstoneReplaced
  | ResourceReplaced
  | RetryExhausted
  | StateCorrupt.

Inductive ContentLockDeletionPhase :=
  | Withdraw
  | StartPaymentDrain
  | DrainPayments
  | DrainExistingCredentials
  | IssueFinalCredentials
  | DrainFinalReads
  | DeleteContent
  | DeleteTombstone
  | PurgeOperationalState.

#[global] Instance ContentLockDeletionState_eq_dec : EqDecision ContentLockDeletionState.
Proof. solve_decision. Defined.
#[global] Instance ContentLockDeletionFailureCode_eq_dec :
  EqDecision ContentLockDeletionFailureCode.
Proof. solve_decision. Defined.
#[global] Instance ContentLockDeletionPhase_eq_dec : EqDecision ContentLockDeletionPhase.
Proof. solve_decision. Defined.

Record ContentLockDeletionJob := MkDeletionJob {
  dj_job_id : Uuid;
  dj_creator : CreatorPubky;
  dj_lock_id : LockId;
  dj_frozen_content_lock : ContentLock;
  dj_deletion_started_at : OffsetDateTime;
  dj_state : ContentLockDeletionState;
  dj_phase : ContentLockDeletionPhase;
  dj_attempt_count : Z;
  dj_next_attempt_at : option OffsetDateTime;
  dj_force_requested_at : option OffsetDateTime;
  dj_failure_code : option ContentLockDeletionFailureCode;
}.

Record ClaimedContentLockDeletionJob := MkClaimedDeletionJob {
  cdj_job : ContentLockDeletionJob;
  cdj_claim_token : Uuid;
}.

Record ForceDeletionReceipt := MkReceipt {
  fdr_creator : CreatorPubky;
  fdr_lock_id : LockId;
  fdr_frozen_content_lock : option ContentLock;
  fdr_forced_at : OffsetDateTime;
  fdr_completed_at : option OffsetDateTime;
}.

Inductive AdvanceContentLockDeletionPhaseResult :=
  | Advanced (job : ContentLockDeletionJob)
  | AdvanceClaimLost
  | ObligationsPending
  | TerminalFailure (code : ContentLockDeletionFailureCode).

Inductive PrepareForceDeletionResult :=
  | PublicationInProgress
  | ForceActive (job : ContentLockDeletionJob)
  | ForceSynchronous (job : option ContentLockDeletionJob).

Inductive PublicationRecovery :=
  | RecoveryNone
  | RecoveryWriteCompleted (publication_token : Uuid) (content_lock : ContentLock)
  | RecoveryPending (publication_token : Uuid) (content_lock : ContentLock)
  | RecoveryRequestMismatch.

(** * Storage strings *)

Definition ContentLockDeletionFailureCode_as_str (c : ContentLockDeletionFailureCode) : string :=
  match c with
  | TombstoneMissing => "tombstone_missing"
  | TombstoneReplaced => "tombstone_replaced"
  | ResourceReplaced => "resource_replaced"
  | RetryExhausted => "retry_exhausted"
  | StateCorrupt => "state_corrupt"
  end.

Definition ContentLockDeletionFailureCode_from_str (value : string) :
    result ApplicationError ContentLockDeletionFailureCode :=
  ok_or (match_str [("tombstone_missing", TombstoneMissing);
                    ("tombstone_replaced", TombstoneReplaced);
                    ("resource_replaced", ResourceReplaced);
                    ("retry_exhausted", RetryExhausted);
                    ("state_corrupt", StateCorrupt)] value)
    (InvalidContentLockDeletionState "unknown content lock deletion failure code").

(** * Phases *)

Definition permits (self next : ContentLockDeletionPhase) : bool :=
  match self, next with
  | Withdraw, StartPaymentDrain
  | StartPaymentDrain, DrainPayments
  | DrainPayments, DrainExistingCredentials
  | DrainExistingCredentials, IssueFinalCredentials
  | IssueFinalCredentials, DrainFinalReads
  | DrainFinalReads, DeleteContent
  | DeleteContent, DeleteTombstone
  | DeleteTombstone, PurgeOperationalState => true
  | _, _ => false
  end.

Definition AdvanceContentLockDeletionPhaseResult_advanced
    (r : AdvanceContentLockDeletionPhaseResult) : option ContentLockDeletionJob :=
  match r with
  | Advanced job => Some job
  | AdvanceClaimLost | ObligationsPending | TerminalFailure _ => None
  end.

(** * Jobs *)

(** The text of a canonicalization failure. *)
Class CanonicalizationError := { canonicalization_message : ContentLock → string }.

Section jobs.
  Context `{Base32, Blake3, JsonCanonicalizer, CanonicalizationError}.

Definition frozen_lock_id (lock : ContentLock) : result ApplicationError LockId :=
  ok_or (lock_id lock) (ContentLockCanonicalization (canonicalization_message lock)).

Definition ContentLockDeletionJob_new (job_id : Uuid) (frozen : ContentLock)
    (deletion_started_at : OffsetDateTime) : result ApplicationError ContentLockDeletionJob :=
  id ← frozen_lock_id frozen;
  Ok (MkDeletionJob job_id (cl_creator frozen) id frozen deletion_started_at DelQueued Withdraw
        0 None None None).

Definition validate_frozen_identity (job : ContentLockDeletionJob) : result ApplicationError () :=
  actual ← frozen_lock_id (dj_frozen_content_lock job);
  reject_if ((actual != dj_lock_id job)
             || (cl_creator (dj_frozen_content_lock job) != dj_creator job))
    (InvalidContentLockDeletionState
       "frozen content lock identity does not match deletion job").
End jobs.

(** The lifecycle fields of a job against its lease. *)
Definition job_state_valid (job : ContentLockDeletionJob) (has_active_lease : bool) : bool :=
  match dj_state job with
  | DelQueued => negb has_active_lease && is_none (dj_failure_code job)
  | DelRunning =>
      has_active_lease && is_none (dj_next_attempt_at job) && is_none (dj_failure_code job)
  | DelCompleted =>
      negb has_active_lease && is_none (dj_next_attempt_at job) && is_none (dj_failure_code job)
  | DelFailed =>
      negb has_active_lease && is_none (dj_next_attempt_at job) && is_some (dj_failure_code job)
  end.

Definition validate_job_state (job : ContentLockDeletionJob) (has_active_lease : bool) :
    result ApplicationError () :=
  reject_if (negb (job_state_valid job has_active_lease))
    (InvalidContentLockDeletionState "deletion lifecycle fields are inconsistent").

(** * Publication intents *)

Definition publication_guarded_paths (lock : ContentLock) : list string :=
  match cl_primary_resource lock with Some r => [gr_path r] | None => [] end
  ++ (btree_iter (cl_secondary_resources lock)).*1.

Section intents.
  Context `{Base32, Blake3, JsonCanonicalizer}.

(** The lock belongs to the creator and hashes to the identifier. *)
Definition lock_identified (creator : CreatorPubky) (id : LockId) (lock : ContentLock) : bool :=
  (cl_creator lock == creator) && is_some_and (λ actual, actual == id) (lock_id lock).

Definition publication_reconciliation_matches (creator : CreatorPubky) (id : LockId)
    (published : ContentLock) (published_guarded_paths : list string) : bool :=
  if negb (lock_identified creator id published) then false
  else
    let expected_paths : gset string := list_to_set (publication_guarded_paths published) in
    let published_paths : gset string := list_to_set published_guarded_paths in
    (Nat.eqb (size expected_paths) (length published_guarded_paths))
    && (expected_paths == published_paths).

Definition with_created_at (lock : ContentLock) (at_ : OffsetDateTime) : ContentLock :=
  MkContentLock (cl_version lock) (cl_creator lock) (cl_primary_resource lock)
    (cl_secondary_resources lock) (cl_criteria lock) (cl_lock_logic lock)
    (cl_access_policy lock) (cl_lock_server lock) at_.

Definition publication_intent_matches_request (creator : CreatorPubky) (id : LockId)
    (original requested : ContentLock) : bool :=
  if negb (lock_identified creator id original) then false
  else with_created_at requested (cl_created_at original) == original.
End intents.

(** * Facts *)

(** Position of a phase in the workflow. *)
Definition phase_index (p : ContentLockDeletionPhase) : Z :=
  match p with
  | Withdraw => 0
  | StartPaymentDrain => 1
  | DrainPayments => 2
  | DrainExistingCredentials => 3
  | IssueFinalCredentials => 4
  | DrainFinalReads => 5
  | DeleteContent => 6
  | DeleteTombstone => 7
  | PurgeOperationalState => 8
  end.

Lemma permits_successor self next :
  permits self next = true ↔ phase_index next = phase_index self + 1.
Proof. destruct self, next; cbn; split; first [done | intros H; discriminate H | lia]. Qed.

Lemma phase_index_inj p q : phase_index p = phase_index q → p = q.
Proof. by destruct p, q. Qed.

Lemma validate_job_state_Ok job lease :
  validate_job_state job lease = Ok () ↔ job_state_valid job lease = true.
Proof. unfold validate_job_state. by rewrite reject_if_Ok, negb_false_iff. Qed.
