(* ===== verification/RateLimit.v ===== *)
(** Rate limiting of the HTTP server ([locks-server/src/rate_limit.rs]).

    The fixed-window limiter of proof submissions, and the limiter of Paykit
    connection lookups, which combines per-key windows, a bound on the number of
    keys and a global token bucket.  Client addresses are opaque keys here. *)

From S2P Require Import Prelude.

Record RateLimitDecision := MkDecision { allowed : bool; retry_after : option Z }.

Definition decision_allowed : RateLimitDecision := MkDecision true None.
Definition decision_rejected (retry_after_seconds : Z) : RateLimitDecision :=
  MkDecision false (Some retry_after_seconds).

Record WindowCounter := MkWindow { win_started_at : OffsetDateTime; win_count : Z }.

(** [elapsed as u64] of a non-negative [i64]. *)
Definition retry_after_seconds (started_at now : OffsetDateTime) (window_seconds : Z) : Z :=
  let elapsed := whole_seconds (now - started_at) in
  if elapsed <? 0 then window_seconds else saturating_sub window_seconds elapsed.

Definition window_has_expired (started_at now : OffsetDateTime) (window_seconds : Z) : bool :=
  retry_after_seconds started_at now window_seconds =? 0.

(** * Proof submissions *)

Record SubmissionRateLimitConfig := MkSubmissionConfig {
  sub_enabled : bool;
  sub_max_requests : Z;
  sub_window_seconds : Z;
}.

Section submission.
  Context `{Countable K} (config : SubmissionRateLimitConfig).

(** The window a key's next request is counted in. *)
Definition current_window (windows : gmap K WindowCounter) (key : K) (now : OffsetDateTime) :
    WindowCounter :=
  let window := default (MkWindow now 0) (windows !! key) in
  if window_has_expired (win_started_at window) now (sub_window_seconds config)
  then MkWindow now 0 else window.

Definition submission_check (windows : gmap K WindowCounter) (key : K) (now : OffsetDateTime) :
    RateLimitDecision * gmap K WindowCounter :=
  if negb (sub_enabled config) then (decision_allowed, windows)
  else
    let window := current_window windows key now in
    if win_count window <? sub_max_requests config then
      (decision_allowed,
       <[key := MkWindow (win_started_at window) (win_count window + 1)]> windows)
    else
      (decision_rejected
         (retry_after_seconds (win_started_at window) now (sub_window_seconds config)),
       <[key := window]> windows).

(** A sequence of requests, and how many of those for [key] were allowed. *)
Fixpoint submission_run (windows : gmap K WindowCounter) (requests : list (K * OffsetDateTime)) :
    list bool * gmap K WindowCounter :=
  match requests with
  | [] => ([], windows)
  | (key, now) :: rest =>
      let '(d, windows') := submission_check windows key now in
      let '(ds, windows'') := submission_run windows' rest in
      (allowed d :: ds, windows'')
  end.

Definition allowed_for (key : K) (requests : list (K * OffsetDateTime)) (ds : list bool) : Z :=
  Z.of_nat (length (filter (λ '((k, _), d), k = key ∧ d = true) (zip requests ds))).

Definition requests_for (key : K) (requests : list (K * OffsetDateTime)) : Z :=
  Z.of_nat (length (filter (λ '(k, _), k = key) requests)).

Definition within_window (s : OffsetDateTime) (key : K) (requests : list (K * OffsetDateTime)) :
    Prop :=
  ∀ now, (key, now) ∈ requests → window_has_expired s now (sub_window_seconds config) = false.

Lemma submission_check_same windows key now s c :
  sub_enabled config = true → windows !! key = Some (MkWindow s c) →
  window_has_expired s now (sub_window_seconds config) = false →
  let '(d, windows') := submission_check windows key now in
  allowed d = (c <? sub_max_requests config)
  ∧ windows' !! key
    = Some (MkWindow s (if c <? sub_max_requests config then c + 1 else c)).
Proof.
  intros He Hw Hx. unfold submission_check, current_window. rewrite He, Hw. cbn. rewrite Hx. cbn.
  destruct (c <? sub_max_requests config); cbn; by rewrite lookup_insert_eq.
Qed.

Lemma submission_check_other windows key key' now :
  key' ≠ key → (submission_check windows key' now).2 !! key = windows !! key.
Proof.
  intros Hne. unfold submission_check. destruct (negb _); [done|].
  destruct (_ <? _); cbn; by rewrite lookup_insert_ne.
Qed.

(** Within one window a key gets exactly its quota: however requests of other
    keys are interleaved, of the requests made before the window expires the first
    ones up to the limit are allowed and all later ones are rejected. *)
Theorem submission_quota_exact windows key s c requests :
  sub_enabled config = true → windows !! key = Some (MkWindow s c) →
  0 ≤ c ≤ sub_max_requests config → within_window s key requests →
  allowed_for key requests (submission_run windows requests).1
  = Z.min (requests_for key requests) (sub_max_requests config - c).
Proof.
  intros He. revert windows c.
  induction requests as [|[key' now] requests IH]; intros windows c Hw Hc Hin.
  { unfold allowed_for, requests_for. cbn. lia. }
  assert (within_window s key requests) as Hin'.
  { intros t Ht. apply Hin. by right. }
  cbn [submission_run].
  pose proof (submission_check_same windows key now s c He Hw) as Hsame.
  pose proof (submission_check_other windows key key' now) as Hother.
  destruct (decide (key' = key)) as [->|Hne].
  - specialize (Hsame (Hin now ltac:(by left))).
    destruct (submission_check windows key now) as [d windows']. destruct Hsame as [Hd Hw'].
    specialize (IH windows' _ Hw' ltac:(destruct (Z.ltb_spec c (sub_max_requests config)); lia) Hin').
    destruct (submission_run windows' requests) as [ds windows'']. cbn [fst] in *.
    unfold allowed_for, requests_for in *. cbn [zip zip_with].
    rewrite (filter_cons_True (λ '(k, _), k = key)) by done. rewrite Hd.
    destruct (Z.ltb_spec c (sub_max_requests config)).
    + rewrite filter_cons_True by done. cbn [length]. lia.
    + rewrite filter_cons_False by naive_solver. cbn [length]. lia.
  - specialize (Hother Hne). destruct (submission_check windows key' now) as [d windows'].
    cbn [snd] in Hother. rewrite <- Hother in Hw. specialize (IH windows' c Hw Hc Hin').
    destruct (submission_run windows' requests) as [ds windows'']. cbn [fst] in *.
    unfold allowed_for, requests_for in *. cbn [zip zip_with].
    rewrite (filter_cons_False (λ '(k, _), k = key)), filter_cons_False by naive_solver. done.
Qed.

Lemma retry_after_reaches s now W :
  s ≤ now → 0 ≤ W →
  window_has_expired s (now + seconds (retry_after_seconds s now W)) W = true.
Proof.
  intros Hle HW. unfold window_has_expired, retry_after_seconds, whole_seconds, seconds,
    saturating_sub, NANOS_PER_SEC.
  rewrite (Z.quot_div_nonneg (now - s)) by lia.
  assert (0 ≤ (now - s) / 1000000000) as He by (apply Z.div_pos; lia).
  rewrite (proj2 (Z.ltb_ge ((now - s) / 1000000000) 0)) by lia.
  set (e := (now - s) / 1000000000) in *. set (r := Z.max 0 (W - e)).
  replace (now + r * 1000000000 - s) with ((now - s) + r * 1000000000) by lia.
  rewrite Z.quot_div_nonneg, Z.div_add by lia. fold e.
  rewrite (proj2 (Z.ltb_ge (e + r) 0)) by lia. apply Z.eqb_eq. lia.
Qed.

(** A rejected client that waits as long as it is told gets through: the
    advice is positive, at most one window, and the next request after it is
    allowed. *)
Theorem submission_retry_after_sufficient windows key now d windows' r :
  submission_check windows key now = (d, windows') → allowed d = false →
  retry_after d = Some r → (∀ w, windows !! key = Some w → win_started_at w ≤ now) →
  0 < sub_max_requests config → 0 < sub_window_seconds config →
  0 < r ≤ sub_window_seconds config
  ∧ allowed (submission_check windows' key (now + seconds r)).1 = true.
Proof.
  intros Hc Hd Hr Hs Hmax HW. unfold submission_check in Hc.
  destruct (sub_enabled config) eqn:He; cbn [negb] in Hc; [|by injection Hc as <- <-].
  set (w := current_window windows key now) in *.
  destruct (win_count w <? sub_max_requests config) eqn:Hlt; injection Hc as <- <-; [done|].
  injection Hr as <-. props.
  assert (window_has_expired (win_started_at w) now (sub_window_seconds config) = false
          ∧ win_started_at w ≤ now) as [Hx Hst].
  { unfold w, current_window in *. destruct (windows !! key) as [w0|] eqn:Hw0; cbn in *.
    - destruct (window_has_expired (win_started_at w0) now _) eqn:Hx; cbn in *; [lia|].
      split; [done|]. by apply Hs.
    - destruct (window_has_expired now now _) eqn:Hx; cbn in *; lia. }
  split.
  - unfold window_has_expired, retry_after_seconds, saturating_sub in *. props.
    destruct (_ <? 0) eqn:Hneg; props; lia.
  - unfold submission_check, current_window. rewrite He, lookup_insert_eq. cbn [negb default].
    rewrite retry_after_reaches by lia. cbn. by rewrite (proj2 (Z.ltb_lt 0 _) Hmax).
Qed.

End submission.

(** * Paykit connection lookups *)

Record LookupRateLimitConfig := MkLookupConfig {
  look_max_requests : Z;
  look_window_seconds : Z;
  look_max_in_flight : Z;
  look_max_entries : Z;
  look_global_requests_per_second : Z;
  look_global_burst : Z;
}.

(** [Instant]s are nanosecond readings of the monotonic clock. *)
Record TokenBucketState := MkBucket { tb_tokens : Z; tb_remainder : Z; tb_last : Z }.

Definition U128_MAX : Z := 2 ^ 128 - 1.
Definition saturating_mul (max a b : Z) : Z := Z.min max (a * b).

Definition refill_token_bucket (b : TokenBucketState) (now rate_per_second burst : Z) :
    TokenBucketState :=
  let elapsed_nanos := Z.max 0 (now - tb_last b) in
  if tb_tokens b =? burst then MkBucket (tb_tokens b) 0 now
  else
    let accrued := saturating_add U128_MAX (saturating_mul U128_MAX elapsed_nanos rate_per_second)
                     (tb_remainder b) in
    let added := accrued / 1000000000 in
    let tokens := Z.min (saturating_add U64_MAX (tb_tokens b)
                           (if added <=? U64_MAX then added else U64_MAX)) burst in
    MkBucket tokens (if tokens =? burst then 0 else accrued mod 1000000000) now.

(** ** The token bucket *)

Record bucket_ok (burst : Z) (b : TokenBucketState) : Prop := {
  bo_tokens : 0 ≤ tb_tokens b ≤ burst;
  bo_remainder : 0 ≤ tb_remainder b < 1000000000;
}.

(** Tokens and fractional credit, in nano-tokens. *)
Definition credit (b : TokenBucketState) : Z := tb_tokens b * 1000000000 + tb_remainder b.

Lemma refill_token_bucket_bound b now rate burst :
  bucket_ok burst b → tb_last b ≤ now → 0 ≤ rate → burst ≤ U64_MAX →
  let b' := refill_token_bucket b now rate burst in
  bucket_ok burst b' ∧ tb_last b' = now ∧ credit b' ≤ credit b + rate * (now - tb_last b).
Proof.
  intros [Ht Hr] Hle Hrate Hburst. cbv zeta. unfold refill_token_bucket.
  destruct (Z.eqb_spec (tb_tokens b) burst) as [Hfull|Hfull].
  { unfold credit. cbn. split_and!; [split; cbn; lia|done|nia]. }
  set (accrued := saturating_add U128_MAX _ _).
  assert (0 ≤ accrued ≤ rate * (now - tb_last b) + tb_remainder b) as Hacc.
  { unfold accrued, saturating_add, saturating_mul. rewrite Z.max_r by lia.
    assert (0 ≤ (now - tb_last b) * rate) by nia. unfold U128_MAX. lia. }
  pose proof (Z.div_mod accrued 1000000000) as Hdm.
  pose proof (Z.mod_pos_bound accrued 1000000000) as Hmod.
  assert (0 ≤ accrued / 1000000000) as Hdiv by (apply Z.div_pos; lia).
  set (added := accrued / 1000000000) in *. set (m := accrued mod 1000000000) in *.
  set (capped := if added <=? U64_MAX then added else U64_MAX).
  assert (0 ≤ capped ≤ added) as Hcap.
  { unfold capped, U64_MAX in *. destruct (Z.leb_spec added (2 ^ 64 - 1)); lia. }
  set (tokens := Z.min (saturating_add U64_MAX (tb_tokens b) capped) burst).
  assert (0 ≤ tokens ≤ burst ∧ tokens ≤ tb_tokens b + added) as [Htok Hadd].
  { unfold tokens, saturating_add, U64_MAX in *. lia. }
  unfold credit. cbn. split_and!; [split; cbn; destruct (Z.eqb_spec tokens burst); lia|done|].
  destruct (Z.eqb_spec tokens burst); lia.
Qed.

(** An out-of-order clock reading moves the bucket's time back, so that an
    interval is credited twice: after a refill at ten seconds, a late reading of
    zero makes the next refill at ten seconds grant ten more tokens. *)
Theorem refill_credits_interval_twice :
  let b := MkBucket 0 0 (seconds 10) in
  let late := refill_token_bucket b 0 1 100 in
  refill_token_bucket b (seconds 10) 1 100 = b
  ∧ tb_tokens (refill_token_bucket late (seconds 10) 1 100) = 10.
Proof. split; reflexivity. Qed.

Record LookupState K `{Countable K} := MkLookupState {
  look_windows : gmap K WindowCounter;
  look_global : TokenBucketState;
}.
Arguments MkLookupState {K _ _}.
Arguments look_windows {K _ _}.
Arguments look_global {K _ _}.

Section lookup.
  Context `{Countable K} (config : LookupRateLimitConfig).

Definition lookup_new_at (now : Z) : LookupState K :=
  MkLookupState ∅ (MkBucket (look_global_burst config) 0 now).

Definition live_windows (windows : gmap K WindowCounter) (wall_now : OffsetDateTime) :
    gmap K WindowCounter :=
  filter (λ '(_, w), window_has_expired (win_started_at w) wall_now (look_window_seconds config)
                     = false) windows.

(** [iter.min()]. *)
Definition list_min (l : list Z) : option Z :=
  match l with [] => None | x :: l => Some (fold_left Z.min l x) end.

(** The part of [check] that makes room for a new key. *)
Definition admit_key (windows : gmap K WindowCounter) (key : K) (wall_now : OffsetDateTime) :
    result Z (gmap K WindowCounter) * gmap K WindowCounter :=
  if is_none (windows !! key) && (look_max_entries config <=? Z.of_nat (size windows)) then
    let retained := live_windows windows wall_now in
    if look_max_entries config <=? Z.of_nat (size retained) then
      (Err (default (look_window_seconds config)
              (list_min ((λ w, retry_after_seconds (win_started_at w) wall_now
                                 (look_window_seconds config)) <$> hash_values retained))),
       retained)
    else (Ok retained, retained)
  else (Ok windows, windows).

Definition lookup_check (state : LookupState K) (key : K) (wall_now : OffsetDateTime)
    (monotonic_now : Z) : RateLimitDecision * LookupState K :=
  let W := look_window_seconds config in
  match admit_key (look_windows state) key wall_now with
  | (Err retry, windows) =>
      (decision_rejected retry, MkLookupState windows (look_global state))
  | (Ok windows, _) =>
      let limited :=
        is_some_and (λ w, negb (window_has_expired (win_started_at w) wall_now W)
                          && (look_max_requests config <=? win_count w)) (windows !! key) in
      if limited then
        (decision_rejected
           (from_option (λ w, retry_after_seconds (win_started_at w) wall_now W) 0
              (windows !! key)),
         MkLookupState windows (look_global state))
      else
        let global := refill_token_bucket (look_global state) monotonic_now
                        (look_global_requests_per_second config) (look_global_burst config) in
        if tb_tokens global =? 0 then
          (decision_rejected 1, MkLookupState windows global)
        else
          let window := default (MkWindow wall_now 0) (windows !! key) in
          let window := if window_has_expired (win_started_at window) wall_now W
                        then MkWindow wall_now 0 else window in
          (decision_allowed,
           MkLookupState (<[key := MkWindow (win_started_at window) (win_count window + 1)]> windows)
             (MkBucket (tb_tokens global - 1) (tb_remainder global) (tb_last global)))
  end.

(** ** What the lookup limiter guarantees *)

Record lookup_ok (state : LookupState K) : Prop := {
  lo_bucket : bucket_ok (look_global_burst config) (look_global state);
  lo_entries : Z.of_nat (size (look_windows state)) ≤ look_max_entries config;
  lo_counts key w :
    look_windows state !! key = Some w → 0 ≤ win_count w ≤ look_max_requests config;
}.

(** Requests with their wall-clock and monotonic times. *)
Fixpoint lookup_run (state : LookupState K) (requests : list (K * (OffsetDateTime * Z))) :
    Z * LookupState K :=
  match requests with
  | [] => (0, state)
  | (key, (wall_now, monotonic_now)) :: rest =>
      let '(d, state') := lookup_check state key wall_now monotonic_now in
      let '(n, state'') := lookup_run state' rest in
      ((if allowed d then 1 else 0) + n, state'')
  end.

(** The monotonic readings do not run backwards. *)
Fixpoint monotone (t : Z) (requests : list (K * (OffsetDateTime * Z))) : Prop :=
  match requests with
  | [] => True
  | (_, (_, now)) :: rest => t ≤ now ∧ monotone now rest
  end.

Definition last_time (t : Z) (requests : list (K * (OffsetDateTime * Z))) : Z :=
  fold_left (λ _ r, r.2.2) requests t.

Lemma live_windows_subseteq windows wall_now : live_windows windows wall_now ⊆ windows.
Proof. apply map_filter_subseteq. Qed.

Lemma admit_key_windows windows key wall_now r windows' :
  admit_key windows key wall_now = (r, windows') →
  windows' ⊆ windows
  ∧ (r = Ok windows' ∨ ∃ retry, r = Err retry)
  ∧ (r = Ok windows' → Z.of_nat (size windows) ≤ look_max_entries config →
     windows' !! key = None → Z.of_nat (size windows') < look_max_entries config).
Proof.
  unfold admit_key. intros Ha. pose proof (live_windows_subseteq windows wall_now) as Hsub.
  destruct (is_none (windows !! key)) eqn:Hk; cbn [andb] in Ha.
  - destruct (Z.leb_spec (look_max_entries config) (Z.of_nat (size windows))).
    + destruct (Z.leb_spec (look_max_entries config)
                  (Z.of_nat (size (live_windows windows wall_now)))); injection Ha as <- <-.
      * split_and!; [done|right; by eexists|done].
      * split_and!; [done|by left|done].
    + injection Ha as <- <-. split_and!; [done|by left|done].
  - injection Ha as <- <-. split_and!; [done|by left|]. intros _ _ Hn. by rewrite Hn in Hk.
Qed.

Context (Hburst : 0 ≤ look_global_burst config ≤ U64_MAX).
Context (Hrate : 0 ≤ look_global_requests_per_second config).
Context (Hmax : 0 < look_max_requests config).

(** One request: the invariant is kept, and credit is spent when it is allowed. *)
Lemma lookup_check_ok state key wall_now now d state' :
  lookup_ok state → tb_last (look_global state) ≤ now →
  lookup_check state key wall_now now = (d, state') →
  lookup_ok state' ∧ tb_last (look_global state) ≤ tb_last (look_global state') ≤ now
  ∧ credit (look_global state') + (if allowed d then 1000000000 else 0)
    ≤ credit (look_global state)
      + look_global_requests_per_second config
        * (tb_last (look_global state') - tb_last (look_global state)).
Proof.
  intros [Hb Hsz Hcnt] Hle Hc. unfold lookup_check in Hc.
  destruct (admit_key _ _ _) as [r windows] eqn:Hadm.
  destruct (admit_key_windows _ _ _ _ _ Hadm) as (Hsub & Hr & Hroom).
  assert (Z.of_nat (size windows) ≤ look_max_entries config) as Hsz'.
  { apply map_subseteq_size in Hsub. lia. }
  assert (∀ k w, windows !! k = Some w → 0 ≤ win_count w ≤ look_max_requests config) as Hcnt'.
  { intros k w Hw. eapply Hcnt, lookup_weaken; done. }
  destruct Hr as [-> | [retry ->]].
  2: { injection Hc as <- <-. cbn. split_and!; [by split|lia|lia|lia]. }
  specialize (Hroom eq_refl Hsz).
  destruct (is_some_and _ (windows !! key)) eqn:Hlim.
  { injection Hc as <- <-. cbn. split_and!; [by split|lia|lia|lia]. }
  destruct (refill_token_bucket_bound (look_global state) now
    (look_global_requests_per_second config) (look_global_burst config)) as (Hb' & Hlast & Hcr);
    [done|done|done|lia|].
  set (g := refill_token_bucket _ _ _ _) in *.
  destruct (Z.eqb_spec (tb_tokens g) 0) as [H0|H0].
  { injection Hc as <- <-. cbn. rewrite Hlast. split_and!; [by split|lia|lia|lia]. }
  injection Hc as <- <-. cbn. destruct Hb' as [Htok Hrem]. rewrite Hlast. unfold credit in *. cbn.
  split_and!; [|lia|lia|lia]. split; cbn; [split; cbn; lia| |].
  - destruct (windows !! key) as [w|] eqn:Hw.
    + by rewrite map_size_insert_Some by (rewrite Hw; eauto).
    + rewrite map_size_insert_None by done. specialize (Hroom eq_refl). lia.
  - intros k w. rewrite lookup_insert_Some. intros [[_ <-]|[_ Hw]]; [|by eapply Hcnt'].
    cbn. destruct (windows !! key) as [w0|] eqn:Hw0; cbn in *.
    + pose proof (Hcnt' key w0 Hw0). destruct (window_has_expired _ _ _); cbn in *; [lia|]. lia.
    + destruct (window_has_expired _ _ _); cbn; lia.
Qed.

Lemma lookup_run_ok requests state t n state' :
  lookup_ok state → tb_last (look_global state) ≤ t → monotone t requests →
  lookup_run state requests = (n, state') →
  lookup_ok state'
  ∧ tb_last (look_global state) ≤ tb_last (look_global state') ≤ last_time t requests
  ∧ credit (look_global state') + n * 1000000000
    ≤ credit (look_global state)
      + look_global_requests_per_second config
        * (tb_last (look_global state') - tb_last (look_global state)).
Proof.
  revert state t n state'.
  induction requests as [|[key [wall now]] rest IH]; intros state t n state' Hok Ht Hm Hrun.
  { injection Hrun as <- <-. cbn. split_and!; [done|lia|done|lia]. }
  cbn in Hm, Hrun. destruct Hm as [Htn Hm].
  destruct (lookup_check state key wall now) as [d state1] eqn:Hc.
  destruct (lookup_run state1 rest) as [m state2] eqn:Hr. injection Hrun as <- <-.
  destruct (lookup_check_ok state key wall now d state1 Hok ltac:(lia) Hc) as (Hok1 & Hlast1 & Hcr1).
  destruct (IH state1 now m state2 Hok1 ltac:(lia) Hm Hr) as (Hok2 & Hlast2 & Hcr2).
  change (last_time t _) with (last_time now rest).
  split_and!; [done|lia|lia|]. destruct (allowed d); nia.
Qed.

(** Whatever the requests, from a fresh lookup limiter: as long as the
    monotonic clock does not run backwards, the limiter never holds more than
    [max_entries] windows, no window counts more than [max_requests] requests,
    and the number of requests let through is at most the burst plus the
    per-second rate times the time elapsed, fractional credit included. *)
Theorem lookup_limiter_bounds requests t0 n state :
  0 ≤ look_max_entries config → monotone t0 requests →
  lookup_run (lookup_new_at t0) requests = (n, state) →
  Z.of_nat (size (look_windows state)) ≤ look_max_entries config
  ∧ (∀ key w, look_windows state !! key = Some w → win_count w ≤ look_max_requests config)
  ∧ n * 1000000000 ≤ look_global_burst config * 1000000000
      + look_global_requests_per_second config * (last_time t0 requests - t0).
Proof.
  intros Hent Hm Hrun.
  assert (lookup_ok (lookup_new_at t0)) as Hok0.
  { split; cbn; [split; cbn; lia|by rewrite map_size_empty|by intros ? ?; rewrite lookup_empty]. }
  destruct (lookup_run_ok _ _ t0 _ _ Hok0 (Z.le_refl _) Hm Hrun) as (Hok & Hlast & Hcr).
  destruct Hok as [[Htok Hrem] Hsz Hcnt]. split_and!; [done| |].
  - intros key w Hw. by apply (Hcnt key).
  - unfold credit in Hcr. cbn in Hcr, Hlast. nia.
Qed.

End lookup.
