(* ===== verification/GraphTask.v ===== *)
(** Graph verification tasks: the durable snapshot, its observations and the
    reducer that decides them.

    [locks-service/src/application/models/graph0conf.rs] (snapshot, validation,
    recording of Nexus observations), [application/graph0conf_reducer.rs]
    (three-valued reduction) and the pure part of
    [locks-server/src/graph_worker.rs] (how the worker turns a Nexus answer into
    an observation and a retry time). *)

From S2P Require Import Prelude RustStr Externals Ids Json LockPolicy Wire Errors.

Definition GRAPH_TASK_SNAPSHOT_VERSION : Z := 1.

(** * Data *)

Inductive GraphObservationOutcome := OutcomeTrue | OutcomeFalse | OutcomeUnavailable.

Record GraphPredicateObservation := MkObservation {
  obs_outcome : GraphObservationOutcome;
  observed_at : OffsetDateTime;
  obs_origin : option string;
  obs_http_status : option Z;
}.

Inductive GraphOperationalErrorCategory :=
  | NexusRedirect | NexusRateLimited | NexusNonSuccess | NexusTimeout | NexusTransport.

Record GraphPredicateState := MkPredicateState {
  ps_predicate : GraphPredicateV2;
  ps_latest : option GraphPredicateObservation;
  ps_first_true : option GraphPredicateObservation;
  ps_next_due_at : option OffsetDateTime;
  ps_failure_count : Z;
  ps_failure_total : Z;
  ps_first_failure_at : option OffsetDateTime;
  ps_last_failure_at : option OffsetDateTime;
  ps_last_category : option GraphOperationalErrorCategory;
  ps_last_http_status : option Z;
  ps_terminal_invalid : bool;
}.

Inductive GraphDeadlineResult := DeadlineFalse | DeadlineUnavailable.

Inductive GraphRootState :=
  | GraphPending
  | GraphSatisfied
  | GraphExpired (r : GraphDeadlineResult)
  | GraphFailedInvalidResponse.

Record GraphTaskSnapshotV1 := MkGraphSnapshot {
  gs_schema_version : Z;
  gs_creator : CreatorPubky;
  gs_bundle_id : BundleId;
  gs_pubky_lock_resource : PubkyLockResource;
  gs_lock_hash : LockHash;
  gs_reader : CreatorPubky;
  gs_accepted_at : OffsetDateTime;
  gs_deadline_at : OffsetDateTime;
  gs_operator : option GraphOperatorV2;
  gs_predicates : list GraphPredicateState;
  gs_root : GraphRootState;
}.

#[global] Instance GraphObservationOutcome_eq_dec : EqDecision GraphObservationOutcome.
Proof. solve_decision. Defined.
#[global] Instance GraphPredicateObservation_eq_dec : EqDecision GraphPredicateObservation.
Proof. solve_decision. Defined.
#[global] Instance GraphOperationalErrorCategory_eq_dec : EqDecision GraphOperationalErrorCategory.
Proof. solve_decision. Defined.
#[global] Instance GraphPredicateState_eq_dec : EqDecision GraphPredicateState.
Proof. solve_decision. Defined.
#[global] Instance GraphDeadlineResult_eq_dec : EqDecision GraphDeadlineResult.
Proof. solve_decision. Defined.
#[global] Instance GraphRootState_eq_dec : EqDecision GraphRootState.
Proof. solve_decision. Defined.
#[global] Instance GraphTaskSnapshotV1_eq_dec : EqDecision GraphTaskSnapshotV1.
Proof. solve_decision. Defined.

(** Field updates. *)
Definition gs_with_predicates (s : GraphTaskSnapshotV1) (ps : list GraphPredicateState) :=
  MkGraphSnapshot (gs_schema_version s) (gs_creator s) (gs_bundle_id s)
    (gs_pubky_lock_resource s) (gs_lock_hash s) (gs_reader s) (gs_accepted_at s)
    (gs_deadline_at s) (gs_operator s) ps (gs_root s).

Definition gs_with_root (s : GraphTaskSnapshotV1) (r : GraphRootState) :=
  MkGraphSnapshot (gs_schema_version s) (gs_creator s) (gs_bundle_id s)
    (gs_pubky_lock_resource s) (gs_lock_hash s) (gs_reader s) (gs_accepted_at s)
    (gs_deadline_at s) (gs_operator s) (gs_predicates s) r.

(** * Root states *)

Definition GraphRootState_terminal_status (r : GraphRootState) : option VerificationTaskStatus :=
  match r with
  | GraphPending => None
  | GraphSatisfied => Some PublishingEntitlement
  | GraphExpired DeadlineFalse => Some Expired
  | GraphExpired DeadlineUnavailable | GraphFailedInvalidResponse => Some Failed
  end.

Definition GraphRootState_terminal_reason (r : GraphRootState) :
    option VerificationTerminalReason :=
  match r with
  | GraphPending | GraphSatisfied => None
  | GraphExpired DeadlineFalse => Some GraphConditionNotObservedByDeadline
  | GraphExpired DeadlineUnavailable => Some VerificationUnavailableByDeadline
  | GraphFailedInvalidResponse => Some InvalidVerifierResponse
  end.

(** * Predicate states *)

Definition GraphPredicateState_new (p : GraphPredicateV2) : GraphPredicateState :=
  MkPredicateState p None None None 0 0 None None None None false.

(** [[a.as_ref(), b.as_ref()].into_iter().flatten()]. *)
Definition stored_observations (st : GraphPredicateState) : list GraphPredicateObservation :=
  option_list (ps_latest st) ++ option_list (ps_first_true st).

Definition GraphPredicateState_validate (st : GraphPredicateState)
    (accepted_at deadline_at : OffsetDateTime) : result string () :=
  _ ← try_for_each
        (λ o,
           _ ← reject_if ((observed_at o <? accepted_at) || (deadline_at <? observed_at o))
                 "stored graph observation falls outside task window";
           _ ← reject_if (is_some_and (λ origin, trim origin == "") (obs_origin o))
                 "stored Nexus observation origin is empty";
           reject_if (is_some (obs_http_status o) && is_none (obs_origin o))
             "stored Nexus HTTP status lacks origin")
        (stored_observations st);
  _ ← (if ps_failure_total st =? 0 then
         reject_if (negb (ps_failure_count st =? 0)
                    || is_some (ps_first_failure_at st) || is_some (ps_last_failure_at st)
                    || is_some (ps_last_category st) || is_some (ps_last_http_status st))
           "graph operational error aggregate is inconsistent"
       else
         match ps_first_failure_at st, ps_last_failure_at st, ps_last_category st with
         | Some first, Some last, Some _ =>
             reject_if ((ps_failure_total st <? ps_failure_count st)
                        || (first <? accepted_at) || (deadline_at <? last) || (last <? first))
               "graph operational error aggregate is invalid"
         | _, _, _ => Err "graph operational error aggregate is incomplete"
         end);
  _ ← (if ps_terminal_invalid st then
         let valid_terminal_evidence :=
           is_some_and
             (λ latest,
                (obs_outcome latest == OutcomeUnavailable)
                && is_some_and (λ origin, negb (trim origin == "")) (obs_origin latest)
                && is_some (obs_http_status latest))
             (ps_latest st) in
         reject_if (negb valid_terminal_evidence || is_some (ps_first_true st)
                    || is_some (ps_next_due_at st) || negb (ps_failure_count st =? 0))
           "terminal-invalid graph predicate lacks matching unavailable Nexus evidence"
       else Ok ());
  _ ← reject_if (is_some_and (λ o, obs_outcome o != OutcomeTrue) (ps_first_true st))
        "sticky graph observation is not true";
  _ ← reject_if
        (is_some_and (λ o, (obs_outcome o == OutcomeTrue) && is_none (ps_first_true st))
           (ps_latest st))
        "latest true graph observation lacks sticky evidence";
  _ ← match ps_first_true st with
      | Some first_true =>
          match ps_latest st with
          | None => Err "sticky true graph observation lacks latest evidence"
          | Some latest =>
              reject_if
                ((observed_at latest <? observed_at first_true)
                 || ((observed_at first_true =? observed_at latest)
                     && (obs_outcome first_true != obs_outcome latest)))
                "sticky true graph observation diverges from latest evidence"
          end
      | None => Ok ()
      end;
  reject_if (is_some_and (λ due, deadline_at <? due) (ps_next_due_at st))
    "graph predicate next due time exceeds task deadline".

(** * Terminal root of the recorded observations *)

Inductive TerminalPredicateTruth := TTrue | TFalse | TUnavailable | TInvalid.

#[global] Instance TerminalPredicateTruth_eq_dec : EqDecision TerminalPredicateTruth.
Proof. solve_decision. Defined.

Definition terminal_value (st : GraphPredicateState) : TerminalPredicateTruth :=
  if is_some (ps_first_true st) then TTrue
  else if ps_terminal_invalid st then TInvalid
  else match obs_outcome <$> ps_latest st with
       | Some OutcomeTrue => TTrue
       | Some OutcomeUnavailable => TUnavailable
       | Some OutcomeFalse | None => TFalse
       end.

(** [values.contains(&x)]. *)
Definition has {A} `{EqDecision A} (x : A) (values : list A) : bool :=
  bool_decide (x ∈ values).

(** [values[0]] is only reached on validated, hence non-empty, predicate lists. *)
Definition terminal_truth (operator : option GraphOperatorV2)
    (values : list TerminalPredicateTruth) : TerminalPredicateTruth :=
  match operator with
  | None => default TFalse (head values)
  | Some And =>
      if has TFalse values then TFalse
      else if has TInvalid values then TInvalid
      else if has TUnavailable values then TUnavailable
      else TTrue
  | Some Or =>
      if has TTrue values then TTrue
      else if has TInvalid values then TInvalid
      else if has TUnavailable values then TUnavailable
      else TFalse
  end.

Definition root_of_truth (truth : TerminalPredicateTruth) : GraphRootState :=
  match truth with
  | TTrue => GraphSatisfied
  | TFalse => GraphExpired DeadlineFalse
  | TUnavailable => GraphExpired DeadlineUnavailable
  | TInvalid => GraphFailedInvalidResponse
  end.

Definition terminal_root_from_observations (s : GraphTaskSnapshotV1) : GraphRootState :=
  root_of_truth (terminal_truth (gs_operator s) (terminal_value <$> gs_predicates s)).

(** * Snapshots *)

Section snapshots.
  Context `{Base32, TimeCrate}.

(** Every check of [validate] before the one on the root. *)
Definition validate_graph_binding (s : GraphTaskSnapshotV1) : result string () :=
  _ ← reject_if (negb (gs_schema_version s =? GRAPH_TASK_SNAPSHOT_VERSION))
        "unsupported graph task snapshot schema_version";
  _ ← reject_if (gs_deadline_at s <? gs_accepted_at s) "graph task deadline precedes acceptance";
  _ ← reject_if (negb (is_multiple_of (nanosecond (gs_accepted_at s)) 1000)
                 || negb (is_multiple_of (nanosecond (gs_deadline_at s)) 1000))
        "graph task acceptance and deadline must use microsecond precision";
  let window := gs_deadline_at s - gs_accepted_at s in
  _ ← reject_if (negb (in_range 60 604800 (whole_seconds window))
                 || negb (window =? seconds (whole_seconds window)))
        "graph task verification window must be whole seconds in 60..=604800";
  _ ← reject_if (resource_creator (gs_pubky_lock_resource s) != gs_creator s)
        "graph task creator diverges from lock resource";
  _ ← reject_if (resource_lock_id (gs_pubky_lock_resource s) != LockId_from_hash (gs_lock_hash s))
        "graph task lock hash diverges from lock resource";
  let n := Z.of_nat (length (gs_predicates s)) in
  _ ← reject_if (negb (in_range 1 8 n)) "graph task must contain 1..=8 predicates";
  _ ← reject_if (negb (eqb (n =? 1) (is_none (gs_operator s))))
        "graph task operator does not match predicate cardinality";
  _ ← reject_if
        (negb (length (remove_dups (ps_predicate <$> gs_predicates s))
               =? length (gs_predicates s))%nat)
        "graph task contains duplicate predicates";
  try_for_each (λ st, GraphPredicateState_validate st (gs_accepted_at s) (gs_deadline_at s))
    (gs_predicates s).

Definition GraphTaskSnapshotV1_validate (s : GraphTaskSnapshotV1) : result string () :=
  _ ← validate_graph_binding s;
  reject_if ((gs_root s != GraphPending) && (gs_root s != terminal_root_from_observations s))
    "graph task terminal root diverges from observations".

Definition GraphTaskSnapshotV1_new (creator : CreatorPubky) (bundle_id : BundleId)
    (pubky_lock_resource : PubkyLockResource) (hash : LockHash) (reader : CreatorPubky)
    (accepted_at : OffsetDateTime) (verification_window_seconds : Z) (graph : GraphPolicyV2) :
    result string GraphTaskSnapshotV1 :=
  _ ← reject_if (negb (in_range 60 604800 verification_window_seconds))
        "verification window must be in 60..=604800 seconds";
  window ← ok_or (if verification_window_seconds <=? I64_MAX
                  then Some verification_window_seconds else None)
             "verification window exceeds supported duration";
  deadline_at ← ok_or (time_checked_add accepted_at (seconds window))
                  "verification deadline overflow";
  let snapshot :=
    MkGraphSnapshot GRAPH_TASK_SNAPSHOT_VERSION creator bundle_id pubky_lock_resource hash
      reader accepted_at deadline_at (gp_operator graph)
      (GraphPredicateState_new <$> gp_predicates graph) GraphPending in
  _ ← GraphTaskSnapshotV1_validate snapshot;
  Ok snapshot.

Definition with_observation (st : GraphPredicateState) (o : GraphPredicateObservation) :
    GraphPredicateState :=
  MkPredicateState (ps_predicate st) (Some o)
    (if (obs_outcome o == OutcomeTrue) && is_none (ps_first_true st)
     then Some o else ps_first_true st)
    (ps_next_due_at st) (ps_failure_count st) (ps_failure_total st) (ps_first_failure_at st)
    (ps_last_failure_at st) (ps_last_category st) (ps_last_http_status st)
    (ps_terminal_invalid st).

Definition record_observation (s : GraphTaskSnapshotV1) (predicate_index : nat)
    (outcome : GraphObservationOutcome) (at_ : OffsetDateTime) :
    result string GraphTaskSnapshotV1 :=
  _ ← GraphTaskSnapshotV1_validate s;
  _ ← reject_if (gs_root s != GraphPending)
        "terminal graph task snapshot cannot accept observations";
  _ ← reject_if ((at_ <? gs_accepted_at s) || (gs_deadline_at s <? at_))
        "graph observation falls outside accepted task window";
  predicate ← ok_or (gs_predicates s !! predicate_index)
                "graph predicate index is out of bounds";
  _ ← reject_if (is_some_and (λ latest, at_ <? observed_at latest) (ps_latest predicate))
        "graph observation precedes latest observation";
  let o := MkObservation outcome at_ None None in
  let next := gs_with_predicates s (<[predicate_index := with_observation predicate o]>
                                      (gs_predicates s)) in
  _ ← GraphTaskSnapshotV1_validate next;
  Ok next.

(** The predicate state [record_nexus_observation] stores, on top of the one
    [record_observation] left. *)
Definition nexus_predicate (st : GraphPredicateState) (o : GraphPredicateObservation)
    (category : option GraphOperationalErrorCategory) (next_due_at : option OffsetDateTime)
    (failure_count total : Z) : GraphPredicateState :=
  MkPredicateState (ps_predicate st) (Some o)
    (if obs_outcome o == OutcomeTrue then Some o else ps_first_true st)
    next_due_at failure_count total
    (if is_some category then get_or_insert (ps_first_failure_at st) (observed_at o)
     else ps_first_failure_at st)
    (if is_some category then Some (observed_at o) else ps_last_failure_at st)
    (if is_some category then category else ps_last_category st)
    (if is_some category then obs_http_status o else ps_last_http_status st)
    (ps_terminal_invalid st).

Definition record_nexus_observation (s : GraphTaskSnapshotV1) (predicate_index : nat)
    (outcome : GraphObservationOutcome) (at_ : OffsetDateTime) (origin : string)
    (http_status : option Z) (operational_category : option GraphOperationalErrorCategory)
    (next_due_at : option OffsetDateTime) (operational_failure_count : Z) :
    result string GraphTaskSnapshotV1 :=
  next ← record_observation s predicate_index outcome at_;
  predicate ← ok_or (gs_predicates next !! predicate_index)
                "graph predicate index is out of bounds";
  latest ← ok_or (ps_latest predicate) "graph predicate observation was not recorded";
  let o := MkObservation (obs_outcome latest) (observed_at latest) (Some origin) http_status in
  total ← match operational_category with
          | Some _ =>
              _ ← reject_if (outcome != OutcomeUnavailable)
                    "operational Nexus error must be dependency unavailable";
              ok_or (checked_add U32_MAX (ps_failure_total predicate) 1)
                "operational Nexus error total overflow"
          | None =>
              _ ← reject_if (negb (operational_failure_count =? 0))
                    "operational Nexus error count lacks normalized category";
              Ok (ps_failure_total predicate)
          end;
  let next := gs_with_predicates next
    (<[predicate_index :=
         nexus_predicate predicate o operational_category next_due_at
           operational_failure_count total]> (gs_predicates next)) in
  _ ← GraphTaskSnapshotV1_validate next;
  Ok next.

Definition with_terminal_invalid (st : GraphPredicateState) : GraphPredicateState :=
  MkPredicateState (ps_predicate st) (ps_latest st) (ps_first_true st) (ps_next_due_at st)
    (ps_failure_count st) (ps_failure_total st) (ps_first_failure_at st)
    (ps_last_failure_at st) (ps_last_category st) (ps_last_http_status st) true.

Definition terminalize_invalid_nexus_response (s : GraphTaskSnapshotV1) (predicate_index : nat)
    (at_ : OffsetDateTime) (origin : string) (http_status : option Z) :
    result string GraphTaskSnapshotV1 :=
  next ← record_nexus_observation s predicate_index OutcomeUnavailable at_ origin http_status
           None None 0;
  let next := gs_with_predicates next
                (alter with_terminal_invalid predicate_index (gs_predicates next)) in
  _ ← GraphTaskSnapshotV1_validate next;
  Ok next.

(** ** Replacement of a stored snapshot *)

Definition predicate_progress (current next : GraphPredicateState) : result string () :=
  _ ← reject_if (ps_terminal_invalid current && negb (ps_terminal_invalid next))
        "graph snapshot replacement cleared terminal-invalid state";
  _ ← reject_if (is_some (ps_first_true current)
                 && (ps_first_true current != ps_first_true next))
        "graph snapshot replacement changed sticky true evidence";
  _ ← match ps_latest current, ps_latest next with
      | Some _, None => Err "graph snapshot replacement erased latest observation"
      | Some c, Some n =>
          _ ← reject_if (observed_at n <? observed_at c)
                "graph snapshot replacement regressed observation time";
          reject_if ((observed_at n =? observed_at c) && (n != c))
            "graph snapshot replacement changed equal-time observation"
      | None, _ => Ok ()
      end;
  reject_if (is_none (ps_first_true current) && is_some (ps_first_true next)
             && (ps_first_true next != ps_latest next))
    "sticky true evidence must originate from the latest observation transition".

Definition validate_graph_progress_from (next current : GraphTaskSnapshotV1) :
    result string () :=
  _ ← GraphTaskSnapshotV1_validate current;
  _ ← GraphTaskSnapshotV1_validate next;
  _ ← reject_if (gs_root current != GraphPending)
        "terminal graph task snapshot cannot be replaced";
  _ ← reject_if ((ps_predicate <$> gs_predicates current)
                 != (ps_predicate <$> gs_predicates next))
        "graph snapshot replacement changed predicate shape";
  try_for_each (λ '(c, n), predicate_progress c n)
    (zip (gs_predicates current) (gs_predicates next)).

Definition validate_graph_pristine_admission (s : GraphTaskSnapshotV1) : result string () :=
  _ ← GraphTaskSnapshotV1_validate s;
  reject_if ((gs_root s != GraphPending)
             || existsb (λ st, is_some (ps_latest st) || is_some (ps_first_true st)
                               || is_some (ps_next_due_at st)
                               || negb (ps_failure_count st =? 0) || ps_terminal_invalid st)
                  (gs_predicates s))
    "new graph task snapshot must be pristine and pending".

Definition validate_observations_not_after (s : GraphTaskSnapshotV1)
    (evaluation_time : OffsetDateTime) : result string () :=
  reject_if
    (existsb (λ st, existsb (λ o, evaluation_time <? observed_at o) (stored_observations st))
       (gs_predicates s))
    "graph observation is later than evaluation time".

(** * The reducer *)

Inductive PredicateTruth := PTrue | PFalse | PUnavailable | PUnknown | PInvalid.

#[global] Instance PredicateTruth_eq_dec : EqDecision PredicateTruth.
Proof. solve_decision. Defined.

Definition predicate_value (deadline_reached : bool) (st : GraphPredicateState) :
    PredicateTruth :=
  if is_some (ps_first_true st) then PTrue
  else if ps_terminal_invalid st then PInvalid
  else match obs_outcome <$> ps_latest st with
       | Some OutcomeTrue => PTrue
       | Some OutcomeFalse => if deadline_reached then PFalse else PUnknown
       | Some OutcomeUnavailable => if deadline_reached then PUnavailable else PUnknown
       | None => if deadline_reached then PFalse else PUnknown
       end.

Definition reduced_truth (operator : option GraphOperatorV2) (deadline_reached : bool)
    (values : list PredicateTruth) : PredicateTruth :=
  match operator with
  | None => default PUnknown (head values)
  | Some And =>
      if has PFalse values then PFalse
      else if has PUnknown values then PUnknown
      else if has PInvalid values then PInvalid
      else if has PUnavailable values then PUnavailable
      else PTrue
  | Some Or =>
      if has PTrue values then PTrue
      else if has PUnknown values then PUnknown
      else if has PInvalid values then PInvalid
      else if has PUnavailable values && deadline_reached then PUnavailable
      else PFalse
  end.

Definition next_graph_root (deadline_reached : bool) (truth : PredicateTruth) : GraphRootState :=
  match truth with
  | PTrue => GraphSatisfied
  | PFalse => if deadline_reached then GraphExpired DeadlineFalse else GraphPending
  | PUnavailable => if deadline_reached then GraphExpired DeadlineUnavailable else GraphPending
  | PInvalid => GraphFailedInvalidResponse
  | PUnknown => GraphPending
  end.

Definition reduce_graph_snapshot (s : GraphTaskSnapshotV1) (now : OffsetDateTime) :
    result string GraphTaskSnapshotV1 :=
  _ ← GraphTaskSnapshotV1_validate s;
  _ ← validate_observations_not_after s now;
  if gs_root s != GraphPending then Ok s
  else
    let deadline_reached := gs_deadline_at s <=? now in
    let values := predicate_value deadline_reached <$> gs_predicates s in
    let truth := reduced_truth (gs_operator s) deadline_reached values in
    let next := gs_with_root s (next_graph_root deadline_reached truth) in
    _ ← GraphTaskSnapshotV1_validate next;
    Ok next.

(** * What the reducer decides *)

(** The values a predicate may still end with when its deadline comes: sticky
    evidence and an invalid verifier answer are final, everything else is open. *)
Definition possible_final (st : GraphPredicateState) (v : TerminalPredicateTruth) : Prop :=
  if is_some (ps_first_true st) then v = TTrue
  else if ps_terminal_invalid st then v = TInvalid
  else True.

(** [r] is the terminal root whatever happens until the deadline. *)
Definition forced_root (s : GraphTaskSnapshotV1) (r : GraphRootState) : Prop :=
  ∀ vs, Forall2 possible_final (gs_predicates s) vs →
        root_of_truth (terminal_truth (gs_operator s) vs) = r.

Lemma has_true {A} `{EqDecision A} (x : A) xs : has x xs = true ↔ x ∈ xs.
Proof. apply bool_decide_eq_true. Qed.
Lemma has_false {A} `{EqDecision A} (x : A) xs : has x xs = false ↔ x ∉ xs.
Proof. apply bool_decide_eq_false. Qed.

Lemma root_of_truth_not_pending v : root_of_truth v ≠ GraphPending.
Proof. by destruct v. Qed.

Lemma graph_validate_Ok s :
  GraphTaskSnapshotV1_validate s = Ok () ↔
  validate_graph_binding s = Ok ()
  ∧ (gs_root s = GraphPending ∨ gs_root s = terminal_root_from_observations s).
Proof.
  unfold GraphTaskSnapshotV1_validate. rewrite bind_Ok. setoid_rewrite reject_if_Ok.
  setoid_rewrite andb_false_iff. setoid_rewrite negb_false_iff. setoid_rewrite eqb_true.
  split; [intros ([] & ? & ?); done | intros [? ?]; by exists ()].
Qed.

(** The facts about a valid snapshot the proofs below rest on. *)
Lemma graph_binding_shape s :
  validate_graph_binding s = Ok () →
  gs_predicates s ≠ [] ∧ (gs_operator s = None ↔ length (gs_predicates s) = 1%nat)
  ∧ Forall (λ st, GraphPredicateState_validate st (gs_accepted_at s) (gs_deadline_at s) = Ok ())
      (gs_predicates s).
Proof.
  unfold validate_graph_binding. intros Hv. peel. props. split_and!; [| |done].
  - intros Hnil. rewrite Hnil in *. cbn in *. lia.
  - rewrite <- is_none_true.
    match goal with Hop : (_ =? 1) = is_none _ |- _ => rewrite <- Hop end. lia.
Qed.

(** A stored latest [true] comes with sticky evidence, so the value of a valid
    predicate is final exactly when it is sticky or invalid. *)
Lemma valid_latest_true st a d :
  GraphPredicateState_validate st a d = Ok () → ps_first_true st = None →
  obs_outcome <$> ps_latest st ≠ Some OutcomeTrue.
Proof.
  unfold GraphPredicateState_validate. intros Hv Hft Hlatest. rewrite Hft in Hv.
  destruct (ps_latest st) as [o|]; [|done]. cbn in Hlatest. injection Hlatest as Ho.
  peel. match goal with Hx : is_some_and _ (Some o) = false |- _ => cbn in Hx; rewrite Ho in Hx end.
  done.
Qed.

Lemma terminal_value_possible st : possible_final st (terminal_value st).
Proof. unfold possible_final, terminal_value. by repeat case_match. Qed.

Lemma terminal_values_possible ps : Forall2 possible_final ps (terminal_value <$> ps).
Proof.
  induction ps; cbn; constructor; auto using terminal_value_possible.
Qed.

(** Before the deadline a valid predicate reads as its only possible final
    value, or as unknown when it has several. *)
Lemma predicate_value_early st a d :
  GraphPredicateState_validate st a d = Ok () →
  (predicate_value false st = PTrue ∧ (∀ v, possible_final st v ↔ v = TTrue))
  ∨ (predicate_value false st = PInvalid ∧ (∀ v, possible_final st v ↔ v = TInvalid))
  ∨ (predicate_value false st = PUnknown ∧ (∀ v, possible_final st v)).
Proof.
  intros Hv. pose proof (valid_latest_true _ _ _ Hv) as Hlt.
  unfold predicate_value, possible_final.
  destruct (ps_first_true st); cbn; [left; done|].
  destruct (ps_terminal_invalid st); [right; left; done|].
  right; right. destruct (obs_outcome <$> ps_latest st) as [[]|]; naive_solver.
Qed.

Definition early_possible (p : PredicateTruth) (v : TerminalPredicateTruth) : Prop :=
  match p with PTrue => v = TTrue | PInvalid => v = TInvalid | _ => True end.

Definition early_value (p : PredicateTruth) : Prop := p = PTrue ∨ p = PInvalid ∨ p = PUnknown.

(** The completion that gives every open predicate the value [u]. *)
Definition fill (u : TerminalPredicateTruth) (p : PredicateTruth) : TerminalPredicateTruth :=
  match p with PTrue => TTrue | PInvalid => TInvalid | _ => u end.

Lemma fill_possible u ps : Forall2 early_possible ps (fill u <$> ps).
Proof. induction ps as [|[] ps IH]; cbn; constructor; done. Qed.

Lemma elem_of_fill u ps v :
  Forall early_value ps →
  v ∈ fill u <$> ps ↔
  (v = TTrue ∧ PTrue ∈ ps) ∨ (v = TInvalid ∧ PInvalid ∈ ps) ∨ (v = u ∧ PUnknown ∈ ps).
Proof.
  rewrite Forall_forall. intros Hps. rewrite list_elem_of_fmap. split.
  - intros (p & -> & Hp). destruct (Hps p Hp) as [-> | [-> | ->]]; cbn; auto.
  - intros [[-> Hp] | [[-> Hp] | [-> Hp]]]; (eexists; split; [|exact Hp]; done).
Qed.

(** Without open predicates the completion is unique. *)
Lemma closed_completion ps vs :
  Forall early_value ps → PUnknown ∉ ps → Forall2 early_possible ps vs →
  vs = fill TTrue <$> ps.
Proof.
  intros Hps Hun Hvs. induction Hvs as [|p v ps vs Hpv Hvs IH]; cbn; [done|].
  apply Forall_cons in Hps as [Hp Hps]. apply not_elem_of_cons in Hun as [Hp' Hun].
  f_equal; [|auto]. destruct Hp as [-> | [-> | ->]]; cbn in *; done.
Qed.

Lemma sticky_completion ps vs :
  Forall2 early_possible ps vs → PTrue ∈ ps → TTrue ∈ vs.
Proof.
  induction 1 as [|p v ps vs Hpv Hvs IH]; [by rewrite elem_of_nil|].
  intros [<- | Hp]%elem_of_cons; [cbn in Hpv; subst; left | right; auto].
Qed.

Lemma singleton_completion p vs :
  Forall2 early_possible [p] vs → ∃ v, vs = [v] ∧ early_possible p v.
Proof.
  intros Hvs. apply Forall2_cons_inv_l in Hvs as (v & vs' & Hv & Hvs & ->).
  apply Forall2_nil_inv_l in Hvs as ->. eauto.
Qed.

Section early_decision.
Context (ps : list PredicateTruth) (Hps : Forall early_value ps) (Hne : ps ≠ []).

Lemma early_no_deadline_values : has PFalse ps = false ∧ has PUnavailable ps = false.
Proof.
  split; apply has_false; intros Hin; apply (proj1 (Forall_forall _ _) Hps) in Hin;
    destruct Hin; naive_solver.
Qed.

Lemma singleton_of_length {A} {op : option A} (o : op = None) :
  (op = None ↔ length ps = 1%nat) → ∃ p, ps = [p] ∧ early_value p.
Proof.
  intros Hop. apply Hop in o. destruct ps as [|p [|]]; try done.
  exists p. by apply Forall_cons in Hps as [? _].
Qed.

Lemma early_and_forced vs :
  next_graph_root false (reduced_truth (Some And) false ps) ≠ GraphPending →
  Forall2 early_possible ps vs →
  root_of_truth (terminal_truth (Some And) vs)
  = next_graph_root false (reduced_truth (Some And) false ps).
Proof.
  cbn. intros Hr Hvs.
  destruct early_no_deadline_values as [Hf Hu]. rewrite Hf, Hu in *.
  destruct (has PUnknown ps) eqn:Hun; [done|]. apply has_false in Hun.
  rewrite (closed_completion ps vs) by done.
  rewrite (proj2 (has_false TFalse _)) by (rewrite elem_of_fill by done; naive_solver).
  destruct (has PInvalid ps) eqn:Hi; props.
  - apply has_true in Hi. rewrite (proj2 (has_true TInvalid _)); [done|].
    rewrite elem_of_fill by done. auto.
  - apply has_false in Hi. rewrite !(proj2 (has_false _ _)); [done| |];
      rewrite elem_of_fill by done; naive_solver.
Qed.

Lemma early_or_forced vs :
  next_graph_root false (reduced_truth (Some Or) false ps) ≠ GraphPending →
  Forall2 early_possible ps vs →
  root_of_truth (terminal_truth (Some Or) vs)
  = next_graph_root false (reduced_truth (Some Or) false ps).
Proof.
  cbn. intros Hr Hvs. destruct (has PTrue ps) eqn:Ht.
  { apply has_true in Ht. rewrite (proj2 (has_true TTrue _)); [done|].
    by eapply sticky_completion. }
  apply has_false in Ht. destruct (has PUnknown ps) eqn:Hun; [done|]. apply has_false in Hun.
  destruct (has PInvalid ps) eqn:Hi.
  - apply has_true in Hi. rewrite (closed_completion ps vs) by done.
    rewrite (proj2 (has_false TTrue _)) by (rewrite elem_of_fill by done; naive_solver).
    rewrite (proj2 (has_true TInvalid _)); [done|]. rewrite elem_of_fill by done. auto.
  - rewrite andb_false_r in Hr. done.
Qed.

Lemma early_pending_open op :
  (op = None ↔ length ps = 1%nat) →
  next_graph_root false (reduced_truth op false ps) = GraphPending →
  root_of_truth (terminal_truth op (fill TTrue <$> ps))
  ≠ root_of_truth (terminal_truth op (fill TFalse <$> ps)).
Proof.
  intros Hop Hr. destruct op as [[]|]; cbn in Hr |- *.
  - assert (PUnknown ∈ ps) as Hun.
    { apply has_true. destruct (has PUnknown ps); [done|].
      destruct early_no_deadline_values as [Hf Hu]. rewrite Hf, Hu in Hr.
      by destruct (has PInvalid ps). }
    rewrite (proj2 (has_true TFalse (fill TFalse <$> ps)))
      by (rewrite elem_of_fill by done; auto).
    rewrite (proj2 (has_false TFalse (fill TTrue <$> ps)))
      by (rewrite elem_of_fill by done; naive_solver).
    by repeat case_match.
  - destruct (has PTrue ps) eqn:Ht; [done|]. apply has_false in Ht.
    assert (PUnknown ∈ ps) as Hun.
    { apply has_true. destruct (has PUnknown ps) eqn:Hun; [done|].
      destruct (has PInvalid ps) eqn:Hi; [done|]. apply has_false in Hun, Hi.
      destruct ps as [|p ps']; [done|]. apply Forall_cons in Hps as [Hp _]. set_unfold.
      destruct Hp as [-> | [-> | ->]]; naive_solver. }
    rewrite (proj2 (has_true TTrue (fill TTrue <$> ps)))
      by (rewrite elem_of_fill by done; auto).
    rewrite (proj2 (has_false TTrue (fill TFalse <$> ps)))
      by (rewrite elem_of_fill by done; naive_solver).
    by repeat case_match.
  - destruct (singleton_of_length eq_refl Hop) as (p & -> & Hp').
    cbn in Hr. destruct Hp' as [-> | [-> | ->]]; done.
Qed.

(** Three-valued reduction before the deadline is the best possible: it decides
    exactly the roots every completion agrees on. *)
Lemma early_decision_exact op r :
  (op = None ↔ length ps = 1%nat) → r ≠ GraphPending →
  next_graph_root false (reduced_truth op false ps) = r ↔
  ∀ vs, Forall2 early_possible ps vs → root_of_truth (terminal_truth op vs) = r.
Proof.
  intros Hop Hr. split.
  - intros <- vs Hvs. destruct op as [[]|]; [by apply early_and_forced|by apply early_or_forced|].
    destruct (singleton_of_length eq_refl Hop) as (p & -> & Hp').
    apply singleton_completion in Hvs as (v & -> & Hv).
    cbn in Hr |- *. destruct Hp' as [-> | [-> | ->]]; cbn in *; by subst.
  - intros Hall.
    destruct (decide (next_graph_root false (reduced_truth op false ps) = GraphPending)) as [Hp|Hp].
    { destruct (early_pending_open op Hop Hp). rewrite !Hall; auto using fill_possible. }
    rewrite <- (Hall (fill TTrue <$> ps)) by apply fill_possible.
    destruct op as [[]|].
    + symmetry. apply early_and_forced; auto using fill_possible.
    + symmetry. apply early_or_forced; auto using fill_possible.
    + destruct (singleton_of_length eq_refl Hop) as (p & -> & Hp').
      cbn in Hp |- *.
      destruct Hp' as [-> | [-> | ->]]; done.
Qed.
End early_decision.

Lemma early_values s :
  validate_graph_binding s = Ok () →
  Forall early_value (predicate_value false <$> gs_predicates s)
  ∧ ∀ vs, Forall2 possible_final (gs_predicates s) vs
          ↔ Forall2 early_possible (predicate_value false <$> gs_predicates s) vs.
Proof.
  intros (_ & _ & Hall)%graph_binding_shape.
  induction Hall as [|st ps Hst Hall [IHv IHvs]]; cbn.
  { split; [constructor|]. intros vs. split; intros Hvs; inversion Hvs; constructor. }
  assert (early_value (predicate_value false st)
          ∧ ∀ v, possible_final st v ↔ early_possible (predicate_value false st) v) as [He Hv].
  { destruct (predicate_value_early _ _ _ Hst) as [[-> Hp] | [[-> Hp] | [-> Hp]]];
      unfold early_value; split; auto; naive_solver. }
  split; [by constructor|]. intros [|v vs]; [split; intros Hvs; inversion Hvs|].
  by rewrite !Forall2_cons, Hv, IHvs.
Qed.

Lemma early_root_forced s r :
  validate_graph_binding s = Ok () → r ≠ GraphPending →
  next_graph_root false (reduced_truth (gs_operator s) false
                           (predicate_value false <$> gs_predicates s)) = r
  ↔ forced_root s r.
Proof.
  intros Hb Hr. destruct (early_values s Hb) as [Hv Hvs].
  destruct (graph_binding_shape s Hb) as (Hne & Hop & _).
  rewrite (early_decision_exact _ Hv).
  - unfold forced_root. by setoid_rewrite Hvs.
  - by intros ?%fmap_nil_inv.
  - by rewrite length_fmap.
  - done.
Qed.

Lemma forced_root_terminal s r : forced_root s r → r = terminal_root_from_observations s.
Proof. intros Hr. symmetry. apply Hr, terminal_values_possible. Qed.

(** At the deadline the reducer's values and the terminal ones coincide. *)
Definition deadline_value (v : TerminalPredicateTruth) : PredicateTruth :=
  match v with
  | TTrue => PTrue | TFalse => PFalse | TUnavailable => PUnavailable | TInvalid => PInvalid
  end.

#[local] Instance deadline_value_inj : Inj (=) (=) deadline_value.
Proof. by intros [] []. Qed.

Lemma predicate_value_deadline st : predicate_value true st = deadline_value (terminal_value st).
Proof. unfold predicate_value, terminal_value. by repeat case_match. Qed.

Lemma has_deadline_value v vs : has (deadline_value v) (deadline_value <$> vs) = has v vs.
Proof. apply bool_decide_ext. by rewrite (list_elem_of_fmap_inj deadline_value). Qed.

Lemma reduced_truth_deadline op vs :
  (op = None → vs ≠ []) →
  reduced_truth op true (deadline_value <$> vs) = deadline_value (terminal_truth op vs).
Proof.
  intros Hne. unfold reduced_truth, terminal_truth.
  assert (has PUnknown (deadline_value <$> vs) = false) as ->.
  { apply has_false. rewrite list_elem_of_fmap. by intros ([] & ? & _). }
  change PTrue with (deadline_value TTrue). change PFalse with (deadline_value TFalse).
  change PInvalid with (deadline_value TInvalid).
  change PUnavailable with (deadline_value TUnavailable).
  rewrite !has_deadline_value, andb_true_r.
  destruct op as [[]|]; [by repeat case_match..|].
  destruct vs; [by destruct Hne|done].
Qed.

Lemma deadline_root_terminal s :
  validate_graph_binding s = Ok () →
  next_graph_root true (reduced_truth (gs_operator s) true
                          (predicate_value true <$> gs_predicates s))
  = terminal_root_from_observations s.
Proof.
  intros (Hne & Hop & _)%graph_binding_shape. unfold terminal_root_from_observations.
  rewrite (list_fmap_ext _ (deadline_value ∘ terminal_value))
    by (intros; apply predicate_value_deadline).
  rewrite list_fmap_compose, reduced_truth_deadline.
  - by destruct (terminal_truth _ _).
  - by intros _ ?%fmap_nil_inv.
Qed.

Lemma gs_with_root_id s : gs_with_root s (gs_root s) = s.
Proof. by destruct s. Qed.

Lemma reduce_graph_snapshot_ok s now :
  GraphTaskSnapshotV1_validate s = Ok () → validate_observations_not_after s now = Ok () →
  ∃ s', reduce_graph_snapshot s now = Ok s'
  ∧ GraphTaskSnapshotV1_validate s' = Ok () ∧ s' = gs_with_root s (gs_root s')
  ∧ (gs_root s ≠ GraphPending → s' = s)
  ∧ (gs_root s = GraphPending → gs_deadline_at s ≤ now →
     gs_root s' = terminal_root_from_observations s)
  ∧ (gs_root s = GraphPending → now < gs_deadline_at s →
     ∀ r, r ≠ GraphPending → gs_root s' = r ↔ forced_root s r).
Proof.
  intros Hv Hobs. unfold reduce_graph_snapshot. rewrite Hv, Hobs. cbn [mbind result_bind].
  apply graph_validate_Ok in Hv as [Hb Hroot].
  destruct (decide (gs_root s = GraphPending)) as [Hp|Hp].
  2: { rewrite (proj2 (eqb_false _ _) Hp). exists s. cbn.
       split_and!; try done; [by apply graph_validate_Ok|by destruct s]. }
  rewrite Hp, eqb_same. cbn [negb].
  set (root := next_graph_root _ _).
  assert (GraphTaskSnapshotV1_validate (gs_with_root s root) = Ok ()
    ∧ (gs_deadline_at s ≤ now → root = terminal_root_from_observations s)
    ∧ (now < gs_deadline_at s → ∀ r, r ≠ GraphPending → root = r ↔ forced_root s r))
    as (Hv' & Hlate & Hearly).
  { rewrite graph_validate_Ok. unfold root. destruct (Z.leb_spec (gs_deadline_at s) now).
    - rewrite deadline_root_terminal by done. split_and!; [done|by right|done|lia].
    - split_and!; [done| |lia|intros _ r Hr; by apply early_root_forced].
      destruct (decide (next_graph_root false (reduced_truth (gs_operator s) false
        (predicate_value false <$> gs_predicates s)) = GraphPending)) as [->|Hnp]; [by left|].
      right. apply forced_root_terminal. by apply (early_root_forced s). }
  rewrite Hv'. cbn. exists (gs_with_root s root). split_and!; try done.
Qed.

(** Expiry is only decided at the deadline. *)
Lemma reduce_expires_late s now s' r :
  reduce_graph_snapshot s now = Ok s' → gs_root s = GraphPending →
  gs_root s' = GraphExpired r → gs_deadline_at s ≤ now.
Proof.
  unfold reduce_graph_snapshot. intros Hr Hp Hroot. rewrite Hp, eqb_same in Hr. cbn [negb] in Hr.
  peel. cbn in Hroot. destruct (Z.leb_spec (gs_deadline_at s) now); [done|].
  by destruct (reduced_truth _ _ _).
Qed.

(** C31: on every valid snapshot whose observations are not in the future the
    reducer succeeds, changes nothing but the root and returns a valid snapshot.
    Terminal roots are kept; at the deadline a pending task takes the terminal
    root of its observations; before it, the task is decided exactly when every
    way the open predicates can still turn out leads to the same terminal root. *)
Theorem reduce_graph_snapshot_spec s now :
  GraphTaskSnapshotV1_validate s = Ok () → validate_observations_not_after s now = Ok () →
  ∃ s', reduce_graph_snapshot s now = Ok s'
  ∧ GraphTaskSnapshotV1_validate s' = Ok () ∧ s' = gs_with_root s (gs_root s')
  ∧ (gs_root s ≠ GraphPending → s' = s)
  ∧ (gs_root s = GraphPending → gs_deadline_at s ≤ now →
     gs_root s' = terminal_root_from_observations s)
  ∧ (gs_root s = GraphPending → now < gs_deadline_at s →
     ∀ r, r ≠ GraphPending → gs_root s' = r ↔ forced_root s r).
Proof. apply reduce_graph_snapshot_ok. Qed.

(** * Recording observations *)

(** The conditions [GraphPredicateState_validate] checks, as propositions. *)
Record predicate_ok (st : GraphPredicateState) (a d : OffsetDateTime) : Prop := {
  ok_observations o : o ∈ stored_observations st →
    a ≤ observed_at o ≤ d
    ∧ (∀ origin, obs_origin o = Some origin → trim origin ≠ "")
    ∧ (is_Some (obs_http_status o) → is_Some (obs_origin o));
  ok_failures :
    (ps_failure_total st = 0 ∧ ps_failure_count st = 0 ∧ ps_first_failure_at st = None
     ∧ ps_last_failure_at st = None ∧ ps_last_category st = None
     ∧ ps_last_http_status st = None)
    ∨ (ps_failure_total st ≠ 0 ∧ is_Some (ps_last_category st)
       ∧ ∃ first last, ps_first_failure_at st = Some first ∧ ps_last_failure_at st = Some last
         ∧ ps_failure_count st ≤ ps_failure_total st ∧ a ≤ first ∧ first ≤ last ∧ last ≤ d);
  ok_invalid : ps_terminal_invalid st = true →
    ps_first_true st = None ∧ ps_next_due_at st = None ∧ ps_failure_count st = 0
    ∧ ∃ o, ps_latest st = Some o ∧ obs_outcome o = OutcomeUnavailable
           ∧ (∃ origin, obs_origin o = Some origin ∧ trim origin ≠ "")
           ∧ is_Some (obs_http_status o);
  ok_sticky o : ps_first_true st = Some o →
    obs_outcome o = OutcomeTrue
    ∧ ∃ latest, ps_latest st = Some latest ∧ observed_at o ≤ observed_at latest
      ∧ (observed_at o = observed_at latest → obs_outcome o = obs_outcome latest);
  ok_latest_true o :
    ps_latest st = Some o → obs_outcome o = OutcomeTrue → is_Some (ps_first_true st);
  ok_due due : ps_next_due_at st = Some due → due ≤ d;
}.

Lemma predicate_ok_validate st a d :
  predicate_ok st a d → GraphPredicateState_validate st a d = Ok ().
Proof.
  intros [Hobs Hfail Hinv Hsticky Hlt Hdue]. unfold GraphPredicateState_validate.
  pass.
  { apply Forall_forall. intros o (Hw & Horigin & Hstatus)%Hobs. pass; [lia|]. pass.
    - apply is_some_and_false. intros origin Ho. by apply eqb_false, Horigin.
    - pass. destruct (obs_http_status o), (obs_origin o); cbn; try done.
      by destruct Hstatus as [? ?]. }
  pass.
  { destruct Hfail as [(-> & -> & -> & -> & -> & ->)
                      | (Ht & [c ->] & f & l & -> & -> & ? & ? & ? & ?)]; [done|].
    rewrite (proj2 (Z.eqb_neq _ _) Ht). pass. lia. }
  pass.
  { destruct (ps_terminal_invalid st); [|done].
    destruct Hinv as (-> & -> & -> & o & -> & Ho & (origin & Horigin & Hne) & [hs Hhs]); [done|].
    pass. cbn. rewrite Ho, Horigin, Hhs, eqb_same. cbn. by rewrite (proj2 (eqb_false _ _) Hne). }
  pass.
  { apply is_some_and_false. intros o [-> _]%Hsticky. by rewrite eqb_same. }
  pass.
  { apply is_some_and_false. intros o Ho. apply andb_false_iff. rewrite is_none_false.
    destruct (decide (obs_outcome o = OutcomeTrue)); [right; eauto|left; by apply eqb_false]. }
  pass.
  { destruct (ps_first_true st) as [o|]; [|done].
    destruct (Hsticky o) as (_ & latest & -> & Hle & Heq); [done|]. pass.
    apply orb_false_iff. split; [lia|]. destruct (Z.eqb_spec (observed_at o) (observed_at latest));
      [|done]. rewrite Heq, eqb_same by done. done. }
  pass. apply is_some_and_false. intros due Hd. specialize (Hdue due Hd). lia.
Qed.

Lemma validate_predicate_ok st a d :
  GraphPredicateState_validate st a d = Ok () → predicate_ok st a d.
Proof.
  unfold GraphPredicateState_validate. intros Hv. peel.
  match goal with Hx : Forall _ (stored_observations st) |- _ =>
    rename Hx into Hobs; rewrite Forall_forall in Hobs end.
  split.
  - intros o Ho. specialize (Hobs o Ho). cbn in Hobs. peel. props. split_and!; [lia|lia| |].
    + intros origin Hor.
      match goal with Hx : is_some_and _ _ = false |- _ =>
        rewrite is_some_and_false in Hx; by apply eqb_false, Hx end.
    + intros [hs Hhs].
      match goal with Hx : is_some (obs_http_status o) && _ = false |- _ =>
        rewrite Hhs in Hx; by apply is_none_false in Hx end.
  - destruct (Z.eqb_spec (ps_failure_total st) 0); peel; props; [left; split_and!; try done|right].
    destruct (ps_first_failure_at st), (ps_last_failure_at st), (ps_last_category st); try done.
    peel. props. split_and!; eauto 10 with lia.
  - intros Hinv. rewrite Hinv in *. peel. props.
    match goal with Hx : is_some_and _ (ps_latest st) = true |- _ =>
      apply is_some_and_true in Hx as (o & Ho & Hx); props end.
    match goal with Hx : is_some_and _ (obs_origin o) = true |- _ =>
      apply is_some_and_true in Hx as (origin & Hor & Hx); props end.
    split_and!; eauto 10.
  - intros o Ho.
    match goal with Hx : is_some_and _ (ps_first_true st) = false |- _ =>
      rewrite is_some_and_false in Hx; specialize (Hx o Ho) end.
    rewrite Ho in *. props. split; [done|].
    destruct (ps_latest st) as [latest|]; [|done]. peel. props.
    exists latest. split_and!; [done|lia|]. intros Heq.
    match goal with Hx : (_ =? _) && _ = false |- _ =>
      rewrite Heq, Z.eqb_refl in Hx; cbn in Hx; by props end.
  - intros o Ho Htrue.
    match goal with Hx : is_some_and _ (ps_latest st) = false |- _ =>
      rewrite is_some_and_false in Hx; specialize (Hx o Ho); cbn in Hx;
      rewrite Htrue in Hx; by apply is_none_false in Hx end.
  - intros due Hd.
    match goal with Hx : is_some_and _ (ps_next_due_at st) = false |- _ =>
      rewrite is_some_and_false in Hx; specialize (Hx due Hd); cbn in Hx; lia end.
Qed.

(** Replacing one predicate state by a valid one for the same predicate keeps the
    binding valid. *)
Lemma graph_binding_update s i st st' :
  validate_graph_binding s = Ok () → gs_predicates s !! i = Some st →
  ps_predicate st' = ps_predicate st →
  predicate_ok st' (gs_accepted_at s) (gs_deadline_at s) →
  validate_graph_binding (gs_with_predicates s (<[i := st']> (gs_predicates s))) = Ok ().
Proof.
  intros Hb Hi Hp Hok. pose proof (graph_binding_shape s Hb) as (_ & _ & Hall).
  unfold validate_graph_binding in *. cbn in *.
  assert (ps_predicate <$> <[i := st']> (gs_predicates s) = ps_predicate <$> gs_predicates s) as ->.
  { rewrite list_fmap_insert, Hp. apply list_insert_id. by rewrite list_lookup_fmap, Hi. }
  rewrite length_insert.
  repeat (apply bind_Ok in Hb as ([] & Hg & Hb); rewrite Hg; cbn [mbind result_bind]; clear Hg).
  pass. apply Forall_insert; [done|]. by apply predicate_ok_validate.
Qed.

(** A predicate the worker may still query: undecided, with counters in range and
    operational failures no later than the latest observation. *)
Record queryable (st : GraphPredicateState) : Prop := {
  q_open : ps_first_true st = None;
  q_not_invalid : ps_terminal_invalid st = false;
  q_count : 0 ≤ ps_failure_count st;
  q_total : 0 ≤ ps_failure_total st;
  q_failure t : ps_last_failure_at st = Some t →
    ∃ o, ps_latest st = Some o ∧ t ≤ observed_at o;
}.

Definition observed_before (st : GraphPredicateState) (t : OffsetDateTime) : Prop :=
  ∀ o, ps_latest st = Some o → observed_at o < t.

Lemma with_observation_ok st o a d :
  predicate_ok st a d → queryable st → a ≤ observed_at o ≤ d →
  obs_origin o = None → obs_http_status o = None →
  predicate_ok (with_observation st o) a d.
Proof.
  intros [Hobs Hfail _ _ _ Hdue] [Hopen Hinv _ _ _] Hw Horigin Hstatus.
  split; cbn; rewrite ?Hopen, ?Hinv, ?andb_true_r; try done.
  - intros o' Ho'. assert (o' = o) as ->.
    { revert Ho'. unfold stored_observations. cbn. rewrite ?Hopen, ?andb_true_r.
      destruct (_ == _); set_solver. }
    rewrite Horigin, Hstatus. split_and!; [lia|lia|done|by intros [? ?]].
  - intros o' Ho'. destruct (obs_outcome o == OutcomeTrue) eqn:Ht; [|done].
    injection Ho' as <-. props. split; [done|]. exists o. split_and!; [done|lia|done].
  - intros o' [= <-] ->. rewrite eqb_same. eauto.
Qed.

(** How a Nexus answer changes the failure aggregate. *)
Definition failure_update (st : GraphPredicateState) (outcome : GraphObservationOutcome)
    (category : option GraphOperationalErrorCategory) (count total : Z) : Prop :=
  match category with
  | None => count = 0 ∧ total = ps_failure_total st
  | Some _ => outcome = OutcomeUnavailable ∧ total = ps_failure_total st + 1
              ∧ 0 ≤ count ≤ total
  end.

Lemma nexus_predicate_ok st o category due count total a d :
  predicate_ok st a d → queryable st → a ≤ observed_at o ≤ d → observed_before st (observed_at o) →
  (∃ origin, obs_origin o = Some origin ∧ trim origin ≠ "") →
  failure_update st (obs_outcome o) category count total →
  (∀ t, due = Some t → t ≤ d) →
  predicate_ok (nexus_predicate st o category due count total) a d.
Proof.
  intros [Hobs Hfail _ _ _ _] [Hopen Hinv Hc Ht Hlast] Hw Hbefore (origin & Horigin & Hne) Hupd Hdue.
  split; cbn; rewrite ?Hopen, ?Hinv; try done.
  - intros o' Ho'. assert (o' = o) as ->.
    { revert Ho'. unfold stored_observations. cbn. rewrite ?Hopen.
      destruct (_ == _); set_solver. }
    rewrite Horigin. split_and!; [lia|lia|naive_solver|eauto].
  - destruct category as [c|]; cbn in Hupd |- *.
    + right. destruct Hupd as (_ & -> & Hct). split_and!; [lia|eauto|].
      destruct Hfail as [(_ & _ & Hf & _) | (_ & _ & f & l & Hf & Hl & _ & ? & ? & ?)];
        rewrite Hf; cbn.
      * exists (observed_at o), (observed_at o). split_and!; (done || lia).
      * destruct (Hlast l Hl) as (o' & Ho' & ?). specialize (Hbefore o' Ho').
        exists f, (observed_at o). split_and!; (done || lia).
    + destruct Hupd as [-> ->].
      destruct Hfail as [Hf | (? & ? & f & l & Hf & Hl & ?)]; [left; naive_solver|right].
      split_and!; [done|done|]. exists f, l. split_and!; try done; lia.
  - intros o' Ho'. destruct (obs_outcome o == OutcomeTrue) eqn:Htrue; [|done].
    injection Ho' as <-. props. split; [done|]. exists o. split_and!; [done|lia|done].
  - intros o' [= <-] ->. rewrite eqb_same. eauto.
Qed.

Lemma nexus_after_record st o o' category due count total :
  ps_first_true st = None → obs_outcome o = obs_outcome o' →
  nexus_predicate (with_observation st o) o' category due count total
  = nexus_predicate st o' category due count total.
Proof.
  intros Hopen Ho. unfold nexus_predicate, with_observation. cbn. rewrite Hopen, Ho.
  by destruct (obs_outcome o' == OutcomeTrue).
Qed.

Section recording.
Context (s : GraphTaskSnapshotV1) (i : nat) (st : GraphPredicateState).
Context (Hvalid : GraphTaskSnapshotV1_validate s = Ok ()) (Hpending : gs_root s = GraphPending).
Context (Hi : gs_predicates s !! i = Some st) (Hq : queryable st).

Definition update_predicate (st' : GraphPredicateState) : GraphTaskSnapshotV1 :=
  gs_with_predicates s (<[i := st']> (gs_predicates s)).

Lemma stored_predicate_ok : predicate_ok st (gs_accepted_at s) (gs_deadline_at s).
Proof.
  apply graph_validate_Ok in Hvalid as [(_ & _ & Hall)%graph_binding_shape _].
  apply validate_predicate_ok. by eapply Forall_lookup_1 in Hall.
Qed.

Lemma update_predicate_valid st' :
  ps_predicate st' = ps_predicate st →
  predicate_ok st' (gs_accepted_at s) (gs_deadline_at s) →
  GraphTaskSnapshotV1_validate (update_predicate st') = Ok ().
Proof.
  intros Hp Hok. apply graph_validate_Ok in Hvalid as [Hb _]. apply graph_validate_Ok.
  split; [by eapply graph_binding_update|by left].
Qed.

Context (at_ : OffsetDateTime) (Hat : gs_accepted_at s ≤ at_ ≤ gs_deadline_at s).
Context (Hbefore : observed_before st at_).

Lemma record_observation_ok outcome :
  record_observation s i outcome at_
  = Ok (update_predicate (with_observation st (MkObservation outcome at_ None None))).
Proof.
  unfold record_observation. pass; [done|].
  pass; [by rewrite Hpending, eqb_same|]. pass; [lia|]. rewrite Hi.
  pass. { apply is_some_and_false. intros o Ho. specialize (Hbefore o Ho). lia. }
  pass; [|done].
  apply update_predicate_valid; [done|]. apply with_observation_ok; try done.
  apply stored_predicate_ok.
Qed.

Context (origin : string) (Horigin : trim origin ≠ "") (http_status : option Z).

Lemma record_nexus_observation_ok outcome category due count total :
  failure_update st outcome category count total → total ≤ U32_MAX →
  (∀ t, due = Some t → t ≤ gs_deadline_at s) →
  let o := MkObservation outcome at_ (Some origin) http_status in
  let next := update_predicate (nexus_predicate st o category due count total) in
  record_nexus_observation s i outcome at_ origin http_status category due count = Ok next
  ∧ GraphTaskSnapshotV1_validate next = Ok ().
Proof.
  intros Hupd Hmax Hdue o next.
  assert (GraphTaskSnapshotV1_validate next = Ok ()) as Hnext.
  { apply update_predicate_valid; [done|].
    apply nexus_predicate_ok; [apply stored_predicate_ok|done|done|done|cbn; eauto|done|done]. }
  split; [|done]. unfold record_nexus_observation. rewrite record_observation_ok. cbn.
  rewrite list_lookup_insert_eq by eauto using lookup_lt_Some. cbn.
  match goal with |- ?r ≫= _ = _ => assert (r = Ok total) as -> end.
  { destruct category as [c|]; cbn in Hupd |- *.
    - destruct Hupd as (-> & -> & _). rewrite eqb_same. cbn.
      by rewrite (proj2 (checked_add_Some U32_MAX _ 1 _) (conj eq_refl Hmax)).
    - by destruct Hupd as [-> ->]. }
  cbn. rewrite list_insert_insert_eq, nexus_after_record by (done || apply Hq).
  change (gs_with_predicates _ _) with next. by rewrite Hnext.
Qed.

Lemma terminalize_invalid_nexus_response_ok hs :
  http_status = Some hs →
  let o := MkObservation OutcomeUnavailable at_ (Some origin) http_status in
  let next := update_predicate
    (with_terminal_invalid (nexus_predicate st o None None 0 (ps_failure_total st))) in
  ps_failure_total st ≤ U32_MAX →
  terminalize_invalid_nexus_response s i at_ origin http_status = Ok next
  ∧ GraphTaskSnapshotV1_validate next = Ok ().
Proof.
  intros Hhs o next Hmax.
  destruct (record_nexus_observation_ok OutcomeUnavailable None None 0 (ps_failure_total st))
    as [Hrec Hv]; [done..|].
  assert (GraphTaskSnapshotV1_validate next = Ok ()) as Hnext.
  { apply update_predicate_valid; [done|].
    destruct (nexus_predicate_ok st o None None 0 (ps_failure_total st)
      (gs_accepted_at s) (gs_deadline_at s)) as [Hobs Hfail _ Hsticky Hlt _];
      [apply stored_predicate_ok|done|done|done|cbn; eauto|done|done|].
    split; try done. intros _. cbn. split_and!; try done; [apply Hq|].
    exists o. split_and!; cbn; rewrite ?Hhs; eauto. }
  split; [|done]. unfold terminalize_invalid_nexus_response. rewrite Hrec. cbn.
  replace (alter with_terminal_invalid i _) with (gs_predicates next).
  - change (gs_with_predicates _ _) with next. by rewrite Hnext.
  - cbn. by rewrite !list_insert_alter, list_alter_alter_eq.
Qed.
End recording.

(** * Replacement of snapshots *)

Lemma progress_possible c n a d v :
  predicate_progress c n = Ok () → GraphPredicateState_validate n a d = Ok () →
  possible_final n v → possible_final c v.
Proof.
  unfold predicate_progress, possible_final. intros Hp Hn. peel.
  pose proof (validate_predicate_ok _ _ _ Hn) as [_ _ Hinv _ _ _].
  destruct (ps_first_true c) as [o|] eqn:Hc; cbn in *.
  - props. match goal with Hx : Some _ = ps_first_true n |- _ => by rewrite <- Hx end.
  - destruct (ps_terminal_invalid c); [|done]. cbn in *. props.
    destruct Hinv as (Hft & _); [done|].
    match goal with Hx : ps_terminal_invalid n = true |- _ => by rewrite Hft, Hx end.
Qed.

(** An accepted replacement never contradicts a decision: if every way the
    open predicates could turn out led to the root [r], the same holds after the
    replacement, and [r] is the terminal root of the new observations. *)
Theorem graph_replacement_keeps_decision current next r :
  validate_graph_progress_from next current = Ok () → gs_operator next = gs_operator current →
  forced_root current r →
  forced_root next r ∧ terminal_root_from_observations next = r.
Proof.
  intros Hprog Hop Hforced. assert (forced_root next r) as Hnext.
  2: { split; [done|]. symmetry. by apply forced_root_terminal. }
  unfold validate_graph_progress_from in Hprog. peel. props.
  match goal with Hv : GraphTaskSnapshotV1_validate next = Ok () |- _ =>
    apply graph_validate_Ok in Hv as [(_ & _ & Hall)%graph_binding_shape _] end.
  match goal with Hz : Forall _ (zip _ _) |- _ => rename Hz into Hzip end.
  match goal with Hs : _ <$> gs_predicates current = _ |- _ => rename Hs into Hshape end.
  intros vs Hvs. rewrite Hop. apply Hforced. clear Hforced Hop.
  revert vs Hvs Hzip Hshape Hall. generalize (gs_predicates current) as cs.
  generalize (gs_predicates next) as ns.
  induction ns as [|n ns IH]; intros [|c cs] vs Hvs Hzip Hshape Hall;
    cbn in Hzip, Hshape; try done.
  apply Forall2_cons_inv_l in Hvs as (v & vs' & Hv & Hvs & ->).
  injection Hshape as _ Hshape.
  apply Forall_cons in Hzip as [? ?]. apply Forall_cons in Hall as [? ?].
  constructor; [by eapply progress_possible|by apply IH].
Qed.

End snapshots.
