(* ===== verification/GraphWorker.v ===== *)
(** The graph verification worker ([locks-server/src/graph_worker.rs]).

    One evaluation of a claimed graph task: which predicates are due, how the
    Nexus answers are applied to the snapshot, the reduction, and what the worker
    then asks the repository to store.  The claim and publication calls around it
    are repository operations; the Nexus client and the jitter source are
    parameters. *)

From S2P Require Import Prelude RustStr Externals Ids Json LockPolicy Wire Errors GraphTask.

Definition FALSE_REPOLL_SECONDS : Z := 5.
Definition OPERATIONAL_BACKOFF_SECONDS : list Z := [1; 2; 4; 8; 16; 30].
Definition PER_TASK_CONCURRENCY : nat := 8.

Inductive NexusInvalidResponse := ResponseMalformed | ResponseOversized.

Inductive NexusOperationalError :=
  | OperationalRedirect | OperationalRateLimited | OperationalNonSuccess
  | OperationalTimeout | OperationalTransport.

Inductive NexusObservation :=
  | NexusValid (value : bool) (origin : string) (status : Z)
  | NexusInvalid (kind : NexusInvalidResponse) (origin : string) (status : Z)
  | NexusOperational (kind : NexusOperationalError) (origin : string) (status : option Z)
      (retry_after_seconds : option Z).

(** [std::time::Duration] values are non-negative nanosecond counts;
    [as_millis] truncates. *)
Definition as_millis (d : Duration) : Z := d / 1000000.
Definition milliseconds (n : Z) : Duration := n * 1000000.

Definition clamp_due (now : OffsetDateTime) (delay : Duration) (deadline : OffsetDateTime) :
    OffsetDateTime :=
  let ms := if as_millis delay <=? I64_MAX then as_millis delay else I64_MAX in
  Z.min (now + milliseconds ms) deadline.

(** [Option<OffsetDateTime>]-valued iterator minimum. *)
Definition iter_min (ts : list OffsetDateTime) : option OffsetDateTime :=
  match ts with
  | [] => None
  | t :: ts => Some (fold_left Z.min ts t)
  end.

Definition undecided (st : GraphPredicateState) : bool :=
  is_none (ps_first_true st) && negb (ps_terminal_invalid st).

Definition next_due (s : GraphTaskSnapshotV1) (now : OffsetDateTime) : OffsetDateTime :=
  let dues := omap ps_next_due_at (filter (λ st, undecided st = true) (gs_predicates s)) in
  Z.min (Z.max (default (gs_deadline_at s) (iter_min dues)) (now + milliseconds 1))
    (gs_deadline_at s).

Definition operational_category (kind : NexusOperationalError) : GraphOperationalErrorCategory :=
  match kind with
  | OperationalRedirect => NexusRedirect
  | OperationalRateLimited => NexusRateLimited
  | OperationalNonSuccess => NexusNonSuccess
  | OperationalTimeout => NexusTimeout
  | OperationalTransport => NexusTransport
  end.

Definition invalid_snapshot (message : string) : ApplicationError :=
  Storage ("invalid graph worker snapshot: " +:+ message).

Section worker.
  Context `{Base32, TimeCrate}.
  (** [GraphRetryJitter::jitter]. *)
  Context (jitter : Duration → Duration).

(** [snapshot.predicates[index]] panics out of range; the worker only passes
    indices it enumerated. *)
Definition apply_observation (s : GraphTaskSnapshotV1) (index : nat)
    (observation : NexusObservation) (at_ deadline : OffsetDateTime) :
    result ApplicationError GraphTaskSnapshotV1 :=
  map_err invalid_snapshot
    match observation with
    | NexusValid value origin status =>
        let due :=
          if value then None
          else Some (clamp_due at_ (jitter (seconds FALSE_REPOLL_SECONDS)) deadline) in
        record_nexus_observation s index (if value then OutcomeTrue else OutcomeFalse) at_
          origin (Some status) None due 0
    | NexusInvalid _ origin status =>
        terminalize_invalid_nexus_response s index at_ origin (Some status)
    | NexusOperational kind origin status retry_after_seconds =>
        let count := default 0 (ps_failure_count <$> gs_predicates s !! index) in
        let failures := saturating_add U32_MAX count 1 in
        let retry_after := (λ secs, Z.min secs 60) <$> retry_after_seconds in
        let slot := Nat.min (Z.to_nat (saturating_sub failures 1))
                      (length OPERATIONAL_BACKOFF_SECONDS - 1) in
        let base := default (OPERATIONAL_BACKOFF_SECONDS !!! slot) retry_after in
        let delay :=
          if is_some retry_after then seconds (Z.min base 60) else jitter (seconds base) in
        record_nexus_observation s index OutcomeUnavailable at_ origin status
          (Some (operational_category kind)) (Some (clamp_due at_ delay deadline)) failures
    end.

(** Indices of the predicates to query now, at most [PER_TASK_CONCURRENCY]. *)
Definition is_due (dispatch_now : OffsetDateTime) (st : GraphPredicateState) : bool :=
  undecided st && is_none_or (λ due, due <=? dispatch_now) (ps_next_due_at st).

Definition due_predicates (s : GraphTaskSnapshotV1) (dispatch_now : OffsetDateTime) :
    list nat :=
  take PER_TASK_CONCURRENCY
    (filter (λ i, is_some_and (is_due dispatch_now) (gs_predicates s !! i) = true)
       (seq 0 (length (gs_predicates s)))).

(** The answers are applied in the order the queries complete; late ones are
    dropped. *)
Fixpoint apply_observations (s : GraphTaskSnapshotV1) (deadline : OffsetDateTime)
    (answers : list (nat * (NexusObservation * OffsetDateTime))) :
    result ApplicationError GraphTaskSnapshotV1 :=
  match answers with
  | [] => Ok s
  | (index, (observation, at_)) :: rest =>
      if deadline <? at_ then apply_observations s deadline rest
      else
        s' ← apply_observation s index observation at_ deadline;
        apply_observations s' deadline rest
  end.

(** What the worker asks of the repository for a claimed pending task. *)
Inductive GraphWorkerPlan :=
  | PersistSnapshot (s : GraphTaskSnapshotV1) (now : OffsetDateTime)
  | ScheduleRetry (s : GraphTaskSnapshotV1) (now next_attempt_at : OffsetDateTime).

Definition persist_terminal_or_pending (s : GraphTaskSnapshotV1) (now : OffsetDateTime) :
    GraphWorkerPlan :=
  if gs_root s != GraphPending then PersistSnapshot s now
  else ScheduleRetry s now (next_due s now).

(** The evaluation part of [run_once_with_shutdown].  [answers] are the results
    of the queries spawned for due predicates, in completion order; [reduced_at]
    is the clock reading before the reduction. *)
Definition evaluate_claimed_task (s : GraphTaskSnapshotV1) (dispatch_now : OffsetDateTime)
    (answers : list (nat * (NexusObservation * OffsetDateTime))) (reduced_at : OffsetDateTime) :
    result ApplicationError GraphWorkerPlan :=
  if gs_root s != GraphPending then Ok (persist_terminal_or_pending s reduced_at)
  else if gs_deadline_at s <=? dispatch_now then
    s' ← map_err invalid_snapshot (reduce_graph_snapshot s dispatch_now);
    Ok (persist_terminal_or_pending s' dispatch_now)
  else if (length (due_predicates s dispatch_now) =? 0)%nat then
    Ok (ScheduleRetry s dispatch_now (next_due s dispatch_now))
  else
    s' ← apply_observations s (gs_deadline_at s) answers;
    s'' ← map_err invalid_snapshot (reduce_graph_snapshot s' reduced_at);
    Ok (persist_terminal_or_pending s'' reduced_at).

(** * Every evaluation is storable *)

Definition nexus_origin (observation : NexusObservation) : string :=
  match observation with
  | NexusValid _ origin _ | NexusInvalid _ origin _ | NexusOperational _ origin _ _ => origin
  end.

(** Bookkeeping of the predicates the worker may still query. *)
Definition tracked (st : GraphPredicateState) : Prop := undecided st = true → queryable st.

(** An answer the Nexus client may return for a predicate: it names its origin
    and was observed in the task window, after the previous observation. *)
Record answer_ok (accepted_at : OffsetDateTime) (st : GraphPredicateState)
    (observation : NexusObservation) (at_ : OffsetDateTime) : Prop := {
  answer_origin : trim (nexus_origin observation) ≠ "";
  answer_time : accepted_at ≤ at_;
  answer_later : observed_before st at_;
  answer_total : ps_failure_total st < U32_MAX;
}.

(** The change one answer makes to a predicate. *)
Record predicate_step (st st' : GraphPredicateState) (at_ : OffsetDateTime) : Prop := {
  step_predicate : ps_predicate st' = ps_predicate st;
  step_progress : predicate_progress st st' = Ok ();
  step_tracked : tracked st';
  step_observed o : o ∈ stored_observations st' → observed_at o = at_;
}.

Lemma undecided_true st :
  undecided st = true ↔ ps_first_true st = None ∧ ps_terminal_invalid st = false.
Proof. unfold undecided. rewrite andb_true_iff, negb_true_iff, is_none_true. done. Qed.

Lemma predicate_progress_refl st : predicate_progress st st = Ok ().
Proof.
  unfold predicate_progress. pass; [by destruct (ps_terminal_invalid st)|].
  pass; [by rewrite eqb_same, andb_false_r|].
  pass; [|pass; destruct (ps_first_true st); done].
  destruct (ps_latest st) as [o|]; [|done]. pass; [lia|]. pass.
  by rewrite eqb_same, andb_false_r.
Qed.

Lemma predicate_progress_later st st' o :
  queryable st → ps_latest st' = Some o → observed_before st (observed_at o) →
  ps_first_true st' = None ∨ ps_first_true st' = Some o →
  predicate_progress st st' = Ok ().
Proof.
  intros [Hopen Hinv _ _ _] Ho Hlater Hft. unfold predicate_progress.
  rewrite Hopen, Hinv, Ho. pass; [done|]. pass; [done|]. pass.
  - destruct (ps_latest st) as [o'|] eqn:Ho'; [|done]. specialize (Hlater o' Ho').
    pass; [lia|]. pass. apply andb_false_iff. left. lia.
  - pass. destruct Hft as [-> | ->]; cbn; [done|]. by rewrite eqb_same.
Qed.

Lemma nexus_first_true st o category due count total :
  queryable st →
  ps_first_true (nexus_predicate st o category due count total)
  = if obs_outcome o == OutcomeTrue then Some o else None.
Proof. intros [Hopen _ _ _ _]. cbn. by rewrite Hopen. Qed.

Lemma nexus_predicate_step st o category due count total :
  queryable st → observed_before st (observed_at o) →
  failure_update st (obs_outcome o) category count total →
  predicate_step st (nexus_predicate st o category due count total) (observed_at o).
Proof.
  intros Hq Hlater Hupd. pose proof (nexus_first_true st o category due count total Hq) as Hft.
  split; [done| | |].
  - eapply predicate_progress_later; [done|done|done|]. rewrite Hft.
    destruct (_ == _); auto.
  - intros [Hopen Hinv]%undecided_true. destruct Hq as [_ _ Hc Ht Hlast].
    unfold failure_update in Hupd. split; [done|done|..]; cbn; destruct category as [c|]; cbn;
      try lia.
    + intros t [= <-]. exists o. split; [done|lia].
    + intros t Hl. destruct (Hlast t Hl) as (o' & Ho' & Hle). exists o. split; [done|].
      specialize (Hlater o' Ho'). lia.
  - unfold stored_observations. rewrite Hft. intros o' Ho'. cbn in Ho'.
    destruct (_ == _); cbn in Ho'; set_solver.
Qed.

Lemma invalid_predicate_step st o :
  queryable st → observed_before st (observed_at o) → obs_outcome o = OutcomeUnavailable →
  predicate_step st
    (with_terminal_invalid (nexus_predicate st o None None 0 (ps_failure_total st)))
    (observed_at o).
Proof.
  intros Hq Hlater Ho.
  pose proof (nexus_first_true st o None None 0 (ps_failure_total st) Hq) as Hft.
  rewrite Ho in Hft. split; [done| | |].
  - eapply predicate_progress_later; [done|done|done|]. by left.
  - intros [_ Hinv]%undecided_true. done.
  - unfold stored_observations. cbn [with_terminal_invalid ps_first_true] in *.
    rewrite Hft. intros o' Ho'. cbn in Ho'. set_solver.
Qed.

Lemma clamp_due_bounded now delay deadline : clamp_due now delay deadline ≤ deadline.
Proof. unfold clamp_due. lia. Qed.

Lemma failure_count_le st a d :
  predicate_ok st a d → queryable st → ps_failure_count st ≤ ps_failure_total st.
Proof.
  intros [_ Hf _ _ _ _] [_ _ _ Ht _].
  destruct Hf as [(-> & -> & _) | (_ & _ & f & l & _ & _ & ? & _)]; lia.
Qed.

Lemma apply_observation_ok s i st observation at_ :
  GraphTaskSnapshotV1_validate s = Ok () → gs_root s = GraphPending →
  gs_predicates s !! i = Some st → queryable st →
  answer_ok (gs_accepted_at s) st observation at_ → at_ ≤ gs_deadline_at s →
  ∃ st', apply_observation s i observation at_ (gs_deadline_at s)
         = Ok (update_predicate s i st')
  ∧ GraphTaskSnapshotV1_validate (update_predicate s i st') = Ok ()
  ∧ predicate_step st st' at_.
Proof.
  intros Hv Hp Hi Hq [Horigin Htime Hlater Htotal] Hdl.
  pose proof (record_nexus_observation_ok s i st Hv Hp Hi Hq at_ (conj Htime Hdl) Hlater _ Horigin)
    as Hrec.
  pose proof (clamp_due_bounded at_) as Hclamp.
  destruct observation as [value origin hs|kind origin hs|kind origin hs retry];
    cbn [nexus_origin] in Horigin, Hrec.
  - set (due := if value then None
                else Some (clamp_due at_ (jitter (seconds FALSE_REPOLL_SECONDS)) (gs_deadline_at s))).
    destruct (Hrec (Some hs) (if value then OutcomeTrue else OutcomeFalse) None due 0
      (ps_failure_total st)) as [Hok Hval]; [done|lia|unfold due; destruct value; naive_solver|].
    eexists. split_and!; [|exact Hval|].
    + unfold apply_observation. fold due. by rewrite Hok.
    + by apply nexus_predicate_step.
  - destruct (terminalize_invalid_nexus_response_ok s i st Hv Hp Hi Hq at_ (conj Htime Hdl)
      Hlater origin Horigin (Some hs) hs) as [Hok Hval]; [done|lia|].
    eexists. split_and!; [|exact Hval|].
    + unfold apply_observation. by rewrite Hok.
    + by apply invalid_predicate_step.
  - unfold apply_observation. rewrite Hi.
    change (default 0 (ps_failure_count <$> Some st)) with (ps_failure_count st).
    set (failures := saturating_add U32_MAX (ps_failure_count st) 1).
    assert (failure_update st OutcomeUnavailable (Some (operational_category kind)) failures
      (ps_failure_total st + 1)) as Hupd.
    { pose proof (failure_count_le st _ _ (stored_predicate_ok s i st Hv Hi) Hq).
      destruct Hq. unfold failures, saturating_add, U32_MAX in *. cbn. split_and!; (done || lia). }
    set (due := clamp_due _ _ _).
    destruct (Hrec hs OutcomeUnavailable (Some (operational_category kind)) (Some due) failures
      (ps_failure_total st + 1)) as [Hok Hval]; [done|lia| |].
    { intros t [= <-]. apply Hclamp. }
    eexists. split_and!; [|exact Hval|].
    + cbv zeta. fold failures. fold due. by rewrite Hok.
    + by apply nexus_predicate_step.
Qed.

(** [s] is [s0] after some answers observed up to [limit], none of them about the
    predicates in [pending]. *)
Record evolved (s0 s : GraphTaskSnapshotV1) (limit : OffsetDateTime) (pending : list nat) : Prop := {
  ev_shape : s = gs_with_predicates s0 (gs_predicates s);
  ev_valid : GraphTaskSnapshotV1_validate s = Ok ();
  ev_steps : Forall2 (λ st0 st, st = st0 ∨ ∃ at_, predicate_step st0 st at_ ∧ at_ ≤ limit)
               (gs_predicates s0) (gs_predicates s);
  ev_pending j : j ∈ pending → gs_predicates s !! j = gs_predicates s0 !! j;
}.

(** The answers of one evaluation: each about an undecided predicate. *)
Definition answers_ok (s0 : GraphTaskSnapshotV1) (limit : OffsetDateTime)
    (answers : list (nat * (NexusObservation * OffsetDateTime))) : Prop :=
  NoDup answers.*1
  ∧ ∀ i obs at_, (i, (obs, at_)) ∈ answers →
    at_ ≤ limit
    ∧ ∃ st, gs_predicates s0 !! i = Some st ∧ undecided st = true
            ∧ answer_ok (gs_accepted_at s0) st obs at_.

Lemma evolved_refl s limit pending :
  GraphTaskSnapshotV1_validate s = Ok () → evolved s s limit pending.
Proof.
  intros Hv. split; [by destruct s|done| |done].
  apply Forall2_same_length_lookup. split; [done|]. intros i st st' -> [= ->]. by left.
Qed.

Lemma evolved_step s0 s limit i st st' at_ pending :
  evolved s0 s limit (i :: pending) → i ∉ pending →
  gs_predicates s0 !! i = Some st → predicate_step st st' at_ → at_ ≤ limit →
  GraphTaskSnapshotV1_validate (update_predicate s i st') = Ok () →
  evolved s0 (update_predicate s i st') limit pending.
Proof.
  intros [Hs Hv Hsteps Hpend] Hni Hi Hstep Hat Hv'. split; [by rewrite Hs|done| |]; cbn.
  - rewrite <- (list_insert_id (gs_predicates s0) i st) by done.
    apply Forall2_insert; [done|]. right. by exists at_.
  - intros j Hj. rewrite list_lookup_insert_ne by (by intros <-). apply Hpend. by right.
Qed.

Lemma apply_observations_ok s0 limit answers :
  gs_root s0 = GraphPending → Forall tracked (gs_predicates s0) → answers_ok s0 limit answers →
  ∀ s, evolved s0 s limit answers.*1 →
  ∃ s', apply_observations s (gs_deadline_at s0) answers = Ok s' ∧ evolved s0 s' limit [].
Proof.
  intros Hp Htr. induction answers as [|[i [obs at_]] answers IH]; intros [Hnd Hans] s Hev; cbn.
  { by exists s. }
  apply NoDup_cons in Hnd as [Hni Hnd].
  assert (answers_ok s0 limit answers) as Hrest.
  { split; [done|]. intros j o t Hj. apply Hans. by right. }
  destruct (Hans i obs at_) as (Hlim & st & Hi & Hu & Hok); [by left|].
  destruct (Z.ltb_spec (gs_deadline_at s0) at_).
  { apply IH; [done|]. destruct Hev as [? ? ? Hpend]. split; [done..|].
    intros j Hj. apply Hpend. by right. }
  assert (queryable st) as Hq.
  { eapply Forall_lookup_1 in Htr; [|done]. by apply Htr. }
  pose proof Hev as [Hs Hv _ Hpend].
  destruct (apply_observation_ok s i st obs at_) as (st' & Happ & Hv' & Hstep);
    [done|by rewrite Hs|by rewrite Hpend by left|done|by rewrite Hs|by rewrite Hs|].
  assert (gs_deadline_at s0 = gs_deadline_at s) as Hd by (by rewrite Hs).
  rewrite Hd, Happ, <- Hd. cbn [mbind result_bind]. apply IH; [done|]. by eapply evolved_step.
Qed.

Lemma evolved_progress s0 s limit pending r :
  GraphTaskSnapshotV1_validate s0 = Ok () → gs_root s0 = GraphPending →
  evolved s0 s limit pending → GraphTaskSnapshotV1_validate (gs_with_root s r) = Ok () →
  validate_graph_progress_from (gs_with_root s r) s0 = Ok ().
Proof.
  intros Hv0 Hp [_ _ Hsteps _] Hv. unfold validate_graph_progress_from.
  pass; [done|]. pass; [done|]. pass; [by rewrite Hp, eqb_same|]. cbn. pass.
  - apply negb_false_iff, eqb_true. induction Hsteps as [|st0 st l0 l Hst Hl IH]; [done|].
    cbn. f_equal; [|done]. destruct Hst as [-> | (t & [Hpr _ _ _] & _)]; done.
  - pass. induction Hsteps as [|st0 st l0 l Hst Hl IH]; [constructor|]. cbn.
    constructor; [|done]. destruct Hst as [-> | (t & [_ Hpr _ _] & _)]; [|done].
    apply predicate_progress_refl.
Qed.

Lemma evolved_observed s0 s limit pending :
  evolved s0 s limit pending → validate_observations_not_after s0 limit = Ok () →
  validate_observations_not_after s limit = Ok ().
Proof.
  intros [_ _ Hsteps _]. unfold validate_observations_not_after. rewrite !reject_if_Ok.
  induction Hsteps as [|st0 st l0 l Hst Hl IH]; cbn; [done|].
  rewrite !orb_false_iff. intros [Hhd Htl]. split; [|by apply IH].
  destruct Hst as [-> | (t & [_ _ _ Hobs] & Ht)]; [done|].
  apply not_true_iff_false. intros (o & Ho & Hlt)%existsb_exists.
  apply list_elem_of_In, Hobs in Ho. lia.
Qed.

Lemma evolved_tracked s0 s limit pending :
  evolved s0 s limit pending → Forall tracked (gs_predicates s0) →
  Forall tracked (gs_predicates s).
Proof.
  intros [_ _ Hsteps _] Htr. induction Hsteps as [|st0 st l0 l Hst Hl IH]; [done|].
  apply Forall_cons in Htr as [? ?]. constructor; [|by apply IH].
  destruct Hst as [-> | (t & [_ _ Htr _] & _)]; done.
Qed.

Definition plan_snapshot (plan : GraphWorkerPlan) : GraphTaskSnapshotV1 :=
  match plan with PersistSnapshot s _ | ScheduleRetry s _ _ => s end.

Definition plan_time (plan : GraphWorkerPlan) : OffsetDateTime :=
  match plan with PersistSnapshot _ now | ScheduleRetry _ now _ => now end.

(** A plan for the claimed snapshot [s] that a repository can store: the new
    snapshot differs in predicate states and root only and is an accepted
    replacement without observations from the future; a decided one is persisted
    and has not expired early, a pending one is retried strictly later, and not
    after the deadline. *)
Record plan_ok (s : GraphTaskSnapshotV1) (plan : GraphWorkerPlan) : Prop := {
  plan_shape : plan_snapshot plan
    = gs_with_root (gs_with_predicates s (gs_predicates (plan_snapshot plan)))
        (gs_root (plan_snapshot plan));
  plan_progress : validate_graph_progress_from (plan_snapshot plan) s = Ok ();
  plan_observed : validate_observations_not_after (plan_snapshot plan) (plan_time plan) = Ok ();
  plan_kind :
    match plan with
    | PersistSnapshot s' now =>
        gs_root s' ≠ GraphPending
        ∧ ∀ r, gs_root s' = GraphExpired r → gs_deadline_at s ≤ now
    | ScheduleRetry s' now next =>
        gs_root s' = GraphPending ∧ now < next ≤ gs_deadline_at s
    end;
}.

Lemma next_due_bounds s now :
  now < gs_deadline_at s → now < next_due s now ≤ gs_deadline_at s.
Proof. unfold next_due, milliseconds. lia. Qed.

Lemma not_after_later s now later :
  now ≤ later → validate_observations_not_after s now = Ok () →
  validate_observations_not_after s later = Ok ().
Proof.
  intros Hle. unfold validate_observations_not_after. rewrite !reject_if_Ok.
  intros Hx. apply not_true_iff_false. intros (st & Hst & Ho)%existsb_exists.
  apply existsb_exists in Ho as (o & Ho & Hlt).
  apply not_true_iff_false in Hx. apply Hx. apply existsb_exists. exists st. split; [done|].
  apply existsb_exists. exists o. split; [done|]. lia.
Qed.

Lemma evolved_shape s0 s limit pending r :
  evolved s0 s limit pending →
  gs_with_root s r = gs_with_root (gs_with_predicates s0 (gs_predicates (gs_with_root s r))) r.
Proof. intros [Hs _ _ _]. rewrite Hs at 1. done. Qed.

Lemma reduce_plan_ok s0 s limit pending now :
  GraphTaskSnapshotV1_validate s0 = Ok () → gs_root s0 = GraphPending →
  evolved s0 s limit pending → validate_observations_not_after s now = Ok () →
  ∃ s', reduce_graph_snapshot s now = Ok s' ∧ gs_predicates s' = gs_predicates s
        ∧ plan_ok s0 (persist_terminal_or_pending s' now).
Proof.
  intros Hv0 Hp Hev Hobs. pose proof Hev as [Hs Hv _ _].
  assert (gs_root s = GraphPending) as Hps by (by rewrite Hs).
  destruct (reduce_graph_snapshot_ok s now Hv Hobs) as (s' & Hr & Hv' & Hs' & _ & Hlate & _).
  assert (gs_deadline_at s = gs_deadline_at s0) as Hd by (rewrite Hs; done).
  exists s'. split_and!; [done|by rewrite Hs'|].
  assert (validate_graph_progress_from s' s0 = Ok ()) as Hprog.
  { rewrite Hs'. rewrite Hs' in Hv'. by eapply evolved_progress. }
  assert (s' = gs_with_root (gs_with_predicates s0 (gs_predicates s')) (gs_root s')) as Hshape.
  { rewrite Hs' at 1. rewrite (evolved_shape s0 s limit pending) by done. by rewrite Hs'. }
  assert (validate_observations_not_after s' now = Ok ()) as Hobs' by (by rewrite Hs').
  unfold persist_terminal_or_pending. destruct (gs_root s' == GraphPending) eqn:Hroot; props;
    (split; [done|done|done|]); cbn.
  - split; [done|]. assert (now < gs_deadline_at s0) as Hlt.
    { destruct (Z.lt_ge_cases now (gs_deadline_at s0)) as [|Hge]; [done|].
      rewrite <- Hd in Hge. specialize (Hlate Hps Hge). rewrite Hroot in Hlate.
      symmetry in Hlate. by apply root_of_truth_not_pending in Hlate. }
    assert (gs_deadline_at s' = gs_deadline_at s0) as Hd' by (rewrite Hs'; done).
    rewrite <- Hd' in *. by apply next_due_bounds.
  - split; [done|]. intros r Hexp. rewrite <- Hd. by eapply reduce_expires_late.
Qed.

Lemma retry_plan_ok s now :
  GraphTaskSnapshotV1_validate s = Ok () → gs_root s = GraphPending →
  validate_observations_not_after s now = Ok () → now < gs_deadline_at s →
  plan_ok s (ScheduleRetry s now (next_due s now)).
Proof.
  intros Hv Hp Hobs Hlt. split; cbn; [by destruct s| |done|].
  - pose proof (evolved_progress s s now [] (gs_root s)) as Hprog.
    rewrite gs_with_root_id in Hprog. by apply Hprog, Hv; [..|apply evolved_refl].
  - split; [done|]. by apply next_due_bounds.
Qed.

Lemma evaluate_claimed_task_ok s dispatch_now answers reduced_at :
  GraphTaskSnapshotV1_validate s = Ok () → gs_root s = GraphPending →
  Forall tracked (gs_predicates s) →
  validate_observations_not_after s dispatch_now = Ok () → dispatch_now ≤ reduced_at →
  answers_ok s reduced_at answers →
  ∃ plan, evaluate_claimed_task s dispatch_now answers reduced_at = Ok plan
  ∧ plan_ok s plan ∧ Forall tracked (gs_predicates (plan_snapshot plan))
  ∧ plan_time plan ≤ reduced_at.
Proof.
  intros Hv Hp Htr Hobs Hle Hans. unfold evaluate_claimed_task. rewrite Hp, eqb_same. cbn [negb].
  assert (∀ s' now, gs_predicates (plan_snapshot (persist_terminal_or_pending s' now))
                    = gs_predicates s') as Hsnap.
  { intros s' now. unfold persist_terminal_or_pending. by destruct (_ == _). }
  assert (∀ s' now, plan_time (persist_terminal_or_pending s' now) = now) as Htime.
  { intros s' now. unfold persist_terminal_or_pending. by destruct (_ == _). }
  destruct (Z.leb_spec (gs_deadline_at s) dispatch_now).
  { destruct (reduce_plan_ok s s dispatch_now [] dispatch_now) as (s' & -> & Hps & Hplan);
      [done|done|by apply evolved_refl|done|].
    eexists. split_and!; [done|done|by rewrite Hsnap, Hps|by rewrite Htime]. }
  destruct (_ =? 0)%nat.
  { eexists. split_and!; [done|by apply retry_plan_ok|done|done]. }
  destruct (apply_observations_ok s reduced_at answers Hp Htr Hans s) as (s' & -> & Hev);
    [by apply evolved_refl|]. cbn [mbind result_bind].
  destruct (reduce_plan_ok s s' reduced_at [] reduced_at) as (s'' & -> & Hps & Hplan); [done|done|done| |].
  { eapply evolved_observed; [done|]. by eapply not_after_later. }
  eexists. split_and!; [done|done| |by rewrite Htime]. rewrite Hsnap, Hps. by eapply evolved_tracked.
Qed.

(** C40: the evaluation of a claimed pending task never gets stuck.  Whatever the
    Nexus answers for due predicates are (values, malformed responses, failures)
    and in whatever order they complete, late ones included, the worker produces
    a plan the repository accepts: a valid successor of the claimed snapshot,
    persisted exactly when decided and otherwise retried strictly later but not
    after the deadline; the bookkeeping it relies on is re-established. *)
Theorem evaluate_claimed_task_accepted s dispatch_now answers reduced_at :
  GraphTaskSnapshotV1_validate s = Ok () → gs_root s = GraphPending →
  Forall tracked (gs_predicates s) →
  validate_observations_not_after s dispatch_now = Ok () → dispatch_now ≤ reduced_at →
  answers_ok s reduced_at answers →
  ∃ plan, evaluate_claimed_task s dispatch_now answers reduced_at = Ok plan
  ∧ plan_ok s plan ∧ Forall tracked (gs_predicates (plan_snapshot plan)).
Proof.
  intros Hv Hp Htr Hobs Hle Hans.
  destruct (evaluate_claimed_task_ok s dispatch_now answers reduced_at)
    as (plan & ? & ? & ? & _); try done. by exists plan.
Qed.

End worker.
