(* ===== verification/PaymentTask.v ===== *)
(** Payment verification tasks: the durable snapshot, provider evidence and the
    reducer that decides them.

    [locks-service/src/application/models/payment_v2.rs] (snapshot, provider
    status, validation and replacement rules) and
    [application/payment_v2_reducer.rs]. *)

From S2P Require Import Prelude RustStr Externals Ids Json LockPolicy Wire Errors.

Definition PAYMENT_TASK_SNAPSHOT_VERSION : Z := 1.

(** * Data *)

Inductive PaymentAssetV2 : Set := Btc.

Record PaymentTermsV2 := MkPaymentTermsV2 {
  terms_recipient_pubky : CreatorPubky;
  terms_amount : string;
  terms_amount_sats : Z;
  terms_asset : PaymentAssetV2;
  terms_minimum_confirmations : Z;
}.

Inductive PaymentInvoiceState :=
  | InvoicePending
  | InvoiceCreated (invoice_created_at proposal_expires_at : OffsetDateTime).

Inductive PaymentRequestStateV2 :=
  | RequestProposed | RequestProposalExpired | RequestAccepted | RequestRejected
  | RequestCanceled | RequestProofSubmitted | RequestActiveRecurring
  | RequestRecoveryRequired | RequestInvalidConflict.

Inductive PaymentStateV2 :=
  | PaymentUndetected | PaymentDetected | PaymentConfirmed | PaymentExpired.

Inductive PaymentSampleStatusV2 := SampleUndetected | SampleDetected | SampleConfirmed.

Record BitcoinOutpointV2 := MkOutpoint { op_txid : string; op_vout : Z }.

Record PaymentSampleV2 := MkPaymentSample {
  sample_observed_at : OffsetDateTime;
  sample_status : PaymentSampleStatusV2;
  sample_outpoint : option BitcoinOutpointV2;
  sample_confirmations : Z;
  sample_amount_matched : bool;
}.

Record PaymentProviderStatus := MkProviderStatus {
  prov_creator : CreatorPubky;
  prov_bundle_id : BundleId;
  prov_request_state : PaymentRequestStateV2;
  prov_payment_state : PaymentStateV2;
  prov_invoice_created_at : OffsetDateTime;
  prov_proposal_expires_at : OffsetDateTime;
  prov_deadline : OffsetDateTime;
  prov_asset : PaymentAssetV2;
  prov_minimum_confirmations : Z;
  prov_current_sample : option PaymentSampleV2;
  prov_first_threshold_satisfied : option PaymentSampleV2;
}.

Inductive PaymentOperationalErrorCategory :=
  | PayRateLimited | PayNotFound | PayServer | PayTimeout | PayTransport.

Inductive PaymentRootState :=
  | PaymentRootPending
  | PaymentRootSatisfied
  | PaymentRootExpired (reason : VerificationTerminalReason)
  | PaymentRootFailed (reason : VerificationTerminalReason).

Record PaymentTaskSnapshotV1 := MkPaymentSnapshot {
  pt_schema_version : Z;
  pt_creator : CreatorPubky;
  pt_bundle_id : BundleId;
  pt_submitted_proof_bundle : SubmittedProofBundleV2;
  pt_pubky_lock_resource : PubkyLockResource;
  pt_lock_hash : bytes;
  pt_reader : CreatorPubky;
  pt_payment : PaymentTermsV2;
  pt_accepted_at : OffsetDateTime;
  pt_deadline_at : OffsetDateTime;
  pt_invoice : PaymentInvoiceState;
  pt_provider_status : option PaymentProviderStatus;
  pt_failure_count : Z;
  pt_failure_total : Z;
  pt_first_failure_at : option OffsetDateTime;
  pt_last_failure_at : option OffsetDateTime;
  pt_last_category : option PaymentOperationalErrorCategory;
  pt_last_http_status : option Z;
  pt_next_due_at : option OffsetDateTime;
  pt_root : PaymentRootState;
}.

#[global] Instance PaymentAssetV2_eq_dec : EqDecision PaymentAssetV2.
Proof. solve_decision. Defined.
#[global] Instance PaymentTermsV2_eq_dec : EqDecision PaymentTermsV2.
Proof. solve_decision. Defined.
#[global] Instance PaymentInvoiceState_eq_dec : EqDecision PaymentInvoiceState.
Proof. solve_decision. Defined.
#[global] Instance PaymentRequestStateV2_eq_dec : EqDecision PaymentRequestStateV2.
Proof. solve_decision. Defined.
#[global] Instance PaymentStateV2_eq_dec : EqDecision PaymentStateV2.
Proof. solve_decision. Defined.
#[global] Instance PaymentSampleStatusV2_eq_dec : EqDecision PaymentSampleStatusV2.
Proof. solve_decision. Defined.
#[global] Instance BitcoinOutpointV2_eq_dec : EqDecision BitcoinOutpointV2.
Proof. solve_decision. Defined.
#[global] Instance PaymentSampleV2_eq_dec : EqDecision PaymentSampleV2.
Proof. solve_decision. Defined.
#[global] Instance PaymentProviderStatus_eq_dec : EqDecision PaymentProviderStatus.
Proof. solve_decision. Defined.
#[global] Instance PaymentOperationalErrorCategory_eq_dec :
  EqDecision PaymentOperationalErrorCategory.
Proof. solve_decision. Defined.
#[global] Instance PaymentRootState_eq_dec : EqDecision PaymentRootState.
Proof. solve_decision. Defined.

(** The fields no operation changes after admission. *)
Record PaymentBinding := MkPaymentBinding {
  pb_schema_version : Z;
  pb_creator : CreatorPubky;
  pb_bundle_id : BundleId;
  pb_submitted : SubmittedProofBundleV2;
  pb_resource : PubkyLockResource;
  pb_lock_hash : bytes;
  pb_reader : CreatorPubky;
  pb_payment : PaymentTermsV2;
  pb_accepted_at : OffsetDateTime;
  pb_deadline_at : OffsetDateTime;
}.

#[global] Instance SubmittedProofBundleV2_eq_dec : EqDecision SubmittedProofBundleV2.
Proof. solve_decision. Defined.
#[global] Instance PaymentBinding_eq_dec : EqDecision PaymentBinding.
Proof. solve_decision. Defined.

Definition binding_of (s : PaymentTaskSnapshotV1) : PaymentBinding :=
  MkPaymentBinding (pt_schema_version s) (pt_creator s) (pt_bundle_id s)
    (pt_submitted_proof_bundle s) (pt_pubky_lock_resource s) (pt_lock_hash s) (pt_reader s)
    (pt_payment s) (pt_accepted_at s) (pt_deadline_at s).

(** Field updates. *)
Definition pt_update (s : PaymentTaskSnapshotV1) (invoice : PaymentInvoiceState)
    (status : option PaymentProviderStatus) (count total : Z)
    (first_failure last_failure : option OffsetDateTime)
    (category : option PaymentOperationalErrorCategory) (due : option OffsetDateTime)
    (root : PaymentRootState) : PaymentTaskSnapshotV1 :=
  MkPaymentSnapshot (pt_schema_version s) (pt_creator s) (pt_bundle_id s)
    (pt_submitted_proof_bundle s) (pt_pubky_lock_resource s) (pt_lock_hash s) (pt_reader s)
    (pt_payment s) (pt_accepted_at s) (pt_deadline_at s) invoice status count total
    first_failure last_failure category (pt_last_http_status s) due root.

Definition pt_with_root (s : PaymentTaskSnapshotV1) (root : PaymentRootState) :=
  pt_update s (pt_invoice s) (pt_provider_status s) (pt_failure_count s) (pt_failure_total s)
    (pt_first_failure_at s) (pt_last_failure_at s) (pt_last_category s) (pt_next_due_at s) root.

Definition pt_with_invoice (s : PaymentTaskSnapshotV1) (invoice : PaymentInvoiceState) :=
  pt_update s invoice (pt_provider_status s) (pt_failure_count s) (pt_failure_total s)
    (pt_first_failure_at s) (pt_last_failure_at s) (pt_last_category s) (pt_next_due_at s)
    (pt_root s).

Definition pt_with_status (s : PaymentTaskSnapshotV1) (status : PaymentProviderStatus) :=
  pt_update s (pt_invoice s) (Some status) 0 (pt_failure_total s)
    (pt_first_failure_at s) (pt_last_failure_at s) (pt_last_category s) None (pt_root s).

(** * Root states *)

Definition PaymentRootState_terminal_status (r : PaymentRootState) :
    option VerificationTaskStatus :=
  match r with
  | PaymentRootPending => None
  | PaymentRootSatisfied => Some PublishingEntitlement
  | PaymentRootExpired _ => Some Expired
  | PaymentRootFailed _ => Some Failed
  end.

Definition PaymentRootState_terminal_reason (r : PaymentRootState) :
    option VerificationTerminalReason :=
  match r with
  | PaymentRootPending | PaymentRootSatisfied => None
  | PaymentRootExpired reason | PaymentRootFailed reason => Some reason
  end.

(** * Validation of provider data *)

Definition validate_timestamp (t : OffsetDateTime) : result string () :=
  if is_multiple_of (nanosecond t) 1000 then Ok ()
  else Err "provider timestamp exceeds microsecond precision".

Definition PaymentTermsV2_validate (p : PaymentTermsV2) (creator : CreatorPubky) :
    result string () :=
  reject_if ((terms_recipient_pubky p != creator)
             || (terms_amount_sats p =? 0)
             || (parse_u64 (terms_amount p) != Some (terms_amount_sats p))
             || negb (bytes_all is_ascii_digit (terms_amount p))
             || (terms_asset p != Btc)
             || (6 <? terms_minimum_confirmations p))
    "invalid persisted payment terms".

Definition PaymentSampleV2_validate (p : PaymentSampleV2) : result string () :=
  _ ← validate_timestamp (sample_observed_at p);
  _ ← reject_if (6 <? sample_confirmations p) "provider confirmations exceed six";
  _ ← reject_if
        (is_some_and
           (λ o, negb (String.length (op_txid o) =? 64)%nat
                 || negb (bytes_all (λ b, is_ascii_hexdigit b && negb (is_ascii_uppercase b))
                            (op_txid o)))
           (sample_outpoint p))
        "invalid bitcoin outpoint";
  let valid :=
    match sample_status p with
    | SampleUndetected =>
        is_none (sample_outpoint p) && (sample_confirmations p =? 0)
        && negb (sample_amount_matched p)
    | SampleDetected => is_some (sample_outpoint p) && (sample_confirmations p =? 0)
    | SampleConfirmed => is_some (sample_outpoint p) && (0 <? sample_confirmations p)
    end in
  reject_if (negb valid) "impossible provider payment sample".

Definition PaymentProviderStatus_validate (st : PaymentProviderStatus) : result string () :=
  _ ← try_for_each validate_timestamp
        [prov_invoice_created_at st; prov_proposal_expires_at st; prov_deadline st];
  _ ← reject_if ((prov_proposal_expires_at st <=? prov_invoice_created_at st)
                 || (prov_deadline st <=? prov_proposal_expires_at st)
                 || (6 <? prov_minimum_confirmations st)
                 || (prov_asset st != Btc))
        "invalid provider status envelope";
  _ ← match prov_current_sample st with
      | Some current =>
          _ ← PaymentSampleV2_validate current;
          reject_if (sample_observed_at current <? prov_invoice_created_at st)
            "current payment evidence predates invoice"
      | None => Ok ()
      end;
  match prov_first_threshold_satisfied st with
  | Some first =>
      _ ← PaymentSampleV2_validate first;
      reject_if ((sample_observed_at first <? prov_invoice_created_at st)
                 || is_none (sample_outpoint first)
                 || negb (sample_amount_matched first)
                 || (sample_confirmations first <? prov_minimum_confirmations st)
                 || (prov_deadline st <? sample_observed_at first)
                 || (sample_status first == SampleUndetected))
        "invalid first threshold evidence"
  | None => Ok ()
  end.

Definition validate_against (st : PaymentProviderStatus) (s : PaymentTaskSnapshotV1) :
    result string () :=
  _ ← PaymentProviderStatus_validate st;
  _ ← reject_if ((prov_creator st != pt_creator s)
                 || (prov_bundle_id st != pt_bundle_id s)
                 || negb (prov_deadline st =? pt_deadline_at s)
                 || (prov_asset st != Btc)
                 || negb (prov_minimum_confirmations st
                          =? terms_minimum_confirmations (pt_payment s)))
        "provider status binding mismatch";
  match pt_invoice s with
  | InvoicePending => Err "provider status precedes invoice creation"
  | InvoiceCreated invoice_created_at proposal_expires_at =>
      _ ← reject_if (negb (prov_invoice_created_at st =? invoice_created_at)
                     || negb (prov_proposal_expires_at st =? proposal_expires_at))
            "provider status create timestamps changed";
      _ ← match prov_current_sample st with
          | Some current => PaymentSampleV2_validate current
          | None => Ok ()
          end;
      match prov_first_threshold_satisfied st with
      | Some first =>
          _ ← PaymentSampleV2_validate first;
          reject_if (is_none (sample_outpoint first)
                     || negb (sample_amount_matched first)
                     || (sample_confirmations first <? prov_minimum_confirmations st)
                     || (prov_deadline st <? sample_observed_at first)
                     || (sample_status first == SampleUndetected))
            "invalid first threshold evidence"
      | None => Ok ()
      end
  end.

(** * Snapshots *)

Section snapshots.
  Context `{Base32, TimeCrate}.

Definition PaymentTaskSnapshotV1_validate (s : PaymentTaskSnapshotV1) : result string () :=
  _ ← reject_if (negb (pt_schema_version s =? PAYMENT_TASK_SNAPSHOT_VERSION))
        "unsupported payment task snapshot schema_version";
  _ ← reject_if (negb (is_multiple_of (nanosecond (pt_accepted_at s)) 1000)
                 || negb (is_multiple_of (nanosecond (pt_deadline_at s)) 1000))
        "payment task timestamps must use microsecond precision";
  let window := pt_deadline_at s - pt_accepted_at s in
  _ ← reject_if (negb (in_range 60 604800 (whole_seconds window))
                 || negb (window =? seconds (whole_seconds window)))
        "invalid payment task verification window";
  _ ← reject_if ((resource_creator (pt_pubky_lock_resource s) != pt_creator s)
                 || (sb2_pubky_lock_resource (pt_submitted_proof_bundle s)
                     != pt_pubky_lock_resource s)
                 || (sb2_bundle_id (pt_submitted_proof_bundle s) != pt_bundle_id s)
                 || (sb2_reader_pubky (pt_submitted_proof_bundle s) != Some (pt_reader s)))
        "payment task identity diverges";
  _ ← reject_if (resource_lock_id (pt_pubky_lock_resource s)
                 != LockId_from_hash (MkLockHash (pt_lock_hash s)))
        "payment task lock hash diverges from resource";
  _ ← PaymentTermsV2_validate (pt_payment s) (pt_creator s);
  _ ← match pt_invoice s with
      | InvoiceCreated invoice_created_at proposal_expires_at =>
          _ ← validate_timestamp invoice_created_at;
          _ ← validate_timestamp proposal_expires_at;
          reject_if ((invoice_created_at <? pt_accepted_at s)
                     || (proposal_expires_at <? invoice_created_at)
                     || (pt_deadline_at s <=? proposal_expires_at))
            "invalid provider create timestamps"
      | InvoicePending => Ok ()
      end;
  _ ← match pt_provider_status s with
      | Some status =>
          _ ← reject_if (pt_invoice s == InvoicePending)
                "provider status exists before invoice creation";
          validate_against status s
      | None => Ok ()
      end;
  _ ← (if pt_failure_total s =? 0 then
         reject_if (negb (pt_failure_count s =? 0)
                    || is_some (pt_first_failure_at s) || is_some (pt_last_failure_at s)
                    || is_some (pt_last_category s) || is_some (pt_last_http_status s))
           "payment operational aggregate is inconsistent"
       else
         match pt_first_failure_at s, pt_last_failure_at s, pt_last_category s with
         | Some first, Some last, Some _ =>
             reject_if ((pt_failure_total s <? pt_failure_count s)
                        || (first <? pt_accepted_at s) || (last <? first)
                        || (pt_deadline_at s <? last))
               "payment operational aggregate is invalid"
         | _, _, _ => Err "payment operational aggregate is incomplete"
         end);
  reject_if (is_some_and (λ due, pt_deadline_at s <? due) (pt_next_due_at s))
    "payment retry exceeds deadline".

Definition validate_payment_pristine_admission (s : PaymentTaskSnapshotV1) : result string () :=
  _ ← PaymentTaskSnapshotV1_validate s;
  reject_if ((pt_invoice s != InvoicePending) || is_some (pt_provider_status s)
             || (pt_root s != PaymentRootPending) || is_some (pt_next_due_at s)
             || negb (pt_failure_total s =? 0))
    "new payment task must be pristine".

Definition PaymentTaskSnapshotV1_new (submitted : SubmittedProofBundleV2) (hash : bytes)
    (payment : PaymentPolicyV2) (accepted_at : OffsetDateTime)
    (verification_window_seconds : Z) : result string PaymentTaskSnapshotV1 :=
  reader ← ok_or (sb2_reader_pubky submitted) "payment task requires reader";
  let creator := resource_creator (sb2_pubky_lock_resource submitted) in
  _ ← reject_if ((pp_recipient_pubky payment != creator)
                 || (pp_asset payment != "BTC")
                 || (6 <? pp_minimum_confirmations payment))
        "invalid payment task policy";
  amount_sats ← ok_or (parse_u64 (pp_amount payment)) "invalid payment task amount";
  _ ← reject_if ((amount_sats =? 0) || negb (bytes_all is_ascii_digit (pp_amount payment)))
        "invalid payment task amount";
  window ← ok_or (if verification_window_seconds <=? I64_MAX
                  then Some verification_window_seconds else None)
             "verification window exceeds supported duration";
  _ ← reject_if (negb (in_range 60 604800 window)) "invalid verification window";
  deadline_at ← ok_or (time_checked_add accepted_at (seconds window))
                  "verification deadline overflow";
  let snapshot :=
    MkPaymentSnapshot PAYMENT_TASK_SNAPSHOT_VERSION creator (sb2_bundle_id submitted) submitted
      (sb2_pubky_lock_resource submitted) hash reader
      (MkPaymentTermsV2 (pp_recipient_pubky payment) (pp_amount payment) amount_sats Btc
         (pp_minimum_confirmations payment))
      accepted_at deadline_at InvoicePending None 0 0 None None None None None
      PaymentRootPending in
  _ ← validate_payment_pristine_admission snapshot;
  Ok snapshot.

Definition has_same_admission_binding (s other : PaymentTaskSnapshotV1) : bool :=
  (pt_schema_version s =? pt_schema_version other)
  && (pt_creator s == pt_creator other)
  && (pt_bundle_id s == pt_bundle_id other)
  && (pt_submitted_proof_bundle s == pt_submitted_proof_bundle other)
  && (pt_pubky_lock_resource s == pt_pubky_lock_resource other)
  && (pt_lock_hash s == pt_lock_hash other)
  && (pt_reader s == pt_reader other)
  && (pt_payment s == pt_payment other)
  && (pt_accepted_at s =? pt_accepted_at other)
  && (pt_deadline_at s =? pt_deadline_at other).

(** The threshold evidence stored in a snapshot. *)
Definition first_threshold (s : PaymentTaskSnapshotV1) : option PaymentSampleV2 :=
  pt_provider_status s ≫= prov_first_threshold_satisfied.

(** The comparison of the immutable fields is the negation of
    [has_same_admission_binding], written out in the source. *)
Definition validate_payment_progress_from (next current : PaymentTaskSnapshotV1) :
    result string () :=
  _ ← PaymentTaskSnapshotV1_validate current;
  _ ← PaymentTaskSnapshotV1_validate next;
  _ ← reject_if ((pt_root current != PaymentRootPending) && (pt_root next != pt_root current))
        "terminal payment root cannot change";
  _ ← reject_if (negb (pt_schema_version next =? pt_schema_version current)
                 || (pt_creator next != pt_creator current)
                 || (pt_bundle_id next != pt_bundle_id current)
                 || (pt_submitted_proof_bundle next != pt_submitted_proof_bundle current)
                 || (pt_pubky_lock_resource next != pt_pubky_lock_resource current)
                 || (pt_lock_hash next != pt_lock_hash current)
                 || (pt_reader next != pt_reader current)
                 || (pt_payment next != pt_payment current)
                 || negb (pt_accepted_at next =? pt_accepted_at current)
                 || negb (pt_deadline_at next =? pt_deadline_at current))
        "payment snapshot immutable binding changed";
  _ ← reject_if ((pt_invoice current != InvoicePending)
                 && (pt_invoice next != pt_invoice current))
        "provider create response changed";
  _ ← reject_if (is_some (first_threshold current)
                 && (first_threshold current != first_threshold next))
        "sticky payment threshold evidence changed";
  reject_if (pt_failure_total next <? pt_failure_total current)
    "payment operational total regressed".

Definition apply_create_response (s : PaymentTaskSnapshotV1)
    (invoice_created_at proposal_expires_at deadline : OffsetDateTime) :
    result string PaymentTaskSnapshotV1 :=
  _ ← reject_if ((pt_invoice s != InvoicePending) || negb (deadline =? pt_deadline_at s))
        "provider create response conflicts with payment task";
  let next := pt_with_invoice s (InvoiceCreated invoice_created_at proposal_expires_at) in
  _ ← validate_payment_progress_from next s;
  Ok next.

Definition apply_status (s : PaymentTaskSnapshotV1) (status : PaymentProviderStatus) :
    result string PaymentTaskSnapshotV1 :=
  _ ← validate_against status s;
  let next := pt_with_status s status in
  _ ← validate_payment_progress_from next s;
  Ok next.

(** * The reducer *)

Definition accepted_state (r : PaymentRequestStateV2) : bool :=
  match r with
  | RequestAccepted | RequestProofSubmitted | RequestActiveRecurring => true
  | _ => false
  end.

Definition next_payment_root (status : PaymentProviderStatus) (deadline now : OffsetDateTime) :
    PaymentRootState :=
  if is_some (prov_first_threshold_satisfied status) then
    if accepted_state (prov_request_state status) then PaymentRootSatisfied
    else PaymentRootFailed InvalidVerifierResponse
  else
    match prov_request_state status, prov_payment_state status with
    | RequestRejected, _ => PaymentRootExpired PaymentRequestRejected
    | RequestCanceled, _ => PaymentRootExpired PaymentRequestCanceled
    | RequestProposalExpired, _ => PaymentRootExpired ReasonProposalExpired
    | (RequestAccepted | RequestProofSubmitted | RequestActiveRecurring), PaymentExpired =>
        PaymentRootExpired PaymentDeadlineExpired
    | RequestInvalidConflict, _ => PaymentRootFailed VerificationConflict
    | RequestRecoveryRequired, _ =>
        if deadline <=? now then PaymentRootFailed VerificationUnavailableByDeadline
        else PaymentRootPending
    | RequestProposed, PaymentUndetected =>
        if now <? prov_proposal_expires_at status then PaymentRootPending
        else if deadline <=? now then PaymentRootFailed VerificationUnavailableByDeadline
        else PaymentRootFailed InvalidVerifierResponse
    | (RequestAccepted | RequestProofSubmitted | RequestActiveRecurring),
      (PaymentUndetected | PaymentDetected | PaymentConfirmed) =>
        if now <? deadline then PaymentRootPending
        else PaymentRootFailed VerificationUnavailableByDeadline
    | _, _ => PaymentRootFailed InvalidVerifierResponse
    end.

Definition reduce_payment_snapshot (s : PaymentTaskSnapshotV1) (now : OffsetDateTime) :
    result string PaymentTaskSnapshotV1 :=
  _ ← PaymentTaskSnapshotV1_validate s;
  if pt_root s != PaymentRootPending then Ok s
  else
    let root :=
      match pt_provider_status s with
      | None =>
          if pt_deadline_at s <=? now
          then PaymentRootFailed VerificationUnavailableByDeadline else pt_root s
      | Some status => next_payment_root status (pt_deadline_at s) now
      end in
    let next := pt_with_root s root in
    _ ← PaymentTaskSnapshotV1_validate next;
    Ok next.

(** * Decisions *)

(** What threshold evidence establishes: the amount was matched by a transaction
    output with enough confirmations, seen between invoice and deadline. *)
Record threshold_evidence (s : PaymentTaskSnapshotV1) (first : PaymentSampleV2) : Prop := {
  evidence_outpoint : ∃ o, sample_outpoint first = Some o ∧ String.length (op_txid o) = 64%nat;
  evidence_amount : sample_amount_matched first = true;
  evidence_confirmations :
    terms_minimum_confirmations (pt_payment s) ≤ sample_confirmations first ≤ 6;
  evidence_time : pt_accepted_at s ≤ sample_observed_at first ≤ pt_deadline_at s;
  evidence_status : sample_status first = SampleDetected ∨ sample_status first = SampleConfirmed;
}.

Lemma validate_with_root s r :
  PaymentTaskSnapshotV1_validate (pt_with_root s r) = PaymentTaskSnapshotV1_validate s.
Proof. done. Qed.

Lemma payment_with_root_id s : pt_with_root s (pt_root s) = s.
Proof. by destruct s. Qed.

Lemma valid_payment_status s status :
  PaymentTaskSnapshotV1_validate s = Ok () → pt_provider_status s = Some status →
  validate_against status s = Ok ()
  ∧ ∃ c e, pt_invoice s = InvoiceCreated c e ∧ pt_accepted_at s ≤ c ≤ e ∧ e < pt_deadline_at s.
Proof.
  unfold PaymentTaskSnapshotV1_validate. intros Hv Hst. rewrite Hst in Hv. peel.
  match goal with Hx : (pt_invoice s == InvoicePending) = false |- _ => props end.
  split; [done|]. destruct (pt_invoice s) as [|c e]; [done|]. peel. props.
  exists c, e. split_and!; (done || lia).
Qed.

Lemma valid_sample p :
  PaymentSampleV2_validate p = Ok () →
  sample_confirmations p ≤ 6
  ∧ (∀ o, sample_outpoint p = Some o → String.length (op_txid o) = 64%nat).
Proof.
  unfold PaymentSampleV2_validate. intros Hv. peel. props. split; [done|]. intros o Ho.
  match goal with Hx : is_some_and _ _ = false |- _ =>
    rewrite is_some_and_false in Hx; specialize (Hx o Ho); cbn in Hx end.
  props. by apply Nat.eqb_eq.
Qed.

Lemma validate_against_evidence status s first :
  validate_against status s = Ok () → prov_first_threshold_satisfied status = Some first →
  (∃ c e, pt_invoice s = InvoiceCreated c e ∧ pt_accepted_at s ≤ c) →
  threshold_evidence s first.
Proof.
  unfold validate_against, PaymentProviderStatus_validate. intros Hv Hf (c & e & Hinv & Hc).
  rewrite Hf, Hinv in Hv. peel. props.
  match goal with Hx : PaymentSampleV2_validate first = Ok _ |- _ =>
    apply valid_sample in Hx as [Hmax Hlen] end.
  match goal with Hx : is_Some (sample_outpoint first) |- _ => destruct Hx as [o Ho] end.
  split; [by eauto|done|lia|lia|]. destruct (sample_status first); auto; done.
Qed.

Lemma stored_evidence s first :
  PaymentTaskSnapshotV1_validate s = Ok () → first_threshold s = Some first →
  threshold_evidence s first.
Proof.
  unfold first_threshold. intros Hv (status & Hst & Hf)%bind_Some.
  destruct (valid_payment_status s status Hv Hst) as (Hag & c & e & Hinv & Hc & _).
  eapply validate_against_evidence; [done|done|]. exists c, e. split; [done|lia].
Qed.

(** When the provider's answer settles the task as paid. *)
Definition payment_settled (s : PaymentTaskSnapshotV1) : Prop :=
  ∃ status, pt_provider_status s = Some status
  ∧ accepted_state (prov_request_state status) = true
  ∧ is_Some (prov_first_threshold_satisfied status).

Lemma next_payment_root_satisfied status deadline now :
  next_payment_root status deadline now = PaymentRootSatisfied ↔
  accepted_state (prov_request_state status) = true
  ∧ is_Some (prov_first_threshold_satisfied status).
Proof.
  unfold next_payment_root. rewrite <- is_some_true.
  destruct (is_some _), (prov_request_state status), (prov_payment_state status); cbn;
    repeat case_match; naive_solver.
Qed.

Lemma next_payment_root_deadline status deadline now :
  deadline ≤ now → prov_proposal_expires_at status < deadline →
  next_payment_root status deadline now ≠ PaymentRootPending.
Proof.
  intros Hnow Hexp. unfold next_payment_root.
  rewrite (proj2 (Z.leb_le deadline now)), (proj2 (Z.ltb_ge now deadline)),
    (proj2 (Z.ltb_ge now (prov_proposal_expires_at status))) by lia.
  by destruct (is_some _), (prov_request_state status), (prov_payment_state status).
Qed.

Lemma valid_payment_expiry s status :
  PaymentTaskSnapshotV1_validate s = Ok () → pt_provider_status s = Some status →
  prov_proposal_expires_at status < pt_deadline_at s.
Proof.
  intros Hv Hst. destruct (valid_payment_status s status Hv Hst) as (Hag & c & e & Hinv & _ & He).
  unfold validate_against in Hag. rewrite Hinv in Hag. peel. props. lia.
Qed.

Lemma reduce_payment_snapshot_ok s now :
  PaymentTaskSnapshotV1_validate s = Ok () →
  ∃ s', reduce_payment_snapshot s now = Ok s' ∧ PaymentTaskSnapshotV1_validate s' = Ok ()
  ∧ s' = pt_with_root s (pt_root s')
  ∧ (pt_root s ≠ PaymentRootPending → s' = s)
  ∧ (pt_deadline_at s ≤ now → pt_root s' ≠ PaymentRootPending)
  ∧ (pt_root s = PaymentRootPending → pt_root s' = PaymentRootSatisfied ↔ payment_settled s).
Proof.
  intros Hv. unfold reduce_payment_snapshot. rewrite Hv. cbn [mbind result_bind].
  destruct (decide (pt_root s = PaymentRootPending)) as [Hp|Hp].
  2: { rewrite (proj2 (eqb_false _ _) Hp). exists s. cbn.
       split_and!; try done. by rewrite payment_with_root_id. }
  rewrite Hp, eqb_same. cbn [negb]. rewrite validate_with_root, Hv. cbn [mbind result_bind].
  eexists. split_and!; [done|by rewrite validate_with_root|done|done| |]; cbn.
  - intros Hd. destruct (pt_provider_status s) as [status|] eqn:Hst.
    + apply next_payment_root_deadline; [done|]. by apply valid_payment_expiry.
    + by rewrite (proj2 (Z.leb_le _ _) Hd).
  - intros _. unfold payment_settled. destruct (pt_provider_status s) as [status|].
    + rewrite next_payment_root_satisfied. naive_solver.
    + destruct (_ <=? _); naive_solver.
Qed.

(** C32: on every valid payment snapshot the reducer succeeds, changes nothing
    but the root and keeps the snapshot valid.  A terminal root is never left; no
    task stays pending past its deadline; and a pending task is satisfied exactly
    when the provider reports an accepted request with threshold evidence, which
    then is a transaction output matching the amount, with the confirmations the
    lock demands, observed between acceptance and deadline. *)
Theorem reduce_payment_snapshot_spec s now :
  PaymentTaskSnapshotV1_validate s = Ok () →
  ∃ s', reduce_payment_snapshot s now = Ok s' ∧ PaymentTaskSnapshotV1_validate s' = Ok ()
  ∧ s' = pt_with_root s (pt_root s')
  ∧ (pt_root s ≠ PaymentRootPending → s' = s)
  ∧ (pt_deadline_at s ≤ now → pt_root s' ≠ PaymentRootPending)
  ∧ (pt_root s = PaymentRootPending → pt_root s' = PaymentRootSatisfied ↔ payment_settled s)
  ∧ (payment_settled s → ∃ first, first_threshold s = Some first ∧ threshold_evidence s first).
Proof.
  intros Hv. destruct (reduce_payment_snapshot_ok s now Hv) as (s' & ? & ? & ? & ? & ? & ?).
  exists s'. split_and!; try done.
  intros (status & Hst & _ & [first Hf]). exists first.
  assert (first_threshold s = Some first) by (unfold first_threshold; by rewrite Hst).
  split; [done|]. by apply stored_evidence.
Qed.

(** * Replacement of snapshots *)

Lemma has_same_admission_binding_true s other :
  has_same_admission_binding s other = true ↔ binding_of s = binding_of other.
Proof.
  unfold has_same_admission_binding, binding_of.
  rewrite !andb_true_iff, !eqb_true, !Z.eqb_eq. split; [|by intros [=]].
  intros (((((((((-> & ->) & ->) & ->) & ->) & ->) & ->) & ->) & ->) & ->). done.
Qed.

(** Facts that survive every accepted replacement. *)
Record payment_succession (current next : PaymentTaskSnapshotV1) : Prop := {
  succ_binding : binding_of next = binding_of current;
  succ_root : pt_root current ≠ PaymentRootPending → pt_root next = pt_root current;
  succ_invoice : pt_invoice current ≠ InvoicePending → pt_invoice next = pt_invoice current;
  succ_evidence first : first_threshold current = Some first → first_threshold next = Some first;
  succ_total : pt_failure_total current ≤ pt_failure_total next;
}.

#[global] Instance payment_succession_preorder : PreOrder payment_succession.
Proof.
  split.
  - intros s. by split.
  - intros a b c [Hb1 Hr1 Hi1 He1 Ht1] [Hb2 Hr2 Hi2 He2 Ht2]. split.
    + by rewrite Hb2.
    + intros Ha. rewrite <- (Hr1 Ha). apply Hr2. by rewrite Hr1.
    + intros Ha. rewrite <- (Hi1 Ha). apply Hi2. by rewrite Hi1.
    + auto.
    + lia.
Qed.

Lemma payment_progress_Ok next current :
  validate_payment_progress_from next current = Ok () ↔
  PaymentTaskSnapshotV1_validate current = Ok () ∧ PaymentTaskSnapshotV1_validate next = Ok ()
  ∧ payment_succession current next.
Proof.
  unfold validate_payment_progress_from. split.
  - intros Hp. peel. split_and!; [done|done|].
    match goal with
    | Hb : (negb (pt_schema_version next =? _) || _ || _ || _ || _ || _ || _ || _ || _ || _) = false
      |- _ => repeat (apply orb_false_iff in Hb as [Hb ?]) end.
    split.
    + apply has_same_admission_binding_true. unfold has_same_admission_binding. props.
      repeat match goal with Hx : _ next = _ current |- _ => rewrite Hx; clear Hx end.
      by rewrite !Z.eqb_refl, !eqb_same.
    + intros Hne. match goal with Hx : (pt_root current != _) && _ = false |- _ =>
        rewrite (proj2 (eqb_false _ _) Hne) in Hx; cbn in Hx end. by props.
    + intros Hne. match goal with Hx : (pt_invoice current != _) && _ = false |- _ =>
        rewrite (proj2 (eqb_false _ _) Hne) in Hx; cbn in Hx end. by props.
    + intros first Hf. match goal with Hx : is_some (first_threshold current) && _ = false |- _ =>
        rewrite Hf in Hx; cbn in Hx end. by props.
    + lia.
  - intros (Hvc & Hvn & [Hb Hr Hi He Ht]). injection Hb as -> -> -> -> -> -> -> -> -> ->.
    pass; [done|]. pass; [done|]. pass.
    { apply andb_false_iff. rewrite !negb_false_iff, !eqb_true.
      destruct (decide (pt_root current = PaymentRootPending)); [by left|right; by apply Hr]. }
    pass; [by rewrite !Z.eqb_refl, !eqb_same|]. pass.
    { apply andb_false_iff. rewrite !negb_false_iff, !eqb_true.
      destruct (decide (pt_invoice current = InvoicePending)); [by left|right; by apply Hi]. }
    pass; [|pass; lia].
    destruct (first_threshold current) as [f|]; [|done]. cbn.
    apply negb_false_iff, eqb_true. symmetry. by apply He.
Qed.

(** One accepted replacement of a stored snapshot. *)
Definition payment_replacement (current next : PaymentTaskSnapshotV1) : Prop :=
  validate_payment_progress_from next current = Ok ().

Lemma payment_history_succession s0 s :
  rtc payment_replacement s0 s → payment_succession s0 s.
Proof.
  induction 1 as [s|a b c Hab Hbc IH]; [reflexivity|].
  apply payment_progress_Ok in Hab as (_ & _ & Hab). by transitivity b.
Qed.

(** Along every sequence of accepted replacements the admission binding
    never changes, a terminal root and a created invoice are permanent, the
    failure total never decreases, and threshold evidence, once stored, stays
    and remains proof of payment. *)
Theorem payment_history_monotone s0 s :
  rtc payment_replacement s0 s → PaymentTaskSnapshotV1_validate s0 = Ok () →
  PaymentTaskSnapshotV1_validate s = Ok ()
  ∧ has_same_admission_binding s s0 = true
  ∧ (pt_root s0 ≠ PaymentRootPending → pt_root s = pt_root s0)
  ∧ (pt_invoice s0 ≠ InvoicePending → pt_invoice s = pt_invoice s0)
  ∧ (∀ first, first_threshold s0 = Some first →
       first_threshold s = Some first ∧ threshold_evidence s first)
  ∧ pt_failure_total s0 ≤ pt_failure_total s.
Proof.
  intros Hrtc Hv0.
  assert (PaymentTaskSnapshotV1_validate s = Ok ()) as Hv.
  { destruct (rtc_inv_r _ _ Hrtc) as [<- | (s' & _ & Hs')]; [done|].
    by apply payment_progress_Ok in Hs' as (_ & ? & _). }
  destruct (payment_history_succession s0 s Hrtc) as [Hb Hr Hi He Ht].
  split_and!; try done; [by apply has_same_admission_binding_true|].
  intros first Hf. apply He in Hf. split; [done|]. by apply stored_evidence.
Qed.

(** No provider status can be recorded for an invoice with equal creation and
    expiry times: the status envelope demands a strictly later expiry. *)
Lemma equal_invoice_timestamps_reject_every_status s t status :
  pt_invoice s = InvoiceCreated t t → is_ok (apply_status s status) = false.
Proof.
  intros Hinv. destruct (apply_status s status) as [s'|] eqn:Hst; [|done].
  unfold apply_status, validate_against, PaymentProviderStatus_validate in Hst.
  rewrite Hinv in Hst. apply bind_Ok in Hst as ([] & Hag & _). peel. props. lia.
Qed.

End snapshots.
