(* ===== verification/PaymentWorker.v ===== *)
(** The payment verification worker ([locks-server/src/payment_worker.rs]).

    One evaluation of a claimed payment task: the provider call it makes, how the
    answer (an invoice, a status or an error) changes the snapshot, the reduction
    and what the worker then asks the repository to store.  The provider client
    is a parameter: its answer is an argument. *)

From S2P Require Import Prelude RustStr Externals Ids Json LockPolicy Wire Errors PaymentTask.

Definition BACKOFF_SECONDS : list Z := [1; 2; 4; 8; 16; 30].
Definition STATUS_REPOLL_SECONDS : Z := 5.

Inductive PaymentProviderErrorKind :=
  | ProviderInvalidResponse | ProviderConflict | ProviderRetryable.

Record PaymentProviderError := MkProviderError {
  pe_kind : PaymentProviderErrorKind;
  pe_retry_after_seconds : option Z;
}.

Record PaymentProviderCreateResponse := MkCreateResponse {
  cr_invoice_created_at : OffsetDateTime;
  cr_proposal_expires_at : OffsetDateTime;
  cr_deadline : OffsetDateTime;
}.

(** What the worker asks of the repository. *)
Inductive PaymentWorkerPlan :=
  | PaymentPersist (s : PaymentTaskSnapshotV1) (now : OffsetDateTime)
  | PaymentSchedule (s : PaymentTaskSnapshotV1) (now due : OffsetDateTime).

Definition invalid_payment_snapshot (message : string) : ApplicationError :=
  Storage ("invalid payment worker snapshot: " +:+ message).

(** [x.clamp(lo, hi)]. *)
Definition clamp (lo hi x : Z) : Z := Z.max lo (Z.min hi x).

Section worker.
  Context `{Base32, TimeCrate}.

Definition with_failure (s : PaymentTaskSnapshotV1) (failure_at : OffsetDateTime)
    (due : option OffsetDateTime) : PaymentTaskSnapshotV1 :=
  pt_update s (pt_invoice s) (pt_provider_status s)
    (saturating_add U32_MAX (pt_failure_count s) 1)
    (saturating_add U32_MAX (pt_failure_total s) 1)
    (get_or_insert (pt_first_failure_at s) failure_at) (Some failure_at) (Some PayTransport)
    due (pt_root s).

Definition handle_provider_error (s : PaymentTaskSnapshotV1) (error : PaymentProviderError)
    (observed_at : OffsetDateTime) : result ApplicationError PaymentWorkerPlan :=
  match pe_kind error with
  | ProviderInvalidResponse =>
      Ok (PaymentPersist (pt_with_root s (PaymentRootFailed InvalidVerifierResponse)) observed_at)
  | ProviderConflict =>
      Ok (PaymentPersist (pt_with_root s (PaymentRootFailed VerificationConflict)) observed_at)
  | ProviderRetryable =>
      let failure_at := Z.min observed_at (pt_deadline_at s) in
      let failed := with_failure s failure_at (pt_next_due_at s) in
      if pt_deadline_at s <=? observed_at then
        s' ← map_err invalid_payment_snapshot (reduce_payment_snapshot failed observed_at);
        Ok (PaymentPersist s' observed_at)
      else
        let index := Nat.min (Z.to_nat (saturating_sub (pt_failure_count failed) 1))
                       (length BACKOFF_SECONDS - 1) in
        let secs := clamp 1 60 (default (BACKOFF_SECONDS !!! index)
                                  (pe_retry_after_seconds error)) in
        let due := Z.min (observed_at + seconds secs) (pt_deadline_at s) in
        Ok (PaymentSchedule (with_failure s failure_at (Some due)) observed_at due)
  end.

Definition handle_create_response (s : PaymentTaskSnapshotV1)
    (created : PaymentProviderCreateResponse) (now : OffsetDateTime) :
    result ApplicationError PaymentWorkerPlan :=
  match apply_create_response s (cr_invoice_created_at created) (cr_proposal_expires_at created)
          (cr_deadline created) with
  | Err _ =>
      Ok (PaymentPersist (pt_with_root s (PaymentRootFailed InvalidVerifierResponse)) now)
  | Ok s' =>
      if pt_deadline_at s <=? now then
        s'' ← map_err invalid_payment_snapshot (reduce_payment_snapshot s' now);
        Ok (PaymentPersist s'' now)
      else Ok (PaymentSchedule s' now (Z.min (now + 1000000) (pt_deadline_at s)))
  end.

Definition handle_status (s : PaymentTaskSnapshotV1) (status : PaymentProviderStatus)
    (now : OffsetDateTime) : result ApplicationError PaymentWorkerPlan :=
  match apply_status s status with
  | Err _ =>
      Ok (PaymentPersist (pt_with_root s (PaymentRootFailed InvalidVerifierResponse)) now)
  | Ok s' =>
      s'' ← map_err invalid_payment_snapshot (reduce_payment_snapshot s' now);
      if pt_root s'' == PaymentRootPending
      then Ok (PaymentSchedule s'' now
                 (Z.min (now + seconds STATUS_REPOLL_SECONDS) (pt_deadline_at s'')))
      else Ok (PaymentPersist s'' now)
  end.

(** The evaluation part of [run_once_with_shutdown].  [create] and [status] are
    the provider's answers to the call that is made, [answered_at] the clock
    reading once it returned. *)
Definition evaluate_claimed_payment (s : PaymentTaskSnapshotV1) (dispatch_now : OffsetDateTime)
    (create : result PaymentProviderError PaymentProviderCreateResponse)
    (status : result PaymentProviderError PaymentProviderStatus)
    (answered_at : OffsetDateTime) : result ApplicationError PaymentWorkerPlan :=
  if pt_root s != PaymentRootPending then Ok (PaymentPersist s dispatch_now)
  else if pt_deadline_at s <=? dispatch_now then
    s' ← map_err invalid_payment_snapshot (reduce_payment_snapshot s dispatch_now);
    Ok (PaymentPersist s' dispatch_now)
  else if pt_invoice s == InvoicePending then
    match create with
    | Ok created => handle_create_response s created answered_at
    | Err error => handle_provider_error s error answered_at
    end
  else
    match status with
    | Ok st => handle_status s st answered_at
    | Err error => handle_provider_error s error answered_at
    end.

(** * Every evaluation is storable *)

(** What the repository demands of a plan for the claimed snapshot [s]. *)
Definition payment_plan_ok (s : PaymentTaskSnapshotV1) (plan : PaymentWorkerPlan) : Prop :=
  match plan with
  | PaymentPersist s' _ => payment_replacement s s' ∧ pt_root s' ≠ PaymentRootPending
  | PaymentSchedule s' now due =>
      payment_replacement s s' ∧ pt_root s' = PaymentRootPending
      ∧ now < due ≤ pt_deadline_at s
  end.

(** Counters in their width; the clock is not behind recorded events. *)
Record clock_ahead (s : PaymentTaskSnapshotV1) (now : OffsetDateTime) : Prop := {
  ahead_accepted : pt_accepted_at s ≤ now;
  ahead_failure t : pt_last_failure_at s = Some t → t ≤ now;
  ahead_count : 0 ≤ pt_failure_count s;
  ahead_total : 0 ≤ pt_failure_total s ≤ U32_MAX;
}.

Lemma with_root_replacement s r :
  PaymentTaskSnapshotV1_validate s = Ok () → pt_root s = PaymentRootPending →
  payment_replacement s (pt_with_root s r).
Proof.
  intros Hv Hp. apply payment_progress_Ok. split_and!; [done|by rewrite validate_with_root|].
  split; try done; lia.
Qed.

(** Reducing an accepted replacement gives an accepted replacement. *)
Lemma reduce_replacement s s' now :
  payment_replacement s s' → pt_root s' = PaymentRootPending →
  ∃ s'', reduce_payment_snapshot s' now = Ok s'' ∧ payment_replacement s s''
         ∧ pt_deadline_at s'' = pt_deadline_at s
         ∧ (pt_deadline_at s ≤ now → pt_root s'' ≠ PaymentRootPending).
Proof.
  intros (Hv & Hv' & Hsucc)%payment_progress_Ok Hp.
  assert (pt_deadline_at s' = pt_deadline_at s) as Hd.
  { destruct Hsucc as [Hb _ _ _ _]. by injection Hb. }
  destruct (reduce_payment_snapshot_ok s' now Hv') as (s'' & Hr & Hv'' & Hs'' & _ & Hdl & _).
  exists s''. split_and!; [done| |by rewrite Hs''|by rewrite <- Hd].
  apply payment_progress_Ok. split_and!; [done|done|]. transitivity s'; [done|].
  rewrite Hs''. split; try done; lia.
Qed.

Lemma replacement_refl s :
  PaymentTaskSnapshotV1_validate s = Ok () → payment_replacement s s.
Proof. intros Hv. by apply payment_progress_Ok. Qed.

Lemma valid_payment_window s :
  PaymentTaskSnapshotV1_validate s = Ok () → pt_accepted_at s < pt_deadline_at s.
Proof.
  intros Hv. unfold PaymentTaskSnapshotV1_validate in Hv. peel. props.
  unfold seconds, NANOS_PER_SEC in *. lia.
Qed.

Lemma with_failure_valid s now due :
  PaymentTaskSnapshotV1_validate s = Ok () → clock_ahead s now →
  (∀ t, due = Some t → t ≤ pt_deadline_at s) →
  PaymentTaskSnapshotV1_validate (with_failure s (Z.min now (pt_deadline_at s)) due) = Ok ().
Proof.
  intros Hv [Ha Hl Hc Ht] Hdue. pose proof (valid_payment_window s Hv).
  unfold PaymentTaskSnapshotV1_validate in *.
  do 8 (apply bind_Ok in Hv as ([] & Hg & Hv); pass;
        [first [exact Hg | by apply reject_if_Ok in Hg] | clear Hg]).
  cbn [pt_failure_count pt_failure_total pt_first_failure_at pt_last_failure_at pt_last_category
       pt_next_due_at pt_deadline_at pt_accepted_at with_failure pt_update].
  apply bind_Ok in Hv as ([] & Hagg & _). pass.
  - rewrite (proj2 (Z.eqb_neq (saturating_add U32_MAX (pt_failure_total s) 1) 0))
      by (unfold saturating_add, U32_MAX in *; lia).
    destruct (Z.eqb_spec (pt_failure_total s) 0) as [H0'|H0'].
    + peel. props. match goal with Hf : pt_first_failure_at s = None |- _ => rewrite Hf end. cbn.
      pass. unfold saturating_add, U32_MAX in *. lia.
    + destruct (pt_first_failure_at s) as [f|], (pt_last_failure_at s) as [l|],
        (pt_last_category s); try done. specialize (Hl l eq_refl).
      peel. props. cbn. pass. unfold saturating_add, U32_MAX in *. lia.
  - pass. apply is_some_and_false. intros t Hdt. specialize (Hdue t Hdt). lia.
Qed.

Lemma with_failure_replacement s now due :
  PaymentTaskSnapshotV1_validate s = Ok () → clock_ahead s now →
  (∀ t, due = Some t → t ≤ pt_deadline_at s) →
  payment_replacement s (with_failure s (Z.min now (pt_deadline_at s)) due).
Proof.
  intros Hv Hc Hdue. apply payment_progress_Ok.
  split_and!; [done|by apply with_failure_valid|]. split; try done.
  destruct Hc. cbn. unfold saturating_add, U32_MAX in *. lia.
Qed.

Lemma valid_payment_due s due :
  PaymentTaskSnapshotV1_validate s = Ok () → pt_next_due_at s = Some due →
  due ≤ pt_deadline_at s.
Proof.
  intros Hv Hd. unfold PaymentTaskSnapshotV1_validate in Hv. peel.
  match goal with Hx : is_some_and _ (pt_next_due_at s) = false |- _ =>
    rewrite Hd in Hx; cbn in Hx; lia end.
Qed.

Section evaluation.
Context (s : PaymentTaskSnapshotV1) (now : OffsetDateTime).
Context (Hv : PaymentTaskSnapshotV1_validate s = Ok ()) (Hp : pt_root s = PaymentRootPending).
Context (Hc : clock_ahead s now).

Lemma handle_provider_error_ok error :
  ∃ plan, handle_provider_error s error now = Ok plan ∧ payment_plan_ok s plan.
Proof.
  unfold handle_provider_error. destruct (pe_kind error).
  - eexists. split; [done|]. split; [by apply with_root_replacement|done].
  - eexists. split; [done|]. split; [by apply with_root_replacement|done].
  - destruct (Z.leb_spec (pt_deadline_at s) now).
    + destruct (reduce_replacement s (with_failure s (Z.min now (pt_deadline_at s))
        (pt_next_due_at s)) now) as (s'' & -> & Hr & _ & Hroot).
      { apply with_failure_replacement; [done..|]. intros t. by apply valid_payment_due. }
      { done. }
      eexists. split; [done|]. split; [done|by apply Hroot].
    + eexists. split; [done|]. split_and!; [|done|unfold seconds, clamp, NANOS_PER_SEC; lia..].
      apply with_failure_replacement; [done..|]. intros t [= <-]. lia.
Qed.

Lemma handle_create_response_ok created :
  ∃ plan, handle_create_response s created now = Ok plan ∧ payment_plan_ok s plan.
Proof.
  unfold handle_create_response. destruct (apply_create_response _ _ _ _) as [s'|] eqn:Happ.
  - unfold apply_create_response in Happ. peel.
    match goal with Hx : validate_payment_progress_from _ s = Ok _ |- _ => rename Hx into Hrep end.
    destruct (Z.leb_spec (pt_deadline_at s) now).
    + destruct (reduce_replacement s _ now Hrep) as (s'' & -> & Hr & _ & Hroot); [done|].
      eexists. split; [done|]. split; [done|by apply Hroot].
    + eexists. split; [done|]. split_and!; [done|done|lia..].
  - eexists. split; [done|]. split; [by apply with_root_replacement|done].
Qed.

Lemma handle_status_ok status :
  ∃ plan, handle_status s status now = Ok plan ∧ payment_plan_ok s plan.
Proof.
  unfold handle_status. destruct (apply_status s status) as [s'|] eqn:Happ.
  - unfold apply_status in Happ. peel.
    match goal with Hx : validate_payment_progress_from _ s = Ok _ |- _ => rename Hx into Hrep end.
    destruct (reduce_replacement s _ now Hrep) as (s'' & -> & Hr & Hd & Hroot); [done|]. cbn.
    destruct (pt_root s'' == PaymentRootPending) eqn:Hr'; props.
    + eexists. split; [done|]. split_and!; [done|done| |rewrite Hd; lia].
      rewrite Hd. destruct (Z.lt_ge_cases now (pt_deadline_at s)) as [|Hge].
      * unfold seconds, NANOS_PER_SEC, STATUS_REPOLL_SECONDS. lia.
      * by destruct (Hroot Hge).
    + eexists. split; [done|]. by split.
  - eexists. split; [done|]. split; [by apply with_root_replacement|done].
Qed.
End evaluation.

Lemma evaluate_claimed_payment_ok s dispatch_now create status answered_at :
  PaymentTaskSnapshotV1_validate s = Ok () → pt_root s = PaymentRootPending →
  clock_ahead s answered_at →
  ∃ plan, evaluate_claimed_payment s dispatch_now create status answered_at = Ok plan
          ∧ payment_plan_ok s plan.
Proof.
  intros Hv Hp Hc. unfold evaluate_claimed_payment. rewrite Hp, eqb_same. cbn [negb].
  destruct (Z.leb_spec (pt_deadline_at s) dispatch_now) as [Hd|_].
  { destruct (reduce_replacement s s dispatch_now) as (s'' & -> & Hr & _ & Hroot);
      [by apply replacement_refl|done|].
    eexists. split; [done|]. split; [done|by apply Hroot]. }
  destruct (pt_invoice s == InvoicePending).
  - destruct create; [by apply handle_create_response_ok|by apply handle_provider_error_ok].
  - destruct status; [by apply handle_status_ok|by apply handle_provider_error_ok].
Qed.

(** The evaluation of a claimed pending payment task never gets stuck.
    Whatever the provider answers (an invoice, a status, malformed or conflicting
    data, an error with any retry hint), the worker produces a plan the
    repository accepts: a valid successor of the claimed snapshot that is either
    terminal, or pending and retried strictly later but not after the deadline. *)
Theorem evaluate_claimed_payment_accepted s dispatch_now create status answered_at :
  PaymentTaskSnapshotV1_validate s = Ok () → pt_root s = PaymentRootPending →
  clock_ahead s answered_at →
  ∃ plan, evaluate_claimed_payment s dispatch_now create status answered_at = Ok plan
          ∧ payment_plan_ok s plan.
Proof. apply evaluate_claimed_payment_ok. Qed.

(** A created invoice whose proposal expires at its creation time is accepted
    from the provider, and then fails the task for good: whatever status the
    provider reports next, a settled payment included, the worker stores an
    invalid-response failure. *)
Theorem equal_invoice_timestamps_fail_task s t s' status now :
  apply_create_response s t t (pt_deadline_at s) = Ok s' →
  handle_status s' status now
  = Ok (PaymentPersist (pt_with_root s' (PaymentRootFailed InvalidVerifierResponse)) now).
Proof.
  intros Hc.
  assert (pt_invoice s' = InvoiceCreated t t) as Hinv.
  { unfold apply_create_response in Hc. by peel. }
  pose proof (equal_invoice_timestamps_reject_every_status s' t status Hinv) as Hrej.
  unfold handle_status. by destruct (apply_status s' status).
Qed.

End worker.
