(* ===== verification/Fence.v ===== *)
(** The shared in-memory admission fence
    ([locks-service/src/infrastructure/memory/verification_task_deletion_fence.rs])
    and the graph-task records it stores
    ([application/models/graph0conf.rs], [GraphTaskRecord], [ClaimedGraphTask]).

    The fence is the state the in-memory task repositories and the deletion
    coordinator share.  Its per-lock and per-handle admission mutexes serialise
    the operations; each operation below is one step under those mutexes and the
    state's write locks. *)

From S2P Require Import Prelude RustStr Externals Ids Json LockPolicy Wire Errors GraphTask.

Record GraphTaskRecord := MkGraphTaskRecord {
  gt_task_id : TaskId;
  gt_snapshot : GraphTaskSnapshotV1;
  gt_evaluator_revision : Z;
  gt_status : VerificationTaskStatus;
  gt_entitlement_to_publish : option VerifiedProofBundleV2;
  gt_entitlement_publication_token : option Uuid;
  gt_completed_at : option OffsetDateTime;
}.

Record ClaimedGraphTask := MkClaimedGraphTask {
  cgt_task : GraphTaskRecord;
  cgt_claim_token : Uuid;
}.

Record TaskFenceRecord := MkTaskFenceRecord {
  fr_creator : CreatorPubky;
  fr_lock_id : LockId;
  fr_bundle_id : BundleId;
  fr_paykit_admission_required : bool;
  fr_invoice_admission_ready : bool;
  fr_status : VerificationTaskStatus;
  fr_publication_claim_token : option Uuid;
  fr_deletion_job_id : option Uuid;
}.

Record StoredGraphTask := MkStoredGraphTask {
  sg_task : GraphTaskRecord;
  sg_claimed_by : option string;
  sg_claim_token : option Uuid;
  sg_claim_expires_at : option OffsetDateTime;
  sg_next_attempt_at : option OffsetDateTime;
}.

Abbreviation LockKey := (CreatorPubky * LockId)%type (only parsing).
Abbreviation HandleKey := (CreatorPubky * BundleId)%type (only parsing).

Record Fence := MkFence {
  fence_records : gmap TaskId TaskFenceRecord;
  graph_records : list StoredGraphTask;
  current_statuses : gmap TaskId VerificationTaskStatus;
  deletion_cutoffs : gset LockKey;
  folded_auth_reservations : gset HandleKey;
}.

Definition Fence_new : Fence := MkFence ∅ [] ∅ ∅ ∅.

(** Field updates. *)
Definition fence_with_records (f : Fence) (m : gmap TaskId TaskFenceRecord) :=
  MkFence m (graph_records f) (current_statuses f) (deletion_cutoffs f)
    (folded_auth_reservations f).
Definition fence_with_graph (f : Fence) (l : list StoredGraphTask) :=
  MkFence (fence_records f) l (current_statuses f) (deletion_cutoffs f)
    (folded_auth_reservations f).
Definition fence_with_statuses (f : Fence) (m : gmap TaskId VerificationTaskStatus) :=
  MkFence (fence_records f) (graph_records f) m (deletion_cutoffs f)
    (folded_auth_reservations f).
Definition fence_with_reservations (f : Fence) (r : gset HandleKey) :=
  MkFence (fence_records f) (graph_records f) (current_statuses f) (deletion_cutoffs f) r.

Definition fr_with_publication (r : TaskFenceRecord) (status : VerificationTaskStatus)
    (token : option Uuid) : TaskFenceRecord :=
  MkTaskFenceRecord (fr_creator r) (fr_lock_id r) (fr_bundle_id r)
    (fr_paykit_admission_required r) (fr_invoice_admission_ready r) status token
    (fr_deletion_job_id r).

(** [records.iter_mut().find(pred)]: the first match and its position. *)
Definition find_first {A} (p : A → bool) (l : list A) : option (nat * A) :=
  list_find (λ x, p x = true) l.

Lemma find_first_Some {A} (p : A → bool) l i x :
  find_first p l = Some (i, x) → l !! i = Some x ∧ p x = true.
Proof. unfold find_first. rewrite list_find_Some. naive_solver. Qed.

Lemma find_first_None {A} (p : A → bool) l :
  find_first p l = None ↔ ∀ x, x ∈ l → p x = false.
Proof.
  unfold find_first. rewrite list_find_None, Forall_forall.
  setoid_rewrite not_true_iff_false. done.
Qed.

(** With at most one match, the first match is the match. *)
Lemma find_first_insert {A} (p : A → bool) l i x y :
  l !! i = Some x → p x = false → p y = false → find_first p (<[i := y]> l) = find_first p l.
Proof.
  unfold find_first. revert i. induction l as [|z l IH]; intros [|i] Hi Hx Hy; try done; cbn in *.
  - injection Hi as ->. by rewrite !decide_False by congruence.
  - rewrite IH by done. done.
Qed.

Lemma find_first_unique {A} (p : A → bool) l i x :
  l !! i = Some x → p x = true →
  (∀ j y, l !! j = Some y → p y = true → j = i) →
  find_first p l = Some (i, x).
Proof.
  intros Hi Hp Huniq. unfold find_first. apply list_find_Some. split_and!; [done|done|].
  intros j y Hj Hlt Hy. specialize (Huniq j y Hj Hy). lia.
Qed.
