(* ===== verification/GraphStore.v ===== *)
(** The in-memory graph-task repository
    ([locks-service/src/infrastructure/memory/graph_tasks.rs]).

    Admission of graph tasks, leases with claim tokens and revisions, snapshot
    replacement, retry scheduling, and the publication of entitlements, as steps
    on the shared fence.  Clock readings and fresh UUIDs are arguments. *)

From S2P Require Import Prelude RustStr Externals Ids Json LockPolicy Wire Errors GraphTask Fence.

Definition invalid_graph_snapshot (message : string) : ApplicationError :=
  Storage ("invalid graph task snapshot: " +:+ message).

Definition gt_handle (t : GraphTaskRecord) : CreatorPubky * BundleId :=
  (gs_creator (gt_snapshot t), gs_bundle_id (gt_snapshot t)).

Definition gt_lock_key (t : GraphTaskRecord) : CreatorPubky * LockId :=
  (gs_creator (gt_snapshot t), resource_lock_id (gs_pubky_lock_resource (gt_snapshot t))).

Definition sg_id (st : StoredGraphTask) : TaskId := gt_task_id (sg_task st).
Definition sg_handle (st : StoredGraphTask) : CreatorPubky * BundleId := gt_handle (sg_task st).

Section store.
  Context `{Base32, TimeCrate}.

Definition validate_new_task (t : GraphTaskRecord) : result ApplicationError () :=
  _ ← reject_if ((gt_status t != Pending) || negb (gt_evaluator_revision t =? 0)
                 || is_some (gt_entitlement_to_publish t)
                 || is_some (gt_entitlement_publication_token t) || is_some (gt_completed_at t))
        (InvalidVerificationTaskState
           "new graph task must be pristine and pending at evaluator revision zero");
  map_err invalid_graph_snapshot (validate_graph_pristine_admission (gt_snapshot t)).

Definition ensure_same_binding (current next : GraphTaskSnapshotV1) :
    result ApplicationError () :=
  reject_if ((gs_creator current != gs_creator next)
             || (gs_bundle_id current != gs_bundle_id next)
             || (gs_pubky_lock_resource current != gs_pubky_lock_resource next)
             || (gs_lock_hash current != gs_lock_hash next)
             || (gs_reader current != gs_reader next)
             || negb (gs_accepted_at current =? gs_accepted_at next)
             || negb (gs_deadline_at current =? gs_deadline_at next)
             || (gs_operator current != gs_operator next)
             || ((ps_predicate <$> gs_predicates current)
                 != (ps_predicate <$> gs_predicates next)))
    (InvalidVerificationTaskState "graph snapshot replacement changed immutable task binding").

(** * Admission *)

Definition has_graph_task_by_handle (f : Fence) (handle : HandleKey) : bool :=
  existsb (λ st, sg_handle st == handle) (graph_records f).

Definition reserve_folded_auth (f : Fence) (handle : HandleKey) : Fence :=
  fence_with_reservations f ({[handle]} ∪ folded_auth_reservations f).

Definition release_folded_auth_reservation (f : Fence) (handle : HandleKey) : Fence :=
  fence_with_reservations f (folded_auth_reservations f ∖ {[handle]}).

Definition new_fence_record (t : GraphTaskRecord) : TaskFenceRecord :=
  MkTaskFenceRecord (gs_creator (gt_snapshot t))
    (resource_lock_id (gs_pubky_lock_resource (gt_snapshot t)))
    (gs_bundle_id (gt_snapshot t)) false true (gt_status t) None None.

Definition fence_record_handle (r : TaskFenceRecord) : HandleKey := (fr_creator r, fr_bundle_id r).

(** [before_publish] is the caller's last check. *)
Definition insert_graph_task_under_admission (f : Fence) (t : GraphTaskRecord)
    (before_publish : GraphTaskRecord → result ApplicationError ()) (folded_auth_source : bool) :
    result ApplicationError (GraphTaskRecord * Fence) :=
  _ ← validate_new_task t;
  let is_graph id := existsb (λ st, sg_id st == id) (graph_records f) in
  _ ← reject_if
        (negb (eqb (bool_decide (gt_handle t ∈ folded_auth_reservations f)) folded_auth_source))
        VerificationTaskConflict;
  _ ← reject_if (bool_decide (gt_lock_key t ∈ deletion_cutoffs f)) ContentLockDeletionInProgress;
  _ ← reject_if (is_some (fence_records f !! gt_task_id t) && negb (is_graph (gt_task_id t)))
        (DuplicateRecord "verification_task");
  _ ← reject_if
        (existsb (λ '(id, r), (fence_record_handle r == gt_handle t) && negb (is_graph id))
           (map_to_list (fence_records f)))
        VerificationTaskConflict;
  match find_first (λ st, sg_handle st == gt_handle t) (graph_records f) with
  | Some (_, existing) =>
      if (sg_id existing == gt_task_id t)
         && is_ok (ensure_same_binding (gt_snapshot (sg_task existing)) (gt_snapshot t))
      then Ok (sg_task existing, f)
      else Err VerificationTaskConflict
  | None =>
      _ ← reject_if (is_graph (gt_task_id t)) (DuplicateRecord "verification_task");
      _ ← before_publish t;
      Ok (t, MkFence (<[gt_task_id t := new_fence_record t]> (fence_records f))
               (graph_records f ++ [MkStoredGraphTask t None None None None])
               (<[gt_task_id t := gt_status t]> (current_statuses f))
               (deletion_cutoffs f)
               (if folded_auth_source then folded_auth_reservations f ∖ {[gt_handle t]}
                else folded_auth_reservations f))
  end.

Definition insert_graph_task (f : Fence) (t : GraphTaskRecord) :
    result ApplicationError (GraphTaskRecord * Fence) :=
  insert_graph_task_under_admission f t (λ _, Ok ()) false.

Definition get_graph_task_by_handle (f : Fence) (handle : HandleKey) : option GraphTaskRecord :=
  (λ '(_, st), sg_task st) <$> find_first (λ st, sg_handle st == handle) (graph_records f).

(** * Leases *)

(** No deletion job owns the task. *)
Definition undeleted (f : Fence) (id : TaskId) : bool :=
  is_none_or (λ r, is_none (fr_deletion_job_id r)) (fence_records f !! id).

Definition claimable (f : Fence) (now : OffsetDateTime) (st : StoredGraphTask) : bool :=
  let t := sg_task st in
  ((((gt_status t == Pending) || (gt_status t == InProgress))
    && (gs_root (gt_snapshot t) == GraphPending))
   || ((gt_status t == PublishingEntitlement) && (gs_root (gt_snapshot t) == GraphSatisfied)))
  && is_none_or (λ due, due <=? now) (sg_next_attempt_at st)
  && is_none_or (λ e, e <=? now) (sg_claim_expires_at st)
  && undeleted f (gt_task_id t).

Definition gt_with_status (t : GraphTaskRecord) (status : VerificationTaskStatus) :=
  MkGraphTaskRecord (gt_task_id t) (gt_snapshot t) (gt_evaluator_revision t) status
    (gt_entitlement_to_publish t) (gt_entitlement_publication_token t) (gt_completed_at t).

Definition claim_next_graph_task (f : Fence) (worker_id : string)
    (caller_now requested_claim_expires_at : OffsetDateTime)
    (now : OffsetDateTime) (claim_token : Uuid) :
    result ApplicationError (option ClaimedGraphTask * Fence) :=
  let claim_ttl := requested_claim_expires_at - caller_now in
  _ ← reject_if (negb (0 <? claim_ttl))
        (InvalidVerificationTaskState "graph task claim expiry must follow claim time");
  let claim_expires_at := now + claim_ttl in
  match find_first (claimable f now) (graph_records f) with
  | None => Ok (None, f)
  | Some (i, st) =>
      let t := sg_task st in
      let t' := if gt_status t != PublishingEntitlement then gt_with_status t InProgress else t in
      let st' := MkStoredGraphTask t' (Some worker_id) (Some claim_token)
                   (Some claim_expires_at) None in
      Ok (Some (MkClaimedGraphTask t' claim_token),
          fence_with_graph f (<[i := st']> (graph_records f)))
  end.

(** The exact live claim an evaluator result must name. *)
Definition live_evaluation (f : Fence) (id : TaskId) (worker_id : string) (token : Uuid)
    (expected_revision : Z) (now : OffsetDateTime) (st : StoredGraphTask) : bool :=
  (sg_id st == id)
  && (gt_status (sg_task st) == InProgress)
  && (gt_evaluator_revision (sg_task st) =? expected_revision)
  && (sg_claimed_by st == Some worker_id)
  && (sg_claim_token st == Some token)
  && is_some_and (λ e, now <? e) (sg_claim_expires_at st)
  && undeleted f id.

Definition check_replacement (current next : GraphTaskSnapshotV1) (now : OffsetDateTime) :
    result ApplicationError () :=
  _ ← map_err invalid_graph_snapshot (GraphTaskSnapshotV1_validate next);
  _ ← map_err invalid_graph_snapshot (validate_observations_not_after next now);
  _ ← ensure_same_binding current next;
  map_err invalid_graph_snapshot (validate_graph_progress_from next current).

Definition graph_publication (s : GraphTaskSnapshotV1) (now : OffsetDateTime) :
    VerifiedProofBundleV2 :=
  MkVerifiedProofBundleV2 VERIFIED_PROOF_BUNDLE_V2_VERSION (gs_creator s) (gs_reader s)
    (gs_bundle_id s) (gs_pubky_lock_resource s) now [ByGraph].

Definition gt_with_snapshot (t : GraphTaskRecord) (s : GraphTaskSnapshotV1) (revision : Z)
    (status : VerificationTaskStatus) (payload : option VerifiedProofBundleV2)
    (token : option Uuid) (completed : option OffsetDateTime) : GraphTaskRecord :=
  MkGraphTaskRecord (gt_task_id t) s revision status payload token completed.

Definition update_status (f : Fence) (id : TaskId) (i : nat) (st : StoredGraphTask)
    (status : VerificationTaskStatus) (token : TaskFenceRecord → option Uuid) : Fence :=
  MkFence (alter (λ r, fr_with_publication r status (token r)) id (fence_records f))
    (<[i := st]> (graph_records f))
    (<[id := status]> (current_statuses f)) (deletion_cutoffs f) (folded_auth_reservations f).

(** The second component is the state left behind, on errors as well: the source
    writes the snapshot before it checks the publication payload. *)
Definition persist_claimed_graph_snapshot (f : Fence) (id : TaskId) (worker_id : string)
    (claim_token : Uuid) (expected_revision : Z) (snapshot : GraphTaskSnapshotV1)
    (now : OffsetDateTime) (publication_token : Uuid) :
    result ApplicationError (option GraphTaskRecord) * Fence :=
  match find_first (live_evaluation f id worker_id claim_token expected_revision now)
          (graph_records f) with
  | None => (Ok None, f)
  | Some (i, st) =>
      let t := sg_task st in
      let checks :=
        _ ← check_replacement (gt_snapshot t) snapshot now;
        _ ← reject_if (match gs_root snapshot with
                       | GraphExpired _ => now <? gs_deadline_at snapshot
                       | _ => false
                       end)
              (InvalidVerificationTaskState "graph task cannot expire before its deadline");
        ok_or (checked_add U64_MAX expected_revision 1)
          (Storage "graph evaluator revision overflow") in
      match checks with
      | Err e => (Err e, f)
      | Ok next_revision =>
          match gs_root snapshot with
          | GraphPending =>
              let t' := gt_with_snapshot t snapshot next_revision (gt_status t)
                          (gt_entitlement_to_publish t) (gt_entitlement_publication_token t)
                          (gt_completed_at t) in
              let st' := MkStoredGraphTask t' (sg_claimed_by st) (sg_claim_token st)
                           (sg_claim_expires_at st) (sg_next_attempt_at st) in
              (Ok (Some t'), fence_with_graph f (<[i := st']> (graph_records f)))
          | GraphSatisfied =>
              let publication := graph_publication snapshot now in
              match VerifiedProofBundleV2_validate publication with
              | Err _ =>
                  let t' := gt_with_snapshot t snapshot next_revision (gt_status t)
                              (gt_entitlement_to_publish t)
                              (gt_entitlement_publication_token t) (gt_completed_at t) in
                  let st' := MkStoredGraphTask t' (sg_claimed_by st) (sg_claim_token st)
                               (sg_claim_expires_at st) (sg_next_attempt_at st) in
                  (Err (Storage "invalid graph entitlement publication"),
                   fence_with_graph f (<[i := st']> (graph_records f)))
              | Ok _ =>
                  let t' := gt_with_snapshot t snapshot next_revision PublishingEntitlement
                              (Some publication) (Some publication_token) (gt_completed_at t) in
                  let st' := MkStoredGraphTask t' (sg_claimed_by st) (sg_claim_token st)
                               (sg_claim_expires_at st) (sg_next_attempt_at st) in
                  (Ok (Some t'), update_status f id i st' PublishingEntitlement
                                   (λ _, Some publication_token))
              end
          | GraphExpired _ | GraphFailedInvalidResponse =>
              let status := default Failed (GraphRootState_terminal_status (gs_root snapshot)) in
              let t' := gt_with_snapshot t snapshot next_revision status
                          (gt_entitlement_to_publish t) (gt_entitlement_publication_token t)
                          (Some now) in
              let st' := MkStoredGraphTask t' None None None (sg_next_attempt_at st) in
              (Ok (Some t'), update_status f id i st' status fr_publication_claim_token)
          end
      end
  end.

Definition schedule_graph_task_retry (f : Fence) (id : TaskId) (worker_id : string)
    (claim_token : Uuid) (caller_now : OffsetDateTime) (expected_revision : Z)
    (snapshot : GraphTaskSnapshotV1) (requested_next_attempt_at : OffsetDateTime)
    (now : OffsetDateTime) : result ApplicationError (option GraphTaskRecord * Fence) :=
  let retry_delay := requested_next_attempt_at - caller_now in
  let next_attempt_at := now + retry_delay in
  match find_first (live_evaluation f id worker_id claim_token expected_revision now)
          (graph_records f) with
  | None => Ok (None, f)
  | Some (i, st) =>
      _ ← reject_if ((next_attempt_at <=? now) || (gs_deadline_at snapshot <? next_attempt_at))
            (InvalidVerificationTaskState
               "graph retry must be after now and no later than deadline");
      _ ← check_replacement (gt_snapshot (sg_task st)) snapshot now;
      _ ← reject_if (gs_root snapshot != GraphPending)
            (InvalidVerificationTaskState "graph retry requires pending snapshot");
      next_revision ← ok_or (checked_add U64_MAX expected_revision 1)
                        (Storage "graph evaluator revision overflow");
      let t := sg_task st in
      let t' := gt_with_snapshot t snapshot next_revision Pending (gt_entitlement_to_publish t)
                  (gt_entitlement_publication_token t) (gt_completed_at t) in
      let st' := MkStoredGraphTask t' None None None (Some next_attempt_at) in
      Ok (Some t', fence_with_graph f (<[i := st']> (graph_records f)))
  end.

Definition release_claimed_graph_task (f : Fence) (id : TaskId) (worker_id : string)
    (claim_token : Uuid) : bool * Fence :=
  match find_first (λ st, (sg_id st == id) && (sg_claimed_by st == Some worker_id)
                          && (sg_claim_token st == Some claim_token)) (graph_records f) with
  | None => (false, f)
  | Some (i, st) =>
      let t := sg_task st in
      let back := (gt_status t == InProgress) && (gs_root (gt_snapshot t) == GraphPending) in
      let t' := if back then gt_with_status t Pending else t in
      let st' := MkStoredGraphTask t' None None None (sg_next_attempt_at st) in
      (true,
       MkFence (fence_records f) (<[i := st']> (graph_records f))
         (if back then <[id := Pending]> (current_statuses f) else current_statuses f)
         (deletion_cutoffs f) (folded_auth_reservations f))
  end.

(** * Publication *)

Definition live_publication (f : Fence) (id : TaskId) (worker_id : string) (token : Uuid)
    (expected_revision : Z) (publication_token : Uuid) (now : OffsetDateTime)
    (st : StoredGraphTask) : bool :=
  (sg_id st == id)
  && (gt_status (sg_task st) == PublishingEntitlement)
  && (gt_evaluator_revision (sg_task st) =? expected_revision)
  && (gt_entitlement_publication_token (sg_task st) == Some publication_token)
  && (sg_claimed_by st == Some worker_id)
  && (sg_claim_token st == Some token)
  && is_some_and (λ e, now <? e) (sg_claim_expires_at st)
  && is_some_and (λ r, is_none (fr_deletion_job_id r)
                       && (fr_publication_claim_token r == Some publication_token))
       (fence_records f !! id).

(** Whether the guard for the external effect is granted. *)
Definition acquire_graph_publication_action (f : Fence) (id : TaskId) (worker_id : string)
    (claim_token : Uuid) (expected_revision : Z) (publication_token : Uuid)
    (now : OffsetDateTime) : bool :=
  match find_first (λ st, sg_id st == id) (graph_records f) with
  | None => false
  | Some (_, st) =>
      if bool_decide (gt_lock_key (sg_task st) ∈ deletion_cutoffs f) then false
      else existsb (live_publication f id worker_id claim_token expected_revision
                      publication_token now) (graph_records f)
  end.

Definition complete_claimed_graph_publication (f : Fence) (id : TaskId) (worker_id : string)
    (claim_token : Uuid) (expected_revision : Z) (publication_token : Uuid)
    (now : OffsetDateTime) : option GraphTaskRecord * Fence :=
  match find_first
          (λ st, live_publication f id worker_id claim_token expected_revision
                   publication_token now st
                 && is_some (gt_entitlement_to_publish (sg_task st))) (graph_records f) with
  | None => (None, f)
  | Some (i, st) =>
      let t := sg_task st in
      let t' := gt_with_snapshot t (gt_snapshot t) (gt_evaluator_revision t) Completed
                  (gt_entitlement_to_publish t) None (Some now) in
      let st' := MkStoredGraphTask t' None None None None in
      (Some t', update_status f id i st' Completed (λ _, None))
  end.

(** * The invariant *)

Definition unclaimed (st : StoredGraphTask) : Prop :=
  sg_claimed_by st = None ∧ sg_claim_token st = None ∧ sg_claim_expires_at st = None.

Definition claimed (st : StoredGraphTask) : Prop :=
  is_Some (sg_claimed_by st) ∧ is_Some (sg_claim_token st) ∧ is_Some (sg_claim_expires_at st).

(** No entitlement was ever prepared for the task. *)
Definition unpublished (t : GraphTaskRecord) : Prop :=
  gt_entitlement_to_publish t = None ∧ gt_entitlement_publication_token t = None.

(** The stored payload is the entitlement this snapshot decides. *)
Definition prepared (t : GraphTaskRecord) : Prop :=
  ∃ at_, gt_entitlement_to_publish t = Some (graph_publication (gt_snapshot t) at_).

Definition status_ok (st : StoredGraphTask) : Prop :=
  let t := sg_task st in
  let root := gs_root (gt_snapshot t) in
  match gt_status t with
  | Pending => root = GraphPending ∧ unclaimed st ∧ unpublished t ∧ gt_completed_at t = None
  | InProgress => root = GraphPending ∧ claimed st ∧ unpublished t ∧ gt_completed_at t = None
  | PublishingEntitlement =>
      root = GraphSatisfied ∧ (unclaimed st ∨ claimed st) ∧ prepared t
      ∧ is_Some (gt_entitlement_publication_token t) ∧ gt_completed_at t = None
  | Completed =>
      root = GraphSatisfied ∧ unclaimed st ∧ prepared t
      ∧ gt_entitlement_publication_token t = None ∧ is_Some (gt_completed_at t)
  | Expired | Failed =>
      GraphRootState_terminal_status root = Some (gt_status t) ∧ unclaimed st ∧ unpublished t
      ∧ ∃ at_, gt_completed_at t = Some at_
               ∧ (∀ r, root = GraphExpired r → gs_deadline_at (gt_snapshot t) ≤ at_)
  end.

Record stored_task_ok (f : Fence) (st : StoredGraphTask) : Prop := {
  sto_snapshot : GraphTaskSnapshotV1_validate (gt_snapshot (sg_task st)) = Ok ();
  sto_status : status_ok st;
  sto_fence : ∃ r, fence_records f !! sg_id st = Some r
    ∧ fence_record_handle r = sg_handle st
    ∧ fr_lock_id r = (gt_lock_key (sg_task st)).2
    ∧ fr_publication_claim_token r = gt_entitlement_publication_token (sg_task st);
}.

Record graph_store_ok (f : Fence) : Prop := {
  gso_ids : NoDup (sg_id <$> graph_records f);
  gso_handles : NoDup (sg_handle <$> graph_records f);
  gso_tasks st : st ∈ graph_records f → stored_task_ok f st;
}.

Lemma ensure_same_binding_Ok current next :
  ensure_same_binding current next = Ok () ↔
  gs_creator next = gs_creator current ∧ gs_bundle_id next = gs_bundle_id current
  ∧ gs_pubky_lock_resource next = gs_pubky_lock_resource current
  ∧ gs_lock_hash next = gs_lock_hash current ∧ gs_reader next = gs_reader current
  ∧ gs_accepted_at next = gs_accepted_at current ∧ gs_deadline_at next = gs_deadline_at current
  ∧ gs_operator next = gs_operator current
  ∧ ps_predicate <$> gs_predicates next = ps_predicate <$> gs_predicates current.
Proof.
  unfold ensure_same_binding. rewrite reject_if_Ok, !orb_false_iff, !negb_false_iff, !eqb_true,
    !Z.eqb_eq. naive_solver.
Qed.

(** What an accepted replacement guarantees. *)
Record replacement_ok (current next : GraphTaskSnapshotV1) (now : OffsetDateTime) : Prop := {
  rep_valid : GraphTaskSnapshotV1_validate next = Ok ();
  rep_observed : validate_observations_not_after next now = Ok ();
  rep_binding : ensure_same_binding current next = Ok ();
  rep_progress : validate_graph_progress_from next current = Ok ();
}.

Lemma check_replacement_Ok current next now :
  check_replacement current next now = Ok () ↔ replacement_ok current next now.
Proof.
  unfold check_replacement. split.
  - intros Hc. peel. by split.
  - intros [Hv Ho Hb Hp]. by rewrite Hv, Ho, Hb, Hp.
Qed.

Lemma replacement_identity current next now :
  replacement_ok current next now →
  (gs_creator next, gs_bundle_id next) = (gs_creator current, gs_bundle_id current)
  ∧ resource_lock_id (gs_pubky_lock_resource next)
    = resource_lock_id (gs_pubky_lock_resource current)
  ∧ gs_deadline_at next = gs_deadline_at current.
Proof.
  intros [_ _ Hb _]. apply ensure_same_binding_Ok in Hb as (-> & -> & -> & _ & _ & _ & -> & _).
  done.
Qed.

(** Publication payloads of valid snapshots pass their own validation. *)
Lemma graph_publication_valid s now :
  GraphTaskSnapshotV1_validate s = Ok () →
  VerifiedProofBundleV2_validate (graph_publication s now) = Ok ().
Proof.
  intros [Hb _]%graph_validate_Ok. unfold validate_graph_binding in Hb. peel. props.
  unfold VerifiedProofBundleV2_validate. pass; [done|]. pass; [|by pass].
  cbn. apply negb_false_iff. by apply eqb_true.
Qed.

(** Replacing one stored task by one with the same identity. *)
Lemma update_task_ok f f' i st st' :
  graph_store_ok f → graph_records f !! i = Some st →
  graph_records f' = <[i := st']> (graph_records f) →
  sg_id st' = sg_id st → sg_handle st' = sg_handle st →
  (∀ id, id ≠ sg_id st → fence_records f' !! id = fence_records f !! id) →
  stored_task_ok f' st' → graph_store_ok f'.
Proof.
  intros [Hids Hhs Hts] Hi Hrec Hid Hh Hfr Hst'.
  assert (sg_id <$> graph_records f' = sg_id <$> graph_records f) as Hids'.
  { rewrite Hrec, list_fmap_insert, Hid. apply list_insert_id. by rewrite list_lookup_fmap, Hi. }
  split.
  - by rewrite Hids'.
  - rewrite Hrec, list_fmap_insert, Hh, list_insert_id; [done|]. by rewrite list_lookup_fmap, Hi.
  - intros st2 [j Hj]%list_elem_of_lookup. rewrite Hrec in Hj.
    destruct (decide (j = i)) as [->|Hne].
    + rewrite list_lookup_insert_eq in Hj by eauto using lookup_lt_Some. by injection Hj as <-.
    + rewrite list_lookup_insert_ne in Hj by done.
      destruct (Hts st2) as [Hv Hs Hf]; [by eapply list_elem_of_lookup_2|]. split; [done|done|].
      rewrite Hfr; [done|]. intros Heq. apply Hne.
      eapply NoDup_lookup; [exact Hids| |]; rewrite list_lookup_fmap; [by rewrite Hj|].
      rewrite Hi. cbn. by rewrite Heq.
Qed.

Lemma stored_task_ok_fence f f' st :
  fence_records f' !! sg_id st = fence_records f !! sg_id st →
  stored_task_ok f st → stored_task_ok f' st.
Proof. intros Hfr [Hv Hs Hf]. split; [done|done|]. by rewrite Hfr. Qed.

(** Same records, same invariant. *)
Lemma graph_store_ok_records f f' :
  graph_records f' = graph_records f → fence_records f' = fence_records f →
  graph_store_ok f → graph_store_ok f'.
Proof.
  intros Hg Hr [Hids Hhs Hts]. split; rewrite ?Hg; [done|done|].
  intros st Hst. eapply stored_task_ok_fence; [by rewrite Hr|auto].
Qed.

Lemma stored_task_of f i st :
  graph_store_ok f → graph_records f !! i = Some st → stored_task_ok f st.
Proof. intros [_ _ Hts] Hi. eapply Hts, list_elem_of_lookup_2, Hi. Qed.

Lemma validate_new_task_Ok t :
  validate_new_task t = Ok () →
  gt_status t = Pending ∧ unpublished t ∧ gt_completed_at t = None
  ∧ GraphTaskSnapshotV1_validate (gt_snapshot t) = Ok ()
  ∧ gs_root (gt_snapshot t) = GraphPending ∧ gt_evaluator_revision t = 0.
Proof.
  unfold validate_new_task, validate_graph_pristine_admission. intros Hv. peel. props.
  split_and!; done.
Qed.

Lemma existsb_false {A} (p : A → bool) l : existsb p l = false ↔ ∀ x, x ∈ l → p x = false.
Proof.
  rewrite <- not_true_iff_false, existsb_exists. setoid_rewrite <- list_elem_of_In.
  setoid_rewrite <- not_true_iff_false. naive_solver.
Qed.

Lemma insert_preserves f t before_publish folded t' f' :
  graph_store_ok f → insert_graph_task_under_admission f t before_publish folded = Ok (t', f') →
  graph_store_ok f'.
Proof.
  intros Hok Hins. pose proof Hok as [Hids Hhs Hts].
  unfold insert_graph_task_under_admission in Hins. cbv zeta in Hins.
  apply bind_Ok in Hins as ([] & Hnew & Hins). do 4 (apply bind_Ok in Hins as (? & ? & Hins)).
  destruct (find_first _ _) as [[i ex]|] eqn:Hfind.
  { split_match in Hins; [|done]. by injection Hins as _ <-. }
  rewrite find_first_None in Hfind.
  apply bind_Ok in Hins as ([] & Hfresh & (? & _ & Hins)%bind_Ok).
  rewrite reject_if_Ok, existsb_false in Hfresh.
  injection Hins as _ <-.
  apply validate_new_task_Ok in Hnew as (Hst & Hun & Hcomp & Hv & Hroot & _).
  split; cbn; rewrite ?fmap_app; cbn.
  - apply NoDup_app. split_and!; [done| |apply NoDup_singleton].
    intros id (st & -> & Hin)%list_elem_of_fmap Hx%list_elem_of_singleton.
    specialize (Hfresh st Hin). apply eqb_false in Hfresh. by apply Hfresh.
  - apply NoDup_app. split_and!; [done| |apply NoDup_singleton].
    intros h (st & -> & Hin)%list_elem_of_fmap Hx%list_elem_of_singleton.
    specialize (Hfind st Hin). apply eqb_false in Hfind. by apply Hfind.
  - intros st [Hin | ->%list_elem_of_singleton]%elem_of_app.
    + eapply stored_task_ok_fence; [|by apply Hts]. cbn. apply lookup_insert_ne. intros Heq.
      specialize (Hfresh st Hin). apply eqb_false in Hfresh. by apply Hfresh.
    + split; [done| |].
      * unfold status_ok. cbn. rewrite Hst. done.
      * exists (new_fence_record t). split_and!; [apply lookup_insert_eq|done|done|].
        symmetry. apply Hun.
Qed.

Lemma claim_preserves f worker caller expires now token c f' :
  graph_store_ok f → claim_next_graph_task f worker caller expires now token = Ok (c, f') →
  graph_store_ok f'.
Proof.
  intros Hok Hc. unfold claim_next_graph_task in Hc. apply bind_Ok in Hc as ([] & _ & Hc).
  destruct (find_first _ _) as [[i st]|] eqn:Hfind; [|by injection Hc as _ <-].
  apply find_first_Some in Hfind as [Hi Hcl]. injection Hc as _ <-.
  pose proof (stored_task_of f i st Hok Hi) as [Hv Hs Hf].
  eapply update_task_ok; [done|done|done|by destruct (_ != _)|by destruct (_ != _)|done|].
  unfold claimable in Hcl. props. unfold status_ok in Hs.
  destruct (gt_status (sg_task st)) eqn:Hst; try done;
    [change (Pending != PublishingEntitlement) with true
    |change (InProgress != PublishingEntitlement) with true
    |change (PublishingEntitlement != PublishingEntitlement) with false];
    (split; [done| |done]); unfold status_ok; cbn; rewrite ?Hst;
    unfold claimed; cbn; naive_solver.
Qed.

(** A live claim: exactly this worker's unexpired lease at this revision. *)
Record live_claim (f : Fence) (id : TaskId) (worker : string) (token : Uuid) (revision : Z)
    (now : OffsetDateTime) (st : StoredGraphTask) : Prop := {
  lc_id : sg_id st = id;
  lc_status : gt_status (sg_task st) = InProgress;
  lc_revision : gt_evaluator_revision (sg_task st) = revision;
  lc_worker : sg_claimed_by st = Some worker;
  lc_token : sg_claim_token st = Some token;
  lc_unexpired : ∃ e, sg_claim_expires_at st = Some e ∧ now < e;
  lc_undeleted : undeleted f id = true;
}.

Lemma live_evaluation_true f id worker token revision now st :
  live_evaluation f id worker token revision now st = true ↔
  live_claim f id worker token revision now st.
Proof.
  unfold live_evaluation. rewrite !andb_true_iff, !eqb_true, Z.eqb_eq, is_some_and_true.
  setoid_rewrite Z.ltb_lt. split.
  - intros ((((((? & ?) & ?) & ?) & ?) & ?) & ?). by split.
  - intros [? ? ? ? ? ? ?]. done.
Qed.

(** The checks before a snapshot is written. *)
Lemma persist_checks_Ok current snapshot now revision next_revision :
  (_ ← check_replacement current snapshot now;
   _ ← reject_if (match gs_root snapshot with
                  | GraphExpired _ => now <? gs_deadline_at snapshot
                  | _ => false
                  end)
         (InvalidVerificationTaskState "graph task cannot expire before its deadline");
   ok_or (checked_add U64_MAX revision 1) (Storage "graph evaluator revision overflow"))
  = Ok next_revision ↔
  replacement_ok current snapshot now
  ∧ (∀ r, gs_root snapshot = GraphExpired r → gs_deadline_at snapshot ≤ now)
  ∧ next_revision = revision + 1 ∧ revision < U64_MAX.
Proof.
  split.
  - intros ([] & Hrep & ([] & Hexp & Hmax)%bind_Ok)%bind_Ok.
    apply ok_or_Ok, checked_add_Some in Hmax as [-> Hmax]. apply reject_if_Ok in Hexp.
    split_and!; [by apply check_replacement_Ok| |done|lia]. intros r Hr. rewrite Hr in Hexp. lia.
  - intros (Hrep & Hexp & -> & Hmax). pass; [by apply check_replacement_Ok|]. pass.
    + destruct (gs_root snapshot) as [| |r|]; try done. specialize (Hexp r eq_refl). lia.
    + apply ok_or_Ok, checked_add_Some. split; [done|lia].
Qed.

Lemma alter_fence_other (m : gmap TaskId TaskFenceRecord) g id id' :
  id' ≠ id → alter g id m !! id' = m !! id'.
Proof. intros Hne. by apply lookup_alter_ne. Qed.

(** The fence record of a task whose status is updated. *)
Lemma update_status_fence f id i st' status token r :
  fence_records f !! id = Some r →
  fence_records (update_status f id i st' status token) !! id
  = Some (fr_with_publication r status (token r)).
Proof. intros Hr. cbn. by rewrite lookup_alter_eq, Hr. Qed.

(** A write to the records keeps the invariant when the task keeps its identity
    and the new record is well formed; [quiet_update_ok] leaves the fence alone,
    [status_update_ok] moves the fence record along. *)
Section task_writes.
Context (f : Fence) (i : nat) (st st' : StoredGraphTask).
Context (Hok : graph_store_ok f) (Hi : graph_records f !! i = Some st).
Context (Hid : sg_id st' = sg_id st) (Hhandle : sg_handle st' = sg_handle st).
Context (Hlock : (gt_lock_key (sg_task st')).2 = (gt_lock_key (sg_task st)).2).
Context (Hvalid : GraphTaskSnapshotV1_validate (gt_snapshot (sg_task st')) = Ok ()).
Context (Hstatus : status_ok st').

Lemma quiet_update_ok statuses :
  gt_entitlement_publication_token (sg_task st')
  = gt_entitlement_publication_token (sg_task st) →
  graph_store_ok (MkFence (fence_records f) (<[i := st']> (graph_records f)) statuses
                    (deletion_cutoffs f) (folded_auth_reservations f)).
Proof.
  intros Htok. pose proof (stored_task_of f i st Hok Hi) as [_ _ (r & Hr & Hh & Hl & Hp)].
  eapply update_task_ok; [done|done|done|done|done|done|].
  split; [done|done|]. exists r. rewrite Hid, Hhandle, Hlock, Htok. done.
Qed.

Lemma status_update_ok status token :
  (∀ r, fr_publication_claim_token r = gt_entitlement_publication_token (sg_task st) →
        token r = gt_entitlement_publication_token (sg_task st')) →
  graph_store_ok (update_status f (sg_id st) i st' status token).
Proof.
  intros Htok. pose proof (stored_task_of f i st Hok Hi) as [_ _ (r & Hr & Hh & Hl & Hp)].
  eapply update_task_ok; [done|done|done|done|done|by intros; apply alter_fence_other|].
  split; [done|done|]. rewrite Hid, Hhandle, Hlock. eexists.
  split; [by apply update_status_fence|]. split_and!; [done|done|by apply Htok].
Qed.
End task_writes.

Lemma persist_preserves f id worker token revision snapshot now publication :
  graph_store_ok f →
  graph_store_ok (persist_claimed_graph_snapshot f id worker token revision snapshot now
                    publication).2.
Proof.
  intros Hok. unfold persist_claimed_graph_snapshot.
  destruct (find_first _ _) as [[i st]|] eqn:Hfind; [|done].
  apply find_first_Some in Hfind as [Hi Hlive]. apply live_evaluation_true in Hlive as [<- Hst _ _ _ _ _].
  pose proof (stored_task_of f i st Hok Hi) as [_ Hs _].
  unfold status_ok in Hs. rewrite Hst in Hs. destruct Hs as (Hroot & Hcl & Hun & Hcomp).
  match goal with |- context [match ?c with Ok _ => _ | Err _ => _ end] =>
    destruct c as [next_revision|] eqn:Hchecks; [|done] end.
  apply persist_checks_Ok in Hchecks as (Hrep & Hexp & -> & _).
  destruct (replacement_identity _ _ _ Hrep) as (Hhandle & Hlock & _). destruct Hrep as [Hvn _ _ _].
  rewrite (graph_publication_valid snapshot now Hvn).
  destruct (gs_root snapshot) as [| |reason|] eqn:Hrn; cbn [snd].
  - eapply quiet_update_ok; try done. unfold status_ok. cbn. by rewrite Hst.
  - eapply status_update_ok; try done. unfold status_ok. cbn.
    split_and!; [done|by right|by exists now|by eauto|done].
  - eapply status_update_ok; try done. unfold status_ok. cbn.
    destruct reason; cbn; rewrite Hrn; (split_and!; [done|done|done|]); exists now;
      (split; [done|]); intros; by eapply Hexp.
  - eapply status_update_ok; try done. unfold status_ok. cbn. rewrite Hrn.
    split_and!; [done|done|done|]. by exists now.
Qed.

Lemma schedule_preserves f id worker token caller revision snapshot next now t f' :
  graph_store_ok f →
  schedule_graph_task_retry f id worker token caller revision snapshot next now = Ok (t, f') →
  graph_store_ok f'.
Proof.
  intros Hok Hsch. unfold schedule_graph_task_retry in Hsch.
  destruct (find_first _ _) as [[i st]|] eqn:Hfind; [|by injection Hsch as _ <-].
  apply find_first_Some in Hfind as [Hi Hlive]. apply live_evaluation_true in Hlive as [<- Hst _ _ _ _ _].
  apply bind_Ok in Hsch as ([] & _ & Hsch). apply bind_Ok in Hsch as ([] & Hrep & Hsch).
  apply bind_Ok in Hsch as ([] & Hroot & Hsch). apply bind_Ok in Hsch as (rev & _ & Hsch).
  injection Hsch as _ <-. apply check_replacement_Ok in Hrep. apply reject_if_Ok in Hroot. props.
  destruct (replacement_identity _ _ _ Hrep) as (Hhandle & Hlock & _). destruct Hrep as [Hvn _ _ _].
  pose proof (stored_task_of f i st Hok Hi) as [_ Hs _].
  unfold status_ok in Hs. rewrite Hst in Hs. destruct Hs as (_ & _ & Hun & Hcomp).
  by eapply quiet_update_ok.
Qed.

Lemma release_preserves f id worker token :
  graph_store_ok f → graph_store_ok (release_claimed_graph_task f id worker token).2.
Proof.
  intros Hok. unfold release_claimed_graph_task.
  destruct (find_first _ _) as [[i st]|] eqn:Hfind; [|done].
  apply find_first_Some in Hfind as [Hi Hlive]. props. cbn [snd].
  pose proof (stored_task_of f i st Hok Hi) as [Hv Hs _]. unfold status_ok in Hs.
  match goal with |- context [(?a == InProgress) && ?b] => destruct ((a == InProgress) && b) eqn:Hback end.
  - props. match goal with Hx : gt_status (sg_task st) = _ |- _ => rewrite Hx in Hs end.
    destruct Hs as (? & _ & ? & ?). by eapply quiet_update_ok.
  - eapply quiet_update_ok; try done. unfold status_ok. cbn.
    destruct (gt_status (sg_task st)) eqn:Hst; destruct Hs as (Hr & _ & ?); try done.
    + rewrite Hr in Hback. done.
    + split_and!; [done|by left|by destruct_and!..].
Qed.

Lemma complete_preserves f id worker token revision publication now :
  graph_store_ok f →
  graph_store_ok (complete_claimed_graph_publication f id worker token revision publication now).2.
Proof.
  intros Hok. unfold complete_claimed_graph_publication.
  destruct (find_first _ _) as [[i st]|] eqn:Hfind; [|done].
  apply find_first_Some in Hfind as [Hi Hlive]. unfold live_publication in Hlive. props. subst.
  cbn [snd]. pose proof (stored_task_of f i st Hok Hi) as [Hv Hs _]. unfold status_ok in Hs.
  match goal with Hx : gt_status (sg_task st) = _ |- _ => rewrite Hx in Hs end.
  destruct Hs as (? & _ & ? & _ & _). by eapply status_update_ok.
Qed.

(** The operations of the repository as steps on the shared state. *)
Inductive graph_step : Fence → Fence → Prop :=
  | step_insert f t before_publish folded t' f' :
      insert_graph_task_under_admission f t before_publish folded = Ok (t', f') →
      graph_step f f'
  | step_reserve f handle : graph_step f (reserve_folded_auth f handle)
  | step_unreserve f handle : graph_step f (release_folded_auth_reservation f handle)
  | step_claim f worker caller expires now token c f' :
      claim_next_graph_task f worker caller expires now token = Ok (c, f') → graph_step f f'
  | step_persist f id worker token revision snapshot now publication :
      graph_step f (persist_claimed_graph_snapshot f id worker token revision snapshot now
                      publication).2
  | step_schedule f id worker token caller revision snapshot next now t f' :
      schedule_graph_task_retry f id worker token caller revision snapshot next now = Ok (t, f') →
      graph_step f f'
  | step_release f id worker token :
      graph_step f (release_claimed_graph_task f id worker token).2
  | step_complete f id worker token revision publication now :
      graph_step f (complete_claimed_graph_publication f id worker token revision publication
                      now).2.

Lemma graph_step_ok f f' : graph_step f f' → graph_store_ok f → graph_store_ok f'.
Proof.
  destruct 1; intros Hok.
  - by eapply insert_preserves.
  - by apply (graph_store_ok_records f).
  - by apply (graph_store_ok_records f).
  - by eapply claim_preserves.
  - by apply persist_preserves.
  - by eapply schedule_preserves.
  - by apply release_preserves.
  - by apply complete_preserves.
Qed.

Lemma graph_steps_ok f f' : rtc graph_step f f' → graph_store_ok f → graph_store_ok f'.
Proof. induction 1; eauto using graph_step_ok. Qed.

Lemma graph_store_ok_new : graph_store_ok Fence_new.
Proof. split; cbn; [constructor|constructor|]. intros st Hst. by apply elem_of_nil in Hst. Qed.

(** In every state the repository reaches from empty, task identifiers and
    handles are unique, every snapshot is valid, and status, root, lease fields,
    publication payload, publication token and completion time agree: only
    satisfied tasks carry an entitlement, exactly the one their snapshot decides,
    and a task expires only at or after its deadline. *)
Theorem graph_store_invariant f : rtc graph_step Fence_new f → graph_store_ok f.
Proof.
  intros Hsteps. apply (graph_steps_ok _ _ Hsteps), graph_store_ok_new.
Qed.

(** * Leases *)

Lemma same_task f st st' :
  graph_store_ok f → st ∈ graph_records f → st' ∈ graph_records f → sg_id st' = sg_id st →
  st' = st.
Proof.
  intros [Hids _ _] [i Hi]%list_elem_of_lookup [j Hj]%list_elem_of_lookup Hid.
  assert (i = j) as ->; [|congruence].
  eapply NoDup_lookup; [exact Hids| |]; rewrite list_lookup_fmap; [by rewrite Hi|].
  rewrite Hj. cbn. by rewrite Hid.
Qed.

(** Only the holder of the stored claim token matches a token-checked search. *)
Lemma no_match f id st token token' (p : StoredGraphTask → bool) :
  graph_store_ok f → st ∈ graph_records f → sg_id st = id → sg_claim_token st = Some token →
  token' ≠ token →
  (∀ st', p st' = true → sg_id st' = id ∧ sg_claim_token st' = Some token') →
  find_first p (graph_records f) = None.
Proof.
  intros Hok Hin Hid Htok Hne Hp. apply find_first_None. intros st' Hin'.
  apply not_true_iff_false. intros [Hid' Htok']%Hp.
  assert (st' = st) as -> by (eapply same_task; congruence || done). congruence.
Qed.

Lemma claim_skips_leased f st e worker caller expires now token c f' :
  graph_store_ok f → st ∈ graph_records f → sg_claim_expires_at st = Some e → now < e →
  claim_next_graph_task f worker caller expires now token = Ok (Some c, f') →
  gt_task_id (cgt_task c) ≠ sg_id st ∧ st ∈ graph_records f'.
Proof.
  intros Hok Hin He Hnow Hc. unfold claim_next_graph_task in Hc.
  apply bind_Ok in Hc as ([] & _ & Hc).
  destruct (find_first _ _) as [[i st']|] eqn:Hfind; [|done].
  apply find_first_Some in Hfind as [Hi Hcl]. injection Hc as <- <-.
  assert (sg_id st' ≠ sg_id st) as Hne.
  { intros Hid. assert (st' = st) as ->.
    { eapply same_task; [done|done|by eapply list_elem_of_lookup_2|done]. }
    unfold claimable in Hcl. rewrite He in Hcl. cbn in Hcl. props. lia. }
  split; [by cbn; destruct (_ != _)|]. apply list_elem_of_lookup in Hin as [j Hj].
  apply list_elem_of_lookup. exists j. cbn. rewrite list_lookup_insert_ne; [done|].
  intros ->. congruence.
Qed.

(** Leases are exclusive.  While a stored task carries a claim token, every
    operation that presents another token for it finds nothing to do and leaves
    the state untouched; and until the lease expires no claim returns that task
    or disturbs its record. *)
Theorem graph_lease_exclusive f st token :
  graph_store_ok f → st ∈ graph_records f → sg_claim_token st = Some token →
  (∀ token' worker caller revision snapshot next publication now, token' ≠ token →
     persist_claimed_graph_snapshot f (sg_id st) worker token' revision snapshot now publication
       = (Ok None, f)
     ∧ schedule_graph_task_retry f (sg_id st) worker token' caller revision snapshot next now
       = Ok (None, f)
     ∧ release_claimed_graph_task f (sg_id st) worker token' = (false, f)
     ∧ complete_claimed_graph_publication f (sg_id st) worker token' revision publication now
       = (None, f)
     ∧ acquire_graph_publication_action f (sg_id st) worker token' revision publication now
       = false)
  ∧ (∀ e worker caller expires now token' c f',
       sg_claim_expires_at st = Some e → now < e →
       claim_next_graph_task f worker caller expires now token' = Ok (Some c, f') →
       gt_task_id (cgt_task c) ≠ sg_id st ∧ st ∈ graph_records f').
Proof.
  intros Hok Hin Htok. split.
  2: { intros e worker caller expires now token' c f'. by apply claim_skips_leased. }
  intros token' worker caller revision snapshot next publication now Hne.
  assert (∀ p : StoredGraphTask → bool,
    (∀ st', p st' = true → sg_id st' = sg_id st ∧ sg_claim_token st' = Some token') →
    find_first p (graph_records f) = None) as Hnone.
  { intros p Hp. by eapply (no_match f (sg_id st) st token token'). }
  assert (∀ st', live_publication f (sg_id st) worker token' revision publication now st' = true →
    sg_id st' = sg_id st ∧ sg_claim_token st' = Some token') as Hpub.
  { intros st' Hl. unfold live_publication in Hl. props. done. }
  split_and!.
  - unfold persist_claimed_graph_snapshot. rewrite Hnone; [done|].
    intros st' [? _ _ _ ? _ _]%live_evaluation_true. done.
  - unfold schedule_graph_task_retry. rewrite Hnone; [done|].
    intros st' [? _ _ _ ? _ _]%live_evaluation_true. done.
  - unfold release_claimed_graph_task. rewrite Hnone; [done|]. intros st' Hp. by props.
  - unfold complete_claimed_graph_publication. rewrite Hnone; [done|].
    intros st' Hp. props. by apply Hpub.
  - unfold acquire_graph_publication_action. destruct (find_first _ _) as [[i st']|]; [|done].
    destruct (bool_decide _); [done|]. apply existsb_false.
    apply find_first_None. by apply Hnone.
Qed.

(** Replacing the snapshot of a claimed task.  The write happens exactly for
    the holder of a live claim at the stored revision, with a valid successor of
    the stored snapshot that has no observation from the future and does not
    expire early; the revision then advances by one, the status follows the root,
    and a satisfied task holds the entitlement its snapshot decides.  In every
    other case the state is left as it was. *)
Theorem persist_claimed_graph_snapshot_spec f id worker token revision snapshot now publication
    res f' :
  graph_store_ok f →
  persist_claimed_graph_snapshot f id worker token revision snapshot now publication = (res, f') →
  match res with
  | Ok (Some t') =>
      (∃ st, st ∈ graph_records f ∧ live_claim f id worker token revision now st
             ∧ replacement_ok (gt_snapshot (sg_task st)) snapshot now)
      ∧ (∀ r, gs_root snapshot = GraphExpired r → gs_deadline_at snapshot ≤ now)
      ∧ gt_task_id t' = id ∧ gt_snapshot t' = snapshot ∧ gt_evaluator_revision t' = revision + 1
      ∧ gt_status t' = default InProgress (GraphRootState_terminal_status (gs_root snapshot))
      ∧ (gs_root snapshot = GraphSatisfied →
         gt_entitlement_to_publish t' = Some (graph_publication snapshot now)
         ∧ gt_entitlement_publication_token t' = Some publication)
      ∧ ∃ st', st' ∈ graph_records f' ∧ sg_task st' = t'
  | Ok None =>
      f' = f ∧ ∀ st, st ∈ graph_records f → ¬ live_claim f id worker token revision now st
  | Err _ => f' = f
  end.
Proof.
  intros Hok Hp. unfold persist_claimed_graph_snapshot in Hp.
  destruct (find_first _ _) as [[i st]|] eqn:Hfind.
  2: { injection Hp as <- <-. split; [done|]. intros st Hst Hl. rewrite find_first_None in Hfind.
       apply live_evaluation_true in Hl. specialize (Hfind st Hst). congruence. }
  apply find_first_Some in Hfind as [Hi Hlive]. apply live_evaluation_true in Hlive.
  match goal with Hx : context [match ?c with Ok _ => _ | Err _ => _ end] |- _ =>
    destruct c as [next_revision|] eqn:Hchecks; [|by injection Hx as <- <-] end.
  apply persist_checks_Ok in Hchecks as (Hrep & Hexp & -> & _). pose proof Hrep as [Hvn _ _ _].
  rewrite (graph_publication_valid snapshot now Hvn) in Hp.
  assert (gt_task_id (sg_task st) = id) as Hid by apply Hlive.
  assert (gt_status (sg_task st) = InProgress) as Hst by apply Hlive.
  assert (∀ st', st' ∈ <[i := st']> (graph_records f)) as Hin.
  { intros st'. apply list_elem_of_insert. by eapply lookup_lt_Some. }
  destruct (gs_root snapshot) as [| |reason|] eqn:Hrn; injection Hp as <- <-; cbn;
    (split_and!; [exists st; split_and!; [by eapply list_elem_of_lookup_2|done|done]|..]); try done;
    try (eexists; split; [apply Hin|done]). all: try (by destruct reason).
Qed.

(** The holder's record is the one the token-checked search finds. *)
Lemma find_live f id worker token revision now st :
  graph_store_ok f → st ∈ graph_records f → live_claim f id worker token revision now st →
  ∃ i, find_first (live_evaluation f id worker token revision now) (graph_records f)
       = Some (i, st).
Proof.
  intros Hok Hin Hlive. destruct (find_first _ _) as [[i st']|] eqn:Hfind.
  - apply find_first_Some in Hfind as [Hi [Hid _ _ _ _ _ _]%live_evaluation_true].
    exists i. do 2 f_equal.
    eapply same_task; [done|done|by eapply list_elem_of_lookup_2|]. destruct Hlive. congruence.
  - rewrite find_first_None in Hfind. apply live_evaluation_true in Hlive.
    specialize (Hfind st Hin). congruence.
Qed.

(** In the in-memory repository a retry planned for the deadline is refused as
    soon as the repository's clock is past the worker's reading, although the
    planned time is no later than the deadline. *)
Theorem retry_at_deadline_refused f id worker token revision now caller snapshot st :
  graph_store_ok f → st ∈ graph_records f → live_claim f id worker token revision now st →
  caller < now →
  schedule_graph_task_retry f id worker token caller revision snapshot (gs_deadline_at snapshot) now
  = Err (InvalidVerificationTaskState
           "graph retry must be after now and no later than deadline").
Proof.
  intros Hok Hin Hl Hlt. destruct (find_live f _ _ _ _ _ st Hok Hin Hl) as [i Hfind].
  unfold schedule_graph_task_retry. rewrite Hfind.
  assert ((now + (gs_deadline_at snapshot - caller) <=? now)
          || (gs_deadline_at snapshot <? now + (gs_deadline_at snapshot - caller)) = true) as -> by lia.
  done.
Qed.

End store.
