(* ===== verification/TaskStore.v ===== *)
(** The in-memory repository of v1 verification tasks and invoice admissions, and
    the claimer that leases its tasks to workers
    ([locks-service/src/infrastructure/memory/verification_tasks.rs],
    [memory/verification_task_claims.rs]; the admission records are those of
    [application/models/verification.rs]).

    The claimer is the one the server wires up: it shares the fence with the
    repository, mirrors its transitions to the repository, and is told of the
    tasks the repository creates, admits and deletes.  Clock readings and fresh
    UUIDs are arguments. *)

From S2P Require Import Prelude HashMaps RustStr Externals Ids Json LockPolicy Wire Errors.
From S2P Require Import Lifecycle GraphTask Fence.

(** * Data *)

Definition INVOICE_ADMISSION_INTENT_VERSION : Z := 1.

Record InvoiceAdmissionIntentV1 := MkIntent {
  in_version : Z;
  in_creator : CreatorPubky;
  in_bundle_id : BundleId;
  in_lock_resource : PubkyLockResource;
  in_reader : CreatorPubky;
  in_payment_in : Z;
}.

#[global] Instance InvoiceAdmissionIntentV1_eq_dec : EqDecision InvoiceAdmissionIntentV1.
Proof. solve_decision. Defined.
#[global] Instance InvoiceAdmissionPhase_eq_dec : EqDecision InvoiceAdmissionPhase.
Proof. solve_decision. Defined.

Record InvoiceAdmissionRecord := MkAdmission {
  ia_task : VerificationTaskRecord;
  ia_phase : InvoiceAdmissionPhase;
  ia_intent : InvoiceAdmissionIntentV1;
  ia_admission_deadline_at : OffsetDateTime;
  ia_next_attempt_at : option OffsetDateTime;
  ia_attempt_count : Z;
  ia_retry_reason : option InvoiceAdmissionRetryReason;
  ia_invoice_created_at : option OffsetDateTime;
  ia_payment_deadline : option OffsetDateTime;
}.

Record ClaimedInvoiceAdmission := MkClaimedAdmission {
  cia_admission : InvoiceAdmissionRecord;
  cia_claim_token : Uuid;
  cia_deadline_expired : bool;
}.

Record ClaimedVerificationTask := MkClaimedTask {
  cvt_task : VerificationTaskRecord;
  cvt_claim_token : Uuid;
}.

Record MemoryInvoiceAdmission := MkMemoryAdmission {
  ma_record : InvoiceAdmissionRecord;
  ma_claimed_by : option string;
  ma_claim_token : option Uuid;
  ma_claim_expires_at : option OffsetDateTime;
}.

Record ClaimableVerificationTask := MkClaimable {
  ct_task : VerificationTaskRecord;
  ct_invoice_admission_phase : InvoiceAdmissionPhase;
  ct_claimed_by : option string;
  ct_claim_token : option Uuid;
  ct_claim_expires_at : option OffsetDateTime;
  ct_next_attempt_at : option OffsetDateTime;
}.

(** The repository with the fence and the claimer it is connected to. *)
Record TaskRepo := MkTaskRepo {
  task_fence : Fence;
  task_records : gmap TaskId VerificationTaskRecord;
  invoice_admissions : gmap TaskId MemoryInvoiceAdmission;
  claimer_records : list ClaimableVerificationTask;
}.

Definition TaskRepo_new : TaskRepo := MkTaskRepo Fence_new ∅ ∅ [].

Definition repo_with_fence (s : TaskRepo) (f : Fence) : TaskRepo :=
  MkTaskRepo f (task_records s) (invoice_admissions s) (claimer_records s).
Definition repo_with_claimer (s : TaskRepo) (l : list ClaimableVerificationTask) : TaskRepo :=
  MkTaskRepo (task_fence s) (task_records s) (invoice_admissions s) l.
Definition repo_with_admissions (s : TaskRepo) (m : gmap TaskId MemoryInvoiceAdmission) :=
  MkTaskRepo (task_fence s) (task_records s) m (claimer_records s).

Definition fr_with_status (r : TaskFenceRecord) (status : VerificationTaskStatus) :=
  fr_with_publication r status (fr_publication_claim_token r).
Definition fr_with_token (r : TaskFenceRecord) (token : option Uuid) :=
  fr_with_publication r (fr_status r) token.
Definition fr_admission_ready (r : TaskFenceRecord) : TaskFenceRecord :=
  MkTaskFenceRecord (fr_creator r) (fr_lock_id r) (fr_bundle_id r)
    (fr_paykit_admission_required r) true (fr_status r) (fr_publication_claim_token r)
    (fr_deletion_job_id r).

Definition bundle_of (t : VerificationTaskRecord) : BundleId :=
  sb_bundle_id (tr_submitted_proof_bundle t).
Definition tr_handle (t : VerificationTaskRecord) : CreatorPubky * BundleId :=
  (tr_creator t, bundle_of t).
Definition tr_lock_id (t : VerificationTaskRecord) : LockId :=
  resource_lock_id (sb_pubky_lock_resource (tr_submitted_proof_bundle t)).

Definition pays_with_paykit (b : SubmittedProofBundle) : bool :=
  existsb (λ p, proof_verifier_type p == PaykitPayment) (sb_proofs b).

(** * The claimer's queue *)

Definition register_task (l : list ClaimableVerificationTask) (t : VerificationTaskRecord)
    (phase : InvoiceAdmissionPhase) : list ClaimableVerificationTask :=
  if existsb (λ r, tr_task_id (ct_task r) == tr_task_id t) l then l
  else l ++ [MkClaimable t phase None None None None].

Definition claimer_mark_invoice_admission_ready (l : list ClaimableVerificationTask)
    (id : TaskId) : list ClaimableVerificationTask :=
  match find_first (λ r, tr_task_id (ct_task r) == id) l with
  | Some (i, r) =>
      <[i := MkClaimable (ct_task r) PhaseReady (ct_claimed_by r) (ct_claim_token r)
               (ct_claim_expires_at r) (ct_next_attempt_at r)]> l
  | None => l
  end.

Definition remove_task (l : list ClaimableVerificationTask) (id : TaskId) :
    list ClaimableVerificationTask :=
  filter (λ r, tr_task_id (ct_task r) ≠ id) l.

(** * The task repository *)

Definition v1_fence_record (t : VerificationTaskRecord) (paykit ready : bool) : TaskFenceRecord :=
  MkTaskFenceRecord (tr_creator t) (tr_lock_id t) (bundle_of t) paykit ready (tr_status t)
    None None.

Definition find_by_handle (s : TaskRepo) (handle : CreatorPubky * BundleId) :
    option (TaskId * VerificationTaskRecord) :=
  find_entry (λ _ existing, tr_handle existing == handle) (task_records s).

(** A task of the other lanes already has the identifier, or the handle. *)
Definition foreign_id (s : TaskRepo) (id : TaskId) : bool :=
  is_some (fence_records (task_fence s) !! id) && is_none (task_records s !! id).
Definition foreign_handle (s : TaskRepo) (handle : CreatorPubky * BundleId) : bool :=
  existsb (λ '(id, r), ((fr_creator r, fr_bundle_id r) == handle)
                       && is_none (task_records s !! id))
    (map_to_list (fence_records (task_fence s))).

(** What an operation writes under the locks of the repository and the fence, and what it
    tells the claimer after it has released them, are definitions of their own.  The
    operation is their sequence, run as one step wherever the development calls it;
    [TaskInv] says what another call between the two can do. *)
Definition add_task (s : TaskRepo) (t : VerificationTaskRecord) (paykit ready : bool)
    (admissions : gmap TaskId MemoryInvoiceAdmission) : TaskRepo :=
  let f := task_fence s in
  MkTaskRepo
    (MkFence (<[tr_task_id t := v1_fence_record t paykit ready]> (fence_records f))
       (graph_records f) (<[tr_task_id t := tr_status t]> (current_statuses f))
       (deletion_cutoffs f) (folded_auth_reservations f))
    (<[tr_task_id t := t]> (task_records s))
    admissions (claimer_records s).

Definition tell_claimer (s : TaskRepo) (t : VerificationTaskRecord) (phase : InvoiceAdmissionPhase) :
    TaskRepo :=
  repo_with_claimer s (register_task (claimer_records s) t phase).

(** Up to the release of the locks. *)
Definition insert_verification_task_writes (s : TaskRepo) (t : VerificationTaskRecord) :
    result ApplicationError TaskRepo :=
  let f := task_fence s in
  _ ← reject_if (bool_decide (tr_handle t ∈ folded_auth_reservations f)) VerificationTaskConflict;
  _ ← reject_if (bool_decide ((tr_creator t, tr_lock_id t) ∈ deletion_cutoffs f))
        ContentLockDeletionInProgress;
  _ ← reject_if (foreign_id s (tr_task_id t)) (DuplicateRecord "verification_task");
  _ ← reject_if (foreign_handle s (tr_handle t)) VerificationTaskConflict;
  match find_by_handle s (tr_handle t) with
  | Some (_, existing) =>
      if tr_submitted_proof_bundle existing == tr_submitted_proof_bundle t
      then Err (DuplicateRecord "verification_task")
      else Err VerificationTaskConflict
  | None =>
      _ ← reject_if (is_some (task_records s !! tr_task_id t))
            (DuplicateRecord "verification_task");
      Ok (add_task s t (pays_with_paykit (tr_submitted_proof_bundle t)) true (invoice_admissions s))
  end.

Definition insert_verification_task (s : TaskRepo) (t : VerificationTaskRecord) :
    result ApplicationError TaskRepo :=
  s' ← insert_verification_task_writes s t;
  Ok (tell_claimer s' t PhaseReady).

Definition update_verification_task (s : TaskRepo) (t : VerificationTaskRecord) :
    result ApplicationError TaskRepo :=
  stored ← ok_or (task_records s !! tr_task_id t) (MissingRecord "verification_task");
  let updated := with_lifecycle_of stored t in
  let f := task_fence s in
  Ok (MkTaskRepo
        (fence_with_statuses f (<[tr_task_id updated := tr_status updated]> (current_statuses f)))
        (<[tr_task_id updated := updated]> (task_records s))
        (invoice_admissions s) (claimer_records s)).

(** One iteration of the loop of [update_verification_tasks_atomically]. *)
Definition apply_update (s : TaskRepo) (t : VerificationTaskRecord) : TaskRepo :=
  match task_records s !! tr_task_id t with
  | None => s
  | Some stored =>
      let updated := with_lifecycle_of stored t in
      let f := task_fence s in
      MkTaskRepo
        (fence_with_records f
           (alter (λ r, fr_with_status r (tr_status updated)) (tr_task_id updated)
              (fence_records f)))
        (<[tr_task_id updated := updated]> (task_records s))
        (invoice_admissions s) (claimer_records s)
  end.

Definition update_verification_tasks_atomically (s : TaskRepo)
    (tasks : list VerificationTaskRecord) : result ApplicationError TaskRepo :=
  _ ← reject_if (existsb (λ t, is_none (task_records s !! tr_task_id t)) tasks)
        (MissingRecord "verification_task");
  Ok (fold_left apply_update tasks s).

Definition get_verification_task (s : TaskRepo) (id : TaskId) : option VerificationTaskRecord :=
  task_records s !! id.

Definition get_verification_task_by_handle (s : TaskRepo) (creator : CreatorPubky)
    (bundle_id : BundleId) : option VerificationTaskRecord :=
  snd <$> find_by_handle s (creator, bundle_id).

(** The claimer is told after the locks are released. *)
Definition delete_verification_task (s : TaskRepo) (id : TaskId) : TaskRepo :=
  match task_records s !! id with
  | None => s
  | Some _ =>
      let f := task_fence s in
      let s' := MkTaskRepo
        (MkFence (delete id (fence_records f)) (graph_records f) (delete id (current_statuses f))
           (deletion_cutoffs f) (folded_auth_reservations f))
        (delete id (task_records s)) (delete id (invoice_admissions s)) (claimer_records s) in
      repo_with_claimer s' (remove_task (claimer_records s') id)
  end.

(** * Invoice admission *)

Definition validate_invoice_admission_inputs (t : VerificationTaskRecord)
    (intent : InvoiceAdmissionIntentV1) : result ApplicationError () :=
  let b := tr_submitted_proof_bundle t in
  reject_if (negb (in_version intent =? INVOICE_ADMISSION_INTENT_VERSION)
             || (in_payment_in intent =? 0)
             || (tr_status t != Pending)
             || (tr_creator t != in_creator intent)
             || (sb_bundle_id b != in_bundle_id intent)
             || (sb_pubky_lock_resource b != in_lock_resource intent)
             || (sb_reader_public_key b != Some (in_reader intent)))
    (InvalidVerificationTaskState
       "invoice admission intent diverges from pending verification task").

Definition new_admission (t : VerificationTaskRecord) (intent : InvoiceAdmissionIntentV1) :
    InvoiceAdmissionRecord :=
  MkAdmission t PhaseInvoicePending intent (tr_submitted_at t + minutes 10)
    (Some (tr_submitted_at t)) 0 None None None.

(** Up to the release of the locks; the flag says that the task is new. *)
Definition insert_invoice_pending_task_writes (s : TaskRepo) (t : VerificationTaskRecord)
    (intent : InvoiceAdmissionIntentV1) :
    result ApplicationError (InvoiceAdmissionRecord * bool * TaskRepo) :=
  _ ← validate_invoice_admission_inputs t intent;
  let f := task_fence s in
  _ ← reject_if (bool_decide ((tr_creator t, tr_lock_id t) ∈ deletion_cutoffs f))
        ContentLockDeletionInProgress;
  _ ← reject_if (foreign_id s (tr_task_id t)) (DuplicateRecord "verification_task");
  _ ← reject_if (foreign_handle s (tr_handle t)) VerificationTaskConflict;
  match find_by_handle s (tr_handle t) with
  | Some (_, existing) =>
      match ma_record <$> invoice_admissions s !! tr_task_id existing with
      | Some admission =>
          if (tr_submitted_proof_bundle existing == tr_submitted_proof_bundle t)
             && (ia_intent admission == intent)
          then Ok (admission, false, s)
          else Err VerificationTaskConflict
      | None => Err VerificationTaskConflict
      end
  | None =>
      _ ← reject_if (is_some (task_records s !! tr_task_id t))
            (DuplicateRecord "verification_task");
      let admission := new_admission t intent in
      Ok (admission, true,
          add_task s t true false
            (<[tr_task_id t := MkMemoryAdmission admission None None None]>
               (invoice_admissions s)))
  end.

Definition insert_invoice_pending_task (s : TaskRepo) (t : VerificationTaskRecord)
    (intent : InvoiceAdmissionIntentV1) :
    result ApplicationError (InvoiceAdmissionRecord * TaskRepo) :=
  '(admission, new, s') ← insert_invoice_pending_task_writes s t intent;
  Ok (admission, if new : bool then tell_claimer s' t PhaseInvoicePending else s').

Definition get_invoice_admission (s : TaskRepo) (id : TaskId) : option InvoiceAdmissionRecord :=
  ma_record <$> invoice_admissions s !! id.

(** [next_attempt_at.or(claim_expires_at)]. *)
Definition claimable_at (a : MemoryInvoiceAdmission) : option OffsetDateTime :=
  match ia_next_attempt_at (ma_record a) with
  | Some due => Some due
  | None => ma_claim_expires_at a
  end.

Definition admission_due (now : OffsetDateTime) (a : MemoryInvoiceAdmission) : bool :=
  (ia_phase (ma_record a) == PhaseInvoicePending)
  && is_some_and (λ due, due <=? now) (claimable_at a)
  && is_none_or (λ e, e <=? now) (ma_claim_expires_at a).

Section admission_claims.
  Context `{UuidCrate}.

(** Due time, then submission time, then identifier. *)
Definition admission_before (a b : TaskId * MemoryInvoiceAdmission) : bool :=
  is_lt
    (then_compare (option_compare (claimable_at a.2) (claimable_at b.2))
       (then_compare
          (tr_submitted_at (ia_task (ma_record a.2)) ?= tr_submitted_at (ia_task (ma_record b.2)))
          (String.compare (TaskId_display (tr_task_id (ia_task (ma_record a.2))))
             (TaskId_display (tr_task_id (ia_task (ma_record b.2))))))).

Definition claim_next_invoice_admission (s : TaskRepo) (worker_id : string)
    (now : OffsetDateTime) (claim_ttl : Duration) (claim_token : Uuid) :
    option ClaimedInvoiceAdmission * TaskRepo :=
  match min_by admission_before
          (filter (λ '(_, a), admission_due now a = true) (map_to_list (invoice_admissions s))) with
  | None => (None, s)
  | Some (id, a) =>
      let r := ma_record a in
      let r' := MkAdmission (ia_task r) (ia_phase r) (ia_intent r) (ia_admission_deadline_at r)
                  None (saturating_add U32_MAX (ia_attempt_count r) 1) (ia_retry_reason r)
                  (ia_invoice_created_at r) (ia_payment_deadline r) in
      (Some (MkClaimedAdmission r' claim_token (ia_admission_deadline_at r <=? now)),
       repo_with_admissions s
         (<[id := MkMemoryAdmission r' (Some worker_id) (Some claim_token)
                    (Some (now + claim_ttl))]> (invoice_admissions s)))
  end.
End admission_claims.

(** The exact live lease of a pending admission. *)
Definition live_admission (worker_id : string) (claim_token : Uuid) (now : OffsetDateTime)
    (a : MemoryInvoiceAdmission) : bool :=
  (ia_phase (ma_record a) == PhaseInvoicePending)
  && (ma_claimed_by a == Some worker_id)
  && (ma_claim_token a == Some claim_token)
  && is_some_and (λ e, now <? e) (ma_claim_expires_at a).

(** [admissions.get_mut(task_id).filter(...)]. *)
Definition filtered_admission (s : TaskRepo) (id : TaskId)
    (p : MemoryInvoiceAdmission → bool) : option MemoryInvoiceAdmission :=
  a ← invoice_admissions s !! id; if p a then Some a else None.

(** Under the lock of the admissions. *)
Definition mark_invoice_admission_ready_writes (s : TaskRepo) (id : TaskId) (worker_id : string)
    (claim_token : Uuid) (now invoice_created_at payment_deadline : OffsetDateTime) :
    result ApplicationError (option InvoiceAdmissionRecord * TaskRepo) :=
  _ ← reject_if (payment_deadline <=? invoice_created_at)
        (InvalidVerificationTaskState "invoice payment deadline must follow invoice creation");
  match filtered_admission s id (live_admission worker_id claim_token now) with
  | None => Ok (None, s)
  | Some a =>
      let r := ma_record a in
      let r' := MkAdmission (ia_task r) PhaseReady (ia_intent r) (ia_admission_deadline_at r)
                  None (ia_attempt_count r) None (Some invoice_created_at)
                  (Some payment_deadline) in
      Ok (Some r',
          repo_with_admissions s
            (<[id := MkMemoryAdmission r' None None None]> (invoice_admissions s)))
  end.

(** After it: the fence, under its lock, and then the claimer. *)
Definition admission_ready_in_fence (s : TaskRepo) (id : TaskId) : TaskRepo :=
  let f := task_fence s in
  repo_with_fence s (fence_with_records f (alter fr_admission_ready id (fence_records f))).
Definition admission_ready_in_queue (s : TaskRepo) (id : TaskId) : TaskRepo :=
  repo_with_claimer s (claimer_mark_invoice_admission_ready (claimer_records s) id).

Definition mark_invoice_admission_ready (s : TaskRepo) (id : TaskId) (worker_id : string)
    (claim_token : Uuid) (now invoice_created_at payment_deadline : OffsetDateTime) :
    result ApplicationError (option InvoiceAdmissionRecord * TaskRepo) :=
  '(o, s') ← mark_invoice_admission_ready_writes s id worker_id claim_token now invoice_created_at
               payment_deadline;
  Ok (o, match o with
         | Some _ => admission_ready_in_queue (admission_ready_in_fence s' id) id
         | None => s'
         end).

Definition schedule_invoice_admission_retry (s : TaskRepo) (id : TaskId) (worker_id : string)
    (claim_token : Uuid) (now : OffsetDateTime) (retry_after : Duration)
    (retry_reason : option InvoiceAdmissionRetryReason) :
    option InvoiceAdmissionRecord * TaskRepo :=
  match filtered_admission s id
          (λ a, (now <? ia_admission_deadline_at (ma_record a))
                && live_admission worker_id claim_token now a) with
  | None => (None, s)
  | Some a =>
      let r := ma_record a in
      let r' := MkAdmission (ia_task r) (ia_phase r) (ia_intent r) (ia_admission_deadline_at r)
                  (Some (Z.min (now + retry_after) (ia_admission_deadline_at r)))
                  (ia_attempt_count r)
                  (if is_some retry_reason then retry_reason else ia_retry_reason r)
                  (ia_invoice_created_at r) (ia_payment_deadline r) in
      (Some r',
       repo_with_admissions s
         (<[id := MkMemoryAdmission r' None None None]> (invoice_admissions s)))
  end.

Definition mark_invoice_admission_failed (s : TaskRepo) (id : TaskId) (worker_id : string)
    (claim_token : Uuid) (now : OffsetDateTime) (failure_message : string) :
    result ApplicationError (option InvoiceAdmissionRecord * TaskRepo) :=
  let message := trim failure_message in
  _ ← reject_if (message == "") InvalidVerificationTaskFailureMessage;
  match task_records s !! id, filtered_admission s id (live_admission worker_id claim_token now) with
  | Some task, Some a =>
      let r := ma_record a in
      let t' := with_lifecycle (ia_task r) Failed (Some now) (Some now) (Some message)
                  (tr_terminal_reason (ia_task r)) (tr_entitlement_to_publish (ia_task r)) in
      let r' := MkAdmission t' PhaseFailed (ia_intent r) (ia_admission_deadline_at r) None
                  (ia_attempt_count r) None (ia_invoice_created_at r) (ia_payment_deadline r) in
      let f := task_fence s in
      Ok (Some r',
          MkTaskRepo
            (MkFence (alter (λ fr, fr_with_status fr Failed) id (fence_records f))
               (graph_records f) (<[id := Failed]> (current_statuses f)) (deletion_cutoffs f)
               (folded_auth_reservations f))
            (<[id := with_lifecycle_of task t']> (task_records s))
            (<[id := MkMemoryAdmission r' None None None]> (invoice_admissions s))
            (claimer_records s))
  | _, _ => Ok (None, s)
  end.

(** * Claims of verification tasks *)

Definition is_claimable_at (r : ClaimableVerificationTask) (now : OffsetDateTime) : bool :=
  if ct_invoice_admission_phase r != PhaseReady then false
  else match tr_status (ct_task r) with
       | Pending => is_none_or (λ due, due <=? now) (ct_next_attempt_at r)
       | InProgress | PublishingEntitlement =>
           is_some_and (λ e, e <=? now) (ct_claim_expires_at r)
       | Completed | Failed | Expired => false
       end.

(** The fence does not know the task, or no deletion job owns it. *)
Definition task_undeleted (f : Fence) (r : ClaimableVerificationTask) : bool :=
  is_none_or (λ fr, is_none (fr_deletion_job_id fr)) (fence_records f !! tr_task_id (ct_task r)).

Definition claim_next_verification_task (s : TaskRepo) (worker_id : string)
    (now claim_expires_at : OffsetDateTime) (claim_token : Uuid) :
    result ApplicationError (option ClaimedVerificationTask * TaskRepo) :=
  match find_first (λ r, is_claimable_at r now && task_undeleted (task_fence s) r)
          (claimer_records s) with
  | None => Ok (None, s)
  | Some (i, r) =>
      task ← (if tr_status (ct_task r) == Pending then transition_to (ct_task r) InProgress now None
              else Ok (ct_task r));
      s' ← update_verification_task s task;
      let claimed := MkClaimable task (ct_invoice_admission_phase r) (Some worker_id)
                       (Some claim_token) (Some claim_expires_at) None in
      Ok (Some (MkClaimedTask task claim_token),
          repo_with_claimer s' (<[i := claimed]> (claimer_records s')))
  end.

(** The exact live lease of a task in the given status that no deletion owns. *)
Definition live_task (f : Fence) (id : TaskId) (status : VerificationTaskStatus)
    (worker_id : string) (claim_token : Uuid) (now : OffsetDateTime)
    (r : ClaimableVerificationTask) : bool :=
  (tr_task_id (ct_task r) == id)
  && (tr_status (ct_task r) == status)
  && (ct_claimed_by r == Some worker_id)
  && (ct_claim_token r == Some claim_token)
  && is_some_and (λ e, now <? e) (ct_claim_expires_at r)
  && task_undeleted f r.

Definition schedule_verification_task_retry (s : TaskRepo) (id : TaskId) (worker_id : string)
    (claim_token : Uuid) (now next_attempt_at : OffsetDateTime) :
    result ApplicationError (option VerificationTaskRecord * TaskRepo) :=
  match find_first (live_task (task_fence s) id InProgress worker_id claim_token now)
          (claimer_records s) with
  | None => Ok (None, s)
  | Some (i, r) =>
      pending ← transition_to (ct_task r) Pending now None;
      s' ← update_verification_task s pending;
      Ok (Some pending,
          repo_with_claimer s'
            (<[i := MkClaimable pending (ct_invoice_admission_phase r) None None None
                      (Some next_attempt_at)]> (claimer_records s')))
  end.

(** The status a record must have for the transition to [status]. *)
Definition expected_status (status : VerificationTaskStatus) : VerificationTaskStatus :=
  match status with
  | Completed => PublishingEntitlement
  | _ => InProgress
  end.

Definition persist_claimed_verification_task_transition (s : TaskRepo)
    (t : VerificationTaskRecord) (worker_id : string) (claim_token : Uuid)
    (now : OffsetDateTime) : result ApplicationError (option VerificationTaskRecord * TaskRepo) :=
  _ ← reject_if (match tr_status t with Pending | InProgress => true | _ => false end)
        (InvalidVerificationTaskState "claimed task transition must publish or terminalize");
  match find_first (live_task (task_fence s) (tr_task_id t) (expected_status (tr_status t))
                      worker_id claim_token now) (claimer_records s) with
  | None => Ok (None, s)
  | Some (i, r) =>
      let task := with_lifecycle_of (ct_task r) t in
      s' ← update_verification_task s task;
      let publishing := tr_status task == PublishingEntitlement in
      let f := task_fence s' in
      let r' := if publishing
                then MkClaimable task (ct_invoice_admission_phase r) (ct_claimed_by r)
                       (ct_claim_token r) (ct_claim_expires_at r) (ct_next_attempt_at r)
                else MkClaimable task (ct_invoice_admission_phase r) None None None None in
      Ok (Some task,
          MkTaskRepo
            (fence_with_records f
               (alter (λ fr, fr_with_token fr (if publishing then Some claim_token else None))
                  (tr_task_id task) (fence_records f)))
            (task_records s') (invoice_admissions s') (<[i := r']> (claimer_records s')))
  end.
