(* ===== verification/TaskInv.v ===== *)
(** Histories of the v1 task store ([TaskStore]).

    A task lives in four places: the repository, the fence, the invoice admissions
    and the claimer's queue.  [slot_ok] says how the four agree; [task_step] is one
    call of the store, or a move of the other users of the shared fence.  The
    theorems: the places agree in every history, records only move along the
    lifecycle, no task in need of work is ever lost, and no task is both being
    published and owned by a deletion. *)

From S2P Require Import Prelude HashMaps RustStr Externals Ids Json LockPolicy Wire Errors.
From S2P Require Import Lifecycle GraphTask Fence TaskStore.

Definition ct_id (r : ClaimableVerificationTask) : TaskId := tr_task_id (ct_task r).

(** A queue record's lease, by the status of its task. *)
Definition lease_ok (r : ClaimableVerificationTask) : Prop :=
  match tr_status (ct_task r) with
  | Pending => ct_claim_expires_at r = None
  | InProgress | PublishingEntitlement => is_Some (ct_claim_expires_at r)
  | Completed | Failed | Expired => True
  end.

(** An admission waits for a worker, or is decided. *)
Definition admission_ok (a : MemoryInvoiceAdmission) : Prop :=
  let r := ma_record a in
  match ia_phase r with
  | PhaseInvoicePending => is_Some (claimable_at a)
  | PhaseReady =>
      ∃ created deadline, ia_invoice_created_at r = Some created
                          ∧ ia_payment_deadline r = Some deadline ∧ created < deadline
  | PhaseFailed => tr_status (ia_task r) = Failed
  end.

(** The record in the repository, the fence and the queue, by admission phase. *)
Definition phase_ok (t : VerificationTaskRecord) (fr : TaskFenceRecord)
    (admission : option MemoryInvoiceAdmission) (r : ClaimableVerificationTask) : Prop :=
  match admission with
  | None =>
      ct_invoice_admission_phase r = PhaseReady
      ∧ (ct_task r = t
         ∨ is_Some (fr_deletion_job_id fr) ∧ tr_status (ct_task r) ≠ PublishingEntitlement)
      ∧ lease_ok r
  | Some a =>
      admission_ok a ∧ task_identity (ia_task (ma_record a)) = task_identity t
      ∧ fr_paykit_admission_required fr = true
      ∧ fr_invoice_admission_ready fr = (ia_phase (ma_record a) == PhaseReady)
      ∧ match ia_phase (ma_record a) with
        | PhaseInvoicePending =>
            ct_invoice_admission_phase r = PhaseInvoicePending ∧ ct_task r = t
            ∧ ia_task (ma_record a) = t ∧ tr_status t = Pending ∧ lease_ok r
        | PhaseReady => ct_invoice_admission_phase r = PhaseReady ∧ ct_task r = t ∧ lease_ok r
        | PhaseFailed =>
            ct_invoice_admission_phase r = PhaseInvoicePending ∧ tr_status (ct_task r) = Pending
            ∧ tr_status t = Failed
        end
  end.

Record slot_ok (id : TaskId) (t : VerificationTaskRecord) (fr : TaskFenceRecord)
    (admission : option MemoryInvoiceAdmission) (r : ClaimableVerificationTask) : Prop := {
  so_id : tr_task_id t = id;
  so_fields : fields_consistent t = true;
  so_queue : task_identity (ct_task r) = task_identity t;
  so_fence : (fr_creator fr, fr_lock_id fr, fr_bundle_id fr)
             = (tr_creator t, tr_lock_id t, bundle_of t);
  so_phase : phase_ok t fr admission r;
  (** the fence knows of a publication exactly while there is one *)
  so_publication : is_Some (fr_publication_claim_token fr) ↔ tr_status t = PublishingEntitlement;
  (** a task under deletion is not being published *)
  so_exclusive : is_Some (fr_deletion_job_id fr) → fr_publication_claim_token fr = None;
  (** the status in the fence is the one of the insertion, or a terminal one *)
  so_status : fr_status fr = Pending
              ∨ fr_status fr = tr_status t ∧ (tr_status t = Failed ∨ tr_status t = Expired);
}.

Record tasks_ok (s : TaskRepo) : Prop := {
  tk_ids : NoDup (ct_id <$> claimer_records s);
  tk_handles id1 t1 id2 t2 :
    task_records s !! id1 = Some t1 → task_records s !! id2 = Some t2 →
    tr_handle t1 = tr_handle t2 → id1 = id2;
  tk_queue r : r ∈ claimer_records s → is_Some (task_records s !! ct_id r);
  tk_admissions id : is_Some (invoice_admissions s !! id) → is_Some (task_records s !! id);
  tk_slots id t :
    task_records s !! id = Some t →
    ∃ fr r, fence_records (task_fence s) !! id = Some fr ∧ r ∈ claimer_records s ∧ ct_id r = id
            ∧ slot_ok id t fr (invoice_admissions s !! id) r;
}.

Lemma tasks_ok_new : tasks_ok TaskRepo_new.
Proof.
  split; cbn.
  - constructor.
  - intros ???? Hl. by rewrite lookup_empty in Hl.
  - intros r Hr. by apply elem_of_nil in Hr.
  - intros id [? Hl]. by rewrite lookup_empty in Hl.
  - intros ?? Hl. by rewrite lookup_empty in Hl.
Qed.

(** * Steps *)

(** What others may do to the shared fence while this store holds its tasks. *)
Definition fence_moves (s : TaskRepo) (f' : Fence) : Prop :=
  ∀ id fr, is_Some (task_records s !! id) → fence_records (task_fence s) !! id = Some fr →
    fence_records f' !! id = Some fr
    ∨ ∃ job, fr_publication_claim_token fr = None
             ∧ fence_records f' !! id
               = Some (MkTaskFenceRecord (fr_creator fr) (fr_lock_id fr) (fr_bundle_id fr)
                         (fr_paykit_admission_required fr) (fr_invoice_admission_ready fr)
                         (fr_status fr) None (Some job)).

(** A deletion owns the task and the task was admitted without an invoice. *)
Definition owned_without_paykit (s : TaskRepo) (id : TaskId) : Prop :=
  ∃ fr, fence_records (task_fence s) !! id = Some fr ∧ is_Some (fr_deletion_job_id fr)
        ∧ fr_paykit_admission_required fr = false.

(** * One slot at a time *)

(** The queue has one record per task. *)
Lemma same_record s r r' :
  tasks_ok s → r ∈ claimer_records s → r' ∈ claimer_records s → ct_id r = ct_id r' → r = r'.
Proof.
  intros [Hnd _ _ _ _] Hr Hr' Heq.
  apply list_elem_of_lookup in Hr as [i Hi], Hr' as [j Hj].
  assert (i = j) as ->; [|congruence].
  eapply (NoDup_lookup _ _ _ (ct_id r) Hnd); rewrite list_lookup_fmap; [by rewrite Hi|].
  rewrite Hj. cbn. congruence.
Qed.

(** The slot of the task of a queue record. *)
Lemma record_slot s r :
  tasks_ok s → r ∈ claimer_records s →
  ∃ t fr, task_records s !! ct_id r = Some t ∧ fence_records (task_fence s) !! ct_id r = Some fr
          ∧ slot_ok (ct_id r) t fr (invoice_admissions s !! ct_id r) r.
Proof.
  intros Hok Hr. destruct (tk_queue s Hok r Hr) as [t Ht].
  destruct (tk_slots s Hok _ _ Ht) as (fr & r' & Hfr & Hr' & Hid & Hslot).
  rewrite (same_record s r' r Hok Hr' Hr Hid) in Hslot. eauto.
Qed.

(** [s'] is [s] with other contents in the slot of one task. *)
Record slot_update (s : TaskRepo) (id : TaskId) (t' : VerificationTaskRecord)
    (fr' : TaskFenceRecord) (i : nat) (r' : ClaimableVerificationTask) (s' : TaskRepo) : Prop := {
  su_records : task_records s' = <[id := t']> (task_records s);
  su_fence : fence_records (task_fence s') !! id = Some fr';
  su_fences id' : id' ≠ id →
    fence_records (task_fence s') !! id' = fence_records (task_fence s) !! id';
  su_admissions id' : id' ≠ id → invoice_admissions s' !! id' = invoice_admissions s !! id';
  su_queue : claimer_records s' = <[i := r']> (claimer_records s);
}.

Lemma tasks_ok_slot s id t t' fr' i r r' s' :
  tasks_ok s → slot_update s id t' fr' i r' s' →
  task_records s !! id = Some t → claimer_records s !! i = Some r → ct_id r = id →
  task_identity t' = task_identity t →
  slot_ok id t' fr' (invoice_admissions s' !! id) r' →
  tasks_ok s'.
Proof.
  intros Hok [Hrec Hf Hfs Has Hq] Ht Hi Hrid Hident Hslot.
  assert (ct_id r' = id) as Hrid'.
  { destruct Hslot as [Hid _ Hsame _ _ _ _ _]. unfold task_identity in Hsame. unfold ct_id. congruence. }
  split.
  - rewrite Hq, list_fmap_insert, Hrid', <- Hrid. rewrite list_insert_id; [apply (tk_ids s Hok)|].
    by rewrite list_lookup_fmap, Hi.
  - assert (∀ id1 t1, task_records s' !! id1 = Some t1 →
              ∃ t0, task_records s !! id1 = Some t0 ∧ tr_handle t0 = tr_handle t1) as Hback.
    { intros id1 t1. rewrite Hrec. destruct (decide (id1 = id)) as [->|Hne].
      - rewrite lookup_insert_eq. intros [= <-]. exists t. split; [done|].
        unfold tr_handle, bundle_of, task_identity in *. congruence.
      - rewrite lookup_insert_ne by done. eauto. }
    intros id1 t1 id2 t2 (u1 & Hu1 & E1)%Hback (u2 & Hu2 & E2)%Hback Heq.
    eapply (tk_handles s Hok); [done|done|congruence].
  - intros x Hx. rewrite Hq in Hx. rewrite Hrec. apply list_elem_of_lookup in Hx as [j Hj].
    apply list_lookup_insert_Some in Hj as [(-> & <- & _)|[Hne Hj]].
    + rewrite Hrid', lookup_insert_eq. eauto.
    + destruct (decide (ct_id x = id)) as [->|Hx]; [rewrite lookup_insert_eq; eauto|].
      rewrite lookup_insert_ne by done. apply (tk_queue s Hok). by eapply list_elem_of_lookup_2.
  - intros id' Ha. rewrite Hrec. destruct (decide (id' = id)) as [->|Hne].
    + rewrite lookup_insert_eq. eauto.
    + rewrite lookup_insert_ne by done. apply (tk_admissions s Hok). by rewrite <- Has.
  - intros id' u. rewrite Hrec. destruct (decide (id' = id)) as [->|Hne].
    + rewrite lookup_insert_eq. intros [= <-]. exists fr', r'. split_and!; [done| |done|done].
      rewrite Hq. apply list_elem_of_insert. by eapply lookup_lt_Some.
    + rewrite lookup_insert_ne by done. intros Hu.
      destruct (tk_slots s Hok _ _ Hu) as (fr & x & Hfr & Hx & Hxid & Hs).
      exists fr, x. split_and!; [by rewrite Hfs| |done|by rewrite Has].
      rewrite Hq. apply list_elem_of_lookup in Hx as [j Hj]. apply list_elem_of_lookup.
      exists j. rewrite list_lookup_insert_ne; [done|]. intros ->. congruence.
Qed.

Section steps.
  Context `{UuidCrate}.

Inductive task_step (s : TaskRepo) : TaskRepo → Prop :=
  | ts_insert t s' :
      tr_status t = Pending → fields_consistent t = true →
      insert_verification_task s t = Ok s' → task_step s s'
  | ts_insert_invoice t intent a s' :
      fields_consistent t = true →
      insert_invoice_pending_task s t intent = Ok (a, s') → task_step s s'
  | ts_claim_invoice worker now ttl token :
      task_step s (claim_next_invoice_admission s worker now ttl token).2
  | ts_invoice_ready id worker token now created deadline o s' :
      mark_invoice_admission_ready s id worker token now created deadline = Ok (o, s') →
      task_step s s'
  | ts_invoice_retry id worker token now after reason :
      task_step s (schedule_invoice_admission_retry s id worker token now after reason).2
  | ts_invoice_failed id worker token now message o s' :
      mark_invoice_admission_failed s id worker token now message = Ok (o, s') → task_step s s'
  | ts_claim worker now expires token o s' :
      claim_next_verification_task s worker now expires token = Ok (o, s') → task_step s s'
  | ts_retry id worker token now next o s' :
      schedule_verification_task_retry s id worker token now next = Ok (o, s') → task_step s s'
  (** the worker advances the record it holds the lease of *)
  | ts_persist r t worker token now o s' :
      r ∈ claimer_records s → ct_claim_token r = Some token → lifecycle_step (ct_task r) t →
      persist_claimed_verification_task_transition s t worker token now = Ok (o, s') →
      task_step s s'
  | ts_delete id : task_step s (delete_verification_task s id)
  (** a deletion expires a task it owns *)
  | ts_expire t t' now :
      owned_without_paykit s (tr_task_id t') → task_records s !! tr_task_id t' = Some t →
      expire t ContentLockDeleted now = Ok t' → task_step s (apply_update s t')
  | ts_environment f' : fence_moves s f' → task_step s (repo_with_fence s f').
End steps.

(** * Evolution of a record *)

(** The one edge outside the lifecycle: an admission that fails before the task
    could start. *)
Definition admission_failure (t t' : VerificationTaskRecord) : Prop :=
  ∃ now message, tr_status t = Pending ∧ fields_consistent t = true ∧ trim message ≠ ""
    ∧ t' = with_lifecycle t Failed (Some now) (Some now) (Some (trim message)) None None.

Definition record_step (t t' : VerificationTaskRecord) : Prop :=
  t' = t ∨ lifecycle_step t t' ∨ admission_failure t t'.

Definition records_evolve (s s' : TaskRepo) : Prop :=
  ∀ id t, task_records s !! id = Some t →
    task_records s' !! id = None ∨ ∃ t', task_records s' !! id = Some t' ∧ record_step t t'.

Lemma record_step_facts t t' :
  record_step t t' → fields_consistent t = true →
  fields_consistent t' = true ∧ task_identity t' = task_identity t
  ∧ (is_terminal (tr_status t) = true → t' = t).
Proof.
  intros [->|[Hs|(now & m & Hst & _ & Hne & ->)]] Hc.
  - done.
  - split_and!; [apply (lifecycle_step_facts _ _ Hs)..|].
    intros Ht. by destruct (no_step_from_terminal t t').
  - split_and!; [|done|by rewrite Hst].
    unfold fields_consistent. cbn. by rewrite trim_idemp, (proj2 (eqb_false _ _) Hne).
Qed.

Lemma records_evolve_refl s : records_evolve s s.
Proof. intros id t Ht. right. exists t. split; [done|by left]. Qed.

Lemma slot_step s id t t' fr' i r r' s' :
  tasks_ok s → slot_update s id t' fr' i r' s' →
  task_records s !! id = Some t → claimer_records s !! i = Some r → ct_id r = id →
  record_step t t' → slot_ok id t' fr' (invoice_admissions s' !! id) r' →
  tasks_ok s' ∧ records_evolve s s'.
Proof.
  intros Hok Hu Ht Hi Hid Hstep Hslot.
  assert (fields_consistent t = true) as Hc.
  { destruct (tk_slots s Hok _ _ Ht) as (? & ? & _ & _ & _ & []). done. }
  split.
  - by eapply tasks_ok_slot; eauto; apply (record_step_facts _ _ Hstep Hc).
  - intros id' u Hu'. right. rewrite (su_records _ _ _ _ _ _ _ Hu).
    destruct (decide (id' = id)) as [->|Hne].
    + rewrite lookup_insert_eq. exists t'. split; [done|]. congruence.
    + rewrite lookup_insert_ne by done. exists u. split; [done|by left].
Qed.

(** A mirrored record of an admitted task moves with the task. *)
Lemma phase_ok_ready t t' fr fr' admission r r' :
  phase_ok t fr admission r → ct_invoice_admission_phase r = PhaseReady →
  task_identity t' = task_identity t →
  fr_paykit_admission_required fr' = fr_paykit_admission_required fr →
  fr_invoice_admission_ready fr' = fr_invoice_admission_ready fr →
  ct_invoice_admission_phase r' = PhaseReady → ct_task r' = t' → lease_ok r' →
  phase_ok t' fr' admission r'.
Proof.
  unfold phase_ok. intros Hp Hr Hid Hpay Hready Hr' Ht' Hl. destruct admission as [a|]; [|by eauto].
  destruct Hp as (Ha & Hai & Hp1 & Hp2 & Hp). rewrite Hpay, Hready.
  split_and!; [done|congruence|done|done|].
  destruct (ia_phase (ma_record a)); [|done|]; destruct Hp as [Hp _]; congruence.
Qed.

(** The queue record of a task no deletion owns mirrors an admitted task. *)
Lemma queue_mirrors t fr admission r :
  phase_ok t fr admission r → ct_invoice_admission_phase r = PhaseReady →
  fr_deletion_job_id fr = None → ct_task r = t ∧ lease_ok r.
Proof.
  unfold phase_ok. intros Hp Hr Hj. destruct admission as [a|].
  - destruct Hp as (_ & _ & _ & _ & Hp). destruct (ia_phase (ma_record a)).
    + destruct Hp as [Hp _]. congruence.
    + by destruct Hp as (_ & ? & ?).
    + destruct Hp as [Hp _]. congruence.
  - destruct Hp as (_ & [?|[[? ?] _]] & ?); [done|congruence].
Qed.

Lemma undeleted_owner s r fr :
  task_undeleted (task_fence s) r = true → fence_records (task_fence s) !! ct_id r = Some fr →
  fr_deletion_job_id fr = None.
Proof. unfold task_undeleted, ct_id. intros Hu Hfr. rewrite Hfr in Hu. cbn in Hu. by props. Qed.

(** [update_verification_task] on a record with the stored identity stores it. *)
Lemma update_stores s t t' :
  task_records s !! tr_task_id t' = Some t → task_identity t' = task_identity t →
  ∃ f, update_verification_task s t'
       = Ok (MkTaskRepo f (<[tr_task_id t' := t']> (task_records s)) (invoice_admissions s)
               (claimer_records s))
       ∧ fence_records f = fence_records (task_fence s).
Proof.
  intros Ht Hid. unfold update_verification_task. rewrite Ht. cbn [ok_or mbind result_bind].
  rewrite (proj2 (proj2 (proj2 (with_lifecycle_of_spec t t'))) Hid). eexists. split; [done|]. done.
Qed.

(** An active record is an admitted one. *)
Lemma active_phase t fr admission r :
  phase_ok t fr admission r → tr_status (ct_task r) ≠ Pending →
  ct_invoice_admission_phase r = PhaseReady.
Proof.
  unfold phase_ok. destruct admission as [a|]; [|naive_solver].
  intros (_ & _ & _ & _ & Hp) Hne. destruct (ia_phase (ma_record a)); naive_solver.
Qed.

(** * The claimer's operations *)

(** The record a worker holds, or is about to hold, in the four places. *)
Lemma queued_slot s i r :
  tasks_ok s → claimer_records s !! i = Some r → task_undeleted (task_fence s) r = true →
  ct_invoice_admission_phase r = PhaseReady ∨ tr_status (ct_task r) ≠ Pending →
  ct_invoice_admission_phase r = PhaseReady
  ∧ task_records s !! ct_id r = Some (ct_task r) ∧ lease_ok r
  ∧ ∃ fr, fence_records (task_fence s) !! ct_id r = Some fr ∧ fr_deletion_job_id fr = None
          ∧ slot_ok (ct_id r) (ct_task r) fr (invoice_admissions s !! ct_id r) r.
Proof.
  intros Hok Hi%list_elem_of_lookup_2 Hun Hph.
  destruct (record_slot s r Hok Hi) as (t & fr & Ht & Hfr & Hslot).
  pose proof (undeleted_owner _ _ _ Hun Hfr) as Hj.
  assert (ct_invoice_admission_phase r = PhaseReady) as Hready.
  { destruct Hph as [?|Hne]; [done|]. by eapply active_phase; [apply Hslot|]. }
  destruct (queue_mirrors _ _ _ _ (so_phase _ _ _ _ _ Hslot) Hready Hj) as [<- Hl]. eauto 10.
Qed.

(** Advance the record of an unowned task in all four places. *)
Lemma advance_record s i r t' r' token s' :
  tasks_ok s → claimer_records s !! i = Some r → task_undeleted (task_fence s) r = true →
  ct_invoice_admission_phase r = PhaseReady → task_records s !! ct_id r = Some (ct_task r) →
  t' = ct_task r ∨ lifecycle_step (ct_task r) t' →
  ct_task r' = t' → ct_invoice_admission_phase r' = PhaseReady → lease_ok r' →
  task_records s' = <[ct_id r := t']> (task_records s) →
  invoice_admissions s' = invoice_admissions s → claimer_records s' = <[i := r']> (claimer_records s) →
  fence_records (task_fence s') = alter token (ct_id r) (fence_records (task_fence s)) →
  (∀ fr, fence_records (task_fence s) !! ct_id r = Some fr →
     token fr = fr_with_token fr (fr_publication_claim_token (token fr))
     ∧ (is_Some (fr_publication_claim_token (token fr)) ↔ tr_status t' = PublishingEntitlement)) →
  tasks_ok s' ∧ records_evolve s s'.
Proof.
  intros Hok Hi Hun Hready Hrec Hstep Ht' Hready' Hl' Hrec' Hadm Hq Hf Htoken.
  destruct (queued_slot s i r Hok Hi Hun (or_introl Hready)) as (_ & _ & _ & fr & Hfr & Hj & Hslot).
  destruct (Htoken fr Hfr) as [Hfr' Hpub].
  assert (record_step (ct_task r) t') as Hrs by (destruct Hstep; [by left|by right; left]).
  destruct Hslot as [Hid Hc Hsame Hfence Hphase _ Hex Hstat].
  destruct (record_step_facts _ _ Hrs Hc) as (Hc' & Hid' & Hterm).
  eapply (slot_step s (ct_id r) (ct_task r) t' (token fr) i r r'); [done| |done|done|done|done|].
  - split; [done| | |by rewrite Hadm|done].
    + by rewrite Hf, lookup_alter_eq, Hfr.
    + intros id' Hne. by rewrite Hf, lookup_alter_ne.
  - rewrite Hadm. unfold task_identity in Hid'. split.
    + unfold ct_id in *. congruence.
    + done.
    + by rewrite Ht'.
    + rewrite Hfr'. cbn. unfold tr_lock_id, bundle_of in *. congruence.
    + eapply (phase_ok_ready (ct_task r)); eauto; rewrite Hfr'; done.
    + done.
    + rewrite Hfr'. cbn. by rewrite Hj; intros [? ?].
    + rewrite Hfr'. cbn. destruct Hstat as [?|[E Hst]]; [by left|]. right.
      rewrite Hterm; [done|]. by destruct Hst as [-> | ->].
Qed.

Lemma fr_with_token_same fr : fr_with_token fr (fr_publication_claim_token fr) = fr.
Proof. by destruct fr. Qed.

Lemma alter_id_records (f : Fence) id : alter (λ fr, fr) id (fence_records f) = fence_records f.
Proof. by rewrite alter_id. Qed.

Lemma claim_ok s worker now expires token o s' :
  tasks_ok s → claim_next_verification_task s worker now expires token = Ok (o, s') →
  tasks_ok s' ∧ records_evolve s s'.
Proof.
  intros Hok Hc. unfold claim_next_verification_task in Hc.
  destruct (find_first _ _) as [[i r]|] eqn:Hf;
    [|injection Hc as _ <-; split; [done|apply records_evolve_refl]].
  apply find_first_Some in Hf as [Hi [Hcl Hun]%andb_true_iff].
  unfold is_claimable_at in Hcl.
  destruct (ct_invoice_admission_phase r == PhaseReady) eqn:Hready; [|done]. props. cbn in Hcl.
  destruct (queued_slot s i r Hok Hi Hun (or_introl Hready))
    as (_ & Hrec & Hl & fr & Hfr & Hj & Hslot).
  apply bind_Ok in Hc as (task & Htask & Hc).
  assert ((task = ct_task r ∧ (tr_status task = InProgress ∨ tr_status task = PublishingEntitlement))
          ∨ (lifecycle_step (ct_task r) task ∧ tr_status (ct_task r) = Pending
             ∧ tr_status task = InProgress)) as Hcases.
  { destruct (tr_status (ct_task r) == Pending) eqn:Hst; props.
    - right. pose proof Htask as Ht%transition_to_spec. rewrite Hst in Ht.
      destruct Ht as (_ & _ & ->). split_and!; [by eapply step_transition|done|done].
    - left. injection Htask as <-. split; [done|]. destruct (tr_status (ct_task r)); naive_solver. }
  assert (task_identity task = task_identity (ct_task r)) as Hident.
  { destruct Hcases as [[-> _]|[Hs _]]; [done|]. apply (lifecycle_step_facts _ _ Hs). }
  assert (tr_task_id task = ct_id r) as Htid by (unfold task_identity in Hident; unfold ct_id; congruence).
  destruct (update_stores s (ct_task r) task) as (f & Hup & Hff); [by rewrite Htid|done|].
  rewrite Hup in Hc. cbn [mbind result_bind] in Hc. injection Hc as _ <-.
  eapply (advance_record s i r task
            (MkClaimable task (ct_invoice_admission_phase r) (Some worker) (Some token)
               (Some expires) None) (λ fr, fr)); try done; cbn.
  - destruct Hcases as [[-> _]|[? _]]; [by left|by right].
  - unfold lease_ok. cbn. destruct Hcases as [[_ [-> | ->]]|(_ & _ & ->)]; by eexists.
  - by rewrite Htid.
  - by rewrite alter_id_records.
  - intros fr0 Hfr0. rewrite fr_with_token_same. split; [done|].
    rewrite Hfr in Hfr0. injection Hfr0 as <-. rewrite (so_publication _ _ _ _ _ Hslot).
    destruct Hcases as [[-> _]|(_ & -> & ->)]; [done|by split].
Qed.

(** A record under a live lease. *)
Lemma live_task_facts f id status worker token now r :
  live_task f id status worker token now r = true →
  ct_id r = id ∧ tr_status (ct_task r) = status ∧ task_undeleted f r = true.
Proof. unfold live_task, ct_id. intros Hl. props. done. Qed.

Lemma retry_ok s id worker token now next o s' :
  tasks_ok s → schedule_verification_task_retry s id worker token now next = Ok (o, s') →
  tasks_ok s' ∧ records_evolve s s'.
Proof.
  intros Hok Hc. unfold schedule_verification_task_retry in Hc.
  destruct (find_first _ _) as [[i r]|] eqn:Hf;
    [|injection Hc as _ <-; split; [done|apply records_evolve_refl]].
  apply find_first_Some in Hf as [Hi (_ & Hst & Hun)%live_task_facts].
  destruct (queued_slot s i r Hok Hi Hun) as (Hready & Hrec & Hl & fr & Hfr & Hj & Hslot);
    [right; congruence|].
  apply bind_Ok in Hc as (pending & Htask & Hc).
  assert (lifecycle_step (ct_task r) pending) as Hstep by (by eapply step_transition).
  apply transition_to_spec in Htask. rewrite Hst in Htask. destruct Htask as (_ & _ & ->).
  destruct (update_stores s (ct_task r) (with_lifecycle (ct_task r) Pending None None None None None))
    as (f & Hup & Hff); [done|done|].
  rewrite Hup in Hc. cbn [mbind result_bind] in Hc. injection Hc as _ <-.
  eapply (advance_record s i r (with_lifecycle (ct_task r) Pending None None None None None)
            (MkClaimable (with_lifecycle (ct_task r) Pending None None None None None)
               (ct_invoice_admission_phase r) None None None (Some next)) (λ fr, fr));
    try done; cbn.
  - by right.
  - by rewrite alter_id_records.
  - intros fr0 Hfr0. rewrite fr_with_token_same. split; [done|].
    rewrite Hfr in Hfr0. injection Hfr0 as <-. by rewrite (so_publication _ _ _ _ _ Hslot), Hst.
Qed.

Lemma persist_ok s r t worker token now o s' :
  tasks_ok s → r ∈ claimer_records s → lifecycle_step (ct_task r) t →
  persist_claimed_verification_task_transition s t worker token now = Ok (o, s') →
  tasks_ok s' ∧ records_evolve s s'.
Proof.
  intros Hok Hr Hstep Hc. unfold persist_claimed_verification_task_transition in Hc.
  apply bind_Ok in Hc as ([] & Hst%reject_if_Ok & Hc).
  destruct (find_first _ _) as [[i x]|] eqn:Hf;
    [|injection Hc as _ <-; split; [done|apply records_evolve_refl]].
  apply find_first_Some in Hf as [Hi (Hxid & Hxst & Hun)%live_task_facts].
  pose proof (lifecycle_step_facts _ _ Hstep) as [Hc0 Hc1 Hident Hedge _].
  assert (tr_task_id t = ct_id r) as Htid by (unfold task_identity in Hident; unfold ct_id; congruence).
  assert (x = r) as ->.
  { eapply same_record; [done|by eapply list_elem_of_lookup_2|done|congruence]. }
  destruct (queued_slot s i r Hok Hi Hun) as (Hready & Hrec & Hl & fr & Hfr & Hj & Hslot).
  { right. rewrite Hxst. by destruct (tr_status t). }
  rewrite (proj2 (proj2 (proj2 (with_lifecycle_of_spec (ct_task r) t))) Hident) in Hc.
  destruct (update_stores s (ct_task r) t) as (f & Hup & Hff); [by rewrite Htid|done|].
  rewrite Hup in Hc. cbn [mbind result_bind] in Hc. injection Hc as _ <-.
  eapply (advance_record s i r t _
            (λ fr, fr_with_token fr (if tr_status t == PublishingEntitlement
                                     then Some token else None)));
    [done|done|done|done|done|by right| | | | | | | |]; cycle 3.
  - cbn. by rewrite Htid.
  - done.
  - cbn. done.
  - cbn. by rewrite Hff, Htid.
  - intros fr0 _. cbn. split; [done|]. destruct (tr_status t == PublishingEntitlement) eqn:E; props.
    + split; [done|by eexists].
    + split; [by intros [? ?]|done].
  - by destruct (tr_status t == PublishingEntitlement).
  - by destruct (tr_status t == PublishingEntitlement).
  - unfold lease_ok in *. rewrite Hxst in Hl.
    destruct (tr_status t == PublishingEntitlement) eqn:E; props; cbn.
    + rewrite E in *. done.
    + by destruct (tr_status t).
Qed.

(** * Admissions *)

Lemma admission_slot s id a :
  tasks_ok s → invoice_admissions s !! id = Some a →
  ∃ t fr i r, task_records s !! id = Some t ∧ fence_records (task_fence s) !! id = Some fr
    ∧ claimer_records s !! i = Some r ∧ ct_id r = id ∧ slot_ok id t fr (Some a) r.
Proof.
  intros Hok Ha. destruct (tk_admissions s Hok id) as [t Ht]; [by rewrite Ha|].
  destruct (tk_slots s Hok _ _ Ht) as (fr & r & Hfr & [i Hi]%list_elem_of_lookup & Hid & Hslot).
  rewrite Ha in Hslot. eauto 10.
Qed.

(** Replace a pending admission by another pending one. *)
Lemma readmit s id a a' :
  tasks_ok s → invoice_admissions s !! id = Some a →
  ia_phase (ma_record a) = PhaseInvoicePending → ia_phase (ma_record a') = PhaseInvoicePending →
  ia_task (ma_record a') = ia_task (ma_record a) → is_Some (claimable_at a') →
  tasks_ok (repo_with_admissions s (<[id := a']> (invoice_admissions s)))
  ∧ records_evolve s (repo_with_admissions s (<[id := a']> (invoice_admissions s))).
Proof.
  intros Hok Ha Hph Hph' Htask Hdue.
  destruct (admission_slot s id a Hok Ha) as (t & fr & i & r & Ht & Hfr & Hi & Hid & Hslot).
  eapply (slot_step s id t t fr i r r); [done| |done|done|done|by left|].
  - split; cbn; [by rewrite insert_id|done|done| |by rewrite list_insert_id].
    intros id' Hne. by rewrite lookup_insert_ne.
  - cbn. rewrite lookup_insert_eq. destruct Hslot as [? ? ? ? Hp ? ? ?]. split; try done.
    unfold phase_ok, admission_ok in *. rewrite Hph in Hp. rewrite Hph', Htask.
    destruct Hp as (_ & ? & ? & ? & ?). done.
Qed.

Lemma filtered_admission_Some s id p a :
  filtered_admission s id p = Some a → invoice_admissions s !! id = Some a ∧ p a = true.
Proof.
  unfold filtered_admission. intros (a' & Ha & Hp)%bind_Some. destruct (p a') eqn:E; [|done].
  injection Hp as ->. done.
Qed.

Lemma live_admission_phase worker token now a :
  live_admission worker token now a = true → ia_phase (ma_record a) = PhaseInvoicePending.
Proof. unfold live_admission. intros Hl. by props. Qed.

Lemma invoice_retry_ok s id worker token now after reason :
  tasks_ok s →
  let s' := (schedule_invoice_admission_retry s id worker token now after reason).2 in
  tasks_ok s' ∧ records_evolve s s'.
Proof.
  intros Hok. cbn zeta. unfold schedule_invoice_admission_retry.
  destruct (filtered_admission _ _ _) as [a|] eqn:Hf; [|split; [done|apply records_evolve_refl]].
  apply filtered_admission_Some in Hf as [Ha [_ Hl]%andb_true_iff].
  apply live_admission_phase in Hl. by apply (readmit s id a).
Qed.

Lemma invoice_ready_ok s id worker token now created deadline o s' :
  tasks_ok s → mark_invoice_admission_ready s id worker token now created deadline = Ok (o, s') →
  tasks_ok s' ∧ records_evolve s s'.
Proof.
  intros Hok Hc. apply bind_Ok in Hc as ([o1 s1] & Hc & [= -> <-]).
  unfold mark_invoice_admission_ready_writes in Hc.
  apply bind_Ok in Hc as ([] & Hlt%reject_if_Ok & Hc). props.
  destruct (filtered_admission _ _ _) as [a|] eqn:Hf;
    [|injection Hc as <- <-; split; [done|apply records_evolve_refl]].
  apply filtered_admission_Some in Hf as [Ha Hl%live_admission_phase]. injection Hc as <- <-.
  destruct (admission_slot s id a Hok Ha) as (t & fr & i & r & Ht & Hfr & Hi & Hid & Hslot).
  unfold admission_ready_in_queue, claimer_mark_invoice_admission_ready. cbn [claimer_records repo_with_fence
    admission_ready_in_fence repo_with_admissions].
  rewrite (find_first_unique _ _ i r Hi); [| by apply eqb_true |].
  2: { intros j y Hj Hy. props. eapply (NoDup_lookup _ _ _ id (tk_ids s Hok));
         rewrite list_lookup_fmap; [by rewrite Hj; cbn; f_equal|by rewrite Hi; cbn; f_equal]. }
  eapply (slot_step s id t t (fr_admission_ready fr) i r); [done| |done|done|done|by left|].
  - split; cbn; [by rewrite insert_id|by rewrite lookup_alter_eq, Hfr| | |done].
    + intros id' Hne. by rewrite lookup_alter_ne.
    + intros id' Hne. by rewrite lookup_insert_ne.
  - cbn. rewrite lookup_insert_eq. destruct Hslot as [? ? ? ? Hp ? ? ?]. split; try done.
    unfold phase_ok, admission_ok in *. rewrite Hl in Hp. cbn.
    destruct Hp as (_ & Hai & Hpay & _ & _ & Hr & _ & Hst & Hlease).
    split_and!; [by exists created, deadline|done|done|done|done|done|done].
Qed.

Lemma invoice_failed_ok s id worker token now message o s' :
  tasks_ok s → mark_invoice_admission_failed s id worker token now message = Ok (o, s') →
  tasks_ok s' ∧ records_evolve s s'.
Proof.
  intros Hok Hc. unfold mark_invoice_admission_failed in Hc.
  apply bind_Ok in Hc as ([] & Hne%reject_if_Ok & Hc). props.
  destruct (task_records s !! id) as [t|] eqn:Ht;
    [|injection Hc as _ <-; split; [done|apply records_evolve_refl]].
  destruct (filtered_admission _ _ _) as [a|] eqn:Hf;
    [|injection Hc as _ <-; split; [done|apply records_evolve_refl]].
  apply filtered_admission_Some in Hf as [Ha Hl%live_admission_phase]. injection Hc as _ <-.
  destruct (admission_slot s id a Hok Ha) as (t0 & fr & i & r & Ht0 & Hfr & Hi & Hid & Hslot).
  rewrite Ht in Ht0. injection Ht0 as <-.
  destruct Hslot as [Htid Hcons Hsame Hfence Hp Hpub Hex Hstat].
  unfold phase_ok in Hp. rewrite Hl in Hp.
  destruct Hp as (_ & Hai & Hpay & Hrd & Hr & Hrt & Hat & Hst & Hlease).
  pose proof (consistent_fields t Hcons) as Hfields. rewrite Hst in Hfields.
  set (t' := with_lifecycle t Failed (Some now) (Some now) (Some (trim message)) None None).
  assert (admission_failure t t') as Hfail by (by exists now, message).
  destruct (record_step_facts t t' (or_intror (or_intror Hfail)) Hcons) as (Hc' & _ & _).
  eapply (slot_step s id t t' (fr_with_status fr Failed) i r r);
    [done| |done|done|done|by right; right|].
  - split; cbn.
    + f_equal. rewrite Hat. unfold t', with_lifecycle_of. cbn. by rewrite Hfields.
    + by rewrite lookup_alter_eq, Hfr.
    + intros id' Hne'. by rewrite lookup_alter_ne.
    + intros id' Hne'. by rewrite lookup_insert_ne.
    + by rewrite list_insert_id.
  - cbn. rewrite lookup_insert_eq. split; try done.
    + unfold phase_ok, admission_ok. cbn. rewrite Hat. by rewrite Hrt.
    + cbn. rewrite Hpub, Hst. by split.
    + right. split; [done|by left].
Qed.

(** * Insertion and deletion *)

(** A new task in its four places. *)
Lemma add_task_ok s t paykit ready admissions phase :
  tasks_ok s → task_records s !! tr_task_id t = None →
  (∀ id u, task_records s !! id = Some u → tr_handle u ≠ tr_handle t) →
  tr_status t = Pending → fields_consistent t = true →
  (∀ id, id ≠ tr_task_id t → admissions !! id = invoice_admissions s !! id) →
  phase_ok t (v1_fence_record t paykit ready) (admissions !! tr_task_id t)
    (MkClaimable t phase None None None None) →
  let s' := tell_claimer (add_task s t paykit ready admissions) t phase in
  tasks_ok s' ∧ records_evolve s s'.
Proof.
  intros Hok Hnone Hhandle Hst Hc Hadm Hphase.
  assert (∀ r, r ∈ claimer_records s → ct_id r ≠ tr_task_id t) as Hfresh.
  { intros r Hr Heq. destruct (tk_queue s Hok r Hr) as [u Hu]. congruence. }
  assert (register_task (claimer_records s) t phase
          = claimer_records s ++ [MkClaimable t phase None None None None]) as Hreg.
  { unfold register_task. destruct (existsb _ _) eqn:E; [|done].
    apply existsb_exists in E as (r & Hr%list_elem_of_In & Heq). props. by destruct (Hfresh r Hr). }
  cbv zeta. unfold tell_claimer, add_task. cbn [claimer_records]. rewrite Hreg. split; [split; cbn|].
  - rewrite fmap_app. apply NoDup_app. split_and!; [apply (tk_ids s Hok)| |apply NoDup_singleton].
    intros id (r & -> & Hr)%list_elem_of_fmap Heq%list_elem_of_singleton. by apply (Hfresh r Hr).
  - intros id1 t1 id2 t2. destruct (decide (id1 = tr_task_id t)) as [->|N1],
      (decide (id2 = tr_task_id t)) as [->|N2];
      rewrite ?lookup_insert_eq, ?lookup_insert_ne by done; [done| | |].
    + intros [= ->] Hu Heq. by destruct (Hhandle id2 t2 Hu).
    + intros Hu [= ->] Heq. by destruct (Hhandle id1 t1 Hu).
    + apply (tk_handles s Hok).
  - intros r [Hr|Hr%list_elem_of_singleton]%elem_of_app.
    + rewrite lookup_insert_ne; [by apply (tk_queue s Hok)|]. intros E. by destruct (Hfresh r Hr).
    + subst r. cbn. rewrite lookup_insert_eq. eauto.
  - intros id Ha. destruct (decide (id = tr_task_id t)) as [->|Hne].
    + rewrite lookup_insert_eq. eauto.
    + rewrite lookup_insert_ne by done. apply (tk_admissions s Hok). by rewrite <- Hadm.
  - intros id u. destruct (decide (id = tr_task_id t)) as [->|Hne].
    + rewrite !lookup_insert_eq. intros [= <-].
      exists (v1_fence_record t paykit ready), (MkClaimable t phase None None None None).
      split_and!; [done|apply elem_of_app; right; by apply list_elem_of_singleton|done|].
      split; try done; cbn; [|by left]. rewrite Hst. split; [by intros [? ?]|done].
    + rewrite !lookup_insert_ne by done. intros Hu.
      destruct (tk_slots s Hok _ _ Hu) as (fr & r & Hfr & Hr & Hid & Hslot).
      exists fr, r. rewrite Hadm by done. split_and!; [done|apply elem_of_app; by left|done|done].
  - intros id u Hu. right. cbn. rewrite lookup_insert_ne by congruence.
    exists u. split; [done|by left].
Qed.

Lemma find_by_handle_None s handle :
  find_by_handle s handle = None →
  ∀ id u, task_records s !! id = Some u → tr_handle u ≠ handle.
Proof.
  unfold find_by_handle. rewrite find_entry_None. intros Hn id u Hu. specialize (Hn id u Hu). by props.
Qed.

Lemma insert_ok s t s' :
  tasks_ok s → tr_status t = Pending → fields_consistent t = true →
  insert_verification_task s t = Ok s' → tasks_ok s' ∧ records_evolve s s'.
Proof.
  intros Hok Hst Hc Hins. apply bind_Ok in Hins as (s1 & Hins & [= <-]).
  unfold insert_verification_task_writes in Hins.
  repeat (apply bind_Ok in Hins as ([] & ?%reject_if_Ok & Hins)).
  destruct (find_by_handle s (tr_handle t)) as [[? ?]|] eqn:Hf; [by split_match in Hins|].
  apply bind_Ok in Hins as ([] & Hnew%reject_if_Ok & Hins). injection Hins as <-. props.
  apply add_task_ok; try done; [by apply find_by_handle_None|].
  destruct (invoice_admissions s !! tr_task_id t) eqn:Ha.
  2: { unfold phase_ok, lease_ok. cbn. rewrite Hst. split_and!; [done|by left|done]. }
  destruct (tk_admissions s Hok (tr_task_id t)); [by rewrite Ha|congruence].
Qed.

Lemma insert_invoice_ok s t intent a s' :
  tasks_ok s → fields_consistent t = true →
  insert_invoice_pending_task s t intent = Ok (a, s') → tasks_ok s' ∧ records_evolve s s'.
Proof.
  intros Hok Hc Hins. apply bind_Ok in Hins as ([[a0 new] s1] & Hins & [= -> <-]).
  unfold insert_invoice_pending_task_writes, validate_invoice_admission_inputs in Hins.
  repeat (apply bind_Ok in Hins as ([] & ?%reject_if_Ok & Hins)). props.
  destruct (find_by_handle s (tr_handle t)) as [[? ?]|] eqn:Hf.
  - destruct (ma_record <$> _); [|done]. split_match in Hins; [|done].
    injection Hins as _ <- <-. split; [done|apply records_evolve_refl].
  - apply bind_Ok in Hins as ([] & Hnew%reject_if_Ok & Hins). injection Hins as _ <- <-. props.
    apply add_task_ok; try done; [by apply find_by_handle_None| |].
    + intros id Hne. by rewrite lookup_insert_ne.
    + rewrite lookup_insert_eq. unfold phase_ok, lease_ok, admission_ok. cbn.
      assert (tr_status t = Pending) as -> by done. by split_and!.
Qed.

Lemma delete_ok s id :
  tasks_ok s → tasks_ok (delete_verification_task s id)
               ∧ records_evolve s (delete_verification_task s id).
Proof.
  intros Hok. unfold delete_verification_task.
  destruct (task_records s !! id) as [t|] eqn:Ht; [|split; [done|apply records_evolve_refl]].
  assert (∀ r, r ∈ remove_task (claimer_records s) id ↔ r ∈ claimer_records s ∧ ct_id r ≠ id) as Hq.
  { intros r. unfold remove_task. rewrite list_elem_of_filter. unfold ct_id. naive_solver. }
  split; [split; cbn|].
  - eapply sublist_NoDup; [apply (tk_ids s Hok)|]. apply fmap_sublist, sublist_filter.
  - intros id1 t1 id2 t2 [_ H1]%lookup_delete_Some [_ H2]%lookup_delete_Some.
    by apply (tk_handles s Hok).
  - intros r [Hr Hne]%Hq. rewrite lookup_delete_ne by done. by apply (tk_queue s Hok).
  - intros id' [x [Hne Hx]%lookup_delete_Some]. rewrite lookup_delete_ne by done.
    by apply (tk_admissions s Hok).
  - intros id' u [Hne Hu]%lookup_delete_Some.
    destruct (tk_slots s Hok _ _ Hu) as (fr & r & Hfr & Hr & Hid & Hslot).
    exists fr, r. rewrite !lookup_delete_ne by done. split_and!; [done| |done|done].
    apply Hq. split; [done|congruence].
  - intros id' u Hu. cbn. destruct (decide (id = id')) as [->|Hne].
    + left. apply lookup_delete_eq.
    + right. rewrite lookup_delete_ne by done. exists u. split; [done|by left].
Qed.

(** * Deletions and the other lanes *)

Lemma expire_ok s t t' now :
  tasks_ok s → owned_without_paykit s (tr_task_id t') → task_records s !! tr_task_id t' = Some t →
  expire t ContentLockDeleted now = Ok t' →
  tasks_ok (apply_update s t') ∧ records_evolve s (apply_update s t').
Proof.
  intros Hok (fr & Hfr & Hj & Hpay) Ht He.
  assert (lifecycle_step t t') as Hstep by (by eapply step_expire).
  assert (tr_status t' = Expired) as Hst'.
  { unfold expire in He. apply bind_Ok in He as ([] & _ & He). apply bind_Ok in He as ([] & _ & He).
    apply bind_Ok in He as ([] & _ & He). by injection He as <-. }
  destruct (lifecycle_step_facts _ _ Hstep) as [_ Hc' Hident Hedge _].
  destruct (tk_slots s Hok _ _ Ht) as (fr0 & r & Hfr0 & Hr & Hid & Hslot).
  rewrite Hfr in Hfr0. injection Hfr0 as <-.
  destruct Hslot as [Htid Hc Hsame Hfence Hp Hpub Hex Hstat].
  apply list_elem_of_lookup in Hr as [i Hi]. unfold apply_update. rewrite Ht.
  rewrite (proj2 (proj2 (proj2 (with_lifecycle_of_spec t t'))) Hident).
  eapply (slot_step s _ t t' (fr_with_status fr (tr_status t')) i r r);
    [done| |done|done|done|by right; left|].
  - split; cbn; [done|by rewrite lookup_alter_eq, Hfr| |done|by rewrite list_insert_id].
    intros id' Hne. by rewrite lookup_alter_ne.
  - cbn. destruct (invoice_admissions s !! tr_task_id t') as [a|] eqn:Ha.
    { destruct Hp as (_ & _ & Hpay' & _). congruence. }
    split; try done.
    + congruence.
    + cbn. rewrite Hfence. unfold task_identity, tr_lock_id, bundle_of in *. congruence.
    + destruct Hp as (? & Hrt & ?). split_and!; [done| |done]. right. split; [done|].
      destruct Hrt as [->|[_ ?]]; [|done]. intros Hst. by rewrite Hst, Hst' in Hedge.
    + cbn. rewrite Hex by done. rewrite Hst'. split; [by intros [? ?]|done].
    + right. rewrite Hst'. split; [done|by right].
Qed.

Lemma environment_ok s f' :
  tasks_ok s → fence_moves s f' →
  tasks_ok (repo_with_fence s f') ∧ records_evolve s (repo_with_fence s f').
Proof.
  intros Hok Hf. split; [|exact (records_evolve_refl s)].
  split; cbn; [apply (tk_ids s Hok)|apply (tk_handles s Hok)|apply (tk_queue s Hok)
              |apply (tk_admissions s Hok)|].
  intros id t Ht. destruct (tk_slots s Hok _ _ Ht) as (fr & r & Hfr & Hr & Hid & Hslot).
  destruct (Hf id fr) as [Hsame|(job & Htok & Hnew)]; [by rewrite Ht|done| |].
  { exists fr, r. done. }
  eexists _, r. split_and!; [done|done|done|].
  destruct Hslot as [Htid Hc Hsame Hfence Hp Hpub Hex Hstat]. split; try done.
  - unfold phase_ok in *. destruct (invoice_admissions s !! id) as [a|]; [done|].
    destruct Hp as (? & Hrt & ?). split_and!; [done| |done]. right. split; [by eexists|].
    destruct Hrt as [->|[_ ?]]; [|done]. intros [? ?]%Hpub. congruence.
  - cbn. rewrite Htok in Hpub. done.
Qed.

Section histories.
  Context `{UuidCrate}.

Lemma claim_invoice_ok s worker now ttl token :
  tasks_ok s →
  let s' := (claim_next_invoice_admission s worker now ttl token).2 in
  tasks_ok s' ∧ records_evolve s s'.
Proof.
  intros Hok. cbn zeta. unfold claim_next_invoice_admission.
  destruct (min_by _ _) as [[id a]|] eqn:Hm; [|split; [done|apply records_evolve_refl]].
  apply min_by_elem in Hm. apply list_elem_of_filter in Hm as [Hdue Ha%elem_of_map_to_list].
  unfold admission_due in Hdue. props. by apply (readmit s id a).
Qed.

Lemma task_step_ok s s' : task_step s s' → tasks_ok s → tasks_ok s' ∧ records_evolve s s'.
Proof.
  intros Hs Hok. destruct Hs.
  - by eapply insert_ok.
  - by eapply insert_invoice_ok.
  - by apply claim_invoice_ok.
  - by eapply invoice_ready_ok.
  - by apply invoice_retry_ok.
  - by eapply invoice_failed_ok.
  - by eapply claim_ok.
  - by eapply retry_ok.
  - by eapply (persist_ok s r).
  - by apply delete_ok.
  - by eapply expire_ok.
  - by apply environment_ok.
Qed.

Lemma tasks_reachable_ok s : rtc task_step TaskRepo_new s → tasks_ok s.
Proof.
  intros Hr. assert (∀ s0 s1, rtc task_step s0 s1 → tasks_ok s0 → tasks_ok s1) as Hall.
  { induction 1; [done|]. intros Hok. apply IHrtc. by eapply task_step_ok. }
  by apply (Hall _ _ Hr tasks_ok_new).
Qed.

(** C10: in every history of the v1 store its four places agree: each task has its
    record in the repository, the fence and exactly one record in the claimer's
    queue, all with the same identity and consistent fields; admission phase,
    lease, publication token and mirrored record fit together ([slot_ok]); no two
    tasks share a handle; and no task is both being published and owned by a
    deletion.  The histories are of whole calls ([task_step]): insertions, invoice
    admission, claims, retries, the transitions of a lease holder, deletion of tasks,
    expiry by the deletion of a lock, and the moves of the fence's other users.  The
    update without a lease, which only the route of development servers makes, is not
    among them, and a call is one step although the source tells the claimer of it after
    releasing its locks ([ready_before_registered_lost]). *)
Theorem task_store_invariant s :
  rtc task_step TaskRepo_new s →
  tasks_ok s
  ∧ ∀ id t fr, task_records s !! id = Some t → fence_records (task_fence s) !! id = Some fr →
      ¬ (tr_status t = PublishingEntitlement ∧ is_Some (fr_deletion_job_id fr)).
Proof.
  intros Hok%tasks_reachable_ok. split; [done|]. intros id t fr Ht Hfr [Hst Hj].
  destruct (tk_slots s Hok _ _ Ht) as (fr0 & r & Hfr0 & _ & _ & [_ _ _ _ _ Hpub Hex _]).
  assert (fr0 = fr) as -> by congruence. apply Hpub in Hst as [tok Htok].
  specialize (Hex Hj). congruence.
Qed.

(** The record of a task along a history in which it is not deleted. *)
Definition kept_step (id : TaskId) (s s' : TaskRepo) : Prop :=
  task_step s s' ∧ is_Some (task_records s' !! id).

Lemma kept_history id s s' :
  rtc (kept_step id) s s' → tasks_ok s → ∀ t, task_records s !! id = Some t →
  ∃ t', task_records s' !! id = Some t' ∧ rtc record_step t t' ∧ fields_consistent t = true.
Proof.
  induction 1 as [s|s s1 s2 [Hstep [u Hu]] Hrest IH]; intros Hok t Ht.
  - exists t. split_and!; [done|done|].
    destruct (tk_slots s Hok _ _ Ht) as (? & ? & _ & _ & _ & []). done.
  - destruct (task_step_ok _ _ Hstep Hok) as [Hok1 Hev].
    destruct (Hev id t Ht) as [Hn|(t1 & Ht1 & Hrs)]; [congruence|].
    destruct (IH Hok1 t1 Ht1) as (t' & Ht' & Hrtc & _). exists t'. split_and!; [done| |].
    + by eapply rtc_l.
    + destruct (tk_slots s Hok _ _ Ht) as (? & ? & _ & _ & _ & []). done.
Qed.

(** While a task is stored its record follows the lifecycle: identity and
    field consistency are kept, a completed, failed or expired record never
    changes again, and a record being published keeps its entitlement until it is
    completed with exactly that entitlement. *)
Theorem task_history id s s' t :
  rtc task_step TaskRepo_new s → rtc (kept_step id) s s' → task_records s !! id = Some t →
  ∃ t', task_records s' !! id = Some t' ∧ fields_consistent t' = true
    ∧ task_identity t' = task_identity t
    ∧ (is_terminal (tr_status t) = true → t' = t)
    ∧ (tr_status t = PublishingEntitlement →
       t' = t ∨ (tr_status t' = Completed
                 ∧ tr_entitlement_to_publish t' = tr_entitlement_to_publish t)).
Proof.
  intros Hok%tasks_reachable_ok Hk Ht. destruct (kept_history id s s' Hk Hok t Ht) as (t' & Ht' & Hr & Hc).
  exists t'. split; [done|]. clear Hk Ht Ht' Hok.
  induction Hr as [t|t t1 t2 Hstep Hr IH]; [by auto 10|].
  destruct (record_step_facts _ _ Hstep Hc) as (Hc1 & Hid1 & Hterm1).
  destruct (IH Hc1) as (Hc2 & Hid2 & Hterm & Hpub). split_and!; [done|congruence| |].
  - intros Hf. rewrite (Hterm1 Hf) in Hterm. by apply Hterm.
  - intros Hp. destruct Hstep as [->|[Hl|(now & m & Hst & _)]]; [by apply Hpub| |congruence].
    destruct (sf_payload _ _ (lifecycle_step_facts _ _ Hl) Hp) as (Hst & _ & Hpay). right.
    assert (t2 = t1) as -> by (apply Hterm; by rewrite Hst). done.
Qed.

(** * Nothing is lost *)

Lemma claim_invoice_due s id a worker now ttl token :
  invoice_admissions s !! id = Some a → admission_due now a = true →
  is_Some (claim_next_invoice_admission s worker now ttl token).1.
Proof.
  intros Ha Hdue. unfold claim_next_invoice_admission.
  destruct (min_by _ _) as [[id' a']|] eqn:Hm; [by eexists|].
  apply min_by_None in Hm. exfalso. apply (not_elem_of_nil (id, a)). rewrite <- Hm.
  by apply list_elem_of_filter; rewrite elem_of_map_to_list.
Qed.

(** A claim never fails, and finds any claimable task that no deletion owns. *)
Lemma claim_total s worker now expires token :
  tasks_ok s →
  ∃ o s', claim_next_verification_task s worker now expires token = Ok (o, s')
    ∧ ((∃ r, r ∈ claimer_records s ∧ is_claimable_at r now = true
             ∧ task_undeleted (task_fence s) r = true) → is_Some o).
Proof.
  intros Hok. unfold claim_next_verification_task.
  destruct (find_first _ _) as [[i r]|] eqn:Hf.
  - apply find_first_Some in Hf as [Hi [Hcl Hun]%andb_true_iff]. unfold is_claimable_at in Hcl.
    destruct (ct_invoice_admission_phase r == PhaseReady) eqn:Hready; [|done]. props. cbn in Hcl.
    destruct (queued_slot s i r Hok Hi Hun (or_introl Hready))
      as (_ & Hrec & Hl & fr & Hfr & Hj & Hslot).
    assert (∃ task, (if tr_status (ct_task r) == Pending
                     then transition_to (ct_task r) InProgress now None else Ok (ct_task r)) = Ok task
                    ∧ task_identity task = task_identity (ct_task r)) as (task & -> & Hident).
    { destruct (tr_status (ct_task r) == Pending) eqn:Hst; props; [|by eexists].
      eexists. split; [|shelve]. apply transition_to_spec. rewrite Hst.
      split; [apply Hslot|done]. Unshelve. done. }
    cbn [mbind result_bind].
    destruct (update_stores s (ct_task r) task) as (f & -> & _); [|done|].
    { unfold task_identity in Hident. unfold ct_id in Hrec. by injection Hident as -> _ _ _. }
    cbn [mbind result_bind]. do 2 eexists. split; [done|]. by eexists.
  - do 2 eexists. split; [done|]. intros (r & Hr & Hcl & Hun).
    rewrite find_first_None in Hf. specialize (Hf r Hr). by rewrite Hcl, Hun in Hf.
Qed.

(** No v1 work is lost.  In every reachable store each pending invoice
    admission, and each admitted task that is not finished and not owned by a
    deletion, has a time from which on a worker that asks for work gets some: the
    call succeeds and returns a claim. *)
Theorem task_claimable s id t :
  rtc task_step TaskRepo_new s → task_records s !! id = Some t →
  (∀ a, invoice_admissions s !! id = Some a → ia_phase (ma_record a) = PhaseInvoicePending →
     ∃ due, ∀ now worker ttl token, due ≤ now →
       is_Some (claim_next_invoice_admission s worker now ttl token).1)
  ∧ (is_terminal (tr_status t) = false →
     (∀ a, invoice_admissions s !! id = Some a → ia_phase (ma_record a) = PhaseReady) →
     (∀ fr, fence_records (task_fence s) !! id = Some fr → fr_deletion_job_id fr = None) →
     ∃ due, ∀ now worker expires token, due ≤ now →
       ∃ claim s', claim_next_verification_task s worker now expires token = Ok (Some claim, s')).
Proof.
  intros Hok%tasks_reachable_ok Ht.
  destruct (tk_slots s Hok _ _ Ht) as (fr & r & Hfr & Hr & Hid & Hslot). split.
  - intros a Ha Hph.
    assert (admission_ok a) as Haok.
    { pose proof (so_phase _ _ _ _ _ Hslot) as Hp. rewrite Ha in Hp. apply Hp. }
    unfold admission_ok in Haok. rewrite Hph in Haok. destruct Haok as [due Hdue].
    exists (Z.max due (default due (ma_claim_expires_at a))). intros now worker ttl token Hle.
    apply (claim_invoice_due s id a); [done|]. unfold admission_due.
    rewrite Hph, Hdue, eqb_same. cbn.
    destruct (ma_claim_expires_at a) as [e|]; cbn in *; lia.
  - intros Hterm Hadm Hown. specialize (Hown fr Hfr).
    assert (ct_invoice_admission_phase r = PhaseReady) as Hready.
    { pose proof (so_phase _ _ _ _ _ Hslot) as Hp. unfold phase_ok in Hp.
      destruct (invoice_admissions s !! id) as [a|]; [|by apply Hp].
      destruct Hp as (_ & _ & _ & _ & Hp). rewrite (Hadm a eq_refl) in Hp. apply Hp. }
    destruct (queue_mirrors _ _ _ _ (so_phase _ _ _ _ _ Hslot) Hready Hown) as [Hrt Hl].
    exists (default 0 (match tr_status t with
                       | Pending => ct_next_attempt_at r | _ => ct_claim_expires_at r end)).
    intros now worker expires token Hle.
    destruct (claim_total s worker now expires token Hok) as (o & s' & -> & Hsome).
    destruct Hsome as [c ->]; [|by eauto]. exists r. split_and!; [done| |].
    + unfold is_claimable_at, lease_ok in *. rewrite Hready, eqb_same. cbn [negb]. rewrite Hrt in *.
      destruct (tr_status t); try discriminate Hterm; cbn in Hle.
      * destruct (ct_next_attempt_at r); cbn in *; [lia|done].
      * destruct Hl as [e He]. rewrite He in *. cbn in *. lia.
      * destruct Hl as [e He]. rewrite He in *. cbn in *. lia.
    + unfold task_undeleted. unfold ct_id in Hid. rewrite Hid, Hfr. cbn. by rewrite Hown.
Qed.

(** The fence's copy of a v1 task's status is not kept in step: no matter how
    it was reached, a completed v1 task (one whose reader is entitled) still stands
    as pending in the fence, where a deletion job takes the status it freezes
    from. *)
Theorem completed_task_pending_in_fence s id t fr :
  rtc task_step TaskRepo_new s → task_records s !! id = Some t → tr_status t = Completed →
  fence_records (task_fence s) !! id = Some fr → fr_status fr = Pending.
Proof.
  intros Hok%tasks_reachable_ok Ht Hst Hfr.
  destruct (tk_slots s Hok _ _ Ht) as (fr0 & r & Hfr0 & _ & _ & [_ _ _ _ _ _ _ Hstat]).
  rewrite Hst in Hstat. destruct Hstat as [?|[_ [?|?]]]; congruence.
Qed.

(** * Between the writes and the registration *)

(** The task's admission is done, but its queue record still waits for it. *)
Record lost_admission (id : TaskId) (s : TaskRepo) : Prop := {
  la_stored : is_Some (task_records s !! id);
  la_ready : ∃ a, invoice_admissions s !! id = Some a ∧ ia_phase (ma_record a) = PhaseReady;
  la_waits r : r ∈ claimer_records s → ct_id r = id →
    ct_invoice_admission_phase r = PhaseInvoicePending;
}.

Lemma lost_frame id s s' :
  lost_admission id s → is_Some (task_records s' !! id) →
  invoice_admissions s' !! id = invoice_admissions s !! id →
  (∀ r', r' ∈ claimer_records s' → ct_id r' = id →
     ct_invoice_admission_phase r' = PhaseInvoicePending
     ∨ ∃ r, r ∈ claimer_records s ∧ ct_id r = id
         ∧ ct_invoice_admission_phase r' = ct_invoice_admission_phase r) →
  lost_admission id s'.
Proof.
  intros [_ Hr Hw] Hs Ha Hq. split; [done|by rewrite Ha|]. intros r' Hr' Hid.
  destruct (Hq r' Hr' Hid) as [?|(r & Hin & Hrid & ->)]; [done|by apply Hw].
Qed.

(** A record of the queue replaced by one of its task. *)
Lemma lost_replaced id s s' i r r' :
  lost_admission id s → is_Some (task_records s' !! id) →
  invoice_admissions s' !! id = invoice_admissions s !! id →
  claimer_records s !! i = Some r → claimer_records s' = <[i := r']> (claimer_records s) →
  (ct_id r' = id → ct_id r = id ∧ ct_invoice_admission_phase r' = ct_invoice_admission_phase r) →
  lost_admission id s'.
Proof.
  intros Hl Hs Ha Hi Hq Hr. apply (lost_frame id s); [done|done|done|]. intros x Hx Hid. right.
  rewrite Hq in Hx. apply list_elem_of_lookup in Hx as [j Hj].
  apply list_lookup_insert_Some in Hj as [(-> & <- & _)|[_ Hj]].
  - destruct (Hr Hid) as [? ?]. exists r. split_and!; [by eapply list_elem_of_lookup_2|done|done].
  - exists x. split_and!; [by eapply list_elem_of_lookup_2|done|done].
Qed.

Lemma pending_not_ready id id' s a :
  lost_admission id s → invoice_admissions s !! id' = Some a →
  ia_phase (ma_record a) = PhaseInvoicePending → id' ≠ id.
Proof. intros [_ (b & Hb & Hr) _] Ha Hp ->. congruence. Qed.

Lemma transition_id r next at_ msg r' :
  transition_to r next at_ msg = Ok r' → tr_task_id r' = tr_task_id r.
Proof.
  intros [_ Ht]%transition_to_spec.
  destruct (tr_status r), next; try done; [by destruct Ht as [_ ->]|by destruct Ht as [_ ->]| |].
  - by destruct Ht as (m & _ & _ & ->).
  - by destruct Ht as (_ & ->).
Qed.

Lemma update_queue s t s' :
  update_verification_task s t = Ok s' →
  claimer_records s' = claimer_records s ∧ invoice_admissions s' = invoice_admissions s.
Proof. intros (u & _ & [= <-])%bind_Ok. done. Qed.

Lemma registered_from l t phase r :
  r ∈ register_task l t phase → r ∈ l ∨ r = MkClaimable t phase None None None None.
Proof.
  unfold register_task. destruct (existsb _ _); [by left|].
  intros [?|?%list_elem_of_singleton]%elem_of_app; auto.
Qed.

(** A new task is another one. *)
Lemma lost_added id s t paykit ready admissions phase :
  lost_admission id s → task_records s !! tr_task_id t = None →
  (∀ id', id' ≠ tr_task_id t → admissions !! id' = invoice_admissions s !! id') →
  lost_admission id (tell_claimer (add_task s t paykit ready admissions) t phase).
Proof.
  intros Hl Hnone Hadm. assert (id ≠ tr_task_id t) as Hne.
  { intros ->. destruct (la_stored _ _ Hl) as [u Hu]. congruence. }
  apply (lost_frame id s); [done| |by apply Hadm|].
  - cbn. rewrite lookup_insert_ne by done. apply Hl.
  - intros r Hr Hid. right. cbn in Hr. apply registered_from in Hr as [Hr| ->]; [by exists r|].
    by destruct Hne.
Qed.

Lemma lost_insert id s t s' :
  lost_admission id s → insert_verification_task s t = Ok s' → lost_admission id s'.
Proof.
  intros Hl (s1 & Hi & [= <-])%bind_Ok. unfold insert_verification_task_writes in Hi.
  repeat (apply bind_Ok in Hi as ([] & _ & Hi)).
  destruct (find_by_handle _ _) as [[]|]; [by split_match in Hi|].
  apply bind_Ok in Hi as ([] & Hnew%reject_if_Ok & Hi). injection Hi as <-. props.
  by apply lost_added.
Qed.

Lemma lost_insert_invoice id s t intent a s' :
  lost_admission id s → insert_invoice_pending_task s t intent = Ok (a, s') → lost_admission id s'.
Proof.
  intros Hl ([[a0 new] s1] & Hi & [= _ <-])%bind_Ok. unfold insert_invoice_pending_task_writes in Hi.
  repeat (apply bind_Ok in Hi as ([] & _ & Hi)).
  destruct (find_by_handle _ _) as [[? ?]|].
  - destruct (ma_record <$> _); [|done]. split_match in Hi; [|done]. by injection Hi as _ <- <-.
  - apply bind_Ok in Hi as ([] & Hnew%reject_if_Ok & Hi). injection Hi as _ <- <-. props.
    apply lost_added; [done|done|]. intros id' Hne. by rewrite lookup_insert_ne.
Qed.

(** An admission still pending is another one. *)
Lemma lost_admission_write id id' s a a' :
  lost_admission id s → invoice_admissions s !! id' = Some a →
  ia_phase (ma_record a) = PhaseInvoicePending →
  lost_admission id (repo_with_admissions s (<[id' := a']> (invoice_admissions s))).
Proof.
  intros Hl Ha Hp. pose proof (pending_not_ready _ _ _ _ Hl Ha Hp) as Hne.
  apply (lost_frame id s); [done|apply Hl|cbn; by rewrite lookup_insert_ne|].
  intros r Hr Hid. right. by exists r.
Qed.

Lemma lost_ready_parts id id' s :
  lost_admission id s → id' ≠ id →
  lost_admission id (admission_ready_in_queue (admission_ready_in_fence s id') id').
Proof.
  intros Hl Hne. apply (lost_frame id s); [done|apply Hl|done|]. cbn.
  unfold claimer_mark_invoice_admission_ready. intros r Hr Hid. right.
  destruct (find_first _ _) as [[i x]|] eqn:Hf; [|by exists r].
  apply find_first_Some in Hf as [Hi Hx]. props. apply list_elem_of_lookup in Hr as [j Hj].
  apply list_lookup_insert_Some in Hj as [(-> & <- & _)|[_ Hj]].
  - destruct Hne. by rewrite <- Hid, <- Hx.
  - exists r. split_and!; [by eapply list_elem_of_lookup_2|done|done].
Qed.

Lemma lost_ready id id' s worker token now created deadline o s' :
  lost_admission id s →
  mark_invoice_admission_ready s id' worker token now created deadline = Ok (o, s') →
  lost_admission id s'.
Proof.
  intros Hl ([o1 s1] & Hm & [= -> <-])%bind_Ok. unfold mark_invoice_admission_ready_writes in Hm.
  apply bind_Ok in Hm as ([] & _ & Hm).
  destruct (filtered_admission _ _ _) as [a|] eqn:Hf; injection Hm as <- <-; [|done].
  apply filtered_admission_Some in Hf as [Ha Hp%live_admission_phase].
  apply lost_ready_parts; [by eapply lost_admission_write|by eapply pending_not_ready].
Qed.

Lemma lost_failed id id' s worker token now message o s' :
  lost_admission id s → mark_invoice_admission_failed s id' worker token now message = Ok (o, s') →
  lost_admission id s'.
Proof.
  intros Hl ([] & _ & Hm)%bind_Ok.
  destruct (task_records s !! id') as [t|] eqn:Ht; [|by injection Hm as _ <-].
  destruct (filtered_admission _ _ _) as [a|] eqn:Hf; injection Hm as _ <-; [|done].
  apply filtered_admission_Some in Hf as [Ha Hp%live_admission_phase].
  pose proof (pending_not_ready _ _ _ _ Hl Ha Hp) as Hne.
  apply (lost_frame id s); [done|cbn; rewrite lookup_insert_ne by done; apply Hl
    |cbn; by rewrite lookup_insert_ne|]. intros r Hr Hid. right. by exists r.
Qed.

Lemma lost_claim id s worker now expires token o s' :
  lost_admission id s → claim_next_verification_task s worker now expires token = Ok (o, s') →
  is_Some (task_records s' !! id) →
  lost_admission id s' ∧ ∀ c, o = Some c → tr_task_id (cvt_task c) ≠ id.
Proof.
  intros Hl Hc Hs. unfold claim_next_verification_task in Hc.
  destruct (find_first _ _) as [[i r]|] eqn:Hf; [|injection Hc as <- <-; split; [done|by intros c]].
  apply find_first_Some in Hf as [Hi [Hcl _]%andb_true_iff]. unfold is_claimable_at in Hcl.
  destruct (ct_invoice_admission_phase r == PhaseReady) eqn:Hready; [|done]. props.
  assert (ct_id r ≠ id) as Hne.
  { intros Hid. pose proof (la_waits _ _ Hl r) as Hw.
    rewrite Hready in Hw. discriminate Hw; [by eapply list_elem_of_lookup_2|done]. }
  apply bind_Ok in Hc as (t & Ht & Hc). apply bind_Ok in Hc as (s1 & [Hq Ha]%update_queue & [= <- <-]).
  assert (tr_task_id t = ct_id r) as Htid.
  { unfold ct_id. destruct (tr_status (ct_task r) == Pending); [by eapply transition_id|by injection Ht as <-]. }
  split; [|intros c [= <-]; cbn; congruence].
  eapply (lost_replaced id s); [done|done|cbn; by rewrite Ha|done|cbn; by rewrite Hq|].
  unfold ct_id. cbn. intros ?. congruence.
Qed.

Lemma lost_retry id s id' worker token now next o s' :
  lost_admission id s → schedule_verification_task_retry s id' worker token now next = Ok (o, s') →
  is_Some (task_records s' !! id) → lost_admission id s'.
Proof.
  intros Hl Hc Hs. unfold schedule_verification_task_retry in Hc.
  destruct (find_first _ _) as [[i r]|] eqn:Hf; [|by injection Hc as _ <-].
  apply find_first_Some in Hf as [Hi _].
  apply bind_Ok in Hc as (t & Ht%transition_id & Hc).
  apply bind_Ok in Hc as (s1 & [Hq Ha]%update_queue & [= _ <-]).
  eapply (lost_replaced id s); [done|done|cbn; by rewrite Ha|done|cbn; by rewrite Hq|].
  unfold ct_id. cbn. intros ?. split; [congruence|done].
Qed.

Lemma lost_persist id s t worker token now o s' :
  lost_admission id s → persist_claimed_verification_task_transition s t worker token now = Ok (o, s') →
  is_Some (task_records s' !! id) → lost_admission id s'.
Proof.
  intros Hl ([] & _ & Hc)%bind_Ok Hs.
  destruct (find_first _ _) as [[i r]|] eqn:Hf; [|by injection Hc as _ <-].
  apply find_first_Some in Hf as [Hi _].
  apply bind_Ok in Hc as (s1 & [Hq Ha]%update_queue & [= _ <-]).
  eapply (lost_replaced id s); [done|done|cbn; by rewrite Ha|done|cbn; by rewrite Hq|].
  unfold ct_id. destruct (_ == _); by cbn.
Qed.

Lemma lost_delete id id' s :
  lost_admission id s → is_Some (task_records (delete_verification_task s id') !! id) →
  lost_admission id (delete_verification_task s id').
Proof.
  intros Hl Hs. unfold delete_verification_task in *.
  destruct (task_records s !! id') as [t|]; [|done]. cbn in Hs.
  assert (id ≠ id') as Hne by (intros ->; rewrite lookup_delete_eq in Hs; by destruct Hs).
  apply (lost_frame id s); [done|done|cbn; by rewrite lookup_delete_ne|].
  intros r Hr Hid. right. cbn in Hr. apply list_elem_of_filter in Hr as [_ Hr]. by exists r.
Qed.

Lemma lost_step id s s' : kept_step id s s' → lost_admission id s → lost_admission id s'.
Proof.
  intros [Hstep Hs] Hl. destruct Hstep.
  - by eapply lost_insert.
  - by eapply lost_insert_invoice.
  - unfold claim_next_invoice_admission. destruct (min_by _ _) as [[id' a]|] eqn:Hm; [|done].
    apply min_by_elem in Hm. apply list_elem_of_filter in Hm as [Hdue Ha%elem_of_map_to_list].
    unfold admission_due in Hdue. props. by eapply lost_admission_write.
  - by eapply lost_ready.
  - unfold schedule_invoice_admission_retry.
    destruct (filtered_admission _ _ _) as [a|] eqn:Hf; [|done].
    apply filtered_admission_Some in Hf as [Ha [_ Hp%live_admission_phase]%andb_true_iff].
    by eapply lost_admission_write.
  - by eapply lost_failed.
  - by eapply lost_claim.
  - by eapply lost_retry.
  - by eapply lost_persist.
  - by apply lost_delete.
  - unfold apply_update in *. destruct (task_records s !! _); [|done].
    apply (lost_frame id s); [done|done|done|]. intros x Hx Hid. right. by exists x.
  - apply (lost_frame id s); [done|done|done|]. intros x Hx Hid. right. by exists x.
Qed.

(** The admission becomes ready before the task is registered. *)
Lemma window_lost s t intent a s1 worker now ttl token c s2 now' created deadline r s3 :
  tasks_ok s → insert_invoice_pending_task_writes s t intent = Ok (a, true, s1) →
  claim_next_invoice_admission s1 worker now ttl token = (c, s2) →
  mark_invoice_admission_ready s2 (tr_task_id t) worker token now' created deadline = Ok (Some r, s3) →
  lost_admission (tr_task_id t) (tell_claimer s3 t PhaseInvoicePending).
Proof.
  intros Hok Hi Hc Hm. set (id := tr_task_id t).
  assert (claimer_records s1 = claimer_records s ∧ task_records s !! id = None
          ∧ task_records s1 = <[id := t]> (task_records s)) as (Hq1 & Hnone & Ht1).
  { unfold insert_invoice_pending_task_writes in Hi.
    repeat (apply bind_Ok in Hi as ([] & _ & Hi)). destruct (find_by_handle _ _) as [[? ?]|].
    - destruct (ma_record <$> _); [|done]. by split_match in Hi.
    - apply bind_Ok in Hi as ([] & Hnew%reject_if_Ok & Hi). injection Hi as _ <-. by props. }
  assert (claimer_records s2 = claimer_records s1 ∧ task_records s2 = task_records s1) as [Hq2 Ht2].
  { unfold claim_next_invoice_admission in Hc. by destruct (min_by _ _) as [[]|]; injection Hc as _ <-. }
  assert (Hfresh : ∀ x, x ∈ claimer_records s2 → ct_id x ≠ id).
  { intros x Hx Hxid. rewrite Hq2, Hq1 in Hx. destruct (tk_queue s Hok x Hx). congruence. }
  apply bind_Ok in Hm as ([o s3'] & Hm & [= -> <-]). unfold mark_invoice_admission_ready_writes in Hm.
  apply bind_Ok in Hm as ([] & _ & Hm). destruct (filtered_admission _ _ _) as [b|]; [|done].
  injection Hm as _ <-.
  assert (claimer_mark_invoice_admission_ready (claimer_records s2) id = claimer_records s2) as Hsame.
  { unfold claimer_mark_invoice_admission_ready. destruct (find_first _ _) as [[i x]|] eqn:Hf; [|done].
    apply find_first_Some in Hf as [Hi' Hx]. props. by destruct (Hfresh x ltac:(by eapply list_elem_of_lookup_2)). }
  fold id. split; cbn.
  - rewrite Ht2, Ht1, lookup_insert_eq. by eexists.
  - eexists. split; [by rewrite lookup_insert_eq|done].
  - intros x Hx Hid. rewrite Hsame in Hx. apply registered_from in Hx as [Hx| ->]; [|done].
    by destruct (Hfresh x Hx).
Qed.

(** C16: The insertion of an invoice task writes its records under locks and registers the
    task with the claimer after releasing them.  When a worker claims the new admission
    and marks it ready in between, the task is lost: its admission is ready, but its
    queue record keeps waiting for it.  Whatever happens afterwards, as long as the task
    is stored, no worker is handed the task and the admission cannot be marked ready
    again. *)
Theorem ready_before_registered_lost s t intent a s1 worker now ttl token c s2 now' created deadline
    r s3 s4 :
  rtc task_step TaskRepo_new s →
  insert_invoice_pending_task_writes s t intent = Ok (a, true, s1) →
  claim_next_invoice_admission s1 worker now ttl token = (c, s2) →
  mark_invoice_admission_ready s2 (tr_task_id t) worker token now' created deadline = Ok (Some r, s3) →
  rtc (kept_step (tr_task_id t)) (tell_claimer s3 t PhaseInvoicePending) s4 →
  (∃ adm, invoice_admissions s4 !! tr_task_id t = Some adm ∧ ia_phase (ma_record adm) = PhaseReady)
  ∧ (∀ worker now expires token c s5,
       claim_next_verification_task s4 worker now expires token = Ok (Some c, s5) →
       tr_task_id (cvt_task c) ≠ tr_task_id t)
  ∧ ∀ worker token now created deadline o s5,
      mark_invoice_admission_ready s4 (tr_task_id t) worker token now created deadline = Ok (o, s5) →
      o = None ∧ s5 = s4.
Proof.
  intros Hr%tasks_reachable_ok Hi Hc Hm Hk.
  assert (lost_admission (tr_task_id t) s4) as Hl.
  { assert (lost_admission (tr_task_id t) (tell_claimer s3 t PhaseInvoicePending)) as Hl
      by by eapply window_lost.
    revert Hl. induction Hk as [|x y z Hs _ IH]; [done|]. intros Hl. by eapply IH, lost_step. }
  destruct Hl as [Hs (adm & Ha & Hp) Hw] eqn:E. clear E. split_and!; [by exists adm| |].
  - intros w n e tok d s5 Hcl.
    unfold claim_next_verification_task in Hcl.
    destruct (find_first _ _) as [[i x]|] eqn:Hf; [|done].
    apply find_first_Some in Hf as [Hi' [Hcb _]%andb_true_iff]. unfold is_claimable_at in Hcb.
    destruct (ct_invoice_admission_phase x == PhaseReady) eqn:Hready; [|done]. props.
    apply bind_Ok in Hcl as (u & Hu & (s6 & _ & [= <- _])%bind_Ok). cbn. intros Hid.
    assert (tr_task_id u = ct_id x) as Hux.
    { destruct (tr_status (ct_task x) == Pending); [by eapply transition_id|by injection Hu as <-]. }
    specialize (Hw x ltac:(by eapply list_elem_of_lookup_2)). rewrite Hready in Hw.
    discriminate Hw. congruence.
  - intros w tok n cr dl o s5 ([o1 s6] & Hmk & [= -> <-])%bind_Ok.
    unfold mark_invoice_admission_ready_writes in Hmk. apply bind_Ok in Hmk as ([] & _ & Hmk).
    unfold filtered_admission in Hmk. rewrite Ha in Hmk. cbn in Hmk.
    unfold live_admission in Hmk. rewrite Hp in Hmk. cbn in Hmk. by injection Hmk as <- <-.
Qed.
End histories.
