(* ===== verification/AccessStore.v ===== *)
(** The in-memory store of access credentials with its deletion drain
    ([locks-service/src/infrastructure/memory/access_credentials.rs]; records of
    [application/models/access.rs]).

    Ordinary credentials are bearer tokens with an expiry.  When the deletion of a
    lock starts, the store freezes the lock's bundles and enrols their live
    credentials; paid bundles without one become eligible for a final credential,
    which allows each resource of the frozen lock to be read once.

    The store is the one the server wires up, with the task repository and the
    fence.  Clock readings, nonces and fresh UUIDs are arguments; so is the order in
    which a [HashMap] is searched where several entries may match. *)

From S2P Require Import Prelude HashMaps RustStr Externals Ids Json LockPolicy Wire Errors.
From S2P Require Import Secrets Lifecycle DeletionJob GraphTask Fence TaskStore.

(** * Data *)

Definition DEFAULT_ACCESS_CREDENTIAL_TTL_SECONDS : Z := 900.

Record AccessCredentialLookupKey := MkLookupKey { AccessCredentialLookupKey_as_bytes : bytes }.

#[global] Instance AccessCredentialLookupKey_eq_dec : EqDecision AccessCredentialLookupKey.
Proof. solve_decision. Defined.
#[global] Program Instance AccessCredentialLookupKey_countable :
    Countable AccessCredentialLookupKey :=
  inj_countable' AccessCredentialLookupKey_as_bytes MkLookupKey _.
Next Obligation. by intros []. Qed.

Record AccessCredentialPolicy := MkAccessCredentialPolicy {
  default_ttl_seconds : Z;
  max_ttl_seconds : Z;
}.

Definition AccessCredentialPolicy_new (max : Z) : AccessCredentialPolicy :=
  MkAccessCredentialPolicy DEFAULT_ACCESS_CREDENTIAL_TTL_SECONDS max.

Definition validate_requested_ttl_seconds (p : AccessCredentialPolicy) (requested : Z) :
    result ApplicationError Z :=
  _ ← reject_if ((requested =? 0) || (max_ttl_seconds p <? requested))
        (UnsupportedCredentialTtl requested (max_ttl_seconds p));
  Ok requested.

Record AccessCredentialRecord := MkCredentialRecord {
  acr_creator : CreatorPubky;
  acr_bundle_id : BundleId;
  acr_expires_at : OffsetDateTime;
}.

#[global] Instance AccessCredentialRecord_eq_dec : EqDecision AccessCredentialRecord.
Proof. solve_decision. Defined.

Record FinalCredentialMaterialization := MkMaterialization {
  fcm_creator : CreatorPubky;
  fcm_bundle_id : BundleId;
}.

Record FinalAccessWindows := MkWindows {
  faw_issuance_started_at : OffsetDateTime;
  faw_credential_issuance_deadline : OffsetDateTime;
  faw_read_deadline : OffsetDateTime;
}.

Inductive InitializeFinalAccessWindowsResult :=
  | Initialized (windows : FinalAccessWindows)
  | WindowsClaimLost.

Record IssuedDeletionCredential := MkIssued {
  idc_credential : AccessCredential;
  idc_expires_at : OffsetDateTime;
}.

Record DeletionReadAuthorization := MkReadAuthorization {
  dra_claim_token : option Uuid;
  dra_creator : CreatorPubky;
  dra_resource : GuardedResource;
}.

Inductive OrdinaryCredentialLookupResult := OrdinaryCurrent | DeletionEnrolled | LookupMissing.

Inductive AccessPhaseAdvanceStatus :=
  | PhaseAdvanceReady
  | AccessObligationsPending
  | FinalCredentialIssuanceMissed.

Inductive DrainCredentialKind := KindOrdinary | KindFinal.

#[global] Instance DrainCredentialKind_eq_dec : EqDecision DrainCredentialKind.
Proof. solve_decision. Defined.

Record StoredCredential := MkStoredCredential {
  sc_record : AccessCredentialRecord;
  sc_lock_id : LockId;
  sc_deletion : option (Uuid * DrainCredentialKind);
}.

Record DeletionPaymentAggregate := MkAggregate {
  agg_completed : bool;
  agg_accepted_count : Z;
}.

Record DeletionBundleSnapshot := MkBundleSnapshot {
  bs_task_id : TaskId;
  bs_paykit_admission_required : bool;
  bs_had_active_credential_at_cutoff : bool;
  bs_status_at_cutoff : VerificationTaskStatus;
  bs_resolved_status : option VerificationTaskStatus;
  bs_resolved_at : option OffsetDateTime;
  bs_final_credential_eligible_at : option OffsetDateTime;
  bs_final_credential_issued : bool;
}.

Definition permits_final_credential (b : DeletionBundleSnapshot) : bool :=
  bs_paykit_admission_required b
  && negb (bs_had_active_credential_at_cutoff b)
  && (default (bs_status_at_cutoff b) (bs_resolved_status b) == Completed)
  && is_some (bs_final_credential_eligible_at b).

Record DeletionAccessState := MkDeletionAccess {
  da_creator : CreatorPubky;
  da_lock_id : LockId;
  da_frozen_content_lock : ContentLock;
  da_state : ContentLockDeletionState;
  da_phase : ContentLockDeletionPhase;
  da_force_requested : bool;
  da_claimed_by : option string;
  da_claim_token : option Uuid;
  da_claim_expires_at : option OffsetDateTime;
  da_issuance_started_at : option OffsetDateTime;
  da_issuance_deadline : option OffsetDateTime;
  da_read_deadline : option OffsetDateTime;
  da_payment_aggregate : option DeletionPaymentAggregate;
  da_bundle_snapshots : gmap BundleId DeletionBundleSnapshot;
}.

Record FinalReadState := MkReadState {
  rs_claim_token : option Uuid;
  rs_claim_expires_at : option OffsetDateTime;
  rs_consumed_at : option OffsetDateTime;
}.

Definition FinalReadState_default : FinalReadState := MkReadState None None None.

Record FinalCredentialRecord := MkFinalCredential {
  fcr_lookup_key : AccessCredentialLookupKey;
  fcr_encrypted_bearer : EncryptedFinalCredential;
  fcr_expires_at : OffsetDateTime;
  fcr_reads : gmap string FinalReadState;
}.

Record AccessState := MkAccessState {
  acc_records : gmap AccessCredentialLookupKey StoredCredential;
  acc_deletions : gmap Uuid DeletionAccessState;
  acc_deletion_jobs_by_key : gmap (CreatorPubky * LockId) Uuid;
  acc_blocked_keys : gset (CreatorPubky * LockId);
  acc_final_credentials : gmap (Uuid * BundleId) FinalCredentialRecord;
}.

Definition AccessState_new : AccessState := MkAccessState ∅ ∅ ∅ ∅ ∅.

(** Field updates. *)
Definition acc_with_records (a : AccessState) m :=
  MkAccessState m (acc_deletions a) (acc_deletion_jobs_by_key a) (acc_blocked_keys a)
    (acc_final_credentials a).
Definition acc_with_deletions (a : AccessState) m :=
  MkAccessState (acc_records a) m (acc_deletion_jobs_by_key a) (acc_blocked_keys a)
    (acc_final_credentials a).
Definition acc_with_blocked (a : AccessState) b :=
  MkAccessState (acc_records a) (acc_deletions a) (acc_deletion_jobs_by_key a) b
    (acc_final_credentials a).
Definition acc_with_final (a : AccessState) m :=
  MkAccessState (acc_records a) (acc_deletions a) (acc_deletion_jobs_by_key a)
    (acc_blocked_keys a) m.

Definition da_with_job (d : DeletionAccessState) (state : ContentLockDeletionState)
    (phase : ContentLockDeletionPhase) (force : bool) (claimed_by : option string)
    (claim_token : option Uuid) (claim_expires_at : option OffsetDateTime) :=
  MkDeletionAccess (da_creator d) (da_lock_id d) (da_frozen_content_lock d) state phase force
    claimed_by claim_token claim_expires_at (da_issuance_started_at d) (da_issuance_deadline d)
    (da_read_deadline d) (da_payment_aggregate d) (da_bundle_snapshots d).
Definition da_with_snapshots (d : DeletionAccessState) m :=
  MkDeletionAccess (da_creator d) (da_lock_id d) (da_frozen_content_lock d) (da_state d)
    (da_phase d) (da_force_requested d) (da_claimed_by d) (da_claim_token d)
    (da_claim_expires_at d) (da_issuance_started_at d) (da_issuance_deadline d)
    (da_read_deadline d) (da_payment_aggregate d) m.
Definition da_with_aggregate (d : DeletionAccessState) agg :=
  MkDeletionAccess (da_creator d) (da_lock_id d) (da_frozen_content_lock d) (da_state d)
    (da_phase d) (da_force_requested d) (da_claimed_by d) (da_claim_token d)
    (da_claim_expires_at d) (da_issuance_started_at d) (da_issuance_deadline d)
    (da_read_deadline d) agg (da_bundle_snapshots d).
Definition da_with_windows (d : DeletionAccessState) started issue read :=
  MkDeletionAccess (da_creator d) (da_lock_id d) (da_frozen_content_lock d) (da_state d)
    (da_phase d) (da_force_requested d) (da_claimed_by d) (da_claim_token d)
    (da_claim_expires_at d) started issue read (da_payment_aggregate d) (da_bundle_snapshots d).

Definition bs_resolve (b : DeletionBundleSnapshot) (status : VerificationTaskStatus)
    (at_ : OffsetDateTime) (eligible : option OffsetDateTime) : DeletionBundleSnapshot :=
  MkBundleSnapshot (bs_task_id b) (bs_paykit_admission_required b)
    (bs_had_active_credential_at_cutoff b) (bs_status_at_cutoff b) (Some status) (Some at_)
    eligible (bs_final_credential_issued b).
Definition bs_issue (b : DeletionBundleSnapshot) : DeletionBundleSnapshot :=
  MkBundleSnapshot (bs_task_id b) (bs_paykit_admission_required b)
    (bs_had_active_credential_at_cutoff b) (bs_status_at_cutoff b) (bs_resolved_status b)
    (bs_resolved_at b) (bs_final_credential_eligible_at b) true.

Definition invalid_deletion_state (message : string) : ApplicationError :=
  InvalidContentLockDeletionState message.

(** * Registration of a deletion and its lifecycle *)

Definition settled_at_cutoff (s : VerificationTaskStatus) : bool :=
  match s with Completed | Failed | Expired => true | _ => false end.

(** [cond.then_some(a)]. *)
Definition then_some {A} (cond : bool) (a : A) : option A := if cond then Some a else None.

Definition freeze_bundle (a : AccessState) (job : ContentLockDeletionJob)
    (bundle : BundleId) (task : TaskId * bool * VerificationTaskStatus) :
    DeletionBundleSnapshot :=
  let '(task_id, paykit, status) := task in
  let had_active := any_value
    (λ stored, (acr_creator (sc_record stored) == dj_creator job)
               && (sc_lock_id stored == dj_lock_id job)
               && (acr_bundle_id (sc_record stored) == bundle)
               && (dj_deletion_started_at job <? acr_expires_at (sc_record stored)))
    (acc_records a) in
  MkBundleSnapshot task_id paykit had_active status
    (then_some (settled_at_cutoff status) status)
    (then_some (settled_at_cutoff status) (dj_deletion_started_at job))
    (then_some (paykit && (status == Completed) && negb had_active)
       (dj_deletion_started_at job))
    false.

Definition enrol (job : ContentLockDeletionJob)
    (bundles : gmap BundleId (TaskId * bool * VerificationTaskStatus))
    (stored : StoredCredential) : StoredCredential :=
  let r := sc_record stored in
  if (acr_creator r == dj_creator job) && (sc_lock_id stored == dj_lock_id job)
     && is_some (bundles !! acr_bundle_id r)
     && (dj_deletion_started_at job <? acr_expires_at r)
  then MkStoredCredential r (sc_lock_id stored) (Some (dj_job_id job, KindOrdinary))
  else stored.

Definition register_deletion (a : AccessState) (job : ContentLockDeletionJob)
    (bundles : gmap BundleId (TaskId * bool * VerificationTaskStatus)) :
    result ApplicationError AccessState :=
  let key := (dj_creator job, dj_lock_id job) in
  _ ← reject_if (bool_decide (key ∈ acc_blocked_keys a)
                 || is_some (acc_deletion_jobs_by_key a !! key))
        ContentLockDeletionInProgress;
  let d := MkDeletionAccess (dj_creator job) (dj_lock_id job) (dj_frozen_content_lock job)
             (dj_state job) (dj_phase job) (is_some (dj_force_requested_at job))
             None None None None None None None (map_imap (λ b t, Some (freeze_bundle a job b t)) bundles) in
  Ok (MkAccessState (enrol job bundles <$> acc_records a)
        (<[dj_job_id job := d]> (acc_deletions a))
        (<[key := dj_job_id job]> (acc_deletion_jobs_by_key a))
        ({[key]} ∪ acc_blocked_keys a)
        (acc_final_credentials a)).

Definition revoke_claims (read : FinalReadState) : FinalReadState :=
  MkReadState None None (rs_consumed_at read).

Definition fcr_with_reads (c : FinalCredentialRecord) reads :=
  MkFinalCredential (fcr_lookup_key c) (fcr_encrypted_bearer c) (fcr_expires_at c) reads.

Definition revoke_job_read_claims (a : AccessState) (job_id : Uuid) : AccessState :=
  acc_with_final a
    (map_imap (λ key c, Some (if key.1 =? job_id
                              then fcr_with_reads c (revoke_claims <$> fcr_reads c) else c))
       (acc_final_credentials a)).

Definition disable_final_access := revoke_job_read_claims.
Definition disable_job_access := revoke_job_read_claims.

Definition synchronize_job (a : AccessState) (job : ContentLockDeletionJob)
    (claimed_by : option string) (claim_token : option Uuid)
    (claim_expires_at : option OffsetDateTime) : AccessState :=
  let a1 := acc_with_deletions a
    (alter (λ d, da_with_job d (dj_state job) (dj_phase job) (is_some (dj_force_requested_at job))
                   claimed_by claim_token claim_expires_at)
       (dj_job_id job) (acc_deletions a)) in
  if is_some (dj_force_requested_at job)
     || (dj_state job == DelCompleted) || (dj_state job == DelFailed)
  then disable_job_access a1 (dj_job_id job)
  else if dj_phase job == DeleteContent then disable_final_access a1 (dj_job_id job)
  else a1.

Definition block_key_and_disable_job (a : AccessState) (creator : CreatorPubky) (id : LockId)
    (job_id : option Uuid) : AccessState :=
  let a1 := acc_with_blocked a ({[(creator, id)]} ∪ acc_blocked_keys a) in
  match job_id with Some job_id => disable_job_access a1 job_id | None => a1 end.

(** * Draining *)

(** The running, unforced job in the given phase whose claim is live at [now]. *)
Definition live_claim (d : DeletionAccessState) (in_phase : ContentLockDeletionPhase → bool)
    (worker_id : string) (claim_token : Uuid) (now : OffsetDateTime) : bool :=
  (da_state d == DelRunning)
  && in_phase (da_phase d)
  && negb (da_force_requested d)
  && (da_claimed_by d == Some worker_id)
  && (da_claim_token d == Some claim_token)
  && is_some_and (λ e, now <? e) (da_claim_expires_at d).

Definition owns_live_payment_drain_claim (d : DeletionAccessState) :=
  live_claim d (λ p, p == DrainPayments).
Definition owns_live_no_paykit_claim (d : DeletionAccessState) :=
  live_claim d (λ p, (p == StartPaymentDrain) || (p == DrainPayments)).

Definition resolve_deletion_payment (a : AccessState) (job_id : Uuid) (worker_id : string)
    (claim_token : Uuid) (now : OffsetDateTime) (task_id : TaskId)
    (status : VerificationTaskStatus) : result ApplicationError (bool * AccessState) :=
  _ ← reject_if (negb ((status == Completed) || (status == Expired)))
        (InvalidVerificationTaskState "payment drain transition must be completed or expired");
  match acc_deletions a !! job_id with
  | None => Ok (false, a)
  | Some d =>
      if negb (live_claim d (λ p, p == DrainPayments) worker_id claim_token now)
      then Ok (false, a)
      else match find_entry (λ _ b, bs_task_id b == task_id) (da_bundle_snapshots d) with
      | None => Ok (false, a)
      | Some (bundle, b) =>
          if negb (bs_paykit_admission_required b) || is_some (bs_resolved_status b)
          then Ok (false, a)
          else
            let b' := bs_resolve b status now
              (then_some ((status == Completed) && negb (bs_had_active_credential_at_cutoff b))
                 now) in
            Ok (true,
                acc_with_deletions a
                  (<[job_id := da_with_snapshots d (<[bundle := b']> (da_bundle_snapshots d))]>
                     (acc_deletions a)))
      end
  end.

Definition complete_deletion_payment_aggregate (a : AccessState) (job_id : Uuid)
    (worker_id : string) (claim_token : Uuid) (now : OffsetDateTime) : bool * AccessState :=
  match acc_deletions a !! job_id with
  | None => (false, a)
  | Some d =>
      if negb (owns_live_payment_drain_claim d worker_id claim_token now) then (false, a)
      else (true,
            acc_with_deletions a
              (<[job_id := da_with_aggregate d (Some (MkAggregate true 0))]> (acc_deletions a)))
  end.

Definition unresolved_non_paykit (b : DeletionBundleSnapshot) : bool :=
  negb (bs_paykit_admission_required b) && is_none (bs_resolved_status b).

Definition is_open (s : VerificationTaskStatus) : bool := (s == Pending) || (s == InProgress).

(** [graph_records] contains the task. *)
Definition is_graph_task (f : Fence) (id : TaskId) : bool :=
  existsb (λ st, gt_task_id (sg_task st) == id) (graph_records f).

(** The v1 tasks that are still open, expired; an unknown task is an error. *)
Fixpoint expired_updates (s : TaskRepo) (now : OffsetDateTime) (ids : list TaskId) :
    result ApplicationError (list VerificationTaskRecord) :=
  match ids with
  | [] => Ok []
  | id :: ids =>
      task ← ok_or (get_verification_task s id)
               (invalid_deletion_state "frozen non-Paykit verification task is missing");
      updates ← (if is_open (tr_status task)
                 then (λ t, [t]) <$> expire task ContentLockDeleted now else Ok []);
      rest ← expired_updates s now ids;
      Ok (updates ++ rest)
  end.

Definition expire_graph_task (st : StoredGraphTask) : StoredGraphTask :=
  let t := sg_task st in
  MkStoredGraphTask
    (MkGraphTaskRecord (gt_task_id t) (gt_snapshot t) (gt_evaluator_revision t) Expired
       (gt_entitlement_to_publish t) (gt_entitlement_publication_token t) (gt_completed_at t))
    None None None (sg_next_attempt_at st).

Definition expire_graph_tasks (f : Fence) (ids : list TaskId) : Fence :=
  let hit st := bool_decide (gt_task_id (sg_task st) ∈ ids) && is_open (gt_status (sg_task st)) in
  let expired := gt_task_id ∘ sg_task <$> filter (λ st, hit st = true) (graph_records f) in
  MkFence
    (fold_left (λ m id, alter (λ r, fr_with_status r Expired) id m) expired (fence_records f))
    ((λ st, if hit st then expire_graph_task st else st) <$> graph_records f)
    (fold_left (λ m id, <[id := Expired]> m) expired (current_statuses f))
    (deletion_cutoffs f) (folded_auth_reservations f).

(** The reads and the three writes of the source, as one step under the
    repository's transition gate: the claim that was checked at the start still
    holds when the source checks it again before the last write. *)
Definition expire_unresolved_non_paykit_tasks (a : AccessState) (s : TaskRepo) (job_id : Uuid)
    (worker_id : string) (claim_token : Uuid) (now : OffsetDateTime) :
    result ApplicationError (bool * (AccessState * TaskRepo)) :=
  match acc_deletions a !! job_id with
  | None => Ok (false, (a, s))
  | Some d =>
      if negb (owns_live_no_paykit_claim d worker_id claim_token now) then Ok (false, (a, s))
      else
        let ids := bs_task_id <$> filter (λ b, unresolved_non_paykit b = true)
                                    (hash_values (da_bundle_snapshots d)) in
        let graph := filter (λ id, is_graph_task (task_fence s) id = true) ids in
        let legacy := filter (λ id, is_graph_task (task_fence s) id = false) ids in
        updates ← expired_updates s now legacy;
        s1 ← update_verification_tasks_atomically s updates;
        let s2 := repo_with_fence s1 (expire_graph_tasks (task_fence s1) graph) in
        let d' := da_with_snapshots d
          ((λ b, if unresolved_non_paykit b
                 then bs_resolve b Expired now (bs_final_credential_eligible_at b) else b)
             <$> da_bundle_snapshots d) in
        Ok (true, (acc_with_deletions a (<[job_id := d']> (acc_deletions a)), s2))
  end.

(** * Conditions of the phase changes *)

Definition payment_aggregate_completed (d : DeletionAccessState) : bool :=
  match da_payment_aggregate d with
  | None => negb (any_value bs_paykit_admission_required (da_bundle_snapshots d))
  | Some agg => agg_completed agg && (agg_accepted_count agg =? 0)
  end.

Definition enrolled_ordinary (job_id : Uuid) (now : OffsetDateTime)
    (stored : StoredCredential) : bool :=
  (sc_deletion stored == Some (job_id, KindOrdinary))
  && (now <? acr_expires_at (sc_record stored)).

Definition has_live_access_obligation (a : AccessState) (job_id : Uuid)
    (now : OffsetDateTime) : bool :=
  any_value (enrolled_ordinary job_id now) (acc_records a)
  || existsb (λ '((job, _), c),
                (job =? job_id) && (now <? fcr_expires_at c)
                && any_value (λ read, is_none (rs_consumed_at read)) (fcr_reads c))
       (map_to_list (acc_final_credentials a)).

Definition unresolved_bundle (d : DeletionAccessState) : bool :=
  any_value (λ b, is_none (bs_resolved_status b)) (da_bundle_snapshots d).
Definition unissued_bundle (d : DeletionAccessState) : bool :=
  any_value (λ b, permits_final_credential b && negb (bs_final_credential_issued b))
    (da_bundle_snapshots d).

Definition check_phase_advance (a : AccessState) (job_id : Uuid)
    (current_phase next_phase : ContentLockDeletionPhase) (now : OffsetDateTime) :
    result ApplicationError AccessPhaseAdvanceStatus :=
  match acc_deletions a !! job_id with
  | None => Ok PhaseAdvanceReady
  | Some d =>
      _ ← (if (current_phase == DrainPayments) && (next_phase == DrainExistingCredentials)
           then
             _ ← reject_if (unresolved_bundle d)
                   (invalid_deletion_state
                      "every frozen deletion obligation must be terminal before credential draining");
             reject_if (negb (payment_aggregate_completed d))
               (invalid_deletion_state
                  "payment drain aggregate must be durably completed before credential draining")
           else Ok ());
      if (current_phase == DrainExistingCredentials) && (next_phase == IssueFinalCredentials)
         && any_value (enrolled_ordinary job_id now) (acc_records a)
      then Ok AccessObligationsPending
      else if (current_phase == IssueFinalCredentials) && (next_phase == DrainFinalReads)
              && unissued_bundle d
      then Ok (if is_some_and (λ deadline, deadline <=? now) (da_issuance_deadline d)
               then FinalCredentialIssuanceMissed else AccessObligationsPending)
      else if (current_phase == DrainFinalReads) && (next_phase == DeleteContent)
              && has_live_access_obligation a job_id now
      then Ok AccessObligationsPending
      else Ok PhaseAdvanceReady
  end.

Definition check_successful_finish (a : AccessState) (job_id : Uuid)
    (phase : ContentLockDeletionPhase) (now : OffsetDateTime) : result ApplicationError () :=
  match acc_deletions a !! job_id with
  | None => Ok ()
  | Some d =>
      _ ← reject_if (phase != PurgeOperationalState)
            (invalid_deletion_state
               "successful completion requires the final operational-cleanup phase");
      _ ← reject_if (unresolved_bundle d)
            (invalid_deletion_state
               "every frozen deletion obligation must be terminal before credential draining");
      _ ← reject_if (negb (payment_aggregate_completed d))
            (invalid_deletion_state
               "payment drain aggregate must be durably completed before credential draining");
      reject_if (has_live_access_obligation a job_id now || unissued_bundle d)
        (invalid_deletion_state
           "successful completion cannot bypass deletion access obligations")
  end.

(** * Ordinary credentials *)

Definition derive_lookup_key `{Blake3} (credential : AccessCredential) :
    AccessCredentialLookupKey :=
  MkLookupKey (blake3_hash (as_bytes (AccessCredential_as_str credential))).

Definition insert_access_credential (a : AccessState) (id : LockId)
    (lookup_key : AccessCredentialLookupKey) (record : AccessCredentialRecord) :
    result ApplicationError AccessState :=
  let key := (acr_creator record, id) in
  _ ← reject_if (bool_decide (key ∈ acc_blocked_keys a)
                 || is_some (acc_deletion_jobs_by_key a !! key))
        ContentLockDeletionInProgress;
  _ ← reject_if (is_some (acc_records a !! lookup_key)) (DuplicateRecord "access_credential");
  Ok (acc_with_records a (<[lookup_key := MkStoredCredential record id None]> (acc_records a))).

Definition get_access_credential (a : AccessState) (lookup_key : AccessCredentialLookupKey) :
    option AccessCredentialRecord :=
  sc_record <$> acc_records a !! lookup_key.

Definition delete_access_credential (a : AccessState) (lookup_key : AccessCredentialLookupKey) :
    AccessState :=
  MkAccessState (delete lookup_key (acc_records a)) (acc_deletions a)
    (acc_deletion_jobs_by_key a) (acc_blocked_keys a)
    (filter (λ kv, fcr_lookup_key kv.2 ≠ lookup_key) (acc_final_credentials a)).

Definition finish_ordinary_credential_lookup (a : AccessState)
    (lookup_key : AccessCredentialLookupKey) (expected : AccessCredentialRecord)
    (invalidate : bool) : OrdinaryCredentialLookupResult * AccessState :=
  match acc_records a !! lookup_key with
  | None => (LookupMissing, a)
  | Some stored =>
      if sc_record stored != expected then (LookupMissing, a)
      else if is_some (sc_deletion stored) then (DeletionEnrolled, a)
      else if invalidate then (LookupMissing, delete_access_credential a lookup_key)
      else (OrdinaryCurrent, a)
  end.

(** * Final credentials *)

(** The first key in the given order whose entry satisfies the condition. *)
Definition find_in_order {K V} `{Countable K} (order : list K) (p : V → bool) (m : gmap K V) :
    option (K * V) :=
  snd <$> list_find (λ kv, p kv.2 = true)
            (omap (λ k, (λ v, (k, v)) <$> m !! k) order).

Definition initialize_final_access_windows `{TimeCrate} (a : AccessState) (job_id : Uuid)
    (worker_id : string) (claim_token : Uuid) (issuance_window read_window : Duration)
    (now : OffsetDateTime) :
    result ApplicationError (InitializeFinalAccessWindowsResult * AccessState) :=
  _ ← reject_if ((issuance_window <=? 0) || (read_window <=? 0))
        (Storage "final access window durations must be positive");
  match acc_deletions a !! job_id with
  | None => Ok (WindowsClaimLost, a)
  | Some d =>
      if negb (live_claim d (λ p, p == IssueFinalCredentials) worker_id claim_token now)
      then Ok (WindowsClaimLost, a)
      else match da_issuance_started_at d, da_issuance_deadline d, da_read_deadline d with
      | Some started, Some deadline, Some read =>
          Ok (Initialized (MkWindows started deadline read), a)
      | None, None, None =>
          deadline ← ok_or (time_checked_add now issuance_window)
                       (Storage "final credential issuance deadline overflow");
          read ← ok_or (time_checked_add deadline read_window)
                   (Storage "final read deadline overflow");
          Ok (Initialized (MkWindows now deadline read),
              acc_with_deletions a
                (<[job_id := da_with_windows d (Some now) (Some deadline) (Some read)]>
                   (acc_deletions a)))
      | _, _, _ => Err (Storage "incomplete final access windows in memory")
      end
  end.

(** Order of bundle identifiers as strings. *)
Definition bundle_le (x y : FinalCredentialMaterialization) : Prop :=
  String.le (BundleId_as_str (fcm_bundle_id x)) (BundleId_as_str (fcm_bundle_id y)).
#[global] Instance bundle_le_dec : RelDecision bundle_le.
Proof. intros x y. unfold bundle_le. apply _. Defined.

Definition final_credentials_to_materialize (a : AccessState) (job_id : Uuid)
    (worker_id : string) (claim_token : Uuid) (limit : nat) (now : OffsetDateTime) :
    list FinalCredentialMaterialization :=
  if Nat.eqb limit 0 then []
  else match acc_deletions a !! job_id with
  | None => []
  | Some d =>
      if negb (live_claim d (λ p, p == IssueFinalCredentials) worker_id claim_token now
               && is_some_and (λ deadline, now <? deadline) (da_issuance_deadline d))
      then []
      else
        take limit
          (merge_sort bundle_le
             ((λ '(bundle, _), MkMaterialization (da_creator d) bundle)
                <$> filter (λ '(_, b), permits_final_credential b
                                       && negb (bs_final_credential_issued b) = true)
                      (map_to_list (da_bundle_snapshots d))))
  end.

Section final_credentials.
  Context `{Blake3, Base64Url, Aead}.

(** The reads of a fresh final credential: every resource of the frozen lock. *)
Definition final_reads (lock : ContentLock) : gmap string FinalReadState :=
  let reads := match cl_primary_resource lock with
               | Some r => {[gr_path r := FinalReadState_default]}
               | None => ∅
               end in
  fold_left (λ m path, <[path := FinalReadState_default]> m)
    (btree_iter (cl_secondary_resources lock)).*1 reads.

(** The writes of an issuance, the same in both entry points. *)
Definition record_final_credential (cipher_key nonce : bytes) (a : AccessState) (job_id : Uuid)
    (d : DeletionAccessState) (creator : CreatorPubky) (bundle_id : BundleId)
    (expires_at : OffsetDateTime) (candidate : AccessCredential) :
    result ApplicationError (option IssuedDeletionCredential * AccessState) :=
  encrypted_bearer ← encrypt cipher_key nonce (MkContext job_id creator bundle_id) candidate;
  let lookup_key := derive_lookup_key candidate in
  _ ← reject_if (is_some (acc_records a !! lookup_key)) (DuplicateRecord "access_credential");
  Ok (Some (MkIssued candidate expires_at),
      MkAccessState
        (<[lookup_key :=
             MkStoredCredential (MkCredentialRecord creator bundle_id expires_at) (da_lock_id d)
               (Some (job_id, KindFinal))]> (acc_records a))
        (<[job_id := da_with_snapshots d (alter bs_issue bundle_id (da_bundle_snapshots d))]>
           (acc_deletions a))
        (acc_deletion_jobs_by_key a) (acc_blocked_keys a)
        (<[(job_id, bundle_id) :=
             MkFinalCredential lookup_key encrypted_bearer expires_at
               (final_reads (da_frozen_content_lock d))]> (acc_final_credentials a))).

(** The credential already issued for the bundle, decrypted. *)
Definition replay_final_credential (cipher_key : bytes) (a : AccessState) (job_id : Uuid)
    (creator : CreatorPubky) (bundle_id : BundleId) (existing : FinalCredentialRecord) :
    result ApplicationError (option IssuedDeletionCredential * AccessState) :=
  credential ← decrypt cipher_key (MkContext job_id creator bundle_id)
                 (fcr_encrypted_bearer existing);
  Ok (Some (MkIssued credential (fcr_expires_at existing)), a).

(** The deletion may serve final credentials: active, unforced, in the final
    phases, before the read deadline. *)
Definition final_access_open (d : DeletionAccessState) (now : OffsetDateTime) : bool :=
  negb (da_force_requested d)
  && ((da_state d == DelQueued) || (da_state d == DelRunning))
  && ((da_phase d == IssueFinalCredentials) || (da_phase d == DrainFinalReads))
  && is_some_and (λ deadline, now <? deadline) (da_read_deadline d).

Definition serves_bundle (creator : CreatorPubky) (bundle_id : BundleId)
    (d : DeletionAccessState) : bool :=
  (da_creator d == creator) && is_some (da_bundle_snapshots d !! bundle_id).

(** A final credential may be issued for the bundle now. *)
Definition may_issue (d : DeletionAccessState) (bundle_id : BundleId)
    (now : OffsetDateTime) : bool :=
  (da_phase d == IssueFinalCredentials)
  && is_some_and (λ deadline, now <? deadline) (da_issuance_deadline d)
  && is_some_and permits_final_credential (da_bundle_snapshots d !! bundle_id).

Definition issue_or_replay_final_credential (cipher_key nonce : bytes) (order : list Uuid)
    (a : AccessState) (creator : CreatorPubky) (bundle_id : BundleId)
    (candidate : AccessCredential) (now : OffsetDateTime) :
    result ApplicationError (option IssuedDeletionCredential * AccessState) :=
  match find_in_order order (serves_bundle creator bundle_id) (acc_deletions a) with
  | None => Ok (None, a)
  | Some (job_id, d) =>
      if (da_creator d != creator) || negb (final_access_open d now) then Ok (None, a)
      else match acc_final_credentials a !! (job_id, bundle_id) with
      | Some existing => replay_final_credential cipher_key a job_id creator bundle_id existing
      | None =>
          match may_issue d bundle_id now, da_read_deadline d with
          | true, Some expires_at =>
              record_final_credential cipher_key nonce a job_id d creator bundle_id expires_at
                candidate
          | _, _ => Ok (None, a)
          end
      end
  end.

Definition issue_or_replay_final_credential_for_worker (cipher_key nonce : bytes)
    (a : AccessState) (job_id : Uuid) (worker_id : string) (claim_token : Uuid)
    (creator : CreatorPubky) (bundle_id : BundleId) (candidate : AccessCredential)
    (now : OffsetDateTime) :
    result ApplicationError (option IssuedDeletionCredential * AccessState) :=
  match acc_deletions a !! job_id with
  | None => Ok (None, a)
  | Some d =>
      let owns := (da_creator d == creator)
        && live_claim d (λ p, p == IssueFinalCredentials) worker_id claim_token now
        && is_some_and (λ deadline, now <? deadline) (da_issuance_deadline d)
        && is_some_and (λ deadline, now <? deadline) (da_read_deadline d)
        && is_some_and permits_final_credential (da_bundle_snapshots d !! bundle_id) in
      match owns, acc_final_credentials a !! (job_id, bundle_id), da_read_deadline d with
      | false, _, _ => Ok (None, a)
      | true, Some existing, _ =>
          replay_final_credential cipher_key a job_id creator bundle_id existing
      | true, None, Some expires_at =>
          record_final_credential cipher_key nonce a job_id d creator bundle_id expires_at
            candidate
      | true, None, None => Ok (None, a)
      end
  end.

Definition final_credential_available (order : list Uuid) (a : AccessState)
    (creator : CreatorPubky) (bundle_id : BundleId) (now : OffsetDateTime) : bool :=
  match find_in_order order (serves_bundle creator bundle_id) (acc_deletions a) with
  | None => false
  | Some (job_id, d) =>
      if negb (final_access_open d now) then false
      else if is_some (acc_final_credentials a !! (job_id, bundle_id)) then true
      else may_issue d bundle_id now
  end.
End final_credentials.

(** * Reads under deletion *)

Definition drains_reads (p : ContentLockDeletionPhase) : bool :=
  match p with
  | Withdraw | StartPaymentDrain | DrainPayments | DrainExistingCredentials
  | IssueFinalCredentials | DrainFinalReads => true
  | DeleteContent | DeleteTombstone | PurgeOperationalState => false
  end.

Definition read_taken (read : FinalReadState) (now : OffsetDateTime) : bool :=
  is_some (rs_consumed_at read)
  || (is_some (rs_claim_token read) && is_some_and (λ e, now <? e) (rs_claim_expires_at read)).

Definition set_read (a : AccessState) (key : Uuid * BundleId) (path : string)
    (read : FinalReadState) : AccessState :=
  acc_with_final a
    (alter (λ c, fcr_with_reads c (<[path := read]> (fcr_reads c))) key
       (acc_final_credentials a)).

Definition prepare_deletion_read `{TimeCrate} (a : AccessState)
    (lookup_key : AccessCredentialLookupKey) (path : string) (claim_duration : Duration)
    (now : OffsetDateTime) (claim_token : Uuid) :
    result ApplicationError (option DeletionReadAuthorization * AccessState) :=
  match acc_records a !! lookup_key with
  | None => Ok (None, a)
  | Some stored =>
      match sc_deletion stored with
      | None => Ok (None, a)
      | Some (job_id, kind) =>
          match acc_deletions a !! job_id with
          | None => Ok (None, a)
          | Some d =>
              if (acr_expires_at (sc_record stored) <=? now) || da_force_requested d
                 || negb ((da_state d == DelQueued) || (da_state d == DelRunning))
                 || negb (drains_reads (da_phase d))
              then Ok (None, a)
              else match resource_for_path (da_frozen_content_lock d) path with
              | None => Ok (None, a)
              | Some resource =>
                  if kind == KindOrdinary
                  then Ok (Some (MkReadAuthorization None (da_creator d) resource), a)
                  else match final_access_open d now, da_read_deadline d,
                             acc_final_credentials a !! (job_id, acr_bundle_id (sc_record stored))
                       with
                  | true, Some read_deadline, Some final =>
                      match fcr_reads final !! path with
                      | None => Ok (None, a)
                      | Some read =>
                          if read_taken read now then Ok (None, a)
                          else
                            requested ← ok_or (time_checked_add now claim_duration)
                                          (Storage "final read claim expiry overflow");
                            let bounded := Z.min (Z.min (Z.min requested (now + seconds 30))
                                                    (fcr_expires_at final)) read_deadline in
                            if bounded <=? now then Ok (None, a)
                            else Ok (Some (MkReadAuthorization (Some claim_token) (da_creator d)
                                             resource),
                                     set_read a (job_id, acr_bundle_id (sc_record stored)) path
                                       (MkReadState (Some claim_token) (Some bounded)
                                          (rs_consumed_at read)))
                      end
                  | _, _, _ => Ok (None, a)
                  end
              end
          end
      end
  end.

Definition deletion_credential_enrolled (a : AccessState)
    (lookup_key : AccessCredentialLookupKey) : bool :=
  is_some_and (λ stored, is_some (sc_deletion stored)) (acc_records a !! lookup_key).

Definition final_credential_identity (a : AccessState)
    (lookup_key : AccessCredentialLookupKey) : option (Uuid * BundleId) :=
  stored ← acc_records a !! lookup_key;
  '(job_id, kind) ← sc_deletion stored;
  then_some (kind == KindFinal) (job_id, acr_bundle_id (sc_record stored)).

(** The read of a final credential, with its place. *)
Definition final_read (a : AccessState) (lookup_key : AccessCredentialLookupKey)
    (path : string) : option (Uuid * BundleId * FinalReadState) :=
  key ← final_credential_identity a lookup_key;
  credential ← acc_final_credentials a !! key;
  read ← fcr_reads credential !! path;
  Some (key, read).

Definition release_deletion_read (a : AccessState) (lookup_key : AccessCredentialLookupKey)
    (path : string) (claim_token : Uuid) : bool * AccessState :=
  match final_read a lookup_key path with
  | None => (false, a)
  | Some (key, read) =>
      if is_some (rs_consumed_at read) || (rs_claim_token read != Some claim_token)
      then (false, a)
      else (true, set_read a key path (MkReadState None None (rs_consumed_at read)))
  end.

Definition consume_deletion_read (a : AccessState) (lookup_key : AccessCredentialLookupKey)
    (path : string) (claim_token : Uuid) (now : OffsetDateTime) : bool * AccessState :=
  match final_read a lookup_key path with
  | None => (false, a)
  | Some (key, read) =>
      if is_some (rs_consumed_at read) || (rs_claim_token read != Some claim_token)
         || is_none_or (λ e, e <=? now) (rs_claim_expires_at read)
      then (false, a)
      else (true, set_read a key path (MkReadState None None (Some now)))
  end.
