(* ===== verification/AccessDrain.v ===== *)
(** What a deletion owes to the holders of credentials, and that the operations of
    the access store keep what has been settled.

    [drained] says, for the phase a deletion has reached, what is settled: from
    [DrainExistingCredentials] on every frozen bundle has its outcome, from
    [IssueFinalCredentials] on no enrolled credential is live, from
    [DrainFinalReads] on every eligible bundle has had its final credential, and
    from [DeleteContent] on every final credential is used up or expired. *)

From S2P Require Import Prelude HashMaps RustStr Externals Ids Json LockPolicy Wire Errors.
From S2P Require Import Secrets Lifecycle DeletionJob GraphTask Fence TaskStore AccessStore.

(** * The settled conditions *)

Definition no_ordinary (clock : OffsetDateTime) (a : AccessState) (job_id : Uuid) : Prop :=
  ∀ k st, acc_records a !! k = Some st → sc_deletion st = Some (job_id, KindOrdinary) →
    acr_expires_at (sc_record st) ≤ clock.

Definition reads_settled (clock : OffsetDateTime) (a : AccessState) (job_id : Uuid) : Prop :=
  ∀ b c, acc_final_credentials a !! (job_id, b) = Some c →
    fcr_expires_at c ≤ clock
    ∨ ∀ path read, fcr_reads c !! path = Some read → is_Some (rs_consumed_at read).

Definition bundles_resolved (d : DeletionAccessState) : Prop :=
  (∀ b s, da_bundle_snapshots d !! b = Some s → is_Some (bs_resolved_status s))
  ∧ payment_aggregate_completed d = true.

Definition bundles_issued (d : DeletionAccessState) : Prop :=
  ∀ b s, da_bundle_snapshots d !! b = Some s → permits_final_credential s = true →
    bs_final_credential_issued s = true.

Record drained (clock : OffsetDateTime) (a : AccessState) (job_id : Uuid)
    (d : DeletionAccessState) : Prop := {
  dr_resolved : 3 ≤ phase_index (da_phase d) → bundles_resolved d;
  dr_ordinary : 4 ≤ phase_index (da_phase d) → no_ordinary clock a job_id;
  dr_issued : 5 ≤ phase_index (da_phase d) → bundles_issued d;
  dr_reads : 6 ≤ phase_index (da_phase d) → reads_settled clock a job_id;
}.

(** The boolean conditions of the source. *)
Lemma unresolved_bundle_false d :
  unresolved_bundle d = false
  ↔ ∀ b s, da_bundle_snapshots d !! b = Some s → is_Some (bs_resolved_status s).
Proof.
  unfold unresolved_bundle. rewrite any_value_false. by setoid_rewrite is_none_false.
Qed.

Lemma unissued_bundle_false d : unissued_bundle d = false ↔ bundles_issued d.
Proof.
  unfold unissued_bundle, bundles_issued. rewrite any_value_false.
  split; intros Hall b s Hs; specialize (Hall b s Hs).
  - intros Hp. rewrite Hp in Hall. by apply negb_false_iff in Hall.
  - destruct (permits_final_credential s); [|done]. by rewrite Hall.
Qed.

Lemma enrolled_ordinary_false job_id now a :
  any_value (enrolled_ordinary job_id now) (acc_records a) = false ↔ no_ordinary now a job_id.
Proof.
  rewrite any_value_false. unfold no_ordinary, enrolled_ordinary.
  split; intros Hall k st Hst; specialize (Hall k st Hst).
  - intros Hd. rewrite Hd, eqb_same in Hall. cbn in Hall. by props.
  - destruct (sc_deletion st == Some (job_id, KindOrdinary)) eqn:E; [|done]. props. cbn.
    apply Z.ltb_ge. auto.
Qed.

Lemma has_live_access_obligation_false a job_id now :
  has_live_access_obligation a job_id now = false
  ↔ no_ordinary now a job_id ∧ reads_settled now a job_id.
Proof.
  unfold has_live_access_obligation. rewrite orb_false_iff, enrolled_ordinary_false.
  split; (intros [Ho Hr]; split; [done|]).
  - intros b c Hc. destruct (decide (fcr_expires_at c ≤ now)) as [|Hlive]; [by left|right].
    intros path read Hread. apply not_eq_None_Some. intros Hnone.
    apply not_true_iff_false in Hr. apply Hr, existsb_exists.
    exists ((job_id, b), c). split; [by apply list_elem_of_In, elem_of_map_to_list|].
    rewrite Z.eqb_refl. cbn. rewrite (proj2 (Z.ltb_lt _ _)) by lia. cbn.
    apply any_value_true. exists path, read. by rewrite Hnone.
  - apply not_true_iff_false. intros ([[job b] c] & Hin & Hb)%existsb_exists.
    apply list_elem_of_In, elem_of_map_to_list in Hin. props. subst job.
    destruct (Hr b c Hin) as [?|Hall]; [lia|].
    apply any_value_true in H0 as (path & read & Hread & Hc).
    destruct (Hall path read Hread) as [x Hx]. by rewrite Hx in Hc.
Qed.

(** Time only settles more. *)
Lemma no_ordinary_mono clock now a job_id :
  clock ≤ now → no_ordinary clock a job_id → no_ordinary now a job_id.
Proof. intros Hle Hn k st Hst Hd. specialize (Hn k st Hst Hd). lia. Qed.

Lemma reads_settled_mono clock now a job_id :
  clock ≤ now → reads_settled clock a job_id → reads_settled now a job_id.
Proof. intros Hle Hn b c Hc. destruct (Hn b c Hc); [left; lia|by right]. Qed.

(** * Frames *)

(** What the deletion repository controls of an entry. *)
Definition job_fields (d : DeletionAccessState) :=
  (da_creator d, da_lock_id d, da_frozen_content_lock d, da_state d, da_phase d,
   da_force_requested d, da_claimed_by d, da_claim_token d, da_claim_expires_at d).

(** No enrolled credential appears, and the reads of a job's final credentials are
    the old ones, some of them consumed. *)
Definition records_shrink (a a' : AccessState) (job_id : Uuid) : Prop :=
  ∀ clock, no_ordinary clock a job_id → no_ordinary clock a' job_id.
Definition reads_shrink (a a' : AccessState) (job_id : Uuid) : Prop :=
  ∀ clock, reads_settled clock a job_id → reads_settled clock a' job_id.

(** An operation of the store proper: the keys and the job fields stay, and what
    was settled stays settled. *)
Record access_frame (a a' : AccessState) : Prop := {
  af_blocked : acc_blocked_keys a' = acc_blocked_keys a;
  af_keys : acc_deletion_jobs_by_key a' = acc_deletion_jobs_by_key a;
  af_deletions : ∀ id d, acc_deletions a !! id = Some d →
    ∃ d', acc_deletions a' !! id = Some d' ∧ job_fields d' = job_fields d
          ∧ ∀ clock, drained clock a id d → drained clock a' id d';
}.

Lemma access_frame_refl a : access_frame a a.
Proof. split; [done|done|]. intros id d Hd. by exists d. Qed.

(** The bundles of an entry matter from phase 3 on. *)
Lemma drained_transfer clock a a' id d d' :
  da_phase d' = da_phase d →
  (3 ≤ phase_index (da_phase d) → da_bundle_snapshots d' = da_bundle_snapshots d
                                  ∧ da_payment_aggregate d' = da_payment_aggregate d) →
  records_shrink a a' id → reads_shrink a a' id →
  drained clock a id d → drained clock a' id d'.
Proof.
  intros Hp Hsame Hrec Hreads [H3 H4 H5 H6]. split; rewrite Hp; intros Hge.
  - destruct Hsame as [Hs Hagg]; [lia|]. specialize (H3 Hge).
    unfold bundles_resolved, payment_aggregate_completed in *. by rewrite Hs, Hagg.
  - auto.
  - destruct Hsame as [Hs _]; [lia|]. unfold bundles_issued. rewrite Hs. by apply H5.
  - auto.
Qed.

(** Operations that leave the deletions alone. *)
Lemma frame_records a a' :
  acc_blocked_keys a' = acc_blocked_keys a →
  acc_deletion_jobs_by_key a' = acc_deletion_jobs_by_key a →
  acc_deletions a' = acc_deletions a →
  (∀ id, records_shrink a a' id) → (∀ id, reads_shrink a a' id) → access_frame a a'.
Proof.
  intros Hb Hk Hd Hrec Hreads. split; [done|done|]. intros id d Hid. exists d.
  rewrite Hd. split_and!; [done|done|]. intros clock. by apply drained_transfer.
Qed.

(** Operations that rewrite one entry of the deletions. *)
Lemma frame_entry a id d d' :
  acc_deletions a !! id = Some d → job_fields d' = job_fields d →
  (3 ≤ phase_index (da_phase d) → da_bundle_snapshots d' = da_bundle_snapshots d
                                  ∧ da_payment_aggregate d' = da_payment_aggregate d) →
  access_frame a (acc_with_deletions a (<[id := d']> (acc_deletions a))).
Proof.
  intros Hd Hf Hsame. split; [done|done|]. intros id' d0 Hd0. cbn.
  destruct (decide (id' = id)) as [->|Hne].
  - rewrite lookup_insert_eq. exists d'. split; [done|]. rewrite Hd in Hd0. injection Hd0 as <-.
    split; [done|]. intros clock. apply drained_transfer; [|done|by intros ?|by intros ?].
    unfold job_fields in Hf. congruence.
  - rewrite lookup_insert_ne by done. exists d0. split_and!; [done|done|]. intros clock.
    apply drained_transfer; [done|done|by intros ?|by intros ?].
Qed.

(** ** Ordinary credentials *)

Lemma insert_access_credential_frame a id key record a' :
  insert_access_credential a id key record = Ok a' → access_frame a a'.
Proof.
  unfold insert_access_credential. intros H. peel. props.
  apply frame_records; try done; [|by intros ??]. intros job clock Hn k st. cbn.
  destruct (decide (k = key)) as [->|Hne].
  - rewrite lookup_insert_eq. by intros [= <-].
  - rewrite lookup_insert_ne by done. apply Hn.
Qed.

Lemma delete_access_credential_frame a key : access_frame a (delete_access_credential a key).
Proof.
  apply frame_records; try done.
  - intros job clock Hn k st. cbn. intros [_ Hst]%lookup_delete_Some. by eapply Hn.
  - intros job clock Hr b c. cbn. intros [Hc _]%map_lookup_filter_Some. exact (Hr b c Hc).
Qed.

Lemma finish_lookup_frame a key expected invalidate :
  access_frame a (finish_ordinary_credential_lookup a key expected invalidate).2.
Proof.
  unfold finish_ordinary_credential_lookup. destruct (acc_records a !! key) as [st|];
    [|apply access_frame_refl].
  repeat split_match; try apply access_frame_refl. apply delete_access_credential_frame.
Qed.

(** ** Claims of the drain *)

Lemma live_claim_phase d p worker token now :
  live_claim d p worker token now = true → p (da_phase d) = true.
Proof. unfold live_claim. intros H. by props. Qed.

Lemma resolve_deletion_payment_frame a job worker token now task status b a' :
  resolve_deletion_payment a job worker token now task status = Ok (b, a') → access_frame a a'.
Proof.
  unfold resolve_deletion_payment. intros H. peel. clear H.
  destruct (acc_deletions a !! job) as [d|] eqn:Hd; [|peel; apply access_frame_refl].
  destruct (live_claim d _ worker token now) eqn:Hl; cbn in H0; [|peel; apply access_frame_refl].
  apply live_claim_phase in Hl. props.
  destruct (find_entry _ _) as [[bu s]|]; [|peel; apply access_frame_refl].
  destruct (negb _ || _); peel; [apply access_frame_refl|].
  apply (frame_entry a job d); [done|done|]. rewrite Hl. cbn. lia.
Qed.

Lemma complete_aggregate_frame a job worker token now :
  access_frame a (complete_deletion_payment_aggregate a job worker token now).2.
Proof.
  unfold complete_deletion_payment_aggregate.
  destruct (acc_deletions a !! job) as [d|] eqn:Hd; [|apply access_frame_refl].
  destruct (owns_live_payment_drain_claim d worker token now) eqn:Hl; cbn;
    [|apply access_frame_refl].
  apply live_claim_phase in Hl. props. apply (frame_entry a job d); [done|done|].
  rewrite Hl. cbn. lia.
Qed.

Lemma expire_frame a s job worker token now b a' s' :
  expire_unresolved_non_paykit_tasks a s job worker token now = Ok (b, (a', s')) →
  access_frame a a'.
Proof.
  unfold expire_unresolved_non_paykit_tasks. intros H.
  destruct (acc_deletions a !! job) as [d|] eqn:Hd; [|peel; apply access_frame_refl].
  destruct (owns_live_no_paykit_claim d worker token now) eqn:Hl; cbn in H;
    [|peel; apply access_frame_refl].
  peel. apply live_claim_phase in Hl. apply (frame_entry a job d); [done|done|].
  apply orb_true_iff in Hl as [Hl|Hl]; props; rewrite Hl; cbn; lia.
Qed.

(** ** Final credentials *)

Lemma initialize_windows_frame `{TimeCrate} a job worker token issue read now w a' :
  initialize_final_access_windows a job worker token issue read now = Ok (w, a') →
  access_frame a a'.
Proof.
  unfold initialize_final_access_windows. intros H'. peel.
  destruct (acc_deletions a !! job) as [d|] eqn:Hd; [|peel; apply access_frame_refl].
  destruct (live_claim d _ worker token now) eqn:Hl; cbn in H1; [|peel; apply access_frame_refl].
  repeat (split_match in H1; try discriminate); peel; try apply access_frame_refl.
  by apply (frame_entry a job d).
Qed.

Section final_credentials.
  Context `{Blake3, Base64Url, Aead}.

(** A credential is recorded only for a deletion that is issuing. *)
Lemma record_final_credential_frame key nonce a job d creator bundle expires candidate o a' :
  acc_deletions a !! job = Some d → da_phase d = IssueFinalCredentials →
  record_final_credential key nonce a job d creator bundle expires candidate = Ok (o, a') →
  access_frame a a'.
Proof.
  intros Hd Hphase Hr. unfold record_final_credential in Hr. peel. props.
  split; [done|done|]. intros id d0 Hd0. cbn.
  assert (∀ i, records_shrink a (MkAccessState
    (<[derive_lookup_key candidate :=
         MkStoredCredential (MkCredentialRecord creator bundle expires) (da_lock_id d)
           (Some (job, KindFinal))]> (acc_records a)) ∅ ∅ ∅ ∅) i) as Hrec.
  { intros i clock Hn k st. cbn. destruct (decide (k = derive_lookup_key candidate)) as [->|].
    - rewrite lookup_insert_eq. by intros [= <-].
    - rewrite lookup_insert_ne by done. apply Hn. }
  destruct (decide (id = job)) as [->|Hne].
  - rewrite lookup_insert_eq. rewrite Hd in Hd0. injection Hd0 as <-. eexists.
    split_and!; [done|done|]. intros clock [H3' H4' _ _].
    split; cbn [da_phase da_with_snapshots]; rewrite Hphase in *; cbn; intros Hge; try lia.
    + destruct H3' as [Hres Hagg]; [cbn; lia|]. split.
      * cbn. intros b s. rewrite lookup_alter_Some. intros [(<- & s0 & Hs0 & ->)|[_ Hs]].
        -- exact (Hres bundle s0 Hs0).
        -- exact (Hres b s Hs).
      * unfold payment_aggregate_completed in *. cbn.
        destruct (da_payment_aggregate d); [done|]. apply negb_true_iff in Hagg.
        apply negb_true_iff, any_value_false. intros b s. rewrite lookup_alter_Some.
        rewrite any_value_false in Hagg.
        intros [(<- & s0 & Hs0 & ->)|[_ Hs]];
          [exact (Hagg bundle s0 Hs0)|exact (Hagg b s Hs)].
    + intros k st. apply (Hrec job clock), H4'. cbn. lia.
  - rewrite lookup_insert_ne by done. exists d0. split_and!; [done|done|].
    intros clock. apply drained_transfer; [done|done|apply Hrec|].
    intros clock' Hr' b c. cbn. rewrite lookup_insert_ne by congruence. exact (Hr' b c).
Qed.

Lemma replay_final_credential_frame key a job creator bundle existing o a' :
  replay_final_credential key a job creator bundle existing = Ok (o, a') → a' = a.
Proof.
  unfold replay_final_credential. intros (c & _ & Hr)%bind_Ok. by injection Hr.
Qed.

Lemma find_in_order_Some {K V} `{Countable K} (order : list K) (p : V → bool)
    (m : gmap K V) k v :
  find_in_order order p m = Some (k, v) → m !! k = Some v ∧ p v = true.
Proof.
  unfold find_in_order. intros ([i [k' v']] & Hf & Heq)%fmap_Some. injection Heq as -> ->.
  apply list_find_Some in Hf as (Hi & Hp & _). split; [|done].
  apply list_elem_of_lookup_2, list_elem_of_omap in Hi as (k0 & _ & Hk).
  apply fmap_Some in Hk as (v0 & Hv & Heq). by injection Heq as -> ->.
Qed.

Lemma issue_frame key nonce order a creator bundle candidate now o a' :
  issue_or_replay_final_credential key nonce order a creator bundle candidate now = Ok (o, a') →
  access_frame a a'.
Proof.
  unfold issue_or_replay_final_credential. intros Hi.
  destruct (find_in_order _ _ _) as [[job d]|] eqn:Hf; [|peel; apply access_frame_refl].
  apply find_in_order_Some in Hf as [Hd _].
  destruct (_ || _); [peel; apply access_frame_refl|].
  destruct (acc_final_credentials a !! (job, bundle)) as [existing|].
  { apply replay_final_credential_frame in Hi as ->. apply access_frame_refl. }
  destruct (may_issue d bundle now) eqn:Hm, (da_read_deadline d); try by
    (peel; apply access_frame_refl).
  unfold may_issue in Hm. props. by eapply record_final_credential_frame.
Qed.

Lemma issue_for_worker_frame key nonce a job worker token creator bundle candidate now o a' :
  issue_or_replay_final_credential_for_worker key nonce a job worker token creator bundle
    candidate now = Ok (o, a') → access_frame a a'.
Proof.
  unfold issue_or_replay_final_credential_for_worker. intros Hi.
  destruct (acc_deletions a !! job) as [d|] eqn:Hd; [|peel; apply access_frame_refl].
  destruct (_ && is_some_and permits_final_credential _) eqn:Ho;
    [|peel; apply access_frame_refl].
  destruct (acc_final_credentials a !! (job, bundle)) as [existing|].
  { apply replay_final_credential_frame in Hi as ->. apply access_frame_refl. }
  destruct (da_read_deadline d); [|peel; apply access_frame_refl].
  eapply record_final_credential_frame; [done| |done]. props.
  match goal with Hl : live_claim _ _ _ _ _ = true |- _ => apply live_claim_phase in Hl end.
  by props.
Qed.
End final_credentials.

(** ** Reads *)

Lemma set_read_frame a key path read read' :
  (∃ c, acc_final_credentials a !! key = Some c ∧ fcr_reads c !! path = Some read) →
  (is_Some (rs_consumed_at read) → is_Some (rs_consumed_at read')) →
  access_frame a (set_read a key path read').
Proof.
  intros (c & Hc & Hread) Hcons. apply frame_records; try done; [by intros ??|].
  intros job clock Hr b c'. cbn. rewrite lookup_alter_Some.
  intros [(-> & c0 & Hc0 & ->)|[_ Hc']]; [|exact (Hr b c' Hc')].
  rewrite Hc in Hc0. injection Hc0 as <-. destruct (Hr b c Hc) as [?|Hall]; [by left|right].
  intros p r. cbn. destruct (decide (p = path)) as [->|Hne].
  - rewrite lookup_insert_eq. intros [= <-]. by eapply Hcons, Hall.
  - rewrite lookup_insert_ne by done. apply Hall.
Qed.

Lemma prepare_read_frame `{TimeCrate} a key path duration now token o a' :
  prepare_deletion_read a key path duration now token = Ok (o, a') → access_frame a a'.
Proof.
  unfold prepare_deletion_read. intros Hp.
  repeat (split_match in Hp; try (injection Hp as <- <-; apply access_frame_refl)).
  apply bind_Ok in Hp as (requested & _ & Hp).
  split_match in Hp; injection Hp as <- <-; [apply access_frame_refl|].
  eapply set_read_frame; [eauto|done].
Qed.

Lemma final_read_Some a key path k read :
  final_read a key path = Some (k, read) →
  ∃ c, acc_final_credentials a !! k = Some c ∧ fcr_reads c !! path = Some read.
Proof.
  unfold final_read. intros (k' & _ & H)%bind_Some.
  apply bind_Some in H as (c & Hc & H). apply bind_Some in H as (r & Hr & H).
  injection H as -> ->. eauto.
Qed.

Lemma release_read_frame a key path token :
  access_frame a (release_deletion_read a key path token).2.
Proof.
  unfold release_deletion_read. destruct (final_read a key path) as [[k read]|] eqn:Hf;
    [|apply access_frame_refl].
  apply final_read_Some in Hf. split_match; [apply access_frame_refl|].
  by eapply set_read_frame.
Qed.

Lemma consume_read_frame a key path token now :
  access_frame a (consume_deletion_read a key path token now).2.
Proof.
  unfold consume_deletion_read. destruct (final_read a key path) as [[k read]|] eqn:Hf;
    [|apply access_frame_refl].
  apply final_read_Some in Hf. split_match; [apply access_frame_refl|].
  eapply set_read_frame; [done|]. cbn. eauto.
Qed.
