(* ===== verification/DeletionStore.v ===== *)
(** The in-memory deletion repository
    ([locks-service/src/infrastructure/memory/content_lock_deletions.rs]):
    publication intents, deletion jobs with leases and phases, and permanent force
    receipts, on the fence, the task repository, the access credentials and the
    path ownership it shares with the other components.

    Clock readings and fresh UUIDs are arguments; [claim_next] takes the order in
    which it finds the jobs.  Operations that hold the transition gate are steps. *)

From S2P Require Import Prelude HashMaps RustStr Externals Ids Json LockPolicy Wire Errors.
From S2P Require Import Secrets Lifecycle Ownership DeletionJob GraphTask Fence TaskStore.
From S2P Require Import AccessStore.

(** * Data *)

Record StoredJob := MkStoredJob {
  sj_job : ContentLockDeletionJob;
  sj_claimed_by : option string;
  sj_claim_token : option Uuid;
  sj_claim_expires_at : option OffsetDateTime;
}.

Record PublicationIntent := MkPublicationIntent {
  pi_token : Uuid;
  pi_write_completed : bool;
  pi_original_content_lock : ContentLock;
}.

Record ContentLockDeletionActionClaim := MkActionClaim {
  ac_job_id : Uuid;
  ac_worker_id : string;
  ac_claim_token : Uuid;
  ac_expected_phase : ContentLockDeletionPhase;
  ac_force : bool;
}.

Record DeletionRepo := MkDeletionRepo {
  del_jobs : gmap (CreatorPubky * LockId) StoredJob;
  del_receipts : gmap (CreatorPubky * LockId) ForceDeletionReceipt;
  del_intents : gmap (CreatorPubky * LockId) PublicationIntent;
  del_ownership : OwnershipRecords;
  del_tasks : TaskRepo;
  del_access : AccessState;
}.

Definition DeletionRepo_new : DeletionRepo :=
  MkDeletionRepo ∅ ∅ ∅ ∅ TaskRepo_new AccessState_new.

Definition del_fence (r : DeletionRepo) : Fence := task_fence (del_tasks r).

Definition del_with_intents (r : DeletionRepo) m :=
  MkDeletionRepo (del_jobs r) (del_receipts r) m (del_ownership r) (del_tasks r) (del_access r).
Definition del_with_receipts (r : DeletionRepo) m :=
  MkDeletionRepo (del_jobs r) m (del_intents r) (del_ownership r) (del_tasks r) (del_access r).
Definition del_with_tasks (r : DeletionRepo) t :=
  MkDeletionRepo (del_jobs r) (del_receipts r) (del_intents r) (del_ownership r) t (del_access r).
Definition del_with_access (r : DeletionRepo) a :=
  MkDeletionRepo (del_jobs r) (del_receipts r) (del_intents r) (del_ownership r) (del_tasks r) a.

(** Lifecycle fields of a job. *)
Definition dj_with (j : ContentLockDeletionJob) (state : ContentLockDeletionState)
    (phase : ContentLockDeletionPhase) (attempts : Z) (next : option OffsetDateTime)
    (force : option OffsetDateTime) (failure : option ContentLockDeletionFailureCode) :=
  MkDeletionJob (dj_job_id j) (dj_creator j) (dj_lock_id j) (dj_frozen_content_lock j)
    (dj_deletion_started_at j) state phase attempts next force failure.

Definition unclaimed_job (j : ContentLockDeletionJob) : StoredJob :=
  MkStoredJob j None None None.

Definition has_job (r : DeletionRepo) key : bool := is_some (del_jobs r !! key).
Definition has_receipt (r : DeletionRepo) key : bool := is_some (del_receipts r !! key).
Definition has_intent (r : DeletionRepo) key : bool := is_some (del_intents r !! key).

(** Write a job back and tell the access store. *)
Definition store_job (r : DeletionRepo) (key : CreatorPubky * LockId) (sj : StoredJob) :
    DeletionRepo :=
  MkDeletionRepo (<[key := sj]> (del_jobs r)) (del_receipts r) (del_intents r) (del_ownership r)
    (del_tasks r)
    (synchronize_job (del_access r) (sj_job sj) (sj_claimed_by sj) (sj_claim_token sj)
       (sj_claim_expires_at sj)).

(** * Claims *)

Definition is_claimable (sj : StoredJob) (now : OffsetDateTime) : bool :=
  match dj_state (sj_job sj) with
  | DelQueued => is_none_or (λ due, due <=? now) (dj_next_attempt_at (sj_job sj))
  | DelRunning => is_some_and (λ e, e <=? now) (sj_claim_expires_at sj)
  | DelCompleted | DelFailed => false
  end.

Definition owns_claim (sj : StoredJob) (job_id : Uuid) (worker_id : string)
    (claim_token : Uuid) (now : OffsetDateTime) : bool :=
  (dj_job_id (sj_job sj) =? job_id)
  && (dj_state (sj_job sj) == DelRunning)
  && (sj_claimed_by sj == Some worker_id)
  && (sj_claim_token sj == Some claim_token)
  && is_some_and (λ e, now <? e) (sj_claim_expires_at sj).

Definition find_owned (r : DeletionRepo) (job_id : Uuid) (worker_id : string)
    (claim_token : Uuid) (now : OffsetDateTime) :
    option ((CreatorPubky * LockId) * StoredJob) :=
  find_entry (λ _ sj, owns_claim sj job_id worker_id claim_token now) (del_jobs r).

Definition action_claim_is_live (r : DeletionRepo) (claim : ContentLockDeletionActionClaim)
    (now : OffsetDateTime) : bool :=
  any_value
    (λ sj, (dj_job_id (sj_job sj) =? ac_job_id claim)
           && (dj_state (sj_job sj) == DelRunning)
           && (dj_phase (sj_job sj) == ac_expected_phase claim)
           && (sj_claimed_by sj == Some (ac_worker_id claim))
           && (sj_claim_token sj == Some (ac_claim_token claim))
           && is_some_and (λ e, now <? e) (sj_claim_expires_at sj)
           && eqb (is_some (dj_force_requested_at (sj_job sj))) (ac_force claim))
    (del_jobs r).

Definition synchronous_force_action_is_live (r : DeletionRepo) (job_id : Uuid) : bool :=
  match find_entry (λ _ sj, dj_job_id (sj_job sj) =? job_id) (del_jobs r) with
  | None => false
  | Some (key, sj) =>
      if negb ((dj_state (sj_job sj) == DelFailed) || (dj_state (sj_job sj) == DelCompleted))
      then false
      else is_some_and (λ receipt, is_none (fdr_completed_at receipt)) (del_receipts r !! key)
  end.

Definition withdrawing (job_id : Uuid) (sj : StoredJob) : bool :=
  (dj_job_id (sj_job sj) =? job_id)
  && ((dj_state (sj_job sj) == DelQueued) || (dj_state (sj_job sj) == DelRunning))
  && (dj_phase (sj_job sj) == Withdraw)
  && is_none (dj_force_requested_at (sj_job sj)).

Definition graceful_withdrawal_action_is_live (r : DeletionRepo) (job_id : Uuid) : bool :=
  any_value (withdrawing job_id) (del_jobs r).

(** * Publication intents *)

Section publication.
  Context `{Base32, Blake3, JsonCanonicalizer}.

Definition begin_publication (r : DeletionRepo) (creator : CreatorPubky) (id : LockId)
    (publication_token : Uuid) (original : ContentLock) :
    result ApplicationError DeletionRepo :=
  _ ← reject_if (negb (publication_intent_matches_request creator id original original))
        (Storage "content lock publication intent identity mismatch");
  let key := (creator, id) in
  _ ← reject_if (has_job r key || has_receipt r key) ContentLockDeletionInProgress;
  _ ← reject_if (has_intent r key)
        (ContentLockPathConflict "content lock publication in progress");
  Ok (del_with_intents r
        (<[key := MkPublicationIntent publication_token false original]> (del_intents r))).

Definition mark_publication_written (r : DeletionRepo) (creator : CreatorPubky) (id : LockId)
    (publication_token : Uuid) : bool * DeletionRepo :=
  match del_intents r !! (creator, id) with
  | None => (false, r)
  | Some intent =>
      if negb (pi_token intent =? publication_token) then (false, r)
      else (true, del_with_intents r
                    (<[(creator, id) := MkPublicationIntent (pi_token intent) true
                                          (pi_original_content_lock intent)]> (del_intents r)))
  end.

Definition remove_publication_intent (r : DeletionRepo) (creator : CreatorPubky) (id : LockId)
    (publication_token : Uuid) : bool * DeletionRepo :=
  if is_none_or (λ intent, negb (pi_token intent =? publication_token))
       (del_intents r !! (creator, id))
  then (false, r)
  else (true, del_with_intents r (delete (creator, id) (del_intents r))).

Definition abandon_publication := remove_publication_intent.

Definition compensate_publication (r : DeletionRepo) (creator : CreatorPubky) (id : LockId)
    (publication_token : Uuid) : bool * DeletionRepo :=
  match del_intents r !! (creator, id) with
  | None => (false, r)
  | Some intent =>
      if negb (pi_token intent =? publication_token) || pi_write_completed intent then (false, r)
      else (true,
            MkDeletionRepo (del_jobs r) (del_receipts r) (delete (creator, id) (del_intents r))
              (compensate_reserved_paths (del_ownership r) creator
                 (publication_guarded_paths (pi_original_content_lock intent)) id)
              (del_tasks r) (del_access r))
  end.

Definition reconcile_publication (r : DeletionRepo) (creator : CreatorPubky) (id : LockId)
    (published : ContentLock) (published_guarded_paths : list string) : bool * DeletionRepo :=
  if negb (publication_reconciliation_matches creator id published published_guarded_paths)
  then (false, r)
  else if negb (is_some_and (λ intent, pi_write_completed intent
                                       && (pi_original_content_lock intent == published))
                  (del_intents r !! (creator, id)))
  then (false, r)
  else (true, del_with_intents r (delete (creator, id) (del_intents r))).

Definition publication_in_progress (r : DeletionRepo) (creator : CreatorPubky) (id : LockId) :
    result ApplicationError bool :=
  let key := (creator, id) in
  _ ← reject_if (has_job r key || has_receipt r key) ContentLockDeletionInProgress;
  Ok (has_intent r key).

Definition recover_publication (r : DeletionRepo) (creator : CreatorPubky) (id : LockId)
    (requested : ContentLock) : result ApplicationError PublicationRecovery :=
  let key := (creator, id) in
  _ ← reject_if (has_job r key || has_receipt r key) ContentLockDeletionInProgress;
  match del_intents r !! key with
  | None => Ok RecoveryNone
  | Some intent =>
      if negb (publication_intent_matches_request creator id (pi_original_content_lock intent)
                 requested)
      then Ok RecoveryRequestMismatch
      else if pi_write_completed intent
      then Ok (RecoveryWriteCompleted (pi_token intent) (pi_original_content_lock intent))
      else Ok (RecoveryPending (pi_token intent) (pi_original_content_lock intent))
  end.
End publication.

(** * Jobs *)

Definition task_of_lock (creator : CreatorPubky) (id : LockId) (t : TaskFenceRecord) : bool :=
  (fr_creator t == creator) && (fr_lock_id t == id).

Definition fr_with_deletion (r : TaskFenceRecord) (job_id : Uuid) : TaskFenceRecord :=
  MkTaskFenceRecord (fr_creator r) (fr_lock_id r) (fr_bundle_id r)
    (fr_paykit_admission_required r) (fr_invoice_admission_ready r) (fr_status r)
    (fr_publication_claim_token r) (Some job_id).

(** The bundles of the lock's tasks, with what the deletion freezes of them. *)
Definition snapshot_bundles (f : Fence) (creator : CreatorPubky) (id : LockId) :
    gmap BundleId (TaskId * bool * VerificationTaskStatus) :=
  list_to_map
    ((λ '(task_id, t), (fr_bundle_id t, (task_id, fr_paykit_admission_required t, fr_status t)))
       <$> filter (λ '(_, t), task_of_lock creator id t = true) (map_to_list (fence_records f))).

Section jobs.
  Context `{Base32, Blake3, JsonCanonicalizer, CanonicalizationError}.

Definition insert_job (r : DeletionRepo) (job : ContentLockDeletionJob) (now : OffsetDateTime) :
    result ApplicationError DeletionRepo :=
  _ ← validate_frozen_identity job;
  _ ← validate_job_state job false;
  let key := (dj_creator job, dj_lock_id job) in
  let job := MkDeletionJob (dj_job_id job) (dj_creator job) (dj_lock_id job)
               (dj_frozen_content_lock job) now (dj_state job) (dj_phase job)
               (dj_attempt_count job) (dj_next_attempt_at job) (dj_force_requested_at job)
               (dj_failure_code job) in
  _ ← reject_if (has_intent r key) ContentLockPublicationInProgress;
  _ ← reject_if (has_receipt r key) ContentLockDeletionInProgress;
  _ ← reject_if (has_job r key
                 || any_value (λ sj, dj_job_id (sj_job sj) =? dj_job_id job) (del_jobs r))
        (DuplicateRecord "content_lock_deletion_job");
  let f := del_fence r in
  let owned := task_of_lock (dj_creator job) (dj_lock_id job) in
  _ ← reject_if (any_value (λ t, owned t && is_some (fr_publication_claim_token t))
                   (fence_records f)) ContentLockDeletionInProgress;
  access ← register_deletion (del_access r) job
             (snapshot_bundles f (dj_creator job) (dj_lock_id job));
  let f' := fence_with_records f
    ((λ t, if owned t then fr_with_deletion t (dj_job_id job) else t) <$> fence_records f) in
  Ok (MkDeletionRepo (<[key := unclaimed_job job]> (del_jobs r)) (del_receipts r)
        (del_intents r) (del_ownership r) (repo_with_fence (del_tasks r) f') access).

Definition sj_has_active_lease (sj : StoredJob) : bool :=
  is_some (sj_claimed_by sj) && is_some (sj_claim_token sj) && is_some (sj_claim_expires_at sj).

Definition get_job (r : DeletionRepo) (creator : CreatorPubky) (id : LockId) :
    result ApplicationError (option ContentLockDeletionJob) :=
  match del_jobs r !! (creator, id) with
  | None => Ok None
  | Some sj =>
      _ ← validate_frozen_identity (sj_job sj);
      _ ← validate_job_state (sj_job sj) (sj_has_active_lease sj);
      Ok (Some (sj_job sj))
  end.
End jobs.

(** [order]: the keys of the jobs in the order the map yields them. *)
Definition claim_next (r : DeletionRepo) (order : list (CreatorPubky * LockId))
    (worker_id : string) (claim_ttl : Duration) (now : OffsetDateTime) (claim_token : Uuid) :
    option ClaimedContentLockDeletionJob * DeletionRepo :=
  let claim_expires_at := now + claim_ttl in
  match min_by (λ a b, dj_deletion_started_at (sj_job a.2) <? dj_deletion_started_at (sj_job b.2))
          (filter (λ kv, is_claimable kv.2 now = true)
             (omap (λ key, (λ sj, (key, sj)) <$> del_jobs r !! key) order)) with
  | None => (None, r)
  | Some (key, sj) =>
      let j := sj_job sj in
      let j' := dj_with j DelRunning (dj_phase j)
                  (saturating_add U32_MAX (dj_attempt_count j) 1) None
                  (dj_force_requested_at j) (dj_failure_code j) in
      (Some (MkClaimedDeletionJob j' claim_token),
       store_job r key
         (MkStoredJob j' (Some worker_id) (Some claim_token) (Some claim_expires_at)))
  end.

Definition schedule_retry (r : DeletionRepo) (job_id : Uuid) (worker_id : string)
    (claim_token : Uuid) (retry_after : Duration) (now : OffsetDateTime) :
    option ContentLockDeletionJob * DeletionRepo :=
  match find_owned r job_id worker_id claim_token now with
  | None => (None, r)
  | Some (key, sj) =>
      let j := sj_job sj in
      let j' := dj_with j DelQueued (dj_phase j) (dj_attempt_count j) (Some (now + retry_after))
                  (dj_force_requested_at j) (dj_failure_code j) in
      (Some j', store_job r key (unclaimed_job j'))
  end.

Definition defer (r : DeletionRepo) (job_id : Uuid) (worker_id : string)
    (claim_token : Uuid) (defer_for : Duration) (now : OffsetDateTime) :
    option ContentLockDeletionJob * DeletionRepo :=
  match find_owned r job_id worker_id claim_token now with
  | None => (None, r)
  | Some (key, sj) =>
      let j := sj_job sj in
      let j' := dj_with j DelQueued (dj_phase j) (saturating_sub (dj_attempt_count j) 1)
                  (Some (now + defer_for)) (dj_force_requested_at j) (dj_failure_code j) in
      (Some j', store_job r key (unclaimed_job j'))
  end.

(** A paid task of the job whose invoice is still being admitted. *)
Definition admission_open (job_id : Uuid) (t : TaskFenceRecord) : bool :=
  (fr_deletion_job_id t == Some job_id) && fr_paykit_admission_required t
  && negb (fr_invoice_admission_ready t) && (fr_status t != Failed).

Definition advance_phase (r : DeletionRepo) (job_id : Uuid) (worker_id : string)
    (claim_token : Uuid) (next_phase : ContentLockDeletionPhase) (now : OffsetDateTime) :
    result ApplicationError (AdvanceContentLockDeletionPhaseResult * DeletionRepo) :=
  match find_owned r job_id worker_id claim_token now with
  | None => Ok (AdvanceClaimLost, r)
  | Some (key, sj) =>
      let j := sj_job sj in
      _ ← reject_if (negb (permits (dj_phase j) next_phase))
            (InvalidContentLockDeletionState
               "deletion phase must advance to its immediate successor");
      if (next_phase == StartPaymentDrain)
         && any_value (admission_open job_id) (fence_records (del_fence r))
      then Ok (ObligationsPending, r)
      else
        status ← check_phase_advance (del_access r) job_id (dj_phase j) next_phase now;
        match status with
        | AccessObligationsPending => Ok (ObligationsPending, r)
        | FinalCredentialIssuanceMissed => Ok (TerminalFailure StateCorrupt, r)
        | PhaseAdvanceReady =>
            let j' := dj_with j DelQueued next_phase 0 None (dj_force_requested_at j) None in
            Ok (Advanced j', store_job r key (unclaimed_job j'))
        end
  end.

Definition del_expire_unresolved_non_paykit_tasks (r : DeletionRepo) (job_id : Uuid)
    (worker_id : string) (claim_token : Uuid) (now : OffsetDateTime) :
    result ApplicationError (bool * DeletionRepo) :=
  '(b, (a, t)) ← expire_unresolved_non_paykit_tasks (del_access r) (del_tasks r) job_id worker_id
                   claim_token now;
  Ok (b, del_with_access (del_with_tasks r t) a).

Definition has_paykit_snapshots (r : DeletionRepo) (job_id : Uuid) : bool :=
  any_value (λ t, (fr_deletion_job_id t == Some job_id) && fr_paykit_admission_required t)
    (fence_records (del_fence r)).

Definition finish (r : DeletionRepo) (job_id : Uuid) (worker_id : string) (claim_token : Uuid)
    (failure_code : option ContentLockDeletionFailureCode) (now : OffsetDateTime) :
    result ApplicationError (option ContentLockDeletionJob * DeletionRepo) :=
  match find_owned r job_id worker_id claim_token now with
  | None => Ok (None, r)
  | Some (key, sj) =>
      let j := sj_job sj in
      _ ← (if is_none failure_code
           then check_successful_finish (del_access r) job_id (dj_phase j) now else Ok ());
      let j' := dj_with j (if is_some failure_code then DelFailed else DelCompleted) (dj_phase j)
                  (dj_attempt_count j) None (dj_force_requested_at j) failure_code in
      Ok (Some j', store_job r key (unclaimed_job j'))
  end.

Definition fail_graceful_withdrawal (r : DeletionRepo) (job_id : Uuid)
    (failure_code : ContentLockDeletionFailureCode) :
    option ContentLockDeletionJob * DeletionRepo :=
  match find_entry (λ _ sj, withdrawing job_id sj) (del_jobs r) with
  | None => (None, r)
  | Some (key, sj) =>
      let j := sj_job sj in
      let j' := dj_with j DelFailed (dj_phase j) (dj_attempt_count j) None
                  (dj_force_requested_at j) (Some failure_code) in
      (Some j', store_job r key (unclaimed_job j'))
  end.

(** The job back in the queue, in its phase. *)
Definition requeued (j : ContentLockDeletionJob) (force : option OffsetDateTime) :=
  dj_with j DelQueued (dj_phase j) 0 None force None.

Definition resume_failed_job (r : DeletionRepo) (creator : CreatorPubky) (id : LockId) :
    option ContentLockDeletionJob * DeletionRepo :=
  let key := (creator, id) in
  match has_receipt r key, del_jobs r !! key with
  | true, _ | _, None => (None, r)
  | false, Some sj =>
      let j := sj_job sj in
      if dj_state j == DelFailed
      then let j' := requeued j (dj_force_requested_at j) in
           (Some j', store_job r key (unclaimed_job j'))
      else (* the source passes no claim here, whatever the job's lease *)
           (Some j,
            del_with_access r (synchronize_job (del_access r) j None None None))
  end.

(** * Force *)

Definition prepare_force_deletion_with_manifest (r : DeletionRepo) (creator : CreatorPubky)
    (id : LockId) (frozen : option ContentLock) (forced_at : OffsetDateTime) :
    PrepareForceDeletionResult * DeletionRepo :=
  let key := (creator, id) in
  if has_intent r key then (PublicationInProgress, r)
  else
    let publishing := any_value
      (λ t, task_of_lock creator id t && is_some (fr_deletion_job_id t)
            && is_some (fr_publication_claim_token t)) (fence_records (del_fence r)) in
    match del_receipts r !! key with
    | Some receipt =>
        let receipt' :=
          if is_none (fdr_completed_at receipt) && is_none (fdr_frozen_content_lock receipt)
             && is_some frozen
          then MkReceipt (fdr_creator receipt) (fdr_lock_id receipt) frozen
                 (fdr_forced_at receipt) (fdr_completed_at receipt)
          else receipt in
        (ForceSynchronous (sj_job <$> del_jobs r !! key),
         del_with_receipts r (<[key := receipt']> (del_receipts r)))
    | None =>
        match del_jobs r !! key with
        | Some sj =>
            let j := sj_job sj in
            if publishing then
              if dj_state j != DelFailed then (PublicationInProgress, r)
              else let j' := requeued j (dj_force_requested_at j) in
                   (ForceActive j', store_job r key (unclaimed_job j'))
            else if (dj_state j == DelQueued) || (dj_state j == DelRunning)
            then let j' := requeued j (get_or_insert (dj_force_requested_at j) forced_at) in
                 (ForceActive j', store_job r key (unclaimed_job j'))
            else (ForceSynchronous (Some j),
                  MkDeletionRepo (del_jobs r)
                    (<[key := MkReceipt creator id (Some (dj_frozen_content_lock j)) forced_at
                                None]> (del_receipts r))
                    (del_intents r) (del_ownership r) (del_tasks r)
                    (block_key_and_disable_job (del_access r) creator id (Some (dj_job_id j))))
        | None =>
            (ForceSynchronous None,
             MkDeletionRepo (del_jobs r)
               (<[key := MkReceipt creator id frozen forced_at None]> (del_receipts r))
               (del_intents r) (del_ownership r) (del_tasks r)
               (block_key_and_disable_job (del_access r) creator id None))
        end
    end.

Definition prepare_force_deletion (r : DeletionRepo) (creator : CreatorPubky) (id : LockId)
    (forced_at : OffsetDateTime) : PrepareForceDeletionResult * DeletionRepo :=
  prepare_force_deletion_with_manifest r creator id None forced_at.

Definition get_force_receipt (r : DeletionRepo) (creator : CreatorPubky) (id : LockId) :
    option ForceDeletionReceipt := del_receipts r !! (creator, id).

Definition complete_synchronous_force_deletion (r : DeletionRepo) (creator : CreatorPubky)
    (id : LockId) (completed_at : OffsetDateTime) : bool * DeletionRepo :=
  match del_receipts r !! (creator, id) with
  | None => (false, r)
  | Some receipt =>
      (true, del_with_receipts r
               (<[(creator, id) :=
                    MkReceipt (fdr_creator receipt) (fdr_lock_id receipt)
                      (fdr_frozen_content_lock receipt) (fdr_forced_at receipt)
                      (get_or_insert (fdr_completed_at receipt) completed_at)]>
                  (del_receipts r)))
  end.

Definition complete_force_deletion (r : DeletionRepo) (job_id : Uuid) (worker_id : string)
    (claim_token : Uuid) (now : OffsetDateTime) : bool * DeletionRepo :=
  match find_entry (λ _ sj, dj_job_id (sj_job sj) =? job_id) (del_jobs r) with
  | None => (false, r)
  | Some (key, sj) =>
      if negb (owns_claim sj job_id worker_id claim_token now) then (false, r)
      else match dj_force_requested_at (sj_job sj) with
      | None => (false, r)
      | Some forced_at =>
          (true,
           MkDeletionRepo (delete key (del_jobs r))
             (<[key := MkReceipt key.1 key.2 (Some (dj_frozen_content_lock (sj_job sj)))
                         forced_at (Some now)]> (del_receipts r))
             (del_intents r) (del_ownership r) (del_tasks r)
             (block_key_and_disable_job (del_access r) key.1 key.2 (Some job_id)))
      end
  end.

Definition has_force_receipt (r : DeletionRepo) (creator : CreatorPubky) (id : LockId) : bool :=
  has_receipt r (creator, id).
