(* ===== verification/DeletionInv.v ===== *)
(** The invariant of the deletion repository and the histories of its jobs.

    A deletion and a publication of the same lock exclude each other; a job's
    fields, lease and entry in the access store agree; and a job is in a phase only
    when everything the earlier phases owe has been settled.  Steps are the
    operations of the repository and of the access store at non-decreasing clock
    readings, with arbitrary changes of the tasks and of path ownership between
    them. *)

From S2P Require Import Prelude HashMaps RustStr Externals Ids Json LockPolicy Wire Errors.
From S2P Require Import Secrets Lifecycle Ownership DeletionJob GraphTask Fence TaskStore.
From S2P Require Import AccessStore AccessDrain DeletionStore.

Section invariant.
  Context `{Base32, Blake3, JsonCanonicalizer, CanonicalizationError, TimeCrate, Base64Url, Aead}.

(** * The invariant *)

Definition leased (sj : StoredJob) : Prop :=
  is_Some (sj_claimed_by sj) ∧ is_Some (sj_claim_token sj) ∧ is_Some (sj_claim_expires_at sj).
Definition unleased (sj : StoredJob) : Prop :=
  sj_claimed_by sj = None ∧ sj_claim_token sj = None ∧ sj_claim_expires_at sj = None.

(** The access store follows the job; of its claim it knows all or nothing. *)
Record mirrors (sj : StoredJob) (d : DeletionAccessState) : Prop := {
  mi_creator : da_creator d = dj_creator (sj_job sj);
  mi_lock_id : da_lock_id d = dj_lock_id (sj_job sj);
  mi_frozen : da_frozen_content_lock d = dj_frozen_content_lock (sj_job sj);
  mi_state : da_state d = dj_state (sj_job sj);
  mi_phase : da_phase d = dj_phase (sj_job sj);
  mi_force : da_force_requested d = is_some (dj_force_requested_at (sj_job sj));
  mi_claim : (da_claimed_by d, da_claim_token d, da_claim_expires_at d)
               = (sj_claimed_by sj, sj_claim_token sj, sj_claim_expires_at sj)
             ∨ (da_claimed_by d, da_claim_token d, da_claim_expires_at d) = (None, None, None);
}.

Record job_ok (clock : OffsetDateTime) (a : AccessState) (key : CreatorPubky * LockId)
    (sj : StoredJob) : Prop := {
  jo_key : key = (dj_creator (sj_job sj), dj_lock_id (sj_job sj));
  jo_identity : validate_frozen_identity (sj_job sj) = Ok ();
  jo_state : job_state_valid (sj_job sj) (sj_has_active_lease sj) = true;
  jo_lease : leased sj ∨ unleased sj;
  jo_done : dj_state (sj_job sj) = DelCompleted →
    dj_phase (sj_job sj) = PurgeOperationalState;
  jo_access : ∃ d, acc_deletions a !! dj_job_id (sj_job sj) = Some d ∧ mirrors sj d
                   ∧ drained clock a (dj_job_id (sj_job sj)) d;
}.

Definition final_state (s : ContentLockDeletionState) : Prop := s = DelCompleted ∨ s = DelFailed.

Record repo_ok (clock : OffsetDateTime) (r : DeletionRepo) : Prop := {
  ro_jobs : ∀ key sj, del_jobs r !! key = Some sj → job_ok clock (del_access r) key sj;
  ro_ids : ∀ k1 k2 sj1 sj2, del_jobs r !! k1 = Some sj1 → del_jobs r !! k2 = Some sj2 →
    dj_job_id (sj_job sj1) = dj_job_id (sj_job sj2) → k1 = k2;
  ro_exclusive : ∀ key, is_Some (del_intents r !! key) →
    del_jobs r !! key = None ∧ del_receipts r !! key = None;
  ro_blocked : ∀ key, key ∈ acc_blocked_keys (del_access r)
    ↔ is_Some (del_jobs r !! key) ∨ is_Some (del_receipts r !! key);
  ro_keys : ∀ key, is_Some (acc_deletion_jobs_by_key (del_access r) !! key) →
    key ∈ acc_blocked_keys (del_access r);
  ro_final : ∀ key sj, del_jobs r !! key = Some sj → is_Some (del_receipts r !! key) →
    final_state (dj_state (sj_job sj));
}.

(** * Changes outside the jobs *)

Lemma drained_mono clock now a id d : clock ≤ now → drained clock a id d → drained now a id d.
Proof.
  intros Hle [D3 D4 D5 D6]. split; [done| |done|].
  - intros Hp. eapply no_ordinary_mono; eauto.
  - intros Hp. eapply reads_settled_mono; eauto.
Qed.

Lemma mirrors_fields sj d d' : job_fields d' = job_fields d → mirrors sj d → mirrors sj d'.
Proof.
  unfold job_fields. intros Hf [D1 D2 D3 D4 D5 D6 D7]. injection Hf as Hc Hl Hfr Hs Hp Hg Hb Ht He.
  split; rewrite ?Hc, ?Hl, ?Hfr, ?Hs, ?Hp, ?Hg, ?Hb, ?Ht, ?He; assumption.
Qed.

Lemma job_ok_frame clock now a a' key sj :
  clock ≤ now → access_frame a a' → job_ok clock a key sj → job_ok now a' key sj.
Proof.
  intros Hle Hframe [Hk Hi Hs Hl Hdone (d & Hd & Hm & Hdr)]. split; try done.
  destruct (af_deletions _ _ Hframe _ _ Hd) as (d' & Hd' & Hf & Hkeep).
  exists d'. split_and!; [done|by eapply mirrors_fields|].
  by eapply drained_mono, Hkeep.
Qed.

Lemma repo_ok_access clock now r a' :
  clock ≤ now → access_frame (del_access r) a' → repo_ok clock r →
  repo_ok now (del_with_access r a').
Proof.
  intros Hle Hframe [Hj Hi He Hb Hk Hfs]. destruct Hframe as [Hbl Hkeys Hdel] eqn:Hfr.
  split; cbn; [|done|done|by rewrite Hbl|by rewrite Hbl, Hkeys|done].
  intros key sj Hsj. by eapply job_ok_frame; [| |apply Hj].
Qed.

(** The tasks, the ownership and the intents do not appear in a job. *)
Lemma repo_ok_other clock now r intents ownership tasks :
  clock ≤ now → repo_ok clock r →
  (∀ key, is_Some (intents !! key) → del_jobs r !! key = None ∧ del_receipts r !! key = None) →
  repo_ok now (MkDeletionRepo (del_jobs r) (del_receipts r) intents ownership tasks
                 (del_access r)).
Proof.
  intros Hle [Hj Hi He Hb Hk Hfs] Hint. split; cbn; [|done|done|done|done|done].
  intros key sj Hsj. eapply job_ok_frame; [done|apply access_frame_refl|by apply Hj].
Qed.

Lemma repo_ok_mono clock now r : clock ≤ now → repo_ok clock r → repo_ok now r.
Proof.
  intros Hle Hok. destruct r. eapply (repo_ok_other clock now (MkDeletionRepo _ _ _ _ _ _));
    [done|done|apply Hok].
Qed.

(** * Writing a job *)

(** The identity of a job. *)
Definition job_identity (j : ContentLockDeletionJob) :=
  (dj_job_id j, dj_creator j, dj_lock_id j, dj_frozen_content_lock j, dj_deletion_started_at j).

Lemma reads_settled_revoke clock a id job :
  reads_settled clock a id → reads_settled clock (revoke_job_read_claims a job) id.
Proof.
  intros Hr b c. cbn. rewrite map_lookup_imap. intros (c0 & Hc0 & Heq)%bind_Some.
  injection Heq as <-. destruct (Hr b c0 Hc0) as [He|Hall].
  - left. by destruct (_ =? _).
  - right. destruct (_ =? _); [|done]. intros path read. cbn. rewrite lookup_fmap.
    intros (read0 & Hread & ->)%fmap_Some. cbn. by eapply Hall.
Qed.

(** The effect of telling the access store about a job. *)
Lemma synchronize_job_spec a j by_ token expires :
  let a' := synchronize_job a j by_ token expires in
  acc_records a' = acc_records a ∧ acc_blocked_keys a' = acc_blocked_keys a
  ∧ acc_deletion_jobs_by_key a' = acc_deletion_jobs_by_key a
  ∧ acc_deletions a' = alter (λ d, da_with_job d (dj_state j) (dj_phase j)
                                     (is_some (dj_force_requested_at j)) by_ token expires)
                         (dj_job_id j) (acc_deletions a)
  ∧ ∀ clock id, reads_settled clock a id → reads_settled clock a' id.
Proof.
  cbn zeta. unfold synchronize_job, disable_job_access, disable_final_access.
  repeat split_match; split_and!; try done; intros clock id Hr; try done;
    by apply reads_settled_revoke.
Qed.

Lemma drained_synchronize clock a a' id d d' :
  acc_records a' = acc_records a →
  (∀ clock id, reads_settled clock a id → reads_settled clock a' id) →
  da_phase d' = da_phase d → da_bundle_snapshots d' = da_bundle_snapshots d →
  da_payment_aggregate d' = da_payment_aggregate d →
  drained clock a id d → drained clock a' id d'.
Proof.
  intros Hrec Hreads Hp Hs Hagg. apply drained_transfer; [done|done| |].
  - intros clock' Hn k st. rewrite Hrec. apply Hn.
  - intros clock'. apply Hreads.
Qed.

Lemma store_job_ok clock now r key sj sj' :
  clock ≤ now → repo_ok clock r → del_jobs r !! key = Some sj →
  job_identity (sj_job sj') = job_identity (sj_job sj) →
  job_state_valid (sj_job sj') (sj_has_active_lease sj') = true →
  leased sj' ∨ unleased sj' →
  (dj_state (sj_job sj') = DelCompleted → dj_phase (sj_job sj') = PurgeOperationalState) →
  (is_Some (del_receipts r !! key) → final_state (dj_state (sj_job sj'))) →
  (∀ d, acc_deletions (del_access r) !! dj_job_id (sj_job sj) = Some d → mirrors sj d →
     drained clock (del_access r) (dj_job_id (sj_job sj)) d →
     drained now (del_access r) (dj_job_id (sj_job sj))
       (da_with_job d (dj_state (sj_job sj')) (dj_phase (sj_job sj'))
          (is_some (dj_force_requested_at (sj_job sj'))) (sj_claimed_by sj') (sj_claim_token sj')
          (sj_claim_expires_at sj'))) →
  repo_ok now (store_job r key sj').
Proof.
  intros Hle Hok Hsj Hid Hvalid Hlease Hdone Hfinal Hdrain. destruct Hok as [Hj Hi He Hb Hk Hfs].
  destruct (Hj _ _ Hsj) as [Hkey Hident _ _ _ (d & Hd & Hm & Hdr)].
  unfold job_identity in Hid. injection Hid as Hjid Hcr Hlk Hfr Hst.
  destruct (synchronize_job_spec (del_access r) (sj_job sj') (sj_claimed_by sj')
              (sj_claim_token sj') (sj_claim_expires_at sj'))
    as (Srec & Sbl & Skeys & Sdel & Sreads).
  split; cbn [store_job del_jobs del_receipts del_intents del_access].
  - intros k sj0. destruct (decide (k = key)) as [->|Hne].
    + rewrite lookup_insert_eq. intros [= <-]. split; try done.
      * by rewrite Hcr, Hlk.
      * unfold validate_frozen_identity. rewrite Hfr, Hcr, Hlk. exact Hident.
      * eexists. rewrite Sdel, Hjid, lookup_alter_eq, Hd. split; [done|]. split.
        -- destruct Hm. split; cbn; try congruence. by left.
        -- eapply drained_synchronize; [done|done|..|by apply Hdrain]; done.
    + rewrite lookup_insert_ne by done. intros Hsj0.
      destruct (Hj _ _ Hsj0) as [Hkey0 Hident0 Hval0 Hl0 Hdone0 (d0 & Hd0 & Hm0 & Hdr0)].
      split; try done. exists d0. rewrite Sdel, lookup_alter_ne.
      * split_and!; [done|done|]. eapply drained_synchronize; [done|done|done|done|done|].
        by eapply drained_mono.
      * rewrite Hjid. intros Heq. by apply Hne, (Hi k key sj0 sj).
  - intros k1 k2 sj1 sj2. rewrite !lookup_insert_Some.
    intros [[<- <-]|[Hn1 D1]] [[<- <-]|[Hn2 D2]] Heq; try done; try (by eapply Hi).
    + eapply Hi; [done|done|congruence].
    + eapply Hi; [done|done|congruence].
  - intros k Hk'. destruct (He k Hk') as [Hnone Hrec]. split; [|done].
    rewrite lookup_insert_ne; [done|]. intros ->. congruence.
  - intros k. rewrite Sbl, Hb. rewrite lookup_insert_is_Some.
    split; intros [Hs|Hs]; [|by right| |by right].
    + left. destruct (decide (key = k)); [by left|by right].
    + left. destruct Hs as [->|[_ Hs]]; [by exists sj|done].
  - intros k. rewrite Sbl, Skeys. apply Hk.
  - intros k sj0. rewrite lookup_insert_Some. intros [[<- <-]|[_ Hsj0]]; [done|by eapply Hfs].
Qed.

(** A job kept in its phase keeps what was settled. *)
Lemma drained_same_phase clock now a id d state phase force by_ token expires :
  clock ≤ now → phase = da_phase d → drained clock a id d →
  drained now a id (da_with_job d state phase force by_ token expires).
Proof.
  intros Hle -> Hdr.
  apply (drained_transfer now a a id d); [done|done|by intros ?|by intros ?|].
  by eapply drained_mono.
Qed.

(** The store's check settles what the next phase presupposes. *)
Lemma advance_drained clock now a id d p next state force by_ token expires :
  clock ≤ now → da_phase d = p → permits p next = true → acc_deletions a !! id = Some d →
  check_phase_advance a id p next now = Ok PhaseAdvanceReady → drained clock a id d →
  drained now a id (da_with_job d state next force by_ token expires).
Proof.
  intros Hle Hp Hperm Hd Hcheck Hdr%(drained_mono clock now); [|done].
  unfold check_phase_advance in Hcheck. rewrite Hd in Hcheck.
  apply bind_Ok in Hcheck as ([] & Hpay & Hcheck). destruct Hdr as [D3 D4 D5 D6].
  rewrite Hp in *.
  destruct p, next; try discriminate Hperm; cbn in D3, D4, D5, D6;
    (split; cbn; intros Hge; try lia; try (by apply D3; lia); try (by apply D4; lia);
     try (by apply D5; lia); try (by apply D6; lia)).
  - cbn in Hpay. apply bind_Ok in Hpay as ([] & Hu%reject_if_Ok & Ha%reject_if_Ok).
    apply negb_false_iff in Ha. split; [exact (proj1 (unresolved_bundle_false d) Hu)|done].
  - apply (proj1 (enrolled_ordinary_false _ _ _)). apply not_true_iff_false. intros Hv.
    cbn in Hcheck. rewrite Hv in Hcheck. discriminate Hcheck.
  - change (bundles_issued d). apply unissued_bundle_false.
    apply not_true_iff_false. intros Hv. cbn in Hcheck. rewrite Hv in Hcheck. cbn in Hcheck.
    destruct (is_some_and _ _); discriminate Hcheck.
  - apply has_live_access_obligation_false. apply not_true_iff_false. intros Hv.
    cbn in Hcheck. rewrite Hv in Hcheck. discriminate Hcheck.
Qed.

(** * The operations on jobs *)

Lemma find_owned_Some r job worker token now key sj :
  find_owned r job worker token now = Some (key, sj) →
  del_jobs r !! key = Some sj ∧ owns_claim sj job worker token now = true.
Proof. intros Hf. exact (find_entry_Some _ _ _ _ Hf). Qed.

Lemma owns_claim_running sj job worker token now :
  owns_claim sj job worker token now = true →
  dj_job_id (sj_job sj) = job ∧ dj_state (sj_job sj) = DelRunning.
Proof. unfold owns_claim. intros Ho. by props. Qed.

(** What the state of a valid job says about its other fields. *)
Lemma valid_no_failure clock a key sj :
  job_ok clock a key sj → dj_state (sj_job sj) ≠ DelFailed → dj_failure_code (sj_job sj) = None.
Proof.
  intros [_ _ Hv _ _ _] Hne. unfold job_state_valid in Hv. by destruct (dj_state (sj_job sj)); props.
Qed.

(** An active job has no receipt. *)
Lemma active_no_receipt clock r key sj (P : Prop) :
  repo_ok clock r → del_jobs r !! key = Some sj →
  dj_state (sj_job sj) = DelQueued ∨ dj_state (sj_job sj) = DelRunning →
  is_Some (del_receipts r !! key) → P.
Proof. intros Hok Hsj Ha Hr. destruct (ro_final _ _ Hok _ _ Hsj Hr), Ha; congruence. Qed.

(** A job written without a lease, in its phase. *)
Lemma unclaimed_job_ok clock now r key sj j' :
  clock ≤ now → repo_ok clock r → del_jobs r !! key = Some sj →
  job_identity j' = job_identity (sj_job sj) → dj_phase j' = dj_phase (sj_job sj) →
  job_state_valid j' false = true →
  (dj_state j' = DelCompleted → dj_phase j' = PurgeOperationalState) →
  (is_Some (del_receipts r !! key) → final_state (dj_state j')) →
  repo_ok now (store_job r key (unclaimed_job j')).
Proof.
  intros Hle Hok Hsj Hid Hp Hv Hdone Hfinal. eapply store_job_ok; try done; [by right|].
  intros d Hd Hm Hdr. apply (drained_same_phase clock); [done| |done].
  cbn. by rewrite Hp, (mi_phase _ _ Hm).
Qed.

Lemma claim_next_ok clock now r order worker ttl token :
  clock ≤ now → repo_ok clock r → repo_ok now (claim_next r order worker ttl now token).2.
Proof.
  intros Hle Hok. unfold claim_next. cbn zeta. destruct (min_by _ _) as [[key sj]|] eqn:Hm.
  - apply min_by_elem, list_elem_of_filter in Hm as [Hc Hin].
    apply list_elem_of_omap in Hin as (key' & _ & Hin).
    apply fmap_Some in Hin as (sj' & Hsj & Heq). injection Heq as <- <-. cbn in Hc. cbn [snd].
    eapply store_job_ok; try done.
    + cbn. rewrite (valid_no_failure clock _ _ _ (ro_jobs _ _ Hok _ _ Hsj)); [done|].
      intros Hf. unfold is_claimable in Hc. by rewrite Hf in Hc.
    + left. split_and!; eauto.
    + eapply active_no_receipt; [done|done|]. unfold is_claimable in Hc.
      destruct (dj_state (sj_job sj)); try done; auto.
    + intros d Hd Hmir Hdr. apply (drained_same_phase clock); [done| |done].
      cbn. by rewrite (mi_phase _ _ Hmir).
  - by eapply repo_ok_mono.
Qed.

Lemma schedule_retry_ok clock now r job worker token after :
  clock ≤ now → repo_ok clock r → repo_ok now (schedule_retry r job worker token after now).2.
Proof.
  intros Hle Hok. unfold schedule_retry.
  destruct (find_owned r job worker token now) as [[key sj]|] eqn:Hf;
    [|by eapply repo_ok_mono].
  apply find_owned_Some in Hf as [Hsj Ho]. apply owns_claim_running in Ho as [_ Hrun].
  eapply unclaimed_job_ok; try done.
  - cbn. rewrite (valid_no_failure _ _ _ _ (ro_jobs _ _ Hok _ _ Hsj)); [done|congruence].
  - eapply active_no_receipt; eauto.
Qed.

Lemma defer_ok clock now r job worker token after :
  clock ≤ now → repo_ok clock r → repo_ok now (defer r job worker token after now).2.
Proof.
  intros Hle Hok. unfold defer.
  destruct (find_owned r job worker token now) as [[key sj]|] eqn:Hf;
    [|by eapply repo_ok_mono].
  apply find_owned_Some in Hf as [Hsj Ho]. apply owns_claim_running in Ho as [_ Hrun].
  eapply unclaimed_job_ok; try done.
  - cbn. rewrite (valid_no_failure _ _ _ _ (ro_jobs _ _ Hok _ _ Hsj)); [done|congruence].
  - eapply active_no_receipt; eauto.
Qed.

Lemma finish_ok clock now r job worker token code o r' :
  clock ≤ now → repo_ok clock r → finish r job worker token code now = Ok (o, r') →
  repo_ok now r'.
Proof.
  intros Hle Hok Hfin. unfold finish in Hfin.
  destruct (find_owned r job worker token now) as [[key sj]|] eqn:Hf.
  - apply find_owned_Some in Hf as [Hsj Ho].
    apply bind_Ok in Hfin as ([] & Hcheck & Hfin). injection Hfin as <- <-.
    eapply unclaimed_job_ok; try done; [by destruct code| |];
      [|intros _; destruct code; [by right|by left]]. cbn. destruct code; [done|].
    intros _. apply owns_claim_running in Ho as [<- _].
    destruct (ro_jobs _ _ Hok _ _ Hsj) as [_ _ _ _ _ (d & Hd & _ & _)].
    unfold check_successful_finish in Hcheck. cbn in Hcheck. rewrite Hd in Hcheck.
    apply bind_Ok in Hcheck as ([] & Hp%reject_if_Ok & _). by props.
  - injection Hfin as <- <-. by eapply repo_ok_mono.
Qed.

Lemma fail_graceful_withdrawal_ok clock now r job code :
  clock ≤ now → repo_ok clock r → repo_ok now (fail_graceful_withdrawal r job code).2.
Proof.
  intros Hle Hok. unfold fail_graceful_withdrawal.
  destruct (find_entry _ _) as [[key sj]|] eqn:Hf; [|by eapply repo_ok_mono].
  apply find_entry_Some in Hf as [Hsj _].
  eapply unclaimed_job_ok; try done. by right.
Qed.

Lemma advance_phase_ok clock now r job worker token next o r' :
  clock ≤ now → repo_ok clock r → advance_phase r job worker token next now = Ok (o, r') →
  repo_ok now r'.
Proof.
  intros Hle Hok Hadv. unfold advance_phase in Hadv.
  destruct (find_owned r job worker token now) as [[key sj]|] eqn:Hf;
    [|injection Hadv as <- <-; by eapply repo_ok_mono].
  apply find_owned_Some in Hf as [Hsj Ho]. apply owns_claim_running in Ho as [<- Hrun].
  apply bind_Ok in Hadv as ([] & Hperm%reject_if_Ok%negb_false_iff & Hadv).
  destruct (_ && _); [injection Hadv as <- <-; by eapply repo_ok_mono|].
  apply bind_Ok in Hadv as (status & Hcheck & Hadv).
  destruct status; injection Hadv as <- <-; try by eapply repo_ok_mono.
  eapply store_job_ok; try done; [by right|by eapply active_no_receipt; eauto|].
  intros d Hd Hm Hdr. apply (advance_drained clock _ _ _ _ (dj_phase (sj_job sj)));
    try done. by rewrite (mi_phase _ _ Hm).
Qed.

Lemma resume_failed_job_ok clock now r creator id :
  clock ≤ now → repo_ok clock r → repo_ok now (resume_failed_job r creator id).2.
Proof.
  intros Hle Hok. unfold resume_failed_job. cbn zeta.
  destruct (has_receipt r (creator, id)) eqn:Hrec, (del_jobs r !! (creator, id)) as [sj|] eqn:Hsj;
    try by eapply repo_ok_mono.
  destruct (dj_state (sj_job sj) == DelFailed).
  { eapply unclaimed_job_ok; try done. unfold has_receipt in Hrec. props.
    rewrite Hrec. by intros []. }
  cbn [snd].
  destruct (synchronize_job_spec (del_access r) (sj_job sj) None None None)
    as (Srec & Sbl & Skeys & Sdel & Sreads).
  apply (repo_ok_mono clock now) in Hok as [Hj Hi He Hb Hk Hfs]; [|done].
  split; cbn; [|done|done|by rewrite Sbl|by rewrite Sbl, Skeys|done].
  intros key0 sj0 Hsj0. destruct (Hj _ _ Hsj0) as [Hkey Hid Hv Hl Hdone (d & Hd & Hm & Hdr)].
  split; try done. rewrite Sdel.
  destruct (decide (dj_job_id (sj_job sj0) = dj_job_id (sj_job sj))) as [Heq|Hne].
  - assert (key0 = (creator, id)) as -> by by eapply Hi.
    rewrite Hsj in Hsj0. injection Hsj0 as <-.
    rewrite lookup_alter_eq, Hd. eexists. split_and!; [done| |].
    + destruct Hm. split; cbn; try done. by right.
    + eapply drained_synchronize; [done|done|..|done]; try done. cbn. by destruct Hm.
  - rewrite lookup_alter_ne by done. exists d. split_and!; [done|done|].
    by eapply drained_synchronize.
Qed.

(** * Receipts *)

(** A receipt written for a key without publication; the job may go. *)
Lemma receipt_ok clock now r key receipt jobs a' :
  clock ≤ now → repo_ok clock r → del_intents r !! key = None →
  (∀ k, k ≠ key → jobs !! k = del_jobs r !! k) →
  (∀ k sj, jobs !! k = Some sj → del_jobs r !! k = Some sj) →
  (∀ sj, jobs !! key = Some sj → final_state (dj_state (sj_job sj))) →
  acc_records a' = acc_records (del_access r) →
  acc_deletions a' = acc_deletions (del_access r) →
  acc_deletion_jobs_by_key a' = acc_deletion_jobs_by_key (del_access r) →
  acc_blocked_keys a' = {[key]} ∪ acc_blocked_keys (del_access r) →
  (∀ clock id, reads_settled clock (del_access r) id → reads_settled clock a' id) →
  repo_ok now (MkDeletionRepo jobs (<[key := receipt]> (del_receipts r)) (del_intents r)
                 (del_ownership r) (del_tasks r) a').
Proof.
  intros Hle Hok Hnone Hsame Hsub Hfin Arec Adel Akeys Abl Areads.
  apply (repo_ok_mono clock now) in Hok as [Hj Hi He Hb Hk Hfs]; [|done].
  split; cbn.
  - intros k sj Hsj%Hsub. destruct (Hj _ _ Hsj) as [Hkey Hid Hv Hl Hdone (d & Hd & Hm & Hdr)].
    split; try done. exists d. rewrite Adel. split_and!; [done|done|].
    by eapply drained_synchronize.
  - intros k1 k2 sj1 sj2 D1 D2. eapply Hi; by apply Hsub.
  - intros k Hin. destruct (He k Hin) as [Hnj Hnr].
    assert (k ≠ key) as Hne by (intros ->; rewrite Hnone in Hin; by destruct Hin).
    by rewrite Hsame, lookup_insert_ne by done.
  - intros k. rewrite Abl, elem_of_union, elem_of_singleton, Hb, lookup_insert_is_Some.
    destruct (decide (k = key)) as [->|Hne]; [naive_solver|]. rewrite Hsame by done. naive_solver.
  - intros k. rewrite Akeys, Abl. intros Hin%Hk. set_solver.
  - intros k sj Hsj. rewrite lookup_insert_is_Some.
    destruct (decide (key = k)) as [<-|Hne]; [by intros _; apply Hfin|].
    intros [?|[_ Hr]]; [done|]. by eapply Hfs; [apply Hsub|].
Qed.

Lemma block_spec a creator id job :
  let a' := block_key_and_disable_job a creator id job in
  acc_records a' = acc_records a ∧ acc_deletions a' = acc_deletions a
  ∧ acc_deletion_jobs_by_key a' = acc_deletion_jobs_by_key a
  ∧ acc_blocked_keys a' = {[(creator, id)]} ∪ acc_blocked_keys a
  ∧ ∀ clock id, reads_settled clock a id → reads_settled clock a' id.
Proof.
  cbn zeta. unfold block_key_and_disable_job. destruct job as [job|]; [|by split_and!].
  split_and!; try done. intros clock i Hr. by apply reads_settled_revoke.
Qed.

(** A receipt rewritten in place. *)
Lemma receipt_update_ok clock now r key receipt receipt' :
  clock ≤ now → repo_ok clock r → del_receipts r !! key = Some receipt →
  repo_ok now (del_with_receipts r (<[key := receipt']> (del_receipts r))).
Proof.
  intros Hle Hok Hrec. apply (repo_ok_mono clock now) in Hok as [Hj Hi He Hb Hk Hfs]; [|done].
  split; cbn; [done|done| | |done|].
  - intros k Hin. destruct (He k Hin) as [Hnj Hnr]. split; [done|].
    rewrite lookup_insert_ne; [done|]. intros ->. congruence.
  - intros k. rewrite Hb, lookup_insert_is_Some.
    destruct (decide (k = key)) as [->|Hne]; [|naive_solver]. rewrite Hrec. naive_solver.
  - intros k sj Hsj. rewrite lookup_insert_is_Some. intros [<-|[_ Hr]]; [|by eapply Hfs].
    eapply Hfs; [done|by eexists].
Qed.

Lemma prepare_force_ok clock now r creator id frozen forced :
  clock ≤ now → repo_ok clock r →
  repo_ok now (prepare_force_deletion_with_manifest r creator id frozen forced).2.
Proof.
  intros Hle Hok. unfold prepare_force_deletion_with_manifest, has_intent. cbn zeta.
  destruct (del_intents r !! (creator, id)) eqn:Hint; [by eapply repo_ok_mono|]. cbn [is_some].
  destruct (del_receipts r !! (creator, id)) eqn:Hrec; [by eapply receipt_update_ok|].
  destruct (del_jobs r !! (creator, id)) as [sj|] eqn:Hsj.
  - destruct (any_value _ _).
    { split_match; [by eapply repo_ok_mono|]. eapply unclaimed_job_ok; try done.
      rewrite Hrec. by intros []. }
    split_match; [eapply unclaimed_job_ok; try done; rewrite Hrec; by intros []|]. cbn [snd].
    destruct (block_spec (del_access r) creator id (Some (dj_job_id (sj_job sj))))
      as (B1 & B2 & B3 & B4 & B5). eapply receipt_ok; try done.
    rewrite Hsj. intros sj0 [= <-]. props. unfold final_state.
    by destruct (dj_state (sj_job sj)); auto.
  - destruct (block_spec (del_access r) creator id None) as (B1 & B2 & B3 & B4 & B5).
    eapply receipt_ok; try done. by rewrite Hsj.
Qed.

Lemma complete_synchronous_ok clock now r creator id at_ :
  clock ≤ now → repo_ok clock r →
  repo_ok now (complete_synchronous_force_deletion r creator id at_).2.
Proof.
  intros Hle Hok. unfold complete_synchronous_force_deletion.
  destruct (del_receipts r !! (creator, id)) eqn:Hrec; [by eapply receipt_update_ok|].
  by eapply repo_ok_mono.
Qed.

Lemma complete_force_ok clock now r job worker token :
  clock ≤ now → repo_ok clock r → repo_ok now (complete_force_deletion r job worker token now).2.
Proof.
  intros Hle Hok. unfold complete_force_deletion.
  destruct (find_entry _ _) as [[[creator id] sj]|] eqn:Hf; [|by eapply repo_ok_mono].
  apply find_entry_Some in Hf as [Hsj _].
  split_match; [by eapply repo_ok_mono|]. split_match; [|by eapply repo_ok_mono]. cbn [snd fst].
  destruct (block_spec (del_access r) creator id (Some job)) as (B1 & B2 & B3 & B4 & B5).
  eapply receipt_ok; try done.
  - destruct (del_intents r !! (creator, id)) eqn:Hint; [|done].
    destruct (ro_exclusive _ _ Hok (creator, id)); [by eexists|congruence].
  - intros k Hne. by rewrite lookup_delete_ne.
  - by intros k sj0 [_ Hk]%lookup_delete_Some.
  - intros sj0. by rewrite lookup_delete_eq.
Qed.

(** * Publication *)

Lemma intents_ok clock now r intents ownership :
  clock ≤ now → repo_ok clock r →
  (∀ key, is_Some (intents !! key) → is_Some (del_intents r !! key)) →
  repo_ok now (MkDeletionRepo (del_jobs r) (del_receipts r) intents ownership (del_tasks r)
                 (del_access r)).
Proof.
  intros Hle Hok Hsub. eapply repo_ok_other; [done|done|]. intros key Hin.
  by apply (ro_exclusive _ _ Hok), Hsub.
Qed.

Lemma begin_publication_ok clock now r creator id token original r' :
  clock ≤ now → repo_ok clock r → begin_publication r creator id token original = Ok r' →
  repo_ok now r'.
Proof.
  intros Hle Hok Hb. unfold begin_publication, has_job, has_receipt, has_intent in Hb.
  apply bind_Ok in Hb as ([] & _ & Hb).
  apply bind_Ok in Hb as ([] & Hdel%reject_if_Ok & Hb).
  apply bind_Ok in Hb as ([] & _ & Hb). injection Hb as <-. props.
  eapply repo_ok_other; [done|done|]. intros key. rewrite lookup_insert_is_Some.
  intros [<-|[_ Hin]]; [done|]. by apply (ro_exclusive _ _ Hok).
Qed.

Lemma lookup_delete_sub {K V} `{Countable K} (m : gmap K V) i k :
  is_Some (delete i m !! k) → is_Some (m !! k).
Proof. intros [x [_ Hx]%lookup_delete_Some]. by exists x. Qed.

Lemma mark_publication_ok clock now r creator id token :
  clock ≤ now → repo_ok clock r → repo_ok now (mark_publication_written r creator id token).2.
Proof.
  intros Hle Hok. unfold mark_publication_written.
  destruct (del_intents r !! (creator, id)) eqn:Hi; [|by eapply repo_ok_mono].
  split_match; [by eapply repo_ok_mono|]. eapply intents_ok; try done.
  intros key. rewrite lookup_insert_is_Some. intros [<-|[_ Hin]]; [by rewrite Hi|done].
Qed.

Lemma remove_intent_ok clock now r creator id token :
  clock ≤ now → repo_ok clock r → repo_ok now (remove_publication_intent r creator id token).2.
Proof.
  intros Hle Hok. unfold remove_publication_intent. split_match; [by eapply repo_ok_mono|].
  eapply intents_ok; try done. intros key. apply lookup_delete_sub.
Qed.

Lemma compensate_publication_ok clock now r creator id token :
  clock ≤ now → repo_ok clock r → repo_ok now (compensate_publication r creator id token).2.
Proof.
  intros Hle Hok. unfold compensate_publication.
  destruct (del_intents r !! (creator, id)); [|by eapply repo_ok_mono].
  split_match; [by eapply repo_ok_mono|].
  eapply intents_ok; try done. intros key. apply lookup_delete_sub.
Qed.

Lemma reconcile_publication_ok clock now r creator id published paths :
  clock ≤ now → repo_ok clock r →
  repo_ok now (reconcile_publication r creator id published paths).2.
Proof.
  intros Hle Hok. unfold reconcile_publication.
  split_match; [by eapply repo_ok_mono|]. split_match; [by eapply repo_ok_mono|].
  eapply intents_ok; try done. intros key. apply lookup_delete_sub.
Qed.

(** * A new job *)

Lemma enrol_deletion job bundles st id kind :
  sc_deletion (enrol job bundles st) = Some (id, kind) →
  sc_deletion st = Some (id, kind) ∨ id = dj_job_id job.
Proof. unfold enrol. split_match; [|by left]. cbn. intros [= <- <-]. by right. Qed.

Lemma enrol_record job bundles st : sc_record (enrol job bundles st) = sc_record st.
Proof. unfold enrol. by split_match. Qed.

(** Registration leaves the entries of the other jobs alone. *)
Lemma register_deletion_other clock a job bundles a' id d :
  register_deletion a job bundles = Ok a' → id ≠ dj_job_id job →
  acc_deletions a !! id = Some d → drained clock a id d →
  acc_deletions a' !! id = Some d ∧ drained clock a' id d.
Proof.
  unfold register_deletion. intros Hr Hne Hd Hdr. apply bind_Ok in Hr as ([] & _ & Hr).
  injection Hr as <-. split; [cbn; by rewrite lookup_insert_ne by done|].
  revert Hdr. apply drained_transfer; [done|done| |by intros ?].
  intros clock' Hn k st. cbn. rewrite lookup_fmap. intros (st0 & Hst0 & ->)%fmap_Some Hk.
  rewrite enrol_record. apply enrol_deletion in Hk as [Hk| ->]; [|done]. by eapply Hn.
Qed.

Lemma insert_job_ok clock now r id frozen started job r' :
  clock ≤ now → repo_ok clock r → ContentLockDeletionJob_new id frozen started = Ok job →
  insert_job r job now = Ok r' → repo_ok now r'.
Proof.
  intros Hle Hok Hnew Hins. apply (repo_ok_mono clock now) in Hok as [Hj Hi He Hb Hk Hfs]; [|done].
  unfold ContentLockDeletionJob_new in Hnew. apply bind_Ok in Hnew as (lock & _ & Hnew).
  injection Hnew as <-. unfold insert_job, has_intent, has_receipt, has_job in Hins.
  apply bind_Ok in Hins as ([] & Hident & Hins).
  apply bind_Ok in Hins as ([] & _ & Hins). cbn in Hins.
  apply bind_Ok in Hins as ([] & Hint%reject_if_Ok & Hins).
  apply bind_Ok in Hins as ([] & Hrec%reject_if_Ok & Hins).
  apply bind_Ok in Hins as ([] & Hdup%reject_if_Ok & Hins).
  apply bind_Ok in Hins as ([] & _ & Hins).
  apply bind_Ok in Hins as (a' & Hreg & Hins). injection Hins as <-. props.
  match goal with Hu : any_value _ _ = false |- _ => rewrite any_value_false in Hu;
    rename Hu into Hfresh end.
  set (job := MkDeletionJob _ _ _ _ _ _ _ _ _ _ _) in *.
  pose proof Hreg as Hreg'. unfold register_deletion in Hreg'.
  apply bind_Ok in Hreg' as ([] & _ & Ha). injection Ha as Ha.
  split; cbn.
  - intros k sj. destruct (decide (k = (cl_creator frozen, lock))) as [->|Hne].
    + rewrite lookup_insert_eq. intros [= <-]. split; try done; [by right|].
      subst a'. cbn. rewrite lookup_insert_eq. eexists. split_and!; [done| |].
      * split; try done. by left.
      * split; cbn; lia.
    + rewrite lookup_insert_ne by done. intros Hsj.
      destruct (Hj _ _ Hsj) as [Hkey Hid Hv Hl Hdone (d & Hd & Hm & Hdr)]. split; try done.
      exists d. specialize (Hfresh _ _ Hsj). props.
      destruct (register_deletion_other now _ _ _ _ _ _ Hreg Hfresh Hd Hdr). done.
  - intros k1 k2 sj1 sj2. rewrite !lookup_insert_Some.
    intros [[<- <-]|[Hn1 D1]] [[<- <-]|[Hn2 D2]] Heq; try done; try (by eapply Hi).
    + specialize (Hfresh _ _ D2). props. cbn in Heq. congruence.
    + specialize (Hfresh _ _ D1). props. cbn in Heq. congruence.
  - intros k Hin. destruct (He k Hin) as [Hnj Hnr]. split; [|done].
    rewrite lookup_insert_ne; [done|]. intros <-. rewrite Hint in Hin. by destruct Hin.
  - intros k. subst a'. cbn. rewrite elem_of_union, elem_of_singleton, Hb, lookup_insert_is_Some.
    destruct (decide (k = (cl_creator frozen, lock))) as [->|Hne]; naive_solver.
  - intros k. subst a'. cbn. rewrite lookup_insert_is_Some. intros [<-|[_ Hin%Hk]]; set_solver.
  - intros k sj. rewrite lookup_insert_Some. intros [[<- <-]|[_ Hsj]]; [|by eapply Hfs].
    rewrite Hrec. by intros [].
Qed.
End invariant.
