(* ===== verification/DeletionHistory.v ===== *)
(** Histories of the deletion repository: every state a sequence of operations can
    reach, what is settled in it, how jobs and receipts change along it, and who
    may act on a job. *)

From S2P Require Import Prelude HashMaps RustStr Externals Ids Json LockPolicy Wire Errors.
From S2P Require Import Secrets Lifecycle Ownership DeletionJob GraphTask Fence TaskStore.
From S2P Require Import AccessStore AccessDrain DeletionStore DeletionInv.

Section history.
  Context `{Base32, Blake3, JsonCanonicalizer, CanonicalizationError, TimeCrate, Base64Url, Aead}.

(** * Steps *)

(** The operations of the access store that are not calls of the repository. *)
Inductive access_op (now : OffsetDateTime) (a : AccessState) : AccessState → Prop :=
  | ao_insert id key record a' :
      insert_access_credential a id key record = Ok a' → access_op now a a'
  | ao_delete key : access_op now a (delete_access_credential a key)
  | ao_lookup key expected invalidate :
      access_op now a (finish_ordinary_credential_lookup a key expected invalidate).2
  | ao_resolve job worker token task status b a' :
      resolve_deletion_payment a job worker token now task status = Ok (b, a') →
      access_op now a a'
  | ao_aggregate job worker token :
      access_op now a (complete_deletion_payment_aggregate a job worker token now).2
  | ao_windows job worker token issue read w a' :
      initialize_final_access_windows a job worker token issue read now = Ok (w, a') →
      access_op now a a'
  | ao_issue key nonce order creator bundle candidate o a' :
      issue_or_replay_final_credential key nonce order a creator bundle candidate now
        = Ok (o, a') → access_op now a a'
  | ao_issue_worker key nonce job worker token creator bundle candidate o a' :
      issue_or_replay_final_credential_for_worker key nonce a job worker token creator bundle
        candidate now = Ok (o, a') → access_op now a a'
  | ao_prepare key path duration token o a' :
      prepare_deletion_read a key path duration now token = Ok (o, a') → access_op now a a'
  | ao_release key path token : access_op now a (release_deletion_read a key path token).2
  | ao_consume key path token : access_op now a (consume_deletion_read a key path token now).2.

(** One operation at clock reading [now].  Jobs are created the way the deletion
    endpoint does; [ds_environment] is anything the task repositories and the
    ownership repository do. *)
Inductive deletion_step (now : OffsetDateTime) (r : DeletionRepo) : DeletionRepo → Prop :=
  | ds_insert id frozen started job r' :
      ContentLockDeletionJob_new id frozen started = Ok job → insert_job r job now = Ok r' →
      deletion_step now r r'
  | ds_claim order worker ttl token :
      deletion_step now r (claim_next r order worker ttl now token).2
  | ds_retry job worker token after :
      deletion_step now r (schedule_retry r job worker token after now).2
  | ds_defer job worker token after :
      deletion_step now r (defer r job worker token after now).2
  | ds_advance job worker token next o r' :
      advance_phase r job worker token next now = Ok (o, r') → deletion_step now r r'
  | ds_expire job worker token b r' :
      del_expire_unresolved_non_paykit_tasks r job worker token now = Ok (b, r') →
      deletion_step now r r'
  | ds_finish job worker token code o r' :
      finish r job worker token code now = Ok (o, r') → deletion_step now r r'
  | ds_fail job code : deletion_step now r (fail_graceful_withdrawal r job code).2
  | ds_resume creator id : deletion_step now r (resume_failed_job r creator id).2
  | ds_force creator id frozen :
      deletion_step now r (prepare_force_deletion_with_manifest r creator id frozen now).2
  | ds_complete_synchronous creator id at_ :
      deletion_step now r (complete_synchronous_force_deletion r creator id at_).2
  | ds_complete_force job worker token :
      deletion_step now r (complete_force_deletion r job worker token now).2
  | ds_begin creator id token original r' :
      begin_publication r creator id token original = Ok r' → deletion_step now r r'
  | ds_mark creator id token :
      deletion_step now r (mark_publication_written r creator id token).2
  | ds_abandon creator id token :
      deletion_step now r (abandon_publication r creator id token).2
  | ds_compensate creator id token :
      deletion_step now r (compensate_publication r creator id token).2
  | ds_reconcile creator id published paths :
      deletion_step now r (reconcile_publication r creator id published paths).2
  | ds_access a' : access_op now (del_access r) a' → deletion_step now r (del_with_access r a')
  | ds_environment ownership tasks :
      deletion_step now r (MkDeletionRepo (del_jobs r) (del_receipts r) (del_intents r) ownership
                             tasks (del_access r)).

(** Steps at non-decreasing clock readings. *)
Inductive timed_step : OffsetDateTime * DeletionRepo → OffsetDateTime * DeletionRepo → Prop :=
  | step_at clock now r r' :
      clock ≤ now → deletion_step now r r' → timed_step (clock, r) (now, r').

Lemma access_op_frame now a a' : access_op now a a' → access_frame a a'.
Proof.
  intros Hop; destruct Hop; eauto using insert_access_credential_frame, delete_access_credential_frame,
    finish_lookup_frame, resolve_deletion_payment_frame, complete_aggregate_frame,
    initialize_windows_frame, issue_frame, issue_for_worker_frame, prepare_read_frame,
    release_read_frame, consume_read_frame.
Qed.

Lemma deletion_step_ok clock now r r' :
  clock ≤ now → deletion_step now r r' → repo_ok clock r → repo_ok now r'.
Proof.
  intros Hle Hstep Hok. destruct Hstep; eauto using insert_job_ok, claim_next_ok,
    schedule_retry_ok, defer_ok, advance_phase_ok, finish_ok, fail_graceful_withdrawal_ok,
    resume_failed_job_ok, prepare_force_ok, complete_synchronous_ok, complete_force_ok,
    begin_publication_ok, mark_publication_ok, remove_intent_ok, compensate_publication_ok,
    reconcile_publication_ok.
  - unfold del_expire_unresolved_non_paykit_tasks in *.
    match goal with He : _ = Ok (b, r') |- _ =>
      apply bind_Ok in He as ([b' [a' t']] & He & Heq); injection Heq as <- <- end.
    apply expire_frame in H6. eapply (repo_ok_access clock now (del_with_tasks r t')); [done|done|].
    eapply repo_ok_other; [reflexivity|done|]. apply Hok.
  - eapply repo_ok_access; [done|by eapply access_op_frame|done].
  - eapply repo_ok_other; [done|done|]. apply Hok.
Qed.

Lemma timed_steps_ok cr cr' :
  rtc timed_step cr cr' → repo_ok cr.1 cr.2 → repo_ok cr'.1 cr'.2.
Proof.
  induction 1 as [|x y z Hs Hrest IH]; [done|]. intros Hok. apply IH.
  destruct Hs as [clock now r r' Hle Hs]. by eapply deletion_step_ok.
Qed.

Lemma repo_ok_new clock : repo_ok clock DeletionRepo_new.
Proof.
  split; cbn.
  - intros key sj. by rewrite lookup_empty.
  - intros k1 k2 sj1 sj2. by rewrite lookup_empty.
  - intros key. rewrite lookup_empty. by intros [].
  - intros key. rewrite !lookup_empty. split; [set_solver|]. by intros [[]|[]].
  - intros key. rewrite lookup_empty. by intros [].
  - intros key sj. by rewrite lookup_empty.
Qed.

Lemma reachable_ok start clock r :
  rtc timed_step (start, DeletionRepo_new) (clock, r) → repo_ok clock r.
Proof. intros Hr%timed_steps_ok; [done|apply repo_ok_new]. Qed.

(** * What a deletion has honoured *)

(** C2: when a deletion has reached the phase in which content is deleted, or is
    reported complete, every frozen bundle has its outcome and the payments are
    settled; every bundle that was paid for and had no credential when deletion
    began has been issued its final credential; no credential enrolled at the
    start is still live; and every final credential has expired or had each of
    its resources read. *)
Theorem deletion_honours_obligations start clock r key sj :
  rtc timed_step (start, DeletionRepo_new) (clock, r) → del_jobs r !! key = Some sj →
  phase_index DeleteContent ≤ phase_index (dj_phase (sj_job sj))
  ∨ dj_state (sj_job sj) = DelCompleted →
  let id := dj_job_id (sj_job sj) in
  ∃ d, acc_deletions (del_access r) !! id = Some d
       ∧ da_frozen_content_lock d = dj_frozen_content_lock (sj_job sj)
       ∧ (∀ b s, da_bundle_snapshots d !! b = Some s →
            is_Some (bs_resolved_status s)
            ∧ (permits_final_credential s = true → bs_final_credential_issued s = true))
       ∧ payment_aggregate_completed d = true
       ∧ has_live_access_obligation (del_access r) id clock = false.
Proof.
  intros Hreach Hsj Hphase. cbn zeta.
  destruct (ro_jobs _ _ (reachable_ok _ _ _ Hreach) _ _ Hsj)
    as [_ _ _ _ Hdone (d & Hd & Hm & [D3 D4 D5 D6])].
  assert (6 ≤ phase_index (da_phase d)) as Hge.
  { rewrite (mi_phase _ _ Hm). destruct Hphase as [Hp|Hc]; [done|]. rewrite (Hdone Hc). cbn. lia. }
  exists d. destruct D3 as [Hres Hagg]; [lia|]. split_and!; [done|by apply Hm| |done|].
  - intros b s Hs. split; [by apply (Hres b)|]. apply (D5 ltac:(lia) b s Hs).
  - apply has_live_access_obligation_false. split; [apply D4|apply D6]; lia.
Qed.

(** * Publication against deletion *)

(** C24: publication and deletion of a lock exclude each other.  While a publication
    intent stands there is neither a job nor a force receipt for the lock, and none
    can start; once there is one, no publication can begin or be recovered and no
    credential can be inserted for the lock. *)
Theorem publication_excludes_deletion start clock r creator id :
  rtc timed_step (start, DeletionRepo_new) (clock, r) →
  (is_Some (del_intents r !! (creator, id)) →
     del_jobs r !! (creator, id) = None ∧ del_receipts r !! (creator, id) = None
     ∧ (∀ job now, dj_creator job = creator → dj_lock_id job = id →
          ∀ r', insert_job r job now ≠ Ok r')
     ∧ ∀ frozen now, prepare_force_deletion_with_manifest r creator id frozen now
                     = (PublicationInProgress, r))
  ∧ (is_Some (del_jobs r !! (creator, id)) ∨ is_Some (del_receipts r !! (creator, id)) →
     del_intents r !! (creator, id) = None
     ∧ (∀ token original r', begin_publication r creator id token original ≠ Ok r')
     ∧ (∀ requested, recover_publication r creator id requested
                     = Err ContentLockDeletionInProgress)
     ∧ ∀ key record, acr_creator record = creator →
         insert_access_credential (del_access r) id key record
         = Err ContentLockDeletionInProgress).
Proof.
  intros Hok%reachable_ok. split.
  - intros Hint. destruct (ro_exclusive _ _ Hok _ Hint) as [Hj Hr]. split_and!; [done|done|..].
    + intros job now <- <- r'. unfold insert_job, has_intent. intros Hins.
      apply bind_Ok in Hins as ([] & _ & Hins). apply bind_Ok in Hins as ([] & _ & Hins).
      cbn zeta in Hins. apply bind_Ok in Hins as ([] & Hi%reject_if_Ok & _).
      destruct Hint as [x Hx]. by rewrite Hx in Hi.
    + intros frozen now. unfold prepare_force_deletion_with_manifest, has_intent.
      by destruct Hint as [x ->].
  - intros Hdel. assert (has_job r (creator, id) || has_receipt r (creator, id) = true) as Hhas.
    { unfold has_job, has_receipt. by destruct Hdel as [[x ->]|[x ->]]; [|rewrite orb_true_r]. }
    assert (del_intents r !! (creator, id) = None) as Hnone.
    { destruct (del_intents r !! (creator, id)) eqn:Hi; [|done].
      destruct (ro_exclusive _ _ Hok (creator, id)) as [Hj Hr]; [by eexists|].
      rewrite Hj, Hr in Hdel. by destruct Hdel as [[]|[]]. }
    split_and!; [done|..].
    + intros token original r'. unfold begin_publication. intros Hb.
      apply bind_Ok in Hb as ([] & _ & Hb). apply bind_Ok in Hb as ([] & Hh%reject_if_Ok & _).
      congruence.
    + intros requested. unfold recover_publication. by rewrite Hhas.
    + intros key record <-. unfold insert_access_credential.
      rewrite bool_decide_true; [done|]. by apply (ro_blocked _ _ Hok).
Qed.

(** * How jobs and receipts change *)

(** A job keeps its identity, the frozen manifest and the start of deletion, never
    goes back a phase, never loses a force request, and stays complete. *)
Record job_evolves (j j' : ContentLockDeletionJob) : Prop := {
  je_identity : job_identity j' = job_identity j;
  je_phase : phase_index (dj_phase j) ≤ phase_index (dj_phase j');
  je_force : is_Some (dj_force_requested_at j) →
    dj_force_requested_at j' = dj_force_requested_at j;
  je_complete : dj_state j = DelCompleted → j' = j;
}.

(** A receipt is permanent, as is its completion. *)
Record receipt_evolves (x x' : ForceDeletionReceipt) : Prop := {
  re_forced : fdr_forced_at x' = fdr_forced_at x;
  re_manifest : is_Some (fdr_frozen_content_lock x) →
    fdr_frozen_content_lock x' = fdr_frozen_content_lock x;
  re_complete : is_Some (fdr_completed_at x) → fdr_completed_at x' = fdr_completed_at x;
}.

Lemma job_evolves_refl j : job_evolves j j.
Proof. by split. Qed.
Lemma receipt_evolves_refl x : receipt_evolves x x.
Proof. by split. Qed.

Lemma job_evolves_trans j1 j2 j3 : job_evolves j1 j2 → job_evolves j2 j3 → job_evolves j1 j3.
Proof.
  intros [I1 P1 F1 C1] [I2 P2 F2 C2]. split; [congruence|lia| |].
  - intros Hf. rewrite F2 by (by rewrite F1). by apply F1.
  - intros Hc. pose proof (C1 Hc) as ->. by apply C2.
Qed.
Lemma receipt_evolves_trans x1 x2 x3 :
  receipt_evolves x1 x2 → receipt_evolves x2 x3 → receipt_evolves x1 x3.
Proof.
  intros [F1 M1 C1] [F2 M2 C2]. split; [congruence| |]; intros Hs.
  - rewrite M2 by (by rewrite M1). by apply M1.
  - rewrite C2 by (by rewrite C1). by apply C1.
Qed.

(** What a step may do to the jobs and receipts. *)
Record repo_evolves (r r' : DeletionRepo) : Prop := {
  rv_jobs : ∀ key sj, del_jobs r !! key = Some sj →
    (∃ sj', del_jobs r' !! key = Some sj' ∧ job_evolves (sj_job sj) (sj_job sj'))
    ∨ del_jobs r' !! key = None
      ∧ is_Some (dj_force_requested_at (sj_job sj))
      ∧ is_Some (del_receipts r' !! key ≫= fdr_completed_at);
  rv_receipts : ∀ key x, del_receipts r !! key = Some x →
    ∃ x', del_receipts r' !! key = Some x' ∧ receipt_evolves x x';
  rv_no_new : ∀ key, is_Some (del_receipts r !! key) → del_jobs r !! key = None →
    del_jobs r' !! key = None;
}.

Lemma repo_evolves_same r r' :
  del_jobs r' = del_jobs r → del_receipts r' = del_receipts r → repo_evolves r r'.
Proof.
  intros Hj Hr. split.
  - intros key sj Hsj. left. exists sj. rewrite Hj. split; [done|apply job_evolves_refl].
  - intros key x Hx. exists x. rewrite Hr. split; [done|apply receipt_evolves_refl].
  - intros key _. by rewrite Hj.
Qed.

Lemma store_job_evolves r key sj sj' :
  del_jobs r !! key = Some sj → job_evolves (sj_job sj) (sj_job sj') →
  repo_evolves r (store_job r key sj').
Proof.
  intros Hsj Hev. split; cbn.
  - intros k sj0 Hsj0. left. destruct (decide (k = key)) as [->|Hne].
    + exists sj'. rewrite lookup_insert_eq. split; [done|]. rewrite Hsj in Hsj0. by injection Hsj0 as <-.
    + exists sj0. rewrite lookup_insert_ne by done. split; [done|apply job_evolves_refl].
  - intros k x Hx. exists x. split; [done|apply receipt_evolves_refl].
  - intros k _ Hnone. rewrite lookup_insert_ne; [done|]. intros ->. congruence.
Qed.

(** The usual write: same phase, same or fresh force request, not from completion. *)
Lemma dj_with_evolves j state phase attempts next force failure :
  phase_index (dj_phase j) ≤ phase_index phase →
  (is_Some (dj_force_requested_at j) → force = dj_force_requested_at j) →
  dj_state j ≠ DelCompleted →
  job_evolves j (dj_with j state phase attempts next force failure).
Proof. intros Hp Hf Hc. by split. Qed.

Lemma not_completed (j : ContentLockDeletionJob) (state : ContentLockDeletionState) :
  dj_state j = state → state ≠ DelCompleted → dj_state j ≠ DelCompleted.
Proof. by intros ->. Qed.

Lemma insert_job_evolves r job now r' : insert_job r job now = Ok r' → repo_evolves r r'.
Proof.
  unfold insert_job, has_intent, has_receipt, has_job. intros Hins.
  apply bind_Ok in Hins as ([] & _ & Hins). apply bind_Ok in Hins as ([] & _ & Hins).
  cbn zeta in Hins. apply bind_Ok in Hins as ([] & _ & Hins).
  apply bind_Ok in Hins as ([] & Hrec%reject_if_Ok & Hins).
  apply bind_Ok in Hins as ([] & Hdup%reject_if_Ok & Hins).
  apply bind_Ok in Hins as ([] & _ & Hins). apply bind_Ok in Hins as (a' & _ & Hins).
  injection Hins as <-. props. split; cbn.
  - intros key sj Hsj. left. exists sj. rewrite lookup_insert_ne by congruence.
    split; [done|apply job_evolves_refl].
  - intros key x Hx. exists x. split; [done|apply receipt_evolves_refl].
  - intros key [x Hx] Hnone. rewrite lookup_insert_ne by congruence. done.
Qed.

Lemma claim_next_evolves r order worker ttl now token :
  repo_evolves r (claim_next r order worker ttl now token).2.
Proof.
  unfold claim_next. cbn zeta. destruct (min_by _ _) as [[key sj]|] eqn:Hm;
    [|by apply repo_evolves_same].
  apply min_by_elem, list_elem_of_filter in Hm as [Hc Hin].
  apply list_elem_of_omap in Hin as (key' & _ & Hin).
  apply fmap_Some in Hin as (sj' & Hsj & Heq). injection Heq as <- <-. cbn in Hc.
  eapply store_job_evolves; [done|]. apply dj_with_evolves; [lia|done|].
  unfold is_claimable in Hc. by destruct (dj_state (sj_job sj)).
Qed.

(** Operations of the owner of a running job. *)
Lemma owned_evolves r job worker token now key sj state phase attempts next failure :
  find_owned r job worker token now = Some (key, sj) →
  phase_index (dj_phase (sj_job sj)) ≤ phase_index phase →
  repo_evolves r (store_job r key (unclaimed_job
    (dj_with (sj_job sj) state phase attempts next (dj_force_requested_at (sj_job sj)) failure))).
Proof.
  intros Hf Hp. apply find_owned_Some in Hf as [Hsj Ho]. apply owns_claim_running in Ho as [_ Hrun].
  eapply store_job_evolves; [done|]. apply dj_with_evolves; [done|done|congruence].
Qed.

Lemma advance_phase_evolves r job worker token next now o r' :
  advance_phase r job worker token next now = Ok (o, r') → repo_evolves r r'.
Proof.
  unfold advance_phase. intros Hadv.
  destruct (find_owned r job worker token now) as [[key sj]|] eqn:Hf;
    [|injection Hadv as <- <-; by apply repo_evolves_same].
  apply bind_Ok in Hadv as ([] & Hperm%reject_if_Ok%negb_false_iff & Hadv).
  destruct (_ && _); [injection Hadv as <- <-; by apply repo_evolves_same|].
  apply bind_Ok in Hadv as (status & _ & Hadv).
  destruct status; injection Hadv as <- <-; try by apply repo_evolves_same.
  eapply owned_evolves; [done|]. apply permits_successor in Hperm. lia.
Qed.

Lemma finish_evolves r job worker token code now o r' :
  finish r job worker token code now = Ok (o, r') → repo_evolves r r'.
Proof.
  unfold finish. intros Hfin.
  destruct (find_owned r job worker token now) as [[key sj]|] eqn:Hf;
    [|injection Hfin as <- <-; by apply repo_evolves_same].
  apply bind_Ok in Hfin as ([] & _ & Hfin). injection Hfin as <- <-.
  by eapply owned_evolves.
Qed.

Lemma retry_evolves r job worker token after now :
  repo_evolves r (schedule_retry r job worker token after now).2.
Proof.
  unfold schedule_retry. destruct (find_owned r job worker token now) as [[key sj]|] eqn:Hf;
    [|by apply repo_evolves_same]. by eapply owned_evolves.
Qed.

Lemma defer_evolves r job worker token after now :
  repo_evolves r (defer r job worker token after now).2.
Proof.
  unfold defer. destruct (find_owned r job worker token now) as [[key sj]|] eqn:Hf;
    [|by apply repo_evolves_same]. by eapply owned_evolves.
Qed.

Lemma fail_evolves r job code : repo_evolves r (fail_graceful_withdrawal r job code).2.
Proof.
  unfold fail_graceful_withdrawal. destruct (find_entry _ _) as [[key sj]|] eqn:Hf;
    [|by apply repo_evolves_same].
  apply find_entry_Some in Hf as [Hsj Hw]. unfold withdrawing in Hw.
  eapply store_job_evolves; [done|]. apply dj_with_evolves; [lia|done|]. props.
  intros Hc. by rewrite Hc in *.
Qed.

Lemma resume_evolves r creator id : repo_evolves r (resume_failed_job r creator id).2.
Proof.
  unfold resume_failed_job. cbn zeta.
  destruct (has_receipt r (creator, id)), (del_jobs r !! (creator, id)) as [sj|] eqn:Hsj;
    try by apply repo_evolves_same.
  destruct (dj_state (sj_job sj) == DelFailed) eqn:Hf; [|by apply repo_evolves_same]. props.
  eapply store_job_evolves; [done|]. apply dj_with_evolves; [lia|done|congruence].
Qed.

Lemma force_evolves r creator id frozen now :
  repo_evolves r (prepare_force_deletion_with_manifest r creator id frozen now).2.
Proof.
  unfold prepare_force_deletion_with_manifest. cbn zeta.
  destruct (has_intent r (creator, id)); [by apply repo_evolves_same|].
  destruct (del_receipts r !! (creator, id)) as [x|] eqn:Hx.
  { split; cbn.
    - intros key sj Hsj. left. exists sj. split; [done|apply job_evolves_refl].
    - intros key y. destruct (decide (key = (creator, id))) as [->|Hne].
      + rewrite lookup_insert_eq, Hx. intros [= <-]. eexists. split; [done|].
        split_match; [|apply receipt_evolves_refl]. split; cbn; [done| |done].
        intros [m Hm]. props. congruence.
      + rewrite lookup_insert_ne by done. intros Hy. exists y.
        split; [done|apply receipt_evolves_refl].
    - done. }
  assert (∀ jobs' receipts' x', jobs' = del_jobs r →
            receipts' = <[(creator, id) := x']> (del_receipts r) → ∀ intents ownership tasks a,
            repo_evolves r (MkDeletionRepo jobs' receipts' intents ownership tasks a)) as Hnew.
  { intros jobs' receipts' x' -> -> intents ownership tasks a. split; cbn.
    - intros key sj Hsj. left. exists sj. split; [done|apply job_evolves_refl].
    - intros key y Hy. exists y. rewrite lookup_insert_ne by congruence.
      split; [done|apply receipt_evolves_refl].
    - done. }
  destruct (del_jobs r !! (creator, id)) as [sj|] eqn:Hsj; [|by eapply Hnew].
  destruct (any_value _ _).
  - split_match; [by apply repo_evolves_same|]. props.
    eapply store_job_evolves; [done|]. apply dj_with_evolves; [lia|done|congruence].
  - split_match; [|by eapply Hnew].
    eapply store_job_evolves; [done|]. apply dj_with_evolves; [lia| |].
    + by intros [x ->].
    + intros Hc. by rewrite Hc in *.
Qed.

Lemma complete_synchronous_evolves r creator id at_ :
  repo_evolves r (complete_synchronous_force_deletion r creator id at_).2.
Proof.
  unfold complete_synchronous_force_deletion.
  destruct (del_receipts r !! (creator, id)) as [x|] eqn:Hx; [|by apply repo_evolves_same].
  split; cbn.
  - intros key sj Hsj. left. exists sj. split; [done|apply job_evolves_refl].
  - intros key y. destruct (decide (key = (creator, id))) as [->|Hne].
    + rewrite lookup_insert_eq, Hx. intros [= <-]. eexists. split; [done|].
      split; cbn; [done|done|]. by intros [t ->].
    + rewrite lookup_insert_ne by done. intros Hy. exists y.
      split; [done|apply receipt_evolves_refl].
  - done.
Qed.

Lemma complete_force_evolves clock r job worker token now :
  repo_ok clock r → repo_evolves r (complete_force_deletion r job worker token now).2.
Proof.
  intros Hok. unfold complete_force_deletion.
  destruct (find_entry _ _) as [[key sj]|] eqn:Hf; [|by apply repo_evolves_same].
  apply find_entry_Some in Hf as [Hsj _].
  destruct (owns_claim sj job worker token now) eqn:Ho; [|by apply repo_evolves_same].
  apply owns_claim_running in Ho as [_ Hrun]. cbn.
  destruct (dj_force_requested_at (sj_job sj)) as [forced|] eqn:Hforce;
    [|by apply repo_evolves_same].
  split; cbn.
  - intros k sj0 Hsj0. destruct (decide (k = key)) as [->|Hne].
    + right. rewrite lookup_delete_eq, lookup_insert_eq. rewrite Hsj in Hsj0.
      injection Hsj0 as <-. split_and!; [done|by rewrite Hforce|by eexists].
    + left. exists sj0. rewrite lookup_delete_ne by done. split; [done|apply job_evolves_refl].
  - intros k x Hx. destruct (decide (k = key)) as [->|Hne].
    + eapply active_no_receipt; [done|done|by right|by eexists].
    + exists x. rewrite lookup_insert_ne by done. split; [done|apply receipt_evolves_refl].
  - intros k _ Hnone. destruct (decide (k = key)) as [->|Hne]; [apply lookup_delete_eq|].
    by rewrite lookup_delete_ne.
Qed.

Lemma deletion_step_evolves clock now r r' :
  repo_ok clock r → deletion_step now r r' → repo_evolves r r'.
Proof.
  intros Hok Hstep. destruct Hstep; eauto using insert_job_evolves, claim_next_evolves,
    retry_evolves, defer_evolves, advance_phase_evolves, finish_evolves, fail_evolves,
    resume_evolves, force_evolves, complete_synchronous_evolves, complete_force_evolves.
  - unfold del_expire_unresolved_non_paykit_tasks in *.
    match goal with He : _ = Ok (b, r') |- _ =>
      apply bind_Ok in He as ([b' [a' t']] & _ & Heq); injection Heq as <- <- end.
    by apply repo_evolves_same.
  - match goal with Hb : begin_publication _ _ _ _ _ = Ok _ |- _ => rename Hb into Hbegin end.
    unfold begin_publication in Hbegin.
    do 3 apply bind_Ok in Hbegin as ([] & _ & Hbegin). injection Hbegin as <-.
    by apply repo_evolves_same.
  - unfold mark_publication_written. repeat split_match; by apply repo_evolves_same.
  - unfold abandon_publication, remove_publication_intent.
    split_match; by apply repo_evolves_same.
  - unfold compensate_publication. repeat split_match; by apply repo_evolves_same.
  - unfold reconcile_publication. repeat split_match; by apply repo_evolves_same.
  - by apply repo_evolves_same.
  - by apply repo_evolves_same.
Qed.

(** C36: along every history a deletion job keeps its identity, frozen manifest and
    starting time, only moves forward through the phases, never loses a force
    request, and is final once complete; it disappears only when forced, into a
    completed receipt; and receipts, with their completion, are permanent. *)
Theorem deletion_history start clock r clock' r' key :
  rtc timed_step (start, DeletionRepo_new) (clock, r) →
  rtc timed_step (clock, r) (clock', r') →
  (∀ sj, del_jobs r !! key = Some sj →
     (∃ sj', del_jobs r' !! key = Some sj' ∧ job_evolves (sj_job sj) (sj_job sj'))
     ∨ del_jobs r' !! key = None ∧ is_Some (del_receipts r' !! key ≫= fdr_completed_at))
  ∧ (∀ x, del_receipts r !! key = Some x →
       ∃ x', del_receipts r' !! key = Some x' ∧ receipt_evolves x x').
Proof.
  intros Hreach%reachable_ok Hsteps.
  remember (clock, r) as cr eqn:Hcr. remember (clock', r') as cr' eqn:Hcr'.
  revert clock r Hreach Hcr. induction Hsteps as [x|x y z Hs Hrest IH]; intros clock r Hok ->.
  { injection Hcr' as <- <-. split.
    - intros sj Hsj. left. exists sj. split; [done|apply job_evolves_refl].
    - intros x Hx. exists x. split; [done|apply receipt_evolves_refl]. }
  inversion Hs as [clock0 now r0 r1 Hle Hstep]; subst.
  pose proof (deletion_step_evolves _ _ _ _ Hok Hstep) as [Ej Er En].
  destruct (IH eq_refl now r1) as [IHj IHr]; [by eapply deletion_step_ok|done|].
  assert (Hgone : ∀ r2 c2, rtc timed_step (now, r1) (c2, r2) → repo_ok now r1 →
            del_jobs r1 !! key = None → is_Some (del_receipts r1 !! key) →
            del_jobs r2 !! key = None).
  { clear. intros r2 c2 Hsteps. remember (now, r1) as a. remember (c2, r2) as b.
    revert now r1 Heqa. induction Hsteps as [x|x y z Hs Hrest IH]; intros now r1 -> Hok Hn Hr.
    { injection Heqb as <- <-. done. }
    inversion Hs as [clock0 now' r0 r1' Hle Hstep]; subst.
    pose proof (deletion_step_evolves _ _ _ _ Hok Hstep) as [Ej Er En].
    eapply IH; [done|done|by eapply deletion_step_ok|by apply En|].
    destruct Hr as [x Hx]. destruct (Er _ _ Hx) as (x' & -> & _). by eexists. }
  split.
  - intros sj Hsj. destruct (Ej _ _ Hsj) as [(sj1 & Hsj1 & He1)|(Hnone & _ & Hrec)].
    + destruct (IHj _ Hsj1) as [(sj2 & Hsj2 & He2)|Hend]; [|by right].
      left. exists sj2. split; [done|by eapply job_evolves_trans].
    + right. destruct (del_receipts r1 !! key) as [x|] eqn:Hx; [|by destruct Hrec].
      split; [by eapply (Hgone _ _ Hrest); [eapply deletion_step_ok|..|exists x]|].
      destruct (IHr x eq_refl) as (x' & -> & [_ _ Hc]). cbn in *. by rewrite Hc.
  - intros x Hx. destruct (Er _ _ Hx) as (x1 & Hx1 & He1).
    destruct (IHr _ Hx1) as (x2 & Hx2 & He2). exists x2. split; [done|].
    by eapply receipt_evolves_trans.
Qed.

(** * Leases *)

(** Only the holder of the lease finds its job. *)
Lemma find_owned_other clock r key sj job worker token worker' token' now :
  repo_ok clock r → del_jobs r !! key = Some sj → dj_job_id (sj_job sj) = job →
  sj_claimed_by sj = Some worker → sj_claim_token sj = Some token →
  (worker', token') ≠ (worker, token) → find_owned r job worker' token' now = None.
Proof.
  intros Hok Hsj Hid Hw Ht Hne. apply find_entry_None. intros k sj0 Hsj0.
  apply not_true_iff_false. intros Ho.
  pose proof (owns_claim_running _ _ _ _ _ Ho) as [Hid0 _].
  assert (k = key) as -> by (eapply (ro_ids _ _ Hok); [done|done|congruence]).
  rewrite Hsj in Hsj0. injection Hsj0 as <-. unfold owns_claim in Ho. props. congruence.
Qed.

(** A leased deletion job is its holder's alone.  Presented with another worker
    or token, every operation that needs the lease reports the claim lost and
    changes nothing, and until the lease expires no claim hands the job out
    again. *)
Theorem deletion_lease_exclusive start clock r key sj worker token expires :
  rtc timed_step (start, DeletionRepo_new) (clock, r) → del_jobs r !! key = Some sj →
  sj_claimed_by sj = Some worker → sj_claim_token sj = Some token →
  sj_claim_expires_at sj = Some expires →
  let job := dj_job_id (sj_job sj) in
  (∀ worker' token' now, (worker', token') ≠ (worker, token) →
     (∀ after, schedule_retry r job worker' token' after now = (None, r))
     ∧ (∀ after, defer r job worker' token' after now = (None, r))
     ∧ (∀ next, advance_phase r job worker' token' next now = Ok (AdvanceClaimLost, r))
     ∧ (∀ code, finish r job worker' token' code now = Ok (None, r))
     ∧ complete_force_deletion r job worker' token' now = (false, r))
  ∧ ∀ order worker' ttl now token', now < expires →
      ∀ c, (claim_next r order worker' ttl now token').1 = Some c →
        dj_job_id (cdj_job c) ≠ job.
Proof.
  intros Hok%reachable_ok Hsj Hw Ht He. cbn zeta. split.
  - intros worker' token' now Hne.
    pose proof (find_owned_other _ _ _ _ _ _ _ worker' token' now Hok Hsj eq_refl Hw Ht Hne) as Hno.
    split_and!; intros; unfold schedule_retry, defer, advance_phase, finish; rewrite ?Hno; try done.
    unfold complete_force_deletion.
    rewrite (find_entry_unique _ _ key sj Hsj (Z.eqb_refl _)).
    + destruct (owns_claim sj (dj_job_id (sj_job sj)) worker' token' now) eqn:Ho; [|done].
      unfold owns_claim in Ho. props. congruence.
    + intros k sj0 Hsj0 Heq. props. by eapply (ro_ids _ _ Hok).
  - intros order worker' ttl now token' Hlt c Hc Hid. unfold claim_next in Hc. cbn zeta in Hc.
    destruct (min_by _ _) as [[k sj0]|] eqn:Hm; [|done]. injection Hc as <-. cbn in Hid.
    apply min_by_elem, list_elem_of_filter in Hm as [Hcl Hin].
    apply list_elem_of_omap in Hin as (key' & _ & Hin).
    apply fmap_Some in Hin as (sj' & Hsj0 & Heq). injection Heq as <- <-. cbn in Hcl.
    assert (k = key) as -> by by eapply (ro_ids _ _ Hok).
    rewrite Hsj in Hsj0. injection Hsj0 as <-.
    pose proof (jo_state _ _ _ _ (ro_jobs _ _ Hok _ _ Hsj)) as Hv.
    unfold is_claimable in Hcl. unfold job_state_valid, sj_has_active_lease in Hv.
    rewrite Hw, Ht, He in Hv. destruct (dj_state (sj_job sj)); try done.
    rewrite He in Hcl. cbn in Hcl. props. lia.
Qed.

(** C37: no active job blocks the queue or is lost.  A queued or running job has a time from
    which on, until it is changed, no claim that sees it comes back empty: it hands out this
    job, or another one that can be claimed and was started no later; so the job itself is
    handed out as soon as all the others that can be claimed were started after it.  The
    claimed job runs under the fresh token. *)
Theorem active_job_claimable start clock r key sj :
  rtc timed_step (start, DeletionRepo_new) (clock, r) → del_jobs r !! key = Some sj →
  dj_state (sj_job sj) = DelQueued ∨ dj_state (sj_job sj) = DelRunning →
  ∃ due, ∀ now order worker ttl token, due ≤ now → key ∈ order →
    ∃ c r', claim_next r order worker ttl now token = (Some c, r')
            ∧ (∃ key' sj', key' ∈ order ∧ del_jobs r !! key' = Some sj'
                 ∧ is_claimable sj' now = true ∧ dj_job_id (cdj_job c) = dj_job_id (sj_job sj')
                 ∧ dj_deletion_started_at (sj_job sj') ≤ dj_deletion_started_at (sj_job sj))
            ∧ ((∀ key' sj', key' ∈ order → key' ≠ key → del_jobs r !! key' = Some sj' →
                  is_claimable sj' now = true →
                  dj_deletion_started_at (sj_job sj) < dj_deletion_started_at (sj_job sj')) →
               dj_job_id (cdj_job c) = dj_job_id (sj_job sj))
            ∧ dj_state (cdj_job c) = DelRunning ∧ cdj_claim_token c = token
            ∧ (0 < ttl → find_owned r' (dj_job_id (cdj_job c)) worker token now
                         = Some ((dj_creator (cdj_job c), dj_lock_id (cdj_job c)),
                                 MkStoredJob (cdj_job c) (Some worker) (Some token)
                                   (Some (now + ttl)))).
Proof.
  intros Hok%reachable_ok Hsj Hact.
  assert (∃ due, ∀ now, due ≤ now → is_claimable sj now = true) as [due Hdue].
  { destruct (ro_jobs _ _ Hok _ _ Hsj) as [_ _ Hv Hl _ _]. unfold is_claimable.
    unfold job_state_valid, sj_has_active_lease in Hv.
    destruct Hact as [Hq|Hq]; rewrite Hq in *.
    - exists (default 0 (dj_next_attempt_at (sj_job sj))). intros now Hle.
      destruct (dj_next_attempt_at (sj_job sj)); cbn in *; [lia|done].
    - destruct Hl as [(_ & _ & [e He])|(Hcb & _)]; [|by rewrite Hcb in Hv]. rewrite He. exists e. intros now Hle.
      cbn. lia. }
  exists due. intros now order worker ttl token Hle Hin. unfold claim_next. cbn zeta.
  set (l := filter _ _).
  assert ((key, sj) ∈ l) as Hl.
  { apply list_elem_of_filter. split; [by apply Hdue|]. apply list_elem_of_omap.
    exists key. by rewrite Hsj. }
  destruct (min_by _ l) as [[k sj0]|] eqn:Hm; [|apply min_by_None in Hm; by rewrite Hm in Hl;
    apply elem_of_nil in Hl].
  eexists _, _. split; [done|]. cbn.
  assert (dj_deletion_started_at (sj_job sj0) ≤ dj_deletion_started_at (sj_job sj)) as Hold.
  { refine (min_by_least _
      (λ a b : (CreatorPubky * LockId) * StoredJob,
         dj_deletion_started_at (sj_job a.2) ≤ dj_deletion_started_at (sj_job b.2))
      l (k, sj0) _ _ _ _ Hm (key, sj) Hl); cbn; intros; lia. }
  apply min_by_elem, list_elem_of_filter in Hm as [Hcl Hk].
  apply list_elem_of_omap in Hk as (k' & Hk' & Hk).
  apply fmap_Some in Hk as (sj' & Hsj0 & Heq). injection Heq as <- <-.
  split_and!; [by exists k, sj0| |done|done|].
  { intros Hlater. destruct (decide (k = key)) as [->|Hne]; [by simplify_eq|].
    specialize (Hlater k sj0 Hk' Hne Hsj0 Hcl). lia. }
  intros Httl.
  pose proof (jo_key _ _ _ _ (ro_jobs _ _ Hok _ _ Hsj0)) as Hkey.
  unfold find_owned. rewrite <- Hkey. cbn. apply find_entry_unique.
  - by rewrite lookup_insert_eq.
  - unfold owns_claim. cbn. rewrite Z.eqb_refl, !eqb_same. cbn. lia.
  - intros k1 sj1. rewrite lookup_insert_Some. intros [[<- _]|[Hne Hsj1]] Ho; [done|].
    apply owns_claim_running in Ho as [Hid _]. by eapply (ro_ids _ _ Hok).
Qed.

(** * The access store follows the repository *)

(** A claim the access store accepts is a claim of the repository: the same job,
    in the phase the operation asks for, running, not forced, leased to the same
    worker under the same token, and not expired. *)
Theorem access_claim_refines start clock r key sj d in_phase worker token now :
  rtc timed_step (start, DeletionRepo_new) (clock, r) → del_jobs r !! key = Some sj →
  acc_deletions (del_access r) !! dj_job_id (sj_job sj) = Some d →
  live_claim d in_phase worker token now = true →
  find_owned r (dj_job_id (sj_job sj)) worker token now = Some (key, sj)
  ∧ in_phase (dj_phase (sj_job sj)) = true
  ∧ dj_force_requested_at (sj_job sj) = None.
Proof.
  intros Hok%reachable_ok Hsj Hd Hlive.
  destruct (ro_jobs _ _ Hok _ _ Hsj) as [_ _ _ _ _ (d' & Hd' & Hm & _)].
  rewrite Hd in Hd'. injection Hd' as <-. destruct Hm as [_ _ _ Hs Hp Hf Hc].
  unfold live_claim in Hlive. rewrite Hs, Hp, Hf in Hlive. props.
  destruct Hc as [Hc|Hc]; injection Hc as C1 C2 C3; [|congruence].
  split_and!; [|done|done]. apply find_entry_unique; [done| |].
  - unfold owns_claim. rewrite Z.eqb_refl, <- C3, !andb_true_iff.
    split_and!; try done; apply eqb_true; congruence.
  - intros k1 sj1 Hsj1 Ho. apply owns_claim_running in Ho as [Hid _].
    by eapply (ro_ids _ _ Hok).
Qed.

(** Resuming a job that is not failed takes the running worker's claim away in the
    access store only: the repository still reports the lease as live, but no
    operation of the access store accepts it, or any other claim, until the job is
    claimed again. *)
Theorem resume_detaches_running_claim start clock r creator id sj worker token now :
  rtc timed_step (start, DeletionRepo_new) (clock, r) →
  del_jobs r !! (creator, id) = Some sj → del_receipts r !! (creator, id) = None →
  owns_claim sj (dj_job_id (sj_job sj)) worker token now = true →
  let r' := (resume_failed_job r creator id).2 in
  del_jobs r' !! (creator, id) = Some sj
  ∧ ∃ d, acc_deletions (del_access r') !! dj_job_id (sj_job sj) = Some d
         ∧ ∀ in_phase worker' token' now', live_claim d in_phase worker' token' now' = false.
Proof.
  intros Hok%reachable_ok Hsj Hrec Ho. cbn zeta.
  apply owns_claim_running in Ho as [_ Hrun].
  destruct (ro_jobs _ _ Hok _ _ Hsj) as [_ _ _ _ _ (d & Hd & _ & _)].
  unfold resume_failed_job, has_receipt. cbn zeta. rewrite Hrec, Hsj, Hrun.
  change (DelRunning == DelFailed) with false.
  cbn [is_some snd del_jobs del_with_access del_access]. split; [done|].
  destruct (synchronize_job_spec (del_access r) (sj_job sj) None None None)
    as (_ & _ & _ & Sdel & _).
  rewrite Sdel, lookup_alter_eq, Hd. eexists. split; [done|]. intros in_phase w t n.
  unfold live_claim. cbn. by rewrite !andb_false_r.
Qed.
End history.
