(* ===== verification/DeletionEvidence.v ===== *)
(** What one execution of a deletion phase reports: its outcome and, per dependency,
    the health it observed
    ([locks-service/src/application/use_cases/execute_content_lock_deletion_phase.rs],
    [execute_forced_content_lock_deletion.rs]: the types and their operations). *)

From stdpp Require Import vector.
From S2P Require Import Prelude HashMaps Errors.

(** * Data *)

Inductive DeletionPhaseExecutionOutcome :=
  | Progressed
  | PhaseDeferred
  | PhaseClaimLost
  | TerminalFailed
  | TransientDependencyFailure
  | FatalFailure.

Inductive DeletionDependencySource :=
  | PaymentProvider
  | PaymentDrainRepository
  | EntitlementRepository
  | PubkyWithdrawal
  | PubkyReadback
  | PubkyResource
  | PubkyForcePublic
  | RepositoryQueueClaim
  | RepositoryPhaseMutation
  | RepositoryDefer
  | RepositoryRetry
  | RepositoryTerminalMutation
  | RepositoryActionLock
  | RepositoryActionLockRelease
  | RepositoryForceReceipt.

Inductive DeletionDependencyStatus := Healthy | Unavailable.

#[global] Instance DeletionPhaseExecutionOutcome_eq_dec :
  EqDecision DeletionPhaseExecutionOutcome.
Proof. solve_decision. Defined.
#[global] Instance DeletionDependencySource_eq_dec : EqDecision DeletionDependencySource.
Proof. solve_decision. Defined.
#[global] Instance DeletionDependencyStatus_eq_dec : EqDecision DeletionDependencyStatus.
Proof. solve_decision. Defined.

(** [DeletionDependencySource::ALL]. *)
Definition source_ALL : list DeletionDependencySource :=
  [PaymentProvider; PaymentDrainRepository; EntitlementRepository; PubkyWithdrawal;
   PubkyReadback; PubkyResource; PubkyForcePublic; RepositoryQueueClaim;
   RepositoryPhaseMutation; RepositoryDefer; RepositoryRetry; RepositoryTerminalMutation;
   RepositoryActionLock; RepositoryActionLockRelease; RepositoryForceReceipt].

(** [DeletionDependencySource::index]; the type carries the array's bound. *)
Definition source_index (s : DeletionDependencySource) : fin 15 :=
  match s with
  | PaymentProvider => 0
  | PaymentDrainRepository => 1
  | EntitlementRepository => 2
  | PubkyWithdrawal => 3
  | PubkyReadback => 4
  | PubkyResource => 5
  | PubkyForcePublic => 6
  | RepositoryQueueClaim => 7
  | RepositoryPhaseMutation => 8
  | RepositoryDefer => 9
  | RepositoryRetry => 10
  | RepositoryTerminalMutation => FS 10
  | RepositoryActionLock => FS (FS 10)
  | RepositoryActionLockRelease => FS (FS (FS 10))
  | RepositoryForceReceipt => FS (FS (FS (FS 10)))
  end%fin.

Record DeletionDependencyEvidence := MkEvidence {
  ev_statuses : vec (option DeletionDependencyStatus) 15;
}.

(** * Evidence *)

Definition evidence_none : DeletionDependencyEvidence :=
  MkEvidence (vreplicate 15 None).

Definition evidence_observed (source : DeletionDependencySource)
    (status : DeletionDependencyStatus) : DeletionDependencyEvidence :=
  MkEvidence (vinsert (source_index source) (Some status) (ev_statuses evidence_none)).

Definition evidence_healthy (source : DeletionDependencySource) : DeletionDependencyEvidence :=
  evidence_observed source Healthy.

Definition evidence_unavailable (source : DeletionDependencySource) :
    DeletionDependencyEvidence :=
  evidence_observed source Unavailable.

Definition evidence_status (self : DeletionDependencyEvidence)
    (source : DeletionDependencySource) : option DeletionDependencyStatus :=
  ev_statuses self !!! source_index source.

(** The new status of one slot. *)
Definition merge_status (a b : option DeletionDependencyStatus) :
    option DeletionDependencyStatus :=
  match a, b with
  | Some Unavailable, _ | _, Some Unavailable => Some Unavailable
  | Some status, None | None, Some status => Some status
  | Some Healthy, Some Healthy => Some Healthy
  | None, None => None
  end.

(** The loop over all sources, updating the array in place. *)
Definition evidence_merge (self other : DeletionDependencyEvidence) :
    DeletionDependencyEvidence :=
  MkEvidence
    (fold_left
       (λ statuses source,
          let index := source_index source in
          vinsert index (merge_status (statuses !!! index) (ev_statuses other !!! index)) statuses)
       source_ALL (ev_statuses self)).

Arguments evidence_merge : simpl never.
Arguments evidence_observed : simpl never.

(** * Executions *)

Record DeletionPhaseExecution := MkPhaseExecution {
  pe_outcome : DeletionPhaseExecutionOutcome;
  pe_evidence : DeletionDependencyEvidence;
}.

Definition phase_execution (outcome : DeletionPhaseExecutionOutcome) : DeletionPhaseExecution :=
  MkPhaseExecution outcome evidence_none.

Definition with_evidence (self : DeletionPhaseExecution) (evidence : DeletionDependencyEvidence) :
    DeletionPhaseExecution :=
  MkPhaseExecution (pe_outcome self) (evidence_merge (pe_evidence self) evidence).

Inductive DeletionExecutionErrorClass := TransientDependency | FatalError.

Definition classify_deletion_execution_error (error : ApplicationError) :
    DeletionExecutionErrorClass :=
  match error with
  | Storage _ | Verifier _ | CreatorAuthorityUnavailable => TransientDependency
  | _ => FatalError
  end.

Definition error_outcome (error : ApplicationError) : DeletionPhaseExecutionOutcome :=
  match classify_deletion_execution_error error with
  | TransientDependency => TransientDependencyFailure
  | FatalError => FatalFailure
  end.

Definition error_execution (error : ApplicationError) (source : DeletionDependencySource) :
    DeletionPhaseExecution :=
  with_evidence (phase_execution (error_outcome error)) (evidence_unavailable source).

(** What a call of the deletion repository tells about it. *)
Definition repository_execution (outcome : DeletionPhaseExecutionOutcome) :
    DeletionPhaseExecution :=
  with_evidence (phase_execution outcome)
    match outcome with
    | TransientDependencyFailure => evidence_unavailable RepositoryPhaseMutation
    | Progressed | PhaseDeferred | TerminalFailed => evidence_healthy RepositoryPhaseMutation
    | PhaseClaimLost | FatalFailure => evidence_none
    end.

(** * The forced path *)

Inductive ForcedContentLockDeletionOutcome :=
  | ForceCompleted
  | ForceDeferred
  | ForceClaimLost
  | ForceTransientDependencyFailure
  | ForceFatalFailure.

Record ForcedContentLockDeletionExecution := MkForcedExecution {
  fe_outcome : ForcedContentLockDeletionOutcome;
  fe_evidence : DeletionDependencyEvidence;
}.

Definition forced_execution (outcome : ForcedContentLockDeletionOutcome) :
    ForcedContentLockDeletionExecution :=
  MkForcedExecution outcome evidence_none.

Definition forced_with_evidence (self : ForcedContentLockDeletionExecution)
    (evidence : DeletionDependencyEvidence) : ForcedContentLockDeletionExecution :=
  MkForcedExecution (fe_outcome self) (evidence_merge (fe_evidence self) evidence).

Definition forced_error_outcome (error : ApplicationError) : ForcedContentLockDeletionOutcome :=
  match classify_deletion_execution_error error with
  | TransientDependency => ForceTransientDependencyFailure
  | FatalError => ForceFatalFailure
  end.

Definition forced_error_execution (error : ApplicationError)
    (source : DeletionDependencySource) : ForcedContentLockDeletionExecution :=
  forced_with_evidence (forced_execution (forced_error_outcome error))
    (evidence_unavailable source).

(** The executor of the server reports both paths alike. *)
Definition forced_phase_outcome (outcome : ForcedContentLockDeletionOutcome) :
    DeletionPhaseExecutionOutcome :=
  match outcome with
  | ForceCompleted => Progressed
  | ForceDeferred => PhaseDeferred
  | ForceClaimLost => PhaseClaimLost
  | ForceTransientDependencyFailure => TransientDependencyFailure
  | ForceFatalFailure => FatalFailure
  end.

(** * Facts *)

Lemma source_index_inj s t : source_index s = source_index t → s = t.
Proof. by destruct s, t. Qed.

Ltac fin_case i x := inv_fin i; [by exists x|intros i].

Lemma source_index_surj (i : fin 15) : ∃ s, source_index s = i.
Proof.
  fin_case i PaymentProvider.
  fin_case i PaymentDrainRepository.
  fin_case i EntitlementRepository.
  fin_case i PubkyWithdrawal.
  fin_case i PubkyReadback.
  fin_case i PubkyResource.
  fin_case i PubkyForcePublic.
  fin_case i RepositoryQueueClaim.
  fin_case i RepositoryPhaseMutation.
  fin_case i RepositoryDefer.
  fin_case i RepositoryRetry.
  fin_case i RepositoryTerminalMutation.
  fin_case i RepositoryActionLock.
  fin_case i RepositoryActionLockRelease.
  fin_case i RepositoryForceReceipt.
  inv_fin i.
Qed.

Lemma evidence_eq a b : (∀ s, evidence_status a s = evidence_status b s) → a = b.
Proof.
  destruct a as [a], b as [b]. unfold evidence_status. cbn. intros Hs. f_equal.
  apply vec_eq. intros i. destruct (source_index_surj i) as [s <-]. apply Hs.
Qed.

Lemma merge_loop other l (v : vec (option DeletionDependencyStatus) 15) s :
  NoDup l →
  fold_left
    (λ statuses source,
       let index := source_index source in
       vinsert index (merge_status (statuses !!! index) (ev_statuses other !!! index)) statuses)
    l v !!! source_index s
  = if decide (s ∈ l) then merge_status (v !!! source_index s) (evidence_status other s)
    else v !!! source_index s.
Proof.
  intros Hnd. revert v. induction Hnd as [|x l Hx Hnd IH]; intros v; cbn; [done|].
  rewrite IH. destruct (decide (s = x)) as [->|Hne].
  - rewrite decide_False by done. rewrite vlookup_insert.
    by rewrite decide_True by (by left).
  - rewrite vlookup_insert_ne by (intros He; by apply source_index_inj in He).
    destruct (decide (s ∈ l)) as [Hin|Hin].
    + by rewrite decide_True by (by right).
    + rewrite decide_False; [done|]. intros [->|?]%elem_of_cons; done.
Qed.

Lemma source_ALL_NoDup : NoDup source_ALL.
Proof. apply (bool_decide_unpack _). vm_compute. done. Qed.

Lemma evidence_status_merge a b s :
  evidence_status (evidence_merge a b) s
  = merge_status (evidence_status a s) (evidence_status b s).
Proof.
  unfold evidence_status at 1, evidence_merge. cbn [ev_statuses].
  rewrite (merge_loop b source_ALL _ s source_ALL_NoDup). rewrite decide_True; [done|].
  destruct s; apply (bool_decide_unpack _); vm_compute; done.
Qed.

Lemma evidence_status_none s : evidence_status evidence_none s = None.
Proof. by destruct s. Qed.

Lemma evidence_status_observed source status s :
  evidence_status (evidence_observed source status) s
  = if decide (s = source) then Some status else None.
Proof.
  unfold evidence_status, evidence_observed. cbn [ev_statuses].
  destruct (decide (s = source)) as [->|Hne]; [apply vlookup_insert|].
  rewrite vlookup_insert_ne by (intros He; by apply source_index_inj in He).
  apply evidence_status_none.
Qed.

#[global] Instance merge_status_comm : Comm (=) merge_status.
Proof. by intros [[]|] [[]|]. Qed.
#[global] Instance merge_status_assoc : Assoc (=) merge_status.
Proof. by intros [[]|] [[]|] [[]|]. Qed.
#[global] Instance merge_status_idemp : IdemP (=) merge_status.
Proof. by intros [[]|]. Qed.
#[global] Instance merge_status_left_id : LeftId (=) None merge_status.
Proof. by intros [[]|]. Qed.

(** Observations only accumulate, in any order and any number of times; an
    unavailable dependency stays unavailable. *)
#[global] Instance evidence_merge_comm : Comm (=) evidence_merge.
Proof. intros a b. apply evidence_eq. intros s. by rewrite !evidence_status_merge, (comm merge_status). Qed.
#[global] Instance evidence_merge_assoc : Assoc (=) evidence_merge.
Proof. intros a b c. apply evidence_eq. intros s. by rewrite !evidence_status_merge, (assoc merge_status). Qed.
#[global] Instance evidence_merge_idemp : IdemP (=) evidence_merge.
Proof. intros a. apply evidence_eq. intros s. by rewrite !evidence_status_merge, (idemp merge_status). Qed.
#[global] Instance evidence_merge_left_id : LeftId (=) evidence_none evidence_merge.
Proof.
  intros a. apply evidence_eq. intros s.
  by rewrite evidence_status_merge, evidence_status_none, (left_id None merge_status).
Qed.

Lemma merge_status_unavailable a b :
  merge_status a b = Some Unavailable ↔ a = Some Unavailable ∨ b = Some Unavailable.
Proof. destruct a as [[]|], b as [[]|]; naive_solver. Qed.
