(* ===== verification/TaskWorker.v ===== *)
(** The worker of v1 verification tasks: completion of a claimed task
    ([locks-service/src/application/use_cases/complete_verification_task.rs]) and
    one tick of the polling worker ([locks-server/src/worker.rs]).

    The use case runs on a task repository port; the worker gives it the claimed
    task behind a fence that turns every update into a write under the lease.  Both
    repositories are in the model.  The clock is a sequence of readings, consumed
    in order; the content lock repository and the verifiers are parameters and may
    answer differently at each point of the run. *)

From S2P Require Import Prelude HashMaps RustStr Externals Ids Json LockPolicy Wire Errors.
From S2P Require Import Evaluator Entitlements Verifiers Lifecycle GraphTask Fence TaskStore TaskInv.
From S2P Require Import DeletionJob Run.

(** The identifier derived from the lock against the one in its path. *)
Definition verify_lock_id (actual : LockId) (path : ContentLockPath) :
    result ApplicationError LockId :=
  let expected := path_lock_id path in
  if actual == expected then Ok actual else Err (ContentLockHashMismatch expected actual).

Definition viewer_safe_failure_message (e : ApplicationError) : string :=
  match e with
  | ContentLockUnavailable => "content lock unavailable"
  | EntitlementNotSatisfied => "entitlement not satisfied"
  | ContentLockHashMismatch _ _ | ContentLockCanonicalization _ => "content lock invalid"
  | EmptyContentLockCriteria | DuplicateContentLockCriterion _
  | DuplicateVerificationResultCriterion _ | UnknownVerificationResultCriterion _ =>
      "entitlement not satisfied"
  | _ => "verification failed"
  end.

Inductive VerificationDecision :=
  | DecisionPending
  | DecisionSatisfied (result : VerificationResult)
  | DecisionTerminalUnsatisfied (reason : VerificationTerminalReason).

Record CompletedVerificationTask := MkCompletedTask {
  done_task_id : TaskId;
  done_status : VerificationTaskStatus;
  done_completed_at : OffsetDateTime;
}.

#[local] Open Scope run_scope.

(** * The task repository port *)

(** What completion uses of [VerificationTaskRepository]; an update may read the
    clock. *)
Class TaskPort (S : Type) := {
  port_get : S → TaskId → option VerificationTaskRecord;
  port_reads_clock : bool;
  port_update : S → VerificationTaskRecord → OffsetDateTime → result ApplicationError () * S;
}.

(** * Leases *)

(** The worker's record of the task is the queue's, as long as the queue has a
    record under the worker's token. *)
Definition holds (token : Uuid) (s : TaskRepo) (t : VerificationTaskRecord) : Prop :=
  tasks_ok s ∧ ∀ r, r ∈ claimer_records s → ct_claim_token r = Some token → ct_task r = t.

(** What the others may do: any calls, except under a token that is not theirs. *)
Definition rely `{UuidCrate} (token : Uuid) (s s' : TaskRepo) : Prop :=
  rtc task_step s s'
  ∧ ∀ r, r ∈ claimer_records s' → ct_claim_token r = Some token → r ∈ claimer_records s.

Section leases.
  Context `{UuidCrate}.

Lemma tasks_ok_steps s s' : rtc task_step s s' → tasks_ok s → tasks_ok s'.
Proof. induction 1; [done|]. intros Hok. apply IHrtc. by eapply task_step_ok. Qed.

Lemma rely_holds token s s' t : rely token s s' → holds token s t → holds token s' t.
Proof.
  intros [Hsteps Hq] [Hok Hh]. split; [by eapply tasks_ok_steps|]. intros r Hr Ht.
  apply Hh; [by apply Hq|done].
Qed.

(** A live lease's record is the stored one. *)
Lemma live_stored s i r :
  tasks_ok s → claimer_records s !! i = Some r → task_undeleted (task_fence s) r = true →
  tr_status (ct_task r) ≠ Pending → task_records s !! ct_id r = Some (ct_task r).
Proof. intros Hok Hi Hun Hst. by destruct (queued_slot s i r Hok Hi Hun) as (_ & ? & _); [right|]. Qed.

(** A write under the lease by the worker that holds the record. *)
Lemma persist_held token s t t' worker at_ o s' :
  holds token s t → lifecycle_step t t' →
  persist_claimed_verification_task_transition s t' worker token at_ = Ok (o, s') →
  rtc task_step s s' ∧ (o = None → s' = s)
  ∧ (is_Some o → task_records s' = <[tr_task_id t' := t']> (task_records s) ∧ holds token s' t').
Proof.
  intros [Hok Hh] Hstep Hp. pose proof Hp as Hcode.
  unfold persist_claimed_verification_task_transition in Hcode.
  apply bind_Ok in Hcode as ([] & _ & Hcode).
  destruct (find_first _ _) as [[i r]|] eqn:Hf.
  2: { injection Hcode as <- <-. split_and!; [done|done|]. by intros [? ?]. }
  apply find_first_Some in Hf as [Hi Hl].
  pose proof (live_task_facts _ _ _ _ _ _ _ Hl) as (Hid & Hst & Hun).
  assert (r ∈ claimer_records s) as Hr by (by eapply list_elem_of_lookup_2).
  assert (ct_claim_token r = Some token) as Htok by (unfold live_task in Hl; by props).
  assert (ct_task r = t) as Hrt by (by apply Hh). rewrite <- Hrt in Hstep.
  assert (task_step s s') as Hts by (by eapply (ts_persist s r)).
  destruct (task_step_ok _ _ Hts Hok) as [Hok' _]. split; [by apply rtc_once|].
  pose proof (sf_identity _ _ (lifecycle_step_facts _ _ Hstep)) as Hident.
  assert (task_records s !! tr_task_id t' = Some (ct_task r)) as Hrec.
  { rewrite <- Hid. apply (live_stored s i r Hok Hi Hun). rewrite Hst. by destruct (tr_status t'). }
  rewrite (proj2 (proj2 (proj2 (with_lifecycle_of_spec (ct_task r) t'))) Hident) in Hcode.
  destruct (update_stores s (ct_task r) t' Hrec Hident) as (f & Hup & _).
  rewrite Hup in Hcode. cbn [mbind result_bind] in Hcode. injection Hcode as <- <-.
  split; [done|]. intros _. split; [done|]. split; [done|]. cbn.
  intros x [j Hj]%list_elem_of_lookup Hx.
  apply list_lookup_insert_Some in Hj as [(_ & <- & _)|[Hne Hj]];
    [by destruct (tr_status t' == PublishingEntitlement)|].
  exfalso. apply Hne. apply list_elem_of_lookup_2 in Hj as Hxin.
  assert (x = r) as ->.
  { apply (same_record s x r Hok Hxin Hr). unfold ct_id. by rewrite (Hh x Hxin Hx), (Hh r Hr Htok). }
  eapply (NoDup_lookup _ _ _ (ct_id r) (tk_ids s Hok)); rewrite list_lookup_fmap; by rewrite ?Hi, ?Hj.
Qed.
End leases.

Section completion.
  Context `{Base32, Blake3, JsonCanonicalizer, CanonicalizationError}.
  Context {E : Type} `{!EntitlementStoreV1 E}.
  Context (clock : nat → OffsetDateTime).
  (** the content lock repository and the verifiers, at a point of the run *)
  Context (content_locks : nat → CreatorPubky → ContentLockPath →
             result ApplicationError (option ContentLock)).
  Context (verifiers : nat → StaticCriterionVerifierRegistry).
  Context (verified_by : LockServerPubky).

Section use_case.
  Context {S : Type} `{!TaskPort S}.

Definition get_task (id : TaskId) : Run S E (option VerificationTaskRecord) := λ w,
  (Ok (port_get (w_store w) id), w).

Definition update_task (t : VerificationTaskRecord) : Run S E () := λ w,
  let '(r, s') := port_update (w_store w) t (clock (w_ticks w)) in
  (r, MkWorld s' (w_entitlements w) (w_ticks w + if port_reads_clock then 1 else 0)%nat).

Definition insert_bundle (b : VerifiedProofBundle) : Run S E (result ApplicationError ()) := λ w,
  let '(r, e') := ent1_insert (w_entitlements w) b in
  (Ok r, MkWorld (w_store w) e' (w_ticks w)).

Definition read_bundle (creator : CreatorPubky) (bundle_id : BundleId) :
    Run S E (option VerifiedProofBundle) := λ w,
  let '(r, e') := ent1_get (w_entitlements w) creator bundle_id in
  (r, MkWorld (w_store w) e' (w_ticks w)).

Definition current_lock (resource : PubkyLockResource) : Run S E (option ContentLock) := λ w,
  (content_locks (w_ticks w) (resource_creator resource) (resource_content_lock_path resource), w).

Definition verify_content_lock_identity (lock : ContentLock) (path : ContentLockPath) :
    result ApplicationError LockId :=
  actual ← frozen_lock_id lock; verify_lock_id actual path.

(** The loop of [verify_criteria]. *)
Fixpoint verify_each (registry : StaticCriterionVerifierRegistry)
    (submitted : SubmittedProofBundle) (verified_at : OffsetDateTime)
    (done : list CriterionVerificationResult) (criteria : list Criterion) :
    result ApplicationError VerificationDecision :=
  match criteria with
  | [] => Ok (DecisionSatisfied (MkVerificationResult done))
  | c :: rest =>
      match List.find (λ p, (proof_criterion_id p == criterion_id c)
                            && (proof_verifier_type p == criterion_verifier_type c))
              (sb_proofs submitted) with
      | None => verify_each registry submitted verified_at done rest
      | Some proof =>
          verifier ← ok_or (verifier_for registry (criterion_verifier_type c))
                       (UnsupportedVerifierType (criterion_verifier_type c));
          let resource := sb_pubky_lock_resource submitted in
          outcome ← verifier (MkVerificationRequest (sb_bundle_id submitted)
                                (resource_creator resource) (resource_lock_id resource) c proof
                                verified_by verified_at);
          match outcome with
          | OutcomePending => Ok DecisionPending
          | OutcomeTerminalUnsatisfied reason => Ok (DecisionTerminalUnsatisfied reason)
          | OutcomeSatisfied r => verify_each registry submitted verified_at (done ++ [r]) rest
          end
      end
  end.

Definition verify_criteria (t : VerificationTaskRecord) (lock : ContentLock) :
    Run S E (result ApplicationError VerificationDecision) :=
  verified_at ⟵ now clock;
  λ w, (Ok (verify_each (verifiers (w_ticks w)) (tr_submitted_proof_bundle t) verified_at []
              (cl_criteria lock)), w).

(** A pending task is started first; other statuses pass. *)
Definition start_pending (t : VerificationTaskRecord) : Run S E VerificationTaskRecord :=
  match tr_status t with
  | Pending =>
      at_ ⟵ now clock;
      in_progress ⟵ run_lift (transition_to t InProgress at_ None);
      _ ⟵ update_task in_progress;
      run_ret in_progress
  | _ => run_ret t
  end.

Definition persist_failed_task (t : VerificationTaskRecord) (message : string) : Run S E () :=
  in_progress ⟵ start_pending t;
  at_ ⟵ now clock;
  failed ⟵ run_lift (transition_to in_progress Failed at_ (Some message));
  update_task failed.

Definition fail_with {A} (t : VerificationTaskRecord) (e : ApplicationError) : Run S E A :=
  _ ⟵ persist_failed_task t (viewer_safe_failure_message e);
  run_err e.

Definition publish_entitlement_and_complete (id : TaskId) (t : VerificationTaskRecord)
    (entitlement : VerifiedProofBundle) : Run S E CompletedVerificationTask :=
  written ⟵ insert_bundle entitlement;
  read_back ⟵ read_bundle (resource_creator (vb_pubky_lock_resource entitlement))
                (vb_bundle_id entitlement);
  if negb (is_some_and (λ existing, existing == entitlement) read_back)
  then run_err (match written with
                | Err e => e
                | Ok _ => Storage "published entitlement was not equivalent on read-back"
                end)
  else
    completed_at ⟵ now clock;
    completed ⟵ run_lift (complete_entitlement_publication t completed_at);
    _ ⟵ update_task completed;
    run_ret (MkCompletedTask id Completed completed_at).

(** The task once its criteria are met: evaluated, made durable, published. *)
Definition complete_satisfied (id : TaskId) (t : VerificationTaskRecord) (lock : ContentLock)
    (vr : VerificationResult) : Run S E CompletedVerificationTask :=
  t ⟵ start_pending t;
  match evaluate_entitlement lock vr with
  | Ok false => fail_with t EntitlementNotSatisfied
  | Err e => fail_with t e
  | Ok true =>
      let submitted := tr_submitted_proof_bundle t in
      let entitlement := MkVerifiedProofBundle VERIFIED_PROOF_BUNDLE_VERSION
        (sb_bundle_id submitted) (sb_pubky_lock_resource submitted) vr Unbounded in
      publishing ⟵ run_lift (begin_entitlement_publication t entitlement);
      _ ⟵ update_task publishing;
      publish_entitlement_and_complete id publishing entitlement
  end.

Definition execute (id : TaskId) : Run S E CompletedVerificationTask :=
  found ⟵ get_task id;
  t ⟵ run_lift (ok_or found (MissingRecord "verification_task"));
  if tr_status t == PublishingEntitlement then
    entitlement ⟵ run_lift (ok_or (tr_entitlement_to_publish t)
      (InvalidVerificationTaskState "publishing task is missing entitlement payload"));
    publish_entitlement_and_complete id t entitlement
  else
    let resource := sb_pubky_lock_resource (tr_submitted_proof_bundle t) in
    lock ⟵ current_lock resource;
    match lock with
    | None => fail_with t ContentLockUnavailable
    | Some lock =>
        match verify_content_lock_identity lock (resource_content_lock_path resource) with
        | Err e => fail_with t e
        | Ok _ =>
            decision ⟵ verify_criteria t lock;
            match decision with
            | Ok (DecisionSatisfied vr) => complete_satisfied id t lock vr
            | Ok DecisionPending => run_err VerificationPending
            | Ok (DecisionTerminalUnsatisfied reason) =>
                in_progress ⟵ start_pending t;
                completed_at ⟵ now clock;
                expired ⟵ run_lift (expire in_progress reason completed_at);
                _ ⟵ update_task expired;
                run_ret (MkCompletedTask id Expired completed_at)
            | Err VerificationPending => run_err VerificationPending
            | Err PaykitPaymentStatusConflict => run_err PaykitPaymentStatusConflict
            | Err e => fail_with t e
            end
        end
    end.
End use_case.

(** * The claimed task behind its fence *)

(** [interfere]: what the other users of the store do before an update. *)
Record ClaimFencedTasks := MkFenced {
  cf_repo : TaskRepo;
  cf_claim : ClaimedVerificationTask;
  cf_worker_id : string;
}.

Context (interfere : OffsetDateTime → TaskRepo → TaskRepo).

#[local] Instance fenced_tasks : TaskPort ClaimFencedTasks := {|
  port_get s id :=
    if tr_task_id (cvt_task (cf_claim s)) == id then Some (cvt_task (cf_claim s)) else None;
  port_reads_clock := true;
  port_update s t at_ :=
    let repo := interfere at_ (cf_repo s) in
    let fenced r := MkFenced r (cf_claim s) (cf_worker_id s) in
    match persist_claimed_verification_task_transition repo t (cf_worker_id s)
            (cvt_claim_token (cf_claim s)) at_ with
    | Err e => (Err e, fenced repo)
    | Ok (None, repo') => (Err VerificationTaskClaimLost, fenced repo')
    | Ok (Some _, repo') => (Ok (), fenced repo')
    end;
|}.

(** The repository itself as the port: the unclaimed completion. *)
#[local] Instance plain_tasks : TaskPort TaskRepo := {|
  port_get s id := get_verification_task s id;
  port_reads_clock := false;
  port_update s t _ :=
    match update_verification_task s t with
    | Ok s' => (Ok (), s')
    | Err e => (Err e, s)
    end;
|}.

Definition execute_claimed (id : TaskId) (claim : ClaimedVerificationTask) (worker_id : string) :
    Run TaskRepo E CompletedVerificationTask := λ w,
  let status := tr_status (cvt_task claim) in
  if (tr_task_id (cvt_task claim) != id)
     || negb ((status == InProgress) || (status == PublishingEntitlement))
  then (Err (InvalidVerificationTaskState
               "claimed completion requires the matching active task"), w)
  else
    let '(res, w') := execute (S := ClaimFencedTasks) id
      (MkWorld (MkFenced (w_store w) claim worker_id) (w_entitlements w) (w_ticks w)) in
    (res, MkWorld (cf_repo (w_store w')) (w_entitlements w') (w_ticks w')).

(** * Safety of a claimed completion *)

(** The entitlement is about the task's submission, and the criteria of the lock
    that is published under the submission's path are met by its evidence. *)
Definition entitled (t : VerificationTaskRecord) (b : VerifiedProofBundle) : Prop :=
  let submitted := tr_submitted_proof_bundle t in
  let resource := sb_pubky_lock_resource submitted in
  vb_bundle_id b = sb_bundle_id submitted ∧ vb_pubky_lock_resource b = resource
  ∧ ∃ n lock, content_locks n (resource_creator resource) (resource_content_lock_path resource)
              = Ok (Some lock)
      ∧ lock_id lock = Some (resource_lock_id resource)
      ∧ evaluate_entitlement lock (vb_verification_result b) = Ok true.

(** What is being published is backed by evidence. *)
Definition backed (s : TaskRepo) : Prop :=
  ∀ id t b, task_records s !! id = Some t → tr_status t = PublishingEntitlement →
    tr_entitlement_to_publish t = Some b → entitled t b.

(** The entitlement was durable in the store before it was published. *)
Definition durable_first `{UuidCrate} (id : TaskId) (s s' : TaskRepo) (b : VerifiedProofBundle) : Prop :=
  ∃ s1 t1, rtc task_step s s1 ∧ rtc task_step s1 s' ∧ task_records s1 !! id = Some t1
    ∧ tr_status t1 = PublishingEntitlement ∧ tr_entitlement_to_publish t1 = Some b.

(** The calls of a publication, whatever the store and its other users do in them: the
    entitlement is inserted and then read back. *)
Definition published_by (e e' : E) (b : VerifiedProofBundle)
    (read : result ApplicationError (option VerifiedProofBundle)) : Prop :=
  ∃ written e1, ent1_insert e b = (written, e1)
    ∧ ent1_get e1 (resource_creator (vb_pubky_lock_resource b)) (vb_bundle_id b) = (read, e').

Section safety.
  Context `{!UuidCrate}.
  Context (token : Uuid) (Hrely : ∀ at_ s, rely token s (interfere at_ s)).
  Context (Hbacked : ∀ at_ s, backed s → backed (interfere at_ s)).

Abbreviation fenced := (World ClaimFencedTasks E).
Abbreviation repo w := (cf_repo (w_store w)).

(** The worker's own token guards its writes. *)
Definition under_token (w : fenced) : Prop := cvt_claim_token (cf_claim (w_store w)) = token.

Lemma backed_insert s id t :
  backed s → (∀ b, tr_status t = PublishingEntitlement → tr_entitlement_to_publish t = Some b → entitled t b) →
  ∀ s', task_records s' = <[id := t]> (task_records s) → backed s'.
Proof.
  intros Hb Ht s' Hs' id' u b. rewrite Hs'. destruct (decide (id' = id)) as [->|Hne].
  - rewrite lookup_insert_eq. intros [= <-]. apply Ht.
  - rewrite lookup_insert_ne by done. apply Hb.
Qed.

Lemma fenced_update (w : fenced) t t' res w' :
  holds token (repo w) t → under_token w → lifecycle_step t t' →
  (∀ b, tr_status t' = PublishingEntitlement → tr_entitlement_to_publish t' = Some b → entitled t' b) →
  update_task t' w = (res, w') →
  rtc task_step (repo w) (repo w') ∧ (backed (repo w) → backed (repo w'))
  ∧ w_entitlements w' = w_entitlements w ∧ under_token w'
  ∧ (res = Ok () → task_records (repo w') !! tr_task_id t' = Some t' ∧ holds token (repo w') t').
Proof.
  intros Hh Hu Hstep Hent Hup. unfold update_task in Hup. cbn [port_update fenced_tasks] in Hup.
  pose proof (Hrely (clock (w_ticks w)) (repo w)) as Hr.
  pose proof (Hbacked (clock (w_ticks w)) (repo w)) as Hb.
  pose proof (rely_holds _ _ _ _ Hr Hh) as Hh1. rewrite Hu in Hup. unfold under_token in *.
  destruct (persist_claimed_verification_task_transition _ _ _ _ _) as [[o s1]|e] eqn:Hp.
  - destruct (persist_held _ _ _ _ _ _ _ _ Hh1 Hstep Hp) as (Hs & Hn & Hy).
    destruct o as [t1|]; injection Hup as <- <-; cbn.
    + destruct (Hy ltac:(done)) as [Hrec Hh'].
      split_and!; [by etrans; [apply Hr|]| |done|done|].
      * intros Hbk. eapply backed_insert; [by apply Hb|exact Hent|exact Hrec].
      * intros _. by rewrite Hrec, lookup_insert_eq.
    + rewrite (Hn eq_refl). by split_and!; [apply Hr|..].
  - injection Hup as <- <-. cbn. by split_and!; [apply Hr|..].
Qed.

Lemma publish_spec (w : fenced) id t b res w' :
  holds token (repo w) t → under_token w → tr_status t = PublishingEntitlement →
  tr_entitlement_to_publish t = Some b → publish_entitlement_and_complete id t b w = (res, w') →
  rtc task_step (repo w) (repo w') ∧ (backed (repo w) → backed (repo w'))
  ∧ ∃ read, published_by (w_entitlements w) (w_entitlements w') b read
    ∧ ∀ c, res = Ok c → done_status c = Completed ∧ read = Ok (Some b)
        ∧ ∃ t', task_records (repo w') !! tr_task_id t = Some t' ∧ tr_status t' = Completed
                ∧ tr_entitlement_to_publish t' = Some b.
Proof.
  intros Hh Hu Hst Hb Hrun. unfold publish_entitlement_and_complete in Hrun.
  apply run_bind_inv in Hrun as [(e & Hi & _)|(written & w1 & Hi & Hrun)].
  { unfold insert_bundle in Hi. by destruct (ent1_insert _ _). }
  unfold insert_bundle in Hi. destruct (ent1_insert _ _) as [r e1] eqn:He. injection Hi as <- <-.
  apply run_bind_inv in Hrun as [(e & Hg & ->)|(rb & w2 & Hg & Hrun)]; unfold read_bundle in Hg;
    cbn in Hg; destruct (ent1_get _ _ _) as [r2 e2] eqn:Hge; injection Hg as -> <-;
    assert (Hpub : published_by (w_entitlements w) e2 b _) by (by exists r, e1).
  { split_and!; [done|done|]. eexists. by split. }
  destruct (is_some_and _ rb) eqn:Hrb; cbn [negb] in Hrun.
  2: { injection Hrun as <- <-. split_and!; [done|done|]. eexists. by split. }
  apply is_some_and_true in Hrb as (x & -> & Hx). props. subst x.
  apply run_bind_inv in Hrun as [(e & [=] & _)|(at_ & w3 & Hn & Hrun)]. injection Hn as <- <-.
  apply run_bind_inv in Hrun as [(e & Hl & ->)|(t' & w4 & Hl & Hrun)]; injection Hl as Hl <-.
  { split_and!; [done|done|]. eexists. by split. }
  assert (lifecycle_step t t') as Hstep by (by eapply step_complete).
  destruct (sf_payload _ _ (lifecycle_step_facts _ _ Hstep) Hst) as (Hst' & _ & Hpay).
  pose proof (sf_identity _ _ (lifecycle_step_facts _ _ Hstep)) as Hident.
  assert (∀ b', tr_status t' = PublishingEntitlement → tr_entitlement_to_publish t' = Some b' →
                entitled t' b') as Hent by (intros b' Hx; congruence).
  apply run_bind_inv in Hrun as [(e & Hup & ->)|([] & w5 & Hup & Hrun)];
    apply (fenced_update _ t) in Hup as (Hs & Hbk & He' & _ & Hok); try done.
  - split_and!; [done|done|]. eexists. rewrite He'. by split.
  - injection Hrun as <- <-. split_and!; [done|done|]. eexists. rewrite He'. split; [done|].
    intros c [= <-]. split_and!; [done|done|]. exists t'. destruct (Hok eq_refl) as [Hrec _].
    unfold task_identity in Hident. injection Hident as <- _ _ _. split_and!; [done|done|congruence].
Qed.

(** A write that only moves the task. *)
Lemma fail_spec {A} (w : fenced) t e (res : result ApplicationError A) w' :
  holds token (repo w) t → under_token w → tr_status t = InProgress →
  fail_with t e w = (res, w') →
  rtc task_step (repo w) (repo w') ∧ (backed (repo w) → backed (repo w'))
  ∧ w_entitlements w' = w_entitlements w ∧ ∃ e', res = Err e'.
Proof.
  intros Hh Hu Hst Hrun. unfold fail_with, persist_failed_task, start_pending in Hrun. rewrite Hst in Hrun.
  assert (∀ r w1, (at_ ⟵ now clock; failed ⟵ run_lift (transition_to t Failed at_
             (Some (viewer_safe_failure_message e))); update_task failed) w = (r, w1) →
           rtc task_step (repo w) (repo w1) ∧ (backed (repo w) → backed (repo w1))
           ∧ w_entitlements w1 = w_entitlements w) as Hp.
  { intros r w1 Hm. apply run_bind_inv in Hm as [(? & [=] & _)|(at_ & w2 & Hn & Hm)].
    injection Hn as <- <-. apply run_bind_inv in Hm as [(? & Hl & _)|(t' & w3 & Hl & Hm)];
      injection Hl as Hl <-; [done|].
    assert (lifecycle_step t t') as Hstep by (by eapply step_transition).
    apply (fenced_update _ t) in Hm as (? & ? & ? & _ & _); [done..|].
    intros b Hx. apply transition_to_spec in Hl as [_ Hl]. rewrite Hst in Hl.
    by destruct Hl as (m & _ & _ & ->). }
  apply run_bind_inv in Hrun as [(e' & Hm & ->)|(u & w1 & Hm & Hrun)].
  - destruct (Hp _ _ Hm) as (? & ? & ?). eauto.
  - injection Hrun as <- <-. destruct (Hp _ _ Hm) as (? & ? & ?). eauto.
Qed.

(** How a run for the task ends: it leaves the entitlements alone, and the task is expired
    when the run is done; or it has published an entitlement with [P], and when it is
    done the entitlement was read back and the task is completed with it. *)
Definition ended (P : VerifiedProofBundle → Prop) (id : TaskId) (e e' : E) (s' : TaskRepo)
    (is_done : Prop) : Prop :=
  e' = e ∧ (is_done → ∃ t', task_records s' !! id = Some t' ∧ tr_status t' = Expired)
  ∨ ∃ b read, published_by e e' b read ∧ P b
      ∧ (is_done → read = Ok (Some b)
         ∧ ∃ t', task_records s' !! id = Some t' ∧ tr_status t' = Completed
                 ∧ tr_entitlement_to_publish t' = Some b).

Lemma ended_undone P id e s' (is_done : Prop) : ¬ is_done → ended P id e e s' is_done.
Proof. intros Hn. left. split; [done|]. by intros Hd%Hn. Qed.

(** What a run started at [w] for the task [t] may have done when it stops. *)
Definition outcome_ok (w : fenced) (t : VerificationTaskRecord)
    (res : result ApplicationError CompletedVerificationTask) (w' : fenced) : Prop :=
  rtc task_step (repo w) (repo w') ∧ (backed (repo w) → backed (repo w'))
  ∧ ended (λ b, tr_status t = PublishingEntitlement ∧ tr_entitlement_to_publish t = Some b
                ∨ entitled t b ∧ durable_first (tr_task_id t) (repo w) (repo w') b)
      (tr_task_id t) (w_entitlements w) (w_entitlements w') (repo w') (∃ c, res = Ok c).

Lemma err_undone {A} e : ¬ ∃ c, Err (A := A) (E := ApplicationError) e = Ok c.
Proof. by intros [? [=]]. Qed.

Lemma stopped (w : fenced) t e : outcome_ok w t (Err e) w.
Proof. split_and!; [done|done|apply ended_undone, err_undone]. Qed.

Lemma fail_outcome (w : fenced) t e res w' :
  holds token (repo w) t → under_token w → tr_status t = InProgress →
  fail_with t e w = (res, w') → outcome_ok w t res w'.
Proof.
  intros Hh Hu Hst Hf. destruct (fail_spec _ _ _ _ _ Hh Hu Hst Hf) as (? & ? & He & e' & ->).
  split_and!; [done|done|]. rewrite He. apply ended_undone, err_undone.
Qed.

Lemma identity_verified lock path id :
  verify_content_lock_identity lock path = Ok id → lock_id lock = Some (path_lock_id path).
Proof.
  unfold verify_content_lock_identity, frozen_lock_id, verify_lock_id.
  intros (x & Hx%ok_or_Ok & Hv)%bind_Ok. destruct (x == path_lock_id path) eqn:Hx'; [|done].
  props. by subst.
Qed.

(** A lock found under the submitted path, with the identifier in it. *)
Definition lock_found (t : VerificationTaskRecord) (lock : ContentLock) : Prop :=
  let resource := sb_pubky_lock_resource (tr_submitted_proof_bundle t) in
  (∃ n, content_locks n (resource_creator resource) (resource_content_lock_path resource)
        = Ok (Some lock))
  ∧ lock_id lock = Some (resource_lock_id resource).

Lemma satisfied_outcome (w : fenced) t lock vr res w' :
  holds token (repo w) t → under_token w → tr_status t = InProgress → lock_found t lock →
  complete_satisfied (tr_task_id t) t lock vr w = (res, w') → outcome_ok w t res w'.
Proof.
  intros Hh Hu Hst [[n Hlock] Hlid] Hrun. unfold complete_satisfied, start_pending in Hrun.
  rewrite Hst in Hrun.
  apply run_bind_inv in Hrun as [(? & [=] & _)|(t0 & w0 & Hr & Hrun)]. injection Hr as <- <-.
  destruct (evaluate_entitlement lock vr) as [[]|e] eqn:Hev; [|by eapply fail_outcome..].
  apply run_bind_inv in Hrun as [(? & Hl & ->)|(t1 & w1 & Hl & Hrun)]; injection Hl as Hl <-;
    [apply stopped|].
  set (b := MkVerifiedProofBundle _ _ _ _ _) in *.
  assert (lifecycle_step t t1) as Hstep by (by eapply step_begin).
  pose proof (sf_identity _ _ (lifecycle_step_facts _ _ Hstep)) as Hident.
  assert (tr_status t1 = PublishingEntitlement ∧ tr_entitlement_to_publish t1 = Some b) as [Hst1 Hb1].
  { unfold begin_entitlement_publication in Hl. apply bind_Ok in Hl as ([] & _ & Hl).
    apply bind_Ok in Hl as ([] & _ & Hl). by injection Hl as <-. }
  unfold task_identity in Hident. injection Hident as Hid _ Hsub _.
  assert (entitled t b) as Hent by (split_and!; [done|done|by exists n, lock]).
  assert (entitled t1 b) as Hent1 by (unfold entitled; by rewrite Hsub).
  apply run_bind_inv in Hrun as [(? & Hup & ->)|([] & w2 & Hup & Hrun)];
    (apply (fenced_update _ t) in Hup as (Hs & Hbk & He & Hu2 & Hok); [|try done..]);
    try (intros b' _ Hb'; congruence).
  { split_and!; [done|done|]. rewrite He. apply ended_undone, err_undone. }
  destruct (Hok eq_refl) as [Hrec Hh2]. rewrite Hid in Hrec.
  destruct (publish_spec _ _ _ _ _ _ Hh2 Hu2 Hst1 Hb1 Hrun) as (Hs2 & Hbk2 & read & Hpub & Hres).
  split_and!; [by etrans|by auto|]. right. exists b, read. rewrite He in Hpub. split_and!; [done| |].
  - right. split; [done|]. by exists (repo w2), t1.
  - intros [c Hc]. destruct (Hres c Hc) as (_ & Hread & t' & Ht' & Hst' & Hb').
    split; [done|]. exists t'. by rewrite <- Hid.
Qed.

Lemma expire_outcome (w : fenced) t reason res w' :
  holds token (repo w) t → under_token w → tr_status t = InProgress →
  (in_progress ⟵ start_pending t; completed_at ⟵ now clock;
   expired ⟵ run_lift (expire in_progress reason completed_at); _ ⟵ update_task expired;
   run_ret (MkCompletedTask (tr_task_id t) Expired completed_at)) w = (res, w') →
  outcome_ok w t res w'.
Proof.
  intros Hh Hu Hst Hrun. unfold start_pending in Hrun. rewrite Hst in Hrun.
  apply run_bind_inv in Hrun as [(? & [=] & _)|(t0 & w0 & Hr & Hrun)]. injection Hr as <- <-.
  apply run_bind_inv in Hrun as [(? & [=] & _)|(at_ & w1 & Hn & Hrun)]. injection Hn as <- <-.
  apply run_bind_inv in Hrun as [(? & Hl & ->)|(t1 & w2 & Hl & Hrun)]; injection Hl as Hl <-.
  { apply (stopped (MkWorld _ _ _)). }
  assert (lifecycle_step t t1) as Hstep by (by eapply step_expire).
  assert (tr_status t1 = Expired) as Hst1.
  { unfold expire in Hl. apply bind_Ok in Hl as ([] & _ & Hl). apply bind_Ok in Hl as ([] & _ & Hl).
    apply bind_Ok in Hl as ([] & _ & Hl). by injection Hl as <-. }
  assert (∀ b, tr_status t1 = PublishingEntitlement → tr_entitlement_to_publish t1 = Some b →
               entitled t1 b) as Hent by (intros b Hx; congruence).
  apply run_bind_inv in Hrun as [(? & Hup & ->)|([] & w3 & Hup & Hrun)];
    apply (fenced_update _ t) in Hup as (Hs & Hbk & He & _ & Hok); try done.
  { split_and!; [done|done|]. rewrite He. apply ended_undone, err_undone. }
  injection Hrun as <- <-. split_and!; [done|done|]. rewrite He. left. split; [done|]. intros _.
  destruct (Hok eq_refl) as [Hrec _].
  pose proof (sf_identity _ _ (lifecycle_step_facts _ _ Hstep)) as Hident.
  unfold task_identity in Hident. injection Hident as Hid _ _ _. rewrite Hid in Hrec. by exists t1.
Qed.

Lemma execute_spec (w : fenced) claim res w' :
  cf_claim (w_store w) = claim → cvt_claim_token claim = token →
  holds token (repo w) (cvt_task claim) →
  tr_status (cvt_task claim) = InProgress ∨ tr_status (cvt_task claim) = PublishingEntitlement →
  execute (tr_task_id (cvt_task claim)) w = (res, w') → outcome_ok w (cvt_task claim) res w'.
Proof.
  intros Hclaim Htok Hh Hst Hrun. set (t := cvt_task claim) in *.
  assert (under_token w) as Hu by (unfold under_token; by rewrite Hclaim).
  unfold execute in Hrun.
  apply run_bind_inv in Hrun as [(? & [=] & _)|(o & w0 & Hg & Hrun)]. injection Hg as <- <-.
  cbn [port_get fenced_tasks] in Hrun. rewrite Hclaim in Hrun. fold t in Hrun.
  rewrite eqb_same in Hrun. cbn [ok_or run_lift] in Hrun. unfold run_bind at 1 in Hrun.
  unfold run_lift at 1 in Hrun.
  destruct (tr_status t == PublishingEntitlement) eqn:Hp; props.
  - apply run_bind_inv in Hrun as [(? & Hl & ->)|(b & w1 & Hl & Hrun)]; injection Hl as Hl <-;
      [apply stopped|]. apply ok_or_Ok in Hl.
    destruct (publish_spec _ _ _ _ _ _ Hh Hu Hp Hl Hrun) as (Hs & Hbk & read & Hpub & Hres).
    split_and!; [done|done|]. right. exists b, read. split_and!; [done|by left|].
    intros [c Hc]. by destruct (Hres c Hc) as (_ & ? & ?).
  - destruct Hst as [Hst|Hst]; [|done].
    apply run_bind_inv in Hrun as [(? & Hl & ->)|(lock & w1 & Hl & Hrun)];
      injection Hl as Hlock <-; [apply stopped|].
    destruct lock as [lock|]; [|by eapply fail_outcome].
    destruct (verify_content_lock_identity _ _) as [lid|] eqn:Hid; [|by eapply fail_outcome].
    apply identity_verified in Hid.
    apply run_bind_inv in Hrun as [(? & Hv & _)|(decision & w2 & Hv & Hrun)].
    { apply run_bind_inv in Hv as [(? & [=] & _)|(? & ? & _ & [=])]. }
    apply run_bind_inv in Hv as [(? & [=] & _)|(at_ & w1 & Hn & Hv)]. injection Hn as _ <-.
    injection Hv as _ <-. set (w2 := MkWorld _ _ _) in Hrun.
    destruct decision as [[|vr|reason]|e].
    + injection Hrun as <- <-. apply (stopped w2).
    + apply (satisfied_outcome w2 t lock vr res w'); try done. split; [by eexists|done].
    + apply (expire_outcome w2 t reason res w'); done.
    + destruct e; try (by eapply (fail_outcome w2)); (injection Hrun as <- <-; apply (stopped w2)).
Qed.

Lemma claimed_outcome (w : World TaskRepo E) id claim worker res w' :
  cvt_claim_token claim = token → holds token (w_store w) (cvt_task claim) →
  execute_claimed id claim worker w = (res, w') →
  ∃ w1 : fenced, outcome_ok (MkWorld (MkFenced (w_store w) claim worker) (w_entitlements w)
                               (w_ticks w)) (cvt_task claim) res w1
    ∧ w_store w' = repo w1 ∧ w_entitlements w' = w_entitlements w1.
Proof.
  intros Htok Hh Hrun. unfold execute_claimed in Hrun. set (w0 := MkWorld (MkFenced _ _ _) _ _) in *.
  destruct (_ || _) eqn:Hguard; [injection Hrun as <- <-; exists w0; split; [apply stopped|done]|].
  props. destruct (execute _ _) as [r w1] eqn:Hex. injection Hrun as <- <-.
  assert (tr_status (cvt_task claim) = InProgress
          ∨ tr_status (cvt_task claim) = PublishingEntitlement) as Hst.
  { match goal with Hs : (_ || _) = true |- _ => apply orb_true_iff in Hs as [?|?] end; props; eauto. }
  exists w1. split_and!; [|done|done]. eapply (execute_spec w0); [done|done|done|done|by subst].
Qed.
End safety.
End completion.


(** * One tick of the worker *)

Inductive WorkerTick :=
  | TickIdle
  | TickCompleted (id : TaskId)
  | TickRetryScheduled (id : TaskId)
  | TickFailed (id : TaskId).

Definition NON_PAYKIT_PENDING_VERIFICATION_RETRY_DELAY_SECONDS : Z := 30.

(** [i64::try_from(seconds).unwrap_or(i64::MAX)] of a [u64]. *)
Definition saturating_i64 (n : Z) : Z := if n <=? I64_MAX then n else I64_MAX.

Definition claim_timeout (secs : Z) : Duration := seconds (saturating_i64 secs).

Definition retry_delay (is_paykit_payment : bool) (interval_seconds : Z) : Duration :=
  if is_paykit_payment then seconds (saturating_i64 interval_seconds)
  else seconds NON_PAYKIT_PENDING_VERIFICATION_RETRY_DELAY_SECONDS.

Record VerificationWorker := MkVerificationWorker {
  vw_allow_dev_static_verifier : bool;
  vw_dev_static_verifier : CriterionVerifier;
  vw_paykit_payment_verifier : nat → option CriterionVerifier;
  vw_verified_by : LockServerPubky;
  vw_worker_id : string;
  vw_paykit_payment_retry_interval_seconds : Z;
  vw_claim_timeout_seconds : Z;
}.

Definition worker_registry (v : VerificationWorker) (n : nat) : StaticCriterionVerifierRegistry :=
  let r := Registry_new in
  let r := if vw_allow_dev_static_verifier v
           then with_dev_static r (vw_dev_static_verifier v) else r in
  match vw_paykit_payment_verifier v n with
  | Some paykit => with_paykit_payment r paykit
  | None => r
  end.

Definition is_paykit_submission (t : VerificationTaskRecord) : bool :=
  match sb_proofs (tr_submitted_proof_bundle t) with
  | [p] => proof_verifier_type p == PaykitPayment
  | _ => false
  end.

Section tick.
  Context `{Base32, Blake3, JsonCanonicalizer, CanonicalizationError}.
  Context {E : Type} `{!EntitlementStoreV1 E}.
  Context (clock : nat → OffsetDateTime).
  Context (content_locks : nat → CreatorPubky → ContentLockPath →
             result ApplicationError (option ContentLock)).
  Context (interfere : OffsetDateTime → TaskRepo → TaskRepo).

(** The branch of an undecided task. *)
Definition schedule_retry (v : VerificationWorker) (claim : ClaimedVerificationTask) :
    Run TaskRepo E WorkerTick := λ w,
  let id := tr_task_id (cvt_task claim) in
  let at_ := clock (w_ticks w) in
  let next := at_ + retry_delay (is_paykit_submission (cvt_task claim))
                      (vw_paykit_payment_retry_interval_seconds v) in
  let repo := interfere at_ (w_store w) in
  let after s := MkWorld s (w_entitlements w) (w_ticks w + 1)%nat in
  match schedule_verification_task_retry repo id (vw_worker_id v) (cvt_claim_token claim) at_ next with
  | Err e => (Err e, after repo)
  | Ok (None, s) => (Ok TickIdle, after s)
  | Ok (Some _, s) => (Ok (TickRetryScheduled id), after s)
  end.

Definition run_once (v : VerificationWorker) (fresh_token : Uuid) : Run TaskRepo E WorkerTick := λ w,
  let started := clock (w_ticks w) in
  let tick s := MkWorld s (w_entitlements w) (w_ticks w + 1)%nat in
  match claim_next_verification_task (w_store w) (vw_worker_id v) started
          (started + claim_timeout (vw_claim_timeout_seconds v)) fresh_token with
  | Err e => (Err e, tick (w_store w))
  | Ok (None, s) => (Ok TickIdle, tick s)
  | Ok (Some claim, s) =>
      let id := tr_task_id (cvt_task claim) in
      let '(res, w1) := execute_claimed clock content_locks (worker_registry v)
                          (vw_verified_by v) interfere id claim (vw_worker_id v) (tick s) in
      match res with
      | Ok _ => (Ok (TickCompleted id), w1)
      | Err VerificationPending | Err PaykitPaymentStatusConflict => schedule_retry v claim w1
      | Err VerificationTaskClaimLost => (Ok TickIdle, w1)
      | Err _ => (Ok (TickFailed id), w1)
      end
  end.

Section tick_safety.
  Context `{!UuidCrate}.

(** A claim writes the task it returns, which it starts if it was pending, and no other. *)
Lemma claim_stores s worker now_ expires token claim s' :
  tasks_ok s → claim_next_verification_task s worker now_ expires token = Ok (Some claim, s') →
  let t := cvt_task claim in
  task_records s' = <[tr_task_id t := t]> (task_records s)
  ∧ (tr_status t = InProgress
     ∨ tr_status t = PublishingEntitlement ∧ task_records s !! tr_task_id t = Some t).
Proof.
  intros Hok Hc. unfold claim_next_verification_task in Hc.
  destruct (find_first _ _) as [[i r]|] eqn:Hf; [|done].
  apply find_first_Some in Hf as [Hi [Hcl Hun]%andb_true_iff]. unfold is_claimable_at in Hcl.
  destruct (ct_invoice_admission_phase r == PhaseReady) eqn:Hready; [|done]. props.
  destruct (queued_slot s i r Hok Hi Hun (or_introl Hready)) as (_ & Hrec & _).
  apply bind_Ok in Hc as (task & Htask & Hc).
  assert (task_identity task = task_identity (ct_task r)
          ∧ (tr_status task = InProgress
             ∨ tr_status task = PublishingEntitlement ∧ task = ct_task r)) as [Hident Hst].
  { destruct (tr_status (ct_task r) == Pending) eqn:Hp; props.
    - split; [apply (lifecycle_step_facts (ct_task r)); by eapply step_transition|].
      apply transition_to_spec in Htask. rewrite Hp in Htask.
      left. by destruct Htask as (_ & _ & ->).
    - injection Htask as <-. split; [done|]. by destruct (tr_status (ct_task r)); [done|left|right|..]. }
  destruct (update_stores s (ct_task r) task) as (f & Hup & _).
  { unfold task_identity in Hident. unfold ct_id in Hrec. by injection Hident as -> _ _ _. }
  { done. }
  rewrite Hup in Hc. cbn [mbind result_bind] in Hc. injection Hc as <- <-. split; [done|].
  destruct Hst as [?|[? ->]]; [by left|by right].
Qed.

Lemma claim_holds s worker now_ expires token claim s' :
  tasks_ok s → (∀ r, r ∈ claimer_records s → ct_claim_token r ≠ Some token) →
  claim_next_verification_task s worker now_ expires token = Ok (Some claim, s') →
  task_step s s' ∧ holds token s' (cvt_task claim) ∧ cvt_claim_token claim = token.
Proof.
  intros Hok Hfresh Hc. assert (task_step s s') as Hs by (by eapply ts_claim).
  split; [done|]. destruct (task_step_ok _ _ Hs Hok) as [Hok' _].
  unfold claim_next_verification_task in Hc. destruct (find_first _ _) as [[i r]|] eqn:Hf; [|done].
  apply bind_Ok in Hc as (task & _ & Hc). apply bind_Ok in Hc as (s1 & Hup & Hc).
  injection Hc as <- <-. split; [|done]. split; [done|]. cbn.
  assert (claimer_records s1 = claimer_records s) as Hq.
  { unfold update_verification_task in Hup. apply bind_Ok in Hup as (? & _ & Hup). by injection Hup as <-. }
  rewrite Hq. intros x [j Hj]%list_elem_of_lookup Hx.
  apply list_lookup_insert_Some in Hj as [(_ & <- & _)|[_ Hj]]; [done|].
  by destruct (Hfresh x); [eapply list_elem_of_lookup_2|].
Qed.

(** A rescheduled task is pending again, and nothing else was written. *)
Lemma retry_pending s id worker token at_ next t s' :
  tasks_ok s → schedule_verification_task_retry s id worker token at_ next = Ok (Some t, s') →
  ∃ t', task_records s' = <[id := t']> (task_records s) ∧ tr_status t' = Pending.
Proof.
  intros Hok Hc. unfold schedule_verification_task_retry in Hc.
  destruct (find_first _ _) as [[i r]|] eqn:Hf; [|done].
  apply find_first_Some in Hf as [Hi (<- & Hst & Hun)%live_task_facts].
  pose proof (live_stored s i r Hok Hi Hun) as Hrec. rewrite Hst in Hrec. specialize (Hrec ltac:(done)).
  apply bind_Ok in Hc as (pending & Htr & Hc). apply transition_to_spec in Htr. rewrite Hst in Htr.
  destruct Htr as (_ & _ & ->).
  destruct (update_stores s (ct_task r) (with_lifecycle (ct_task r) Pending None None None None None))
    as (f & Hup & _); [done|done|].
  rewrite Hup in Hc. cbn [mbind result_bind] in Hc. injection Hc as _ <-.
  eexists. by split.
Qed.

Lemma retry_none s id worker token at_ next s' :
  schedule_verification_task_retry s id worker token at_ next = Ok (None, s') → s' = s.
Proof.
  unfold schedule_verification_task_retry. destruct (find_first _ _) as [[i r]|]; [|by intros [= <-]].
  intros (? & _ & (? & _ & [=])%bind_Ok)%bind_Ok.
Qed.

Lemma ended_weaken {P Q : VerifiedProofBundle → Prop} {id} {e e' : E} {s s'} {d d' : Prop} :
  ended P id e e' s d → (∀ b, P b → Q b) → (d' → d ∧ s' = s) → ended Q id e e' s' d'.
Proof.
  intros [[-> Hd]|(b & read & Hpub & HP & Hd)] HQ Hd'.
  - left. split; [done|]. intros [Hx ->]%Hd'. by apply Hd.
  - right. exists b, read. split_and!; [done|by apply HQ|]. intros [Hx ->]%Hd'. by apply Hd.
Qed.

Lemma durable_extend id s0 s1 s2 s3 b :
  rtc task_step s0 s1 → durable_first id s1 s2 b → rtc task_step s2 s3 → durable_first id s0 s3 b.
Proof.
  intros Hpre (sa & t & Ha & Hb & Ht) Hpost. exists sa, t. split_and!; [by etrans|by etrans|apply Ht..].
Qed.

(** What a tick may publish for its task: an entitlement that is due, and that the task
    carried before. *)
Definition publishable (t : VerificationTaskRecord) (s' : TaskRepo) (b : VerifiedProofBundle) : Prop :=
  entitled content_locks t b ∧ durable_first (tr_task_id t) TaskRepo_new s' b.

(** Where a tick that claimed the task [t] may end. *)
Definition tick_ok (t : VerificationTaskRecord) (w : World TaskRepo E)
    (res : result ApplicationError WorkerTick) (w' : World TaskRepo E) : Prop :=
  rtc task_step TaskRepo_new (w_store w') ∧ backed content_locks (w_store w')
  ∧ (∀ id, res = Ok (TickCompleted id) ∨ res = Ok (TickRetryScheduled id) → id = tr_task_id t)
  ∧ ended (publishable t (w_store w')) (tr_task_id t) (w_entitlements w) (w_entitlements w')
      (w_store w') (res = Ok (TickCompleted (tr_task_id t)))
  ∧ (res = Ok (TickRetryScheduled (tr_task_id t)) →
       ∃ t', task_records (w_store w') !! tr_task_id t = Some t' ∧ tr_status t' = Pending).

(** The claimed part of a tick, up to the decision what to do with the result. *)
Lemma claimed_part (v : VerificationWorker) token (w : World TaskRepo E) claim s1 n r w1 :
  rtc task_step TaskRepo_new (w_store w) → backed content_locks (w_store w) →
  (∀ x, x ∈ claimer_records (w_store w) → ct_claim_token x ≠ Some token) →
  (∀ at_ s, rely token s (interfere at_ s)) →
  (∀ at_ s, backed content_locks s → backed content_locks (interfere at_ s)) →
  claim_next_verification_task (w_store w) (vw_worker_id v) (clock (w_ticks w))
    (clock (w_ticks w) + claim_timeout (vw_claim_timeout_seconds v)) token = Ok (Some claim, s1) →
  execute_claimed clock content_locks (worker_registry v) (vw_verified_by v) interfere
    (tr_task_id (cvt_task claim)) claim (vw_worker_id v) (MkWorld s1 (w_entitlements w) n) = (r, w1) →
  rtc task_step TaskRepo_new (w_store w1) ∧ backed content_locks (w_store w1)
  ∧ ended (publishable (cvt_task claim) (w_store w1)) (tr_task_id (cvt_task claim))
      (w_entitlements w) (w_entitlements w1) (w_store w1) (∃ c, r = Ok c).
Proof.
  intros Hreach Hback Hfresh Hrely Hkeep Hc Hex.
  pose proof (tasks_reachable_ok _ Hreach) as Hok.
  destruct (claim_holds _ _ _ _ _ _ _ Hok Hfresh Hc) as (Hstep & Hh & Htok).
  destruct (claim_stores _ _ _ _ _ _ _ Hok Hc) as [Hrec Hst]. set (t := cvt_task claim) in *.
  assert (rtc task_step TaskRepo_new s1) as Hreach1 by (by eapply rtc_r).
  assert (task_records s1 !! tr_task_id t = Some t) as Hs1 by (by rewrite Hrec, lookup_insert_eq).
  assert (backed content_locks s1) as Hback1.
  { eapply (backed_insert content_locks (w_store w)); [done| |exact Hrec].
    intros b Hp Hb. destruct Hst as [Hst|[_ Hold]]; [congruence|by eapply Hback]. }
  destruct (claimed_outcome _ _ _ _ _ token Hrely Hkeep
              (MkWorld s1 (w_entitlements w) n) _ _ _ _ _ Htok Hh Hex)
    as (f1 & (Hsteps & Hbk & Hend) & -> & ->).
  split_and!; [by etrans|by apply Hbk|]. apply (ended_weaken Hend); [|done].
  intros b [[Hp Hb]|[Hent Hdur]].
  - split; [by eapply (Hback1 (tr_task_id t))|]. by exists s1, t.
  - split; [done|]. eapply durable_extend; [exact Hreach1|exact Hdur|done].
Qed.

Lemma publishable_later t s s' b : rtc task_step s s' → publishable t s b → publishable t s' b.
Proof. intros Hs [? Hd]. split; [done|]. eapply durable_extend; [apply rtc_refl|exact Hd|done]. Qed.

Lemma retry_tick v claim token (w w1 : World TaskRepo E) (d : Prop) res w' :
  let t := cvt_task claim in
  rtc task_step TaskRepo_new (w_store w1) → backed content_locks (w_store w1) →
  ended (publishable t (w_store w1)) (tr_task_id t) (w_entitlements w) (w_entitlements w1)
    (w_store w1) d →
  (∀ at_ s, rely token s (interfere at_ s)) →
  (∀ at_ s, backed content_locks s → backed content_locks (interfere at_ s)) →
  schedule_retry v claim w1 = (res, w') → tick_ok t w res w'.
Proof.
  intros t Hreach Hback Hend Hrely Hkeep Hrun. unfold schedule_retry in Hrun.
  set (at_ := clock (w_ticks w1)) in *. set (repo := interfere at_ (w_store w1)) in *.
  pose proof (proj1 (Hrely at_ (w_store w1))) as Hi. fold repo in Hi.
  assert (rtc task_step TaskRepo_new repo) as Hr by (by etrans).
  assert (backed content_locks repo) as Hb by (by apply Hkeep).
  assert (∀ s (r : result ApplicationError WorkerTick), rtc task_step repo s →
            r ≠ Ok (TickCompleted (tr_task_id t)) →
            ended (publishable t s) (tr_task_id t) (w_entitlements w) (w_entitlements w1) s
              (r = Ok (TickCompleted (tr_task_id t)))) as Hp.
  { intros s r Hs Hne. apply (ended_weaken Hend); [|done].
    intros b. apply publishable_later. by etrans. }
  destruct (schedule_verification_task_retry _ _ _ _ _ _) as [[o s]|e] eqn:Hs.
  - assert (rtc task_step repo s) as Hstep by (apply rtc_once; by eapply ts_retry).
    destruct o as [u|]; injection Hrun as <- <-.
    + destruct (retry_pending _ _ _ _ _ _ _ _ (tasks_reachable_ok _ Hr) Hs) as (t' & Hrec & Hst).
      split_and!; [by etrans| |by intros id [[=]|[=]]|by apply Hp|].
      * eapply (backed_insert content_locks repo); [done| |exact Hrec]. congruence.
      * intros _. exists t'. split; [|done]. cbn. by rewrite Hrec, lookup_insert_eq.
    + rewrite (retry_none _ _ _ _ _ _ _ Hs) in *.
      split_and!; [done|done|by intros id [[=]|[=]]|by apply Hp|done].
  - injection Hrun as <- <-. split_and!; [done|done|by intros id [[=]|[=]]|by apply Hp|done].
Qed.

(** C11: a tick of the verification worker is safe whatever the entitlement store answers
    and whatever the other users of the task store do before each of its writes, as long
    as they make legal steps, leave its lease alone and only let tasks publish what those
    are entitled to.  The tick keeps to that itself.  It publishes at most one
    entitlement: for evidence that satisfies the criteria of the lock found under the
    submitted path, and only after the task carried it durably.  A tick that reports
    completion reports the claimed task and leaves it expired, or completed with the
    entitlement it inserted and then read back; one that reports a retry leaves it
    pending. *)
Theorem verification_tick_safe (v : VerificationWorker) token (w w' : World TaskRepo E) res :
  rtc task_step TaskRepo_new (w_store w) → backed content_locks (w_store w) →
  (∀ r, r ∈ claimer_records (w_store w) → ct_claim_token r ≠ Some token) →
  (∀ at_ s, rely token s (interfere at_ s)) →
  (∀ at_ s, backed content_locks s → backed content_locks (interfere at_ s)) →
  run_once v token w = (res, w') →
  match claim_next_verification_task (w_store w) (vw_worker_id v) (clock (w_ticks w))
          (clock (w_ticks w) + claim_timeout (vw_claim_timeout_seconds v)) token with
  | Ok (Some claim, _) => tick_ok (cvt_task claim) w res w'
  | Ok (None, _) => res = Ok TickIdle ∧ w_store w' = w_store w ∧ w_entitlements w' = w_entitlements w
  | Err _ => False
  end.
Proof.
  intros Hreach Hback Hfresh Hrely Hkeep Hrun.
  pose proof (tasks_reachable_ok _ Hreach) as Hok. unfold run_once in Hrun.
  destruct (claim_next_verification_task _ _ _ _ _) as [[[claim|] s1]|e] eqn:Hc.
  - destruct (execute_claimed _ _ _ _ _ _ _ _ _) as [r w1] eqn:Hex.
    destruct (claimed_part _ _ _ _ _ _ _ _ Hreach Hback Hfresh Hrely Hkeep Hc Hex)
      as (Hreach1 & Hback1 & Hend).
    destruct r as [c|e]; [|destruct e]; try (by eapply retry_tick); injection Hrun as <- <-;
      (split_and!; [done|done|by intros id [[=]|[=]]| |done]); apply (ended_weaken Hend); try done.
    intros _. split; [by exists c|done].
  - injection Hrun as <- <-. unfold claim_next_verification_task in Hc.
    destruct (find_first _ _) as [[? ?]|]; [by peel|]. by injection Hc as <-.
  - destruct (claim_total (w_store w) (vw_worker_id v) (clock (w_ticks w))
      (clock (w_ticks w) + claim_timeout (vw_claim_timeout_seconds v)) token Hok) as (? & ? & ? & _).
    congruence.
Qed.
End tick_safety.
End tick.
