(* ===== verification/Submission.v ===== *)
(** Submission of proofs and the public view of tasks.

    The use cases of [submit_proof_bundle.rs], [get_verification_task.rs] and
    [validate_paykit_payment_submission.rs], and the part of the HTTP handler of
    [api/verification.rs] that puts them together for version-1 bundles.  Requests
    to the repository may be lost or stay unanswered, and others work on it between
    two requests of a run.  A submission is accepted once: repeating it finds the
    task of the first. *)

From S2P Require Import Prelude HashMaps RustStr Externals Ids Json LockPolicy Wire Errors.
From S2P Require Import Run ApiErrors Verifiers Lifecycle DeletionJob Fence GraphTask TaskStore TaskInv TaskWorker.

#[local] Open Scope run_scope.

(** * Views *)

Record ClientBindingView := MkClientBinding {
  cb_client_reference : ClientReference;
  cb_pubky_lock_resource : PubkyLockResource;
  cb_criterion_ids : list string;
}.

Definition ClientBindingView_from_bundle (b : SubmittedProofBundle) : option ClientBindingView :=
  client_reference ← sb_client_reference b;
  Some (MkClientBinding client_reference (sb_pubky_lock_resource b)
          (proof_criterion_id <$> sb_proofs b)).

Record VerificationTaskLifecycleView := MkLifecycleView {
  lv_creator : CreatorPubky;
  lv_bundle_id : BundleId;
  lv_status : VerificationTaskStatus;
  lv_submitted_at : OffsetDateTime;
  lv_started_at : option OffsetDateTime;
  lv_completed_at : option OffsetDateTime;
  lv_failure_message : option string;
  lv_terminal_reason : option VerificationTerminalReason;
  lv_client_binding : option ClientBindingView;
}.

(** [From<VerificationTaskRecord> for VerificationTaskLifecycleView]. *)
Definition VerificationTaskLifecycleView_from (t : VerificationTaskRecord) :
    VerificationTaskLifecycleView :=
  MkLifecycleView (tr_creator t) (sb_bundle_id (tr_submitted_proof_bundle t)) (tr_status t)
    (tr_submitted_at t) (tr_started_at t) (tr_completed_at t) (tr_failure_message t)
    (tr_terminal_reason t) (ClientBindingView_from_bundle (tr_submitted_proof_bundle t)).

Record VerificationTaskView := MkTaskView {
  tv_task_id : TaskId;
  tv_status : VerificationTaskStatus;
  tv_submitted_at : OffsetDateTime;
  tv_started_at : option OffsetDateTime;
  tv_completed_at : option OffsetDateTime;
  tv_failure_message : option string;
  tv_terminal_reason : option VerificationTerminalReason;
}.

Record ValidatedPaykitPaymentSubmission := MkValidatedSubmission { vs_payment_in : Z }.

(** The task of a fresh submission. *)
Definition pending_task (id : TaskId) (submitted : SubmittedProofBundle)
    (submitted_at : OffsetDateTime) : VerificationTaskRecord :=
  MkTaskRecord id (resource_creator (sb_pubky_lock_resource submitted)) submitted Pending
    submitted_at None None None None None.

Definition invoice_intent (submitted : SubmittedProofBundle) (reader : CreatorPubky)
    (payment_in : Z) : InvoiceAdmissionIntentV1 :=
  MkIntent INVOICE_ADMISSION_INTENT_VERSION
    (resource_creator (sb_pubky_lock_resource submitted)) (sb_bundle_id submitted)
    (sb_pubky_lock_resource submitted) reader payment_in.

Section submission.
  Context `{Base32, Blake3, JsonCanonicalizer, CanonicalizationError, PubkyKeys, UuidCrate}.
  Context (clock : nat → OffsetDateTime) (fates : nat → Fate) (others : nat → TaskRepo → TaskRepo).
  Context (generate_task_id : nat → result ApplicationError TaskId).
  (** the content lock repository, at a point of the run *)
  Context (content_locks : nat → CreatorPubky → ContentLockPath →
             result ApplicationError (option ContentLock)).
  (** whether the server has a Paykit client *)
  Context (paykit_configured : bool).

Abbreviation SubmitRun := (Run TaskRepo ()).

(** * Use cases *)

Definition task_by_handle (creator : CreatorPubky) (bundle_id : BundleId) :
    SubmitRun (option VerificationTaskRecord) :=
  call fates others (λ s, Ok (get_verification_task_by_handle s creator bundle_id, s)).

Definition insert_task (t : VerificationTaskRecord) : SubmitRun () :=
  call fates others (λ s, (λ s', ((), s')) <$> insert_verification_task s t).

Definition insert_invoice_task (t : VerificationTaskRecord) (intent : InvoiceAdmissionIntentV1) :
    SubmitRun InvoiceAdmissionRecord :=
  call fates others (λ s, insert_invoice_pending_task s t intent).

Definition new_task_id : SubmitRun TaskId := λ w,
  (generate_task_id (w_ticks w), w).

Definition find_existing (submitted : SubmittedProofBundle) :
    SubmitRun (option VerificationTaskLifecycleView) :=
  existing ⟵ task_by_handle (resource_creator (sb_pubky_lock_resource submitted))
               (sb_bundle_id submitted);
  match existing with
  | None => run_ret None
  | Some existing =>
      if tr_submitted_proof_bundle existing == submitted
      then run_ret (Some (VerificationTaskLifecycleView_from existing))
      else run_err VerificationTaskConflict
  end.

(** A task of the same handle got in between. *)
Definition settle_duplicate (task : VerificationTaskRecord) :
    SubmitRun VerificationTaskLifecycleView :=
  existing ⟵ task_by_handle (tr_creator task) (sb_bundle_id (tr_submitted_proof_bundle task));
  match existing with
  | None => run_err (DuplicateRecord "verification_task")
  | Some existing =>
      if tr_submitted_proof_bundle existing == tr_submitted_proof_bundle task
      then run_ret (VerificationTaskLifecycleView_from existing)
      else run_err VerificationTaskConflict
  end.

Definition submit_proof_bundle (submitted : SubmittedProofBundle) :
    SubmitRun VerificationTaskLifecycleView :=
  existing ⟵ find_existing submitted;
  match existing with
  | Some existing => run_ret existing
  | None =>
      task_id ⟵ new_task_id;
      submitted_at ⟵ now clock;
      let task := pending_task task_id submitted submitted_at in
      λ w, match insert_task task w with
           | (Ok _, w') => (Ok (VerificationTaskLifecycleView_from task), w')
           | (Err (DuplicateRecord record), w') =>
               if record == "verification_task" then settle_duplicate task w'
               else (Err (DuplicateRecord record), w')
           | (Err e, w') => (Err e, w')
           end
  end.

Definition submit_invoice_pending (submitted : SubmittedProofBundle) (payment_in : Z) :
    SubmitRun VerificationTaskLifecycleView :=
  existing ⟵ find_existing submitted;
  match existing with
  | Some existing => run_ret existing
  | None =>
      reader ⟵ run_lift (ok_or (sb_reader_public_key submitted) InvalidPaykitPaymentSubmission);
      task_id ⟵ new_task_id;
      submitted_at ⟵ now clock;
      admission ⟵ insert_invoice_task (pending_task task_id submitted submitted_at)
                    (invoice_intent submitted reader payment_in);
      run_ret (VerificationTaskLifecycleView_from (ia_task admission))
  end.

Definition get_task_view (id : TaskId) : SubmitRun VerificationTaskView :=
  task ⟵ call fates others (λ s, Ok (get_verification_task s id, s));
  t ⟵ run_lift (ok_or task (MissingRecord "verification_task"));
  run_ret (MkTaskView (tr_task_id t) (tr_status t) (tr_submitted_at t) (tr_started_at t)
             (tr_completed_at t) (tr_failure_message t) (tr_terminal_reason t)).

Definition get_task_view_by_handle (creator : CreatorPubky) (bundle_id : BundleId) :
    SubmitRun VerificationTaskLifecycleView :=
  task ⟵ task_by_handle creator bundle_id;
  t ⟵ run_lift (ok_or task (MissingRecord "verification_task"));
  run_ret (VerificationTaskLifecycleView_from t).

(** The checks of a payment submission against the lock it addresses. *)
Definition check_paykit_submission (submitted : SubmittedProofBundle) (lock : ContentLock) :
    result ApplicationError ValidatedPaykitPaymentSubmission :=
  let invalid := InvalidPaykitPaymentSubmission in
  _ ← map_err (λ _, invalid)
        (verify_content_lock_identity lock
           (resource_content_lock_path (sb_pubky_lock_resource submitted)));
  _ ← map_err (λ _, invalid) (validate_paykit_payment_v1_policy lock);
  match sb_proofs submitted with
  | [proof] =>
      _ ← reject_if (proof_verifier_type proof != PaykitPayment) invalid;
      criterion ← ok_or (List.find (λ c, (criterion_id c == proof_criterion_id proof)
                                         && (criterion_verifier_type c == PaykitPayment))
                           (cl_criteria lock)) invalid;
      params ← map_err (λ _, invalid) (paykit_payment_params criterion);
      params ← ok_or params invalid;
      Ok (MkValidatedSubmission (ppp_payment_in params))
  | _ => Err invalid
  end.

Definition validate_paykit_payment_submission (submitted : SubmittedProofBundle) :
    SubmitRun ValidatedPaykitPaymentSubmission :=
  let resource := sb_pubky_lock_resource submitted in
  found ⟵ (λ w, (content_locks (w_ticks w) (resource_creator resource)
                    (resource_content_lock_path resource), w));
  lock ⟵ run_lift (ok_or found ContentLockUnavailable);
  run_lift (check_paykit_submission submitted lock).

(** * The handler *)

Definition ApiRun (A : Type) : Type := World TaskRepo () → result ApiError A * World TaskRepo ().

Definition api_bind {A B} (f : A → ApiRun B) (m : ApiRun A) : ApiRun B := λ w,
  match m w with
  | (Ok a, w') => f a w'
  | (Err e, w') => (Err e, w')
  end.

(** The [?] operator on the result of a use case. *)
Definition api {A} (m : SubmitRun A) : ApiRun A := λ w,
  let '(r, w') := m w in (map_err ApiError_from r, w').

Definition paykit_proofs (submitted : SubmittedProofBundle) : list Proof :=
  List.filter (λ p, proof_verifier_type p == PaykitPayment) (sb_proofs submitted).

Definition is_empty_object (v : Json) : bool :=
  match as_object v with Some [] => true | _ => false end.

(** Exactly one proof, for the payment, with an empty payload. *)
Definition paykit_bundle_ok (submitted : SubmittedProofBundle) : bool :=
  (length (sb_proofs submitted) =? 1)%nat
  && match paykit_proofs submitted with
     | [p] => is_empty_object (proof_payload p)
     | _ => false
     end.

Definition maybe_prepare_paykit_submission (submitted : SubmittedProofBundle) :
    ApiRun (option VerificationTaskLifecycleView) :=
  if (length (paykit_proofs submitted) =? 0)%nat then λ w, (Ok None, w)
  else
    api_bind (λ existing,
      match existing with
      | Some v => λ w, (Ok (Some v), w)
      | None =>
          if negb (paykit_bundle_ok submitted)
          then λ w, (Err (MkApiError CodeInvalidRequest "invalid paykit-payment proof bundle"), w)
          else if is_none (sb_reader_public_key submitted)
          then λ w, (Err (MkApiError CodeInvalidRequest
                            "paykit-payment requires reader_public_key"), w)
          else λ w,
            match validate_paykit_payment_submission submitted w with
            | (Err error, w') =>
                api_bind (λ again,
                  match again with
                  | Some v => λ w, (Ok (Some v), w)
                  | None => λ w, (Err (ApiError_from error), w)
                  end) (api (find_existing submitted)) w'
            | (Ok validation, w') =>
                if negb paykit_configured
                then (Err (MkApiError CodePaykitNotConfigured "paykit is not configured"), w')
                else api_bind (λ v w, (Ok (Some v), w))
                       (api (submit_invoice_pending submitted (vs_payment_in validation))) w'
            end
      end) (api (find_existing submitted)).

(** A version-1 bundle, after the rate limit. *)
Definition submit_v1 (submitted : SubmittedProofBundle) : ApiRun VerificationTaskLifecycleView :=
  api_bind (λ prepared,
    match prepared with
    | Some existing => λ w, (Ok existing, w)
    | None => api (submit_proof_bundle submitted)
    end) (maybe_prepare_paykit_submission submitted).

(** * The store under a handle *)

Abbreviation view := VerificationTaskLifecycleView_from.

Definition submitted_handle (submitted : SubmittedProofBundle) : CreatorPubky * BundleId :=
  (resource_creator (sb_pubky_lock_resource submitted), sb_bundle_id submitted).

Lemma find_by_handle_stored s id t :
  tasks_ok s → task_records s !! id = Some t → find_by_handle s (tr_handle t) = Some (id, t).
Proof.
  intros Hok Ht. apply find_entry_unique; [done|by rewrite eqb_same|]. intros id' t' Ht' Heq. props.
  by apply (tk_handles s Hok id' t' id t).
Qed.

Lemma find_by_handle_Some s handle id t :
  find_by_handle s handle = Some (id, t) → task_records s !! id = Some t ∧ tr_handle t = handle.
Proof. intros [Ht Hh]%find_entry_Some. by props. Qed.

Lemma get_by_handle_stored s id t :
  tasks_ok s → task_records s !! id = Some t →
  get_verification_task_by_handle s (tr_creator t) (bundle_of t) = Some t.
Proof.
  intros Hok Ht. unfold get_verification_task_by_handle.
  change (tr_creator t, bundle_of t) with (tr_handle t). by rewrite (find_by_handle_stored s id t).
Qed.

Lemma get_by_handle_Some s creator bundle_id t :
  get_verification_task_by_handle s creator bundle_id = Some t →
  ∃ id, task_records s !! id = Some t ∧ tr_handle t = (creator, bundle_id).
Proof.
  intros ([id t'] & Hf & ->)%fmap_Some. exists id. by apply find_by_handle_Some in Hf.
Qed.

Lemma history_ok s s' : rtc task_step s s' → tasks_ok s → tasks_ok s'.
Proof. induction 1; [done|]. intros Hok. apply IHrtc. by eapply task_step_ok. Qed.

Lemma kept_rtc id s s' : rtc (kept_step id) s s' → rtc task_step s s'.
Proof. induction 1 as [|s s1 s2 [Hstep _]]; [done|by eapply rtc_l]. Qed.

Lemma kept_identity id s s' t :
  tasks_ok s → rtc (kept_step id) s s' → task_records s !! id = Some t →
  ∃ t', task_records s' !! id = Some t' ∧ task_identity t' = task_identity t.
Proof.
  intros Hok Hk Ht. destruct (kept_history id s s' Hk Hok t Ht) as (t' & Ht' & Hr & Hc).
  exists t'. split; [done|]. clear Ht Ht' Hk.
  induction Hr as [|t0 t1 t2 Hstep _ IH]; [done|].
  destruct (record_step_facts _ _ Hstep Hc) as (Hc1 & Hid & _). rewrite <- Hid. by apply IH.
Qed.

(** * A task that is there *)

Lemma submit_v1_found submitted w res w' :
  find_existing submitted w = (Some <$> res, w') →
  submit_v1 submitted w = (map_err ApiError_from res, w').
Proof.
  intros Hf. unfold submit_v1, maybe_prepare_paykit_submission, api_bind, api.
  destruct (length (paykit_proofs submitted) =? 0)%nat.
  - unfold submit_proof_bundle, run_bind. rewrite Hf. by destruct res.
  - rewrite Hf. by destruct res.
Qed.

Section stored.
  Context (id : TaskId) (t : VerificationTaskRecord).
  Context (Hkeeps : ∀ n s, is_Some (task_records s !! id) → rtc (kept_step id) s (others n s)).

(** What a look under the handle of [t] may find: its current record, when the
    submission is that of [t]. *)
Definition finds (submitted : SubmittedProofBundle) (s : TaskRepo)
    (res : result ApplicationError VerificationTaskLifecycleView) : Prop :=
  ∃ t', task_records s !! id = Some t' ∧ task_identity t' = task_identity t
    ∧ match res with
      | Ok v => submitted = tr_submitted_proof_bundle t ∧ v = view t'
      | Err e => submitted ≠ tr_submitted_proof_bundle t ∧ e = VerificationTaskConflict
                 ∨ lost_call fates e
      end.

Lemma find_existing_stored submitted w res w' :
  tasks_ok (w_store w) → task_records (w_store w) !! id = Some t →
  submitted_handle submitted = tr_handle t →
  find_existing submitted w = (res, w') →
  w_store w' = others (w_ticks w) (w_store w)
  ∧ ∃ res', finds submitted (w_store w') res' ∧ res = Some <$> res'.
Proof.
  intros Hok Ht Hh Hrun.
  pose proof (Hkeeps (w_ticks w) (w_store w) ltac:(eauto)) as Hk.
  destruct (kept_identity id _ _ t Hok Hk Ht) as (t' & Ht' & Hid).
  pose proof (get_by_handle_stored _ id t' (history_ok _ _ (kept_rtc _ _ _ Hk) Hok) Ht') as Hget.
  assert (tr_submitted_proof_bundle t' = tr_submitted_proof_bundle t ∧ tr_handle t' = tr_handle t)
    as [Hsub Hh'] by (unfold tr_handle, bundle_of; injection Hid as _ -> -> _; done).
  rewrite <- Hh in Hh'. injection Hh' as Hcr Hb. unfold finds.
  unfold find_existing, task_by_handle in Hrun.
  apply run_bind_inv in Hrun as [(e & Hc & ->)|(found & w1 & Hc & Hrun)]; apply call_inv in Hc.
  - destruct Hc as [(? & ? & ?)|(e' & [= <-] & [[? ?]|(Hl & Hs)])]; [done|done|].
    assert (w_store w' = others (w_ticks w) (w_store w)) as Hw
      by (destruct Hs as [?|(? & [= _ ?])]; congruence).
    split; [done|]. exists (Err e). rewrite Hw. eauto 10.
  - destruct Hc as [(? & [= <-] & [= Hf Hs])|(? & ? & _)]; [|done].
    rewrite <- Hcr, <- Hb in Hf. rewrite Hget in Hf. subst found.
    destruct (tr_submitted_proof_bundle t' == submitted) eqn:E; props; injection Hrun as <- <-; rewrite <- Hs; (split; [done|]).
    + exists (Ok (view t')). split; [|done]. exists t'. by rewrite <- Hsub, E.
    + exists (Err VerificationTaskConflict). split; [|done]. exists t'. rewrite <- Hsub.
      split_and!; [done|done|]. left. by split; [intros ->|].
Qed.

(** A submission is accepted once.  Submitting again under the handle of a
    stored task never creates a task and never changes one: whatever else happens
    to the store meanwhile, the same submission answers with the current state of
    that task, a different one with the conflict, and the only other outcome is a
    lost request or answer. *)
Theorem resubmission_finds_task submitted w res w' :
  rtc task_step TaskRepo_new (w_store w) → task_records (w_store w) !! id = Some t →
  submitted_handle submitted = tr_handle t →
  submit_v1 submitted w = (res, w') →
  w_store w' = others (w_ticks w) (w_store w)
  ∧ ∃ res', res = map_err ApiError_from res' ∧ finds submitted (w_store w') res'.
Proof.
  intros Hok%tasks_reachable_ok Ht Hh Hrun.
  destruct (find_existing submitted w) as [found w1] eqn:Hf.
  destruct (find_existing_stored submitted w found w1 Hok Ht Hh Hf) as (Hw & res' & Hfinds & ->).
  rewrite (submit_v1_found submitted w res' w1 Hf) in Hrun. injection Hrun as <- <-. eauto.
Qed.
End stored.

(** * Any submission *)

Section open.
  Context (Hothers : ∀ n s, rtc task_step s (others n s)).

(** The answer is about this stored task; for a payment it may be the state of the
    task when its invoice was admitted. *)
Definition answers_for (submitted : SubmittedProofBundle) (s : TaskRepo)
    (v : VerificationTaskLifecycleView) : Prop :=
  ∃ t u, task_records s !! tr_task_id t = Some t ∧ tr_submitted_proof_bundle t = submitted
    ∧ tr_creator t = resource_creator (sb_pubky_lock_resource submitted)
    ∧ v = view u ∧ task_identity u = task_identity t
    ∧ (pays_with_paykit submitted = false → u = t).

Lemma pending_consistent id submitted at_ :
  fields_consistent (pending_task id submitted at_) = true.
Proof. done. Qed.

Lemma moves_task_by_handle creator bundle_id : moves (rtc task_step) (task_by_handle creator bundle_id).
Proof. apply moves_call; [apply _|done|]. by intros s a s' [= _ <-]. Qed.

Lemma moves_find_existing submitted : moves (rtc task_step) (find_existing submitted).
Proof.
  apply (moves_bind (rtc task_step)); [apply moves_task_by_handle|]. intros [t|].
  - case_match; [apply (moves_ret (rtc task_step))|apply (moves_err (rtc task_step))].
  - apply (moves_ret (rtc task_step)).
Qed.

Lemma moves_insert_task id submitted at_ :
  moves (rtc task_step) (insert_task (pending_task id submitted at_)).
Proof.
  apply moves_call; [apply _|done|]. intros s a s' (s2 & Hi & [= _ ->])%fmap_Ok.
  by apply rtc_once, (ts_insert _ (pending_task id submitted at_)).
Qed.

Lemma moves_insert_invoice id submitted at_ intent :
  moves (rtc task_step) (insert_invoice_task (pending_task id submitted at_) intent).
Proof.
  apply moves_call; [apply _|done|]. intros s a s' Hi.
  by eapply rtc_once, (ts_insert_invoice _ (pending_task id submitted at_)).
Qed.

Lemma task_by_handle_Ok creator bundle_id w o w' :
  task_by_handle creator bundle_id w = (Ok o, w') →
  o = get_verification_task_by_handle (w_store w') creator bundle_id.
Proof.
  intros [(a & Ha & Hs)|(? & Ha & _)]%call_inv; [|done]. congruence.
Qed.

Lemma found_answers submitted s t :
  tasks_ok s →
  get_verification_task_by_handle s (resource_creator (sb_pubky_lock_resource submitted))
    (sb_bundle_id submitted) = Some t →
  tr_submitted_proof_bundle t = submitted → answers_for submitted s (view t).
Proof.
  intros Hok (id & Ht & [= Hcr _])%get_by_handle_Some Hsub. exists t, t.
  destruct (tk_slots s Hok id t Ht) as (fr & r & _ & _ & _ & Hslot).
  by rewrite (so_id _ _ _ _ _ Hslot).
Qed.

Lemma insert_stored s t s' :
  insert_verification_task s t = Ok s' → task_records s' !! tr_task_id t = Some t.
Proof.
  intros (s1 & Hi & [= <-])%bind_Ok. unfold insert_verification_task_writes in Hi.
  repeat (apply bind_Ok in Hi as ([] & _ & Hi)).
  destruct (find_by_handle _ _) as [[]|]; [by split_match in Hi|].
  apply bind_Ok in Hi as ([] & _ & Hi). injection Hi as <-. apply lookup_insert_eq.
Qed.

(** Admission answers with the admission of the stored task of the submission. *)
Lemma insert_invoice_stored s t intent a s' :
  tasks_ok s → insert_invoice_pending_task s t intent = Ok (a, s') →
  ∃ t', task_records s' !! tr_task_id t' = Some t' ∧ tr_handle t' = tr_handle t
    ∧ tr_submitted_proof_bundle t' = tr_submitted_proof_bundle t
    ∧ task_identity (ia_task a) = task_identity t'.
Proof.
  intros Hok Hi. apply bind_Ok in Hi as ([[a0 new] s1] & Hi & [= -> <-]).
  unfold insert_invoice_pending_task_writes in Hi.
  repeat (apply bind_Ok in Hi as ([] & _ & Hi)).
  destruct (find_by_handle _ _) as [[id t']|] eqn:Hf.
  - apply find_by_handle_Some in Hf as [Ht Hh]. exists t'.
    destruct (tk_slots s Hok id t' Ht) as (fr & r & _ & _ & _ & Hslot).
    pose proof (so_phase _ _ _ _ _ Hslot) as Hp. rewrite (so_id _ _ _ _ _ Hslot) in *.
    destruct (invoice_admissions s !! id) as [adm|]; [|done]. cbn in Hi.
    split_match in Hi; [|done]. injection Hi as <- <- <-. props. split_and!; try done. apply Hp.
  - apply bind_Ok in Hi as ([] & _ & Hi). injection Hi as <- <- <-. exists t.
    split_and!; try done. apply lookup_insert_eq.
Qed.

Lemma find_existing_Ok submitted w found w' :
  tasks_ok (w_store w) → find_existing submitted w = (Ok (Some found), w') →
  answers_for submitted (w_store w') found.
Proof.
  intros Hok Hf. pose proof (history_ok _ _ (moves_find_existing _ _ _ _ Hf) Hok) as Hok'.
  unfold find_existing in Hf. apply run_bind_inv in Hf as [(? & _ & [=])|([t|] & w1 & Hg & Hf)].
  2: discriminate Hf.
  apply task_by_handle_Ok in Hg. case_match eqn:E; [|discriminate Hf]. props.
  injection Hf as <- <-. by eapply found_answers.
Qed.

(** A run that makes steps of the store and, if it succeeds, answers for the
    submission. *)
Definition answering (submitted : SubmittedProofBundle) (m : SubmitRun VerificationTaskLifecycleView) :
    Prop := ∀ w res w', tasks_ok (w_store w) → m w = (res, w') →
  rtc task_step (w_store w) (w_store w')
  ∧ ∀ v, res = Ok v → answers_for submitted (w_store w') v.

Lemma answering_bind {A} submitted (f : A → SubmitRun VerificationTaskLifecycleView) m :
  moves (rtc task_step) m → (∀ a, answering submitted (f a)) → answering submitted (run_bind f m).
Proof.
  intros Hm Hf w res w' Hok [(e & Hw & ->)|(a & w1 & Hw & Hfa)]%run_bind_inv;
    pose proof (Hm _ _ _ Hw) as Hs.
  - by split.
  - destruct (Hf a w1 res w' (history_ok _ _ Hs Hok) Hfa) as [Hs' Hv]. split; [by etransitivity|done].
Qed.

Lemma answering_existing submitted (m : SubmitRun VerificationTaskLifecycleView) :
  answering submitted m →
  answering submitted (existing ⟵ find_existing submitted;
                       match existing with Some v => run_ret v | None => m end).
Proof.
  intros Hm w res w' Hok [(e & Hw & ->)|([v|] & w1 & Hw & Hrest)]%run_bind_inv;
    pose proof (moves_find_existing _ _ _ _ Hw) as Hs.
  - by split.
  - injection Hrest as <- <-. split; [done|]. intros v' [= <-]. by eapply find_existing_Ok.
  - destruct (Hm w1 res w' (history_ok _ _ Hs Hok) Hrest) as [Hs' Hv].
    split; [by etransitivity|done].
Qed.

Lemma answering_duplicate id submitted at_ :
  answering submitted (settle_duplicate (pending_task id submitted at_)).
Proof.
  intros w res w' Hok [(e & Hw & ->)|(o & w1 & Hw & Hrest)]%run_bind_inv;
    pose proof (moves_task_by_handle _ _ _ _ _ Hw) as Hs; [by split|].
  apply task_by_handle_Ok in Hw. destruct o as [t|]; [|by injection Hrest as <- <-].
  case_match eqn:E; injection Hrest as <- <-; (split; [done|]); intros v [= <-]. props.
  eapply found_answers; [by eapply history_ok|by symmetry|done].
Qed.

Lemma submit_proof_bundle_answering submitted : answering submitted (submit_proof_bundle submitted).
Proof.
  apply answering_existing. apply answering_bind; [by intros w res w' [= _ <-]|]. intros id.
  apply answering_bind; [apply (moves_now (rtc task_step))|]. intros at_ w res w' Hok.
  cbv beta zeta. destruct (insert_task (pending_task id submitted at_) w) as [r w1] eqn:Hi.
  pose proof (moves_insert_task _ _ _ _ _ _ Hi) as Hs.
  destruct r as [u|e].
  - intros [= <- <-]. split; [done|]. intros v [= <-].
    apply call_inv in Hi as [(? & _ & (s2 & Hi & [= _ <-])%fmap_Ok)|(? & [=] & _)].
    exists (pending_task id submitted at_), (pending_task id submitted at_).
    split_and!; try done. by apply insert_stored in Hi.
  - destruct (decide (e = DuplicateRecord "verification_task")) as [->|Hne].
    + cbn. intros Hd. destruct (answering_duplicate id submitted at_ w1 res w'
        (history_ok _ _ Hs Hok) Hd) as [Hs' Hv]. split; [by etransitivity|done].
    + intros Hr. assert (res = Err e ∧ w' = w1) as [-> ->]; [|by split].
      destruct e; try by injection Hr as <- <-.
      case_match eqn:E; props; [congruence|by injection Hr as <- <-].
Qed.

Lemma submit_invoice_pending_answering submitted payment_in :
  pays_with_paykit submitted = true → answering submitted (submit_invoice_pending submitted payment_in).
Proof.
  intros Hpays. apply answering_existing.
  apply answering_bind; [apply (moves_lift (rtc task_step))|]. intros reader.
  apply answering_bind; [by intros w res w' [= _ <-]|]. intros id.
  apply answering_bind; [apply (moves_now (rtc task_step))|]. intros at_ w res w' Hok
    [(e & Hw & ->)|(a & w1 & Hw & Hr)]%run_bind_inv;
    pose proof (moves_insert_invoice _ _ _ _ _ _ _ Hw) as Hs; [by split|].
  injection Hr as <- <-. split; [done|]. intros v [= <-].
  apply call_inv in Hw as [(? & [= <-] & Hi)|(? & [=] & _)].
  apply insert_invoice_stored in Hi as (t & Ht & [= Hcr _] & Hsub & Hid);
    [|by eapply history_ok; [apply Hothers|]].
  exists t, (ia_task a). split_and!; try done. by rewrite Hpays.
Qed.

(** The same of the handler, whose preparation may have no answer. *)
Definition preparing (submitted : SubmittedProofBundle)
    (m : ApiRun (option VerificationTaskLifecycleView)) : Prop := ∀ w res w',
  tasks_ok (w_store w) → m w = (res, w') →
  rtc task_step (w_store w) (w_store w')
  ∧ ∀ v, res = Ok (Some v) → answers_for submitted (w_store w') v.

Lemma preparing_quiet submitted (m : ApiRun (option VerificationTaskLifecycleView)) r :
  (∀ w, m w = (r, w)) → (∀ v, r ≠ Ok (Some v)) → preparing submitted m.
Proof. intros Hm Hr w res w' Hok Hw. rewrite Hm in Hw. injection Hw as <- <-. split; [done|].
  intros v Hv. by destruct (Hr v).
Qed.

Lemma preparing_existing submitted (m : ApiRun (option VerificationTaskLifecycleView)) :
  preparing submitted m →
  preparing submitted
    (api_bind (λ o, match o with Some v => λ w, (Ok (Some v), w) | None => m end)
       (api (find_existing submitted))).
Proof.
  intros Hm w res w' Hok. unfold api_bind, api. destruct (find_existing submitted w) as [r w1] eqn:Hf.
  pose proof (moves_find_existing _ _ _ _ Hf) as Hs. destruct r as [[v|]|e]; cbn.
  - intros [= <- <-]. split; [done|]. intros v' [= <-]. by eapply find_existing_Ok.
  - intros Hr. destruct (Hm w1 res w' (history_ok _ _ Hs Hok) Hr) as [Hs' Hv].
    split; [by etransitivity|done].
  - intros [= <- <-]. by split.
Qed.

Lemma preparing_api submitted m :
  answering submitted m → preparing submitted (api_bind (λ v w, (Ok (Some v), w)) (api m)).
Proof.
  intros Hm w res w' Hok. unfold api_bind, api. destruct (m w) as [[v|e] w1] eqn:Hw; cbn;
    intros [= <- <-]; destruct (Hm _ _ _ Hok Hw) as [Hs Hv]; (split; [done|]).
  - intros v' [= <-]. by apply Hv.
  - done.
Qed.

Lemma paykit_proofs_pays submitted :
  (length (paykit_proofs submitted) =? 0)%nat = false → pays_with_paykit submitted = true.
Proof.
  unfold paykit_proofs, pays_with_paykit. intros Hl. apply existsb_exists.
  destruct (List.filter _ _) as [|p ps] eqn:Hf; [done|]. exists p.
  apply (List.filter_In (λ q, proof_verifier_type q == PaykitPayment)). rewrite Hf. by left.
Qed.

Lemma prepare_preparing submitted : preparing submitted (maybe_prepare_paykit_submission submitted).
Proof.
  unfold maybe_prepare_paykit_submission. destruct (length _ =? 0)%nat eqn:Hlen.
  { by eapply preparing_quiet. }
  apply preparing_existing. split_match; [by eapply preparing_quiet|].
  split_match; [by eapply preparing_quiet|].
  intros w res w' Hok. destruct (validate_paykit_payment_submission submitted w) as [r w1] eqn:Hv.
  assert (w1 = w) as ->.
  { clear -Hv. unfold validate_paykit_payment_submission, run_bind, run_lift in Hv.
    repeat (split_match in Hv; simplify_eq); done. }
  destruct r as [[payment_in]|e].
  - split_match; [intros [= <- <-]; by split|].
    by apply preparing_api; [apply submit_invoice_pending_answering, paykit_proofs_pays|].
  - by apply preparing_existing; [by eapply preparing_quiet|].
Qed.

(** A success is never empty.  Whatever requests are lost and whatever others do
    meanwhile, the store only makes its own legal steps, and a positive answer to a
    submission means that a task with exactly this submission is stored, and the
    answer is its state. *)
Theorem submission_outcome submitted w res w' :
  rtc task_step TaskRepo_new (w_store w) → submit_v1 submitted w = (res, w') →
  rtc task_step (w_store w) (w_store w')
  ∧ match res with Ok v => answers_for submitted (w_store w') v | Err _ => True end.
Proof.
  intros Hok%tasks_reachable_ok Hrun. unfold submit_v1, api_bind in Hrun.
  destruct (maybe_prepare_paykit_submission submitted w) as [r w1] eqn:Hp.
  destruct (prepare_preparing submitted w r w1 Hok Hp) as [Hs Hv].
  destruct r as [[v|]|e]; [by injection Hrun as <- <-; auto| |by injection Hrun as <- <-].
  unfold api in Hrun. destruct (submit_proof_bundle submitted w1) as [r w2] eqn:Hsub.
  injection Hrun as <- <-.
  destruct (submit_proof_bundle_answering submitted w1 r w2 (history_ok _ _ Hs Hok) Hsub) as [Hs' Ha].
  split; [by etransitivity|]. destruct r; cbn; auto.
Qed.
End open.

(** * A payment submission *)

(** The submission pays for the lock it addresses: one payment proof for the only
    criterion of the lock, which asks to pay the creator within [payment_in]. *)
Record pays_for (submitted : SubmittedProofBundle) (lock : ContentLock) (payment_in : Z) : Prop := {
  pf_lock : lock_id lock
            = Some (path_lock_id (resource_content_lock_path (sb_pubky_lock_resource submitted)));
  pf_terms : ∃ c members p,
    cl_criteria lock = [c] ∧ criterion_verifier_type c = PaykitPayment
    ∧ criterion_params c = JObject members ∧ paykit_members_ok members p
    ∧ ppp_recipient_pubky p = cl_creator lock ∧ ppp_payment_in p = payment_in
    ∧ (cl_lock_logic lock = LogicAll [criterion_id c] ∨ cl_lock_logic lock = LogicAny [criterion_id c])
    ∧ ∃ payload, sb_proofs submitted = [MkProof (criterion_id c) PaykitPayment payload];
}.

Lemma identity_verified_Ok lock path :
  lock_id lock = Some (path_lock_id path) →
  verify_content_lock_identity lock path = Ok (path_lock_id path).
Proof.
  intros Hid. unfold verify_content_lock_identity, frozen_lock_id, verify_lock_id. rewrite Hid.
  cbn. by rewrite eqb_same.
Qed.

(** The preflight accepts exactly the submissions that pay for the lock. *)
Lemma check_paykit_submission_Ok submitted lock payment_in :
  check_paykit_submission submitted lock = Ok (MkValidatedSubmission payment_in)
  ↔ pays_for submitted lock payment_in.
Proof.
  unfold check_paykit_submission. split.
  - intros Hc. apply bind_Ok in Hc as (lid & Hid%map_err_Ok & Hc).
    apply bind_Ok in Hc as ([] & Hpol%map_err_Ok & Hc).
    destruct (sb_proofs submitted) as [|proof [|]] eqn:Hproofs; [done| |done].
    peel. props. match goal with H : List.find _ _ = Some ?x |- _ =>
      apply List.find_some in H as [Hin%list_elem_of_In Hcr]; rename x into c end. props.
    match goal with H : paykit_payment_params c = _ |- _ => unfold paykit_payment_params in H end.
    case_match; [done|]. match goal with H : _ <$> _ = Ok _ |- _ =>
      apply fmap_Ok in H as (p & Hp & [= ->]) end.
    apply validate_paykit_payment_params_Ok in Hp as (ms & Hms & Hp).
    apply paykit_payment_v1_policy_spec in Hpol as [Hnone|(c' & ms' & p' & Hone & Hpol)].
    { rewrite Forall_forall in Hnone. by apply Hnone in Hin. }
    rewrite Hone in Hin. assert (c' = c) as -> by set_solver.
    destruct Hpol as (Htype & Hms' & Hp' & Hrec & Hlogic).
    split; [by eapply identity_verified|]. exists c, ms', p'. rewrite Hms in Hms'. simplify_eq.
    split_and!; try done.
    + pose proof (params_payment_in _ _ Hp). pose proof (params_payment_in _ _ Hp'). congruence.
    + exists (proof_payload proof). destruct proof. cbn in *. by subst.
  - intros [Hlock (c & ms & p & Hone & Htype & Hms & Hp & Hrec & <- & Hlogic & payload & Hproofs)].
    rewrite (identity_verified_Ok _ _ Hlock). cbn.
    assert (validate_paykit_payment_v1_policy lock = Ok ()) as ->.
    { apply paykit_payment_v1_policy_spec. right. by exists c, ms, p. }
    cbn. rewrite Hproofs, Hone. cbn. rewrite !eqb_same, Htype. cbn. rewrite eqb_same. cbn.
    unfold paykit_payment_params. rewrite Htype.
    by rewrite (proj2 (validate_paykit_payment_params_Ok _ p)) by eauto.
Qed.

Section undisturbed.
  Context (Hdelivered : ∀ n, fates n = Delivered) (Halone : ∀ n s, others n s = s).

(** No task of any lane has the handle, or the identifier. *)
Definition unused (s : TaskRepo) (handle : CreatorPubky * BundleId) (id : TaskId) : Prop :=
  fence_records (task_fence s) !! id = None
  ∧ ∀ id' fr, fence_records (task_fence s) !! id' = Some fr → (fr_creator fr, fr_bundle_id fr) ≠ handle.

Lemma unused_record s handle id :
  tasks_ok s → unused s handle id →
  task_records s !! id = None ∧ find_by_handle s handle = None
  ∧ foreign_id s id = false ∧ foreign_handle s handle = false.
Proof.
  intros Hok [Hid Hh].
  assert (∀ id' t, task_records s !! id' = Some t → ∃ fr, fence_records (task_fence s) !! id' = Some fr
            ∧ (fr_creator fr, fr_bundle_id fr) = tr_handle t) as Hfence.
  { intros id' t Ht. destruct (tk_slots s Hok id' t Ht) as (fr & r & Hfr & _ & _ & Hslot).
    exists fr. split; [done|]. pose proof (so_fence _ _ _ _ _ Hslot) as E. unfold tr_handle. congruence. }
  split_and!.
  - destruct (task_records s !! id) eqn:Ht; [|done]. apply Hfence in Ht as (fr & Hfr & _). congruence.
  - apply find_entry_None. intros id' t Ht. apply eqb_false. intros <-.
    apply Hfence in Ht as (fr & Hfr & E). by apply (Hh id' fr Hfr).
  - unfold foreign_id. by rewrite Hid.
  - unfold foreign_handle. apply not_true_iff_false. intros ([id' fr] & Hin & Hp)%existsb_exists.
    apply list_elem_of_In, elem_of_map_to_list in Hin. props. by apply (Hh id' fr Hin).
Qed.

Lemma find_existing_unused submitted w id :
  tasks_ok (w_store w) → unused (w_store w) (submitted_handle submitted) id →
  find_existing submitted w = (Ok None, MkWorld (w_store w) (w_entitlements w) (w_ticks w + 1)%nat).
Proof.
  intros Hok Hun. destruct (unused_record _ _ _ Hok Hun) as (_ & Hf & _).
  unfold find_existing, run_bind, task_by_handle. rewrite call_delivered by done.
  unfold get_verification_task_by_handle. unfold submitted_handle in Hf. by rewrite Hf.
Qed.

(** The intent written for a submission always matches its task. *)
Lemma invoice_inputs_valid id submitted at_ reader payment_in :
  sb_reader_public_key submitted = Some reader → 0 < payment_in →
  validate_invoice_admission_inputs (pending_task id submitted at_)
    (invoice_intent submitted reader payment_in) = Ok ().
Proof.
  intros Hr Hp. apply reject_if_Ok. cbn. rewrite Hr, !eqb_same.
  replace (payment_in =? 0) with false by (symmetry; apply Z.eqb_neq; lia). done.
Qed.

Lemma insert_invoice_unused s id submitted at_ reader payment_in :
  tasks_ok s → unused s (submitted_handle submitted) id →
  (resource_creator (sb_pubky_lock_resource submitted),
   resource_lock_id (sb_pubky_lock_resource submitted)) ∉ deletion_cutoffs (task_fence s) →
  sb_reader_public_key submitted = Some reader → 0 < payment_in →
  let t := pending_task id submitted at_ in
  let a := new_admission t (invoice_intent submitted reader payment_in) in
  insert_invoice_pending_task s t (invoice_intent submitted reader payment_in)
  = Ok (a, tell_claimer (add_task s t true false
                           (<[id := MkMemoryAdmission a None None None]> (invoice_admissions s))) t
             PhaseInvoicePending).
Proof.
  intros Hok Hun Hcut Hr Hp t a. destruct (unused_record _ _ _ Hok Hun) as (Hn & Hf & Hfid & Hfh).
  unfold insert_invoice_pending_task, insert_invoice_pending_task_writes. unfold t.
  rewrite invoice_inputs_valid by done. cbn.
  unfold tr_lock_id. cbn. rewrite bool_decide_false by done. cbn. rewrite Hfid. cbn.
  change (tr_handle _) with (submitted_handle submitted). rewrite Hfh, Hf. cbn. by rewrite Hn.
Qed.

(** A payment submission the server can take: it pays for the current lock, names its
    reader, and neither a task nor a deletion is in the way. *)
Record payable (s : TaskRepo) (submitted : SubmittedProofBundle) (lock : ContentLock)
    (payment_in : Z) (reader : CreatorPubky) (id : TaskId) : Prop := {
  py_configured : paykit_configured = true;
  py_lock n : content_locks n (resource_creator (sb_pubky_lock_resource submitted))
                (resource_content_lock_path (sb_pubky_lock_resource submitted)) = Ok (Some lock);
  py_pays : pays_for submitted lock payment_in;
  py_payload p : p ∈ sb_proofs submitted → proof_payload p = JObject [];
  py_reader : sb_reader_public_key submitted = Some reader;
  py_id n : generate_task_id n = Ok id;
  py_unused : unused s (submitted_handle submitted) id;
  py_kept : (resource_creator (sb_pubky_lock_resource submitted),
             resource_lock_id (sb_pubky_lock_resource submitted)) ∉ deletion_cutoffs (task_fence s);
}.

(** The task and the admission of a submission taken at [at_]. *)
Definition invoice_admitted (s : TaskRepo) (submitted : SubmittedProofBundle) (reader : CreatorPubky)
    (payment_in : Z) (id : TaskId) (at_ : OffsetDateTime) : TaskRepo :=
  let t := pending_task id submitted at_ in
  let a := new_admission t (invoice_intent submitted reader payment_in) in
  tell_claimer (add_task s t true false
                  (<[id := MkMemoryAdmission a None None None]> (invoice_admissions s))) t
    PhaseInvoicePending.

Lemma submit_invoice_payable submitted lock payment_in reader id w :
  tasks_ok (w_store w) → payable (w_store w) submitted lock payment_in reader id →
  let at_ := clock (w_ticks w + 1)%nat in
  ∃ w', submit_invoice_pending submitted payment_in w
        = (Ok (view (pending_task id submitted at_)), w')
        ∧ w_store w' = invoice_admitted (w_store w) submitted reader payment_in id at_.
Proof.
  intros Hok [_ _ [_ (c & ms & p & _ & _ & _ & Hp & _ & <- & _)] _ Hr Hid Hun Hcut] at_.
  unfold submit_invoice_pending, run_bind. rewrite (find_existing_unused _ _ _ Hok Hun). cbn.
  unfold run_lift, new_task_id. rewrite Hr. cbn. rewrite Hid. unfold insert_invoice_task.
  rewrite call_delivered by done. cbn [w_store w_ticks now].
  rewrite insert_invoice_unused; [by eexists|done..|]. apply (params_payment_in_positive _ _ Hp).
Qed.

Lemma submit_v1_payable submitted lock payment_in reader id w :
  tasks_ok (w_store w) → payable (w_store w) submitted lock payment_in reader id →
  let at_ := clock (w_ticks w + 2)%nat in
  ∃ w', submit_v1 submitted w = (Ok (view (pending_task id submitted at_)), w')
        ∧ w_store w' = invoice_admitted (w_store w) submitted reader payment_in id at_.
Proof.
  intros Hok Hpay. pose proof Hpay as [Hconf Hlock Hpays Hpayload Hr _ Hun _].
  set (w1 := MkWorld (w_store w) (w_entitlements w) (w_ticks w + 1)%nat).
  destruct (submit_invoice_payable submitted lock payment_in reader id w1 Hok Hpay) as (w' & Hw' & Hs).
  pose proof (proj2 (check_paykit_submission_Ok _ _ _) Hpays) as Hcheck.
  destruct Hpays as [_ (c & _ & _ & _ & _ & _ & _ & _ & _ & _ & payload & Hproofs)].
  assert (payload = JObject []) as -> by (apply (Hpayload (MkProof (criterion_id c) PaykitPayment payload));
      rewrite Hproofs; left).
  exists w'. replace (w_ticks w + 2)%nat with (w_ticks w1 + 1)%nat by (cbn; lia). split; [|done].
  unfold submit_v1, maybe_prepare_paykit_submission, paykit_bundle_ok, paykit_proofs.
  rewrite Hproofs. cbn. rewrite eqb_same. cbn. unfold api_bind, api.
  rewrite (find_existing_unused _ _ _ Hok Hun). cbn. rewrite Hr. cbn.
  unfold validate_paykit_payment_submission, run_bind, run_lift. rewrite Hlock. cbn. rewrite Hcheck.
  rewrite Hconf. cbn. fold w1. by rewrite Hw'.
Qed.

(** A payment is admitted for what the lock asks.  A submission with the one
    payment proof of the current lock and a reader is taken as a pending task, and
    with it, in the same step, the durable intent to create an invoice for its
    creator, reader, bundle and lock with the payment window of the lock's criterion. *)
Theorem paykit_submission_admitted submitted lock payment_in reader id w :
  rtc task_step TaskRepo_new (w_store w) → payable (w_store w) submitted lock payment_in reader id →
  ∃ w' at_, submit_v1 submitted w = (Ok (view (pending_task id submitted at_)), w')
    ∧ rtc task_step (w_store w) (w_store w')
    ∧ task_records (w_store w') !! id = Some (pending_task id submitted at_)
    ∧ get_invoice_admission (w_store w') id
      = Some (new_admission (pending_task id submitted at_)
                (invoice_intent submitted reader payment_in)).
Proof.
  intros Hok%tasks_reachable_ok Hpay.
  destruct (submit_v1_payable _ _ _ _ _ _ Hok Hpay) as (w' & Hw' & Hs).
  exists w', (clock (w_ticks w + 2)%nat). rewrite Hs. split_and!; [done| | |].
  - destruct Hpay as [_ _ [_ (? & ? & ? & _ & _ & _ & Hp & _ & <- & _)] _ Hr _ Hun Hcut].
    pose proof (params_payment_in_positive _ _ Hp) as Hpos.
    eapply rtc_once, (ts_insert_invoice _ (pending_task id submitted _)); [done|].
    exact (insert_invoice_unused _ _ _ _ _ _ Hok Hun Hcut Hr Hpos).
  - apply lookup_insert_eq.
  - unfold get_invoice_admission. cbn. by rewrite lookup_insert_eq.
Qed.

Lemma plain_proofs plain : pays_with_paykit plain = false → paykit_proofs plain = [].
Proof.
  intros Hp. destruct (length (paykit_proofs plain) =? 0)%nat eqn:Hl.
  - by apply Nat.eqb_eq, length_zero_iff_nil in Hl.
  - apply paykit_proofs_pays in Hl. congruence.
Qed.

Lemma submit_v1_reserved plain id w :
  tasks_ok (w_store w) → unused (w_store w) (submitted_handle plain) id →
  (∀ n, generate_task_id n = Ok id) → pays_with_paykit plain = false →
  submitted_handle plain ∈ folded_auth_reservations (task_fence (w_store w)) →
  ∃ w', submit_v1 plain w = (Err (ApiError_from VerificationTaskConflict), w')
        ∧ w_store w' = w_store w.
Proof.
  intros Hok Hun Hid Hp Hres. unfold submit_v1, maybe_prepare_paykit_submission, api_bind, api.
  rewrite (plain_proofs _ Hp). cbn. unfold submit_proof_bundle, run_bind.
  rewrite (find_existing_unused _ _ _ Hok Hun). cbn. unfold new_task_id. rewrite Hid. cbn.
  unfold insert_task. rewrite call_delivered by done. cbn [w_store].
  assert (insert_verification_task (w_store w) (pending_task id plain (clock (w_ticks w + 1)%nat))
          = Err VerificationTaskConflict) as ->; [|by eexists].
  unfold insert_verification_task, insert_verification_task_writes.
  by rewrite (bool_decide_true (tr_handle _ ∈ _)) by exact Hres.
Qed.

(** Payments ignore the reservations of folded authorisation.  A handle that a
    folded attempt holds is refused to every submission without payment, but a
    payment submission is taken under it, and the reservation stays. *)
Theorem reserved_handle_taken_by_payment submitted plain lock payment_in reader id w :
  rtc task_step TaskRepo_new (w_store w) → payable (w_store w) submitted lock payment_in reader id →
  submitted_handle submitted ∈ folded_auth_reservations (task_fence (w_store w)) →
  submitted_handle plain = submitted_handle submitted → pays_with_paykit plain = false →
  (∃ w', submit_v1 plain w = (Err (ApiError_from VerificationTaskConflict), w')
         ∧ w_store w' = w_store w)
  ∧ ∃ w' t, (submit_v1 submitted w).2 = w' ∧ task_records (w_store w') !! id = Some t
      ∧ tr_handle t = submitted_handle submitted
      ∧ submitted_handle submitted ∈ folded_auth_reservations (task_fence (w_store w')).
Proof.
  intros Hok%tasks_reachable_ok Hpay Hres Hh Hplain. split.
  - eapply (submit_v1_reserved plain id); try done; [|apply (py_id _ _ _ _ _ _ Hpay)|by rewrite Hh].
    rewrite Hh. apply (py_unused _ _ _ _ _ _ Hpay).
  - destruct (submit_v1_payable _ _ _ _ _ _ Hok Hpay) as (w' & -> & Hs).
    exists w', (pending_task id submitted (clock (w_ticks w + 2)%nat)). rewrite Hs.
    split_and!; try done. apply lookup_insert_eq.
Qed.
End undisturbed.
End submission.
