(* ===== verification/InvoiceWorker.v ===== *)
(** The invoice admission worker
    ([locks-server/src/worker/invoice.rs]; the error type is the one of
    [locks-server/src/paykit_http_client.rs]).

    One tick claims a pending admission and asks Paykit to create its invoice.
    Paykit is a parameter: its answer to a request at a point of the run.  The
    random source of the retry delay is a parameter too. *)

From S2P Require Import Prelude HashMaps RustStr Externals Ids Json LockPolicy Wire Errors.
From S2P Require Import Lifecycle GraphTask Fence TaskStore TaskInv Run.

(** * Data *)

(** Errors of the client; the sources of the failures are only logged. *)
Inductive PaykitClientError :=
  | InvalidServerUrl
  | SigningSeedRead
  | InvalidSigningSeed
  | PublicKeyMismatch
  | Serialize
  | PaykitHttp
  | InvoiceTransport (timeout connect : bool)
  | InvalidInvoiceResponse
  | InvalidInvoiceJson
  | InvoiceBodyTooLarge
  | InvalidInvoiceTimestamp
  | InvalidInvoiceTimestamps
  | NonSuccess (operation : string) (status : Z)
  | InvoiceNonSuccess (status : Z) (error_code : option string) (retry_after_seconds : option Z)
  | InvalidConnectionStatusResponse
  | InvalidConnectionStatusJson
  | ConnectionStatusBodyTooLarge
  | InvalidStatusResponse
  | InvalidPaymentStatusResponse
  | InvalidPaymentStatusJson
  | StatusBodyTooLarge
  | InvalidStatusTimestamps.

Record PaykitInvoiceRequest := MkInvoiceRequest {
  ir_bundle_id : string;
  ir_lock_resource : string;
  ir_reader : string;
  ir_payment_in : Z;
}.

Record PaykitInvoiceWindow := MkInvoiceWindow {
  iw_invoice_created_at : OffsetDateTime;
  iw_payment_deadline : OffsetDateTime;
}.

Inductive InvoiceWorkerTick :=
  | InvoiceIdle
  | InvoiceReady (id : TaskId)
  | InvoiceRetryScheduled (id : TaskId)
  | InvoiceFailed (id : TaskId).

Inductive InvoiceErrorAction :=
  | ActionRetry (after : option Duration)
  | ActionFail (message : string).

(** * Decisions *)

Definition TOO_MANY_REQUESTS : Z := 429.
Definition CONFLICT : Z := 409.
Definition BAD_GATEWAY : Z := 502.
Definition SERVICE_UNAVAILABLE : Z := 503.
Definition is_server_error (status : Z) : bool := in_range 500 599 status.

Definition invoice_error_action (e : PaykitClientError) : InvoiceErrorAction :=
  match e with
  | InvoiceTransport _ _ | InvalidInvoiceResponse | InvalidInvoiceJson | InvoiceBodyTooLarge
  | InvalidInvoiceTimestamp | InvalidInvoiceTimestamps => ActionRetry None
  | InvoiceNonSuccess status code retry_after =>
      if (status =? TOO_MANY_REQUESTS) || is_server_error status
      then ActionRetry ((λ s, seconds (Z.min (if s <=? I64_MAX then s else 60) 60)) <$> retry_after)
      else if status =? CONFLICT
      then match code with
           | Some code =>
               if code == "reader_not_payable" then ActionFail "reader is not payable"
               else if code == "invoice_conflict" then ActionFail "paykit invoice conflict"
               else ActionFail "paykit invoice admission failed"
           | None => ActionFail "paykit invoice admission failed"
           end
      else ActionFail "paykit invoice admission failed"
  | _ => ActionFail "paykit invoice admission failed"
  end.

Definition invoice_retry_reason (e : PaykitClientError) : option InvoiceAdmissionRetryReason :=
  match e with
  | InvoiceNonSuccess status (Some code) _ =>
      if ((status =? SERVICE_UNAVAILABLE) && (code == "reader_setup_pending"))
         || ((status =? BAD_GATEWAY) && (code == "reader_registry_malformed"))
      then Some ReaderWalletSetupNeeded else None
  | _ => None
  end.

(** [OsFullJitter::delay]; [random] is the [u64] the generator returns. *)
Definition jitter_cap_millis (attempt_count : Z) : Z :=
  Z.min (Z.shiftl 1 (Z.min attempt_count 6)) 60 * 1000.

Definition OsFullJitter_delay (random attempt_count : Z) : Duration :=
  random `mod` (jitter_cap_millis attempt_count + 1) * 1000000.

(** * One tick *)

Section tick.
  Context `{UuidCrate}.
  Context (clock : nat → OffsetDateTime).
  Context (paykit : nat → Uuid → PaykitInvoiceRequest →
             sum PaykitClientError PaykitInvoiceWindow).
  Context (jitter : Z → Duration).
  Context (interfere : OffsetDateTime → TaskRepo → TaskRepo).
  Context (worker_id : string) (claim_ttl : Duration).

Abbreviation Tick := (Run TaskRepo () InvoiceWorkerTick).
Abbreviation after w s := (MkWorld s () (w_ticks w + 1)%nat).

(** [fail]. *)
Definition invoice_fail (id : TaskId) (token : Uuid) (message : string) : Tick := λ w,
  let at_ := clock (w_ticks w) in
  let repo := interfere at_ (w_store w) in
  match mark_invoice_admission_failed repo id worker_id token at_ message with
  | Err e => (Err e, after w repo)
  | Ok (Some _, s) => (Ok (InvoiceFailed id), after w s)
  | Ok (None, s) => (Ok InvoiceIdle, after w s)
  end.

Definition invoice_ready (id : TaskId) (token : Uuid) (window : PaykitInvoiceWindow) : Tick := λ w,
  let at_ := clock (w_ticks w) in
  let repo := interfere at_ (w_store w) in
  match mark_invoice_admission_ready repo id worker_id token at_ (iw_invoice_created_at window)
          (iw_payment_deadline window) with
  | Err e => (Err e, after w repo)
  | Ok (Some _, s) => (Ok (InvoiceReady id), after w s)
  | Ok (None, s) => (Ok InvoiceIdle, after w s)
  end.

Definition invoice_retry (id : TaskId) (token : Uuid) (delay : Duration)
    (reason : option InvoiceAdmissionRetryReason) : Tick := λ w,
  let at_ := clock (w_ticks w) in
  let repo := interfere at_ (w_store w) in
  let '(updated, s) := schedule_invoice_admission_retry repo id worker_id token at_ delay reason in
  (Ok (if is_some updated then InvoiceRetryScheduled id else InvoiceIdle), after w s).

Definition invoice_request (intent : InvoiceAdmissionIntentV1) : PaykitInvoiceRequest :=
  MkInvoiceRequest (BundleId_display (in_bundle_id intent))
    (PubkyLockResource_display (in_lock_resource intent))
    (CreatorPubky_display (in_reader intent)) (in_payment_in intent).

Definition invoice_run_once (fresh_token : Uuid) : Tick := λ w,
  let '(claimed, s) := claim_next_invoice_admission (w_store w) worker_id (clock (w_ticks w))
                         claim_ttl fresh_token in
  let w1 := after w s in
  match claimed with
  | None => (Ok InvoiceIdle, w1)
  | Some claim =>
      let admission := cia_admission claim in
      let id := tr_task_id (ia_task admission) in
      let token := cia_claim_token claim in
      if cia_deadline_expired claim
      then invoice_fail id token "invoice admission deadline exceeded" w1
      else
        match paykit (w_ticks w1) (TaskId_as_uuid id) (invoice_request (ia_intent admission)) with
        | inr window => invoice_ready id token window w1
        | inl e =>
            match invoice_error_action e with
            | ActionRetry delay =>
                invoice_retry id token (default (jitter (ia_attempt_count admission)) delay)
                  (invoice_retry_reason e) w1
            | ActionFail message => invoice_fail id token message w1
            end
        end
  end.
End tick.

(** * Retry delays *)

(** Every retry of an invoice is scheduled between now and one minute from now:
    the random delay is at most two to the number of attempts in seconds, and
    never beyond a minute; a delay the service asks for is cut to a minute. *)
Theorem invoice_retry_delay_bounded random attempt_count e delay :
  0 ≤ random → 0 ≤ attempt_count →
  (0 ≤ OsFullJitter_delay random attempt_count ≤ seconds 60
   ∧ OsFullJitter_delay random attempt_count ≤ seconds (2 ^ attempt_count))
  ∧ (invoice_error_action e = ActionRetry (Some delay) →
     (∀ status code after, e = InvoiceNonSuccess status code (Some after) → 0 ≤ after) →
     0 ≤ delay ≤ seconds 60).
Proof.
  intros Hr Ha. split.
  - unfold OsFullJitter_delay, jitter_cap_millis, seconds, NANOS_PER_SEC.
    rewrite Z.shiftl_1_l.
    assert (0 < 2 ^ Z.min attempt_count 6) by (apply Z.pow_pos_nonneg; lia).
    assert (2 ^ Z.min attempt_count 6 ≤ 2 ^ attempt_count) by (apply Z.pow_le_mono_r; lia).
    pose proof (Z.mod_pos_bound random (Z.min (2 ^ Z.min attempt_count 6) 60 * 1000 + 1)). lia.
  - intros He Hpos. destruct e; try discriminate He. cbn in He.
    destruct (_ || _); [|destruct (status =? CONFLICT); [repeat (split_match in He; try done)|done]].
    destruct retry_after_seconds as [after|]; [|done]. injection He as <-.
    specialize (Hpos _ _ _ eq_refl). unfold seconds, NANOS_PER_SEC. destruct (after <=? I64_MAX); lia.
Qed.

(** * Safety of a tick *)

Section safety.
  Context `{UuidCrate}.
  Context (clock : nat → OffsetDateTime).
  Context (paykit : nat → Uuid → PaykitInvoiceRequest →
             sum PaykitClientError PaykitInvoiceWindow).
  Context (jitter : Z → Duration).
  Context (interfere : OffsetDateTime → TaskRepo → TaskRepo).
  Context (worker_id : string) (claim_ttl : Duration).
  (** the others make legal calls *)
  Hypothesis Hothers : ∀ at_ s, rtc task_step s (interfere at_ s).

(** What the report of a tick says of the admission. *)
Definition invoice_reported (s : TaskRepo) (tick : InvoiceWorkerTick) : Prop :=
  match tick with
  | InvoiceIdle => True
  | InvoiceReady id =>
      ∃ a created deadline, invoice_admissions s !! id = Some a ∧ ia_phase (ma_record a) = PhaseReady
        ∧ ia_invoice_created_at (ma_record a) = Some created
        ∧ ia_payment_deadline (ma_record a) = Some deadline ∧ created < deadline
  | InvoiceRetryScheduled id =>
      ∃ a due, invoice_admissions s !! id = Some a
        ∧ ia_phase (ma_record a) = PhaseInvoicePending
        ∧ ia_next_attempt_at (ma_record a) = Some due ∧ due ≤ ia_admission_deadline_at (ma_record a)
        ∧ ma_claim_expires_at a = None
  | InvoiceFailed id =>
      ∃ a t, invoice_admissions s !! id = Some a ∧ ia_phase (ma_record a) = PhaseFailed
        ∧ task_records s !! id = Some t ∧ tr_status t = Failed
  end.

Definition tick_done (res : result ApplicationError InvoiceWorkerTick) (s' : TaskRepo) : Prop :=
  rtc task_step TaskRepo_new s' ∧ ∀ tick, res = Ok tick → invoice_reported s' tick.

Lemma interfered s at_ : rtc task_step TaskRepo_new s → rtc task_step TaskRepo_new (interfere at_ s).
Proof. intros Hr. by etrans. Qed.

Lemma fail_done id token message (w : World TaskRepo ()) res w' :
  rtc task_step TaskRepo_new (w_store w) →
  invoice_fail clock interfere worker_id id token message w = (res, w') →
  tick_done res (w_store w').
Proof.
  intros Hr%(interfered _ (clock (w_ticks w))) Hrun. unfold invoice_fail in Hrun.
  destruct (mark_invoice_admission_failed _ _ _ _ _ _) as [[o s1]|e] eqn:Hm;
    [|by injection Hrun as <- <-].
  assert (rtc task_step TaskRepo_new s1) as Hr1 by (eapply rtc_r; [done|by eapply ts_invoice_failed]).
  unfold mark_invoice_admission_failed in Hm. apply bind_Ok in Hm as ([] & _ & Hm).
  destruct o; injection Hrun as <- <-; (split; [done|]); intros tick [= <-]; cbn; [|done].
  destruct (task_records _ !! id) as [t|]; [|done].
  destruct (filtered_admission _ _ _) as [a|]; [|done]. injection Hm as _ <-. cbn.
  do 2 eexists. split_and!; [apply lookup_insert_eq|done|apply lookup_insert_eq|done].
Qed.

Lemma ready_done id token window (w : World TaskRepo ()) res w' :
  rtc task_step TaskRepo_new (w_store w) →
  invoice_ready clock interfere worker_id id token window w = (res, w') →
  tick_done res (w_store w').
Proof.
  intros Hr%(interfered _ (clock (w_ticks w))) Hrun. unfold invoice_ready in Hrun.
  destruct (mark_invoice_admission_ready _ _ _ _ _ _ _) as [[o s1]|e] eqn:Hm;
    [|by injection Hrun as <- <-].
  assert (rtc task_step TaskRepo_new s1) as Hr1 by (eapply rtc_r; [done|by eapply ts_invoice_ready]).
  apply bind_Ok in Hm as ([o0 s0] & Hm & [= -> <-]). unfold mark_invoice_admission_ready_writes in Hm.
  apply bind_Ok in Hm as ([] & Hlt%reject_if_Ok & Hm).
  destruct o; injection Hrun as <- <-; (split; [done|]); intros tick [= <-]; cbn; [|done].
  destruct (filtered_admission _ _ _) as [a|]; [|done]. injection Hm as _ <-. cbn. props.
  do 3 eexists. split_and!; [apply lookup_insert_eq|done..].
Qed.

Lemma retry_done id token delay reason (w : World TaskRepo ()) res w' :
  rtc task_step TaskRepo_new (w_store w) →
  invoice_retry clock interfere worker_id id token delay reason w = (res, w') →
  tick_done res (w_store w').
Proof.
  intros Hr%(interfered _ (clock (w_ticks w))) Hrun. unfold invoice_retry in Hrun.
  destruct (schedule_invoice_admission_retry _ _ _ _ _ _ _) as [o s1] eqn:Hm.
  injection Hrun as <- <-. split.
  - eapply rtc_r; [done|]. change s1 with (o, s1).2. rewrite <- Hm. by apply ts_invoice_retry.
  - intros tick [= <-]. unfold schedule_invoice_admission_retry in Hm.
    destruct (filtered_admission _ _ _) as [a|] eqn:Hf; [|injection Hm as <- <-; done].
    apply filtered_admission_Some in Hf as [Ha [_ Hl%live_admission_phase]%andb_true_iff].
    injection Hm as <- <-. cbn. do 2 eexists. split_and!; [apply lookup_insert_eq|done|done| |done].
    cbn. lia.
Qed.

(** A tick of the invoice worker, among whatever legal calls of the others,
    leaves the store in a reachable state and reports the truth: a ready admission
    has a payment window of positive length, a rescheduled one is free and due no
    later than its admission deadline, a failed one has a failed task.  An
    admission claimed at or after its deadline is never sent to Paykit: the tick
    does not depend on Paykit and ends in failure, or idle when the lease was
    lost. *)
Theorem invoice_tick_safe token (w w' : World TaskRepo ()) res :
  rtc task_step TaskRepo_new (w_store w) →
  invoice_run_once clock paykit jitter interfere worker_id claim_ttl token w = (res, w') →
  tick_done res (w_store w')
  ∧ ∀ claim s, claim_next_invoice_admission (w_store w) worker_id (clock (w_ticks w)) claim_ttl token
               = (Some claim, s) →
      ia_admission_deadline_at (cia_admission claim) ≤ clock (w_ticks w) →
      (∀ paykit', invoice_run_once clock paykit' jitter interfere worker_id claim_ttl token w
                  = (res, w'))
      ∧ (res = Ok InvoiceIdle ∨ res = Ok (InvoiceFailed (tr_task_id (ia_task (cia_admission claim))))).
Proof.
  intros Hreach Hrun. split.
  - unfold invoice_run_once in Hrun.
    destruct (claim_next_invoice_admission _ _ _ _ _) as [claimed s] eqn:Hc.
    assert (rtc task_step TaskRepo_new s) as Hr.
    { eapply rtc_r; [done|]. change s with (claimed, s).2. rewrite <- Hc. by apply ts_claim_invoice. }
    destruct claimed as [claim|]; [|injection Hrun as <- <-; split; [done|by intros ? [= <-]]].
    destruct (cia_deadline_expired claim); [by eapply fail_done in Hrun|].
    destruct (paykit _ _ _) as [e|window]; [|by eapply ready_done in Hrun].
    destruct (invoice_error_action e); [by eapply retry_done in Hrun|by eapply fail_done in Hrun].
  - intros claim s Hc Hle. unfold invoice_run_once in *. rewrite Hc in *.
    assert (cia_deadline_expired claim = true) as Hexp.
    { unfold claim_next_invoice_admission in Hc. destruct (min_by _ _) as [[id a]|]; [|done].
      injection Hc as <- _. cbn in *. lia. }
    rewrite Hexp in *. split; [by intros _|]. unfold invoice_fail in Hrun.
    destruct (mark_invoice_admission_failed _ _ _ _ _ _) as [[[o|] s1]|e] eqn:Hm;
      injection Hrun as <- <-; [by right|by left|].
    exfalso. unfold mark_invoice_admission_failed in Hm.
    rewrite (proj2 (reject_if_Ok _ _ ())) in Hm by done. cbn [mbind result_bind] in Hm.
    destruct (task_records _ !! _); [destruct (filtered_admission _ _ _)|]; done.
Qed.
End safety.
