(* ===== verification/AccessReads.v ===== *)
(** Final credentials along histories: one per bundle, replayed unchanged, and each
    of its resources read at most once. *)

From S2P Require Import Prelude HashMaps RustStr Externals Ids Json LockPolicy Wire Errors.
From S2P Require Import Secrets Lifecycle Ownership DeletionJob GraphTask Fence TaskStore.
From S2P Require Import AccessStore AccessDrain DeletionStore DeletionInv DeletionHistory.

Section reads.
  Context `{Base32, Blake3, JsonCanonicalizer, CanonicalizationError, TimeCrate, Base64Url, Aead}.

(** * Credentials and their keys *)

(** Deletions and the credentials they own belong to blocked locks, and every final
    credential is in the credential table under its lookup key. *)
Record access_ok (a : AccessState) : Prop := {
  ak_deletions : ∀ id d, acc_deletions a !! id = Some d →
    (da_creator d, da_lock_id d) ∈ acc_blocked_keys a;
  ak_enrolled : ∀ k st job, acc_records a !! k = Some st → sc_deletion st = Some job →
    (acr_creator (sc_record st), sc_lock_id st) ∈ acc_blocked_keys a;
  ak_final : ∀ job b c, acc_final_credentials a !! (job, b) = Some c →
    ∃ st, acc_records a !! fcr_lookup_key c = Some st
          ∧ sc_deletion st = Some (job, KindFinal) ∧ acr_bundle_id (sc_record st) = b;
  ak_stored : ∀ k st job, acc_records a !! k = Some st →
    sc_deletion st = Some (job, KindFinal) →
    ∃ c, acc_final_credentials a !! (job, acr_bundle_id (sc_record st)) = Some c
         ∧ fcr_lookup_key c = k;
}.

(** What a final credential keeps. *)
Record final_evolves (c c' : FinalCredentialRecord) : Prop := {
  fe_key : fcr_lookup_key c' = fcr_lookup_key c;
  fe_bearer : fcr_encrypted_bearer c' = fcr_encrypted_bearer c;
  fe_expires : fcr_expires_at c' = fcr_expires_at c;
  fe_reads : ∀ path read, fcr_reads c !! path = Some read →
    ∃ read', fcr_reads c' !! path = Some read'
             ∧ (is_Some (rs_consumed_at read) → rs_consumed_at read' = rs_consumed_at read);
}.

Lemma final_evolves_refl c : final_evolves c c.
Proof. split; eauto. Qed.

Lemma final_evolves_trans c1 c2 c3 :
  final_evolves c1 c2 → final_evolves c2 c3 → final_evolves c1 c3.
Proof.
  intros [K1 B1 E1 R1] [K2 B2 E2 R2]. split; [congruence..|].
  intros path read Hread. destruct (R1 _ _ Hread) as (read1 & Hread1 & Hc1).
  destruct (R2 _ _ Hread1) as (read2 & Hread2 & Hc2). exists read2. split; [done|].
  intros Hs. rewrite Hc2 by (by rewrite Hc1). by apply Hc1.
Qed.

(** A change of the store that keeps the final credentials, except those whose
    lookup key goes. *)
Record keeps_final (a a' : AccessState) : Prop := {
  kf_ok : access_ok a → access_ok a';
  kf_final : access_ok a → ∀ key c, acc_final_credentials a !! key = Some c →
    is_Some (acc_records a' !! fcr_lookup_key c) →
    ∃ c', acc_final_credentials a' !! key = Some c' ∧ final_evolves c c';
}.

Lemma keeps_final_refl a : keeps_final a a.
Proof. split; [done|]. intros _ key c Hc _. exists c. split; [done|apply final_evolves_refl]. Qed.

(** Deletion entries rewritten, the rest untouched. *)
Lemma keeps_final_entry a id d d' :
  acc_deletions a !! id = Some d → da_creator d' = da_creator d → da_lock_id d' = da_lock_id d →
  keeps_final a (acc_with_deletions a (<[id := d']> (acc_deletions a))).
Proof.
  intros Hd Hc Hl. split.
  - intros [K0 K1 K2 K3]. split; cbn; [|done|done|done].
    intros id0 d0. rewrite lookup_insert_Some. intros [[<- <-]|[_ Hd0]]; [|by eapply K0].
    rewrite Hc, Hl. by eapply K0.
  - intros _ key c Hk _. exists c. split; [done|apply final_evolves_refl].
Qed.

(** ** The operations of the store *)

Lemma insert_access_credential_keeps a id key record a' :
  insert_access_credential a id key record = Ok a' → keeps_final a a'.
Proof.
  unfold insert_access_credential. intros Hi.
  apply bind_Ok in Hi as ([] & _ & Hi). apply bind_Ok in Hi as ([] & Hdup%reject_if_Ok & Hi).
  injection Hi as <-. props. split.
  - intros [K0 K1 K2 K3]. split; cbn; [done| | |].
    + intros k st job. rewrite lookup_insert_Some. intros [[<- <-]|[_ Hst]]; [done|by eapply K1].
    + intros job b c Hc. destruct (K2 _ _ _ Hc) as (st & Hst & Hd & Hb). exists st.
      rewrite lookup_insert_ne by congruence. done.
    + intros k st job. rewrite lookup_insert_Some. intros [[<- <-]|[_ Hst]]; [done|by eapply K3].
  - intros _ k c Hc _. exists c. split; [done|apply final_evolves_refl].
Qed.

Lemma delete_access_credential_keeps a key : keeps_final a (delete_access_credential a key).
Proof.
  split.
  - intros [K0 K1 K2 K3]. split; cbn; [done| | |].
    + intros k st job [_ Hst]%lookup_delete_Some. by eapply K1.
    + intros job b c [Hc Hne]%map_lookup_filter_Some. cbn in Hne.
      destruct (K2 _ _ _ Hc) as (st & Hst & Hd & Hb). exists st.
      by rewrite lookup_delete_ne by done.
    + intros k st job [Hne Hst]%lookup_delete_Some Hd. destruct (K3 _ _ _ Hst Hd) as (c & Hc & Hk).
      exists c. split; [|done]. apply map_lookup_filter_Some. split; [done|]. cbn. congruence.
  - intros _ k c Hc Hs. exists c. split; [|apply final_evolves_refl]. cbn in *.
    apply map_lookup_filter_Some. split; [done|]. cbn. intros Heq. rewrite Heq in Hs.
    rewrite lookup_delete_eq in Hs. by destruct Hs.
Qed.

Lemma finish_lookup_keeps a key expected invalidate :
  keeps_final a (finish_ordinary_credential_lookup a key expected invalidate).2.
Proof.
  unfold finish_ordinary_credential_lookup. destruct (acc_records a !! key) as [st|];
    [|apply keeps_final_refl].
  repeat split_match; try apply keeps_final_refl. apply delete_access_credential_keeps.
Qed.

Lemma resolve_keeps a job worker token now task status b a' :
  resolve_deletion_payment a job worker token now task status = Ok (b, a') → keeps_final a a'.
Proof.
  unfold resolve_deletion_payment. intros Hr. apply bind_Ok in Hr as ([] & _ & Hr).
  repeat (split_match in Hr; try (injection Hr as <- <-; apply keeps_final_refl)).
  injection Hr as <- <-. by eapply keeps_final_entry.
Qed.

Lemma aggregate_keeps a job worker token now :
  keeps_final a (complete_deletion_payment_aggregate a job worker token now).2.
Proof.
  unfold complete_deletion_payment_aggregate.
  repeat (split_match; try apply keeps_final_refl). by eapply keeps_final_entry.
Qed.

Lemma windows_keeps a job worker token issue read now w a' :
  initialize_final_access_windows a job worker token issue read now = Ok (w, a') →
  keeps_final a a'.
Proof.
  unfold initialize_final_access_windows. intros Hw. apply bind_Ok in Hw as ([] & _ & Hw).
  repeat (split_match in Hw; try discriminate Hw;
          try (injection Hw as <- <-; apply keeps_final_refl)).
  apply bind_Ok in Hw as (x & _ & Hw). apply bind_Ok in Hw as (y & _ & Hw).
  injection Hw as <- <-. by eapply keeps_final_entry.
Qed.

Lemma record_keeps key nonce a job d creator bundle expires candidate o a' :
  acc_deletions a !! job = Some d → da_creator d = creator →
  acc_final_credentials a !! (job, bundle) = None →
  record_final_credential key nonce a job d creator bundle expires candidate = Ok (o, a') →
  keeps_final a a'.
Proof.
  intros Hd Hcr Hnone Hr. unfold record_final_credential in Hr.
  apply bind_Ok in Hr as (enc & _ & Hr). apply bind_Ok in Hr as ([] & Hdup%reject_if_Ok & Hr).
  injection Hr as <- <-. props. split.
  - intros [K0 K1 K2 K3]. split; cbn.
    + intros id d0. rewrite lookup_insert_Some. intros [[<- <-]|[_ Hd0]];
        [exact (K0 _ _ Hd)|by eapply K0].
    + intros k st j. rewrite lookup_insert_Some. intros [[<- <-]|[_ Hst]]; [|by eapply K1].
      cbn. intros _. subst creator. by eapply K0.
    + intros j b c. rewrite lookup_insert_Some. intros [[Heq <-]|[Hne Hc]].
      * injection Heq as -> ->. cbn. rewrite lookup_insert_eq. eauto.
      * destruct (K2 _ _ _ Hc) as (st & Hst & Hdel & Hb). exists st.
        rewrite lookup_insert_ne by congruence. done.
    + intros k st j. rewrite lookup_insert_Some. intros [[<- <-]|[_ Hst]]; cbn.
      * intros [= <-]. eexists. by rewrite lookup_insert_eq.
      * intros Hdel. destruct (K3 _ _ _ Hst Hdel) as (c & Hc & Hk). exists c. split; [|done].
        rewrite lookup_insert_ne; [done|]. congruence.
  - intros _ k c Hc _. exists c. split; [|apply final_evolves_refl]. cbn.
    rewrite lookup_insert_ne by congruence. done.
Qed.

Lemma issue_keeps key nonce order a creator bundle candidate now o a' :
  issue_or_replay_final_credential key nonce order a creator bundle candidate now = Ok (o, a') →
  keeps_final a a'.
Proof.
  unfold issue_or_replay_final_credential. intros Hi.
  destruct (find_in_order _ _ _) as [[job d]|] eqn:Hf;
    [|injection Hi as <- <-; apply keeps_final_refl].
  apply find_in_order_Some in Hf as [Hd Hs]. unfold serves_bundle in Hs. props.
  split_match in Hi; [injection Hi as <- <-; apply keeps_final_refl|].
  destruct (acc_final_credentials a !! (job, bundle)) as [existing|] eqn:Hex.
  { apply replay_final_credential_frame in Hi as ->. apply keeps_final_refl. }
  repeat split_match in Hi; try (injection Hi as <- <-; apply keeps_final_refl).
  by eapply record_keeps.
Qed.

Lemma issue_for_worker_keeps key nonce a job worker token creator bundle candidate now o a' :
  issue_or_replay_final_credential_for_worker key nonce a job worker token creator bundle
    candidate now = Ok (o, a') → keeps_final a a'.
Proof.
  unfold issue_or_replay_final_credential_for_worker. intros Hi.
  destruct (acc_deletions a !! job) as [d|] eqn:Hd;
    [|injection Hi as <- <-; apply keeps_final_refl].
  destruct (_ && is_some_and permits_final_credential _) eqn:Ho;
    [|injection Hi as <- <-; apply keeps_final_refl].
  destruct (acc_final_credentials a !! (job, bundle)) as [existing|] eqn:Hex.
  { apply replay_final_credential_frame in Hi as ->. apply keeps_final_refl. }
  destruct (da_read_deadline d); [|injection Hi as <- <-; apply keeps_final_refl].
  props. by eapply record_keeps.
Qed.

Lemma set_read_keeps a key path read read' :
  (∃ c, acc_final_credentials a !! key = Some c ∧ fcr_reads c !! path = Some read) →
  rs_consumed_at read = None ∨ rs_consumed_at read' = rs_consumed_at read →
  keeps_final a (set_read a key path read').
Proof.
  intros (c & Hc & Hread) Hcons. split.
  - intros [K0 K1 K2 K3]. split; cbn; [done|done| |].
    + intros job b c'. rewrite lookup_alter_Some.
      intros [(-> & c0 & Hc0 & ->)|[_ Hc']]; [|by eapply K2]. cbn. by eapply K2.
    + intros k st job Hst Hdel. destruct (K3 _ _ _ Hst Hdel) as (c0 & Hc0 & Hk).
      destruct (decide (key = (job, acr_bundle_id (sc_record st)))) as [->|Hne].
      * rewrite lookup_alter_eq, Hc0. cbn. eauto.
      * rewrite lookup_alter_ne by done. eauto.
  - intros _ k c0 Hc0 _. cbn. destruct (decide (k = key)) as [->|Hne].
    + rewrite Hc in Hc0. injection Hc0 as <-. rewrite lookup_alter_eq, Hc. eexists.
      split; [done|]. split; cbn; [done|done|done|]. intros p r Hr.
      destruct (decide (p = path)) as [->|Hnep].
      * rewrite lookup_insert_eq. exists read'. split; [done|]. rewrite Hread in Hr.
        injection Hr as <-. intros [x Hx]. destruct Hcons as [Hn|He]; [congruence|done].
      * rewrite lookup_insert_ne by done. eauto.
    + rewrite lookup_alter_ne by done. exists c0. split; [done|apply final_evolves_refl].
Qed.

Lemma prepare_keeps a key path duration now token o a' :
  prepare_deletion_read a key path duration now token = Ok (o, a') → keeps_final a a'.
Proof.
  unfold prepare_deletion_read. intros Hp.
  repeat (split_match in Hp; try (injection Hp as <- <-; apply keeps_final_refl)).
  apply bind_Ok in Hp as (requested & _ & Hp).
  split_match in Hp; injection Hp as <- <-; [apply keeps_final_refl|].
  eapply set_read_keeps; [eauto|by right].
Qed.

Lemma release_keeps a key path token : keeps_final a (release_deletion_read a key path token).2.
Proof.
  unfold release_deletion_read. destruct (final_read a key path) as [[k read]|] eqn:Hf;
    [|apply keeps_final_refl].
  apply final_read_Some in Hf. split_match; [apply keeps_final_refl|].
  eapply set_read_keeps; [done|by right].
Qed.

Lemma consume_keeps a key path token now :
  keeps_final a (consume_deletion_read a key path token now).2.
Proof.
  unfold consume_deletion_read. destruct (final_read a key path) as [[k read]|] eqn:Hf;
    [|apply keeps_final_refl].
  apply final_read_Some in Hf. split_match; [apply keeps_final_refl|].
  eapply set_read_keeps; [done|]. left. by props.
Qed.

Lemma access_op_keeps now a a' : access_op now a a' → keeps_final a a'.
Proof.
  intros Hop; destruct Hop; eauto using insert_access_credential_keeps,
    delete_access_credential_keeps, finish_lookup_keeps, resolve_keeps, aggregate_keeps,
    windows_keeps, issue_keeps, issue_for_worker_keeps, prepare_keeps, release_keeps, consume_keeps.
Qed.

(** ** The calls of the deletion repository *)

Lemma keeps_final_trans a1 a2 a3 :
  (∀ k, is_Some (acc_records a3 !! k) → is_Some (acc_records a2 !! k)) →
  keeps_final a1 a2 → keeps_final a2 a3 → keeps_final a1 a3.
Proof.
  intros Hrec [O1 F1] [O2 F2]. split; [by auto|]. intros Hok key c Hc Hs.
  destruct (F1 Hok _ _ Hc) as (c2 & Hc2 & He2); [by apply Hrec|].
  destruct (F2 (O1 Hok) _ _ Hc2) as (c3 & Hc3 & He3); [by rewrite (fe_key _ _ He2)|].
  exists c3. split; [done|by eapply final_evolves_trans].
Qed.

Lemma revoke_keeps a job : keeps_final a (revoke_job_read_claims a job).
Proof.
  assert (∀ key c, acc_final_credentials a !! key = Some c →
    ∃ c', acc_final_credentials (revoke_job_read_claims a job) !! key = Some c'
          ∧ final_evolves c c') as Hev.
  { intros key c Hc. cbn. rewrite map_lookup_imap, Hc. cbn. eexists. split; [done|].
    split_match; [|apply final_evolves_refl]. split; cbn; [done|done|done|].
    intros path read Hread. rewrite lookup_fmap, Hread. cbn. eauto. }
  split.
  - intros [K0 K1 K2 K3]. split; cbn; [done|done| |].
    + intros j b c. rewrite map_lookup_imap. intros (c0 & Hc0 & Heq)%bind_Some.
      injection Heq as <-. destruct (K2 _ _ _ Hc0) as (st & Hst & Hd & Hb). exists st.
      by destruct (_ =? _).
    + intros k st j Hst Hdel. destruct (K3 _ _ _ Hst Hdel) as (c0 & Hc0 & Hk).
      destruct (Hev _ _ Hc0) as (c1 & Hc1 & He1). exists c1. split; [exact Hc1|].
      by rewrite (fe_key _ _ He1).
  - intros _ key c Hc _. by apply Hev.
Qed.

Lemma synchronize_keeps a j by_ token expires :
  keeps_final a (synchronize_job a j by_ token expires).
Proof.
  set (a1 := acc_with_deletions a (alter (λ d, da_with_job d (dj_state j) (dj_phase j)
    (is_some (dj_force_requested_at j)) by_ token expires) (dj_job_id j) (acc_deletions a))).
  assert (keeps_final a a1) as H1'.
  { split.
    - intros [K0 K1 K2 K3]. split; cbn; [|done|done|done]. intros id d. rewrite lookup_alter_Some.
      intros [(<- & d0 & Hd0 & ->)|[_ Hd]]; [exact (K0 _ _ Hd0)|by eapply K0].
    - intros _ key c Hc _. exists c. split; [done|apply final_evolves_refl]. }
  unfold synchronize_job. fold a1. cbn zeta. unfold disable_job_access, disable_final_access.
  repeat split_match; try done; (eapply keeps_final_trans; [|done|apply revoke_keeps]; done).
Qed.

Lemma block_keeps a creator id job : keeps_final a (block_key_and_disable_job a creator id job).
Proof.
  set (a1 := acc_with_blocked a ({[(creator, id)]} ∪ acc_blocked_keys a)).
  assert (keeps_final a a1) as H1'.
  { split.
    - intros [K0 K1 K2 K3]. split; cbn; [| |done|done].
      + intros i d Hd. apply elem_of_union_r. by eapply K0.
      + intros k st j Hst Hd. apply elem_of_union_r. by eapply K1.
    - intros _ key c Hc _. exists c. split; [done|apply final_evolves_refl]. }
  unfold block_key_and_disable_job. fold a1. destruct job as [job|]; [|done].
  eapply keeps_final_trans; [|done|apply revoke_keeps]. done.
Qed.

Lemma register_keeps a job bundles a' : register_deletion a job bundles = Ok a' → keeps_final a a'.
Proof.
  unfold register_deletion. intros Hr. apply bind_Ok in Hr as ([] & Hblk%reject_if_Ok & Hr).
  injection Hr as <-. props. split.
  - intros [K0 K1 K2 K3]. split; cbn.
    + intros id d. rewrite lookup_insert_Some.
      intros [[<- <-]|[_ Hd]]; apply elem_of_union; [left; cbn; by apply elem_of_singleton|].
      right. by eapply K0.
    + intros k st j. rewrite lookup_fmap. intros (st0 & Hst0 & ->)%fmap_Some.
      unfold enrol. split_match; cbn; intros Hd; apply elem_of_union.
      * left. props. apply elem_of_singleton. by f_equal.
      * right. by eapply K1.
    + intros j b c Hc. destruct (K2 _ _ _ Hc) as (st & Hst & Hd & Hb).
      rewrite lookup_fmap, Hst. cbn. exists (enrol job bundles st). split; [done|].
      unfold enrol. split_match; [|done]. props. exfalso.
      match goal with Hn : _ ∉ acc_blocked_keys a |- _ => apply Hn end.
      specialize (K1 _ _ _ Hst Hd). congruence.
    + intros k st j. rewrite lookup_fmap. intros (st0 & Hst0 & ->)%fmap_Some Hd.
      assert (sc_deletion st0 = Some (j, KindFinal)) as Hd0.
      { revert Hd. unfold enrol. by split_match. }
      rewrite enrol_record. by eapply K3.
  - intros _ key c Hc _. exists c. split; [done|apply final_evolves_refl].
Qed.

Lemma expire_keeps a s job worker token now b a' s' :
  expire_unresolved_non_paykit_tasks a s job worker token now = Ok (b, (a', s')) →
  keeps_final a a'.
Proof.
  unfold expire_unresolved_non_paykit_tasks. intros He.
  repeat (split_match in He; try (injection He as <- <- <-; apply keeps_final_refl)).
  apply bind_Ok in He as (x & _ & He). apply bind_Ok in He as (y & _ & He).
  injection He as <- <- <-. by eapply keeps_final_entry.
Qed.

Lemma deletion_step_keeps now r r' :
  deletion_step now r r' → keeps_final (del_access r) (del_access r').
Proof.
  intros Hstep. destruct Hstep as [id frozen started job r' _ Hins| | | |job worker token next o r' Hadv
    |job worker token b r' Hexp|job worker token code o r' Hfin| | | | | |creator id token original r' Hbeg
    | | | | |a' Hop|]; try apply keeps_final_refl.
  - unfold insert_job in Hins. do 2 apply bind_Ok in Hins as ([] & _ & Hins). cbn zeta in Hins.
    do 4 apply bind_Ok in Hins as ([] & _ & Hins).
    apply bind_Ok in Hins as (a' & Hreg & Hins). injection Hins as <-. by eapply register_keeps.
  - unfold claim_next. cbn zeta. destruct (min_by _ _) as [[? ?]|];
      [apply synchronize_keeps|apply keeps_final_refl].
  - unfold schedule_retry. destruct (find_owned _ _ _ _ _) as [[? ?]|];
      [apply synchronize_keeps|apply keeps_final_refl].
  - unfold defer. destruct (find_owned _ _ _ _ _) as [[? ?]|];
      [apply synchronize_keeps|apply keeps_final_refl].
  - unfold advance_phase in Hadv. destruct (find_owned _ _ _ _ _) as [[? ?]|];
      [|injection Hadv as <- <-; apply keeps_final_refl].
    apply bind_Ok in Hadv as ([] & _ & Hadv).
    split_match in Hadv; [injection Hadv as <- <-; apply keeps_final_refl|].
    apply bind_Ok in Hadv as (status & _ & Hadv).
    destruct status; injection Hadv as <- <-; try apply keeps_final_refl. apply synchronize_keeps.
  - unfold del_expire_unresolved_non_paykit_tasks in Hexp.
    apply bind_Ok in Hexp as ([b' [a' t']] & Hexp & Heq). injection Heq as <- <-.
    by eapply expire_keeps.
  - unfold finish in Hfin. destruct (find_owned _ _ _ _ _) as [[? ?]|];
      [|injection Hfin as <- <-; apply keeps_final_refl].
    apply bind_Ok in Hfin as ([] & _ & Hfin). injection Hfin as <- <-. apply synchronize_keeps.
  - unfold fail_graceful_withdrawal. destruct (find_entry _ _) as [[? ?]|];
      [apply synchronize_keeps|apply keeps_final_refl].
  - unfold resume_failed_job. cbn zeta.
    repeat split_match; first [apply synchronize_keeps | apply keeps_final_refl].
  - unfold prepare_force_deletion_with_manifest. cbn zeta.
    repeat split_match; cbn; first [apply keeps_final_refl | apply synchronize_keeps | idtac];
      first [apply (block_keeps _ _ _ None) | apply (block_keeps _ _ _ (Some _))].
  - unfold complete_synchronous_force_deletion. split_match; apply keeps_final_refl.
  - unfold complete_force_deletion. destruct (find_entry _ _) as [[? ?]|];
      [|apply keeps_final_refl].
    repeat split_match; first [apply keeps_final_refl | apply (block_keeps _ _ _ (Some _))].
  - unfold begin_publication in Hbeg. do 3 apply bind_Ok in Hbeg as ([] & _ & Hbeg).
    injection Hbeg as <-. apply keeps_final_refl.
  - unfold mark_publication_written. repeat split_match; apply keeps_final_refl.
  - unfold abandon_publication, remove_publication_intent. split_match; apply keeps_final_refl.
  - unfold compensate_publication. repeat split_match; apply keeps_final_refl.
  - unfold reconcile_publication. repeat split_match; apply keeps_final_refl.
  - by eapply access_op_keeps.
Qed.

(** * Histories in which a credential is held *)

(** Steps after which the credential is still stored. *)
Inductive held_step (key : AccessCredentialLookupKey) :
    OffsetDateTime * DeletionRepo → OffsetDateTime * DeletionRepo → Prop :=
  | held_at cr cr' :
      timed_step cr cr' → is_Some (acc_records (del_access cr'.2) !! key) →
      held_step key cr cr'.

Lemma access_ok_new : access_ok AccessState_new.
Proof.
  split; cbn.
  - intros id d. by rewrite lookup_empty.
  - intros k st job. by rewrite lookup_empty.
  - intros job b c. by rewrite lookup_empty.
  - intros k st job. by rewrite lookup_empty.
Qed.

Lemma timed_steps_access cr cr' :
  rtc timed_step cr cr' → access_ok (del_access cr.2) → access_ok (del_access cr'.2).
Proof.
  induction 1 as [|x y z Hs Hrest IH]; [done|]. intros Hok. apply IH.
  destruct Hs as [clock now r r' Hle Hs]. by apply (kf_ok _ _ (deletion_step_keeps _ _ _ Hs)).
Qed.

Lemma reachable_access start clock r :
  rtc timed_step (start, DeletionRepo_new) (clock, r) → access_ok (del_access r).
Proof. intros Hr%timed_steps_access; [done|apply access_ok_new]. Qed.

Lemma held_steps_final key cr cr' :
  rtc (held_step key) cr cr' → access_ok (del_access cr.2) →
  ∀ k c, acc_final_credentials (del_access cr.2) !! k = Some c → fcr_lookup_key c = key →
  access_ok (del_access cr'.2)
  ∧ ∃ c', acc_final_credentials (del_access cr'.2) !! k = Some c' ∧ final_evolves c c'.
Proof.
  induction 1 as [|x y z Hs Hrest IH]; intros Hok k c Hc Hkey.
  { split; [done|]. exists c. split; [done|apply final_evolves_refl]. }
  destruct Hs as [cr cr' Hs Hheld]. destruct Hs as [clock now r r' Hle Hs].
  pose proof (deletion_step_keeps _ _ _ Hs) as [Kok Kfinal].
  destruct (Kfinal Hok _ _ Hc) as (c1 & Hc1 & He1); [by rewrite Hkey|].
  destruct (IH (Kok Hok) k c1 Hc1) as (Hok' & c2 & Hc2 & He2); [by rewrite (fe_key _ _ He1)|].
  split; [done|]. exists c2. split; [done|by eapply final_evolves_trans].
Qed.

(** A final credential's identity can be read off its lookup key. *)
Lemma final_identity a job b c :
  access_ok a → acc_final_credentials a !! (job, b) = Some c →
  final_credential_identity a (fcr_lookup_key c) = Some (job, b).
Proof.
  intros Hok Hc. destruct (ak_final _ Hok _ _ _ Hc) as (st & Hst & Hd & Hb).
  unfold final_credential_identity. rewrite Hst. cbn. rewrite Hd. cbn. by rewrite Hb.
Qed.

(** A consumed read is closed for good. *)
Lemma consumed_closed a job b c path read x :
  access_ok a → acc_final_credentials a !! (job, b) = Some c → fcr_reads c !! path = Some read →
  rs_consumed_at read = Some x →
  (∀ token now, consume_deletion_read a (fcr_lookup_key c) path token now = (false, a))
  ∧ ∀ duration now token,
      prepare_deletion_read a (fcr_lookup_key c) path duration now token = Ok (None, a).
Proof.
  intros Hok Hc Hread Hx. pose proof (final_identity _ _ _ _ Hok Hc) as Hid.
  destruct (ak_final _ Hok _ _ _ Hc) as (st & Hst & Hd & Hb). split.
  - intros token now. unfold consume_deletion_read, final_read. rewrite Hid. cbn.
    rewrite Hc. cbn. rewrite Hread. cbn. by rewrite Hx.
  - intros duration now token. unfold prepare_deletion_read. rewrite Hst, Hd.
    destruct (acc_deletions a !! job) as [d|]; [|done]. split_match; [done|].
    destruct (resource_for_path _ _); [|done]. cbn [eqb].
    change (KindFinal == KindOrdinary) with false. cbn. rewrite Hb, Hc.
    destruct (final_access_open d now), (da_read_deadline d); try done. rewrite Hread.
    unfold read_taken. by rewrite Hx.
Qed.

(** Steps that do not store a credential under a key that has none: secrets are not drawn
    twice. *)
Inductive unissued_step (key : AccessCredentialLookupKey) :
    OffsetDateTime * DeletionRepo → OffsetDateTime * DeletionRepo → Prop :=
  | unissued_at cr cr' :
      timed_step cr cr' →
      (acc_records (del_access cr.2) !! key = None → acc_records (del_access cr'.2) !! key = None) →
      unissued_step key cr cr'.

(** The credential is either kept, or gone for good. *)
Lemma unissued_steps_held key cr cr' :
  rtc (unissued_step key) cr cr' →
  rtc (held_step key) cr cr' ∨ acc_records (del_access cr'.2) !! key = None.
Proof.
  intros Hsteps. pattern cr'. refine (rtc_ind_r _ _ _ _ _ Hsteps); [by left|].
  intros x y _ [x' y' Hs Hn] [Hheld|Hgone]; [|right; by apply Hn].
  destruct (acc_records (del_access y'.2) !! key) as [st|] eqn:Hk; [left|by right].
  eapply rtc_r; [exact Hheld|]. split; [done|by eexists].
Qed.

(** Without its record a credential reads nothing. *)
Lemma gone_closed a key path :
  acc_records a !! key = None →
  (∀ token now, consume_deletion_read a key path token now = (false, a))
  ∧ ∀ duration now token, prepare_deletion_read a key path duration now token = Ok (None, a).
Proof.
  intros Hk. split.
  - intros token now. unfold consume_deletion_read, final_read, final_credential_identity. by rewrite Hk.
  - intros duration now token. unfold prepare_deletion_read. by rewrite Hk.
Qed.

(** C19: a final credential reads each resource at most once.  After a read of a path has been
    consumed, no read of that path is authorised or consumed with the credential again: in
    every later history, whether the credential is kept or removed, as long as no new
    credential is stored under the lookup key of a removed one. *)
Theorem final_read_at_most_once start clock r key path token now a1 clock' r' :
  rtc timed_step (start, DeletionRepo_new) (clock, r) →
  consume_deletion_read (del_access r) key path token now = (true, a1) →
  rtc (unissued_step key) (now, del_with_access r a1) (clock', r') →
  (∀ token' now', consume_deletion_read (del_access r') key path token' now'
                  = (false, del_access r'))
  ∧ ∀ duration now' token',
      prepare_deletion_read (del_access r') key path duration now' token'
      = Ok (None, del_access r').
Proof.
  intros Hok%reachable_access Hcons Hsteps%unissued_steps_held.
  destruct Hsteps as [Hsteps|Hgone]; [|by apply gone_closed].
  pose proof (consume_keeps (del_access r) key path token now) as Hkeep. rewrite Hcons in Hkeep.
  unfold consume_deletion_read in Hcons.
  destruct (final_read (del_access r) key path) as [[[job b] read]|] eqn:Hf; [|done].
  assert (fcr_lookup_key <$> acc_final_credentials (del_access r) !! (job, b) = Some key) as Hid.
  { unfold final_read in Hf. apply bind_Some in Hf as (k & Hk & Hf).
    apply bind_Some in Hf as (c & Hc & Hf). apply bind_Some in Hf as (rd & _ & Hf).
    injection Hf as -> _. unfold final_credential_identity in Hk.
    apply bind_Some in Hk as (st & Hst & Hk). apply bind_Some in Hk as ([j kind] & Hd & Hk).
    destruct kind; [done|]. injection Hk as -> <-.
    destruct (ak_stored _ Hok _ _ _ Hst Hd) as (c' & Hc' & <-). by rewrite Hc'. }
  apply final_read_Some in Hf as (c & Hc & Hread). rewrite Hc in Hid. injection Hid as Hkey.
  split_match in Hcons; [done|]. injection Hcons as <-.
  set (c1 := fcr_with_reads c (<[path := MkReadState None None (Some now)]> (fcr_reads c))).
  assert (acc_final_credentials (del_access (del_with_access r
    (set_read (del_access r) (job, b) path (MkReadState None None (Some now))))) !! (job, b)
    = Some c1) as Hc1 by (cbn; by rewrite lookup_alter_eq, Hc).
  destruct (held_steps_final _ _ _ Hsteps (kf_ok _ _ Hkeep Hok) _ _ Hc1 Hkey)
    as (Hok' & c2 & Hc2 & [Ek _ _ Er]).
  destruct (Er path (MkReadState None None (Some now))) as (read2 & Hread2 & Hx2);
    [apply lookup_insert_eq|].
  rewrite <- Hkey. change (fcr_lookup_key c) with (fcr_lookup_key c1). rewrite <- Ek.
  eapply consumed_closed; [done|done|done|]. apply Hx2. by eexists.
Qed.
End reads.

Section replay.
  Context `{Base32, Blake3, JsonCanonicalizer, CanonicalizationError, TimeCrate, Base64UrlLaws,
            AeadLaws}.

(** What an issuance leaves in the store. *)
Lemma record_final_credential_spec key nonce a job d creator bundle expires candidate o a' :
  record_final_credential key nonce a job d creator bundle expires candidate = Ok (o, a') →
  o = Some (MkIssued candidate expires)
  ∧ ∃ bearer, encrypt key nonce (MkContext job creator bundle) candidate = Ok bearer
      ∧ acc_final_credentials a' !! (job, bundle)
        = Some (MkFinalCredential (derive_lookup_key candidate) bearer expires
                  (final_reads (da_frozen_content_lock d))).
Proof.
  unfold record_final_credential. intros (bearer & Hb & Hr)%bind_Ok.
  apply bind_Ok in Hr as ([] & _ & Hr). injection Hr as <- <-. split; [done|].
  exists bearer. split; [done|]. cbn. apply lookup_insert_eq.
Qed.

(** A bundle gets one final credential.  Once a worker has issued it, in every
    history that keeps it, issuing for the bundle again, with whatever fresh
    candidate, changes nothing and returns, if anything, the first credential with
    its first expiry. *)
Theorem final_credential_replayed start clock r cipher nonce job worker token creator bundle
    candidate now issued a1 clock' r' :
  rtc timed_step (start, DeletionRepo_new) (clock, r) →
  acc_final_credentials (del_access r) !! (job, bundle) = None →
  issue_or_replay_final_credential_for_worker cipher nonce (del_access r) job worker token creator
    bundle candidate now = Ok (Some issued, a1) →
  Z.of_nat (length nonce) = 24 →
  valid_utf8 (as_bytes (AccessCredential_as_str candidate)) = true →
  rtc (held_step (derive_lookup_key candidate)) (now, del_with_access r a1) (clock', r') →
  idc_credential issued = candidate
  ∧ ∀ nonce' worker' token' candidate' now' o a2,
      issue_or_replay_final_credential_for_worker cipher nonce' (del_access r') job worker' token'
        creator bundle candidate' now' = Ok (o, a2) →
      (o = None ∨ o = Some issued) ∧ a2 = del_access r'.
Proof.
  intros Hok%reachable_access Hnone Hissue Hlen Hutf Hsteps.
  pose proof (issue_for_worker_keeps _ _ _ _ _ _ _ _ _ _ _ _ Hissue) as Hkeep.
  unfold issue_or_replay_final_credential_for_worker in Hissue.
  destruct (acc_deletions (del_access r) !! job) as [d|] eqn:Hd; [|done]. rewrite Hnone in Hissue.
  destruct (_ && is_some_and permits_final_credential _); [|done].
  destruct (da_read_deadline d) as [expires|]; [|done].
  apply record_final_credential_spec in Hissue as (Heq & bearer & Henc & Hc).
  injection Heq as ->. split; [done|].
  intros nonce' worker' token' candidate' now' o a2 Hagain.
  destruct (held_steps_final _ _ _ Hsteps (kf_ok _ _ Hkeep Hok) (job, bundle) _ Hc eq_refl)
    as (_ & c2 & Hc2 & [_ Eb Ee _]). cbn in Eb, Ee. cbn [snd] in Hc2.
  unfold issue_or_replay_final_credential_for_worker in Hagain. rewrite Hc2 in Hagain.
  destruct (acc_deletions (del_access r') !! job) as [d'|]; [|injection Hagain as <- <-; eauto].
  destruct (_ && is_some_and permits_final_credential _); [|injection Hagain as <- <-; eauto].
  unfold replay_final_credential in Hagain.
  apply bind_Ok in Hagain as (credential & Hdec & Hagain). injection Hagain as <- <-.
  rewrite Eb in Hdec.
  pose proof (envelope_opens _ _ _ _ _ Henc Hlen Hutf) as Hopen. rewrite Hopen in Hdec.
  injection Hdec as <-. rewrite Ee. eauto.
Qed.
End replay.
