(* ===== verification/PaymentStore.v ===== *)
(** The in-memory payment-task repository
    ([locks-service/src/infrastructure/memory/payment_tasks.rs]).

    The same lease protocol as [GraphStore], over payment snapshots and on the
    same shared fence: admission, claims, replacement, retries, release and
    publication.  The state is the fence together with the repository's own
    records.  Clock readings and fresh UUIDs are arguments. *)

From S2P Require Import Prelude RustStr Externals Ids Json LockPolicy Wire Errors.
From S2P Require Import Entitlements GraphTask PaymentTask Fence GraphStore.

(** * Data *)

Record PaymentTaskRecord := MkPaymentTaskRecord {
  ptr_task_id : TaskId;
  ptr_snapshot : PaymentTaskSnapshotV1;
  ptr_evaluator_revision : Z;
  ptr_status : VerificationTaskStatus;
  ptr_entitlement_to_publish : option VerifiedProofBundleV2;
  ptr_entitlement_publication_token : option Uuid;
  ptr_completed_at : option OffsetDateTime;
}.

Record ClaimedPaymentTask := MkClaimedPaymentTask {
  cpt_task : PaymentTaskRecord;
  cpt_claim_token : Uuid;
}.

Record StoredPaymentTask := MkStoredPaymentTask {
  sp_task : PaymentTaskRecord;
  sp_claimed_by : option string;
  sp_claim_token : option Uuid;
  sp_claim_expires_at : option OffsetDateTime;
  sp_next_attempt_at : option OffsetDateTime;
}.

Record AdmitPaymentTask := MkAdmitPaymentTask {
  adm_task_id : TaskId;
  adm_submitted_proof_bundle : SubmittedProofBundleV2;
  adm_lock_hash : bytes;
  adm_payment : PaymentPolicyV2;
  adm_verification_window_seconds : Z;
}.

Record PaymentRepo := MkPaymentRepo {
  pr_fence : Fence;
  pr_records : list StoredPaymentTask;
}.

Definition PaymentRepo_new : PaymentRepo := MkPaymentRepo Fence_new [].

Definition invalid_state (message : string) : ApplicationError :=
  InvalidVerificationTaskState message.

Definition ptr_handle (t : PaymentTaskRecord) : CreatorPubky * BundleId :=
  (pt_creator (ptr_snapshot t), pt_bundle_id (ptr_snapshot t)).

Definition sp_id (st : StoredPaymentTask) : TaskId := ptr_task_id (sp_task st).
Definition sp_handle (st : StoredPaymentTask) : CreatorPubky * BundleId := ptr_handle (sp_task st).
Definition sp_snapshot (st : StoredPaymentTask) : PaymentTaskSnapshotV1 :=
  ptr_snapshot (sp_task st).

Definition adm_handle (request : AdmitPaymentTask) : CreatorPubky * BundleId :=
  (resource_creator (sb2_pubky_lock_resource (adm_submitted_proof_bundle request)),
   sb2_bundle_id (adm_submitted_proof_bundle request)).

Definition adm_lock_key (request : AdmitPaymentTask) : CreatorPubky * LockId :=
  (resource_creator (sb2_pubky_lock_resource (adm_submitted_proof_bundle request)),
   resource_lock_id (sb2_pubky_lock_resource (adm_submitted_proof_bundle request))).

(** Field updates. *)
Definition ptr_with_status (t : PaymentTaskRecord) (status : VerificationTaskStatus) :=
  MkPaymentTaskRecord (ptr_task_id t) (ptr_snapshot t) (ptr_evaluator_revision t) status
    (ptr_entitlement_to_publish t) (ptr_entitlement_publication_token t) (ptr_completed_at t).

Definition ptr_with_snapshot (t : PaymentTaskRecord) (s : PaymentTaskSnapshotV1) (revision : Z) :=
  MkPaymentTaskRecord (ptr_task_id t) s revision (ptr_status t)
    (ptr_entitlement_to_publish t) (ptr_entitlement_publication_token t) (ptr_completed_at t).

Definition sp_with_task (st : StoredPaymentTask) (t : PaymentTaskRecord) :=
  MkStoredPaymentTask t (sp_claimed_by st) (sp_claim_token st) (sp_claim_expires_at st)
    (sp_next_attempt_at st).

Section store.
  Context `{Base32, TimeCrate}.

(** * Admission *)

Definition payment_fence_record (t : PaymentTaskRecord) (lock_id : LockId) : TaskFenceRecord :=
  MkTaskFenceRecord (pt_creator (ptr_snapshot t)) lock_id (pt_bundle_id (ptr_snapshot t))
    true true (ptr_status t) None None.

Definition admit_payment_task (s : PaymentRepo) (request : AdmitPaymentTask)
    (now : OffsetDateTime) : result ApplicationError (PaymentTaskRecord * PaymentRepo) :=
  let new_at accepted_at :=
    map_err invalid_state
      (PaymentTaskSnapshotV1_new (adm_submitted_proof_bundle request) (adm_lock_hash request)
         (adm_payment request) accepted_at (adm_verification_window_seconds request)) in
  let f := pr_fence s in
  match find_first (λ st, sp_handle st == adm_handle request) (pr_records s) with
  | Some (_, existing) =>
      candidate ← new_at (pt_accepted_at (sp_snapshot existing));
      if has_same_admission_binding (sp_snapshot existing) candidate
      then Ok (sp_task existing, s)
      else Err VerificationTaskConflict
  | None =>
      _ ← reject_if
            (existsb (λ '(_, r), fence_record_handle r == adm_handle request)
               (map_to_list (fence_records f)))
            VerificationTaskConflict;
      _ ← reject_if (bool_decide (adm_lock_key request ∈ deletion_cutoffs f))
            ContentLockDeletionInProgress;
      snapshot ← new_at now;
      let t := MkPaymentTaskRecord (adm_task_id request) snapshot 0 Pending None None None in
      Ok (t,
          MkPaymentRepo
            (MkFence (<[adm_task_id request := payment_fence_record t (adm_lock_key request).2]>
                        (fence_records f))
               (graph_records f)
               (<[adm_task_id request := Pending]> (current_statuses f))
               (deletion_cutoffs f) (folded_auth_reservations f))
            (pr_records s ++ [MkStoredPaymentTask t None None None None]))
  end.

Definition get_payment_task_by_handle (s : PaymentRepo) (handle : CreatorPubky * BundleId) :
    option PaymentTaskRecord :=
  (λ '(_, st), sp_task st) <$> find_first (λ st, sp_handle st == handle) (pr_records s).

(** * Leases *)

Definition payment_claimable (f : Fence) (now : OffsetDateTime) (st : StoredPaymentTask) : bool :=
  let t := sp_task st in
  ((((ptr_status t == Pending) || (ptr_status t == InProgress))
    && (pt_root (ptr_snapshot t) == PaymentRootPending))
   || ((ptr_status t == PublishingEntitlement)
       && (pt_root (ptr_snapshot t) == PaymentRootSatisfied)))
  && is_none_or (λ due, due <=? now) (sp_next_attempt_at st)
  && is_none_or (λ e, e <=? now) (sp_claim_expires_at st)
  && undeleted f (ptr_task_id t).

Definition claim_next_payment_task (s : PaymentRepo) (worker_id : string)
    (caller_now requested_claim_expires_at : OffsetDateTime)
    (now : OffsetDateTime) (token : Uuid) :
    result ApplicationError (option ClaimedPaymentTask * PaymentRepo) :=
  let ttl := requested_claim_expires_at - caller_now in
  _ ← reject_if (negb (0 <? ttl)) (invalid_state "payment claim expiry must follow claim time");
  match find_first (payment_claimable (pr_fence s) now) (pr_records s) with
  | None => Ok (None, s)
  | Some (i, st) =>
      let t := sp_task st in
      let t' := if ptr_status t != PublishingEntitlement then ptr_with_status t InProgress else t in
      let st' := MkStoredPaymentTask t' (Some worker_id) (Some token) (Some (now + ttl)) None in
      Ok (Some (MkClaimedPaymentTask t' token),
          MkPaymentRepo (pr_fence s) (<[i := st']> (pr_records s)))
  end.

(** The exact live claim an operation must name; it does not look at the status. *)
Definition payment_live (id : TaskId) (worker_id : string) (token : Uuid) (revision : Z)
    (now : OffsetDateTime) (st : StoredPaymentTask) : bool :=
  (sp_id st == id)
  && (ptr_evaluator_revision (sp_task st) =? revision)
  && (sp_claimed_by st == Some worker_id)
  && (sp_claim_token st == Some token)
  && is_some_and (λ e, now <? e) (sp_claim_expires_at st).

Definition terminalize (st : StoredPaymentTask) (status : VerificationTaskStatus)
    (now : OffsetDateTime) : StoredPaymentTask :=
  let t := sp_task st in
  MkStoredPaymentTask
    (MkPaymentTaskRecord (ptr_task_id t) (ptr_snapshot t) (ptr_evaluator_revision t) status
       (ptr_entitlement_to_publish t) (ptr_entitlement_publication_token t) (Some now))
    None None None None.

Definition payment_entitlement (s : PaymentTaskSnapshotV1) (now : OffsetDateTime) :
    VerifiedProofBundleV2 :=
  MkVerifiedProofBundleV2 VERIFIED_PROOF_BUNDLE_V2_VERSION (pt_creator s) (pt_reader s)
    (pt_bundle_id s) (pt_pubky_lock_resource s) now [ByPayment].

(** The fence record and the status table follow a stored status. *)
Definition fence_with_task (f : Fence) (id : TaskId) (g : TaskFenceRecord → TaskFenceRecord)
    (status : VerificationTaskStatus) : Fence :=
  MkFence (alter g id (fence_records f)) (graph_records f)
    (<[id := status]> (current_statuses f)) (deletion_cutoffs f) (folded_auth_reservations f).

Definition follow_status (status : VerificationTaskStatus) (r : TaskFenceRecord) :
    TaskFenceRecord :=
  fr_with_publication r status
    (if status != PublishingEntitlement then None else fr_publication_claim_token r).

(** What the root of the replacement does to the stored task and its fence record. *)
Definition apply_payment_root (st : StoredPaymentTask) (now : OffsetDateTime)
    (publication_token : Uuid) :
    result ApplicationError (StoredPaymentTask * (TaskFenceRecord → TaskFenceRecord)) :=
  let t := sp_task st in
  match pt_root (ptr_snapshot t) with
  | PaymentRootPending => Ok (st, id)
  | PaymentRootSatisfied =>
      let entitlement := payment_entitlement (ptr_snapshot t) now in
      match VerifiedProofBundleV2_validate entitlement with
      | Err e =>
          Err (invalid_state ("invalid payment entitlement: "
                              +:+ VerifiedProofBundleV2ValidationError_display e))
      | Ok _ =>
          Ok (sp_with_task st
                (MkPaymentTaskRecord (ptr_task_id t) (ptr_snapshot t) (ptr_evaluator_revision t)
                   PublishingEntitlement (Some entitlement) (Some publication_token)
                   (ptr_completed_at t)),
              λ r, fr_with_publication r PublishingEntitlement (Some publication_token))
      end
  | PaymentRootExpired _ => Ok (terminalize st Expired now, id)
  | PaymentRootFailed _ => Ok (terminalize st Failed now, id)
  end.

(** The second component is the state left behind, on errors as well: the source
    writes the snapshot before it advances the revision. *)
Definition persist_claimed_payment_snapshot (s : PaymentRepo) (id : TaskId) (worker_id : string)
    (claim_token : Uuid) (expected_revision : Z) (snapshot : PaymentTaskSnapshotV1)
    (now : OffsetDateTime) (publication_token : Uuid) :
    result ApplicationError (option PaymentTaskRecord) * PaymentRepo :=
  let f := pr_fence s in
  let store i st := <[i := st]> (pr_records s) in
  match find_first (payment_live id worker_id claim_token expected_revision now)
          (pr_records s) with
  | None => (Ok None, s)
  | Some (i, st) =>
      let t := sp_task st in
      if negb (undeleted f id) then (Ok None, s)
      else
        match validate_payment_progress_from snapshot (ptr_snapshot t) with
        | Err e => (Err (invalid_state e), s)
        | Ok _ =>
            match checked_add U64_MAX (ptr_evaluator_revision t) 1 with
            | None =>
                (Err (invalid_state "payment evaluator revision overflow"),
                 MkPaymentRepo f
                   (store i (sp_with_task st
                               (ptr_with_snapshot t snapshot (ptr_evaluator_revision t)))))
            | Some next_revision =>
                let st1 := sp_with_task st (ptr_with_snapshot t snapshot next_revision) in
                match apply_payment_root st1 now publication_token with
                | Err e => (Err e, MkPaymentRepo f (store i st1))
                | Ok (st2, g) =>
                    let status := ptr_status (sp_task st2) in
                    (Ok (Some (sp_task st2)),
                     MkPaymentRepo
                       (fence_with_task f id (λ r, follow_status status (g r)) status)
                       (store i st2))
                end
            end
        end
  end.

(** The plain [+= 1] on the revision wraps in a release build. *)
Definition schedule_payment_task_retry (s : PaymentRepo) (id : TaskId) (worker_id : string)
    (claim_token : Uuid) (caller_now : OffsetDateTime) (expected_revision : Z)
    (snapshot : PaymentTaskSnapshotV1) (requested_next : OffsetDateTime)
    (now : OffsetDateTime) : result ApplicationError (option PaymentTaskRecord * PaymentRepo) :=
  let delay := requested_next - caller_now in
  _ ← reject_if (negb (0 <? delay)) (invalid_state "payment retry delay must be positive");
  let f := pr_fence s in
  match find_first (payment_live id worker_id claim_token expected_revision now)
          (pr_records s) with
  | None => Ok (None, s)
  | Some (i, st) =>
      let t := sp_task st in
      if negb (undeleted f id) then Ok (None, s)
      else
        _ ← map_err invalid_state (validate_payment_progress_from snapshot (ptr_snapshot t));
        _ ← reject_if (pt_root snapshot != PaymentRootPending)
              (invalid_state "payment retry requires pending root");
        let t' := ptr_with_status
                    (ptr_with_snapshot t snapshot
                       ((ptr_evaluator_revision t + 1) mod (U64_MAX + 1))) Pending in
        let st' := MkStoredPaymentTask t' None None None
                     (Some (Z.min (now + delay) (pt_deadline_at snapshot))) in
        Ok (Some t',
            MkPaymentRepo
              (fence_with_task f id
                 (λ r, fr_with_publication r Pending (fr_publication_claim_token r)) Pending)
              (<[i := st']> (pr_records s)))
  end.

Definition release_claimed_payment_task (s : PaymentRepo) (id : TaskId) (worker_id : string)
    (claim_token : Uuid) : bool * PaymentRepo :=
  match find_first (λ st, (sp_id st == id) && (sp_claimed_by st == Some worker_id)
                          && (sp_claim_token st == Some claim_token)) (pr_records s) with
  | None => (false, s)
  | Some (i, st) =>
      let t := sp_task st in
      if negb (undeleted (pr_fence s) id) then (false, s)
      else
        let t' := if (ptr_status t == InProgress) && (pt_root (ptr_snapshot t) == PaymentRootPending)
                  then ptr_with_status t Pending else t in
        (true,
         MkPaymentRepo (pr_fence s)
           (<[i := MkStoredPaymentTask t' None None None (sp_next_attempt_at st)]> (pr_records s)))
  end.

(** * Publication *)

Definition live_payment_publication (id : TaskId) (worker_id : string) (token : Uuid)
    (revision : Z) (publication_token : Uuid) (now : OffsetDateTime) (st : StoredPaymentTask) :
    bool :=
  payment_live id worker_id token revision now st
  && (ptr_status (sp_task st) == PublishingEntitlement)
  && (ptr_entitlement_publication_token (sp_task st) == Some publication_token).

(** Whether the guard for the external effect is granted. *)
Definition acquire_payment_publication_action (s : PaymentRepo) (id : TaskId)
    (worker_id : string) (claim_token : Uuid) (expected_revision : Z) (publication_token : Uuid)
    (now : OffsetDateTime) : bool :=
  if is_none (find_first (λ st, sp_id st == id) (pr_records s)) then false
  else if negb (undeleted (pr_fence s) id) then false
  else existsb (live_payment_publication id worker_id claim_token expected_revision
                  publication_token now) (pr_records s).

Definition complete_publication (s : PaymentRepo) (id : TaskId) (worker_id : string)
    (claim_token : Uuid) (expected_revision : Z) (publication_token : Uuid)
    (now : OffsetDateTime) : option PaymentTaskRecord * PaymentRepo :=
  match find_first (live_payment_publication id worker_id claim_token expected_revision
                      publication_token now) (pr_records s) with
  | None => (None, s)
  | Some (i, st) =>
      if negb (undeleted (pr_fence s) id) then (None, s)
      else
        let st' := terminalize st Completed now in
        (Some (sp_task st'),
         MkPaymentRepo
           (fence_with_task (pr_fence s) id (λ r, fr_with_publication r Completed None) Completed)
           (<[i := st']> (pr_records s)))
  end.

(** * The invariant *)

Definition sp_unclaimed (st : StoredPaymentTask) : Prop :=
  sp_claimed_by st = None ∧ sp_claim_token st = None ∧ sp_claim_expires_at st = None.

Definition sp_claimed (st : StoredPaymentTask) : Prop :=
  is_Some (sp_claimed_by st) ∧ is_Some (sp_claim_token st) ∧ is_Some (sp_claim_expires_at st).

Definition ptr_unpublished (t : PaymentTaskRecord) : Prop :=
  ptr_entitlement_to_publish t = None ∧ ptr_entitlement_publication_token t = None.

(** The stored payload is the entitlement of this snapshot, with its token. *)
Definition ptr_prepared (t : PaymentTaskRecord) : Prop :=
  (∃ at_, ptr_entitlement_to_publish t = Some (payment_entitlement (ptr_snapshot t) at_))
  ∧ is_Some (ptr_entitlement_publication_token t).

Definition payment_status_ok (st : StoredPaymentTask) : Prop :=
  let t := sp_task st in
  let root := pt_root (ptr_snapshot t) in
  match ptr_status t with
  | Pending =>
      root = PaymentRootPending ∧ sp_unclaimed st ∧ ptr_unpublished t ∧ ptr_completed_at t = None
  | InProgress =>
      root = PaymentRootPending ∧ sp_claimed st ∧ ptr_unpublished t ∧ ptr_completed_at t = None
  | PublishingEntitlement =>
      root = PaymentRootSatisfied ∧ (sp_unclaimed st ∨ sp_claimed st) ∧ ptr_prepared t
      ∧ ptr_completed_at t = None
  | Completed =>
      root = PaymentRootSatisfied ∧ sp_unclaimed st ∧ ptr_prepared t
      ∧ is_Some (ptr_completed_at t)
  | Expired | Failed =>
      PaymentRootState_terminal_status root = Some (ptr_status t) ∧ sp_unclaimed st
      ∧ ptr_unpublished t ∧ is_Some (ptr_completed_at t)
  end.

(** The token the fence holds for a task. *)
Definition fenced_token (t : PaymentTaskRecord) : option Uuid :=
  match ptr_status t with
  | PublishingEntitlement => ptr_entitlement_publication_token t
  | _ => None
  end.

Record stored_payment_ok (f : Fence) (st : StoredPaymentTask) : Prop := {
  spo_snapshot : PaymentTaskSnapshotV1_validate (sp_snapshot st) = Ok ();
  spo_status : payment_status_ok st;
  spo_fence : ∃ r, fence_records f !! sp_id st = Some r
    ∧ fence_record_handle r = sp_handle st
    ∧ fr_lock_id r = resource_lock_id (pt_pubky_lock_resource (sp_snapshot st))
    ∧ fr_publication_claim_token r = fenced_token (sp_task st);
}.

Record payment_store_ok (s : PaymentRepo) : Prop := {
  pso_ids : NoDup (sp_id <$> pr_records s);
  pso_handles : NoDup (sp_handle <$> pr_records s);
  pso_tasks st : st ∈ pr_records s → stored_payment_ok (pr_fence s) st;
}.

(** Both lanes over one fence: each is consistent, and no task identifier or
    handle occurs in both. *)
Record lanes_ok (s : PaymentRepo) : Prop := {
  lanes_graph : graph_store_ok (pr_fence s);
  lanes_payment : payment_store_ok s;
  lanes_disjoint g p :
    g ∈ graph_records (pr_fence s) → p ∈ pr_records s →
    sg_id g ≠ sp_id p ∧ sg_handle g ≠ sp_handle p;
}.

(** ** Writes to one payment task *)

Lemma stored_payment_of s i st :
  payment_store_ok s → pr_records s !! i = Some st → stored_payment_ok (pr_fence s) st.
Proof. intros [_ _ Hts] Hi. eapply Hts, list_elem_of_lookup_2, Hi. Qed.

Lemma same_payment s st st' :
  payment_store_ok s → st ∈ pr_records s → st' ∈ pr_records s → sp_id st' = sp_id st → st' = st.
Proof.
  intros [Hids _ _] [i Hi]%list_elem_of_lookup [j Hj]%list_elem_of_lookup Hid.
  assert (i = j) as ->; [|congruence].
  eapply NoDup_lookup; [exact Hids| |]; rewrite list_lookup_fmap; [by rewrite Hi|].
  rewrite Hj. cbn. by rewrite Hid.
Qed.

Lemma elem_of_write {A} (l : list A) i x y : y ∈ <[i := x]> l → y = x ∨ y ∈ l.
Proof.
  intros [j Hj]%list_elem_of_lookup. destruct (decide (j = i)) as [->|Hne].
  - destruct (decide (i < length l)%nat).
    + rewrite list_lookup_insert_eq in Hj by done. left. by injection Hj.
    + rewrite list_insert_ge in Hj by lia. right. by eapply list_elem_of_lookup_2.
  - rewrite list_lookup_insert_ne in Hj by done. right. by eapply list_elem_of_lookup_2.
Qed.

(** Replacing one stored task by one with the same identity, and its fence record
    with it, keeps both lanes consistent. *)
Lemma lanes_write s i st st' f' :
  lanes_ok s → pr_records s !! i = Some st →
  sp_id st' = sp_id st → sp_handle st' = sp_handle st →
  graph_records f' = graph_records (pr_fence s) →
  (∀ id, id ≠ sp_id st → fence_records f' !! id = fence_records (pr_fence s) !! id) →
  stored_payment_ok f' st' → lanes_ok (MkPaymentRepo f' (<[i := st']> (pr_records s))).
Proof.
  intros [Hg Hp Hdis] Hi Hid Hh Hgr Hfr Hst'. pose proof Hp as [Hids Hhs Hts].
  assert (st ∈ pr_records s) as Hin by (by eapply list_elem_of_lookup_2).
  split; cbn.
  - destruct Hg as [Hgi Hgh Hgt]. split; rewrite ?Hgr; [done|done|]. intros g Hgin.
    eapply stored_task_ok_fence; [|by apply Hgt]. apply Hfr. by apply (Hdis g st).
  - split; cbn.
    + rewrite list_fmap_insert, Hid, list_insert_id; [done|]. by rewrite list_lookup_fmap, Hi.
    + rewrite list_fmap_insert, Hh, list_insert_id; [done|]. by rewrite list_lookup_fmap, Hi.
    + intros p [j Hj]%list_elem_of_lookup. destruct (decide (j = i)) as [->|Hne].
      { rewrite list_lookup_insert_eq in Hj by eauto using lookup_lt_Some. by injection Hj as <-. }
      rewrite list_lookup_insert_ne in Hj by done.
      assert (p ∈ pr_records s) as Hpin by (by eapply list_elem_of_lookup_2).
      destruct (Hts p Hpin) as [Hv Hs Hf]. split; [done|done|]. rewrite Hfr; [done|].
      intros Heq. assert (p = st) as -> by (by eapply same_payment). apply Hne.
      eapply NoDup_lookup; [exact Hids| |]; rewrite list_lookup_fmap; [by rewrite Hj|by rewrite Hi].
  - intros g p Hgin Hpin. rewrite Hgr in Hgin.
    apply elem_of_write in Hpin as [->|Hpin]; [|by apply Hdis]. rewrite Hid, Hh. by apply Hdis.
Qed.

(** Same identity, same creator and lock: the fence record still fits. *)
Definition same_subject (st' st : StoredPaymentTask) : Prop :=
  sp_id st' = sp_id st ∧ sp_handle st' = sp_handle st
  ∧ resource_lock_id (pt_pubky_lock_resource (sp_snapshot st'))
    = resource_lock_id (pt_pubky_lock_resource (sp_snapshot st)).

Section payment_writes.
Context (s : PaymentRepo) (i : nat) (st st' : StoredPaymentTask).
Context (Hok : lanes_ok s) (Hi : pr_records s !! i = Some st) (Hsubj : same_subject st' st).
Context (Hvalid : PaymentTaskSnapshotV1_validate (sp_snapshot st') = Ok ()).
Context (Hstatus : payment_status_ok st').

Lemma quiet_payment_write :
  fenced_token (sp_task st') = fenced_token (sp_task st) →
  lanes_ok (MkPaymentRepo (pr_fence s) (<[i := st']> (pr_records s))).
Proof.
  intros Htok. destruct Hsubj as (Hid & Hh & Hl).
  destruct (stored_payment_of s i st (lanes_payment s Hok) Hi) as [_ _ (r & Hr & Hrh & Hrl & Hrt)].
  eapply lanes_write; [done|done|done|done|done|done|]. split; [done|done|].
  exists r. by rewrite Hid, Hh, Hl, Htok.
Qed.

Lemma fenced_payment_write g status :
  (∀ r, fence_record_handle (g r) = fence_record_handle r ∧ fr_lock_id (g r) = fr_lock_id r) →
  (∀ r, fr_publication_claim_token r = fenced_token (sp_task st) →
        fr_publication_claim_token (g r) = fenced_token (sp_task st')) →
  lanes_ok (MkPaymentRepo (fence_with_task (pr_fence s) (sp_id st) g status)
              (<[i := st']> (pr_records s))).
Proof.
  intros Hg Htok. destruct Hsubj as (Hid & Hh & Hl).
  destruct (stored_payment_of s i st (lanes_payment s Hok) Hi) as [_ _ (r & Hr & Hrh & Hrl & Hrt)].
  eapply lanes_write; [done|done|done|done|done| |].
  { intros id Hne. cbn. by apply lookup_alter_ne. }
  split; [done|done|]. exists (g r). destruct (Hg r) as [Hgh Hgl].
  rewrite Hid, Hh, Hl, Hgh, Hgl. cbn. rewrite lookup_alter_eq, Hr. cbn. auto.
Qed.
End payment_writes.

(** ** Live claims *)

Record payment_claim (id : TaskId) (worker : string) (token : Uuid) (revision : Z)
    (now : OffsetDateTime) (st : StoredPaymentTask) : Prop := {
  pc_id : sp_id st = id;
  pc_revision : ptr_evaluator_revision (sp_task st) = revision;
  pc_worker : sp_claimed_by st = Some worker;
  pc_token : sp_claim_token st = Some token;
  pc_unexpired : ∃ e, sp_claim_expires_at st = Some e ∧ now < e;
}.

Lemma payment_live_true id worker token revision now st :
  payment_live id worker token revision now st = true
  ↔ payment_claim id worker token revision now st.
Proof.
  unfold payment_live. rewrite !andb_true_iff, !eqb_true, Z.eqb_eq, is_some_and_true.
  setoid_rewrite Z.ltb_lt. split.
  - intros ((((? & ?) & ?) & ?) & ?). by split.
  - intros [? ? ? ? ?]. done.
Qed.

(** A claimed task is being evaluated or being published. *)
Lemma claimed_status st token :
  payment_status_ok st → sp_claim_token st = Some token →
  sp_claimed st
  ∧ ((ptr_status (sp_task st) = InProgress ∧ pt_root (sp_snapshot st) = PaymentRootPending
      ∧ ptr_unpublished (sp_task st) ∧ ptr_completed_at (sp_task st) = None)
     ∨ (ptr_status (sp_task st) = PublishingEntitlement
        ∧ pt_root (sp_snapshot st) = PaymentRootSatisfied
        ∧ ptr_prepared (sp_task st) ∧ ptr_completed_at (sp_task st) = None)).
Proof.
  unfold payment_status_ok, sp_unclaimed, sp_snapshot. intros Hs Ht.
  destruct (ptr_status (sp_task st)) eqn:Hst; destruct_and?; try congruence.
  - split; [done|]. left. by split_and!.
  - match goal with Hx : _ ∨ _ |- _ => destruct Hx as [Hx|Hx] end; [destruct_and!; congruence|].
    split; [done|]. right. by split_and!.
Qed.

Lemma succession_subject st st' s' :
  payment_succession (sp_snapshot st) s' → sp_id st' = sp_id st → sp_snapshot st' = s' →
  same_subject st' st.
Proof.
  intros [Hb _ _ _ _] Hid Hs'. injection Hb as Hver Hc Hbid Hsub Hres Hrest.
  split; [done|]. unfold sp_handle, ptr_handle, sp_snapshot in *. by rewrite Hs', Hc, Hbid, Hres.
Qed.

Lemma payment_entitlement_valid s now :
  PaymentTaskSnapshotV1_validate s = Ok () →
  VerifiedProofBundleV2_validate (payment_entitlement s now) = Ok ().
Proof.
  intros Hv. unfold PaymentTaskSnapshotV1_validate in Hv. peel. props.
  unfold VerifiedProofBundleV2_validate. pass; [done|]. pass; [|by pass].
  cbn. apply negb_false_iff. by apply eqb_true.
Qed.

(** ** Preservation *)

(** What applying a decided root leaves, for a task that was evaluated or is being
    published. *)
Lemma apply_payment_root_ok st now publication :
  PaymentTaskSnapshotV1_validate (sp_snapshot st) = Ok () → sp_claimed st →
  (ptr_status (sp_task st) = InProgress ∧ ptr_unpublished (sp_task st)
   ∨ ptr_status (sp_task st) = PublishingEntitlement
     ∧ pt_root (sp_snapshot st) = PaymentRootSatisfied) →
  ptr_completed_at (sp_task st) = None →
  ∃ st' g, apply_payment_root st now publication = Ok (st', g)
  ∧ sp_id st' = sp_id st ∧ sp_snapshot st' = sp_snapshot st
  ∧ payment_status_ok st'
  ∧ ptr_status (sp_task st')
    = default InProgress (PaymentRootState_terminal_status (pt_root (sp_snapshot st)))
  ∧ (∀ r, fence_record_handle (g r) = fence_record_handle r ∧ fr_lock_id (g r) = fr_lock_id r)
  ∧ (∀ r, fr_publication_claim_token (follow_status (ptr_status (sp_task st')) (g r))
          = fenced_token (sp_task st')).
Proof.
  intros Hv Hcl Hst Hcomp. unfold apply_payment_root.
  change (ptr_snapshot (sp_task st)) with (sp_snapshot st).
  rewrite (payment_entitlement_valid _ now Hv). unfold payment_status_ok, fenced_token.
  destruct (pt_root (sp_snapshot st)) eqn:Hr; do 2 eexists; (split; [done|]); cbn.
  - destruct Hst as [[Hst Hun]|[_ Hbad]]; [|done]. unfold sp_snapshot in *. rewrite Hst.
    split_and!; done.
  - split_and!; try done; [by right|split; by eexists].
  - destruct Hst as [[Hst Hun]|[_ Hbad]]; [|done]. unfold sp_snapshot in *. rewrite Hr.
    split_and!; try done; by apply Hun.
  - destruct Hst as [[Hst Hun]|[_ Hbad]]; [|done]. unfold sp_snapshot in *. rewrite Hr.
    split_and!; try done; by apply Hun.
Qed.

Lemma payment_persist_preserves s id worker token revision snapshot now publication :
  lanes_ok s → revision < U64_MAX →
  lanes_ok (persist_claimed_payment_snapshot s id worker token revision snapshot now
              publication).2.
Proof.
  intros Hok Hmax. unfold persist_claimed_payment_snapshot.
  destruct (find_first _ _) as [[i st]|] eqn:Hfind; [|done].
  apply find_first_Some in Hfind as [Hi [<- <- _ Htok _]%payment_live_true].
  destruct (negb _); [done|].
  destruct (validate_payment_progress_from _ _) as [[]|] eqn:Hprog; [|done].
  apply payment_progress_Ok in Hprog as (_ & Hvn & Hsucc).
  assert (checked_add U64_MAX (ptr_evaluator_revision (sp_task st)) 1
          = Some (ptr_evaluator_revision (sp_task st) + 1)) as ->.
  { apply checked_add_Some. split; [done|lia]. }
  destruct (stored_payment_of s i st (lanes_payment s Hok) Hi) as [_ Hs _].
  destruct (claimed_status st token Hs Htok) as [Hcl Hcase].
  destruct (apply_payment_root_ok (sp_with_task st (ptr_with_snapshot (sp_task st) snapshot
    (ptr_evaluator_revision (sp_task st) + 1))) now publication)
    as (st2 & g & -> & Hid & Hsn & Hok2 & _ & Hg & Htok2); [done|done| | |].
  - cbn. destruct Hcase as [(? & _ & ? & _)|(? & Hroot & _)]; [by left|right].
    split; [done|]. cbn. rewrite <- Hroot. apply Hsucc.
    unfold sp_snapshot in Hroot. by rewrite Hroot.
  - cbn. by destruct Hcase as [(_ & _ & _ & ?)|(_ & _ & _ & ?)].
  - cbn [snd]. apply (fenced_payment_write s i st st2); try done.
    + by eapply succession_subject.
    + by rewrite Hsn.
Qed.

Lemma payment_schedule_preserves s id worker token caller revision snapshot next now t s' :
  lanes_ok s →
  schedule_payment_task_retry s id worker token caller revision snapshot next now = Ok (t, s') →
  lanes_ok s'.
Proof.
  intros Hok Hsch. unfold schedule_payment_task_retry in Hsch.
  apply bind_Ok in Hsch as ([] & _ & Hsch).
  destruct (find_first _ _) as [[i st]|] eqn:Hfind; [|by injection Hsch as _ <-].
  apply find_first_Some in Hfind as [Hi [<- _ _ Htok _]%payment_live_true].
  destruct (negb _); [by injection Hsch as _ <-|].
  apply bind_Ok in Hsch as ([] & Hprog & Hsch). apply bind_Ok in Hsch as ([] & Hroot & Hsch).
  injection Hsch as _ <-. apply map_err_Ok, payment_progress_Ok in Hprog as (_ & Hvn & Hsucc).
  apply reject_if_Ok in Hroot. props.
  destruct (stored_payment_of s i st (lanes_payment s Hok) Hi) as [_ Hs _].
  destruct (claimed_status st token Hs Htok) as [Hcl [(Hst & _ & Hun & Hcomp)|(_ & Hsat & _)]].
  2: { destruct Hsucc as [_ Hr _ _ _]. unfold sp_snapshot in Hsat. rewrite Hsat in Hr.
       by rewrite Hr in Hroot. }
  apply (fenced_payment_write s i st _ Hok Hi); try done.
  - by eapply succession_subject.
  - intros r Hr. cbn. rewrite Hr. unfold fenced_token. cbn. by rewrite Hst.
Qed.

Lemma payment_release_preserves s id worker token :
  lanes_ok s → lanes_ok (release_claimed_payment_task s id worker token).2.
Proof.
  intros Hok. unfold release_claimed_payment_task.
  destruct (find_first _ _) as [[i st]|] eqn:Hfind; [|done].
  apply find_first_Some in Hfind as [Hi Hlive]. destruct (negb _); [done|]. props. cbn [snd].
  destruct (stored_payment_of s i st (lanes_payment s Hok) Hi) as [Hv Hs _].
  destruct (claimed_status st token Hs) as [Hcl [(Hst & Hr & Hun & Hcomp)|(Hst & Hr & Hpr & Hcomp)]];
    [done| |]; unfold sp_snapshot in Hr; rewrite Hst, ?Hr, ?eqb_same.
  - apply (quiet_payment_write s i st); try done. unfold fenced_token. cbn. by rewrite Hst.
  - change (PublishingEntitlement == InProgress) with false. cbn [andb].
    apply (quiet_payment_write s i st); try done. unfold payment_status_ok. cbn.
    rewrite Hst. split_and!; try done. by left.
Qed.

Lemma payment_complete_preserves s id worker token revision publication now :
  lanes_ok s →
  lanes_ok (complete_publication s id worker token revision publication now).2.
Proof.
  intros Hok. unfold complete_publication.
  destruct (find_first _ _) as [[i st]|] eqn:Hfind; [|done].
  apply find_first_Some in Hfind as [Hi Hlive]. destruct (negb _); [done|].
  unfold live_payment_publication in Hlive. props.
  match goal with Hx : payment_live _ _ _ _ _ _ = true |- _ =>
    apply payment_live_true in Hx as [<- _ _ Htok _] end. cbn [snd].
  destruct (stored_payment_of s i st (lanes_payment s Hok) Hi) as [Hv Hs _].
  destruct (claimed_status st token Hs Htok) as [_ [(Hst & _)|(Hst & Hr & Hpr & Hcomp)]];
    [congruence|]. apply (fenced_payment_write s i st); try done.
Qed.

Lemma payment_claim_preserves s worker caller expires now token c s' :
  lanes_ok s → claim_next_payment_task s worker caller expires now token = Ok (c, s') →
  lanes_ok s'.
Proof.
  intros Hok Hc. unfold claim_next_payment_task in Hc. apply bind_Ok in Hc as ([] & _ & Hc).
  destruct (find_first _ _) as [[i st]|] eqn:Hfind; [|by injection Hc as _ <-].
  apply find_first_Some in Hfind as [Hi Hcl]. injection Hc as _ <-.
  destruct (stored_payment_of s i st (lanes_payment s Hok) Hi) as [Hv Hs _].
  unfold payment_claimable in Hcl. props. unfold payment_status_ok in Hs.
  assert (∃ status, ptr_status (sp_task st) = status ∧
    ((status = Pending ∨ status = InProgress) ∨ status = PublishingEntitlement))
    as (status & Hst & Hcase) by (destruct (ptr_status (sp_task st)) eqn:Hx; naive_solver).
  rewrite Hst in *. destruct Hcase as [Hcase| ->].
  - assert ((status != PublishingEntitlement) = true) as -> by (by destruct Hcase as [-> | ->]).
    apply (quiet_payment_write s i st); try done.
    + unfold payment_status_ok, sp_claimed. cbn.
      destruct Hcase as [-> | ->]; destruct_and!; split_and!; by eauto.
    + unfold fenced_token. cbn. rewrite Hst. by destruct Hcase as [-> | ->].
  - rewrite eqb_same. cbn [negb]. apply (quiet_payment_write s i st); try done.
    unfold payment_status_ok, sp_claimed. cbn. rewrite Hst. destruct_and!.
    split_and!; try done. right. by eauto.
Qed.

Lemma new_payment_snapshot submitted hash payment accepted window snapshot :
  PaymentTaskSnapshotV1_new submitted hash payment accepted window = Ok snapshot →
  PaymentTaskSnapshotV1_validate snapshot = Ok () ∧ pt_root snapshot = PaymentRootPending
  ∧ pt_creator snapshot = resource_creator (sb2_pubky_lock_resource submitted)
  ∧ pt_bundle_id snapshot = sb2_bundle_id submitted
  ∧ pt_pubky_lock_resource snapshot = sb2_pubky_lock_resource submitted
  ∧ pt_accepted_at snapshot = accepted.
Proof.
  unfold PaymentTaskSnapshotV1_new, validate_payment_pristine_admission. intros Hn. by peel.
Qed.

(** A fresh identifier and a handle the fence does not know are new to both lanes. *)
Lemma new_subject s id handle :
  lanes_ok s → fence_records (pr_fence s) !! id = None →
  (∀ id' r, fence_records (pr_fence s) !! id' = Some r → fence_record_handle r ≠ handle) →
  (∀ p, p ∈ pr_records s → sp_id p ≠ id ∧ sp_handle p ≠ handle)
  ∧ (∀ g, g ∈ graph_records (pr_fence s) → sg_id g ≠ id ∧ sg_handle g ≠ handle).
Proof.
  intros [[_ _ Hgt] [_ _ Hts] _] Hid Hh. split.
  - intros p Hin. destruct (Hts p Hin) as [_ _ (r & Hr & Hrh & _)].
    split; [congruence|]. rewrite <- Hrh. by eapply Hh.
  - intros g Hin. destruct (Hgt g Hin) as [_ _ (r & Hr & Hrh & _)].
    split; [congruence|]. rewrite <- Hrh. by eapply Hh.
Qed.

Lemma NoDup_snoc {A B} (k : A → B) (l : list A) (x : A) :
  NoDup (k <$> l) → (∀ y, y ∈ l → k y ≠ k x) → NoDup (k <$> (l ++ [x])).
Proof.
  intros Hl Hx. rewrite fmap_app. apply NoDup_app. split_and!; [done| |apply NoDup_singleton].
  intros b (y & -> & Hin)%list_elem_of_fmap Heq%list_elem_of_singleton. by apply (Hx y).
Qed.

(** Adding a new payment task with its fence record. *)
Lemma lanes_add s st r statuses :
  lanes_ok s → stored_payment_ok (MkFence (<[sp_id st := r]> (fence_records (pr_fence s)))
    (graph_records (pr_fence s)) statuses (deletion_cutoffs (pr_fence s))
    (folded_auth_reservations (pr_fence s))) st →
  (∀ p, p ∈ pr_records s → sp_id p ≠ sp_id st ∧ sp_handle p ≠ sp_handle st) →
  (∀ g, g ∈ graph_records (pr_fence s) → sg_id g ≠ sp_id st ∧ sg_handle g ≠ sp_handle st) →
  lanes_ok (MkPaymentRepo
    (MkFence (<[sp_id st := r]> (fence_records (pr_fence s))) (graph_records (pr_fence s)) statuses
       (deletion_cutoffs (pr_fence s)) (folded_auth_reservations (pr_fence s)))
    (pr_records s ++ [st])).
Proof.
  intros [Hg [Hids Hhs Hts] Hdis] Hst Hnp Hng. split; cbn [pr_fence pr_records].
  - destruct Hg as [? ? Hgt]. split; [done|done|]. intros g Hin.
    eapply stored_task_ok_fence; [|by apply Hgt]. cbn. apply lookup_insert_ne.
    by apply not_eq_sym, Hng.
  - split; cbn [pr_fence pr_records].
    + apply NoDup_snoc; [done|]. intros p Hin. by apply Hnp.
    + apply NoDup_snoc; [done|]. intros p Hin. by apply Hnp.
    + intros p [Hin | ->%list_elem_of_singleton]%elem_of_app; [|done].
      destruct (Hts p Hin) as [Hvp Hsp Hfp]. split; [done|done|]. cbn.
      rewrite lookup_insert_ne; [done|]. by apply not_eq_sym, Hnp.
  - intros g p Hgin [Hin | ->%list_elem_of_singleton]%elem_of_app; [by apply Hdis|by apply Hng].
Qed.

Lemma payment_admit_preserves s request now t s' :
  lanes_ok s → fence_records (pr_fence s) !! adm_task_id request = None →
  admit_payment_task s request now = Ok (t, s') → lanes_ok s'.
Proof.
  intros Hok Hfresh Ha. unfold admit_payment_task in Ha. cbv zeta in Ha.
  destruct (find_first _ _) as [[i ex]|] eqn:Hfind.
  { apply bind_Ok in Ha as (cand & _ & Ha). split_match in Ha; [|done]. by injection Ha as _ <-. }
  apply bind_Ok in Ha as ([] & Hfence & Ha). apply bind_Ok in Ha as ([] & _ & Ha).
  apply bind_Ok in Ha as (snapshot & Hnew & Ha).
  apply map_err_Ok, new_payment_snapshot in Hnew as (Hv & Hroot & Hc & Hb & Hres & _).
  injection Ha as _ <-. rewrite reject_if_Ok, existsb_false in Hfence.
  destruct (new_subject s (adm_task_id request) (adm_handle request) Hok Hfresh) as [Hnp Hng].
  { intros id r Hr%elem_of_map_to_list. specialize (Hfence _ Hr). by apply eqb_false in Hfence. }
  assert ((pt_creator snapshot, pt_bundle_id snapshot) = adm_handle request) as Hh.
  { unfold adm_handle. by rewrite Hc, Hb. }
  eapply (lanes_add s (MkStoredPaymentTask (MkPaymentTaskRecord (adm_task_id request) snapshot 0
    Pending None None None) None None None None)); [done| |by rewrite <- Hh in Hnp|by rewrite <- Hh in Hng].
  split; [done|done|]. eexists. split; [apply lookup_insert_eq|].
  unfold adm_lock_key, sp_snapshot. cbn. by rewrite Hres.
Qed.

(** ** The graph lane on the shared fence *)

Definition graph_subject (g : StoredGraphTask) : TaskId * (CreatorPubky * BundleId) :=
  (sg_id g, sg_handle g).

(** What a step of the graph repository does to the state others see: it writes
    its own tasks and their fence records, or adds a task that is new to the
    fence. *)
Definition graph_frame (f f' : Fence) : Prop :=
  (graph_subject <$> graph_records f' = graph_subject <$> graph_records f
   ∧ ∀ id, (∀ g, g ∈ graph_records f → sg_id g ≠ id) →
           fence_records f' !! id = fence_records f !! id)
  ∨ (∃ t r, graph_records f' = graph_records f ++ [MkStoredGraphTask t None None None None]
     ∧ fence_records f !! gt_task_id t = None
     ∧ fence_records f' = <[gt_task_id t := r]> (fence_records f)
     ∧ ∀ id r', fence_records f !! id = Some r' → fence_record_handle r' = gt_handle t →
                ∃ g, g ∈ graph_records f ∧ sg_id g = id).

(** A write to one graph task that keeps its subject. *)
Lemma graph_write_frame f i g g' f' :
  graph_records f !! i = Some g → graph_subject g' = graph_subject g →
  graph_records f' = <[i := g']> (graph_records f) →
  (∀ id, id ≠ sg_id g → fence_records f' !! id = fence_records f !! id) →
  graph_frame f f'.
Proof.
  intros Hi Hsubj Hrec Hfr. left. split.
  - rewrite Hrec, list_fmap_insert, Hsubj, list_insert_id; [done|]. by rewrite list_lookup_fmap, Hi.
  - intros id Hid. apply Hfr, not_eq_sym, Hid. by eapply list_elem_of_lookup_2.
Qed.

Lemma graph_insert_frame f t before_publish folded t' f' :
  insert_graph_task_under_admission f t before_publish folded = Ok (t', f') → graph_frame f f'.
Proof.
  intros Hins. unfold insert_graph_task_under_admission in Hins. cbv zeta in Hins.
  do 3 (apply bind_Ok in Hins as ([] & _ & Hins)).
  apply bind_Ok in Hins as ([] & Hdup & Hins). apply bind_Ok in Hins as ([] & Hconf & Hins).
  destruct (find_first _ _) as [[i ex]|] eqn:Hfind.
  { split_match in Hins; [|done]. injection Hins as _ <-. by left. }
  apply bind_Ok in Hins as ([] & Hfresh & (? & _ & Hins)%bind_Ok). injection Hins as _ <-.
  right. exists t, (new_fence_record t). apply reject_if_Ok in Hfresh, Hdup, Hconf.
  rewrite Hfresh, andb_true_r in Hdup. split_and!; [done| |done|].
  - by apply is_some_false in Hdup.
  - intros id r Hr Hh. rewrite existsb_false in Hconf. apply elem_of_map_to_list in Hr.
    specialize (Hconf _ Hr). cbn in Hconf. rewrite Hh, eqb_same in Hconf. cbn in Hconf.
    apply negb_false_iff, existsb_exists in Hconf as (g & Hin & Hid).
    exists g. split; [by apply list_elem_of_In|by apply eqb_true].
Qed.

Lemma graph_frame_refl f : graph_frame f f.
Proof. by left. Qed.

Lemma graph_persist_frame f id worker token revision snapshot now publication :
  graph_frame f (persist_claimed_graph_snapshot f id worker token revision snapshot now
                   publication).2.
Proof.
  unfold persist_claimed_graph_snapshot.
  destruct (find_first _ _) as [[i st]|] eqn:Hfind; [|apply graph_frame_refl].
  apply find_first_Some in Hfind as [Hi [<- _ _ _ _ _ _]%live_evaluation_true].
  match goal with |- context [match ?c with Ok _ => _ | Err _ => _ end] =>
    destruct c as [next_revision|] eqn:Hchecks; [|apply graph_frame_refl] end.
  apply persist_checks_Ok in Hchecks as (Hrep & _).
  destruct (replacement_identity _ _ _ Hrep) as (Hhandle & _ & _).
  assert (∀ st', sg_id st' = sg_id st → gt_snapshot (sg_task st') = snapshot →
    graph_subject st' = graph_subject st) as Hsub.
  { intros st' Hid Hsn. unfold graph_subject, sg_handle, gt_handle.
    rewrite Hid, Hsn. by rewrite Hhandle. }
  assert (∀ st' status g, graph_subject st' = graph_subject st →
    graph_frame f (update_status f (sg_id st) i st' status g)) as Hup.
  { intros st' status g Hs. eapply graph_write_frame; [done|done|done|].
    intros id Hne. cbn. by apply lookup_alter_ne. }
  destruct (gs_root snapshot); [|destruct (VerifiedProofBundleV2_validate _)|..]; cbn [snd];
    try (by apply Hup, Hsub); (eapply graph_write_frame; [done| |done|done]); by apply Hsub.
Qed.

Lemma graph_step_frame f f' : graph_step f f' → graph_frame f f'.
Proof.
  destruct 1 as [f t bp fo t' f' Hi|f h|f h|f w c e n k cl f' Hc|f id w k r sn n p
                |f id w k c r sn nx n t f' Hs|f id w k|f id w k r p n].
  - by eapply graph_insert_frame.
  - by left.
  - by left.
  - unfold claim_next_graph_task in Hc. apply bind_Ok in Hc as ([] & _ & Hc).
    destruct (find_first _ _) as [[i st]|] eqn:Hfind; injection Hc as _ <-;
      [|apply graph_frame_refl]. apply find_first_Some in Hfind as [Hi _].
    eapply graph_write_frame; [done| |done|done]. by destruct (_ != _).
  - apply graph_persist_frame.
  - unfold schedule_graph_task_retry in Hs.
    destruct (find_first _ _) as [[i st]|] eqn:Hfind; [|injection Hs as _ <-; apply graph_frame_refl].
    apply find_first_Some in Hfind as [Hi _].
    apply bind_Ok in Hs as ([] & _ & Hs). apply bind_Ok in Hs as ([] & Hrep & Hs).
    apply bind_Ok in Hs as ([] & _ & Hs). apply bind_Ok in Hs as (rev & _ & Hs).
    injection Hs as _ <-. apply check_replacement_Ok in Hrep.
    destruct (replacement_identity _ _ _ Hrep) as (Hhandle & _ & _).
    eapply graph_write_frame; [done| |done|done].
    unfold graph_subject, sg_handle, gt_handle. cbn. by rewrite Hhandle.
  - unfold release_claimed_graph_task.
    destruct (find_first _ _) as [[i st]|] eqn:Hfind; [|apply graph_frame_refl].
    apply find_first_Some in Hfind as [Hi _]. cbn [snd].
    eapply graph_write_frame; [done| |done|done]. by destruct (_ && _).
  - unfold complete_claimed_graph_publication.
    destruct (find_first _ _) as [[i st]|] eqn:Hfind; [|apply graph_frame_refl].
    apply find_first_Some in Hfind as [Hi Hlive]. cbn [snd].
    unfold live_publication in Hlive. props. subst.
    eapply graph_write_frame; [done| |done|]; [done|]. intros id Hne. cbn. by apply lookup_alter_ne.
Qed.

(** A step of the graph lane keeps the payment lane and the separation. *)
Lemma lanes_graph_step s f' :
  lanes_ok s → graph_step (pr_fence s) f' → lanes_ok (MkPaymentRepo f' (pr_records s)).
Proof.
  intros [Hg [Hids Hhs Hts] Hdis] Hstep. pose proof (graph_step_ok _ _ Hstep Hg) as Hg'.
  apply graph_step_frame in Hstep as [[Hsub Hfr]|(t & r & Hrec & Hnew & Hfr & Hh)].
  - split; cbn; [done| |].
    + split; [done|done|]. intros p Hin. destruct (Hts p Hin) as [Hv Hs Hf].
      split; [done|done|]. cbn. rewrite Hfr; [done|]. intros g Hgin. by apply Hdis.
    + intros g p Hgin Hpin.
      assert (graph_subject g ∈ graph_subject <$> graph_records (pr_fence s))
        as (g0 & Heq & Hin0)%list_elem_of_fmap by (rewrite <- Hsub; by apply list_elem_of_fmap_2).
      assert (sg_id g = sg_id g0) as -> by exact (f_equal fst Heq).
      assert (sg_handle g = sg_handle g0) as -> by exact (f_equal snd Heq). by apply Hdis.
  - assert (∀ p, p ∈ pr_records s → sp_id p ≠ gt_task_id t ∧ sp_handle p ≠ gt_handle t) as Hnp.
    { intros p Hin. destruct (Hts p Hin) as [_ _ (rp & Hr & Hrh & _)]. split; [congruence|].
      intros Heq. destruct (Hh _ _ Hr) as (g & Hgin & Hid); [congruence|].
      by destruct (Hdis g p Hgin Hin) as [? _]. }
    split; cbn; [done| |].
    + split; [done|done|]. intros p Hin. destruct (Hts p Hin) as [Hv Hs Hf].
      split; [done|done|]. cbn. rewrite Hfr, lookup_insert_ne; [done|]. by apply not_eq_sym, Hnp.
    + intros g p Hgin Hpin. rewrite Hrec in Hgin.
      apply elem_of_app in Hgin as [Hgin | ->%list_elem_of_singleton]; [by apply Hdis|].
      destruct (Hnp p Hpin). by split; apply not_eq_sym.
Qed.

(** * Histories *)

(** The operations of both repositories on the shared state.  New payment tasks
    carry a fresh identifier, and evaluator revisions, which start at zero and
    advance by one, stay below [u64::MAX]. *)
Inductive lane_step : PaymentRepo → PaymentRepo → Prop :=
  | lane_graph s f' : graph_step (pr_fence s) f' → lane_step s (MkPaymentRepo f' (pr_records s))
  | lane_admit s request now t s' :
      fence_records (pr_fence s) !! adm_task_id request = None →
      admit_payment_task s request now = Ok (t, s') → lane_step s s'
  | lane_claim s worker caller expires now token c s' :
      claim_next_payment_task s worker caller expires now token = Ok (c, s') → lane_step s s'
  | lane_persist s id worker token revision snapshot now publication :
      revision < U64_MAX →
      lane_step s (persist_claimed_payment_snapshot s id worker token revision snapshot now
                     publication).2
  | lane_schedule s id worker token caller revision snapshot next now t s' :
      schedule_payment_task_retry s id worker token caller revision snapshot next now
        = Ok (t, s') → lane_step s s'
  | lane_release s id worker token :
      lane_step s (release_claimed_payment_task s id worker token).2
  | lane_complete s id worker token revision publication now :
      lane_step s (complete_publication s id worker token revision publication now).2.

Lemma lane_step_ok s s' : lane_step s s' → lanes_ok s → lanes_ok s'.
Proof.
  destruct 1; intros Hok.
  - by apply lanes_graph_step.
  - by eapply payment_admit_preserves.
  - by eapply payment_claim_preserves.
  - by apply payment_persist_preserves.
  - by eapply payment_schedule_preserves.
  - by apply payment_release_preserves.
  - by apply payment_complete_preserves.
Qed.

Lemma lane_steps_ok s s' : rtc lane_step s s' → lanes_ok s → lanes_ok s'.
Proof. induction 1; eauto using lane_step_ok. Qed.

Lemma lanes_ok_new : lanes_ok PaymentRepo_new.
Proof.
  split; cbn; [apply graph_store_ok_new| |by intros g p Hg%elem_of_nil].
  split; cbn; [constructor|constructor|]. by intros p Hp%elem_of_nil.
Qed.

(** Graph and payment tasks share one fence without interfering.  In every
    state both repositories reach together, each lane is consistent (unique
    identifiers and handles, valid snapshots, and agreement of status, root,
    lease, entitlement payload, publication token and completion time with each
    other and with the fence), and no identifier and no creator and bundle handle
    occurs in both lanes: a bundle is verified by one task. *)
Theorem lanes_invariant s : rtc lane_step PaymentRepo_new s → lanes_ok s.
Proof. intros Hsteps. apply (lane_steps_ok _ _ Hsteps), lanes_ok_new. Qed.

(** ** What becomes of a stored task *)

Definition settled_status (status : VerificationTaskStatus) : bool :=
  match status with Completed | Failed | Expired => true | _ => false end.

Record task_evolves (st st' : StoredPaymentTask) : Prop := {
  te_id : sp_id st' = sp_id st;
  te_succession : payment_succession (sp_snapshot st) (sp_snapshot st');
  te_settled : settled_status (ptr_status (sp_task st)) = true → st' = st;
}.

#[local] Instance task_evolves_preorder : PreOrder task_evolves.
Proof.
  split.
  - intros st. by split.
  - intros a b c [Hi1 Hs1 Ht1] [Hi2 Hs2 Ht2]. split; [congruence|by etransitivity|].
    intros Ha. rewrite Ht2, Ht1; [done|done|]. by rewrite Ht1.
Qed.

(** Overwriting an unsettled task by a successor. *)
Lemma write_evolves s i w w' st :
  pr_records s !! i = Some w → task_evolves w w' → st ∈ pr_records s →
  ∃ st', st' ∈ <[i := w']> (pr_records s) ∧ task_evolves st st'.
Proof.
  intros Hi Hw [j Hj]%list_elem_of_lookup. destruct (decide (j = i)) as [->|Hne].
  - rewrite Hi in Hj. injection Hj as <-. exists w'. split; [|done].
    apply list_elem_of_insert. by eapply lookup_lt_Some.
  - exists st. split; [|reflexivity]. apply list_elem_of_lookup. exists j.
    by rewrite list_lookup_insert_ne.
Qed.

(** A claimed task is not settled. *)
Lemma claimed_evolves s i w w' token :
  lanes_ok s → pr_records s !! i = Some w → sp_claim_token w = Some token →
  sp_id w' = sp_id w → payment_succession (sp_snapshot w) (sp_snapshot w') → task_evolves w w'.
Proof.
  intros Hok Hi Htok Hid Hsucc. split; [done|done|].
  destruct (stored_payment_of s i w (lanes_payment s Hok) Hi) as [_ Hs _].
  by destruct (claimed_status w token Hs Htok) as [_ [(-> & _)|(-> & _)]].
Qed.

Lemma apply_payment_root_keeps st now publication st' g :
  apply_payment_root st now publication = Ok (st', g) →
  sp_id st' = sp_id st ∧ sp_snapshot st' = sp_snapshot st.
Proof.
  unfold apply_payment_root. intros Ha.
  destruct (pt_root _); [|destruct (VerifiedProofBundleV2_validate _); [|done]|..];
    by injection Ha as <- _.
Qed.

Lemma persist_evolves s id worker token revision snapshot now publication st :
  lanes_ok s → st ∈ pr_records s →
  ∃ st', st' ∈ pr_records (persist_claimed_payment_snapshot s id worker token revision snapshot
                             now publication).2 ∧ task_evolves st st'.
Proof.
  intros Hok Hin. assert (∃ st', st' ∈ pr_records s ∧ task_evolves st st') as Hsame
    by (by exists st).
  unfold persist_claimed_payment_snapshot.
  destruct (find_first _ _) as [[i w]|] eqn:Hfind; [|done].
  apply find_first_Some in Hfind as [Hi [_ _ _ Htok _]%payment_live_true].
  destruct (negb _); [done|].
  destruct (validate_payment_progress_from _ _) as [[]|] eqn:Hprog; [|done].
  apply payment_progress_Ok in Hprog as (_ & _ & Hsucc).
  destruct (checked_add _ _ _) as [rev|]; [|eapply write_evolves; [done| |done];
    by eapply claimed_evolves].
  destruct (apply_payment_root _ _ _) as [[st2 g]|] eqn:Ha; (eapply write_evolves; [done| |done]).
  - apply apply_payment_root_keeps in Ha as [Hid2 Hsn2].
    eapply claimed_evolves; [done|done|done|done|]. by rewrite Hsn2.
  - by eapply claimed_evolves.
Qed.

Lemma lane_step_evolves s s' st :
  lane_step s s' → lanes_ok s → st ∈ pr_records s →
  ∃ st', st' ∈ pr_records s' ∧ task_evolves st st'.
Proof.
  intros Hstep Hok Hin.
  assert (∃ st', st' ∈ pr_records s ∧ task_evolves st st') as Hsame by (by exists st).
  destruct Hstep as [s f' _|s request now t s' _ Ha|s w c e n k cl s' Hc|s id w k r sn n p _
                    |s id w k c r sn nx n t s' Hs|s id w k|s id w k r p n]; [done|..].
  - unfold admit_payment_task in Ha. cbv zeta in Ha.
    destruct (find_first _ _) as [[i ex]|].
    { apply bind_Ok in Ha as (cand & _ & Ha). split_match in Ha; [|done]. by injection Ha as _ <-. }
    do 2 (apply bind_Ok in Ha as ([] & _ & Ha)). apply bind_Ok in Ha as (sn & _ & Ha).
    injection Ha as _ <-. exists st. split; [|reflexivity]. cbn. apply elem_of_app. by left.
  - unfold claim_next_payment_task in Hc. apply bind_Ok in Hc as ([] & _ & Hc).
    destruct (find_first _ _) as [[i x]|] eqn:Hfind; injection Hc as _ <-; [|done].
    apply find_first_Some in Hfind as [Hi Hcl]. unfold payment_claimable in Hcl. props.
    eapply write_evolves; [done| |done]. split; [by destruct (_ != _)| |].
    + unfold sp_snapshot. cbn. by destruct (_ != _).
    + intros Hset. destruct (ptr_status (sp_task x)); naive_solver.
  - by apply persist_evolves.
  - unfold schedule_payment_task_retry in Hs. apply bind_Ok in Hs as ([] & _ & Hs).
    destruct (find_first _ _) as [[i x]|] eqn:Hfind; [|by injection Hs as _ <-].
    apply find_first_Some in Hfind as [Hi [_ _ _ Htok _]%payment_live_true].
    destruct (negb _); [by injection Hs as _ <-|].
    apply bind_Ok in Hs as ([] & Hprog & Hs). apply bind_Ok in Hs as ([] & _ & Hs).
    injection Hs as _ <-. apply map_err_Ok, payment_progress_Ok in Hprog as (_ & _ & Hsucc).
    eapply write_evolves; [done| |done]. by eapply claimed_evolves.
  - unfold release_claimed_payment_task.
    destruct (find_first _ _) as [[i x]|] eqn:Hfind; [|done].
    apply find_first_Some in Hfind as [Hi Hl]. destruct (negb _); [done|]. props.
    eapply write_evolves; [done| |done].
    eapply claimed_evolves; [done|done|done|by destruct (_ && _)|].
    unfold sp_snapshot. cbn. by destruct (_ && _).
  - unfold complete_publication.
    destruct (find_first _ _) as [[i x]|] eqn:Hfind; [|done].
    apply find_first_Some in Hfind as [Hi Hl]. destruct (negb _); [done|].
    unfold live_payment_publication in Hl. props.
    match goal with Hx : payment_live _ _ _ _ _ _ = true |- _ =>
      apply payment_live_true in Hx as [_ _ _ Htok _] end.
    eapply write_evolves; [done| |done]. by eapply claimed_evolves.
Qed.

Lemma lane_steps_evolve s s' st :
  rtc lane_step s s' → lanes_ok s → st ∈ pr_records s →
  ∃ st', st' ∈ pr_records s' ∧ task_evolves st st'.
Proof.
  intros Hrtc. revert st. induction Hrtc as [s|s0 s1 s2 Hstep Hrest IH]; intros st Hok Hin.
  { by exists st. }
  destruct (lane_step_evolves s0 s1 st Hstep Hok Hin) as (st1 & Hin1 & He1).
  destruct (IH st1 (lane_step_ok _ _ Hstep Hok) Hin1) as (st2 & Hin2 & He2).
  exists st2. split; [done|]. by transitivity st1.
Qed.

(** What becomes of an admitted payment task.  Through every later history of
    both repositories the task is still stored under its identifier; its admission
    binding, created invoice, threshold evidence and terminal root never change; a
    completed, failed or expired task is left untouched; and a task found
    satisfied is being published or completed, with an entitlement for exactly its
    creator, reader, bundle and lock. *)
Theorem payment_task_history s s' st :
  rtc lane_step PaymentRepo_new s → rtc lane_step s s' → st ∈ pr_records s →
  ∃ st', st' ∈ pr_records s' ∧ sp_id st' = sp_id st
  ∧ payment_succession (sp_snapshot st) (sp_snapshot st')
  ∧ (settled_status (ptr_status (sp_task st)) = true → st' = st)
  ∧ (pt_root (sp_snapshot st) = PaymentRootSatisfied →
     (ptr_status (sp_task st') = PublishingEntitlement ∨ ptr_status (sp_task st') = Completed)
     ∧ ∃ at_, ptr_entitlement_to_publish (sp_task st')
              = Some (payment_entitlement (sp_snapshot st) at_)).
Proof.
  intros Hreach Hrest Hin. pose proof (lane_steps_ok _ _ Hreach lanes_ok_new) as Hok.
  destruct (lane_steps_evolve s s' st Hrest Hok Hin) as (st' & Hin' & [Hid Hsucc Hset]).
  exists st'. split_and!; [done|done|done|done|]. intros Hsat.
  destruct Hsucc as [Hb Hr _ _ _]. rewrite Hsat in Hr. specialize (Hr ltac:(done)).
  pose proof (lanes_payment s' (lane_steps_ok _ _ Hrest Hok)) as [_ _ Hts].
  destruct (Hts st' Hin') as [_ Hs _]. unfold payment_status_ok in Hs.
  assert (∀ at_, payment_entitlement (sp_snapshot st') at_ = payment_entitlement (sp_snapshot st) at_)
    as Hent.
  { intros at_. unfold payment_entitlement. by injection Hb as _ -> -> _ -> _ -> _ _ _. }
  unfold sp_snapshot in Hr. rewrite Hr in Hs.
  destruct (ptr_status (sp_task st')); destruct_and?; try done;
    match goal with Hx : ptr_prepared _ |- _ => destruct Hx as [[at_ Hp] _] end;
    (split; [auto|]); exists at_; rewrite Hp; f_equal; apply Hent.
Qed.

(** * Admission is idempotent *)

Lemma find_handle s st :
  payment_store_ok s → st ∈ pr_records s →
  ∃ i, find_first (λ x, sp_handle x == sp_handle st) (pr_records s) = Some (i, st).
Proof.
  intros [_ Hhs _] [i Hi]%list_elem_of_lookup. exists i.
  apply find_first_unique; [done|by apply eqb_same|].
  intros j y Hj Hy. cbv beta in Hy. apply (proj1 (eqb_true _ _)) in Hy.
  eapply NoDup_lookup; [exact Hhs| |]; rewrite list_lookup_fmap.
  - by rewrite Hj.
  - rewrite Hi. cbn. by rewrite Hy.
Qed.

(** An admitted request is answered by a stored task that was built from it. *)
Definition answers_request (request : AdmitPaymentTask) (st : StoredPaymentTask) : Prop :=
  sp_handle st = adm_handle request
  ∧ ∃ candidate,
      PaymentTaskSnapshotV1_new (adm_submitted_proof_bundle request) (adm_lock_hash request)
        (adm_payment request) (pt_accepted_at (sp_snapshot st))
        (adm_verification_window_seconds request) = Ok candidate
      ∧ binding_of (sp_snapshot st) = binding_of candidate.

Lemma admit_answers s request now t s' :
  admit_payment_task s request now = Ok (t, s') →
  ∃ st, st ∈ pr_records s' ∧ sp_task st = t ∧ answers_request request st.
Proof.
  intros Ha. unfold admit_payment_task in Ha. cbv zeta in Ha.
  destruct (find_first _ _) as [[i ex]|] eqn:Hfind.
  - apply bind_Ok in Ha as (cand & Hc%map_err_Ok & Ha). split_match in Ha; [|done].
    injection Ha as <- <-. apply find_first_Some in Hfind as [Hi Hh].
    apply (proj1 (eqb_true _ _)) in Hh. exists ex.
    split_and!; [by eapply list_elem_of_lookup_2|done|]. split; [done|]. exists cand. split; [done|]. by apply has_same_admission_binding_true.
  - do 2 (apply bind_Ok in Ha as ([] & _ & Ha)). apply bind_Ok in Ha as (sn & Hn%map_err_Ok & Ha).
    injection Ha as <- <-. pose proof (new_payment_snapshot _ _ _ _ _ _ Hn)
      as (_ & _ & Hc & Hb & _ & Hacc).
    eexists. split; [cbn; apply elem_of_app; right; by apply list_elem_of_singleton|].
    split; [done|]. split.
    + unfold sp_handle, ptr_handle, adm_handle. cbn. by rewrite Hc, Hb.
    + exists sn. unfold sp_snapshot. cbn. by rewrite Hacc.
Qed.

Lemma admit_again s request now st :
  payment_store_ok s → st ∈ pr_records s → answers_request request st →
  admit_payment_task s request now = Ok (sp_task st, s).
Proof.
  intros Hok Hin (Hh & cand & Hc & Hb). destruct (find_handle s st Hok Hin) as [i Hfind].
  unfold admit_payment_task. cbv zeta. rewrite <- Hh, Hfind, Hc.
  change (map_err invalid_state (Ok cand)) with (@Ok ApplicationError _ cand).
  rewrite bind_of_Ok, (proj2 (has_same_admission_binding_true _ _) Hb). done.
Qed.

(** Submitting a payment request again is harmless.  Once a request has been
    admitted, the same request, sent at any later time and after any history of
    both repositories, is answered with the task that was admitted, in its current
    state, and changes nothing. *)
Theorem admit_payment_task_idempotent s request now t s1 s2 later :
  rtc lane_step PaymentRepo_new s →
  fence_records (pr_fence s) !! adm_task_id request = None →
  admit_payment_task s request now = Ok (t, s1) → rtc lane_step s1 s2 →
  ∃ t', admit_payment_task s2 request later = Ok (t', s2)
  ∧ ptr_task_id t' = ptr_task_id t
  ∧ payment_succession (ptr_snapshot t) (ptr_snapshot t').
Proof.
  intros Hreach Hfresh Ha Hrest.
  assert (lanes_ok s1) as Hok1.
  { eapply payment_admit_preserves; [|done|done]. by apply (lane_steps_ok _ _ Hreach), lanes_ok_new. }
  destruct (admit_answers _ _ _ _ _ Ha) as (st & Hin & <- & Hh & cand & Hc & Hb).
  destruct (lane_steps_evolve s1 s2 st Hrest Hok1 Hin) as (st' & Hin' & [Hid Hsucc _]).
  exists (sp_task st'). split_and!; [|done|done].
  apply admit_again; [by apply lanes_payment, (lane_steps_ok _ _ Hrest)|done|].
  destruct Hsucc as [Hb' _ _ _ _]. split.
  - rewrite <- Hh. unfold sp_handle, ptr_handle, sp_snapshot in *. by injection Hb' as _ -> -> _.
  - exists cand. split; [|by rewrite Hb']. assert (pt_accepted_at (sp_snapshot st')
      = pt_accepted_at (sp_snapshot st)) as -> by (by injection Hb'). done.
Qed.

(** * Leases *)

(** Payment leases are exclusive.  While a stored task carries a claim token,
    every operation that presents another token for it finds nothing to do and
    leaves the state untouched; and until the lease expires no claim returns the
    task or disturbs its record. *)
Theorem payment_lease_exclusive s st token :
  lanes_ok s → st ∈ pr_records s → sp_claim_token st = Some token →
  (∀ token' worker caller revision snapshot next publication now, token' ≠ token →
     caller < next →
     persist_claimed_payment_snapshot s (sp_id st) worker token' revision snapshot now publication
       = (Ok None, s)
     ∧ schedule_payment_task_retry s (sp_id st) worker token' caller revision snapshot next now
       = Ok (None, s)
     ∧ release_claimed_payment_task s (sp_id st) worker token' = (false, s)
     ∧ complete_publication s (sp_id st) worker token' revision publication now = (None, s)
     ∧ acquire_payment_publication_action s (sp_id st) worker token' revision publication now
       = false)
  ∧ (∀ e worker caller expires now token' c s',
       sp_claim_expires_at st = Some e → now < e →
       claim_next_payment_task s worker caller expires now token' = Ok (Some c, s') →
       ptr_task_id (cpt_task c) ≠ sp_id st ∧ st ∈ pr_records s').
Proof.
  intros Hok Hin Htok. pose proof (lanes_payment s Hok) as Hp. split.
  - intros token' worker caller revision snapshot next publication now Hne Hlt.
    assert (∀ p : StoredPaymentTask → bool,
      (∀ x, p x = true → sp_id x = sp_id st ∧ sp_claim_token x = Some token') →
      find_first p (pr_records s) = None) as Hnone.
    { intros p Hp'. apply find_first_None. intros x Hx. apply not_true_iff_false.
      intros [Hid Ht]%Hp'. assert (x = st) as -> by (by eapply same_payment). congruence. }
    assert (∀ x, payment_live (sp_id st) worker token' revision now x = true →
      sp_id x = sp_id st ∧ sp_claim_token x = Some token') as Hlive.
    { by intros x [? _ _ ? _]%payment_live_true. }
    assert (∀ x, live_payment_publication (sp_id st) worker token' revision publication now x = true →
      sp_id x = sp_id st ∧ sp_claim_token x = Some token') as Hpub.
    { intros x Hx. unfold live_payment_publication in Hx. props. by apply Hlive. }
    split_and!.
    + unfold persist_claimed_payment_snapshot. by rewrite Hnone.
    + unfold schedule_payment_task_retry. rewrite Hnone by done. by pass; [apply negb_false_iff; lia|].
    + unfold release_claimed_payment_task. rewrite Hnone; [done|]. intros x Hx. by props.
    + unfold complete_publication. by rewrite Hnone.
    + unfold acquire_payment_publication_action. destruct (is_none _); [done|].
      destruct (negb _); [done|]. apply existsb_false, find_first_None. by apply Hnone.
  - intros e worker caller expires now token' c s' He Hnow Hc.
    unfold claim_next_payment_task in Hc. apply bind_Ok in Hc as ([] & _ & Hc).
    destruct (find_first _ _) as [[i x]|] eqn:Hfind; [|done].
    apply find_first_Some in Hfind as [Hi Hcl]. injection Hc as <- <-.
    assert (sp_id x ≠ sp_id st) as Hne.
    { intros Hid. assert (x = st) as ->.
      { eapply same_payment; [done|done|by eapply list_elem_of_lookup_2|done]. }
      unfold payment_claimable in Hcl. rewrite He in Hcl. cbn in Hcl. props. lia. }
    split; [by cbn; destruct (_ != _)|]. apply list_elem_of_lookup in Hin as [j Hj].
    apply list_elem_of_lookup. exists j. cbn. rewrite list_lookup_insert_ne; [done|].
    intros ->. congruence.
Qed.

End store.
