(* ===== verification/Lanes.v ===== *)
(** The two lanes: worker and repository together.

    [ClaimStore] is what the worker of [GraphWorker] needs from a repository
    ([application/ports/graph_tasks.rs], [GraphTaskClaimer]); the in-memory
    repository of [GraphStore] implements it.  The worker's plans are proved
    storable against the interface.  The plans of [PaymentWorker] are carried out by the
    repository of [PaymentStore], and an entitlement the lane prepares is backed by the
    evidence of a payment. *)

From S2P Require Import Prelude RustStr Externals Ids Json LockPolicy Wire Errors GraphTask.
From S2P Require Import GraphWorker PaymentTask PaymentWorker Fence GraphStore PaymentStore.

(** The calls the evaluation makes while it holds a lease, and when it holds one. *)
Class ClaimStore (S : Type) := {
  store_holds : S → TaskId → string → Uuid → Z → OffsetDateTime → GraphTaskSnapshotV1 → Prop;
  store_persist : S → TaskId → string → Uuid → Z → GraphTaskSnapshotV1 → OffsetDateTime → Uuid →
    result ApplicationError (option GraphTaskRecord) * S;
  store_schedule : S → TaskId → string → Uuid → OffsetDateTime → Z → GraphTaskSnapshotV1 →
    OffsetDateTime → OffsetDateTime → result ApplicationError (option GraphTaskRecord * S);
  store_get : S → HandleKey → option GraphTaskRecord;
}.

(** From [s] to [s'] the task of the id became [t]: it has the snapshot and the status, it
    is read back under its handle, and every other handle reads as before. *)
Record stored_as {S} `{!ClaimStore S} (s s' : S) (id : TaskId) (snapshot : GraphTaskSnapshotV1)
    (status : VerificationTaskStatus) (t : GraphTaskRecord) : Prop := {
  sas_id : gt_task_id t = id;
  sas_snapshot : gt_snapshot t = snapshot;
  sas_status : gt_status t = status;
  sas_read : store_get s' (gs_creator snapshot, gs_bundle_id snapshot) = Some t;
  sas_others h : h ≠ (gs_creator snapshot, gs_bundle_id snapshot) → store_get s' h = store_get s h;
}.

Definition persisted_status (snapshot : GraphTaskSnapshotV1) : VerificationTaskStatus :=
  default InProgress (GraphRootState_terminal_status (gs_root snapshot)).

Section lane.
  Context `{Base32, TimeCrate}.

(** What the port promises the holder of a live lease. *)
Class ClaimStoreLaws (S : Type) `{!ClaimStore S} : Prop := {
  store_persist_accepts s id worker token revision now publication current next :
    store_holds s id worker token revision now current →
    replacement_ok current next now → revision < U64_MAX →
    (∀ r, gs_root next = GraphExpired r → gs_deadline_at current ≤ now) →
    ∃ t s', store_persist s id worker token revision next now publication = (Ok (Some t), s')
            ∧ stored_as s s' id next (persisted_status next) t;
  store_schedule_accepts s id worker token revision now caller current next attempt :
    store_holds s id worker token revision now current →
    replacement_ok current next now → revision < U64_MAX → gs_root next = GraphPending →
    caller < attempt → now + (attempt - caller) ≤ gs_deadline_at current →
    ∃ t s', store_schedule s id worker token caller revision next attempt now = Ok (Some t, s')
            ∧ stored_as s s' id next Pending t;
}.

(** * The in-memory repository implements the port *)

#[global] Instance fence_claim_store : ClaimStore Fence := {|
  store_holds f id worker token revision now current :=
    graph_store_ok f ∧ ∃ st, st ∈ graph_records f
      ∧ live_claim f id worker token revision now st ∧ gt_snapshot (sg_task st) = current;
  store_persist := persist_claimed_graph_snapshot;
  store_schedule := schedule_graph_task_retry;
  store_get := get_graph_task_by_handle;
|}.

(** Writing a task back under its handle. *)
Lemma written_as f f' i st st' id snapshot status :
  graph_store_ok f → graph_records f !! i = Some st →
  graph_records f' = <[i := st']> (graph_records f) →
  sg_handle st = (gs_creator snapshot, gs_bundle_id snapshot) →
  sg_id st' = id → gt_snapshot (sg_task st') = snapshot → gt_status (sg_task st') = status →
  stored_as f f' id snapshot status (sg_task st').
Proof.
  intros Hok Hi Hrec Hh <- <- <-. assert (sg_handle st' = sg_handle st) as Hh' by by rewrite Hh.
  split; try done; cbn; unfold get_graph_task_by_handle; rewrite Hrec, <- Hh.
  - rewrite (find_first_unique _ _ i st'); [done|..].
    + apply list_lookup_insert_eq. by eapply lookup_lt_Some.
    + by rewrite Hh', eqb_same.
    + intros j y Hj Hy. rewrite eqb_true in Hy. destruct (decide (i = j)) as [|Hne]; [done|].
      rewrite list_lookup_insert_ne in Hj by done.
      eapply NoDup_lookup; [exact (gso_handles _ Hok)| |by rewrite list_lookup_fmap, Hi].
      rewrite list_lookup_fmap, Hj. cbn. by rewrite Hy.
  - intros h Hne. rewrite (find_first_insert _ _ i st st'); [done|done|..];
      apply eqb_false; congruence.
Qed.

#[global] Instance fence_claim_store_laws : ClaimStoreLaws Fence.
Proof.
  split.
  - intros f id worker token revision now publication current next (Hok & st & Hin & Hl & <-)
      Hrep Hmax Hexp. destruct (find_live f _ _ _ _ _ st Hok Hin Hl) as [i Hfind]. cbn.
    unfold persist_claimed_graph_snapshot. rewrite Hfind.
    destruct (replacement_identity _ _ _ Hrep) as (Hh & _ & Hd).
    rewrite (proj2 (persist_checks_Ok (gt_snapshot (sg_task st)) next now revision (revision + 1)))
      by (split_and!; [done|by rewrite Hd|done|done]).
    rewrite graph_publication_valid by apply Hrep.
    apply find_first_Some in Hfind as [Hi _]. pose proof Hl as [Hid _ _ _ _ _ _].
    assert (gt_status (sg_task st) = InProgress) as Hst by apply Hl.
    destruct (gs_root next) as [| |reason|] eqn:Hroot; do 2 eexists; (split; [reflexivity|]);
      refine (written_as f _ i st (MkStoredGraphTask _ _ _ _ _) id next _ Hok Hi _ _ _ _ _);
      unfold persisted_status; rewrite ?Hroot; try done.
    by destruct reason.
  - intros f id worker token revision now caller current next attempt (Hok & st & Hin & Hl & <-)
      Hrep Hmax Hroot Hlt Hle. destruct (find_live f _ _ _ _ _ st Hok Hin Hl) as [i Hfind]. cbn.
    unfold schedule_graph_task_retry. rewrite Hfind.
    destruct (replacement_identity _ _ _ Hrep) as (Hh & _ & Hd).
    assert ((now + (attempt - caller) <=? now)
            || (gs_deadline_at next <? now + (attempt - caller)) = false) as -> by (rewrite Hd; lia).
    cbn [reject_if mbind result_bind].
    rewrite (proj2 (check_replacement_Ok _ _ _) Hrep). cbn [mbind result_bind].
    assert (checked_add U64_MAX revision 1 = Some (revision + 1)) as ->
      by (apply checked_add_Some; split; [done|lia]).
    rewrite Hroot, eqb_same. apply find_first_Some in Hfind as [Hi _]. pose proof Hl as [Hid _ _ _ _ _ _].
    do 2 eexists. (split; [reflexivity|]).
    refine (written_as f _ i st (MkStoredGraphTask _ _ _ _ _) id next _ Hok Hi _ _ _ _ _); done.
Qed.

(** * Worker against the port *)

Lemma plan_replacement s plan now :
  plan_ok s plan → plan_time plan ≤ now → replacement_ok s (plan_snapshot plan) now.
Proof.
  intros [Hshape Hprog Hobs _] Hle. pose proof Hprog as Hparts.
  unfold validate_graph_progress_from in Hparts. peel. props. split; [done| | |done].
  - by eapply not_after_later.
  - apply ensure_same_binding_Ok. rewrite Hshape. cbn. by split_and!.
Qed.

(** Clock skew between the worker's reading and the repository's, which the
    in-memory repository adds to a retry. *)
Definition retry_fits (s : GraphTaskSnapshotV1) (plan : GraphWorkerPlan) (now : OffsetDateTime) :
    Prop :=
  match plan with
  | PersistSnapshot _ _ => True
  | ScheduleRetry _ caller next => now + (next - caller) ≤ gs_deadline_at s
  end.

Section client.
Context {S : Type} `{!ClaimStore S, !ClaimStoreLaws S} (jitter : Duration → Duration).

(** What the worker sends to the repository for a plan, and what the repository holds
    afterwards: the planned snapshot, read back under the handle, and nothing else
    changed. *)
Definition plan_stored (s : S) (id : TaskId) (worker : string) (token : Uuid) (revision : Z)
    (plan : GraphWorkerPlan) (now : OffsetDateTime) (publication : Uuid) : Prop :=
  match plan with
  | PersistSnapshot snapshot _ =>
      ∃ t s', store_persist s id worker token revision snapshot now publication
              = (Ok (Some t), s') ∧ stored_as s s' id snapshot (persisted_status snapshot) t
  | ScheduleRetry snapshot caller next =>
      ∃ t s', store_schedule s id worker token caller revision snapshot next now
              = Ok (Some t, s') ∧ stored_as s s' id snapshot Pending t
  end.

(** C8: worker and repository fit together.  For a claimed pending task the worker's
    evaluation produces a plan, and a repository that keeps the promises of the claim
    port carries it out as long as the lease is alive, the evaluator revision has room
    and a planned retry still fits before the deadline on the repository's own clock: in
    the store it leaves, the task is read back under its handle with exactly the planned
    snapshot and the status of its root, and every other handle reads as before.  The
    in-memory repository keeps these promises ([fence_claim_store_laws]). *)
Theorem worker_plan_is_stored s id worker token revision now publication current
    dispatch_now answers reduced_at :
  store_holds s id worker token revision now current → revision < U64_MAX →
  GraphTaskSnapshotV1_validate current = Ok () → gs_root current = GraphPending →
  Forall tracked (gs_predicates current) →
  validate_observations_not_after current dispatch_now = Ok () →
  dispatch_now ≤ reduced_at → reduced_at ≤ now → answers_ok current reduced_at answers →
  ∃ plan, evaluate_claimed_task jitter current dispatch_now answers reduced_at = Ok plan
  ∧ (retry_fits current plan now →
     plan_stored s id worker token revision plan now publication).
Proof.
  intros Hholds Hmax Hv Hp Htr Hobs Hle Hnow Hans.
  destruct (evaluate_claimed_task_ok jitter current dispatch_now answers reduced_at)
    as (plan & Hplan & Hok & _ & Htime); try done.
  exists plan. split; [done|]. intros Hfits.
  assert (replacement_ok current (plan_snapshot plan) now) as Hrep.
  { eapply plan_replacement; [done|lia]. }
  destruct Hok as [_ _ _ Hkind]. destruct plan as [snap t|snap caller next]; cbn in *.
  - destruct Hkind as [_ Hexp]. eapply store_persist_accepts; [done|done|done|].
    intros r Hr. specialize (Hexp r Hr). lia.
  - destruct Hkind as [Hroot Hnext]. eapply store_schedule_accepts; (done || lia).
Qed.
End client.

End lane.

Section lane.
  Context `{Base32, TimeCrate}.

(** The call the worker makes for a plan, and the task it gets back. *)
Definition carry_out (s : PaymentRepo) (id : TaskId) (worker : string) (token : Uuid)
    (revision : Z) (plan : PaymentWorkerPlan) (now : OffsetDateTime) (publication : Uuid) :
    result ApplicationError (option PaymentTaskRecord) * PaymentRepo :=
  match plan with
  | PaymentPersist snapshot _ =>
      persist_claimed_payment_snapshot s id worker token revision snapshot now publication
  | PaymentSchedule snapshot caller due =>
      match schedule_payment_task_retry s id worker token caller revision snapshot due now with
      | Ok (t, s') => (Ok t, s')
      | Err e => (Err e, s)
      end
  end.

Definition payment_plan_snapshot (plan : PaymentWorkerPlan) : PaymentTaskSnapshotV1 :=
  match plan with PaymentPersist s _ | PaymentSchedule s _ _ => s end.

(** ** Only evidence settles *)

Lemma reduced_evidence s now s' :
  reduce_payment_snapshot s now = Ok s' → pt_root s = PaymentRootPending →
  pt_root s' = PaymentRootSatisfied →
  ∃ first, first_threshold s' = Some first ∧ threshold_evidence s' first.
Proof.
  intros Hr Hp Hsat.
  assert (PaymentTaskSnapshotV1_validate s = Ok ()) as Hv.
  { unfold reduce_payment_snapshot in Hr. by apply bind_Ok in Hr as ([] & ? & _). }
  destruct (reduce_payment_snapshot_ok s now Hv) as (s'' & Hr' & Hv' & Hs' & _ & _ & Hset).
  rewrite Hr in Hr'. injection Hr' as <-.
  destruct (proj1 (Hset Hp) Hsat) as (status & Hst & _ & [first Hf]). exists first.
  assert (first_threshold s' = Some first) as Hft.
  { rewrite Hs'. unfold first_threshold. cbn. by rewrite Hst. }
  split; [done|]. by apply stored_evidence.
Qed.

(** A plan to publish is made from threshold evidence. *)
Lemma planned_evidence s dispatch_now create status answered_at plan :
  evaluate_claimed_payment s dispatch_now create status answered_at = Ok plan →
  pt_root s = PaymentRootPending → pt_root (payment_plan_snapshot plan) = PaymentRootSatisfied →
  ∃ first, first_threshold (payment_plan_snapshot plan) = Some first
           ∧ threshold_evidence (payment_plan_snapshot plan) first.
Proof.
  intros He Hp Hsat. unfold evaluate_claimed_payment in He. rewrite Hp, eqb_same in He.
  cbn [negb] in He. destruct (pt_deadline_at s <=? dispatch_now).
  { apply bind_Ok in He as (s' & Hr%map_err_Ok & He). injection He as <-.
    by eapply reduced_evidence. }
  assert (∀ error, handle_provider_error s error answered_at = Ok plan →
    ∃ first, first_threshold (payment_plan_snapshot plan) = Some first
             ∧ threshold_evidence (payment_plan_snapshot plan) first) as Herr.
  { intros error Hh. unfold handle_provider_error in Hh.
    destruct (pe_kind error); try (injection Hh as <-; done).
    destruct (_ <=? answered_at); [|injection Hh as <-; cbn in Hsat; congruence].
    apply bind_Ok in Hh as (s' & Hr%map_err_Ok & Hh). injection Hh as <-.
    by eapply reduced_evidence. }
  destruct (pt_invoice s == InvoicePending).
  - destruct create as [created|error]; [|by eapply Herr]. unfold handle_create_response in He.
    destruct (apply_create_response _ _ _ _) as [s1|] eqn:Ha; [|injection He as <-; done].
    assert (pt_root s1 = PaymentRootPending) as Hp1
      by (unfold apply_create_response in Ha; by peel).
    destruct (_ <=? answered_at); [|injection He as <-; cbn in Hsat; congruence].
    apply bind_Ok in He as (s' & Hr%map_err_Ok & He). injection He as <-.
    by eapply reduced_evidence.
  - destruct status as [st|error]; [|by eapply Herr]. unfold handle_status in He.
    destruct (apply_status _ _) as [s1|] eqn:Ha; [|injection He as <-; done].
    assert (pt_root s1 = PaymentRootPending) as Hp1 by (unfold apply_status in Ha; by peel).
    apply bind_Ok in He as (s' & Hr%map_err_Ok & He).
    destruct (pt_root s' == PaymentRootPending) eqn:Hroot; injection He as <-; props.
    + cbn in Hsat. congruence.
    + by eapply reduced_evidence.
Qed.

(** ** The repository carries plans out *)

Lemma find_payment_claim s id worker token revision now st :
  lanes_ok s → st ∈ pr_records s → payment_claim id worker token revision now st →
  ∃ i, find_first (payment_live id worker token revision now) (pr_records s) = Some (i, st)
       ∧ pr_records s !! i = Some st.
Proof.
  intros Hok Hin Hcl. destruct (find_first _ _) as [[i x]|] eqn:Hfind.
  - apply find_first_Some in Hfind as [Hi [Hid _ _ _ _]%payment_live_true].
    assert (x = st) as ->.
    { eapply same_payment; [by apply lanes_payment|done|by eapply list_elem_of_lookup_2|].
      destruct Hcl. congruence. }
    by exists i.
  - rewrite find_first_None in Hfind. apply payment_live_true in Hcl.
    specialize (Hfind st Hin). congruence.
Qed.

(** The holder of a live claim, while no deletion owns the task. *)
Record holds_payment (s : PaymentRepo) (id : TaskId) (worker : string) (token : Uuid)
    (revision : Z) (now : OffsetDateTime) (st : StoredPaymentTask) : Prop := {
  hp_stored : st ∈ pr_records s;
  hp_claim : payment_claim id worker token revision now st;
  hp_status : ptr_status (sp_task st) = InProgress;
  hp_undeleted : undeleted (pr_fence s) id = true;
}.

Lemma persist_stores s id worker token revision now st snapshot publication :
  lanes_ok s → holds_payment s id worker token revision now st → revision < U64_MAX →
  payment_replacement (sp_snapshot st) snapshot →
  ∃ t s', persist_claimed_payment_snapshot s id worker token revision snapshot now publication
          = (Ok (Some t), s')
  ∧ ptr_task_id t = id ∧ ptr_snapshot t = snapshot
  ∧ ptr_status t = default InProgress (PaymentRootState_terminal_status (pt_root snapshot))
  ∧ (pt_root snapshot = PaymentRootSatisfied →
     ptr_entitlement_to_publish t = Some (payment_entitlement snapshot now))
  ∧ get_payment_task_by_handle s' (sp_handle st) = Some t.
Proof.
  intros Hok [Hin Hcl Hst Hun] Hmax Hrep.
  destruct (find_payment_claim s id worker token revision now st Hok Hin Hcl) as (i & Hfind & Hi).
  pose proof (payment_persist_preserves s id worker token revision snapshot now publication Hok Hmax)
    as Hok'. revert Hok'.
  unfold persist_claimed_payment_snapshot. rewrite Hfind, Hun. cbn [negb].
  change (validate_payment_progress_from snapshot (ptr_snapshot (sp_task st)) = Ok ()) in Hrep.
  rewrite Hrep. apply payment_progress_Ok in Hrep as (_ & Hvn & Hsucc).
  destruct Hcl as [Hid Hrev _ _ _]. rewrite Hrev.
  assert (checked_add U64_MAX revision 1 = Some (revision + 1)) as ->
    by (apply checked_add_Some; split; [done|lia]).
  set (st1 := sp_with_task st _).
  assert (VerifiedProofBundleV2_validate (payment_entitlement (ptr_snapshot (sp_task st1)) now)
          = Ok ()) as Hent by (by apply payment_entitlement_valid).
  assert (∃ st2 g, apply_payment_root st1 now publication = Ok (st2, g) ∧ sp_id st2 = id
    ∧ sp_snapshot st2 = snapshot
    ∧ ptr_status (sp_task st2) = default InProgress (PaymentRootState_terminal_status (pt_root snapshot))
    ∧ (pt_root snapshot = PaymentRootSatisfied →
       ptr_entitlement_to_publish (sp_task st2) = Some (payment_entitlement snapshot now)))
    as (st2 & g & -> & Hid2 & Hsn2 & Hst2 & Hent2).
  { unfold apply_payment_root. rewrite Hent. cbn.
    destruct (pt_root snapshot); do 2 eexists; by split_and!. }
  cbn [snd]. intros Hok'. do 2 eexists. split; [done|]. split_and!; [done..|].
  destruct (succession_subject st st2 snapshot Hsucc ltac:(congruence) Hsn2) as (_ & Hh & _).
  unfold get_payment_task_by_handle. rewrite <- Hh.
  destruct (find_handle _ st2 (lanes_payment _ Hok')) as [j Hj].
  { cbn. apply list_elem_of_insert. by eapply lookup_lt_Some. }
  by rewrite Hj.
Qed.

Lemma schedule_stores s id worker token revision now st snapshot caller due :
  lanes_ok s → holds_payment s id worker token revision now st →
  payment_replacement (sp_snapshot st) snapshot → pt_root snapshot = PaymentRootPending →
  caller < due →
  ∃ t s', schedule_payment_task_retry s id worker token caller revision snapshot due now
          = Ok (Some t, s')
  ∧ ptr_task_id t = id ∧ ptr_snapshot t = snapshot ∧ ptr_status t = Pending
  ∧ get_payment_task_by_handle s' (sp_handle st) = Some t.
Proof.
  intros Hok [Hin Hcl Hst Hun] Hrep Hroot Hlt.
  destruct (find_payment_claim s id worker token revision now st Hok Hin Hcl) as (i & Hfind & Hi).
  assert (∃ st' f', schedule_payment_task_retry s id worker token caller revision snapshot due now
            = Ok (Some (sp_task st'), MkPaymentRepo f' (<[i := st']> (pr_records s)))
          ∧ sp_id st' = sp_id st ∧ sp_snapshot st' = snapshot ∧ ptr_status (sp_task st') = Pending)
    as (st' & f' & Hs & Hid' & Hsn & Hst').
  { unfold schedule_payment_task_retry. rewrite Hfind, Hun.
    assert (negb (0 <? due - caller) = false) as -> by (apply negb_false_iff; lia).
    unfold payment_replacement, sp_snapshot in Hrep. cbn [negb reject_if mbind result_bind].
    rewrite Hrep, Hroot, eqb_same. by eexists (MkStoredPaymentTask _ None None None _), _. }
  pose proof (payment_schedule_preserves _ _ _ _ _ _ _ _ _ _ _ Hok Hs) as Hok'.
  do 2 eexists. split; [exact Hs|]. destruct Hcl as [Hid _ _ _ _]. split_and!; [by rewrite <- Hid|done|done|].
  apply payment_progress_Ok in Hrep as (_ & _ & Hsucc).
  destruct (succession_subject st st' snapshot Hsucc Hid' Hsn) as (_ & Hh & _).
  unfold get_payment_task_by_handle. rewrite <- Hh.
  destruct (find_handle _ st' (lanes_payment _ Hok')) as [j Hj].
  { cbn. apply list_elem_of_insert. by eapply lookup_lt_Some. }
  by rewrite Hj.
Qed.

(** C9: worker and repository fit together for payments, and only payments
    publish.  For a claimed pending task, whatever the provider answers, the
    evaluation yields a plan; as long as the lease lives the repository carries it
    out, storing exactly the planned snapshot with the status of its root; and when
    that makes the task publish an entitlement, the stored snapshot holds evidence
    of the payment: a transaction output that matches the amount, with the demanded
    confirmations, seen between acceptance and deadline. *)
Theorem payment_plan_is_stored s id worker token revision now publication st
    dispatch_now create status answered_at :
  lanes_ok s → holds_payment s id worker token revision now st → revision < U64_MAX →
  clock_ahead (sp_snapshot st) answered_at →
  ∃ plan t s',
    evaluate_claimed_payment (sp_snapshot st) dispatch_now create status answered_at = Ok plan
    ∧ carry_out s id worker token revision plan now publication = (Ok (Some t), s')
    ∧ get_payment_task_by_handle s' (sp_handle st) = Some t
    ∧ ptr_task_id t = id ∧ ptr_snapshot t = payment_plan_snapshot plan
    ∧ ptr_status t = default Pending (PaymentRootState_terminal_status (pt_root (ptr_snapshot t)))
    ∧ (ptr_status t = PublishingEntitlement →
       ptr_entitlement_to_publish t = Some (payment_entitlement (ptr_snapshot t) now)
       ∧ ∃ first, first_threshold (ptr_snapshot t) = Some first
                  ∧ threshold_evidence (ptr_snapshot t) first).
Proof.
  intros Hok Hh Hmax Hclock. pose proof Hh as [Hin Hcl Hst _].
  destruct (pso_tasks s (lanes_payment s Hok) st Hin) as [Hv Hs _].
  unfold payment_status_ok in Hs. rewrite Hst in Hs. destruct Hs as (Hroot & _).
  destruct (evaluate_claimed_payment_ok (sp_snapshot st) dispatch_now create status answered_at)
    as (plan & Heval & Hplan); [done..|]. exists plan.
  destruct plan as [sn at_|sn caller due]; cbn in Hplan.
  - destruct Hplan as [Hrep Hterm].
    destruct (persist_stores s id worker token revision now st sn publication Hok Hh Hmax Hrep)
      as (t & s' & Hp & Hid & Hsn & Hstat & Hent & Hget).
    exists t, s'. split_and!; [done|exact Hp|done|done|done| |].
    + rewrite Hstat, Hsn. by destruct (pt_root sn).
    + rewrite Hsn, Hstat. intros Hpub.
      assert (pt_root sn = PaymentRootSatisfied) as Hsat by (by destruct (pt_root sn)).
      split; [by apply Hent|]. by apply (planned_evidence _ _ _ _ _ _ Heval).
  - destruct Hplan as (Hrep & Hpend & Hlt & _).
    destruct (schedule_stores s id worker token revision now st sn caller due Hok Hh Hrep Hpend Hlt)
      as (t & s' & Hp & Hid & Hsn & Hstat & Hget).
    exists t, s'. cbn. rewrite Hp, Hsn, Hstat, Hpend. by split_and!.
Qed.

End lane.
