(* ===== verification/AccessUse.v ===== *)
(** Granting access: the use cases behind credentials and guarded reads
    ([locks-service/src/application/use_cases/]: [entitlement_check.rs],
    [issue_access_credential.rs], [validate_access_credential.rs],
    [proxy_read_guarded_resource.rs]).

    They run on the credential store of [AccessStore]; before each call to it the
    other users of the store may have changed it ([others]).  The repositories of
    entitlements, content locks and guarded resources are parameters. *)

From S2P Require Import Prelude HashMaps RustStr Externals Ids Json LockPolicy Wire Errors.
From S2P Require Import Evaluator Run Secrets Entitlements Lifecycle GraphTask PaymentTask Fence.
From S2P Require Import DeletionJob TaskStore AccessStore AccessDrain TaskWorker PaymentStore.
#[local] Open Scope run_scope.

(** * Entitlements *)

Record ValidEntitlement := MkValidEntitlement {
  ve_content_lock : ContentLockPayload;
  ve_lock_id : LockId;
}.

Definition ve_requested_credential_ttl_seconds (v : ValidEntitlement) : Z :=
  match ve_content_lock v with
  | LockV1 lock => requested_credential_ttl_seconds (cl_access_policy lock)
  | LockV2 lock => requested_credential_ttl_seconds (cl2_access_policy lock)
  end.

Definition resource_for_path_v2 (lock : ContentLockV2) (path : string) : option GuardedResource :=
  let secondary :=
    (λ s, MkGuardedResource path (sr_hash s) (sr_content_type s) (sr_size s))
      <$> cl2_secondary_resources lock !! path in
  match cl2_primary_resource lock with
  | Some p => if gr_path p == path then Some p else secondary
  | None => secondary
  end.

Definition ve_resource_for_path (v : ValidEntitlement) (path : string) : option GuardedResource :=
  match ve_content_lock v with
  | LockV1 lock => resource_for_path lock path
  | LockV2 lock => resource_for_path_v2 lock path
  end.

(** The message of a version 2 canonicalization failure. *)
Class CanonicalizationErrorV2 := { canonicalization_message_v2 : ContentLockV2 → string }.

Record GuardedResourceRecord := MkGuardedRecord {
  grr_creator : CreatorPubky;
  grr_path : string;
  grr_hash : GuardedResourceHash;
  grr_content_type : string;
  grr_size : Z;
  grr_bytes : bytes;
}.

Section access.
  Context `{Base32, Blake3, JsonCanonicalizer, CanonicalizationError, CanonicalizationErrorV2}.
  Context `{MimeCrate, UnicodeCase, TimeCrate, Base64Url, Aead}.
  Context (get_entitlement : CreatorPubky → BundleId →
             result ApplicationError (option VerifiedProofBundlePayload)).
  Context (get_content_lock : CreatorPubky → ContentLockPath →
             result ApplicationError (option ContentLock)).
  Context (get_content_lock_payload : CreatorPubky → ContentLockPath →
             result ApplicationError (option ContentLockPayload)).

Definition verify_content_lock_v2_identity (lock : ContentLockV2) (path : ContentLockPath) :
    result ApplicationError LockId :=
  actual ← ok_or (lock_id_v2 lock) (ContentLockCanonicalization (canonicalization_message_v2 lock));
  verify_lock_id actual path.

Definition load_current_content_lock (b : VerifiedProofBundle) :
    result ApplicationError ContentLock :=
  let resource := vb_pubky_lock_resource b in
  found ← get_content_lock (resource_creator resource) (resource_content_lock_path resource);
  ok_or found ContentLockUnavailable.

Definition load_valid_v1_entitlement (b : VerifiedProofBundle) :
    result ApplicationError ValidEntitlement :=
  lock ← load_current_content_lock b;
  id ← verify_content_lock_identity lock (resource_content_lock_path (vb_pubky_lock_resource b));
  satisfied ← evaluate_entitlement lock (vb_verification_result b);
  _ ← reject_if (negb satisfied) EntitlementNotSatisfied;
  Ok (MkValidEntitlement (LockV1 lock) id).

Definition load_valid_v2_entitlement (creator : CreatorPubky) (bundle_id : BundleId)
    (b : VerifiedProofBundleV2) : result ApplicationError ValidEntitlement :=
  let resource := vb2_pubky_lock_resource b in
  _ ← map_err (λ _, EntitlementNotSatisfied) (VerifiedProofBundleV2_validate b);
  _ ← reject_if ((vb2_creator b != creator) || (vb2_bundle_id b != bundle_id)
                 || (resource_creator resource != creator) || (vb2_satisfied_by b != [ByGraph]))
        EntitlementNotSatisfied;
  found ← get_content_lock_payload (resource_creator resource) (resource_content_lock_path resource);
  payload ← ok_or found ContentLockUnavailable;
  match payload with
  | LockV1 _ => Err EntitlementNotSatisfied
  | LockV2 lock =>
      _ ← reject_if ((cl2_creator lock != vb2_creator b) || is_some (cl2_payment lock)
                     || is_none (cl2_graph lock)) EntitlementNotSatisfied;
      id ← verify_content_lock_v2_identity lock (resource_content_lock_path resource);
      Ok (MkValidEntitlement (LockV2 lock) id)
  end.

Definition load_valid_entitlement (creator : CreatorPubky) (bundle_id : BundleId) :
    result ApplicationError ValidEntitlement :=
  found ← get_entitlement creator bundle_id;
  entitlement ← ok_or found EntitlementNotFound;
  match entitlement with
  | VerifiedV1 b => load_valid_v1_entitlement b
  | VerifiedV2 b => load_valid_v2_entitlement creator bundle_id b
  end.

(** * Calls of the credential store *)

Context (clock : nat → OffsetDateTime).
Context (others : nat → AccessState → AccessState).

Abbreviation AccessRun A := (Run AccessState () A).

Definition call {A} (op : AccessState → result ApplicationError (A * AccessState)) : AccessRun A :=
  λ w,
    let a := others (w_ticks w) (w_store w) in
    match op a with
    | Ok (x, a') => (Ok x, MkWorld a' () (w_ticks w + 1)%nat)
    | Err e => (Err e, MkWorld a () (w_ticks w + 1)%nat)
    end.

Definition look {A} (op : AccessState → A) : AccessRun A := call (λ a, Ok (op a, a)).

(** * Issuing a credential *)

Record IssuedAccessCredential := MkIssuedAccess {
  iac_credential : AccessCredential;
  iac_expires_at : OffsetDateTime;
}.

(** [ttl as i64] of a [u64]. *)
Definition as_i64 (n : Z) : Z := if n <=? I64_MAX then n else n - 2 ^ 64.

(** [order] is the order in which the store visits its deletions; [candidates] are
    the credentials the generator returns. *)
Definition issue_access_credential (policy : AccessCredentialPolicy) (cipher_key nonce : bytes)
    (order : list Uuid) (candidate fresh : result ApplicationError AccessCredential)
    (creator : CreatorPubky) (bundle_id : BundleId) : AccessRun IssuedAccessCredential :=
  issued_at ⟵ now clock;
  available ⟵ look (λ a, final_credential_available order a creator bundle_id issued_at);
  final ⟵ (if available : bool
           then candidate ⟵ run_lift candidate;
                final_issue_now ⟵ now clock;
                call (λ a, issue_or_replay_final_credential cipher_key nonce order a creator
                             bundle_id candidate final_issue_now)
           else run_ret None);
  match final with
  | Some f => run_ret (MkIssuedAccess (idc_credential f) (idc_expires_at f))
  | None =>
      valid ⟵ run_lift (load_valid_entitlement creator bundle_id);
      ttl ⟵ run_lift (validate_requested_ttl_seconds policy
                        (ve_requested_credential_ttl_seconds valid));
      let expires_at := issued_at + seconds (as_i64 ttl) in
      credential ⟵ run_lift fresh;
      _ ⟵ call (λ a, (λ a', ((), a')) <$>
                  insert_access_credential a (ve_lock_id valid) (derive_lookup_key credential)
                    (MkCredentialRecord creator bundle_id expires_at));
      run_ret (MkIssuedAccess credential expires_at)
  end.

(** * Validating a credential *)

Definition validate_access_credential (credential : AccessCredential) :
    AccessRun AccessCredentialRecord :=
  let key := derive_lookup_key credential in
  found ⟵ look (λ a, get_access_credential a key);
  record ⟵ run_lift (ok_or found InvalidAccessCredential);
  at_ ⟵ now clock;
  if acr_expires_at record <=? at_
  then _ ⟵ call (λ a, Ok ((), delete_access_credential a key)); run_err ExpiredAccessCredential
  else match load_valid_entitlement (acr_creator record) (acr_bundle_id record) with
       | Err e => _ ⟵ call (λ a, Ok ((), delete_access_credential a key)); run_err e
       | Ok _ => run_ret record
       end.

(** * Reading through the proxy *)

Context (get_current_guarded_resource : CreatorPubky → string →
           result ApplicationError (option GuardedResourceRecord)).

Record DeletionReadClaim := MkReadClaim {
  drc_lookup_key : AccessCredentialLookupKey;
  drc_path : string;
  drc_claim_token : Uuid;
}.

Record ProxiedGuardedResource := MkProxied {
  pgr_path : string;
  pgr_content_type : string;
  pgr_hash : GuardedResourceHash;
  pgr_bytes : bytes;
  pgr_deletion_claim : option DeletionReadClaim;
}.

(** The stored bytes of a descriptor, if they are still the ones it describes. *)
Definition matching_resource (creator : CreatorPubky) (r : GuardedResource) :
    result ApplicationError GuardedResourceRecord :=
  found ← get_current_guarded_resource creator (gr_path r);
  record ← ok_or found GuardedResourceUnavailable;
  _ ← reject_if ((grr_hash record != gr_hash r) || (grr_content_type record != gr_content_type r)
                 || negb (grr_size record =? gr_size r)) GuardedResourceUnavailable;
  Ok record.

Definition proxied (r : GuardedResource) (record : GuardedResourceRecord)
    (claim : option DeletionReadClaim) : ProxiedGuardedResource :=
  MkProxied (gr_path r) (grr_content_type record) (gr_hash r) (grr_bytes record) claim.

Definition prepare_deletion_response (key : AccessCredentialLookupKey) (path : string)
    (read_now : OffsetDateTime) (fresh_token : Uuid) :
    AccessRun (option ProxiedGuardedResource) :=
  authorization ⟵ call (λ a, prepare_deletion_read a key path (seconds 30) read_now fresh_token);
  match authorization with
  | None => run_ret None
  | Some auth =>
      match matching_resource (dra_creator auth) (dra_resource auth) with
      | Ok record =>
          run_ret (Some (proxied (dra_resource auth) record
                           (MkReadClaim key path <$> dra_claim_token auth)))
      | Err e =>
          _ ⟵ (match dra_claim_token auth with
               | Some token =>
                   released_at ⟵ now clock;
                   call (λ a, Ok (release_deletion_read a key path token))
               | None => run_ret false
               end);
          run_err e
      end
  end.

(** [read_now] and [fresh_token]: the clock and the token generator of the store. *)
Definition proxy_read_guarded_resource (credential : AccessCredential) (path : string)
    (read_now : nat → OffsetDateTime) (fresh_token : nat → Uuid) :
    AccessRun ProxiedGuardedResource :=
  let key := derive_lookup_key credential in
  prepared ⟵ prepare_deletion_response key path (read_now 0%nat) (fresh_token 0%nat);
  match prepared with
  | Some response => run_ret response
  | None =>
      enrolled ⟵ look (λ a, deletion_credential_enrolled a key);
      if enrolled : bool then run_err GuardedResourceUnavailable
      else
        found ⟵ look (λ a, get_access_credential a key);
        record ⟵ run_lift (ok_or found InvalidAccessCredential);
        at_ ⟵ now clock;
        let validation :=
          if acr_expires_at record <=? at_ then Err ExpiredAccessCredential
          else load_valid_entitlement (acr_creator record) (acr_bundle_id record) in
        classification ⟵ call (λ a, Ok (finish_ordinary_credential_lookup a key record
                                          (negb (is_ok validation))));
        match classification with
        | OrdinaryCurrent =>
            entitlement ⟵ run_lift validation;
            resource ⟵ run_lift (ok_or (ve_resource_for_path entitlement path)
                                   GuardedResourceUnavailable);
            stored ⟵ run_lift (matching_resource (acr_creator record) resource);
            run_ret (proxied resource stored None)
        | DeletionEnrolled =>
            again ⟵ prepare_deletion_response key path (read_now 1%nat) (fresh_token 1%nat);
            run_lift (ok_or again GuardedResourceUnavailable)
        | LookupMissing =>
            run_err (match validation with Err e => e | Ok _ => InvalidAccessCredential end)
        end
  end.

Definition consume_prepared_deletion_read (response : ProxiedGuardedResource)
    (read_now : OffsetDateTime) : AccessRun () :=
  match pgr_deletion_claim response with
  | None => run_ret ()
  | Some claim =>
      consumed ⟵ call (λ a, Ok (consume_deletion_read a (drc_lookup_key claim) (drc_path claim)
                                  (drc_claim_token claim) read_now));
      if consumed : bool then run_ret () else run_err InvalidAccessCredential
  end.

Definition release_prepared_deletion_read (response : ProxiedGuardedResource) : AccessRun () :=
  match pgr_deletion_claim response with
  | None => run_ret ()
  | Some claim =>
      at_ ⟵ now clock;
      _ ⟵ call (λ a, Ok (release_deletion_read a (drc_lookup_key claim) (drc_path claim)
                           (drc_claim_token claim)));
      run_ret ()
  end.

(** * What access takes *)

(** A valid entitlement: the stored entitlement, and the lock published under the
    path it names, identified by its own hash, whose policy it satisfies. *)
Inductive entitles (creator : CreatorPubky) (bundle_id : BundleId) (v : ValidEntitlement) : Prop :=
  | entitles_v1 b lock :
      get_entitlement creator bundle_id = Ok (Some (VerifiedV1 b)) →
      get_content_lock (resource_creator (vb_pubky_lock_resource b))
        (resource_content_lock_path (vb_pubky_lock_resource b)) = Ok (Some lock) →
      lock_id lock = Some (ve_lock_id v) →
      ve_lock_id v = resource_lock_id (vb_pubky_lock_resource b) →
      ve_content_lock v = LockV1 lock →
      evaluate_entitlement lock (vb_verification_result b) = Ok true →
      entitles creator bundle_id v
  | entitles_v2 b lock :
      get_entitlement creator bundle_id = Ok (Some (VerifiedV2 b)) →
      vb2_creator b = creator → vb2_bundle_id b = bundle_id → vb2_satisfied_by b = [ByGraph] →
      get_content_lock_payload creator
        (resource_content_lock_path (vb2_pubky_lock_resource b)) = Ok (Some (LockV2 lock)) →
      lock_id_v2 lock = Some (ve_lock_id v) →
      ve_lock_id v = resource_lock_id (vb2_pubky_lock_resource b) →
      ve_content_lock v = LockV2 lock → cl2_creator lock = creator →
      cl2_payment lock = None → is_Some (cl2_graph lock) →
      entitles creator bundle_id v.

Lemma verify_lock_id_Ok actual path id :
  verify_lock_id actual path = Ok id → actual = id ∧ id = path_lock_id path.
Proof.
  unfold verify_lock_id. destruct (actual == path_lock_id path) eqn:Heq; [|done].
  intros [= <-]. by props.
Qed.

Lemma load_valid_entitles creator bundle_id v :
  load_valid_entitlement creator bundle_id = Ok v → entitles creator bundle_id v.
Proof.
  intros Hl. unfold load_valid_entitlement in Hl.
  apply bind_Ok in Hl as (found & Hf & Hl). apply bind_Ok in Hl as (ent & ->%ok_or_Ok & Hl).
  destruct ent as [b|b].
  - unfold load_valid_v1_entitlement, load_current_content_lock in Hl.
    apply bind_Ok in Hl as (lock & Hlock & Hl). apply bind_Ok in Hlock as (o & Ho & ->%ok_or_Ok).
    apply bind_Ok in Hl as (id & Hid & Hl). apply bind_Ok in Hl as (sat & Hsat & Hl).
    apply bind_Ok in Hl as ([] & Hs%reject_if_Ok & Hl). injection Hl as <-. props.
    unfold verify_content_lock_identity, frozen_lock_id in Hid.
    apply bind_Ok in Hid as (x & Hx%ok_or_Ok & [-> Hid]%verify_lock_id_Ok).
    subst sat. by eapply (entitles_v1 _ _ _ b lock).
  - unfold load_valid_v2_entitlement in Hl.
    apply bind_Ok in Hl as ([] & _ & Hl). apply bind_Ok in Hl as ([] & Hr%reject_if_Ok & Hl).
    apply bind_Ok in Hl as (o & Ho & Hl). apply bind_Ok in Hl as (payload & ->%ok_or_Ok & Hl).
    destruct payload as [|lock]; [done|].
    apply bind_Ok in Hl as ([] & Hg%reject_if_Ok & Hl). apply bind_Ok in Hl as (id & Hid & Hl).
    injection Hl as <-. props. unfold verify_content_lock_v2_identity in Hid.
    apply bind_Ok in Hid as (x & Hx%ok_or_Ok & [-> Hid]%verify_lock_id_Ok).
    eapply (entitles_v2 _ _ _ b lock); try done; congruence.
Qed.

(** The bytes of a descriptor, unchanged since it was written. *)
Definition serves (creator : CreatorPubky) (r : GuardedResource) (response : ProxiedGuardedResource) :
    Prop :=
  ∃ record, get_current_guarded_resource creator (gr_path r) = Ok (Some record)
    ∧ grr_hash record = gr_hash r ∧ grr_content_type record = gr_content_type r
    ∧ grr_size record = gr_size r
    ∧ response = proxied r record (pgr_deletion_claim response).

Lemma matching_resource_serves creator r record claim :
  matching_resource creator r = Ok record → serves creator r (proxied r record claim).
Proof.
  unfold matching_resource. intros (o & Ho & Hm)%bind_Ok. apply bind_Ok in Hm as (x & ->%ok_or_Ok & Hm).
  apply bind_Ok in Hm as ([] & Hr%reject_if_Ok & Hm). injection Hm as <-. props. by exists x.
Qed.

(** A read granted by a deletion in progress: the credential is enrolled in it and
    unexpired, the deletion still serves reads, and the resource is one of the
    lock that was frozen. *)
Inductive granted_by_deletion (a : AccessState) (key : AccessCredentialLookupKey) (path : string)
    (at_ : OffsetDateTime) (r : GuardedResource) : CreatorPubky → bool → Prop :=
  | grant stored job kind d :
      acc_records a !! key = Some stored → sc_deletion stored = Some (job, kind) →
      acc_deletions a !! job = Some d → at_ < acr_expires_at (sc_record stored) →
      da_force_requested d = false → drains_reads (da_phase d) = true →
      resource_for_path (da_frozen_content_lock d) path = Some r →
      granted_by_deletion a key path at_ r (da_creator d) (kind == KindFinal).

Lemma prepare_granted a key path at_ duration token auth a' :
  prepare_deletion_read a key path duration at_ token = Ok (Some auth, a') →
  granted_by_deletion a' key path at_ (dra_resource auth) (dra_creator auth)
    (is_some (dra_claim_token auth)).
Proof.
  unfold prepare_deletion_read. intros Hp.
  destruct (acc_records a !! key) as [stored|] eqn:Hs; [|done].
  destruct (sc_deletion stored) as [[job kind]|] eqn:Hd; [|done].
  destruct (acc_deletions a !! job) as [d|] eqn:Hj; [|done].
  destruct (_ || _ || _ || _) eqn:Hguard; [done|]. props.
  destruct (resource_for_path _ path) as [r|] eqn:Hr; [|done].
  destruct (kind == KindOrdinary) eqn:Hk; props.
  - injection Hp as <- <-. cbn. subst kind. by apply (grant _ _ _ _ _ stored job KindOrdinary d).
  - destruct (final_access_open d at_); [|done]. destruct (da_read_deadline d); [|done].
    destruct (acc_final_credentials a !! _) as [final|]; [|done].
    destruct (fcr_reads final !! path) as [read|]; [|done]. destruct (read_taken read at_); [done|].
    apply bind_Ok in Hp as (req & _ & Hp). destruct (_ <=? at_); [done|]. injection Hp as <- <-. cbn.
    destruct kind; [done|]. by apply (grant _ _ _ _ _ stored job KindFinal d).
Qed.

Lemma resource_path lock path r : resource_for_path lock path = Some r → gr_path r = path.
Proof.
  unfold resource_for_path. intros Hr.
  assert ((λ s, MkGuardedResource path (sr_hash s) (sr_content_type s) (sr_size s))
            <$> cl_secondary_resources lock !! path = Some r → gr_path r = path) as Hsec
    by (intros (x & _ & ->)%fmap_Some; done).
  destruct (cl_primary_resource lock) as [p|]; [|by apply Hsec].
  destruct (gr_path p == path) eqn:Hp; props; [|by apply Hsec]. by injection Hr as <-.
Qed.

Lemma resource_path_v2 lock path r : resource_for_path_v2 lock path = Some r → gr_path r = path.
Proof.
  unfold resource_for_path_v2. intros Hr.
  assert ((λ s, MkGuardedResource path (sr_hash s) (sr_content_type s) (sr_size s))
            <$> cl2_secondary_resources lock !! path = Some r → gr_path r = path) as Hsec
    by (intros (x & _ & ->)%fmap_Some; done).
  destruct (cl2_primary_resource lock) as [p|]; [|by apply Hsec].
  destruct (gr_path p == path) eqn:Hp; props; [|by apply Hsec]. by injection Hr as <-.
Qed.

Lemma call_Ok {A} (op : AccessState → result ApplicationError (A * AccessState)) w x w' :
  call op w = (Ok x, w') → ∃ a, a = others (w_ticks w) (w_store w) ∧ op a = Ok (x, w_store w').
Proof.
  unfold call. destruct (op _) as [[y a']|e] eqn:Hop; [|done]. intros [= <- <-]. eauto.
Qed.

(** A response prepared under a deletion. *)
Lemma prepared_granted key path read_now token w response w' :
  prepare_deletion_response key path read_now token w = (Ok (Some response), w') →
  ∃ creator r, serves creator r response ∧ gr_path r = path
    ∧ granted_by_deletion (w_store w') key path read_now r creator
        (is_some (pgr_deletion_claim response)).
Proof.
  intros Hrun. unfold prepare_deletion_response in Hrun.
  apply run_bind_inv in Hrun as [(e & _ & [=])|(auth & w1 & Hc & Hrun)].
  apply call_Ok in Hc as (a & _ & Hp). destruct auth as [auth|]; [|by injection Hrun].
  pose proof (prepare_granted _ _ _ _ _ _ _ _ Hp) as Hg.
  destruct (matching_resource _ _) as [record|e] eqn:Hm.
  - injection Hrun as <- <-. exists (dra_creator auth), (dra_resource auth).
    split_and!; [by apply matching_resource_serves| |].
    + destruct Hg as [stored job kind d ? ? ? ? ? ? Hr]. by eapply resource_path.
    + cbn. by destruct (dra_claim_token auth).
  - by apply run_bind_inv in Hrun as [(? & _ & [=])|(? & ? & _ & [=])].
Qed.

(** C1: the proxy returns bytes of a guarded resource only to a bearer of a valid
    credential.  Whatever other requests do to the credential store meanwhile, a
    successful read serves the requested path with bytes whose hash, type and size
    are the ones of the lock's descriptor; and either the credential was a current
    ordinary one, unexpired, of a bundle whose entitlement is satisfied by the
    lock published now and whose lock names the path, or the credential is
    enrolled in a deletion of the lock that still serves reads, and then the
    response carries a claim exactly for a final, once-only read. *)
Theorem proxy_read_authorized credential path read_now fresh_token w response w' :
  let key := derive_lookup_key credential in
  proxy_read_guarded_resource credential path read_now fresh_token w = (Ok response, w') →
  ∃ creator r, serves creator r response ∧ gr_path r = path
    ∧ ((∃ stored v n,
          acc_records (w_store w') !! key = Some stored ∧ sc_deletion stored = None
          ∧ acr_creator (sc_record stored) = creator ∧ clock n < acr_expires_at (sc_record stored)
          ∧ entitles creator (acr_bundle_id (sc_record stored)) v
          ∧ ve_resource_for_path v path = Some r ∧ pgr_deletion_claim response = None)
       ∨ ∃ n, granted_by_deletion (w_store w') key path (read_now n) r creator
                (is_some (pgr_deletion_claim response))).
Proof.
  intros key Hrun. unfold proxy_read_guarded_resource in Hrun. fold key in Hrun.
  apply run_bind_inv in Hrun as [(e & _ & [=])|(prepared & w1 & Hp & Hrun)].
  destruct prepared as [resp|].
  { injection Hrun as <- <-. apply prepared_granted in Hp as (creator & r & Hs & Hpath & Hg).
    exists creator, r. split_and!; [done|done|]. right. by exists 0%nat. }
  clear Hp. apply run_bind_inv in Hrun as [(e & _ & [=])|(enrolled & w2 & _ & Hrun)].
  destruct enrolled; [done|].
  apply run_bind_inv in Hrun as [(e & _ & [=])|(found & w3 & _ & Hrun)].
  apply run_bind_inv in Hrun as [(e & _ & [=])|(record & w4 & _ & Hrun)].
  apply run_bind_inv in Hrun as [(e & _ & [=])|(at_ & w5 & Hn & Hrun)]. injection Hn as <- <-.
  set (validation := if _ <=? _ then _ else _) in Hrun.
  apply run_bind_inv in Hrun as [(e & _ & [=])|(class & w6 & Hc & Hrun)].
  apply call_Ok in Hc as (a & _ & Hf). injection Hf as Hf. destruct class; [| |done].
  - apply run_bind_inv in Hrun as [(e & _ & [=])|(v & w7 & Hv & Hrun)]. injection Hv as Hv <-.
    apply run_bind_inv in Hrun as [(e & _ & [=])|(r & w8 & Hr & Hrun)]. injection Hr as Hr <-.
    apply run_bind_inv in Hrun as [(e & _ & [=])|(rec & w9 & Hm & Hrun)]. injection Hm as Hm <-.
    injection Hrun as <- <-. apply ok_or_Ok in Hr.
    assert (gr_path r = path) as Hpath.
    { unfold ve_resource_for_path in Hr. destruct (ve_content_lock v);
        [by eapply resource_path|by eapply resource_path_v2]. }
    exists (acr_creator record), r. split_and!; [by apply matching_resource_serves|done|]. left.
    unfold validation in Hv. destruct (acr_expires_at record <=? _) eqn:Hexp; [done|]. props.
    apply load_valid_entitles in Hv. unfold finish_ordinary_credential_lookup in Hf.
    destruct (acc_records a !! key) as [stored|] eqn:Hst; [|done].
    destruct (sc_record stored != record) eqn:Hrec; [done|]. props.
    destruct (is_some (sc_deletion stored)) eqn:Hdel; [done|]. props.
    destruct (negb (is_ok validation)); [done|]. injection Hf as <-.
    exists stored, v, (w_ticks w4). subst record. by split_and!.
  - apply run_bind_inv in Hrun as [(e & _ & [=])|(again & w7 & Hp & Hrun)].
    destruct again as [resp|]; [|done]. injection Hrun as <- <-.
    apply prepared_granted in Hp as (creator & r & Hs & Hpath & Hg).
    exists creator, r. split_and!; [done|done|]. right. by exists 1%nat.
Qed.

(** * Issued credentials *)

(** A credential issued by a deletion of the bundle's lock that still serves reads: the one it
    issued before, as the store kept it; or a new one, in the phase that issues them and before
    its deadline, stored as a final credential until the deletion's read deadline. *)
Definition final_issued (cipher_key : bytes) (a a' : AccessState) (creator : CreatorPubky)
    (bundle_id : BundleId) (at_ : OffsetDateTime) (issued : IssuedAccessCredential) : Prop :=
  let key := derive_lookup_key (iac_credential issued) in
  ∃ job d, acc_deletions a !! job = Some d ∧ da_creator d = creator ∧ final_access_open d at_ = true
    ∧ ((∃ c, acc_final_credentials a !! (job, bundle_id) = Some c ∧ a' = a
          ∧ decrypt cipher_key (MkContext job creator bundle_id) (fcr_encrypted_bearer c)
            = Ok (iac_credential issued)
          ∧ iac_expires_at issued = fcr_expires_at c)
       ∨ (acc_final_credentials a !! (job, bundle_id) = None ∧ may_issue d bundle_id at_ = true
          ∧ da_read_deadline d = Some (iac_expires_at issued) ∧ at_ < iac_expires_at issued
          ∧ acc_records a !! key = None
          ∧ acc_records a' !! key
            = Some (MkStoredCredential
                      (MkCredentialRecord creator bundle_id (iac_expires_at issued))
                      (da_lock_id d) (Some (job, KindFinal))))).

Lemma final_issue_Some cipher_key nonce order a creator bundle_id candidate at_ f a' :
  issue_or_replay_final_credential cipher_key nonce order a creator bundle_id candidate at_
  = Ok (Some f, a') →
  final_issued cipher_key a a' creator bundle_id at_ (MkIssuedAccess (idc_credential f) (idc_expires_at f)).
Proof.
  unfold issue_or_replay_final_credential. intros Hi.
  destruct (find_in_order _ _ _) as [[job d]|] eqn:Hf; [|done].
  apply find_in_order_Some in Hf as (Hd & _).
  destruct ((da_creator d != creator) || negb (final_access_open d at_)) eqn:Hg; [done|].
  apply orb_false_iff in Hg as [Hc Ho]. apply negb_false_iff in Hc, Ho. rewrite eqb_true in Hc.
  exists job, d. split_and!; [done|done|done|].
  destruct (acc_final_credentials a !! (job, bundle_id)) as [c|] eqn:Hfc.
  - left. apply bind_Ok in Hi as (credential & Hdec & Hi). injection Hi as <- <-. by exists c.
  - right. destruct (may_issue d bundle_id at_) eqn:Hmay; [|done].
    destruct (da_read_deadline d) as [expires|] eqn:Hdl; [|done].
    apply bind_Ok in Hi as (bearer & _ & Hi). apply bind_Ok in Hi as ([] & Hn%reject_if_Ok & Hi).
    injection Hi as <- <-. apply is_some_false in Hn. split_and!; [done|done|done| |done|apply lookup_insert_eq].
    unfold final_access_open in Ho. rewrite Hdl in Ho. props. cbn in *. lia.
Qed.


(** * A lost read is given back *)

Lemma prepare_refused a key path duration at_ token a' :
  prepare_deletion_read a key path duration at_ token = Ok (None, a') → a' = a.
Proof.
  unfold prepare_deletion_read. intros Hp.
  repeat first [ split_match in Hp; try (by injection Hp as <-); try done
               | apply bind_Ok in Hp as (? & _ & Hp) ]; by injection Hp as <-.
Qed.

(** A final credential's read is claimed under the fresh token. *)
Lemma prepare_claims a key path duration at_ token auth a' job bundle c read :
  final_credential_identity a key = Some (job, bundle) →
  acc_final_credentials a !! (job, bundle) = Some c → fcr_reads c !! path = Some read →
  prepare_deletion_read a key path duration at_ token = Ok (Some auth, a') →
  dra_claim_token auth = Some token ∧ rs_consumed_at read = None
  ∧ ∃ until, a' = set_read a (job, bundle) path (MkReadState (Some token) until None).
Proof.
  unfold final_credential_identity, prepare_deletion_read. intros Hid Hc Hread Hp.
  apply bind_Some in Hid as (stored & Hs & Hid). rewrite Hs in Hp.
  apply bind_Some in Hid as ([j kind] & Hd & Hid). rewrite Hd in Hp.
  destruct kind; [done|]. injection Hid as -> <-.
  destruct (acc_deletions a !! job) as [d|]; [|done]. destruct (_ || _ || _ || _); [done|].
  destruct (resource_for_path _ path); [|done]. change (KindFinal == KindOrdinary) with false in Hp.
  destruct (final_access_open d at_); [|done]. destruct (da_read_deadline d); [|done].
  rewrite Hc, Hread in Hp. destruct (read_taken read at_) eqn:Ht; [done|].
  apply bind_Ok in Hp as (req & _ & Hp). destruct (_ <=? at_); [done|]. injection Hp as <- <-.
  unfold read_taken in Ht. props. split_and!; [done|done|]. eexists. by f_equal; f_equal.
Qed.

(** A claim that was just taken can be given back: the read is open again. *)
Lemma claim_given_back a key path token until released a' job bundle c at_ :
  final_credential_identity a key = Some (job, bundle) →
  acc_final_credentials a !! (job, bundle) = Some c →
  release_deletion_read (set_read a (job, bundle) path (MkReadState (Some token) until None))
    key path token = (released, a') →
  ∃ c' read', acc_final_credentials a' !! (job, bundle) = Some c'
    ∧ fcr_reads c' !! path = Some read' ∧ read_taken read' at_ = false.
Proof.
  intros Hid Hc Hrel. unfold release_deletion_read in Hrel.
  assert (final_read (set_read a (job, bundle) path (MkReadState (Some token) until None)) key path
          = Some (job, bundle, MkReadState (Some token) until None)) as Hfr.
  { unfold final_read. change (final_credential_identity (set_read _ _ _ _) key)
      with (final_credential_identity a key). rewrite Hid. cbn.
    rewrite lookup_alter_eq, Hc. cbn. by rewrite lookup_insert_eq. }
  rewrite Hfr in Hrel. cbn [rs_consumed_at rs_claim_token is_some orb] in Hrel.
  rewrite eqb_same in Hrel. cbn in Hrel. injection Hrel as _ <-.
  cbn. rewrite !lookup_alter_eq, Hc. cbn. do 2 eexists.
  split_and!; [done|cbn; apply lookup_insert_eq|done].
Qed.

(** Without interference, a proxy read that fails costs its bearer nothing: a
    final read of the path that was open before is open afterwards, unconsumed and
    not claimed by the failed request. *)
Theorem failed_read_returns_claim credential path read_now fresh_token w e w' job bundle c read at_ :
  let key := derive_lookup_key credential in
  (∀ n a, others n a = a) →
  final_credential_identity (w_store w) key = Some (job, bundle) →
  acc_final_credentials (w_store w) !! (job, bundle) = Some c → fcr_reads c !! path = Some read →
  read_taken read at_ = false →
  proxy_read_guarded_resource credential path read_now fresh_token w = (Err e, w') →
  ∃ c' read', acc_final_credentials (w_store w') !! (job, bundle) = Some c'
    ∧ fcr_reads c' !! path = Some read' ∧ read_taken read' at_ = false.
Proof.
  intros key Hothers Hid Hc Hread Hopen Hrun.
  unfold proxy_read_guarded_resource in Hrun. fold key in Hrun.
  apply run_bind_inv in Hrun as [(e' & Hp & _)|(prepared & w1 & Hp & Hrun)].
  - unfold prepare_deletion_response in Hp.
    apply run_bind_inv in Hp as [(e2 & Hcall & _)|(auth & w1 & Hcall & Hp)].
    { unfold call in Hcall. rewrite Hothers in Hcall. destruct (prepare_deletion_read _ _ _ _ _ _)
        as [[? ?]|]; [done|]. injection Hcall as _ <-. cbn. eauto. }
    apply call_Ok in Hcall as (a & -> & Hprep). rewrite Hothers in Hprep.
    destruct auth as [auth|]; [|done].
    destruct (matching_resource _ _) as [|e3]; [done|].
    apply run_bind_inv in Hp as [(e4 & Hrel & _)|(b & w2 & Hrel & Hp)].
    { destruct (dra_claim_token auth); [|done].
      apply run_bind_inv in Hrel as [(? & [=] & _)|(? & ? & _ & Hrel)]. unfold call in Hrel.
      by destruct (release_deletion_read _ _ _ _). }
    destruct (prepare_claims _ _ _ _ _ _ _ _ _ _ _ _ Hid Hc Hread Hprep) as (Htok & Hfree & until & Hw1).
    injection Hp as _ <-. rewrite Htok in Hrel.
    apply run_bind_inv in Hrel as [(? & [=] & _)|(rel_at & w3 & Hn & Hrel)]. injection Hn as _ <-.
    apply call_Ok in Hrel as (a & -> & Hrel). rewrite Hothers in Hrel. cbn in Hrel.
    injection Hrel as Hrel. rewrite Hw1 in Hrel.
    by eapply claim_given_back.
  - destruct prepared as [resp|]; [done|].
    unfold prepare_deletion_response in Hp.
    apply run_bind_inv in Hp as [(e2 & _ & [=])|(auth & w2 & Hcall & Hp)].
    apply call_Ok in Hcall as (a & -> & Hprep). rewrite Hothers in Hprep.
    destruct auth as [auth|].
    { destruct (matching_resource _ _); [done|].
      by apply run_bind_inv in Hp as [(? & _ & [=])|(? & ? & _ & [=])]. }
    injection Hp as <-. apply prepare_refused in Hprep.
    assert (deletion_credential_enrolled (w_store w2) key = true) as Henr.
    { rewrite Hprep. unfold deletion_credential_enrolled, final_credential_identity in *.
      apply bind_Some in Hid as (stored & -> & Hid). cbn. apply bind_Some in Hid as (x & Hx & _).
      by rewrite Hx. }
    unfold look, call, run_bind in Hrun. rewrite Hothers in Hrun. rewrite Henr in Hrun.
    injection Hrun as _ <-. cbn. rewrite Hprep. eauto.
Qed.

(** * Two shortcomings *)

(** A failure to read the entitlement, transient or not, revokes the
    credential: when the repository answers with an error, validating a current,
    unexpired credential fails with that error and the credential's record is
    gone, so that the bearer is refused also after the repository has
    recovered. *)
Theorem repository_failure_revokes_credential credential w record error res w' :
  let key := derive_lookup_key credential in
  (∀ n a, others n a = a) →
  get_access_credential (w_store w) key = Some record →
  (∀ n, clock n < acr_expires_at record) →
  get_entitlement (acr_creator record) (acr_bundle_id record) = Err error →
  validate_access_credential credential w = (res, w') →
  res = Err error
  ∧ get_access_credential (w_store w') key = None
  ∧ ∀ w2, w_store w2 = w_store w' →
      (validate_access_credential credential w2).1 = Err InvalidAccessCredential.
Proof.
  intros key Hothers Hrec Hexp Herr Hrun.
  assert (∀ w2, get_access_credential (w_store w2) key = None →
            (validate_access_credential credential w2).1 = Err InvalidAccessCredential) as Hgone.
  { intros w2 Hnone. unfold validate_access_credential, look, call, run_bind. fold key.
    rewrite Hothers, Hnone. done. }
  unfold validate_access_credential, look, call, run_bind, run_lift, now in Hrun. fold key in Hrun.
  rewrite !Hothers, Hrec in Hrun. cbn [ok_or w_store w_ticks] in Hrun.
  rewrite (proj2 (Z.leb_gt _ _)) in Hrun by apply Hexp.
  unfold load_valid_entitlement in Hrun. rewrite Herr in Hrun. cbn in Hrun. rewrite Hothers in Hrun.
  injection Hrun as <- <-. cbn.
  assert (get_access_credential (delete_access_credential (w_store w) key) key = None) as Hn.
  { unfold get_access_credential. cbn. by rewrite lookup_delete_eq. }
  split_and!; [done|done|]. intros w2 Hw2. apply Hgone. by rewrite Hw2.
Qed.

(** An entitlement published for a paid version 2 task never grants access:
    the entitlement check refuses every entitlement whose satisfied path is
    payment, whatever the lock says. *)
Theorem payment_entitlement_refused creator bundle_id snapshot at_ :
  get_entitlement creator bundle_id = Ok (Some (VerifiedV2 (payment_entitlement snapshot at_))) →
  load_valid_entitlement creator bundle_id = Err EntitlementNotSatisfied.
Proof.
  intros Hg. unfold load_valid_entitlement. rewrite Hg. cbn [mbind result_bind ok_or].
  unfold load_valid_v2_entitlement.
  destruct (VerifiedProofBundleV2_validate _) as [[]|e]; [|done]. cbn [map_err mbind result_bind].
  change (vb2_satisfied_by (payment_entitlement snapshot at_) != [ByGraph]) with true.
  by rewrite orb_true_r.
Qed.
End access.
