(* ===== verification/CreateLock.v ===== *)
(** Creating a content lock
    ([locks-service/src/application/use_cases/create_content_lock.rs]).

    The use case checks the requested lock, reserves its guarded paths, opens a
    publication intent, writes the lock to the creator's public storage, marks the
    write, clears the intent and promotes the paths.  It runs on the deletion
    repository, which holds intents and path ownership, and on a store of public
    locks.  Every call may go wrong: a request to the repository may be lost before
    it takes effect or its answer after it ([Fate]), and a write to the store may
    be refused, or be dispatched without an answer ([ContentLockStore], the port of
    [application/ports/lock_policy.rs]).  Before each call the other users of both
    may act ([others]). *)

From S2P Require Import Prelude HashMaps RustStr Externals Ids Json LockPolicy Wire Errors.
From S2P Require Import Run Secrets Lifecycle Ownership DeletionJob GraphTask Fence TaskStore.
From S2P Require Import AccessStore AccessDrain DeletionStore DeletionInv DeletionHistory AccessUse.
#[local] Open Scope run_scope.

(** * Texts of validation errors *)

Definition GuardedResourceValidationError_display (e : GuardedResourceValidationError) : string :=
  match e with
  | InvalidPath => "guarded resource path must be under /priv/app.locks/content/"
  | InvalidContentType => "guarded resource content_type must be a valid MIME type"
  | ZeroSize => "guarded resource size must be greater than zero"
  end.

Definition ContentLockValidationError_display (e : ContentLockValidationError) : string :=
  match e with
  | EmptyResourceSet => "content lock must protect at least one guarded resource"
  | InvalidPrimaryResource r =>
      "invalid primary guarded resource: " +:+ GuardedResourceValidationError_display r
  | InvalidSecondaryResource path r =>
      "invalid secondary guarded resource at " +:+ path +:+ ": "
        +:+ GuardedResourceValidationError_display r
  | DuplicatePrimarySecondaryPath path =>
      "primary resource path duplicates secondary resource path: " +:+ path
  | TotalResourceSizeOverflow => "content lock total resource size overflowed u64"
  end.

Definition PaykitPaymentParamsValidationError_display (e : PaykitPaymentParamsValidationError) :
    string :=
  match e with
  | NotObject => "paykit-payment params must be a JSON object"
  | MissingField field => "paykit-payment params missing field: " +:+ field
  | UnknownField field => "paykit-payment params contain unknown field: " +:+ field
  | InvalidRecipientPubky => "paykit-payment recipient_pubky must be a valid Pubky public key"
  | InvalidAmount => "paykit-payment amount must be a positive decimal integer string"
  | InvalidAsset => "paykit-payment asset must be a non-empty string"
  | InvalidPaymentIn => "paykit-payment payment_in must be a positive whole-hour JSON u64"
  end.

Definition PaykitPaymentPolicyValidationError_display (e : PaykitPaymentPolicyValidationError) :
    string :=
  match e with
  | MustBeOnlyCriterion => "paykit-payment must be the content lock's only criterion"
  | InvalidParams p =>
      "invalid paykit-payment criterion params: " +:+ PaykitPaymentParamsValidationError_display p
  | RecipientMustMatchCreator =>
      "paykit-payment recipient_pubky must match the content lock creator"
  | InvalidLockLogic id => "paykit-payment lock logic must reference only criterion " +:+ id
  end.

Definition VerifierType_display (v : VerifierType) : string :=
  match v with DevStatic => "dev-static" | PaykitPayment => "paykit-payment" end.

(** * Ports *)

Inductive ContentLockWriteError :=
  | WriteNotStarted (e : ApplicationError)
  | WriteAmbiguous (e : ApplicationError).

#[global] Instance ContentLockPath_countable : Countable ContentLockPath.
Proof. by apply (inj_countable' path_lock_id ContentLockPath_from_lock_id); intros []. Defined.

(** The public locks of the creators; the index of an operation is the point of the
    run at which it happens. *)
Class ContentLockStore (L : Type) := {
  cls_locks : L → gmap (CreatorPubky * ContentLockPath) ContentLock;
  cls_get : nat → L → CreatorPubky → ContentLockPath →
    result ApplicationError (option ContentLock);
  cls_upsert : nat → L → CreatorPubky → ContentLockPath → ContentLock →
    result ContentLockWriteError () * L;
}.

(** An answer is about the store as it is; a write that was not started had no
    effect, one without a clear answer may have had one. *)
Class ContentLockStoreLaws (L : Type) `{!ContentLockStore L} := {
  cls_get_Ok n l creator path o :
    cls_get n l creator path = Ok o → o = cls_locks l !! (creator, path);
  cls_upsert_Ok n l creator path lock l' :
    cls_upsert n l creator path lock = (Ok (), l') →
    cls_locks l' = <[(creator, path) := lock]> (cls_locks l);
  cls_upsert_not_started n l creator path lock e l' :
    cls_upsert n l creator path lock = (Err (WriteNotStarted e), l') → cls_locks l' = cls_locks l;
  cls_upsert_ambiguous n l creator path lock e l' :
    cls_upsert n l creator path lock = (Err (WriteAmbiguous e), l') →
    cls_locks l' = cls_locks l ∨ cls_locks l' = <[(creator, path) := lock]> (cls_locks l);
}.

Record CreateContentLockRequest := MkCreateRequest {
  ccl_creator : CreatorPubky;
  ccl_primary_resource : option GuardedResource;
  ccl_secondary_resources : gmap string SecondaryGuardedResource;
  ccl_criteria : list Criterion;
  ccl_lock_logic : LockLogic;
  ccl_access_policy : AccessPolicy;
  ccl_lock_server : LockServerConfig;
}.

Record CreatedContentLock := MkCreated {
  created_lock_id : LockId;
  created_content_lock_path : ContentLockPath;
  created_content_lock : ContentLock;
}.

Record PublishingState (L : Type) := MkPublishing {
  pub_repo : DeletionRepo;
  pub_locks : L;
}.
Arguments MkPublishing {L}.
Arguments pub_repo {L}.
Arguments pub_locks {L}.

Definition PUBLICATION_BOOKKEEPING_ATTEMPTS : nat := 3.

Definition requested_lock (request : CreateContentLockRequest) (created_at : OffsetDateTime) :
    ContentLock :=
  MkContentLock CONTENT_LOCK_VERSION (ccl_creator request) (ccl_primary_resource request)
    (ccl_secondary_resources request) (ccl_criteria request) (ccl_lock_logic request)
    (ccl_access_policy request) (ccl_lock_server request) created_at.

Definition resource_descriptors (lock : ContentLock) : list GuardedResource :=
  match cl_primary_resource lock with Some r => [r] | None => [] end
  ++ ((λ '(path, s), MkGuardedResource path (sr_hash s) (sr_content_type s) (sr_size s))
        <$> btree_iter (cl_secondary_resources lock)).

Definition del_with_ownership (r : DeletionRepo) ownership : DeletionRepo :=
  MkDeletionRepo (del_jobs r) (del_receipts r) (del_intents r) ownership (del_tasks r)
    (del_access r).

Section create.
  Context `{Base32, Blake3, JsonCanonicalizer, CanonicalizationError, PubkyKeys, MimeCrate}.
  Context `{TimeCrate, Base64Url, Aead}.
  Context {L : Type} `{!ContentLockStore L}.
  Context (clock : nat → OffsetDateTime) (fates : nat → Fate).
  Context (others : nat → PublishingState L → PublishingState L).
  Context (get_current_guarded_resource : nat → CreatorPubky → string →
             result ApplicationError (option GuardedResourceRecord)).

Abbreviation CreateRun := (Run (PublishingState L) ()).

(** * Calls *)

Definition put_repo (w : World (PublishingState L) ()) (s : PublishingState L)
    (r : DeletionRepo) : World (PublishingState L) () :=
  MkWorld (MkPublishing r (pub_locks s)) () (w_ticks w + 1)%nat.

(** A call of the repositories of intents and ownership. *)
Definition ask {A} (op : DeletionRepo → result ApplicationError (A * DeletionRepo)) :
    CreateRun A := λ w,
  let s := others (w_ticks w) (w_store w) in
  let r := pub_repo s in
  match fates (w_ticks w), op r with
  | Delivered, Ok (a, r') => (Ok a, put_repo w s r')
  | Delivered, Err e => (Err e, put_repo w s r)
  | Lost e, _ => (Err e, put_repo w s r)
  | Unanswered e, Ok (_, r') => (Err e, put_repo w s r')
  | Unanswered e, Err _ => (Err e, put_repo w s r)
  end.

(** A call that changes the ownership records. *)
Definition ask_ownership (op : OwnershipRecords → result ApplicationError OwnershipRecords) :
    CreateRun () :=
  ask (λ r, (λ o, ((), del_with_ownership r o)) <$> op (del_ownership r)).

Definition read_path_ownership (creator : CreatorPubky) (path : string) :
    CreateRun (option ContentLockOwnership) :=
  ask (λ r, Ok (get_path_ownership (del_ownership r) creator path, r)).

Definition read_lock (creator : CreatorPubky) (path : ContentLockPath) :
    CreateRun (option ContentLock) := λ w,
  let s := others (w_ticks w) (w_store w) in
  (cls_get (w_ticks w) (pub_locks s) creator path, put_repo w s (pub_repo s)).

Definition write_lock (creator : CreatorPubky) (path : ContentLockPath) (lock : ContentLock) :
    CreateRun (result ContentLockWriteError ()) := λ w,
  let s := others (w_ticks w) (w_store w) in
  let '(r, l') := cls_upsert (w_ticks w) (pub_locks s) creator path lock in
  (Ok r, MkWorld (MkPublishing (pub_repo s) l') () (w_ticks w + 1)%nat).

(** The result of a call as a value. *)
Definition attempt {A} (m : CreateRun A) : CreateRun (result ApplicationError A) := λ w,
  let '(r, w') := m w in (Ok r, w').

(** At most [attempts] calls, until one is answered. *)
Fixpoint with_retry {A} (attempts : nat) (m : CreateRun A) : CreateRun A := λ w,
  match m w with
  | (Ok a, w') => (Ok a, w')
  | (Err e, w') =>
      match attempts with
      | S (S _ as left) => with_retry left m w'
      | _ => (Err e, w')
      end
  end.

Definition mark_publication_written_with_retry (creator : CreatorPubky) (id : LockId)
    (token : Uuid) : CreateRun bool :=
  with_retry PUBLICATION_BOOKKEEPING_ATTEMPTS
    (ask (λ r, Ok (mark_publication_written r creator id token))).

Definition compensate_publication_with_retry (creator : CreatorPubky) (id : LockId)
    (token : Uuid) : CreateRun bool :=
  with_retry PUBLICATION_BOOKKEEPING_ATTEMPTS
    (ask (λ r, Ok (compensate_publication r creator id token))).

Definition abandon_publication_with_retry (creator : CreatorPubky) (id : LockId)
    (token : Uuid) : CreateRun bool :=
  with_retry PUBLICATION_BOOKKEEPING_ATTEMPTS
    (ask (λ r, Ok (abandon_publication r creator id token))).

(** * Checks *)

Fixpoint validate_criteria (criteria : list Criterion) : result ApplicationError () :=
  match criteria with
  | [] => Ok ()
  | c :: criteria =>
      (_ ← map_err (λ e, InvalidGuardedResource
                           ("invalid params for " +:+ VerifierType_display (criterion_verifier_type c)
                            +:+ " criterion " +:+ criterion_id c +:+ ": "
                            +:+ PaykitPaymentParamsValidationError_display e))
             (validate_params c);
       validate_criteria criteria)%stdpp
  end.

Definition validate_criterion_params (lock : ContentLock) : result ApplicationError () :=
  validate_criteria (cl_criteria lock).

Fixpoint check_resources (creator : CreatorPubky) (descriptors : list GuardedResource) :
    CreateRun () :=
  match descriptors with
  | [] => run_ret ()
  | d :: descriptors =>
      found ⟵ (λ w, (get_current_guarded_resource (w_ticks w) creator (gr_path d), w));
      current ⟵ run_lift (ok_or found GuardedResourceUnavailable);
      _ ⟵ run_lift (reject_if
             ((grr_hash current != gr_hash d) || (grr_content_type current != gr_content_type d)
              || negb (grr_size current =? gr_size d))
             (InvalidGuardedResource
                "guarded resource descriptor does not match current stored resource"));
      check_resources creator descriptors
  end.

Definition identify (lock : ContentLock) : result ApplicationError (LockId * ContentLockPath) :=
  (id ← frozen_lock_id lock;
   path ← ok_or (content_lock_path lock)
            (ContentLockCanonicalization (canonicalization_message lock));
   Ok (id, path))%stdpp.

(** * Recovery of an earlier publication *)

Fixpoint read_ownership (creator : CreatorPubky) (paths : list string) :
    CreateRun (list (option ContentLockOwnership)) :=
  match paths with
  | [] => run_ret []
  | path :: paths =>
      record ⟵ read_path_ownership creator path;
      records ⟵ read_ownership creator paths;
      run_ret (record :: records)
  end.

Definition first_owner (ownership : list (option ContentLockOwnership)) : option LockId :=
  head (omap (λ record, own_lock_id <$> record) ownership).

Definition owned_by (id : LockId) (record : option ContentLockOwnership) : bool :=
  is_some_and (λ o, own_lock_id o == id) record.

Definition has_status (status : ContentLockOwnershipStatus)
    (record : option ContentLockOwnership) : bool :=
  is_some_and (λ o, own_status o == status) record.

(** [guarded_paths[0]]; a valid lock has a resource. *)
Definition first_path (paths : list string) : string := default "" (head paths).

Definition resolve_owned_content_lock (creator : CreatorPubky) (guarded_paths : list string)
    (requested : ContentLock) :
    CreateRun (option (ContentLock * ContentLockOwnershipStatus * option PublicationRecovery)) :=
  let conflict := ContentLockPathConflict (first_path guarded_paths) in
  ownership ⟵ read_ownership creator guarded_paths;
  match first_owner ownership with
  | None => run_ret None
  | Some existing_lock_id =>
      _ ⟵ run_lift (try_for_each
             (λ '(path, record),
                reject_if (negb (owned_by existing_lock_id record)) (ContentLockPathConflict path))
             (zip guarded_paths ownership));
      let all_published := forallb (has_status OwnershipPublished) ownership in
      let all_reserved := forallb (has_status OwnershipReserved) ownership in
      _ ⟵ run_lift (reject_if (negb all_published && negb all_reserved) conflict);
      let status := if all_published then OwnershipPublished else OwnershipReserved in
      recovery ⟵ ask (λ r, (λ x, (x, r))
                             <$> recover_publication r creator existing_lock_id requested);
      let existing_path := ContentLockPath_from_lock_id existing_lock_id in
      match recovery with
      | RecoveryRequestMismatch => run_err conflict
      | RecoveryPending _ _ => run_err ContentLockPublicationInProgress
      | RecoveryWriteCompleted _ lock =>
          published ⟵ read_lock creator existing_path;
          if is_none_or (λ p, p != lock) published then run_err conflict
          else run_ret (Some (lock, status, Some recovery))
      | RecoveryNone =>
          current ⟵ read_ownership creator guarded_paths;
          if forallb is_none current then run_ret None
          else if current != ownership then run_err conflict
          else
            published ⟵ read_lock creator existing_path;
            existing ⟵ run_lift (ok_or published conflict);
            canonical ⟵ run_lift (frozen_lock_id existing);
            if (canonical != existing_lock_id)
               || (existing != with_created_at requested (cl_created_at existing))
            then run_err conflict
            else run_ret (Some (existing, status, None))
      end
  end.

(** * Publication *)

Definition publish_with_token (creator : CreatorPubky) (id : LockId) (lock : ContentLock)
    (guarded_paths : list string) (token : Uuid) (compensate_ownership : bool) : CreateRun () :=
  path ⟵ run_lift (ok_or (content_lock_path lock)
                      (ContentLockCanonicalization (canonicalization_message lock)));
  written ⟵ write_lock creator path lock;
  match written with
  | Err (WriteAmbiguous e) => run_err e
  | Err (WriteNotStarted e) =>
      if negb compensate_ownership then
        abandoned ⟵ abandon_publication_with_retry creator id token;
        if negb abandoned
        then run_err (Storage "content lock publication abandonment was not committed")
        else run_err e
      else
        compensated ⟵ compensate_publication_with_retry creator id token;
        if negb compensated
        then run_err (Storage "content lock publication compensation was not committed")
        else run_err e
  | Ok _ =>
      marked ⟵ mark_publication_written_with_retry creator id token;
      if negb marked
      then run_err (Storage "content lock publication write completion was not committed")
      else
        reconciled ⟵ ask (λ r, Ok (reconcile_publication r creator id lock guarded_paths));
        if negb reconciled
        then run_err (Storage "content lock publication reconciliation was not committed")
        else ask_ownership (λ o, mark_paths_published o creator guarded_paths id)
  end.

(** Reserve if needed, open the intent and publish. *)
Definition publish_lock (creator : CreatorPubky) (id : LockId) (path : ContentLockPath)
    (lock : ContentLock) (guarded_paths : list string) (newly_reserved : bool) (token : Uuid) :
    CreateRun CreatedContentLock :=
  _ ⟵ (if newly_reserved
       then ask_ownership (λ o, reserve_paths o creator guarded_paths id)
       else run_ret ());
  begun ⟵ attempt (ask (λ r, (λ r', ((), r')) <$> begin_publication r creator id token lock));
  match begun with
  | Err e =>
      _ ⟵ (if newly_reserved
           then attempt (ask_ownership
                  (λ o, Ok (compensate_reserved_paths o creator guarded_paths id)))
           else run_ret (Ok ()));
      run_err e
  | Ok _ =>
      _ ⟵ publish_with_token creator id lock guarded_paths token newly_reserved;
      run_ret (MkCreated id path lock)
  end.

Definition finish_recovered (creator : CreatorPubky) (id : LockId) (path : ContentLockPath)
    (recovered : ContentLock) (guarded_paths : list string) (status : ContentLockOwnershipStatus) :
    CreateRun CreatedContentLock :=
  reconciled ⟵ ask (λ r, Ok (reconcile_publication r creator id recovered guarded_paths));
  if negb reconciled
  then run_err (Storage "content lock publication reconciliation was not committed")
  else
    _ ⟵ (if status == OwnershipReserved
         then ask_ownership (λ o, mark_paths_published o creator guarded_paths id)
         else run_ret ());
    run_ret (MkCreated id path recovered).

(** The rest of the run once the paths turned out to belong to a lock. *)
Definition resume (creator : CreatorPubky) (paths : list string) (token : Uuid) (lock : ContentLock)
    (status : ContentLockOwnershipStatus) (recovered : option PublicationRecovery) :
    CreateRun CreatedContentLock :=
  idp ⟵ run_lift (identify lock);
  recovery ⟵ (match recovered with
              | Some recovery => run_ret recovery
              | None => ask (λ r, (λ x, (x, r)) <$> recover_publication r creator idp.1 lock)
              end);
  match recovery with
  | RecoveryWriteCompleted _ recovered =>
      finish_recovered creator idp.1 idp.2 recovered paths status
  | RecoveryPending _ _ => run_err ContentLockPublicationInProgress
  | RecoveryRequestMismatch => run_err (ContentLockPathConflict (first_path paths))
  | RecoveryNone =>
      if status == OwnershipPublished then run_ret (MkCreated idp.1 idp.2 lock)
      else publish_lock creator idp.1 idp.2 lock paths false token
  end.

Definition create_content_lock (request : CreateContentLockRequest) (token : Uuid) :
    CreateRun CreatedContentLock :=
  let creator := ccl_creator request in
  created_at ⟵ now clock;
  let requested := requested_lock request created_at in
  _ ⟵ run_lift (map_err (λ e, InvalidGuardedResource (ContentLockValidationError_display e))
                   (validate_resource_set requested));
  _ ⟵ run_lift (validate_criterion_params requested);
  _ ⟵ run_lift (map_err (λ e, InvalidGuardedResource (PaykitPaymentPolicyValidationError_display e))
                   (validate_paykit_payment_v1_policy requested));
  _ ⟵ check_resources creator (resource_descriptors requested);
  let guarded_paths := gr_path <$> resource_descriptors requested in
  resolved ⟵ resolve_owned_content_lock creator guarded_paths requested;
  match resolved with
  | None =>
      idp ⟵ run_lift (identify requested);
      publish_lock creator idp.1 idp.2 requested guarded_paths true token
  | Some (lock, status, recovered) =>
      resume creator guarded_paths token lock status recovered
  end.

(** * What a run does to the state *)

Section moves.
  Context (R : relation (PublishingState L)) `{!PreOrder R}.
  Context (Hothers : ∀ n s, R s (others n s)).

Lemma moves_attempt {A} (m : CreateRun A) : moves R m → moves R (attempt m).
Proof.
  intros Hm w res w'. unfold attempt. destruct (m w) as [r w1] eqn:Hw. intros [= <- <-].
  by eapply Hm.
Qed.

Lemma moves_retry {A} attempts (m : CreateRun A) : moves R m → moves R (with_retry attempts m).
Proof.
  intros Hm. induction attempts as [|[|k] IH]; intros w res w'; cbn;
    destruct (m w) as [[a|e] w1] eqn:Hw; intros Hr.
  1-5: injection Hr as <- <-; by eapply Hm.
  etransitivity; [by eapply Hm|by eapply IH].
Qed.

Lemma moves_ask {A} (op : DeletionRepo → result ApplicationError (A * DeletionRepo)) :
  (∀ s a r', op (pub_repo s) = Ok (a, r') → R s (MkPublishing r' (pub_locks s))) →
  moves R (ask op).
Proof.
  intros Hop w res w' Hw. unfold ask, put_repo in Hw. etransitivity; [apply (Hothers (w_ticks w))|].
  set (s := others _ _) in *.
  assert (R s (MkPublishing (pub_repo s) (pub_locks s))) as Hsame by (by destruct s).
  destruct (fates _), (op (pub_repo s)) as [[a r']|] eqn:Ho; injection Hw as <- <-; cbn; auto;
    by eapply Hop.
Qed.

Lemma moves_read_lock creator path : moves R (read_lock creator path).
Proof.
  intros w res w' [= _ <-]. cbn. etransitivity; [apply (Hothers (w_ticks w))|].
  by destruct (others _ _).
Qed.

Lemma moves_read_ownership creator paths : moves R (read_ownership creator paths).
Proof.
  induction paths as [|p paths IH]; cbn; [apply (moves_ret R)|].
  apply (moves_bind R); [|intros; apply (moves_bind R); [done|intros; apply (moves_ret R)]].
  apply moves_ask. intros [r l] a r' [= <- <-]. done.
Qed.

Lemma moves_check_resources creator descriptors : moves R (check_resources creator descriptors).
Proof.
  induction descriptors as [|d ds IH]; cbn; [apply (moves_ret R)|].
  apply (moves_bind R); [by intros w res w' [= <- <-]|]. intros found.
  apply (moves_bind R); [apply (moves_lift R)|]. intros current.
  apply (moves_bind R); [apply (moves_lift R)|done].
Qed.

Lemma moves_recover creator id requested :
  moves R (ask (λ r, (λ x, (x, r)) <$> recover_publication r creator id requested)).
Proof.
  apply moves_ask. intros [r l] a r' Ha. apply fmap_Ok in Ha as (x & _ & [= <- <-]). done.
Qed.

Lemma moves_resolve creator paths requested :
  moves R (resolve_owned_content_lock creator paths requested).
Proof.
  unfold resolve_owned_content_lock.
  repeat first
    [ apply (moves_ret R) | apply (moves_err R) | apply (moves_lift R) | apply moves_read_ownership
    | apply moves_read_lock | apply moves_recover | apply (moves_bind R); [|intros]
    | progress cbn zeta | case_match ].
Qed.
End moves.

(** ** Only legal calls *)

Definition legal (s s' : PublishingState L) : Prop :=
  ∀ t, ∃ t', t ≤ t' ∧ rtc timed_step (t, pub_repo s) (t', pub_repo s').

#[local] Instance legal_preorder : PreOrder legal.
Proof.
  split.
  - intros s t. exists t. by split; [lia|].
  - intros s1 s2 s3 H12 H23 t. destruct (H12 t) as (t1 & ? & Hr1).
    destruct (H23 t1) as (t2 & ? & Hr2). exists t2. split; [lia|]. by etransitivity.
Qed.

Lemma legal_step s r' :
  (∀ t, deletion_step t (pub_repo s) r') → legal s (MkPublishing r' (pub_locks s)).
Proof.
  intros Hstep t. exists t. split; [lia|]. apply rtc_once. by apply step_at; [lia|].
Qed.

Section legal.
  Context (Hothers : ∀ n s, legal s (others n s)).

Lemma legal_ownership op : moves legal (ask_ownership op).
Proof.
  apply moves_ask; [apply _|done|]. intros s a r' Ha. apply fmap_Ok in Ha as (o & _ & [= _ ->]).
  apply legal_step. intros t. apply ds_environment.
Qed.

Lemma legal_bool (op : DeletionRepo → bool * DeletionRepo) :
  (∀ t r, deletion_step t r (op r).2) → moves legal (ask (λ r, Ok (op r))).
Proof.
  intros Hop. apply moves_ask; [apply _|done|]. intros s a r' [= Ha]. apply legal_step. intros t.
  specialize (Hop t (pub_repo s)). by rewrite Ha in Hop.
Qed.

Lemma legal_begin creator id token lock :
  moves legal (ask (λ r, (λ r', ((), r')) <$> begin_publication r creator id token lock)).
Proof.
  apply moves_ask; [apply _|done|]. intros s a r' Ha. apply fmap_Ok in Ha as (r2 & Hb & [= _ ->]).
  apply legal_step. intros t. by eapply ds_begin.
Qed.

Lemma legal_write creator path lock : moves legal (write_lock creator path lock).
Proof.
  intros w res w'. unfold write_lock. destruct (cls_upsert _ _ _ _ _) as [r l']. intros [= <- <-].
  cbn. apply (Hothers (w_ticks w)).
Qed.

(** The use case only makes calls that the histories of the deletion repository
    allow, so that everything proved about those holds for its states. *)
Lemma create_content_lock_legal request token : moves legal (create_content_lock request token).
Proof.
  unfold create_content_lock, resume, publish_lock, finish_recovered, publish_with_token,
    mark_publication_written_with_retry, abandon_publication_with_retry,
    compensate_publication_with_retry.
  repeat first
    [ apply moves_ret; apply _ | apply moves_err; apply _ | apply moves_lift; apply _
    | apply moves_now; apply _ | apply legal_write | apply legal_ownership | apply legal_begin
    | apply legal_bool; intros; constructor | apply moves_recover; [apply _|done]
    | apply moves_check_resources; apply _ | apply moves_resolve; [apply _|done]
    | apply moves_retry; [apply _|] | apply moves_attempt | apply moves_bind; [apply _| |intros]
    | progress cbn zeta | case_match ].
Qed.
End legal.

(** * Runs without interference *)

Section alone.
  Context (Hothers : ∀ n s, s = others n s) `{!ContentLockStoreLaws L}.

(** A call takes effect or it does not; an answer means that it did. *)
Lemma ask_alone {A} (op : DeletionRepo → result ApplicationError (A * DeletionRepo)) w res w' :
  ask op w = (res, w') →
  (∃ a r', op (pub_repo (w_store w)) = Ok (a, r')
           ∧ w_store w' = MkPublishing r' (pub_locks (w_store w))
           ∧ (res = Ok a ∨ ∃ e, res = Err e))
  ∨ (w_store w' = w_store w ∧ ∃ e, res = Err e).
Proof.
  unfold ask, put_repo. rewrite <- Hothers.
  assert (MkPublishing (pub_repo (w_store w)) (pub_locks (w_store w)) = w_store w) as Hsame
    by (by destruct (w_store w)).
  destruct (fates _), (op _) as [[a r']|]; intros [= <- <-]; cbn; rewrite ?Hsame; eauto 10.
Qed.

Lemma ask_Ok_alone {A} (op : DeletionRepo → result ApplicationError (A * DeletionRepo)) w a w' :
  ask op w = (Ok a, w') →
  ∃ r', op (pub_repo (w_store w)) = Ok (a, r')
        ∧ w_store w' = MkPublishing r' (pub_locks (w_store w)).
Proof.
  intros [(a' & r' & Ho & Hw & [[= ->]|(e & [=])])|(_ & e & [=])]%ask_alone. eauto.
Qed.

Lemma quiet_same {A} (m : CreateRun A) w res w' : moves eq m → m w = (res, w') → w_store w' = w_store w.
Proof. intros Hm Hw. symmetry. by eapply Hm. Qed.

Lemma read_ownership_alone creator paths w records w' :
  read_ownership creator paths w = (Ok records, w') →
  w_store w' = w_store w
  ∧ records = (λ p, del_ownership (pub_repo (w_store w)) !! (creator, p)) <$> paths.
Proof.
  revert w records w'. induction paths as [|p paths IH]; intros w records w'; cbn.
  { by intros [= <- <-]. }
  intros Hrun. apply run_bind_inv in Hrun as [(e & _ & [=])|(record & w1 & Hr & Hrun)].
  apply run_bind_inv in Hrun as [(e & _ & [=])|(rest & w2 & Hrest & Hrun)].
  injection Hrun as <- <-. apply ask_Ok_alone in Hr as (r' & [= <- <-] & Hw1).
  apply IH in Hrest as [Hw2 ->]. rewrite Hw2, Hw1. by destruct (w_store w).
Qed.

Lemma read_lock_alone creator path w o w' :
  read_lock creator path w = (Ok o, w') →
  w_store w' = w_store w ∧ o = cls_locks (pub_locks (w_store w)) !! (creator, path).
Proof.
  unfold read_lock, put_repo. rewrite <- Hothers. intros [= Ho <-].
  split; [by cbn; destruct (w_store w)|]. by eapply cls_get_Ok.
Qed.

Definition undeleted_key (s : PublishingState L) (key : CreatorPubky * LockId) : Prop :=
  del_jobs (pub_repo s) !! key = None ∧ del_receipts (pub_repo s) !! key = None.

(** Every path belongs to the lock, in the given status. *)
Definition owned (s : PublishingState L) (creator : CreatorPubky) (id : LockId)
    (status : ContentLockOwnershipStatus) (paths : list string) : Prop :=
  ∀ p, p ∈ paths →
    ∃ o, del_ownership (pub_repo s) !! (creator, p) = Some o
         ∧ own_lock_id o = id ∧ own_status o = status.

(** The intent of a publication whose write has been recorded, or none. *)
Definition intent_cleared (s : PublishingState L) (key : CreatorPubky * LockId)
    (lock : ContentLock) : Prop :=
  del_intents (pub_repo s) !! key = None
  ∨ ∃ token, del_intents (pub_repo s) !! key = Some (MkPublicationIntent token true lock).

Lemma recover_alone creator id requested w recovery w' :
  ask (λ r, (λ x, (x, r)) <$> recover_publication r creator id requested) w = (Ok recovery, w') →
  w_store w' = w_store w ∧ undeleted_key (w_store w) (creator, id)
  ∧ match recovery with
    | RecoveryNone => del_intents (pub_repo (w_store w)) !! (creator, id) = None
    | RecoveryWriteCompleted token lock =>
        del_intents (pub_repo (w_store w)) !! (creator, id)
          = Some (MkPublicationIntent token true lock)
        ∧ lock_id lock = Some id ∧ lock = with_created_at requested (cl_created_at lock)
    | _ => is_Some (del_intents (pub_repo (w_store w)) !! (creator, id))
    end.
Proof.
  intros Hr. apply ask_Ok_alone in Hr as (r' & Hr & Hw). apply fmap_Ok in Hr as (x & Hr & [= -> ->]).
  split; [by rewrite Hw; destruct (w_store w)|]. unfold recover_publication in Hr.
  apply bind_Ok in Hr as ([] & Hno%reject_if_Ok & Hr). unfold has_job, has_receipt in Hno. props.
  split; [done|].
  destruct (del_intents _ !! _) as [[token written lock]|] eqn:Hi; [|by injection Hr as <-].
  cbn in Hr. destruct (publication_intent_matches_request _ _ _ _) eqn:Hm; cbn in Hr;
    [|by injection Hr as <-].
  destruct written; injection Hr as <-; [|done]. split; [done|].
  unfold publication_intent_matches_request, lock_identified in Hm.
  destruct (negb _) eqn:Hid; [done|]. props.
  match goal with H : is_some_and _ _ = true |- _ => apply is_some_and_true in H as (i & -> & ?) end.
  props. subst. split; congruence.
Qed.

(** The records of the paths, all of one lock and one status. *)
Lemma uniform_owned s creator id (paths : list string) :
  let ownership := (λ p, del_ownership (pub_repo s) !! (creator, p)) <$> paths in
  try_for_each
    (λ '(path, record), reject_if (negb (owned_by id record)) (ContentLockPathConflict path))
    (zip paths ownership) = Ok () →
  negb (forallb (has_status OwnershipPublished) ownership)
    && negb (forallb (has_status OwnershipReserved) ownership) = false →
  owned s creator id
    (if forallb (has_status OwnershipPublished) ownership
     then OwnershipPublished else OwnershipReserved) paths.
Proof.
  intros ownership Hown Hstatus p Hp. apply try_for_each_Ok in Hown.
  assert (del_ownership (pub_repo s) !! (creator, p) ∈ ownership) as Hin
    by (apply list_elem_of_fmap; by exists p).
  assert ((p, del_ownership (pub_repo s) !! (creator, p)) ∈ zip paths ownership) as Hzip.
  { subst ownership. rewrite zip_with_fmap_r, zip_with_diag.
    apply list_elem_of_fmap. by exists p. }
  rewrite Forall_forall in Hown. apply Hown in Hzip. apply reject_if_Ok in Hzip. props.
  unfold owned_by in Hzip. apply is_some_and_true in Hzip as (o & Ho & Hid). props.
  exists o. split_and!; [done|done|].
  destruct (forallb (has_status OwnershipPublished) ownership) eqn:Hpub; props.
  - rewrite forallb_forall in Hpub. specialize (Hpub _ (proj1 (list_elem_of_In _ _) Hin)).
    unfold has_status in Hpub. apply is_some_and_true in Hpub as (o' & Ho' & ?). props. congruence.
  - cbn in Hstatus. apply negb_false_iff in Hstatus as Hres. rewrite forallb_forall in Hres. specialize (Hres _ (proj1 (list_elem_of_In _ _) Hin)).
    unfold has_status in Hres. apply is_some_and_true in Hres as (o' & Ho' & ?). props. congruence.
Qed.

Lemma first_owner_None ownership :
  first_owner ownership = None → Forall (λ record, record = None) ownership.
Proof.
  unfold first_owner. induction ownership as [|[o|] ownership IH]; cbn; [constructor|done|].
  intros Hn. constructor; [done|by apply IH].
Qed.

(** An earlier publication of the requested lock that the use case may go on with. *)
Record resolved (s : PublishingState L) (creator : CreatorPubky) (paths : list string)
    (requested : ContentLock) (id : LockId) (lock : ContentLock)
    (status : ContentLockOwnershipStatus) : Prop := {
  rv_id : lock_id lock = Some id;
  rv_same : lock = with_created_at requested (cl_created_at lock);
  rv_published : cls_locks (pub_locks s) !! (creator, ContentLockPath_from_lock_id id) = Some lock;
  rv_owned : owned s creator id status paths;
  rv_undeleted : undeleted_key s (creator, id);
}.

Lemma resolve_alone creator paths requested w found w' :
  resolve_owned_content_lock creator paths requested w = (Ok found, w') →
  match found with
  | None => ∀ p, p ∈ paths → del_ownership (pub_repo (w_store w)) !! (creator, p) = None
  | Some (lock, status, recovery) =>
      ∃ id, resolved (w_store w) creator paths requested id lock status
        ∧ match recovery with
          | Some rec =>
              ∃ token, rec = RecoveryWriteCompleted token lock
                ∧ del_intents (pub_repo (w_store w)) !! (creator, id)
                  = Some (MkPublicationIntent token true lock)
          | None => del_intents (pub_repo (w_store w)) !! (creator, id) = None
          end
  end.
Proof.
  unfold resolve_owned_content_lock. cbn zeta. intros Hrun.
  apply run_bind_inv in Hrun as [(e & _ & [=])|(ownership & w1 & Hown & Hrun)].
  apply read_ownership_alone in Hown as [Hw1 Hown].
  destruct (first_owner ownership) as [id|] eqn:Hfirst.
  2: { injection Hrun as <- <-. apply first_owner_None in Hfirst. rewrite Hown, Forall_fmap in Hfirst.
       by rewrite Forall_forall in Hfirst. }
  apply run_bind_inv in Hrun as [(e & _ & [=])|([] & w2 & Hall & Hrun)]. injection Hall as Hall <-.
  apply run_bind_inv in Hrun as [(e & _ & [=])|([] & w2 & Huni & Hrun)]. injection Huni as Huni <-.
  apply reject_if_Ok in Huni. subst ownership. rewrite <- Hw1 in Hall, Huni.
  pose proof (uniform_owned _ _ _ _ Hall Huni) as Howned. cbn zeta in Howned. rewrite Hw1 in Howned.
  apply run_bind_inv in Hrun as [(e & _ & [=])|(recovery & w2 & Hrec & Hrun)].
  apply recover_alone in Hrec as (Hw2 & Hund & Hrec). rewrite Hw1 in Hw2, Hund, Hrec.
  destruct recovery as [|token lock|token lock|]; [| |done|done].
  - apply run_bind_inv in Hrun as [(e & _ & [=])|(current & w3 & Hcur & Hrun)].
    apply read_ownership_alone in Hcur as [Hw3 Hcur]. rewrite Hw2 in Hcur, Hw3.
    destruct (forallb is_none current) eqn:Hnone.
    { injection Hrun as <- <-. intros p Hp. rewrite forallb_forall in Hnone.
      assert (del_ownership (pub_repo (w_store w)) !! (creator, p) ∈ current) as Hin
        by (subst current; apply list_elem_of_fmap; by exists p).
      apply list_elem_of_In, Hnone in Hin. by props. }
    destruct (current != _); [done|].
    apply run_bind_inv in Hrun as [(e & _ & [=])|(published & w4 & Hpub & Hrun)].
    apply read_lock_alone in Hpub as [Hw4 Hpub]. rewrite Hw3 in Hpub.
    apply run_bind_inv in Hrun as [(e & _ & [=])|(existing & w5 & Hex & Hrun)].
    injection Hex as Hex <-. apply ok_or_Ok in Hex. subst published.
    apply run_bind_inv in Hrun as [(e & _ & [=])|(canonical & w5 & Hcan & Hrun)].
    injection Hcan as Hcan <-. apply ok_or_Ok in Hcan.
    destruct (_ || _) eqn:Hsame; [done|]. injection Hrun as <- <-. props. subst.
    exists id. by split.
  - destruct Hrec as (Hi & Hid & Hsame).
    apply run_bind_inv in Hrun as [(e & _ & [=])|(published & w3 & Hpub & Hrun)].
    apply read_lock_alone in Hpub as [Hw3 Hpub]. rewrite Hw2 in Hpub.
    destruct (is_none_or _ _) eqn:Hmatch; [done|]. injection Hrun as <- <-.
    apply is_none_or_false in Hmatch as (x & Hx & Hmatch). props. subst x published.
    exists id. split; [by split|]. eauto.
Qed.

(** ** Publication *)

Definition set_intents (s : PublishingState L) intents : PublishingState L :=
  MkPublishing (del_with_intents (pub_repo s) intents) (pub_locks s).

(** Marking the write, with retries: it has happened when one attempt was
    answered, and may have happened otherwise. *)
Lemma mark_alone attempts creator id token lock written w res w' :
  del_intents (pub_repo (w_store w)) !! (creator, id)
    = Some (MkPublicationIntent token written lock) →
  with_retry attempts (ask (λ r, Ok (mark_publication_written r creator id token))) w = (res, w') →
  (w_store w' = w_store w ∧ ∃ e, res = Err e)
  ∨ (w_store w' = set_intents (w_store w)
                    (<[(creator, id) := MkPublicationIntent token true lock]>
                       (del_intents (pub_repo (w_store w))))
     ∧ (res = Ok true ∨ ∃ e, res = Err e)).
Proof.
  intros Hi Hrun. revert written w Hi Hrun.
  assert (∀ written w res' w1,
    del_intents (pub_repo (w_store w)) !! (creator, id)
      = Some (MkPublicationIntent token written lock) →
    ask (λ r, Ok (mark_publication_written r creator id token)) w = (res', w1) →
    (w_store w1 = w_store w ∧ ∃ e, res' = Err e)
    ∨ (w_store w1 = set_intents (w_store w)
                      (<[(creator, id) := MkPublicationIntent token true lock]>
                         (del_intents (pub_repo (w_store w))))
       ∧ (res' = Ok true ∨ ∃ e, res' = Err e))) as Hone.
  { intros written w res' w1 Hi Ha.
    apply ask_alone in Ha as [(a & r' & [= Ha] & Hw1 & Hres)|Ha]; [right|by left].
    unfold mark_publication_written in Ha. rewrite Hi in Ha. cbn in Ha. rewrite Z.eqb_refl in Ha.
    cbn in Ha. injection Ha as <- <-. by split. }
  induction attempts as [|[|k] IH]; intros written w Hi; cbn;
    destruct (ask _ w) as [[b|e] w1] eqn:Ha; intros Hrun.
  1-5: injection Hrun as <- <-; by eapply Hone.
  destruct (Hone _ _ _ _ Hi Ha) as [[Hw1 _]|[Hw1 _]].
  - rewrite <- Hw1 in Hi. destruct (IH _ _ Hi Hrun) as [[Hw Hr]|[Hw Hr]]; rewrite Hw1 in Hw; eauto.
  - right. assert (del_intents (pub_repo (w_store w1)) !! (creator, id)
                   = Some (MkPublicationIntent token true lock)) as Hi1
      by (rewrite Hw1; apply lookup_insert_eq).
    destruct (IH _ _ Hi1 Hrun) as [[Hw Hr]|[Hw Hr]]; rewrite Hw.
    { rewrite Hw1. eauto. }
    rewrite insert_id by done. rewrite Hw1. by destruct (w_store w) as [[] ?].
Qed.

Lemma reconcile_cases r creator id published paths b r' :
  reconcile_publication r creator id published paths = (b, r') →
  (b = false ∧ r' = r)
  ∨ (b = true ∧ r' = del_with_intents r (delete (creator, id) (del_intents r))).
Proof. unfold reconcile_publication. repeat case_match; intros [= <- <-]; auto. Qed.

(** Promotion of the paths of a lock. *)
Lemma promote_alone creator id status paths w res w' :
  owned (w_store w) creator id status paths →
  ask_ownership (λ o, mark_paths_published o creator paths id) w = (res, w') →
  (w_store w' = w_store w ∧ ∃ e, res = Err e)
  ∨ ∃ ownership, w_store w' = MkPublishing (del_with_ownership (pub_repo (w_store w)) ownership)
                                (pub_locks (w_store w))
      ∧ owned (w_store w') creator id OwnershipPublished paths.
Proof.
  intros Hown Hrun. apply ask_alone in Hrun as [(a & r' & Hop & Hw & _)|Hrun]; [|by left].
  right. apply fmap_Ok in Hop as (ownership & Hm & [= -> ->]). exists ownership. split; [done|].
  rewrite Hw. intros p Hp. cbn. unfold mark_paths_published in Hm.
  apply bind_Ok in Hm as ([] & _ & Hm). injection Hm as <-. rewrite publish_fold_lookup.
  rewrite decide_True by done. destruct (Hown p Hp) as (o & -> & <- & _). by exists (publish_ownership o).
Qed.

(** The lock is in the public store under its path. *)
Definition put_lock (s : PublishingState L) (creator : CreatorPubky) (id : LockId)
    (lock : ContentLock) :=
  <[(creator, ContentLockPath_from_lock_id id) := lock]> (cls_locks (pub_locks s)).

Lemma keeps_locks {A} (m : CreateRun A) w res w' :
  moves (λ s s', cls_locks (pub_locks s') = cls_locks (pub_locks s)) m → m w = (res, w') →
  cls_locks (pub_locks (w_store w')) = cls_locks (pub_locks (w_store w)).
Proof. intros Hm. apply Hm. Qed.

#[local] Instance same_locks_preorder :
  PreOrder (λ s s' : PublishingState L, cls_locks (pub_locks s') = cls_locks (pub_locks s)).
Proof. split; [done|]. intros s1 s2 s3 ? ?. congruence. Qed.

Lemma ask_keeps_locks {A} (op : DeletionRepo → result ApplicationError (A * DeletionRepo)) :
  moves (λ s s', cls_locks (pub_locks s') = cls_locks (pub_locks s)) (ask op).
Proof. apply moves_ask; [apply _| |done]. intros n s. by rewrite <- Hothers. Qed.

Lemma write_alone creator path lock w written w' :
  write_lock creator path lock w = (Ok written, w') →
  pub_repo (w_store w') = pub_repo (w_store w)
  ∧ match written with
    | Ok _ => cls_locks (pub_locks (w_store w'))
              = <[(creator, path) := lock]> (cls_locks (pub_locks (w_store w)))
    | Err (WriteNotStarted _) =>
        cls_locks (pub_locks (w_store w')) = cls_locks (pub_locks (w_store w))
    | Err (WriteAmbiguous _) =>
        cls_locks (pub_locks (w_store w')) = cls_locks (pub_locks (w_store w))
        ∨ cls_locks (pub_locks (w_store w'))
          = <[(creator, path) := lock]> (cls_locks (pub_locks (w_store w)))
    end.
Proof.
  unfold write_lock. rewrite <- Hothers. destruct (cls_upsert _ _ _ _ _) as [r l'] eqn:Hu.
  intros [= <- <-]. split; [done|]. cbn. destruct r as [[]|[e|e]].
  - by eapply cls_upsert_Ok.
  - by eapply cls_upsert_not_started.
  - by eapply cls_upsert_ambiguous.
Qed.

(** What a failed publication leaves behind: nothing new in the public store, or
    the lock there, fenced by its unmarked intent or ready to be taken up again. *)
Definition left_behind (s s' : PublishingState L) (creator : CreatorPubky) (paths : list string)
    (requested : ContentLock) (token : Uuid) : Prop :=
  cls_locks (pub_locks s') = cls_locks (pub_locks s)
  ∨ ∃ id lock, cls_locks (pub_locks s') = put_lock s creator id lock
      ∧ ((lock_id lock = Some id ∧ owned s' creator id OwnershipReserved paths
          ∧ del_intents (pub_repo s') !! (creator, id)
            = Some (MkPublicationIntent token false lock))
         ∨ ∃ status, resolved s' creator paths requested id lock status
                     ∧ intent_cleared s' (creator, id) lock).

(** A finished publication. *)
Definition published (s' : PublishingState L) (creator : CreatorPubky) (paths : list string)
    (requested : ContentLock) (id : LockId) (lock : ContentLock) : Prop :=
  resolved s' creator paths requested id lock OwnershipPublished
  ∧ del_intents (pub_repo s') !! (creator, id) = None.

(** After the write: whatever happens, the publication can be taken up again. *)
Lemma publish_after_write creator id lock requested paths token w0 w res w' :
  lock_id lock = Some id → lock = with_created_at requested (cl_created_at lock) →
  cls_locks (pub_locks (w_store w)) = put_lock w0 creator id lock →
  del_intents (pub_repo (w_store w)) !! (creator, id)
    = Some (MkPublicationIntent token false lock) →
  owned (w_store w) creator id OwnershipReserved paths → undeleted_key (w_store w) (creator, id) →
  (marked ⟵ mark_publication_written_with_retry creator id token;
   if negb marked
   then run_err (Storage "content lock publication write completion was not committed")
   else
     reconciled ⟵ ask (λ r, Ok (reconcile_publication r creator id lock paths));
     if negb reconciled
     then run_err (Storage "content lock publication reconciliation was not committed")
     else ask_ownership (λ o, mark_paths_published o creator paths id)) w = (res, w') →
  match res with
  | Ok _ => published (w_store w') creator paths requested id lock
  | Err _ => left_behind w0 (w_store w') creator paths requested token
  end.
Proof.
  intros Hid Hsame Hlocks Hi Hown Hund Hrun.
  assert (∀ s' status, cls_locks (pub_locks s') = put_lock w0 creator id lock →
            owned s' creator id status paths → undeleted_key s' (creator, id) →
            resolved s' creator paths requested id lock status) as Hresolved.
  { intros s' status Hl ? ?. split; try done. rewrite Hl. apply lookup_insert_eq. }
  assert (∀ s' status, cls_locks (pub_locks s') = put_lock w0 creator id lock →
            owned s' creator id status paths → undeleted_key s' (creator, id) →
            intent_cleared s' (creator, id) lock →
            left_behind w0 s' creator paths requested token) as Hagain.
  { intros s' status ? ? ? ?. right. exists id, lock. split; [done|]. right. eauto. }
  assert (left_behind w0 (w_store w) creator paths requested token) as Hfenced
    by (right; exists id, lock; split; [done|]; by left).
  apply run_bind_inv in Hrun as [(e & Hm & ->)|(marked & w1 & Hm & Hrun)].
  { eapply mark_alone in Hm as [[-> _]|[Hw1 _]]; [done| |done]. rewrite Hw1.
    eapply Hagain; try done. right. exists token. apply lookup_insert_eq. }
  eapply mark_alone in Hm as [[_ [e [=]]]|[Hw1 [[= ->]|[e [=]]]]]; [|done]. cbn in Hrun.
  assert (left_behind w0 (w_store w1) creator paths requested token) as Hmarked.
  { rewrite Hw1. eapply Hagain; try done. right. exists token. apply lookup_insert_eq. }
  apply run_bind_inv in Hrun as [(e & Hr & ->)|(reconciled & w2 & Hr & Hrun)].
  { apply ask_alone in Hr as [(b & r' & [= Hr] & Hw2 & _)|[Hw2 _]]; [|by rewrite Hw2].
    apply reconcile_cases in Hr as [[_ ->]|[_ ->]]; rewrite Hw2; [by destruct (w_store w1)|].
    rewrite Hw1. eapply Hagain; try done. left. apply lookup_delete_eq. }
  apply ask_Ok_alone in Hr as (r' & [= Hr] & Hw2).
  apply reconcile_cases in Hr as [[-> ->]|[-> ->]]; cbn in Hrun.
  { injection Hrun as <- <-. rewrite Hw2. by destruct (w_store w1). }
  eapply promote_alone in Hrun as [[Hw' [e ->]]|(ownership & Hw' & Hpub)];
    [| |by rewrite Hw2, Hw1; exact Hown].
  - rewrite Hw', Hw2, Hw1. eapply Hagain; try done. left. apply lookup_delete_eq.
  - assert (cls_locks (pub_locks (w_store w')) = put_lock w0 creator id lock
            ∧ undeleted_key (w_store w') (creator, id)
            ∧ del_intents (pub_repo (w_store w')) !! (creator, id) = None) as (Hl & Hu & Hn).
    { rewrite Hw', Hw2, Hw1. split_and!; [done|done|apply lookup_delete_eq]. }
    destruct res; [by split; [apply Hresolved|]|]. eapply Hagain; try done. by left.
Qed.

Lemma publish_with_token_alone creator id lock requested paths token compensate w res w' :
  lock_id lock = Some id → lock = with_created_at requested (cl_created_at lock) →
  del_intents (pub_repo (w_store w)) !! (creator, id)
    = Some (MkPublicationIntent token false lock) →
  owned (w_store w) creator id OwnershipReserved paths → undeleted_key (w_store w) (creator, id) →
  publish_with_token creator id lock paths token compensate w = (res, w') →
  match res with
  | Ok _ => published (w_store w') creator paths requested id lock
  | Err _ => left_behind (w_store w) (w_store w') creator paths requested token
  end.
Proof.
  intros Hid Hsame Hi Hown Hund Hrun. unfold publish_with_token in Hrun.
  assert (content_lock_path lock = Some (ContentLockPath_from_lock_id id)) as Hpath
    by (unfold content_lock_path; by rewrite Hid).
  rewrite Hpath in Hrun. cbn [ok_or run_lift] in Hrun.
  apply run_bind_inv in Hrun as [(e & [=] & _)|(path & w1 & [= <- <-] & Hrun)].
  apply run_bind_inv in Hrun as [(e & Hw & _)|(written & w1 & Hw & Hrun)].
  { unfold write_lock in Hw. by destruct (cls_upsert _ _ _ _ _). }
  apply write_alone in Hw as [Hrepo Hw]. destruct written as [[]|[e|e]].
  - eapply publish_after_write; try done; unfold owned, undeleted_key; by rewrite Hrepo.
  - destruct compensate; cbn [negb] in Hrun;
      apply run_bind_inv in Hrun as [(e' & Ha & ->)|(b & w2 & Ha & Hrun)];
      (eapply keeps_locks in Ha; [|apply moves_retry; [apply _|apply ask_keeps_locks]]);
      try (destruct b; injection Hrun as <- <-); left; by rewrite Ha.
  - injection Hrun as <- <-. destruct Hw as [Hw|Hw]; [by left|]. right. exists id, lock.
    split; [done|]. left. unfold owned. by rewrite Hrepo.
Qed.

Lemma publish_lock_alone creator id path lock requested paths newly token w res w' :
  lock_id lock = Some id → lock = with_created_at requested (cl_created_at lock) →
  (if newly : bool
   then ∀ p, p ∈ paths → del_ownership (pub_repo (w_store w)) !! (creator, p) = None
   else owned (w_store w) creator id OwnershipReserved paths) →
  publish_lock creator id path lock paths newly token w = (res, w') →
  match res with
  | Ok c => c = MkCreated id path lock ∧ published (w_store w') creator paths requested id lock
  | Err _ => left_behind (w_store w) (w_store w') creator paths requested token
  end.
Proof.
  intros Hid Hsame Hpre Hrun. unfold publish_lock in Hrun.
  apply run_bind_inv in Hrun as [(e & Hr & ->)|([] & w1 & Hr & Hrun)].
  { destruct newly; [|done]. left. eapply keeps_locks in Hr; [done|apply ask_keeps_locks]. }
  assert (pub_locks (w_store w1) = pub_locks (w_store w)
          ∧ owned (w_store w1) creator id OwnershipReserved paths) as [Hl1 Hown].
  { destruct newly; [|by injection Hr as <-]. apply ask_Ok_alone in Hr as (r' & Hr & ->).
    apply fmap_Ok in Hr as (o & Hr & [= ->]). apply reserve_paths_spec in Hr as [_ Hr].
    split; [done|]. intros p Hp. cbn. rewrite Hr, Hpre, decide_True by done. eauto. }
  apply run_bind_inv in Hrun as [(e & Hb & _)|(begun & w2 & Hb & Hrun)].
  { unfold attempt in Hb. by destruct (ask _ _). }
  unfold attempt in Hb. destruct (ask _ w1) as [rb wb] eqn:Ha. injection Hb as <- <-.
  destruct rb as [[]|e].
  - apply ask_Ok_alone in Ha as (r' & Ha & Hwb). apply fmap_Ok in Ha as (r2 & Hb & [= ->]).
    unfold begin_publication in Hb. apply bind_Ok in Hb as ([] & _ & Hb).
    apply bind_Ok in Hb as ([] & Hno%reject_if_Ok & Hb). apply bind_Ok in Hb as ([] & _ & Hb).
    injection Hb as <-. unfold has_job, has_receipt in Hno. props.
    apply run_bind_inv in Hrun as [(e & Hp & ->)|([] & w3 & Hp & Hrun)].
    all: eapply publish_with_token_alone in Hp; [|done|done|..];
      try (rewrite Hwb; first [done|apply lookup_insert_eq|by split]).
    + unfold left_behind, put_lock in *. by rewrite Hwb, Hl1 in Hp.
    + by injection Hrun as <- <-.
  - eapply keeps_locks in Ha; [|apply ask_keeps_locks].
    assert (∀ r w3, (if newly then attempt (ask_ownership
              (λ o, Ok (compensate_reserved_paths o creator paths id))) else run_ret (Ok ())) wb
              = (r, w3) → cls_locks (pub_locks (w_store w3)) = cls_locks (pub_locks (w_store wb)))
      as Hk.
    { intros r w3. apply keeps_locks. destruct newly; [|apply moves_ret; apply _].
      apply moves_attempt. apply ask_keeps_locks. }
    apply run_bind_inv in Hrun as [(e' & Hc & ->)|(x & w3 & Hc & Hrun)]; apply Hk in Hc;
      try injection Hrun as <- <-; left; by rewrite Hc, Ha, Hl1.
Qed.

(** ** The whole use case *)

Lemma resolved_store s s' creator paths requested id lock status status' :
  resolved s creator paths requested id lock status →
  cls_locks (pub_locks s') = cls_locks (pub_locks s) → undeleted_key s' (creator, id) →
  owned s' creator id status' paths →
  resolved s' creator paths requested id lock status'.
Proof. intros [] Hl ? ?. split; try done. by rewrite Hl. Qed.

Lemma finish_recovered_alone creator id path lock requested paths status w res w' :
  resolved (w_store w) creator paths requested id lock status →
  finish_recovered creator id path lock paths status w = (res, w') →
  match res with
  | Ok c => c = MkCreated id path lock ∧ published (w_store w') creator paths requested id lock
  | Err _ => cls_locks (pub_locks (w_store w')) = cls_locks (pub_locks (w_store w))
  end.
Proof.
  intros Hres Hrun. unfold finish_recovered in Hrun.
  apply run_bind_inv in Hrun as [(e & Hr & ->)|(b & w1 & Hr & Hrun)].
  { by eapply keeps_locks in Hr; [|apply ask_keeps_locks]. }
  apply ask_Ok_alone in Hr as (r' & [= Hr] & Hw1).
  apply reconcile_cases in Hr as [[-> ->]|[-> ->]]; cbn in Hrun.
  { injection Hrun as <- <-. by rewrite Hw1. }
  assert (owned (w_store w1) creator id status paths) as Hown
    by (rewrite Hw1; apply (rv_owned _ _ _ _ _ _ _ Hres)).
  assert (undeleted_key (w_store w1) (creator, id)) as Hund
    by (rewrite Hw1; apply (rv_undeleted _ _ _ _ _ _ _ Hres)).
  assert (del_intents (pub_repo (w_store w1)) !! (creator, id) = None) as Hno
    by (rewrite Hw1; apply lookup_delete_eq).
  assert (pub_locks (w_store w1) = pub_locks (w_store w)) as Hl by (by rewrite Hw1).
  apply run_bind_inv in Hrun as [(e & Hm & ->)|([] & w2 & Hm & Hrun)].
  { destruct status; [|done]. eapply keeps_locks in Hm; [|apply ask_keeps_locks]. by rewrite Hm, Hl. }
  injection Hrun as <- <-. split; [done|]. destruct status; cbn in Hm.
  - eapply promote_alone in Hm as [[_ [e [=]]]|(o & Hw2 & Hpub)]; [|done].
    split; [eapply resolved_store; try done; by rewrite Hw2, ?Hl|by rewrite Hw2].
  - injection Hm as <-. split; [|done]. eapply resolved_store; try done. by rewrite Hl.
Qed.

(** The guarded paths of a request. *)
Definition request_paths (request : CreateContentLockRequest) : list string :=
  gr_path <$> resource_descriptors (requested_lock request 0).

Lemma identify_Ok lock id path :
  identify lock = Ok (id, path) →
  lock_id lock = Some id ∧ path = ContentLockPath_from_lock_id id.
Proof.
  intros Hi. unfold identify, frozen_lock_id in Hi.
  apply bind_Ok in Hi as (id' & Hi'%ok_or_Ok & Hi). apply bind_Ok in Hi as (p & Hp%ok_or_Ok & Hi).
  unfold content_lock_path in Hp. rewrite Hi' in Hp. by simplify_eq/=.
Qed.

Lemma resume_alone creator paths requested token id lock status recovered w res w' :
  resolved (w_store w) creator paths requested id lock status →
  match recovered with
  | Some rec => ∃ tok, rec = RecoveryWriteCompleted tok lock
      ∧ del_intents (pub_repo (w_store w)) !! (creator, id) = Some (MkPublicationIntent tok true lock)
  | None => del_intents (pub_repo (w_store w)) !! (creator, id) = None
  end →
  resume creator paths token lock status recovered w = (res, w') →
  match res with
  | Ok c => c = MkCreated id (ContentLockPath_from_lock_id id) lock
            ∧ published (w_store w') creator paths requested id lock
  | Err _ => left_behind (w_store w) (w_store w') creator paths requested token
  end.
Proof.
  intros Hres Hint Hrun. pose proof Hres as [Hid Hsame _ Hown _]. unfold resume in Hrun.
  apply run_bind_inv in Hrun as [(e & [= _ <-] & ->)|([id' path] & w1 & [= Hi <-] & Hrun)]; [by left|].
  apply identify_Ok in Hi as [Hi ->]. rewrite Hid in Hi. injection Hi as <-. cbn [fst snd] in Hrun.
  apply run_bind_inv in Hrun as [(e & Hrec & ->)|(recovery & w1 & Hrec & Hrun)].
  { destruct recovered; [done|]. eapply keeps_locks in Hrec; [|apply ask_keeps_locks]. by left. }
  assert (w_store w1 = w_store w
          ∧ match recovered with
            | Some rec => recovery = rec
            | None => recovery = RecoveryNone
            end) as [Hw1 Hrecovery].
  { destruct recovered; [by injection Hrec as <- <-|].
    apply recover_alone in Hrec as (Hw1 & _ & Hrec). split; [done|].
    rewrite Hint in Hrec. by destruct recovery as [| | |]; [|destruct Hrec..]. }
  destruct recovered as [rec|]; subst recovery.
  - destruct Hint as (tok & -> & Hint). eapply finish_recovered_alone in Hrun; [|by rewrite Hw1].
    destruct res; [done|]. left. by rewrite Hrun, Hw1.
  - rewrite <- Hw1 in Hres, Hint. destruct status; cbn in Hrun.
    + eapply publish_lock_alone in Hrun; [|done|done|by rewrite Hw1]. by rewrite Hw1 in Hrun.
    + injection Hrun as <- <-. by split.
Qed.

Lemma create_alone request token w res w' :
  create_content_lock request token w = (res, w') →
  match res with
  | Ok c =>
      validate_resource_set (created_content_lock c) = Ok ()
      ∧ validate_paykit_payment_v1_policy (created_content_lock c) = Ok ()
      ∧ created_content_lock_path c = ContentLockPath_from_lock_id (created_lock_id c)
      ∧ published (w_store w') (ccl_creator request) (request_paths request)
          (requested_lock request 0) (created_lock_id c) (created_content_lock c)
  | Err _ => left_behind (w_store w) (w_store w') (ccl_creator request) (request_paths request)
               (requested_lock request 0) token
  end.
Proof.
  intros Hrun. unfold create_content_lock in Hrun. cbn zeta in Hrun.
  apply run_bind_inv in Hrun as [(e & [=] & _)|(at_ & w1 & [= <- <-] & Hrun)].
  set (requested := requested_lock request _) in *.
  apply run_bind_inv in Hrun as [(e & [= _ <-] & ->)|([] & w1 & [= Hset <-] & Hrun)]; [by left|].
  apply run_bind_inv in Hrun as [(e & [= _ <-] & ->)|([] & w1 & [= _ <-] & Hrun)]; [by left|].
  apply run_bind_inv in Hrun as [(e & [= _ <-] & ->)|([] & w1 & [= Hpol <-] & Hrun)]; [by left|].
  apply map_err_Ok in Hset, Hpol.
  assert (∀ lock, lock = with_created_at requested (cl_created_at lock) →
            validate_resource_set lock = Ok () ∧ validate_paykit_payment_v1_policy lock = Ok ())
    as Hvalid by (intros lock ->; by split).
  apply run_bind_inv in Hrun as [(e & Hc & ->)|([] & w2 & Hc & Hrun)];
    eapply quiet_same in Hc; try (apply moves_check_resources; apply _).
  { left. by rewrite Hc. }
  apply run_bind_inv in Hrun as [(e & Hr & ->)|(found & w3 & Hr & Hrun)].
  { eapply quiet_same in Hr; [|by apply moves_resolve; [apply _|]]. left. by rewrite Hr, Hc. }
  pose proof Hr as Hspec. apply resolve_alone in Hspec.
  eapply quiet_same in Hr; [|by apply moves_resolve; [apply _|]]. rewrite Hc in Hspec, Hr.
  cbn [w_store] in Hspec, Hr. destruct found as [[[lock status] recovered]|].
  - destruct Hspec as (id & Hres & Hint). rewrite <- Hr in Hres, Hint.
    assert (resolved (w_store w3) (ccl_creator request) (request_paths request)
              (requested_lock request 0) id lock status) as Hres' by (by destruct Hres).
    eapply resume_alone in Hrun; [|exact Hres'|done]. destruct res as [c|]; [|rewrite Hr in Hrun; exact Hrun].
    destruct Hrun as [-> Hp].
    destruct (Hvalid _ (rv_same _ _ _ _ _ _ _ Hres)). split_and!; [done|done|done|exact Hp].
  - apply run_bind_inv in Hrun as [(e & [= _ <-] & ->)|([id path] & w4 & [= Hi <-] & Hrun)];
      [left; by rewrite Hr|].
    apply identify_Ok in Hi as [Hi ->].
    eapply (publish_lock_alone _ _ _ _ (requested_lock request 0)) in Hrun;
      [|exact Hi|done|cbn; by rewrite Hr].
    destruct res as [c|]; [|rewrite Hr in Hrun; exact Hrun]. destruct Hrun as [-> Hp].
    destruct (Hvalid requested eq_refl). split_and!; [done|done|done|exact Hp].
Qed.
End alone.

(** * Runs in which every call is answered *)

Section answered.
  Context (Hothers : ∀ n s, s = others n s) `{!ContentLockStoreLaws L}.
  Context (Hfates : ∀ n, fates n = Delivered).
  Context (Hget : ∀ n l creator path, is_ok (cls_get n l creator path) = true).

(** From the state [s] the run has the result [res] and leaves a state in [P]. *)
Definition yields {A} (m : CreateRun A) (s : PublishingState L) (res : result ApplicationError A)
    (P : PublishingState L → Prop) : Prop :=
  ∀ w, w_store w = s → ∃ w', m w = (res, w') ∧ P (w_store w').
Abbreviation answers m s a P := (yields m s (Ok a) P).

Lemma answers_ret {A} (a : A) s (P : PublishingState L → Prop) : P s → answers (run_ret a) s a P.
Proof. intros HP w Hw. exists w. by rewrite Hw. Qed.
Lemma answers_lift {A} (a : A) r s (P : PublishingState L → Prop) :
  r = Ok a → P s → answers (run_lift r) s a P.
Proof. intros -> HP w Hw. exists w. by rewrite Hw. Qed.

Lemma answers_bind {A B} (f : A → CreateRun B) (m : CreateRun A) s a P res Q :
  answers m s a P → (∀ s1, P s1 → yields (f a) s1 res Q) → yields (run_bind f m) s res Q.
Proof.
  intros Hm Hf w Hw. destruct (Hm w Hw) as (w1 & Hw1 & Hs1).
  destruct (Hf _ Hs1 w1 eq_refl) as (w2 & Hw2 & Hs2). exists w2. split; [|done].
  unfold run_bind. by rewrite Hw1.
Qed.

Lemma answers_ask {A} (op : DeletionRepo → result ApplicationError (A * DeletionRepo)) s a r'
    (P : PublishingState L → Prop) :
  op (pub_repo s) = Ok (a, r') → P (MkPublishing r' (pub_locks s)) → answers (ask op) s a P.
Proof.
  intros Hop HP w <-. unfold ask. rewrite <- Hothers, Hfates, Hop. by eexists.
Qed.

Lemma answers_look {A} (op : DeletionRepo → result ApplicationError (A * DeletionRepo)) s a
    (P : PublishingState L → Prop) :
  op (pub_repo s) = Ok (a, pub_repo s) → P s → answers (ask op) s a P.
Proof. intros Hop HP. eapply answers_ask; [done|]. by destruct s. Qed.

Lemma answers_attempt {A} (m : CreateRun A) s a P : answers m s a P → answers (attempt m) s (Ok a) P.
Proof.
  intros Hm w Hw. destruct (Hm w Hw) as (w' & Hr & Hs). exists w'. unfold attempt. by rewrite Hr.
Qed.

Lemma answers_retry {A} attempts (m : CreateRun A) s a P :
  answers m s a P → answers (with_retry attempts m) s a P.
Proof.
  intros Hm w Hw. destruct (Hm w Hw) as (w' & Hr & Hs). exists w'. by destruct attempts; cbn; rewrite Hr.
Qed.

Lemma answers_ownership op s ownership (P : PublishingState L → Prop) :
  op (del_ownership (pub_repo s)) = Ok ownership →
  P (MkPublishing (del_with_ownership (pub_repo s) ownership) (pub_locks s)) →
  answers (ask_ownership op) s () P.
Proof. intros Hop HP. eapply answers_ask; [by rewrite Hop|done]. Qed.

Lemma answers_read_ownership creator paths s (P : PublishingState L → Prop) :
  P s → answers (read_ownership creator paths) s
          ((λ p, del_ownership (pub_repo s) !! (creator, p)) <$> paths) P.
Proof.
  revert P. induction paths as [|p paths IH]; intros P HP; [by apply answers_ret|].
  cbn [read_ownership]. eapply (answers_bind _ _ _ _ (λ s1, s1 = s)); [apply answers_look; reflexivity|].
  intros s1 ->. eapply (answers_bind _ _ _ _ (λ s1, s1 = s)); [by apply IH|].
  intros s1 ->. by apply answers_ret.
Qed.

Lemma answers_read_lock creator path s (P : PublishingState L → Prop) :
  P s → answers (read_lock creator path) s (cls_locks (pub_locks s) !! (creator, path)) P.
Proof.
  intros HP w <-. unfold read_lock, put_repo. rewrite <- Hothers.
  specialize (Hget (w_ticks w) (pub_locks (w_store w)) creator path).
  apply is_ok_true in Hget as [o Ho]. rewrite Ho. apply cls_get_Ok in Ho as ->.
  eexists. split; [done|]. by destruct (w_store w).
Qed.

Definition writes_answered : Prop :=
  ∀ n l creator path lock, (cls_upsert n l creator path lock).1 = Ok ().

Lemma answers_write_lock creator path lock s (P : PublishingState L → Prop) :
  writes_answered →
  (∀ l', P (MkPublishing (pub_repo s) l')) → answers (write_lock creator path lock) s (Ok ()) P.
Proof.
  intros Hput HP w <-. unfold write_lock. rewrite <- Hothers.
  specialize (Hput (w_ticks w) (pub_locks (w_store w)) creator path lock).
  destruct (cls_upsert _ _ _ _ _) as [r l']. cbn in Hput. subst r. eexists. split; [done|apply HP].
Qed.

(** ** The paths of a valid lock *)

Lemma descriptor_paths lock : gr_path <$> resource_descriptors lock = publication_guarded_paths lock.
Proof.
  unfold resource_descriptors, publication_guarded_paths. rewrite fmap_app. f_equal.
  - by destruct (cl_primary_resource lock).
  - rewrite <- list_fmap_compose. by apply list_fmap_ext; intros ? [] ?.
Qed.

Lemma valid_paths lock :
  validate_resource_set lock = Ok () →
  publication_guarded_paths lock ≠ [] ∧ NoDup (publication_guarded_paths lock).
Proof.
  intros Hv. unfold validate_resource_set in Hv. apply bind_Ok in Hv as (? & Hne & Hv).
  apply bind_Ok in Hv as ([] & Hp & _). apply reject_if_Ok, resource_count_zero in Hne.
  apply primary_check_ok in Hp as [_ Hd]. unfold publication_guarded_paths.
  assert (NoDup (btree_iter (cl_secondary_resources lock)).*1) as Hnd.
  { rewrite btree_iter_perm. apply NoDup_fst_map_to_list. }
  destruct (cl_primary_resource lock) as [r|]; cbn.
  - split; [done|]. constructor; [|done]. rewrite list_elem_of_fmap.
    intros ([p sec] & Hp & Hin). apply elem_of_btree_iter in Hin. cbn in Hp. subst p.
    by rewrite (Hd r eq_refl) in Hin.
  - split; [|done]. destruct Hne as [[? [=]]|Hne]. intros Hnil%fmap_nil_inv%btree_iter_nil. done.
Qed.

(** ** Recovery and publication go through *)

(** The intent stands, but its write is recorded. *)
Definition recovery_of (s : PublishingState L) (key : CreatorPubky * LockId) :
    option PublicationRecovery :=
  (λ i, RecoveryWriteCompleted (pi_token i) (pi_original_content_lock i))
    <$> del_intents (pub_repo s) !! key.

Lemma identified creator requested id lock :
  cl_creator requested = creator → lock_id lock = Some id →
  lock = with_created_at requested (cl_created_at lock) → lock_identified creator id lock = true.
Proof.
  intros Hc Hid Hsame. unfold lock_identified. rewrite Hid. cbn. rewrite eqb_same, andb_true_r.
  apply eqb_true. by rewrite Hsame.
Qed.

Lemma recover_resolved s creator paths requested id lock status any :
  cl_creator requested = creator → resolved s creator paths requested id lock status →
  intent_cleared s (creator, id) lock → lock = with_created_at any (cl_created_at lock) →
  recover_publication (pub_repo s) creator id any
  = Ok (default RecoveryNone (recovery_of s (creator, id))).
Proof.
  intros Hc [Hid Hsame _ _ [Hj Hr]] Hi Hany. unfold recover_publication, has_job, has_receipt, recovery_of.
  rewrite Hj, Hr. cbn. destruct Hi as [-> | [token ->]]; [done|]. cbn.
  unfold publication_intent_matches_request. rewrite (identified _ requested) by done. cbn.
  by rewrite <- Hany, eqb_same.
Qed.

(** The checks of the ownership records pass for paths that a lock owns. *)
Lemma owned_checks s creator paths id status :
  paths ≠ [] → owned s creator id status paths →
  let ownership := (λ p, del_ownership (pub_repo s) !! (creator, p)) <$> paths in
  first_owner ownership = Some id
  ∧ try_for_each
      (λ '(path, record), reject_if (negb (owned_by id record)) (ContentLockPathConflict path))
      (zip paths ownership) = Ok ()
  ∧ negb (forallb (has_status OwnershipPublished) ownership)
    && negb (forallb (has_status OwnershipReserved) ownership) = false
  ∧ (if forallb (has_status OwnershipPublished) ownership
     then OwnershipPublished else OwnershipReserved) = status
  ∧ forallb is_none ownership = false.
Proof.
  intros Hne Hown ownership.
  assert (∀ r, r ∈ ownership → ∃ o, r = Some o ∧ own_lock_id o = id ∧ own_status o = status) as Hall.
  { intros r (p & -> & Hp)%list_elem_of_fmap. by apply Hown. }
  assert (∀ st, st = status → forallb (has_status st) ownership = true) as Hst.
  { intros st ->. apply forallb_forall. intros r (o & -> & _ & <-)%list_elem_of_In%Hall.
    unfold has_status. cbn. apply eqb_same. }
  destruct paths as [|p paths]; [done|].
  destruct (Hown p) as (o & Ho & Hid & Hos); [set_solver|].
  assert (∀ st, st ≠ status → forallb (has_status st) ownership = false) as Hst'.
  { intros st Hne'. cbn. rewrite Ho. cbn. by rewrite (proj2 (eqb_false _ _)) by congruence. }
  split_and!.
  - cbn. by rewrite Ho; cbn; rewrite Hid.
  - apply try_for_each_Ok, Forall_forall. intros [q r] Hin. apply reject_if_Ok.
    apply elem_of_zip_r in Hin. destruct (Hall r Hin) as (o' & -> & <- & _).
    unfold owned_by. cbn. by rewrite eqb_same.
  - destruct status; [rewrite (Hst OwnershipReserved) by done|rewrite (Hst OwnershipPublished) by done];
      by rewrite ?andb_false_r.
  - destruct status; [by rewrite (Hst' OwnershipPublished)|by rewrite (Hst OwnershipPublished)].
  - cbn. by rewrite Ho.
Qed.

Lemma answers_resolve s creator paths requested id lock status :
  cl_creator requested = creator → paths ≠ [] →
  resolved s creator paths requested id lock status → intent_cleared s (creator, id) lock →
  answers (resolve_owned_content_lock creator paths requested) s
    (Some (lock, status, recovery_of s (creator, id))) (λ s1, s1 = s).
Proof.
  intros Hc Hne Hres Hi. pose proof Hres as [Hid Hsame Hpub Hown _].
  unfold resolve_owned_content_lock. cbn zeta.
  eapply (answers_bind _ _ _ _ (λ s1, s1 = s)); [by apply answers_read_ownership|]. intros s1 ->.
  destruct (owned_checks _ _ _ _ _ Hne Hown) as (-> & Hall & Huni & Hstatus & Hnone).
  eapply (answers_bind _ _ _ () (λ s1, s1 = s)); [by apply answers_lift|]. intros s1 ->.
  eapply (answers_bind _ _ _ () (λ s1, s1 = s)); [by apply answers_lift; [apply reject_if_Ok|]|].
  intros s1 ->. rewrite Hstatus.
  eapply (answers_bind _ _ _ _ (λ s1, s1 = s)).
  { apply answers_look; [|done]. by rewrite (recover_resolved s creator paths requested id lock status). }
  intros s1 ->. unfold recovery_of. destruct Hi as [-> | [token ->]]; cbn.
  - eapply (answers_bind _ _ _ _ (λ s1, s1 = s)); [by apply answers_read_ownership|]. intros s1 ->.
    rewrite Hnone, eqb_same. cbn.
    eapply (answers_bind _ _ _ _ (λ s1, s1 = s)); [by apply answers_read_lock|]. intros s1 ->.
    eapply (answers_bind _ _ _ _ (λ s1, s1 = s)); [apply answers_lift; [by rewrite Hpub|done]|].
    intros s1 ->.
    eapply (answers_bind _ _ _ _ (λ s1, s1 = s));
      [apply answers_lift; [unfold frozen_lock_id; by rewrite Hid|done]|].
    intros s1 ->. rewrite <- Hsame, !eqb_same. cbn. by apply answers_ret.
  - eapply (answers_bind _ _ _ _ (λ s1, s1 = s)); [by apply answers_read_lock|]. intros s1 ->.
    rewrite Hpub. cbn. rewrite eqb_same. cbn. by apply answers_ret.
Qed.

Lemma answers_resolve_free s creator paths requested :
  (∀ p, p ∈ paths → del_ownership (pub_repo s) !! (creator, p) = None) →
  answers (resolve_owned_content_lock creator paths requested) s None (λ s1, s1 = s).
Proof.
  intros Hfree. unfold resolve_owned_content_lock. cbn zeta.
  eapply (answers_bind _ _ _ _ (λ s1, s1 = s)); [by apply answers_read_ownership|]. intros s1 ->.
  assert (first_owner ((λ p, del_ownership (pub_repo s) !! (creator, p)) <$> paths) = None) as ->;
    [|by apply answers_ret].
  induction paths as [|p paths IH]; [done|]. cbn. rewrite Hfree by set_solver. apply IH. set_solver.
Qed.

Lemma reconcile_written r creator requested id lock token paths :
  cl_creator requested = creator → lock_id lock = Some id →
  lock = with_created_at requested (cl_created_at lock) →
  del_intents r !! (creator, id) = Some (MkPublicationIntent token true lock) →
  paths = publication_guarded_paths lock → NoDup paths →
  reconcile_publication r creator id lock paths
  = (true, del_with_intents r (delete (creator, id) (del_intents r))).
Proof.
  intros Hc Hid Hsame Hi -> Hnd. unfold reconcile_publication, publication_reconciliation_matches.
  rewrite (identified creator requested), Hi by done. cbn.
  rewrite size_list_to_set, Nat.eqb_refl, !eqb_same by done. done.
Qed.

Lemma promote_written ownership creator id paths :
  (∀ p, p ∈ paths → ∃ o, ownership !! (creator, p) = Some o ∧ own_lock_id o = id) →
  ∃ ownership', mark_paths_published ownership creator paths id = Ok ownership'.
Proof.
  intros Hown. unfold mark_paths_published.
  match goal with |- ∃ o, mbind _ ?c = _ => assert (c = Ok ()) as -> end; [|by eexists].
  apply try_for_each_Ok, Forall_forall. intros p Hp. destruct (Hown p Hp) as (o & -> & <-).
  apply reject_if_Ok. by rewrite eqb_same.
Qed.

(** The intent of a running publication, and its reserved paths. *)
Definition intended (s : PublishingState L) (creator : CreatorPubky) (id : LockId)
    (lock : ContentLock) (paths : list string) (token : Uuid) (written : bool) : Prop :=
  owned s creator id OwnershipReserved paths
  ∧ del_intents (pub_repo s) !! (creator, id) = Some (MkPublicationIntent token written lock).

Lemma answers_reserve s creator id paths (P : PublishingState L → Prop) :
  (∀ p, p ∈ paths → del_ownership (pub_repo s) !! (creator, p) = None) →
  (∀ ownership, (∀ key, ownership !! key =
      match del_ownership (pub_repo s) !! key with
      | Some o => Some o
      | None => if decide (key.1 = creator ∧ key.2 ∈ paths)
                then Some (MkOwnership creator key.2 id OwnershipReserved) else None
      end) →
     P (MkPublishing (del_with_ownership (pub_repo s) ownership) (pub_locks s))) →
  answers (ask_ownership (λ o, reserve_paths o creator paths id)) s () P.
Proof.
  intros Hfree HP.
  destruct (reserve_paths (del_ownership (pub_repo s)) creator paths id) as [o|e] eqn:Hres.
  - eapply answers_ownership; [done|]. apply reserve_paths_spec in Hres as [_ Hres]. by apply HP.
  - exfalso. unfold reserve_paths in Hres.
    rewrite (proj2 (reserve_paths_checks _ _ _ _)) in Hres; [done|].
    apply Forall_forall. intros p Hp. unfold free_for. by rewrite Hfree.
Qed.

Lemma answers_begin s creator requested id lock token (P : PublishingState L → Prop) :
  cl_creator requested = creator → lock_id lock = Some id →
  lock = with_created_at requested (cl_created_at lock) →
  undeleted_key s (creator, id) → del_intents (pub_repo s) !! (creator, id) = None →
  P (set_intents s (<[(creator, id) := MkPublicationIntent token false lock]>
                      (del_intents (pub_repo s)))) →
  answers (ask (λ r, (λ r', ((), r')) <$> begin_publication r creator id token lock)) s () P.
Proof.
  intros Hc Hid Hsame [Hj Hr] Hi HP. eapply answers_ask; [|exact HP].
  unfold begin_publication, publication_intent_matches_request, has_job, has_receipt, has_intent.
  rewrite (identified creator requested), Hj, Hr, Hi by done. cbn.
  by rewrite (proj2 (eqb_true _ _)) by (by destruct lock).
Qed.

Lemma answers_publish_with_token s creator requested id lock paths token compensate :
  writes_answered →
  cl_creator requested = creator → lock_id lock = Some id →
  lock = with_created_at requested (cl_created_at lock) →
  paths = publication_guarded_paths lock → NoDup paths →
  intended s creator id lock paths token false →
  answers (publish_with_token creator id lock paths token compensate) s () (λ _, True).
Proof.
  intros Hput Hc Hid Hsame Hpaths Hnd HQ. unfold publish_with_token.
  eapply (answers_bind _ _ _ _ (λ s1, intended s1 creator id lock paths token false)).
  { apply answers_lift; [|done]. unfold content_lock_path. by rewrite Hid. }
  clear s HQ. intros s HQ.
  eapply (answers_bind _ _ _ (Ok ()) (λ s1, intended s1 creator id lock paths token false));
    [by apply answers_write_lock|].
  clear s HQ. intros s [Hown Hi].
  eapply (answers_bind _ _ _ true (λ s1, intended s1 creator id lock paths token true)).
  { apply answers_retry. eapply answers_ask.
    - unfold mark_publication_written. rewrite Hi. cbn. by rewrite Z.eqb_refl.
    - split; [done|]. apply lookup_insert_eq. }
  clear s Hown Hi. intros s [Hown Hi]. cbn [negb].
  eapply (answers_bind _ _ _ true (λ s1, owned s1 creator id OwnershipReserved paths)).
  { eapply answers_ask; [f_equal; by eapply reconcile_written|done]. }
  clear s Hown Hi. intros s Hown. cbn [negb].
  destruct (promote_written (del_ownership (pub_repo s)) creator id paths) as [o Ho].
  { intros p Hp. destruct (Hown p Hp) as (x & ? & ? & _). eauto. }
  by eapply answers_ownership.
Qed.

Lemma answers_publish_lock s creator path requested id lock paths (newly : bool) token :
  writes_answered →
  cl_creator requested = creator → lock_id lock = Some id →
  lock = with_created_at requested (cl_created_at lock) →
  paths = publication_guarded_paths lock → NoDup paths →
  undeleted_key s (creator, id) → del_intents (pub_repo s) !! (creator, id) = None →
  (if newly
   then ∀ p, p ∈ paths → del_ownership (pub_repo s) !! (creator, p) = None
   else owned s creator id OwnershipReserved paths) →
  answers (publish_lock creator id path lock paths newly token) s (MkCreated id path lock)
    (λ _, True).
Proof.
  intros Hput Hc Hid Hsame Hpaths Hnd Hund Hi Hpre. unfold publish_lock.
  eapply (answers_bind _ _ _ () (λ s1 : PublishingState L,
    owned s1 creator id OwnershipReserved paths ∧ undeleted_key s1 (creator, id)
    ∧ del_intents (pub_repo s1) !! (creator, id) = None)).
  { destruct newly; [|by apply answers_ret]. apply answers_reserve; [done|].
    intros o Ho. split_and!; [|done|done]. intros p Hp. cbn. rewrite Ho, Hpre, decide_True by done.
    eauto. }
  clear s Hund Hi Hpre. intros s (Hown & Hund & Hi).
  eapply (answers_bind _ _ _ (Ok ()) (λ s1, intended s1 creator id lock paths token false)).
  { apply answers_attempt. eapply answers_begin; try done. split; [done|]. apply lookup_insert_eq. }
  clear s Hown Hund Hi. intros s HQ.
  eapply (answers_bind _ _ _ () (λ _, True)); [by eapply answers_publish_with_token|].
  intros. by apply answers_ret.
Qed.

Lemma answers_finish_recovered s creator path paths requested id lock status token :
  cl_creator requested = creator → paths = publication_guarded_paths lock → NoDup paths →
  resolved s creator paths requested id lock status →
  del_intents (pub_repo s) !! (creator, id) = Some (MkPublicationIntent token true lock) →
  answers (finish_recovered creator id path lock paths status) s (MkCreated id path lock)
    (λ _, True).
Proof.
  intros Hc Hpaths Hnd [Hid Hsame _ Hown _] Hi. unfold finish_recovered.
  eapply (answers_bind _ _ _ true (λ s1, owned s1 creator id status paths)).
  { eapply answers_ask; [f_equal; by eapply reconcile_written|done]. }
  clear s Hown Hi. intros s Hown. cbn [negb].
  eapply (answers_bind _ _ _ () (λ _, True)); [|by intros; apply answers_ret].
  destruct (status == _); [|by apply answers_ret].
  destruct (promote_written (del_ownership (pub_repo s)) creator id paths) as [o Ho].
  { intros p Hp. destruct (Hown p Hp) as (x & ? & ? & _). eauto. }
  by eapply answers_ownership.
Qed.

(** ** The use case goes through *)

Definition current_is (current : GuardedResourceRecord) (d : GuardedResource) : Prop :=
  grr_hash current = gr_hash d ∧ grr_content_type current = gr_content_type d
  ∧ grr_size current = gr_size d.

(** The request passes the checks: the lock is valid and its descriptors are those
    of the stored resources. *)
Record acceptable (request : CreateContentLockRequest) : Prop := {
  acc_set : validate_resource_set (requested_lock request 0) = Ok ();
  acc_criteria : validate_criterion_params (requested_lock request 0) = Ok ();
  acc_policy : validate_paykit_payment_v1_policy (requested_lock request 0) = Ok ();
  acc_current : ∀ n d, d ∈ resource_descriptors (requested_lock request 0) →
    ∃ current, get_current_guarded_resource n (ccl_creator request) (gr_path d) = Ok (Some current)
               ∧ current_is current d;
}.

Lemma answers_check_resources creator descriptors s (P : PublishingState L → Prop) :
  (∀ n d, d ∈ descriptors →
     ∃ current, get_current_guarded_resource n creator (gr_path d) = Ok (Some current)
                ∧ current_is current d) →
  P s → answers (check_resources creator descriptors) s () P.
Proof.
  intros Hcur HP. induction descriptors as [|d ds IH]; [by apply answers_ret|].
  intros w Hw. cbn. unfold run_bind, run_lift.
  destruct (Hcur (w_ticks w) d) as (current & -> & Hh & Ht & Hs); [set_solver|]. cbn.
  rewrite Hh, Ht, Hs, !eqb_same, Z.eqb_refl. cbn. apply IH; [|done]. intros n x Hx.
  apply Hcur. set_solver.
Qed.

(** A request the use case can carry out: its paths are free, or an earlier attempt
    has left the lock published with its write recorded. *)
Definition takes_up (s : PublishingState L) (request : CreateContentLockRequest)
    (at_ : OffsetDateTime) (id : LockId) (lock : ContentLock) : Prop :=
  (lock = requested_lock request at_ ∧ lock_id lock = Some id
   ∧ (∀ p, p ∈ request_paths request →
        del_ownership (pub_repo s) !! (ccl_creator request, p) = None)
   ∧ undeleted_key s (ccl_creator request, id)
   ∧ del_intents (pub_repo s) !! (ccl_creator request, id) = None)
  ∨ ∃ status, resolved s (ccl_creator request) (request_paths request) (requested_lock request 0)
                id lock status
              ∧ intent_cleared s (ccl_creator request, id) lock.

Lemma answers_resume s creator paths requested token id lock status :
  writes_answered →
  cl_creator requested = creator → paths = publication_guarded_paths lock → NoDup paths →
  resolved s creator paths requested id lock status → intent_cleared s (creator, id) lock →
  answers (resume creator paths token lock status (recovery_of s (creator, id))) s
    (MkCreated id (ContentLockPath_from_lock_id id) lock) (λ _, True).
Proof.
  intros Hput Hc Hpaths Hnd Hres Hi. pose proof Hres as [Hid Hsame _ Hown Hund]. unfold resume.
  eapply (answers_bind _ _ _ (id, ContentLockPath_from_lock_id id) (λ s1, s1 = s)).
  { apply answers_lift; [|done]. unfold identify, frozen_lock_id, content_lock_path. by rewrite Hid. }
  intros s1 ->. cbn [fst snd].
  eapply (answers_bind _ _ _ (default RecoveryNone (recovery_of s (creator, id))) (λ s1, s1 = s)).
  { destruct (recovery_of s (creator, id)) as [rec|] eqn:Hrec; [by apply answers_ret|].
    apply answers_look; [|done].
    rewrite (recover_resolved s creator paths requested id lock status) by (done || by destruct lock).
    by rewrite Hrec. }
  intros s1 ->. unfold recovery_of. destruct Hi as [Hi|[tok Hi]]; rewrite Hi; cbn.
  - destruct status; cbn; [|by apply answers_ret]. by eapply answers_publish_lock.
  - by eapply answers_finish_recovered.
Qed.

(** What follows the checks of a request. *)
Definition after_checks (request : CreateContentLockRequest) (requested : ContentLock)
    (token : Uuid) : CreateRun CreatedContentLock :=
  resolved ⟵ resolve_owned_content_lock (ccl_creator request) (request_paths request) requested;
  match resolved with
  | None =>
      idp ⟵ run_lift (identify requested);
      publish_lock (ccl_creator request) idp.1 idp.2 requested (request_paths request) true token
  | Some (lock, status, recovered) =>
      resume (ccl_creator request) (request_paths request) token lock status recovered
  end.

Lemma checked_request request token w res P :
  acceptable request →
  yields (after_checks request (requested_lock request (clock (w_ticks w))) token) (w_store w) res P →
  ∃ w', create_content_lock request token w = (res, w') ∧ P (w_store w').
Proof.
  intros [Hset Hcrit Hpol Hcur] Hrest. unfold create_content_lock. cbn zeta.
  set (s := w_store w) in Hrest |- *.
  match goal with |- ∃ w', run_bind ?f (now clock) w = _ ∧ _ =>
    enough (yields (f (clock (w_ticks w))) s res P) as Hall;
    [by destruct (Hall (MkWorld s (w_entitlements w) (w_ticks w + 1)) eq_refl) as (w' & Hw' & ?);
     exists w'|]
  end.
  eapply (answers_bind _ _ _ () (λ s1, s1 = s));
    [apply answers_lift; [by apply map_err_Ok|done]|]. intros s1 ->.
  eapply (answers_bind _ _ _ () (λ s1, s1 = s)); [by apply answers_lift|]. intros s1 ->.
  eapply (answers_bind _ _ _ () (λ s1, s1 = s));
    [apply answers_lift; [by apply map_err_Ok|done]|]. intros s1 ->.
  eapply (answers_bind _ _ _ () (λ s1, s1 = s)); [by apply answers_check_resources|].
  intros s1 ->. exact Hrest.
Qed.

Lemma acceptable_paths request :
  acceptable request →
  request_paths request = publication_guarded_paths (requested_lock request 0)
  ∧ request_paths request ≠ [] ∧ NoDup (request_paths request).
Proof.
  intros Hacc. pose proof (descriptor_paths (requested_lock request 0)) as Hpaths. split; [done|].
  unfold request_paths. rewrite Hpaths. apply valid_paths, (acc_set _ Hacc).
Qed.

Lemma completes_after_checks request token s id lock at_ :
  writes_answered → acceptable request → takes_up s request at_ id lock →
  answers (after_checks request (requested_lock request at_) token) s
    (MkCreated id (ContentLockPath_from_lock_id id) lock) (λ _, True).
Proof.
  intros Hput Hacc Htake. destruct (acceptable_paths _ Hacc) as (Hpaths & Hne & Hnd).
  unfold after_checks. set (requested := requested_lock request at_).
  destruct Htake as [(Hlock & Hid & Hfree & Hund & Hi)|(status & Hres & Hi)].
  - eapply answers_bind; [by apply answers_resolve_free|]. intros s1 ->. subst lock.
    eapply (answers_bind _ _ _ (id, ContentLockPath_from_lock_id id) (λ s1, s1 = s)).
    { apply answers_lift; [|done]. unfold identify, frozen_lock_id, content_lock_path.
      subst requested. by rewrite Hid. }
    intros s1 ->. by eapply (answers_publish_lock _ _ _ (requested_lock request 0)).
  - assert (resolved s (ccl_creator request) (request_paths request) requested id lock status)
      as Hres' by (destruct Hres; by split).
    eapply answers_bind; [by eapply answers_resolve|]. intros s1 ->.
    eapply (answers_resume _ _ _ requested); try done.
    by rewrite Hpaths, (rv_same _ _ _ _ _ _ _ Hres).
Qed.

(** ** A refused write *)

(** Reserving free paths and releasing them again changes nothing. *)
Lemma reserve_release (before after : OwnershipRecords) creator id paths :
  (∀ p, p ∈ paths → before !! (creator, p) = None) →
  (∀ key, after !! key =
     match before !! key with
     | Some o => Some o
     | None => if decide (key.1 = creator ∧ key.2 ∈ paths)
               then Some (MkOwnership creator key.2 id OwnershipReserved) else None
     end) →
  compensate_reserved_paths after creator paths id = before.
Proof.
  intros Hfree Hafter. apply map_eq. intros [c p]. rewrite compensate_fold_lookup, Hafter. cbn.
  destruct (before !! (c, p)) as [o|] eqn:Ho.
  - rewrite decide_False; [done|]. intros (-> & Hp & _). by rewrite Hfree in Ho.
  - repeat case_decide; try done.
    match goal with Hno : ¬ _ |- _ => exfalso; apply Hno end. cbn. rewrite !eqb_same. naive_solver.
Qed.

Lemma refused_publication s creator path requested id lock paths token e :
  (∀ n l c p x, (cls_upsert n l c p x).1 = Err (WriteNotStarted e)) →
  cl_creator requested = creator → lock_id lock = Some id →
  lock = with_created_at requested (cl_created_at lock) →
  paths = publication_guarded_paths lock →
  undeleted_key s (creator, id) → del_intents (pub_repo s) !! (creator, id) = None →
  (∀ p, p ∈ paths → del_ownership (pub_repo s) !! (creator, p) = None) →
  yields (publish_lock creator id path lock paths true token) s (Err e)
    (λ s', pub_repo s' = pub_repo s).
Proof.
  intros Hrefuse Hc Hid Hsame Hpaths Hund Hi Hfree. unfold publish_lock.
  set (reserved := λ o : OwnershipRecords, compensate_reserved_paths o creator paths id
                                           = del_ownership (pub_repo s)).
  eapply (answers_bind _ _ _ () (λ s1, ∃ o, reserved o
            ∧ pub_repo s1 = del_with_ownership (pub_repo s) o)).
  { apply answers_reserve; [done|]. intros o Ho. exists o. split; [by eapply reserve_release|done]. }
  intros s1 (o & Ho & Hs1).
  eapply (answers_bind _ _ _ (Ok ()) (λ s2, pub_repo s2
            = del_with_intents (del_with_ownership (pub_repo s) o)
                (<[(creator, id) := MkPublicationIntent token false lock]>
                   (del_intents (pub_repo s))))).
  { apply answers_attempt. eapply answers_begin; try done;
      unfold undeleted_key, set_intents; cbn; by rewrite Hs1. }
  intros s2 Hs2. cbn [fst snd].
  assert (yields (publish_with_token creator id lock paths token true) s2 (Err e)
            (λ s', pub_repo s' = pub_repo s)) as Hp.
  { unfold publish_with_token. eapply (answers_bind _ _ _ _ (λ s3, pub_repo s3 = pub_repo s2)).
    { apply answers_lift; [|done]. unfold content_lock_path. by rewrite Hid. }
    intros s3 Hs3.
    eapply (answers_bind _ _ _ (Err (WriteNotStarted e)) (λ s4, pub_repo s4 = pub_repo s3)).
    { intros w <-. unfold write_lock. rewrite <- Hothers.
      pose proof (Hrefuse (w_ticks w) (pub_locks (w_store w)) creator
                    (ContentLockPath_from_lock_id id) lock) as Hr.
      destruct (cls_upsert _ _ _ _ _) as [r l']. cbn in Hr. subst r. eexists. by split. }
    intros s4 Hs4. cbn [negb].
    eapply (answers_bind _ _ _ true (λ s5, pub_repo s5 = pub_repo s)).
    { apply answers_retry. eapply answers_ask.
      - unfold compensate_publication. rewrite Hs4, Hs3, Hs2. cbn. rewrite lookup_insert_eq. cbn.
        by rewrite Z.eqb_refl.
      - cbn. rewrite <- Hpaths, Ho, delete_insert_id by done. by destruct (pub_repo s). }
    intros s5 Hs5 w <-. by exists w. }
  intros w Hw. destruct (Hp w Hw) as (w' & Hr & Hs'). exists w'. split; [|done].
  unfold run_bind. by rewrite Hr.
Qed.
End answered.

(** * The contract of the use case *)

Section contract.
  Context `{!ContentLockStoreLaws L} (Hothers : ∀ n s, s = others n s).

(** C3: creating a lock is crash-safe.  Whatever requests or answers are lost on the
    way, a success means that the lock, valid and identical to the request up to its
    creation time, is published under its identifier, owns all its guarded paths for
    good, and has neither an open intent nor a deletion; a failure means that the
    public store is unchanged, or that the lock is there with its paths and either
    fenced by the unmarked intent of this run or in a state that a repetition can
    take up.  The repository only makes legal steps. *)
Theorem create_lock_outcome request token w res w' :
  create_content_lock request token w = (res, w') →
  legal (w_store w) (w_store w')
  ∧ match res with
    | Ok c =>
        validate_resource_set (created_content_lock c) = Ok ()
        ∧ validate_paykit_payment_v1_policy (created_content_lock c) = Ok ()
        ∧ created_content_lock_path c = ContentLockPath_from_lock_id (created_lock_id c)
        ∧ published (w_store w') (ccl_creator request) (request_paths request)
            (requested_lock request 0) (created_lock_id c) (created_content_lock c)
    | Err _ =>
        left_behind (w_store w) (w_store w') (ccl_creator request) (request_paths request)
          (requested_lock request 0) token
    end.
Proof.
  intros Hrun. split; [|by eapply create_alone].
  eapply create_content_lock_legal; [|done]. intros n s. by rewrite <- Hothers.
Qed.

(** C33: when calls are answered, creating a lock completes.  A valid request whose
    paths are free publishes the requested lock, and one that finds an earlier
    attempt with its write recorded completes that attempt with the lock and the
    creation time it already has. *)
Theorem create_lock_completes request token w id lock :
  (∀ n, fates n = Delivered) →
  (∀ n l creator path, is_ok (cls_get n l creator path) = true) →
  writes_answered → acceptable request → takes_up (w_store w) request (clock (w_ticks w)) id lock →
  ∃ w', create_content_lock request token w
        = (Ok (MkCreated id (ContentLockPath_from_lock_id id) lock), w')
        ∧ published (w_store w') (ccl_creator request) (request_paths request)
            (requested_lock request 0) id lock.
Proof.
  intros Hfates Hget Hput Hacc Htake.
  assert (∃ w', create_content_lock request token w
                = (Ok (MkCreated id (ContentLockPath_from_lock_id id) lock), w') ∧ True)
    as (w' & Hw' & _).
  { eapply checked_request with (P := λ _, True); try done. by eapply completes_after_checks. }
  exists w'. split; [done|]. by apply create_alone in Hw' as (_ & _ & _ & Hp).
Qed.

(** A refused write leaves no trace.  When the public store refuses the write
    before it is dispatched, a fresh creation reports that error, and the
    repository of intents and path ownership is exactly as it was. *)
Theorem refused_write_undone request token w id e :
  (∀ n, fates n = Delivered) →
  (∀ n l creator path, is_ok (cls_get n l creator path) = true) →
  (∀ n l creator path x, (cls_upsert n l creator path x).1 = Err (WriteNotStarted e)) →
  acceptable request → lock_id (requested_lock request (clock (w_ticks w))) = Some id →
  (∀ p, p ∈ request_paths request →
     del_ownership (pub_repo (w_store w)) !! (ccl_creator request, p) = None) →
  undeleted_key (w_store w) (ccl_creator request, id) →
  del_intents (pub_repo (w_store w)) !! (ccl_creator request, id) = None →
  ∃ w', create_content_lock request token w = (Err e, w')
        ∧ pub_repo (w_store w') = pub_repo (w_store w).
Proof.
  intros Hfates Hget Hrefuse Hacc Hid Hfree Hund Hi.
  destruct (acceptable_paths _ Hacc) as (Hpaths & _ & _).
  eapply checked_request with (P := λ s', pub_repo s' = pub_repo (w_store w)); try done.
  unfold after_checks. eapply answers_bind; [by apply answers_resolve_free|]. intros s1 ->.
  eapply (answers_bind _ _ _ (id, ContentLockPath_from_lock_id id) (λ s1, s1 = w_store w)).
  { apply answers_lift; [|done]. unfold identify, frozen_lock_id, content_lock_path. by rewrite Hid. }
  intros s1 ->. by eapply refused_publication with (requested := requested_lock request 0).
Qed.
End contract.
End create.
