(* ===== verification/Resources.v ===== *)
(** What creators keep on their homeservers: guarded resources, public content locks
    with their deletion tombstones, and the pointer to a lock server.

    - [locks-service/src/infrastructure/memory/]: [guarded_resources.rs],
      [public_content_locks.rs], [content_locks.rs], [content_lock_tombstones.rs],
      [lock_service_pointers.rs];
    - [application/ports/]: [guarded_resources.rs], [content_lock_tombstone.rs];
    - [locks-core/src/content_lock_deletion.rs], [lock_service_pointer.rs];
    - the use cases [register_guarded_resource.rs], [delete_guarded_resource.rs] and
      [set_lock_service_pointer.rs]. *)

From stdpp Require Import pretty.
From S2P Require Import Prelude HashMaps RustStr Externals Ids Json LockPolicy Wire Errors.
From S2P Require Import Lifecycle DeletionJob AccessUse CreateLock.

(** * Guarded resources *)

Abbreviation GuardedResources := (gmap (CreatorPubky * string) GuardedResourceRecord).

Inductive GuardedResourceReadback := ResourceExact | ResourceMissing | ResourceChanged.

Section resources.
  Context `{MimeCrate}.

Definition upsert_guarded_resource (records : GuardedResources) (record : GuardedResourceRecord) :
    result ApplicationError (GuardedResource * GuardedResources) :=
  stored ← map_err (λ e, InvalidGuardedResource (GuardedResourceValidationError_display e))
             (GuardedResource_new (grr_path record) (grr_hash record) (grr_content_type record)
                (grr_size record));
  Ok (stored, <[(grr_creator record, grr_path record) := record]> records).

Definition get_guarded_resource (records : GuardedResources) (creator : CreatorPubky)
    (path : string) (hash : GuardedResourceHash) : option GuardedResourceRecord :=
  match records !! (creator, path) with
  | Some record => if grr_hash record == hash then Some record else None
  | None => None
  end.

Definition get_current_guarded_resource (records : GuardedResources) (creator : CreatorPubky)
    (path : string) : option GuardedResourceRecord := records !! (creator, path).

Definition delete_guarded_resource (records : GuardedResources) (creator : CreatorPubky)
    (path : string) : bool * GuardedResources :=
  (is_some (records !! (creator, path)), delete (creator, path) records).

(** Default method of the port, on [get_current_guarded_resource]. *)
Definition read_guarded_resource_generation (records : GuardedResources)
    (creator : CreatorPubky) (path : string) (expected_hash : GuardedResourceHash) :
    GuardedResourceReadback :=
  match get_current_guarded_resource records creator path with
  | None => ResourceMissing
  | Some record => if grr_hash record == expected_hash then ResourceExact else ResourceChanged
  end.

(** ** Use cases *)

Record RegisterGuardedResourceRequest := MkRegisterRequest {
  rgr_creator : CreatorPubky;
  rgr_path : string;
  rgr_content_type : string;
  rgr_bytes : bytes;
}.

Record RegisteredGuardedResource := MkRegistered {
  reg_creator : CreatorPubky;
  reg_guarded_resource : GuardedResource;
}.

Context `{Blake3}.

(** [GuardedResourceHash::from_bytes] of the digest. *)
Definition content_hash (bs : bytes) : GuardedResourceHash :=
  MkGuardedResourceHash (blake3_hash bs).

Definition register_guarded_resource (records : GuardedResources)
    (request : RegisterGuardedResourceRequest) :
    result ApplicationError (RegisteredGuardedResource * GuardedResources) :=
  let len := Z.of_nat (length (rgr_bytes request)) in
  _ ← reject_if (negb (len <=? U64_MAX))
        (InvalidGuardedResource "guarded resource size exceeds u64");
  resource ← map_err (λ e, InvalidGuardedResource (GuardedResourceValidationError_display e))
               (GuardedResource_new (rgr_path request) (content_hash (rgr_bytes request))
                  (rgr_content_type request) len);
  '(stored, records') ← upsert_guarded_resource records
    (MkGuardedRecord (rgr_creator request) (gr_path resource) (gr_hash resource)
       (gr_content_type resource) (gr_size resource) (rgr_bytes request));
  Ok (MkRegistered (rgr_creator request) stored, records').

Definition unpublish_guarded_resource (records : GuardedResources) (creator : CreatorPubky)
    (path : string) : result ApplicationError () * GuardedResources :=
  let (deleted, records') := delete_guarded_resource records creator path in
  (if deleted then Ok () else Err GuardedResourceUnavailable, records').
End resources.

(** * Public content locks *)

Abbreviation PublicContentLockKey := (CreatorPubky * ContentLockPath)%type (only parsing).
Abbreviation PublicContentLocks := (gmap (CreatorPubky * ContentLockPath) bytes).

Definition public_put (records : PublicContentLocks) (creator : CreatorPubky)
    (path : ContentLockPath) (bs : bytes) : PublicContentLocks :=
  <[(creator, path) := bs]> records.
Definition public_get (records : PublicContentLocks) (creator : CreatorPubky)
    (path : ContentLockPath) : option bytes := records !! (creator, path).
Definition public_remove (records : PublicContentLocks) (creator : CreatorPubky)
    (path : ContentLockPath) : option bytes * PublicContentLocks :=
  (records !! (creator, path), delete (creator, path) records).

(** [serde_json] on the lock payloads: writing may fail with a message, and so may
    reading. *)
Class ContentLockJson := {
  payload_to_json : ContentLockPayload → result string bytes;
  lock_from_json : bytes → result string ContentLock;
  payload_from_json : bytes → result string ContentLockPayload;
}.

Section content_locks.
  Context `{JsonCanonicalizer, CanonicalizationError, ContentLockJson}.

Definition memory_upsert_content_lock_payload (records : PublicContentLocks)
    (creator : CreatorPubky) (path : ContentLockPath) (lock : ContentLockPayload) :
    result ApplicationError PublicContentLocks :=
  bs ← map_err (λ e, Storage ("failed to serialize in-memory content lock: " +:+ e))
         (payload_to_json lock);
  Ok (public_put records creator path bs).

(** [ContentLock::canonical_json_bytes], with the message of its error. *)
Definition canonical_json_bytes (lock : ContentLock) : result string bytes :=
  ok_or (canonical_json_v1 lock) (canonicalization_message lock).

Definition memory_upsert_content_lock (records : PublicContentLocks) (creator : CreatorPubky)
    (path : ContentLockPath) (lock : ContentLock) : result ApplicationError PublicContentLocks :=
  bs ← map_err (λ e, Storage ("failed to serialize in-memory content lock: " +:+ e))
         (canonical_json_bytes lock);
  Ok (public_put records creator path bs).

Definition read_public {A} (decode : bytes → result string A) (records : PublicContentLocks)
    (creator : CreatorPubky) (path : ContentLockPath) : result ApplicationError (option A) :=
  match public_get records creator path with
  | None => Ok None
  | Some bs =>
      lock ← map_err (λ e, Storage ("failed to deserialize in-memory content lock: " +:+ e))
               (decode bs);
      Ok (Some lock)
  end.

Definition memory_get_content_lock (records : PublicContentLocks) (creator : CreatorPubky)
    (path : ContentLockPath) : result ApplicationError (option ContentLock) :=
  read_public lock_from_json records creator path.
Definition memory_get_content_lock_payload (records : PublicContentLocks)
    (creator : CreatorPubky) (path : ContentLockPath) :
    result ApplicationError (option ContentLockPayload) :=
  read_public payload_from_json records creator path.
Definition memory_delete_content_lock (records : PublicContentLocks) (creator : CreatorPubky)
    (path : ContentLockPath) : bool * PublicContentLocks :=
  let (old, records') := public_remove records creator path in (is_some old, records').
End content_locks.

(** * Tombstones *)

Definition CONTENT_LOCK_DELETION_TOMBSTONE_VERSION : Z := 1.
Definition CONTENT_LOCK_DELETION_TOMBSTONE_TYPE : string := "content_lock_deletion".

Record ContentLockDeletionTombstone := MkTombstone {
  ts_version : Z;
  ts_kind : string;
  ts_lock_id : LockId;
  ts_deletion_started_at : OffsetDateTime;
}.

(** Times are instants here, so the conversion to UTC is the identity. *)
Definition ContentLockDeletionTombstone_new (id : LockId) (deletion_started_at : OffsetDateTime) :
    ContentLockDeletionTombstone :=
  MkTombstone CONTENT_LOCK_DELETION_TOMBSTONE_VERSION CONTENT_LOCK_DELETION_TOMBSTONE_TYPE id
    deletion_started_at.

(** [time::serde::rfc3339]: fails outside the years it can write. *)
Class Rfc3339 := { rfc3339_format : OffsetDateTime → result string string }.

Definition quote_mark : string := String (Ascii.ascii_of_nat 34) "".

(** [serde_json]'s escape of one byte of a string. *)
Definition json_escape (c : ascii) : string :=
  let n := Ascii.nat_of_ascii c in
  let hex (d : nat) := String (Ascii.ascii_of_nat (if Nat.ltb d 10 then 48 + d else 87 + d)) "" in
  if Nat.eqb n 34 || Nat.eqb n 92 then "\" +:+ String c ""
  else if Nat.eqb n 8 then "\b" else if Nat.eqb n 9 then "\t" else if Nat.eqb n 10 then "\n"
  else if Nat.eqb n 12 then "\f" else if Nat.eqb n 13 then "\r"
  else if Nat.ltb n 32 then "\u00" +:+ hex (n / 16)%nat +:+ hex (n mod 16)%nat
  else String c "".

Fixpoint json_escape_all (s : string) : string :=
  match s with "" => "" | String c s => json_escape c +:+ json_escape_all s end.

Definition json_quote (s : string) : string := quote_mark +:+ json_escape_all s +:+ quote_mark.

Section tombstones.
  Context `{Rfc3339}.

(** The derived serializer: the fields in their order. *)
Definition tombstone_json (t : ContentLockDeletionTombstone) : result string string :=
  at_ ← rfc3339_format (ts_deletion_started_at t);
  Ok ("{" +:+ json_quote "version" +:+ ":" +:+ pretty (ts_version t) +:+ ","
      +:+ json_quote "type" +:+ ":" +:+ json_quote (ts_kind t) +:+ ","
      +:+ json_quote "lock_id" +:+ ":" +:+ json_quote (LockId_display (ts_lock_id t)) +:+ ","
      +:+ json_quote "deletion_started_at" +:+ ":" +:+ json_quote at_ +:+ "}").

Definition canonical_tombstone_bytes (t : ContentLockDeletionTombstone) :
    result ApplicationError bytes :=
  json ← map_err (λ e, Storage ("failed to serialize content lock deletion tombstone: " +:+ e))
           (tombstone_json t);
  Ok (list_ascii_of_string json).
End tombstones.

Inductive TombstoneReadback := TombstoneExact | TombstoneAbsent | TombstoneChanged.

Definition classify_tombstone_bytes (actual : option bytes) (expected : bytes) :
    TombstoneReadback :=
  match actual with
  | None => TombstoneAbsent
  | Some actual => if actual == expected then TombstoneExact else TombstoneChanged
  end.

(** * Pointers *)

Definition LOCK_SERVICE_POINTER_VERSION : Z := 1.
Definition LOCK_SERVICE_POINTER_PATH : string := "/pub/app.locks/config.json".

Record LockServicePointer := MkPointer {
  lsp_version : Z;
  lsp_default_lock_server : LockServerPubky;
  lsp_created_at : OffsetDateTime;
}.

Abbreviation LockServicePointers := (gmap CreatorPubky LockServicePointer).

Definition upsert_lock_service_pointer (pointers : LockServicePointers) (creator : CreatorPubky)
    (pointer : LockServicePointer) : LockServicePointers := <[creator := pointer]> pointers.
Definition get_lock_service_pointer (pointers : LockServicePointers) (creator : CreatorPubky) :
    option LockServicePointer := pointers !! creator.

Record SetLockServicePointerResponse := MkPointerResponse {
  slp_creator : CreatorPubky;
  slp_path : string;
  slp_lock_service_pointer : LockServicePointer;
}.

Definition set_lock_service_pointer (pointers : LockServicePointers) (creator : CreatorPubky)
    (default_lock_server : LockServerPubky) (now : OffsetDateTime) :
    SetLockServicePointerResponse * LockServicePointers :=
  let pointer := MkPointer LOCK_SERVICE_POINTER_VERSION default_lock_server now in
  (MkPointerResponse creator LOCK_SERVICE_POINTER_PATH pointer,
   upsert_lock_service_pointer pointers creator pointer).
