(* ===== verification/DeletionExec.v ===== *)
(** Execution of one phase of a claimed deletion
    ([locks-service/src/application/use_cases/execute_content_lock_deletion_phase.rs],
    [execute_forced_content_lock_deletion.rs], [materialize_final_credentials.rs],
    [no_paykit_deletion_drain.rs]) over the ports it calls: the deletion repository
    and the access store of [DeletionStore], the public locks and guarded resources of
    [Resources], and the action lane of a job
    ([memory/content_lock_deletion_action_ownership.rs]).

    Every call of a port is one step on [ExecState].  Before each step the other users
    of the ports may have changed anything ([others]), the time included, and the
    request or its answer may be lost ([fates]). *)

From S2P Require Import Prelude HashMaps RustStr Externals Ids Json LockPolicy Wire Errors.
From S2P Require Import Run Secrets Lifecycle DeletionJob AccessStore DeletionStore.
From S2P Require Import DeletionEvidence AccessUse CreateLock Resources.
#[local] Open Scope run_scope.
#[local] Open Scope act_scope.

(** * State behind the ports *)

Record ExecState := MkExecState {
  ex_now : OffsetDateTime;
  ex_repo : DeletionRepo;
  ex_public : PublicContentLocks;
  ex_resources : GuardedResources;
  (** jobs whose action lane is owned; the source keeps the set of jobs, the name of
      the execution that holds the guard is kept for the proofs *)
  ex_owned : gmap Uuid nat;
}.

Definition ex_with_repo (s : ExecState) r :=
  MkExecState (ex_now s) r (ex_public s) (ex_resources s) (ex_owned s).
Definition ex_with_public (s : ExecState) p :=
  MkExecState (ex_now s) (ex_repo s) p (ex_resources s) (ex_owned s).
Definition ex_with_resources (s : ExecState) g :=
  MkExecState (ex_now s) (ex_repo s) (ex_public s) g (ex_owned s).
Definition ex_with_owned (s : ExecState) o :=
  MkExecState (ex_now s) (ex_repo s) (ex_public s) (ex_resources s) o.

Record ContentLockDeletionPhaseExecutorConfig := MkExecutorConfig {
  final_credential_issuance_window : Duration;
  final_read_window : Duration;
  final_credential_batch_limit : nat;
}.

Inductive ContentLockDeletionActionAcquireResult := LaneAcquired | LaneBusy | LaneClaimLost.

Section ports.
  Context {E : Type} (fates : nat → Fate) (others : nat → ExecState → ExecState).
  (** The name of this execution. *)
  Context (me : nat).

(** One call of a store; the deletion repository and the access store read the clock
    themselves. *)
Definition ask_repo {A}
    (op : OffsetDateTime → DeletionRepo → result ApplicationError (A * DeletionRepo)) :
    Run ExecState E A :=
  Run.call fates others (λ s, '(a, r) ← op (ex_now s) (ex_repo s); Ok (a, ex_with_repo s r))%stdpp.

Definition ask_access {A}
    (op : OffsetDateTime → AccessState → result ApplicationError (A * AccessState)) :
    Run ExecState E A :=
  ask_repo (λ now r, '(x, a) ← op now (del_access r); Ok (x, del_with_access r a))%stdpp.

Definition ask_public {A} (op : PublicContentLocks → A * PublicContentLocks) :
    Run ExecState E A :=
  Run.call fates others (λ s, let (a, p) := op (ex_public s) in Ok (a, ex_with_public s p)).

Definition ask_resources {A} (op : GuardedResources → A * GuardedResources) :
    Run ExecState E A :=
  Run.call fates others (λ s, let (a, g) := op (ex_resources s) in Ok (a, ex_with_resources s g)).

Definition clock_now : Act ExecState E OffsetDateTime := look_at others ex_now.

(** * The action lane of a job *)

(** [owned_jobs.insert], true when the job was not there.  A request that is lost
    leaves nothing behind: a guard that does not reach its caller is dropped. *)
Definition lane_enter (job_id : Uuid) : Run ExecState E bool := λ w,
  let s := others (w_ticks w) (w_store w) in
  let goes_to s' := MkWorld s' (w_entitlements w) (w_ticks w + 1)%nat in
  match fates (w_ticks w) with
  | Delivered =>
      if is_some (ex_owned s !! job_id) then (Ok false, goes_to s)
      else (Ok true, goes_to (ex_with_owned s (<[job_id := me]> (ex_owned s))))
  | Lost e | Unanswered e => (Err e, goes_to s)
  end.

(** [owned_jobs.remove]. *)
Definition lane_leave (job_id : Uuid) : Act ExecState E () := λ w,
  let s := others (w_ticks w) (w_store w) in
  ((), MkWorld (ex_with_owned s (delete job_id (ex_owned s))) (w_entitlements w) (w_ticks w + 1)%nat).

Definition acquire_lane (live : OffsetDateTime → DeletionRepo → bool) (job_id : Uuid) :
    Run ExecState E ContentLockDeletionActionAcquireResult :=
  entered ⟵ lane_enter job_id;
  if negb entered then run_ret LaneBusy
  else
    is_live ⇐ ask_repo (λ now r, Ok (live now r, r));
    match is_live with
    | Ok true => run_ret LaneAcquired
    | Ok false => _ ⇐ lane_leave job_id; run_ret LaneClaimLost
    | Err e => _ ⇐ lane_leave job_id; run_err e
    end.

Definition try_acquire (claim : ContentLockDeletionActionClaim) :
    Run ExecState E ContentLockDeletionActionAcquireResult :=
  acquire_lane (λ now r, action_claim_is_live r claim now) (ac_job_id claim).

Definition try_acquire_synchronous_force (job_id : Uuid) :
    Run ExecState E ContentLockDeletionActionAcquireResult :=
  acquire_lane (λ _ r, synchronous_force_action_is_live r job_id) job_id.

Definition try_acquire_graceful_withdrawal (job_id : Uuid) :
    Run ExecState E ContentLockDeletionActionAcquireResult :=
  acquire_lane (λ _ r, graceful_withdrawal_action_is_live r job_id) job_id.

(** The guard is consumed: also when the release fails, dropping it gives the lane
    back. *)
Definition release_lane (job_id : Uuid) : Run ExecState E () :=
  _ ⇐ lane_leave job_id;
  λ w, match fates (w_ticks w) with
       | Delivered => (Ok (), w)
       | Lost e | Unanswered e => (Err e, w)
       end.

(** * Tombstones *)

Section tombstones.
  Context `{JsonCanonicalizer, CanonicalizationError, Rfc3339}.

Definition read_tombstone (creator : CreatorPubky) (path : ContentLockPath)
    (expected : ContentLockDeletionTombstone) : Run ExecState E TombstoneReadback :=
  expected ⟵ run_lift (canonical_tombstone_bytes expected);
  actual ⟵ ask_public (λ p, (public_get p creator path, p));
  run_ret (classify_tombstone_bytes actual expected).

Definition withdraw_content_lock (creator : CreatorPubky) (path : ContentLockPath)
    (frozen_original : ContentLock) (tombstone : ContentLockDeletionTombstone) :
    Run ExecState E TombstoneReadback :=
  expected ⟵ run_lift (canonical_tombstone_bytes tombstone);
  original ⟵ run_lift (map_err (λ e, Storage ("failed to serialize frozen content lock: " +:+ e))
                         (canonical_json_bytes frozen_original));
  actual ⟵ ask_public (λ p, (public_get p creator path, p));
  match actual with
  | None => run_ret TombstoneAbsent
  | Some actual =>
      if actual == expected then run_ret TombstoneExact
      else if actual == original then
        _ ⟵ ask_public (λ p, ((), public_put p creator path expected));
        read_tombstone creator path tombstone
      else run_ret TombstoneChanged
  end.

Definition force_delete_content_lock_and_verify_absent (creator : CreatorPubky)
    (path : ContentLockPath) : Run ExecState E () :=
  _ ⟵ ask_public (λ p, public_remove p creator path);
  left ⟵ ask_public (λ p, (public_get p creator path, p));
  if is_some left
  then run_err (Storage "forced public content lock deletion did not reach absence")
  else run_ret ().
End tombstones.

(** * Final credentials *)

Section materialize.
  Context `{TimeCrate, Blake3, Base64Url, Aead}.
  Context (cipher_key : bytes) (nonces : nat → bytes).
  Context (generator : nat → result ApplicationError AccessCredential).

Definition generate_access_credential : Run ExecState E AccessCredential := λ w,
  (generator (w_ticks w), MkWorld (w_store w) (w_entitlements w) (w_ticks w + 1)%nat).

(** The store draws a fresh nonce at each call. *)
Definition issue_for_worker (job_id : Uuid) (worker_id : string) (claim_token : Uuid)
    (item : FinalCredentialMaterialization) (fresh_now : OffsetDateTime)
    (candidate : AccessCredential) : Run ExecState E (option IssuedDeletionCredential) := λ w,
  ask_access (λ _ a, issue_or_replay_final_credential_for_worker cipher_key (nonces (w_ticks w)) a
                       job_id worker_id claim_token (fcm_creator item) (fcm_bundle_id item)
                       candidate fresh_now) w.

Fixpoint materialize_items (job_id : Uuid) (worker_id : string) (claim_token : Uuid)
    (pending : list FinalCredentialMaterialization) (materialized_count : nat) :
    Run ExecState E nat :=
  match pending with
  | [] => run_ret materialized_count
  | item :: pending =>
      candidate ⟵ generate_access_credential;
      fresh_now ⇐ clock_now;
      issued ⟵ issue_for_worker job_id worker_id claim_token item fresh_now candidate;
      materialize_items job_id worker_id claim_token pending
        (if is_some issued then S materialized_count else materialized_count)
  end.

Definition materialize_final_credentials (job_id : Uuid) (worker_id : string)
    (claim_token : Uuid) (batch_limit : nat) : Run ExecState E nat :=
  pending ⟵ ask_access (λ now a, Ok (final_credentials_to_materialize a job_id worker_id
                                       claim_token batch_limit now, a));
  materialize_items job_id worker_id claim_token pending 0.
End materialize.

(** * The graceful executor *)

Definition cj_id (claim : ClaimedContentLockDeletionJob) : Uuid := dj_job_id (cdj_job claim).
Definition cj_path (claim : ClaimedContentLockDeletionJob) : ContentLockPath :=
  ContentLockPath_from_lock_id (dj_lock_id (cdj_job claim)).

Definition tombstone (claim : ClaimedContentLockDeletionJob) : ContentLockDeletionTombstone :=
  ContentLockDeletionTombstone_new (dj_lock_id (cdj_job claim))
    (dj_deletion_started_at (cdj_job claim)).

Definition finish_terminal (claim : ClaimedContentLockDeletionJob) (worker_id : string)
    (failure_code : ContentLockDeletionFailureCode) :
    Act ExecState E DeletionPhaseExecutionOutcome :=
  updated ⇐ ask_repo (λ now r, finish r (cj_id claim) worker_id (cdj_claim_token claim)
                                 (Some failure_code) now);
  act_ret match updated with
          | Ok (Some _) => TerminalFailed
          | Ok None => PhaseClaimLost
          | Err error => error_outcome error
          end.

Definition advance (claim : ClaimedContentLockDeletionJob) (worker_id : string)
    (next_phase : ContentLockDeletionPhase) : Act ExecState E DeletionPhaseExecutionOutcome :=
  advanced ⇐ ask_repo (λ now r, advance_phase r (cj_id claim) worker_id (cdj_claim_token claim)
                                  next_phase now);
  match advanced with
  | Ok (Advanced _) => act_ret Progressed
  | Ok AdvanceClaimLost => act_ret PhaseClaimLost
  | Ok ObligationsPending => act_ret PhaseDeferred
  | Ok (TerminalFailure failure_code) => finish_terminal claim worker_id failure_code
  | Err error => act_ret (error_outcome error)
  end.

(** The two repository calls with the evidence of what came before them. *)
Definition advance_with (claim : ClaimedContentLockDeletionJob) (worker_id : string)
    (next_phase : ContentLockDeletionPhase) (evidence : list DeletionDependencyEvidence) :
    Act ExecState E DeletionPhaseExecution :=
  outcome ⇐ advance claim worker_id next_phase;
  act_ret (fold_left with_evidence evidence (repository_execution outcome)).

Definition terminal_with (claim : ClaimedContentLockDeletionJob) (worker_id : string)
    (failure_code : ContentLockDeletionFailureCode) (evidence : list DeletionDependencyEvidence) :
    Act ExecState E DeletionPhaseExecution :=
  outcome ⇐ finish_terminal claim worker_id failure_code;
  act_ret (fold_left with_evidence evidence (repository_execution outcome)).

Section graceful.
  Context `{JsonCanonicalizer, CanonicalizationError, Rfc3339, TimeCrate, Blake3, Base64Url, Aead}.
  Context (cipher_key : bytes) (nonces : nat → bytes).
  Context (generator : nat → result ApplicationError AccessCredential).
  Context (config : ContentLockDeletionPhaseExecutorConfig).
  (** [ContentLockPaymentDrainExecutor]. *)
  Context (payments : ClaimedContentLockDeletionJob → string → Act ExecState E DeletionPhaseExecution).

Definition withdraw_with_evidence (claim : ClaimedContentLockDeletionJob) (worker_id : string) :
    Act ExecState E DeletionPhaseExecution :=
  readback ⇐ withdraw_content_lock (dj_creator (cdj_job claim)) (cj_path claim)
               (dj_frozen_content_lock (cdj_job claim)) (tombstone claim);
  let pubky_healthy := evidence_healthy PubkyWithdrawal in
  match readback with
  | Ok TombstoneExact => advance_with claim worker_id StartPaymentDrain [pubky_healthy]
  | Ok TombstoneAbsent => terminal_with claim worker_id TombstoneMissing [pubky_healthy]
  | Ok TombstoneChanged => terminal_with claim worker_id TombstoneReplaced [pubky_healthy]
  | Err error => act_ret (error_execution error PubkyWithdrawal)
  end.

Definition issue_final_credentials (claim : ClaimedContentLockDeletionJob) (worker_id : string) :
    Act ExecState E DeletionPhaseExecutionOutcome :=
  windows ⇐ ask_access (λ now a, initialize_final_access_windows a (cj_id claim) worker_id
                                   (cdj_claim_token claim)
                                   (final_credential_issuance_window config)
                                   (final_read_window config) now);
  match windows with
  | Ok WindowsClaimLost => act_ret PhaseClaimLost
  | Err error => act_ret (error_outcome error)
  | Ok (Initialized _) =>
      materialized ⇐ materialize_final_credentials cipher_key nonces generator (cj_id claim)
                       worker_id (cdj_claim_token claim) (final_credential_batch_limit config);
      match materialized with
      | Ok materialized_count =>
          if Nat.ltb 0 (final_credential_batch_limit config)
             && Nat.leb (final_credential_batch_limit config) materialized_count
          then act_ret PhaseDeferred
          else advance claim worker_id DrainFinalReads
      | Err (CorruptContentLockDeletionManifest _) => finish_terminal claim worker_id StateCorrupt
      | Err error => act_ret (error_outcome error)
      end
  end.

(** Every resource of the frozen lock, the primary one last. *)
Definition frozen_resources (lock : ContentLock) : gmap string GuardedResourceHash :=
  let resources := sr_hash <$> cl_secondary_resources lock in
  match cl_primary_resource lock with
  | Some primary => <[gr_path primary := gr_hash primary]> resources
  | None => resources
  end.

(** The resources in turn, the tombstone before each; [k] once all were exact. *)
Fixpoint verify_resources (claim : ClaimedContentLockDeletionJob) (worker_id : string)
    (resources : list (string * GuardedResourceHash)) (resource_was_read : bool)
    (k : bool → Act ExecState E DeletionPhaseExecution) : Act ExecState E DeletionPhaseExecution :=
  match resources with
  | [] => k resource_was_read
  | (path, expected_hash) :: resources =>
      let pubky_healthy := evidence_healthy PubkyReadback in
      let resource_healthy := evidence_healthy PubkyResource in
      readback ⇐ read_tombstone (dj_creator (cdj_job claim)) (cj_path claim) (tombstone claim);
      match readback with
      | Ok TombstoneAbsent => terminal_with claim worker_id TombstoneMissing [pubky_healthy]
      | Ok TombstoneChanged => terminal_with claim worker_id TombstoneReplaced [pubky_healthy]
      | Err error => act_ret (error_execution error PubkyReadback)
      | Ok TombstoneExact =>
          generation ⇐ ask_resources
            (λ g, (read_guarded_resource_generation g (dj_creator (cdj_job claim)) path
                     expected_hash, g));
          match generation with
          | Ok ResourceExact => verify_resources claim worker_id resources true k
          | Ok ResourceMissing =>
              terminal_with claim worker_id StateCorrupt [pubky_healthy; resource_healthy]
          | Ok ResourceChanged =>
              terminal_with claim worker_id ResourceReplaced [pubky_healthy; resource_healthy]
          | Err error => act_ret (with_evidence (error_execution error PubkyResource) pubky_healthy)
          end
      end
  end.

Definition verify_frozen_content_with_evidence (claim : ClaimedContentLockDeletionJob)
    (worker_id : string) : Act ExecState E DeletionPhaseExecution :=
  verify_resources claim worker_id
    (btree_iter (frozen_resources (dj_frozen_content_lock (cdj_job claim)))) false
    (λ resource_was_read,
       let pubky_healthy := evidence_healthy PubkyReadback in
       let resource_evidence :=
         if resource_was_read then evidence_healthy PubkyResource else evidence_none in
       readback ⇐ read_tombstone (dj_creator (cdj_job claim)) (cj_path claim) (tombstone claim);
       match readback with
       | Ok TombstoneExact =>
           advance_with claim worker_id DeleteTombstone [pubky_healthy; resource_evidence]
       | Ok TombstoneAbsent =>
           terminal_with claim worker_id TombstoneMissing [pubky_healthy; resource_evidence]
       | Ok TombstoneChanged =>
           terminal_with claim worker_id TombstoneReplaced [pubky_healthy; resource_evidence]
       | Err error =>
           act_ret (with_evidence (error_execution error PubkyReadback) resource_evidence)
       end).

Definition verify_tombstone_for_purge_with_evidence (claim : ClaimedContentLockDeletionJob)
    (worker_id : string) : Act ExecState E DeletionPhaseExecution :=
  readback ⇐ read_tombstone (dj_creator (cdj_job claim)) (cj_path claim) (tombstone claim);
  let pubky_healthy := evidence_healthy PubkyReadback in
  match readback with
  | Ok TombstoneExact => advance_with claim worker_id PurgeOperationalState [pubky_healthy]
  | Ok TombstoneAbsent => terminal_with claim worker_id TombstoneMissing [pubky_healthy]
  | Ok TombstoneChanged => terminal_with claim worker_id TombstoneReplaced [pubky_healthy]
  | Err error => act_ret (error_execution error PubkyReadback)
  end.

Definition execute_guarded_with_evidence (claim : ClaimedContentLockDeletionJob)
    (worker_id : string) : Act ExecState E DeletionPhaseExecution :=
  match dj_phase (cdj_job claim) with
  | Withdraw => withdraw_with_evidence claim worker_id
  | StartPaymentDrain | DrainPayments => payments claim worker_id
  | DrainExistingCredentials => advance_with claim worker_id IssueFinalCredentials []
  | IssueFinalCredentials =>
      outcome ⇐ issue_final_credentials claim worker_id;
      act_ret (repository_execution outcome)
  | DrainFinalReads => advance_with claim worker_id DeleteContent []
  | DeleteContent => verify_frozen_content_with_evidence claim worker_id
  | DeleteTombstone => verify_tombstone_for_purge_with_evidence claim worker_id
  | PurgeOperationalState => act_ret (phase_execution PhaseDeferred)
  end.

Definition execute_with_evidence (claim : ClaimedContentLockDeletionJob) (worker_id : string) :
    Act ExecState E DeletionPhaseExecution :=
  guard ⇐ try_acquire (MkActionClaim (cj_id claim) worker_id (cdj_claim_token claim)
                         (dj_phase (cdj_job claim)) false);
  match guard with
  | Ok LaneBusy => act_ret (phase_execution PhaseDeferred)
  | Ok LaneClaimLost => act_ret (phase_execution PhaseClaimLost)
  | Err error => act_ret (error_execution error RepositoryActionLock)
  | Ok LaneAcquired =>
      guarded ⇐ execute_guarded_with_evidence claim worker_id;
      let execution := with_evidence guarded (evidence_healthy RepositoryActionLock) in
      released ⇐ release_lane (cj_id claim);
      act_ret match released with
              | Err error => with_evidence (error_execution error RepositoryActionLockRelease)
                               (pe_evidence execution)
              | Ok () => with_evidence execution (evidence_healthy RepositoryActionLockRelease)
              end
  end.
End graceful.

(** * The forced executor *)

(** [frozen_resource_paths], in the order of the set. *)
Definition frozen_resource_paths (claim : ClaimedContentLockDeletionJob) : list string :=
  (btree_iter (frozen_resources (dj_frozen_content_lock (cdj_job claim)))).*1.

Fixpoint delete_resources (creator : CreatorPubky) (paths : list string)
    (evidence : DeletionDependencyEvidence) (resource_delete_failed : bool) :
    Act ExecState E (DeletionDependencyEvidence * bool) :=
  match paths with
  | [] => act_ret (evidence, resource_delete_failed)
  | path :: paths =>
      deleted ⇐ ask_resources (λ g, delete_guarded_resource g creator path);
      match deleted with
      | Ok _ => delete_resources creator paths
                  (evidence_merge evidence (evidence_healthy PubkyResource)) resource_delete_failed
      | Err _ => delete_resources creator paths
                   (evidence_merge evidence (evidence_unavailable PubkyResource)) true
      end
  end.

Definition forced_execute_guarded (claim : ClaimedContentLockDeletionJob) (worker_id : string) :
    Act ExecState E ForcedContentLockDeletionExecution :=
  absent ⇐ force_delete_content_lock_and_verify_absent (dj_creator (cdj_job claim)) (cj_path claim);
  match absent with
  | Err error => act_ret (forced_error_execution error PubkyForcePublic)
  | Ok () =>
      deleted ⇐ delete_resources (dj_creator (cdj_job claim)) (frozen_resource_paths claim)
                  (evidence_healthy PubkyForcePublic) false;
      let (evidence, resource_delete_failed) := deleted : DeletionDependencyEvidence * bool in
      if resource_delete_failed
      then act_ret (forced_with_evidence (forced_execution ForceTransientDependencyFailure)
                      evidence)
      else
        completed ⇐ ask_repo (λ now r, Ok (complete_force_deletion r (cj_id claim) worker_id
                                             (cdj_claim_token claim) now));
        act_ret (forced_with_evidence
          match completed with
          | Ok true => forced_with_evidence (forced_execution ForceCompleted)
                         (evidence_healthy RepositoryForceReceipt)
          | Ok false => forced_execution ForceClaimLost
          | Err error => forced_error_execution error RepositoryForceReceipt
          end evidence)
  end.

Definition forced_execute_with_evidence (claim : ClaimedContentLockDeletionJob)
    (worker_id : string) : Act ExecState E ForcedContentLockDeletionExecution :=
  if is_none (dj_force_requested_at (cdj_job claim))
  then act_ret (forced_execution ForceDeferred)
  else
    guard ⇐ try_acquire (MkActionClaim (cj_id claim) worker_id (cdj_claim_token claim)
                           (dj_phase (cdj_job claim)) true);
    match guard with
    | Ok LaneBusy => act_ret (forced_execution ForceDeferred)
    | Ok LaneClaimLost => act_ret (forced_execution ForceClaimLost)
    | Err error => act_ret (forced_error_execution error RepositoryActionLock)
    | Ok LaneAcquired =>
        guarded ⇐ forced_execute_guarded claim worker_id;
        let execution := forced_with_evidence guarded (evidence_healthy RepositoryActionLock) in
        released ⇐ release_lane (cj_id claim);
        act_ret match released with
                | Err error => forced_with_evidence
                                 (forced_error_execution error RepositoryActionLockRelease)
                                 (fe_evidence execution)
                | Ok () => forced_with_evidence execution
                             (evidence_healthy RepositoryActionLockRelease)
                end
    end.

(** * The drain without a payment provider *)

Definition observed_phase (outcome : DeletionPhaseExecutionOutcome)
    (evidence : DeletionDependencyEvidence) : DeletionPhaseExecution :=
  with_evidence (with_evidence (phase_execution outcome) evidence)
    (evidence_healthy RepositoryPhaseMutation).

Definition observed_error (error : ApplicationError) (source : DeletionDependencySource)
    (evidence : DeletionDependencyEvidence) : DeletionPhaseExecution :=
  with_evidence (with_evidence (phase_execution (error_outcome error)) evidence)
    (evidence_unavailable source).

Definition next_drain_phase (phase : ContentLockDeletionPhase) : option ContentLockDeletionPhase :=
  match phase with
  | StartPaymentDrain => Some DrainPayments
  | DrainPayments => Some DrainExistingCredentials
  | _ => None
  end.

Definition no_paykit_execute_claimed (claim : ClaimedContentLockDeletionJob)
    (worker_id : string) : Act ExecState E DeletionPhaseExecution :=
  match next_drain_phase (dj_phase (cdj_job claim)) with
  | None => act_ret (phase_execution FatalFailure)
  | Some next_phase =>
      _ ⇐ clock_now;
      let healthy := evidence_healthy PaymentDrainRepository in
      snapshots ⇐ ask_repo (λ _ r, Ok (has_paykit_snapshots r (cj_id claim), r));
      match snapshots with
      | Ok true => act_ret (with_evidence (phase_execution PhaseDeferred) healthy)
      | Err error => act_ret (observed_error error PaymentDrainRepository evidence_none)
      | Ok false =>
          let evidence := evidence_merge evidence_none healthy in
          expired ⇐ ask_repo (λ now r, del_expire_unresolved_non_paykit_tasks r (cj_id claim)
                                         worker_id (cdj_claim_token claim) now);
          match expired with
          | Ok false => act_ret (phase_execution PhaseClaimLost)
          | Err error => act_ret (observed_error error PaymentDrainRepository evidence)
          | Ok true =>
              let evidence := evidence_merge evidence healthy in
              advanced ⇐ ask_repo (λ now r, advance_phase r (cj_id claim) worker_id
                                              (cdj_claim_token claim) next_phase now);
              act_ret match advanced with
                      | Ok (Advanced _) => observed_phase Progressed evidence
                      | Ok AdvanceClaimLost =>
                          with_evidence (phase_execution PhaseClaimLost) evidence
                      | Ok ObligationsPending => observed_phase PhaseDeferred evidence
                      | Ok (TerminalFailure _) => observed_phase TerminalFailed evidence
                      | Err error => observed_error error RepositoryPhaseMutation evidence
                      end
          end
      end
  end.
End ports.
