(* ===== verification/DeletionTrace.v ===== *)
(** What an executor of a deletion phase does, whatever happens around it: which steps
    it takes, and what its outcome says about them. *)

From S2P Require Import Prelude HashMaps RustStr Externals Ids Json LockPolicy Wire Errors.
From S2P Require Import Run Secrets Lifecycle DeletionJob AccessStore DeletionStore.
From S2P Require Import DeletionEvidence AccessUse CreateLock Resources DeletionExec.

Lemma ex_with_repo_id s : ex_with_repo s (ex_repo s) = s.
Proof. by destruct s. Qed.
Lemma ex_with_public_id s : ex_with_public s (ex_public s) = s.
Proof. by destruct s. Qed.
Lemma ex_with_resources_id s : ex_with_resources s (ex_resources s) = s.
Proof. by destruct s. Qed.

(** * Steps *)

Section steps.
  Context `{JsonCanonicalizer, CanonicalizationError, Rfc3339, TimeCrate, Blake3, Base64Url, Aead}.
  Context (me : nat) (claim : ClaimedContentLockDeletionJob) (worker : string).
Let id := cj_id claim.
Let token := cdj_claim_token claim.
Let creator := dj_creator (cdj_job claim).

(** What may be asked of the deletion repository and the access store under the claim.
    A final credential may be issued at a clock reading taken earlier. *)
Inductive claim_op (now : OffsetDateTime) (r : DeletionRepo) : DeletionRepo → Prop :=
  | co_advance next o r' :
      advance_phase r id worker token next now = Ok (o, r') → claim_op now r r'
  | co_finish code o r' :
      finish r id worker token (Some code) now = Ok (o, r') → claim_op now r r'
  | co_expire b r' :
      del_expire_unresolved_non_paykit_tasks r id worker token now = Ok (b, r') →
      claim_op now r r'
  | co_windows issue read w a' :
      initialize_final_access_windows (del_access r) id worker token issue read now
        = Ok (w, a') → claim_op now r (del_with_access r a')
  | co_issue key nonce for_creator bundle candidate at_ o a' :
      issue_or_replay_final_credential_for_worker key nonce (del_access r) id worker token
        for_creator bundle candidate at_ = Ok (o, a') → claim_op now r (del_with_access r a').

(** The steps of the graceful executor: it enters and leaves the lane of its job; in
    the lane it works on the job under its claim and writes the tombstone.  No step
    touches a guarded resource. *)
Inductive graceful_step (s : ExecState) : ExecState → Prop :=
  | gs_enter : ex_owned s !! id = None → graceful_step s (ex_with_owned s (<[id := me]> (ex_owned s)))
  | gs_leave : ex_owned s !! id = Some me → graceful_step s (ex_with_owned s (delete id (ex_owned s)))
  | gs_repo r' :
      ex_owned s !! id = Some me → claim_op (ex_now s) (ex_repo s) r' → graceful_step s (ex_with_repo s r')
  | gs_publish bs :
      ex_owned s !! id = Some me → dj_phase (cdj_job claim) = Withdraw →
      canonical_tombstone_bytes (tombstone claim) = Ok bs →
      graceful_step s (ex_with_public s (public_put (ex_public s) creator (cj_path claim) bs)).

(** The steps of the forced executor. *)
Inductive forced_step (s : ExecState) : ExecState → Prop :=
  | fs_enter : ex_owned s !! id = None → forced_step s (ex_with_owned s (<[id := me]> (ex_owned s)))
  | fs_leave : ex_owned s !! id = Some me → forced_step s (ex_with_owned s (delete id (ex_owned s)))
  | fs_withdraw :
      ex_owned s !! id = Some me →
      forced_step s (ex_with_public s (delete (creator, cj_path claim) (ex_public s)))
  | fs_delete path :
      ex_owned s !! id = Some me → path ∈ frozen_resource_paths claim →
      forced_step s (ex_with_resources s (delete (creator, path) (ex_resources s)))
  | fs_complete b r' :
      ex_owned s !! id = Some me →
      complete_force_deletion (ex_repo s) id worker token (ex_now s) = (b, r') →
      forced_step s (ex_with_repo s r').
End steps.

(** * Executions among others *)

Section along.
  Context {E : Type} (fates : nat → Fate) (others : nat → ExecState → ExecState).
  Context (step : relation ExecState) (me : nat) (id : Uuid).
  (** Others do not take the lane away from its owner. *)
  Context (lane_kept : ∀ n s, ex_owned s !! id = Some me → ex_owned (others n s) !! id = Some me).

Definition any_step (s s' : ExecState) : Prop := step s s' ∨ ∃ n, s' = others n s.
Definition along : relation ExecState := rtc any_step.

#[global] Instance along_preorder : PreOrder along.
Proof. apply _. Qed.

Lemma along_step s s' : step s s' → along s s'.
Proof. intros Hs. apply rtc_once. by left. Qed.
Lemma along_others n s : along s (others n s).
Proof. apply rtc_once. right. by eexists. Qed.

Lemma along_mono (R : relation ExecState) s s' :
  PreOrder R → (∀ s s', step s s' → R s s') → (∀ n s, R s (others n s)) → along s s' → R s s'.
Proof.
  intros Hpre Hstep Hothers. induction 1 as [s|s1 s2 s3 [Hs|[n ->]] _ IH]; [done|..];
    (etransitivity; [|exact IH]); auto.
Qed.

(** At some point in between. *)
Definition seen (P : ExecState → Prop) (s s' : ExecState) : Prop :=
  ∃ s1, along s s1 ∧ P s1 ∧ along s1 s'.

(** At some point the repository answered [a]. *)
Definition answered {A}
    (op : OffsetDateTime → DeletionRepo → result ApplicationError (A * DeletionRepo)) (a : A)
    (s s' : ExecState) : Prop :=
  ∃ s1 r', along s s1 ∧ op (ex_now s1) (ex_repo s1) = Ok (a, r')
           ∧ along (ex_with_repo s1 r') s'.

Lemma seen_weaken (P : ExecState → Prop) s0 s s' s1 :
  along s0 s → seen P s s' → along s' s1 → seen P s0 s1.
Proof. intros Hl (x & ? & ? & ?) Hr. exists x. split_and!; [by etransitivity|done|by etransitivity]. Qed.

Lemma answered_weaken {A} op (a : A) s0 s s' s1 :
  along s0 s → answered op a s s' → along s' s1 → answered op a s0 s1.
Proof.
  intros Hl (x & r & ? & ? & ?) Hr. exists x, r. split_and!; [by etransitivity|done|by etransitivity].
Qed.

(** Inside the lane: a computation stays in it, moves along, and relates the states
    before and after. *)
Definition inside {A} (m : Act ExecState E A) (Q : ExecState → A → ExecState → Prop) : Prop :=
  ∀ w, ex_owned (w_store w) !! id = Some me →
    let (a, w') := m w in
    along (w_store w) (w_store w') ∧ ex_owned (w_store w') !! id = Some me
    ∧ Q (w_store w) a (w_store w').

Lemma inside_ret {A} (a : A) Q : (∀ s, Q s a s) → inside (act_ret a) Q.
Proof. intros HQ w Hw. by split_and!. Qed.

Lemma inside_bind {A B} Q1 (Q2 : A → ExecState → B → ExecState → Prop) (f : A → Act ExecState E B)
    (m : Act ExecState E A) Q :
  inside m Q1 → (∀ a, inside (f a) (Q2 a)) →
  (∀ a s s1 b s2, along s s1 → along s1 s2 → Q1 s a s1 → Q2 a s1 b s2 → Q s b s2) →
  inside (act_bind f m) Q.
Proof.
  intros Hm Hf HQ w Hw. unfold act_bind. specialize (Hm w Hw). destruct (m w) as [a w1].
  destruct Hm as (H1 & H2 & H3). specialize (Hf a w1 H2). destruct (f a w1) as [b w2].
  destruct Hf as (G1 & G2 & G3). split_and!; [by etransitivity|done|]. by eapply HQ.
Qed.

Lemma inside_run_bind {A B} Q1 (Q2 : A → ExecState → result ApplicationError B → ExecState → Prop)
    (f : A → Run ExecState E B) (m : Run ExecState E A) Q :
  inside m Q1 → (∀ a, inside (f a) (Q2 a)) →
  (∀ e s s1, along s s1 → Q1 s (Err e) s1 → Q s (Err e) s1) →
  (∀ a s s1 b s2, along s s1 → along s1 s2 → Q1 s (Ok a) s1 → Q2 a s1 b s2 → Q s b s2) →
  inside (run_bind f m) Q.
Proof.
  intros Hm Hf He HQ w Hw. unfold run_bind. specialize (Hm w Hw). destruct (m w) as [[a|e] w1].
  - destruct Hm as (H1 & H2 & H3). specialize (Hf a w1 H2). destruct (f a w1) as [b w2].
    destruct Hf as (G1 & G2 & G3). split_and!; [by etransitivity|done|]. by eapply HQ.
  - destruct Hm as (H1 & H2 & H3). split_and!; [done|done|by apply He].
Qed.

(** The second half knows what the first half did. *)
Lemma inside_then {A B} Q1 (f : A → Act ExecState E B) (m : Act ExecState E A) Q :
  inside m Q1 →
  (∀ a, inside (f a) (λ s1 b s2, ∀ s, along s s1 → Q1 s a s1 → Q s b s2)) →
  inside (act_bind f m) Q.
Proof. intros Hm Hf. eapply inside_bind; [exact Hm|exact Hf|]. eauto. Qed.

Lemma inside_run_then {A B} Q1 (f : A → Run ExecState E B) (m : Run ExecState E A) Q :
  inside m Q1 →
  (∀ e s s1, along s s1 → Q1 s (Err e) s1 → Q s (Err e) s1) →
  (∀ a, inside (f a) (λ s1 b s2, ∀ s, along s s1 → Q1 s (Ok a) s1 → Q s b s2)) →
  inside (run_bind f m) Q.
Proof. intros Hm He Hf. eapply inside_run_bind; [exact Hm|exact Hf|exact He|]. eauto. Qed.

Lemma inside_weaken {A} Q' (m : Act ExecState E A) Q :
  inside m Q' → (∀ s a s', along s s' → Q' s a s' → Q s a s') → inside m Q.
Proof.
  intros Hm HQ w Hw. specialize (Hm w Hw). destruct (m w) as [a w'].
  destruct Hm as (? & ? & ?). split_and!; [done|done|by apply HQ].
Qed.

(** One call in the lane. *)
Lemma inside_call {A} (op : ExecState → result ApplicationError (A * ExecState)) :
  (∀ s a s', op s = Ok (a, s') → ex_owned s !! id = Some me → along s s' ∧ ex_owned s' !! id = Some me) →
  inside (Run.call fates others op)
    (λ s r s', ∀ a, r = Ok a → ∃ s1, along s s1 ∧ op s1 = Ok (a, s')).
Proof.
  intros Hop w Hw. destruct (Run.call fates others op w) as [r w'] eqn:Hc.
  apply call_inv in Hc. cbn zeta in Hc. set (s1 := others _ _) in *.
  assert (along (w_store w) s1) as Ha by apply along_others.
  assert (ex_owned s1 !! id = Some me) as Ho by by apply lane_kept.
  assert (∀ a, op s1 = Ok (a, w_store w') →
            along (w_store w) (w_store w') ∧ ex_owned (w_store w') !! id = Some me) as Hok.
  { intros a Hs. destruct (Hop _ _ _ Hs Ho). split; [by etransitivity|done]. }
  destruct Hc as [(a & -> & Hs)|(e & -> & [[_ ->]|(_ & [->|(a & Hs)])])].
  - destruct (Hok a Hs). split_and!; [done|done|]. intros a' [= <-]. by exists s1.
  - by split_and!.
  - by split_and!.
  - destruct (Hok a Hs). by split_and!.
Qed.

Lemma inside_repo_read {A} (f : OffsetDateTime → DeletionRepo → A) :
  inside (ask_repo fates others (λ now r, Ok (f now r, r)))
    (λ s res s', ∀ a, res = Ok a → seen (λ s1, f (ex_now s1) (ex_repo s1) = a) s s').
Proof.
  eapply inside_weaken; [apply inside_call|].
  - intros s a s' [= <- <-] Ho. by rewrite ex_with_repo_id.
  - intros s res s' _ Hr a ->. destruct (Hr a eq_refl) as (s1 & Hl & [= <- <-]).
    rewrite ex_with_repo_id. by exists s1.
Qed.

Lemma inside_public_read {A} (f : PublicContentLocks → A) :
  inside (ask_public fates others (λ p, (f p, p)))
    (λ s res s', ∀ a, res = Ok a → seen (λ s1, f (ex_public s1) = a) s s').
Proof.
  eapply inside_weaken; [apply inside_call|].
  - intros s a s' [= <- <-] Ho. by rewrite ex_with_public_id.
  - intros s res s' _ Hr a ->. destruct (Hr a eq_refl) as (s1 & Hl & [= <- <-]).
    rewrite ex_with_public_id. by exists s1.
Qed.

Lemma inside_resources_read {A} (f : GuardedResources → A) :
  inside (ask_resources fates others (λ g, (f g, g)))
    (λ s res s', ∀ a, res = Ok a → seen (λ s1, f (ex_resources s1) = a) s s').
Proof.
  eapply inside_weaken; [apply inside_call|].
  - intros s a s' [= <- <-] Ho. by rewrite ex_with_resources_id.
  - intros s res s' _ Hr a ->. destruct (Hr a eq_refl) as (s1 & Hl & [= <- <-]).
    rewrite ex_with_resources_id. by exists s1.
Qed.

(** ** The lane *)

Context (enter : ∀ s, ex_owned s !! id = None → step s (ex_with_owned s (<[id := me]> (ex_owned s)))).
Context (leave : ∀ s, ex_owned s !! id = Some me → step s (ex_with_owned s (delete id (ex_owned s)))).

Lemma lane_enter_spec w :
  let (res, w') := lane_enter (E := E) fates others me id w in
  along (w_store w) (w_store w')
  ∧ match res with
    | Ok true => ex_owned (others (w_ticks w) (w_store w)) !! id = None ∧ ex_owned (w_store w') !! id = Some me
    | _ => w_store w' = others (w_ticks w) (w_store w)
    end.
Proof.
  unfold lane_enter. set (s := others _ _). assert (along (w_store w) s) by apply along_others.
  destruct (fates (w_ticks w)); cbn; [|done|done].
  destruct (ex_owned s !! id) eqn:Ho; cbn; [done|].
  split_and!; [|done|apply lookup_insert_eq]. etransitivity; [done|]. by apply along_step, enter.
Qed.

Lemma lane_leave_spec w :
  ex_owned (w_store w) !! id = Some me →
  let (_, w') := lane_leave (E := E) others id w in
  along (w_store w) (w_store w') ∧ ex_owned (w_store w') !! id = None.
Proof.
  intros Ho. unfold lane_leave. cbn. split; [|apply lookup_delete_eq].
  etransitivity; [apply along_others|]. by apply along_step, leave, lane_kept.
Qed.

(** Nothing was done, or the lane was free and is free again. *)
Definition lane_free_again (w w' : World ExecState E) : Prop :=
  w_store w' = others (w_ticks w) (w_store w)
  ∨ ex_owned (others (w_ticks w) (w_store w)) !! id = None ∧ ex_owned (w_store w') !! id = None.

Lemma acquire_lane_spec live w :
  let (res, w') := acquire_lane (E := E) fates others me live id w in
  along (w_store w) (w_store w')
  ∧ match res with
    | Ok LaneAcquired =>
        ex_owned (others (w_ticks w) (w_store w)) !! id = None ∧ ex_owned (w_store w') !! id = Some me
        ∧ seen (λ s, live (ex_now s) (ex_repo s) = true) (w_store w) (w_store w')
    | _ => lane_free_again w w'
    end.
Proof.
  unfold acquire_lane, run_bind. pose proof (lane_enter_spec w) as He.
  unfold lane_free_again.
  destruct (lane_enter fates others me id w) as [[[]|e] w1]; cbn; [|by destruct He; auto..].
  destruct He as (Hl & Hfree & Ho). unfold act_bind.
  pose proof (inside_repo_read live w1 Ho) as Hr.
  destruct (ask_repo _ _ _ w1) as [res w2]. destruct Hr as (Hl2 & Ho2 & Hr).
  pose proof (lane_leave_spec w2 Ho2) as Hleave.
  assert (along (w_store w) (w_store w2)) by by etransitivity.
  destruct res as [[]|e];
    [|destruct (lane_leave others id w2) as [[] w3]; destruct Hleave as [Hl3 Ho3]..]; cbn.
  - split_and!; [done|done|done|]. eapply seen_weaken; [exact Hl|by apply Hr|done].
  - split; [by transitivity (w_store w2)|by right].
  - split; [by transitivity (w_store w2)|by right].
Qed.

Lemma release_lane_spec w :
  ex_owned (w_store w) !! id = Some me →
  let (_, w') := release_lane (E := E) fates others id w in
  along (w_store w) (w_store w') ∧ ex_owned (w_store w') !! id = None.
Proof.
  intros Ho. unfold release_lane, act_bind. pose proof (lane_leave_spec w Ho) as Hl.
  destruct (lane_leave others id w) as [[] w1]. by destruct (fates (w_ticks w1)).
Qed.
End along.

(** * The graceful executor *)

Section graceful.
  Context `{JsonCanonicalizer, CanonicalizationError, Rfc3339, TimeCrate, Blake3, Base64Url, Aead}.
  Context {E : Type} (fates : nat → Fate) (others : nat → ExecState → ExecState).
  Context (me : nat) (claim : ClaimedContentLockDeletionJob) (worker : string).
Let id := cj_id claim.
Let token := cdj_claim_token claim.
Let creator := dj_creator (cdj_job claim).
Let frozen := frozen_resources (dj_frozen_content_lock (cdj_job claim)).
  Context (lane_kept : ∀ n s, ex_owned s !! id = Some me → ex_owned (others n s) !! id = Some me).

Abbreviation Along := (along others (graceful_step me claim worker)).
Abbreviation Inside := (inside (E := E) others (graceful_step me claim worker) me id).
Abbreviation Seen := (seen others (graceful_step me claim worker)).
Abbreviation Answered := (answered others (graceful_step me claim worker)).
Abbreviation Advance next := (λ now r, advance_phase r id worker token next now).
Abbreviation Finish code := (λ now r, finish r id worker token (Some code) now).

Lemma inside_repo {A} (op : OffsetDateTime → DeletionRepo → result ApplicationError (A * DeletionRepo)) :
  (∀ now r a r', op now r = Ok (a, r') → r' = r ∨ claim_op claim worker now r r') →
  Inside (ask_repo fates others op) (λ s res s', ∀ a, res = Ok a → Answered op a s s').
Proof.
  intros Hop. eapply inside_weaken; [apply inside_call; [done|]|].
  - intros s a s' Hs Ho. apply bind_Ok in Hs as ([x r'] & Hs & [= -> <-]). split; [|done].
    destruct (Hop _ _ _ _ Hs) as [->|Hc]; [by rewrite ex_with_repo_id|].
    by apply along_step, gs_repo.
  - intros s res s' _ Hr a ->. destruct (Hr a eq_refl) as (s1 & Hl & Hs).
    apply bind_Ok in Hs as ([x r'] & Hs & [= -> <-]). by exists s1, r'.
Qed.

Lemma inside_access {A} (op : OffsetDateTime → AccessState → result ApplicationError (A * AccessState)) :
  (∀ now r a a', op now (del_access r) = Ok (a, a') →
     a' = del_access r ∨ claim_op claim worker now r (del_with_access r a')) →
  Inside (ask_access fates others op) (λ _ _ _, True).
Proof.
  intros Hop. eapply inside_weaken; [apply inside_repo|done].
  intros now r a r' Hr. apply bind_Ok in Hr as ([x a'] & Hr & [= -> <-]).
  destruct (Hop _ _ _ _ Hr) as [->|Hc]; [|by right]. left. by destruct r.
Qed.

Lemma inside_publish bs :
  dj_phase (cdj_job claim) = Withdraw → canonical_tombstone_bytes (tombstone claim) = Ok bs →
  Inside (ask_public fates others (λ p, ((), public_put p creator (cj_path claim) bs)))
    (λ _ _ _, True).
Proof.
  intros Hphase Hbs. eapply inside_weaken; [apply inside_call; [done|]|done].
  intros s a s' [= <- <-] Ho. split; [|done]. by apply along_step, gs_publish.
Qed.

Lemma inside_lift {A B} (r : result ApplicationError A) (f : A → Run ExecState E B) Q :
  (∀ a, r = Ok a → Inside (f a) Q) → (∀ e s, Q s (Err e) s) → Inside (run_bind f (run_lift r)) Q.
Proof.
  intros Hf He. destruct r as [a|e]; [by apply Hf|]. intros w Hw. by split_and!.
Qed.

(** ** Outcomes *)

Definition tombstone_at (P : TombstoneReadback → Prop) (s : ExecState) : Prop :=
  ∃ bs, canonical_tombstone_bytes (tombstone claim) = Ok bs
        ∧ P (classify_tombstone_bytes (public_get (ex_public s) creator (cj_path claim)) bs).

Definition resource_at (path : string) (hash : GuardedResourceHash)
    (g : GuardedResourceReadback) (s : ExecState) : Prop :=
  frozen !! path = Some hash
  ∧ read_guarded_resource_generation (ex_resources s) creator path hash = g.

(** What the executor has checked outside the repository before it advances a job
    from the phase. *)
Definition checked_before (phase : ContentLockDeletionPhase) (s s' : ExecState) : Prop :=
  match phase with
  | Withdraw | DeleteTombstone => Seen (tombstone_at (.= TombstoneExact)) s s'
  | DeleteContent =>
      Seen (tombstone_at (.= TombstoneExact)) s s'
      ∧ ∀ path hash, frozen !! path = Some hash →
          Seen (resource_at path hash ResourceExact) s s'
  | _ => True
  end.

(** What the executor has seen before it fails a job with the code. *)
Definition failed_because (phase : ContentLockDeletionPhase)
    (code : ContentLockDeletionFailureCode) (s s' : ExecState) : Prop :=
  match code with
  | TombstoneMissing => Seen (tombstone_at (.= TombstoneAbsent)) s s'
  | TombstoneReplaced => Seen (tombstone_at (.= TombstoneChanged)) s s'
  | ResourceReplaced => ∃ path hash, Seen (resource_at path hash ResourceChanged) s s'
  | StateCorrupt =>
      match phase with
      | DeleteContent => ∃ path hash, Seen (resource_at path hash ResourceMissing) s s'
      | StartPaymentDrain | DrainPayments | IssueFinalCredentials => True
      | _ => False
      end
  | RetryExhausted => False
  end.

(** An outcome says what happened. *)
Definition truthful (phase : ContentLockDeletionPhase) (s : ExecState)
    (o : DeletionPhaseExecutionOutcome) (s' : ExecState) : Prop :=
  match o with
  | Progressed => ∃ next job, permits phase next = true
                              ∧ Answered (Advance next) (Advanced job) s s'
                              ∧ checked_before phase s s'
  | TerminalFailed => ∃ code job, Answered (Finish code) (Some job) s s'
                                  ∧ failed_because phase code s s'
  | _ => True
  end.

Lemma checked_before_weaken phase s0 s s' s1 :
  Along s0 s → checked_before phase s s' → Along s' s1 → checked_before phase s0 s1.
Proof.
  intros Hl Hc Hr. destruct phase; cbn in *; try done; try by eapply seen_weaken.
  destruct Hc as [Ht Hres]. split; [by eapply seen_weaken|]. intros path hash Hp.
  by eapply seen_weaken; [|apply Hres|].
Qed.

Lemma failed_because_weaken phase code s0 s s' s1 :
  Along s0 s → failed_because phase code s s' → Along s' s1 → failed_because phase code s0 s1.
Proof.
  intros Hl Hc Hr. destruct code; cbn in *; try done; try by eapply seen_weaken.
  - destruct Hc as (path & hash & Hs). exists path, hash. by eapply seen_weaken.
  - destruct phase; try done. destruct Hc as (path & hash & Hs). exists path, hash.
    by eapply seen_weaken.
Qed.

Lemma truthful_weaken phase o s0 s s' s1 :
  Along s0 s → truthful phase s o s' → Along s' s1 → truthful phase s0 o s1.
Proof.
  intros Hl Ht Hr. destruct o; cbn in *; try done.
  - destruct Ht as (next & job & Hp & Ha & Hc). exists next, job.
    split_and!; [done|by eapply answered_weaken|by eapply checked_before_weaken].
  - destruct Ht as (code & job & Ha & Hc). exists code, job.
    split; [by eapply answered_weaken|by eapply failed_because_weaken].
Qed.

Lemma advance_failure_code r job w t next now code r' :
  advance_phase r job w t next now = Ok (TerminalFailure code, r') →
  next = DrainFinalReads ∧ code = StateCorrupt.
Proof.
  unfold advance_phase. destruct (find_owned _ _ _ _ _) as [[key sj]|]; [|done]. cbn zeta.
  intros Ha. apply bind_Ok in Ha as ([] & _ & Ha). split_match in Ha; [done|].
  apply bind_Ok in Ha as (st & Hst & Ha). destruct st; try done. injection Ha as <- <-.
  split; [|done]. unfold check_phase_advance in Hst.
  destruct (acc_deletions _ !! _) as [d|]; [|done]. apply bind_Ok in Hst as ([] & _ & Hst).
  split_match in Hst; [done|]. split_match in Hst; [by props|]. by split_match in Hst.
Qed.

Lemma error_outcome_cases e :
  error_outcome e = TransientDependencyFailure ∨ error_outcome e = FatalFailure.
Proof. unfold error_outcome. destruct (classify_deletion_execution_error e); auto. Qed.

Lemma fold_evidence_outcome evidence x :
  pe_outcome (fold_left with_evidence evidence x) = pe_outcome x.
Proof. revert x. induction evidence as [|e l IH]; intros x; cbn; [done|]. by rewrite IH. Qed.

Lemma inside_finish_terminal code :
  Inside (finish_terminal fates others claim worker code)
    (λ s o s', match o with
               | TerminalFailed => ∃ job, Answered (Finish code) (Some job) s s'
               | Progressed | PhaseDeferred => False
               | _ => True
               end).
Proof.
  eapply inside_then; [apply inside_repo|].
  - intros now r a r' Hr. right. by eapply co_finish.
  - intros res. apply inside_ret. intros s1 s _ Hres. destruct res as [[job|]|e]; [eauto|done|].
    by destruct (error_outcome_cases e) as [-> | ->].
Qed.

Lemma inside_advance next :
  Inside (advance fates others claim worker next)
    (λ s o s', match o with
               | Progressed => ∃ job, Answered (Advance next) (Advanced job) s s'
               | TerminalFailed => ∃ job, next = DrainFinalReads
                                          ∧ Answered (Finish StateCorrupt) (Some job) s s'
               | _ => True
               end).
Proof.
  eapply inside_then; [apply inside_repo|].
  - intros now r a r' Hr. right. by eapply co_advance.
  - intros res. destruct res as [[job| | |code]|e].
    + apply inside_ret. eauto.
    + by apply inside_ret.
    + by apply inside_ret.
    + eapply inside_weaken; [apply inside_finish_terminal|]. intros s1 o s2 Hl Ho s Hl' Hres.
      destruct o; try done. destruct Ho as [job Ho]. exists job.
      destruct (Hres _ eq_refl) as (s3 & r' & _ & Ha & _).
      apply advance_failure_code in Ha as [-> ->]. split; [done|]. by eapply answered_weaken.
    + apply inside_ret. intros. by destruct (error_outcome_cases e) as [-> | ->].
Qed.

(** Ending an execution: from a start whose observations justify it. *)
Lemma inside_advance_with phase next evidence :
  permits phase next = true →
  Inside (advance_with fates others claim worker next evidence)
    (λ s x s', ∀ s0, Along s0 s → checked_before phase s0 s →
       truthful phase s0 (pe_outcome x) s').
Proof.
  intros Hp. eapply inside_then; [apply inside_advance|]. intros o. apply inside_ret.
  intros s1 s Hl Ho s0 Hl0 Hc. rewrite fold_evidence_outcome. cbn. destruct o; cbn in *; try done.
  - destruct Ho as [job Ho]. exists next, job. split_and!; [done|by eapply answered_weaken|].
    by eapply (checked_before_weaken _ s0 s0 s).
  - destruct Ho as (job & -> & Ho). exists StateCorrupt, job. split; [by eapply answered_weaken|].
    by destruct phase.
Qed.

Lemma inside_terminal_with phase code evidence :
  Inside (terminal_with fates others claim worker code evidence)
    (λ s x s', ∀ s0, Along s0 s → failed_because phase code s0 s →
       truthful phase s0 (pe_outcome x) s').
Proof.
  eapply inside_then; [apply inside_finish_terminal|]. intros o. apply inside_ret.
  intros s1 s Hl Ho s0 Hl0 Hc. rewrite fold_evidence_outcome. cbn. destruct o; cbn in *; try done.
  destruct Ho as [job Ho]. exists code, job. split; [by eapply answered_weaken|].
  by eapply (failed_because_weaken _ _ s0 s0 s).
Qed.

Lemma inside_error phase x :
  pe_outcome x = TransientDependencyFailure ∨ pe_outcome x = FatalFailure →
  Inside (act_ret x) (λ s x s', ∀ s0, Along s0 s → truthful phase s0 (pe_outcome x) s').
Proof. intros Hx. apply inside_ret. intros s s0 _. by destruct Hx as [-> | ->]. Qed.

(** ** The phases *)

Lemma inside_read_tombstone :
  Inside (read_tombstone fates others creator (cj_path claim) (tombstone claim))
    (λ s res s', ∀ rb, res = Ok rb → Seen (tombstone_at (.= rb)) s s').
Proof.
  apply inside_lift; [|done]. intros bs Hbs.
  eapply inside_run_then; [by apply inside_public_read|done|]. intros actual. apply inside_ret.
  intros s1 s Hl Hseen rb [= <-]. destruct (Hseen _ eq_refl) as (s2 & ? & <- & ?).
  exists s2. split_and!; [done|by exists bs|done].
Qed.

Lemma inside_withdraw_content_lock :
  dj_phase (cdj_job claim) = Withdraw →
  Inside (withdraw_content_lock fates others creator (cj_path claim)
            (dj_frozen_content_lock (cdj_job claim)) (tombstone claim))
    (λ s res s', ∀ rb, res = Ok rb → Seen (tombstone_at (.= rb)) s s').
Proof.
  intros Hphase. apply inside_lift; [|done]. intros bs Hbs.
  apply inside_lift; [|done]. intros original _.
  eapply inside_run_then; [by apply inside_public_read|done|]. intros actual.
  assert (Hrb : ∀ rb, rb = classify_tombstone_bytes actual bs → Inside (run_ret rb)
    (λ s1 b s2, ∀ s, Along s s1 →
       (∀ a, Ok (E := ApplicationError) actual = Ok a →
          Seen (λ s3, public_get (ex_public s3) creator (cj_path claim) = a) s s1) →
       ∀ rb, b = Ok rb → Seen (tombstone_at (.= rb)) s s2)).
  { intros rb ->. apply inside_ret. intros s1 s Hl Hseen rb [= <-].
    destruct (Hseen _ eq_refl) as (s2 & ? & <- & ?).
    exists s2. split_and!; [done|by exists bs|done]. }
  destruct actual as [actual|]; [|by apply Hrb]. cbn in Hrb.
  destruct (actual == bs); [by apply Hrb|]. destruct (actual == original); [|by apply Hrb].
  eapply inside_run_then; [by apply inside_publish|done|]. intros [].
  eapply inside_weaken; [apply inside_read_tombstone|].
  intros s1 b s2 _ Hb s Hl _ s' Hl' _ rb Hrb'. eapply seen_weaken; [|by apply Hb|done].
  by etransitivity.
Qed.

(** A phase that advances on an exact tombstone and fails otherwise. *)
Lemma inside_tombstone_phase phase next source (m : Run ExecState E TombstoneReadback) :
  permits phase next = true → phase = Withdraw ∨ phase = DeleteTombstone →
  Inside m (λ s res s', ∀ rb, res = Ok rb → Seen (tombstone_at (.= rb)) s s') →
  Inside (readback ⇐ m;
          let pubky_healthy := evidence_healthy source in
          match readback with
          | Ok TombstoneExact => advance_with fates others claim worker next [pubky_healthy]
          | Ok TombstoneAbsent =>
              terminal_with fates others claim worker TombstoneMissing [pubky_healthy]
          | Ok TombstoneChanged =>
              terminal_with fates others claim worker TombstoneReplaced [pubky_healthy]
          | Err error => act_ret (error_execution error source)
          end)%act
    (λ s x s', truthful phase s (pe_outcome x) s').
Proof.
  intros Hp Hphase Hm. eapply inside_then; [exact Hm|]. intros res. cbn zeta.
  destruct res as [[]|e].
  - eapply inside_weaken; [by apply (inside_advance_with phase)|]. intros s1 x s2 _ Hx s Hl Hs.
    apply Hx; [done|]. destruct Hphase as [-> | ->]; by apply Hs.
  - eapply inside_weaken; [apply (inside_terminal_with phase)|].
    intros s1 x s2 _ Hx s Hl Hs. by apply Hx; [|apply Hs].
  - eapply inside_weaken; [apply (inside_terminal_with phase)|].
    intros s1 x s2 _ Hx s Hl Hs. by apply Hx; [|apply Hs].
  - eapply inside_weaken; [apply (inside_error phase); apply error_outcome_cases|]. by eauto.
Qed.

Lemma inside_withdraw :
  dj_phase (cdj_job claim) = Withdraw →
  Inside (withdraw_with_evidence fates others claim worker)
    (λ s x s', truthful Withdraw s (pe_outcome x) s').
Proof. intros. by apply inside_tombstone_phase; [|left|apply inside_withdraw_content_lock]. Qed.

Lemma inside_purge :
  Inside (verify_tombstone_for_purge_with_evidence fates others claim worker)
    (λ s x s', truthful DeleteTombstone s (pe_outcome x) s').
Proof. by apply inside_tombstone_phase; [|right|apply inside_read_tombstone]. Qed.

(** Every resource seen exact, and the tombstone before each; [F] is what was seen
    before. *)
Lemma inside_verify_resources (F : relation ExecState) resources was_read k :
  (∀ s0 s s', F s0 s → Along s s' → F s0 s') →
  (∀ path hash, (path, hash) ∈ resources → frozen !! path = Some hash) →
  (∀ b, Inside (k b) (λ s x s', ∀ s0, Along s0 s → F s0 s →
     (∀ path hash, (path, hash) ∈ resources → Seen (resource_at path hash ResourceExact) s0 s) →
     truthful DeleteContent s0 (pe_outcome x) s')) →
  Inside (verify_resources fates others claim worker resources was_read k)
    (λ s x s', ∀ s0, Along s0 s → F s0 s → truthful DeleteContent s0 (pe_outcome x) s').
Proof.
  revert F was_read k. induction resources as [|[path hash] rest IH]; intros F was_read k HF Hin Hk.
  { eapply inside_weaken; [apply Hk|]. intros s x s' _ Hx s0 Hl HFs. apply Hx; [done|done|].
    by intros ? ? ?%elem_of_nil. }
  eapply inside_then; [apply inside_read_tombstone|]. intros res. destruct res as [[]|e].
  2-3: eapply inside_weaken; [apply (inside_terminal_with DeleteContent)|];
    intros s1 x s2 _ Hx s Hl Hs s0 Hl0 _; apply Hx; [by etransitivity|];
    by eapply seen_weaken; [|apply Hs|].
  2: { eapply inside_weaken; [apply (inside_error DeleteContent); apply error_outcome_cases|].
       intros s1 x s2 _ Hx s Hl _ s0 Hl0 _. apply Hx. by etransitivity. }
  eapply inside_then; [by apply inside_resources_read|]. intros g.
  assert (frozen !! path = Some hash) as Hf by (by apply Hin; left).
  assert (Hseen : ∀ g s s1,
    (∀ a, Ok (E := ApplicationError) g = Ok a →
       Seen (λ s2, read_guarded_resource_generation (ex_resources s2) creator path hash = a) s s1) →
    Seen (resource_at path hash g) s s1).
  { intros g' s s1 Hg. destruct (Hg _ eq_refl) as (s2 & ? & ? & ?). by exists s2. }
  destruct g as [[]|e].
  - eapply inside_weaken;
      [apply (IH (λ s0 s, F s0 s ∧ Seen (resource_at path hash ResourceExact) s0 s))|].
    + intros s0 s s' [HFs Hs] Hl. split; [by eapply HF|by eapply seen_weaken].
    + intros p h Hp. apply Hin. by right.
    + intros b. eapply inside_weaken; [apply Hk|]. intros s x s' _ Hx s0 Hl [HFs Hs] Hall.
      apply Hx; [done|done|]. intros p h [[= -> ->]|Hp]%elem_of_cons; [done|by apply Hall].
    + intros s1 x s2 _ Hx s Hl Hg s' Hl' _ s0 Hl0 HFs.
      assert (Along s0 s) by by etransitivity.
      apply Hx; [by etransitivity|]. split; [eapply HF; [done|by etransitivity]|].
      eapply seen_weaken; [done|by apply Hseen|done].
  - eapply inside_weaken; [apply (inside_terminal_with DeleteContent)|].
    intros s1 x s2 _ Hx s Hl Hg s' Hl' _ s0 Hl0 _. apply Hx; [by do 2 (etransitivity; [done|])|].
    exists path, hash. eapply seen_weaken; [by etransitivity|by apply Hseen|done].
  - eapply inside_weaken; [apply (inside_terminal_with DeleteContent)|].
    intros s1 x s2 _ Hx s Hl Hg s' Hl' _ s0 Hl0 _. apply Hx; [by do 2 (etransitivity; [done|])|].
    exists path, hash. eapply seen_weaken; [by etransitivity|by apply Hseen|done].
  - eapply inside_weaken; [apply (inside_error DeleteContent); apply error_outcome_cases|].
    intros s1 x s2 _ Hx s Hl _ s' Hl' _ s0 Hl0 _. apply Hx. by do 2 (etransitivity; [done|]).
Qed.

Lemma inside_verify_content :
  Inside (verify_frozen_content_with_evidence fates others claim worker)
    (λ s x s', truthful DeleteContent s (pe_outcome x) s').
Proof.
  eapply inside_weaken; [apply (inside_verify_resources (λ _ _, True))|].
  - done.
  - intros path hash Hp. by apply elem_of_btree_iter in Hp.
  - intros b. eapply inside_then; [apply inside_read_tombstone|]. intros res. cbn zeta.
    destruct res as [[]|e].
    + eapply inside_weaken; [by apply (inside_advance_with DeleteContent)|].
      intros s1 x s2 _ Hx s Hl Hs s0 Hl0 _ Hall. apply Hx; [by etransitivity|]. split.
      * by eapply seen_weaken; [|apply Hs|].
      * intros path hash Hp. eapply seen_weaken; [reflexivity| |exact Hl].
        by apply Hall, elem_of_btree_iter.
    + eapply inside_weaken; [apply (inside_terminal_with DeleteContent)|].
      intros s1 x s2 _ Hx s Hl Hs s0 Hl0 _ _. apply Hx; [by etransitivity|].
      by eapply seen_weaken; [|apply Hs|].
    + eapply inside_weaken; [apply (inside_terminal_with DeleteContent)|].
      intros s1 x s2 _ Hx s Hl Hs s0 Hl0 _ _. apply Hx; [by etransitivity|].
      by eapply seen_weaken; [|apply Hs|].
    + eapply inside_weaken; [apply (inside_error DeleteContent); apply error_outcome_cases|].
      intros s1 x s2 _ Hx s Hl _ s0 Hl0 _ _. apply Hx. by etransitivity.
  - intros s x s' _ Hx. by apply Hx.
Qed.

(** ** Final credentials *)

Section credentials.
  Context (cipher_key : bytes) (nonces : nat → bytes).
  Context (generator : nat → result ApplicationError AccessCredential).
  Context (config : ContentLockDeletionPhaseExecutorConfig).

Lemma inside_materialize_items pending count :
  Inside (materialize_items fates others cipher_key nonces generator id worker token pending count)
    (λ _ _ _, True).
Proof.
  revert count. induction pending as [|item rest IH]; intros count; [by apply inside_ret|].
  eapply inside_run_then with (Q1 := λ _ _ _, True); [|done|].
  { intros w Hw. unfold generate_access_credential. by split_and!. }
  intros candidate. eapply inside_then with (Q1 := λ _ _ _, True).
  { intros w Hw. unfold clock_now, look_at. cbn.
    split_and!; [apply along_others|by apply lane_kept|done]. }
  intros at_. eapply inside_run_then with (Q1 := λ _ _ _, True); [|done|].
  { intros w Hw. unfold issue_for_worker. refine (inside_access _ _ w Hw).
    intros now r a a' Hr. right. by eapply co_issue. }
  intros issued. eapply inside_weaken; [apply IH|done].
Qed.

Lemma inside_materialize limit :
  Inside (materialize_final_credentials fates others cipher_key nonces generator id worker token limit)
    (λ _ _ _, True).
Proof.
  eapply inside_run_then with (Q1 := λ _ _ _, True); [|done|].
  { apply inside_access. intros now r a a' [= _ <-]. by left. }
  intros pending. eapply inside_weaken; [apply inside_materialize_items|done].
Qed.

Lemma inside_issue_final_credentials :
  Inside (issue_final_credentials fates others cipher_key nonces generator config claim worker)
    (λ s o s', truthful IssueFinalCredentials s o s').
Proof.
  assert (Hfail : Inside (finish_terminal fates others claim worker StateCorrupt)
    (λ s o s', ∀ s0, Along s0 s → truthful IssueFinalCredentials s0 o s')).
  { eapply inside_weaken; [apply inside_finish_terminal|]. intros s o s' _ Ho s0 Hl.
    destruct o; try done. destruct Ho as [job Ho]. exists StateCorrupt, job.
    split; [by eapply answered_weaken|done]. }
  assert (Herr : ∀ e s s', truthful IssueFinalCredentials s (error_outcome e) s').
  { intros e s s'. by destruct (error_outcome_cases e) as [-> | ->]. }
  eapply inside_then with (Q1 := λ _ _ _, True).
  { apply inside_access. intros now r a a' Hr. right. by eapply co_windows. }
  intros [[windows|]|e]; [|by apply inside_ret|apply inside_ret; intros; apply Herr].
  eapply inside_then with (Q1 := λ _ _ _, True); [apply inside_materialize|].
  intros [count|e].
  - split_match; [by apply inside_ret|]. eapply inside_weaken; [apply inside_advance|].
    intros s1 o s2 Hl Ho s Hl0 _ s0 Hl1 _. assert (Along s0 s1) by by etransitivity.
    destruct o; try done.
    + destruct Ho as [job Ho]. exists DrainFinalReads, job. cbn.
      split_and!; [done|by eapply answered_weaken|done].
    + destruct Ho as (job & _ & Ho). exists StateCorrupt, job. cbn.
      split; [by eapply answered_weaken|done].
  - destruct e; try (by apply inside_ret; intros; apply Herr).
    eapply inside_weaken; [apply Hfail|]. intros s1 o s2 _ Ho s Hl _ s0 Hl0 _. apply Ho.
    by etransitivity.
Qed.

(** ** The whole execution *)

(** The contract of the payment drain: in the lane, only steps under the claim, and a
    truthful outcome. *)
Context (payments : ClaimedContentLockDeletionJob → string → Act ExecState E DeletionPhaseExecution).
Context (payments_ok : dj_phase (cdj_job claim) = StartPaymentDrain
                       ∨ dj_phase (cdj_job claim) = DrainPayments →
           Inside (payments claim worker)
             (λ s x s', truthful (dj_phase (cdj_job claim)) s (pe_outcome x) s')).

Lemma inside_guarded :
  Inside (execute_guarded_with_evidence fates others cipher_key nonces generator config payments
            claim worker)
    (λ s x s', truthful (dj_phase (cdj_job claim)) s (pe_outcome x) s').
Proof.
  unfold execute_guarded_with_evidence. destruct (dj_phase (cdj_job claim)) eqn:Hphase.
  - by apply inside_withdraw.
  - apply payments_ok. by left.
  - apply payments_ok. by right.
  - eapply inside_weaken; [by apply (inside_advance_with DrainExistingCredentials)|].
    intros s x s' _ Hx. by apply Hx.
  - eapply inside_then; [apply inside_issue_final_credentials|]. intros o. apply inside_ret.
    by intros s s0 _ Ho.
  - eapply inside_weaken; [by apply (inside_advance_with DrainFinalReads)|].
    intros s x s' _ Hx. by apply Hx.
  - apply inside_verify_content.
  - apply inside_purge.
  - by apply inside_ret.
Qed.

(** One execution of a claimed job, whatever others do and whichever calls are lost:
    all it does is enter the lane of its job, work in it and leave it; either it did
    nothing because the lane was taken or could not be asked for, or it found the
    lane free and has given it back; and its outcome is true. *)
Lemma graceful_execution_spec (w : World ExecState E) :
  let (x, w') := execute_with_evidence fates others me cipher_key nonces generator config payments
                   claim worker w in
  Along (w_store w) (w_store w')
  ∧ lane_free_again others id w w'
  ∧ truthful (dj_phase (cdj_job claim)) (w_store w) (pe_outcome x) (w_store w').
Proof.
  unfold execute_with_evidence, try_acquire, act_bind. cbn [ac_job_id].
  pose proof (acquire_lane_spec fates others (graceful_step me claim worker) me id lane_kept
    (gs_enter me claim worker) (gs_leave me claim worker)
    (λ now r, action_claim_is_live r (MkActionClaim (cj_id claim) worker (cdj_claim_token claim)
                                        (dj_phase (cdj_job claim)) false) now) w) as Hacq.
  destruct (acquire_lane _ _ _ _ _ w) as [g w1]. destruct Hacq as [Hl Hg].
  destruct g as [[]|e].
  - destruct Hg as (Hfree & Ho & _). pose proof (inside_guarded w1 Ho) as Hin.
    destruct (execute_guarded_with_evidence _ _ _ _ _ _ _ _ _ w1) as [x w2].
    destruct Hin as (Hl2 & Ho2 & Hx).
    pose proof (release_lane_spec fates others (graceful_step me claim worker) me id lane_kept
      (gs_leave me claim worker) w2 Ho2) as Hrel.
    destruct (release_lane _ _ _ w2) as [r w3]. destruct Hrel as [Hl3 Ho3]. cbn.
    split_and!; [by do 2 (etransitivity; [done|])|by right|].
    destruct r as [[]|e]; cbn; [by eapply truthful_weaken|].
    by destruct (error_outcome_cases e) as [-> | ->].
  - cbn. auto.
  - cbn. auto.
  - cbn. split_and!; [done|done|]. by destruct (error_outcome_cases e) as [-> | ->].
Qed.
End credentials.

(** ** The drain without a payment provider *)

Lemma observed_error_outcome e source evidence :
  pe_outcome (observed_error e source evidence) = TransientDependencyFailure
  ∨ pe_outcome (observed_error e source evidence) = FatalFailure.
Proof. apply error_outcome_cases. Qed.

Lemma inside_no_paykit :
  Inside (no_paykit_execute_claimed fates others claim worker)
    (λ s x s', truthful (dj_phase (cdj_job claim)) s (pe_outcome x) s').
Proof.
  unfold no_paykit_execute_claimed. set (phase := dj_phase (cdj_job claim)).
  destruct (next_drain_phase phase) as [next|] eqn:Hnext; [|by apply inside_ret].
  assert (permits phase next = true ∧ next ≠ DrainFinalReads ∧ ∀ s s', checked_before phase s s')
    as (Hp & Hne & Hc) by (by destruct phase; simplify_eq/=).
  assert (Herr : ∀ e source evidence s s',
    truthful phase s (pe_outcome (observed_error e source evidence)) s').
  { intros e source evidence s s'. by destruct (observed_error_outcome e source evidence) as [-> | ->]. }
  eapply inside_then with (Q1 := λ _ _ _, True).
  { intros w Hw. unfold clock_now, look_at. cbn.
    split_and!; [apply along_others|by apply lane_kept|done]. }
  intros _. eapply inside_then with (Q1 := λ _ _ _, True).
  { eapply inside_weaken; [by apply inside_repo_read|done]. }
  intros [[]|e]; [by apply inside_ret| |apply inside_ret; intros; apply Herr].
  eapply inside_then with (Q1 := λ _ _ _, True).
  { eapply inside_weaken; [apply inside_repo|done]. intros now r a r' Hr. right.
    by eapply co_expire. }
  intros [[]|e]; [|by apply inside_ret|apply inside_ret; intros; apply Herr].
  eapply inside_then; [apply inside_repo|].
  { intros now r a r' Hr. right. by eapply co_advance. }
  intros res. apply inside_ret. intros s1 s Hl Hres s2 Hl2 _ s3 Hl3 _ s4 Hl4 _.
  destruct res as [[job| | |code]|e]; cbn;
    [|done|done| |by destruct (error_outcome_cases e) as [-> | ->]].
  - exists next, job. split_and!; [done| |done]. eapply answered_weaken; [|by apply Hres|done].
    by do 2 (etransitivity; [done|]).
  - destruct (Hres _ eq_refl) as (x & r' & _ & Ha & _).
    by apply advance_failure_code in Ha as [-> _].
Qed.
End graceful.
