(* ===== verification/DeletionEffects.v ===== *)
(** What executions of deletions change: the forced executor, and both executors when
    nobody interferes. *)

From S2P Require Import Prelude HashMaps RustStr Externals Ids Json LockPolicy Wire Errors.
From S2P Require Import Run Secrets Lifecycle DeletionJob AccessStore AccessDrain DeletionStore.
From S2P Require Import DeletionInv DeletionHistory.
From S2P Require Import DeletionEvidence AccessUse CreateLock Resources DeletionExec DeletionTrace.

(** * The forced executor *)

Section forced.
  Context {E : Type} (fates : nat → Fate) (others : nat → ExecState → ExecState).
  Context (me : nat) (claim : ClaimedContentLockDeletionJob) (worker : string).
Let id := cj_id claim.
Let token := cdj_claim_token claim.
Let creator := dj_creator (cdj_job claim).
  Context (lane_kept : ∀ n s, ex_owned s !! id = Some me → ex_owned (others n s) !! id = Some me).

Abbreviation FAlong := (along others (forced_step me claim worker)).
Abbreviation FInside := (inside (E := E) others (forced_step me claim worker) me id).
Abbreviation FSeen := (seen others (forced_step me claim worker)).

Definition public_absent (s : ExecState) : Prop :=
  public_get (ex_public s) creator (cj_path claim) = None.
Definition resource_absent (path : string) (s : ExecState) : Prop :=
  get_current_guarded_resource (ex_resources s) creator path = None.

(** The receipt was completed under the claim, after the public lock and then every
    frozen resource was gone. *)
Definition completed_properly (s s' : ExecState) : Prop :=
  ∃ s1 r', complete_force_deletion (ex_repo s1) id worker token (ex_now s1) = (true, r')
           ∧ FAlong s s1 ∧ FAlong (ex_with_repo s1 r') s'
           ∧ FSeen (λ s2, public_absent s2
                          ∧ ∀ path, path ∈ frozen_resource_paths claim →
                              FSeen (resource_absent path) s2 s1) s s1.

Lemma inside_force_delete_public :
  FInside (force_delete_content_lock_and_verify_absent fates others creator (cj_path claim))
    (λ s res s', res = Ok () → FSeen public_absent s s').
Proof.
  eapply inside_run_then with (Q1 := λ _ _ _, True); [|done|].
  { eapply inside_weaken; [apply inside_call; [done|]|done].
    intros s a s' [= <- <-] Ho. split; [|done]. by apply along_step, fs_withdraw. }
  intros old. eapply inside_run_then; [by apply inside_public_read|done|].
  intros left. destruct left as [bs|]; cbn.
  - apply inside_ret. by intros.
  - apply inside_ret. intros s1 s Hl Hseen s0 Hl0 _ _.
    eapply seen_weaken; [exact Hl0|by apply Hseen|done].
Qed.

Lemma inside_delete_resources paths evidence failed :
  (∀ path, path ∈ paths → path ∈ frozen_resource_paths claim) →
  FInside (delete_resources fates others creator paths evidence failed)
    (λ s x s', x.2 = false →
       failed = false ∧ ∀ path, path ∈ paths → FSeen (resource_absent path) s s').
Proof.
  revert evidence failed. induction paths as [|path paths IH]; intros evidence failed Hin.
  { apply inside_ret. intros s Hf. split; [done|]. by intros ? ?%elem_of_nil. }
  assert (Hrest : ∀ path, path ∈ paths → path ∈ frozen_resource_paths claim).
  { intros p Hp. apply Hin. by right. }
  eapply inside_then.
  { apply inside_call; [done|]. intros s a s' [= <- <-] Ho. split; [|done].
    apply along_step, fs_delete; [done|]. apply Hin. by left. }
  intros [deleted|e]; (eapply inside_weaken; [by apply IH|]);
    intros s1 x s2 Hl Hx s Hl0 Hd Hfalse; destruct (Hx Hfalse) as [Hf Hall]; [|done].
  split; [done|]. destruct (Hd _ eq_refl) as (s3 & Hl3 & [= <- <-]).
  intros p [->|Hp]%elem_of_cons; [|by eapply seen_weaken; [|apply Hall|]].
  eexists. split_and!; [exact Hl0| |exact Hl]. unfold resource_absent, get_current_guarded_resource.
  cbn. apply lookup_delete_eq.
Qed.

Lemma forced_error_outcome_cases e :
  forced_error_outcome e ≠ ForceCompleted.
Proof. unfold forced_error_outcome. by destruct (classify_deletion_execution_error e). Qed.

Lemma inside_forced_guarded :
  FInside (forced_execute_guarded fates others claim worker)
    (λ s x s', fe_outcome x = ForceCompleted → completed_properly s s').
Proof.
  eapply inside_then; [apply inside_force_delete_public|]. intros [[]|e].
  2:{ apply inside_ret. intros s1 s _ _ Ho. by apply forced_error_outcome_cases in Ho. }
  eapply inside_then; [by apply inside_delete_resources|]. intros [evidence [|]]; [by apply inside_ret|].
  eapply inside_then.
  { apply inside_call; [done|]. intros s a s' Hs Ho. cbn in Hs.
    destruct (complete_force_deletion _ _ _ _ _) as [b r'] eqn:Hc. injection Hs as <- <-.
    split; [|done]. by eapply along_step, fs_complete. }
  intros [[]|e]; apply inside_ret; try done.
  - intros s1 s Hl Hc s2 Hl2 Hd s3 Hl3 Hp _. destruct (Hc _ eq_refl) as (s4 & Hl4 & Hs).
    cbn in Hs. destruct (complete_force_deletion _ _ _ _ _) as [b r'] eqn:Hcf.
    injection Hs as -> <-. destruct (Hd eq_refl) as [_ Hall].
    destruct (Hp eq_refl) as (s5 & Hl5 & Habs & Hl6). exists s4, r'.
    assert (FAlong s2 s4) by by etransitivity.
    split_and!; [done|by do 2 (etransitivity; [done|])|done|].
    exists s5. split_and!; [done|done| |by do 2 (etransitivity; [done|])].
    intros path Hpath. eapply seen_weaken; [exact Hl6|by apply Hall|done].
  - intros s1 s _ _ s2 _ _ s3 _ _ Ho. by apply forced_error_outcome_cases in Ho.
Qed.

Lemma forced_execution_spec (w : World ExecState E) :
  let (x, w') := forced_execute_with_evidence fates others me claim worker w in
  FAlong (w_store w) (w_store w')
  ∧ (w' = w ∨ lane_free_again others id w w')
  ∧ (fe_outcome x = ForceCompleted →
     is_Some (dj_force_requested_at (cdj_job claim))
     ∧ completed_properly (w_store w) (w_store w')).
Proof.
  unfold forced_execute_with_evidence.
  destruct (dj_force_requested_at (cdj_job claim)) as [at_|]; cbn [is_none]; [|cbn; split_and!; [done|auto|done]].
  unfold try_acquire, act_bind. cbn [ac_job_id].
  pose proof (acquire_lane_spec fates others (forced_step me claim worker) me id lane_kept
    (fs_enter me claim worker) (fs_leave me claim worker)
    (λ now r, action_claim_is_live r (MkActionClaim (cj_id claim) worker (cdj_claim_token claim)
                                        (dj_phase (cdj_job claim)) true) now) w) as Hacq.
  destruct (acquire_lane _ _ _ _ _ w) as [g w1]. destruct Hacq as [Hl Hg].
  destruct g as [[]|e].
  - destruct Hg as (Hfree & Ho & _). pose proof (inside_forced_guarded w1 Ho) as Hin.
    destruct (forced_execute_guarded _ _ _ _ w1) as [x w2]. destruct Hin as (Hl2 & Ho2 & Hx).
    pose proof (release_lane_spec fates others (forced_step me claim worker) me id lane_kept
      (fs_leave me claim worker) w2 Ho2) as Hrel.
    destruct (release_lane _ _ _ w2) as [r w3]. destruct Hrel as [Hl3 Ho3]. cbn.
    split_and!; [by do 2 (etransitivity; [done|])|by right; right|].
    destruct r as [[]|e]; cbn; [|by intros Ho'%forced_error_outcome_cases].
    intros Hc. split; [done|]. destruct (Hx Hc) as (s1 & r' & Hcf & Ha & Hb & Hs).
    exists s1, r'. split_and!; [done|by etransitivity|by etransitivity|].
    by eapply seen_weaken; [exact Hl|exact Hs|].
  - cbn. split_and!; [done|auto|done].
  - cbn. split_and!; [done|auto|done].
  - cbn. split_and!; [done|by right|]. by intros Ho'%forced_error_outcome_cases.
Qed.

(** C6: One forced execution, whatever others do and whichever calls are lost: its steps
    are those of [forced_step]; the lane is given back; and it reports completion
    only when the receipt was completed under its claim, after the public lock and
    each frozen resource had been seen gone. *)
Theorem forced_execution_safe (w : World ExecState E) :
  let (x, w') := forced_execute_with_evidence fates others me claim worker w in
  FAlong (w_store w) (w_store w')
  ∧ (w' = w ∨ lane_free_again others id w w')
  ∧ (fe_outcome x = ForceCompleted →
     is_Some (dj_force_requested_at (cdj_job claim))
     ∧ completed_properly (w_store w) (w_store w')).
Proof. apply forced_execution_spec. Qed.
End forced.

(** * Executions nobody interferes with *)

Section alone.
  Context {E : Type} (fates : nat → Fate) (others : nat → ExecState → ExecState).
  Context (quiet : ∀ n s, others n s = s) (me : nat).

(** On stores: whatever becomes of the request. *)
Lemma triple_call {A} (P : ExecState → Prop) (Q : result ApplicationError A → ExecState → Prop)
    (op : ExecState → result ApplicationError (A * ExecState)) :
  (∀ s, P s → (∀ e, Q (Err e) s)
              ∧ ∀ a s', op s = Ok (a, s') → Q (Ok a) s' ∧ ∀ e, Q (Err e) s') →
  triple (E := E) (λ w, P (w_store w)) (Run.call fates others op) (λ r w, Q r (w_store w)).
Proof.
  intros HQ w Hw. destruct (Run.call fates others op w) as [r w'] eqn:Hc.
  apply call_inv in Hc. cbn zeta in Hc. rewrite quiet in Hc. cbn.
  destruct (HQ _ Hw) as [Herr Hok].
  destruct Hc as [(a & -> & Hs)|(e & -> & [[_ ->]|(_ & [->|(a & Hs)])])]; try done.
  - by apply (Hok a).
  - by apply (Hok a).
Qed.

Lemma acquire_lane_alone live job s :
  triple (E := E) (λ w, w_store w = s) (acquire_lane fates others me live job)
    (λ r w, match r with
            | Ok LaneAcquired =>
                ex_owned s !! job = None
                ∧ w_store w = ex_with_owned s (<[job := me]> (ex_owned s))
            | _ => w_store w = s
            end).
Proof.
  intros w Hw. unfold acquire_lane, run_bind, lane_enter. rewrite quiet, Hw.
  destruct (fates (w_ticks w)); cbn; [|done|done]. destruct (ex_owned s !! job) eqn:Ho; cbn; [done|].
  unfold act_bind.
  set (s1 := ex_with_owned s (<[job := me]> (ex_owned s))).
  assert (Hleave : ex_with_owned s1 (delete job (ex_owned s1)) = s).
  { destruct s. unfold s1, ex_with_owned. cbn in *. f_equal. by rewrite delete_insert_id. }
  set (w1 := MkWorld s1 _ _).
  pose proof (triple_call (eq s1) (λ _ s2, s2 = s1)
    (λ s, '(a, r) ← Ok (live (ex_now s) (ex_repo s), ex_repo s); Ok (a, ex_with_repo s r))%stdpp) as Hc.
  specialize (Hc ltac:(intros s2 <-; split; [done|]; by intros a s3 [= <- <-]) w1 eq_refl).
  unfold ask_repo. cbn in Hc. destruct (Run.call _ _ _ w1) as [res w2]. cbn in Hc.
  destruct res as [[]|e]; cbn; rewrite ?quiet, ?Hc; done.
Qed.

Lemma release_lane_alone job w :
  (w_store (E := E) (release_lane fates others job w).2)
  = ex_with_owned (w_store w) (delete job (ex_owned (w_store w))).
Proof.
  unfold release_lane, act_bind, lane_leave. rewrite quiet. cbn. by destruct (fates _).
Qed.

(** ** Forced *)

Context (claim : ClaimedContentLockDeletionJob) (worker : string).
Let id := cj_id claim.
Let creator := dj_creator (cdj_job claim).
Abbreviation Frozen := (frozen_resource_paths claim).

(** What is gone of the public lock and the resources [paths], compared to [s]. *)
Record gone (public : bool) (paths : list string) (s s' : ExecState) : Prop := {
  gone_now : ex_now s' = ex_now s;
  gone_repo : ex_repo s' = ex_repo s;
  gone_owned : ex_owned s' = ex_owned s;
  gone_public : public = true → public_absent claim s';
  gone_other_public key :
    key ≠ (creator, cj_path claim) → ex_public s' !! key = ex_public s !! key;
  gone_paths path : path ∈ paths → resource_absent claim path s';
  gone_other_resources key :
    (∀ path, path ∈ Frozen → key ≠ (creator, path)) →
    ex_resources s' !! key = ex_resources s !! key;
}.

Lemma gone_refl s : gone false [] s s.
Proof. split; try done. by intros ? ?%elem_of_nil. Qed.

Lemma gone_weaken public paths s s' : gone public paths s s' → gone false [] s s'.
Proof. intros [? ? ? ? ? ? ?]. split; try done. by intros ? ?%elem_of_nil. Qed.

Lemma gone_remove_public public paths s s' :
  gone public paths s s' →
  gone true paths s (ex_with_public s' (delete (creator, cj_path claim) (ex_public s'))).
Proof.
  intros [? ? ? ? Hp ? ?]. split; try done; cbn.
  - intros _. apply lookup_delete_eq.
  - intros key Hkey. rewrite lookup_delete_ne by done. by apply Hp.
Qed.

Lemma gone_remove_resource public paths path s s' :
  path ∈ Frozen → gone public paths s s' →
  gone public (path :: paths) s (ex_with_resources s' (delete (creator, path) (ex_resources s'))).
Proof.
  intros Hin [? ? ? ? ? Hp Hr]. split; try done; cbn.
  - intros p Hpath. unfold resource_absent, get_current_guarded_resource. cbn.
    destruct (decide (p = path)) as [->|Hne]; [apply lookup_delete_eq|].
    rewrite lookup_delete_ne by congruence. apply Hp. by apply elem_of_cons in Hpath as [->|].
  - intros key Hkey. rewrite lookup_delete_ne by (intros <-; by eapply Hkey). by apply Hr.
Qed.

Lemma force_delete_alone s :
  triple (E := E) (λ w, gone false [] s (w_store w))
    (force_delete_content_lock_and_verify_absent fates others creator (cj_path claim))
    (λ r w, match r with
            | Ok _ => gone true [] s (w_store w)
            | Err _ => gone false [] s (w_store w)
            end).
Proof.
  eapply triple_run_bind with (R := λ _ w, gone true [] s (w_store w)).
  - apply (triple_call _ (λ r s', match r with Ok _ => gone true [] s s' | Err _ => gone false [] s s' end)).
    intros s' Hg. split; [done|]. intros a s2 [= <- <-]. pose proof (gone_remove_public _ _ _ _ Hg).
    split; [done|]. intros _. by eapply gone_weaken.
  - intros old. eapply triple_run_bind with (R := λ _ w, gone true [] s (w_store w)).
    + apply (triple_call _ (λ r s', match r with Ok _ => gone true [] s s' | Err _ => gone false [] s s' end)).
      intros s' Hg. split; [intros; by eapply gone_weaken|]. intros a s2 [= <- <-].
      rewrite ex_with_public_id. split; [done|]. intros; by eapply gone_weaken.
    + intros left. destruct left; cbn; apply triple_ret; intros w Hw; [by eapply gone_weaken|done].
Qed.

Lemma delete_resources_alone s paths done_paths evidence failed :
  (∀ path, path ∈ paths → path ∈ Frozen) →
  triple (E := E) (λ w, gone true done_paths s (w_store w))
    (delete_resources fates others creator paths evidence failed)
    (λ x w, gone true [] s (w_store w)
            ∧ (x.2 = false →
               failed = false ∧ gone true (reverse paths ++ done_paths) s (w_store w))).
Proof.
  revert done_paths evidence failed.
  induction paths as [|path paths IH]; intros done_paths evidence failed Hin.
  { apply triple_ret. intros w Hw. split; [|done].
    destruct Hw as [? ? ? ? ? ? ?]. split; try done. by intros ? ?%elem_of_nil. }
  assert (path ∈ Frozen) as Hpath by (apply Hin; by left).
  eapply triple_bind with (R := λ r w, match r with
    | Ok _ => gone true (path :: done_paths) s (w_store w)
    | Err _ => gone true done_paths s (w_store w)
    end).
  - apply (triple_call _ (λ r s', match r with
      | Ok _ => gone true (path :: done_paths) s s'
      | Err _ => gone true done_paths s s' end)).
    intros s' Hg. split; [done|]. intros a s2 [= <- <-].
    pose proof (gone_remove_resource _ _ _ _ _ Hpath Hg) as Hg'. split; [done|]. intros _.
    destruct Hg' as [? ? ? ? ? Hp ?]. split; try done. intros p Hp'. apply Hp. by right.
  - intros [deleted|e].
    + eapply triple_conseq; [apply (IH (path :: done_paths))|done|].
      * intros p Hp. apply Hin. by right.
      * intros x w [Hx Hx']. split; [done|]. intros Hf. rewrite reverse_cons, <- app_assoc.
        by apply Hx'.
    + eapply triple_conseq; [apply (IH done_paths)|done|].
      * intros p Hp. apply Hin. by right.
      * intros x w [Hx Hx']. split; [done|]. intros Hf. by destruct (Hx' Hf).
Qed.

Lemma complete_force_false r job w t now r' :
  complete_force_deletion r job w t now = (false, r') → r' = r.
Proof.
  unfold complete_force_deletion. destruct (find_entry _ _) as [[key sj]|]; [|by intros [= <-]].
  split_match; [by intros [= <-]|]. split_match; [done|by intros [= <-]].
Qed.

(** The end of a forced execution. *)
Definition forced_end (s s' : ExecState) : Prop :=
  ∃ s1, complete_force_deletion (ex_repo s) id worker (cdj_claim_token claim) (ex_now s)
        = (true, ex_repo s')
        ∧ s' = ex_with_repo s1 (ex_repo s') ∧ gone true Frozen s s1.

Lemma forced_guarded_alone s :
  triple (E := E) (λ w, w_store w = s) (forced_execute_guarded fates others claim worker)
    (λ x w, (gone false [] s (w_store w) ∧ fe_outcome x ≠ ForceCompleted)
            ∨ forced_end s (w_store w)).
Proof.
  eapply triple_bind; [eapply triple_conseq; [apply (force_delete_alone s)| |]|].
  { intros w <-. apply gone_refl. }
  { intros r w Hw. exact Hw. }
  intros [[]|e].
  2:{ apply triple_ret. intros w Hw. left. split; [done|]. apply forced_error_outcome_cases. }
  eapply triple_bind; [by apply (delete_resources_alone s Frozen [])|].
  intros [evidence failed]. cbn [snd]. destruct failed.
  { apply triple_ret. intros w [Hw _]. left. split; [by eapply gone_weaken|done]. }
  eapply triple_bind; [refine (triple_call
    (λ s', gone true [] s s' ∧ (false = false →
       false = false ∧ gone true (reverse Frozen ++ []) s s'))
    (λ r s', match r with
             | Ok true => forced_end s s'
             | Ok false => gone false [] s s'
             | Err _ => gone false [] s s' ∨ forced_end s s'
             end) _ _)|].
  - intros s' [_ Hg]. destruct (Hg eq_refl) as [_ Hgone]. clear Hg. rewrite app_nil_r in Hgone.
    assert (gone false [] s s') by by eapply gone_weaken. split; [by left|].
    intros b s2 Hs. cbn in Hs.
    destruct (complete_force_deletion _ _ _ _ _) as [b' r'] eqn:Hc. injection Hs as -> <-.
    rewrite (gone_repo _ _ _ _ Hgone), (gone_now _ _ _ _ Hgone) in Hc.
    destruct b.
    + assert (forced_end s (ex_with_repo s' r')); [|by auto]. exists s'. split_and!; [done|done|].
      destruct Hgone as [? ? ? ? ? Hp ?]. split; try done. intros p Hin. apply Hp.
      by rewrite elem_of_reverse.
    + apply complete_force_false in Hc as ->. rewrite <- (gone_repo _ _ _ _ Hgone).
      rewrite ex_with_repo_id. by auto.
  - intros [[]|e]; apply triple_ret; intros w Hw.
    + by right.
    + by left.
    + destruct Hw as [Hw|Hw]; [left|by right]. split; [done|]. cbn. apply forced_error_outcome_cases.
Qed.

(** A forced execution nobody interferes with, whichever calls are lost: it touches the
    public lock, the frozen resources and the repository, nothing else; the
    repository changes only by completing the receipt, and then the public lock and
    every frozen resource are gone; it reports completion only in that case. *)
Theorem forced_execution_alone (w : World ExecState E) :
  let (x, w') := forced_execute_with_evidence fates others me claim worker w in
  let s := w_store w in
  let s' := w_store w' in
  ex_owned s' = ex_owned s
  ∧ (∀ key, key ≠ (creator, cj_path claim) → ex_public s' !! key = ex_public s !! key)
  ∧ (∀ key, (∀ path, path ∈ Frozen → key ≠ (creator, path)) →
       ex_resources s' !! key = ex_resources s !! key)
  ∧ (ex_repo s' = ex_repo s ∧ fe_outcome x ≠ ForceCompleted
     ∨ complete_force_deletion (ex_repo s) id worker (cdj_claim_token claim) (ex_now s)
       = (true, ex_repo s')
       ∧ public_absent claim s' ∧ ∀ path, path ∈ Frozen → resource_absent claim path s').
Proof.
  unfold forced_execute_with_evidence.
  destruct (is_none _); [cbn; split_and!; [done..|by left]|]. unfold try_acquire, act_bind. cbn [ac_job_id].
  match goal with |- context [acquire_lane _ _ _ ?live ?job w] =>
    pose proof (acquire_lane_alone live job (w_store w) w eq_refl) as Hacq end.
  destruct (acquire_lane _ _ _ _ _ w) as [g w1]. cbn [fst snd] in Hacq.
  destruct g as [[]|e]; [|cbn; rewrite Hacq; split_and!; [done..|left]..]; [|done|done|].
  2:{ split; [done|]. apply forced_error_outcome_cases. }
  destruct Hacq as [Ho Hs1]. pose proof (forced_guarded_alone _ w1 Hs1) as Hg.
  destruct (forced_execute_guarded _ _ _ _ w1) as [x w2]. cbn [fst snd] in Hg.
  pose proof (release_lane_alone (cj_id claim) w2) as Hrel.
  destruct (release_lane _ _ _ w2) as [r w3]. cbn [snd] in Hrel. cbn. rewrite Hrel. cbn.
  assert (Hlane : delete (cj_id claim) (<[cj_id claim := me]> (ex_owned (w_store w)))
                  = ex_owned (w_store w)) by by apply delete_insert_id.
  assert (Hout : fe_outcome x ≠ ForceCompleted → ∀ r, fe_outcome (match r with
    | Ok () => forced_with_evidence
                 (forced_with_evidence x (evidence_healthy RepositoryActionLock))
                 (evidence_healthy RepositoryActionLockRelease)
    | Err error => forced_with_evidence
                     (forced_error_execution error RepositoryActionLockRelease)
                     (evidence_merge (fe_evidence x) (evidence_healthy RepositoryActionLock))
    end) ≠ ForceCompleted).
  { intros Hx [[]|e]; [done|]. apply forced_error_outcome_cases. }
  destruct Hg as [[Hg Hx]|(s1 & Hc & He & Hg)].
  - destruct Hg as [Hn Hr Ho' _ Hp _ Hres]. rewrite Ho'. cbn in *.
    split_and!; [done|done|done|]. left. split; [done|]. by apply Hout.
  - rewrite He. destruct Hg as [Hn Hr Ho' Hpub Hp Hpaths Hres]. cbn in *. rewrite Ho'.
    split_and!; [done|done|done|]. right. split_and!; [done|by apply Hpub|done].
Qed.
End alone.

(** * What the graceful executor leaves alone *)

Section graceful_effects.
  Context `{Base32, JsonCanonicalizer, CanonicalizationError, Rfc3339, TimeCrate, Blake3, Base64Url, Aead}.

(** Everything but one job, its tasks and credentials, its lane, and the public locks. *)
Record keeps (id : Uuid) (s s' : ExecState) : Prop := {
  kp_resources : ex_resources s' = ex_resources s;
  kp_receipts : del_receipts (ex_repo s') = del_receipts (ex_repo s);
  kp_intents : del_intents (ex_repo s') = del_intents (ex_repo s);
  kp_ownership : del_ownership (ex_repo s') = del_ownership (ex_repo s);
  kp_jobs key sj :
    del_jobs (ex_repo s) !! key = Some sj → dj_job_id (sj_job sj) ≠ id →
    del_jobs (ex_repo s') !! key = Some sj;
  kp_lanes job : job ≠ id → ex_owned s' !! job = ex_owned s !! job;
  kp_invariant :
    repo_ok (ex_now s) (ex_repo s) → repo_ok (ex_now s') (ex_repo s') ∧ ex_now s ≤ ex_now s';
}.

#[global] Instance keeps_preorder id : PreOrder (keeps id).
Proof.
  split.
  - intros s. by split.
  - intros s1 s2 s3 [A1 A2 A3 A6 A4 A5 A7] [B1 B2 B3 B6 B4 B5 B7]. split; try congruence.
    + intros key sj Hsj Hne. by apply B4; [apply A4|].
    + intros job Hne. by rewrite B5, A5.
    + intros Hok. destruct (A7 Hok) as [Hok2 ?]. destruct (B7 Hok2). split; [done|lia].
Qed.

(** Writing back a job found by its lease. *)
Lemma find_owned_id r job worker token now key sj :
  find_owned r job worker token now = Some (key, sj) →
  del_jobs r !! key = Some sj ∧ dj_job_id (sj_job sj) = job.
Proof.
  intros Hf. apply find_entry_Some in Hf as [Hsj Ho].
  by apply owns_claim_running in Ho as [Hid _].
Qed.

(** The parts of a repository an operation under a claim leaves alone. *)
Record claim_frame (id : Uuid) (r r' : DeletionRepo) : Prop := {
  cf_receipts : del_receipts r' = del_receipts r;
  cf_intents : del_intents r' = del_intents r;
  cf_ownership : del_ownership r' = del_ownership r;
  cf_jobs key sj :
    del_jobs r !! key = Some sj → dj_job_id (sj_job sj) ≠ id → del_jobs r' !! key = Some sj;
}.

Lemma claim_frame_refl id r : claim_frame id r r.
Proof. by split. Qed.

Lemma claim_frame_store id r key sj sj' :
  del_jobs r !! key = Some sj → dj_job_id (sj_job sj) = id →
  claim_frame id r (store_job r key sj').
Proof.
  intros Hsj Hid. split; try done. intros k sj0 Hsj0 Hne. cbn.
  rewrite lookup_insert_ne; [done|]. intros <-. rewrite Hsj in Hsj0. by simplify_eq.
Qed.

Lemma claim_op_frame claim worker now r r' :
  claim_op claim worker now r r' → claim_frame (cj_id claim) r r'.
Proof.
  intros Hop. destruct Hop as [next o r' Hop|code o r' Hop|b r' Hop|issue read x a' Hop|
                               key nonce c b cand at_ o a' Hop].
  - unfold advance_phase in Hop. destruct (find_owned _ _ _ _ _) as [[key sj]|] eqn:Hf.
    2:{ injection Hop as _ <-. apply claim_frame_refl. }
    apply find_owned_id in Hf as [Hsj Hid]. apply bind_Ok in Hop as ([] & _ & Hop).
    split_match in Hop; [injection Hop as _ <-; apply claim_frame_refl|].
    apply bind_Ok in Hop as (st & _ & Hop). destruct st; injection Hop as _ <-;
      first [apply claim_frame_refl|by eapply claim_frame_store].
  - unfold finish in Hop. destruct (find_owned _ _ _ _ _) as [[key sj]|] eqn:Hf.
    2:{ injection Hop as _ <-. apply claim_frame_refl. }
    apply find_owned_id in Hf as [Hsj Hid]. apply bind_Ok in Hop as ([] & _ & Hop).
    injection Hop as _ <-. by eapply claim_frame_store.
  - unfold del_expire_unresolved_non_paykit_tasks in Hop.
    apply bind_Ok in Hop as ([b' [a t]] & _ & Hop). injection Hop as _ <-. by split.
  - by split.
  - by split.
Qed.

Lemma claim_op_ok claim worker clock r r' :
  claim_op claim worker clock r r' → repo_ok clock r → repo_ok clock r'.
Proof.
  intros Hop Hok. assert (clock ≤ clock) by lia.
  destruct Hop as [next o r' Hop|code o r' Hop|b r' Hop|issue read x a' Hop|
                   key nonce c b cand at_ o a' Hop].
  - eapply deletion_step_ok; [done|by eapply ds_advance|done].
  - eapply deletion_step_ok; [done|by eapply ds_finish|done].
  - eapply deletion_step_ok; [done|by eapply ds_expire|done].
  - eapply deletion_step_ok; [done|by eapply ds_access, ao_windows|done].
  - eapply repo_ok_access; [done|by eapply issue_for_worker_frame|done].
Qed.

Lemma graceful_step_keeps me claim worker s s' :
  graceful_step me claim worker s s' → keeps (cj_id claim) s s'.
Proof.
  intros Hs. destruct Hs as [Ho|Ho|r' Ho Hop|bs Ho Hp Hbs].
  - split; try done. intros job Hne. cbn. by rewrite ?lookup_insert_ne, ?lookup_delete_ne.
  - split; try done. intros job Hne. cbn. by rewrite ?lookup_insert_ne, ?lookup_delete_ne.
  - pose proof (claim_op_frame _ _ _ _ _ Hop) as [? ? ? ?]. split; try done.
    intros Hok. cbn. split; [by eapply claim_op_ok|lia].
  - by split.
Qed.

(** ** Nobody interferes *)

Section quiet.
  Context {E : Type} (fates : nat → Fate) (others : nat → ExecState → ExecState).
  Context (quiet : ∀ n s, others n s = s).
  Context (me : nat) (claim : ClaimedContentLockDeletionJob) (worker : string).
Let id := cj_id claim.
Let creator := dj_creator (cdj_job claim).

(** The frozen lock in public, replaced by the tombstone. *)
Definition withdrawn (p p' : PublicContentLocks) : Prop :=
  ∃ original bs,
    canonical_json_bytes (dj_frozen_content_lock (cdj_job claim)) = Ok original
    ∧ public_get p creator (cj_path claim) = Some original
    ∧ canonical_tombstone_bytes (tombstone claim) = Ok bs
    ∧ p' = public_put p creator (cj_path claim) bs.

Abbreviation Published p := (λ s, ex_public s = p ∨ withdrawn p (ex_public s)).

Lemma ask_repo_public {A} op p :
  triple (E := E) (λ w, Published p (w_store w)) (ask_repo (A := A) fates others op)
    (λ _ w, Published p (w_store w)).
Proof.
  apply (triple_call fates others quiet (Published p) (λ _, Published p)). intros s Hs. split; [done|].
  intros a s' Hop. apply bind_Ok in Hop as ([x r] & _ & [= -> <-]). done.
Qed.

Lemma ask_public_read_alone {A} (f : PublicContentLocks → A) (P : ExecState → Prop) :
  triple (E := E) (λ w, P (w_store w)) (ask_public fates others (λ p, (f p, p)))
    (λ r w, P (w_store w) ∧ ∀ a, r = Ok a → a = f (ex_public (w_store w))).
Proof.
  apply (triple_call fates others quiet P (λ r s, P s ∧ ∀ a, r = Ok a → a = f (ex_public s))).
  intros s Hs. split; [done|]. intros a s' [= <- <-]. rewrite ex_with_public_id.
  by split; [split; [|intros ? [= <-]]|].
Qed.

Lemma read_tombstone_alone path t p :
  triple (E := E) (λ w, Published p (w_store w)) (read_tombstone fates others creator path t)
    (λ _ w, Published p (w_store w)).
Proof.
  apply triple_lift; [|done]. intros bs _.
  eapply triple_run_bind with (R := λ _ w, Published p (w_store w)); [|by intros x w Hw].
  eapply triple_conseq; [apply (ask_public_read_alone _ (Published p))|done|].
  by intros [a|e] w [Hw _].
Qed.

Lemma withdraw_alone p :
  triple (E := E) (λ w, ex_public (w_store w) = p)
    (withdraw_content_lock fates others creator (cj_path claim)
       (dj_frozen_content_lock (cdj_job claim)) (tombstone claim))
    (λ _ w, Published p (w_store w)).
Proof.
  apply triple_lift; [|by left]. intros bs Hbs.
  apply triple_lift; [|by left]. intros original Ho%map_err_Ok.
  eapply triple_run_bind with (R := λ a w, ex_public (w_store w) = p
                                           ∧ a = public_get p creator (cj_path claim)).
  { eapply triple_conseq; [apply (ask_public_read_alone _ (λ s, ex_public s = p))|done|].
    intros [a|e] w [Hw Ha]; [|by left]. rewrite (Ha _ eq_refl), Hw. done. }
  intros [actual|]; [|by intros w [Hw _]; left].
  destruct (actual == bs); [by intros w [Hw _]; left|].
  destruct (actual == original) eqn:Heq; [|by intros w [Hw _]; left].
  apply eqb_true in Heq as ->.
  eapply triple_run_bind with (R := λ _ w, Published p (w_store w));
    [|intros a; apply read_tombstone_alone].
  eapply triple_conseq; [apply (triple_call fates others quiet
    (λ s, ex_public s = p ∧ Some original = public_get p creator (cj_path claim))
    (λ _, Published p))|done|by intros [] w].
  intros s [Hs Hget]. split; [by left|]. intros a s' [= <- <-].
  assert (withdrawn p (public_put (ex_public s) creator (cj_path claim) bs)); [|by cbn; auto].
  exists original, bs. by rewrite Hs.
Qed.

Lemma finish_terminal_public code p :
  triple (E := E) (λ w, Published p (w_store w)) (finish_terminal fates others claim worker code)
    (λ _ w, Published p (w_store w)).
Proof. eapply triple_bind; [apply ask_repo_public|]. intros r. by apply triple_ret. Qed.

Lemma advance_public next p :
  triple (E := E) (λ w, Published p (w_store w)) (advance fates others claim worker next)
    (λ _ w, Published p (w_store w)).
Proof.
  eapply triple_bind; [apply ask_repo_public|].
  intros [[]|]; first [apply finish_terminal_public|by apply triple_ret].
Qed.

Lemma withdraw_with_evidence_public p :
  triple (E := E) (λ w, ex_public (w_store w) = p) (withdraw_with_evidence fates others claim worker)
    (λ _ w, Published p (w_store w)).
Proof.
  eapply triple_bind; [apply withdraw_alone|]. intros [[]|]; [..|by apply triple_ret].
  - eapply triple_bind; [apply advance_public|]. intros o. by apply triple_ret.
  - eapply triple_bind; [apply finish_terminal_public|]. intros o. by apply triple_ret.
  - eapply triple_bind; [apply finish_terminal_public|]. intros o. by apply triple_ret.
Qed.

Context (cipher_key : bytes) (nonces : nat → bytes).
Context (generator : nat → result ApplicationError AccessCredential).
Context (config : ContentLockDeletionPhaseExecutorConfig).
Context (payments : ClaimedContentLockDeletionJob → string → Act ExecState E DeletionPhaseExecution).
Context (payments_ok : dj_phase (cdj_job claim) = StartPaymentDrain
                       ∨ dj_phase (cdj_job claim) = DrainPayments →
           inside others (graceful_step me claim worker) me id (payments claim worker)
             (λ s x s', truthful others me claim worker (dj_phase (cdj_job claim)) s (pe_outcome x) s')).

Lemma quiet_lane_kept n s : ex_owned s !! id = Some me → ex_owned (others n s) !! id = Some me.
Proof. by rewrite quiet. Qed.

Lemma along_public s s' :
  dj_phase (cdj_job claim) ≠ Withdraw → along others (graceful_step me claim worker) s s' →
  ex_public s' = ex_public s.
Proof.
  intros Hp. apply (along_mono _ _ (λ s s', ex_public s' = ex_public s)).
  - split; [done|]. intros s1 s2 s3 H1' H2'. congruence.
  - clear s s'. intros s s' Hs. by destruct Hs.
  - intros n s1. by rewrite quiet.
Qed.

Lemma guarded_public p :
  triple (E := E) (λ w, ex_public (w_store w) = p ∧ ex_owned (w_store w) !! id = Some me)
    (execute_guarded_with_evidence fates others cipher_key nonces generator config payments claim
       worker)
    (λ _ w, ex_public (w_store w) = p
            ∨ dj_phase (cdj_job claim) = Withdraw ∧ withdrawn p (ex_public (w_store w))).
Proof.
  destruct (decide (dj_phase (cdj_job claim) = Withdraw)) as [Hp|Hp].
  - unfold execute_guarded_with_evidence. rewrite Hp.
    eapply triple_conseq; [apply (withdraw_with_evidence_public p)|by intros w []|].
    intros x w [Hw|Hw]; auto.
  - intros w [Hw Ho]. pose proof (inside_guarded fates others me claim worker quiet_lane_kept cipher_key
      nonces generator config payments payments_ok w Ho) as Hin.
    destruct (execute_guarded_with_evidence _ _ _ _ _ _ _ _ _ w) as [x w'].
    destruct Hin as [Hl _]. left. cbn. by rewrite (along_public _ _ Hp Hl).
Qed.

(** A graceful execution nobody interferes with, whichever calls are lost: guarded
    resources, force receipts, publication intents, path ownership, other jobs and
    all lanes are as before, the repository's invariant is kept, and the public lock
    changes only in the withdrawal phase, from the exact frozen bytes to the
    tombstone. *)
Theorem graceful_execution_alone (w : World ExecState E) :
  let (x, w') := execute_with_evidence fates others me cipher_key nonces generator config payments
                   claim worker w in
  keeps id (w_store w) (w_store w')
  ∧ ex_owned (w_store w') = ex_owned (w_store w)
  ∧ (ex_public (w_store w') = ex_public (w_store w)
     ∨ dj_phase (cdj_job claim) = Withdraw
       ∧ withdrawn (ex_public (w_store w)) (ex_public (w_store w'))).
Proof.
  pose proof (graceful_execution_spec fates others me claim worker quiet_lane_kept cipher_key nonces
    generator config payments payments_ok w) as Hspec.
  assert (Hpub : ex_public (w_store (execute_with_evidence fates others me cipher_key nonces generator
      config payments claim worker w).2) = ex_public (w_store w)
     ∨ dj_phase (cdj_job claim) = Withdraw
       ∧ withdrawn (ex_public (w_store w)) (ex_public (w_store (execute_with_evidence fates others me
           cipher_key nonces generator config payments claim worker w).2))).
  { unfold execute_with_evidence, try_acquire, act_bind. cbn [ac_job_id].
    match goal with |- context [acquire_lane _ _ _ ?live ?job w] =>
      pose proof (acquire_lane_alone fates others quiet me live job (w_store w) w eq_refl) as Hacq end.
    destruct (acquire_lane _ _ _ _ _ w) as [g w1]. cbn [fst snd] in Hacq.
    destruct g as [[]|e]; [|by left; cbn; rewrite Hacq..].
    destruct Hacq as [Ho Hs1].
    assert (ex_public (w_store w1) = ex_public (w_store w)) as Hp1 by by rewrite Hs1.
    assert (ex_owned (w_store w1) !! id = Some me) as Ho1 by (rewrite Hs1; apply lookup_insert_eq).
    pose proof (guarded_public _ w1 (conj Hp1 Ho1)) as Hg.
    destruct (execute_guarded_with_evidence _ _ _ _ _ _ _ _ _ w1) as [x w2]. cbn [fst snd] in Hg.
    pose proof (release_lane_alone fates others quiet (cj_id claim) w2) as Hrel.
    destruct (release_lane _ _ _ w2) as [r w3]. cbn [snd] in Hrel. cbn. by rewrite Hrel. }
  destruct (execute_with_evidence _ _ _ _ _ _ _ _ _ _ w) as [x w']. destruct Hspec as (Hl & Hlane & _).
  assert (Hk : keeps id (w_store w) (w_store w')).
  { eapply along_mono; [apply _|apply graceful_step_keeps| |exact Hl]. intros n s. by rewrite quiet. }
  split_and!; [done| |done]. destruct Hlane as [->|[Ho Ho']]; [by rewrite quiet|].
  rewrite quiet in Ho. apply map_eq. intros job.
  destruct (decide (job = id)) as [->|Hne]; [by transitivity (@None nat)|]. by apply (kp_lanes _ _ _ Hk).
Qed.
End quiet.

(** ** Among others *)

(** C5: One graceful execution, whatever others do and whichever calls are lost.  All its
    steps are steps of [graceful_step], taken in its job's lane; it found the lane
    free and gives it back, or did nothing; its outcome is true; and when the others
    keep the repository's invariant, so does it. *)
Theorem graceful_execution_safe {E : Type} fates others me claim worker cipher_key nonces generator
    config payments (w : World ExecState E) :
  (∀ n s, ex_owned s !! cj_id claim = Some me → ex_owned (others n s) !! cj_id claim = Some me) →
  (dj_phase (cdj_job claim) = StartPaymentDrain ∨ dj_phase (cdj_job claim) = DrainPayments →
   inside others (graceful_step me claim worker) me (cj_id claim) (payments claim worker)
     (λ s x s', truthful others me claim worker (dj_phase (cdj_job claim)) s (pe_outcome x) s')) →
  let (x, w') := execute_with_evidence fates others me cipher_key nonces generator config payments
                   claim worker w in
  along others (graceful_step me claim worker) (w_store w) (w_store w')
  ∧ lane_free_again others (cj_id claim) w w'
  ∧ truthful others me claim worker (dj_phase (cdj_job claim)) (w_store w) (pe_outcome x) (w_store w')
  ∧ ((∀ n s, repo_ok (ex_now s) (ex_repo s) → repo_ok (ex_now (others n s)) (ex_repo (others n s))) →
     repo_ok (ex_now (w_store w)) (ex_repo (w_store w)) →
     repo_ok (ex_now (w_store w')) (ex_repo (w_store w'))).
Proof.
  intros Hlane Hpay.
  pose proof (graceful_execution_spec fates others me claim worker Hlane cipher_key nonces generator
    config payments Hpay w) as Hspec.
  destruct (execute_with_evidence _ _ _ _ _ _ _ _ _ _ w) as [x w'].
  destruct Hspec as (Hl & Hfree & Ht). split_and!; [done|done|done|]. intros Hothers.
  revert Hl. apply (along_mono _ _ (λ s s', repo_ok (ex_now s) (ex_repo s) →
    repo_ok (ex_now s') (ex_repo s'))).
  - split; [by intros s|]. intros s1 s2 s3 H12 H23 H1'. auto.
  - intros s s' Hs Hok. by apply (kp_invariant _ _ _ (graceful_step_keeps _ _ _ _ _ Hs)).
  - done.
Qed.
End graceful_effects.
