(* ===== verification/DeletionWorker.v ===== *)
(** The worker that runs deletions ([locks-server/src/deletion_worker.rs]): it claims a
    job, has it executed, and retries, defers or gives up by the outcome; and how it
    derives its readiness from the evidence of its executions.  The theorems are on its
    retry policy, on what an iteration keeps, and on what readiness says.

    Clock, shutdown signal, fresh tokens, the order in which the repository finds its
    jobs and the jitter are functions of the position in the run. *)

From stdpp Require Import vector.
From S2P Require Import Prelude HashMaps RustStr Externals Ids Json LockPolicy Wire Errors Run.
From S2P Require Import Secrets Lifecycle DeletionJob AccessStore AccessDrain DeletionStore.
From S2P Require Import DeletionInv DeletionHistory DeletionEvidence AccessUse CreateLock.
From S2P Require Import Resources DeletionExec DeletionTrace DeletionEffects.

#[local] Open Scope act_scope.

(** * Durations *)

(** [std::time::Duration]: whole seconds in a [u64] and nanoseconds. *)
Definition NANOS : Z := 1000000000.
Definition STD_DURATION_MAX : Z := (U64_MAX + 1) * NANOS - 1.
Abbreviation StdDuration := Z (only parsing).

(** [Duration::checked_mul]. *)
Definition std_checked_mul (d : StdDuration) (n : Z) : option StdDuration :=
  if d * n <=? STD_DURATION_MAX then Some (d * n) else None.

(** [i64::try_from(secs).unwrap_or(i64::MAX)] seconds and the nanoseconds. *)
Definition to_time_duration (d : StdDuration) : Duration :=
  (if d / NANOS <=? I64_MAX then d / NANOS else I64_MAX) * NANOS + d mod NANOS.

(** The body of the loop, at most [n] times. *)
Fixpoint retry_cap_loop (n : nat) (maximum cap : StdDuration) : StdDuration :=
  match n with
  | O => cap
  | S n =>
      let cap := Z.min (default maximum (std_checked_mul cap 2)) maximum in
      if cap =? maximum then cap else retry_cap_loop n maximum cap
  end.

Definition retry_cap (initial maximum : StdDuration) (attempt_count : Z) : StdDuration :=
  retry_cap_loop (Z.to_nat (attempt_count - 1)) maximum (Z.min initial maximum).

(** * Outcomes *)

Record DeletionWorkerConfig := MkWorkerConfig {
  dw_worker_id : string;
  dw_poll_interval : StdDuration;
  dw_claim_timeout : StdDuration;
  dw_retry_max_attempts : Z;
  dw_retry_initial_backoff : StdDuration;
  dw_retry_max_backoff : StdDuration;
}.

Inductive DeletionWorkerOutcome :=
  | WorkerIdle
  | WorkerCancelled
  | WorkerProgressed
  | WorkerDeferred
  | WorkerClaimLost
  | WorkerTerminalFailed
  | WorkerRetryScheduled
  | WorkerRetryExhausted.

#[global] Instance DeletionWorkerOutcome_eq_dec : EqDecision DeletionWorkerOutcome.
Proof. solve_decision. Defined.

Record DeletionWorkerExecution := MkWorkerExecution {
  dwe_outcome : DeletionWorkerOutcome;
  dwe_evidence : DeletionDependencyEvidence;
}.

Record DeletionWorkerFailure := MkWorkerFailure {
  dwf_error : ApplicationError;
  dwf_evidence : DeletionDependencyEvidence;
}.

Definition failure_repository (error : ApplicationError) (source : DeletionDependencySource)
    (prior_evidence : DeletionDependencyEvidence) : DeletionWorkerFailure :=
  MkWorkerFailure error (evidence_merge prior_evidence (evidence_unavailable source)).

Definition failure_fatal (error : ApplicationError) : DeletionWorkerFailure :=
  MkWorkerFailure error evidence_none.

Inductive PollErrorDisposition := RetryableRepository | FatalPoll (class : string).

Definition classify_poll_error (error : ApplicationError) : PollErrorDisposition :=
  match error with
  | Storage _ => RetryableRepository
  | InvalidContentLockDeletionState _ => FatalPoll "invalid_deletion_state"
  | _ => FatalPoll "unexpected_application_error"
  end.

Definition redacted_fatal_poll_error (class : string) : ApplicationError :=
  InvalidContentLockDeletionState ("deletion worker terminated after " +:+ class).

Definition mutation_success_evidence (outcome : DeletionWorkerOutcome)
    (source : DeletionDependencySource) : DeletionDependencyEvidence :=
  if outcome == WorkerClaimLost then evidence_none else evidence_healthy source.

(** * Readiness *)

Inductive WorkerReadinessEvidence :=
  | ReadyStarting
  | ReadyReady
  | ReadyDependencySucceeded
  | ReadyTransientDependencyFailure
  | ReadyPendingWork
  | ReadyLockContention
  | ReadyTerminalBusinessFailure
  | ReadyStopping
  | ReadyStopped
  | ReadyUnexpectedExit.

Inductive WorkerKind := VerificationWorkerKind | DeletionWorkerKind.

Inductive WorkerReadinessState :=
  | StateDisabled | StateStarting | StateReady | StateDegraded | StateNotReady | StateStopped.

Inductive ReadinessStatus := StatusReady | StatusDegraded | StatusNotReady.

#[global] Instance WorkerReadinessState_eq_dec : EqDecision WorkerReadinessState.
Proof. solve_decision. Defined.

(** The two slots of [states]. *)
Record WorkerReadiness := MkReadiness {
  rd_verification : WorkerReadinessState;
  rd_deletion : WorkerReadinessState;
}.

Definition WorkerReadiness_new (verification_enabled deletion_enabled : bool) : WorkerReadiness :=
  let initial (enabled : bool) := if enabled then StateStarting else StateDisabled in
  MkReadiness (initial verification_enabled) (initial deletion_enabled).

Definition worker_state (self : WorkerReadiness) (worker : WorkerKind) : WorkerReadinessState :=
  match worker with
  | VerificationWorkerKind => rd_verification self
  | DeletionWorkerKind => rd_deletion self
  end.

Definition readiness_status (self : WorkerReadiness) : ReadinessStatus :=
  let states := [rd_verification self; rd_deletion self] in
  if existsb (λ state, (state == StateStarting) || (state == StateNotReady)
                       || (state == StateStopped)) states then StatusNotReady
  else if existsb (λ state, state == StateDegraded) states then StatusDegraded
  else StatusReady.

Definition readiness_record (self : WorkerReadiness) (worker : WorkerKind)
    (evidence : WorkerReadinessEvidence) : WorkerReadiness :=
  let state :=
    match evidence with
    | ReadyStarting => Some StateStarting
    | ReadyReady | ReadyDependencySucceeded => Some StateReady
    | ReadyTransientDependencyFailure => Some StateDegraded
    | ReadyStopping | ReadyUnexpectedExit => Some StateNotReady
    | ReadyStopped => Some StateStopped
    | ReadyPendingWork | ReadyLockContention | ReadyTerminalBusinessFailure => None
    end in
  match state, worker with
  | Some state, VerificationWorkerKind => MkReadiness state (rd_deletion self)
  | Some state, DeletionWorkerKind => MkReadiness (rd_verification self) state
  | None, _ => self
  end.

Record DeletionReadinessRecovery := MkRecovery { rec_degraded : vec bool 15 }.

Definition DeletionReadinessRecovery_default : DeletionReadinessRecovery :=
  MkRecovery (vreplicate 15 false).

(** The loop's body: what was observed of one dependency. *)
Definition degrade (evidence : DeletionDependencyEvidence) (degraded : vec bool 15)
    (source : DeletionDependencySource) : vec bool 15 :=
  match evidence_status evidence source with
  | Some Healthy => vinsert (source_index source) false degraded
  | Some Unavailable => vinsert (source_index source) true degraded
  | None => degraded
  end.

(** The new state, and what is recorded with the server's readiness. *)
Definition record_outcome (self : DeletionReadinessRecovery) (outcome : DeletionWorkerOutcome)
    (evidence : DeletionDependencyEvidence) :
    DeletionReadinessRecovery * option WorkerReadinessEvidence :=
  if outcome == WorkerCancelled then (self, None)
  else
    let degraded := fold_left (degrade evidence) source_ALL (rec_degraded self) in
    (MkRecovery degraded,
     Some (if existsb Datatypes.id (vec_to_list degraded) then ReadyTransientDependencyFailure
           else ReadyDependencySucceeded)).

(** * One iteration *)

Section worker.
  Context {E : Type} (fates : nat → Fate) (others : nat → ExecState → ExecState).
  Context (shutdown : nat → bool) (orders : nat → list (CreatorPubky * LockId)).
  Context (tokens : nat → Uuid) (jitter : nat → StdDuration → StdDuration).
  Context (config : DeletionWorkerConfig).
  (** [ClaimedDeletionExecutor]. *)
  Context (execute_claimed : ClaimedContentLockDeletionJob → string →
             Act ExecState E DeletionPhaseExecution).
Let worker_id := dw_worker_id config.

(** [*shutdown.borrow()]. *)
Definition borrow_shutdown : Act ExecState E bool := λ w, (shutdown (w_ticks w), w).

Definition ask_claim_next (claim_ttl : Duration) :
    Run ExecState E (option ClaimedContentLockDeletionJob) := λ w,
  ask_repo fates others
    (λ now r, Ok (claim_next r (orders (w_ticks w)) worker_id claim_ttl now (tokens (w_ticks w)))) w.

Definition defer_at (claim : ClaimedContentLockDeletionJob) (now due : OffsetDateTime)
    (success : DeletionWorkerOutcome) : Run ExecState E DeletionWorkerOutcome :=
  (updated ⟵ ask_repo fates others
               (λ at_ r, Ok (defer r (cj_id claim) worker_id (cdj_claim_token claim) (due - now) at_));
   run_ret (if is_some updated then success else WorkerClaimLost))%run.

Definition release_cancelled_claim (claim : ClaimedContentLockDeletionJob) :
    Run ExecState E DeletionWorkerOutcome :=
  now ⇐ clock_now others;
  defer_at claim now now WorkerCancelled.

Definition defer_claim (claim : ClaimedContentLockDeletionJob) :
    Run ExecState E DeletionWorkerOutcome :=
  now ⇐ clock_now others;
  defer_at claim now (now + to_time_duration (dw_poll_interval config)) WorkerDeferred.

(** [self.jitter.sample(cap).min(cap)]. *)
Definition sample_delay (cap : StdDuration) : Act ExecState E StdDuration := λ w,
  (Z.min (jitter (w_ticks w) cap) cap, w).

Definition retry_or_exhaust (claim : ClaimedContentLockDeletionJob) :
    Run ExecState E DeletionWorkerOutcome :=
  now ⇐ clock_now others;
  if dw_retry_max_attempts config <=? dj_attempt_count (cdj_job claim) then
    (updated ⟵ ask_repo fates others
                 (λ at_ r, finish r (cj_id claim) worker_id (cdj_claim_token claim)
                             (Some RetryExhausted) at_);
     run_ret (if is_some updated then WorkerRetryExhausted else WorkerClaimLost))%run
  else
    let cap := retry_cap (dw_retry_initial_backoff config) (dw_retry_max_backoff config)
                 (dj_attempt_count (cdj_job claim)) in
    delay ⇐ sample_delay cap;
    let next_attempt_at := now + to_time_duration delay in
    (updated ⟵ ask_repo fates others
                 (λ at_ r, Ok (schedule_retry r (cj_id claim) worker_id (cdj_claim_token claim)
                                 (next_attempt_at - now) at_));
     run_ret (if is_some updated then WorkerRetryScheduled else WorkerClaimLost))%run.

(** A repository call of the worker: its outcome with evidence, or a failure that
    names the call. *)
Definition concluding (call : Run ExecState E DeletionWorkerOutcome)
    (source : DeletionDependencySource) (prior : DeletionDependencyEvidence)
    (total : DeletionDependencyEvidence → DeletionDependencyEvidence) :
    Act ExecState E (result DeletionWorkerFailure DeletionWorkerExecution) :=
  outcome ⇐ call;
  act_ret match outcome with
          | Err error => Err (failure_repository error source prior)
          | Ok outcome =>
              Ok (MkWorkerExecution outcome (total (mutation_success_evidence outcome source)))
          end.

Definition run_once_with_evidence :
    Act ExecState E (result DeletionWorkerFailure DeletionWorkerExecution) :=
  stop ⇐ borrow_shutdown;
  if stop : bool then act_ret (Ok (MkWorkerExecution WorkerCancelled evidence_none))
  else
    claim_started_at ⇐ clock_now others;
    let claim_expires_at := claim_started_at + to_time_duration (dw_claim_timeout config) in
    let repository_healthy := evidence_healthy RepositoryQueueClaim in
    claimed ⇐ ask_claim_next (claim_expires_at - claim_started_at);
    match claimed with
    | Err error => act_ret (Err (failure_repository error RepositoryQueueClaim evidence_none))
    | Ok None => act_ret (Ok (MkWorkerExecution WorkerIdle repository_healthy))
    | Ok (Some claim) =>
        stop ⇐ borrow_shutdown;
        if stop : bool then
          concluding (release_cancelled_claim claim) RepositoryDefer repository_healthy
            (evidence_merge repository_healthy)
        else if dw_retry_max_attempts config <? dj_attempt_count (cdj_job claim) then
          concluding (retry_or_exhaust claim) RepositoryTerminalMutation repository_healthy
            (evidence_merge repository_healthy)
        else
          execution ⇐ execute_claimed claim worker_id;
          let prior := evidence_merge repository_healthy (pe_evidence execution) in
          let total mutation := evidence_merge
            (evidence_merge (pe_evidence execution) repository_healthy) mutation in
          let plainly outcome := act_ret (Ok (MkWorkerExecution outcome (total evidence_none))) in
          match pe_outcome execution with
          | Progressed => plainly WorkerProgressed
          | TerminalFailed => plainly WorkerTerminalFailed
          | PhaseClaimLost => plainly WorkerClaimLost
          | PhaseDeferred => concluding (defer_claim claim) RepositoryDefer prior total
          | TransientDependencyFailure =>
              let source :=
                if dw_retry_max_attempts config <=? dj_attempt_count (cdj_job claim)
                then RepositoryTerminalMutation else RepositoryRetry in
              concluding (retry_or_exhaust claim) source prior total
          | FatalFailure =>
              act_ret (Err (failure_fatal (redacted_fatal_poll_error "fatal_execution_failure")))
          end
    end.

Definition run_once : Act ExecState E (result ApplicationError DeletionWorkerOutcome) :=
  execution ⇐ run_once_with_evidence;
  act_ret match execution with
          | Ok x => Ok (dwe_outcome x)
          | Err failure => Err (dwf_error failure)
          end.

(** What the loop with readiness does after one iteration; [LoopSleep] waits for the
    poll interval or the shutdown signal. *)
Inductive LoopStep :=
  | LoopReturn (r : result ApplicationError ())
  | LoopSleep
  | LoopAgain.

Definition readiness_step (recovery : DeletionReadinessRecovery) :
    Act ExecState E (LoopStep * DeletionReadinessRecovery * option WorkerReadinessEvidence) :=
  stop ⇐ borrow_shutdown;
  if stop : bool then act_ret (LoopReturn (Ok ()), recovery, Some ReadyStopped)
  else
    execution ⇐ run_once_with_evidence;
    act_ret match execution with
            | Ok x =>
                if dwe_outcome x == WorkerCancelled
                then (LoopReturn (Ok ()), recovery, Some ReadyStopped)
                else
                  let (recovery, readiness) :=
                    record_outcome recovery (dwe_outcome x) (dwe_evidence x) in
                  (if (dwe_outcome x == WorkerIdle) || (dwe_outcome x == WorkerClaimLost)
                   then LoopSleep else LoopAgain, recovery, readiness)
            | Err failure =>
                match classify_poll_error (dwf_error failure) with
                | RetryableRepository =>
                    let (recovery, readiness) :=
                      record_outcome recovery WorkerRetryScheduled (dwf_evidence failure) in
                    (LoopSleep, recovery, readiness)
                | FatalPoll error_class =>
                    (LoopReturn (Err (redacted_fatal_poll_error error_class)), recovery,
                     Some ReadyUnexpectedExit)
                end
            end.
End worker.

(** * The executor of the server *)

Section runtime.
  (** The name of the execution, see [ex_owned]. *)
  Context (me : nat).
  Context `{JsonCanonicalizer, CanonicalizationError, Rfc3339, TimeCrate, Blake3, Base64Url, Aead}.
  Context {E : Type} (fates : nat → Fate) (others : nat → ExecState → ExecState).
  Context (cipher_key : bytes) (nonces : nat → bytes).
  Context (generator : nat → result ApplicationError AccessCredential).
  (** The configured windows in seconds, and the payment drain when Paykit is
      configured. *)
  Context (issuance_window_seconds read_window_seconds : Z).
  Context (real_paykit : option (ClaimedContentLockDeletionJob → string →
                                   Act ExecState E DeletionPhaseExecution)).

Definition runtime_executor_config : ContentLockDeletionPhaseExecutorConfig :=
  MkExecutorConfig (as_i64 issuance_window_seconds * NANOS) (as_i64 read_window_seconds * NANOS) 64.

Definition execute_graceful (claim : ClaimedContentLockDeletionJob) (worker_id : string) :
    Act ExecState E DeletionPhaseExecution :=
  execute_with_evidence fates others me cipher_key nonces generator runtime_executor_config
    (default (no_paykit_execute_claimed fates others) real_paykit) claim worker_id.

Definition runtime_execute_claimed (claim : ClaimedContentLockDeletionJob) (worker_id : string) :
    Act ExecState E DeletionPhaseExecution :=
  if is_some (dj_force_requested_at (cdj_job claim)) then
    execution ⇐ forced_execute_with_evidence fates others me claim worker_id;
    act_ret (with_evidence (phase_execution (forced_phase_outcome (fe_outcome execution)))
               (fe_evidence execution))
  else execute_graceful claim worker_id.
End runtime.

(** * Back-off *)

Lemma retry_cap_loop_spec n maximum cap :
  0 ≤ cap ≤ maximum → maximum ≤ STD_DURATION_MAX →
  retry_cap_loop n maximum cap = Z.min maximum (cap * 2 ^ Z.of_nat n).
Proof.
  intros Hcap Hmax. revert cap Hcap. induction n as [|n IH]; intros cap Hcap.
  { cbn. rewrite Z.mul_1_r. lia. }
  assert (0 < 2 ^ Z.of_nat n) by lia.
  rewrite Nat2Z.inj_succ, Z.pow_succ_r by lia. cbn [retry_cap_loop].
  unfold std_checked_mul. destruct (cap * 2 <=? STD_DURATION_MAX) eqn:Hm; cbn [default from_option]; unfold id.
  - destruct (Z.eqb_spec (Z.min (cap * 2) maximum) maximum) as [He|Hne].
    + rewrite He. nia.
    + rewrite IH by lia. replace (Z.min (cap * 2) maximum) with (cap * 2) by lia. f_equal. lia.
  - rewrite Z.min_id, Z.eqb_refl. nia.
Qed.

Lemma retry_cap_value initial maximum n :
  0 ≤ initial → 0 ≤ maximum ≤ STD_DURATION_MAX → 1 ≤ n →
  retry_cap initial maximum n = Z.min maximum (initial * 2 ^ (n - 1)).
Proof.
  intros Hi Hmax Hn. unfold retry_cap. rewrite retry_cap_loop_spec by lia.
  rewrite Z2Nat.id by lia. assert (0 < 2 ^ (n - 1)) by lia.
  destruct (Z.min_spec initial maximum) as [[? ->]|[? ->]]; [done|]. nia.
Qed.

Lemma retry_cap_bounds initial maximum n :
  0 ≤ initial → 0 ≤ maximum ≤ STD_DURATION_MAX → 0 ≤ retry_cap initial maximum n ≤ maximum.
Proof.
  intros Hi Hmax. unfold retry_cap. rewrite retry_cap_loop_spec by lia.
  assert (0 < 2 ^ Z.of_nat (Z.to_nat (n - 1))) by lia. nia.
Qed.

Lemma to_time_duration_bounds d : 0 ≤ d → 0 ≤ to_time_duration d ≤ d.
Proof.
  intros Hd. unfold to_time_duration. assert (0 < NANOS) by done.
  pose proof (Z.div_mod d NANOS ltac:(lia)). pose proof (Z.mod_pos_bound d NANOS).
  pose proof (Z.div_pos d NANOS). assert (0 < I64_MAX) by done. split_match; props; nia.
Qed.

(** The cap of attempt [n] is the initial back-off doubled [n - 1] times, at most the
    maximum; it grows with the attempts; and the delay the worker asks for is within
    it, also when the jitter source does not keep to its contract. *)
Theorem retry_cap_spec initial maximum n sampled :
  0 ≤ initial → 0 ≤ maximum ≤ STD_DURATION_MAX → 0 ≤ sampled → 1 ≤ n →
  let cap := retry_cap initial maximum n in
  cap = Z.min maximum (initial * 2 ^ (n - 1))
  ∧ cap ≤ retry_cap initial maximum (n + 1)
  ∧ 0 ≤ to_time_duration (Z.min sampled cap) ≤ cap.
Proof.
  intros Hi Hmax Hs Hn. cbn zeta. split_and!; [by apply retry_cap_value| |..].
  - rewrite !retry_cap_value by lia. replace (n + 1 - 1) with (Z.succ (n - 1)) by lia.
    rewrite Z.pow_succ_r by lia. assert (0 < 2 ^ (n - 1)) by lia. nia.
  - pose proof (retry_cap_bounds initial maximum n Hi Hmax). apply to_time_duration_bounds. lia.
  - pose proof (retry_cap_bounds initial maximum n Hi Hmax).
    pose proof (to_time_duration_bounds (Z.min sampled (retry_cap initial maximum n)) ltac:(lia)). lia.
Qed.

(** * Readiness *)

(** The last status the worker learned of a dependency. *)
Definition last_status (source : DeletionDependencySource) (before : bool)
    (history : list DeletionDependencyEvidence) : bool :=
  fold_left (λ degraded evidence,
    match evidence_status evidence source with
    | Some Healthy => false
    | Some Unavailable => true
    | None => degraded
    end) history before.

Lemma degrade_loop evidence l v s :
  NoDup l →
  fold_left (degrade evidence) l v !!! source_index s
  = if decide (s ∈ l) then last_status s (v !!! source_index s) [evidence]
    else v !!! source_index s.
Proof.
  intros Hnd. revert v. induction Hnd as [|x l Hx Hnd IH]; intros v; cbn [fold_left]; [done|].
  rewrite IH. unfold degrade. destruct (decide (s = x)) as [->|Hne].
  - rewrite decide_False by done. rewrite decide_True by by left. cbn.
    destruct (evidence_status evidence x) as [[]|]; by rewrite ?vlookup_insert.
  - assert (source_index x ≠ source_index s) by (intros He; by apply source_index_inj in He).
    destruct (decide (s ∈ l)) as [Hin|Hin].
    + rewrite decide_True by by right.
      destruct (evidence_status evidence x) as [[]|]; by rewrite ?vlookup_insert_ne.
    + rewrite decide_False by (by intros [->|?]%elem_of_cons).
      destruct (evidence_status evidence x) as [[]|]; by rewrite ?vlookup_insert_ne.
Qed.

Lemma existsb_degraded (v : vec bool 15) :
  existsb Datatypes.id (vec_to_list v) = true ↔ ∃ s, v !!! source_index s = true.
Proof.
  rewrite existsb_exists. split.
  - intros (b & Hin & Hb). apply list_elem_of_In, elem_of_vlookup in Hin as [i Hi].
    destruct (source_index_surj i) as [s <-]. exists s. by rewrite Hi.
  - intros [s Hs]. exists true. split; [|done]. apply list_elem_of_In, elem_of_vlookup. eauto.
Qed.

Lemma record_outcome_spec self outcome evidence :
  outcome ≠ WorkerCancelled →
  ∃ rec, record_outcome self outcome evidence
         = (rec, Some (if existsb Datatypes.id (vec_to_list (rec_degraded rec))
                       then ReadyTransientDependencyFailure else ReadyDependencySucceeded))
         ∧ ∀ s, rec_degraded rec !!! source_index s
                = last_status s (rec_degraded self !!! source_index s) [evidence].
Proof.
  intros Hne. unfold record_outcome. destruct (outcome == WorkerCancelled) eqn:He; [by props|].
  cbn zeta.
  pose proof (λ s, degrade_loop evidence source_ALL (rec_degraded self) s source_ALL_NoDup) as Hloop.
  revert Hloop. generalize (fold_left (degrade evidence) source_ALL (rec_degraded self)).
  intros v Hloop. exists (MkRecovery v). split; [reflexivity|]. intros s. cbn [rec_degraded].
  rewrite Hloop, decide_True; [done|].
  destruct s; apply (bool_decide_unpack _); vm_compute; done.
Qed.

(** The recovery state and the readiness of the server a run of iterations ends with. *)
Fixpoint readiness_after (self : DeletionReadinessRecovery) (readiness : WorkerReadiness)
    (history : list (DeletionWorkerOutcome * DeletionDependencyEvidence)) :
    DeletionReadinessRecovery * WorkerReadiness :=
  match history with
  | [] => (self, readiness)
  | (outcome, evidence) :: history =>
      let (self, recorded) := record_outcome self outcome evidence in
      readiness_after self (from_option (readiness_record readiness DeletionWorkerKind) readiness recorded)
        history
  end.

Lemma readiness_after_spec history self readiness :
  Forall (λ x, x.1 ≠ WorkerCancelled) history → history ≠ [] →
  ∃ rec, readiness_after self readiness history
         = (rec, MkReadiness (rd_verification readiness)
                   (if existsb Datatypes.id (vec_to_list (rec_degraded rec))
                    then StateDegraded else StateReady))
         ∧ ∀ s, rec_degraded rec !!! source_index s
                = last_status s (rec_degraded self !!! source_index s) history.*2.
Proof.
  revert self readiness.
  induction history as [|[o ev] rest IH]; intros self readiness Hall Hne; [done|].
  apply Forall_cons in Hall as [Ho Hall].
  destruct (record_outcome_spec self o ev Ho) as (rec1 & Heq & Hrec1).
  cbn [readiness_after]. rewrite Heq. cbn [from_option]. destruct rest as [|x rest].
  - exists rec1. split; [|exact Hrec1]. cbn. by destruct (existsb _ _).
  - edestruct IH as (rec & -> & Hrec); [done|done|]. exists rec. split.
    + by destruct (existsb _ (rec_degraded rec1)).
    + intros s. rewrite Hrec, Hrec1. done.
Qed.

Lemma last_status_unavailable s l :
  last_status s false l = true ↔
  ∃ evidence earlier later, l = earlier ++ evidence :: later
    ∧ evidence_status evidence s = Some Unavailable
    ∧ Forall (λ e, evidence_status e s = None) later.
Proof.
  induction l as [|e l IH] using rev_ind.
  { cbn. split; [done|]. intros (? & [] & ? & ? & _); done. }
  unfold last_status in *. rewrite fold_left_app. cbn.
  destruct (evidence_status e s) as [[]|] eqn:Hs.
  - split; [done|]. intros (ev & earlier & later & Hl & Hu & Hn).
    destruct later as [|x later _] using rev_ind.
    + apply app_inj_tail in Hl as [_ ->]. congruence.
    + rewrite app_comm_cons, app_assoc in Hl. apply app_inj_tail in Hl as [_ ->].
      apply Forall_app in Hn as [_ Hn]. apply Forall_cons in Hn as [Hn _]. congruence.
  - split; [|done]. intros _. exists e, l, []. by split_and!.
  - rewrite IH. split.
    + intros (ev & earlier & later & -> & Hu & Hn). exists ev, earlier, (later ++ [e]).
      rewrite <- app_assoc. split_and!; [done|done|]. apply Forall_app. by split; [|constructor].
    + intros (ev & earlier & later & Hl & Hu & Hn).
      destruct later as [|x later _] using rev_ind.
      * apply app_inj_tail in Hl as [_ ->]. congruence.
      * rewrite app_comm_cons, app_assoc in Hl. apply app_inj_tail in Hl as [-> ->].
        apply Forall_app in Hn as [Hn _]. exists ev, earlier, later. done.
Qed.

(** Readiness after any iterations of the deletion worker: the worker counts as
    degraded exactly when some dependency was unavailable the last time an iteration
    observed it - a failure is not forgotten by iterations that do not touch the
    dependency, and a later success clears it - and the server is ready exactly when
    there is none and its verification worker is ready or disabled. *)
Theorem readiness_reports_last_observation readiness history :
  Forall (λ x, x.1 ≠ WorkerCancelled) history → history ≠ [] →
  let after := (readiness_after DeletionReadinessRecovery_default readiness history).2 in
  let down := ∃ source evidence earlier later,
      history.*2 = earlier ++ evidence :: later
      ∧ evidence_status evidence source = Some Unavailable
      ∧ Forall (λ e, evidence_status e source = None) later in
  (worker_state after DeletionWorkerKind = StateDegraded ↔ down)
  ∧ (readiness_status after = StatusReady
     ↔ ¬ down ∧ (worker_state readiness VerificationWorkerKind = StateReady
                 ∨ worker_state readiness VerificationWorkerKind = StateDisabled)).
Proof.
  intros Hall Hne. cbn zeta.
  destruct (readiness_after_spec history DeletionReadinessRecovery_default readiness Hall Hne)
    as (rec & -> & Hrec). cbn [snd].
  assert (Hiff : existsb Datatypes.id (rec_degraded rec) = true ↔
    ∃ source, last_status source false history.*2 = true).
  { rewrite existsb_degraded. apply exist_proper. intros s. rewrite Hrec.
    by destruct s. }
  setoid_rewrite <- last_status_unavailable. rewrite <- Hiff.
  destruct readiness as [[] d], (existsb _ _); cbn; naive_solver.
Qed.

(** * Iterations *)

(** The calls of the deletion repository the worker itself makes. *)
Inductive worker_op (now : OffsetDateTime) (r : DeletionRepo) : DeletionRepo → Prop :=
  | wo_claim order worker ttl token :
      worker_op now r (claim_next r order worker ttl now token).2
  | wo_retry job worker token after :
      worker_op now r (schedule_retry r job worker token after now).2
  | wo_defer job worker token after :
      worker_op now r (defer r job worker token after now).2
  | wo_exhaust job worker token o r' :
      finish r job worker token (Some RetryExhausted) now = Ok (o, r') → worker_op now r r'.

Section iteration.
  Context {E : Type} (fates : nat → Fate) (others : nat → ExecState → ExecState).
  Context (shutdown : nat → bool) (orders : nat → list (CreatorPubky * LockId)).
  Context (tokens : nat → Uuid) (jitter : nat → Z → Z) (config : DeletionWorkerConfig).
  Context (execute : ClaimedContentLockDeletionJob → string → Act ExecState E DeletionPhaseExecution).
  (** What the others, the worker's calls and the executor do, an iteration does. *)
  Context (R : relation ExecState) `{!PreOrder R}.
  Context (R_others : ∀ n s, R s (others n s)).
  Context (R_worker : ∀ s r, worker_op (ex_now s) (ex_repo s) r → R s (ex_with_repo s r)).
  Context (R_execute : ∀ claim worker, acts R (execute claim worker)).

Lemma acts_ask_repo {A} op :
  (∀ now r a r', op now r = Ok (a, r') → worker_op now r r') →
  acts (E := E) R (ask_repo (A := A) fates others op).
Proof.
  intros Hop. apply acts_call; [done|done|]. intros s a s' Hs.
  apply bind_Ok in Hs as ([x r'] & Hs & [= -> <-]). by eapply R_worker, Hop.
Qed.

Lemma acts_defer_at claim now due success :
  acts (E := E) R (defer_at fates others config claim now due success).
Proof.
  apply acts_run_bind; [done| |intros; by intros w]. apply acts_ask_repo.
  intros at_ r a r' [= Hd].
  pose proof (wo_defer at_ r (cj_id claim) (dw_worker_id config) (cdj_claim_token claim) (due - now)) as Hs.
  by rewrite Hd in Hs.
Qed.

Lemma acts_clock : acts (E := E) R (clock_now others).
Proof. by apply acts_look. Qed.

Lemma acts_retry_or_exhaust claim :
  acts (E := E) R (retry_or_exhaust fates others jitter config claim).
Proof.
  apply acts_bind; [done|apply acts_clock|]. intros now. split_match.
  - apply acts_run_bind; [done| |intros; by intros w]. apply acts_ask_repo.
    intros at_ r a r' Hf. by eapply wo_exhaust.
  - apply acts_bind; [done|by intros w|]. intros delay.
    apply acts_run_bind; [done| |intros; by intros w]. apply acts_ask_repo.
    intros at_ r a r' [= Hd]. cbn zeta in Hd.
    pose proof (wo_retry at_ r (cj_id claim) (dw_worker_id config) (cdj_claim_token claim)
      (now + to_time_duration delay - now)) as Hs. by rewrite Hd in Hs.
Qed.

Lemma acts_concluding call source prior total :
  acts R call → acts (E := E) R (concluding call source prior total).
Proof. intros Hc. apply acts_bind; [done|done|]. by intros r w. Qed.

Lemma acts_claim ttl :
  acts (E := E) R (ask_claim_next fates others orders tokens config ttl).
Proof.
  intros w. refine (acts_ask_repo _ _ w). intros now r a r' [= Hc].
  pose proof (wo_claim now r (orders (w_ticks w)) (dw_worker_id config) ttl (tokens (w_ticks w))) as Hs.
  by rewrite Hc in Hs.
Qed.

Lemma run_once_acts :
  acts R (run_once_with_evidence fates others shutdown orders tokens jitter config execute).
Proof.
  apply acts_bind; [done|by intros w|]. intros []; [by intros w|].
  apply acts_bind; [done|apply acts_clock|]. intros started.
  apply acts_bind; [done|apply acts_claim|]. intros [[claim|]|e]; [|by intros w..].
  apply acts_bind; [done|by intros w|]. intros [].
  { apply acts_concluding, acts_bind; [done|apply acts_clock|]. intros now. apply acts_defer_at. }
  split_match; [apply acts_concluding, acts_retry_or_exhaust|].
  apply acts_bind; [done|apply R_execute|]. intros x. cbn zeta.
  destruct (pe_outcome x); try (by intros w); apply acts_concluding; [|apply acts_retry_or_exhaust].
  apply acts_bind; [done|apply acts_clock|]. intros now. apply acts_defer_at.
Qed.
End iteration.

(** ** The executor of the server *)

Section runtime.
  Context `{JsonCanonicalizer, CanonicalizationError, Rfc3339, TimeCrate, Blake3, Base64Url, Aead}.
  Context {E : Type} (fates : nat → Fate) (others : nat → ExecState → ExecState).
  Context (me : nat).
  Context (lanes_kept : ∀ n s id, ex_owned s !! id = Some me → ex_owned (others n s) !! id = Some me).
  Context (cipher_key : bytes) (nonces : nat → bytes).
  Context (generator : nat → result ApplicationError AccessCredential).
  Context (issuance_window read_window : Z).
  Context (real_paykit : option (ClaimedContentLockDeletionJob → string →
                                   Act ExecState E DeletionPhaseExecution)).
  (** The payment drain keeps its contract. *)
  Context (paykit_ok : ∀ drain claim worker, real_paykit = Some drain →
    dj_phase (cdj_job claim) = StartPaymentDrain ∨ dj_phase (cdj_job claim) = DrainPayments →
    inside others (graceful_step me claim worker) me (cj_id claim) (drain claim worker)
      (λ s x s', truthful others me claim worker (dj_phase (cdj_job claim)) s (pe_outcome x) s')).

Abbreviation Runtime := (runtime_execute_claimed me fates others cipher_key nonces generator
                           issuance_window read_window real_paykit).

Lemma runtime_payments_ok claim worker :
  dj_phase (cdj_job claim) = StartPaymentDrain ∨ dj_phase (cdj_job claim) = DrainPayments →
  inside others (graceful_step me claim worker) me (cj_id claim)
    (default (no_paykit_execute_claimed fates others) real_paykit claim worker)
    (λ s x s', truthful others me claim worker (dj_phase (cdj_job claim)) s (pe_outcome x) s').
Proof.
  intros Hp. destruct real_paykit as [drain|] eqn:Hd; cbn; [by apply paykit_ok|].
  apply inside_no_paykit. intros n s. apply lanes_kept.
Qed.

(** What both executors' steps and the others do, the executor of the server does. *)
Lemma runtime_acts (R : relation ExecState) claim worker :
  PreOrder R → (∀ n s, R s (others n s)) →
  (∀ s s', graceful_step me claim worker s s' → R s s') →
  (∀ s s', forced_step me claim worker s s' → R s s') →
  acts R (Runtime claim worker).
Proof.
  intros Hpre Hothers Hgraceful Hforced w. unfold runtime_execute_claimed. destruct (is_some _).
  - unfold act_bind.
    pose proof (forced_execution_spec fates others me claim worker (λ n s, lanes_kept n s _) w) as Hf.
    destruct (forced_execute_with_evidence _ _ _ _ _ w) as [x w']. destruct Hf as [Hl _].
    exact (along_mono _ _ R _ _ Hpre Hforced Hothers Hl).
  - pose proof (graceful_execution_spec fates others me claim worker (λ n s, lanes_kept n s _)
      cipher_key nonces generator (runtime_executor_config issuance_window read_window)
      (default (no_paykit_execute_claimed fates others) real_paykit)
      (runtime_payments_ok claim worker) w) as Hg.
    unfold execute_graceful. destruct (execute_with_evidence _ _ _ _ _ _ _ _ _ _ w) as [x w'].
    destruct Hg as [Hl _]. exact (along_mono _ _ R _ _ Hpre Hgraceful Hothers Hl).
Qed.

(** ** The invariant of the deletion repository *)

Context `{Base32}.

(** The invariant, at the clock of the ports. *)
Definition exec_ok (s : ExecState) : Prop := repo_ok (ex_now s) (ex_repo s).
Definition keeps_ok (s s' : ExecState) : Prop := exec_ok s → exec_ok s'.

#[local] Instance keeps_ok_preorder : PreOrder keeps_ok.
Proof. split; [by intros s Hs|]. intros s1 s2 s3 H12 H23 Hs. auto. Qed.

Lemma worker_op_ok s r : worker_op (ex_now s) (ex_repo s) r → keeps_ok s (ex_with_repo s r).
Proof.
  intros Hop Hok. apply (deletion_step_ok (ex_now s) (ex_now s) (ex_repo s)); [done| |done].
  destruct Hop; [apply ds_claim|apply ds_retry|apply ds_defer|by eapply ds_finish].
Qed.

Lemma forced_step_ok claim worker s s' : forced_step me claim worker s s' → keeps_ok s s'.
Proof.
  intros Hs Hok. destruct Hs as [| | | |b r' Ho Hc]; try done. unfold exec_ok. cbn.
  pose proof (ds_complete_force (ex_now s) (ex_repo s) (cj_id claim) worker (cdj_claim_token claim)) as Hs.
  rewrite Hc in Hs. eapply (deletion_step_ok (ex_now s)); [lia|exact Hs|done].
Qed.

(** One iteration of the deletion worker with the executor of the server, graceful and
    forced, keeps the invariant of the deletion repository, whichever calls are lost
    and whatever others do that keeps the invariant and the lane of a job that is
    being executed. *)
Lemma runtime_tick_ok shutdown orders tokens jitter config w :
  (∀ n s, exec_ok s → exec_ok (others n s)) →
  exec_ok (w_store w) →
  exec_ok (w_store (run_once_with_evidence fates others shutdown orders tokens jitter config
                      Runtime w).2).
Proof.
  intros Hothers. revert w. apply (run_once_acts fates others _ _ _ _ _ _ keeps_ok); [done|apply worker_op_ok|].
  intros claim worker. apply runtime_acts; [apply _|done| |by apply forced_step_ok].
  intros s s' Hs Hok. by apply (kp_invariant _ _ _ (graceful_step_keeps _ _ _ _ _ Hs)).
Qed.
End runtime.

(** ** Shutdown *)

Section shutdown.
  Context {E : Type} (fates : nat → Fate) (others : nat → ExecState → ExecState).
  Context (shutdown : nat → bool) (orders : nat → list (CreatorPubky * LockId)).
  Context (tokens : nat → Uuid) (jitter : nat → Z → Z) (config : DeletionWorkerConfig).

(** The signal is read before a job is claimed and again after; seen at either point,
    nothing is executed. *)
Lemma shutdown_no_execution execute execute' (w : World ExecState E) :
  shutdown (w_ticks w) = true ∨ shutdown (w_ticks w + 2)%nat = true →
  run_once_with_evidence fates others shutdown orders tokens jitter config execute w
  = run_once_with_evidence fates others shutdown orders tokens jitter config execute' w.
Proof.
  intros Hs. unfold run_once_with_evidence, act_bind, borrow_shutdown.
  destruct (shutdown (w_ticks w)) eqn:H0; [done|]. destruct Hs as [Hs|Hs]; [done|].
  unfold clock_now, look_at. set (w1 := MkWorld _ _ _).
  assert (w_ticks (ask_claim_next fates others orders tokens config
    (ex_now (others (w_ticks w) (w_store w)) + to_time_duration (dw_claim_timeout config)
     - ex_now (others (w_ticks w) (w_store w))) w1).2 = (w_ticks w + 2)%nat) as Ht.
  { unfold ask_claim_next, ask_repo. rewrite call_ticks. cbn. lia. }
  destruct (ask_claim_next _ _ _ _ _ _ w1) as [[[claim|]|e] w2]; [|done|done].
  cbn in Ht. by rewrite Ht, Hs.
Qed.
End shutdown.

(** ** Iterations nobody interferes with *)

Section alone.
  Context `{Base32, JsonCanonicalizer, CanonicalizationError, Blake3}.
  Context {E : Type} (fates : nat → Fate) (others : nat → ExecState → ExecState).
  Context (delivered : ∀ n, fates n = Delivered) (quiet : ∀ n s, others n s = s).

Lemma ask_repo_delivered {A} op (w : World ExecState E) :
  ask_repo (A := A) fates others op w
  = let s := w_store w in
    let goes_to s' := MkWorld s' (w_entitlements w) (w_ticks w + 1)%nat in
    match op (ex_now s) (ex_repo s) with
    | Ok (a, r) => (Ok a, goes_to (ex_with_repo s r))
    | Err e => (Err e, goes_to s)
    end.
Proof.
  unfold ask_repo. rewrite call_delivered by done. by destruct (op _ _) as [[a r]|e].
Qed.

Lemma clock_now_quiet (w : World ExecState E) :
  clock_now others w
  = (ex_now (w_store w), MkWorld (w_store w) (w_entitlements w) (w_ticks w + 1)%nat).
Proof. unfold clock_now, look_at. by rewrite quiet. Qed.

(** Durations as they come from a configuration, and a claim that lasts. *)
Definition worker_config_ok (config : DeletionWorkerConfig) : Prop :=
  0 ≤ dw_retry_initial_backoff config
  ∧ 0 ≤ dw_retry_max_backoff config ≤ STD_DURATION_MAX
  ∧ 0 ≤ dw_retry_max_attempts config
  ∧ 0 < to_time_duration (dw_claim_timeout config).

(** A claim the repository hands out is live in it. *)
Lemma claim_next_find clock r order worker ttl now token c r' :
  repo_ok clock r → claim_next r order worker ttl now token = (Some c, r') → 0 < ttl →
  ∃ key sj, del_jobs r !! key = Some sj
    ∧ cdj_job c = dj_with (sj_job sj) DelRunning (dj_phase (sj_job sj))
                    (saturating_add U32_MAX (dj_attempt_count (sj_job sj)) 1) None
                    (dj_force_requested_at (sj_job sj)) (dj_failure_code (sj_job sj))
    ∧ cdj_claim_token c = token
    ∧ find_owned r' (cj_id c) worker token now
      = Some (key, MkStoredJob (cdj_job c) (Some worker) (Some token) (Some (now + ttl))).
Proof.
  intros Hok Hc Httl. unfold claim_next in Hc. cbn zeta in Hc.
  destruct (min_by _ _) as [[key sj]|] eqn:Hm; [|done]. injection Hc as <- <-.
  apply min_by_elem, list_elem_of_filter in Hm as [_ Hin].
  apply list_elem_of_omap in Hin as (k & _ & Hin).
  apply fmap_Some in Hin as (sj' & Hsj & Heq). injection Heq as <- <-.
  exists key, sj. cbn. split_and!; [done|done|done|]. apply find_entry_unique; cbn.
  - by rewrite lookup_insert_eq.
  - unfold owns_claim. cbn. rewrite Z.eqb_refl, !eqb_same. cbn. lia.
  - intros k1 sj1. rewrite lookup_insert_Some. intros [[<- _]|[Hne Hsj1]] Ho; [done|].
    apply owns_claim_running in Ho as [Hid _]. by eapply (ro_ids _ _ Hok).
Qed.

Context (shutdown : nat → bool) (orders : nat → list (CreatorPubky * LockId)).
Context (tokens : nat → Uuid) (jitter : nat → Z → Z) (config : DeletionWorkerConfig).
Context (jitter_nonneg : ∀ n cap, 0 ≤ jitter n cap).
Context (config_ok : worker_config_ok config).

Definition job_in (s : ExecState) (claim : ClaimedContentLockDeletionJob)
    (P : ContentLockDeletionJob → Prop) : Prop :=
  ∃ key j, del_jobs (ex_repo s) !! key = Some (unclaimed_job j) ∧ dj_job_id j = cj_id claim
           ∧ dj_phase j = dj_phase (cdj_job claim) ∧ P j.

Lemma retry_or_exhaust_alone claim key lease (w : World ExecState E) :
  find_owned (ex_repo (w_store w)) (cj_id claim) (dw_worker_id config) (cdj_claim_token claim)
    (ex_now (w_store w))
  = Some (key, MkStoredJob (cdj_job claim) (Some (dw_worker_id config)) (Some (cdj_claim_token claim))
                 lease) →
  let (o, w') := retry_or_exhaust fates others jitter config claim w in
  (dj_attempt_count (cdj_job claim) < dw_retry_max_attempts config →
   o = Ok WorkerRetryScheduled
   ∧ job_in (w_store w') claim (λ j,
       dj_state j = DelQueued ∧ dj_attempt_count j = dj_attempt_count (cdj_job claim)
       ∧ ∃ due, dj_next_attempt_at j = Some due
                ∧ ex_now (w_store w) ≤ due ≤ ex_now (w_store w) + dw_retry_max_backoff config))
  ∧ (dw_retry_max_attempts config ≤ dj_attempt_count (cdj_job claim) →
     o = Ok WorkerRetryExhausted
     ∧ job_in (w_store w') claim (λ j,
         dj_state j = DelFailed ∧ dj_failure_code j = Some RetryExhausted)).
Proof.
  intros Hf. unfold retry_or_exhaust, act_bind. rewrite clock_now_quiet.
  destruct (Z.leb_spec (dw_retry_max_attempts config) (dj_attempt_count (cdj_job claim))) as [Hle|Hlt].
  - unfold run_bind. rewrite ask_repo_delivered. cbn [w_store]. cbn zeta. unfold finish.
    rewrite Hf. cbn. split; [lia|]. intros _. split; [done|].
    eexists key, _. cbn. rewrite lookup_insert_eq. by split_and!.
  - unfold sample_delay, run_bind. rewrite ask_repo_delivered. cbn [w_store w_ticks]. cbn zeta.
    unfold schedule_retry. rewrite Hf. cbn. split; [|lia]. intros _. split; [done|].
    eexists key, _. cbn. rewrite lookup_insert_eq. split_and!; [done..|].
    eexists. split; [done|]. destruct config_ok as (Hi & Hm & _ & _).
    pose proof (retry_cap_bounds _ _ (dj_attempt_count (cdj_job claim)) Hi Hm).
    set (cap := retry_cap _ _ _) in *. pose proof (jitter_nonneg (w_ticks w + 1) cap).
    pose proof (to_time_duration_bounds (Z.min (jitter (w_ticks w + 1) cap) cap) ltac:(lia)). lia.
Qed.

(** The claim of an iteration that starts in [w]. *)
Definition claims (w : World ExecState E) (claim : ClaimedContentLockDeletionJob)
    (r : DeletionRepo) : Prop :=
  claim_next (ex_repo (w_store w)) (orders (w_ticks w + 1)%nat) (dw_worker_id config)
    (to_time_duration (dw_claim_timeout config)) (ex_now (w_store w)) (tokens (w_ticks w + 1)%nat)
  = (Some claim, r).

Lemma ask_claim_next_claims ttl (w : World ExecState E) claim r :
  claims w claim r → ttl = to_time_duration (dw_claim_timeout config) →
  ask_claim_next fates others orders tokens config ttl
    (MkWorld (w_store w) (w_entitlements w) (w_ticks w + 1)%nat)
  = (Ok (Some claim), MkWorld (ex_with_repo (w_store w) r) (w_entitlements w) (w_ticks w + 2)%nat).
Proof.
  intros Hc ->. unfold ask_claim_next. rewrite ask_repo_delivered. cbn [w_store w_ticks w_entitlements].
  cbn zeta. unfold claims in Hc. rewrite Hc. do 2 f_equal. lia.
Qed.

(** When the execution of a claimed job fails for a dependency and has done nothing to
    it, the job is back in the queue in its phase, due within the maximal back-off,
    while it has attempts left, and has failed for good when it has none. *)
Theorem transient_failure_retried execute (w : World ExecState E) claim r :
  repo_ok (ex_now (w_store w)) (ex_repo (w_store w)) → claims w claim r →
  shutdown (w_ticks w) = false → shutdown (w_ticks w + 2)%nat = false →
  (∀ w1, w_store (execute claim (dw_worker_id config) w1).2 = w_store w1
         ∧ pe_outcome (execute claim (dw_worker_id config) w1).1 = TransientDependencyFailure) →
  let (res, w') := run_once_with_evidence fates others shutdown orders tokens jitter config execute w in
  ∃ x, res = Ok x
    ∧ (dj_attempt_count (cdj_job claim) < dw_retry_max_attempts config →
       dwe_outcome x = WorkerRetryScheduled
       ∧ job_in (w_store w') claim (λ j,
           dj_state j = DelQueued ∧ dj_attempt_count j = dj_attempt_count (cdj_job claim)
           ∧ ∃ due, dj_next_attempt_at j = Some due
                    ∧ ex_now (w_store w) ≤ due
                      ≤ ex_now (w_store w) + dw_retry_max_backoff config))
    ∧ (dw_retry_max_attempts config ≤ dj_attempt_count (cdj_job claim) →
       dwe_outcome x = WorkerRetryExhausted
       ∧ job_in (w_store w') claim (λ j,
           dj_state j = DelFailed ∧ dj_failure_code j = Some RetryExhausted)).
Proof.
  intros Hok Hc Hs1 Hs2 Hex. pose proof config_ok as (_ & _ & _ & Httl).
  destruct (claim_next_find _ _ _ _ _ _ _ _ _ Hok Hc Httl) as (key & sj & _ & _ & Htok & Hfind).
  unfold run_once_with_evidence, act_bind, borrow_shutdown. rewrite Hs1, clock_now_quiet.
  rewrite (ask_claim_next_claims _ w claim r Hc) by lia. cbn [w_ticks]. rewrite Hs2.
  set (w1 := MkWorld _ _ _).
  assert (Hretry : ∀ w2, w_store w2 = w_store w1 → _) by
    (intros w2 Hw2; refine (retry_or_exhaust_alone claim key _ w2 _); rewrite Hw2, Htok; exact Hfind).
  destruct (Z.ltb_spec (dw_retry_max_attempts config) (dj_attempt_count (cdj_job claim))) as [Hlt|Hge].
  - specialize (Hretry w1 eq_refl). unfold concluding, act_bind.
    destruct (retry_or_exhaust _ _ _ _ _ w1) as [o w2]. destruct Hretry as [_ Hr].
    destruct Hr as [-> Hj]; [lia|]. eexists. split; [done|]. split; [lia|]. done.
  - destruct (Hex w1) as [Hw2 Ho]. destruct (execute claim _ w1) as [x w2]. cbn in Hw2, Ho. cbn zeta.
    rewrite Ho. specialize (Hretry w2 Hw2). unfold concluding, act_bind.
    destruct (retry_or_exhaust _ _ _ _ _ w2) as [o w3]. rewrite Hw2 in Hretry.
    destruct Hretry as [Hr1 Hr2].
    destruct (Z.lt_ge_cases (dj_attempt_count (cdj_job claim)) (dw_retry_max_attempts config)).
    + destruct Hr1 as [-> Hj]; [done|]. eexists. split; [done|]. split; [done|lia].
    + destruct Hr2 as [-> Hj]; [lia|]. eexists. split; [done|]. split; [lia|done].
Qed.

(** When the execution of a claimed job changes nothing and asks for its deferral, the job
    is back in the queue in its phase, due after the poll interval, and the attempt is not
    counted. *)
Lemma deferral_requeues
    (execute : ClaimedContentLockDeletionJob → string → Act ExecState E DeletionPhaseExecution) (w : World ExecState E) claim r :
  repo_ok (ex_now (w_store w)) (ex_repo (w_store w)) → claims w claim r →
  shutdown (w_ticks w) = false → shutdown (w_ticks w + 2)%nat = false →
  dj_attempt_count (cdj_job claim) ≤ dw_retry_max_attempts config →
  (∀ w1, w_store w1 = ex_with_repo (w_store w) r →
     let (x, w2) := execute claim (dw_worker_id config) w1 in
     pe_outcome x = PhaseDeferred ∧ w_store w2 = w_store w1) →
  let (res, w') := run_once_with_evidence fates others shutdown orders tokens jitter config execute w in
  ∃ x, res = Ok x ∧ dwe_outcome x = WorkerDeferred
    ∧ job_in (w_store w') claim (λ j,
        dj_state j = DelQueued
        ∧ dj_attempt_count j = saturating_sub (dj_attempt_count (cdj_job claim)) 1
        ∧ dj_next_attempt_at j
          = Some (ex_now (w_store w) + to_time_duration (dw_poll_interval config))).
Proof.
  intros Hok Hc Hs1 Hs2 Hatt Hex. pose proof config_ok as (_ & _ & _ & Httl).
  destruct (claim_next_find _ _ _ _ _ _ _ _ _ Hok Hc Httl) as (key & sj & _ & Hj & Htok & Hfind).
  unfold run_once_with_evidence, act_bind, borrow_shutdown. rewrite Hs1, clock_now_quiet.
  rewrite (ask_claim_next_claims _ w claim r Hc) by lia. cbn [w_ticks]. rewrite Hs2.
  set (w1 := MkWorld _ _ _).
  destruct (Z.ltb_spec (dw_retry_max_attempts config) (dj_attempt_count (cdj_job claim))); [lia|].
  specialize (Hex w1 eq_refl). destruct (execute claim _ w1) as [x w2]. destruct Hex as [Ho Hw2].
  cbn zeta. rewrite Ho.
  unfold concluding, defer_claim, defer_at, act_bind, run_bind. rewrite clock_now_quiet, ask_repo_delivered.
  cbn [w_store]. rewrite Hw2. cbn zeta. cbn [w_store w1 ex_now ex_repo ex_with_repo].
  unfold defer. rewrite Htok, Hfind. cbn [is_some]. eexists. split; [done|]. split; [done|].
  eexists key, _. cbn. rewrite lookup_insert_eq. split_and!; [done..|].
  cbn [dj_with dj_next_attempt_at]. f_equal. lia.
Qed.

(** Shutdown before or while a job is claimed: nothing is executed, and a job that was
    claimed meanwhile goes back to the queue as it was, due at once. *)
Theorem shutdown_returns_claim execute (w : World ExecState E) :
  repo_ok (ex_now (w_store w)) (ex_repo (w_store w)) →
  shutdown (w_ticks w) = true ∨ shutdown (w_ticks w + 2)%nat = true →
  let run execute := run_once_with_evidence fates others shutdown orders tokens jitter config execute w in
  (∀ execute', run execute' = run execute)
  ∧ (shutdown (w_ticks w) = true →
     run execute = (Ok (MkWorkerExecution WorkerCancelled evidence_none), w))
  ∧ ∀ claim r, shutdown (w_ticks w) = false → claims w claim r →
      ∃ x, (run execute).1 = Ok x ∧ dwe_outcome x = WorkerCancelled
        ∧ job_in (w_store (run execute).2) claim (λ j,
            dj_state j = DelQueued ∧ dj_next_attempt_at j = Some (ex_now (w_store w))
            ∧ ∃ key sj, del_jobs (ex_repo (w_store w)) !! key = Some sj
                ∧ dj_job_id (sj_job sj) = cj_id claim
                ∧ (0 ≤ dj_attempt_count (sj_job sj) < U32_MAX →
                   dj_attempt_count j = dj_attempt_count (sj_job sj))).
Proof.
  intros Hok Hs. cbn zeta. split_and!.
  - intros execute'. by apply shutdown_no_execution.
  - intros Hs1. unfold run_once_with_evidence, act_bind, borrow_shutdown. by rewrite Hs1.
  - intros claim r Hs1 Hc. destruct Hs as [Hs|Hs2]; [congruence|].
    pose proof config_ok as (_ & _ & _ & Httl).
    destruct (claim_next_find _ _ _ _ _ _ _ _ _ Hok Hc Httl) as (key & sj & Hsj & Hj & Htok & Hfind).
    unfold run_once_with_evidence, act_bind, borrow_shutdown. rewrite Hs1, clock_now_quiet.
    rewrite (ask_claim_next_claims _ w claim r Hc) by lia. cbn [w_ticks]. rewrite Hs2.
    unfold concluding, release_cancelled_claim, defer_at, act_bind, run_bind.
    rewrite clock_now_quiet, ask_repo_delivered. cbn [w_store]. cbn zeta. cbn [ex_now ex_repo ex_with_repo].
    unfold defer. rewrite Htok, Hfind. cbn [is_some]. eexists. split; [done|]. split; [done|].
    eexists key, _. cbn. rewrite lookup_insert_eq. rewrite Hj.
    split_and!; [done|unfold cj_id; by rewrite Hj|done|done|cbn; f_equal; lia|].
    exists key, sj. split_and!; [done|unfold cj_id; by rewrite Hj|].
    unfold saturating_sub, saturating_add. cbn. lia.
Qed.
End alone.
