(* ===== verification/DeletionProgress.v ===== *)
(** Where deletions get to: a phase whose conditions are met is left behind, and the
    last phase never is. *)

From S2P Require Import Prelude HashMaps RustStr Externals Ids Json LockPolicy Wire Errors.
From S2P Require Import Run Secrets Lifecycle Fence DeletionJob AccessStore DeletionStore.
From S2P Require Import DeletionInv DeletionHistory DeletionEvidence AccessUse CreateLock.
From S2P Require Import Resources DeletionExec DeletionTrace DeletionEffects DeletionWorker.

(** * Phases whose conditions are met *)

Section progress.
  Context `{JsonCanonicalizer, CanonicalizationError, Rfc3339, TimeCrate, Blake3, Base64Url, Aead}.
  Context {E : Type} (fates : nat → Fate) (others : nat → ExecState → ExecState).
  Context (delivered : ∀ n, fates n = Delivered) (quiet : ∀ n s, others n s = s).

(** From store [s] the computation returns [a] and leaves [s']. *)
Definition yields {A} (m : Act ExecState E A) (s : ExecState) (a : A) (s' : ExecState) : Prop :=
  ∀ w, w_store w = s → (m w).1 = a ∧ w_store (m w).2 = s'.

Lemma yields_ret {A} (a : A) s : yields (act_ret a) s a s.
Proof. by intros w Hw. Qed.

Lemma yields_bind {A B} (f : A → Act ExecState E B) m s a s1 b s2 :
  yields m s a s1 → yields (f a) s1 b s2 → yields (act_bind f m) s b s2.
Proof.
  intros Hm Hf w Hw. unfold act_bind. specialize (Hm w Hw). destruct (m w) as [x w1].
  cbn in Hm. destruct Hm as [-> Hw1]. by apply Hf.
Qed.

Lemma yields_run_bind {A B} (f : A → Run ExecState E B) m s a s1 b s2 :
  yields m s (Ok a) s1 → yields (f a) s1 b s2 → yields (run_bind f m) s b s2.
Proof.
  intros Hm Hf w Hw. unfold run_bind. specialize (Hm w Hw). destruct (m w) as [x w1].
  cbn in Hm. destruct Hm as [-> Hw1]. by apply Hf.
Qed.

Lemma yields_lift {A} (r : result ApplicationError A) s : yields (run_lift r) s r s.
Proof. by intros w Hw. Qed.

Lemma yields_call {A} (op : ExecState → result ApplicationError (A * ExecState)) s a s' :
  op s = Ok (a, s') → yields (Run.call fates others op) s (Ok a) s'.
Proof. intros Hop w <-. rewrite call_delivered by done. by rewrite Hop. Qed.

Lemma yields_repo {A} op s (a : A) r :
  op (ex_now s) (ex_repo s) = Ok (a, r) →
  yields (ask_repo fates others op) s (Ok a) (ex_with_repo s r).
Proof. intros Hop. apply yields_call. by rewrite Hop. Qed.

Lemma yields_access {A} op s (a : A) acc :
  op (ex_now s) (del_access (ex_repo s)) = Ok (a, acc) →
  yields (ask_access fates others op) s (Ok a) (ex_with_repo s (del_with_access (ex_repo s) acc)).
Proof. intros Hop. apply yields_repo. by rewrite Hop. Qed.

Lemma yields_public_read {A} (f : PublicContentLocks → A) s :
  yields (ask_public fates others (λ p, (f p, p))) s (Ok (f (ex_public s))) s.
Proof. apply yields_call. by rewrite ex_with_public_id. Qed.

Lemma yields_resources_read {A} (f : GuardedResources → A) s :
  yields (ask_resources fates others (λ g, (f g, g))) s (Ok (f (ex_resources s))) s.
Proof. apply yields_call. by rewrite ex_with_resources_id. Qed.

Lemma yields_read_tombstone creator path t s bs :
  canonical_tombstone_bytes t = Ok bs →
  yields (read_tombstone fates others creator path t) s
    (Ok (classify_tombstone_bytes (public_get (ex_public s) creator path) bs)) s.
Proof.
  intros Hbs. eapply yields_run_bind; [rewrite Hbs; apply yields_lift|].
  eapply yields_run_bind; [apply yields_public_read|]. apply yields_ret.
Qed.

Context (config : ContentLockDeletionPhaseExecutorConfig).
Context (me : nat) (claim : ClaimedContentLockDeletionJob) (worker : string).
Let id := cj_id claim.
Let creator := dj_creator (cdj_job claim).
Let frozen := frozen_resources (dj_frozen_content_lock (cdj_job claim)).

(** The public lock carries the tombstone. *)
Definition tombstoned (s : ExecState) : Prop :=
  ∃ bs, canonical_tombstone_bytes (tombstone claim) = Ok bs
        ∧ public_get (ex_public s) creator (cj_path claim) = Some bs.

(** What the executor checks or does before it asks for the next phase, and the store it
    then asks in; the payments have an executor of their own, and the last phase is never
    left. *)
Definition conditions_met (s s1 : ExecState) : Prop :=
  match dj_phase (cdj_job claim) with
  | Withdraw =>
      ∃ bs original,
        canonical_tombstone_bytes (tombstone claim) = Ok bs
        ∧ canonical_json_bytes (dj_frozen_content_lock (cdj_job claim)) = Ok original
        ∧ (public_get (ex_public s) creator (cj_path claim) = Some bs ∧ s1 = s
           ∨ public_get (ex_public s) creator (cj_path claim) = Some original
             ∧ s1 = ex_with_public s (public_put (ex_public s) creator (cj_path claim) bs))
  | DrainExistingCredentials | DrainFinalReads => s1 = s
  | IssueFinalCredentials =>
      ∃ windows a,
        initialize_final_access_windows (del_access (ex_repo s)) id worker (cdj_claim_token claim)
          (final_credential_issuance_window config) (final_read_window config) (ex_now s)
        = Ok (Initialized windows, a)
        ∧ final_credentials_to_materialize a id worker (cdj_claim_token claim)
            (final_credential_batch_limit config) (ex_now s) = []
        ∧ s1 = ex_with_repo s (del_with_access (ex_repo s) a)
  | DeleteContent =>
      s1 = s ∧ tombstoned s
      ∧ ∀ path hash, frozen !! path = Some hash →
          ∃ record, ex_resources s !! (creator, path) = Some record ∧ grr_hash record = hash
  | DeleteTombstone => s1 = s ∧ tombstoned s
  | _ => False
  end.

(** What the repository asks of the obligations before the phase is left. *)
Definition obligations_met (s1 : ExecState) (next : ContentLockDeletionPhase) : Prop :=
  (next = StartPaymentDrain →
   any_value (admission_open id) (fence_records (del_fence (ex_repo s1))) = false)
  ∧ check_phase_advance (del_access (ex_repo s1)) id (dj_phase (cdj_job claim)) next (ex_now s1)
    = Ok PhaseAdvanceReady.

(** The stored job under a live claim of the worker. *)
Definition claimed_job (s : ExecState) (key : CreatorPubky * LockId) (sj : StoredJob) : Prop :=
  find_owned (ex_repo s) id worker (cdj_claim_token claim) (ex_now s) = Some (key, sj)
  ∧ dj_phase (sj_job sj) = dj_phase (cdj_job claim) ∧ dj_force_requested_at (sj_job sj) = None.

(** The job as it is left behind: queued for its next phase, all its attempts ahead. *)
Definition left_for (sj : StoredJob) (next : ContentLockDeletionPhase) : ContentLockDeletionJob :=
  dj_with (sj_job sj) DelQueued next 0 None (dj_force_requested_at (sj_job sj)) None.

Lemma claimed_job_live s key sj :
  claimed_job s key sj →
  action_claim_is_live (ex_repo s)
    (MkActionClaim id worker (cdj_claim_token claim) (dj_phase (cdj_job claim)) false) (ex_now s) = true.
Proof.
  intros ([Hsj Ho]%find_owned_Some & Hp & Hf). unfold action_claim_is_live. rewrite any_value_true.
  exists key, sj. split; [done|]. cbn. rewrite Hp, Hf, eqb_same. unfold owns_claim in Ho.
  rewrite !andb_true_iff in Ho. destruct Ho as [[[[-> ->] ->] ->] ->]. done.
Qed.

Lemma obligations_advance s key sj next :
  claimed_job s key sj → permits (dj_phase (cdj_job claim)) next = true → obligations_met s next →
  advance_phase (ex_repo s) id worker (cdj_claim_token claim) next (ex_now s)
  = Ok (Advanced (left_for sj next), store_job (ex_repo s) key (unclaimed_job (left_for sj next))).
Proof.
  intros (Hf & Hph & _) Hp [Hopen Hready]. unfold advance_phase. rewrite Hf, Hph, Hp. cbn [negb reject_if].
  rewrite bind_of_Ok.
  assert ((next == StartPaymentDrain) && any_value (admission_open id) (fence_records (del_fence (ex_repo s)))
          = false) as ->.
  { apply andb_false_iff. destruct (next == StartPaymentDrain) eqn:He; [right|by left].
    rewrite eqb_true in He. by apply Hopen. }
  by rewrite Hready, bind_of_Ok.
Qed.

(** No dependency is reported unavailable. *)
Definition all_well (e : DeletionDependencyEvidence) : Prop :=
  ∀ source, evidence_status e source ≠ Some Unavailable.

Lemma all_well_none : all_well evidence_none.
Proof. intros s. by rewrite evidence_status_none. Qed.
Lemma all_well_healthy source : all_well (evidence_healthy source).
Proof. intros s. unfold evidence_healthy. rewrite evidence_status_observed. by case_decide. Qed.
Lemma all_well_merge a b : all_well a → all_well b → all_well (evidence_merge a b).
Proof.
  intros Ha Hb s. rewrite evidence_status_merge, merge_status_unavailable. by intros [?%Ha|?%Hb].
Qed.

Lemma all_well_fold evidence x :
  Forall all_well evidence → all_well (pe_evidence x) →
  all_well (pe_evidence (fold_left with_evidence evidence x)).
Proof.
  intros Hall. revert x. induction Hall as [|e l He Hall IH]; intros x Hx; [done|]. cbn.
  apply IH. cbn. by apply all_well_merge.
Qed.

(** The execution left its phase, with every dependency well. *)
Definition progressed (x : DeletionPhaseExecution) : Prop :=
  pe_outcome x = Progressed ∧ all_well (pe_evidence x).

Definition advanced_with (evidence : list DeletionDependencyEvidence) : DeletionPhaseExecution :=
  fold_left with_evidence evidence (repository_execution Progressed).

Lemma progressed_advanced_with evidence :
  Forall all_well evidence → progressed (advanced_with evidence).
Proof.
  intros Hall. split; [by apply (fold_evidence_outcome evidence (repository_execution Progressed))|].
  apply all_well_fold; [done|]. cbn.
  apply all_well_merge; [exact all_well_none|exact (all_well_healthy _)].
Qed.

Lemma yields_advance_with next evidence s job r :
  advance_phase (ex_repo s) id worker (cdj_claim_token claim) next (ex_now s)
    = Ok (Advanced job, r) →
  yields (advance_with fates others claim worker next evidence) s (advanced_with evidence)
    (ex_with_repo s r).
Proof.
  intros Ha. eapply yields_bind; [|apply yields_ret].
  eapply yields_bind; [eapply yields_repo; exact Ha|]. apply yields_ret.
Qed.

Lemma yields_verify_resources resources was_read k s x s' :
  (∀ path hash, (path, hash) ∈ resources →
     ∃ record, ex_resources s !! (creator, path) = Some record ∧ grr_hash record = hash) →
  tombstoned s → (∀ b, yields (k b) s (x b) s') →
  ∃ b, yields (verify_resources fates others claim worker resources was_read k) s (x b) s'.
Proof.
  intros Hres (bs & Hbs & Hpub) Hk. revert was_read Hres.
  induction resources as [|[path hash] rest IH]; intros was_read Hres; [exists was_read; apply Hk|].
  destruct (IH true) as [b Hb]; [intros p h Hp; apply Hres; by right|]. exists b.
  destruct (Hres path hash) as (record & Hr & Hh); [by left|].
  eapply yields_bind; [by apply yields_read_tombstone|].
  fold creator. rewrite Hpub. cbn [classify_tombstone_bytes]. rewrite eqb_same. eapply yields_bind; [apply yields_resources_read|].
  unfold read_guarded_resource_generation, get_current_guarded_resource. fold creator.
  rewrite Hr, Hh, eqb_same. done.
Qed.

Context (cipher_key : bytes) (nonces : nat → bytes).
Context (generator : nat → result ApplicationError AccessCredential).
Context (payments : ClaimedContentLockDeletionJob → string → Act ExecState E DeletionPhaseExecution).

Lemma yields_withdraw s s1 bs original :
  canonical_tombstone_bytes (tombstone claim) = Ok bs →
  canonical_json_bytes (dj_frozen_content_lock (cdj_job claim)) = Ok original →
  public_get (ex_public s) creator (cj_path claim) = Some bs ∧ s1 = s
  ∨ public_get (ex_public s) creator (cj_path claim) = Some original
    ∧ s1 = ex_with_public s (public_put (ex_public s) creator (cj_path claim) bs) →
  yields (withdraw_content_lock fates others creator (cj_path claim)
            (dj_frozen_content_lock (cdj_job claim)) (tombstone claim)) s (Ok TombstoneExact) s1.
Proof.
  intros Hbs Ho Hpub.
  eapply yields_run_bind; [rewrite Hbs; apply yields_lift|].
  eapply yields_run_bind; [rewrite Ho; apply yields_lift|].
  eapply yields_run_bind; [apply yields_public_read|]. cbn.
  destruct Hpub as [[Hget ->]|[Hget ->]]; rewrite Hget; [by rewrite eqb_same; apply yields_ret|].
  destruct (original == bs) eqn:He.
  - apply eqb_true in He as ->. unfold public_put. rewrite insert_id by exact Hget.
    rewrite ex_with_public_id. apply yields_ret.
  - rewrite eqb_same. eapply yields_run_bind; [by apply yields_call|].
    pose proof (yields_read_tombstone creator (cj_path claim) (tombstone claim)
      (ex_with_public s (public_put (ex_public s) creator (cj_path claim) bs)) bs Hbs) as Hr.
    unfold public_get, public_put in Hr. cbn in Hr. rewrite lookup_insert_eq in Hr. cbn in Hr.
    by rewrite eqb_same in Hr.
Qed.

Lemma yields_tombstoned s bs :
  canonical_tombstone_bytes (tombstone claim) = Ok bs →
  public_get (ex_public s) creator (cj_path claim) = Some bs →
  yields (read_tombstone fates others creator (cj_path claim) (tombstone claim)) s
    (Ok TombstoneExact) s.
Proof.
  intros Hbs Hpub. pose proof (yields_read_tombstone creator (cj_path claim) _ s bs Hbs) as Hr.
  rewrite Hpub in Hr. cbn in Hr. by rewrite eqb_same in Hr.
Qed.

Lemma yields_issue s windows a job r :
  initialize_final_access_windows (del_access (ex_repo s)) id worker (cdj_claim_token claim)
    (final_credential_issuance_window config) (final_read_window config) (ex_now s)
  = Ok (Initialized windows, a) →
  final_credentials_to_materialize a id worker (cdj_claim_token claim)
    (final_credential_batch_limit config) (ex_now s) = [] →
  let s1 := ex_with_repo s (del_with_access (ex_repo s) a) in
  advance_phase (ex_repo s1) id worker (cdj_claim_token claim) DrainFinalReads (ex_now s1)
    = Ok (Advanced job, r) →
  yields (act_bind (λ outcome, act_ret (repository_execution outcome))
            (issue_final_credentials fates others cipher_key nonces generator config claim worker))
    s (advanced_with []) (ex_with_repo s1 r).
Proof.
  intros Hi Hnone s1 Ha. eapply yields_bind; [|apply yields_ret].
  eapply yields_bind; [by apply yields_access|]. eapply yields_bind.
  { eapply yields_run_bind; [apply (yields_access _ s1 [] a)|apply yields_ret].
    f_equal. by f_equal. }
  cbv beta iota.
  assert (Nat.ltb 0 (final_credential_batch_limit config)
          && Nat.leb (final_credential_batch_limit config) 0 = false) as ->.
  { by destruct (final_credential_batch_limit config). }
  eapply yields_bind; [eapply yields_repo; exact Ha|]. apply yields_ret.
Qed.

Lemma yields_guarded s s1 next job r :
  permits (dj_phase (cdj_job claim)) next = true → conditions_met s s1 →
  advance_phase (ex_repo s1) id worker (cdj_claim_token claim) next (ex_now s1)
    = Ok (Advanced job, r) →
  ∃ x, progressed x
       ∧ yields (execute_guarded_with_evidence fates others cipher_key nonces generator config
                   payments claim worker) s x (ex_with_repo s1 r).
Proof.
  unfold conditions_met, execute_guarded_with_evidence. intros Hp Hc Ha.
  pose proof (λ evidence, yields_advance_with next evidence s1 job r Ha) as Hadv.
  assert (Hone : ∀ source, progressed (advanced_with [evidence_healthy source])).
  { intros source. apply progressed_advanced_with. by constructor; [apply all_well_healthy|]. }
  destruct (dj_phase (cdj_job claim)) eqn:Hphase; try done;
    destruct next; try discriminate Hp; clear Hp.
  - destruct Hc as (bs & original & Hbs & Ho & Hpub). eexists. split; [apply (Hone PubkyWithdrawal)|].
    eapply yields_bind; [by eapply yields_withdraw|]. apply Hadv.
  - subst s1. exists (advanced_with []). split; [by apply progressed_advanced_with|]. apply Hadv.
  - destruct Hc as (windows & a & Hi & Hnone & ->). exists (advanced_with []).
    split; [by apply progressed_advanced_with|]. by eapply yields_issue.
  - subst s1. exists (advanced_with []). split; [by apply progressed_advanced_with|]. apply Hadv.
  - destruct Hc as (-> & Ht & Hres).
    pose (x (b : bool) := advanced_with [evidence_healthy PubkyReadback;
      if b then evidence_healthy PubkyResource else evidence_none]).
    edestruct (yields_verify_resources (btree_iter frozen) false) with (x := x) as [b Hb].
    { intros path hash Hin. by apply Hres, elem_of_btree_iter. }
    { exact Ht. }
    2:{ exists (x b). split; [|exact Hb]. apply progressed_advanced_with.
        repeat constructor; [apply all_well_healthy|].
        destruct b; [apply all_well_healthy|apply all_well_none]. }
    intros b. destruct Ht as (bs & Hbs & Hpub).
    eapply yields_bind; [by eapply yields_tombstoned|]. apply Hadv.
  - destruct Hc as (-> & bs & Hbs & Hpub). eexists. split; [apply (Hone PubkyReadback)|].
    eapply yields_bind; [by eapply yields_tombstoned|]. apply Hadv.
Qed.

(** Before it asks for the next phase an execution leaves the job, the clock and the lanes as
    they are. *)
Lemma conditions_keep s s1 :
  conditions_met s s1 →
  del_jobs (ex_repo s1) = del_jobs (ex_repo s) ∧ ex_now s1 = ex_now s ∧ ex_owned s1 = ex_owned s
  ∧ (∀ owned, conditions_met (ex_with_owned s owned) (ex_with_owned s1 owned))
  ∧ (dj_phase (cdj_job claim) = Withdraw → tombstoned s1).
Proof.
  unfold conditions_met. intros Hc. destruct (dj_phase (cdj_job claim)); try done.
  - destruct Hc as (bs & original & Hbs & Hj & [[Hg ->]|[Hg ->]]); split_and!; try done.
    + intros owned. exists bs, original. split_and!; try done. by left.
    + intros _. by exists bs.
    + intros owned. exists bs, original. split_and!; try done. by right.
    + intros _. exists bs. split; [done|]. cbn. apply lookup_insert_eq.
  - by subst.
  - destruct Hc as (windows & a & Hi & Hnone & ->). split_and!; try done. intros owned. by exists windows, a.
  - by subst.
  - by destruct Hc as (-> & Ht & Hres).
  - by destruct Hc as (-> & Ht).
Qed.

(** The lane of a claimed job is free to take. *)
Lemma acquires s key sj :
  claimed_job s key sj → ex_owned s !! id = None →
  yields (acquire_lane fates others me
    (λ now r, action_claim_is_live r (MkActionClaim id worker (cdj_claim_token claim)
       (dj_phase (cdj_job claim)) false) now) id)
    s (Ok LaneAcquired) (ex_with_owned s (<[id := me]> (ex_owned s))).
Proof.
  intros Hcl Hfree. eapply yields_run_bind with (a := true) (s1 := ex_with_owned s (<[id := me]> (ex_owned s))).
  { intros w0 Hw0. unfold lane_enter. rewrite delivered, quiet, Hw0, Hfree. done. }
  eapply yields_bind; [by apply yields_repo|]. cbv beta.
  change (ex_repo (ex_with_owned s (<[id := me]> (ex_owned s)))) with (ex_repo s).
  change (ex_now (ex_with_owned s (<[id := me]> (ex_owned s)))) with (ex_now s).
  rewrite (claimed_job_live s key sj) by done. apply yields_ret.
Qed.

(** The execution of a job in the last phase asks for its deferral. *)
Lemma purge_deferred (w : World ExecState E) key sj :
  claimed_job (w_store w) key sj → ex_owned (w_store w) !! id = None →
  dj_phase (cdj_job claim) = PurgeOperationalState →
  let (x, w') := execute_with_evidence fates others me cipher_key nonces generator config payments
                   claim worker w in
  pe_outcome x = PhaseDeferred ∧ w_store w' = w_store w.
Proof.
  intros Hcl Hfree Hphase. pose proof (acquires _ _ _ Hcl Hfree w eq_refl) as Hacq.
  unfold execute_with_evidence, try_acquire, act_bind. cbn [ac_job_id].
  destruct (acquire_lane _ _ _ _ _ w) as [g w1]. cbn in Hacq. destruct Hacq as [-> Hw1].
  unfold execute_guarded_with_evidence. rewrite Hphase.
  unfold act_ret, release_lane, act_bind, lane_leave. rewrite quiet, Hw1. cbn. rewrite delivered. cbn.
  split; [done|]. rewrite delete_insert_id by done. by destruct (w_store w).
Qed.

(** C30: A claimed job leaves its phase when nothing is in its way.  With nobody interfering
    and every call answered, the execution of a job under a live claim reports progress and
    healthy dependencies, gives its lane back and leaves the job queued for the next phase,
    all its attempts ahead, if the repository's obligations for that step are met: no
    admission is open when the payments are to be drained, and the credentials and reads of
    the phase are settled.  Besides, a withdrawal needs the lock or its tombstone in public,
    and leaves the tombstone there; the issue of final credentials needs none to be left to
    issue; the deletion of the content, and the step after it, need the tombstone in public,
    and the former every guarded resource as it was frozen.  The two phases of the payments
    have an executor of their own, and the last phase is never left. *)
Theorem phase_progresses (w : World ExecState E) s1 next key sj :
  let s := w_store w in
  ex_owned s !! id = None → claimed_job s key sj →
  permits (dj_phase (cdj_job claim)) next = true →
  conditions_met s s1 → obligations_met s1 next →
  let (x, w') := execute_with_evidence fates others me cipher_key nonces generator config payments
                   claim worker w in
  progressed x
  ∧ ex_repo (w_store w') = store_job (ex_repo s1) key (unclaimed_job (left_for sj next))
  ∧ ex_owned (w_store w') = ex_owned s ∧ ex_public (w_store w') = ex_public s1
  ∧ (dj_phase (cdj_job claim) = Withdraw → tombstoned (w_store w')).
Proof.
  cbn zeta. intros Hfree Hcl Hp Hc Hob. set (s := w_store w) in *.
  set (owned := <[id := me]> (ex_owned s)).
  destruct (conditions_keep s s1 Hc) as (Hj1 & Hn1 & Ho1 & Hc' & Ht1). specialize (Hc' owned).
  assert (claimed_job s1 key sj) as Hcl1.
  { unfold claimed_job, find_owned in *. by rewrite Hj1, Hn1. }
  destruct (yields_guarded _ _ next _ _ Hp Hc' (obligations_advance s1 key sj next Hcl1 Hp Hob))
    as (x & [Hx Hwell] & Hy).
  pose proof (acquires s key sj Hcl Hfree w eq_refl) as Hacq. unfold execute_with_evidence, try_acquire, act_bind. cbn [ac_job_id].
  destruct (acquire_lane _ _ _ _ _ w) as [g w1]. cbn in Hacq. destruct Hacq as [-> Hw1].
  specialize (Hy w1 Hw1). destruct (execute_guarded_with_evidence _ _ _ _ _ _ _ _ _ w1) as [y w2].
  cbn in Hy. destruct Hy as [-> Hw2]. unfold release_lane, act_bind, lane_leave.
  rewrite quiet, Hw2. cbn. rewrite delivered. cbn. unfold owned.
  split_and!; [split; [done|]|done|by rewrite delete_insert_id|done|done].
  apply all_well_merge; [apply all_well_merge; [exact Hwell|]|]; apply all_well_healthy.
Qed.
End progress.

(** * The last phase *)

(** Every job that is complete was complete before. *)
Definition completes_nothing (s s' : ExecState) : Prop :=
  ∀ key sj', del_jobs (ex_repo s') !! key = Some sj' → dj_state (sj_job sj') = DelCompleted →
    ∃ sj, del_jobs (ex_repo s) !! key = Some sj ∧ dj_state (sj_job sj) = DelCompleted.

#[global] Instance completes_nothing_preorder : PreOrder completes_nothing.
Proof.
  split; [intros s key sj; eauto|]. intros s1 s2 s3 H12 H23 key sj Hsj Hc.
  destruct (H23 key sj Hsj Hc) as (sj2 & Hsj2 & Hc2). by apply (H12 key sj2).
Qed.

Lemma completes_nothing_jobs s s' :
  del_jobs (ex_repo s') = del_jobs (ex_repo s) → completes_nothing s s'.
Proof. intros Hj key sj. rewrite Hj. eauto. Qed.

Lemma completes_nothing_store s r key sj :
  r = store_job (ex_repo s) key sj → dj_state (sj_job sj) ≠ DelCompleted →
  completes_nothing s (ex_with_repo s r).
Proof.
  intros -> Hne k sj'. cbn. rewrite lookup_insert_Some. intros [[<- <-]|[_ Hsj]] Hc; [done|eauto].
Qed.

Lemma worker_op_completes_nothing s r :
  worker_op (ex_now s) (ex_repo s) r → completes_nothing s (ex_with_repo s r).
Proof.
  intros Hop. destruct Hop as [order worker ttl token|job worker token after|job worker token after|
                               job worker token o r' Hf].
  - unfold claim_next. cbn zeta. destruct (min_by _ _) as [[key sj]|]; [|by apply completes_nothing_jobs].
    by eapply completes_nothing_store.
  - unfold schedule_retry. destruct (find_owned _ _ _ _ _) as [[key sj]|];
      [by eapply completes_nothing_store|by apply completes_nothing_jobs].
  - unfold defer. destruct (find_owned _ _ _ _ _) as [[key sj]|];
      [by eapply completes_nothing_store|by apply completes_nothing_jobs].
  - unfold finish in Hf. destruct (find_owned _ _ _ _ _) as [[key sj]|].
    + apply bind_Ok in Hf as ([] & _ & [= <- <-]). by eapply completes_nothing_store.
    + injection Hf as <- <-. by apply completes_nothing_jobs.
Qed.

Section last_phase.
  Context `{JsonCanonicalizer, CanonicalizationError, Rfc3339, TimeCrate, Blake3, Base64Url, Aead}.

Lemma claim_op_completes_nothing claim worker s r :
  claim_op claim worker (ex_now s) (ex_repo s) r → completes_nothing s (ex_with_repo s r).
Proof.
  intros Hop. destruct Hop as [next o r' Hop|code o r' Hop|b r' Hop|issue read x a' Hop|
                               key nonce c b cand at_ o a' Hop].
  - unfold advance_phase in Hop. destruct (find_owned _ _ _ _ _) as [[key sj]|].
    2:{ injection Hop as _ <-. by apply completes_nothing_jobs. }
    apply bind_Ok in Hop as ([] & _ & Hop).
    split_match in Hop; [injection Hop as _ <-; by apply completes_nothing_jobs|].
    apply bind_Ok in Hop as (st & _ & Hop). destruct st; injection Hop as _ <-;
      first [by apply completes_nothing_jobs|by eapply completes_nothing_store].
  - unfold finish in Hop. destruct (find_owned _ _ _ _ _) as [[key sj]|].
    + apply bind_Ok in Hop as ([] & _ & [= <- <-]). by eapply completes_nothing_store.
    + injection Hop as <- <-. by apply completes_nothing_jobs.
  - unfold del_expire_unresolved_non_paykit_tasks in Hop.
    apply bind_Ok in Hop as ([b' [a t]] & _ & Hop). injection Hop as _ <-.
    by apply completes_nothing_jobs.
  - by apply completes_nothing_jobs.
  - by apply completes_nothing_jobs.
Qed.

Lemma graceful_step_completes_nothing me claim worker s s' :
  graceful_step me claim worker s s' → completes_nothing s s'.
Proof.
  intros Hs. destruct Hs; [by apply completes_nothing_jobs..|by eapply claim_op_completes_nothing|].
  by apply completes_nothing_jobs.
Qed.

Lemma forced_step_completes_nothing me claim worker s s' :
  forced_step me claim worker s s' → completes_nothing s s'.
Proof.
  intros Hs. destruct Hs as [| | | |b r' Ho Hc]; try (by apply completes_nothing_jobs).
  unfold complete_force_deletion in Hc.
  destruct (find_entry _ _) as [[key sj]|]; [|injection Hc as <- <-; by apply completes_nothing_jobs].
  split_match in Hc; [injection Hc as <- <-; by apply completes_nothing_jobs|].
  split_match in Hc; injection Hc as <- <-; [|by apply completes_nothing_jobs].
  intros k sj'. cbn. rewrite lookup_delete_Some. intros [_ Hsj']. eauto.
Qed.
End last_phase.
