(* ===== verification/PaymentDrains.v ===== *)
(** Settling the payments of a lock that is being deleted
    ([locks-service/src/application/use_cases/drain_lock_payments.rs], the types of
    [application/ports/payment_drain.rs] and [payment_drain_repository.rs]).

    The drain repository, the provider and the entitlement store are ports; the use
    case is written against their interfaces.  [PaymentDrainDb] has the database
    behind the drain repository. *)

From S2P Require Import Prelude RustStr HashMaps Externals Ids Json LockPolicy Wire Errors.
From S2P Require Import Run Verifiers Secrets Entitlements Lifecycle DeletionJob AccessStore.
From S2P Require Import DeletionStore DeletionEvidence AccessUse CreateLock Resources DeletionExec.
#[local] Open Scope act_scope.

(** * Data *)

Inductive PaymentDrainStatus := DrainActive | DrainCompleted.

#[global] Instance PaymentDrainStatus_eq_dec : EqDecision PaymentDrainStatus.
Proof. solve_decision. Defined.

Definition PaymentDrainStatus_parse (value : string) : option PaymentDrainStatus :=
  if value == "active" then Some DrainActive
  else if value == "completed" then Some DrainCompleted else None.

Record PaymentDrainCleanupToken := MkCleanupToken { cleanup_token_str : string }.

#[global] Instance PaymentDrainCleanupToken_eq_dec : EqDecision PaymentDrainCleanupToken.
Proof. solve_decision. Defined.

Definition PaymentDrainCleanupToken_parse `{Base64Url} (value : string) :
    option PaymentDrainCleanupToken :=
  if (str_len value != 43) || contains "=" value then None
  else
    decoded ← b64_decode value;
    if (length decoded != 32)%nat then None
    else if b64_encode decoded == value then Some (MkCleanupToken value) else None.

Record PaymentDrainSummary := MkDrainSummary {
  pds_status : PaymentDrainStatus;
  pds_accepted_count : Z;
  pds_terminal_count : Z;
  pds_cancellation_enqueued_count : Z;
  pds_cleanup_token : PaymentDrainCleanupToken;
}.

#[global] Instance PaymentDrainSummary_eq_dec : EqDecision PaymentDrainSummary.
Proof. solve_decision. Defined.

Inductive PaymentRequestState :=
  | DrainProposed
  | DrainProposalExpired
  | DrainAccepted
  | DrainRejected
  | DrainCanceled
  | DrainProofSubmitted
  | DrainActiveRecurring
  | DrainRecoveryRequired
  | DrainInvalidConflict.

#[global] Instance PaymentRequestState_eq_dec : EqDecision PaymentRequestState.
Proof. solve_decision. Defined.

Definition PaymentRequestState_parse (value : string) : option PaymentRequestState :=
  if value == "proposed" then Some DrainProposed
  else if value == "proposal_expired" then Some DrainProposalExpired
  else if value == "accepted" then Some DrainAccepted
  else if value == "rejected" then Some DrainRejected
  else if value == "canceled" then Some DrainCanceled
  else if value == "proof_submitted" then Some DrainProofSubmitted
  else if value == "active_recurring" then Some DrainActiveRecurring
  else if value == "recovery_required" then Some DrainRecoveryRequired
  else if value == "invalid_conflict" then Some DrainInvalidConflict
  else None.

Definition PaymentState_parse (value : string) : option PaymentState :=
  if value == "undetected" then Some Undetected
  else if value == "detected" then Some Detected
  else if value == "confirmed" then Some Confirmed
  else if value == "expired" then Some PaymentExpired
  else None.

Record PaymentRequestStatus := MkRequestStatus {
  prs_request_state : PaymentRequestState;
  prs_payment_state : PaymentState;
  prs_invoice_created_at : OffsetDateTime;
  prs_payment_deadline : OffsetDateTime;
  prs_bitcoin : option PaymentObservation;
  prs_usdt_arbitrum : option PaymentObservation;
}.

Inductive PaymentDrainClientError :=
  | ClientNotFound
  | ClientConflict
  | ClientMalformedSuccess
  | ClientTransport
  | ClientServer.

Record PaymentDrainObligation := MkObligation {
  ob_task_id : TaskId;
  ob_creator : CreatorPubky;
  ob_bundle_id : BundleId;
  ob_lock_resource : PubkyLockResource;
  ob_criterion_id : string;
  ob_invoice_created_at : OffsetDateTime;
  ob_payment_deadline : OffsetDateTime;
  ob_status : VerificationTaskStatus;
  ob_entitlement_to_publish : option VerifiedProofBundle;
}.

Record PaymentDrainTerminalTransition := MkTerminalTransition {
  tt_status : VerificationTaskStatus;
  tt_entitlement_publication_token : option Uuid;
  tt_terminal_reason : option VerificationTerminalReason;
}.

(** * Ports *)

Class PaymentDrains (E : Type) := {
  drains_store_payment_drain : E → Uuid → string → Uuid → PaymentDrainSummary →
    result ApplicationError bool * E;
  drains_get_payment_drain : E → Uuid →
    result ApplicationError (option PaymentDrainSummary) * E;
  drains_reconcile_payment_drain : E → Uuid → string → Uuid → PaymentDrainSummary →
    result ApplicationError bool * E;
  drains_list_obligations : E → Uuid →
    result ApplicationError (list PaymentDrainObligation) * E;
  drains_begin_entitlement_publication : E → Uuid → string → Uuid → TaskId →
    VerifiedProofBundle → result ApplicationError (option Uuid) * E;
  drains_persist_terminal_obligation : E → Uuid → string → Uuid → TaskId →
    PaymentDrainTerminalTransition → result ApplicationError bool * E;
  drains_all_obligations_terminal : E → Uuid → result ApplicationError bool * E;
}.

Class PaykitDrainClient (E : Type) := {
  paykit_start_payment_drain : E → PubkyLockResource →
    result PaymentDrainClientError PaymentDrainSummary * E;
  paykit_lookup_payment_drain : E → PubkyLockResource →
    result PaymentDrainClientError (option PaymentDrainSummary) * E;
  paykit_payment_request_status : E → CreatorPubky → BundleId →
    result PaymentDrainClientError (option PaymentRequestStatus) * E;
}.

(** * Decisions *)

Definition map_client_error (error : PaymentDrainClientError) : ApplicationError :=
  Verifier match error with
           | ClientNotFound => "Paykit payment drain not found"
           | ClientConflict => "Paykit payment drain conflict"
           | ClientMalformedSuccess => "Paykit payment drain returned malformed success"
           | ClientTransport => "Paykit payment drain transport failure"
           | ClientServer => "Paykit payment drain server failure"
           end.

(** [u64::checked_sub]. *)
Definition checked_sub (a b : Z) : option Z := if b <=? a then Some (a - b) else None.

Definition validate_aggregate_progress (persisted current : PaymentDrainSummary) :
    result ApplicationError () :=
  let accepted_delta := checked_sub (pds_accepted_count persisted) (pds_accepted_count current) in
  let terminal_delta := checked_sub (pds_terminal_count current) (pds_terminal_count persisted) in
  if (pds_cleanup_token persisted != pds_cleanup_token current)
     || (pds_cancellation_enqueued_count persisted != pds_cancellation_enqueued_count current)
     || is_none accepted_delta
     || is_none terminal_delta
     || (accepted_delta != terminal_delta)
     || ((pds_status current == DrainCompleted) && (pds_accepted_count current != 0))
     || ((pds_status current == DrainActive) && (pds_accepted_count current == 0))
     || ((pds_status persisted == DrainCompleted) && (pds_status current != DrainCompleted))
  then Err (InvalidContentLockDeletionState
              "Paykit payment drain aggregate changed incompatibly for deletion job")
  else Ok ().

(** What a payment request's status means for its task: nothing yet, or the terminal
    status the task takes and why. *)
Definition classify_payment_task (status : PaymentRequestStatus) (minimum_confirmations : Z) :
    result ApplicationError (option (VerificationTaskStatus * option VerificationTerminalReason)) :=
  match prs_request_state status with
  | DrainRecoveryRequired | DrainInvalidConflict | DrainProofSubmitted | DrainActiveRecurring =>
      Err (InvalidVerificationTaskState
             "Paykit payment request entered an unsupported failure state")
  | _ =>
      let terminal_reason :=
        match prs_request_state status, prs_payment_state status with
        | DrainRejected, _ => Some PaymentRequestRejected
        | DrainCanceled, _ => Some PaymentRequestCanceled
        | DrainProposalExpired, _ => Some ReasonProposalExpired
        | DrainAccepted, PaymentExpired => Some PaymentDeadlineExpired
        | _, _ => None
        end in
      match terminal_reason with
      | Some reason => Ok (Some (Expired, Some reason))
      | None =>
          if prs_request_state status != DrainAccepted then Ok None
          else if payment_qualifies (prs_payment_state status) (prs_bitcoin status)
                    (prs_usdt_arbitrum status) minimum_confirmations
          then Ok (Some (Completed, None)) else Ok None
      end
  end.

(** [verified_at] of the criteria aside. *)
Definition same_entitlement_decision (existing candidate : VerifiedProofBundle) : bool :=
  let criteria bundle := vr_criteria (vb_verification_result bundle) in
  if (length (criteria existing) != length (criteria candidate))%nat then false
  else
    let normalized := zip_with (λ candidate_result existing_result,
        MkCriterionVerificationResult (cvr_criterion_id candidate_result)
          (cvr_satisfied candidate_result) (cvr_verified_at existing_result)
          (cvr_verified_by candidate_result) (cvr_verifier_type candidate_result))
      (criteria candidate) (criteria existing) in
    existing == MkVerifiedProofBundle (vb_version candidate) (vb_bundle_id candidate)
                  (vb_pubky_lock_resource candidate) (MkVerificationResult normalized)
                  (vb_entitlement_lifetime candidate).

(** * The use case *)

Section use_case.
  Context {E : Type} (fates : nat → Fate) (others : nat → ExecState → ExecState).
  Context `{!PaymentDrains E, !PaykitDrainClient E, !EntitlementStoreV1 E}.
  Context (verified_by : LockServerPubky) (minimum_confirmations : Z).

(** A computation that may fail and observes its dependencies
    ([evidence: &mut DeletionDependencyEvidence]). *)
Definition Drain (A : Type) : Type :=
  DeletionDependencyEvidence →
  Act ExecState E (result ApplicationError A * DeletionDependencyEvidence).

Definition drain_ret {A} (a : A) : Drain A := λ ev, act_ret (Ok a, ev).
Definition drain_err {A} (e : ApplicationError) : Drain A := λ ev, act_ret (Err e, ev).
Definition drain_bind {A B} (f : A → Drain B) (m : Drain A) : Drain B := λ ev,
  r ⇐ m ev;
  match r.1 with Ok a => f a r.2 | Err e => act_ret (Err e, r.2) end.
Definition drain_lift {A} (r : result ApplicationError A) : Drain A := λ ev, act_ret (r, ev).
(** The answer itself, to be matched on. *)
Definition drain_act {A} (m : Act ExecState E A) : Drain A := λ ev, a ⇐ m; act_ret (Ok a, ev).
(** [.await?]. *)
Definition drain_run {A} (m : Run ExecState E A) : Drain A := λ ev, r ⇐ m; act_ret (r, ev).

Definition observe_healthy (source : DeletionDependencySource) : Drain () := λ ev,
  act_ret (Ok (), evidence_merge ev (evidence_healthy source)).
Definition observe_unavailable (source : DeletionDependencySource) : Drain () := λ ev,
  act_ret (Ok (), evidence_merge ev (evidence_unavailable source)).

#[local] Notation "x ⟸ m ; k" := (drain_bind (λ x, k) m)
  (at level 20, m at level 100, k at level 200, right associativity).

(** One request to the drain repository, the provider or the entitlement store. *)
Definition ask_external {A} (op : E → A * E) : Act ExecState E A := λ w,
  let s := others (w_ticks w) (w_store w) in
  let (a, e) := op (w_entitlements w) in
  (a, MkWorld s e (w_ticks w + 1)%nat).

(** The answer is observed healthy, an error unavailable and returned. *)
Definition observed {A} (source : DeletionDependencySource)
    (m : Run ExecState E A) : Drain A :=
  r ⟸ drain_act m;
  match r with
  | Ok a => _ ⟸ observe_healthy source; drain_ret a
  | Err error => _ ⟸ observe_unavailable source; drain_err error
  end.

(** As [observed], but a refusal is no observation. *)
Definition observed_some {A} (m : Run ExecState E (option A)) : Drain (option A) :=
  r ⟸ drain_act m;
  match r with
  | Ok (Some a) => _ ⟸ observe_healthy PaymentDrainRepository; drain_ret (Some a)
  | Ok None => drain_ret None
  | Err error => _ ⟸ observe_unavailable PaymentDrainRepository; drain_err error
  end.
Definition observed_true (m : Run ExecState E bool) : Drain bool :=
  r ⟸ drain_act m;
  match r with
  | Ok true => _ ⟸ observe_healthy PaymentDrainRepository; drain_ret true
  | Ok false => drain_ret false
  | Err error => _ ⟸ observe_unavailable PaymentDrainRepository; drain_err error
  end.

(** An answer of the provider; its absence is an answer too. *)
Definition paykit_found {A} (missing : string)
    (m : Act ExecState E (result PaymentDrainClientError (option A))) : Drain A :=
  r ⟸ drain_act m;
  match r with
  | Ok (Some a) => _ ⟸ observe_healthy PaymentProvider; drain_ret a
  | Ok None => _ ⟸ observe_healthy PaymentProvider; drain_err (Verifier missing)
  | Err error => _ ⟸ observe_unavailable PaymentProvider; drain_err (map_client_error error)
  end.

(** [matches!(error, DuplicateRecord { record } if record == ...)]. *)
Definition expected_duplicate (error : ApplicationError) : bool :=
  match error with
  | DuplicateRecord record => record == "verified_proof_bundle"
  | _ => false
  end.

Definition persist_entitlement (entitlement : VerifiedProofBundle) : Drain () :=
  written ⟸ drain_act (ask_external (λ e, ent1_insert e entitlement));
  let write_error := match written with Err error => Some error | Ok _ => None end in
  _ ⟸ (if is_some_and (λ error, negb (expected_duplicate error)) write_error
       then observe_unavailable EntitlementRepository else drain_ret ());
  existing ⟸ observed EntitlementRepository
    (ask_external (λ e, ent1_get e (resource_creator (vb_pubky_lock_resource entitlement))
                          (vb_bundle_id entitlement)));
  if is_some_and (λ existing, same_entitlement_decision existing entitlement) existing
  then drain_ret ()
  else drain_err (default (Storage "published entitlement was not equivalent on read-back")
                    write_error).

Section claimed.
  Context (claim : ClaimedContentLockDeletionJob) (worker_id : string).
Let job_id := cj_id claim.
Let token := cdj_claim_token claim.

Definition lock_resource : PubkyLockResource :=
  MkPubkyLockResource (dj_creator (cdj_job claim)) (cj_path claim).

Definition advance_to (next_phase : ContentLockDeletionPhase) : Drain bool :=
  r ⟸ drain_act (ask_repo fates others
        (λ now r, advance_phase r job_id worker_id token next_phase now));
  match r with
  | Ok (Advanced _) => _ ⟸ observe_healthy RepositoryPhaseMutation; drain_ret true
  | Ok AdvanceClaimLost => drain_ret false
  | Ok _ => _ ⟸ observe_healthy RepositoryPhaseMutation; drain_ret false
  | Err error => _ ⟸ observe_unavailable RepositoryPhaseMutation; drain_err error
  end.

Definition advance_completed_drain : Drain bool := advance_to DrainExistingCredentials.

Definition all_obligations_terminal : Drain bool :=
  observed PaymentDrainRepository (ask_external (λ e, drains_all_obligations_terminal e job_id)).

Definition finish_completed_drain : Drain bool :=
  terminal ⟸ all_obligations_terminal;
  if negb terminal then drain_ret false else advance_completed_drain.

(** [begin_entitlement_publication], the entitlement written and read back, and the
    token of the publication; [None] when the repository refuses. *)
Definition publish_entitlement (task_id : TaskId) (entitlement : VerifiedProofBundle) :
    Drain (option Uuid) :=
  admitted ⟸ observed_some (ask_external (λ e,
    drains_begin_entitlement_publication e job_id worker_id token task_id entitlement));
  match admitted with
  | None => drain_ret None
  | Some publication_token =>
      _ ⟸ persist_entitlement entitlement;
      drain_ret (Some publication_token)
  end.

Definition persist_terminal (task_id : TaskId) (transition : PaymentDrainTerminalTransition) :
    Drain bool :=
  observed_true (ask_external (λ e,
    drains_persist_terminal_obligation e job_id worker_id token task_id transition)).

Definition reconcile_summary (summary : PaymentDrainSummary) : Drain bool :=
  observed_true (ask_external (λ e,
    drains_reconcile_payment_drain e job_id worker_id token summary)).

Definition start : Drain bool :=
  expired ⟸ drain_run (ask_repo fates others
    (λ now r, del_expire_unresolved_non_paykit_tasks r job_id worker_id token now));
  if negb expired then drain_ret false
  else
    _ ⟸ observe_healthy PaymentDrainRepository;
    snapshots ⟸ drain_run (ask_repo fates others (λ _ r, Ok (has_paykit_snapshots r job_id, r)));
    _ ⟸ observe_healthy PaymentDrainRepository;
    if negb snapshots then advance_to DrainPayments
    else
      started ⟸ drain_act (ask_external (λ e, paykit_start_payment_drain e lock_resource));
      summary ⟸ match started with
                | Ok summary => _ ⟸ observe_healthy PaymentProvider; drain_ret summary
                | Err ClientConflict =>
                    _ ⟸ observe_healthy PaymentProvider;
                    paykit_found "Paykit payment drain conflict could not be reconciled"
                      (ask_external (λ e, paykit_lookup_payment_drain e lock_resource))
                | Err error =>
                    _ ⟸ observe_unavailable PaymentProvider; drain_err (map_client_error error)
                end;
      _ ⟸ drain_act (clock_now others);
      stored ⟸ observed_true (ask_external (λ e,
        drains_store_payment_drain e job_id worker_id token summary));
      if negb stored then drain_ret false else advance_to DrainPayments.

(** The obligations whose publication was interrupted; whether there was one, [None]
    when the repository refuses. *)
Fixpoint replay_publications (obligations : list PaymentDrainObligation) (replayed : bool) :
    Drain (option bool) :=
  match obligations with
  | [] => drain_ret (Some replayed)
  | obligation :: obligations =>
      if ob_status obligation != PublishingEntitlement then replay_publications obligations replayed
      else
        entitlement ⟸ drain_lift (ok_or (ob_entitlement_to_publish obligation)
          (InvalidVerificationTaskState
             "publishing payment task is missing entitlement payload"));
        published ⟸ publish_entitlement (ob_task_id obligation) entitlement;
        match published with
        | None => drain_ret None
        | Some publication_token =>
            persisted ⟸ persist_terminal (ob_task_id obligation)
              (MkTerminalTransition Completed (Some publication_token) None);
            if negb persisted then drain_ret None else replay_publications obligations true
        end
  end.

(** The entitlement of a paid obligation. *)
Definition paid_entitlement (obligation : PaymentDrainObligation) (now : OffsetDateTime) :
    VerifiedProofBundle :=
  default
    (MkVerifiedProofBundle VERIFIED_PROOF_BUNDLE_VERSION (ob_bundle_id obligation)
       (ob_lock_resource obligation)
       (MkVerificationResult [MkCriterionVerificationResult (ob_criterion_id obligation) true now
                                verified_by PaykitPayment])
       Unbounded)
    (ob_entitlement_to_publish obligation).

Definition is_terminal_status (status : VerificationTaskStatus) : bool :=
  (status == Completed) || (status == Expired) || (status == Failed).

Definition settle_obligation (obligation : PaymentDrainObligation) : Drain bool :=
  status ⟸ paykit_found "Paykit payment request not found"
    (ask_external (λ e, paykit_payment_request_status e (ob_creator obligation)
                          (ob_bundle_id obligation)));
  if (prs_invoice_created_at status != ob_invoice_created_at obligation)
     || (prs_payment_deadline status != ob_payment_deadline obligation)
  then drain_err (InvalidVerificationTaskState "Paykit payment window changed during deletion")
  else
    decision ⟸ drain_lift (classify_payment_task status minimum_confirmations);
    match decision with
    | None => drain_ret true
    | Some (next_status, terminal_reason) =>
        now ⟸ drain_act (clock_now others);
        if next_status == Completed then
          published ⟸ publish_entitlement (ob_task_id obligation) (paid_entitlement obligation now);
          match published with
          | None => drain_ret false
          | Some publication_token =>
              persist_terminal (ob_task_id obligation)
                (MkTerminalTransition next_status (Some publication_token) terminal_reason)
          end
        else
          persist_terminal (ob_task_id obligation)
            (MkTerminalTransition next_status None terminal_reason)
    end.

(** False when the repository refuses. *)
Fixpoint settle_obligations (obligations : list PaymentDrainObligation) : Drain bool :=
  match obligations with
  | [] => drain_ret true
  | obligation :: obligations =>
      if is_terminal_status (ob_status obligation) then settle_obligations obligations
      else
        settled ⟸ settle_obligation obligation;
        if negb settled then drain_ret false else settle_obligations obligations
  end.

Definition get_payment_drain : Drain (option PaymentDrainSummary) :=
  observed PaymentDrainRepository (ask_external (λ e, drains_get_payment_drain e job_id)).

Definition lookup_payment_drain : Drain PaymentDrainSummary :=
  paykit_found "Paykit payment drain not found"
    (ask_external (λ e, paykit_lookup_payment_drain e lock_resource)).

Definition drain_without_obligations : Drain bool :=
  persisted ⟸ get_payment_drain;
  match persisted with
  | None => advance_completed_drain
  | Some persisted =>
      if pds_status persisted == DrainCompleted then advance_completed_drain
      else
        summary ⟸ lookup_payment_drain;
        _ ⟸ drain_lift (validate_aggregate_progress persisted summary);
        reconciled ⟸ reconcile_summary summary;
        if negb reconciled then drain_ret false
        else if pds_status summary != DrainCompleted then drain_ret false
        else advance_completed_drain
  end.

(** What is left after the replays: the drain is looked up and every obligation asked
    for. *)
Definition drain_with_provider (obligations : list PaymentDrainObligation)
    (persisted : PaymentDrainSummary) : Drain bool :=
  summary ⟸ lookup_payment_drain;
  _ ⟸ drain_lift (validate_aggregate_progress persisted summary);
  _ ⟸ drain_act (clock_now others);
  reconciled ⟸ reconcile_summary summary;
  if negb reconciled then drain_ret false
  else
    settled ⟸ settle_obligations obligations;
    if negb settled then drain_ret false
    else if pds_status summary != DrainCompleted then drain_ret false
    else finish_completed_drain.

Definition drain : Drain bool :=
  expired ⟸ drain_run (ask_repo fates others
    (λ now r, del_expire_unresolved_non_paykit_tasks r job_id worker_id token now));
  if negb expired then drain_ret false
  else
    _ ⟸ observe_healthy PaymentDrainRepository;
    obligations ⟸ observed PaymentDrainRepository
      (ask_external (λ e, drains_list_obligations e job_id));
    if length obligations == 0%nat then drain_without_obligations
    else
      found ⟸ get_payment_drain;
      persisted ⟸ drain_lift (ok_or found (InvalidContentLockDeletionState
        "payment drain cleanup token is missing"));
      replayed ⟸ replay_publications obligations false;
      match replayed with
      | None => drain_ret false
      | Some replayed =>
          terminal ⟸ (if pds_status persisted == DrainCompleted then all_obligations_terminal
                      else drain_ret false);
          match terminal, replayed with
          | true, _ => advance_completed_drain
          | false, true => drain_ret false
          | false, false => drain_with_provider obligations persisted
          end
      end.

Definition execute_claimed_observed : Drain bool :=
  match dj_phase (cdj_job claim) with
  | StartPaymentDrain => start
  | DrainPayments => drain
  | _ => drain_err (InvalidContentLockDeletionState
                      "payment drain use case requires a payment drain phase")
  end.

(** What is found corrupt fails the job. *)
Definition fail_corrupt (evidence : DeletionDependencyEvidence) :
    Act ExecState E DeletionPhaseExecution :=
  finished ⇐ ask_repo fates others
    (λ now r, finish r job_id worker_id token (Some StateCorrupt) now);
  act_ret match finished with
          | Ok (Some _) =>
              with_evidence (with_evidence (phase_execution TerminalFailed) evidence)
                (evidence_healthy RepositoryTerminalMutation)
          | Ok None => with_evidence (phase_execution PhaseClaimLost) evidence
          | Err finish_error =>
              with_evidence
                (with_evidence (phase_execution (error_outcome finish_error)) evidence)
                (evidence_unavailable RepositoryTerminalMutation)
          end.

Definition drain_execute_claimed_with_evidence : Act ExecState E DeletionPhaseExecution :=
  r ⇐ execute_claimed_observed evidence_none;
  let evidence := r.2 in
  match r.1 with
  | Ok true => act_ret (with_evidence (phase_execution Progressed) evidence)
  | Ok false => act_ret (with_evidence (phase_execution PhaseDeferred) evidence)
  | Err (InvalidVerificationTaskState _) | Err (InvalidContentLockDeletionState _) =>
      fail_corrupt evidence
  | Err error => act_ret (with_evidence (phase_execution (error_outcome error)) evidence)
  end.
End claimed.
End use_case.
