(* ===== verification/PaymentSafe.v ===== *)
(** What settling the payments of a deletion does, call by call: every write to the
    drain repository and the entitlement store follows the answers that justify it. *)

From S2P Require Import Prelude RustStr HashMaps Externals Ids Json LockPolicy Wire Errors.
From S2P Require Import Run Verifiers Secrets Entitlements Lifecycle DeletionJob AccessStore.
From S2P Require Import DeletionStore DeletionEvidence AccessUse CreateLock Resources DeletionExec.
From S2P Require Import DeletionTrace PaymentDrains.

(** * Calls and their answers *)

Inductive DrainEvent :=
  | EvStart (r : result PaymentDrainClientError PaymentDrainSummary)
  | EvLookup (r : result PaymentDrainClientError (option PaymentDrainSummary))
  | EvStatus (creator : CreatorPubky) (bundle : BundleId)
      (r : result PaymentDrainClientError (option PaymentRequestStatus))
  | EvStore (summary : PaymentDrainSummary) (r : result ApplicationError bool)
  | EvGet (r : result ApplicationError (option PaymentDrainSummary))
  | EvReconcile (summary : PaymentDrainSummary) (r : result ApplicationError bool)
  | EvList (r : result ApplicationError (list PaymentDrainObligation))
  | EvBegin (task : TaskId) (entitlement : VerifiedProofBundle)
      (r : result ApplicationError (option Uuid))
  | EvInsert (entitlement : VerifiedProofBundle) (r : result ApplicationError ())
  | EvRead (creator : CreatorPubky) (bundle : BundleId)
      (r : result ApplicationError (option VerifiedProofBundle))
  | EvPersist (task : TaskId) (transition : PaymentDrainTerminalTransition)
      (r : result ApplicationError bool)
  | EvTerminal (r : result ApplicationError bool).

Section events.
  Context {E : Type} `{!PaymentDrains E, !PaykitDrainClient E, !EntitlementStoreV1 E}.
  Context (claim : ClaimedContentLockDeletionJob) (worker : string).
Let id := cj_id claim.
Let token := cdj_claim_token claim.

(** The call of the event answers so in [e] and leaves [e']. *)
Definition performs_one (e : E) (ev : DrainEvent) (e' : E) : Prop :=
  match ev with
  | EvStart r => paykit_start_payment_drain e (lock_resource claim) = (r, e')
  | EvLookup r => paykit_lookup_payment_drain e (lock_resource claim) = (r, e')
  | EvStatus creator bundle r => paykit_payment_request_status e creator bundle = (r, e')
  | EvStore summary r => drains_store_payment_drain e id worker token summary = (r, e')
  | EvGet r => drains_get_payment_drain e id = (r, e')
  | EvReconcile summary r => drains_reconcile_payment_drain e id worker token summary = (r, e')
  | EvList r => drains_list_obligations e id = (r, e')
  | EvBegin task entitlement r =>
      drains_begin_entitlement_publication e id worker token task entitlement = (r, e')
  | EvInsert entitlement r => ent1_insert e entitlement = (r, e')
  | EvRead creator bundle r => ent1_get e creator bundle = (r, e')
  | EvPersist task transition r =>
      drains_persist_terminal_obligation e id worker token task transition = (r, e')
  | EvTerminal r => drains_all_obligations_terminal e id = (r, e')
  end.

Fixpoint performs (e : E) (tr : list DrainEvent) (e' : E) : Prop :=
  match tr with
  | [] => e' = e
  | ev :: tr => ∃ e1, performs_one e ev e1 ∧ performs e1 tr e'
  end.

Lemma performs_app e tr1 e1 tr2 e2 :
  performs e tr1 e1 → performs e1 tr2 e2 → performs e (tr1 ++ tr2) e2.
Proof.
  revert e. induction tr1 as [|ev tr1 IH]; intros e; cbn; [by intros ->|].
  intros (e' & H1 & H2) H3. eauto.
Qed.
End events.

(** * What justifies a write *)

Section guards.
  Context (verified_by : LockServerPubky) (minimum_confirmations : Z).

Definition listed (before : list DrainEvent) (ob : PaymentDrainObligation) : Prop :=
  ∃ obs, EvList (Ok obs) ∈ before ∧ ob ∈ obs.

(** The provider answered for the obligation, in its payment window, and the answer
    means [decision]. *)
Definition decided (before : list DrainEvent) (ob : PaymentDrainObligation)
    (decision : VerificationTaskStatus * option VerificationTerminalReason) : Prop :=
  ∃ status, EvStatus (ob_creator ob) (ob_bundle_id ob) (Ok (Some status)) ∈ before
    ∧ prs_invoice_created_at status = ob_invoice_created_at ob
    ∧ prs_payment_deadline status = ob_payment_deadline ob
    ∧ classify_payment_task status minimum_confirmations = Ok (Some decision).

(** An entitlement is published for an obligation whose publication was interrupted,
    as it was stored, or for one that is paid. *)
Definition owed (before : list DrainEvent) (task : TaskId) (entitlement : VerifiedProofBundle) :
    Prop :=
  ∃ ob, listed before ob ∧ ob_task_id ob = task
    ∧ (ob_status ob = PublishingEntitlement ∧ ob_entitlement_to_publish ob = Some entitlement
       ∨ decided before ob (Completed, None)
         ∧ ∃ now, entitlement = paid_entitlement verified_by ob now).

(** The repository admitted the publication, and the entitlement was read back. *)
Definition published (before : list DrainEvent) (task : TaskId) (token : Uuid) : Prop :=
  ∃ entitlement existing,
    owed before task entitlement
    ∧ EvBegin task entitlement (Ok (Some token)) ∈ before
    ∧ EvRead (resource_creator (vb_pubky_lock_resource entitlement)) (vb_bundle_id entitlement)
        (Ok (Some existing)) ∈ before
    ∧ same_entitlement_decision existing entitlement = true.

(** A task is completed after its entitlement was published, and expired for the
    reason the provider gave. *)
Definition justified (before : list DrainEvent) (ev : DrainEvent) : Prop :=
  match ev with
  | EvStore summary _ =>
      EvStart (Ok summary) ∈ before ∨ EvLookup (Ok (Some summary)) ∈ before
  | EvReconcile summary _ =>
      EvLookup (Ok (Some summary)) ∈ before
      ∧ ∃ persisted, EvGet (Ok (Some persisted)) ∈ before
          ∧ validate_aggregate_progress persisted summary = Ok ()
  | EvBegin task entitlement _ => owed before task entitlement
  | EvInsert entitlement _ =>
      ∃ task token, EvBegin task entitlement (Ok (Some token)) ∈ before
  | EvPersist task transition _ =>
      (∃ token, transition = MkTerminalTransition Completed (Some token) None
                ∧ published before task token)
      ∨ ∃ ob reason, transition = MkTerminalTransition Expired None (Some reason)
          ∧ listed before ob ∧ ob_task_id ob = task
          ∧ decided before ob (Expired, Some reason)
  | _ => True
  end.

(** Every call of [tr], made after those of [before], is justified. *)
Fixpoint guarded (before tr : list DrainEvent) : Prop :=
  match tr with
  | [] => True
  | ev :: tr => justified before ev ∧ guarded (before ++ [ev]) tr
  end.

Lemma guarded_app before tr1 tr2 :
  guarded before (tr1 ++ tr2) ↔ guarded before tr1 ∧ guarded (before ++ tr1) tr2.
Proof.
  revert before. induction tr1 as [|ev tr1 IH]; intros before; cbn.
  - rewrite app_nil_r. naive_solver.
  - rewrite IH, <- app_assoc. cbn. naive_solver.
Qed.

(** A drain is over when the repository said that every obligation is settled, or
    that there is none and the provider that nothing is left to settle. *)
Definition drain_over (before : list DrainEvent) : Prop :=
  EvTerminal (Ok true) ∈ before
  ∨ EvList (Ok []) ∈ before
    ∧ (EvGet (Ok None) ∈ before
       ∨ (∃ persisted, EvGet (Ok (Some persisted)) ∈ before ∧ pds_status persisted = DrainCompleted)
       ∨ ∃ summary, EvReconcile summary (Ok true) ∈ before ∧ pds_status summary = DrainCompleted).
End guards.

(** What the provider's status decides: a task is completed for an accepted request
    that is paid, and expired for the reason the request or its payment ended. *)
Lemma classify_payment_task_decides status minimum next reason :
  classify_payment_task status minimum = Ok (Some (next, reason)) →
  (next = Completed ∧ reason = None
   ∧ prs_request_state status = DrainAccepted ∧ prs_payment_state status ≠ PaymentExpired
   ∧ payment_qualifies (prs_payment_state status) (prs_bitcoin status) (prs_usdt_arbitrum status)
       minimum = true)
  ∨ ∃ r, next = Expired ∧ reason = Some r
    ∧ (prs_request_state status = DrainRejected ∧ r = PaymentRequestRejected
       ∨ prs_request_state status = DrainCanceled ∧ r = PaymentRequestCanceled
       ∨ prs_request_state status = DrainProposalExpired ∧ r = ReasonProposalExpired
       ∨ prs_request_state status = DrainAccepted ∧ prs_payment_state status = PaymentExpired
         ∧ r = PaymentDeadlineExpired).
Proof.
  unfold classify_payment_task. destruct (prs_request_state status) eqn:Hr; try done;
    destruct (prs_payment_state status) eqn:Hp; cbn;
    try (destruct (payment_qualifies _ _ _ _) eqn:Hq); intros [= <- <-];
    try (left; by split_and!); right; eexists; eauto 10.
Qed.

(** * The calculus *)

Section safe.
  Context {E : Type} (fates : nat → Fate) (others : nat → ExecState → ExecState).
  Context `{JsonCanonicalizer, CanonicalizationError, Rfc3339, TimeCrate, Blake3, Base64Url, Aead}.
  Context `{!PaymentDrains E, !PaykitDrainClient E, !EntitlementStoreV1 E}.
  Context (verified_by : LockServerPubky) (minimum_confirmations : Z).
  Context (me : nat) (claim : ClaimedContentLockDeletionJob) (worker : string).
Let id := cj_id claim.
Let token := cdj_claim_token claim.
  Context (lane_kept : ∀ n s, ex_owned s !! id = Some me → ex_owned (others n s) !! id = Some me).

Abbreviation Along := (along others (graceful_step me claim worker)).
Abbreviation Answered := (answered others (graceful_step me claim worker)).
Abbreviation Advance next := (λ now r, advance_phase r id worker token next now).
Abbreviation Justified := (justified verified_by minimum_confirmations).
Abbreviation Guarded := (guarded verified_by minimum_confirmations).

(** After the calls [before], the computation stays in the lane, makes justified calls,
    and returns only values for which [Q] holds of all calls made and the stores
    before and after. *)
Definition does {A} (before : list DrainEvent) (m : Drain (E := E) A)
    (Q : list DrainEvent → A → ExecState → ExecState → Prop) : Prop :=
  ∀ ev w, ex_owned (w_store w) !! id = Some me →
    let (x, w') := m ev w in
    Along (w_store w) (w_store w') ∧ ex_owned (w_store w') !! id = Some me
    ∧ ∃ tr, performs claim worker (w_entitlements w) tr (w_entitlements w')
        ∧ Guarded before tr
        ∧ ∀ a, x.1 = Ok a → Q (before ++ tr) a (w_store w) (w_store w').

Lemma does_ret {A} before (a : A) (Q : list DrainEvent → A → ExecState → ExecState → Prop) :
  (∀ s, Q before a s s) → does before (drain_ret a) Q.
Proof.
  intros HQ ev w Hw. cbn. split_and!; [done|done|]. exists []. rewrite app_nil_r.
  split_and!; [done|done|]. by intros a' [= <-].
Qed.

Lemma does_err {A} before e Q : does before (drain_err (A := A) e) Q.
Proof. intros ev w Hw. cbn. split_and!; [done|done|]. by exists []. Qed.

Lemma does_lift {A} before (r : result ApplicationError A) Q :
  (∀ a s, r = Ok a → Q before a s s) → does before (drain_lift r) Q.
Proof.
  intros HQ ev w Hw. cbn. split_and!; [done|done|]. exists []. rewrite app_nil_r.
  split_and!; [done|done|]. intros a ->. by apply HQ.
Qed.

Lemma does_weaken {A} before (m : Drain A) (Q Q' : list DrainEvent → A → ExecState → ExecState → Prop) :
  does before m Q → (∀ tr a s s', Q tr a s s' → Q' tr a s s') → does before m Q'.
Proof.
  intros Hm HQ ev w Hw. specialize (Hm ev w Hw). destruct (m ev w) as [x w'].
  destruct Hm as (? & ? & tr & ? & ? & ?). split_and!; [done|done|]. exists tr.
  split_and!; [done|done|]. auto.
Qed.

(** Observing is no call. *)
Lemma does_healthy {B} before source (f : () → Drain B) Q :
  does before (f ()) Q → does before (drain_bind f (observe_healthy source)) Q.
Proof. intros Hf ev w Hw. exact (Hf (evidence_merge ev (evidence_healthy source)) w Hw). Qed.
Lemma does_unavailable {B} before source (f : () → Drain B) Q :
  does before (f ()) Q → does before (drain_bind f (observe_unavailable source)) Q.
Proof. intros Hf ev w Hw. exact (Hf (evidence_merge ev (evidence_unavailable source)) w Hw). Qed.

(** The second half knows all calls of the first. *)
Lemma does_bind {A B} before (P : list DrainEvent → A → Prop) (f : A → Drain B) (m : Drain A)
    (Q : list DrainEvent → B → ExecState → ExecState → Prop) :
  does before m (λ tr a _ _, P tr a) →
  (∀ tr b s s1 s', Along s s1 → Q tr b s1 s' → Q tr b s s') →
  (∀ tr a, before `prefix_of` tr → P tr a → does tr (f a) Q) →
  does before (drain_bind f m) Q.
Proof.
  intros Hm Hweak Hf ev w Hw. unfold drain_bind, act_bind. specialize (Hm ev w Hw).
  destruct (m ev w) as [[r ev1] w1]. destruct Hm as (Hl & Ho & tr1 & Hp & Hg & HP).
  cbn [fst snd] in *. destruct r as [a|e].
  - specialize (Hf (before ++ tr1) a ltac:(by apply prefix_app_r) (HP a eq_refl)
      ev1 w1 Ho).
    destruct (f a ev1 w1) as [x w2]. destruct Hf as (Hl2 & Ho2 & tr2 & Hp2 & Hg2 & HQ).
    split_and!; [by etransitivity|done|]. exists (tr1 ++ tr2).
    split_and!; [by eapply performs_app|by apply guarded_app|].
    intros b Hb. rewrite app_assoc. eapply Hweak; [exact Hl|by apply HQ].
  - cbn. split_and!; [done|done|]. by exists tr1.
Qed.

(** Computations that make no calls to the outside. *)
Lemma does_inside {A} before (m : Act ExecState E A)
    (Q : ExecState → A → ExecState → Prop) :
  (∀ w, w_entitlements (m w).2 = w_entitlements w) →
  inside others (graceful_step me claim worker) me id m Q →
  does before (drain_act m) (λ tr a s s', tr = before ∧ Q s a s').
Proof.
  intros He Hm ev w Hw. unfold drain_act, act_bind. specialize (He w). specialize (Hm w Hw).
  destruct (m w) as [a w1]. destruct Hm as (Hl & Ho & HQ). cbn in *.
  split_and!; [done|done|]. exists []. rewrite app_nil_r. split_and!; [done|done|].
  by intros a' [= <-].
Qed.

Lemma does_external {A} before (op : E → A * E) (mk : A → DrainEvent) :
  (∀ e a e', op e = (a, e') → performs_one claim worker e (mk a) e') →
  (∀ a, Justified before (mk a)) →
  does before (drain_act (ask_external others op)) (λ tr a _ _, tr = before ++ [mk a]).
Proof.
  intros Hop Hj ev w Hw. unfold drain_act, act_bind, ask_external.
  destruct (op (w_entitlements w)) as [a e'] eqn:He. cbn.
  split_and!; [apply along_others|by apply lane_kept|]. exists [mk a]. cbn.
  split; [exists e'; by split; [apply Hop|]|]. split; [by split|by intros a' [= <-]].
Qed.

Lemma ask_repo_external {A} op (w : World ExecState E) :
  w_entitlements (ask_repo (A := A) fates others op w).2 = w_entitlements w.
Proof.
  unfold ask_repo, Run.call. by destruct (fates _); repeat case_match.
Qed.

(** * Answers of the outside *)

Lemma does_observed {A} before source (op : E → result ApplicationError A * E) mk :
  (∀ e a e', op e = (a, e') → performs_one claim worker e (mk a) e') →
  (∀ a, Justified before (mk a)) →
  does before (observed source (ask_external others op)) (λ tr a _ _, tr = before ++ [mk (Ok a)]).
Proof.
  intros Hop Hj. eapply does_bind; [by apply (does_external _ _ mk)|done|].
  intros tr r _ ->. destruct r as [a|e]; [apply does_healthy; by apply does_ret|].
  apply does_unavailable, does_err.
Qed.

Lemma does_observed_some {A} before (op : E → result ApplicationError (option A) * E) mk :
  (∀ e a e', op e = (a, e') → performs_one claim worker e (mk a) e') →
  (∀ a, Justified before (mk a)) →
  does before (observed_some (ask_external others op)) (λ tr a _ _, tr = before ++ [mk (Ok a)]).
Proof.
  intros Hop Hj. eapply does_bind; [by apply (does_external _ _ mk)|done|].
  intros tr r _ ->. destruct r as [[a|]|e]; [apply does_healthy; by apply does_ret|by apply does_ret|].
  apply does_unavailable, does_err.
Qed.

Lemma does_observed_true before (op : E → result ApplicationError bool * E) mk :
  (∀ e a e', op e = (a, e') → performs_one claim worker e (mk a) e') →
  (∀ a, Justified before (mk a)) →
  does before (observed_true (ask_external others op)) (λ tr a _ _, tr = before ++ [mk (Ok a)]).
Proof.
  intros Hop Hj. eapply does_bind; [by apply (does_external _ _ mk)|done|].
  intros tr r _ ->. destruct r as [[|]|e]; [apply does_healthy; by apply does_ret|by apply does_ret|].
  apply does_unavailable, does_err.
Qed.

Lemma does_found {A} before missing (op : E → result PaymentDrainClientError (option A) * E) mk :
  (∀ e a e', op e = (a, e') → performs_one claim worker e (mk a) e') →
  (∀ a, Justified before (mk a)) →
  does before (paykit_found missing (ask_external others op))
    (λ tr a _ _, tr = before ++ [mk (Ok (Some a))]).
Proof.
  intros Hop Hj. eapply does_bind; [by apply (does_external _ _ mk)|done|].
  intros tr r _ ->. destruct r as [[a|]|e]; [apply does_healthy; by apply does_ret|..].
  - apply does_healthy, does_err.
  - apply does_unavailable, does_err.
Qed.
(** * Publishing *)

Lemma listed_mono before tr ob : before `prefix_of` tr → listed before ob → listed tr ob.
Proof. intros Hp (obs & Hin & Hob). exists obs. split; [by eapply elem_of_prefix|done]. Qed.

Lemma decided_mono before tr ob decision :
  before `prefix_of` tr →
  decided minimum_confirmations before ob decision → decided minimum_confirmations tr ob decision.
Proof.
  intros Hp (status & Hin & Hrest). exists status. split; [by eapply elem_of_prefix|done].
Qed.

Lemma owed_mono before tr task entitlement :
  before `prefix_of` tr →
  owed verified_by minimum_confirmations before task entitlement →
  owed verified_by minimum_confirmations tr task entitlement.
Proof.
  intros Hp (ob & Hl & Ht & Hcase). exists ob. split_and!; [by eapply listed_mono|done|].
  destruct Hcase as [Hcase|[Hd Hnow]]; [by left|right]. split; [by eapply decided_mono|done].
Qed.

(** The entitlement is in the store when the writing of it succeeds. *)
Lemma does_persist_entitlement before task t entitlement :
  EvBegin task entitlement (Ok (Some t)) ∈ before →
  does before (persist_entitlement others entitlement)
    (λ tr _ _ _, ∃ existing,
       EvRead (resource_creator (vb_pubky_lock_resource entitlement)) (vb_bundle_id entitlement)
         (Ok (Some existing)) ∈ tr
       ∧ same_entitlement_decision existing entitlement = true).
Proof.
  intros Hin. eapply does_bind; [apply (does_external _ _ (EvInsert entitlement)); [done|]|done|].
  { intros r. by exists task, t. }
  intros tr written _ _. cbn zeta.
  set (observing := if is_some_and _ _ then _ else _).
  eapply (does_bind _ (λ _ _, True)); [|done|].
  { subst observing. destruct (is_some_and _ _); [|by apply does_ret].
    intros ev w Hw. cbn. split_and!; [done|done|]. by exists []. }
  intros tr1 [] _ _. eapply does_bind; [apply (does_observed _ _ _
    (EvRead (resource_creator (vb_pubky_lock_resource entitlement)) (vb_bundle_id entitlement)));
    [done|by intros]|done|].
  intros tr2 [existing|] _ ->; cbn; [|apply does_err].
  destruct (same_entitlement_decision existing entitlement) eqn:Hs; [|apply does_err].
  apply does_ret. intros s'. exists existing. split; [set_solver|done].
Qed.

Lemma does_publish before task entitlement :
  owed verified_by minimum_confirmations before task entitlement →
  does before (publish_entitlement others claim worker task entitlement)
    (λ tr o _ _, ∀ t, o = Some t → published verified_by minimum_confirmations tr task t).
Proof.
  intros Howed. eapply does_bind;
    [apply (does_observed_some _ _ (EvBegin task entitlement)); [done|by intros]|done|].
  intros tr [t|] Hp ->; [|by apply does_ret].
  eapply does_bind; [apply (does_persist_entitlement _ task t); set_solver|done|].
  intros tr1 _ Hp1 (existing & Hread & Hsame). apply does_ret. intros s' t' [= <-].
  exists entitlement, existing. split_and!; [|eapply elem_of_prefix; [|done]; set_solver|done|done].
  eapply owed_mono; [|exact Howed]. by transitivity (before ++ [EvBegin task entitlement (Ok (Some t))]).
Qed.

Lemma does_persist_terminal before task transition :
  (∀ r, Justified before (EvPersist task transition r)) →
  does before (persist_terminal others claim worker task transition) (λ _ _ _ _, True).
Proof.
  intros Hj ev w Hw. pose proof (does_observed_true before _ (EvPersist task transition) (λ _ _ _ Ho, Ho)
    Hj ev w Hw) as Hd. unfold persist_terminal. destruct (observed_true _ ev w) as [x w'].
  destruct Hd as (? & ? & tr & ? & ? & _). split_and!; [done|done|]. by exists tr.
Qed.

Lemma does_replay before obs replayed :
  (∀ ob, ob ∈ obs → listed before ob) →
  does before (replay_publications others claim worker obs replayed) (λ _ _ _ _, True).
Proof.
  revert before replayed. induction obs as [|ob obs IH]; intros before replayed Hl; cbn;
    [by apply does_ret|].
  assert (∀ tr ob', before `prefix_of` tr → ob' ∈ obs → listed tr ob') as Hl'.
  { intros tr ob' Hp Hin. eapply listed_mono; [done|]. apply Hl. by right. }
  destruct (ob_status ob != PublishingEntitlement) eqn:Hs; [apply IH; by eauto|].
  props.
  eapply (does_bind _ (λ tr a, tr = before ∧ ob_entitlement_to_publish ob = Some a)); [|done|].
  { apply does_lift. intros a s' Ha. split; [done|].
    by destruct (ob_entitlement_to_publish ob); simplify_eq/=. }
  intros tr entitlement _ [-> Hent].
  eapply does_bind; [apply does_publish|done|].
  { exists ob. split_and!; [apply Hl; by left|done|]. left. by split. }
  intros tr1 [t|] Hp1 Hpub; [|by apply does_ret].
  eapply (does_bind _ (λ _ _, True)); [apply does_persist_terminal|done|].
  { intros r. left. eauto. }
  intros tr2 [] Hp2 _; cbn; [|by apply does_ret]. apply IH. intros ob' Hin.
  apply Hl'; [by transitivity tr1|done].
Qed.

(** * Settling obligations *)

Lemma does_settle before ob :
  listed before ob →
  does before (settle_obligation others verified_by minimum_confirmations claim worker ob)
    (λ _ _ _ _, True).
Proof.
  intros Hl. unfold settle_obligation.
  eapply does_bind; [apply (does_found _ _ _ (EvStatus (ob_creator ob) (ob_bundle_id ob)));
    [done|by intros]|done|].
  intros tr status Hp ->. set (tr := before ++ _) in *.
  destruct (_ || _) eqn:Hw; [apply does_err|]. props.
  eapply (does_bind _ (λ tr' d, tr' = tr ∧ classify_payment_task status minimum_confirmations = Ok d));
    [apply does_lift; by intros|done|].
  intros tr1 [[next reason]|] _ [-> Hdec]; [|by apply does_ret].
  assert (decided minimum_confirmations tr ob (next, reason)) as Hdecided.
  { exists status. split_and!; [set_solver|done|done|done]. }
  assert (listed tr ob) as Hl' by by eapply listed_mono.
  eapply (does_bind _ (λ tr' _, tr' = tr)); [|done|].
  { intros ev w Hw. cbn. split_and!; [apply along_others|by apply lane_kept|]. exists [].
    rewrite app_nil_r. split_and!; [done|done|by intros]. }
  intros tr2 now _ ->. apply classify_payment_task_decides in Hdec as [(-> & -> & _)|(r & -> & -> & _)];
    cbn.
  - eapply does_bind; [apply does_publish|done|].
    { exists ob. split_and!; [done|done|]. right. split; [done|]. by exists now. }
    intros tr3 [t|] _ Hpub; [|by apply does_ret]. apply does_persist_terminal.
    intros r. left. eauto.
  - apply does_persist_terminal. intros r'. right. by exists ob, r.
Qed.

Lemma does_settle_all before obs :
  (∀ ob, ob ∈ obs → listed before ob) →
  does before (settle_obligations others verified_by minimum_confirmations claim worker obs)
    (λ _ _ _ _, True).
Proof.
  revert before. induction obs as [|ob obs IH]; intros before Hl; cbn; [by apply does_ret|].
  destruct (is_terminal_status (ob_status ob)).
  { apply IH. intros ob' Hin. apply Hl. by right. }
  eapply (does_bind _ (λ _ _, True)); [apply does_settle; apply Hl; by left|done|].
  intros tr [] Hp _; cbn; [|by apply does_ret]. apply IH. intros ob' Hin.
  eapply listed_mono; [done|]. apply Hl. by right.
Qed.

(** * The phases *)

(** The job was advanced, and for a reason. *)
Definition moved (next : ContentLockDeletionPhase) (why : list DrainEvent → Prop)
    (tr : list DrainEvent) (b : bool) (s s' : ExecState) : Prop :=
  b = true → why tr ∧ ∃ job, Answered (Advance next) (Advanced job) s s'.

Lemma moved_weaken next why tr b s s1 s' :
  Along s s1 → moved next why tr b s1 s' → moved next why tr b s s'.
Proof.
  intros Hl Hm Hb. destruct (Hm Hb) as (Hw & job & Ha). split; [done|]. exists job.
  by eapply answered_weaken.
Qed.

Lemma does_advance before next why :
  why before → does before (advance_to fates others claim worker next) (moved next why).
Proof.
  intros Hwhy ev w Hw. unfold advance_to, drain_bind at 1, drain_act, act_bind.
  pose proof (inside_repo (E := E) fates others me claim worker lane_kept (Advance next)) as Hr.
  specialize (Hr ltac:(intros now r a r' Ha; right; eapply co_advance; exact Ha) w Hw).
  pose proof (ask_repo_external (Advance next) w) as He.
  destruct (ask_repo fates others _ w) as [r w1]. destruct Hr as (Hl & Ho & Hr). cbn in He |- *.
  destruct r as [[job| | |code]|e]; cbn;
    (split_and!; [done|done|]); exists []; rewrite app_nil_r; (split_and!; [by rewrite He|done|]);
    intros b [= <-]; intros Hb; try done.
  split; [done|]. exists job. by apply Hr.
Qed.

Lemma does_repo {A} before (op : OffsetDateTime → DeletionRepo → result ApplicationError (A * DeletionRepo)) :
  (∀ now r a r', op now r = Ok (a, r') → r' = r ∨ claim_op claim worker now r r') →
  does before (drain_run (ask_repo fates others op)) (λ tr _ _ _, tr = before).
Proof.
  intros Hop ev w Hw. unfold drain_run, act_bind.
  pose proof (inside_repo (E := E) fates others me claim worker lane_kept op Hop w Hw) as Hr.
  pose proof (ask_repo_external op w) as He.
  destruct (ask_repo fates others op w) as [r w1]. destruct Hr as (Hl & Ho & _). cbn in He |- *.
  split_and!; [done|done|]. exists []. rewrite app_nil_r. by split_and!.
Qed.

Lemma does_expire before :
  does before (drain_run (ask_repo fates others
    (λ now r, del_expire_unresolved_non_paykit_tasks r (cj_id claim) worker (cdj_claim_token claim) now)))
    (λ tr _ _ _, tr = before).
Proof. apply does_repo. intros now r a r' Ha. right. by eapply co_expire. Qed.

Lemma does_clock before :
  does before (drain_act (clock_now others)) (λ tr _ _ _, tr = before).
Proof.
  intros ev w Hw. cbn. split_and!; [apply along_others|by apply lane_kept|]. exists [].
  rewrite app_nil_r. by split_and!.
Qed.

Lemma does_start before :
  does before (start fates others claim worker) (moved DrainPayments (λ _, True)).
Proof.
  unfold start. eapply does_bind; [apply does_expire|intros; by eapply moved_weaken|].
  intros tr [] _ ->; cbn; [|by apply does_ret; intros ? ?].
  apply does_healthy. eapply does_bind;
    [apply does_repo; intros now r a r' [= <- <-]; by left|intros; by eapply moved_weaken|].
  intros tr [] _ ->; apply does_healthy; cbn; [|by apply does_advance].
  eapply does_bind; [apply (does_external _ _ EvStart); [done|by intros]|
    intros; by eapply moved_weaken|].
  intros tr started _ ->.
  eapply (does_bind _ (λ tr summary, EvStart (Ok summary) ∈ tr ∨ EvLookup (Ok (Some summary)) ∈ tr));
    [|intros; by eapply moved_weaken|].
  { destruct started as [summary|[]].
    - apply does_healthy, does_ret. intros s. left. set_solver.
    - apply does_unavailable, does_err.
    - apply does_healthy. intros ev w Hw.
      pose proof (does_found (before ++ [EvStart (Err ClientConflict)])
        "Paykit payment drain conflict could not be reconciled" _ EvLookup
        (λ _ _ _ Ho, Ho) (λ _, I) ev w Hw) as Hd.
      destruct (paykit_found _ _ ev w) as [x w']. destruct Hd as (? & ? & tr & ? & ? & Htr).
      split_and!; [done|done|]. exists tr. split_and!; [done|done|]. intros a Ha.
      rewrite (Htr a Ha). right. set_solver.
    - apply does_unavailable, does_err.
    - apply does_unavailable, does_err.
    - apply does_unavailable, does_err. }
  intros tr summary _ Hsum. eapply does_bind; [apply does_clock|intros; by eapply moved_weaken|].
  intros tr1 _ _ ->. eapply does_bind; [apply (does_observed_true _ _ (EvStore summary)); [done|by intros]|
    intros; by eapply moved_weaken|].
  intros tr1 [] _ ->; cbn; [by apply does_advance|by apply does_ret; intros ? ?].
Qed.

Abbreviation Settled := (moved DrainExistingCredentials drain_over).

Lemma does_get before :
  does before (get_payment_drain others claim) (λ tr o _ _, tr = before ++ [EvGet (Ok o)]).
Proof. by apply (does_observed _ _ _ EvGet). Qed.

Lemma does_lookup before :
  does before (lookup_payment_drain others claim)
    (λ tr summary _ _, tr = before ++ [EvLookup (Ok (Some summary))]).
Proof. by apply (does_found _ _ _ EvLookup). Qed.

Lemma does_all_terminal before :
  does before (all_obligations_terminal others claim) (λ tr b _ _, tr = before ++ [EvTerminal (Ok b)]).
Proof. by apply (does_observed _ _ _ EvTerminal). Qed.

(** Reconciling a summary that was looked up and agrees with what is stored. *)
Lemma does_reconcile before persisted summary :
  EvGet (Ok (Some persisted)) ∈ before → EvLookup (Ok (Some summary)) ∈ before →
  validate_aggregate_progress persisted summary = Ok () →
  does before (reconcile_summary others claim worker summary)
    (λ tr b _ _, tr = before ++ [EvReconcile summary (Ok b)]).
Proof.
  intros Hg Hl Hv. apply (does_observed_true _ _ (EvReconcile summary)); [done|].
  intros r. split; [done|]. by exists persisted.
Qed.

Lemma does_without_obligations before :
  EvList (Ok []) ∈ before →
  does before (drain_without_obligations fates others claim worker) Settled.
Proof.
  intros Hlist. unfold drain_without_obligations, advance_completed_drain.
  eapply does_bind; [apply does_get|intros; by eapply moved_weaken|].
  intros tr [persisted|] _ ->; [|apply does_advance; right; split; [set_solver|left; set_solver]].
  destruct (pds_status persisted == DrainCompleted) eqn:Hs; props.
  { apply does_advance. right. split; [set_solver|]. right; left. exists persisted.
    split; [set_solver|done]. }
  eapply does_bind; [apply does_lookup|intros; by eapply moved_weaken|]. intros tr summary _ ->.
  eapply (does_bind _ (λ tr' u, tr' = _ ∧ _)); [|intros; by eapply moved_weaken|].
  { apply does_lift. intros u s Hu. split; [reflexivity|exact Hu]. }
  intros tr [] _ [-> Hv].
  eapply does_bind; [apply (does_reconcile _ persisted summary); [set_solver|set_solver|done]|
    intros; by eapply moved_weaken|].
  intros tr [] _ ->; cbn; [|by apply does_ret; intros ? ?].
  destruct (pds_status summary != DrainCompleted) eqn:Hc; [by apply does_ret; intros ? ?|]. props.
  apply does_advance. right. split; [set_solver|]. right; right. exists summary.
  split; [set_solver|done].
Qed.

Lemma does_with_provider before obs persisted :
  (∀ ob, ob ∈ obs → listed before ob) → EvGet (Ok (Some persisted)) ∈ before →
  does before (drain_with_provider fates others verified_by minimum_confirmations claim worker obs
                 persisted) Settled.
Proof.
  intros Hl Hg. unfold drain_with_provider, finish_completed_drain, advance_completed_drain.
  eapply does_bind; [apply does_lookup|intros; by eapply moved_weaken|]. intros tr summary _ ->.
  eapply (does_bind _ (λ tr' u, tr' = _ ∧ _)); [|intros; by eapply moved_weaken|].
  { apply does_lift. intros u s Hu. split; [reflexivity|exact Hu]. }
  intros tr [] _ [-> Hv].
  eapply does_bind; [apply does_clock|intros; by eapply moved_weaken|]. intros tr _ _ ->.
  eapply does_bind; [apply (does_reconcile _ persisted summary); [set_solver|set_solver|done]|
    intros; by eapply moved_weaken|].
  intros tr [] Hp ->; cbn; [|by apply does_ret; intros ? ?].
  eapply (does_bind _ (λ _ _, True)); [apply does_settle_all|intros; by eapply moved_weaken|].
  { intros ob Hob. destruct (Hl ob Hob) as (os & Hin & Ho). exists os. split; [set_solver|done]. }
  intros tr1 [] _ _; cbn; [|by apply does_ret; intros ? ?].
  destruct (pds_status summary != DrainCompleted); [by apply does_ret; intros ? ?|].
  eapply does_bind; [apply does_all_terminal|intros; by eapply moved_weaken|].
  intros tr2 [] _ ->; cbn; [|by apply does_ret; intros ? ?].
  apply does_advance. left. set_solver.
Qed.

Lemma does_drain :
  does [] (drain fates others verified_by minimum_confirmations claim worker) Settled.
Proof.
  unfold drain. eapply does_bind; [apply does_expire|intros; by eapply moved_weaken|].
  intros tr [] _ ->; cbn; [|by apply does_ret; intros ? ?]. apply does_healthy.
  eapply does_bind; [apply (does_observed _ _ _ EvList); [done|by intros]|
    intros; by eapply moved_weaken|].
  intros tr obs _ ->. destruct (length obs == 0%nat) eqn:Hn; props.
  { apply nil_length_inv in Hn as ->. apply does_without_obligations. set_solver. }
  assert (∀ tr ob, EvList (Ok obs) ∈ tr → ob ∈ obs → listed tr ob) as Hlisted.
  { intros tr ob Hin Hob. by exists obs. }
  eapply does_bind; [apply does_get|intros; by eapply moved_weaken|]. intros tr found _ ->.
  eapply (does_bind _ (λ tr' u, tr' = _ ∧ _)); [|intros; by eapply moved_weaken|].
  { apply does_lift. intros u s Hu. split; [reflexivity|exact Hu]. }
  intros tr persisted _ [-> Hf]. destruct found as [p|]; simplify_eq/=.
  eapply (does_bind _ (λ _ _, True)); [apply does_replay|intros; by eapply moved_weaken|].
  { intros ob. apply Hlisted. set_solver. }
  intros tr [replayed|] Hp _; [|by apply does_ret; intros ? ?].
  eapply (does_bind _ (λ tr' b, tr `prefix_of` tr' ∧ (b = true → EvTerminal (Ok true) ∈ tr')));
    [|intros; by eapply moved_weaken|].
  { destruct (pds_status persisted == DrainCompleted); [|apply does_ret; by intros].
    intros ev w Hw. pose proof (does_all_terminal tr ev w Hw) as Hd.
    destruct (all_obligations_terminal _ _ ev w) as [x w']. destruct Hd as (? & ? & tr' & ? & ? & Ht).
    split_and!; [done|done|]. exists tr'. split_and!; [done|done|]. intros a Ha.
    rewrite (Ht a Ha). split; [by apply prefix_app_r|]. intros ->. set_solver. }
  intros tr1 terminal _ [Hp1 Hterm]. destruct terminal.
  { apply does_advance. left. by apply Hterm. }
  destruct replayed; [by apply does_ret; intros ? ?|]. apply does_with_provider.
  - intros ob. apply Hlisted. eapply elem_of_prefix; [|by transitivity tr]. set_solver.
  - eapply elem_of_prefix; [|by transitivity tr]. set_solver.
Qed.

(** * The execution *)

(** An outcome the executor of a deletion may rely on, reached by justified calls. *)
Definition settles (w : World ExecState E) (x : DeletionPhaseExecution) (w' : World ExecState E) : Prop :=
  Along (w_store w) (w_store w') ∧ ex_owned (w_store w') !! id = Some me
  ∧ truthful others me claim worker (dj_phase (cdj_job claim)) (w_store w) (pe_outcome x) (w_store w')
  ∧ ∃ tr, performs claim worker (w_entitlements w) tr (w_entitlements w') ∧ Guarded [] tr
      ∧ (pe_outcome x = Progressed → dj_phase (cdj_job claim) = DrainPayments → drain_over tr).

Lemma settles_error w e x w' tr :
  Along (w_store w) (w_store w') → ex_owned (w_store w') !! id = Some me →
  performs claim worker (w_entitlements w) tr (w_entitlements w') → Guarded [] tr →
  pe_outcome x = error_outcome e → settles w x w'.
Proof.
  intros Hl Ho Hp Hg Hx. unfold settles. rewrite Hx.
  destruct (error_outcome_cases e) as [-> | ->]; (split_and!; [done|done|done|by exists tr]).
Qed.

Lemma settles_trivially w x w' tr :
  Along (w_store w) (w_store w') → ex_owned (w_store w') !! id = Some me →
  performs claim worker (w_entitlements w) tr (w_entitlements w') → Guarded [] tr →
  pe_outcome x = PhaseDeferred ∨ pe_outcome x = PhaseClaimLost → settles w x w'.
Proof.
  intros Hl Ho Hp Hg Hx. unfold settles.
  destruct Hx as [-> | ->]; (split_and!; [done|done|done|by exists tr]).
Qed.

(** A corrupt task or job fails the deletion. *)
Lemma settles_corrupt w w1 ev tr :
  dj_phase (cdj_job claim) = StartPaymentDrain ∨ dj_phase (cdj_job claim) = DrainPayments →
  Along (w_store w) (w_store w1) → ex_owned (w_store w1) !! id = Some me →
  performs claim worker (w_entitlements w) tr (w_entitlements w1) → Guarded [] tr →
  let (x, w') := fail_corrupt fates others claim worker ev w1 in settles w x w'.
Proof.
  intros Hphase Hl Ho Hp Hg. unfold fail_corrupt, act_bind.
  set (op := λ now r, finish r (cj_id claim) worker (cdj_claim_token claim) (Some StateCorrupt) now).
  pose proof (inside_repo (E := E) fates others me claim worker lane_kept op
    ltac:(intros now r a r' Ha; right; eapply co_finish; exact Ha) w1 Ho) as Hr.
  pose proof (ask_repo_external op w1) as He.
  destruct (ask_repo fates others op w1) as [r w2]. destruct Hr as (Hl2 & Ho2 & Hr). cbn in He |- *.
  assert (Along (w_store w) (w_store w2)) by by etransitivity.
  rewrite <- He in Hp. destruct r as [[job|]|e].
  - split_and!; [done|done| |by exists tr]. exists StateCorrupt, job. split.
    + eapply answered_weaken; [exact Hl|by apply Hr|done].
    + by destruct Hphase as [-> | ->].
  - refine (settles_trivially w _ w2 tr _ Ho2 Hp Hg _); [assumption|right; reflexivity].
  - refine (settles_error w e _ w2 tr _ Ho2 Hp Hg _); [assumption|reflexivity].
Qed.

(** The drain is a payment drain the executor of a deletion can rely on, and every
    write it makes outside is justified by the answers before it. *)
Lemma payment_drain_spec w :
  dj_phase (cdj_job claim) = StartPaymentDrain ∨ dj_phase (cdj_job claim) = DrainPayments →
  ex_owned (w_store w) !! id = Some me →
  let (x, w') := drain_execute_claimed_with_evidence fates others verified_by minimum_confirmations
                   claim worker w in settles w x w'.
Proof.
  intros Hphase Hw.
  assert (does [] (execute_claimed_observed fates others verified_by minimum_confirmations claim worker)
    (λ tr b s s', b = true → (dj_phase (cdj_job claim) = DrainPayments → drain_over tr)
       ∧ ∃ next job, permits (dj_phase (cdj_job claim)) next = true
                     ∧ Answered (Advance next) (Advanced job) s s')) as Hd.
  { unfold execute_claimed_observed. destruct Hphase as [-> | ->].
    - eapply does_weaken; [apply does_start|]. intros tr b s s' Hm Hb.
      destruct (Hm Hb) as (_ & job & Ha). split; [done|]. by exists DrainPayments, job.
    - eapply does_weaken; [apply does_drain|]. intros tr b s s' Hm Hb.
      destruct (Hm Hb) as (Hover & job & Ha). split; [done|]. by exists DrainExistingCredentials, job. }
  unfold drain_execute_claimed_with_evidence, act_bind. specialize (Hd evidence_none w Hw).
  destruct (execute_claimed_observed _ _ _ _ _ _ _ w) as [[r ev] w1].
  destruct Hd as (Hl & Ho & tr & Hp & Hg & HQ). cbn [fst snd] in *. cbn [app] in HQ.
  destruct r as [[]|e].
  - cbn. destruct (HQ true eq_refl eq_refl) as (Hover & next & job & Hn & Ha).
    split_and!; [done|done| |by exists tr]. exists next, job.
    split_and!; [done|done|]. by destruct Hphase as [-> | ->].
  - refine (settles_trivially w _ w1 tr Hl Ho Hp Hg _); left; reflexivity.
  - destruct e; first [refine (settles_error w _ _ w1 tr Hl Ho Hp Hg _); reflexivity
                      |exact (settles_corrupt w w1 ev tr Hphase Hl Ho Hp Hg)].
Qed.
End safe.

(** * The claim *)

Lemma guarded_split verified_by minimum before tr ev post pre :
  guarded verified_by minimum before tr → tr = pre ++ ev :: post →
  justified verified_by minimum (before ++ pre) ev.
Proof. intros Hg ->. apply guarded_app in Hg as [_ Hg]. apply Hg. Qed.

Section claim.
  Context `{JsonCanonicalizer, CanonicalizationError, Rfc3339, TimeCrate, Blake3, Base64Url, Aead}.
  Context {E : Type} `{!PaymentDrains E, !PaykitDrainClient E, !EntitlementStoreV1 E}.

(** C4: Settling the payments of a claimed deletion, whatever calls are lost and whatever
    others do: the job is only worked on in its lane and under its claim; the outcome
    is truthful; the calls made outside are those of a trace in which every write is
    justified by earlier answers. A task is completed only after the repository admitted
    the publication of an entitlement and the entitlement was read back from the store
    with the same decision; that entitlement is the one stored with a listed obligation
    whose publication had been interrupted, or the one of a listed obligation for which
    the provider, in its payment window, confirmed the payment. A task is expired only
    for the reason the provider gave. The job leaves the drain only when the drain is
    over. *)
Theorem payment_drain_safe fates others verified_by minimum_confirmations me claim worker
    (w : World ExecState E) :
  (∀ n s, ex_owned s !! cj_id claim = Some me → ex_owned (others n s) !! cj_id claim = Some me) →
  dj_phase (cdj_job claim) = StartPaymentDrain ∨ dj_phase (cdj_job claim) = DrainPayments →
  ex_owned (w_store w) !! cj_id claim = Some me →
  let (x, w') := drain_execute_claimed_with_evidence fates others verified_by minimum_confirmations
                   claim worker w in
  along others (graceful_step me claim worker) (w_store w) (w_store w')
  ∧ ex_owned (w_store w') !! cj_id claim = Some me
  ∧ truthful others me claim worker (dj_phase (cdj_job claim)) (w_store w) (pe_outcome x) (w_store w')
  ∧ ∃ tr, performs claim worker (w_entitlements w) tr (w_entitlements w')
      ∧ (∀ before ev after, tr = before ++ ev :: after →
           justified verified_by minimum_confirmations before ev)
      ∧ (∀ task t r, EvPersist task (MkTerminalTransition Completed (Some t) None) r ∈ tr →
           ∃ ob entitlement existing, listed tr ob ∧ ob_task_id ob = task
             ∧ EvBegin task entitlement (Ok (Some t)) ∈ tr
             ∧ EvRead (resource_creator (vb_pubky_lock_resource entitlement))
                 (vb_bundle_id entitlement) (Ok (Some existing)) ∈ tr
             ∧ same_entitlement_decision existing entitlement = true
             ∧ (ob_status ob = PublishingEntitlement
                ∧ ob_entitlement_to_publish ob = Some entitlement
                ∨ (∃ now, entitlement = paid_entitlement verified_by ob now)
                  ∧ ∃ status, EvStatus (ob_creator ob) (ob_bundle_id ob) (Ok (Some status)) ∈ tr
                    ∧ prs_invoice_created_at status = ob_invoice_created_at ob
                    ∧ prs_payment_deadline status = ob_payment_deadline ob
                    ∧ prs_request_state status = DrainAccepted
                    ∧ payment_qualifies (prs_payment_state status) (prs_bitcoin status)
                        (prs_usdt_arbitrum status) minimum_confirmations = true))
      ∧ (∀ task reason r, EvPersist task (MkTerminalTransition Expired None (Some reason)) r ∈ tr →
           ∃ ob, listed tr ob ∧ ob_task_id ob = task
             ∧ decided minimum_confirmations tr ob (Expired, Some reason))
      ∧ (pe_outcome x = Progressed → dj_phase (cdj_job claim) = DrainPayments → drain_over tr).
Proof.
  intros Hlane Hphase Hw.
  pose proof (payment_drain_spec fates others verified_by minimum_confirmations me claim worker Hlane w
    Hphase Hw) as Hs.
  destruct (drain_execute_claimed_with_evidence _ _ _ _ _ _ w) as [x w'].
  destruct Hs as (Hl & Ho & Ht & tr & Hp & Hg & Hover). split_and!; [done|done|done|].
  exists tr. split_and!; [done| | | |done].
  - intros before ev after Htr. by apply (guarded_split _ _ [] tr ev after before).
  - intros task t r Hin. apply list_elem_of_split in Hin as (before & after & Htr).
    pose proof (guarded_split _ _ _ _ _ _ _ Hg Htr) as Hj. cbn in Hj.
    destruct Hj as [(t' & [= <-] & (ent & ex & Howed & Hb & Hr & Hsame))|(ob & reason & [=] & _)].
    assert (before `prefix_of` tr) as Hpre by (rewrite Htr; by apply prefix_app_r).
    destruct Howed as (ob & Hlist & Htask & Hcase). exists ob, ent, ex.
    split_and!; [by eapply listed_mono|done|by eapply elem_of_prefix|by eapply elem_of_prefix|done|].
    destruct Hcase as [[Hpub Hent]|[(status & Hst & Hc & Hd & Hq) (now & ->)]]; [by left|right].
    split; [by eexists|]. exists status.
    apply classify_payment_task_decides in Hq as [(_ & _ & Ha & _ & Hq)|(? & [=] & _)].
    split_and!; [by eapply elem_of_prefix|done..].
  - intros task reason r Hin. apply list_elem_of_split in Hin as (before & after & Htr).
    pose proof (guarded_split _ _ _ _ _ _ _ Hg Htr) as Hj. cbn in Hj.
    destruct Hj as [(t' & [=] & _)|(ob & reason' & [= <-] & Hlist & Htask & Hdec)].
    assert (before `prefix_of` tr) as Hpre by (rewrite Htr; by apply prefix_app_r).
    exists ob. split_and!; [by eapply listed_mono|done|].
    destruct Hdec as (status & ? & ?). exists status. split; [by eapply elem_of_prefix|done].
Qed.
End claim.
