(* ===== verification/PaymentDrainDb.v ===== *)
(** The database behind the drain repository
    ([locks-service/src/infrastructure/postgres/payment_drains.rs]).

    A table is a finite map from its primary key to rows; a row has the columns the
    statements of this file read or write.  A statement is a function on the tables; a
    transaction locks the row of its job first, so it runs as one step.  [now] is the
    database's clock in it. *)

From S2P Require Import Prelude RustStr HashMaps Externals Ids Json LockPolicy Wire Errors.
From S2P Require Import Lifecycle PaymentDrains.

(** * Tables *)

(** [content_lock_deletion_jobs]. *)
Record DeletionOwnershipRow := MkOwnershipRow {
  or_state : string;
  or_phase : string;
  or_force_requested_at : option OffsetDateTime;
  or_claimed_by : option string;
  or_claim_token : option Uuid;
  or_claim_expires_at : option OffsetDateTime;
}.

(** [content_lock_payment_drains]. *)
Record DrainRow := MkDrainRow {
  dr_status : string;
  dr_accepted_count : Z;
  dr_terminal_count : Z;
  dr_cancellation_enqueued_count : Z;
  dr_cleanup_token : string;
  dr_created_at : OffsetDateTime;
  dr_updated_at : OffsetDateTime;
}.

(** [content_lock_deletion_task_snapshot]. *)
Record SnapshotRow := MkSnapshotRow {
  sn_creator : string;
  sn_bundle_id : string;
  sn_pubky_lock_resource : string;
  sn_criterion_id : string;
  sn_invoice_created_at : option OffsetDateTime;
  sn_payment_deadline : option OffsetDateTime;
  sn_paykit_admission_required : option bool;
  sn_status_at_cutoff : string;
  sn_had_active_credential_at_cutoff : bool;
  sn_resolved_status : option string;
  sn_resolved_at : option OffsetDateTime;
  sn_final_credential_eligible_at : option OffsetDateTime;
}.

(** [verification_tasks]; the JSON column holds the bundle it was written from. *)
Record TaskRow := MkTaskRow {
  tk_status : string;
  tk_invoice_admission_phase : string;
  tk_deletion_job_id : option Uuid;
  tk_entitlement_to_publish : option VerifiedProofBundle;
  tk_entitlement_publication_claim_token : option Uuid;
  tk_started_at : option OffsetDateTime;
  tk_completed_at : option OffsetDateTime;
  tk_failure_message : option string;
  tk_terminal_reason : option string;
  tk_claimed_by : option string;
  tk_claim_token : option Uuid;
  tk_claim_expires_at : option OffsetDateTime;
  tk_next_attempt_at : option OffsetDateTime;
  tk_last_attempt_error : option string;
  tk_updated_at : OffsetDateTime;
}.

Record PaymentDb := MkPaymentDb {
  db_jobs : gmap Uuid DeletionOwnershipRow;
  db_drains : gmap Uuid DrainRow;
  db_snapshots : gmap (Uuid * TaskId) SnapshotRow;
  db_tasks : gmap TaskId TaskRow;
}.

Definition db_with_drains (db : PaymentDb) drains :=
  MkPaymentDb (db_jobs db) drains (db_snapshots db) (db_tasks db).
Definition db_with_tasks (db : PaymentDb) tasks :=
  MkPaymentDb (db_jobs db) (db_drains db) (db_snapshots db) tasks.
Definition db_with_snapshots (db : PaymentDb) snapshots :=
  MkPaymentDb (db_jobs db) (db_drains db) snapshots (db_tasks db).

(** * Conversions *)

Definition invalid_deletion (message : string) : ApplicationError :=
  InvalidContentLockDeletionState message.

(** [storage_display] of an error whose text is not modelled. *)
Definition storage_display : ApplicationError := Storage "".

Definition drain_status_to_database (status : PaymentDrainStatus) : string :=
  match status with DrainActive => "active" | DrainCompleted => "completed" end.

Definition status_from_database (value : string) : result ApplicationError VerificationTaskStatus :=
  if value == "pending" then Ok Pending
  else if value == "in_progress" then Ok InProgress
  else if value == "publishing_entitlement" then Ok PublishingEntitlement
  else if value == "completed" then Ok Completed
  else if value == "failed" then Ok Failed
  else if value == "expired" then Ok Expired
  else Err (InvalidVerificationTaskState "unknown snapshotted verification task status").

(** Of a status that was checked to be one of the two. *)
Definition status_to_database (status : VerificationTaskStatus) : string :=
  if status == Completed then "completed" else "expired".

Definition u64_try_from (v : Z) : result ApplicationError Z :=
  if v <? 0 then Err storage_display else Ok v.
Definition i64_try_from (v : Z) : result ApplicationError Z :=
  if I64_MAX <? v then Err storage_display else Ok v.

Definition summary_counts (summary : PaymentDrainSummary) : result ApplicationError (Z * Z * Z) :=
  accepted ← i64_try_from (pds_accepted_count summary);
  terminal ← i64_try_from (pds_terminal_count summary);
  enqueued ← i64_try_from (pds_cancellation_enqueued_count summary);
  Ok (accepted, terminal, enqueued).

Definition row_to_summary `{Base64Url} (row : DrainRow) : result ApplicationError PaymentDrainSummary :=
  status ← (if dr_status row == "active" then Ok DrainActive
            else if dr_status row == "completed" then Ok DrainCompleted
            else Err (invalid_deletion "persisted Paykit payment drain status is invalid"));
  accepted_count ← u64_try_from (dr_accepted_count row);
  terminal_count ← u64_try_from (dr_terminal_count row);
  cancellation_enqueued_count ← u64_try_from (dr_cancellation_enqueued_count row);
  cleanup_token ← ok_or (PaymentDrainCleanupToken_parse (dr_cleanup_token row))
                    (invalid_deletion "persisted Paykit cleanup token is invalid");
  Ok (MkDrainSummary status accepted_count terminal_count cancellation_enqueued_count cleanup_token).

Definition valid_aggregate_progress (previous current : PaymentDrainSummary) : bool :=
  let accepted_delta := checked_sub (pds_accepted_count previous) (pds_accepted_count current) in
  let terminal_delta := checked_sub (pds_terminal_count current) (pds_terminal_count previous) in
  (pds_cleanup_token previous == pds_cleanup_token current)
  && (pds_cancellation_enqueued_count previous == pds_cancellation_enqueued_count current)
  && is_some accepted_delta
  && (accepted_delta == terminal_delta)
  && negb ((pds_status previous == DrainCompleted) && (pds_status current != DrainCompleted))
  && (((pds_status current == DrainCompleted) && (pds_accepted_count current == 0))
      || ((pds_status current == DrainActive) && (0 <? pds_accepted_count current))).

Definition owns_live_drain_claim (ownership : option DeletionOwnershipRow) (worker_id : string)
    (claim_token : Uuid) (now : OffsetDateTime) (phase : string) : bool :=
  is_some_and (λ ownership,
    (or_state ownership == "running") && (or_phase ownership == phase)
    && is_none (or_force_requested_at ownership)
    && (or_claimed_by ownership == Some worker_id)
    && (or_claim_token ownership == Some claim_token)
    && is_some_and (λ claim_expires_at, now <? claim_expires_at) (or_claim_expires_at ownership))
    ownership.

(** * Statements *)

Section statements.
  Context `{Base32, PubkyKeys, UuidCrate, Base64Url}.

Definition pg_store_payment_drain (db : PaymentDb) (now : OffsetDateTime) (job : Uuid)
    (worker_id : string) (claim_token : Uuid) (summary : PaymentDrainSummary) :
    result ApplicationError (bool * PaymentDb) :=
  counts ← summary_counts summary;
  let '(accepted, terminal, enqueued) := counts in
  if negb (owns_live_drain_claim (db_jobs db !! job) worker_id claim_token now "start_payment_drain")
  then Ok (false, db)
  else
    match db_drains db !! job with
    | Some existing =>
        previous ← row_to_summary existing;
        if negb (valid_aggregate_progress previous summary)
        then Err (invalid_deletion "Paykit payment drain aggregate changed for deletion job")
        else
          Ok (true, db_with_drains db
                (<[job := MkDrainRow (drain_status_to_database (pds_status summary)) accepted terminal
                            (dr_cancellation_enqueued_count existing) (dr_cleanup_token existing)
                            (dr_created_at existing) now]> (db_drains db)))
    | None =>
        Ok (true, db_with_drains db
              (<[job := MkDrainRow (drain_status_to_database (pds_status summary)) accepted terminal
                          enqueued (cleanup_token_str (pds_cleanup_token summary)) now now]>
                 (db_drains db)))
    end.

Definition pg_get_payment_drain (db : PaymentDb) (job : Uuid) :
    result ApplicationError (option PaymentDrainSummary) :=
  match db_drains db !! job with
  | None => Ok None
  | Some row => summary ← row_to_summary row; Ok (Some summary)
  end.

(** The [WHERE] clause of the reconciliation. *)
Definition reconcilable (row : DrainRow) (status : string) (accepted terminal enqueued : Z)
    (cleanup_token : string) : bool :=
  (dr_cleanup_token row == cleanup_token)
  && (dr_cancellation_enqueued_count row == enqueued)
  && (accepted <=? dr_accepted_count row)
  && (dr_terminal_count row <=? terminal)
  && (dr_accepted_count row - accepted == terminal - dr_terminal_count row)
  && negb ((dr_status row == "completed") && (status != "completed"))
  && (((status == "completed") && (accepted == 0)) || ((status == "active") && (0 <? accepted))).

Definition pg_reconcile_payment_drain (db : PaymentDb) (now : OffsetDateTime) (job : Uuid)
    (worker_id : string) (claim_token : Uuid) (summary : PaymentDrainSummary) :
    result ApplicationError (bool * PaymentDb) :=
  counts ← summary_counts summary;
  let '(accepted, terminal, enqueued) := counts in
  if negb (owns_live_drain_claim (db_jobs db !! job) worker_id claim_token now "drain_payments")
  then Ok (false, db)
  else
    let status := drain_status_to_database (pds_status summary) in
    match db_drains db !! job with
    | Some row =>
        if reconcilable row status accepted terminal enqueued
             (cleanup_token_str (pds_cleanup_token summary))
        then Ok (true, db_with_drains db
                  (<[job := MkDrainRow status accepted terminal (dr_cancellation_enqueued_count row)
                              (dr_cleanup_token row) (dr_created_at row) now]> (db_drains db)))
        else Ok (false, db)
    | None => Ok (false, db)
    end.

(** A missing value cannot be decoded into the row's column. *)
Definition row_to_obligation (task_id : TaskId) (snapshot : SnapshotRow) (task : TaskRow) :
    result ApplicationError PaymentDrainObligation :=
  invoice_created_at ← ok_or (sn_invoice_created_at snapshot) storage_display;
  payment_deadline ← ok_or (sn_payment_deadline snapshot) storage_display;
  task_id ← map_err (λ _, storage_display) (TaskId_from_str (TaskId_display task_id));
  creator ← map_err (λ _, storage_display) (CreatorPubky_from_str (sn_creator snapshot));
  bundle_id ← map_err (λ _, storage_display) (BundleId_from_str (sn_bundle_id snapshot));
  lock_resource ← map_err (λ _, storage_display)
                    (PubkyLockResource_from_str (sn_pubky_lock_resource snapshot));
  status ← status_from_database (tk_status task);
  Ok (MkObligation task_id creator bundle_id lock_resource (sn_criterion_id snapshot)
        invoice_created_at payment_deadline status (tk_entitlement_to_publish task)).

(** [ORDER BY snapshot.verification_task_id]. *)
Definition snapshot_le (x y : (Uuid * TaskId) * SnapshotRow) : Prop :=
  TaskId_as_uuid x.1.2 ≤ TaskId_as_uuid y.1.2.
#[global] Instance snapshot_le_dec : RelDecision snapshot_le.
Proof. intros x y. unfold snapshot_le. apply _. Defined.

(** The rows the [SELECT] joins. *)
Definition obligation_row (db : PaymentDb) (job : Uuid)
    (entry : (Uuid * TaskId) * SnapshotRow) : option (result ApplicationError PaymentDrainObligation) :=
  let '((snapshot_job, task_id), snapshot) := entry in
  task ← db_tasks db !! task_id;
  if (snapshot_job == job) && (sn_paykit_admission_required snapshot != Some false)
     && (tk_invoice_admission_phase task != "failed")
  then Some (row_to_obligation task_id snapshot task) else None.

Definition pg_list_obligations (db : PaymentDb) (job : Uuid) :
    result ApplicationError (list PaymentDrainObligation) :=
  mapM id (omap (obligation_row db job) (merge_sort snapshot_le (map_to_list (db_snapshots db)))).

(** The [WHERE] clause of the publication's [UPDATE]. *)
Definition publication_admitted (db : PaymentDb) (now : OffsetDateTime) (job : Uuid)
    (worker_id : string) (claim_token : Uuid) (task_id : TaskId) (entitlement : VerifiedProofBundle)
    (task : TaskRow) : bool :=
  is_some_and (λ deletion,
    (or_state deletion == "running") && (or_claimed_by deletion == Some worker_id)
    && (or_claim_token deletion == Some claim_token)
    && is_some_and (λ expires, now <=? expires) (or_claim_expires_at deletion)
    && (or_phase deletion == "drain_payments") && is_none (or_force_requested_at deletion))
    (db_jobs db !! job)
  && is_some_and (λ snapshot,
       (sn_paykit_admission_required snapshot == Some true)
       && is_none (sn_resolved_status snapshot)) (db_snapshots db !! (job, task_id))
  && (tk_deletion_job_id task == Some job)
  && (((tk_status task == "pending") || (tk_status task == "in_progress"))
      && is_none (tk_entitlement_to_publish task)
      && is_none (tk_entitlement_publication_claim_token task)
      || (tk_status task == "publishing_entitlement")
         && (tk_entitlement_to_publish task == Some entitlement)
         && is_some (tk_entitlement_publication_claim_token task)).

(** [COALESCE]. *)
Definition coalesce {A} (a : option A) (b : A) : option A := Some (default b a).

Definition task_publishing (task : TaskRow) (now : OffsetDateTime)
    (entitlement : VerifiedProofBundle) (publication_token : Uuid) : TaskRow :=
  MkTaskRow "publishing_entitlement" (tk_invoice_admission_phase task) (tk_deletion_job_id task)
    (coalesce (tk_entitlement_to_publish task) entitlement)
    (coalesce (tk_entitlement_publication_claim_token task) publication_token)
    (coalesce (tk_started_at task) now) (tk_completed_at task) (tk_failure_message task)
    (tk_terminal_reason task) (tk_claimed_by task) (tk_claim_token task) (tk_claim_expires_at task)
    (tk_next_attempt_at task) (tk_last_attempt_error task) now.

Definition pg_begin_entitlement_publication (db : PaymentDb) (now : OffsetDateTime)
    (publication_token : Uuid) (job : Uuid) (worker_id : string) (claim_token : Uuid)
    (task_id : TaskId) (entitlement : VerifiedProofBundle) : option Uuid * PaymentDb :=
  if negb (owns_live_drain_claim (db_jobs db !! job) worker_id claim_token now "drain_payments")
  then (None, db)
  else
    match db_tasks db !! task_id with
    | Some task =>
        if publication_admitted db now job worker_id claim_token task_id entitlement task
        then
          let task := task_publishing task now entitlement publication_token in
          (tk_entitlement_publication_claim_token task,
           db_with_tasks db (<[task_id := task]> (db_tasks db)))
        else (None, db)
    | None => (None, db)
    end.

(** The two shapes of a transition. *)
Definition canonical_transition (transition : PaymentDrainTerminalTransition) : bool :=
  match tt_status transition, tt_entitlement_publication_token transition,
        tt_terminal_reason transition with
  | Completed, Some _, None | Expired, None, Some _ => true
  | _, _, _ => false
  end.

Definition task_completed (task : TaskRow) (now : OffsetDateTime) : TaskRow :=
  MkTaskRow "completed" (tk_invoice_admission_phase task) (tk_deletion_job_id task)
    (tk_entitlement_to_publish task) None (tk_started_at task) (Some now) None None None None None
    None None now.

Definition task_expired (task : TaskRow) (now : OffsetDateTime) (reason : option string) : TaskRow :=
  MkTaskRow "expired" (tk_invoice_admission_phase task) (tk_deletion_job_id task) None None
    (coalesce (tk_started_at task) now) (Some now) None reason None None None None None now.

(** The task's [UPDATE]; [None] when no row matches. *)
Definition settle_task (task : TaskRow) (now : OffsetDateTime) (job : Uuid)
    (transition : PaymentDrainTerminalTransition) : option TaskRow :=
  if tt_status transition == Completed then
    if (tk_deletion_job_id task == Some job) && (tk_status task == "publishing_entitlement")
       && is_some (tk_entitlement_to_publish task)
       && is_some (tt_entitlement_publication_token transition)
       && (tk_entitlement_publication_claim_token task == tt_entitlement_publication_token transition)
    then Some (task_completed task now) else None
  else
    if (tk_deletion_job_id task == Some job)
       && ((tk_status task == "pending") || (tk_status task == "in_progress"))
       && is_none (tk_entitlement_to_publish task)
       && is_none (tk_entitlement_publication_claim_token task)
    then Some (task_expired task now
                 (VerificationTerminalReason_as_str <$> tt_terminal_reason transition))
    else None.

Definition snapshot_resolved (snapshot : SnapshotRow) (status : string) (now : OffsetDateTime) :
    SnapshotRow :=
  MkSnapshotRow (sn_creator snapshot) (sn_bundle_id snapshot) (sn_pubky_lock_resource snapshot)
    (sn_criterion_id snapshot) (sn_invoice_created_at snapshot) (sn_payment_deadline snapshot)
    (sn_paykit_admission_required snapshot) (sn_status_at_cutoff snapshot)
    (sn_had_active_credential_at_cutoff snapshot) (Some status) (Some now)
    (if (status == "completed") && (sn_paykit_admission_required snapshot == Some true)
        && negb (sn_had_active_credential_at_cutoff snapshot)
     then Some now else None).

Definition pg_persist_terminal_obligation (db : PaymentDb) (now : OffsetDateTime) (job : Uuid)
    (worker_id : string) (claim_token : Uuid) (task_id : TaskId)
    (transition : PaymentDrainTerminalTransition) : result ApplicationError (bool * PaymentDb) :=
  if negb (canonical_transition transition)
  then Err (InvalidVerificationTaskState
              "payment drain terminal transition has an invalid canonical shape")
  else if negb (owns_live_drain_claim (db_jobs db !! job) worker_id claim_token now "drain_payments")
  then Ok (false, db)
  else
    match db_snapshots db !! (job, task_id) with
    | Some snapshot =>
        if (sn_paykit_admission_required snapshot == Some true)
           && is_none (sn_resolved_status snapshot)
        then
          match db_tasks db !! task_id ≫= λ task, settle_task task now job transition with
          | Some task =>
              Ok (true,
                  MkPaymentDb (db_jobs db) (db_drains db)
                    (<[(job, task_id) := snapshot_resolved snapshot
                                           (status_to_database (tt_status transition)) now]>
                       (db_snapshots db))
                    (<[task_id := task]> (db_tasks db)))
          | None => Ok (false, db)
          end
        else Ok (false, db)
    | None => Ok (false, db)
    end.

(** Not the frozen status of a task that is settled. *)
Definition unsettled (snapshot : SnapshotRow) : bool :=
  let status := default (sn_status_at_cutoff snapshot) (sn_resolved_status snapshot) in
  (sn_paykit_admission_required snapshot == Some true)
  && negb ((status == "completed") || (status == "failed") || (status == "expired")).

Definition pg_all_obligations_terminal (db : PaymentDb) (job : Uuid) : bool :=
  forallb (λ '((snapshot_job, _), snapshot), negb ((snapshot_job == job) && unsettled snapshot))
    (map_to_list (db_snapshots db)).
End statements.
