(* ===== verification/PaymentDrainHistory.v ===== *)
(** What the database of the drain repository keeps over time, and what a payment drain
    that is over has settled in it. *)

From S2P Require Import Prelude RustStr HashMaps Externals Ids Json LockPolicy Wire Errors.
From S2P Require Import Run Verifiers Secrets Entitlements Lifecycle DeletionJob AccessStore.
From S2P Require Import DeletionStore DeletionEvidence AccessUse CreateLock Resources DeletionExec.
From S2P Require Import DeletionTrace PaymentDrains PaymentSafe PaymentDrainDb.

(** * Evolution *)

(** A drain keeps its token and what it cancelled, moves accepted requests to terminal
    ones, and stays completed. *)
Record drain_evolves (r r' : DrainRow) : Prop := {
  dre_token : dr_cleanup_token r' = dr_cleanup_token r;
  dre_enqueued : dr_cancellation_enqueued_count r' = dr_cancellation_enqueued_count r;
  dre_accepted : dr_accepted_count r' ≤ dr_accepted_count r;
  dre_total : dr_accepted_count r' + dr_terminal_count r'
              = dr_accepted_count r + dr_terminal_count r;
  dre_completed : dr_status r = "completed" → dr_status r' = "completed";
}.

#[global] Instance drain_evolves_preorder : PreOrder drain_evolves.
Proof.
  split; [by intros r|].
  intros r1 r2 r3 [] []. split; [congruence|congruence|lia|lia|auto].
Qed.

Definition terminal_status (status : string) : Prop :=
  status = "completed" ∨ status = "failed" ∨ status = "expired".

(** A snapshot keeps what was frozen, is resolved to a terminal status, and once
    resolved keeps everything. *)
Record snapshot_evolves (s s' : SnapshotRow) : Prop := {
  sne_required : sn_paykit_admission_required s' = sn_paykit_admission_required s;
  sne_cutoff : sn_status_at_cutoff s' = sn_status_at_cutoff s;
  sne_credential : sn_had_active_credential_at_cutoff s' = sn_had_active_credential_at_cutoff s;
  sne_resolved : is_Some (sn_resolved_status s) → s' = s;
  sne_terminal status :
    sn_resolved_status s = None → sn_resolved_status s' = Some status → terminal_status status;
}.

#[global] Instance snapshot_evolves_preorder : PreOrder snapshot_evolves.
Proof.
  split; [intros s; split; [done..|congruence]|].
  intros s1 s2 s3 [? ? ? Hr1 Ht1] [? ? ? Hr2 Ht2]. split; [congruence..| |].
  - intros Hs. rewrite (Hr1 Hs) in Hr2. auto.
  - intros status Hs Hs3. destruct (sn_resolved_status s2) as [status2|] eqn:Hs2; [|by apply Ht2].
    rewrite (Hr2 ltac:(done)), Hs2 in Hs3. simplify_eq. by apply Ht1.
Qed.

Definition task_terminal (t : TaskRow) : Prop := terminal_status (tk_status t).

(** A task of a deletion keeps its job, and once terminal everything. *)
Definition task_evolves (t t' : TaskRow) : Prop :=
  tk_deletion_job_id t' = tk_deletion_job_id t ∧ (task_terminal t → t' = t).

#[global] Instance task_evolves_preorder : PreOrder task_evolves.
Proof.
  split; [by intros t|]. intros t1 t2 t3 [E1 H1] [E2 H2]. split; [congruence|].
  intros Ht. rewrite (H1 Ht) in H2. auto.
Qed.

Definition map_evolves {K A} `{Countable K} (R : relation A) (m m' : gmap K A) : Prop :=
  ∀ k a, m !! k = Some a → ∃ a', m' !! k = Some a' ∧ R a a'.

#[global] Instance map_evolves_preorder {K A} `{Countable K} (R : relation A) `{!PreOrder R} :
  PreOrder (map_evolves (K := K) R).
Proof.
  split; [intros m k a Hk; by exists a|]. intros m1 m2 m3 H1 H2 k a Hk.
  destruct (H1 k a Hk) as (b & Hb & Hab). destruct (H2 k b Hb) as (c & Hc & Hbc).
  exists c. split; [done|by etransitivity].
Qed.

Lemma map_evolves_insert {K A} `{Countable K} (R : relation A) `{!PreOrder R} (m : gmap K A) k a' :
  (∀ a, m !! k = Some a → R a a') → map_evolves R m (<[k := a']> m).
Proof.
  intros Ha k' a Hk'. destruct (decide (k' = k)) as [->|Hne].
  - exists a'. rewrite lookup_insert_eq. auto.
  - exists a. by rewrite lookup_insert_ne.
Qed.

Record db_evolves (db db' : PaymentDb) : Prop := {
  dbe_drains : map_evolves drain_evolves (db_drains db) (db_drains db');
  dbe_snapshots : map_evolves snapshot_evolves (db_snapshots db) (db_snapshots db');
  dbe_tasks : map_evolves task_evolves (db_tasks db) (db_tasks db');
}.

#[global] Instance db_evolves_preorder : PreOrder db_evolves.
Proof.
  split; [by intros db|]. intros d1 d2 d3 [] []. split; by etransitivity.
Qed.

(** * Statements *)

Lemma task_publishing_evolves t now entitlement tok :
  ¬ task_terminal t → task_evolves t (task_publishing t now entitlement tok).
Proof. intros Hn. by split. Qed.

Lemma settle_task_Some t now job transition t' :
  canonical_transition transition = true →
  settle_task t now job transition = Some t' →
  tk_deletion_job_id t = Some job ∧ ¬ task_terminal t ∧ task_evolves t t' ∧ task_terminal t'
  ∧ tk_status t' = status_to_database (tt_status transition).
Proof.
  unfold canonical_transition, settle_task, status_to_database, task_terminal.
  destruct transition as [status tok reason]; cbn. intros Hc.
  assert (status = Completed ∨ status = Expired) as [-> | ->].
  { destruct status; auto; by destruct tok, reason. }
  - rewrite eqb_same. destruct (_ && _) eqn:Hcond; [|done]. intros [= <-]. props.
    assert (¬ terminal_status (tk_status t))
      by (intros [Hs|[Hs|Hs]]; rewrite Hs in *; naive_solver).
    split_and!; [done|done|by split|by left|done].
  - change (Expired == Completed) with false. cbn.
    destruct (_ && _) eqn:Hcond; [|done]. intros [= <-]. props.
    assert (¬ terminal_status (tk_status t))
      by (intros [Hs|[Hs|Hs]]; rewrite Hs in *; naive_solver).
    split_and!; [done|done|by split|by right; right|done].
Qed.

Lemma settle_task_cases t now job transition t' :
  canonical_transition transition = true →
  settle_task t now job transition = Some t' →
  tt_status transition = Completed ∧ is_Some (tt_entitlement_publication_token transition)
    ∧ tk_entitlement_publication_claim_token t = tt_entitlement_publication_token transition
    ∧ tk_entitlement_to_publish t' = tk_entitlement_to_publish t
  ∨ tt_status transition = Expired ∧ is_Some (tt_terminal_reason transition)
    ∧ tk_entitlement_to_publish t' = None.
Proof.
  unfold canonical_transition, settle_task. destruct transition as [status tok reason]; cbn.
  destruct status; try done.
  - destruct tok; [|done]. rewrite eqb_same. intros _. destruct (_ && _) eqn:Hc; [|done].
    intros [= <-]. props. left. by split_and!.
  - destruct tok, reason; try done. intros _. change (Expired == Completed) with false.
    cbn. destruct (_ && _) eqn:Hc; [|done]. intros [= <-]. right. by split_and!.
Qed.

Section statements.
  Context `{Base64Url}.

Lemma row_to_summary_Ok row summary :
  row_to_summary row = Ok summary →
  dr_status row = drain_status_to_database (pds_status summary)
  ∧ dr_accepted_count row = pds_accepted_count summary
  ∧ dr_terminal_count row = pds_terminal_count summary
  ∧ dr_cancellation_enqueued_count row = pds_cancellation_enqueued_count summary
  ∧ dr_cleanup_token row = cleanup_token_str (pds_cleanup_token summary)
  ∧ 0 ≤ dr_accepted_count row ∧ 0 ≤ dr_terminal_count row.
Proof.
  unfold row_to_summary, u64_try_from. intros Hr.
  apply bind_Ok in Hr as (status & Hst & Hr). apply bind_Ok in Hr as (a & Ha & Hr).
  apply bind_Ok in Hr as (t & Ht & Hr). apply bind_Ok in Hr as (c & Hc & Hr).
  apply bind_Ok in Hr as (tok & Htok & [= <-]).
  destruct (Z.ltb_spec (dr_accepted_count row) 0), (Z.ltb_spec (dr_terminal_count row) 0),
    (Z.ltb_spec (dr_cancellation_enqueued_count row) 0); simplify_eq/=.
  split_and!; try done.
  - destruct (dr_status row == "active") eqn:Ea; [injection Hst as <-; by props|].
    destruct (dr_status row == "completed") eqn:Ec; [injection Hst as <-; by props|done].
  - destruct (PaymentDrainCleanupToken_parse _) eqn:Hp; [|done]. injection Htok as <-.
    unfold PaymentDrainCleanupToken_parse in Hp. split_match in Hp; [done|].
    apply bind_Some in Hp as (l & _ & Hp). split_match in Hp; [done|].
    split_match in Hp; [by injection Hp as <-|done].
Qed.

Lemma checked_sub_Some a b d : checked_sub a b = Some d ↔ b ≤ a ∧ d = a - b.
Proof. unfold checked_sub. destruct (Z.leb_spec b a); naive_solver lia. Qed.

(** Both checks of an aggregate's progress accept the same changes, those of
    [drain_evolves] to a coherent status. *)
Lemma valid_progress_spec previous current :
  0 ≤ pds_accepted_count current →
  valid_aggregate_progress previous current = true ↔
  pds_cleanup_token previous = pds_cleanup_token current
  ∧ pds_cancellation_enqueued_count previous = pds_cancellation_enqueued_count current
  ∧ pds_accepted_count current ≤ pds_accepted_count previous
  ∧ pds_accepted_count current + pds_terminal_count current
    = pds_accepted_count previous + pds_terminal_count previous
  ∧ (pds_status previous = DrainCompleted → pds_status current = DrainCompleted)
  ∧ (pds_status current = DrainCompleted ↔ pds_accepted_count current = 0).
Proof.
  intros Hn. unfold valid_aggregate_progress. cbn zeta.
  rewrite !andb_true_iff, orb_true_iff, !andb_true_iff, negb_true_iff, andb_false_iff,
    negb_false_iff, !eqb_true, eqb_false, is_some_true, Z.ltb_lt.
  assert (∀ a b c d, is_Some (checked_sub a b) ∧ checked_sub a b = checked_sub c d
                     ↔ b ≤ a ∧ b + c = a + d) as Hdelta.
  { intros a b c d. unfold checked_sub.
    destruct (Z.leb_spec b a), (Z.leb_spec d c); (split; [|intros [? ?]; try lia]).
    - intros [_ [= ?]]. lia.
    - split; [done|]. f_equal. lia.
    - by intros [_ ?].
    - intros [[? ?] ?]; simplify_eq.
    - intros [[? ?] ?]; simplify_eq. }
  specialize (Hdelta (pds_accepted_count previous) (pds_accepted_count current)
    (pds_terminal_count current) (pds_terminal_count previous)).
  split.
  - intros (((((Ht & Hc) & Hs) & He) & Hkeep) & Hst).
    destruct (proj1 Hdelta (conj Hs He)) as [Ha Hsum].
    split_and!; [done|done|lia|lia|intros Hp; by destruct Hkeep|].
    destruct Hst as [[-> ->]|[-> ?]]; [done|]. split; [done|lia].
  - intros (Ht & Hc & Ha & Hsum & Himp & Hiff).
    destruct (proj2 Hdelta) as [Hs He]; [lia|]. split_and!; try done.
    + destruct (pds_status previous); [by left|right; by apply Himp].
    + destruct (pds_status current) eqn:Hcur; [right|left; split; [done|by apply Hiff]].
      split; [done|]. assert (pds_accepted_count current ≠ 0) by (by intros Hz%Hiff). lia.
Qed.

Lemma summary_counts_Ok summary a t c :
  summary_counts summary = Ok (a, t, c) →
  a = pds_accepted_count summary ∧ t = pds_terminal_count summary
  ∧ c = pds_cancellation_enqueued_count summary ∧ a ≤ I64_MAX ∧ t ≤ I64_MAX ∧ c ≤ I64_MAX.
Proof.
  unfold summary_counts, i64_try_from. intros Hs.
  apply bind_Ok in Hs as (a' & Ha & Hs). apply bind_Ok in Hs as (t' & Ht & Hs).
  apply bind_Ok in Hs as (c' & Hc & [= <- <- <-]).
  destruct (Z.ltb_spec I64_MAX (pds_accepted_count summary)),
    (Z.ltb_spec I64_MAX (pds_terminal_count summary)),
    (Z.ltb_spec I64_MAX (pds_cancellation_enqueued_count summary)); naive_solver.
Qed.

Lemma validate_progress_valid persisted current :
  0 ≤ pds_accepted_count current →
  validate_aggregate_progress persisted current = Ok ()
  ↔ valid_aggregate_progress persisted current = true.
Proof.
  intros Hn. unfold validate_aggregate_progress, valid_aggregate_progress. cbn zeta.
  set (da := checked_sub (pds_accepted_count persisted) _).
  set (dt := checked_sub (pds_terminal_count current) _).
  assert (is_none da = negb (is_some da)) as -> by (by destruct da).
  assert (is_none dt = negb (is_some dt)) as -> by (by destruct dt).
  assert (da = dt → is_some da = is_some dt) as Hd by (by intros ->).
  destruct (da == dt) eqn:He; props;
    [rewrite <- (Hd He)|by rewrite ?orb_true_r, ?andb_false_r].
  destruct (pds_cleanup_token persisted == pds_cleanup_token current); cbn; [|done].
  destruct (pds_cancellation_enqueued_count persisted == pds_cancellation_enqueued_count current);
    cbn; [|done].
  destruct (is_some da); cbn; [|done].
  destruct (pds_accepted_count current == 0) eqn:Hz; props;
    [rewrite Hz|assert (0 <? pds_accepted_count current = true) as -> by lia];
    by destruct (pds_status persisted), (pds_status current).
Qed.

(** The statement's condition is the check of the summary that is stored. *)
Lemma reconcilable_valid row persisted current :
  row_to_summary row = Ok persisted → 0 ≤ pds_accepted_count current →
  reconcilable row (drain_status_to_database (pds_status current)) (pds_accepted_count current)
    (pds_terminal_count current) (pds_cancellation_enqueued_count current)
    (cleanup_token_str (pds_cleanup_token current))
  = valid_aggregate_progress persisted current.
Proof.
  intros Hr Hn. apply row_to_summary_Ok in Hr as (Hs & Ha & Ht & Hc & Htok & _).
  apply eq_true_iff_eq. rewrite valid_progress_spec by done. unfold reconcilable.
  rewrite Hs, Ha, Ht, Hc, Htok.
  rewrite !andb_true_iff, orb_true_iff, !andb_true_iff, negb_true_iff, andb_false_iff,
    negb_false_iff, !eqb_true, eqb_false, !Z.leb_le, Z.ltb_lt.
  assert (∀ s t, drain_status_to_database s = drain_status_to_database t ↔ s = t) as Hinj
    by (by intros [] []).
  pose proof (Hinj (pds_status persisted) DrainCompleted) as H1.
  pose proof (Hinj (pds_status current) DrainCompleted) as H2.
  pose proof (Hinj (pds_status current) DrainActive) as H3. cbn in H1, H2, H3.
  rewrite H1, H2, H3.
  assert (∀ a b : PaymentDrainCleanupToken, cleanup_token_str a = cleanup_token_str b ↔ a = b) as ->
    by (intros [] []; naive_solver).
  split.
  - intros ((((((Hk & He) & Hle) & Hlt) & Hsum) & Hkeep) & Hst).
    split_and!; [done|done|lia|lia|intros Hp; by destruct Hkeep|].
    destruct Hst as [[-> ->]|[-> ?]]; [done|]. split; [done|lia].
  - intros (Hk & He & Hle & Hsum & Himp & Hiff). split_and!; [done|done|lia|lia|lia|..].
    + destruct (pds_status persisted); [by left|right; by apply Himp].
    + destruct (pds_status current) eqn:Hcur; [right|left; split; [done|by apply Hiff]].
      split; [done|]. assert (pds_accepted_count current ≠ 0) by (by intros Hz%Hiff). lia.
Qed.

(** The three checks that a drain's counts moved as they may - the use case's, the
    repository's before it updates a drain, and the condition of its statement that
    reconciles one - accept the same summaries: the token and the cancellations
    unchanged, accepted requests become terminal ones, completion final and exactly
    when nothing is left. *)
Theorem progress_checks_agree row persisted current :
  row_to_summary row = Ok persisted → 0 ≤ pds_accepted_count current →
  (validate_aggregate_progress persisted current = Ok ()
   ↔ valid_aggregate_progress persisted current = true)
  ∧ reconcilable row (drain_status_to_database (pds_status current)) (pds_accepted_count current)
      (pds_terminal_count current) (pds_cancellation_enqueued_count current)
      (cleanup_token_str (pds_cleanup_token current))
    = valid_aggregate_progress persisted current
  ∧ (valid_aggregate_progress persisted current = true ↔
     pds_cleanup_token persisted = pds_cleanup_token current
     ∧ pds_cancellation_enqueued_count persisted = pds_cancellation_enqueued_count current
     ∧ pds_accepted_count current ≤ pds_accepted_count persisted
     ∧ pds_accepted_count current + pds_terminal_count current
       = pds_accepted_count persisted + pds_terminal_count persisted
     ∧ (pds_status persisted = DrainCompleted → pds_status current = DrainCompleted)
     ∧ (pds_status current = DrainCompleted ↔ pds_accepted_count current = 0)).
Proof.
  intros Hr Hn. split_and!;
    [by apply validate_progress_valid|by apply reconcilable_valid|by apply valid_progress_spec].
Qed.

Lemma store_evolves db now job worker token summary b db' :
  0 ≤ pds_accepted_count summary →
  pg_store_payment_drain db now job worker token summary = Ok (b, db') → db_evolves db db'.
Proof.
  intros Hn Hs. unfold pg_store_payment_drain in Hs.
  apply bind_Ok in Hs as ([[a t] c] & Hcounts & Hs).
  apply summary_counts_Ok in Hcounts as (-> & -> & -> & _).
  split_match in Hs; [by injection Hs as _ <-|].
  destruct (db_drains db !! job) as [row|] eqn:Hrow.
  - apply bind_Ok in Hs as (previous & Hp & Hs). split_match in Hs; [done|]. injection Hs as _ <-.
    apply row_to_summary_Ok in Hp as (Hst & Ha & Ht & Hc & Htok & _). props.
    match goal with Hv : valid_aggregate_progress _ _ = true |- _ =>
      apply (valid_progress_spec previous summary Hn) in Hv as (? & ? & ? & ? & Hkeep & _) end.
    split; [|done|done]. cbn. apply map_evolves_insert; [apply _|]. intros r Hr. simplify_eq.
    split; cbn; [done|done|lia|lia|]. rewrite Hst.
    destruct (pds_status previous); [done|]. by rewrite Hkeep.
  - injection Hs as _ <-. split; [|done|done]. cbn. apply map_evolves_insert; [apply _|].
    intros r Hr. congruence.
Qed.

Lemma reconcile_evolves db now job worker token summary b db' :
  pg_reconcile_payment_drain db now job worker token summary = Ok (b, db') → db_evolves db db'.
Proof.
  intros Hs. unfold pg_reconcile_payment_drain in Hs.
  apply bind_Ok in Hs as ([[a t] c] & Hcounts & Hs).
  split_match in Hs; [by injection Hs as _ <-|].
  destruct (db_drains db !! job) as [row|] eqn:Hrow; [|by injection Hs as _ <-].
  split_match in Hs; injection Hs as _ <-; [|done].
  split; [|done|done]. cbn. apply map_evolves_insert; [apply _|]. intros r Hr. simplify_eq.
  match goal with Hv : reconcilable _ _ _ _ _ _ = true |- _ => unfold reconcilable in Hv end.
  props. split; cbn; [done|done|lia|lia|]. intros Hc.
  match goal with Hv : (_ && _) = false |- _ => apply andb_false_iff in Hv as [Hv|Hv] end; by props.
Qed.

Lemma begin_evolves db now tok job worker token task entitlement o db' :
  pg_begin_entitlement_publication db now tok job worker token task entitlement = (o, db') →
  db_evolves db db'.
Proof.
  intros Hs. unfold pg_begin_entitlement_publication in Hs.
  split_match in Hs; [by injection Hs as _ <-|].
  destruct (db_tasks db !! task) as [t|] eqn:Ht; [|by injection Hs as _ <-].
  split_match in Hs; injection Hs as _ <-; [|done].
  split; [done|done|]. cbn. apply map_evolves_insert; [apply _|]. intros r Hr. simplify_eq.
  apply task_publishing_evolves. unfold task_terminal.
  match goal with Hv : publication_admitted _ _ _ _ _ _ _ _ = true |- _ =>
    unfold publication_admitted in Hv; apply andb_true_iff in Hv as [_ Hv] end.
  intros [Hr|[Hr|Hr]]; rewrite Hr in *; done.
Qed.

Lemma persist_Ok db now job worker token task transition db' :
  pg_persist_terminal_obligation db now job worker token task transition = Ok (true, db') →
  ∃ sn t t', db_snapshots db !! (job, task) = Some sn ∧ db_tasks db !! task = Some t
    ∧ owns_live_drain_claim (db_jobs db !! job) worker token now "drain_payments" = true
    ∧ canonical_transition transition = true
    ∧ sn_paykit_admission_required sn = Some true ∧ sn_resolved_status sn = None
    ∧ settle_task t now job transition = Some t'
    ∧ db' = MkPaymentDb (db_jobs db) (db_drains db)
              (<[(job, task) := snapshot_resolved sn (status_to_database (tt_status transition)) now]>
                 (db_snapshots db)) (<[task := t']> (db_tasks db)).
Proof.
  unfold pg_persist_terminal_obligation. intros Hs. split_match in Hs; [done|].
  split_match in Hs; [done|].
  destruct (db_snapshots db !! (job, task)) as [sn|] eqn:Hsn; [|done].
  split_match in Hs; [|done]. destruct (db_tasks db !! task) as [t|] eqn:Ht; [|done]. cbn in Hs.
  destruct (settle_task t now job transition) as [t'|] eqn:Hset; [|done]. injection Hs as <-.
  props. by exists sn, t, t'.
Qed.

Lemma snapshot_resolved_evolves sn status now :
  sn_resolved_status sn = None → terminal_status status →
  snapshot_evolves sn (snapshot_resolved sn status now).
Proof. intros Hn Ht. split; cbn; [done..| |]; [rewrite Hn; by intros []|]. by intros s _ [= <-]. Qed.
Lemma persist_terminal_evolves db now job worker token task transition b db' :
  pg_persist_terminal_obligation db now job worker token task transition = Ok (b, db') →
  db_evolves db db'.
Proof.
  intros Hs. destruct b.
  - apply persist_Ok in Hs as (sn & t & t' & Hsn & Ht & _ & Hc & Hreq & Hnone & Hset & ->).
    apply settle_task_Some in Hset as (_ & _ & Hev & _ & _); [|done]. split; cbn; [done|..].
    + apply map_evolves_insert; [apply _|]. intros sn0 Hsn0. simplify_eq.
      apply snapshot_resolved_evolves; [done|]. unfold status_to_database, terminal_status.
      by destruct (tt_status transition == Completed); auto.
    + apply map_evolves_insert; [apply _|]. intros t0 Ht0. by simplify_eq.
  - unfold pg_persist_terminal_obligation in Hs. repeat (split_match in Hs); simplify_eq; done.
Qed.

Lemma all_obligations_terminal_spec db job :
  pg_all_obligations_terminal db job = true ↔
  ∀ task sn, db_snapshots db !! (job, task) = Some sn → unsettled sn = false.
Proof.
  unfold pg_all_obligations_terminal. rewrite forallb_forall. split.
  - intros Hall task sn Hsn. specialize (Hall ((job, task), sn)).
    apply elem_of_map_to_list, list_elem_of_In in Hsn. specialize (Hall Hsn). cbn in Hall.
    rewrite eqb_same in Hall. by props.
  - intros Hall [[job' task] sn] Hin. apply list_elem_of_In, elem_of_map_to_list in Hin.
    destruct (job' == job) eqn:He; [|done]. props. subst. cbn. by rewrite (Hall _ _ Hin).
Qed.

(** What is settled stays settled. *)
Lemma unsettled_evolves sn sn' :
  snapshot_evolves sn sn' → unsettled sn = false → unsettled sn' = false.
Proof.
  intros [Hreq Hcut _ Hres Hterm]. unfold unsettled. rewrite Hreq, Hcut.
  destruct (sn_resolved_status sn) as [s|] eqn:Hs; [by rewrite (Hres ltac:(done)), Hs|].
  destruct (sn_resolved_status sn') as [s|]; [|done]. intros _. cbn.
  destruct (Hterm s eq_refl eq_refl) as [-> |[-> | ->]]; by rewrite eqb_same, ?orb_true_r, andb_false_r.
Qed.


(** * Obligations are settled once *)

Lemma settled_refuses db job task sn :
  db_snapshots db !! (job, task) = Some sn → is_Some (sn_resolved_status sn) →
  ∀ now worker token,
    (∀ transition, canonical_transition transition = true →
       pg_persist_terminal_obligation db now job worker token task transition = Ok (false, db))
    ∧ ∀ tok entitlement,
        pg_begin_entitlement_publication db now tok job worker token task entitlement = (None, db).
Proof.
  intros Hsn [s Hs] now worker token. split.
  - intros transition Hc. unfold pg_persist_terminal_obligation. rewrite Hc. cbn.
    destruct (owns_live_drain_claim _ _ _ _ _); [|done]. cbn. by rewrite Hsn, Hs, andb_false_r.
  - intros tok entitlement. unfold pg_begin_entitlement_publication.
    destruct (owns_live_drain_claim _ _ _ _ _); [|done]. cbn.
    destruct (db_tasks db !! task) as [t|]; [|done]. unfold publication_admitted.
    by rewrite Hsn; cbn; rewrite Hs, !andb_false_r.
Qed.

(** What happens to the database of the payments around one obligation: calls of the
    drain's repository, for any job and obligation, by whoever makes them; and anything
    else, such as the claims and phases of the jobs, that leaves the obligation's copy and
    its task alone. *)
Inductive drain_step (job : Uuid) (task : TaskId) : PaymentDb → PaymentDb → Prop :=
  | dr_store db now job' worker token summary b db' :
      pg_store_payment_drain db now job' worker token summary = Ok (b, db') →
      drain_step job task db db'
  | dr_reconcile db now job' worker token summary b db' :
      pg_reconcile_payment_drain db now job' worker token summary = Ok (b, db') →
      drain_step job task db db'
  | dr_publish db now tok job' worker token task' entitlement o db' :
      pg_begin_entitlement_publication db now tok job' worker token task' entitlement = (o, db') →
      drain_step job task db db'
  | dr_settle db now job' worker token task' transition b db' :
      pg_persist_terminal_obligation db now job' worker token task' transition = Ok (b, db') →
      drain_step job task db db'
  | dr_elsewhere db db' :
      db_snapshots db' !! (job, task) = db_snapshots db !! (job, task) →
      db_tasks db' !! task = db_tasks db !! task → drain_step job task db db'.

(** A settled obligation and its task are left as they are. *)
Lemma settled_stays job task db db' sn t :
  rtc (drain_step job task) db db' → is_Some (sn_resolved_status sn) → task_terminal t →
  db_snapshots db !! (job, task) = Some sn → db_tasks db !! task = Some t →
  db_snapshots db' !! (job, task) = Some sn ∧ db_tasks db' !! task = Some t.
Proof.
  intros Hsteps Hres Hterm. induction Hsteps as [|x y z Hs _ IH]; [done|].
  intros Hsn Ht. enough (db_snapshots y !! (job, task) = Some sn ∧ db_tasks y !! task = Some t) as []
    by by apply IH.
  assert (db_evolves x y → db_snapshots y !! (job, task) = Some sn ∧ db_tasks y !! task = Some t) as Hev.
  { intros [_ Hsns Hts]. destruct (Hsns _ _ Hsn) as (sn' & Hsn' & Hev). destruct (Hts _ _ Ht) as (t' & Ht' & _ & Hk).
    by rewrite Hsn', Ht', (sne_resolved _ _ Hev Hres), (Hk Hterm). }
  inversion Hs as [??????? ? Hc|??????? ? Hc|???????? ? ? Hc|???????? ? Hc|?? Hsn' Ht']; subst.
  - unfold pg_store_payment_drain in Hc. apply bind_Ok in Hc as ([[? ?] ?] & _ & Hc).
    split_match in Hc; [by simplify_eq|]. destruct (db_drains x !! job'); [|by simplify_eq].
    apply bind_Ok in Hc as (? & _ & Hc). split_match in Hc; by simplify_eq.
  - apply Hev. by eapply reconcile_evolves.
  - apply Hev. by eapply begin_evolves.
  - apply Hev. by eapply persist_terminal_evolves.
  - by rewrite Hsn', Ht'.
Qed.

(** C20: An obligation that is settled was one of the deletion's, not yet resolved, and its
    claim was live; its task and its frozen copy take the same terminal status, a
    completed one only with the publication's token, and a reader is owed a final
    credential exactly when a payment is completed for which it had none.  No later call
    of the drain's repository, for whatever job, worker and time, changes the task or the
    copy, publishes the obligation or settles it again; that holds whatever else is written
    in between, as long as those other writers leave this copy and this task alone. *)
Theorem obligation_settled_once db now job worker token task transition db1 db2 :
  pg_persist_terminal_obligation db now job worker token task transition = Ok (true, db1) →
  rtc (drain_step job task) db1 db2 →
  ∃ sn t sn' t',
    db_snapshots db !! (job, task) = Some sn ∧ db_tasks db !! task = Some t
    ∧ owns_live_drain_claim (db_jobs db !! job) worker token now "drain_payments" = true
    ∧ sn_paykit_admission_required sn = Some true ∧ sn_resolved_status sn = None
    ∧ db_snapshots db2 !! (job, task) = Some sn' ∧ db_tasks db2 !! task = Some t'
    ∧ sn_resolved_status sn' = Some (tk_status t') ∧ unsettled sn' = false
    ∧ (tk_status t' = "completed" ∧ is_Some (tt_entitlement_publication_token transition)
         ∧ tk_entitlement_publication_claim_token t = tt_entitlement_publication_token transition
         ∧ tk_entitlement_to_publish t' = tk_entitlement_to_publish t
       ∨ tk_status t' = "expired" ∧ is_Some (tt_terminal_reason transition)
         ∧ tk_entitlement_to_publish t' = None)
    ∧ (is_Some (sn_final_credential_eligible_at sn')
       ↔ tk_status t' = "completed" ∧ sn_had_active_credential_at_cutoff sn = false)
    ∧ ∀ now' worker' token',
        (∀ transition', canonical_transition transition' = true →
           pg_persist_terminal_obligation db2 now' job worker' token' task transition' = Ok (false, db2))
        ∧ ∀ tok entitlement,
            pg_begin_entitlement_publication db2 now' tok job worker' token' task entitlement
            = (None, db2).
Proof.
  intros Hp Hev. apply persist_Ok in Hp as (sn & t & t' & Hsn & Ht & Howns & Hc & Hreq & Hnone & Hset & ->).
  set (status := status_to_database (tt_status transition)) in *.
  set (sn' := snapshot_resolved sn status now) in *.
  destruct (settle_task_Some _ _ _ _ _ Hc Hset) as (_ & _ & _ & Hterm & Hstatus).
  destruct (settled_stays job task _ _ sn' t' Hev) as [Hsn2 Ht2];
    [by eexists|done|apply lookup_insert_eq|apply lookup_insert_eq|].
  exists sn, t, sn', t'. rewrite Hstatus. fold status.
  destruct (settle_task_cases _ _ _ _ _ Hc Hset) as [(Hs & Htok & Heq & Hent)|(Hs & Hreason & Hent)].
  - assert (status = "completed") as Hst by (subst status; by rewrite Hs).
    split_and!; [done..| |left; by split_and!| |by eapply settled_refuses].
    + unfold unsettled. cbn. by rewrite Hst, andb_false_r.
    + subst sn'. cbn. rewrite Hst, Hreq, !eqb_same. cbn.
      destruct (sn_had_active_credential_at_cutoff sn); cbn; naive_solver.
  - assert (status = "expired") as Hst by (subst status; by rewrite Hs).
    split_and!; [done..| |right; by split_and!| |by eapply settled_refuses].
    + unfold unsettled. cbn. by rewrite Hst, andb_false_r.
    + subst sn'. cbn. rewrite Hst. cbn. naive_solver.
Qed.
End statements.

(** * The drain over its database *)

(** The database, the entitlement store, and the calls made so far. *)
Record PaymentWorld := MkPaymentWorld {
  pw_db : PaymentDb;
  pw_entitlements : Entitlements;
  pw_calls : nat;
}.

Section served.
  Context `{Base32, PubkyKeys, UuidCrate, JsonCanonicalizer, CanonicalizationError, Rfc3339}.
  Context `{TimeCrate, Blake3, Base64Url, Aead}.
  (** What becomes of the [n]th request to the database, what others have done to it
      before, its clock, and the token it draws. *)
  Context (db_fates : nat → Fate) (db_others : nat → PaymentDb → PaymentDb).
  Context (db_clock : nat → OffsetDateTime) (db_tokens : nat → Uuid).
  (** The provider's answers. *)
  Context (answers_start : nat → PubkyLockResource → result PaymentDrainClientError PaymentDrainSummary).
  Context (answers_lookup :
    nat → PubkyLockResource → result PaymentDrainClientError (option PaymentDrainSummary)).
  Context (answers_status :
    nat → CreatorPubky → BundleId → result PaymentDrainClientError (option PaymentRequestStatus)).

Definition pg_call {A} (op : nat → PaymentDb → result ApplicationError (A * PaymentDb))
    (e : PaymentWorld) : result ApplicationError A * PaymentWorld :=
  let n := pw_calls e in
  let db := db_others n (pw_db e) in
  let goes_to db := MkPaymentWorld db (pw_entitlements e) (n + 1) in
  match db_fates n, op n db with
  | Delivered, Ok (a, db') => (Ok a, goes_to db')
  | Delivered, Err error => (Err error, goes_to db)
  | Unanswered error, Ok (_, db') => (Err error, goes_to db')
  | Lost error, _ | Unanswered error, Err _ => (Err error, goes_to db)
  end.

Definition paykit_call {A} (answer : nat → A) (e : PaymentWorld) : A * PaymentWorld :=
  (answer (pw_calls e), MkPaymentWorld (pw_db e) (pw_entitlements e) (pw_calls e + 1)).

#[local] Instance served_drains : PaymentDrains PaymentWorld := {|
  drains_store_payment_drain e job worker token summary :=
    pg_call (λ n db, pg_store_payment_drain db (db_clock n) job worker token summary) e;
  drains_get_payment_drain e job :=
    pg_call (λ _ db, summary ← pg_get_payment_drain db job; Ok (summary, db)) e;
  drains_reconcile_payment_drain e job worker token summary :=
    pg_call (λ n db, pg_reconcile_payment_drain db (db_clock n) job worker token summary) e;
  drains_list_obligations e job :=
    pg_call (λ _ db, obligations ← pg_list_obligations db job; Ok (obligations, db)) e;
  drains_begin_entitlement_publication e job worker token task entitlement :=
    pg_call (λ n db, Ok (pg_begin_entitlement_publication db (db_clock n) (db_tokens n) job worker token
                           task entitlement)) e;
  drains_persist_terminal_obligation e job worker token task transition :=
    pg_call (λ n db, pg_persist_terminal_obligation db (db_clock n) job worker token task transition) e;
  drains_all_obligations_terminal e job :=
    pg_call (λ _ db, Ok (pg_all_obligations_terminal db job, db)) e;
|}.

#[local] Instance served_paykit : PaykitDrainClient PaymentWorld := {|
  paykit_start_payment_drain e resource := paykit_call (λ n, answers_start n resource) e;
  paykit_lookup_payment_drain e resource := paykit_call (λ n, answers_lookup n resource) e;
  paykit_payment_request_status e creator bundle :=
    paykit_call (λ n, answers_status n creator bundle) e;
|}.

#[local] Instance served_entitlements : EntitlementStoreV1 PaymentWorld := {|
  ent1_contents e := pw_entitlements e;
  ent1_get e creator bundle :=
    (Ok (get_verified_proof_bundle (pw_entitlements e) creator bundle), e);
  ent1_insert e bundle :=
    match insert_verified_proof_bundle (pw_entitlements e) bundle with
    | Ok records => (Ok (), MkPaymentWorld (pw_db e) records (pw_calls e))
    | Err error => (Err error, e)
    end;
|}.

(** Others keep the history of the tables, and counts are unsigned. *)
Context (others_evolve : ∀ n db, db_evolves db (db_others n db)).
Context (start_unsigned : ∀ n resource summary,
  answers_start n resource = Ok summary → 0 ≤ pds_accepted_count summary).
Context (lookup_unsigned : ∀ n resource summary,
  answers_lookup n resource = Ok (Some summary) → 0 ≤ pds_accepted_count summary).

Lemma pg_call_inv {A} (op : nat → PaymentDb → result ApplicationError (A * PaymentDb)) e r e' :
  pg_call op e = (r, e') →
  let db := db_others (pw_calls e) (pw_db e) in
  (pw_db e' = db ∧ ∀ a, r ≠ Ok a)
  ∨ ∃ a, op (pw_calls e) db = Ok (a, pw_db e') ∧ ∀ a', r = Ok a' → a' = a.
Proof.
  unfold pg_call. cbn zeta. destruct (db_fates _), (op _ _) as [[a db']|error] eqn:Hop;
    intros [= <- <-]; cbn; first [by left|right; exists a; split; [done|]; intros ?; congruence].
Qed.

Lemma pg_call_evolves {A} (op : nat → PaymentDb → result ApplicationError (A * PaymentDb)) e r e' :
  (∀ n db a db', op n db = Ok (a, db') → db_evolves db db') →
  pg_call op e = (r, e') → db_evolves (pw_db e) (pw_db e').
Proof.
  intros Hop Hc. apply pg_call_inv in Hc. etransitivity; [apply (others_evolve (pw_calls e))|].
  destruct Hc as [[-> _]|(a & Ha & _)]; [done|by eapply Hop].
Qed.

Context (claim : ClaimedContentLockDeletionJob) (worker : string).

(** The summaries the provider has given. *)
Definition unsigned (tr : list DrainEvent) : Prop :=
  ∀ summary, EvStart (Ok summary) ∈ tr ∨ EvLookup (Ok (Some summary)) ∈ tr →
    0 ≤ pds_accepted_count summary.

Lemma performs_one_unsigned e ev e' before :
  performs_one claim worker e ev e' → unsigned before → unsigned (before ++ [ev]).
Proof.
  intros Hp Hb summary Hin. rewrite !elem_of_app, !list_elem_of_singleton in Hin.
  destruct Hin as [[Hin|<-]|[Hin|<-]]; [by apply Hb; left| |by apply Hb; right|];
    cbn in Hp; unfold paykit_call in Hp; injection Hp as Hans _; eauto.
Qed.

Lemma performs_one_evolves e ev e' :
  performs_one claim worker e ev e' →
  (∀ summary r, ev = EvStore summary r → 0 ≤ pds_accepted_count summary) →
  db_evolves (pw_db e) (pw_db e').
Proof.
  intros Hp Hn. destruct ev; cbn in Hp.
  - by injection Hp as _ <-.
  - by injection Hp as _ <-.
  - by injection Hp as _ <-.
  - eapply pg_call_evolves; [|exact Hp]. intros n db a db'. apply store_evolves. by eapply Hn.
  - eapply pg_call_evolves; [|exact Hp]. intros n db a db' Ho.
    apply bind_Ok in Ho as (x & _ & [= _ <-]). done.
  - eapply pg_call_evolves; [|exact Hp]. intros n db a db'. apply reconcile_evolves.
  - eapply pg_call_evolves; [|exact Hp]. intros n db a db' Ho.
    apply bind_Ok in Ho as (x & _ & [= _ <-]). done.
  - eapply pg_call_evolves; [|exact Hp]. intros n db a db' [= Ho]. by eapply begin_evolves.
  - by destruct (insert_verified_proof_bundle _ _); injection Hp as _ <-.
  - by injection Hp as _ <-.
  - eapply pg_call_evolves; [|exact Hp]. intros n db a db'. apply persist_terminal_evolves.
  - eapply pg_call_evolves; [|exact Hp]. by intros n db a db' [= _ <-].
Qed.

Context (verified_by : LockServerPubky) (minimum_confirmations : Z).

Lemma performs_evolves before e tr e' :
  performs claim worker e tr e' → guarded verified_by minimum_confirmations before tr →
  unsigned before → db_evolves (pw_db e) (pw_db e').
Proof.
  revert before e. induction tr as [|ev tr IH]; intros before e; cbn; [by intros ->|].
  intros (e1 & Hone & Hp) [Hj Hg] Hb. transitivity (pw_db e1).
  - apply (performs_one_evolves _ ev); [done|]. intros summary r ->. cbn in Hj.
    apply Hb. naive_solver.
  - apply (IH (before ++ [ev])); [done|done|]. by eapply performs_one_unsigned.
Qed.

(** What an answer of the run says holds of a state the final one evolved from. *)
Lemma performs_seen e tr e' ev (P : PaymentDb → Prop) :
  performs claim worker e tr e' → guarded verified_by minimum_confirmations [] tr →
  ev ∈ tr → (∀ summary r, ev ≠ EvStore summary r) →
  (∀ e1 e2, performs_one claim worker e1 ev e2 → P (pw_db e2)) →
  ∃ db, P db ∧ db_evolves (pw_db e) db ∧ db_evolves db (pw_db e').
Proof.
  intros Hp Hg Hin Hns HP. assert (unsigned []) as Hb by (intros summary; set_solver).
  revert Hp Hg Hb. generalize (@nil DrainEvent) as before. revert e.
  induction Hin as [ev tr|ev ev' tr Hin IH]; intros e before; cbn.
  - intros (e1 & Hone & Hp) [Hj Hg] Hb. exists (pw_db e1). split; [by eapply HP|].
    split; [by eapply performs_one_evolves; [|intros summary r Hev; destruct (Hns summary r)]|].
    eapply performs_evolves; [exact Hp|exact Hg|]. by eapply performs_one_unsigned.
  - intros (e1 & Hone & Hp) [Hj Hg] Hb.
    destruct (IH Hns HP e1 (before ++ [ev'])) as (db & HP' & Hev1 & Hev2);
      [done|done|by eapply performs_one_unsigned|].
    exists db. split_and!; [done| |done]. transitivity (pw_db e1); [|done].
    apply (performs_one_evolves _ ev'); [done|]. intros summary r ->. cbn in Hj.
    apply Hb. naive_solver.
Qed.

Lemma list_obligations_nil db job :
  pg_list_obligations db job = Ok [] →
  ∀ task sn t, db_snapshots db !! (job, task) = Some sn → db_tasks db !! task = Some t →
    sn_paykit_admission_required sn ≠ Some false → tk_invoice_admission_phase t = "failed".
Proof.
  unfold pg_list_obligations. intros Hl task sn t Hsn Ht Hreq.
  destruct (tk_invoice_admission_phase t == "failed") eqn:Hf; [by props|exfalso].
  assert (row_to_obligation task sn t ∈ omap (obligation_row db job)
            (merge_sort snapshot_le (map_to_list (db_snapshots db)))) as Hin.
  { apply list_elem_of_omap. exists ((job, task), sn).
    split; [by rewrite merge_sort_Permutation; apply elem_of_map_to_list|].
    unfold obligation_row. rewrite Ht. cbn. rewrite eqb_same, Hf.
    destruct (sn_paykit_admission_required sn == Some false) eqn:Hs; [by props|done]. }
  destruct (omap _ _) as [|r rest]; [by apply elem_of_nil in Hin|].
  cbn in Hl. apply bind_Ok in Hl as (x & _ & Hl). by apply bind_Ok in Hl as (y & _ & [=]).
Qed.

Context (fates : nat → Fate) (others : nat → ExecState → ExecState) (me : nat).
Context (lane_kept : ∀ n s, ex_owned s !! cj_id claim = Some me →
                            ex_owned (others n s) !! cj_id claim = Some me).

Lemma terminal_answer e1 e2 :
  performs_one claim worker e1 (EvTerminal (Ok true)) e2 →
  pg_all_obligations_terminal (pw_db e2) (cj_id claim) = true.
Proof.
  intros Hp. cbn in Hp. apply pg_call_inv in Hp as [[_ Hn]|(a & [= Ha Hdb] & Hr)].
  - by destruct (Hn true).
  - rewrite <- Hdb, Ha. symmetry. by apply Hr.
Qed.

Lemma list_answer e1 e2 :
  performs_one claim worker e1 (EvList (Ok [])) e2 →
  pg_list_obligations (pw_db e2) (cj_id claim) = Ok [].
Proof.
  intros Hp. cbn in Hp. apply pg_call_inv in Hp as [[_ Hn]|(a & Ha & Hr)].
  - by destruct (Hn []).
  - apply bind_Ok in Ha as (l & Hl & [= -> Hdb]). rewrite <- Hdb, Hl. by rewrite <- (Hr [] eq_refl).
Qed.

(** C12: When the drain of a deletion advances its job, every payment obligation that was
    frozen for the job is settled in the database - or, at some point of the execution,
    the job had no obligation but ones whose invoice had never been admitted.  Whatever
    the outcome, the execution only ever moved the database forward. *)
Theorem payments_settled (w : World ExecState PaymentWorld) :
  dj_phase (cdj_job claim) = DrainPayments → ex_owned (w_store w) !! cj_id claim = Some me →
  let (x, w') := drain_execute_claimed_with_evidence fates others verified_by minimum_confirmations
                   claim worker w in
  let db := pw_db (w_entitlements w) in
  let db' := pw_db (w_entitlements w') in
  db_evolves db db'
  ∧ (pe_outcome x = Progressed →
     (∀ task sn, db_snapshots db !! (cj_id claim, task) = Some sn →
        ∃ sn', db_snapshots db' !! (cj_id claim, task) = Some sn' ∧ unsettled sn' = false)
     ∨ ∃ db1, db_evolves db db1 ∧ db_evolves db1 db'
         ∧ ∀ task sn t, db_snapshots db1 !! (cj_id claim, task) = Some sn →
             db_tasks db1 !! task = Some t →
             sn_paykit_admission_required sn ≠ Some false → tk_invoice_admission_phase t = "failed").
Proof.
  intros Hphase Hw.
  pose proof (payment_drain_spec fates others verified_by minimum_confirmations me claim worker lane_kept w
    (or_intror Hphase) Hw) as Hs.
  destruct (drain_execute_claimed_with_evidence _ _ _ _ _ _ w) as [x w'].
  destruct Hs as (_ & _ & _ & tr & Hp & Hg & Hover). cbn zeta. split.
  { eapply performs_evolves; [exact Hp|exact Hg|]. intros summary. set_solver. }
  intros Hx. destruct (Hover Hx Hphase) as [Hterm|[Hlist _]].
  - left. intros task sn Hsn.
    destruct (performs_seen _ _ _ (EvTerminal (Ok true))
      (λ db, pg_all_obligations_terminal db (cj_id claim) = true) Hp Hg Hterm)
      as (db1 & Hall & Hev1 & Hev2); [done|apply terminal_answer|].
    destruct (dbe_snapshots _ _ Hev1 _ _ Hsn) as (sn1 & Hsn1 & _).
    destruct (dbe_snapshots _ _ Hev2 _ _ Hsn1) as (sn2 & Hsn2 & He). exists sn2. split; [done|].
    eapply unsettled_evolves; [exact He|]. by eapply all_obligations_terminal_spec.
  - right. destruct (performs_seen _ _ _ (EvList (Ok []))
      (λ db, pg_list_obligations db (cj_id claim) = Ok []) Hp Hg Hlist)
      as (db1 & Hnil & Hev1 & Hev2); [done|apply list_answer|].
    exists db1. split_and!; [done|done|]. by apply list_obligations_nil.
Qed.
End served.
