(* ===== verification/DeletionServer.v ===== *)
(** The deletion worker as the server puts it together
    ([locks-server/src/deletion_worker.rs], [execute_graceful]): both executors, with
    the payment drain of [PaymentDrains] when a payment provider is configured and the
    drain without one otherwise. *)

From S2P Require Import Prelude HashMaps RustStr Externals Ids Json LockPolicy Wire Errors.
From S2P Require Import Run Verifiers Secrets Entitlements Lifecycle DeletionJob AccessStore.
From S2P Require Import DeletionStore DeletionInv DeletionHistory DeletionEvidence AccessUse CreateLock.
From S2P Require Import Resources DeletionExec DeletionTrace DeletionEffects DeletionWorker.
From S2P Require Import DeletionProgress PaymentDrains PaymentSafe.

Section server.
  Context `{JsonCanonicalizer, CanonicalizationError, Rfc3339, TimeCrate, Blake3, Base64Url, Aead}.
  Context {E : Type} `{!PaymentDrains E, !PaykitDrainClient E, !EntitlementStoreV1 E}.

(** [real_paykit]: the drain, when [config.paykit] gives the confirmations a payment
    needs. *)
Definition server_payments fates others (verified_by : LockServerPubky) (paykit : option Z) :
    option (ClaimedContentLockDeletionJob → string → Act ExecState E DeletionPhaseExecution) :=
  (λ minimum_confirmations,
     drain_execute_claimed_with_evidence fates others verified_by minimum_confirmations) <$> paykit.

Lemma server_payments_ok fates others verified_by paykit me :
  (∀ n s id, ex_owned s !! id = Some me → ex_owned (others n s) !! id = Some me) →
  ∀ drain claim worker, server_payments fates others verified_by paykit = Some drain →
  dj_phase (cdj_job claim) = StartPaymentDrain ∨ dj_phase (cdj_job claim) = DrainPayments →
  inside others (graceful_step me claim worker) me (cj_id claim) (drain claim worker)
    (λ s x s', truthful others me claim worker (dj_phase (cdj_job claim)) s (pe_outcome x) s').
Proof.
  intros Hlanes drain claim worker Hd Hphase w Hw. destruct paykit as [minimum|]; [|done].
  injection Hd as <-.
  pose proof (payment_drain_spec fates others verified_by minimum me claim worker (λ n s, Hlanes n s _) w
    Hphase Hw) as Hs.
  destruct (drain_execute_claimed_with_evidence _ _ _ _ _ _ w) as [x w'].
  destruct Hs as (? & ? & ? & _). by split_and!.
Qed.

(** In the last phase an execution changes nothing, whichever calls are lost. *)
Lemma purge_changes_nothing fates others me cipher_key nonces generator issuance read payments claim worker
    (w : World ExecState E) :
  (∀ n s, others n s = s) → dj_phase (cdj_job claim) = PurgeOperationalState →
  dj_force_requested_at (cdj_job claim) = None →
  let execute := runtime_execute_claimed me fates others cipher_key nonces generator issuance read payments in
  w_store (execute claim worker w).2 = w_store w
  ∧ pe_outcome (execute claim worker w).1 ≠ Progressed
  ∧ pe_outcome (execute claim worker w).1 ≠ TerminalFailed.
Proof.
  intros Hquiet Hphase Hforce. unfold runtime_execute_claimed. rewrite Hforce.
  cbn [is_some]. unfold execute_graceful, execute_with_evidence, try_acquire, act_bind.
  cbn [ac_job_id].
  match goal with |- context [acquire_lane _ _ _ ?live ?job w] =>
    pose proof (acquire_lane_alone fates others Hquiet me live job (w_store w) w eq_refl) as Hacq end.
  destruct (acquire_lane _ _ _ _ _ w) as [g w1]. cbn [fst snd] in Hacq.
  destruct g as [[]|e]; cbn -[release_lane]; [|done|done|].
  2:{ split; [done|]. by destruct (error_outcome_cases e) as [-> | ->]. }
  destruct Hacq as [Ho Hs1]. unfold execute_guarded_with_evidence. rewrite Hphase.
  pose proof (release_lane_alone fates others Hquiet (cj_id claim) w1) as Hrel.
  cbn -[release_lane]. destruct (release_lane _ _ _ w1) as [r w2]. cbn [snd] in Hrel. cbn. split.
  + rewrite Hrel, Hs1. destruct (w_store w) as [n d p g o]. unfold ex_with_owned. cbn in *.
    f_equal. by apply delete_insert_id.
  + destruct r as [[]|e]; cbn; [done|]. by destruct (error_outcome_cases e) as [-> | ->].
Qed.

(** C35: The worker never completes a deletion: no iteration, with the executor of the server,
    turns a job into a completed one, whichever calls are lost, if the other users complete
    none.  A job that has reached the phase in which operational state is purged, with its
    content and its tombstone verified but in place, stays there: with the others idle and no
    force requested its execution changes nothing and reports neither progress nor terminal
    failure; and when every call is answered, an iteration that claims it with attempts left
    and its lane free defers it: it is queued in the same phase, due after the poll interval,
    with the attempt taken back. *)
Theorem deletion_never_completes `{Base32} fates others verified_by paykit me cipher_key nonces generator
    issuance read shutdown orders tokens jitter config (w : World ExecState E) :
  (∀ n s id, ex_owned s !! id = Some me → ex_owned (others n s) !! id = Some me) →
  (∀ n s, completes_nothing s (others n s)) →
  let execute := runtime_execute_claimed me fates others cipher_key nonces generator issuance read
                   (server_payments fates others verified_by paykit) in
  let tick := run_once_with_evidence fates others shutdown orders tokens jitter config execute w in
  completes_nothing (w_store w) (w_store tick.2)
  ∧ ∀ claim, dj_phase (cdj_job claim) = PurgeOperationalState →
      dj_force_requested_at (cdj_job claim) = None → (∀ n s, others n s = s) →
      (∀ worker, w_store (execute claim worker w).2 = w_store w
         ∧ pe_outcome (execute claim worker w).1 ≠ Progressed
         ∧ pe_outcome (execute claim worker w).1 ≠ TerminalFailed)
      ∧ ∀ r, (∀ n, fates n = Delivered) → worker_config_ok config →
          repo_ok (ex_now (w_store w)) (ex_repo (w_store w)) → claims orders tokens config w claim r →
          shutdown (w_ticks w) = false → shutdown (w_ticks w + 2)%nat = false →
          dj_attempt_count (cdj_job claim) ≤ dw_retry_max_attempts config →
          ex_owned (w_store w) !! cj_id claim = None →
          ∃ x, tick.1 = Ok x ∧ dwe_outcome x = WorkerDeferred
            ∧ job_in (w_store tick.2) claim (λ j,
                dj_state j = DelQueued
                ∧ dj_attempt_count j = saturating_sub (dj_attempt_count (cdj_job claim)) 1
                ∧ dj_next_attempt_at j
                  = Some (ex_now (w_store w) + to_time_duration (dw_poll_interval config))).
Proof.
  intros Hlane Hothers execute tick. split.
  - apply (run_once_acts fates others _ _ _ _ _ _ completes_nothing); [done| |].
    { intros s r. apply worker_op_completes_nothing. }
    intros claim worker. apply runtime_acts; [done|by apply server_payments_ok|apply _|done| |].
    + intros s s'. apply graceful_step_completes_nothing.
    + intros s s'. apply forced_step_completes_nothing.
  - intros claim Hphase Hforce Hquiet. split; [intros worker; by apply purge_changes_nothing|].
    intros r Hdel Hconf Hok Hc Hs1 Hs2 Hatt Hfree.
    pose proof (deferral_requeues fates others Hdel Hquiet shutdown orders tokens jitter config Hconf
      execute w claim r Hok Hc Hs1 Hs2 Hatt) as Hd. fold tick in Hd. destruct tick as [res w'].
    apply Hd. intros w1 Hw1. destruct Hconf as (_ & _ & _ & Httl).
    destruct (claim_next_find _ _ _ _ _ _ _ _ _ Hok Hc Httl) as (key & sj & _ & Hj & Htok & Hfind).
    unfold execute, runtime_execute_claimed. rewrite Hforce. cbn [is_some].
    eapply (purge_deferred fates others Hdel Hquiet _ me claim (dw_worker_id config));
      rewrite ?Hw1; [|done|done].
    split_and!; [by rewrite Htok|done|done].
Qed.
End server.
