(* ===== verification/FoldedAuth.v ===== *)
(** Folded authorisation of graph verifications
    ([application/models/folded_auth.rs], [infrastructure/folded_auth.rs],
    [infrastructure/memory/folded_auth.rs]).

    A version 2 submission without a reader starts an attempt: a flow in which the
    reader approves with a wallet.  While the attempt is pending, the flow's secret is
    kept encrypted and the handle of the submission is reserved on the fence of the
    graph repository; approval turns the attempt into a graph task for the reader.
    Clock readings, nonces and fresh identifiers are arguments; an operation holds the
    repository's write lock, and where it admits a task the admission locks, so it is
    one step. *)

From S2P Require Import Prelude RustStr Externals Ids Json LockPolicy Wire Errors.
From S2P Require Import Lifecycle GraphTask Fence GraphStore.
From S2P Require Secrets.

(** * Data *)

Definition FOLDED_AUTH_TTL : Duration := minutes 10.
Definition FOLDED_AUTH_TOMBSTONE_TTL : Duration := minutes (24 * 60).
Definition FOLDED_AUTH_POLL_ABANDONED_AFTER : Duration := minutes 1.

(** Without the byte 0 that ends it. *)
Definition STATE_HASH_DOMAIN : string := "pubky-locks/folded-auth-state/v2".

Record FoldedAuthStateHash := MkStateHash { FoldedAuthStateHash_as_bytes : bytes }.
Record FoldedAuthFlowSecret := MkFlowSecret { expose_bytes : bytes }.
Record EncryptedFoldedAuthFlowSecret := MkEncryptedFlow { EncryptedFlow_as_str : string }.

Definition FoldedAuthStateHash_derive `{Blake3} (opaque_state : bytes) : FoldedAuthStateHash :=
  MkStateHash (blake3_hash (Secrets.as_bytes STATE_HASH_DOMAIN ++ [Secrets.byte_of 0] ++ opaque_state)).

Inductive FoldedAuthStatus := FoldedPending | FoldedAccepted | FoldedExpired | FoldedRestartRequired.

Definition FoldedAuthStatus_as_str (s : FoldedAuthStatus) : string :=
  match s with
  | FoldedPending => "pending"
  | FoldedAccepted => "accepted"
  | FoldedExpired => "expired"
  | FoldedRestartRequired => "restart_required"
  end.

Definition FoldedAuthStatus_from_storage_value (value : string) : option FoldedAuthStatus :=
  match_str
    [("pending", FoldedPending); ("accepted", FoldedAccepted); ("expired", FoldedExpired);
     ("restart_required", FoldedRestartRequired)] value.

Record FoldedAuthAttempt := MkAttempt {
  fa_creator : CreatorPubky;
  fa_bundle_id : BundleId;
  fa_generation : Z;
  fa_state_hash : FoldedAuthStateHash;
  fa_status : FoldedAuthStatus;
  fa_submitted_proof_bundle : SubmittedProofBundleV2;
  fa_pubky_lock_resource : PubkyLockResource;
  fa_lock_hash : LockHash;
  fa_verification_window_seconds : Z;
  fa_graph : GraphPolicyV2;
  fa_created_at : OffsetDateTime;
  fa_expires_at : OffsetDateTime;
  fa_poll_dispatched : bool;
  fa_terminal_at : option OffsetDateTime;
  fa_purge_after : option OffsetDateTime;
  fa_task_id : option TaskId;
}.

Record StartFoldedAuthAttempt := MkStart {
  sf_submitted_proof_bundle : SubmittedProofBundleV2;
  sf_pubky_lock_resource : PubkyLockResource;
  sf_lock_hash : LockHash;
  sf_verification_window_seconds : Z;
  sf_graph : GraphPolicyV2;
  sf_state_hash : FoldedAuthStateHash;
  sf_flow_secret : FoldedAuthFlowSecret;
  sf_created_at : OffsetDateTime;
}.

Record FoldedAuthSecretContext := MkFoldedContext {
  fsc_creator : CreatorPubky;
  fsc_bundle_id : BundleId;
  fsc_generation : Z;
  fsc_pubky_lock_resource : PubkyLockResource;
  fsc_lock_hash : LockHash;
}.

Record RestoredFoldedAuthAttempt := MkRestored {
  ra_attempt : FoldedAuthAttempt;
  ra_flow_secret : FoldedAuthFlowSecret;
}.

Inductive FoldedAuthStartDisposition := FoldedStarted | FoldedRotated.

Record FoldedAuthStartResult := MkStartResult {
  fsr_attempt : FoldedAuthAttempt;
  fsr_disposition : FoldedAuthStartDisposition;
}.

#[global] Instance FoldedAuthStateHash_eq_dec : EqDecision FoldedAuthStateHash.
Proof. solve_decision. Defined.
#[global] Instance FoldedAuthStatus_eq_dec : EqDecision FoldedAuthStatus.
Proof. solve_decision. Defined.
#[global] Instance FoldedAuthFlowSecret_eq_dec : EqDecision FoldedAuthFlowSecret.
Proof. solve_decision. Defined.

Definition sf_creator (request : StartFoldedAuthAttempt) : CreatorPubky :=
  resource_creator (sb2_pubky_lock_resource (sf_submitted_proof_bundle request)).
Definition sf_bundle_id (request : StartFoldedAuthAttempt) : BundleId :=
  sb2_bundle_id (sf_submitted_proof_bundle request).

Definition sf_expires_at `{TimeCrate} (request : StartFoldedAuthAttempt) : option OffsetDateTime :=
  time_checked_add (sf_created_at request) FOLDED_AUTH_TTL.

Definition sf_validate (request : StartFoldedAuthAttempt) : result string () :=
  let submitted := sf_submitted_proof_bundle request in
  let predicates := gp_predicates (sf_graph request) in
  let n := Z.of_nat (length predicates) in
  _ ← reject_if (length (expose_bytes (sf_flow_secret request)) =? 0)%nat
        "folded auth flow secret is empty";
  _ ← reject_if (negb (sb2_version submitted =? 2) || is_some (sb2_reader_pubky submitted)
                 || (sb2_pubky_lock_resource submitted != sf_pubky_lock_resource request)
                 || (resource_creator (sf_pubky_lock_resource request) != sf_creator request))
        "folded auth request binding is invalid";
  _ ← reject_if (negb (in_range 60 604800 (sf_verification_window_seconds request)))
        "folded auth verification window is invalid";
  _ ← reject_if (negb (in_range 1 8 n)
                 || negb (eqb (n =? 1) (is_none (gp_operator (sf_graph request)))))
        "folded auth graph policy is invalid";
  reject_if (negb (length (remove_dups predicates) =? length predicates)%nat)
    "folded auth graph policy contains duplicates".

Definition exact_request_matches (attempt : FoldedAuthAttempt) (request : StartFoldedAuthAttempt) :
    bool :=
  (fa_submitted_proof_bundle attempt == sf_submitted_proof_bundle request)
  && (fa_pubky_lock_resource attempt == sf_pubky_lock_resource request)
  && (fa_lock_hash attempt == sf_lock_hash request)
  && (fa_verification_window_seconds attempt =? sf_verification_window_seconds request)
  && (fa_graph attempt == sf_graph request).

Definition attempt_context (attempt : FoldedAuthAttempt) : FoldedAuthSecretContext :=
  MkFoldedContext (fa_creator attempt) (fa_bundle_id attempt) (fa_generation attempt)
    (fa_pubky_lock_resource attempt) (fa_lock_hash attempt).

Definition attempt_graph_task `{Base32, TimeCrate} (attempt : FoldedAuthAttempt) (task_id : TaskId)
    (reader : CreatorPubky) (accepted_at : OffsetDateTime) : result string GraphTaskRecord :=
  snapshot ← GraphTaskSnapshotV1_new (fa_creator attempt) (fa_bundle_id attempt)
               (fa_pubky_lock_resource attempt) (fa_lock_hash attempt) reader accepted_at
               (fa_verification_window_seconds attempt) (fa_graph attempt);
  Ok (MkGraphTaskRecord task_id snapshot 0 Pending None None None).

(** * The cipher of flow secrets *)

Definition FOLDED_ENVELOPE_PREFIX : string := "v1.xchacha20poly1305:".
Definition FOLDED_AAD_DOMAIN : string := "pubky-locks-folded-auth-flow-aad".
Definition PLAINTEXT_VERSION : Z := 1.

(** [serde_json] on [PlaintextEnvelope]: its version and flow state. *)
Class PlaintextJson := {
  plaintext_to_vec : Z → string → option bytes;
  plaintext_from_slice : bytes → option (Z * string);
}.

(** What was written is read back. *)
Class PlaintextJsonLaws `{PlaintextJson} := {
  plaintext_reads version flow_state bs :
    plaintext_to_vec version flow_state = Some bs →
    plaintext_from_slice bs = Some (version, flow_state);
}.

Definition folded_encrypt_error : ApplicationError :=
  FoldedAuthSecret "failed to encrypt folded auth flow".
Definition folded_decrypt_error : ApplicationError :=
  FoldedAuthSecret "invalid folded auth flow envelope".

Definition folded_associated_data (context : FoldedAuthSecretContext) : bytes :=
  let aad := Secrets.append_field [] (Secrets.as_bytes FOLDED_AAD_DOMAIN) in
  let aad := Secrets.append_field aad [Secrets.byte_of 1] in
  let aad := Secrets.append_field aad (Secrets.as_bytes (CreatorPubky_display (fsc_creator context))) in
  let aad := Secrets.append_field aad (Secrets.as_bytes (BundleId_display (fsc_bundle_id context))) in
  let aad := Secrets.append_field aad (Secrets.be_bytes 8 (fsc_generation context)) in
  let aad := Secrets.append_field aad
               (Secrets.as_bytes (PubkyLockResource_display (fsc_pubky_lock_resource context))) in
  Secrets.append_field aad (LockHash_as_bytes (fsc_lock_hash context)).

Section cipher.
  Context `{Base64Url, Aead, PlaintextJson}.

(** [nonce]: the 24 random bytes drawn for this call. *)
Definition folded_encrypt (key nonce : bytes) (context : FoldedAuthSecretContext)
    (secret : FoldedAuthFlowSecret) : result ApplicationError EncryptedFoldedAuthFlowSecret :=
  plaintext ← ok_or (plaintext_to_vec PLAINTEXT_VERSION (b64_encode (expose_bytes secret)))
                folded_encrypt_error;
  ciphertext ← ok_or (aead_seal key nonce (folded_associated_data context) plaintext)
                 folded_encrypt_error;
  Ok (MkEncryptedFlow (FOLDED_ENVELOPE_PREFIX +:+ b64_encode nonce +:+ ":" +:+ b64_encode ciphertext)).

Definition folded_decrypt (key : bytes) (context : FoldedAuthSecretContext)
    (encrypted : EncryptedFoldedAuthFlowSecret) : result ApplicationError FoldedAuthFlowSecret :=
  rest ← ok_or (strip_prefix FOLDED_ENVELOPE_PREFIX (EncryptedFlow_as_str encrypted))
           folded_decrypt_error;
  '(nonce, ciphertext) ← ok_or (Secrets.split_once Secrets.colon rest) folded_decrypt_error;
  nonce ← ok_or (b64_decode nonce) folded_decrypt_error;
  _ ← reject_if (negb (Z.of_nat (length nonce) =? 24)) folded_decrypt_error;
  ciphertext ← ok_or (b64_decode ciphertext) folded_decrypt_error;
  plaintext ← ok_or (aead_open key nonce (folded_associated_data context) ciphertext)
                folded_decrypt_error;
  '(version, flow_state) ← ok_or (plaintext_from_slice plaintext) folded_decrypt_error;
  _ ← reject_if (negb (version =? PLAINTEXT_VERSION)) folded_decrypt_error;
  bs ← ok_or (b64_decode flow_state) folded_decrypt_error;
  _ ← reject_if (length bs =? 0)%nat folded_decrypt_error;
  Ok (MkFlowSecret bs).
End cipher.
