(* ===== verification/FoldedStore.v ===== *)
(** The in-memory repository of folded attempts
    ([locks-service/src/infrastructure/memory/folded_auth.rs]).

    The state is the shared fence, whose handle reservations belong to pending
    attempts, and the attempts in the order they were started.  [now] is the fence's
    authoritative clock. *)

From S2P Require Import Prelude RustStr Externals Ids Json LockPolicy Wire Errors.
From S2P Require Import GraphTask Fence GraphStore FoldedAuth.

Record StoredAttempt := MkStoredAttempt {
  sa_attempt : FoldedAuthAttempt;
  sa_encrypted_flow_secret : option EncryptedFoldedAuthFlowSecret;
  sa_poll_dispatched_at : option OffsetDateTime;
}.

Record FoldedState := MkFoldedState {
  fo_fence : Fence;
  fo_records : list StoredAttempt;
}.

Definition FoldedState_new (f : Fence) : FoldedState := MkFoldedState f [].

Definition folded_invalid_state (message : string) : ApplicationError :=
  InvalidFoldedAuthState message.

(** The handle an attempt reserves. *)
Definition fa_handle (a : FoldedAuthAttempt) : HandleKey := (fa_creator a, fa_bundle_id a).
Definition sa_handle (st : StoredAttempt) : HandleKey := fa_handle (sa_attempt st).
Definition sa_status (st : StoredAttempt) : FoldedAuthStatus := fa_status (sa_attempt st).
Definition sa_hash (st : StoredAttempt) : FoldedAuthStateHash := fa_state_hash (sa_attempt st).
Definition sa_generation (st : StoredAttempt) : Z := fa_generation (sa_attempt st).

(** [max_by_key]: the last of the greatest elements. *)
Definition max_by_key {A} (key : A → Z) (l : list A) : option A :=
  foldl (λ best x, match best with
                   | Some b => if key x <? key b then Some b else Some x
                   | None => Some x
                   end) None l.

Section store.
  Context `{Base32, TimeCrate, Base64Url, Aead, PlaintextJson}.
  Context (cipher_key : bytes).

(** The attempt of the highest generation under a handle, with its position. *)
Definition latest_index (records : list StoredAttempt) (handle : HandleKey) :
    option (nat * StoredAttempt) :=
  max_by_key (λ '(_, st), sa_generation st)
    (filter (λ '(_, st), (sa_handle st == handle) = true) (imap pair records)).

Definition get_latest_by_handle (s : FoldedState) (handle : HandleKey) : option FoldedAuthAttempt :=
  (λ '(_, st), sa_attempt st) <$> latest_index (fo_records s) handle.

Definition get_by_state_hash (s : FoldedState) (state_hash : FoldedAuthStateHash) :
    option FoldedAuthAttempt :=
  (λ '(_, st), sa_attempt st) <$> find_first (λ st, sa_hash st == state_hash) (fo_records s).

Definition folded_accepted_graph_task (s : FoldedState) (state_hash : FoldedAuthStateHash) :
    option GraphTaskRecord :=
  attempt ← get_by_state_hash s state_hash;
  if fa_status attempt != FoldedAccepted then None
  else get_graph_task_by_handle (fo_fence s) (fa_handle attempt).

Definition accepted_task_id (s : FoldedState) (state_hash : FoldedAuthStateHash) : option TaskId :=
  attempt ← get_by_state_hash s state_hash; fa_task_id attempt.

Definition restore_pending (s : FoldedState) (state_hash : FoldedAuthStateHash) :
    result ApplicationError (option RestoredFoldedAuthAttempt) :=
  match find_first (λ st, sa_hash st == state_hash) (fo_records s) with
  | None => Ok None
  | Some (_, st) =>
      if (sa_status st != FoldedPending) || fa_poll_dispatched (sa_attempt st) then Ok None
      else
        encrypted ← ok_or (sa_encrypted_flow_secret st)
                      (folded_invalid_state "pending folded auth attempt lacks flow secret");
        flow_secret ← folded_decrypt cipher_key (attempt_context (sa_attempt st)) encrypted;
        Ok (Some (MkRestored (sa_attempt st) flow_secret))
  end.

Definition checked_purge_after (now : OffsetDateTime) : result ApplicationError OffsetDateTime :=
  ok_or (time_checked_add now FOLDED_AUTH_TOMBSTONE_TTL)
    (Storage "folded auth tombstone expiry overflow").

(** [task_id] is the task the attempt has led to. *)
Definition terminalized (st : StoredAttempt) (status : FoldedAuthStatus) (now purge_after : OffsetDateTime)
    (task_id : option TaskId) : StoredAttempt :=
  let a := sa_attempt st in
  MkStoredAttempt
    (MkAttempt (fa_creator a) (fa_bundle_id a) (fa_generation a) (fa_state_hash a) status
       (fa_submitted_proof_bundle a) (fa_pubky_lock_resource a) (fa_lock_hash a)
       (fa_verification_window_seconds a) (fa_graph a) (fa_created_at a) (fa_expires_at a) false
       (Some now) (Some purge_after) task_id)
    None None.

Definition terminalize_attempt (st : StoredAttempt) (status : FoldedAuthStatus)
    (now purge_after : OffsetDateTime) : StoredAttempt :=
  terminalized st status now purge_after (fa_task_id (sa_attempt st)).

(** Ownership of the approval poll: whether it was dispatched, and since when. *)
Definition with_poll (st : StoredAttempt) (dispatched_at : option OffsetDateTime) : StoredAttempt :=
  let a := sa_attempt st in
  MkStoredAttempt
    (MkAttempt (fa_creator a) (fa_bundle_id a) (fa_generation a) (fa_state_hash a) (fa_status a)
       (fa_submitted_proof_bundle a) (fa_pubky_lock_resource a) (fa_lock_hash a)
       (fa_verification_window_seconds a) (fa_graph a) (fa_created_at a) (fa_expires_at a)
       (is_some dispatched_at) (fa_terminal_at a) (fa_purge_after a) (fa_task_id a))
    (sa_encrypted_flow_secret st) dispatched_at.

Definition exact_pending (s : FoldedState) (state_hash : FoldedAuthStateHash) (generation : Z) :
    option (nat * StoredAttempt) :=
  find_first (λ st, (sa_hash st == state_hash) && (sa_generation st =? generation)
                    && (sa_status st == FoldedPending)) (fo_records s).

(** A record is replaced, and the reservation of its handle kept or released. *)
Definition store_attempt (s : FoldedState) (i : nat) (st : StoredAttempt) : FoldedState :=
  MkFoldedState (fo_fence s) (<[i := st]> (fo_records s)).
Definition end_attempt (s : FoldedState) (i : nat) (st : StoredAttempt) : FoldedState :=
  MkFoldedState (release_folded_auth_reservation (fo_fence s) (sa_handle st))
    (<[i := st]> (fo_records s)).

(** * Starting *)

(** What becomes of the latest attempt under the handle, and the next generation. *)
Definition rotation (latest : FoldedAuthAttempt) (request : StartFoldedAuthAttempt)
    (now : OffsetDateTime) :
    result ApplicationError
      (Z * option (FoldedAuthStatus * OffsetDateTime) * FoldedAuthStartDisposition) :=
  _ ← reject_if (negb (exact_request_matches latest request) || (fa_status latest == FoldedAccepted))
        VerificationTaskConflict;
  generation ← ok_or (checked_add U64_MAX (fa_generation latest) 1)
                 (Storage "folded auth generation overflow");
  if fa_status latest == FoldedPending then
    purge_after ← checked_purge_after now;
    if fa_expires_at latest <=? now
    then Ok (generation, Some (FoldedExpired, purge_after), FoldedStarted)
    else Ok (generation, Some (FoldedRestartRequired, purge_after), FoldedRotated)
  else Ok (generation, None, FoldedStarted).

Definition started_attempt (request : StartFoldedAuthAttempt) (generation : Z)
    (now expires_at : OffsetDateTime) : FoldedAuthAttempt :=
  MkAttempt (sf_creator request) (sf_bundle_id request) generation (sf_state_hash request)
    FoldedPending (sf_submitted_proof_bundle request) (sf_pubky_lock_resource request)
    (sf_lock_hash request) (sf_verification_window_seconds request) (sf_graph request) now expires_at
    false None None None.

Definition start_or_rotate (s : FoldedState) (request : StartFoldedAuthAttempt)
    (now : OffsetDateTime) (nonce : bytes) :
    result ApplicationError (FoldedAuthStartResult * FoldedState) :=
  let handle := (sf_creator request, sf_bundle_id request) in
  _ ← map_err folded_invalid_state (sf_validate request);
  _ ← reject_if (has_graph_task_by_handle (fo_fence s) handle) VerificationTaskConflict;
  expires_at ← ok_or (time_checked_add now FOLDED_AUTH_TTL) (Storage "folded auth expiry overflow");
  _ ← reject_if (existsb (λ st, sa_hash st == sf_state_hash request) (fo_records s))
        VerificationTaskConflict;
  let latest := latest_index (fo_records s) handle in
  '(generation, previous_terminal, disposition) ←
    match latest with
    | Some (_, st) => rotation (sa_attempt st) request now
    | None => Ok (1, None, FoldedStarted)
    end;
  encrypted ← folded_encrypt cipher_key nonce
                (MkFoldedContext (sf_creator request) (sf_bundle_id request) generation
                   (sf_pubky_lock_resource request) (sf_lock_hash request))
                (sf_flow_secret request);
  let attempt := started_attempt request generation now expires_at in
  let records :=
    match latest, previous_terminal with
    | Some (i, st), Some (status, purge_after) =>
        <[i := terminalize_attempt st status now purge_after]> (fo_records s)
    | _, _ => fo_records s
    end in
  Ok (MkStartResult attempt disposition,
      MkFoldedState (reserve_folded_auth (fo_fence s) handle)
        (records ++ [MkStoredAttempt attempt (Some encrypted) None])).

(** * The poll of an attempt *)

Definition mark_poll_dispatched (s : FoldedState) (state_hash : FoldedAuthStateHash)
    (expected_generation : Z) (now : OffsetDateTime) : option FoldedAuthAttempt * FoldedState :=
  match exact_pending s state_hash expected_generation with
  | None => (None, s)
  | Some (i, st) =>
      if fa_poll_dispatched (sa_attempt st) then (None, s)
      else let st' := with_poll st (Some now) in (Some (sa_attempt st'), store_attempt s i st')
  end.

Definition renew_poll_dispatch (s : FoldedState) (state_hash : FoldedAuthStateHash)
    (expected_generation : Z) (now : OffsetDateTime) : option FoldedAuthAttempt * FoldedState :=
  match exact_pending s state_hash expected_generation with
  | None => (None, s)
  | Some (i, st) =>
      if negb (fa_poll_dispatched (sa_attempt st)) then (None, s)
      else let st' := with_poll st (Some now) in (Some (sa_attempt st'), store_attempt s i st')
  end.

Definition confirm_not_attempted (s : FoldedState) (state_hash : FoldedAuthStateHash)
    (expected_generation : Z) : option FoldedAuthAttempt * FoldedState :=
  match exact_pending s state_hash expected_generation with
  | None => (None, s)
  | Some (i, st) =>
      if negb (fa_poll_dispatched (sa_attempt st)) then (None, s)
      else let st' := with_poll st None in (Some (sa_attempt st'), store_attempt s i st')
  end.

Definition confirm_pending_generation (s : FoldedState) (state_hash : FoldedAuthStateHash)
    (expected_generation : Z) (now : OffsetDateTime) :
    result ApplicationError (option FoldedAuthAttempt * FoldedState) :=
  match exact_pending s state_hash expected_generation with
  | None => Ok (None, s)
  | Some (i, st) =>
      if fa_expires_at (sa_attempt st) <=? now then
        purge_after ← checked_purge_after now;
        let st' := terminalize_attempt st FoldedExpired now purge_after in
        Ok (Some (sa_attempt st'), end_attempt s i st')
      else
        let st' := with_poll st None in Ok (Some (sa_attempt st'), store_attempt s i st')
  end.

Definition require_restart (s : FoldedState) (state_hash : FoldedAuthStateHash)
    (expected_generation : Z) (now : OffsetDateTime) :
    result ApplicationError (option FoldedAuthAttempt * FoldedState) :=
  match exact_pending s state_hash expected_generation with
  | None => Ok (None, s)
  | Some (i, st) =>
      purge_after ← checked_purge_after now;
      let status := if fa_expires_at (sa_attempt st) <=? now then FoldedExpired
                    else FoldedRestartRequired in
      let st' := terminalize_attempt st status now purge_after in
      Ok (Some (sa_attempt st'), end_attempt s i st')
  end.

Definition expire_attempt (s : FoldedState) (state_hash : FoldedAuthStateHash)
    (expected_generation : Z) (now : OffsetDateTime) :
    result ApplicationError (option FoldedAuthAttempt * FoldedState) :=
  match exact_pending s state_hash expected_generation with
  | None => Ok (None, s)
  | Some (i, st) =>
      if now <? fa_expires_at (sa_attempt st) then Ok (Some (sa_attempt st), s)
      else
        purge_after ← checked_purge_after now;
        let st' := terminalize_attempt st FoldedExpired now purge_after in
        Ok (Some (sa_attempt st'), end_attempt s i st')
  end.

(** * Acceptance *)

(** The attempt is looked up before the admission locks are taken and again under
    them; only the second lookup counts.  The callback that turns the attempt
    accepted runs when the task is new, that is, when the handle has no graph task. *)
Definition accept_and_insert_graph_task (s : FoldedState) (state_hash : FoldedAuthStateHash)
    (expected_generation : Z) (task_id : TaskId) (reader : CreatorPubky) (now : OffsetDateTime) :
    result ApplicationError (option GraphTaskRecord * FoldedState) :=
  match exact_pending s state_hash expected_generation with
  | None => Ok (None, s)
  | Some (i, st) =>
      if fa_expires_at (sa_attempt st) <=? now then
        purge_after ← checked_purge_after now;
        Ok (None, end_attempt s i (terminalize_attempt st FoldedExpired now purge_after))
      else
        task ← map_err folded_invalid_state (attempt_graph_task (sa_attempt st) task_id reader now);
        purge_after ← checked_purge_after now;
        '(inserted, f) ← insert_graph_task_under_admission (fo_fence s) task (λ _, Ok ()) true;
        let records :=
          if has_graph_task_by_handle (fo_fence s) (gt_handle task) then fo_records s
          else <[i := terminalized st FoldedAccepted now purge_after (Some (gt_task_id inserted))]>
                 (fo_records s) in
        Ok (Some inserted, MkFoldedState f records)
  end.

(** * Cleanup *)

Definition abandoned (st : StoredAttempt) (now : OffsetDateTime) : bool :=
  is_some_and (λ dispatched_at, dispatched_at <=? now - FOLDED_AUTH_POLL_ABANDONED_AFTER)
    (sa_poll_dispatched_at st).

(** One record of the sweep: what it becomes when it ends. *)
Definition swept (st : StoredAttempt) (now purge_after : OffsetDateTime) : option StoredAttempt :=
  if sa_status st == FoldedPending then
    if fa_expires_at (sa_attempt st) <=? now
    then Some (terminalize_attempt st FoldedExpired now purge_after)
    else if abandoned st now
    then Some (terminalize_attempt st FoldedRestartRequired now purge_after)
    else None
  else None.

Fixpoint sweep (f : Fence) (records : list StoredAttempt) (now purge_after : OffsetDateTime) :
    Fence * list StoredAttempt :=
  match records with
  | [] => (f, [])
  | st :: records =>
      match swept st now purge_after with
      | Some st' =>
          let (f, records) :=
            sweep (release_folded_auth_reservation f (sa_handle st)) records now purge_after in
          (f, st' :: records)
      | None => let (f, records) := sweep f records now purge_after in (f, st :: records)
      end
  end.

Definition retained (now : OffsetDateTime) (st : StoredAttempt) : bool :=
  (sa_status st == FoldedPending)
  || is_none_or (λ purge_after, now <? purge_after) (fa_purge_after (sa_attempt st)).

(** The count of the records purged fits 64 bits. *)
Definition purge_terminal_before (s : FoldedState) (now : OffsetDateTime) :
    result ApplicationError (Z * FoldedState) :=
  purge_after ← checked_purge_after now;
  let (f, records) := sweep (fo_fence s) (fo_records s) now purge_after in
  let kept := filter (λ st, retained now st = true) records in
  Ok (Z.of_nat (length records) - Z.of_nat (length kept), MkFoldedState f kept).
End store.
