(* ===== verification/FoldedInv.v ===== *)
(** The invariant of folded attempts, and their histories.

    Pending attempts and handle reservations belong together: an attempt is pending
    exactly as long as its handle is reserved, no graph task takes a reserved handle,
    and the latest attempt of a handle is the only one that can be pending or
    accepted. *)

From S2P Require Import Prelude RustStr Externals Ids Json LockPolicy Wire Errors.
From S2P Require Import GraphTask Fence GraphStore PaymentStore FoldedAuth FoldedStore.
From S2P Require Secrets.

(** * What the others do to the fence *)

Record fence_frame (f f' : Fence) : Prop := {
  ff_reservations : folded_auth_reservations f' = folded_auth_reservations f;
  ff_kept : ∀ x, x ∈ graph_subject <$> graph_records f → x ∈ graph_subject <$> graph_records f';
  ff_new : ∀ g, g ∈ graph_records f' → sg_handle g ∈ sg_handle <$> graph_records f
                ∨ sg_handle g ∉ folded_auth_reservations f;
}.

#[export] Instance fence_frame_refl : Reflexive fence_frame.
Proof. intros f. split; [done|done|]. intros g Hg. left. by apply list_elem_of_fmap_2. Qed.

Lemma graph_subjects_handles f f' :
  graph_subject <$> graph_records f' = graph_subject <$> graph_records f →
  sg_handle <$> graph_records f' = sg_handle <$> graph_records f.
Proof.
  intros Hs. change sg_handle with (snd ∘ graph_subject). by rewrite !list_fmap_compose, Hs.
Qed.

Lemma fence_frame_subjects f f' :
  folded_auth_reservations f' = folded_auth_reservations f →
  graph_subject <$> graph_records f' = graph_subject <$> graph_records f → fence_frame f f'.
Proof.
  intros Hr Hs. split; [done|by rewrite Hs|]. intros g Hg. left.
  rewrite <- (graph_subjects_handles f f' Hs). by apply list_elem_of_fmap_2.
Qed.

Section others.
  Context `{Base32, TimeCrate}.

(** The operations of the graph repository and of the payment repository, ordinary
    admission among them. *)
Inductive other_step : PaymentRepo → PaymentRepo → Prop :=
  | other_insert s t t' f' :
      insert_graph_task (pr_fence s) t = Ok (t', f') →
      other_step s (MkPaymentRepo f' (pr_records s))
  | other_claim s worker caller expires now token c f' :
      claim_next_graph_task (pr_fence s) worker caller expires now token = Ok (c, f') →
      other_step s (MkPaymentRepo f' (pr_records s))
  | other_persist s id worker token revision snapshot now publication :
      other_step s (MkPaymentRepo
        (persist_claimed_graph_snapshot (pr_fence s) id worker token revision snapshot now
           publication).2 (pr_records s))
  | other_schedule s id worker token caller revision snapshot next now t f' :
      schedule_graph_task_retry (pr_fence s) id worker token caller revision snapshot next now
        = Ok (t, f') →
      other_step s (MkPaymentRepo f' (pr_records s))
  | other_release s id worker token :
      other_step s (MkPaymentRepo (release_claimed_graph_task (pr_fence s) id worker token).2
                      (pr_records s))
  | other_complete s id worker token revision publication now :
      other_step s (MkPaymentRepo
        (complete_claimed_graph_publication (pr_fence s) id worker token revision publication now).2
        (pr_records s))
  | other_payment s s' :
      lane_step s s' → graph_records (pr_fence s') = graph_records (pr_fence s) →
      folded_auth_reservations (pr_fence s') = folded_auth_reservations (pr_fence s) →
      other_step s s'.

(** Operations that neither add tasks nor touch reservations. *)
Definition quiet (f f' : Fence) : Prop :=
  folded_auth_reservations f' = folded_auth_reservations f
  ∧ length (graph_records f') = length (graph_records f).

Lemma claim_quiet f worker caller expires now token c f' :
  claim_next_graph_task f worker caller expires now token = Ok (c, f') → quiet f f'.
Proof.
  intros Hc. unfold claim_next_graph_task in Hc. apply bind_Ok in Hc as ([] & _ & Hc).
  destruct (find_first _ _) as [[i st]|]; injection Hc as _ <-; [|done].
  split; [done|]. apply length_insert.
Qed.

Lemma persist_quiet f id worker token revision snapshot now publication :
  quiet f (persist_claimed_graph_snapshot f id worker token revision snapshot now publication).2.
Proof.
  unfold persist_claimed_graph_snapshot. destruct (find_first _ _) as [[i st]|]; [|done].
  match goal with |- context [match ?c with Ok _ => _ | Err _ => _ end] => destruct c; [|done] end.
  destruct (gs_root snapshot) as [| |reason|]; [| |destruct reason|];
    [|destruct (VerifiedProofBundleV2_validate _)|..]; (split; [done|apply length_insert]).
Qed.

Lemma schedule_quiet f id worker token caller revision snapshot next now t f' :
  schedule_graph_task_retry f id worker token caller revision snapshot next now = Ok (t, f') →
  quiet f f'.
Proof.
  intros Hs. unfold schedule_graph_task_retry in Hs.
  destruct (find_first _ _) as [[i st]|]; [|by injection Hs as _ <-].
  do 3 (apply bind_Ok in Hs as ([] & _ & Hs)). apply bind_Ok in Hs as (rev & _ & Hs).
  injection Hs as _ <-. split; [done|apply length_insert].
Qed.

Lemma release_quiet f id worker token : quiet f (release_claimed_graph_task f id worker token).2.
Proof.
  unfold release_claimed_graph_task. destruct (find_first _ _) as [[i st]|]; [|done].
  split; [done|apply length_insert].
Qed.

Lemma complete_quiet f id worker token revision publication now :
  quiet f (complete_claimed_graph_publication f id worker token revision publication now).2.
Proof.
  unfold complete_claimed_graph_publication. destruct (find_first _ _) as [[i st]|]; [|done].
  split; [done|apply length_insert].
Qed.

Lemma quiet_frame f f' : graph_step f f' → quiet f f' → fence_frame f f'.
Proof.
  intros Hstep [Hr Hlen].
  apply graph_step_frame in Hstep as [[Hs _]|(t & r & Hrec & _)]; [by apply fence_frame_subjects|].
  exfalso. rewrite Hrec, length_app in Hlen. cbn in Hlen. lia.
Qed.

(** What a successful admission does. *)
Lemma insert_Ok f t bp folded t' f' :
  insert_graph_task_under_admission f t bp folded = Ok (t', f') →
  (gt_handle t ∈ folded_auth_reservations f ↔ folded = true)
  ∧ (has_graph_task_by_handle f (gt_handle t) = true ∧ f' = f ∧ gt_task_id t' = gt_task_id t
     ∨ has_graph_task_by_handle f (gt_handle t) = false ∧ t' = t
       ∧ graph_records f' = graph_records f ++ [MkStoredGraphTask t None None None None]
       ∧ folded_auth_reservations f'
         = if folded then folded_auth_reservations f ∖ {[gt_handle t]}
           else folded_auth_reservations f).
Proof.
  intros Hins. unfold insert_graph_task_under_admission in Hins. cbv zeta in Hins.
  apply bind_Ok in Hins as ([] & _ & Hins). apply bind_Ok in Hins as ([] & Hres & Hins).
  do 3 (apply bind_Ok in Hins as ([] & _ & Hins)).
  split.
  { apply reject_if_Ok, negb_false_iff in Hres. rewrite eqb_true in Hres. rewrite <- Hres. symmetry. apply bool_decide_eq_true. }
  unfold has_graph_task_by_handle.
  destruct (find_first _ _) as [[i ex]|] eqn:Hfind.
  - left. apply find_first_Some in Hfind as [Hi Hh]. split_match in Hins; [|done].
    props. injection Hins as <- <-. split_and!; [|done|done].
    apply existsb_exists. exists ex. split; [|by rewrite eqb_true].
    by eapply list_elem_of_In, list_elem_of_lookup_2.
  - right. rewrite find_first_None in Hfind.
    apply bind_Ok in Hins as ([] & _ & Hins). apply bind_Ok in Hins as ([] & _ & Hins).
    injection Hins as <- <-. split_and!; [|done..]. apply existsb_false. exact Hfind.
Qed.

Lemma other_step_frame s s' : other_step s s' → fence_frame (pr_fence s) (pr_fence s').
Proof.
  destruct 1 as [s t t' f' Hins|s w c e n k cl f' Hc|s id w k r sn n p
                |s id w k c r sn nx n t f' Hs|s id w k|s id w k r p n|s s' _ Hg Hr]; cbn.
  - apply insert_Ok in Hins as [Hres [(_ & -> & _)|(Hnone & _ & Hrec & Hr)]]; [done|].
    split; [done|intros x; rewrite Hrec, fmap_app; set_solver|].
    intros g. rewrite Hrec. intros [Hg | ->%list_elem_of_singleton]%elem_of_app.
    + left. by apply list_elem_of_fmap_2.
    + right. intros Hin. by apply Hres in Hin.
  - apply quiet_frame; [by eapply step_claim|by eapply claim_quiet].
  - apply quiet_frame; [constructor|apply persist_quiet].
  - apply quiet_frame; [by eapply step_schedule|by eapply schedule_quiet].
  - apply quiet_frame; [constructor|apply release_quiet].
  - apply quiet_frame; [constructor|apply complete_quiet].
  - apply fence_frame_subjects; [done|by rewrite Hg].
Qed.
End others.

(** * The invariant *)

Definition live_attempt (st : StoredAttempt) : Prop :=
  sa_status st = FoldedPending ∨ sa_status st = FoldedAccepted.

(** One stored attempt: a pending one keeps its secret; one that has ended does not,
    and waits for its removal. *)
Definition attempt_ok (st : StoredAttempt) : Prop :=
  let a := sa_attempt st in
  fa_expires_at a = fa_created_at a + FOLDED_AUTH_TTL
  ∧ fa_poll_dispatched a = is_some (sa_poll_dispatched_at st)
  ∧ (if decide (sa_status st = FoldedPending) then
       is_Some (sa_encrypted_flow_secret st)
       ∧ fa_terminal_at a = None ∧ fa_purge_after a = None ∧ fa_task_id a = None
     else
       sa_encrypted_flow_secret st = None ∧ sa_poll_dispatched_at st = None
       ∧ (∃ t, fa_terminal_at a = Some t ∧ fa_purge_after a = Some (t + FOLDED_AUTH_TOMBSTONE_TTL))
       ∧ (is_Some (fa_task_id a) ↔ sa_status st = FoldedAccepted)).

(** The task an accepted attempt has led to. *)
Definition has_task (f : Fence) (st : StoredAttempt) : Prop :=
  ∃ task_id, fa_task_id (sa_attempt st) = Some task_id
    ∧ (task_id, sa_handle st) ∈ graph_subject <$> graph_records f.

Definition sa_key (st : StoredAttempt) : HandleKey * Z := (sa_handle st, sa_generation st).

Record folded_ok (s : FoldedState) : Prop := {
  fk_hashes : NoDup (sa_hash <$> fo_records s);
  fk_keys : NoDup (sa_key <$> fo_records s);
  fk_attempts st : st ∈ fo_records s → attempt_ok st;
  fk_latest st st' : st ∈ fo_records s → st' ∈ fo_records s → live_attempt st →
    sa_handle st' = sa_handle st → sa_generation st' ≤ sa_generation st;
  fk_reserved h : h ∈ folded_auth_reservations (fo_fence s) ↔
    ∃ st, st ∈ fo_records s ∧ sa_status st = FoldedPending ∧ sa_handle st = h;
  fk_free h : h ∈ folded_auth_reservations (fo_fence s) →
    h ∉ sg_handle <$> graph_records (fo_fence s);
  fk_accepted st : st ∈ fo_records s → sa_status st = FoldedAccepted → has_task (fo_fence s) st;
}.

Lemma folded_ok_new f : folded_auth_reservations f = ∅ → folded_ok (FoldedState_new f).
Proof.
  intros Hr. split; cbn; [constructor|constructor|set_solver..| |rewrite Hr; set_solver|set_solver].
  intros h. rewrite Hr. split; [set_solver|]. intros (? & Hin & _). by apply elem_of_nil in Hin.
Qed.

Lemma has_task_mono f f' st :
  (∀ x, x ∈ graph_subject <$> graph_records f → x ∈ graph_subject <$> graph_records f') →
  has_task f st → has_task f' st.
Proof. intros Hk (t & Ht & Hin). exists t. auto. Qed.

(** Others keep the invariant. *)
Lemma frame_preserves s f' :
  folded_ok s → fence_frame (fo_fence s) f' → folded_ok (MkFoldedState f' (fo_records s)).
Proof.
  intros [Hh Hk Ha Hl Hr Hf Hacc] [Hres Hkept Hnew]. split; cbn; [done..|by rewrite Hres| |].
  - rewrite Hres. intros h Hin (g & -> & Hg)%list_elem_of_fmap.
    by destruct (Hnew g Hg) as [Ho|Hno]; [apply (Hf _ Hin)|].
  - intros st Hin Hst. eapply has_task_mono; [exact Hkept|auto].
Qed.

(** ** Attempts that move on *)

(** What a write to an attempt may do. *)
Record attempt_moves (st st' : StoredAttempt) : Prop := {
  am_hash : sa_hash st' = sa_hash st;
  am_key : sa_key st' = sa_key st;
  am_ok : attempt_ok st';
  am_pending : sa_status st' = FoldedPending → sa_status st = FoldedPending;
  am_ended : sa_status st ≠ FoldedPending → st' = st;
}.

Lemma attempt_moves_refl st : attempt_ok st → attempt_moves st st.
Proof. by split. Qed.

Lemma moves_keys (l l' : list StoredAttempt) :
  Forall2 attempt_moves l l' →
  sa_hash <$> l' = sa_hash <$> l ∧ sa_key <$> l' = sa_key <$> l.
Proof.
  induction 1 as [|st st' l l' [Hh Hk _ _ _] _ [IH1 IH2]]; [done|]. cbn. by rewrite Hh, Hk, IH1, IH2.
Qed.

(** Several attempts move on at once: the reservations that stay are those of the
    attempts that stay pending, and accepted attempts have their tasks. *)
Lemma moves_preserve s s' :
  folded_ok s → Forall2 attempt_moves (fo_records s) (fo_records s') →
  (∀ h, h ∈ folded_auth_reservations (fo_fence s') ↔
        ∃ st, st ∈ fo_records s' ∧ sa_status st = FoldedPending ∧ sa_handle st = h) →
  (∀ h, h ∈ folded_auth_reservations (fo_fence s') →
        h ∉ sg_handle <$> graph_records (fo_fence s')) →
  (∀ st, st ∈ fo_records s' → sa_status st = FoldedAccepted → has_task (fo_fence s') st) →
  folded_ok s'.
Proof.
  intros [Hh Hk Ha Hl _ _ _] Hm Hr Hf Hacc. destruct (moves_keys _ _ Hm) as [Hhs Hks].
  split; [by rewrite Hhs|by rewrite Hks| | |done..].
  - intros st' Hin. apply list_elem_of_lookup in Hin as [i Hi].
    destruct (Forall2_lookup_r _ _ _ _ _ Hm Hi) as (st & _ & Hmv). apply Hmv.
  - intros st1' st2' Hin1 Hin2 Hlive Heq.
    apply list_elem_of_lookup in Hin1 as [i Hi]. apply list_elem_of_lookup in Hin2 as [j Hj].
    destruct (Forall2_lookup_r _ _ _ _ _ Hm Hi) as (st1 & Hi' & [_ Hk1 _ Hp1 He1]).
    destruct (Forall2_lookup_r _ _ _ _ _ Hm Hj) as (st2 & Hj' & [_ Hk2 _ _ _]).
    pose proof (f_equal fst Hk1 : sa_handle _ = sa_handle _) as Hh1.
    pose proof (f_equal snd Hk1 : sa_generation _ = sa_generation _) as Hg1.
    pose proof (f_equal fst Hk2 : sa_handle _ = sa_handle _) as Hh2.
    pose proof (f_equal snd Hk2 : sa_generation _ = sa_generation _) as Hg2.
    rewrite Hg1, Hg2. apply (Hl st1 st2); [by eapply list_elem_of_lookup_2..| |congruence].
    destruct (decide (sa_status st1 = FoldedPending)) as [?|Hne]; [by left|].
    by rewrite <- (He1 Hne).
Qed.

Lemma insert_moves s i st st' :
  folded_ok s → fo_records s !! i = Some st → attempt_moves st st' →
  Forall2 attempt_moves (fo_records s) (<[i := st']> (fo_records s)).
Proof.
  intros Hok Hi Hm. apply Forall2_lookup. intros j.
  destruct (decide (j = i)) as [->|Hne].
  - rewrite Hi, list_lookup_insert_eq by by eapply lookup_lt_Some. by constructor.
  - rewrite list_lookup_insert_ne by done. destruct (fo_records s !! j) as [x|] eqn:Hj; constructor.
    apply attempt_moves_refl, (fk_attempts _ Hok). by eapply list_elem_of_lookup_2.
Qed.

(** A pending attempt is the only one of its handle. *)
Lemma pending_unique s i j st st' :
  folded_ok s → fo_records s !! i = Some st → fo_records s !! j = Some st' →
  live_attempt st → live_attempt st' → sa_handle st' = sa_handle st → i = j.
Proof.
  intros [_ Hk _ Hl _ _ _] Hi Hj Hp Hp' Hh.
  assert (sa_generation st' ≤ sa_generation st) as H1
    by (apply (Hl st st'); [by eapply list_elem_of_lookup_2..|done|done]).
  assert (sa_generation st ≤ sa_generation st') as H2
    by (apply (Hl st' st); [by eapply list_elem_of_lookup_2..|done|done]).
  eapply NoDup_lookup; [exact Hk| |]; rewrite list_lookup_fmap; [by rewrite Hi|].
  rewrite Hj. cbn. unfold sa_key. do 2 f_equal; [done|lia].
Qed.

(** Elements after a write. *)
Lemma elem_of_insert_at {A} (l : list A) i x y z :
  l !! i = Some x → z ∈ <[i := y]> l ↔ z = y ∨ ∃ j, j ≠ i ∧ l !! j = Some z.
Proof.
  intros Hi. rewrite list_elem_of_lookup. split.
  - intros [j Hj]. destruct (decide (j = i)) as [->|Hne].
    + rewrite list_lookup_insert_eq in Hj by by eapply lookup_lt_Some. left. congruence.
    + rewrite list_lookup_insert_ne in Hj by done. right. by exists j.
  - intros [->|(j & Hne & Hj)].
    + exists i. apply list_lookup_insert_eq. by eapply lookup_lt_Some.
    + exists j. by rewrite list_lookup_insert_ne.
Qed.

(** ** The operations *)

Lemma poll_moves st o :
  attempt_ok st → sa_status st = FoldedPending → attempt_moves st (with_poll st o).
Proof.
  intros (He & _ & Hp) Hst. rewrite decide_True in Hp by done.
  split; [done|done| |done|by intros []]. split_and!; [done|done|].
  by rewrite decide_True by done.
Qed.

Lemma end_moves st status now task :
  attempt_ok st → sa_status st = FoldedPending → status ≠ FoldedPending →
  (is_Some task ↔ status = FoldedAccepted) →
  attempt_moves st (terminalized st status now (now + FOLDED_AUTH_TOMBSTONE_TTL) task).
Proof.
  intros (He & _ & _) Hst Hne Ht. split; [done|done| |done|by intros []].
  split_and!; [done|done|]. rewrite decide_False by done. split_and!; [done|done|by eauto|done].
Qed.

Lemma pending_no_task st :
  attempt_ok st → sa_status st = FoldedPending → fa_task_id (sa_attempt st) = None.
Proof. intros (_ & _ & Hp) Hst. rewrite decide_True in Hp by done. by destruct Hp as (_ & _ & _ & ?). Qed.

(** The pending attempts are those that were, but for the one that is written. *)
Lemma pending_write s i st st' :
  folded_ok s → fo_records s !! i = Some st → sa_status st = FoldedPending →
  sa_status st' ≠ FoldedPending →
  ∀ h, h ∈ folded_auth_reservations (fo_fence s) ∖ {[sa_handle st]} ↔
       ∃ x, x ∈ <[i := st']> (fo_records s) ∧ sa_status x = FoldedPending ∧ sa_handle x = h.
Proof.
  intros Hok Hi Hst Hne h. rewrite elem_of_difference, elem_of_singleton, (fk_reserved _ Hok). split.
  - intros [(x & Hx & Hp & Hh) Hneq]. exists x. split_and!; [|done|done].
    apply (elem_of_insert_at _ _ _ _ _ Hi). right. apply list_elem_of_lookup in Hx as [j Hj].
    exists j. split; [|done]. intros ->. rewrite Hi in Hj. injection Hj as ->. done.
  - intros (x & Hx & Hp & Hh). apply (elem_of_insert_at _ _ _ _ _ Hi) in Hx as [->|(j & Hj & Hx)]; [done|].
    split; [exists x; split_and!; [by eapply list_elem_of_lookup_2|done|done]|].
    intros ->. apply Hj. symmetry. by eapply (pending_unique s i j st x); [| | |left|left|].
Qed.

Lemma poll_preserves s i st o :
  folded_ok s → fo_records s !! i = Some st → sa_status st = FoldedPending →
  folded_ok (store_attempt s i (with_poll st o)).
Proof.
  intros Hok Hi Hst. pose proof (fk_attempts _ Hok st (list_elem_of_lookup_2 _ _ _ Hi)) as Hat.
  eapply moves_preserve; [exact Hok|eapply insert_moves; [done|done|by apply poll_moves]|..].
  - intros h. cbn [fo_fence store_attempt]. rewrite (fk_reserved _ Hok). cbn. split.
    + intros (x & Hx & Hp & Hh). apply list_elem_of_lookup in Hx as [j Hj].
      destruct (decide (j = i)) as [->|Hne].
      * rewrite Hi in Hj. injection Hj as <-. exists (with_poll st o).
        split; [|done]. apply (elem_of_insert_at _ _ _ _ _ Hi). by left.
      * exists x. split; [|done]. apply (elem_of_insert_at _ _ _ _ _ Hi). right. by exists j.
    + intros (x & Hx & Hp & Hh).
      apply (elem_of_insert_at _ _ _ _ _ Hi) in Hx as [->|(j & _ & Hj)];
        [exists st|exists x]; (split; [by eapply list_elem_of_lookup_2|done]).
  - apply (fk_free _ Hok).
  - intros x Hx Hacc. apply (elem_of_insert_at _ _ _ _ _ Hi) in Hx as [->|(j & _ & Hj)].
    + unfold sa_status in *. cbn in Hacc. congruence.
    + apply (fk_accepted _ Hok); [by eapply list_elem_of_lookup_2|done].
Qed.

(** An attempt ends, and the reservation of its handle with it; an accepted one has
    its task. *)
Lemma ended_preserves s i st status now task f' :
  folded_ok s → fo_records s !! i = Some st → sa_status st = FoldedPending →
  status ≠ FoldedPending → (is_Some task ↔ status = FoldedAccepted) →
  folded_auth_reservations f' = folded_auth_reservations (fo_fence s) ∖ {[sa_handle st]} →
  (∀ x, x ∈ graph_subject <$> graph_records (fo_fence s) →
        x ∈ graph_subject <$> graph_records f') →
  (∀ h, h ∈ sg_handle <$> graph_records f' →
        h ∈ sg_handle <$> graph_records (fo_fence s) ∨ h = sa_handle st) →
  (∀ t, task = Some t → (t, sa_handle st) ∈ graph_subject <$> graph_records f') →
  folded_ok (MkFoldedState f'
    (<[i := terminalized st status now (now + FOLDED_AUTH_TOMBSTONE_TTL) task]> (fo_records s))).
Proof.
  intros Hok Hi Hst Hne Htask Hr Hkept Hnew Hhas.
  pose proof (fk_attempts _ Hok st (list_elem_of_lookup_2 _ _ _ Hi)) as Hat.
  eapply moves_preserve; [exact Hok|eapply insert_moves; [done|done|by apply end_moves]|..]; cbn.
  - rewrite Hr. by apply pending_write.
  - intros h. rewrite Hr, elem_of_difference, elem_of_singleton. intros [Hin Hneq] Hg.
    apply Hnew in Hg as [Hg|Hg]; [|done]. by apply (fk_free _ Hok h).
  - intros x Hx Hacc. apply (elem_of_insert_at _ _ _ _ _ Hi) in Hx as [->|(j & _ & Hj)].
    + destruct (proj2 Htask Hacc) as [t Ht]. exists t. split; [done|]. by apply Hhas.
    + eapply has_task_mono; [exact Hkept|]. apply (fk_accepted _ Hok); [by eapply list_elem_of_lookup_2|done].
Qed.

Lemma end_preserves s i st status now :
  folded_ok s → fo_records s !! i = Some st → sa_status st = FoldedPending →
  status = FoldedExpired ∨ status = FoldedRestartRequired →
  folded_ok (end_attempt s i (terminalize_attempt st status now (now + FOLDED_AUTH_TOMBSTONE_TTL))).
Proof.
  intros Hok Hi Hst Hs. pose proof (fk_attempts _ Hok st (list_elem_of_lookup_2 _ _ _ Hi)) as Hat.
  pose proof (pending_no_task st Hat Hst) as Hno. unfold end_attempt, terminalize_attempt. rewrite Hno.
  apply (ended_preserves s i st status now None); try done.
  - by destruct Hs as [->| ->].
  - split; [by intros []|by destruct Hs as [->| ->]].
  - by left.
Qed.

Lemma exact_pending_Some s hash generation i st :
  exact_pending s hash generation = Some (i, st) →
  fo_records s !! i = Some st ∧ sa_hash st = hash ∧ sa_generation st = generation
  ∧ sa_status st = FoldedPending.
Proof.
  intros Hf. apply find_first_Some in Hf as [Hi Hp]. by props.
Qed.

Lemma max_by_key_foldl {A} (key : A → Z) l best :
  match foldl (λ best x, match best with
                         | Some b => if key x <? key b then Some b else Some x
                         | None => Some x
                         end) best l with
  | Some b => (b ∈ l ∨ best = Some b) ∧ (∀ x, x ∈ l → key x ≤ key b)
              ∧ ∀ x, best = Some x → key x ≤ key b
  | None => l = [] ∧ best = None
  end.
Proof.
  revert best. induction l as [|x l IH]; intros best; cbn.
  { destruct best as [b|]; [|done]. split_and!; [by right|set_solver|intros x [= ->]; lia]. }
  match goal with |- context [foldl _ ?b l] => specialize (IH b); set (best' := b) in * end.
  destruct (foldl _ best' l) as [b|].
  - destruct IH as (Hin & Hl & Hb). subst best'.
    destruct best as [y|]; [destruct (key x <? key y) eqn:Hlt|]; cbn in *.
    + specialize (Hb y eq_refl) as Hby. split_and!; [set_solver| |].
      * intros z [->|Hz]%elem_of_cons; [lia|auto].
      * intros z [= ->]. done.
    + specialize (Hb x eq_refl) as Hbx. split_and!; [destruct Hin as [?|[= ->]]; set_solver| |].
      * intros z [->|Hz]%elem_of_cons; [lia|auto].
      * intros z [= ->]. lia.
    + specialize (Hb x eq_refl) as Hbx. split_and!; [destruct Hin as [?|[= ->]]; set_solver| |done].
      intros z [->|Hz]%elem_of_cons; [lia|auto].
  - destruct IH as [_ Hb]. subst best'. destruct best as [y|]; [by destruct (_ <? _)|done].
Qed.

Lemma max_by_key_spec {A} (key : A → Z) l :
  match max_by_key key l with
  | Some b => b ∈ l ∧ ∀ x, x ∈ l → key x ≤ key b
  | None => l = []
  end.
Proof.
  pose proof (max_by_key_foldl key l None) as Hm. unfold max_by_key.
  destruct (foldl _ None l) as [b|]; [|by destruct Hm].
  by destruct Hm as ([?|?] & ? & _).
Qed.

Lemma elem_of_imap_pair {A} (l : list A) i x : (i, x) ∈ imap pair l ↔ l !! i = Some x.
Proof.
  rewrite list_elem_of_lookup. setoid_rewrite list_lookup_imap. split.
  - intros [j Hj]. destruct (l !! j) as [y|] eqn:Hy; cbn in Hj; [|done]. by injection Hj as -> ->.
  - intros Hi. exists i. by rewrite Hi.
Qed.

Lemma latest_index_Some records h i st :
  latest_index records h = Some (i, st) →
  records !! i = Some st ∧ sa_handle st = h
  ∧ ∀ st', st' ∈ records → sa_handle st' = h → sa_generation st' ≤ sa_generation st.
Proof.
  intros Hl. unfold latest_index in Hl.
  match type of Hl with max_by_key ?k ?l = _ => pose proof (max_by_key_spec k l) as Hm end.
  rewrite Hl in Hm. destruct Hm as [Hin Hmax].
  apply list_elem_of_filter in Hin as [Hh Hin]. rewrite elem_of_imap_pair in Hin. props.
  split_and!; [done|done|]. intros st' [j Hj]%list_elem_of_lookup Hh'.
  apply (Hmax (j, st')), list_elem_of_filter. split; [by rewrite eqb_true|by rewrite elem_of_imap_pair].
Qed.

Lemma latest_index_None records h :
  latest_index records h = None → ∀ st, st ∈ records → sa_handle st ≠ h.
Proof.
  intros Hl st [j Hj]%list_elem_of_lookup Hh. unfold latest_index in Hl.
  match type of Hl with max_by_key ?k ?l = _ => pose proof (max_by_key_spec k l) as Hm end.
  rewrite Hl in Hm. apply (not_elem_of_nil (j, st)). rewrite <- Hm.
  apply list_elem_of_filter. split; [by rewrite eqb_true|by rewrite elem_of_imap_pair].
Qed.

(** A new attempt, of a higher generation than all others of its handle, none of
    which is alive. *)
Lemma push_preserves s st :
  folded_ok s → attempt_ok st → sa_status st = FoldedPending →
  sa_hash st ∉ sa_hash <$> fo_records s →
  (∀ x, x ∈ fo_records s → sa_handle x = sa_handle st →
        sa_generation x < sa_generation st ∧ ¬ live_attempt x) →
  sa_handle st ∉ sg_handle <$> graph_records (fo_fence s) →
  folded_ok (MkFoldedState (reserve_folded_auth (fo_fence s) (sa_handle st)) (fo_records s ++ [st])).
Proof.
  intros [Hh Hk Ha Hl Hr Hf Hacc] Hok Hst Hfresh Hnew Hfree.
  split; cbn; rewrite ?fmap_app; cbn.
  - apply NoDup_app. split_and!; [done| |apply NoDup_singleton].
    intros x Hx ->%list_elem_of_singleton. done.
  - apply NoDup_app. split_and!; [done| |apply NoDup_singleton].
    intros x (y & -> & Hy)%list_elem_of_fmap Hx%list_elem_of_singleton.
    pose proof (f_equal fst Hx : sa_handle _ = sa_handle _) as H1.
    pose proof (f_equal snd Hx : sa_generation _ = sa_generation _) as H2.
    destruct (Hnew y Hy H1). lia.
  - intros x [Hx| ->%list_elem_of_singleton]%elem_of_app; auto.
  - intros x y [Hx| ->%list_elem_of_singleton]%elem_of_app
               [Hy| ->%list_elem_of_singleton]%elem_of_app Hlive Heq.
    + auto.
    + by destruct (Hnew x Hx (eq_sym Heq)).
    + destruct (Hnew y Hy Heq). lia.
    + lia.
  - intros h. rewrite elem_of_union, elem_of_singleton, Hr. split.
    + intros [->|(x & Hx & Hp & Hxh)].
      * exists st. split_and!; [set_solver|done|done].
      * exists x. split_and!; [set_solver|done|done].
    + intros (x & [Hx| ->%list_elem_of_singleton]%elem_of_app & Hp & Hxh); [right; by eauto|by left].
  - intros h. rewrite elem_of_union, elem_of_singleton. intros [->|Hin]; [done|by apply Hf].
  - intros x [Hx| ->%list_elem_of_singleton]%elem_of_app Hx'; [by apply Hacc|congruence].
Qed.
