(* ===== verification/FoldedSteps.v ===== *)
(** Histories of folded attempts: what each operation does, and that the invariant of
    [FoldedInv] holds along every interleaving of the operations with those of the
    other repositories on the same fence. *)

From S2P Require Import Prelude RustStr Externals Ids Json LockPolicy Wire Errors.
From S2P Require Import GraphTask Fence GraphStore PaymentStore FoldedAuth FoldedStore FoldedInv.
From S2P Require Secrets.

Section operations.
  Context `{Base32, TimeLaws, Base64Url, Aead, PlaintextJson}.
  Context (cipher_key : bytes).

Lemma checked_purge_after_Ok now t :
  checked_purge_after now = Ok t → t = now + FOLDED_AUTH_TOMBSTONE_TTL.
Proof. intros Ht%ok_or_Ok. by apply time_checked_add_exact in Ht. Qed.

Lemma has_graph_task_false f h :
  has_graph_task_by_handle f h = false ↔ h ∉ sg_handle <$> graph_records f.
Proof.
  unfold has_graph_task_by_handle. rewrite existsb_false, list_elem_of_fmap. split.
  - intros Hn (g & -> & Hg). specialize (Hn g Hg). by rewrite eqb_same in Hn.
  - intros Hn g Hg. apply eqb_false. intros Heq. apply Hn. by exists g.
Qed.

Lemma rotation_Ok latest request now generation prev disposition :
  rotation latest request now = Ok (generation, prev, disposition) →
  fa_status latest ≠ FoldedAccepted ∧ generation = fa_generation latest + 1
  ∧ exact_request_matches latest request = true
  ∧ (fa_status latest = FoldedPending
       ∧ prev = Some (if fa_expires_at latest <=? now then FoldedExpired else FoldedRestartRequired,
                      now + FOLDED_AUTH_TOMBSTONE_TTL)
     ∨ fa_status latest ≠ FoldedPending ∧ prev = None).
Proof.
  intros ([] & Hrej & (g & Hg & Hr)%bind_Ok)%bind_Ok. apply reject_if_Ok in Hrej.
  apply ok_or_Ok, checked_add_Some in Hg as [-> _]. apply orb_false_iff in Hrej as [Hm Ha].
  apply negb_false_iff in Hm. apply eqb_false in Ha.
  destruct (fa_status latest == FoldedPending) eqn:Hp.
  - rewrite eqb_true in Hp. apply bind_Ok in Hr as (p & ->%checked_purge_after_Ok & Hr).
    destruct (fa_expires_at latest <=? now); injection Hr as <- <- _; (split_and!; [congruence|done|done|by left]).
  - apply eqb_false in Hp. injection Hr as <- <- _. split_and!; [done|done|done|by right].
Qed.

(** What a successful start does. *)
Record started (s : FoldedState) (request : StartFoldedAuthAttempt) (now : OffsetDateTime)
    (result : FoldedAuthStartResult) (s' : FoldedState) : Prop := {
  std_valid : sf_validate request = Ok ();
  std_free : (sf_creator request, sf_bundle_id request) ∉ sg_handle <$> graph_records (fo_fence s);
  std_attempt : ∃ generation, fsr_attempt result
    = started_attempt request generation now (now + FOLDED_AUTH_TTL)
    ∧ ∀ st, st ∈ fo_records s → sa_handle st = (sf_creator request, sf_bundle_id request) →
        sa_generation st < generation ∧ sa_status st ≠ FoldedAccepted;
  std_records : ∃ records encrypted,
    s' = MkFoldedState
           (reserve_folded_auth (fo_fence s) (sf_creator request, sf_bundle_id request))
           (records ++ [MkStoredAttempt (fsr_attempt result) (Some encrypted) None])
    ∧ (records = fo_records s
       ∧ (∀ st, st ∈ fo_records s → sa_handle st = (sf_creator request, sf_bundle_id request) →
            sa_status st ≠ FoldedPending)
       ∨ ∃ i st status, fo_records s !! i = Some st ∧ sa_status st = FoldedPending
         ∧ sa_handle st = (sf_creator request, sf_bundle_id request)
         ∧ (status = FoldedExpired ∨ status = FoldedRestartRequired)
         ∧ records = <[i := terminalize_attempt st status now (now + FOLDED_AUTH_TOMBSTONE_TTL)]>
                       (fo_records s));
}.

(** A live attempt is the latest of its handle. *)
Lemma live_is_latest s i st x :
  folded_ok s → fo_records s !! i = Some st → x ∈ fo_records s → sa_handle x = sa_handle st →
  sa_generation x ≤ sa_generation st → live_attempt x → x = st.
Proof.
  intros Hok Hi Hx Hh Hle Hlive.
  assert (sa_generation st ≤ sa_generation x)
    by (apply (fk_latest _ Hok x st); [done|by eapply list_elem_of_lookup_2|done|done]).
  apply list_elem_of_lookup in Hx as [j Hj]. assert (j = i) as ->; [|congruence].
  eapply NoDup_lookup; [exact (fk_keys _ Hok)| |]; rewrite list_lookup_fmap; [by rewrite Hj|].
  rewrite Hi. cbn. unfold sa_key. do 2 f_equal; [done|lia].
Qed.

Lemma start_or_rotate_Ok s request now nonce result s' :
  folded_ok s → start_or_rotate cipher_key s request now nonce = Ok (result, s') →
  started s request now result s'.
Proof.
  intros Hok Hs. unfold start_or_rotate in Hs. set (h := (sf_creator request, sf_bundle_id request)) in *.
  apply bind_Ok in Hs as ([] & Hval%map_err_Ok & Hs). apply bind_Ok in Hs as ([] & Hfree & Hs).
  apply reject_if_Ok, has_graph_task_false in Hfree.
  apply bind_Ok in Hs as (e & ->%ok_or_Ok%time_checked_add_exact & Hs).
  apply bind_Ok in Hs as ([] & _ & Hs).
  destruct (latest_index (fo_records s) h) as [[i st]|] eqn:Hl.
  - apply latest_index_Some in Hl as (Hi & Hh & Hmax).
    apply bind_Ok in Hs as ([[g prev] d] & Hrot & (enc & _ & [= <- <-])%bind_Ok).
    apply rotation_Ok in Hrot as (Hna & -> & _ & Hprev).
    assert (Hlatest : ∀ x, x ∈ fo_records s → sa_handle x = h → live_attempt x → x = st).
    { intros x Hx Hxh. eapply live_is_latest; [done|done|done|congruence|by apply Hmax]. }
    split; [done|done| |]; cbn [fsr_attempt].
    + eexists. split; [done|]. intros x Hx Hxh. specialize (Hmax x Hx Hxh).
      unfold sa_generation in *. split; [lia|]. intros Hacc.
      rewrite (Hlatest x Hx Hxh (or_intror Hacc)) in Hacc. done.
    + destruct Hprev as [[Hp ->]|[Hnp ->]].
      * eexists _, enc. split; [done|]. right. eexists i, st, _.
        split_and!; [done|done|done| |done]. by destruct (_ <=? _); [left|right].
      * exists (fo_records s), enc. split; [done|]. left. split; [done|]. intros x Hx Hxh Hxp.
        rewrite (Hlatest x Hx Hxh (or_introl Hxp)) in Hxp. done.
  - pose proof (latest_index_None _ _ Hl) as Hno.
    rewrite bind_of_Ok in Hs. apply bind_Ok in Hs as (enc & _ & [= <- <-]). cbn.
    split; [done|done| |].
    + exists 1. split; [done|]. intros x Hx Hxh. by destruct (Hno x Hx).
    + cbn. exists (fo_records s), enc. split; [done|]. left. split; [done|].
      intros x Hx Hxh. by destruct (Hno x Hx).
Qed.

(** A reservation that is released and taken again. *)
Lemma reserve_again f h :
  reserve_folded_auth (release_folded_auth_reservation f h) h = reserve_folded_auth f h.
Proof.
  unfold reserve_folded_auth, release_folded_auth_reservation, fence_with_reservations. cbn. f_equal.
  apply leibniz_equiv. intros x. destruct (decide (x = h)); set_solver.
Qed.

Lemma start_preserves s request now nonce result s' :
  folded_ok s → start_or_rotate cipher_key s request now nonce = Ok (result, s') → folded_ok s'.
Proof.
  intros Hok Hs. assert (Hfresh : sf_state_hash request ∉ sa_hash <$> fo_records s).
  { unfold start_or_rotate in Hs. do 3 (apply bind_Ok in Hs as (? & _ & Hs)).
    apply bind_Ok in Hs as ([] & Hh & _). apply reject_if_Ok in Hh. rewrite existsb_false in Hh.
    intros (y & Heq & Hy)%list_elem_of_fmap. specialize (Hh y Hy). cbn in Hh.
    by rewrite Heq, eqb_same in Hh. }
  apply start_or_rotate_Ok in Hs as [_ Hfree (g & Hatt & Hold) (records & enc & -> & Hrec)]; [|done].
  rewrite Hatt.
  set (new := MkStoredAttempt (started_attempt request g now (now + FOLDED_AUTH_TTL)) (Some enc) None).
  assert (Hnew : attempt_ok new) by (split_and!; [done|done|]; cbn; split_and!; [by eauto|done..]).
  destruct Hrec as [[-> Hnp]|(i & st & status & Hi & Hst & Hh & Hstatus & ->)].
  - apply (push_preserves s new); [done|done|done|done| |done].
    intros x Hx Hxh. destruct (Hold x Hx Hxh) as [Hg Hna]. split; [done|].
    intros [Hp|Ha]; [by apply (Hnp x)|done].
  - set (h := (sf_creator request, sf_bundle_id request)) in *.
    pose proof (end_preserves s i st status now Hok Hi Hst Hstatus) as Hok'.
    unfold end_attempt in Hok'. set (ended := terminalize_attempt _ _ _ _) in *.
    pose proof (push_preserves _ new Hok' Hnew eq_refl) as Hp.
    change (sa_handle ended) with (sa_handle st) in *. rewrite Hh in *.
    change (sa_handle new) with h in *. cbn [fo_fence fo_records] in Hp.
    rewrite reserve_again in Hp. apply Hp; [|..|done].
    + rewrite list_fmap_insert. change (sa_hash ended) with (sa_hash st).
      rewrite list_insert_id; [done|]. by rewrite list_lookup_fmap, Hi.
    + intros x Hx Hxh. apply (elem_of_insert_at _ _ _ _ _ Hi) in Hx as [->|(j & Hne & Hj)].
      * destruct (Hold st) as [Hg _]; [by eapply list_elem_of_lookup_2|done|]. split; [exact Hg|].
        by destruct Hstatus as [->| ->]; intros [|].
      * destruct (Hold x) as [Hg Hna]; [by eapply list_elem_of_lookup_2|done|]. split; [done|].
        intros Hlive. apply Hne. symmetry.
        eapply (pending_unique s i j st x); [done|done|done|by left|done|by rewrite Hh].
Qed.

(** What a successful acceptance does. *)
Lemma accept_Ok s hash generation task_id reader now o s' :
  folded_ok s → accept_and_insert_graph_task s hash generation task_id reader now = Ok (o, s') →
  (o = None ∧ s' = s)
  ∨ ∃ i st, exact_pending s hash generation = Some (i, st)
     ∧ (o = None ∧ fa_expires_at (sa_attempt st) ≤ now
        ∧ s' = end_attempt s i (terminalize_attempt st FoldedExpired now
                                  (now + FOLDED_AUTH_TOMBSTONE_TTL))
        ∨ ∃ task f', o = Some task ∧ now < fa_expires_at (sa_attempt st)
          ∧ attempt_graph_task (sa_attempt st) task_id reader now = Ok task
          ∧ insert_graph_task_under_admission (fo_fence s) task (λ _, Ok ()) true = Ok (task, f')
          ∧ has_graph_task_by_handle (fo_fence s) (gt_handle task) = false
          ∧ s' = MkFoldedState f'
                   (<[i := terminalized st FoldedAccepted now (now + FOLDED_AUTH_TOMBSTONE_TTL)
                             (Some (gt_task_id task))]> (fo_records s))).
Proof.
  intros Hok Ha. unfold accept_and_insert_graph_task in Ha.
  destruct (exact_pending s hash generation) as [[i st]|] eqn:Hp; [|injection Ha as <- <-; by left].
  right. exists i, st. split; [done|]. apply exact_pending_Some in Hp as (Hi & _ & _ & Hst).
  destruct (fa_expires_at (sa_attempt st) <=? now) eqn:He.
  { left. apply bind_Ok in Ha as (p & ->%checked_purge_after_Ok & [= <- <-]).
    split_and!; [done|lia|done]. }
  right. apply bind_Ok in Ha as (task & Htask%map_err_Ok & Ha).
  apply bind_Ok in Ha as (p & ->%checked_purge_after_Ok & Ha).
  apply bind_Ok in Ha as ([inserted f'] & Hins & [= <- <-]).
  assert (Hfree : has_graph_task_by_handle (fo_fence s) (gt_handle task) = false).
  { apply has_graph_task_false, (fk_free _ Hok). apply insert_Ok in Hins as [Hres _]. by apply Hres. }
  pose proof (insert_Ok _ _ _ _ _ _ Hins) as [_ [[Hc _]|(_ & -> & _)]]; [congruence|].
  exists task, f'. rewrite Hfree. split_and!; [done|lia|done|done|done|done].
Qed.

Lemma attempt_graph_task_Ok a task_id reader now task :
  attempt_graph_task a task_id reader now = Ok task →
  gt_task_id task = task_id ∧ gt_handle task = fa_handle a ∧ gt_status task = Pending
  ∧ gs_pubky_lock_resource (gt_snapshot task) = fa_pubky_lock_resource a
  ∧ gs_lock_hash (gt_snapshot task) = fa_lock_hash a
  ∧ gs_reader (gt_snapshot task) = reader ∧ gs_accepted_at (gt_snapshot task) = now
  ∧ gs_deadline_at (gt_snapshot task) = now + seconds (fa_verification_window_seconds a)
  ∧ gs_operator (gt_snapshot task) = gp_operator (fa_graph a)
  ∧ ps_predicate <$> gs_predicates (gt_snapshot task) = gp_predicates (fa_graph a)
  ∧ GraphTaskSnapshotV1_validate (gt_snapshot task) = Ok ().
Proof.
  intros (sn & Hsn & [= <-])%bind_Ok. unfold GraphTaskSnapshotV1_new in Hsn.
  apply bind_Ok in Hsn as ([] & _ & Hsn). apply bind_Ok in Hsn as (w & Hw%ok_or_Ok & Hsn).
  apply bind_Ok in Hsn as (d & Hd%ok_or_Ok & Hsn). apply bind_Ok in Hsn as ([] & Hv & [= <-]).
  apply time_checked_add_exact in Hd. split_match in Hw; [|done]. injection Hw as <-. cbn.
  split_and!; try done. rewrite <- list_fmap_compose. by apply list_fmap_id.
Qed.

Lemma accept_preserves s hash generation task_id reader now o s' :
  folded_ok s → accept_and_insert_graph_task s hash generation task_id reader now = Ok (o, s') →
  folded_ok s'.
Proof.
  intros Hok Ha. apply accept_Ok in Ha as [[_ ->] | (i & st & Hp & Ha)]; [done| |done].
  apply exact_pending_Some in Hp as (Hi & _ & _ & Hst).
  destruct Ha as [(_ & _ & ->) | (task & f' & -> & _ & Htask & Hins & Hfree & ->)].
  { by apply end_preserves; [..|left]. }
  apply attempt_graph_task_Ok in Htask as (_ & Hh & _).
  apply insert_Ok in Hins as [_ [[Hc _]|(_ & _ & Hrec & Hr)]]; [congruence|].
  apply (ended_preserves s i st FoldedAccepted now (Some (gt_task_id task)) f');
    [done|done|done|done|done|by rewrite Hr, Hh|..]; rewrite Hrec, fmap_app; cbn.
  - set_solver.
  - intros h. rewrite elem_of_app, list_elem_of_singleton. intros [?| ->]; [by left|right]. exact Hh.
  - intros t [= <-]. rewrite elem_of_app, list_elem_of_singleton. right.
    change (graph_subject _) with (gt_task_id task, gt_handle task). by rewrite Hh.
Qed.

(** ** The sweep *)

Definition sweep_one (now p : OffsetDateTime) (st : StoredAttempt) : StoredAttempt :=
  default st (swept st now p).

Lemma sweep_spec f l now p :
  (sweep f l now p).2 = sweep_one now p <$> l
  ∧ graph_records (sweep f l now p).1 = graph_records f
  ∧ ∀ h, h ∈ folded_auth_reservations (sweep f l now p).1 ↔
         h ∈ folded_auth_reservations f
         ∧ ∀ st, st ∈ l → is_Some (swept st now p) → sa_handle st ≠ h.
Proof.
  revert f. induction l as [|st l IH]; intros f; cbn [sweep].
  { split_and!; [done|done|]. intros h. split; [|by intros []]. intros Hh. split; [done|]. set_solver. }
  destruct (swept st now p) as [st'|] eqn:Hs.
  - destruct (IH (release_folded_auth_reservation f (sa_handle st))) as (Hl2 & Hg & Hr).
    destruct (sweep _ l now p) as [f' l']. cbn in *. split_and!; [|done|].
    + unfold sweep_one at 1. by rewrite Hs, Hl2.
    + intros h. rewrite Hr. setoid_rewrite elem_of_cons. rewrite elem_of_difference, elem_of_singleton.
      split.
      * intros [[Hin Hne] Hl]. split; [done|]. intros x [-> | Hx]; [by intros _ ?|auto].
      * intros [Hin Hl]. split; [split; [done|]|auto].
        intros ->. apply (Hl st); [by left|by rewrite Hs|done].
  - destruct (IH f) as (Hl2 & Hg & Hr). destruct (sweep f l now p) as [f' l']. cbn in *.
    split_and!; [|done|].
    + unfold sweep_one at 1. by rewrite Hs, Hl2.
    + intros h. rewrite Hr. setoid_rewrite elem_of_cons. split; intros [Hin Hl]; (split; [done|auto]).
      intros x [-> | Hx]; [rewrite Hs; by intros []|auto].
Qed.

Lemma swept_Some st now st' :
  swept st now (now + FOLDED_AUTH_TOMBSTONE_TTL) = Some st' →
  sa_status st = FoldedPending ∧ ∃ status, (status = FoldedExpired ∨ status = FoldedRestartRequired)
    ∧ st' = terminalize_attempt st status now (now + FOLDED_AUTH_TOMBSTONE_TTL).
Proof.
  unfold swept. intros Hs. destruct (sa_status st == FoldedPending) eqn:Hp; [|done].
  rewrite eqb_true in Hp. split; [done|].
  destruct (_ <=? now); [injection Hs as <-; by eauto|].
  destruct (abandoned st now); [injection Hs as <-; by eauto|done].
Qed.

Lemma sweep_one_moves st now :
  attempt_ok st → attempt_moves st (sweep_one now (now + FOLDED_AUTH_TOMBSTONE_TTL) st).
Proof.
  intros Hok. unfold sweep_one. destruct (swept st now _) as [st'|] eqn:Hs; cbn; [|by split].
  apply swept_Some in Hs as (Hp & status & Hs & ->). unfold terminalize_attempt.
  rewrite (pending_no_task st Hok Hp).
  by apply end_moves; [..|split; [by intros []|]]; try done; destruct Hs as [->| ->].
Qed.

Lemma sweep_one_cases st now :
  attempt_ok st →
  let st' := sweep_one now (now + FOLDED_AUTH_TOMBSTONE_TTL) st in
  swept st now (now + FOLDED_AUTH_TOMBSTONE_TTL) = None ∧ st' = st
  ∨ is_Some (swept st now (now + FOLDED_AUTH_TOMBSTONE_TTL)) ∧ sa_status st = FoldedPending
    ∧ sa_handle st' = sa_handle st ∧ (sa_status st' = FoldedExpired ∨ sa_status st' = FoldedRestartRequired).
Proof.
  intros Hok. unfold sweep_one. destruct (swept st now _) as [st'|] eqn:Hs; cbn; [|by left].
  right. apply swept_Some in Hs as (Hp & status & Hs & ->). split_and!; [by eauto|done|done|exact Hs].
Qed.

Lemma NoDup_fmap_filter {A B} (f : A → B) (P : A → Prop) `{∀ x, Decision (P x)} l :
  NoDup (f <$> l) → NoDup (f <$> filter P l).
Proof.
  induction l as [|x l IH]; intros Hn; [done|]. cbn in Hn. apply NoDup_cons in Hn as [Hx Hn].
  rewrite filter_cons. case_decide; [|auto]. cbn. apply NoDup_cons. split; [|auto].
  intros (y & Heq & [_ Hy]%list_elem_of_filter)%list_elem_of_fmap.
  apply Hx, list_elem_of_fmap. by exists y.
Qed.

(** Records that have ended are dropped. *)
Lemma filter_preserves s (P : StoredAttempt → Prop) `{∀ st, Decision (P st)} :
  folded_ok s → (∀ st, sa_status st = FoldedPending → P st) →
  folded_ok (MkFoldedState (fo_fence s) (filter P (fo_records s))).
Proof.
  intros [Hh Hk Ha Hl Hr Hf Hacc] Hkeep.
  split; cbn; [by apply NoDup_fmap_filter|by apply NoDup_fmap_filter|..|done|].
  - intros st [_ Hin]%list_elem_of_filter. auto.
  - intros st st' [_ Hin]%list_elem_of_filter [_ Hin']%list_elem_of_filter. auto.
  - intros h. rewrite Hr. split; intros (st & Hin & Hp & Hs); exists st;
      rewrite list_elem_of_filter in *; naive_solver.
  - intros st [_ Hin]%list_elem_of_filter. auto.
Qed.

Lemma sweep_preserves s now f l :
  folded_ok s →
  sweep (fo_fence s) (fo_records s) now (now + FOLDED_AUTH_TOMBSTONE_TTL) = (f, l) →
  folded_ok (MkFoldedState f l).
Proof.
  intros Hok Hs.
  destruct (sweep_spec (fo_fence s) (fo_records s) now (now + FOLDED_AUTH_TOMBSTONE_TTL))
    as (Hl & Hg & Hr).
  rewrite Hs in *. cbn [fst snd] in *. subst l.
  eapply moves_preserve; [exact Hok|..]; cbn.
  - apply Forall2_fmap_r, Forall_Forall2_diag, Forall_forall. intros st Hst.
    by apply sweep_one_moves, (fk_attempts _ Hok).
  - intros h. rewrite Hr, (fk_reserved _ Hok). split.
    + intros [(st & Hst & Hp & Hh) Hno]. exists st. split_and!; [|done|done].
      apply list_elem_of_fmap. exists st. split; [|done].
      destruct (sweep_one_cases st now (fk_attempts _ Hok _ Hst)) as [[_ ->]|[Hsw _]]; [done|].
      by destruct (Hno st Hst Hsw).
    + intros (x & (st & -> & Hst)%list_elem_of_fmap & Hp & Hh).
      destruct (sweep_one_cases st now (fk_attempts _ Hok _ Hst)) as [[Hn Heq]|(_ & _ & _ & [Hx|Hx])];
        [|congruence..]. rewrite Heq in *. split; [by eauto|].
      intros y Hy Hsw Hyh. apply list_elem_of_lookup in Hst as [i Hi].
      apply list_elem_of_lookup in Hy as [j Hj].
      assert (sa_status y = FoldedPending).
      { destruct Hsw as [y' Hsw]. by apply swept_Some in Hsw as [? _]. }
      assert (i = j) as -> by (eapply (pending_unique s i j st y); [done|done|done|by left|by left|congruence]).
      rewrite Hi in Hj. injection Hj as ->. rewrite Hn in Hsw. by destruct Hsw.
  - intros h [Hin _]%Hr. rewrite Hg. by apply (fk_free _ Hok).
  - intros x (st & -> & Hst)%list_elem_of_fmap Hx.
    destruct (sweep_one_cases st now (fk_attempts _ Hok _ Hst)) as [[_ Heq]|(_ & _ & _ & [Hx'|Hx'])];
      [|congruence..]. rewrite Heq in *.
    eapply has_task_mono; [|by apply (fk_accepted _ Hok)]. cbn. by rewrite Hg.
Qed.

Lemma purge_Ok s now n s' :
  purge_terminal_before s now = Ok (n, s') →
  ∃ f l, sweep (fo_fence s) (fo_records s) now (now + FOLDED_AUTH_TOMBSTONE_TTL) = (f, l)
    ∧ s' = MkFoldedState f (filter (λ st, retained now st = true) l)
    ∧ n = Z.of_nat (length l) - Z.of_nat (length (fo_records s')).
Proof.
  intros Hp. apply bind_Ok in Hp as (p & ->%checked_purge_after_Ok & Hp).
  destruct (sweep _ _ _ _) as [f l] eqn:Hs. injection Hp as <- <-. by exists f, l.
Qed.

Lemma purge_preserves s now n s' :
  folded_ok s → purge_terminal_before s now = Ok (n, s') → folded_ok s'.
Proof.
  intros Hok (f & l & Hs & -> & _)%purge_Ok.
  apply (filter_preserves (MkFoldedState f l)); [by eapply sweep_preserves|].
  intros st Hst. unfold retained. by rewrite Hst.
Qed.

(** ** Histories *)

(** One step: an operation of the repository that succeeds, whatever its arguments,
    its clock reading and the 24 random bytes of its nonce, or one of the others on
    the fence. *)
Inductive folded_step : FoldedState → FoldedState → Prop :=
  | fstep_start s request now nonce r s' :
      Z.of_nat (length nonce) = 24 → start_or_rotate cipher_key s request now nonce = Ok (r, s') → folded_step s s'
  | fstep_mark s hash generation now :
      folded_step s (mark_poll_dispatched s hash generation now).2
  | fstep_renew s hash generation now :
      folded_step s (renew_poll_dispatch s hash generation now).2
  | fstep_not_attempted s hash generation :
      folded_step s (confirm_not_attempted s hash generation).2
  | fstep_confirm s hash generation now r s' :
      confirm_pending_generation s hash generation now = Ok (r, s') → folded_step s s'
  | fstep_restart s hash generation now r s' :
      require_restart s hash generation now = Ok (r, s') → folded_step s s'
  | fstep_expire s hash generation now r s' :
      expire_attempt s hash generation now = Ok (r, s') → folded_step s s'
  | fstep_accept s hash generation task_id reader now r s' :
      accept_and_insert_graph_task s hash generation task_id reader now = Ok (r, s') →
      folded_step s s'
  | fstep_purge s now n s' : purge_terminal_before s now = Ok (n, s') → folded_step s s'
  | fstep_other s p p' :
      pr_fence p = fo_fence s → other_step p p' →
      folded_step s (MkFoldedState (pr_fence p') (fo_records s)).

Lemma mark_preserves s hash generation now :
  folded_ok s → folded_ok (mark_poll_dispatched s hash generation now).2.
Proof.
  intros Hok. unfold mark_poll_dispatched. destruct (exact_pending _ _ _) as [[i st]|] eqn:Hp; [|done].
  apply exact_pending_Some in Hp as (Hi & _ & _ & Hst).
  destruct (fa_poll_dispatched _); [done|by apply poll_preserves].
Qed.

Lemma renew_preserves s hash generation now :
  folded_ok s → folded_ok (renew_poll_dispatch s hash generation now).2.
Proof.
  intros Hok. unfold renew_poll_dispatch. destruct (exact_pending _ _ _) as [[i st]|] eqn:Hp; [|done].
  apply exact_pending_Some in Hp as (Hi & _ & _ & Hst).
  destruct (negb _); [done|by apply poll_preserves].
Qed.

Lemma not_attempted_preserves s hash generation :
  folded_ok s → folded_ok (confirm_not_attempted s hash generation).2.
Proof.
  intros Hok. unfold confirm_not_attempted. destruct (exact_pending _ _ _) as [[i st]|] eqn:Hp; [|done].
  apply exact_pending_Some in Hp as (Hi & _ & _ & Hst).
  destruct (negb _); [done|by apply poll_preserves].
Qed.

Lemma confirm_preserves s hash generation now r s' :
  folded_ok s → confirm_pending_generation s hash generation now = Ok (r, s') → folded_ok s'.
Proof.
  intros Hok Hc. unfold confirm_pending_generation in Hc.
  destruct (exact_pending _ _ _) as [[i st]|] eqn:Hp; [|by injection Hc as _ <-].
  apply exact_pending_Some in Hp as (Hi & _ & _ & Hst).
  destruct (_ <=? now); [|injection Hc as _ <-; by apply poll_preserves].
  apply bind_Ok in Hc as (p & ->%checked_purge_after_Ok & [= _ <-]).
  by apply end_preserves; [..|left].
Qed.

Lemma restart_preserves s hash generation now r s' :
  folded_ok s → require_restart s hash generation now = Ok (r, s') → folded_ok s'.
Proof.
  intros Hok Hc. unfold require_restart in Hc.
  destruct (exact_pending _ _ _) as [[i st]|] eqn:Hp; [|by injection Hc as _ <-].
  apply exact_pending_Some in Hp as (Hi & _ & _ & Hst).
  apply bind_Ok in Hc as (p & ->%checked_purge_after_Ok & [= _ <-]).
  apply end_preserves; [done..|]. destruct (_ <=? now); [by left|by right].
Qed.

Lemma expire_preserves s hash generation now r s' :
  folded_ok s → expire_attempt s hash generation now = Ok (r, s') → folded_ok s'.
Proof.
  intros Hok Hc. unfold expire_attempt in Hc.
  destruct (exact_pending _ _ _) as [[i st]|] eqn:Hp; [|by injection Hc as _ <-].
  apply exact_pending_Some in Hp as (Hi & _ & _ & Hst).
  destruct (now <? _); [by injection Hc as _ <-|].
  apply bind_Ok in Hc as (p & ->%checked_purge_after_Ok & [= _ <-]).
  by apply end_preserves; [..|left].
Qed.

Lemma step_preserves s s' : folded_step s s' → folded_ok s → folded_ok s'.
Proof.
  intros Hstep Hok. destruct Hstep.
  - by eapply start_preserves.
  - by apply mark_preserves.
  - by apply renew_preserves.
  - by apply not_attempted_preserves.
  - by eapply confirm_preserves.
  - by eapply restart_preserves.
  - by eapply expire_preserves.
  - by eapply accept_preserves.
  - by eapply purge_preserves.
  - apply frame_preserves; [done|]. match goal with H : pr_fence _ = _ |- _ => rewrite <- H end.
    by apply other_step_frame.
Qed.

Definition folded_reachable (s : FoldedState) : Prop :=
  ∃ f, folded_auth_reservations f = ∅ ∧ rtc folded_step (FoldedState_new f) s.

Lemma folded_reachable_ok s : folded_reachable s → folded_ok s.
Proof.
  intros (f & Hf & Hr). pose proof (folded_ok_new f Hf) as Hok.
  induction Hr as [|s1 s2 s3 Hs _ IH]; [done|]. by eapply IH, step_preserves.
Qed.

(** C21: In every history in which the operations on folded attempts interleave with graph and
    payment tasks on the shared fence: hashes and generations of a handle are never
    used twice; a handle is reserved exactly while an attempt of it is pending, and then
    no graph task has it; only the latest attempt of a handle can be pending or accepted;
    an accepted attempt's task is stored; a secret is kept exactly as long as its attempt is
    pending, and an attempt that has ended knows when it may be removed. *)
Theorem folded_invariant s : folded_reachable s → folded_ok s.
Proof. apply folded_reachable_ok. Qed.

End operations.
