(* ===== verification/FoldedSafe.v ===== *)
(** What histories of folded attempts guarantee: flow secrets stay readable, an
    accepted attempt settles its handle for good, and the cleanup is exact. *)

From S2P Require Import Prelude RustStr Externals Ids Json LockPolicy Wire Errors.
From S2P Require Import GraphTask Fence GraphStore PaymentStore FoldedAuth FoldedStore.
From S2P Require Import FoldedInv FoldedSteps.
From S2P Require Secrets.

(** * The envelope of a flow secret *)

Record folded_context_ok (c : FoldedAuthSecretContext) : Prop := {
  fx_generation : 0 ≤ fsc_generation c ≤ U64_MAX;
  fx_creator : Secrets.field_fits (Secrets.as_bytes (CreatorPubky_str (fsc_creator c)));
  fx_bundle : Secrets.field_fits (Secrets.as_bytes (BundleId_as_str (fsc_bundle_id c)));
  fx_resource :
    Secrets.field_fits (Secrets.as_bytes (PubkyLockResource_display (fsc_pubky_lock_resource c)));
  fx_hash : Secrets.field_fits (LockHash_as_bytes (fsc_lock_hash c));
}.

Definition folded_context_fields (c : FoldedAuthSecretContext) : list bytes :=
  [Secrets.as_bytes FOLDED_AAD_DOMAIN; [Secrets.byte_of 1];
   Secrets.as_bytes (CreatorPubky_display (fsc_creator c));
   Secrets.as_bytes (BundleId_display (fsc_bundle_id c));
   Secrets.be_bytes 8 (fsc_generation c);
   Secrets.as_bytes (PubkyLockResource_display (fsc_pubky_lock_resource c));
   LockHash_as_bytes (fsc_lock_hash c)].

Lemma folded_data_frames c :
  folded_associated_data c = Secrets.frames (folded_context_fields c).
Proof. apply (Secrets.foldl_append [] (folded_context_fields c)). Qed.

(** The associated data tells apart everything but, in the resource, what its display
    form does not. *)
Lemma folded_data_inj c c' :
  folded_context_ok c → folded_context_ok c' → folded_associated_data c = folded_associated_data c' →
  fsc_creator c = fsc_creator c' ∧ fsc_bundle_id c = fsc_bundle_id c'
  ∧ fsc_generation c = fsc_generation c'
  ∧ PubkyLockResource_display (fsc_pubky_lock_resource c)
    = PubkyLockResource_display (fsc_pubky_lock_resource c')
  ∧ LockHash_as_bytes (fsc_lock_hash c) = LockHash_as_bytes (fsc_lock_hash c').
Proof.
  intros Hok Hok' Heq. rewrite !folded_data_frames in Heq.
  apply Secrets.frames_inj in Heq;
    [|destruct Hok; by repeat constructor|destruct Hok'; by repeat constructor].
  pose proof (Secrets.as_bytes_inj _ _ (f_equal (λ l, default [] (l !! 2%nat)) Heq)) as H2.
  pose proof (Secrets.as_bytes_inj _ _ (f_equal (λ l, default [] (l !! 3%nat)) Heq)) as H3.
  pose proof (f_equal (λ l, default [] (l !! 4%nat)) Heq
    : Secrets.be_bytes 8 (fsc_generation c) = Secrets.be_bytes 8 (fsc_generation c')) as H4.
  pose proof (Secrets.as_bytes_inj _ _ (f_equal (λ l, default [] (l !! 5%nat)) Heq)) as H5.
  pose proof (f_equal (λ l, default [] (l !! 6%nat)) Heq) as H6.
  apply Secrets.be_bytes_inj in H4; [|destruct Hok as [? _ _ _ _]|destruct Hok' as [? _ _ _ _]];
    [|unfold U64_MAX in *; lia..].
  unfold CreatorPubky_display, BundleId_display in *.
  destruct (fsc_creator c), (fsc_creator c'), (fsc_bundle_id c), (fsc_bundle_id c'). cbn in *.
  split_and!; congruence.
Qed.

Section secret.
  Context `{Base64UrlLaws, AeadLaws, PlaintextJsonLaws}.

(** What [folded_decrypt] does to a well-formed envelope. *)
Lemma folded_decrypt_envelope key context nonce ciphertext :
  Z.of_nat (length nonce) = 24 →
  folded_decrypt key context
    (MkEncryptedFlow (FOLDED_ENVELOPE_PREFIX +:+ b64_encode nonce +:+ ":" +:+ b64_encode ciphertext))
  = plaintext ← ok_or (aead_open key nonce (folded_associated_data context) ciphertext)
                  folded_decrypt_error;
    '(version, flow_state) ← ok_or (plaintext_from_slice plaintext) folded_decrypt_error;
    _ ← reject_if (negb (version =? PLAINTEXT_VERSION)) folded_decrypt_error;
    bs ← ok_or (b64_decode flow_state) folded_decrypt_error;
    _ ← reject_if (length bs =? 0)%nat folded_decrypt_error;
    Ok (MkFlowSecret bs).
Proof.
  intros Hlen. unfold folded_decrypt. cbn [EncryptedFlow_as_str].
  rewrite strip_prefix_app. cbn [ok_or]. rewrite bind_of_Ok.
  change (":" +:+ b64_encode ciphertext) with (String Secrets.colon (b64_encode ciphertext)).
  rewrite Secrets.split_once_at by apply Secrets.b64_no_colon. cbn [ok_or]. rewrite bind_of_Ok.
  cbn beta iota. rewrite !b64_decode_encode. cbn [ok_or]. rewrite bind_of_Ok.
  rewrite Hlen. cbn [negb reject_if Z.eqb Pos.eqb]. by rewrite !bind_of_Ok.
Qed.

Lemma flow_secret_opens key nonce context secret encrypted :
  folded_encrypt key nonce context secret = Ok encrypted → Z.of_nat (length nonce) = 24 →
  expose_bytes secret ≠ [] → folded_decrypt key context encrypted = Ok secret.
Proof.
  intros (pt & Hpt%ok_or_Ok & (ct & Hct%ok_or_Ok & He)%bind_Ok)%bind_Ok Hlen Hne. injection He as <-.
  rewrite folded_decrypt_envelope by done. apply aead_open_seal in Hct. rewrite Hct.
  apply plaintext_reads in Hpt. cbn [ok_or]. rewrite bind_of_Ok, Hpt. cbn [ok_or].
  rewrite bind_of_Ok. cbn. rewrite b64_decode_encode. cbn.
  destruct secret as [[|b bs]]; [done|]. reflexivity.
Qed.
End secret.

(** * What a step does to the attempts *)

Section histories.
  Context `{Base32, TimeLaws, Base64Url, Aead, PlaintextJson}.
  Context (cipher_key : bytes).

(** An attempt after a step from [s] to [s'] was there before, or has ended, or is a
    pending one whose poll changed hands, or the step has just started it. *)
Inductive comes_from (s s' : FoldedState) : StoredAttempt → Prop :=
  | from_kept st : st ∈ fo_records s → comes_from s s' st
  | from_ended st' : sa_status st' ≠ FoldedPending → comes_from s s' st'
  | from_poll st o : st ∈ fo_records s → sa_status st = FoldedPending →
      comes_from s s' (with_poll st o)
  | from_start request now nonce result encrypted :
      Z.of_nat (length nonce) = 24 →
      start_or_rotate cipher_key s request now nonce = Ok (result, s') →
      folded_encrypt cipher_key nonce (attempt_context (fsr_attempt result)) (sf_flow_secret request)
      = Ok encrypted →
      comes_from s s' (MkStoredAttempt (fsr_attempt result) (Some encrypted) None).

Lemma write_comes_from s s' i st st' x :
  fo_records s !! i = Some st → comes_from s s' st' → x ∈ <[i := st']> (fo_records s) →
  comes_from s s' x.
Proof.
  intros Hi Hc Hx. apply (elem_of_insert_at _ _ _ _ _ Hi) in Hx as [-> | (j & _ & Hj)]; [done|].
  apply from_kept. by eapply list_elem_of_lookup_2.
Qed.

Lemma ended_status st status now p task :
  status ≠ FoldedPending → sa_status (terminalized st status now p task) ≠ FoldedPending.
Proof. done. Qed.

Lemma start_encrypts s request now nonce result s' :
  start_or_rotate cipher_key s request now nonce = Ok (result, s') →
  sf_validate request = Ok ()
  ∧ ∃ generation records encrypted,
      fsr_attempt result = started_attempt request generation now (now + FOLDED_AUTH_TTL)
      ∧ folded_encrypt cipher_key nonce (attempt_context (fsr_attempt result))
          (sf_flow_secret request) = Ok encrypted
      ∧ fo_records s' = records ++ [MkStoredAttempt (fsr_attempt result) (Some encrypted) None]
      ∧ (records = fo_records s
         ∨ ∃ i st status p, fo_records s !! i = Some st ∧ status ≠ FoldedPending
             ∧ records = <[i := terminalize_attempt st status now p]> (fo_records s)).
Proof.
  intros ([] & Hv%map_err_Ok & ([] & _ & (e & He%ok_or_Ok & ([] & _ & Hs)%bind_Ok)%bind_Ok)%bind_Ok)%bind_Ok.
  apply time_checked_add_exact in He as ->. split; [done|].
  apply bind_Ok in Hs as ([[g prev] d] & Hr & (enc & Henc & [= <- <-])%bind_Ok).
  eexists g, _, enc. split_and!; [done|exact Henc|done|].
  destruct (latest_index (fo_records s) _) as [[i st]|] eqn:Hl; [|by left].
  apply rotation_Ok in Hr as (_ & _ & _ & [[_ ->]|[_ ->]]); [right|by left].
  apply latest_index_Some in Hl as (Hi & _). eexists i, st, _, _. split_and!; [done| |done].
  by destruct (_ <=? _).
Qed.

(** What an attempt was started with: its handle and the terms of its lock. *)
Definition attempt_terms (a : FoldedAuthAttempt) :=
  (fa_creator a, fa_bundle_id a, fa_submitted_proof_bundle a, fa_pubky_lock_resource a,
   fa_lock_hash a, fa_verification_window_seconds a, fa_graph a).

(** What the operations on one attempt write. *)
Definition attempt_write (s : FoldedState) (hash : FoldedAuthStateHash) (generation : Z)
    (s' : FoldedState) : Prop :=
  s' = s
  ∨ ∃ i st st', exact_pending s hash generation = Some (i, st)
      ∧ fo_records s' = <[i := st']> (fo_records s)
      ∧ sa_hash st' = sa_hash st ∧ sa_generation st' = sa_generation st
      ∧ attempt_terms (sa_attempt st') = attempt_terms (sa_attempt st)
      ∧ ((∃ o, st' = with_poll st o) ∨ sa_status st' ≠ FoldedPending).

Ltac writes :=
  repeat match goal with
  | |- context [match exact_pending ?s ?h ?g with _ => _ end] =>
      destruct (exact_pending s h g) as [[? ?]|] eqn:?; [|by left]
  | |- context [if ?b then _ else _] => destruct b; try by left
  end;
  right; do 3 eexists; split_and!; [done|done|done|done|done|first [by left; eexists|by right]].

Lemma mark_writes s hash generation now :
  attempt_write s hash generation (mark_poll_dispatched s hash generation now).2.
Proof. unfold mark_poll_dispatched. writes. Qed.

Lemma renew_writes s hash generation now :
  attempt_write s hash generation (renew_poll_dispatch s hash generation now).2.
Proof. unfold renew_poll_dispatch. writes. Qed.

Lemma not_attempted_writes s hash generation :
  attempt_write s hash generation (confirm_not_attempted s hash generation).2.
Proof. unfold confirm_not_attempted. writes. Qed.

(** The operations that may fail end the attempt, or write its poll. *)
Lemma confirm_writes s hash generation now r s' :
  confirm_pending_generation s hash generation now = Ok (r, s') → attempt_write s hash generation s'.
Proof.
  intros Hc. unfold confirm_pending_generation in Hc.
  destruct (exact_pending _ _ _) as [[i st]|] eqn:Hp; [|injection Hc as _ <-; by left].
  destruct (_ <=? now); [apply bind_Ok in Hc as (p & _ & Hc)|]; injection Hc as _ <-;
    right; do 3 eexists; (split_and!; [done|done|done|done|done|]); [by right|by left; eexists].
Qed.

Lemma restart_writes s hash generation now r s' :
  require_restart s hash generation now = Ok (r, s') → attempt_write s hash generation s'.
Proof.
  intros Hc. unfold require_restart in Hc.
  destruct (exact_pending _ _ _) as [[i st]|] eqn:Hp; [|injection Hc as _ <-; by left].
  apply bind_Ok in Hc as (p & _ & [= _ <-]).
  right. do 3 eexists. split_and!; [done|done|done|done|done|]. right. by destruct (_ <=? now).
Qed.

Lemma expire_writes s hash generation now r s' :
  expire_attempt s hash generation now = Ok (r, s') → attempt_write s hash generation s'.
Proof.
  intros Hc. unfold expire_attempt in Hc.
  destruct (exact_pending _ _ _) as [[i st]|] eqn:Hp; [|injection Hc as _ <-; by left].
  destruct (now <? _); [injection Hc as _ <-; by left|].
  apply bind_Ok in Hc as (p & _ & [= _ <-]).
  right. do 3 eexists. split_and!; [done|done|done|done|done|by right].
Qed.

Lemma accept_writes s hash generation task_id reader now r s' :
  accept_and_insert_graph_task s hash generation task_id reader now = Ok (r, s') →
  attempt_write s hash generation s'.
Proof.
  intros Ha. unfold accept_and_insert_graph_task in Ha.
  destruct (exact_pending _ _ _) as [[i st]|] eqn:Hp; [|injection Ha as _ <-; by left].
  destruct (_ <=? now).
  - apply bind_Ok in Ha as (p & _ & [= _ <-]). right.
    exists i, st. eexists. split_and!; [done|done|done|done|done|by right].
  - apply bind_Ok in Ha as (task & _ & (p & _ & ([t f'] & Hins & [= _ <-])%bind_Ok)%bind_Ok).
    apply insert_Ok in Hins as [_ [(-> & -> & _)|(-> & _)]]; [left; by destruct s|right].
    exists i, st. eexists. split_and!; [done|done|done|done|done|by right].
Qed.

Lemma attempt_write_comes_from s hash generation s' st :
  attempt_write s hash generation s' → st ∈ fo_records s' → comes_from s s' st.
Proof.
  intros [->|(i & x & x' & Hp & Hrec & _ & _ & _ & Hx)] Hin; [by apply from_kept|].
  apply exact_pending_Some in Hp as (Hi & _ & _ & Hst). rewrite Hrec in Hin.
  eapply write_comes_from; [exact Hi| |exact Hin].
  destruct Hx as [[o ->]|Hne]; [|by apply from_ended].
  apply from_poll; [by eapply list_elem_of_lookup_2|done].
Qed.

Lemma step_comes_from s s' st :
  folded_step cipher_key s s' → st ∈ fo_records s' → comes_from s s' st.
Proof.
  intros Hstep Hin. destruct Hstep as [s rq n nonce r s' Hn Hs|s h g n|s h g n|s h g|s h g n r s' Hs
    |s h g n r s' Hs|s h g n r s' Hs|s h g t rd n r s' Hs|s n c s' Hs|s p p' Hp Ho].
  - pose proof Hs as (Hv & g & l & enc & Ha & Henc & Hl & Hrec)%start_encrypts. rewrite Hl in Hin.
    apply elem_of_app in Hin as [Hin| ->%list_elem_of_singleton]; [|by eapply from_start].
    destruct Hrec as [->|(i & x & status & q & Hi & Hne & ->)]; [by apply from_kept|].
    eapply write_comes_from; [exact Hi| |exact Hin]. by apply from_ended, ended_status.
  - by eapply attempt_write_comes_from; [apply mark_writes|].
  - by eapply attempt_write_comes_from; [apply renew_writes|].
  - by eapply attempt_write_comes_from; [apply not_attempted_writes|].
  - by eapply attempt_write_comes_from; [eapply confirm_writes|].
  - by eapply attempt_write_comes_from; [eapply restart_writes|].
  - by eapply attempt_write_comes_from; [eapply expire_writes|].
  - by eapply attempt_write_comes_from; [eapply accept_writes|].
  - apply purge_Ok in Hs as (f & l & Hsw & -> & _). cbn in Hin.
    apply list_elem_of_filter in Hin as [_ Hin].
    pose proof (sweep_spec (fo_fence s) (fo_records s) n (n + FOLDED_AUTH_TOMBSTONE_TTL)) as [Hl _].
    rewrite Hsw in Hl. cbn in Hl. subst l. apply list_elem_of_fmap in Hin as (x & -> & Hx).
    unfold sweep_one. destruct (swept x n _) as [x'|] eqn:Hx'; cbn; [|by apply from_kept].
    apply from_ended. apply swept_Some in Hx' as (_ & status & Hs & ->). by destruct Hs as [->| ->].
  - by apply from_kept.
Qed.

(** A hash finds its attempt. *)
Lemma found_by_hash s st :
  folded_ok s → st ∈ fo_records s →
  ∃ i, find_first (λ x, sa_hash x == sa_hash st) (fo_records s) = Some (i, st).
Proof.
  intros Hok [i Hi]%list_elem_of_lookup. exists i.
  apply find_first_unique; [done|by rewrite eqb_true|]. intros j y Hj Hy. rewrite eqb_true in Hy.
  eapply NoDup_lookup; [exact (fk_hashes _ Hok)|by rewrite list_lookup_fmap, Hj|].
  rewrite list_lookup_fmap, Hi. cbn. by rewrite Hy.
Qed.

(** * Flow secrets *)

(** A pending attempt's secret can be read. *)
Definition secret_opens (st : StoredAttempt) : Prop :=
  sa_status st = FoldedPending → ∃ encrypted secret,
    sa_encrypted_flow_secret st = Some encrypted
    ∧ folded_decrypt cipher_key (attempt_context (sa_attempt st)) encrypted = Ok secret.

Section laws.
  Context `{!Base64UrlLaws, !AeadLaws, !PlaintextJsonLaws}.

Lemma validated_secret request :
  sf_validate request = Ok () → expose_bytes (sf_flow_secret request) ≠ [].
Proof.
  intros ([] & Hv%reject_if_Ok & _)%bind_Ok Heq. by rewrite Heq in Hv.
Qed.

(** The start of [request] led to [s], and the attempt is the one it has started, its
    envelope the one made of the secret that was handed over. *)
Definition started_by (s : FoldedState) (st : StoredAttempt) (request : StartFoldedAuthAttempt) :
    Prop :=
  ∃ s0 now nonce result s1 encrypted,
    folded_reachable cipher_key s0 ∧ start_or_rotate cipher_key s0 request now nonce = Ok (result, s1)
    ∧ rtc (folded_step cipher_key) s1 s
    ∧ sa_hash st = sf_state_hash request
    ∧ attempt_context (sa_attempt st) = attempt_context (fsr_attempt result)
    ∧ sa_encrypted_flow_secret st = Some encrypted ∧ Z.of_nat (length nonce) = 24
    ∧ folded_encrypt cipher_key nonce (attempt_context (sa_attempt st)) (sf_flow_secret request)
      = Ok encrypted.

Lemma started_later s s' st st' request :
  started_by s st request → rtc (folded_step cipher_key) s s' →
  sa_hash st' = sa_hash st → attempt_context (sa_attempt st') = attempt_context (sa_attempt st) →
  sa_encrypted_flow_secret st' = sa_encrypted_flow_secret st → started_by s' st' request.
Proof.
  intros (s0 & now & nonce & r & s1 & enc & Hr & Hs & Hsteps & Hh & Hc & He & Hn & Henc) Hs' Hh' Hc' He'.
  exists s0, now, nonce, r, s1, enc. rewrite Hh', Hc', He'. split_and!; [done|done|by etrans|done..].
Qed.

(** Every pending attempt of a reachable state was started with a secret. *)
Lemma pending_started s st :
  folded_reachable cipher_key s → st ∈ fo_records s → sa_status st = FoldedPending →
  ∃ request, started_by s st request.
Proof.
  intros (f & Hf & Hr). revert st.
  eapply (rtc_ind_r (λ s, ∀ st, st ∈ fo_records s → sa_status st = FoldedPending →
                          ∃ request, started_by s st request)); [|..|exact Hr].
  { intros st Hst. by apply elem_of_nil in Hst. }
  intros y z Hy Hyz IH st Hst Hp. pose proof (rtc_once _ _ Hyz) as Hyz'.
  destruct (step_comes_from _ _ _ Hyz Hst) as [x Hx|x Hx|x o Hx Hxp|rq n nonce r enc Hn Hs He]; [|done|..].
  - destruct (IH x Hx Hp) as [rq Hrq]. exists rq. by eapply started_later.
  - destruct (IH x Hx Hxp) as [rq Hrq]. exists rq. by eapply started_later.
  - exists rq, y, n, nonce, r, z, enc. split_and!; [by exists f|done|done| |done|done|done|done].
    pose proof (start_encrypts _ _ _ _ _ _ Hs) as (_ & g & l & e & Ha & _). unfold sa_hash. cbn.
    by rewrite Ha.
Qed.

Lemma started_opens s st request :
  started_by s st request → ∃ encrypted, sa_encrypted_flow_secret st = Some encrypted
    ∧ folded_decrypt cipher_key (attempt_context (sa_attempt st)) encrypted
      = Ok (sf_flow_secret request).
Proof.
  intros (s0 & now & nonce & r & s1 & enc & _ & (Hv & _)%start_encrypts & _ & _ & _ & He & Hn & Henc).
  exists enc. split; [done|]. eapply flow_secret_opens; [done|done|by apply validated_secret].
Qed.

Lemma reachable_opens s st :
  folded_reachable cipher_key s → st ∈ fo_records s → secret_opens st.
Proof.
  intros Hr Hin Hp. destruct (pending_started s st Hr Hin Hp) as (rq & Hrq).
  apply started_opens in Hrq as (enc & ? & ?). by exists enc, (sf_flow_secret rq).
Qed.

Lemma restore_found s st :
  folded_ok s → st ∈ fo_records s → secret_opens st → sa_status st = FoldedPending →
  fa_poll_dispatched (sa_attempt st) = false →
  ∃ encrypted secret, sa_encrypted_flow_secret st = Some encrypted
    ∧ folded_decrypt cipher_key (attempt_context (sa_attempt st)) encrypted = Ok secret
    ∧ restore_pending cipher_key s (sa_hash st) = Ok (Some (MkRestored (sa_attempt st) secret)).
Proof.
  intros Hok Hin Hopens Hst Hd. destruct (Hopens Hst) as (enc & secret & He & Hs).
  exists enc, secret. split_and!; [done|done|]. unfold restore_pending.
  apply (found_by_hash _ _ Hok) in Hin as [i ->].
  by rewrite Hst, Hd, He, eqb_same; cbn [negb orb ok_or]; rewrite bind_of_Ok, Hs, bind_of_Ok.
Qed.

Lemma restore_none s hash :
  (∀ st, st ∈ fo_records s → sa_hash st = hash → sa_status st = FoldedPending →
         fa_poll_dispatched (sa_attempt st) = true) →
  restore_pending cipher_key s hash = Ok None.
Proof.
  intros Hno. unfold restore_pending. destruct (find_first _ _) as [[i st]|] eqn:Hf; [|done].
  apply find_first_Some in Hf as [Hi Hh]. rewrite eqb_true in Hh.
  destruct (sa_status st == FoldedPending) eqn:Hp; [|done].
  rewrite eqb_true in Hp. rewrite (Hno st); [done|by eapply list_elem_of_lookup_2|done|done].
Qed.

(** An envelope that opens under a context is, for the cipher, a message that opens with
    that context as its associated data. *)
Lemma opens_under key nonce context secret encrypted context' secret' :
  folded_encrypt key nonce context secret = Ok encrypted → Z.of_nat (length nonce) = 24 →
  folded_decrypt key context' encrypted = Ok secret' →
  ∃ ciphertext plaintext plaintext',
    aead_seal key nonce (folded_associated_data context) plaintext = Some ciphertext
    ∧ aead_open key nonce (folded_associated_data context') ciphertext = Some plaintext'.
Proof.
  intros (pt & Hpt%ok_or_Ok & (ct & Hct%ok_or_Ok & He)%bind_Ok)%bind_Ok Hlen Hd. injection He as <-.
  rewrite folded_decrypt_envelope in Hd by done. apply bind_Ok in Hd as (pt' & Hpt'%ok_or_Ok & _).
  by exists ct, pt, pt'.
Qed.

(** C38: The secret a wallet flow was started with is what polling restores, in every
    reachable state: restoring never fails; it gives a secret exactly for the pending
    attempts whose poll is not dispatched; and the secret it gives is the one handed
    over by a start that led there, of the same hash, handle, generation, resource and
    lock - the one just made, right after a start.  An envelope is bound to its
    context: one that opens under another creator, bundle, generation, resource or lock
    is a ciphertext the cipher opens with associated data other than those it was sealed
    with, so it does not open where the cipher authenticates these. *)
Theorem flow_secret_restored s :
  folded_reachable cipher_key s →
  (∀ hash, ∃ r, restore_pending cipher_key s hash = Ok r
     ∧ (is_Some r ↔ ∃ st, st ∈ fo_records s ∧ sa_hash st = hash
                     ∧ sa_status st = FoldedPending ∧ fa_poll_dispatched (sa_attempt st) = false)
     ∧ ∀ x, r = Some x → ∃ st request, st ∈ fo_records s ∧ sa_hash st = hash
         ∧ sa_attempt st = ra_attempt x ∧ started_by s st request
         ∧ ra_flow_secret x = sf_flow_secret request)
  ∧ (∀ request now nonce result s', Z.of_nat (length nonce) = 24 →
       start_or_rotate cipher_key s request now nonce = Ok (result, s') →
       restore_pending cipher_key s' (sf_state_hash request)
       = Ok (Some (MkRestored (fsr_attempt result) (sf_flow_secret request))))
  ∧ (∀ key nonce c secret encrypted c' secret',
       folded_encrypt key nonce c secret = Ok encrypted → Z.of_nat (length nonce) = 24 →
       folded_decrypt key c' encrypted = Ok secret' → folded_context_ok c → folded_context_ok c' →
       fsc_creator c = fsc_creator c' ∧ fsc_bundle_id c = fsc_bundle_id c'
       ∧ fsc_generation c = fsc_generation c'
       ∧ PubkyLockResource_display (fsc_pubky_lock_resource c)
         = PubkyLockResource_display (fsc_pubky_lock_resource c')
       ∧ LockHash_as_bytes (fsc_lock_hash c) = LockHash_as_bytes (fsc_lock_hash c')
       ∨ ∃ ciphertext plaintext plaintext',
           aead_seal key nonce (folded_associated_data c) plaintext = Some ciphertext
           ∧ aead_open key nonce (folded_associated_data c') ciphertext = Some plaintext'
           ∧ folded_associated_data c ≠ folded_associated_data c').
Proof.
  intros Hr. pose proof (folded_reachable_ok _ _ Hr) as Hok. split_and!.
  - intros hash.
    destruct (decide (Exists (λ st, sa_hash st = hash ∧ sa_status st = FoldedPending
                               ∧ fa_poll_dispatched (sa_attempt st) = false) (fo_records s)))
      as [(st & Hin & <- & Hst & Hd)%Exists_exists|Hno].
    + destruct (restore_found s st Hok Hin (reachable_opens _ _ Hr Hin) Hst Hd) as (e & x & He & Hx & ->).
      eexists. split; [done|]. split; [by split; eauto|]. intros y [= <-].
      destruct (pending_started s st Hr Hin Hst) as (rq & Hrq). exists st, rq. split_and!; try done.
      apply started_opens in Hrq as (enc & He' & Hd'). cbn. congruence.
    + exists None. split; [|split; [|by intros x [=]]].
      * apply restore_none. intros st Hin Hh Hst. apply not_false_iff_true. intros Hd.
        apply Hno, Exists_exists. by exists st.
      * split; [by intros []|]. intros (st & Hin & ?). by destruct Hno; apply Exists_exists; exists st.
  - intros request now nonce result s' Hn Hs.
    pose proof (start_preserves cipher_key _ _ _ _ _ _ Hok Hs) as Hok'.
    apply start_encrypts in Hs as (Hv & g & l & enc & Ha & Henc & Hl & _).
    set (st := MkStoredAttempt (fsr_attempt result) (Some enc) None) in *.
    assert (st ∈ fo_records s') as Hin by (rewrite Hl; set_solver).
    assert (Hsec : folded_decrypt cipher_key (attempt_context (sa_attempt st)) enc
                   = Ok (sf_flow_secret request))
      by (eapply flow_secret_opens; [exact Henc|done|by apply validated_secret]).
    assert (sa_status st = FoldedPending) as Hst by (subst st; unfold sa_status; cbn; by rewrite Ha).
    destruct (restore_found s' st Hok' Hin) as (e & x & [= <-] & Hx & Hres);
      [intros _; by exists enc, (sf_flow_secret request)|done|subst st; cbn; by rewrite Ha|].
    rewrite Hsec in Hx. injection Hx as <-. subst st. unfold sa_hash in Hres. cbn in Hres.
    by rewrite Ha in *.
  - intros key nonce c secret enc c' secret' Henc Hn Hd Hc Hc'.
    destruct (decide (folded_associated_data c = folded_associated_data c')) as [Heq|Hne].
    + left. by apply folded_data_inj.
    + right. destruct (opens_under _ _ _ _ _ _ _ Henc Hn Hd) as (ct & pt & pt' & ? & ?).
      by exists ct, pt, pt'.
Qed.
End laws.

(** * Acceptance *)

(** A task stays, whatever happens. *)
Lemma step_keeps_subjects s s' x :
  folded_step cipher_key s s' → folded_ok s →
  x ∈ graph_subject <$> graph_records (fo_fence s) →
  x ∈ graph_subject <$> graph_records (fo_fence s').
Proof.
  intros Hstep Hok Hx. destruct Hstep as [s rq n nonce r s' Hn Hs|s h g n|s h g n|s h g|s h g n r s' Hs
    |s h g n r s' Hs|s h g n r s' Hs|s h g t rd n r s' Hs|s n c s' Hs|s p p' Hp Ho].
  - by apply start_or_rotate_Ok in Hs as [_ _ _ (? & ? & -> & _)].
  - unfold mark_poll_dispatched. destruct (exact_pending _ _ _) as [[i st]|]; [|done]. by destruct (fa_poll_dispatched _).
  - unfold renew_poll_dispatch. destruct (exact_pending _ _ _) as [[i st]|]; [|done]. by destruct (negb _).
  - unfold confirm_not_attempted. destruct (exact_pending _ _ _) as [[i st]|]; [|done]. by destruct (negb _).
  - unfold confirm_pending_generation in Hs.
    destruct (exact_pending _ _ _) as [[i st]|]; [|by injection Hs as _ <-].
    destruct (_ <=? _); [apply bind_Ok in Hs as (? & _ & Hs)|]; by injection Hs as _ <-.
  - unfold require_restart in Hs. destruct (exact_pending _ _ _) as [[i st]|]; [|by injection Hs as _ <-].
    by apply bind_Ok in Hs as (? & _ & [= _ <-]).
  - unfold expire_attempt in Hs. destruct (exact_pending _ _ _) as [[i st]|]; [|by injection Hs as _ <-].
    destruct (_ <? _); [by injection Hs as _ <-|]. by apply bind_Ok in Hs as (? & _ & [= _ <-]).
  - apply accept_Ok in Hs as [[_ ->]|(i & st & _ & [(_ & _ & ->)|(task & f' & _ & _ & _ & Hins & Hf & ->)])];
      [done|done|cbn|done].
    apply insert_Ok in Hins as [_ [[Hc _]|(_ & _ & -> & _)]]; [congruence|]. rewrite fmap_app. set_solver.
  - apply purge_Ok in Hs as (f & l & Hsw & -> & _).
    pose proof (sweep_spec (fo_fence s) (fo_records s) n (n + FOLDED_AUTH_TOMBSTONE_TTL)) as (_ & Hg & _).
    rewrite Hsw in Hg. cbn in *. by rewrite Hg.
  - cbn. apply other_step_frame in Ho as [_ Hk _]. apply Hk. by rewrite Hp.
Qed.

Lemma steps_keep s s' x :
  rtc (folded_step cipher_key) s s' → folded_ok s →
  x ∈ graph_subject <$> graph_records (fo_fence s) →
  folded_ok s' ∧ x ∈ graph_subject <$> graph_records (fo_fence s').
Proof.
  induction 1 as [|s1 s2 s3 Hs _ IH]; intros Hok Hx; [done|].
  apply IH; [by eapply step_preserves|by eapply step_keeps_subjects].
Qed.

(** C15: An approval turns exactly the pending attempt it names, before it expires, into a
    graph task: for the approving reader, for the attempt's handle, resource and lock,
    with its predicates and its window counted from the approval.  The handle is
    settled by it for good: whatever happens afterwards, the task is there, no attempt
    of the handle is pending and none can be started. *)
Theorem acceptance_settles_handle s hash generation task_id reader now task s1 s2 :
  folded_reachable cipher_key s →
  accept_and_insert_graph_task s hash generation task_id reader now = Ok (Some task, s1) →
  rtc (folded_step cipher_key) s1 s2 →
  (∃ st, st ∈ fo_records s ∧ sa_hash st = hash ∧ sa_generation st = generation
     ∧ sa_status st = FoldedPending ∧ now < fa_expires_at (sa_attempt st)
     ∧ gt_task_id task = task_id ∧ gt_status task = Pending ∧ gt_handle task = sa_handle st
     ∧ gs_pubky_lock_resource (gt_snapshot task) = fa_pubky_lock_resource (sa_attempt st)
     ∧ gs_lock_hash (gt_snapshot task) = fa_lock_hash (sa_attempt st)
     ∧ gs_reader (gt_snapshot task) = reader ∧ gs_accepted_at (gt_snapshot task) = now
     ∧ gs_deadline_at (gt_snapshot task)
       = now + seconds (fa_verification_window_seconds (sa_attempt st))
     ∧ gs_operator (gt_snapshot task) = gp_operator (fa_graph (sa_attempt st))
     ∧ ps_predicate <$> gs_predicates (gt_snapshot task) = gp_predicates (fa_graph (sa_attempt st)))
  ∧ (task_id, gt_handle task) ∈ graph_subject <$> graph_records (fo_fence s2)
  ∧ (∀ st, st ∈ fo_records s2 → sa_handle st = gt_handle task → sa_status st ≠ FoldedPending)
  ∧ ∀ request now' nonce r s3,
      (sf_creator request, sf_bundle_id request) = gt_handle task →
      start_or_rotate cipher_key s2 request now' nonce ≠ Ok (r, s3).
Proof.
  intros Hr Ha Hsteps. pose proof (folded_reachable_ok _ _ Hr) as Hok.
  pose proof (accept_preserves _ _ _ _ _ _ _ _ Hok Ha) as Hok1.
  apply accept_Ok in Ha as [[? _]|(i & st & Hp & [(? & _)|(t & f' & [= <-] & Hlt & Htask & Hins & Hfree & ->)])];
    [done|done| |done].
  apply exact_pending_Some in Hp as (Hi & Hh & Hg & Hst).
  apply attempt_graph_task_Ok in Htask as (Hid & Hth & Hts & Hres & Hlh & Hrd & Hac & Hdl & Hop & Hpr & _).
  apply insert_Ok in Hins as [_ [[Hc _]|(_ & _ & Hrec & _)]]; [congruence|].
  destruct (steps_keep _ _ (task_id, gt_handle task) Hsteps Hok1) as [Hok2 Hin].
  { cbn. rewrite Hrec, fmap_app. apply elem_of_app. right. apply list_elem_of_singleton.
    change (graph_subject _) with (gt_task_id task, gt_handle task). by rewrite Hid. }
  assert (gt_handle task ∈ sg_handle <$> graph_records (fo_fence s2)) as Hhas.
  { apply list_elem_of_fmap in Hin as (g & Heq & Hg'). apply list_elem_of_fmap. exists g.
    split; [exact (f_equal snd Heq)|done]. }
  split_and!.
  - exists st. split_and!; try done. by eapply list_elem_of_lookup_2.
  - done.
  - intros x Hx Hxh Hxp. apply (fk_free _ Hok2 (gt_handle task)); [|done].
    apply (fk_reserved _ Hok2). by exists x.
  - intros request now' nonce r s3 Hreq Hs. apply start_or_rotate_Ok in Hs as [_ Hno _ _]; [|done].
    by rewrite Hreq in Hno.
Qed.

(** * Cleanup *)

(** What the cleanup leaves of an attempt. *)
Definition cleaned (now : OffsetDateTime) (st : StoredAttempt) : option StoredAttempt :=
  let p := now + FOLDED_AUTH_TOMBSTONE_TTL in
  if sa_status st == FoldedPending then
    if fa_expires_at (sa_attempt st) <=? now then Some (terminalize_attempt st FoldedExpired now p)
    else if abandoned st now then Some (terminalize_attempt st FoldedRestartRequired now p)
    else Some st
  else if is_none_or (λ p, now <? p) (fa_purge_after (sa_attempt st)) then Some st else None.

Lemma tombstone_positive : 0 < FOLDED_AUTH_TOMBSTONE_TTL.
Proof. done. Qed.

Lemma clean_one now st :
  (if retained now (sweep_one now (now + FOLDED_AUTH_TOMBSTONE_TTL) st)
   then Some (sweep_one now (now + FOLDED_AUTH_TOMBSTONE_TTL) st) else None) = cleaned now st.
Proof.
  unfold cleaned, sweep_one, swept. destruct (sa_status st == FoldedPending) eqn:Hp; cbn.
  - destruct (_ <=? now); [|destruct (abandoned st now)]; cbn; unfold retained; cbn.
    + by rewrite (proj2 (Z.ltb_lt _ _)) by (pose proof tombstone_positive; lia).
    + by rewrite (proj2 (Z.ltb_lt _ _)) by (pose proof tombstone_positive; lia).
    + by rewrite Hp.
  - unfold retained. rewrite Hp. cbn. done.
Qed.

Lemma filter_sweep now (l : list StoredAttempt) :
  filter (λ st, retained now st = true) (sweep_one now (now + FOLDED_AUTH_TOMBSTONE_TTL) <$> l)
  = omap (cleaned now) l.
Proof.
  induction l as [|st l IH]; [done|]. rewrite fmap_cons, filter_cons. cbn [omap list_omap].
  rewrite <- (clean_one now st). destruct (retained now _) eqn:Hr.
  - rewrite decide_True by done. f_equal. exact IH.
  - rewrite decide_False by done. exact IH.
Qed.

(** The cleanup runs unless its clock overflows.  Pending attempts that have expired, or
    whose poll has been silent for the abandonment time, end now and give their handles
    back; attempts that ended a tombstone's time ago go; everything else is untouched,
    and the count is that of the attempts that went. *)
Theorem cleanup_exact s now purge_at :
  folded_reachable cipher_key s → time_checked_add now FOLDED_AUTH_TOMBSTONE_TTL = Some purge_at →
  ∃ s', purge_terminal_before s now
        = Ok (Z.of_nat (length (fo_records s)) - Z.of_nat (length (fo_records s')), s')
    ∧ fo_records s' = omap (cleaned now) (fo_records s)
    ∧ graph_records (fo_fence s') = graph_records (fo_fence s)
    ∧ (∀ st, st ∈ fo_records s' → sa_status st = FoldedPending →
         now < fa_expires_at (sa_attempt st) ∧ abandoned st now = false)
    ∧ ∀ h, h ∈ folded_auth_reservations (fo_fence s') ↔
        ∃ st, st ∈ fo_records s ∧ sa_handle st = h ∧ sa_status st = FoldedPending
          ∧ now < fa_expires_at (sa_attempt st) ∧ abandoned st now = false.
Proof.
  intros Hr Hover. pose proof (folded_reachable_ok _ _ Hr) as Hok.
  pose proof Hover as ->%time_checked_add_exact.
  destruct (sweep (fo_fence s) (fo_records s) now (now + FOLDED_AUTH_TOMBSTONE_TTL)) as [f l] eqn:Hs.
  pose proof (sweep_spec (fo_fence s) (fo_records s) now (now + FOLDED_AUTH_TOMBSTONE_TTL)) as (Hl & Hg & _).
  rewrite Hs in Hl, Hg. cbn in Hl, Hg. pose proof (filter_sweep now (fo_records s)) as Hf.
  rewrite <- Hl in Hf. set (s' := MkFoldedState f (omap (cleaned now) (fo_records s))).
  assert (purge_terminal_before s now
    = Ok (Z.of_nat (length (fo_records s)) - Z.of_nat (length (fo_records s')), s')) as Hp.
  { unfold purge_terminal_before, checked_purge_after. rewrite Hover. cbn [ok_or].
    rewrite bind_of_Ok, Hs. cbv zeta. rewrite Hf. subst l. by rewrite length_fmap. }
  pose proof (purge_preserves _ _ _ _ Hok Hp) as Hok'.
  assert (Hpend : ∀ st, st ∈ fo_records s' → sa_status st = FoldedPending →
    st ∈ fo_records s ∧ now < fa_expires_at (sa_attempt st) ∧ abandoned st now = false).
  { intros st (x & Hx & Hc)%list_elem_of_omap Hst. unfold cleaned in Hc.
    destruct (sa_status x == FoldedPending) eqn:Hxp; [rewrite eqb_true in Hxp|apply eqb_false in Hxp].
    - destruct (_ <=? now) eqn:He; [by injection Hc as <-|].
      destruct (abandoned x now) eqn:Hab; [by injection Hc as <-|]. injection Hc as ->.
      split_and!; [done|lia|done].
    - destruct (is_none_or _ _); [|done]. injection Hc as ->. done. }
  exists s'. split_and!; [done|done|done|intros st Hin Hst; by apply Hpend|].
  intros h. rewrite (fk_reserved _ Hok'). split.
  - intros (st & Hin & Hst & Hh). destruct (Hpend st Hin Hst) as (? & ? & ?). by exists st.
  - intros (st & Hin & Hh & Hst & Hlt & Hab). exists st. split_and!; [|done|done].
    apply list_elem_of_omap. exists st. split; [done|]. unfold cleaned.
    rewrite Hst, eqb_same, Hab. by rewrite (proj2 (Z.leb_gt _ _)) by lia.
Qed.
End histories.
