(* ===== verification/FoldedUse.v ===== *)
(** The use case that polls a folded attempt ([use_cases/poll_folded_auth.rs]) and the
    cleanup worker ([locks-server/src/folded_auth_cleanup.rs]), on the repository of
    [FoldedStore] with others acting between calls and calls that may get lost.

    The poller stands behind a port ([application/ports/folded_auth.rs]): its answer is a
    function of the moment and of the secret it is asked with.  The world logs the calls
    the use case makes to it. *)

From S2P Require Import Prelude RustStr Externals Ids Json LockPolicy Wire Errors Run.
From S2P Require Import GraphTask Fence GraphStore PaymentStore FoldedAuth FoldedStore.
From S2P Require Import FoldedInv FoldedSteps FoldedSafe.

(** * Data *)

Inductive FoldedAuthApprovalPoll := PollPending | PollApproved (reader : CreatorPubky).

(** [PollAttempted None]: the poll failed after it was dispatched. *)
Inductive FoldedAuthPollCall :=
  | TransientBeforePoll (e : ApplicationError)
  | UnrecoverableBeforePoll
  | PollAttempted (answer : option FoldedAuthApprovalPoll).

Inductive PollFoldedAuthOutcome :=
  | OutcomePending (attempt : FoldedAuthAttempt)
  | OutcomeAccepted (task : GraphTaskRecord)
  | OutcomeRestartRequired (attempt : FoldedAuthAttempt)
  | OutcomeExpired (attempt : FoldedAuthAttempt)
  | OutcomeStale.

(** A call of the poller: for which attempt, with which secret, and its answer. *)
Record PollEntry := MkPollEntry {
  pe_hash : FoldedAuthStateHash;
  pe_generation : Z;
  pe_secret : FoldedAuthFlowSecret;
  pe_answer : FoldedAuthPollCall;
}.

Abbreviation PollRun := (Run FoldedState (list PollEntry)).

Section use_case.
  Context `{Base32, TimeCrate, Base64Url, Aead, PlaintextJson}.
  (** [authoritative_time]: the clock of the repository, which disregards the times its
      callers pass *)
  Context (cipher_key : bytes) (clock authoritative_time : nat → OffsetDateTime).
  Context (fates : nat → Fate) (others : nat → FoldedState → FoldedState).
  Context (poller : nat → FoldedAuthFlowSecret → FoldedAuthPollCall).
  (** how many times the lease is renewed while the poll is under way *)
  Context (renewals : nat → nat).
  Context (fresh_task_id : TaskId).

(** A call of the repository, which reads its clock at that moment. *)
Definition folded_call {A}
    (op : OffsetDateTime → FoldedState → result ApplicationError (A * FoldedState)) : PollRun A := λ w,
  call fates others (op (authoritative_time (w_ticks w))) w.
Definition folded_ask {A} (f : FoldedState → A) : PollRun A := folded_call (λ _ s, Ok (f s, s)).
Definition folded_do {A} (f : OffsetDateTime → FoldedState → A * FoldedState) : PollRun A :=
  folded_call (λ t s, Ok (f t s)).

(** The results of renewals are not looked at. *)
Fixpoint renew_lease (n : nat) (hash : FoldedAuthStateHash) (generation : Z) : PollRun () :=
  match n with
  | O => run_ret ()
  | S n => λ w,
      let (_, w) := folded_do (λ t s, renew_poll_dispatch s hash generation t) w in
      renew_lease n hash generation w
  end.

(** [poll_approval], its lease renewed until it answers. *)
Definition poll_approval (hash : FoldedAuthStateHash) (generation : Z)
    (secret : FoldedAuthFlowSecret) : PollRun FoldedAuthPollCall := λ w,
  let answer := poller (w_ticks w) secret in
  let w := MkWorld (w_store w)
             (w_entitlements w ++ [MkPollEntry hash generation secret answer])
             (w_ticks w + 1)%nat in
  let (_, w) := renew_lease (renewals (w_ticks w)) hash generation w in
  (Ok answer, w).

Definition report_expired (o : option FoldedAuthAttempt) : PollFoldedAuthOutcome :=
  match o with
  | Some attempt =>
      if fa_status attempt == FoldedExpired then OutcomeExpired attempt else OutcomeStale
  | None => OutcomeStale
  end.

Definition report_restart (o : option FoldedAuthAttempt) : PollFoldedAuthOutcome :=
  match o with
  | Some attempt =>
      if fa_status attempt == FoldedExpired then OutcomeExpired attempt
      else if fa_status attempt == FoldedRestartRequired then OutcomeRestartRequired attempt
      else OutcomeStale
  | None => OutcomeStale
  end.

Definition report_pending (o : option FoldedAuthAttempt) : PollFoldedAuthOutcome :=
  match o with
  | Some attempt =>
      if fa_status attempt == FoldedExpired then OutcomeExpired attempt
      else if fa_status attempt == FoldedPending then OutcomePending attempt
      else OutcomeStale
  | None => OutcomeStale
  end.

Definition settle_poll (hash : FoldedAuthStateHash) (generation : Z) (polled : FoldedAuthPollCall) :
    PollRun PollFoldedAuthOutcome := (
  match polled with
  | TransientBeforePoll e =>
      confirmed ⟵ folded_do (λ _ s, confirm_not_attempted s hash generation);
      match confirmed with
      | None => run_ret OutcomeStale
      | Some _ => run_err e
      end
  | UnrecoverableBeforePoll | PollAttempted None =>
      o ⟵ folded_call (λ t s, require_restart s hash generation t);
      run_ret (report_restart o)
  | PollAttempted (Some PollPending) =>
      o ⟵ folded_call (λ t s, confirm_pending_generation s hash generation t);
      run_ret (report_pending o)
  | PollAttempted (Some (PollApproved reader)) =>
      task ⟵ folded_call (λ t s,
        accept_and_insert_graph_task s hash generation fresh_task_id reader t);
      match task with
      | Some task => run_ret (OutcomeAccepted task)
      | None =>
          o ⟵ folded_ask (λ s, get_by_state_hash s hash);
          run_ret (report_expired o)
      end
  end)%run.

(** The part for a pending attempt nobody polls. *)
Definition poll_pending (hash : FoldedAuthStateHash) (generation : Z) :
    PollRun PollFoldedAuthOutcome := (
  restored ⟵ folded_call (λ _ s, (λ r, (r, s)) <$> restore_pending cipher_key s hash);
  match restored with
  | None => run_ret OutcomeStale
  | Some restored =>
      if negb (fa_generation (ra_attempt restored) =? generation) then run_ret OutcomeStale
      else
        marked ⟵ folded_do (λ t s, mark_poll_dispatched s hash generation t);
        match marked with
        | None => run_ret OutcomeStale
        | Some _ =>
            polled ⟵ poll_approval hash generation (ra_flow_secret restored);
            _ ⟵ now clock;
            settle_poll hash generation polled
        end
  end)%run.

Definition execute_poll (hash : FoldedAuthStateHash) : PollRun PollFoldedAuthOutcome := (
  before_poll ⟵ now clock;
  found ⟵ folded_ask (λ s, get_by_state_hash s hash);
  match found with
  | None => run_ret OutcomeStale
  | Some attempt =>
      match fa_status attempt with
      | FoldedExpired => run_ret (OutcomeExpired attempt)
      | FoldedRestartRequired => run_ret (OutcomeRestartRequired attempt)
      | FoldedAccepted =>
          task ⟵ folded_ask (λ s, folded_accepted_graph_task s hash);
          run_ret (match task with Some task => OutcomeAccepted task | None => OutcomeStale end)
      | FoldedPending =>
          if fa_poll_dispatched attempt then run_ret (OutcomePending attempt)
          else if fa_expires_at attempt <=? before_poll then
            o ⟵ folded_call (λ t s, expire_attempt s hash (fa_generation attempt) t);
            run_ret (report_expired o)
          else poll_pending hash (fa_generation attempt)
      end
  end)%run.

(** [run_once]. *)
Definition cleanup_run_once : PollRun Z := (
  _ ⟵ now clock;
  folded_call (λ t s, purge_terminal_before s t))%run.
End use_case.

(** * What an outcome says *)

Definition attempt_stands (s : FoldedState) (hash : FoldedAuthStateHash) (a : FoldedAuthAttempt) :
    Prop :=
  ∃ st, st ∈ fo_records s ∧ sa_attempt st = a ∧ sa_hash st = hash.

Definition outcome_true (s : FoldedState) (hash : FoldedAuthStateHash)
    (o : PollFoldedAuthOutcome) : Prop :=
  match o with
  | OutcomePending a => attempt_stands s hash a ∧ fa_status a = FoldedPending
  | OutcomeExpired a => attempt_stands s hash a ∧ fa_status a = FoldedExpired
  | OutcomeRestartRequired a => attempt_stands s hash a ∧ fa_status a = FoldedRestartRequired
  | OutcomeAccepted task =>
      (∃ st, st ∈ fo_records s ∧ sa_hash st = hash ∧ sa_status st = FoldedAccepted
             ∧ gt_handle task = sa_handle st)
      ∧ ∃ g, g ∈ graph_records (fo_fence s) ∧ sg_task g = task
  | OutcomeStale => True
  end.

Lemma report_expired_true s hash o :
  (∀ a, o = Some a → attempt_stands s hash a) → outcome_true s hash (report_expired o).
Proof.
  intros Ho. destruct o as [a|]; [cbn|done].
  destruct (_ == _) eqn:Hs; [rewrite eqb_true in Hs; cbn; auto|done].
Qed.

Lemma report_restart_true s hash o :
  (∀ a, o = Some a → attempt_stands s hash a) → outcome_true s hash (report_restart o).
Proof.
  intros Ho. destruct o as [a|]; [cbn|done].
  repeat (destruct (_ == _) eqn:Hs; [rewrite eqb_true in Hs; cbn; auto|clear Hs]). done.
Qed.

Lemma report_pending_true s hash o :
  (∀ a, o = Some a → attempt_stands s hash a) → outcome_true s hash (report_pending o).
Proof.
  intros Ho. destruct o as [a|]; [cbn|done].
  repeat (destruct (_ == _) eqn:Hs; [rewrite eqb_true in Hs; cbn; auto|clear Hs]). done.
Qed.

Lemma get_stands s hash a : get_by_state_hash s hash = Some a → attempt_stands s hash a.
Proof.
  intros ([i st] & Hf & ->)%fmap_Some.
  apply find_first_Some in Hf as [Hi Hh]. rewrite eqb_true in Hh.
  exists st. split_and!; [by eapply list_elem_of_lookup_2|done|done].
Qed.

(** The attempt an operation returns is the one it has written. *)
Lemma written_stands s hash generation i st st' f :
  exact_pending s hash generation = Some (i, st) → sa_hash st' = sa_hash st →
  attempt_stands (MkFoldedState f (<[i := st']> (fo_records s))) hash (sa_attempt st').
Proof.
  intros (Hi & Hh & _)%exact_pending_Some Hh'. exists st'. split_and!; [|done|congruence].
  apply (elem_of_insert_at _ _ _ _ _ Hi). by left.
Qed.

Section stands.
  Context `{Base32, TimeLaws, Base64Url, Aead, PlaintextJson}.

Lemma expire_stands s hash generation t a s' :
  expire_attempt s hash generation t = Ok (Some a, s') → attempt_stands s' hash a.
Proof.
  intros Hc. unfold expire_attempt in Hc. destruct (exact_pending _ _ _) as [[i st]|] eqn:Hp; [|done].
  destruct (t <? _).
  - injection Hc as <- <-. apply exact_pending_Some in Hp as (Hi & Hh & _).
    exists st. split_and!; [by eapply list_elem_of_lookup_2|done|done].
  - apply bind_Ok in Hc as (p & _ & [= <- <-]). by eapply (written_stands s hash generation i st).
Qed.

Lemma restart_stands s hash generation t a s' :
  require_restart s hash generation t = Ok (Some a, s') → attempt_stands s' hash a.
Proof.
  intros Hc. unfold require_restart in Hc. destruct (exact_pending _ _ _) as [[i st]|] eqn:Hp; [|done].
  apply bind_Ok in Hc as (p & _ & [= <- <-]). by eapply (written_stands s hash generation i st).
Qed.

Lemma confirm_stands s hash generation t a s' :
  confirm_pending_generation s hash generation t = Ok (Some a, s') → attempt_stands s' hash a.
Proof.
  intros Hc. unfold confirm_pending_generation in Hc.
  destruct (exact_pending _ _ _) as [[i st]|] eqn:Hp; [|done].
  destruct (_ <=? t); [apply bind_Ok in Hc as (p & _ & Hc)|]; injection Hc as <- <-;
    by eapply (written_stands s hash generation i st).
Qed.

Lemma accepted_task_true s hash task :
  folded_accepted_graph_task s hash = Some task → outcome_true s hash (OutcomeAccepted task).
Proof.
  intros (a & Ha%get_stands & Ht)%bind_Some. destruct Ha as (st & Hin & <- & Hh).
  destruct (fa_status _ == FoldedAccepted) eqn:Hs; [cbn in Ht|done]. rewrite eqb_true in Hs.
  unfold get_graph_task_by_handle in Ht. apply fmap_Some in Ht as ([i g] & Hf & ->).
  apply find_first_Some in Hf as [Hi Hg]. rewrite eqb_true in Hg. split.
  - exists st. split_and!; [done|done|done|exact Hg].
  - exists g. split; [by eapply list_elem_of_lookup_2|done].
Qed.

Lemma acceptance_true s hash generation task_id reader t task s' :
  folded_ok s →
  accept_and_insert_graph_task s hash generation task_id reader t = Ok (Some task, s') →
  outcome_true s' hash (OutcomeAccepted task)
  ∧ gs_reader (gt_snapshot task) = reader ∧ gt_task_id task = task_id.
Proof.
  intros Hok Ha.
  apply accept_Ok in Ha as [[? _]|(i & st & Hp & [(? & _)|(t' & f' & [= <-] & _ & Htask & Hins & Hfree & ->)])];
    [done|done| |done].
  apply exact_pending_Some in Hp as (Hi & Hh & _).
  apply attempt_graph_task_Ok in Htask as (Hid & Hth & _ & _ & _ & Hrd & _).
  apply insert_Ok in Hins as [_ [[Hc _]|(_ & _ & Hrec & _)]]; [congruence|].
  split_and!; [split|done|done]; cbn.
  - eexists. split; [apply (elem_of_insert_at _ _ _ _ _ Hi); by left|]. by split_and!.
  - exists (MkStoredGraphTask task None None None None). split; [|done]. rewrite Hrec. set_solver.
Qed.
End stands.

(** * Safety *)

(** The calls that end a poll, or none. *)
Inductive poll_ends `{Base32, TimeCrate} (s : FoldedState) (hash : FoldedAuthStateHash)
    (generation : Z) : FoldedState → Prop :=
  | ends_lost : poll_ends s hash generation s
  | ends_not_attempted : poll_ends s hash generation (confirm_not_attempted s hash generation).2
  | ends_confirm t r s' :
      confirm_pending_generation s hash generation t = Ok (r, s') → poll_ends s hash generation s'
  | ends_restart t r s' :
      require_restart s hash generation t = Ok (r, s') → poll_ends s hash generation s'
  | ends_accept task_id reader t r s' :
      accept_and_insert_graph_task s hash generation task_id reader t = Ok (r, s') →
      poll_ends s hash generation s'.

(** A system one process polls in: its states, of which the repository is a part, its
    steps, what the process holds - the attempt it polls, if any -, and the steps by
    which the process begins, keeps and ends a poll.  The others act between its calls. *)
Class PollSystem `{Base32, TimeCrate, Base64Url, Aead, PlaintextJson} (cipher_key : bytes)
    (others : nat → FoldedState → FoldedState) (G : Type) := {
  ps_state : G → FoldedState;
  ps_step : G → G → Prop;
  ps_holds : option (FoldedAuthStateHash * Z) → G → Prop;
  ps_legal g g' : ps_step g g' → rtc (folded_step cipher_key) (ps_state g) (ps_state g');
  ps_others n g key : ps_holds key g →
    ∃ g', ps_state g' = others n (ps_state g) ∧ rtc ps_step g g' ∧ ps_holds key g';
  ps_expire g hash generation t r s' :
    ps_holds None g → expire_attempt (ps_state g) hash generation t = Ok (r, s') →
    ∃ g', ps_state g' = s' ∧ rtc ps_step g g' ∧ ps_holds None g';
  ps_begin g hash generation t a s' :
    ps_holds None g → mark_poll_dispatched (ps_state g) hash generation t = (Some a, s') →
    ∃ g', ps_state g' = s' ∧ rtc ps_step g g' ∧ ps_holds (Some (hash, generation)) g';
  ps_renew g hash generation t :
    ps_holds (Some (hash, generation)) g →
    ∃ g', ps_state g' = (renew_poll_dispatch (ps_state g) hash generation t).2
        ∧ rtc ps_step g g' ∧ ps_holds (Some (hash, generation)) g';
  ps_end g hash generation s' :
    ps_holds (Some (hash, generation)) g → poll_ends (ps_state g) hash generation s' →
    ∃ g', ps_state g' = s' ∧ rtc ps_step g g' ∧ ps_holds None g';
}.

Section safety.
  Context `{Base32, TimeLaws, Base64Url, Aead, PlaintextJson}.
  Context (cipher_key : bytes) (clock authoritative_time : nat → OffsetDateTime).
  Context (fates : nat → Fate) (others : nat → FoldedState → FoldedState).
  Context (poller : nat → FoldedAuthFlowSecret → FoldedAuthPollCall).
  Context (renewals : nat → nat) (fresh_task_id : TaskId).
  Context {G : Type} `{!PollSystem cipher_key others G}.

  Abbreviation FoldedWorld := (World FoldedState (list PollEntry)).
  Abbreviation reachable := (folded_reachable cipher_key).
  Abbreviation Call := (folded_call authoritative_time fates others).
  Abbreviation Settle := (settle_poll authoritative_time fates others fresh_task_id).

Lemma reachable_step s s' : reachable s → rtc (folded_step cipher_key) s s' → reachable s'.
Proof. intros (f & Hf & Hr) Hs. exists f. split; [done|by etrans]. Qed.

Lemma ps_legals g g' : rtc ps_step g g' → rtc (folded_step cipher_key) (ps_state g) (ps_state g').
Proof. induction 1 as [|x y z Hs _ IH]; [done|]. etrans; [by apply ps_legal|done]. Qed.

(** The system came from [from] to a state with the repository of the world, the process
    holds [key] there, and [Q] is so. *)
Definition tracked (from : G) (key : option (FoldedAuthStateHash * Z)) (log : list PollEntry)
    (Q : G → Prop) (w : FoldedWorld) : Prop :=
  reachable (ps_state from) ∧ w_entitlements w = log
  ∧ ∃ g, ps_state g = w_store w ∧ rtc ps_step from g ∧ ps_holds key g ∧ Q g.

Lemma tracked_weaken from key log (Q Q' : G → Prop) w :
  tracked from key log Q w → (∀ g, rtc ps_step from g → ps_holds key g → Q g → Q' g) →
  tracked from key log Q' w.
Proof. intros (Hr & Hl & g & ? & ? & ? & ?) HQ. split_and!; [done|done|]. exists g. split_and!; auto. Qed.

Lemma tracked_triv from key log Q w : tracked from key log Q w → tracked from key log (λ _, True) w.
Proof. intros Hw. by eapply tracked_weaken. Qed.

(** A process that stops holds nothing. *)
Lemma released from key log Q w : tracked from key log Q w → tracked from None log (λ _, True) w.
Proof.
  intros (Hr & Hl & g & Hg & Hs & Hk & _). split_and!; [done|done|]. destruct key as [[h n]|]; [|by exists g].
  destruct (ps_end g h n (ps_state g) Hk (ends_lost _ _ _)) as (g' & Hg' & Hs' & Hk').
  exists g'. split_and!; [congruence|by etrans|done|done].
Qed.

Lemma call_log {A} (op : FoldedState → result ApplicationError (A * FoldedState)) w r w' :
  call (E := list PollEntry) fates others op w = (r, w') → w_entitlements w' = w_entitlements w.
Proof.
  unfold call. by destruct (fates (w_ticks w)), (op (others (w_ticks w) (w_store w))) as [[]|];
    intros [= <- <-].
Qed.

(** A call answers with what its operation gives, or fails; its request or its answer
    may be lost. *)
Lemma call_then {A B} (op : OffsetDateTime → FoldedState → result ApplicationError (A * FoldedState))
    from key (key' : A → option (FoldedAuthStateHash * Z)) log (Q0 : G → Prop) (Q : A → G → Prop)
    (f : A → PollRun B) (R : result ApplicationError B → FoldedWorld → Prop) :
  (∀ t g a s', reachable (ps_state g) → rtc ps_step from g → ps_holds key g →
     op t (ps_state g) = Ok (a, s') →
     ∃ g', ps_state g' = s' ∧ rtc ps_step g g' ∧ ps_holds (key' a) g' ∧ Q a g') →
  (∀ a, triple (tracked from (key' a) log (Q a)) (f a) R) →
  (∀ e w, tracked from None log (λ _, True) w → R (Err e) w) →
  triple (tracked from key log Q0) (run_bind f (Call op)) R.
Proof.
  intros Hop Hf He w (Hr & Hl & g & Hg & Hs & Hk & _). unfold run_bind.
  destruct (Call op w) as [r w'] eqn:Hc. unfold folded_call in Hc.
  assert (w_entitlements w' = log) as Hlog by (by rewrite (call_log _ _ _ _ Hc)).
  destruct (ps_others (w_ticks w) g key Hk) as (g1 & Hg1 & Hs1 & Hk1). rewrite Hg in Hg1.
  assert (rtc ps_step from g1) as Hfrom by by etrans.
  assert (reachable (ps_state g1)) as Hr1 by by eapply reachable_step, ps_legals.
  specialize (Hop (authoritative_time (w_ticks w)) g1). rewrite Hg1 in Hop, Hr1.
  assert (Hstill : w_store w' = others (w_ticks w) (w_store w) → tracked from None log (λ _, True) w').
  { intros Hw. apply (released from key log (λ _, True)). split_and!; [done|done|]. exists g1.
    split_and!; [congruence|done..]. }
  assert (Hdone : ∀ a, op (authoritative_time (w_ticks w)) (others (w_ticks w) (w_store w))
                       = Ok (a, w_store w') → tracked from (key' a) log (Q a) w').
  { intros a Ha. destruct (Hop _ _ Hr1 Hfrom Hk1 Ha) as (g' & ? & ? & ? & ?).
    split_and!; [done|done|]. exists g'. split_and!; [done|by etrans|done..]. }
  apply call_inv in Hc as [(a & -> & Ho)|(e & -> & [[_ Hw]|[_ [Hw|(a & Ho)]]])].
  - by apply Hf, Hdone.
  - by apply He, Hstill.
  - by apply He, Hstill.
  - eapply He, released. by apply Hdone.
Qed.

(** A read. *)
Lemma ask_then {A B} (ask : FoldedState → A) from key log Q0 (Q : A → G → Prop) (f : A → PollRun B) R :
  (∀ g, Q (ask (ps_state g)) g) →
  (∀ a, triple (tracked from key log (Q a)) (f a) R) →
  (∀ e w, tracked from None log (λ _, True) w → R (Err e) w) →
  triple (tracked from key log Q0)
    (run_bind f (folded_ask authoritative_time fates others ask)) R.
Proof.
  intros HQ Hf He. apply (call_then _ _ _ (λ _, key) _ _ Q); [|done|done].
  intros t g a s' _ _ Hk [= <- <-]. by exists g.
Qed.

Lemma now_then {B} from key log Q (f : OffsetDateTime → PollRun B) R :
  (∀ t, triple (tracked from key log Q) (f t) R) →
  triple (tracked from key log Q) (run_bind f (now clock)) R.
Proof. intros Hf w Hw. unfold run_bind, now. by apply Hf. Qed.

Lemma tracked_store from key log (P : FoldedState → Prop) w :
  tracked from key log (λ g, P (ps_state g)) w → P (w_store w).
Proof. by intros (_ & _ & g & <- & _ & _ & HP). Qed.

(** What settling the answer of the poller leads to. *)
Definition settled (from : G) (hash : FoldedAuthStateHash) (polled : FoldedAuthPollCall)
    (log : list PollEntry) (r : result ApplicationError PollFoldedAuthOutcome) (w : FoldedWorld) :
    Prop :=
  tracked from None log (λ _, True) w
  ∧ ∀ o, r = Ok o → outcome_true (w_store w) hash o
      ∧ ∀ task, o = OutcomeAccepted task →
          polled = PollAttempted (Some (PollApproved (gs_reader (gt_snapshot task))))
          ∧ gt_task_id task = fresh_task_id.

Lemma settled_err from hash polled log e w :
  tracked from None log (λ _, True) w → settled from hash polled log (Err e) w.
Proof. by split. Qed.

Lemma settled_report from hash polled log Q o w :
  tracked from None log Q w → outcome_true (w_store w) hash o →
  (∀ task, o ≠ OutcomeAccepted task) → settled from hash polled log (Ok o) w.
Proof.
  intros Hw%tracked_triv Ho Hno. split; [done|]. intros o' [= <-]. split; [done|]. by intros task ?%Hno.
Qed.

Lemma report_restart_not o task : report_restart o ≠ OutcomeAccepted task.
Proof. destruct o as [a|]; cbn; [|done]. by repeat destruct (_ == _). Qed.
Lemma report_pending_not o task : report_pending o ≠ OutcomeAccepted task.
Proof. destruct o as [a|]; cbn; [|done]. by repeat destruct (_ == _). Qed.
Lemma report_expired_not o task : report_expired o ≠ OutcomeAccepted task.
Proof. destruct o as [a|]; cbn; [|done]. by destruct (_ == _). Qed.

Abbreviation Stands hash o := (λ s, ∀ a, o = Some a → attempt_stands s hash a).

Lemma settle_restart from hash generation polled log Q :
  triple (tracked from (Some (hash, generation)) log Q)
    (run_bind (λ o, run_ret (report_restart o))
       (Call (λ t s, require_restart s hash generation t)))
    (settled from hash polled log).
Proof.
  apply (call_then _ _ _ (λ _, None) _ _ (λ o g, Stands hash o (ps_state g))).
  - intros t g o s' _ _ Hk Hop.
    destruct (ps_end g hash generation s' Hk) as (g' & <- & ? & ?); [by eapply ends_restart|].
    exists g'. split_and!; [done|done|done|]. intros a ->. by eapply restart_stands.
  - intros o w Hw. eapply settled_report; [done| |apply report_restart_not].
    apply report_restart_true. by apply (tracked_store from None log (Stands hash o)).
  - apply settled_err.
Qed.

Lemma settle_confirm from hash generation polled log Q :
  triple (tracked from (Some (hash, generation)) log Q)
    (run_bind (λ o, run_ret (report_pending o))
       (Call (λ t s, confirm_pending_generation s hash generation t)))
    (settled from hash polled log).
Proof.
  apply (call_then _ _ _ (λ _, None) _ _ (λ o g, Stands hash o (ps_state g))).
  - intros t g o s' _ _ Hk Hop.
    destruct (ps_end g hash generation s' Hk) as (g' & <- & ? & ?); [by eapply ends_confirm|].
    exists g'. split_and!; [done|done|done|]. intros a ->. by eapply confirm_stands.
  - intros o w Hw. eapply settled_report; [done| |apply report_pending_not].
    apply report_pending_true. by apply (tracked_store from None log (Stands hash o)).
  - apply settled_err.
Qed.

Lemma settle_not_attempted from hash generation e log Q :
  triple (tracked from (Some (hash, generation)) log Q) (Settle hash generation (TransientBeforePoll e))
    (settled from hash (TransientBeforePoll e) log).
Proof.
  apply (call_then _ _ _ (λ _, None) _ _ (λ _ _, True)).
  - intros t g o s' _ _ Hk [= Hop].
    destruct (ps_end g hash generation s' Hk) as (g' & <- & ? & ?); [|by exists g'].
    pose proof (ends_not_attempted (ps_state g) hash generation) as He. by rewrite Hop in He.
  - intros [a|] w Hw; [by apply settled_err|by eapply settled_report].
  - apply settled_err.
Qed.

Lemma settle_accept from hash generation reader log Q :
  triple (tracked from (Some (hash, generation)) log Q)
    (Settle hash generation (PollAttempted (Some (PollApproved reader))))
    (settled from hash (PollAttempted (Some (PollApproved reader))) log).
Proof.
  set (ends := λ task s, outcome_true s hash (OutcomeAccepted task)
    ∧ gs_reader (gt_snapshot task) = reader ∧ gt_task_id task = fresh_task_id).
  apply (call_then _ _ _ (λ _, None) _ _ (λ o g, ∀ task, o = Some task → ends task (ps_state g))).
  - intros t g o s' Hr _ Hk Hop.
    destruct (ps_end g hash generation s' Hk) as (g' & <- & ? & ?); [by eapply ends_accept|].
    exists g'. split_and!; [done|done|done|]. intros task ->.
    eapply acceptance_true; [by apply (folded_reachable_ok cipher_key)|exact Hop].
  - intros [task|].
    + intros w Hw. pose proof (tracked_store from None log (λ s, ∀ t, Some task = Some t → ends t s) _ Hw)
        as Ht. destruct (Ht task eq_refl) as (Ht' & <- & Hid). split; [by eapply tracked_triv|].
      intros o [= <-]. split; [done|]. by intros task' [= <-].
    + apply (ask_then _ _ _ _ _ (λ o g, Stands hash o (ps_state g))).
      * intros g. apply get_stands.
      * intros o w Hw. eapply settled_report; [done| |apply report_expired_not].
        apply report_expired_true. by apply (tracked_store from None log (Stands hash o)).
      * apply settled_err.
  - apply settled_err.
Qed.

Lemma settle_done from hash generation polled log Q :
  triple (tracked from (Some (hash, generation)) log Q) (Settle hash generation polled)
    (settled from hash polled log).
Proof.
  destruct polled as [e| |[[|reader]|]].
  - apply settle_not_attempted.
  - apply settle_restart.
  - apply settle_confirm.
  - apply settle_accept.
  - apply settle_restart.
Qed.

Lemma renew_tracked n from hash generation log Q w :
  tracked from (Some (hash, generation)) log Q w →
  tracked from (Some (hash, generation)) log (λ _, True)
    (renew_lease authoritative_time fates others n hash generation w).2.
Proof.
  revert w Q. induction n as [|n IH]; intros w Q Hw; [by eapply tracked_triv|]. cbn.
  destruct Hw as (Hr & Hl & g & Hg & Hs & Hk & _).
  unfold folded_do, folded_call. set (t := authoritative_time (w_ticks w)).
  destruct (call fates others _ w) as [r w'] eqn:Hc.
  assert (w_entitlements w' = log) as Hlog
    by (by rewrite (call_log _ _ _ _ Hc)).
  destruct (ps_others (w_ticks w) g _ Hk) as (g1 & Hg1 & Hs1 & Hk1). rewrite Hg in Hg1.
  destruct (ps_renew g1 hash generation t Hk1) as (g2 & Hg2 & Hs2 & Hk2). rewrite Hg1 in Hg2.
  apply (IH w' (λ _, True)). split_and!; [done|done|].
  apply call_inv in Hc as [(a & _ & [= Ha])|(e & _ & [[_ Hw']|[_ [Hw'|(a & [= Ha])]]])].
  - exists g2. split_and!; [by rewrite Hg2, Ha|by etrans; [|etrans]|done|done].
  - exists g1. split_and!; [congruence|by etrans|done|done].
  - exists g1. split_and!; [congruence|by etrans|done|done].
  - exists g2. split_and!; [by rewrite Hg2, Ha|by etrans; [|etrans]|done|done].
Qed.

(** The attempt of the hash and generation is pending, nobody polls it, and its own
    envelope holds the secret. *)
Definition holds_secret (s : FoldedState) (hash : FoldedAuthStateHash) (generation : Z)
    (secret : FoldedAuthFlowSecret) : Prop :=
  ∃ st encrypted, st ∈ fo_records s ∧ sa_hash st = hash ∧ sa_generation st = generation
    ∧ sa_status st = FoldedPending ∧ fa_poll_dispatched (sa_attempt st) = false
    ∧ sa_encrypted_flow_secret st = Some encrypted
    ∧ folded_decrypt cipher_key (attempt_context (sa_attempt st)) encrypted = Ok secret.

Lemma restore_sound s hash r :
  restore_pending cipher_key s hash = Ok (Some r) →
  holds_secret s hash (fa_generation (ra_attempt r)) (ra_flow_secret r).
Proof.
  unfold restore_pending. destruct (find_first _ _) as [[i st]|] eqn:Hf; [|done].
  apply find_first_Some in Hf as [Hi Hh]. rewrite eqb_true in Hh.
  destruct (_ || _) eqn:Hd; [done|]. apply orb_false_iff in Hd as [Hp Hd].
  apply negb_false_iff in Hp. rewrite eqb_true in Hp.
  intros (enc & Henc%ok_or_Ok & (secret & Hs & [= <-])%bind_Ok)%bind_Ok.
  exists st, enc. split_and!; [by eapply list_elem_of_lookup_2|done..].
Qed.

(** How the wallet was asked between [from] and [final]: with the secret read from the
    attempt, after the attempt was marked, while the process held it. *)
Definition asked (from final : G) (hash : FoldedAuthStateHash) (e : PollEntry) : Prop :=
  pe_hash e = hash ∧ (∃ n, pe_answer e = poller n (pe_secret e))
  ∧ ∃ g1 g2 t a g3,
      rtc ps_step from g1 ∧ holds_secret (ps_state g1) hash (pe_generation e) (pe_secret e)
      ∧ rtc ps_step g1 g2
      ∧ mark_poll_dispatched (ps_state g2) hash (pe_generation e) t = (Some a, ps_state g3)
      ∧ rtc ps_step g2 g3 ∧ ps_holds (Some (hash, pe_generation e)) g3
      ∧ rtc ps_step g3 final.

(** What the poll of [hash] from [from] on has done. *)
Definition poll_done (from : G) (hash : FoldedAuthStateHash) (log : list PollEntry)
    (r : result ApplicationError PollFoldedAuthOutcome) (w : FoldedWorld) : Prop :=
  (∀ o, r = Ok o → outcome_true (w_store w) hash o)
  ∧ ∃ final, ps_state final = w_store w ∧ rtc ps_step from final ∧ ps_holds None final
    ∧ (w_entitlements w = log
       ∨ ∃ e, w_entitlements w = log ++ [e] ∧ asked from final hash e
           ∧ ∀ task, r = Ok (OutcomeAccepted task) →
               pe_answer e = PollAttempted (Some (PollApproved (gs_reader (gt_snapshot task))))
               ∧ gt_task_id task = fresh_task_id).

Lemma done_err from hash log Q e w : tracked from None log Q w → poll_done from hash log (Err e) w.
Proof. intros (_ & Hl & g & ? & ? & ? & _). split; [done|]. exists g. split_and!; [done..|by left]. Qed.

Lemma done_report from hash log Q o w :
  tracked from None log Q w → outcome_true (w_store w) hash o → poll_done from hash log (Ok o) w.
Proof.
  intros (_ & Hl & g & ? & ? & ? & _) Ho. split; [by intros o' [= <-]|].
  exists g. split_and!; [done..|by left].
Qed.

Lemma done_from from g hash log r w :
  rtc ps_step from g → poll_done g hash log r w → poll_done from hash log r w.
Proof.
  intros Hg (Ho & final & Hst & Hs & Hk & Hl). split; [done|]. exists final.
  split_and!; [done|by etrans|done|]. destruct Hl as [Hl|(e & Hl & He & Ha)]; [by left|right].
  exists e. split_and!; [done| |done].
  destruct He as (Hh & Hn & g1 & g2 & t & a & g3 & Hg1 & Hrest). split_and!; [done|done|].
  exists g1, g2, t, a, g3. split; [by etrans|done].
Qed.

(** To go on from where the process is. *)
Lemma anchored from key log Q w :
  tracked from key log Q w →
  ∃ g, Q g ∧ rtc ps_step from g ∧ tracked g key log (λ g', g' = g) w.
Proof.
  intros (Hr & Hl & g & Hg & Hs & Hk & HQ). exists g. split; [done|split; [done|]].
  split; [by eapply reachable_step, ps_legals|split; [done|by exists g]].
Qed.

(** The call of the poller and what follows. *)
Lemma polled_run hash generation secret w :
  let answer := poller (w_ticks w) secret in
  run_bind (λ polled, run_bind (λ t, Settle hash generation polled) (now clock))
    (poll_approval authoritative_time fates others poller renewals hash generation secret) w
  = run_bind (λ t, Settle hash generation answer) (now clock)
      (renew_lease authoritative_time fates others (renewals (w_ticks w + 1)) hash generation
         (MkWorld (w_store w) (w_entitlements w ++ [MkPollEntry hash generation secret answer])
            (w_ticks w + 1)%nat)).2.
Proof.
  intros answer. unfold run_bind at 1, poll_approval. cbn [w_store w_entitlements w_ticks].
  by destruct (renew_lease _ _ _ _ _ _ _).
Qed.

Lemma settle_then from hash generation polled log Q :
  triple (tracked from (Some (hash, generation)) log Q)
    (run_bind (λ t, Settle hash generation polled) (now clock)) (settled from hash polled log).
Proof. apply now_then. intros _. apply settle_done. Qed.

(** The attempt was marked since [from]. *)
Definition marked_since (from : G) (hash : FoldedAuthStateHash) (generation : Z) (g : G) : Prop :=
  ∃ g2 t a, rtc ps_step from g2 ∧ rtc ps_step g2 g
    ∧ mark_poll_dispatched (ps_state g2) hash generation t = (Some a, ps_state g).

Lemma polled_done from hash generation secret log :
  holds_secret (ps_state from) hash generation secret →
  triple (tracked from (Some (hash, generation)) log (marked_since from hash generation))
    (run_bind (λ polled, run_bind (λ t, Settle hash generation polled) (now clock))
       (poll_approval authoritative_time fates others poller renewals hash generation secret))
    (poll_done from hash log).
Proof.
  intros Hsec w Hw. apply anchored in Hw as (g3 & (g2 & t & a & Hg2 & Hg23 & Hm) & Hg3 & Hw).
  pose proof Hw as (Hr & Hl & ? & Hst & _ & Hk & ->). rewrite polled_run.
  set (entry := MkPollEntry hash generation secret (poller (w_ticks w) secret)).
  set (w1 := MkWorld _ _ _).
  assert (tracked g3 (Some (hash, generation)) (log ++ [entry]) (λ _, True) w1) as Hw1
    by (split_and!; [done|cbn; by rewrite Hl|by exists g3]).
  apply (renew_tracked (renewals (w_ticks w + 1))) in Hw1.
  destruct (settle_then _ _ _ (poller (w_ticks w) secret) _ _ _ Hw1) as ((_ & Hl' & final & Hf & Hs & Hk' & _) & Ho).
  split; [intros o Hr'; by apply (Ho o Hr')|]. exists final.
  split_and!; [done|by etrans|done|right]. exists entry. split_and!; [exact Hl'| |].
  - split_and!; [done|by eexists|]. exists from, g2, t, a, g3. by split_and!.
  - intros task Ht. destruct (Ho _ Ht) as [_ Hacc]. by apply Hacc.
Qed.

Lemma marked_done from hash generation secret log Q :
  holds_secret (ps_state from) hash generation secret →
  triple (tracked from None log Q)
    (run_bind (λ marked, match marked with
       | None => run_ret OutcomeStale
       | Some _ =>
           run_bind (λ polled, run_bind (λ t, Settle hash generation polled) (now clock))
             (poll_approval authoritative_time fates others poller renewals hash generation secret)
       end)
       (folded_do authoritative_time fates others (λ t s, mark_poll_dispatched s hash generation t)))
    (poll_done from hash log).
Proof.
  intros Hsec. apply (call_then _ _ _ (λ o, (λ _, (hash, generation)) <$> o) _ _
    (λ o g, is_Some o → marked_since from hash generation g)); [|intros [a|]|apply done_err].
  - intros t g [a|] s' _ Hs Hk [= Hm].
    + destruct (ps_begin g hash generation t a s' Hk Hm) as (g' & <- & Hs' & Hk').
      exists g'. split_and!; [done|done|done|]. intros _. by exists g, t, a.
    + exists g. split_and!; [|done|done|by intros []].
      unfold mark_poll_dispatched in Hm. destruct (exact_pending _ _ _) as [[i st]|]; [|by injection Hm].
      destruct (fa_poll_dispatched _); by injection Hm.
  - intros w Hw. apply (polled_done _ _ _ _ _ Hsec). eapply tracked_weaken; [exact Hw|]. cbn. eauto.
  - intros w Hw. by eapply done_report.
Qed.

Lemma pending_done from hash generation log Q :
  triple (tracked from None log Q)
    (poll_pending cipher_key clock authoritative_time fates others poller renewals fresh_task_id hash generation)
    (poll_done from hash log).
Proof.
  apply (call_then _ _ _ (λ _, None) _ _ (λ o g, ∀ r, o = Some r →
    holds_secret (ps_state g) hash (fa_generation (ra_attempt r)) (ra_flow_secret r))); [| |apply done_err].
  - intros t g o s' _ _ Hk (r & Hres & [= -> ->])%fmap_Ok. exists g. split_and!; [done|done|done|].
    intros r' ->. by apply restore_sound.
  - intros [r|] w Hw; [|by eapply done_report].
    destruct (negb _) eqn:Hg; [by eapply done_report|]. apply negb_false_iff, Z.eqb_eq in Hg. subst generation.
    apply anchored in Hw as (g & Hsec & Hg & Hw). specialize (Hsec r eq_refl).
    apply (done_from _ _ _ _ _ _ Hg). exact (marked_done _ _ _ _ _ _ Hsec w Hw).
Qed.

Lemma execute_done from hash log :
  triple (tracked from None log (λ _, True))
    (execute_poll cipher_key clock authoritative_time fates others poller renewals fresh_task_id hash)
    (poll_done from hash log).
Proof.
  apply now_then. intros before.
  apply (ask_then _ _ _ _ _ (λ o g, Stands hash o (ps_state g))); [intros g; apply get_stands| |apply done_err].
  intros [a|] w Hw; [|by eapply done_report].
  pose proof (tracked_store from None log (Stands hash (Some a)) w Hw a eq_refl) as Ha.
  destruct (fa_status a) eqn:Hs.
  - destruct (fa_poll_dispatched a); [eapply done_report; [done|by split]|].
    destruct (_ <=? before); [|by eapply pending_done]. revert w Hw Ha. intros w Hw _.
    revert w Hw. apply (call_then _ _ _ (λ _, None) _ _ (λ o g, Stands hash o (ps_state g)));
      [| |apply done_err].
    + intros t g o s' _ _ Hk Hop. destruct (ps_expire g _ _ _ _ _ Hk Hop) as (g' & <- & ? & ?).
      exists g'. split_and!; [done|done|done|]. intros a' ->. by eapply expire_stands.
    + intros o w Hw. eapply done_report; [done|]. apply report_expired_true.
      by apply (tracked_store from None log (Stands hash o)).
  - clear Ha. revert w Hw.
    apply (ask_then _ _ _ _ _ (λ o g, ∀ t, o = Some t → outcome_true (ps_state g) hash (OutcomeAccepted t)));
      [| |apply done_err].
    + intros g t. apply accepted_task_true.
    + intros [t|] w Hw; [|by eapply done_report]. eapply done_report; [done|].
      by apply (tracked_store from None log (λ s, ∀ t', Some t = Some t' → outcome_true s hash (OutcomeAccepted t')) w Hw).
  - by eapply done_report.
  - by eapply done_report.
Qed.
End safety.

(** * Any legal others *)

Section histories.
  Context `{Base32, TimeLaws, Base64UrlLaws, AeadLaws, PlaintextJsonLaws}.
  Context (cipher_key : bytes) (clock authoritative_time : nat → OffsetDateTime).
  Context (fates : nat → Fate) (others : nat → FoldedState → FoldedState).
  Context (poller : nat → FoldedAuthFlowSecret → FoldedAuthPollCall).
  Context (renewals : nat → nat) (fresh_task_id : TaskId).
  Hypothesis Hothers : ∀ n s, rtc (folded_step cipher_key) s (others n s).

Lemma ends_step s hash generation s' :
  poll_ends s hash generation s' → rtc (folded_step cipher_key) s s'.
Proof. destruct 1; [done|..]; apply rtc_once; econstructor; done. Qed.

(** The histories of the repository are such a system. *)
#[local] Instance history_system : PollSystem cipher_key others FoldedState.
Proof using Hothers.
  refine {| ps_state := id; ps_step := folded_step cipher_key; ps_holds := λ _ _, True |}; cbn.
  - intros g g' Hs. by apply rtc_once.
  - intros n g _ _. by exists (others n g).
  - intros g h n t r s' _ Hs. exists s'. split_and!; [done|by eapply rtc_once, fstep_expire|done].
  - intros g h n t a s' _ Hm. exists s'. split_and!; [done| |done]. apply rtc_once.
    pose proof (fstep_mark cipher_key g h n t) as Hs. by rewrite Hm in Hs.
  - intros g h n t _. eexists. split_and!; [done|by apply rtc_once, fstep_renew|done].
  - intros g h n s' _ He. exists s'. split_and!; [done|by eapply ends_step|done].
Defined.

(** C7: One poll of a folded attempt, whoever else acts between its calls - by any legal
    calls - and whichever calls are lost, keeps the repository in a legal history and
    reports the truth: the attempt it returns is stored under the hash with the status
    it reports, and a task it reports is a stored graph task under the handle of an
    accepted attempt of the hash.  It asks the wallet at most once: after the attempt was
    found pending with nobody polling it and was then marked as dispatched, with the
    secret in the attempt's own stored envelope, which is the one handed over when the
    attempt was started.  A task that follows is for exactly the reader the wallet named
    in answer to that secret. *)
Theorem poll_reports_truth hash w :
  folded_reachable cipher_key (w_store w) →
  let (r, w') := execute_poll cipher_key clock authoritative_time fates others poller renewals
                   fresh_task_id hash w in
  rtc (folded_step cipher_key) (w_store w) (w_store w')
  ∧ (∀ o, r = Ok o → outcome_true (w_store w') hash o)
  ∧ (w_entitlements w' = w_entitlements w
     ∨ ∃ e, w_entitlements w' = w_entitlements w ++ [e] ∧ pe_hash e = hash
         ∧ (∃ n, pe_answer e = poller n (pe_secret e))
         ∧ (∃ s1 st encrypted request s2 t a s3,
              rtc (folded_step cipher_key) (w_store w) s1
              ∧ st ∈ fo_records s1 ∧ sa_hash st = hash ∧ sa_generation st = pe_generation e
              ∧ sa_status st = FoldedPending ∧ fa_poll_dispatched (sa_attempt st) = false
              ∧ sa_encrypted_flow_secret st = Some encrypted
              ∧ folded_decrypt cipher_key (attempt_context (sa_attempt st)) encrypted = Ok (pe_secret e)
              ∧ started_by cipher_key s1 st request ∧ sf_flow_secret request = pe_secret e
              ∧ rtc (folded_step cipher_key) s1 s2
              ∧ mark_poll_dispatched s2 hash (pe_generation e) t = (Some a, s3)
              ∧ rtc (folded_step cipher_key) s3 (w_store w'))
         ∧ ∀ task, r = Ok (OutcomeAccepted task) →
             pe_answer e = PollAttempted (Some (PollApproved (gs_reader (gt_snapshot task))))
             ∧ gt_task_id task = fresh_task_id).
Proof using All.
  intros Hr. pose proof (execute_done cipher_key clock authoritative_time fates others poller renewals
    fresh_task_id (w_store w) hash (w_entitlements w) w) as Hd.
  destruct (execute_poll _ _ _ _ _ _ _ _ _ _) as [r w']. cbn in Hd.
  destruct Hd as (Ho & final & Hf & Hs & _ & Hl); [split_and!; [done|done|by exists (w_store w)]|].
  cbn in Hf, Hs. subst final. split_and!; [done|done|].
  destruct Hl as [Hl|(e & Hl & (Hh & Hn & g1 & g2 & t & a & g3 & Hg1 & Hsec & Hg2 & Hm & _ & _ & Hg3) & Ha)];
    [by left|right]. cbn in *.
  exists e. split_and!; [done|done|done| |done].
  destruct Hsec as (st & enc & Hin & Hsh & Hsg & Hst & Hd & Henc & Hdec).
  assert (folded_reachable cipher_key g1) as Hr1 by by eapply reachable_step.
  destruct (pending_started cipher_key g1 st Hr1 Hin Hst) as (request & Hreq).
  exists g1, st, enc, request, g2, t, a, g3. split_and!; try done.
  destruct (started_opens _ _ _ _ Hreq) as (enc' & Henc' & Hdec'). congruence.
Qed.
End histories.
