(* ===== verification/FoldedFlights.v ===== *)
(** Polls under way.

    An approval can be fetched from the wallet's relay only once, so two polls of one
    attempt must not run at a time.  The histories here are those of [FoldedSteps] seen
    together with the polls under way and the processes that run them: a process begins
    one when its [mark_poll_dispatched] succeeds, renews its lease while it lasts, and
    ends it with one call, or with none when the call or the process is lost.  That
    [execute_poll] is such a process, and asks the wallet only while it holds the poll,
    is proved by the interface [PollSystem] of [FoldedUse]. *)

From S2P Require Import Prelude RustStr Externals Ids Json LockPolicy Wire Errors Run.
From S2P Require Import GraphTask Fence GraphStore PaymentStore FoldedAuth FoldedStore.
From S2P Require Import FoldedInv FoldedSteps FoldedSafe FoldedUse.

Record Flights := MkFlights {
  fl_state : FoldedState;
  (** process, attempt and generation of every poll under way *)
  fl_polls : list (nat * (FoldedAuthStateHash * Z));
  (** the hashes of every state token there ever was *)
  fl_tokens : list FoldedAuthStateHash;
}.

Section flights.
  Context `{Base32, TimeLaws, Base64Url, Aead, PlaintextJson}.
  Context (cipher_key : bytes).

(** One step of process [p].  State tokens are random, so their hashes are new. *)
Inductive flight_step (p : nat) : Flights → Flights → Prop :=
  | fly_start fl request t nonce r s' :
      Z.of_nat (length nonce) = 24 → sf_state_hash request ∉ fl_tokens fl →
      start_or_rotate cipher_key (fl_state fl) request t nonce = Ok (r, s') →
      flight_step p fl (MkFlights s' (fl_polls fl) (sf_state_hash request :: fl_tokens fl))
  | fly_begin fl hash generation t a s' :
      mark_poll_dispatched (fl_state fl) hash generation t = (Some a, s') →
      flight_step p fl (MkFlights s' ((p, (hash, generation)) :: fl_polls fl) (fl_tokens fl))
  | fly_renew fl hash generation t :
      (p, (hash, generation)) ∈ fl_polls fl →
      flight_step p fl (MkFlights (renew_poll_dispatch (fl_state fl) hash generation t).2
                          (fl_polls fl) (fl_tokens fl))
  | fly_end fl before hash generation after s' :
      fl_polls fl = before ++ (p, (hash, generation)) :: after →
      poll_ends (fl_state fl) hash generation s' →
      flight_step p fl (MkFlights s' (before ++ after) (fl_tokens fl))
  | fly_expire fl hash generation t r s' :
      expire_attempt (fl_state fl) hash generation t = Ok (r, s') →
      flight_step p fl (MkFlights s' (fl_polls fl) (fl_tokens fl))
  | fly_purge fl t n s' :
      purge_terminal_before (fl_state fl) t = Ok (n, s') →
      flight_step p fl (MkFlights s' (fl_polls fl) (fl_tokens fl))
  | fly_other fl q q' :
      pr_fence q = fo_fence (fl_state fl) → other_step q q' →
      flight_step p fl (MkFlights (MkFoldedState (pr_fence q') (fo_records (fl_state fl)))
                          (fl_polls fl) (fl_tokens fl)).

Definition poll_key (st : StoredAttempt) : FoldedAuthStateHash * Z := (sa_hash st, sa_generation st).

Record flights_ok (fl : Flights) : Prop := {
  fl_ok : folded_ok (fl_state fl);
  fl_once : NoDup (fl_polls fl).*2;
  fl_known st : st ∈ fo_records (fl_state fl) → sa_hash st ∈ fl_tokens fl;
  fl_started k : k ∈ (fl_polls fl).*2 → k.1 ∈ fl_tokens fl;
  fl_dispatched st : st ∈ fo_records (fl_state fl) → poll_key st ∈ (fl_polls fl).*2 →
    sa_status st = FoldedPending → fa_poll_dispatched (sa_attempt st) = true;
}.

(** The underlying step. *)
Lemma flight_folded p fl fl' :
  flight_step p fl fl' → rtc (folded_step cipher_key) (fl_state fl) (fl_state fl').
Proof.
  destruct 1 as [fl rq t n r s' Hn _ Hs|fl h g t a s' Hm|fl h g t _|fl b h g a s' _ He
                |fl h g t r s' Hs|fl t n s' Hs|fl q q' Hp Ho]; cbn.
  - by eapply rtc_once, fstep_start.
  - apply rtc_once. pose proof (fstep_mark cipher_key (fl_state fl) h g t) as Hs. by rewrite Hm in Hs.
  - apply rtc_once. constructor.
  - destruct He; [done|..]; apply rtc_once; econstructor; done.
  - by eapply rtc_once, fstep_expire.
  - by eapply rtc_once, fstep_purge.
  - by eapply rtc_once, fstep_other.
Qed.

(** A write to the attempt of a key keeps the others. *)
Lemma write_keeps s hash generation s' st' :
  attempt_write s hash generation s' → folded_ok s → st' ∈ fo_records s' →
  st' ∈ fo_records s ∨ poll_key st' = (hash, generation).
Proof.
  intros [->|(i & st & x & Hp & Hrec & Hh & Hg & _)] Hok Hin; [by left|].
  apply exact_pending_Some in Hp as (Hi & Hh' & Hg' & _). rewrite Hrec in Hin.
  apply (elem_of_insert_at _ _ _ _ _ Hi) in Hin as [->|(j & _ & Hj)].
  - right. unfold poll_key. congruence.
  - left. by eapply list_elem_of_lookup_2.
Qed.

Lemma write_hash s hash generation s' st' :
  attempt_write s hash generation s' → st' ∈ fo_records s' →
  ∃ st, st ∈ fo_records s ∧ sa_hash st = sa_hash st'
    ∧ attempt_terms (sa_attempt st) = attempt_terms (sa_attempt st').
Proof.
  intros [->|(i & st & x & Hp & Hrec & Hh & _ & Ht & _)] Hin; [by exists st'|].
  apply exact_pending_Some in Hp as (Hi & _). rewrite Hrec in Hin.
  apply (elem_of_insert_at _ _ _ _ _ Hi) in Hin as [->|(j & _ & Hj)].
  - exists st. split; [by eapply list_elem_of_lookup_2|done].
  - exists st'. split; [by eapply list_elem_of_lookup_2|done].
Qed.

Lemma ends_writes s hash generation s' : poll_ends s hash generation s' → attempt_write s hash generation s'.
Proof.
  destruct 1; [by left|apply not_attempted_writes|by eapply confirm_writes|by eapply restart_writes
              |by eapply accept_writes].
Qed.

(** What a step leaves of an attempt that was there: the attempt, or one of its hash that
    has ended. *)
Definition kept_or_ended (s : FoldedState) (st' : StoredAttempt) : Prop :=
  st' ∈ fo_records s
  ∨ sa_status st' ≠ FoldedPending
    ∧ ∃ st, st ∈ fo_records s ∧ sa_hash st = sa_hash st'
        ∧ attempt_terms (sa_attempt st) = attempt_terms (sa_attempt st').

Lemma ended_at s i st st' x :
  fo_records s !! i = Some st → sa_hash st' = sa_hash st →
  attempt_terms (sa_attempt st') = attempt_terms (sa_attempt st) → sa_status st' ≠ FoldedPending →
  x ∈ <[i := st']> (fo_records s) → kept_or_ended s x.
Proof.
  intros Hi Hh Ht Hne [-> | (j & _ & Hj)]%(elem_of_insert_at _ _ _ _ _ Hi).
  - right. split; [done|]. exists st. split; [by eapply list_elem_of_lookup_2|done].
  - left. by eapply list_elem_of_lookup_2.
Qed.

Lemma expire_kept s hash generation t r s' st' :
  expire_attempt s hash generation t = Ok (r, s') → st' ∈ fo_records s' → kept_or_ended s st'.
Proof.
  intros Hc Hin. unfold expire_attempt in Hc.
  destruct (exact_pending _ _ _) as [[i st]|] eqn:Hp; [|injection Hc as _ <-; by left].
  apply exact_pending_Some in Hp as (Hi & _).
  destruct (t <? _); [injection Hc as _ <-; by left|]. apply bind_Ok in Hc as (p & _ & [= _ <-]).
  by eapply (ended_at s i st); [..|exact Hin].
Qed.

Lemma purge_keeps s t n s' st' :
  purge_terminal_before s t = Ok (n, s') → st' ∈ fo_records s' → kept_or_ended s st'.
Proof.
  intros (f & l & Hsw & -> & _)%purge_Ok [_ Hin]%list_elem_of_filter.
  pose proof (sweep_spec (fo_fence s) (fo_records s) t (t + FOLDED_AUTH_TOMBSTONE_TTL)) as [Hl _].
  rewrite Hsw in Hl. cbn in Hl. subst l. apply list_elem_of_fmap in Hin as (x & -> & Hx).
  unfold sweep_one. destruct (swept x t _) as [x'|] eqn:Hx'; cbn; [|by left].
  right. apply swept_Some in Hx' as (_ & status & Hs & ->).
  split; [by destruct Hs as [->| ->]|by exists x].
Qed.

Lemma start_keeps s request t nonce r s' st' :
  start_or_rotate cipher_key s request t nonce = Ok (r, s') → st' ∈ fo_records s' →
  kept_or_ended s st' ∨ sa_hash st' = sf_state_hash request.
Proof.
  intros (_ & g & l & enc & Ha & _ & Hl & Hrec)%start_encrypts Hin. rewrite Hl, Ha in Hin.
  apply elem_of_app in Hin as [Hin| ->%list_elem_of_singleton]; [left|by right].
  destruct Hrec as [->|(i & x & status & q & Hi & Hne & ->)]; [by left|].
  by eapply (ended_at s i x); [..|exact Hin].
Qed.

(** A poll begins on a pending attempt nobody polls. *)
Lemma mark_Some s hash generation t a s' :
  mark_poll_dispatched s hash generation t = (Some a, s') →
  ∃ i st, exact_pending s hash generation = Some (i, st) ∧ fa_poll_dispatched (sa_attempt st) = false
    ∧ fo_records s' = <[i := with_poll st (Some t)]> (fo_records s).
Proof.
  unfold mark_poll_dispatched. destruct (exact_pending _ _ _) as [[i st]|]; [|done].
  destruct (fa_poll_dispatched _) eqn:Hd; [done|]. intros [= _ <-]. by exists i, st.
Qed.

Lemma kept_dispatched fl st' :
  flights_ok fl → kept_or_ended (fl_state fl) st' →
  sa_hash st' ∈ fl_tokens fl
  ∧ (poll_key st' ∈ (fl_polls fl).*2 → sa_status st' = FoldedPending →
     fa_poll_dispatched (sa_attempt st') = true).
Proof.
  intros Hok [Hin|(Hne & st & Hin & <- & _)].
  - split; [by apply (fl_known _ Hok)|by apply (fl_dispatched _ Hok)].
  - split; [by apply (fl_known _ Hok)|done].
Qed.

Lemma begin_preserves p fl hash generation t a s' :
  flights_ok fl → folded_ok s' → mark_poll_dispatched (fl_state fl) hash generation t = (Some a, s') →
  flights_ok (MkFlights s' ((p, (hash, generation)) :: fl_polls fl) (fl_tokens fl)).
Proof.
  intros Hok Hok' (i & st & Hp & Hd & Hrec)%mark_Some.
  apply exact_pending_Some in Hp as (Hi & <- & <- & Hst).
  assert (st ∈ fo_records (fl_state fl)) as Hin by by eapply list_elem_of_lookup_2.
  split; cbn; [done|apply NoDup_cons; split; [|apply Hok]|..].
  - intros Hpoll. by rewrite (fl_dispatched _ Hok st Hin Hpoll Hst) in Hd.
  - intros x Hx. rewrite Hrec in Hx. apply (elem_of_insert_at _ _ _ _ _ Hi) in Hx as [->|(j & _ & Hj)];
      [by apply (fl_known _ Hok st)|]. apply (fl_known _ Hok). by eapply list_elem_of_lookup_2.
  - intros k [-> | Hk]%elem_of_cons; [by apply (fl_known _ Hok)|by apply (fl_started _ Hok)].
  - intros x Hx. rewrite Hrec in Hx. apply (elem_of_insert_at _ _ _ _ _ Hi) in Hx as [->|(j & Hne & Hj)];
      [done|]. intros [Heq|Hk]%elem_of_cons Hxp.
    + destruct Hne. injection Heq as Hxh _.
      eapply NoDup_lookup; [exact (fk_hashes _ (fl_ok _ Hok))|by rewrite list_lookup_fmap, Hj|].
      rewrite list_lookup_fmap, Hi. cbn. by rewrite Hxh.
    + apply (fl_dispatched _ Hok); [by eapply list_elem_of_lookup_2|done|done].
Qed.

Lemma renew_dispatches s hash generation t st' :
  st' ∈ fo_records (renew_poll_dispatch s hash generation t).2 →
  st' ∈ fo_records s ∨ fa_poll_dispatched (sa_attempt st') = true
    ∧ ∃ st, st ∈ fo_records s ∧ sa_hash st = sa_hash st'.
Proof.
  unfold renew_poll_dispatch. destruct (exact_pending _ _ _) as [[i st]|] eqn:Hp; [|by left].
  apply exact_pending_Some in Hp as (Hi & _). destruct (negb _); [by left|].
  intros [-> | (j & _ & Hj)]%(elem_of_insert_at _ _ _ _ _ Hi); [right|left; by eapply list_elem_of_lookup_2].
  split; [done|]. exists st. split; [by eapply list_elem_of_lookup_2|done].
Qed.

Lemma end_flight p fl before hash generation after s' :
  flights_ok fl → folded_ok s' → fl_polls fl = before ++ (p, (hash, generation)) :: after →
  poll_ends (fl_state fl) hash generation s' →
  flights_ok (MkFlights s' (before ++ after) (fl_tokens fl)).
Proof.
  intros Hok Hok' Hpolls He%ends_writes. pose proof (fl_once _ Hok) as Hnd. rewrite Hpolls, fmap_app, fmap_cons in Hnd. cbn in Hnd.
  assert (Hsub : ∀ k, k ∈ (before ++ after).*2 → k ∈ (fl_polls fl).*2 ∧ k ≠ (hash, generation)).
  { intros k Hk. rewrite Hpolls, fmap_app, fmap_cons. rewrite fmap_app in Hk. cbn. split; [set_solver|]. intros ->.
    apply NoDup_app in Hnd as (_ & Hb & [Ha _]%NoDup_cons).
    apply elem_of_app in Hk as [Hk|Hk]; [|done]. by apply (Hb _ Hk); left. }
  split; cbn; [done|..].
  - rewrite fmap_app. apply NoDup_app in Hnd as (? & Hb & [_ ?]%NoDup_cons). apply NoDup_app. split_and!; [done| |done].
    intros k Hk Hk'. by apply (Hb k Hk); right.
  - intros x Hx. destruct (write_hash _ _ _ _ _ He Hx) as (st & Hst & <- & _). by apply (fl_known _ Hok).
  - intros k [Hk _]%Hsub. by apply (fl_started _ Hok).
  - intros x Hx [Hk Hne]%Hsub Hxp.
    destruct (write_keeps _ _ _ _ _ He (fl_ok _ Hok) Hx) as [Hin|?]; [|done].
    by apply (fl_dispatched _ Hok).
Qed.

Lemma steps_ok s s' : rtc (folded_step cipher_key) s s' → folded_ok s → folded_ok s'.
Proof. induction 1 as [|x y z Hs _ IH]; [done|]. intros Hok. by eapply IH, step_preserves. Qed.

Lemma flight_preserves p fl fl' : flight_step p fl fl' → flights_ok fl → flights_ok fl'.
Proof.
  intros Hstep Hok. pose proof (steps_ok _ _ (flight_folded _ _ _ Hstep) (fl_ok _ Hok)) as Hok'.
  destruct Hstep as [fl rq t n r s' Hn Hnew Hs|fl h g t a s' Hm|fl h g t _|fl b h g a s' Hpolls He
    |fl h g t r s' Hs|fl t n s' Hs|fl q q' Hp Ho]; cbn in Hok'.
  - split; cbn; [done|apply Hok| | |].
    + intros x Hx. destruct (start_keeps _ _ _ _ _ _ _ Hs Hx) as [Hk| ->]; [right|by left].
      by apply (kept_dispatched fl).
    + intros k Hk. right. by apply (fl_started _ Hok).
    + intros x Hx Hk. destruct (start_keeps _ _ _ _ _ _ _ Hs Hx) as [Hkept|Hh].
      * by apply (kept_dispatched fl x Hok Hkept).
      * destruct Hnew. rewrite <- Hh. by apply (fl_started _ Hok (poll_key x)).
  - by eapply begin_preserves.
  - split; cbn; [done|apply Hok| |apply Hok|].
    + intros x [Hx|(_ & st & Hst & <-)]%renew_dispatches; by apply (fl_known _ Hok).
    + intros x [Hx|[Hd _]]%renew_dispatches Hk; [by apply (fl_dispatched _ Hok)|done].
  - by eapply end_flight.
  - split; cbn; [done|apply Hok| |apply Hok|]; intros x Hx;
      pose proof (expire_kept _ _ _ _ _ _ _ Hs Hx) as Hk; by apply (kept_dispatched fl).
  - split; cbn; [done|apply Hok| |apply Hok|]; intros x Hx;
      pose proof (purge_keeps _ _ _ _ _ Hs Hx) as Hk; by apply (kept_dispatched fl).
  - split; cbn; [done|apply Hok..].
Qed.

(** What an attempt was started with stays with its hash. *)
Lemma step_terms p fl fl' st' :
  flight_step p fl fl' → st' ∈ fo_records (fl_state fl') →
  (∃ st, st ∈ fo_records (fl_state fl) ∧ sa_hash st = sa_hash st'
     ∧ attempt_terms (sa_attempt st) = attempt_terms (sa_attempt st'))
  ∨ sa_hash st' ∉ fl_tokens fl.
Proof.
  assert (Hkept : ∀ s, kept_or_ended s st' → ∃ st, st ∈ fo_records s ∧ sa_hash st = sa_hash st'
    ∧ attempt_terms (sa_attempt st) = attempt_terms (sa_attempt st')).
  { intros s [Hin|(_ & Hst)]; [by exists st'|done]. }
  destruct 1 as [fl rq t n r s' Hn Hnew Hs|fl h g t a s' Hm|fl h g t _|fl b h g a s' Hpolls He
    |fl h g t r s' Hs|fl t n s' Hs|fl q q' Hp Ho]; cbn; intros Hin.
  - destruct (start_keeps _ _ _ _ _ _ _ Hs Hin) as [Hk| ->]; [left; by apply Hkept|by right].
  - left. pose proof (mark_writes (fl_state fl) h g t) as Hw. rewrite Hm in Hw. by eapply write_hash.
  - left. eapply write_hash; [apply renew_writes|exact Hin].
  - left. eapply write_hash; [by eapply ends_writes|exact Hin].
  - left. by eapply Hkept, expire_kept.
  - left. by eapply Hkept, purge_keeps.
  - left. by exists st'.
Qed.

Definition system_step (fl fl' : Flights) : Prop := ∃ p, flight_step p fl fl'.

Definition flights_reachable (fl : Flights) : Prop :=
  ∃ f, folded_auth_reservations f = ∅ ∧ rtc system_step (MkFlights (FoldedState_new f) [] []) fl.

Lemma flights_reachable_ok fl : flights_reachable fl → flights_ok fl.
Proof.
  intros (f & Hf & Hr).
  assert (flights_ok (MkFlights (FoldedState_new f) [] [])) as Hok.
  { split; cbn; [by apply folded_ok_new|constructor|by intros st ?%elem_of_nil..]. }
  induction Hr as [|a b c [p Hab] _ IH]; [done|]. by eapply IH, flight_preserves.
Qed.

Lemma system_folded fl fl' :
  rtc system_step fl fl' → rtc (folded_step cipher_key) (fl_state fl) (fl_state fl').
Proof. induction 1 as [|x y z [p Hs] _ IH]; [done|]. etrans; [by eapply flight_folded|done]. Qed.

Lemma flights_folded fl : flights_reachable fl → folded_reachable cipher_key (fl_state fl).
Proof. intros (f & Hf & Hr%system_folded). by exists f. Qed.

(** State tokens are never reissued: the attempt of a hash has the terms it started with. *)
Lemma system_keeps_terms fl fl' st st' :
  flights_ok fl → rtc system_step fl fl' → st ∈ fo_records (fl_state fl) →
  st' ∈ fo_records (fl_state fl') → sa_hash st' = sa_hash st →
  attempt_terms (sa_attempt st') = attempt_terms (sa_attempt st).
Proof.
  intros Hok Hsteps Hin. revert st'.
  cut (flights_ok fl' ∧ sa_hash st ∈ fl_tokens fl' ∧ ∀ st', st' ∈ fo_records (fl_state fl') →
    sa_hash st' = sa_hash st → attempt_terms (sa_attempt st') = attempt_terms (sa_attempt st));
    [intros (_ & _ & Hall); by intros st' ? ?; apply Hall|].
  refine (rtc_ind_r (λ fl', flights_ok fl' ∧ sa_hash st ∈ fl_tokens fl' ∧ ∀ st', _ → _ → _) _ _ _ _ Hsteps).
  - split_and!; [done|by apply fl_known|]. intros st' Hin' Hh.
    destruct (found_by_hash _ st (fl_ok _ Hok) Hin) as [i Hi].
    destruct (found_by_hash _ st' (fl_ok _ Hok) Hin') as [j Hj].
    rewrite Hh, Hi in Hj. by injection Hj as _ <-.
  - intros y z _ [p Hs] (Hy & Htok & Hall). split_and!; [by eapply flight_preserves| |].
    + destruct Hs; cbn; try done. by right.
    + intros st' Hin' Hh. destruct (step_terms _ _ _ _ Hs Hin') as [(x & Hx & Hxh & <-)|Hnew].
      * apply Hall; [done|congruence].
      * by rewrite Hh in Hnew.
Qed.

(** * The polls of one process *)

Definition mine (p : nat) (fl : Flights) : list (FoldedAuthStateHash * Z) :=
  (filter (λ x, x.1 = p) (fl_polls fl)).*2.

Lemma mine_elem p fl k : k ∈ mine p fl ↔ (p, k) ∈ fl_polls fl.
Proof.
  unfold mine. rewrite list_elem_of_fmap. setoid_rewrite list_elem_of_filter. split.
  - by intros ([q k'] & -> & [<- Hin]).
  - intros Hin. by exists (p, k).
Qed.

Lemma mine_of_others p q fl fl' : flight_step q fl fl' → q ≠ p → mine p fl' = mine p fl.
Proof.
  intros Hstep Hne. destruct Hstep; try done; unfold mine; cbn [fl_polls].
  - by rewrite filter_cons_False.
  - match goal with Hp : fl_polls _ = _ |- _ => rewrite Hp end.
    by rewrite !filter_app, filter_cons_False.
Qed.

(** A poll under way keeps its attempt from being polled again. *)
Lemma under_way fl p hash generation :
  flights_ok fl → (p, (hash, generation)) ∈ fl_polls fl →
  (∀ q, (q, (hash, generation)) ∈ fl_polls fl → q = p)
  ∧ (∀ st, st ∈ fo_records (fl_state fl) → poll_key st = (hash, generation) →
       sa_status st = FoldedPending →
       is_Some (sa_poll_dispatched_at st) ∧ restore_pending cipher_key (fl_state fl) hash = Ok None)
  ∧ ∀ t, mark_poll_dispatched (fl_state fl) hash generation t = (None, fl_state fl).
Proof.
  intros Hok Hp. assert ((hash, generation) ∈ (fl_polls fl).*2) as Hk
    by (apply list_elem_of_fmap; by exists (p, (hash, generation))).
  split_and!.
  - intros q Hq. apply list_elem_of_lookup in Hp as [i Hi], Hq as [j Hj].
    assert (i = j) as ->; [|congruence].
    eapply NoDup_lookup; [exact (fl_once _ Hok)|by rewrite list_lookup_fmap, Hi|].
    by rewrite list_lookup_fmap, Hj.
  - intros st Hin Hkey Hst. assert (fa_poll_dispatched (sa_attempt st) = true) as Hd
      by (apply (fl_dispatched _ Hok); [done|by rewrite Hkey|done]).
    destruct (fk_attempts _ (fl_ok _ Hok) st Hin) as (_ & Heq & _). rewrite Hd in Heq.
    split; [by destruct (sa_poll_dispatched_at st)|]. apply restore_none.
    intros x Hx Hxh _. destruct (found_by_hash _ st (fl_ok _ Hok) Hin) as [i Hi].
    destruct (found_by_hash _ x (fl_ok _ Hok) Hx) as [j Hj].
    injection Hkey as Hh _. rewrite Hxh, <- Hh, Hi in Hj. by injection Hj as _ <-.
  - intros t. unfold mark_poll_dispatched. destruct (exact_pending _ _ _) as [[i st]|] eqn:He; [|done].
    apply exact_pending_Some in He as (Hi & <- & <- & Hst).
    rewrite (fl_dispatched _ Hok st); [done|by eapply list_elem_of_lookup_2|done|done].
Qed.

(** * The polls of [execute_poll] *)

Section poll.
  Context (clock authoritative_time : nat → OffsetDateTime).
  Context (fates : nat → Fate) (others : nat → FoldedState → FoldedState).
  Context (poller : nat → FoldedAuthFlowSecret → FoldedAuthPollCall).
  Context (renewals : nat → nat) (fresh_task_id : TaskId).
  (** this process, and what the others do meanwhile: steps of their own *)
  Context (me : nat) (elsewhere : nat → Flights → Flights).
  Hypothesis Hsame : ∀ n fl, fl_state (elsewhere n fl) = others n (fl_state fl).
  Hypothesis Hothers : ∀ n fl,
    rtc (λ fl fl', ∃ p, p ≠ me ∧ flight_step p fl fl') fl (elsewhere n fl).

Lemma elsewhere_steps n fl :
  rtc system_step fl (elsewhere n fl) ∧ mine me (elsewhere n fl) = mine me fl.
Proof using Hothers.
  induction (Hothers n fl) as [|a b c (p & Hne & Hs) _ [IH1 IH2]]; [done|].
  split; [eapply rtc_l; [by exists p|done]|by rewrite IH2, (mine_of_others _ _ _ _ Hs)].
Qed.

Lemma mine_begin s fl hash generation tokens :
  mine me (MkFlights s ((me, (hash, generation)) :: fl_polls fl) tokens)
  = (hash, generation) :: mine me fl.
Proof. unfold mine. cbn [fl_polls]. by rewrite filter_cons_True. Qed.

Lemma mine_end fl hash generation :
  mine me fl = [(hash, generation)] →
  ∃ before after, fl_polls fl = before ++ (me, (hash, generation)) :: after
    ∧ ∀ s tokens, mine me (MkFlights s (before ++ after) tokens) = [].
Proof.
  intros Hm. assert ((me, (hash, generation)) ∈ fl_polls fl) as Hin
    by (apply mine_elem; rewrite Hm; by left).
  apply list_elem_of_split in Hin as (before & after & Heq). exists before, after. split; [done|].
  intros s tokens. unfold mine in *. cbn [fl_polls]. rewrite Heq, filter_app, filter_cons_True in Hm by done.
  rewrite filter_app. apply (f_equal length) in Hm. rewrite length_fmap, length_app in Hm. cbn in Hm.
  apply length_zero_iff_nil. rewrite length_fmap, length_app. lia.
Qed.

(** [execute_poll] moves in the system as one of its processes. *)
#[local] Instance flight_system : PollSystem cipher_key others Flights.
Proof using Hsame Hothers.
  refine {| ps_state := fl_state; ps_step := system_step;
            ps_holds := λ key fl, mine me fl = option_list key |}; cbn.
  - intros g g' [p Hs]. by eapply flight_folded.
  - intros n g key Hk. destruct (elsewhere_steps n g) as [Hs Hm].
    exists (elsewhere n g). by rewrite Hsame, Hm.
  - intros g h n t r s' Hk Hs. eexists. split_and!; [|eapply rtc_once; exists me; by eapply fly_expire|]; done.
  - intros g h n t a s' Hk Hm. eexists. split_and!; [|eapply rtc_once; exists me; by eapply fly_begin|]; [done|].
    by rewrite mine_begin, Hk.
  - intros g h n t Hk. eexists. split_and!; [|eapply rtc_once; exists me; eapply fly_renew|]; [done| |done].
    apply mine_elem. rewrite Hk. by left.
  - intros g h n s' Hk He. destruct (mine_end _ _ _ Hk) as (b & a & Hp & Hm).
    eexists. split_and!; [|eapply rtc_once; exists me; by eapply fly_end|]; [done|apply Hm].
Defined.

End poll.
End flights.
