(* ===== verification/FoldedServer.v ===== *)
(** The handlers of version 2 submissions and of folded status lookups
    ([locks-server/src/api/verification.rs]).

    Both repositories a submission may reach share the fence, so the store here is the
    payment repository, whose fence is the shared one, and the folded attempts.  The
    locks read, the wallet flow and the identifiers drawn are functions of the moment. *)

From S2P Require Import Prelude RustStr Externals Ids Json LockPolicy Wire Errors ApiErrors.
From S2P Require Import Run RateLimit GraphTask PaymentTask Fence GraphStore PaymentStore.
From S2P Require Import FoldedAuth FoldedStore FoldedInv FoldedSteps FoldedSafe FoldedUse.
From S2P Require Secrets.

Record V2State := MkV2State {
  v2_payments : PaymentRepo;
  v2_attempts : list StoredAttempt;
}.

Definition v2_folded (s : V2State) : FoldedState :=
  MkFoldedState (pr_fence (v2_payments s)) (v2_attempts s).

Definition with_folded (s : V2State) (fs : FoldedState) : V2State :=
  MkV2State (MkPaymentRepo (fo_fence fs) (pr_records (v2_payments s))) (fo_records fs).

Inductive V2Response :=
  | V2PaymentTask (task : PaymentTaskRecord)
  | V2AuthPending (auth_url state : string) (expires_at : OffsetDateTime)
  | V2AuthAccepted (task : GraphTaskRecord)
  | V2OriginDenied
  | V2RateLimited (retry_after_seconds : Z).

Definition invalid_request : ApiError := MkApiError CodeInvalidRequest "invalid request".
Definition content_lock_not_found : ApiError :=
  MkApiError CodeContentLockNotFound "content lock not found".
Definition folded_auth_unavailable : ApiError :=
  MkApiError CodeFoldedAuthUnavailable "folded auth is unavailable".

(** Handlers: computations that end in a response or an [ApiError]. *)
Definition V2Run (E A : Type) : Type := Act V2State E (result ApiError A).
Definition v2_bind {E A B} (f : A → V2Run E B) (m : V2Run E A) : V2Run E B := λ w,
  match m w with
  | (Ok a, w') => f a w'
  | (Err e, w') => (Err e, w')
  end.
Definition v2_ok {E A} (a : A) : V2Run E A := λ w, (Ok a, w).
Definition v2_err {E A} (e : ApiError) : V2Run E A := λ w, (Err e, w).
(** The [?] operator on a call of a port. *)
Definition v2_api {E A} (m : Run V2State E A) : V2Run E A := λ w,
  let (r, w') := m w in (map_err ApiError_from r, w').

Declare Scope v2_scope.
Delimit Scope v2_scope with v2.
Notation "x ⟸ m ; k" := (v2_bind (λ x, k) m)
  (at level 20, m at level 100, k at level 200, right associativity) : v2_scope.

(** * Origins ([config/validation.rs], [api/routes.rs]) *)

Record ParsedUrl := MkUrl {
  url_scheme : string;
  url_host : option string;
  url_username : string;
  url_password : option string;
  url_path : string;
  url_query : option string;
  url_fragment : option string;
  (** [origin().ascii_serialization()] *)
  url_ascii_origin : string;
}.

(** The crates [url] and [http]. *)
Class WebCrates := {
  url_parse : string → option ParsedUrl;
  (** [HeaderValue::to_str] *)
  header_to_str : bytes → option string;
}.

Definition canonical_grant_origin `{WebCrates} (value : string) : option string :=
  parsed ← url_parse value;
  let origin := url_ascii_origin parsed in
  if (url_scheme parsed != "https") || is_none (url_host parsed) || (url_username parsed != "")
     || is_some (url_password parsed) || (url_path parsed != "/") || is_some (url_query parsed)
     || is_some (url_fragment parsed) || (origin != value)
  then None else Some origin.

Definition auth_origin_allowed `{WebCrates} (allowed_origins : list string) (origin : string) : bool :=
  match canonical_grant_origin origin with
  | Some origin => existsb (λ allowed, allowed == origin) allowed_origins
  | None => false
  end.

(** The check of an [Origin] header against the grant configuration, if there is one. *)
Definition header_origin_allowed `{WebCrates} (allowed_return_origins : option (list string))
    (origin : bytes) : bool :=
  is_some_and (λ origin,
    is_some_and (λ allowed, auth_origin_allowed allowed origin) allowed_return_origins)
    (header_to_str origin).

(** What [auth_cors] looks at, and the headers it sets besides [no-store]. *)
Record CorsRequest := MkCorsRequest {
  cr_is_submission : bool;
  cr_origins : list bytes;
  cr_is_preflight : bool;
}.

Inductive CorsDecision :=
  | CorsForbidden
  | CorsPassed (allow_origin : option bytes) (preflight_headers : bool).

(** [origin_denied]: whether the handler marked its response so. *)
Definition auth_cors `{WebCrates} (allowed_return_origins : option (list string))
    (request : CorsRequest) (origin_denied : bool) : CorsDecision :=
  let origin := head (cr_origins request) in
  let duplicate_origin := (1 <? length (cr_origins request))%nat in
  if negb (negb duplicate_origin
           && (cr_is_submission request
               || is_none_or (header_origin_allowed allowed_return_origins) origin))
  then CorsForbidden
  else match origin with
       | Some origin =>
           if origin_denied then CorsPassed None false
           else CorsPassed (Some origin) (cr_is_preflight request)
       | None => CorsPassed None false
       end.

Section handlers.
  Context `{WebCrates} `{Base32, PubkyKeys, MimeCrate, Blake3, JsonCanonicalizer, UnicodeCase, UuidCrate}.
  Context `{TimeCrate, Base64Url, Aead, PlaintextJson}.
  Context `{Countable K} (limits : SubmissionRateLimitConfig).
  Context (cipher_key : bytes) (clock authoritative_time : nat → OffsetDateTime).
  Context (fates : nat → Fate) (others : nat → V2State → V2State).
  (** the published locks, the fresh identifiers and the wallet flows *)
  Context (content_locks : nat → CreatorPubky → ContentLockPath →
             result ApplicationError (option ContentLockPayload)).
  Context (generate_task_id : nat → result ApplicationError TaskId).
  Context (starter : nat → string → result ApplicationError (string * FoldedAuthFlowSecret)).
  (** what of it the server is configured with *)
  Context (folded_configured starter_configured paykit_configured : bool).
  (** the origins grants may return to, when grants are configured *)
  Context (allowed_return_origins : option (list string)).

  Abbreviation Handler := (V2Run (gmap K WindowCounter)).
  Abbreviation Port := (Run V2State (gmap K WindowCounter)).

Definition get_lock (resource : PubkyLockResource) : Port (option ContentLockPayload) := λ w,
  (content_locks (w_ticks w) (resource_creator resource) (resource_content_lock_path resource),
   MkWorld (w_store w) (w_entitlements w) (w_ticks w + 1)%nat).

Definition next_task_id : Port TaskId := λ w,
  (generate_task_id (w_ticks w), MkWorld (w_store w) (w_entitlements w) (w_ticks w + 1)%nat).

Definition start_flow (key_id : string) : Port (string * FoldedAuthFlowSecret) := λ w,
  (starter (w_ticks w) key_id, MkWorld (w_store w) (w_entitlements w) (w_ticks w + 1)%nat).

(** Calls of the two repositories, which read their own clock. *)
Definition on_folded {A}
    (op : OffsetDateTime → FoldedState → result ApplicationError (A * FoldedState)) : Port A := λ w,
  let t := authoritative_time (w_ticks w) in
  call fates others (λ s, (λ '(a, fs), (a, with_folded s fs)) <$> op t (v2_folded s)) w.

Definition on_payments {A}
    (op : OffsetDateTime → PaymentRepo → result ApplicationError (A * PaymentRepo)) : Port A := λ w,
  let t := authoritative_time (w_ticks w) in
  call fates others (λ s, (λ '(a, p), (a, MkV2State p (v2_attempts s))) <$> op t (v2_payments s)) w.

(** The version 2 lock a submission is for. *)
Definition submitted_lock (submitted : SubmittedProofBundleV2) : Handler ContentLockV2 := (
  found ⟸ v2_api (get_lock (sb2_pubky_lock_resource submitted));
  match found with
  | None => v2_err content_lock_not_found
  | Some payload =>
      match validate_content_lock_submission payload (SubmittedV2 submitted) with
      | Err _ => v2_err invalid_request
      | Ok _ =>
          match payload with
          | LockV1 _ => v2_err invalid_request
          | LockV2 lock => v2_ok lock
          end
      end
  end)%v2.

Definition required_lock_hash (lock : ContentLockV2) : Handler LockHash :=
  match lock_hash_v2 lock with Some h => v2_ok h | None => v2_err invalid_request end.

Definition exact_match (existing : FoldedAuthAttempt) (submitted : SubmittedProofBundleV2)
    (lock_hash : LockHash) (lock : ContentLockV2) (graph : GraphPolicyV2) : bool :=
  (fa_submitted_proof_bundle existing == submitted)
  && (fa_pubky_lock_resource existing == sb2_pubky_lock_resource submitted)
  && (fa_lock_hash existing == lock_hash)
  && (fa_verification_window_seconds existing =? cl2_verification_window_seconds lock)
  && (fa_graph existing == graph).

(** A new wallet flow; [token] and [key_id] are the UUIDs drawn. *)
Definition new_flow (submitted : SubmittedProofBundleV2) (lock : ContentLockV2) (graph : GraphPolicyV2)
    (lock_hash : LockHash) (token key_id : Uuid) (nonce : bytes) : Handler V2Response := (
  flow ⟸ v2_api (start_flow (uuid_hyphenated key_id));
  created_at ⟸ v2_api (now clock);
  started ⟸ v2_api (on_folded (λ t s,
    start_or_rotate cipher_key s
      (MkStart submitted (sb2_pubky_lock_resource submitted) lock_hash
         (cl2_verification_window_seconds lock) graph
         (FoldedAuthStateHash_derive (Secrets.as_bytes (uuid_hyphenated token))) flow.2 created_at)
      t nonce));
  v2_ok (V2AuthPending flow.1 (uuid_hyphenated token) (fa_expires_at (fsr_attempt started))))%v2.

Definition start_folded_auth (submitted : SubmittedProofBundleV2) (token key_id : Uuid)
    (nonce : bytes) : Handler V2Response := (
  if negb (folded_configured && starter_configured) then v2_err folded_auth_unavailable
  else
    lock ⟸ submitted_lock submitted;
    match cl2_payment lock, cl2_graph lock with
    | Some _, _ | None, None => v2_err invalid_request
    | None, Some graph =>
        lock_hash ⟸ required_lock_hash lock;
        existing ⟸ v2_api (on_folded (λ _ s, Ok
          (get_latest_by_handle s (resource_creator (sb2_pubky_lock_resource submitted),
                                   sb2_bundle_id submitted), s)));
        match existing with
        | Some existing =>
            if negb (exact_match existing submitted lock_hash lock graph)
            then v2_err (ApiError_from VerificationTaskConflict)
            else if fa_status existing == FoldedAccepted then
              task ⟸ v2_api (on_folded (λ _ s, Ok
                (folded_accepted_graph_task s (fa_state_hash existing), s)));
              match task with
              | Some task => v2_ok (V2AuthAccepted task)
              | None => v2_err (ApiError_from (Storage "accepted folded auth task is missing"))
              end
            else new_flow submitted lock graph lock_hash token key_id nonce
        | None => new_flow submitted lock graph lock_hash token key_id nonce
        end
    end)%v2.

(** [origin]: the [Origin] header, for browsers. *)
Definition start_v2_verification (origin : option bytes) (submitted : SubmittedProofBundleV2)
    (token key_id : Uuid) (nonce : bytes) : Handler V2Response := (
  lock ⟸ submitted_lock submitted;
  match cl2_graph lock, cl2_payment lock with
  | None, Some payment =>
      if negb paykit_configured
      then v2_err (MkApiError CodePaykitNotConfigured "paykit is not configured")
      else
        lock_hash ⟸ required_lock_hash lock;
        task_id ⟸ v2_api next_task_id;
        task ⟸ v2_api (on_payments (λ t s,
          admit_payment_task s
            (MkAdmitPaymentTask task_id submitted (LockHash_as_bytes lock_hash) payment
               (cl2_verification_window_seconds lock)) t));
        v2_ok (V2PaymentTask task)
  | Some _, None =>
      match origin with
      | Some origin =>
          if header_origin_allowed allowed_return_origins origin
          then start_folded_auth submitted token key_id nonce
          else v2_ok V2OriginDenied
      | None => start_folded_auth submitted token key_id nonce
      end
  | _, _ => v2_err invalid_request
  end)%v2.

Definition check_rate (key : K) : Port RateLimitDecision := λ w,
  let (d, windows) := submission_check limits (w_entitlements w) key (clock (w_ticks w)) in
  (Ok d, MkWorld (w_store w) windows (w_ticks w + 1)%nat).

(** A version 2 bundle; [client] is the rate limit's key of the request. *)
Definition submit_v2 (client : K) (origin : option bytes) (submitted : SubmittedProofBundleV2)
    (token key_id : Uuid) (nonce : bytes) : Handler V2Response := (
  existing ⟸ v2_api (on_payments (λ _ s, Ok
    (get_payment_task_by_handle s (resource_creator (sb2_pubky_lock_resource submitted),
                                   sb2_bundle_id submitted), s)));
  match existing with
  | Some existing =>
      if pt_submitted_proof_bundle (ptr_snapshot existing) != submitted
      then v2_err (ApiError_from VerificationTaskConflict)
      else v2_ok (V2PaymentTask existing)
  | None =>
      decision ⟸ v2_api (check_rate client);
      if negb (allowed decision)
      then v2_ok (V2RateLimited (default 0 (retry_after decision)))
      else start_v2_verification origin submitted token key_id nonce
  end)%v2.

(** * Status lookups *)

Inductive FoldedAuthStatusHttpResponse :=
  | FoldedStatusPending (expires_at : OffsetDateTime)
  | FoldedStatusAccepted (task : GraphTaskRecord)
  | FoldedStatusRestartRequired
  | FoldedStatusExpired (expired_at : OffsetDateTime).

Definition status_error (e : ApplicationError) : ApiError :=
  match e with
  | VerificationDependencyUnavailable => folded_auth_unavailable
  | other => ApiError_from other
  end.

Definition status_response (o : PollFoldedAuthOutcome) :
    result ApiError FoldedAuthStatusHttpResponse :=
  match o with
  | OutcomePending attempt => Ok (FoldedStatusPending (fa_expires_at attempt))
  | OutcomeAccepted task => Ok (FoldedStatusAccepted task)
  | OutcomeRestartRequired _ => Ok FoldedStatusRestartRequired
  | OutcomeExpired attempt =>
      Ok (FoldedStatusExpired (default (fa_expires_at attempt) (fa_terminal_at attempt)))
  | OutcomeStale => Err (MkApiError CodeFoldedAuthStateNotFound "folded auth state not found")
  end.

(** [poll] is [execute_poll] with the ports of the server. *)
Definition lookup_folded_auth_status (poller_configured : bool)
    (poll : FoldedAuthStateHash → PollRun PollFoldedAuthOutcome) (state : string) :
    World FoldedState (list PollEntry) →
    result ApiError FoldedAuthStatusHttpResponse * World FoldedState (list PollEntry) := λ w,
  if (String.length state =? 0)%nat || (512 <? String.length state)%nat
  then (Err invalid_request, w)
  else if negb (folded_configured && poller_configured) then (Err folded_auth_unavailable, w)
  else
    let (r, w) := poll (FoldedAuthStateHash_derive (Secrets.as_bytes state)) w in
    (o ← map_err status_error r; status_response o, w).
End handlers.

(** * What a submission is answered with *)

Lemma v2_bind_Ok {E A B} (f : A → V2Run E B) (m : V2Run E A) w b w' :
  v2_bind f m w = (Ok b, w') → ∃ a w1, m w = (Ok a, w1) ∧ f a w1 = (Ok b, w').
Proof. unfold v2_bind. destruct (m w) as [[a|e] w1]; [by eauto|done]. Qed.

Lemma v2_api_Ok {E A} (m : Run V2State E A) w a w' : v2_api m w = (Ok a, w') → m w = (Ok a, w').
Proof. unfold v2_api. destruct (m w) as [[x|e] w1]; [|done]. by intros [= <- <-]. Qed.

Lemma v2_ok_Ok {E A} (a b : A) (w w' : World V2State E) : v2_ok a w = (Ok b, w') → a = b ∧ w = w'.
Proof. by intros [= -> ->]. Qed.

(** Inverts a handler that has answered into its calls. *)
Ltac v2_run H :=
  repeat (let Hc := fresh "Hc" in apply v2_bind_Ok in H as (? & ? & Hc & H);
          try apply v2_api_Ok in Hc).

Section answers.
  Context `{WebCrates} `{Base32, PubkyKeys, MimeCrate, Blake3, JsonCanonicalizer, UnicodeCase, UuidCrate}.
  Context `{!TimeCrate, !TimeLaws, Base64Url, Aead, PlaintextJson}.
  Context `{Countable K} (limits : SubmissionRateLimitConfig).
  Context (cipher_key : bytes) (clock authoritative_time : nat → OffsetDateTime).
  Context (fates : nat → Fate) (others : nat → V2State → V2State).
  Context (content_locks : nat → CreatorPubky → ContentLockPath →
             result ApplicationError (option ContentLockPayload)).
  Context (generate_task_id : nat → result ApplicationError TaskId).
  Context (starter : nat → string → result ApplicationError (string * FoldedAuthFlowSecret)).
  Context (folded_configured starter_configured paykit_configured : bool).
  Context (allowed_return_origins : option (list string)).
  (** a hash finds one attempt, and state tokens are not reissued: an attempt keeps what it
      was started with (as every system of [FoldedFlights] does, [system_keeps_terms]) *)
  Context (Honce : ∀ n s, NoDup (sa_hash <$> v2_attempts s) → NoDup (sa_hash <$> v2_attempts (others n s))).
  Context (Hkept : ∀ n s st st', NoDup (sa_hash <$> v2_attempts s) →
             st ∈ v2_attempts s → st' ∈ v2_attempts (others n s) → sa_hash st' = sa_hash st →
             attempt_terms (sa_attempt st') = attempt_terms (sa_attempt st)).

  Abbreviation V2World := (World V2State (gmap K WindowCounter)).
  Abbreviation seen w := (others (w_ticks w) (w_store w)).

(** An answered call had its effect on what the others left. *)
Lemma on_folded_Ok {A} (op : OffsetDateTime → FoldedState → result ApplicationError (A * FoldedState))
    (w : V2World) a w' :
  on_folded authoritative_time fates others op w = (Ok a, w') →
  ∃ fs, op (authoritative_time (w_ticks w)) (v2_folded (seen w)) = Ok (a, fs) ∧ w_store w' = with_folded (seen w) fs.
Proof.
  intros [(x & [= ->] & Hop)|(e & ? & _)]%call_inv; [|done].
  apply fmap_Ok in Hop as ([y fs] & Hop & [= -> ->]). by exists fs.
Qed.

Lemma on_payments_Ok {A} (op : OffsetDateTime → PaymentRepo → result ApplicationError (A * PaymentRepo))
    (w : V2World) a w' :
  on_payments authoritative_time fates others op w = (Ok a, w') →
  ∃ p, op (authoritative_time (w_ticks w)) (v2_payments (seen w)) = Ok (a, p) ∧ w_store w' = MkV2State p (v2_attempts (seen w)).
Proof.
  intros [(x & [= ->] & Hop)|(e & ? & _)]%call_inv; [|done].
  apply fmap_Ok in Hop as ([y p] & Hop & [= -> ->]). by exists p.
Qed.

(** The lock a submission was checked against. *)
Definition lock_for (submitted : SubmittedProofBundleV2) (lock : ContentLockV2) : Prop :=
  (∃ n, content_locks n (resource_creator (sb2_pubky_lock_resource submitted))
          (resource_content_lock_path (sb2_pubky_lock_resource submitted)) = Ok (Some (LockV2 lock)))
  ∧ validate_content_lock_submission (LockV2 lock) (SubmittedV2 submitted) = Ok ().

Lemma submitted_lock_Ok submitted (w : V2World) lock w' :
  submitted_lock content_locks submitted w = (Ok lock, w') →
  lock_for submitted lock ∧ w_store w' = w_store w.
Proof.
  intros Hs. apply v2_bind_Ok in Hs as (found & w1 & Hc%v2_api_Ok & Hs).
  unfold get_lock in Hc. injection Hc as Hget <-.
  destruct found as [payload|]; [|done].
  destruct (validate_content_lock_submission _ _) as [[]|] eqn:Hv; [|done].
  destruct payload as [|l]; [done|]. injection Hs as <- <-. split; [|done]. split; [by eauto|done].
Qed.

(** The submitted bundle under the handle of a task. *)
Definition payment_answer (s : V2State) (submitted : SubmittedProofBundleV2) (t : PaymentTaskRecord) :
    Prop :=
  (∃ st, st ∈ pr_records (v2_payments s) ∧ sp_task st = t)
  ∧ pt_submitted_proof_bundle (ptr_snapshot t) = submitted.

(** The terms a new task was admitted with are those of the lock. *)
Definition admitted_for (lock : ContentLockV2) (submitted : SubmittedProofBundleV2)
    (t : PaymentTaskRecord) : Prop :=
  ∃ hash payment candidate,
    lock_hash_v2 lock = Some hash ∧ cl2_payment lock = Some payment ∧ cl2_graph lock = None
    ∧ PaymentTaskSnapshotV1_new submitted (LockHash_as_bytes hash) payment
        (pt_accepted_at (ptr_snapshot t)) (cl2_verification_window_seconds lock) = Ok candidate
    ∧ has_same_admission_binding (ptr_snapshot t) candidate = true.

Definition pending_answer (s : V2State) (submitted : SubmittedProofBundleV2) (state : string)
    (expires_at : OffsetDateTime) : Prop :=
  ∃ lock graph hash st, lock_for submitted lock ∧ cl2_payment lock = None ∧ cl2_graph lock = Some graph
    ∧ lock_hash_v2 lock = Some hash ∧ st ∈ v2_attempts s ∧ sa_status st = FoldedPending
    ∧ sa_hash st = FoldedAuthStateHash_derive (Secrets.as_bytes state)
    ∧ exact_match (sa_attempt st) submitted hash lock graph = true
    ∧ fa_expires_at (sa_attempt st) = expires_at.

(** The task of the accepted attempt that is stored under the handle of the submission,
    for the submission and the terms of its lock. *)
Definition accepted_answer (s : V2State) (submitted : SubmittedProofBundleV2) (task : GraphTaskRecord) :
    Prop :=
  let handle := (resource_creator (sb2_pubky_lock_resource submitted), sb2_bundle_id submitted) in
  ∃ lock graph hash st, lock_for submitted lock ∧ cl2_payment lock = None ∧ cl2_graph lock = Some graph
    ∧ lock_hash_v2 lock = Some hash ∧ st ∈ v2_attempts s ∧ sa_status st = FoldedAccepted
    ∧ sa_handle st = handle ∧ exact_match (sa_attempt st) submitted hash lock graph = true
    ∧ gt_handle task = handle
    ∧ ∃ g, g ∈ graph_records (fo_fence (v2_folded s)) ∧ sg_task g = task.

Lemma exact_match_terms a a' submitted hash lock graph :
  attempt_terms a' = attempt_terms a →
  exact_match a' submitted hash lock graph = exact_match a submitted hash lock graph.
Proof. unfold exact_match. by intros [= _ _ -> -> -> -> ->]. Qed.

Lemma binding_refl s : has_same_admission_binding s s = true.
Proof. unfold has_same_admission_binding. by rewrite !eqb_same, !Z.eqb_refl. Qed.

Lemma snapshot_of_new submitted hash payment accepted_at window s :
  PaymentTaskSnapshotV1_new submitted hash payment accepted_at window = Ok s →
  pt_accepted_at s = accepted_at ∧ pt_submitted_proof_bundle s = submitted.
Proof. intros Hn. unfold PaymentTaskSnapshotV1_new in Hn. peel. by subst. Qed.

Lemma admit_answer s request t at_ p :
  admit_payment_task s request at_ = Ok (t, p) →
  (∃ st, st ∈ pr_records p ∧ sp_task st = t)
  ∧ pt_submitted_proof_bundle (ptr_snapshot t) = adm_submitted_proof_bundle request
  ∧ ∃ candidate,
      PaymentTaskSnapshotV1_new (adm_submitted_proof_bundle request) (adm_lock_hash request)
        (adm_payment request) (pt_accepted_at (ptr_snapshot t))
        (adm_verification_window_seconds request) = Ok candidate
      ∧ has_same_admission_binding (ptr_snapshot t) candidate = true.
Proof.
  intros Ha. unfold admit_payment_task in Ha. destruct (find_first _ _) as [[i st]|] eqn:Hf.
  - apply find_first_Some in Hf as [Hi _]. apply bind_Ok in Ha as (c & Hc%map_err_Ok & Ha).
    destruct (has_same_admission_binding _ _) eqn:Hb; [|done]. injection Ha as <- <-.
    split_and!; [exists st; split; [by eapply list_elem_of_lookup_2|done]| |by exists c].
    apply snapshot_of_new in Hc as [_ <-]. unfold has_same_admission_binding in Hb. by props.
  - apply bind_Ok in Ha as ([] & _ & ([] & _ & (c & Hc%map_err_Ok & [= <- <-])%bind_Ok)%bind_Ok).
    pose proof Hc as [Hat Hsub]%snapshot_of_new. split_and!; [|done|].
    + eexists. split; [apply elem_of_app; right; apply list_elem_of_singleton; reflexivity|done].
    + exists c. cbn. rewrite Hat. split; [done|apply binding_refl].
Qed.

Lemma new_flow_answer submitted lock graph hash token key_id nonce (w : V2World) r w' :
  lock_for submitted lock → cl2_payment lock = None → cl2_graph lock = Some graph →
  lock_hash_v2 lock = Some hash →
  new_flow cipher_key clock authoritative_time fates others starter submitted lock graph hash token key_id nonce w
    = (Ok r, w') →
  ∃ url expires_at, r = V2AuthPending url (uuid_hyphenated token) expires_at
    ∧ pending_answer (w_store w') submitted (uuid_hyphenated token) expires_at.
Proof.
  intros Hfor Hpay Hgraph Hhash Hn.
  apply v2_bind_Ok in Hn as ([url secret] & w1 & _ & Hn).
  apply v2_bind_Ok in Hn as (created & w2 & _ & Hn).
  apply v2_bind_Ok in Hn as (started & w4 & Hs%v2_api_Ok & [<- <-]%v2_ok_Ok).
  apply on_folded_Ok in Hs as (fs & Hs & ->). cbn.
  apply start_encrypts in Hs as (_ & g & l & enc & Ha & _ & Hl & _). cbn in *.
  do 2 eexists. split; [done|]. unfold pending_answer.
  exists lock, graph, hash, (MkStoredAttempt (fsr_attempt started) (Some enc) None).
  unfold sa_status, sa_hash. cbn. rewrite Hl, Ha. split_and!; try done.
  - set_solver.
  - unfold exact_match. cbn. by rewrite !eqb_same, Z.eqb_refl.
Qed.

Lemma start_answer submitted token key_id nonce (w : V2World) r w' :
  NoDup (sa_hash <$> v2_attempts (w_store w)) →
  start_folded_auth cipher_key clock authoritative_time fates others content_locks starter folded_configured
    starter_configured submitted token key_id nonce w = (Ok r, w') →
  (∃ url expires_at, r = V2AuthPending url (uuid_hyphenated token) expires_at
     ∧ pending_answer (w_store w') submitted (uuid_hyphenated token) expires_at)
  ∨ ∃ task, r = V2AuthAccepted task ∧ accepted_answer (w_store w') submitted task.
Proof.
  intros Hnd Hs. unfold start_folded_auth in Hs. destruct (negb _); [done|].
  apply v2_bind_Ok in Hs as (lock & w1 & [Hfor Hw1]%submitted_lock_Ok & Hs).
  destruct (cl2_payment lock) eqn:Hpay; [done|]. destruct (cl2_graph lock) as [graph|] eqn:Hgraph; [|done].
  apply v2_bind_Ok in Hs as (hash & w2 & Hh & Hs).
  unfold required_lock_hash in Hh. destruct (lock_hash_v2 lock) as [h|] eqn:Hhash; [|done].
  injection Hh as -> ->. apply v2_bind_Ok in Hs as (existing & w3 & Hget%v2_api_Ok & Hs).
  apply on_folded_Ok in Hget as (fs & [= Hget <-] & Hw3).
  destruct existing as [a|]; [|left; by eapply new_flow_answer].
  destruct (exact_match a submitted hash lock graph) eqn:Hm; [cbn in Hs|done].
  destruct (fa_status a == FoldedAccepted) eqn:Hst; [|left; by eapply new_flow_answer].
  rewrite eqb_true in Hst. apply v2_bind_Ok in Hs as (task & w4 & Ht%v2_api_Ok & Hs).
  apply on_folded_Ok in Ht as (fs & [= Ht <-] & Hw4).
  destruct task as [task|]; [|done]. apply v2_ok_Ok in Hs as [<- <-].
  right. exists task. split; [done|].
  apply fmap_Some in Hget as ([i st0] & (Hi & Hhandle & _)%latest_index_Some & ->).
  apply accepted_task_true in Ht as ((st & Hst' & Hh & Hacc & Htask) & g & Hg & Hgt).
  assert (st0 ∈ v2_attempts (w_store w3)) as Hst0 by (rewrite Hw3; by eapply list_elem_of_lookup_2).
  assert (NoDup (sa_hash <$> v2_attempts (w_store w3))) as Hnd3
    by (rewrite Hw3; apply Honce; by rewrite Hw1).
  pose proof (Hkept _ _ _ _ Hnd3 Hst0 Hst' Hh) as Hterms.
  assert (sa_handle st = sa_handle st0) as Hhs
    by (unfold attempt_terms in Hterms; unfold sa_handle, fa_handle; congruence).
  exists lock, graph, hash, st. rewrite Hw4. split_and!; try done.
  - by rewrite Hhs.
  - by rewrite (exact_match_terms _ _ _ _ _ _ Hterms).
  - by rewrite Htask, Hhs.
  - by exists g.
Qed.

(** What an answer says. *)
Definition answer_true (submitted : SubmittedProofBundleV2) (origin : option bytes) (token : Uuid)
    (w : V2World) (r : V2Response) (w' : V2World) : Prop :=
  match r with
  | V2PaymentTask task =>
      payment_answer (w_store w') submitted task
      ∧ ((∃ st, st ∈ pr_records (v2_payments (seen w)) ∧ sp_task st = task)
         ∨ paykit_configured = true ∧ ∃ lock, lock_for submitted lock ∧ admitted_for lock submitted task)
  | V2AuthPending _ state expires_at =>
      state = uuid_hyphenated token
      ∧ pending_answer (w_store w') submitted state expires_at
      ∧ (∀ o, origin = Some o → header_origin_allowed allowed_return_origins o = true)
  | V2AuthAccepted task =>
      accepted_answer (w_store w') submitted task
      ∧ (∀ o, origin = Some o → header_origin_allowed allowed_return_origins o = true)
  | V2OriginDenied =>
      (∃ o, origin = Some o ∧ header_origin_allowed allowed_return_origins o = false)
      ∧ w_store w' = seen w
  | V2RateLimited _ => w_store w' = seen w
  end.

Lemma start_v2_answer origin submitted token key_id nonce w r w' (w0 : V2World) :
  w_store w = seen w0 → NoDup (sa_hash <$> v2_attempts (w_store w)) →
  start_v2_verification cipher_key clock authoritative_time fates others content_locks generate_task_id starter
    folded_configured starter_configured paykit_configured allowed_return_origins origin submitted
    token key_id nonce w = (Ok r, w') →
  answer_true submitted origin token w0 r w'.
Proof.
  intros Hw0 Hnd Hs. unfold start_v2_verification in Hs.
  apply v2_bind_Ok in Hs as (lock & w1 & [Hfor Hw1]%submitted_lock_Ok & Hs).
  destruct (cl2_graph lock) as [graph|] eqn:Hgraph, (cl2_payment lock) as [payment|] eqn:Hpay; try done.
  - assert (Hdone : ∀ w, w_store w = seen w0 → start_folded_auth cipher_key clock authoritative_time fates others content_locks starter
        folded_configured starter_configured submitted token key_id nonce w = (Ok r, w') →
        (∀ o, origin = Some o → header_origin_allowed allowed_return_origins o = true) →
        answer_true submitted origin token w0 r w').
    { intros w2 Hw2 Hs2 Ho. rewrite Hw0, <- Hw2 in Hnd.
      by apply (start_answer _ _ _ _ _ _ _ Hnd) in Hs2 as [(u & e & -> & Hp)|(t & -> & Ht)]. }
    destruct origin as [o|]; [|eapply Hdone; [|exact Hs|done]; congruence].
    destruct (header_origin_allowed _ o) eqn:Ho; [eapply Hdone; [|exact Hs|by intros ? [= <-]]; congruence|].
    injection Hs as <- <-. split; [by exists o|congruence].
  - destruct paykit_configured eqn:Hpk; [cbn in Hs|done].
    apply v2_bind_Ok in Hs as (hash & w2 & Hh & Hs).
    unfold required_lock_hash in Hh. destruct (lock_hash_v2 lock) as [h|] eqn:Hhash; [|done].
    injection Hh as -> ->. apply v2_bind_Ok in Hs as (id & w3 & _ & Hs).
    apply v2_bind_Ok in Hs as (task & w5 & Ht%v2_api_Ok & [<- <-]%v2_ok_Ok).
    apply on_payments_Ok in Ht as (p & Ha & Hw5).
    apply admit_answer in Ha as (Hst & Hsub & c & Hc & Hb). cbn in *. split.
    + split; [|done]. by rewrite Hw5.
    + right. split; [done|]. exists lock. split; [done|]. by exists hash, payment, c.
Qed.

(** C22: Whichever calls are lost and whatever is done in between - by others that do not
    reissue a state token - what a version 2 submission is answered with is so: a payment
    task is stored with exactly this bundle, and was there before or has the terms of the
    lock; a wallet flow belongs to a pending attempt stored under the hash of the token
    handed out, with the bundle, the graph policy, the window and the hash of the lock; a
    task shown as accepted is stored under the handle of the submission, where an accepted
    attempt with exactly this bundle and these terms of the lock is stored.  A wallet flow
    starts, or its task is shown, only for an origin grants may return to; a denied origin
    and a rate limit leave everything as it was. *)
Theorem v2_submission_answer client origin submitted token key_id nonce (w : V2World) r w' :
  NoDup (sa_hash <$> v2_attempts (w_store w)) →
  submit_v2 limits cipher_key clock authoritative_time fates others content_locks generate_task_id starter
    folded_configured starter_configured paykit_configured allowed_return_origins client origin
    submitted token key_id nonce w = (Ok r, w') →
  answer_true submitted origin token w r w'.
Proof.
  intros Hnd Hs. unfold submit_v2 in Hs.
  apply v2_bind_Ok in Hs as (existing & w1 & He%v2_api_Ok & Hs).
  apply on_payments_Ok in He as (p & [= He <-] & Hw1).
  assert (w_store w1 = seen w) as Hw1' by (rewrite Hw1; by destruct (seen w)).
  destruct existing as [t|].
  - destruct (pt_submitted_proof_bundle _ == submitted) eqn:Hb; [cbn in Hs|done].
    rewrite eqb_true in Hb. apply v2_ok_Ok in Hs as [<- <-].
    unfold get_payment_task_by_handle in He. apply fmap_Some in He as ([i st] & Hf & ->).
    apply find_first_Some in Hf as [Hi _]. rewrite <- Hw1' in Hi.
    assert (st ∈ pr_records (v2_payments (w_store w1))) as Hin by by eapply list_elem_of_lookup_2.
    split; [split; [by exists st|done]|left]. exists st. by rewrite <- Hw1'.
  - apply v2_bind_Ok in Hs as (d & w2 & Hd%v2_api_Ok & Hs).
    assert (w_store w2 = seen w) as Hw2.
    { unfold check_rate in Hd. destruct (submission_check _ _ _ _) as [d' ws]. by injection Hd as _ <-. }
    destruct (negb (allowed d)).
    + apply v2_ok_Ok in Hs as [<- <-]. done.
    + eapply start_v2_answer; [done| |exact Hs]. rewrite Hw2. by apply Honce.
Qed.

(** * Cross-origin requests *)

(** A browser may read a response, its own origin echoed, only when it sent a single
    origin; outside submissions that origin is one grants may return to, spelt as it is
    configured, and a submission a handler refused for its origin is not readable. *)
Lemma auth_cors_echo request origin_denied o preflight :
  auth_cors allowed_return_origins request origin_denied = CorsPassed (Some o) preflight →
  cr_origins request = [o] ∧ origin_denied = false ∧ preflight = cr_is_preflight request
  ∧ (cr_is_submission request = false →
     ∃ text allowed, header_to_str o = Some text ∧ allowed_return_origins = Some allowed
       ∧ text ∈ allowed).
Proof.
  unfold auth_cors. destruct (cr_origins request) as [|o1 [|o2 os]] eqn:Ho; cbn.
  - by destruct (negb _).
  - destruct (negb _) eqn:Hn; [done|]. destruct origin_denied; [done|]. intros [= <- <-].
    split_and!; [done|done|done|]. intros Hsub. rewrite Hsub in Hn. apply negb_false_iff in Hn.
    unfold header_origin_allowed in Hn. cbn in Hn.
    destruct (header_to_str o1) as [text|]; [cbn in Hn|done].
    destruct allowed_return_origins as [allowed|]; [cbn in Hn|done]. exists text, allowed.
    split_and!; [done|done|]. unfold auth_origin_allowed, canonical_grant_origin in Hn.
    destruct (url_parse text) as [u|]; [cbn in Hn|done].
    destruct (url_ascii_origin u == text) eqn:Hu; [rewrite eqb_true in Hu|by rewrite !orb_true_r in Hn].
    destruct (_ || _); [done|]. apply existsb_exists in Hn as (x & Hx & Heq).
    rewrite eqb_true in Heq. apply list_elem_of_In. congruence.
  - done.
Qed.
End answers.

(** * What a status lookup reports *)

Section status.
  Context `{Base32, TimeLaws, Base64Url, Aead, PlaintextJson, Blake3}.
  Context (cipher_key : bytes) (clock authoritative_time : nat → OffsetDateTime).
  Context (fates : nat → Fate) (others : nat → FoldedState → FoldedState).
  Context (poller : nat → FoldedAuthFlowSecret → FoldedAuthPollCall).
  Context (renewals : nat → nat) (fresh_task_id : TaskId).
  Context (folded_configured poller_configured : bool).
  Hypothesis Hothers : ∀ n s, rtc (folded_step cipher_key) s (others n s).

  Abbreviation lookup :=
    (lookup_folded_auth_status folded_configured poller_configured
       (execute_poll cipher_key clock authoritative_time fates others poller renewals fresh_task_id)).

Definition status_true (s : FoldedState) (hash : FoldedAuthStateHash)
    (r : FoldedAuthStatusHttpResponse) : Prop :=
  match r with
  | FoldedStatusPending expires_at =>
      ∃ st, st ∈ fo_records s ∧ sa_hash st = hash ∧ sa_status st = FoldedPending
        ∧ fa_expires_at (sa_attempt st) = expires_at
  | FoldedStatusAccepted task => outcome_true s hash (OutcomeAccepted task)
  | FoldedStatusRestartRequired =>
      ∃ st, st ∈ fo_records s ∧ sa_hash st = hash ∧ sa_status st = FoldedRestartRequired
  | FoldedStatusExpired expired_at =>
      ∃ st, st ∈ fo_records s ∧ sa_hash st = hash ∧ sa_status st = FoldedExpired
        ∧ fa_terminal_at (sa_attempt st) = Some expired_at
  end.

(** A status lookup polls under the hash of the token it is given; what it answers is the
    state of the attempt of that hash, with the time an expired one ended at, and it
    makes the wallet be asked at most once. *)
Theorem folded_status_answer state (w : World FoldedState (list PollEntry)) r w' :
  folded_reachable cipher_key (w_store w) → lookup state w = (Ok r, w') →
  let hash := FoldedAuthStateHash_derive (Secrets.as_bytes state) in
  (0 < String.length state ≤ 512)%nat
  ∧ folded_reachable cipher_key (w_store w') ∧ status_true (w_store w') hash r
  ∧ (w_entitlements w' = w_entitlements w
     ∨ ∃ e, w_entitlements w' = w_entitlements w ++ [e] ∧ pe_hash e = hash
         ∧ ∀ task, r = FoldedStatusAccepted task →
             pe_answer e = PollAttempted (Some (PollApproved (gs_reader (gt_snapshot task))))).
Proof.
  intros Hr Hl hash. unfold lookup_folded_auth_status in Hl.
  destruct (String.length state =? 0)%nat eqn:Hempty; [done|].
  destruct (512 <? _)%nat eqn:Hlong; [done|].
  cbn [orb] in Hl. destruct (negb _); [done|].
  pose proof (execute_done cipher_key clock authoritative_time fates others poller renewals fresh_task_id
    (PollSystem0 := history_system cipher_key others Hothers) (w_store w) hash (w_entitlements w) w) as Hd.
  destruct Hd as (Htrue & final & Hf & Hr' & _ & Hlog); [split_and!; [done|done|by exists (w_store w)]|].
  destruct (execute_poll _ _ _ _ _ _ _ _ _ w) as [[o|e] w1]; [|done]. cbn in Hf, Hr'. subst final.
  apply (reachable_step _ _ _ Hr) in Hr'.
  cbn [fst snd map_err] in *. rewrite bind_of_Ok in Hl. injection Hl as Ho <-.
  specialize (Htrue o eq_refl). apply Nat.eqb_neq in Hempty. apply Nat.ltb_ge in Hlong.
  split_and!; [lia|done|done| |].
  - destruct o as [a|task|a|a|]; cbn in Ho; [..|done]; injection Ho as <-; [|done|..];
      destruct Htrue as [(st & Hin & <- & Hh) Hst]; exists st; try done.
    split_and!; [done|done|done|].
    destruct (fk_attempts _ (folded_reachable_ok _ _ Hr') st Hin) as (_ & _ & Hst').
    unfold sa_status in Hst'. rewrite Hst in Hst'. cbn in Hst'.
    by destruct Hst' as (_ & _ & (t & -> & _) & _).
  - destruct Hlog as [?|(e & Hl & (Hpe & _) & Hacc)]; [by left|right]. exists e. split_and!; [done|done|].
    intros task ->. destruct o as [a|task'|a|a|]; cbn in Ho; try done. injection Ho as ->.
    by destruct (Hacc task eq_refl).
Qed.
End status.
