(* ===== verification/TaskTables.v ===== *)
(** The tables behind the graph and the folded authorisation adapters
    ([locks-service/migrations/], [infrastructure/postgres/graph_tasks.rs],
    [infrastructure/postgres/folded_auth.rs]).

    A table is a finite map from its primary key to rows; a row has the columns the
    statements of the two adapters read or write, [updated_at] apart.  A JSON column
    holds the value it was written from.  A statement that leaves a row outside a
    [CHECK] fails, and its transaction with it.  A statement reads the clock once. *)

From S2P Require Import Prelude RustStr Externals Ids Json LockPolicy Wire Errors.
From S2P Require Import Lifecycle GraphTask PaymentTask Fence FoldedAuth.

(** A [TIMESTAMPTZ] holds microseconds. *)
Class PgTime := { pg_timestamp : OffsetDateTime → OffsetDateTime }.

Class PgTimeLaws `{PgTime} := {
  pg_timestamp_exact t : t mod 1000 = 0 → pg_timestamp t = t;
}.

(** The text of an [sqlx] error is not modelled. *)
Definition sqlx_error : ApplicationError := Storage "".

(** * Rows *)

Inductive EvaluatorSnapshot :=
  | GraphColumn (snapshot : GraphTaskSnapshotV1)
  | PaymentColumn (snapshot : PaymentTaskSnapshotV1).

Inductive EntitlementColumn :=
  | EntitlementV1 (bundle : VerifiedProofBundle)
  | EntitlementV2 (bundle : VerifiedProofBundleV2).

(** [verification_tasks], by [task_id]. *)
Record VerificationTaskRow := MkVerificationTaskRow {
  vt_creator : string;
  vt_bundle_id : string;
  vt_status : string;
  vt_submitted_proof_bundle : Json;
  vt_submitted_at : OffsetDateTime;
  vt_started_at : option OffsetDateTime;
  vt_completed_at : option OffsetDateTime;
  vt_failure_message : option string;
  vt_terminal_reason : option string;
  vt_claimed_by : option string;
  vt_claim_token : option Uuid;
  vt_claim_expires_at : option OffsetDateTime;
  vt_attempt_count : Z;
  vt_next_attempt_at : option OffsetDateTime;
  vt_invoice_admission_phase : string;
  vt_entitlement_to_publish : option EntitlementColumn;
  vt_entitlement_publication_claim_token : option Uuid;
  vt_deletion_job_id : option Uuid;
  vt_evaluator_mode : option string;
  vt_evaluator_snapshot : option EvaluatorSnapshot;
  vt_evaluator_revision : Z;
}.

(** [folded_auth_attempts], by [state_hash]. *)
Record FoldedAuthRow := MkFoldedAuthRow {
  far_creator : string;
  far_bundle_id : string;
  far_generation : Z;
  far_status : string;
  far_submitted_proof_bundle : SubmittedProofBundleV2;
  far_pubky_lock_resource : string;
  far_lock_hash : bytes;
  far_verification_window_seconds : Z;
  far_graph_policy : GraphPolicyV2;
  far_encrypted_flow_secret : option string;
  far_created_at : OffsetDateTime;
  far_expires_at : OffsetDateTime;
  far_poll_dispatched_at : option OffsetDateTime;
  far_terminal_at : option OffsetDateTime;
  far_purge_after : option OffsetDateTime;
  far_task_id : option TaskId;
}.

#[global] Program Instance FoldedAuthStateHash_countable : Countable FoldedAuthStateHash :=
  inj_countable' FoldedAuthStateHash_as_bytes MkStateHash _.
Next Obligation. by intros []. Qed.

(** The deletion jobs and the receipts of forced deletions, by creator and lock; the tasks
    that deletions have captured. *)
Record LocksDb := MkLocksDb {
  ld_tasks : gmap TaskId VerificationTaskRow;
  ld_deletion_jobs : gset (string * string);
  ld_force_receipts : gset (string * string);
  ld_task_snapshots : gset TaskId;
  ld_folded : gmap FoldedAuthStateHash FoldedAuthRow;
}.

Definition ld_with_tasks (db : LocksDb) (tasks : gmap TaskId VerificationTaskRow) : LocksDb :=
  MkLocksDb tasks (ld_deletion_jobs db) (ld_force_receipts db) (ld_task_snapshots db) (ld_folded db).
Definition ld_with_folded (db : LocksDb) (folded : gmap FoldedAuthStateHash FoldedAuthRow) : LocksDb :=
  MkLocksDb (ld_tasks db) (ld_deletion_jobs db) (ld_force_receipts db) (ld_task_snapshots db) folded.

(** * Checks *)

(** [NULLIF(BTRIM(s), '') IS NOT NULL]. *)
Definition not_blank (s : option string) : bool :=
  is_some_and (λ s, existsb (λ c, c != Ascii.ascii_of_nat 32) (list_ascii_of_string s)) s.

Definition one_of (values : list string) (s : option string) : bool :=
  is_some_and (λ s, existsb (λ v, v == s) values) s.

Definition row_unclaimed (row : VerificationTaskRow) : bool :=
  is_none (vt_claimed_by row) && is_none (vt_claim_token row) && is_none (vt_claim_expires_at row).
Definition row_claimed (row : VerificationTaskRow) : bool :=
  is_some (vt_claimed_by row) && is_some (vt_claim_token row) && is_some (vt_claim_expires_at row).

(** [verification_tasks_state_check]. *)
Definition state_check (row : VerificationTaskRow) : bool :=
  let status := vt_status row in
  if status == "pending" then
    is_none (vt_started_at row) && is_none (vt_completed_at row)
    && is_none (vt_failure_message row) && is_none (vt_terminal_reason row)
    && is_none (vt_entitlement_to_publish row)
    && (row_unclaimed row
        || ((vt_invoice_admission_phase row == "invoice_pending") && row_claimed row))
  else if status == "in_progress" then
    is_some (vt_started_at row) && is_none (vt_completed_at row)
    && is_none (vt_failure_message row) && is_none (vt_terminal_reason row)
    && is_none (vt_entitlement_to_publish row) && (row_unclaimed row || row_claimed row)
  else if status == "publishing_entitlement" then
    is_some (vt_started_at row) && is_none (vt_completed_at row)
    && is_none (vt_failure_message row) && is_none (vt_terminal_reason row)
    && is_some (vt_entitlement_to_publish row) && (row_unclaimed row || row_claimed row)
  else if status == "completed" then
    is_some (vt_started_at row) && is_some (vt_completed_at row)
    && is_none (vt_failure_message row) && is_none (vt_terminal_reason row)
    && is_some (vt_entitlement_to_publish row) && row_unclaimed row
  else if status == "failed" then
    is_some (vt_started_at row) && is_some (vt_completed_at row)
    && ((not_blank (vt_failure_message row) && is_none (vt_terminal_reason row))
        || (is_none (vt_failure_message row)
            && one_of ["verification_unavailable_by_deadline"; "invalid_verifier_response";
                       "verification_conflict"] (vt_terminal_reason row)))
    && is_none (vt_entitlement_to_publish row) && row_unclaimed row
  else if status == "expired" then
    is_some (vt_started_at row) && is_some (vt_completed_at row)
    && is_none (vt_failure_message row)
    && one_of ["payment_request_rejected"; "payment_request_canceled"; "proposal_expired";
               "payment_deadline_expired"; "content_lock_deleted";
               "graph_condition_not_observed_by_deadline"] (vt_terminal_reason row)
    && is_none (vt_entitlement_to_publish row) && row_unclaimed row
  else false.

(** The checks of [folded_auth_attempts]. *)
Definition folded_check (hash : FoldedAuthStateHash) (row : FoldedAuthRow) : bool :=
  let status := far_status row in
  (0 <? far_generation row)
  && (length (FoldedAuthStateHash_as_bytes hash) =? 32)%nat
  && (length (far_lock_hash row) =? 32)%nat
  && in_range 60 604800 (far_verification_window_seconds row)
  && (far_expires_at row =? far_created_at row + FOLDED_AUTH_TTL)
  && (if status == "pending" then
        is_some (far_encrypted_flow_secret row) && is_none (far_terminal_at row)
        && is_none (far_purge_after row) && is_none (far_task_id row)
      else
        is_none (far_encrypted_flow_secret row) && is_some (far_terminal_at row)
        && is_some (far_purge_after row)
        && (if status == "accepted" then is_some (far_task_id row)
            else ((status == "expired") || (status == "restart_required"))
                 && is_none (far_task_id row)))
  && ((status == "pending") || is_none (far_poll_dispatched_at row)).

(** * Statements *)

(** A row of [verification_tasks] is written. *)
Definition write_task (db : LocksDb) (id : TaskId) (row : VerificationTaskRow) :
    result ApplicationError LocksDb :=
  if state_check row then Ok (ld_with_tasks db (<[id := row]> (ld_tasks db))) else Err sqlx_error.

Definition row_handle (row : VerificationTaskRow) : string * string :=
  (vt_creator row, vt_bundle_id row).

Definition handle_texts (handle : HandleKey) : string * string :=
  (CreatorPubky_display handle.1, BundleId_display handle.2).

Definition handle_exists (db : LocksDb) (handle : HandleKey) : bool :=
  existsb (λ '(_, row), row_handle row == handle_texts handle) (map_to_list (ld_tasks db)).

(** [reject_deletion_cutoff]. *)
Definition reject_deletion_cutoff (db : LocksDb) (creator : CreatorPubky) (lock_id : LockId) :
    result ApplicationError () :=
  let key := (CreatorPubky_display creator, LockId_display lock_id) in
  reject_if (bool_decide (key ∈ ld_deletion_jobs db) || bool_decide (key ∈ ld_force_receipts db))
    ContentLockDeletionInProgress.

(** Neither owned by a deletion nor captured by one. *)
Definition not_deleted (db : LocksDb) (id : TaskId) (row : VerificationTaskRow) : bool :=
  is_none (vt_deletion_job_id row) && negb (bool_decide (id ∈ ld_task_snapshots db)).

Definition TaskStatus_from_database (status : string) :
    result ApplicationError VerificationTaskStatus :=
  if status == "pending" then Ok Pending
  else if status == "in_progress" then Ok InProgress
  else if status == "publishing_entitlement" then Ok PublishingEntitlement
  else if status == "completed" then Ok Completed
  else if status == "failed" then Ok Failed
  else if status == "expired" then Ok Expired
  else Err (Storage ("invalid verification task status stored in Postgres: " +:+ status)).
