(* ===== verification/Connect.v ===== *)
(** The connection of creators: the authority a creator grants the Lock Server over a
    homeserver, and the browser session the creator gets in return
    ([application/models/creator_authority.rs], [models/frontend_session.rs],
    [application/ports/creator_authority.rs] and their use cases).

    A connect flow is started, approved by the creator's signer and completed; its
    completion stores the authority and hands out a one-time code, which is exchanged
    for a session.  The stores stand behind an interface, [ConnectStore]; the clients of
    the signer are functions of the moment.  The world logs the calls that take effect. *)

From S2P Require Import Prelude RustStr Externals Ids Errors Run.
From S2P Require FoldedServer.

(** * Data *)

Inductive CreatorAuthorityAuthKind := LegacyCookie | Grant.

Record CreatorAuthoritySecret := MkAuthoritySecret { expose_secret : string }.
Record GrantPopKeyId := MkGrantPopKeyId { GrantPopKeyId_as_str : string }.
Record CreatorConnectFlowId := MkConnectFlowId { CreatorConnectFlowId_as_str : string }.
Record CreatorConnectAuthorizationUrl := MkAuthorizationUrl { expose_url : string }.
Record FrontendSessionCode := MkSessionCode { expose_code : string }.
Record FrontendSessionToken := MkSessionToken { expose_token : string }.

Record CreatorAuthorityRecord := MkAuthority {
  ca_creator : CreatorPubky;
  ca_auth_kind : CreatorAuthorityAuthKind;
  ca_granted_scopes : list string;
  ca_secret : CreatorAuthoritySecret;
  ca_session_expires_at : option OffsetDateTime;
  ca_last_revalidated_at : option OffsetDateTime;
}.

Record LegacyCreatorConnectFlowApproval := MkLegacyApproval {
  la_creator : CreatorPubky;
  la_session_secret : CreatorAuthoritySecret;
}.

Record GrantCreatorConnectFlowApproval := MkGrantApproval {
  ga_creator : CreatorPubky;
  ga_grant_state : CreatorAuthoritySecret;
  ga_granted_scopes : list string;
  ga_grant_expires_at : OffsetDateTime;
}.

Record PendingCreatorConnectFlowRecord := MkPendingFlow {
  pf_flow_id : CreatorConnectFlowId;
  pf_return_to : string;
  pf_state : string;
  pf_authorization_url : CreatorConnectAuthorizationUrl;
  pf_requested_scopes : list string;
  pf_created_at : OffsetDateTime;
  pf_expires_at : OffsetDateTime;
}.

Record FrontendSessionCodeRecord := MkCodeRecord {
  sc_code : FrontendSessionCode;
  sc_creator : CreatorPubky;
  sc_state : string;
  sc_return_to : string;
  sc_created_at : OffsetDateTime;
  sc_expires_at : OffsetDateTime;
  sc_consumed_at : option OffsetDateTime;
}.

Record FrontendSessionRecord := MkSessionRecord {
  fs_token : FrontendSessionToken;
  fs_creator : CreatorPubky;
  fs_created_at : OffsetDateTime;
  fs_expires_at : OffsetDateTime;
}.

Record CreatorAuthorityStatus := MkAuthorityStatus {
  as_creator : CreatorPubky;
  as_auth_kind : CreatorAuthorityAuthKind;
  as_authorized : bool;
  as_granted_scopes : list string;
  as_session_expires_at : option OffsetDateTime;
}.

#[global] Instance CreatorAuthorityAuthKind_eq_dec : EqDecision CreatorAuthorityAuthKind.
Proof. solve_decision. Defined.
#[global] Instance CreatorConnectFlowId_eq_dec : EqDecision CreatorConnectFlowId.
Proof. solve_decision. Defined.
#[global] Instance CreatorConnectAuthorizationUrl_eq_dec : EqDecision CreatorConnectAuthorizationUrl.
Proof. solve_decision. Defined.
#[global] Instance FrontendSessionCode_eq_dec : EqDecision FrontendSessionCode.
Proof. solve_decision. Defined.
#[global] Instance FrontendSessionToken_eq_dec : EqDecision FrontendSessionToken.
Proof. solve_decision. Defined.
#[global] Instance PendingCreatorConnectFlowRecord_eq_dec :
  EqDecision PendingCreatorConnectFlowRecord.
Proof. solve_decision. Defined.

#[global] Program Instance CreatorConnectFlowId_countable : Countable CreatorConnectFlowId :=
  inj_countable' CreatorConnectFlowId_as_str MkConnectFlowId _.
Next Obligation. by intros []. Qed.
#[global] Program Instance FrontendSessionCode_countable : Countable FrontendSessionCode :=
  inj_countable' expose_code MkSessionCode _.
Next Obligation. by intros []. Qed.
#[global] Program Instance FrontendSessionToken_countable : Countable FrontendSessionToken :=
  inj_countable' expose_token MkSessionToken _.
Next Obligation. by intros []. Qed.

Definition auth_kind_as_str (kind : CreatorAuthorityAuthKind) : string :=
  match kind with LegacyCookie => "legacy_cookie" | Grant => "grant" end.

Definition auth_kind_from_str (value : string) : result ApplicationError CreatorAuthorityAuthKind :=
  if value == "legacy_cookie" then Ok LegacyCookie
  else if value == "grant" then Ok Grant
  else Err (InvalidCreatorAuthorityAuthKind value).

Definition for_connect_flow (flow_id : CreatorConnectFlowId) : GrantPopKeyId :=
  MkGrantPopKeyId ("locks-connect-v1." +:+ CreatorConnectFlowId_as_str flow_id).

(** Records expire when [now >= expires_at]. *)
Definition flow_is_expired_at (r : PendingCreatorConnectFlowRecord) (now : OffsetDateTime) : bool :=
  pf_expires_at r <=? now.
Definition code_is_expired_at (r : FrontendSessionCodeRecord) (now : OffsetDateTime) : bool :=
  sc_expires_at r <=? now.
Definition session_is_expired_at (r : FrontendSessionRecord) (now : OffsetDateTime) : bool :=
  fs_expires_at r <=? now.

(** The kind of flow, from its authorization URL. *)
Definition url_auth_kind `{FoldedServer.WebCrates} (u : CreatorConnectAuthorizationUrl) :
    result ApplicationError CreatorAuthorityAuthKind :=
  url ← ok_or (FoldedServer.url_parse (expose_url u)) CreatorAuthorityUnavailable;
  _ ← reject_if (FoldedServer.url_scheme url != "pubkyauth") CreatorAuthorityUnavailable;
  match FoldedServer.url_host url with
  | Some host =>
      if host == "signin_grant" then Ok Grant
      else if host == "signin" then Ok LegacyCookie
      else Err CreatorAuthorityUnavailable
  | None => Err CreatorAuthorityUnavailable
  end.

(** * The ports of the stores

    An operation is given the clock of its store, which the caller's time does not bind. *)

Class ConnectStore (S : Type) := {
  insert_pending_creator_connect_flow :
    PendingCreatorConnectFlowRecord → OffsetDateTime → S → result ApplicationError () * S;
  get_pending_creator_connect_flow :
    CreatorConnectFlowId → OffsetDateTime → S →
    result ApplicationError (option PendingCreatorConnectFlowRecord) * S;
  delete_pending_creator_connect_flow :
    CreatorConnectFlowId → OffsetDateTime → S → result ApplicationError () * S;
  consume_pending_creator_connect_flow :
    CreatorConnectFlowId → OffsetDateTime → OffsetDateTime → S →
    result ApplicationError (option PendingCreatorConnectFlowRecord) * S;
  (** [bytes]: the random bytes a store may draw *)
  upsert_creator_authority :
    CreatorAuthorityRecord → bytes → OffsetDateTime → S → result ApplicationError () * S;
  get_creator_authority :
    CreatorPubky → OffsetDateTime → S →
    result ApplicationError (option CreatorAuthorityRecord) * S;
  delete_creator_authority :
    CreatorPubky → OffsetDateTime → S → result ApplicationError () * S;
  insert_frontend_session_code :
    FrontendSessionCodeRecord → OffsetDateTime → S → result ApplicationError () * S;
  consume_frontend_session_code :
    FrontendSessionCode → OffsetDateTime → OffsetDateTime → S →
    result ApplicationError (option FrontendSessionCodeRecord) * S;
  insert_frontend_session :
    FrontendSessionRecord → OffsetDateTime → S → result ApplicationError () * S;
  get_frontend_session :
    FrontendSessionToken → OffsetDateTime → S →
    result ApplicationError (option FrontendSessionRecord) * S;
  delete_frontend_session :
    FrontendSessionToken → OffsetDateTime → S → result ApplicationError () * S;
}.

(** A row of the codes, which are kept by a key and not by themselves. *)
Record CodeRow := MkCodeRow {
  co_creator : string;
  co_state : string;
  co_return_to : string;
  co_created_at : OffsetDateTime;
  co_expires_at : OffsetDateTime;
  co_consumed_at : option OffsetDateTime;
}.

Definition row_consumed_at (row : CodeRow) (t : OffsetDateTime) : CodeRow :=
  MkCodeRow (co_creator row) (co_state row) (co_return_to row) (co_created_at row)
    (co_expires_at row) (Some t).

(** The row of a code, its times as precise as a store keeps them. *)
Definition code_row (kept : OffsetDateTime → OffsetDateTime) (r : FrontendSessionCodeRecord) : CodeRow :=
  MkCodeRow (CreatorPubky_display (sc_creator r)) (sc_state r) (sc_return_to r)
    (kept (sc_created_at r)) (kept (sc_expires_at r)) (kept <$> sc_consumed_at r).

Definition flow_as_kept (kept : OffsetDateTime → OffsetDateTime) (r : PendingCreatorConnectFlowRecord) :
    PendingCreatorConnectFlowRecord :=
  MkPendingFlow (pf_flow_id r) (pf_return_to r) (pf_state r) (pf_authorization_url r)
    (pf_requested_scopes r) (kept (pf_created_at r)) (kept (pf_expires_at r)).

(** What the flows and the codes of a store promise to the use cases: a flow and a code are
    there from the call that inserts them, and a call that returns one takes it. *)
Class ConnectLaws (S : Type) `{ConnectStore S} := {
  flows : S → gmap CreatorConnectFlowId PendingCreatorConnectFlowRecord;
  codes : S → gmap bytes CodeRow;
  code_key : FrontendSessionCode → bytes;
  kept : OffsetDateTime → OffsetDateTime;
  creator_read : string → option CreatorPubky;
  insert_flow_law r t s res s' :
    insert_pending_creator_connect_flow r t s = (res, s') →
    codes s' = codes s
    ∧ flows s' = if is_ok res then <[pf_flow_id r := flow_as_kept kept r]> (flows s) else flows s;
  get_flow_law id t s res s' :
    get_pending_creator_connect_flow id t s = (res, s') → flows s' = flows s ∧ codes s' = codes s;
  delete_flow_law id t s res s' :
    delete_pending_creator_connect_flow id t s = (res, s') →
    codes s' = codes s ∧ flows s' = if is_ok res then delete id (flows s) else flows s;
  consume_flow_law id now t s res s' :
    consume_pending_creator_connect_flow id now t s = (res, s') →
    codes s' = codes s
    ∧ match res with
      | Ok (Some r) => flows s !! id = Some r ∧ flows s' = delete id (flows s)
      | _ => flows s' = flows s
      end;
  upsert_authority_law a nonce t s res s' :
    upsert_creator_authority a nonce t s = (res, s') → flows s' = flows s ∧ codes s' = codes s;
  get_authority_law c t s res s' :
    get_creator_authority c t s = (res, s') → flows s' = flows s ∧ codes s' = codes s;
  delete_authority_law c t s res s' :
    delete_creator_authority c t s = (res, s') → flows s' = flows s ∧ codes s' = codes s;
  insert_code_law r t s res s' :
    insert_frontend_session_code r t s = (res, s') →
    flows s' = flows s
    ∧ codes s' = if is_ok res then <[code_key (sc_code r) := code_row kept r]> (codes s) else codes s;
  (** a code whose row cannot be read is taken all the same *)
  consume_code_law code now t s res s' :
    consume_frontend_session_code code now t s = (res, s') →
    flows s' = flows s
    ∧ ((∀ r, res ≠ Ok (Some r)) ∧ codes s' = codes s
       ∨ ∃ row t', codes s !! code_key code = Some row
           ∧ codes s' = <[code_key code := row_consumed_at row t']> (codes s)
           ∧ ∀ r, res = Ok (Some r) →
               creator_read (co_creator row) = Some (sc_creator r) ∧ sc_state r = co_state row
               ∧ sc_expires_at r = co_expires_at row ∧ sc_consumed_at r = co_consumed_at row);
  insert_session_law r t s res s' :
    insert_frontend_session r t s = (res, s') → flows s' = flows s ∧ codes s' = codes s;
  get_session_law token t s res s' :
    get_frontend_session token t s = (res, s') → flows s' = flows s ∧ codes s' = codes s;
  delete_session_law token t s res s' :
    delete_frontend_session token t s = (res, s') → flows s' = flows s ∧ codes s' = codes s;
}.

(** What happens in a history: what a store did for its caller, and approvals. *)
Inductive ConnectEvent :=
  | FlowStarted (record : PendingCreatorConnectFlowRecord)
  | FlowDropped (flow_id : CreatorConnectFlowId)
  | ApprovalGiven (url : CreatorConnectAuthorizationUrl) (creator : CreatorPubky)
      (secret : CreatorAuthoritySecret)
  | FlowConsumed (flow_id : CreatorConnectFlowId) (record : PendingCreatorConnectFlowRecord)
  | AuthorityStored (flow_id : CreatorConnectFlowId) (record : CreatorAuthorityRecord) (nonce : bytes)
  | CodeIssued (flow_id : CreatorConnectFlowId) (record : FrontendSessionCodeRecord)
  | CodeTaken (code : FrontendSessionCode) (record : FrontendSessionCodeRecord)
  | SessionIssued (code : FrontendSessionCode) (state : string) (record : FrontendSessionRecord)
  | SessionEnded (token : FrontendSessionToken).

Section use_cases.
  Context {S : Type} `{ConnectStore S} `{FoldedServer.WebCrates}.
  Context (clock store_clock : nat → OffsetDateTime).
  Context (fates : nat → Fate) (others : nat → S → S).

  Abbreviation ConnectRun := (Run S (list ConnectEvent)).
  Abbreviation Operation A := (OffsetDateTime → S → result ApplicationError A * S).

(** A call of a store, others acting before it; what it does is logged whether or not its
    answer arrives. *)
Definition connect_call {A} (op : Operation A) (event : A → option ConnectEvent) : ConnectRun A := λ w,
  let s := others (w_ticks w) (w_store w) in
  let ends res log s' := (res, MkWorld s' (w_entitlements w ++ log) (w_ticks w + 1)%nat) in
  let (res, s') := op (store_clock (w_ticks w)) s in
  let log := match res with Ok a => option_list (event a) | Err _ => [] end in
  match fates (w_ticks w) with
  | Lost e => ends (Err e) [] s
  | Delivered => ends res log s'
  | Unanswered e => ends (Err e) log s'
  end.

Definition ask {A} (op : Operation A) : ConnectRun A := connect_call op (λ _, None).
Definition tell (op : Operation ()) (event : ConnectEvent) : ConnectRun () :=
  connect_call op (λ _, Some event).

(** The answer of a client or of a generator at this moment. *)
Definition at_this_moment {A} (f : nat → result ApplicationError A) : ConnectRun A := λ w,
  (f (w_ticks w), MkWorld (w_store w) (w_entitlements w) (w_ticks w + 1)%nat).

Definition note (event : ConnectEvent) : ConnectRun () := λ w,
  (Ok (), MkWorld (w_store w) (w_entitlements w ++ [event]) (w_ticks w)).

(** * Starting a flow *)

Record StartCreatorConnectFlowRequest := MkStartConnect {
  sr_return_to : string;
  sr_state : string;
}.

Record StartCreatorConnectFlowResponse := MkStarted {
  sp_flow_id : CreatorConnectFlowId;
  sp_authorization_url : CreatorConnectAuthorizationUrl;
  sp_expires_at : OffsetDateTime;
  sp_state : string;
}.

Definition CREATOR_CONNECT_FLOW_TTL : Duration := minutes 5.
Definition default_requested_scopes : list string :=
  ["/pub/app.locks/:rw"; "/priv/app.locks/:rw"].

Definition validate_start_request (request : StartCreatorConnectFlowRequest) :
    result ApplicationError () :=
  _ ← reject_if (trim (sr_return_to request) == "")
        (Storage "creator connect return_to is required");
  reject_if (trim (sr_state request) == "") (Storage "creator connect state is required").

Definition start_creator_connect_flow
    (client : nat → list string → result ApplicationError CreatorConnectAuthorizationUrl)
    (grant_client : option (nat → list string → GrantPopKeyId →
                            result ApplicationError CreatorConnectAuthorizationUrl))
    (generate_flow_id : nat → CreatorConnectFlowId)
    (request : StartCreatorConnectFlowRequest) : ConnectRun StartCreatorConnectFlowResponse := (
  _ ⟵ run_lift (validate_start_request request);
  now ⟵ now clock;
  flow_id ⟵ at_this_moment (λ n, Ok (generate_flow_id n));
  authorization_url ⟵
    at_this_moment (λ n,
      match grant_client with
      | Some grant_client => grant_client n default_requested_scopes (for_connect_flow flow_id)
      | None => client n default_requested_scopes
      end);
  let record := MkPendingFlow flow_id (sr_return_to request) (sr_state request) authorization_url
                  default_requested_scopes now (now + CREATOR_CONNECT_FLOW_TTL) in
  _ ⟵ tell (insert_pending_creator_connect_flow record) (FlowStarted record);
  run_ret (MkStarted flow_id authorization_url (now + CREATOR_CONNECT_FLOW_TTL) (sr_state request)))%run.

(** * Completing it *)

Record CompleteCreatorConnectFlowResponse := MkCompleted {
  cr_creator : CreatorPubky;
  cr_state : string;
  cr_return_to : string;
  cr_code : FrontendSessionCode;
  cr_code_expires_at : OffsetDateTime;
}.

Definition FRONTEND_SESSION_CODE_TTL : Duration := minutes 5.

(** The client the server is configured with. *)
Inductive SelectedCreatorConnectFlowClient :=
  | SelectedLegacy (await_approval : nat → CreatorConnectAuthorizationUrl →
      result ApplicationError LegacyCreatorConnectFlowApproval)
  | SelectedGrant (await_approval : nat → CreatorConnectAuthorizationUrl → GrantPopKeyId →
      list string → result ApplicationError GrantCreatorConnectFlowApproval).

Definition selected_auth_kind (client : SelectedCreatorConnectFlowClient) : CreatorAuthorityAuthKind :=
  match client with SelectedLegacy _ => LegacyCookie | SelectedGrant _ => Grant end.

(** The approval, as the authority it gives. *)
Definition await_authority (client : SelectedCreatorConnectFlowClient)
    (pending : PendingCreatorConnectFlowRecord) (now : OffsetDateTime) :
    ConnectRun CreatorAuthorityRecord := (
  match client with
  | SelectedGrant await_approval =>
      approval ⟵ at_this_moment (λ n,
        await_approval n (pf_authorization_url pending) (for_connect_flow (pf_flow_id pending))
          (pf_requested_scopes pending));
      _ ⟵ note (ApprovalGiven (pf_authorization_url pending) (ga_creator approval)
                  (ga_grant_state approval));
      run_ret (MkAuthority (ga_creator approval) Grant (ga_granted_scopes approval)
                 (ga_grant_state approval) (Some (ga_grant_expires_at approval)) (Some now))
  | SelectedLegacy await_approval =>
      approval ⟵ at_this_moment (λ n, await_approval n (pf_authorization_url pending));
      _ ⟵ note (ApprovalGiven (pf_authorization_url pending) (la_creator approval)
                  (la_session_secret approval));
      run_ret (MkAuthority (la_creator approval) LegacyCookie (pf_requested_scopes pending)
                 (la_session_secret approval) None (Some now))
  end)%run.

(** Neither the flow nor the authority may have expired. *)
Definition still_valid (flow : PendingCreatorConnectFlowRecord) (authority : CreatorAuthorityRecord)
    (t : OffsetDateTime) : result ApplicationError () :=
  reject_if (flow_is_expired_at flow t || opt_le (ca_session_expires_at authority) t)
    CreatorConnectFlowExpired.

Definition revalidated_at (authority : CreatorAuthorityRecord) (t : OffsetDateTime) :
    CreatorAuthorityRecord :=
  MkAuthority (ca_creator authority) (ca_auth_kind authority) (ca_granted_scopes authority)
    (ca_secret authority) (ca_session_expires_at authority) (Some t).

(** From the consumption of the flow on. *)
Definition commit_connect_flow (generate_code : nat → FrontendSessionCode) (store_nonce : nat → bytes)
    (pending : PendingCreatorConnectFlowRecord) (authority : CreatorAuthorityRecord)
    (flow_id : CreatorConnectFlowId) (completed_at : OffsetDateTime) :
    ConnectRun CompleteCreatorConnectFlowResponse := (
  consumed ⟵ connect_call (consume_pending_creator_connect_flow flow_id completed_at)
               (λ o, FlowConsumed flow_id <$> o);
  consumed ⟵ run_lift (ok_or (r ← consumed; if r == pending then Some r else None)
                         CreatorConnectFlowUnavailable);
  committed_at ⟵ now clock;
  _ ⟵ run_lift (still_valid consumed authority committed_at);
  let authority := revalidated_at authority committed_at in
  nonce ⟵ at_this_moment (λ n, Ok (store_nonce n));
  _ ⟵ tell (upsert_creator_authority authority nonce) (AuthorityStored flow_id authority nonce);
  code ⟵ at_this_moment (λ n, Ok (generate_code n));
  let record := MkCodeRecord code (ca_creator authority) (pf_state consumed) (pf_return_to consumed)
                  committed_at (committed_at + FRONTEND_SESSION_CODE_TTL) None in
  _ ⟵ tell (insert_frontend_session_code record) (CodeIssued flow_id record);
  run_ret (MkCompleted (ca_creator authority) (pf_state consumed) (pf_return_to consumed) code
             (committed_at + FRONTEND_SESSION_CODE_TTL)))%run.

Definition complete_creator_connect_flow (client : SelectedCreatorConnectFlowClient)
    (generate_code : nat → FrontendSessionCode) (store_nonce : nat → bytes)
    (flow_id : CreatorConnectFlowId) : ConnectRun CompleteCreatorConnectFlowResponse := (
  found ⟵ ask (get_pending_creator_connect_flow flow_id);
  pending ⟵ run_lift (ok_or found CreatorConnectFlowUnavailable);
  now ⟵ now clock;
  if flow_is_expired_at pending now then
    _ ⟵ tell (delete_pending_creator_connect_flow flow_id) (FlowDropped flow_id);
    run_err CreatorConnectFlowExpired
  else
    kind ⟵ run_lift (url_auth_kind (pf_authorization_url pending));
    _ ⟵ run_lift (reject_if (bool_decide (kind ≠ selected_auth_kind client))
                    CreatorAuthorityUnavailable);
    authority ⟵ await_authority client pending now;
    completed_at ⟵ Run.now clock;
    _ ⟵ run_lift (still_valid pending authority completed_at);
    commit_connect_flow generate_code store_nonce pending authority flow_id completed_at)%run.

(** * Codes and sessions *)

Record ExchangeFrontendSessionCodeRequest := MkExchange {
  xr_code : FrontendSessionCode;
  xr_state : string;
}.

Record ExchangeFrontendSessionCodeResponse := MkExchanged {
  xp_session_token : FrontendSessionToken;
  xp_creator : CreatorPubky;
  xp_expires_at : OffsetDateTime;
}.

(** [Duration::hours(24)]. *)
Definition FRONTEND_SESSION_TTL : Duration := minutes (24 * 60).

(** The checks on a code that has been taken. *)
Definition check_code (record : FrontendSessionCodeRecord) (state : string) (now : OffsetDateTime) :
    result ApplicationError () :=
  _ ← reject_if (is_some (sc_consumed_at record)) FrontendSessionCodeAlreadyConsumed;
  _ ← reject_if (code_is_expired_at record now) FrontendSessionCodeExpired;
  reject_if (sc_state record != state) FrontendSessionStateMismatch.

Definition exchange_frontend_session_code (generate_token : nat → FrontendSessionToken)
    (request : ExchangeFrontendSessionCodeRequest) : ConnectRun ExchangeFrontendSessionCodeResponse := (
  now ⟵ now clock;
  taken ⟵ connect_call (consume_frontend_session_code (xr_code request) now)
            (λ o, CodeTaken (xr_code request) <$> o);
  code_record ⟵ run_lift (ok_or taken FrontendSessionCodeUnavailable);
  _ ⟵ run_lift (check_code code_record (xr_state request) now);
  session_token ⟵ at_this_moment (λ n, Ok (generate_token n));
  let record := MkSessionRecord session_token (sc_creator code_record) now
                  (now + FRONTEND_SESSION_TTL) in
  _ ⟵ tell (insert_frontend_session record) (SessionIssued (xr_code request) (xr_state request) record);
  run_ret (MkExchanged session_token (sc_creator code_record) (now + FRONTEND_SESSION_TTL)))%run.

(** The session a token stands for now. *)
Definition current_session (session_token : FrontendSessionToken) : ConnectRun FrontendSessionRecord := (
  now ⟵ now clock;
  found ⟵ ask (get_frontend_session session_token);
  record ⟵ run_lift (ok_or found FrontendSessionUnavailable);
  _ ⟵ run_lift (reject_if (session_is_expired_at record now) FrontendSessionExpired);
  run_ret record)%run.

Record ValidateFrontendSessionResponse := MkValidated {
  vs_creator : CreatorPubky;
  vs_expires_at : OffsetDateTime;
}.

Definition validate_frontend_session (session_token : FrontendSessionToken) :
    ConnectRun ValidateFrontendSessionResponse := (
  record ⟵ current_session session_token;
  run_ret (MkValidated (fs_creator record) (fs_expires_at record)))%run.

(** [frontend_session_signout_route]. *)
Definition signout (session_token : FrontendSessionToken) : ConnectRun () := (
  _ ⟵ validate_frontend_session session_token;
  tell (delete_frontend_session session_token) (SessionEnded session_token))%run.

(** * The authority *)

(** [record_to_authorized_status]. *)
Definition authorized_status (record : CreatorAuthorityRecord) : CreatorAuthorityStatus :=
  MkAuthorityStatus (ca_creator record) (ca_auth_kind record) true (ca_granted_scopes record)
    (ca_session_expires_at record).

(** The two managers differ in the kind of authority they take and in how its secret is
    tried out. *)
Definition revalidate_creator_authority (kind : CreatorAuthorityAuthKind)
    (revalidate : nat → CreatorPubky → CreatorAuthoritySecret → result ApplicationError ())
    (creator : CreatorPubky) : ConnectRun CreatorAuthorityStatus := (
  found ⟵ ask (get_creator_authority creator);
  record ⟵ run_lift (ok_or found CreatorAuthorityUnavailable);
  _ ⟵ run_lift (reject_if (bool_decide (ca_auth_kind record ≠ kind)) CreatorAuthorityUnavailable);
  _ ⟵ at_this_moment (λ n, revalidate n creator (ca_secret record));
  run_ret (authorized_status record))%run.

Definition require_creator_authority_for_pubky_io kind revalidate (creator : CreatorPubky) :
    ConnectRun CreatorAuthorityStatus :=
  revalidate_creator_authority kind revalidate creator.

Record CreatorAuthorityStatusView := MkStatusView {
  av_creator : CreatorPubky;
  av_authorized : bool;
  av_auth_kind : option CreatorAuthorityAuthKind;
  av_granted_scopes : list string;
  av_session_expires_at : option OffsetDateTime;
}.

(** An unavailable authority is an answer; other errors are passed on. *)
Definition status_view (creator : CreatorPubky)
    (authority : result ApplicationError CreatorAuthorityStatus) :
    result ApplicationError CreatorAuthorityStatusView :=
  match authority with
  | Ok authority =>
      Ok (MkStatusView creator true (Some (as_auth_kind authority)) (as_granted_scopes authority)
            (as_session_expires_at authority))
  | Err CreatorAuthorityUnavailable => Ok (MkStatusView creator false None [] None)
  | Err e => Err e
  end.

Definition get_creator_authority_status kind revalidate (session_token : FrontendSessionToken) :
    ConnectRun CreatorAuthorityStatusView := (
  session ⟵ current_session session_token;
  λ w, let (authority, w) := revalidate_creator_authority kind revalidate (fs_creator session) w in
       (status_view (fs_creator session) authority, w))%run.
End use_cases.
