(* ===== verification/ConnectDb.v ===== *)
(** The stores behind the connection of creators: in memory
    ([locks-server/src/app_state/private_runtime.rs]) and in Postgres
    ([postgres/creator_connect_flows.rs], [postgres/frontend_sessions.rs],
    [postgres/creator_authority.rs]).

    In Postgres, codes and sessions are kept by the hash of their secret, and the secret of
    an authority may be encrypted; a statement sees and changes its table at once. *)

From S2P Require Import Prelude RustStr Externals Ids Errors Run Connect.
From S2P Require Import Secrets TaskTables.
From S2P Require FoldedServer.

(** * In memory *)

Record ConnectMemory := MkConnectMemory {
  cm_authorities : gmap CreatorPubky CreatorAuthorityRecord;
  cm_flows : gmap CreatorConnectFlowId PendingCreatorConnectFlowRecord;
  cm_codes : gmap FrontendSessionCode FrontendSessionCodeRecord;
  cm_sessions : gmap FrontendSessionToken FrontendSessionRecord;
}.

Definition cm_with_authorities (s : ConnectMemory) m :=
  MkConnectMemory m (cm_flows s) (cm_codes s) (cm_sessions s).
Definition cm_with_flows (s : ConnectMemory) m :=
  MkConnectMemory (cm_authorities s) m (cm_codes s) (cm_sessions s).
Definition cm_with_codes (s : ConnectMemory) m :=
  MkConnectMemory (cm_authorities s) (cm_flows s) m (cm_sessions s).
Definition cm_with_sessions (s : ConnectMemory) m :=
  MkConnectMemory (cm_authorities s) (cm_flows s) (cm_codes s) m.

Definition memory_consume_flow (flow_id : CreatorConnectFlowId) (now : OffsetDateTime)
    (s : ConnectMemory) :
    result ApplicationError (option PendingCreatorConnectFlowRecord) * ConnectMemory :=
  if is_none_or (λ r, flow_is_expired_at r now) (cm_flows s !! flow_id) then (Ok None, s)
  else (Ok (cm_flows s !! flow_id), cm_with_flows s (delete flow_id (cm_flows s))).

Definition code_consumed_at (r : FrontendSessionCodeRecord) (now : OffsetDateTime) :
    FrontendSessionCodeRecord :=
  MkCodeRecord (sc_code r) (sc_creator r) (sc_state r) (sc_return_to r) (sc_created_at r)
    (sc_expires_at r) (Some now).

Definition memory_consume_code (code : FrontendSessionCode) (now : OffsetDateTime)
    (s : ConnectMemory) :
    result ApplicationError (option FrontendSessionCodeRecord) * ConnectMemory :=
  match cm_codes s !! code with
  | None => (Ok None, s)
  | Some previous =>
      (Ok (Some previous), cm_with_codes s (<[code := code_consumed_at previous now]> (cm_codes s)))
  end.

#[global] Instance memory_connect : ConnectStore ConnectMemory := {
  insert_pending_creator_connect_flow r _ s :=
    (Ok (), cm_with_flows s (<[pf_flow_id r := r]> (cm_flows s)));
  get_pending_creator_connect_flow flow_id _ s := (Ok (cm_flows s !! flow_id), s);
  delete_pending_creator_connect_flow flow_id _ s :=
    (Ok (), cm_with_flows s (delete flow_id (cm_flows s)));
  consume_pending_creator_connect_flow flow_id now _ s := memory_consume_flow flow_id now s;
  upsert_creator_authority a _ _ s :=
    (Ok (), cm_with_authorities s (<[ca_creator a := a]> (cm_authorities s)));
  get_creator_authority creator _ s := (Ok (cm_authorities s !! creator), s);
  delete_creator_authority creator _ s :=
    (Ok (), cm_with_authorities s (delete creator (cm_authorities s)));
  insert_frontend_session_code r _ s :=
    (Ok (), cm_with_codes s (<[sc_code r := r]> (cm_codes s)));
  consume_frontend_session_code code now _ s := memory_consume_code code now s;
  insert_frontend_session r _ s :=
    (Ok (), cm_with_sessions s (<[fs_token r := r]> (cm_sessions s)));
  get_frontend_session token _ s := (Ok (cm_sessions s !! token), s);
  delete_frontend_session token _ s :=
    (Ok (), cm_with_sessions s (delete token (cm_sessions s)));
}.

(** * The secret of an authority ([CreatorAuthoritySecretCipher]) *)

Definition authority_encrypt_error : ApplicationError :=
  Errors.CreatorAuthoritySecret "failed to encrypt creator authority secret".
Definition authority_decrypt_error : ApplicationError :=
  Errors.CreatorAuthoritySecret "failed to decrypt creator authority secret".
Definition invalid_encryption_key : ApplicationError :=
  Errors.CreatorAuthoritySecret "invalid creator authority encryption key".

Definition creator_authority_secret_aad (creator : CreatorPubky) (kind : CreatorAuthorityAuthKind) :
    string :=
  "creator_authority_secret:v1:" +:+ CreatorPubky_display creator +:+ ":" +:+ auth_kind_as_str kind.

Section cipher.
  Context `{Base64Url, Aead}.

Definition from_base64url_key (value : string) : result ApplicationError bytes :=
  key ← ok_or (b64_decode value) invalid_encryption_key;
  _ ← reject_if (negb (Z.of_nat (length key) =? 32)) invalid_encryption_key;
  Ok key.

(** [nonce]: the 24 random bytes drawn for this call. *)
Definition authority_encrypt (key : bytes) (creator : CreatorPubky) (kind : CreatorAuthorityAuthKind)
    (secret : CreatorAuthoritySecret) (nonce : bytes) : result ApplicationError string :=
  ciphertext ← ok_or (aead_seal key nonce (as_bytes (creator_authority_secret_aad creator kind))
                        (as_bytes (expose_secret secret))) authority_encrypt_error;
  Ok (ENVELOPE_PREFIX +:+ b64_encode nonce +:+ ":" +:+ b64_encode ciphertext).

Definition authority_decrypt (key : bytes) (creator : CreatorPubky) (kind : CreatorAuthorityAuthKind)
    (envelope : string) : result ApplicationError CreatorAuthoritySecret :=
  rest ← ok_or (strip_prefix ENVELOPE_PREFIX envelope) authority_decrypt_error;
  '(nonce, ciphertext) ← ok_or (split_once colon rest) authority_decrypt_error;
  nonce ← ok_or (b64_decode nonce) authority_decrypt_error;
  ciphertext ← ok_or (b64_decode ciphertext) authority_decrypt_error;
  _ ← reject_if (negb (Z.of_nat (length nonce) =? 24)) authority_decrypt_error;
  plaintext ← ok_or (aead_open key nonce (as_bytes (creator_authority_secret_aad creator kind))
                       ciphertext) authority_decrypt_error;
  MkAuthoritySecret <$> ok_or (from_utf8 plaintext) authority_decrypt_error.
End cipher.

(** * In Postgres *)

(** [pending_creator_connect_flows], by [flow_id]. *)
Record FlowRow := MkFlowRow {
  fl_return_to : string;
  fl_state : string;
  fl_authorization_url : string;
  fl_requested_scopes : list string;
  fl_created_at : OffsetDateTime;
  fl_expires_at : OffsetDateTime;
}.

(** [creator_authorities], by [creator]; its bookkeeping times apart. *)
Record AuthorityRow := MkAuthorityRow {
  au_auth_kind : string;
  au_granted_scopes : list string;
  au_secret : string;
  au_session_expires_at : option OffsetDateTime;
  au_last_revalidated_at : option OffsetDateTime;
}.

(** [frontend_sessions], by [token_hash]. *)
Record SessionRow := MkSessionRow {
  se_creator : string;
  se_created_at : OffsetDateTime;
  se_expires_at : OffsetDateTime;
}.

Record ConnectDb := MkConnectDb {
  cd_authorities : gmap string AuthorityRow;
  cd_flows : gmap CreatorConnectFlowId FlowRow;
  cd_codes : gmap bytes CodeRow;
  cd_sessions : gmap bytes SessionRow;
}.

Definition cd_with_authorities (db : ConnectDb) m :=
  MkConnectDb m (cd_flows db) (cd_codes db) (cd_sessions db).
Definition cd_with_flows (db : ConnectDb) m :=
  MkConnectDb (cd_authorities db) m (cd_codes db) (cd_sessions db).
Definition cd_with_codes (db : ConnectDb) m :=
  MkConnectDb (cd_authorities db) (cd_flows db) m (cd_sessions db).
Definition cd_with_sessions (db : ConnectDb) m :=
  MkConnectDb (cd_authorities db) (cd_flows db) (cd_codes db) m.

Definition flow_of_row (flow_id : CreatorConnectFlowId) (row : FlowRow) :
    PendingCreatorConnectFlowRecord :=
  MkPendingFlow flow_id (fl_return_to row) (fl_state row)
    (MkAuthorizationUrl (fl_authorization_url row)) (fl_requested_scopes row)
    (fl_created_at row) (fl_expires_at row).

Section postgres.
  Context `{Base32, PubkyKeys, UuidCrate, Base64Url, Aead, Blake3, PgTime}.
  (** the key secrets are encrypted with, if any *)
  Context (cipher : option bytes).

Definition secret_lookup_hash (value : string) : bytes := blake3_hash (as_bytes value).

Definition row_of_flow (r : PendingCreatorConnectFlowRecord) : FlowRow :=
  MkFlowRow (pf_return_to r) (pf_state r) (expose_url (pf_authorization_url r))
    (pf_requested_scopes r) (pg_timestamp (pf_created_at r)) (pg_timestamp (pf_expires_at r)).

Definition pg_insert_flow (r : PendingCreatorConnectFlowRecord) (db : ConnectDb) :
    result ApplicationError () * ConnectDb :=
  match cd_flows db !! pf_flow_id r with
  | Some _ => (Err (DuplicateRecord "pending_creator_connect_flow"), db)
  | None => (Ok (), cd_with_flows db (<[pf_flow_id r := row_of_flow r]> (cd_flows db)))
  end.

(** The statement asks the clock of the database, not the caller. *)
Definition pg_consume_flow (flow_id : CreatorConnectFlowId) (_now clock_timestamp : OffsetDateTime)
    (db : ConnectDb) :
    result ApplicationError (option PendingCreatorConnectFlowRecord) * ConnectDb :=
  match cd_flows db !! flow_id with
  | Some row =>
      if clock_timestamp <? fl_expires_at row
      then (Ok (Some (flow_of_row flow_id row)), cd_with_flows db (delete flow_id (cd_flows db)))
      else (Ok None, db)
  | None => (Ok None, db)
  end.

Definition parse_creator (value : string) : result ApplicationError CreatorPubky :=
  map_err (λ _, sqlx_error) (CreatorPubky_from_str value).

Definition row_to_code_record (code : FrontendSessionCode) (row : CodeRow) :
    result ApplicationError FrontendSessionCodeRecord :=
  creator ← parse_creator (co_creator row);
  Ok (MkCodeRecord code creator (co_state row) (co_return_to row) (co_created_at row)
        (co_expires_at row) (co_consumed_at row)).

Definition pg_insert_code (r : FrontendSessionCodeRecord) (db : ConnectDb) :
    result ApplicationError () * ConnectDb :=
  let hash := secret_lookup_hash (expose_code (sc_code r)) in
  match cd_codes db !! hash with
  | Some _ => (Err (DuplicateRecord "frontend_session_code"), db)
  | None => (Ok (), cd_with_codes db (<[hash := code_row pg_timestamp r]> (cd_codes db)))
  end.

(** The row is returned as it was before the update, of a code nobody has consumed. *)
Definition pg_consume_code (code : FrontendSessionCode) (now : OffsetDateTime) (db : ConnectDb) :
    result ApplicationError (option FrontendSessionCodeRecord) * ConnectDb :=
  let hash := secret_lookup_hash (expose_code code) in
  match cd_codes db !! hash with
  | Some row =>
      if is_none (co_consumed_at row)
      then (Some <$> row_to_code_record code row,
            cd_with_codes db (<[hash := row_consumed_at row (pg_timestamp now)]> (cd_codes db)))
      else (Ok None, db)
  | None => (Ok None, db)
  end.

Definition pg_insert_session (r : FrontendSessionRecord) (db : ConnectDb) :
    result ApplicationError () * ConnectDb :=
  let hash := secret_lookup_hash (expose_token (fs_token r)) in
  match cd_sessions db !! hash with
  | Some _ => (Err (DuplicateRecord "frontend_session"), db)
  | None =>
      let row := MkSessionRow (CreatorPubky_display (fs_creator r)) (pg_timestamp (fs_created_at r))
                   (pg_timestamp (fs_expires_at r)) in
      (Ok (), cd_with_sessions db (<[hash := row]> (cd_sessions db)))
  end.

Definition row_to_session_record (token : FrontendSessionToken) (row : SessionRow) :
    result ApplicationError FrontendSessionRecord :=
  creator ← parse_creator (se_creator row);
  Ok (MkSessionRecord token creator (se_created_at row) (se_expires_at row)).

(** [row.map(..).transpose()]. *)
Definition read_row {R A} (read : R → result ApplicationError A) (row : option R) :
    result ApplicationError (option A) :=
  match row with Some row => Some <$> read row | None => Ok None end.

Definition row_to_authority (creator : string) (row : AuthorityRow) :
    result ApplicationError CreatorAuthorityRecord :=
  creator ← parse_creator creator;
  kind ← auth_kind_from_str (au_auth_kind row);
  secret ← match cipher with
           | Some key => authority_decrypt key creator kind (au_secret row)
           | None => Ok (MkAuthoritySecret (au_secret row))
           end;
  Ok (MkAuthority creator kind (au_granted_scopes row) secret (au_session_expires_at row)
        (au_last_revalidated_at row)).

Definition pg_upsert_authority (a : CreatorAuthorityRecord) (nonce : bytes) (db : ConnectDb) :
    result ApplicationError () * ConnectDb :=
  let persisted_secret :=
    match cipher with
    | Some key => authority_encrypt key (ca_creator a) (ca_auth_kind a) (ca_secret a) nonce
    | None => Ok (expose_secret (ca_secret a))
    end in
  match persisted_secret with
  | Err e => (Err e, db)
  | Ok secret =>
      let row := MkAuthorityRow (auth_kind_as_str (ca_auth_kind a)) (ca_granted_scopes a) secret
                   (pg_timestamp <$> ca_session_expires_at a)
                   (pg_timestamp <$> ca_last_revalidated_at a) in
      (Ok (), cd_with_authorities db
                (<[CreatorPubky_display (ca_creator a) := row]> (cd_authorities db)))
  end.

Definition pg_get_authority (creator : CreatorPubky) (db : ConnectDb) :
    result ApplicationError (option CreatorAuthorityRecord) :=
  let key := CreatorPubky_display creator in
  read_row (row_to_authority key) (cd_authorities db !! key).

Definition pg_get_session (token : FrontendSessionToken) (db : ConnectDb) :
    result ApplicationError (option FrontendSessionRecord) :=
  read_row (row_to_session_record token)
    (cd_sessions db !! secret_lookup_hash (expose_token token)).

#[local] Instance pg_connect : ConnectStore ConnectDb := {
  insert_pending_creator_connect_flow r _ := pg_insert_flow r;
  get_pending_creator_connect_flow flow_id _ db :=
    (Ok (flow_of_row flow_id <$> cd_flows db !! flow_id), db);
  delete_pending_creator_connect_flow flow_id _ db :=
    (Ok (), cd_with_flows db (delete flow_id (cd_flows db)));
  consume_pending_creator_connect_flow := pg_consume_flow;
  upsert_creator_authority a nonce _ := pg_upsert_authority a nonce;
  get_creator_authority creator _ db := (pg_get_authority creator db, db);
  delete_creator_authority creator _ db :=
    (Ok (), cd_with_authorities db (delete (CreatorPubky_display creator) (cd_authorities db)));
  insert_frontend_session_code r _ := pg_insert_code r;
  consume_frontend_session_code code now _ := pg_consume_code code now;
  insert_frontend_session r _ := pg_insert_session r;
  get_frontend_session token _ db := (pg_get_session token db, db);
  delete_frontend_session token _ db :=
    (Ok (), cd_with_sessions db (delete (secret_lookup_hash (expose_token token)) (cd_sessions db)));
}.
End postgres.

(** * Both keep the promises of the interface *)

Definition code_bytes (code : FrontendSessionCode) : bytes := as_bytes (expose_code code).

#[local] Instance code_bytes_inj : Inj (=) (=) code_bytes.
Proof. intros [c] [c'] Heq%as_bytes_inj. cbn in Heq. by subst. Qed.

Definition memory_codes (s : ConnectMemory) : gmap bytes CodeRow :=
  kmap code_bytes (code_row (λ t, t) <$> cm_codes s).

Lemma flow_kept_as_is r : flow_as_kept (λ t, t) r = r.
Proof. by destruct r. Qed.

Lemma memory_consume_flow_law id now s res s' :
  memory_consume_flow id now s = (res, s') →
  memory_codes s' = memory_codes s
  ∧ match res with
    | Ok (Some r) => cm_flows s !! id = Some r ∧ cm_flows s' = delete id (cm_flows s)
    | _ => cm_flows s' = cm_flows s
    end.
Proof.
  unfold memory_consume_flow. destruct (cm_flows s !! id) as [r|]; cbn; [|by intros [= <- <-]].
  destruct (flow_is_expired_at r now); by intros [= <- <-].
Qed.

Lemma memory_consume_code_law code now s res s' :
  memory_consume_code code now s = (res, s') →
  cm_flows s' = cm_flows s
  ∧ ((∀ r, res ≠ Ok (Some r)) ∧ memory_codes s' = memory_codes s
     ∨ ∃ row t', memory_codes s !! code_bytes code = Some row
         ∧ memory_codes s' = <[code_bytes code := row_consumed_at row t']> (memory_codes s)
         ∧ ∀ r, res = Ok (Some r) →
             Some (MkCreatorPubky (co_creator row)) = Some (sc_creator r)
             ∧ sc_state r = co_state row ∧ sc_expires_at r = co_expires_at row
             ∧ sc_consumed_at r = co_consumed_at row).
Proof.
  unfold memory_consume_code. destruct (cm_codes s !! code) as [r|] eqn:Hr; intros [= <- <-];
    (split; [done|]); [right|by left].
  exists (code_row (λ t, t) r), now. unfold memory_codes. split_and!.
  - by rewrite lookup_kmap, lookup_fmap, Hr by apply _.
  - cbn. by rewrite fmap_insert, kmap_insert by apply _.
  - intros r' [= <-]. destruct r as [? [?] ? ? ? ? []]; by split_and!.
Qed.

#[global] Program Instance memory_connect_laws : ConnectLaws ConnectMemory := {
  flows := cm_flows;
  codes := memory_codes;
  code_key := code_bytes;
  kept := λ t, t;
  creator_read := λ s, Some (MkCreatorPubky s);
}.
Next Obligation. intros r t s res s' [= <- <-]. cbn. by rewrite flow_kept_as_is. Qed.
Next Obligation. by intros id t s res s' [= <- <-]. Qed.
Next Obligation. by intros id t s res s' [= <- <-]. Qed.
Next Obligation. intros id now t s res s'. apply memory_consume_flow_law. Qed.
Next Obligation. by intros a n t s res s' [= <- <-]. Qed.
Next Obligation. by intros c t s res s' [= <- <-]. Qed.
Next Obligation. by intros c t s res s' [= <- <-]. Qed.
Next Obligation.
  intros r t s res s' [= <- <-]. split; [done|]. unfold memory_codes. cbn.
  by rewrite fmap_insert, kmap_insert by apply _.
Qed.
Next Obligation. intros code now t s res s'. apply memory_consume_code_law. Qed.
Next Obligation. by intros r t s res s' [= <- <-]. Qed.
Next Obligation. by intros tk t s res s' [= <- <-]. Qed.
Next Obligation. by intros tk t s res s' [= <- <-]. Qed.

Section postgres_laws.
  Context `{Base32, PubkyKeys, UuidCrate, Base64Url, Aead, Blake3, PgTime}.
  Context (cipher : option bytes).
  #[local] Existing Instance pg_connect.

Definition pg_flows (db : ConnectDb) : gmap CreatorConnectFlowId PendingCreatorConnectFlowRecord :=
  map_imap (λ id row, Some (flow_of_row id row)) (cd_flows db).

Lemma pg_flows_lookup db id : pg_flows db !! id = flow_of_row id <$> cd_flows db !! id.
Proof. unfold pg_flows. rewrite map_lookup_imap. by destruct (cd_flows db !! id). Qed.

Lemma pg_insert_flow_law r db res db' :
  pg_insert_flow r db = (res, db') →
  cd_codes db' = cd_codes db
  ∧ pg_flows db' = if is_ok res then <[pf_flow_id r := flow_as_kept pg_timestamp r]> (pg_flows db)
                   else pg_flows db.
Proof.
  unfold pg_insert_flow. destruct (cd_flows db !! _); intros [= <- <-]; [done|]. split; [done|].
  unfold pg_flows. cbn. rewrite map_imap_insert. by destruct r as [? ? ? []].
Qed.

Lemma pg_delete_flow_law id db :
  pg_flows (cd_with_flows db (delete id (cd_flows db))) = delete id (pg_flows db).
Proof. unfold pg_flows. cbn. apply map_imap_delete. Qed.

Lemma pg_consume_flow_law id now t db res db' :
  pg_consume_flow id now t db = (res, db') →
  cd_codes db' = cd_codes db
  ∧ match res with
    | Ok (Some r) => pg_flows db !! id = Some r ∧ pg_flows db' = delete id (pg_flows db)
    | _ => pg_flows db' = pg_flows db
    end.
Proof.
  unfold pg_consume_flow. destruct (cd_flows db !! id) as [row|] eqn:Hrow; [|by intros [= <- <-]].
  destruct (_ <? _); intros [= <- <-]; [|done]. split_and!; [done| |apply pg_delete_flow_law].
  by rewrite pg_flows_lookup, Hrow.
Qed.

Lemma pg_consume_code_law code now db res db' :
  pg_consume_code code now db = (res, db') →
  pg_flows db' = pg_flows db
  ∧ ((∀ r, res ≠ Ok (Some r)) ∧ cd_codes db' = cd_codes db
     ∨ ∃ row t', cd_codes db !! secret_lookup_hash (expose_code code) = Some row
         ∧ cd_codes db'
           = <[secret_lookup_hash (expose_code code) := row_consumed_at row t']> (cd_codes db)
         ∧ ∀ r, res = Ok (Some r) →
             ok (CreatorPubky_from_str (co_creator row)) = Some (sc_creator r)
             ∧ sc_state r = co_state row ∧ sc_expires_at r = co_expires_at row
             ∧ sc_consumed_at r = co_consumed_at row).
Proof.
  unfold pg_consume_code. destruct (cd_codes db !! _) as [row|] eqn:Hrow;
    [|intros [= <- <-]; split; [done|by left]].
  destruct (is_none (co_consumed_at row)) eqn:Hn; intros [= <- <-]; (split; [done|]); [right|by left].
  exists row, (pg_timestamp now). split_and!; [done|done|]. intros r Hr.
  apply fmap_Ok in Hr as (r' & Hr & [= ->]). apply bind_Ok in Hr as (c & Hc%map_err_Ok & [= <-]).
  by rewrite Hc.
Qed.

#[local] Program Instance pg_connect_laws : ConnectLaws ConnectDb (H := pg_connect cipher) := {
  flows := pg_flows;
  codes := cd_codes;
  code_key := λ code, secret_lookup_hash (expose_code code);
  kept := pg_timestamp;
  creator_read := λ s, ok (CreatorPubky_from_str s);
}.
Next Obligation. intros r t db res db'. apply pg_insert_flow_law. Qed.
Next Obligation. by intros id t db res db' [= <- <-]. Qed.
Next Obligation. intros id t db res db' [= <- <-]. split; [done|apply pg_delete_flow_law]. Qed.
Next Obligation. intros id now t db res db'. apply pg_consume_flow_law. Qed.
Next Obligation.
  intros a n t db res db'. cbn. unfold pg_upsert_authority.
  destruct (match cipher with Some _ => _ | None => _ end); by intros [= <- <-].
Qed.
Next Obligation. by intros c t db res db' [= <- <-]. Qed.
Next Obligation. by intros c t db res db' [= <- <-]. Qed.
Next Obligation.
  intros r t db res db'. cbn. unfold pg_insert_code.
  destruct (cd_codes db !! _); by intros [= <- <-].
Qed.
Next Obligation. intros code now t db res db'. apply pg_consume_code_law. Qed.
Next Obligation.
  intros r t db res db'. cbn. unfold pg_insert_session.
  destruct (cd_sessions db !! _); by intros [= <- <-].
Qed.
Next Obligation. by intros tk t db res db' [= <- <-]. Qed.
Next Obligation. by intros tk t db res db' [= <- <-]. Qed.
End postgres_laws.

(** * Secrets at rest *)

(** The associated data determines the creator and the kind. *)
Lemma authority_aad_inj c k c' k' :
  creator_authority_secret_aad c k = creator_authority_secret_aad c' k' → c = c' ∧ k = k'.
Proof.
  unfold creator_authority_secret_aad. intros Heq%append_inj_l.
  assert (k = k') as <-.
  { apply (f_equal (λ s, last (list_ascii_of_string s))) in Heq.
    rewrite <- !append_assoc, !list_ascii_append in Heq. destruct k, k'; try done;
      rewrite !last_app in Heq; discriminate Heq. }
  split; [|done]. apply (f_equal (strip_suffix (":" +:+ auth_kind_as_str k))) in Heq.
  rewrite !strip_suffix_app in Heq. injection Heq as Heq. destruct c, c'. by f_equal.
Qed.

Lemma auth_kind_roundtrip k : auth_kind_from_str (auth_kind_as_str k) = Ok k.
Proof. by destruct k. Qed.

(** The record as the table keeps it. *)
Definition authority_as_kept `{PgTime} (a : CreatorAuthorityRecord) : CreatorAuthorityRecord :=
  MkAuthority (ca_creator a) (ca_auth_kind a) (ca_granted_scopes a) (ca_secret a)
    (pg_timestamp <$> ca_session_expires_at a) (pg_timestamp <$> ca_last_revalidated_at a).

(** The row an authority is kept in. *)
Definition authority_row (creator : CreatorPubky) (db : ConnectDb) : option AuthorityRow :=
  cd_authorities db !! CreatorPubky_display creator.

Section secrets.
  Context `{Base32, PubkyKeysLaws, UuidCrate, Base64UrlLaws, AeadLaws, Blake3, PgTime}.

(** What [authority_decrypt] does to a well-formed envelope. *)
Lemma authority_decrypt_envelope key creator kind nonce ciphertext :
  Z.of_nat (length nonce) = 24 →
  authority_decrypt key creator kind
    (ENVELOPE_PREFIX +:+ b64_encode nonce +:+ ":" +:+ b64_encode ciphertext)
  = plaintext ← ok_or (aead_open key nonce (as_bytes (creator_authority_secret_aad creator kind))
                         ciphertext) authority_decrypt_error;
    MkAuthoritySecret <$> ok_or (from_utf8 plaintext) authority_decrypt_error.
Proof.
  intros Hlen. unfold authority_decrypt. rewrite strip_prefix_app. cbn [ok_or]. rewrite bind_of_Ok.
  change (":" +:+ b64_encode ciphertext) with (String colon (b64_encode ciphertext)).
  rewrite split_once_at by apply b64_no_colon. cbn [ok_or]. rewrite bind_of_Ok. cbn beta iota.
  rewrite !b64_decode_encode. cbn [ok_or]. rewrite !bind_of_Ok.
  rewrite Hlen. cbn [negb reject_if Z.eqb Pos.eqb]. by rewrite !bind_of_Ok.
Qed.

Lemma authority_envelope_opens key creator kind secret nonce envelope :
  authority_encrypt key creator kind secret nonce = Ok envelope → Z.of_nat (length nonce) = 24 →
  valid_utf8 (as_bytes (expose_secret secret)) = true →
  authority_decrypt key creator kind envelope = Ok secret.
Proof.
  intros (ct & Hct%ok_or_Ok & [= <-])%bind_Ok Hlen Hutf. rewrite authority_decrypt_envelope by done.
  apply aead_open_seal in Hct. rewrite Hct. cbn. unfold from_utf8. rewrite Hutf. cbn.
  rewrite string_of_as_bytes. by destruct secret.
Qed.

(** Whatever decrypts an envelope decrypts an encryption of what it finds. *)
Lemma authority_envelope_bound key creator kind secret nonce envelope creator' kind' secret' :
  authority_encrypt key creator kind secret nonce = Ok envelope → Z.of_nat (length nonce) = 24 →
  authority_decrypt key creator' kind' envelope = Ok secret' →
  authority_encrypt key creator' kind' secret' nonce = Ok envelope.
Proof.
  intros (ct & Hct%ok_or_Ok & [= <-])%bind_Ok Hlen Hd. rewrite authority_decrypt_envelope in Hd by done.
  apply bind_Ok in Hd as (pt & Hpt%ok_or_Ok & Hd). apply aead_open_seal in Hpt.
  apply fmap_Ok in Hd as (str & Hs%ok_or_Ok & ->). unfold from_utf8 in Hs.
  destruct (valid_utf8 pt); [|done]. injection Hs as <-. unfold authority_encrypt.
  cbn [expose_secret]. unfold as_bytes in *. rewrite list_ascii_of_list_ascii. by rewrite Hpt.
Qed.

Lemma authority_read_back cipher a nonce db db' :
  pg_upsert_authority cipher a nonce db = (Ok (), db') →
  canonical_creator (ca_creator a) → (is_some cipher = true → Z.of_nat (length nonce) = 24) →
  valid_utf8 (as_bytes (expose_secret (ca_secret a))) = true →
  pg_get_authority cipher (ca_creator a) db' = Ok (Some (authority_as_kept a)).
Proof.
  intros Hu Hc Hlen Hutf. unfold pg_upsert_authority in Hu.
  destruct (match cipher with Some _ => _ | None => _ end) as [secret|e] eqn:Hs; [|done].
  injection Hu as <-. unfold pg_get_authority, authority_as_kept. cbn. rewrite lookup_insert_eq. cbn.
  unfold row_to_authority, parse_creator. rewrite canonical_creator_roundtrip by done. cbn.
  rewrite auth_kind_roundtrip. cbn. destruct cipher as [key|].
  - by rewrite (authority_envelope_opens _ _ _ _ _ _ Hs) by auto.
  - injection Hs as <-. by destruct (ca_secret a).
Qed.

(** C0: An authority stored in Postgres is read back as it was stored, whether or not secrets
    are encrypted, and the authorities of other creators stay as they were.  Encrypted, the
    secret of a row opens for another creator or kind of authority only if it is also an
    encryption for those, and their associated data differ. *)
Theorem authority_restored cipher a nonce db db' :
  pg_upsert_authority cipher a nonce db = (Ok (), db') →
  canonical_creator (ca_creator a) → Z.of_nat (length nonce) = 24 →
  valid_utf8 (as_bytes (expose_secret (ca_secret a))) = true →
  pg_get_authority cipher (ca_creator a) db' = Ok (Some (authority_as_kept a))
  ∧ (∀ other, other ≠ ca_creator a →
       pg_get_authority cipher other db' = pg_get_authority cipher other db)
  ∧ ∀ key row, cipher = Some key → authority_row (ca_creator a) db' = Some row →
      ∀ creator kind secret, authority_decrypt key creator kind (au_secret row) = Ok secret →
        authority_encrypt key creator kind secret nonce = Ok (au_secret row)
        ∧ ((creator, kind) ≠ (ca_creator a, ca_auth_kind a) →
           creator_authority_secret_aad creator kind
           ≠ creator_authority_secret_aad (ca_creator a) (ca_auth_kind a)).
Proof.
  intros Hu Hc Hlen Hutf. pose proof (authority_read_back _ _ _ _ _ Hu Hc (λ _, Hlen) Hutf) as Hback.
  split; [done|]. unfold pg_upsert_authority in Hu.
  destruct (match cipher with Some _ => _ | None => _ end) as [secret|e] eqn:Hs; [|done].
  injection Hu as <-. split.
  - intros other Hne. unfold pg_get_authority. cbn. rewrite lookup_insert_ne; [done|].
    intros Heq. apply Hne. destruct other, (ca_creator a). cbn in *. by f_equal.
  - intros key row -> Hrow creator kind secret' Hd. unfold authority_row in Hrow. cbn in Hrow.
    rewrite lookup_insert_eq in Hrow. injection Hrow as <-. cbn in *. split.
    + by eapply authority_envelope_bound.
    + intros Hne Heq. apply Hne. by apply authority_aad_inj in Heq as [-> ->].
Qed.
End secrets.

(** * Replayed codes *)

Section replay.
  Context `{Base32, PubkyKeys, UuidCrate, Base64Url, Aead, Blake3, PgTime}.
  Context (cipher : option bytes) (clock store_clock : nat → OffsetDateTime).
  Context (generate_token : nat → FrontendSessionToken).

  Abbreviation undisturbed store :=
    (exchange_frontend_session_code (H := store) clock store_clock (λ _, Delivered) (λ _ s, s) generate_token).

Lemma pg_exchange_takes request w r w' :
  undisturbed (pg_connect cipher) request w = (Ok r, w') →
  ∃ row, cd_codes (w_store w') !! secret_lookup_hash (expose_code (xr_code request)) = Some row
    ∧ is_some (co_consumed_at row) = true.
Proof.
  unfold exchange_frontend_session_code, tell, connect_call, at_this_moment, run_bind, run_lift, run_ret, now.
  cbn. unfold pg_consume_code, pg_insert_session. intros Hx.
  destruct (cd_codes (w_store w) !! _) as [row|] eqn:Hrow; [|done].
  destruct (is_none (co_consumed_at row)) eqn:Hn; [|done].
  destruct (row_to_code_record _ row) as [rec|e]; [|done]. cbn in Hx.
  destruct (check_code rec _ _) as [[]|e]; [|done]. cbn in Hx.
  destruct (cd_sessions (w_store w) !! _); [done|]. injection Hx as _ <-. cbn.
  eexists. by rewrite lookup_insert_eq.
Qed.

Lemma memory_exchange_takes request w r w' :
  undisturbed memory_connect request w = (Ok r, w') →
  ∃ rec, cm_codes (w_store w') !! xr_code request = Some rec ∧ is_some (sc_consumed_at rec) = true.
Proof.
  unfold exchange_frontend_session_code, tell, connect_call, at_this_moment, run_bind, run_lift, run_ret, now.
  cbn. unfold memory_consume_code. intros Hx.
  destruct (cm_codes (w_store w) !! _) as [rec|] eqn:Hrec; [|done]. cbn in Hx.
  destruct (check_code rec _ _) as [[]|e]; [|done]. injection Hx as _ <-. cbn.
  eexists. by rewrite lookup_insert_eq.
Qed.

(** C29: A code that has been exchanged is refused when it is presented again, but the two
    stores disagree on how: in memory it is reported as already consumed, as the interface
    documents; Postgres, which runs in production, reports that there is no such code. *)
Theorem code_replay_answers code state state' :
  (∀ w r w', undisturbed memory_connect (MkExchange code state) w = (Ok r, w') →
     (undisturbed memory_connect (MkExchange code state') w').1 = Err FrontendSessionCodeAlreadyConsumed)
  ∧ ∀ w r w', undisturbed (pg_connect cipher) (MkExchange code state) w = (Ok r, w') →
     (undisturbed (pg_connect cipher) (MkExchange code state') w').1 = Err FrontendSessionCodeUnavailable.
Proof.
  split; intros w r w' Hx.
  - apply memory_exchange_takes in Hx as (rec & Hrec & Hc). cbn in Hrec.
    unfold exchange_frontend_session_code, connect_call, run_bind, run_lift, now. cbn.
    unfold memory_consume_code. rewrite Hrec. cbn. unfold check_code. by rewrite Hc.
  - apply pg_exchange_takes in Hx as (row & Hrow & Hc). cbn in Hrow.
    unfold exchange_frontend_session_code, connect_call, run_bind, run_lift, now. cbn.
    unfold pg_consume_code. rewrite Hrow. by destruct (co_consumed_at row).
Qed.
End replay.
