(* ===== verification/ConnectSafe.v ===== *)
(** What the connection of creators guarantees, whichever store lies behind it, whoever
    acts in between and whichever calls are lost.

    A history is a sequence of calls of the store, in the order in which they took effect;
    the events it logs are an interleaving of what single runs of the use cases logged. *)

From S2P Require Import Prelude RustStr Externals Ids Errors Run Connect.
From S2P Require FoldedServer.

(** * What runs log *)

(** Whatever becomes of the run, its result and the events it adds satisfy [Q]. *)
Definition logs {S A} (m : Run S (list ConnectEvent) A)
    (Q : result ApplicationError A → list ConnectEvent → Prop) : Prop :=
  ∀ w res w', m w = (res, w') → ∃ evs, w_entitlements w' = w_entitlements w ++ evs ∧ Q res evs.

Section logs.
  Context {S : Type} `{ConnectStore S}.
  Context (store_clock : nat → OffsetDateTime) (fates : nat → Fate) (others : nat → S → S).

Lemma logs_bind {A B} (f : A → Run S (list ConnectEvent) B) m Q R :
  logs m Q → (∀ e evs, Q (Err e) evs → R (Err e) evs) →
  (∀ a evs, Q (Ok a) evs → logs (f a) (λ res evs', R res (evs ++ evs'))) →
  logs (run_bind f m) R.
Proof.
  intros Hm Herr Hf w res w' Hw.
  apply run_bind_inv in Hw as [(e & Hw & ->)|(a & w1 & Hw & Hfa)];
    apply Hm in Hw as (evs & Hlog & HQ); [by eauto|].
  apply (Hf a evs HQ) in Hfa as (evs' & Hlog' & HR). exists (evs ++ evs').
  split; [|done]. by rewrite Hlog', Hlog, app_assoc.
Qed.

Lemma logs_quiet {A} (m : Run S (list ConnectEvent) A) (Q : _ → _ → Prop) :
  (∀ w, w_entitlements (m w).2 = w_entitlements w) → (∀ res, Q res []) → logs m Q.
Proof.
  intros Hm HQ w res w' Hw. exists []. split; [|done]. specialize (Hm w).
  rewrite Hw in Hm. by rewrite app_nil_r.
Qed.

(** A computation that logs nothing, followed by another. *)
Lemma logs_after {A B} (f : A → Run S (list ConnectEvent) B) m R :
  (∀ w, w_entitlements (m w).2 = w_entitlements w) →
  (∀ e, R (Err e) []) → (∀ a, logs (f a) R) → logs (run_bind f m) R.
Proof.
  intros Hm Herr Hf. apply (logs_bind _ _ (λ _ evs, evs = [])).
  - by apply logs_quiet.
  - by intros e evs ->.
  - intros a evs ->. apply Hf.
Qed.

(** Only a success lets the run go on. *)
Lemma logs_lift {A B} (f : A → Run S (list ConnectEvent) B) (r : result ApplicationError A) R :
  (∀ e, R (Err e) []) → (∀ a, r = Ok a → logs (f a) R) → logs (run_bind f (run_lift r)) R.
Proof.
  intros Herr Hf w res w' Hw. unfold run_bind, run_lift in Hw.
  destruct r as [a|e]; [by eapply Hf|]. injection Hw as <- <-. exists [].
  by rewrite app_nil_r.
Qed.

Lemma logs_ask {A B} (op : OffsetDateTime → S → result ApplicationError A * S)
    (f : A → Run S (list ConnectEvent) B) R :
  (∀ e, R (Err e) []) → (∀ a, logs (f a) R) → logs (run_bind f (ask store_clock fates others op)) R.
Proof.
  apply logs_after. intros w. unfold ask, connect_call.
  destruct (op _ _) as [[a|e] s']; destruct (fates _); cbn; by rewrite app_nil_r.
Qed.

(** A call that answers has had its effect; one that does not may have had it. *)
Lemma logs_call {A B} (op : OffsetDateTime → S → result ApplicationError A * S) event
    (f : A → Run S (list ConnectEvent) B) (R : _ → _ → Prop) :
  (∀ e, R (Err e) []) → (∀ a e, R (Err e) (option_list (event a))) →
  (∀ a, logs (f a) (λ res evs, R res (option_list (event a) ++ evs))) →
  logs (run_bind f (connect_call store_clock fates others op event)) R.
Proof.
  intros Herr Hlost Hf. eapply (logs_bind _ _ (λ r evs,
    match r with
    | Ok a => evs = option_list (event a)
    | Err _ => evs = [] ∨ ∃ a, evs = option_list (event a)
    end)).
  - intros w res w' Hw. unfold connect_call in Hw.
    destruct (op _ _) as [[a|e] s']; destruct (fates _) as [|e'|e']; injection Hw as <- <-;
      (eexists; split; [done|eauto]).
  - intros e evs [->|(a & ->)]; auto.
  - intros a evs ->. apply Hf.
Qed.

Lemma logs_tell {B} (op : OffsetDateTime → S → result ApplicationError () * S) event
    (f : () → Run S (list ConnectEvent) B) (R : _ → _ → Prop) :
  (∀ e, R (Err e) []) → (∀ e, R (Err e) [event]) →
  (∀ a, logs (f a) (λ res evs, R res (event :: evs))) →
  logs (run_bind f (tell store_clock fates others op event)) R.
Proof. intros Herr Hlost Hf. by apply logs_call. Qed.

Lemma logs_note {B} event (f : () → Run S (list ConnectEvent) B) (R : _ → _ → Prop) :
  (∀ a, logs (f a) (λ res evs, R res (event :: evs))) → logs (run_bind f (note event)) R.
Proof.
  intros Hf. apply (logs_bind _ _ (λ r evs, is_ok r = true ∧ evs = [event])).
  - intros w res w' [= <- <-]. by exists [event].
  - by intros e evs [? ->].
  - intros a evs [_ ->]. apply Hf.
Qed.

Lemma logs_done {A} (r : result ApplicationError A) (R : _ → _ → Prop) :
  (∀ r, R r []) → logs (S := S) (run_lift r) R.
Proof. intros HR. by apply logs_quiet. Qed.
End logs.

(** * The logs of the use cases *)

Definition legal_code (p : PendingCreatorConnectFlowRecord) (a : CreatorAuthorityRecord)
    (r : FrontendSessionCodeRecord) : Prop :=
  sc_creator r = ca_creator a ∧ sc_state r = pf_state p ∧ sc_return_to r = pf_return_to p
  ∧ sc_expires_at r = sc_created_at r + FRONTEND_SESSION_CODE_TTL ∧ sc_consumed_at r = None.

(** A completion, up to the point where it ends. *)
Inductive complete_log (id : CreatorConnectFlowId) : list ConnectEvent → Prop :=
  | complete_none : complete_log id []
  | complete_dropped : complete_log id [FlowDropped id]
  | complete_approved u c sec : complete_log id [ApprovalGiven u c sec]
  | complete_consumed u c sec p : complete_log id [ApprovalGiven u c sec; FlowConsumed id p]
  | complete_stored u c sec p a n :
      pf_authorization_url p = u → ca_creator a = c → ca_secret a = sec →
      complete_log id [ApprovalGiven u c sec; FlowConsumed id p; AuthorityStored id a n]
  | complete_issued u c sec p a n r :
      pf_authorization_url p = u → ca_creator a = c → ca_secret a = sec → legal_code p a r →
      complete_log id
        [ApprovalGiven u c sec; FlowConsumed id p; AuthorityStored id a n; CodeIssued id r].

(** An exchange. *)
Inductive exchange_log : list ConnectEvent → Prop :=
  | exchange_none : exchange_log []
  | exchange_taken code r : exchange_log [CodeTaken code r]
  | exchange_issued code r state session :
      sc_consumed_at r = None → sc_state r = state → fs_creator session = sc_creator r →
      fs_created_at session < sc_expires_at r →
      fs_expires_at session = fs_created_at session + FRONTEND_SESSION_TTL →
      exchange_log [CodeTaken code r; SessionIssued code state session].

Section runs.
  Context {S : Type} `{ConnectStore S} `{FoldedServer.WebCrates}.
  Context (clock store_clock : nat → OffsetDateTime).
  Context (fates : nat → Fate) (others : nat → S → S).

Lemma start_logs client grant_client generate_flow_id request :
  logs (start_creator_connect_flow clock store_clock fates others client grant_client
          generate_flow_id request)
    (λ _ evs, evs = [] ∨ ∃ r, evs = [FlowStarted r]).
Proof.
  unfold start_creator_connect_flow. apply logs_lift; [by left|intros _ _].
  do 3 (apply logs_after; [done|by left|intros ?]).
  apply logs_tell; [by left|by eauto|intros _]. apply logs_done. eauto.
Qed.

Lemma commit_logs generate_code nonce pending a id t u c sec :
  pf_authorization_url pending = u → ca_creator a = c → ca_secret a = sec →
  logs (commit_connect_flow clock store_clock fates others generate_code nonce pending a id t)
    (λ _ evs, complete_log id (ApprovalGiven u c sec :: evs)).
Proof.
  intros Hu Hc Hsec. unfold commit_connect_flow.
  apply logs_call; [intros e; constructor|intros [p|] e; constructor|intros o].
  apply logs_lift; [intros e; destruct o as [p|]; constructor|intros p Hp].
  apply ok_or_Ok in Hp. destruct o as [p'|]; cbn in Hp; [|done].
  destruct (p' == pending) eqn:Hpp; [|done]. rewrite eqb_true in Hpp. injection Hp as <-. subst p'.
  apply logs_after; [done|intros e; constructor|intros committed_at].
  apply logs_lift; [intros e; constructor|intros _ _].
  apply logs_after; [done|intros e; constructor|intros n].
  apply logs_tell; [intros e; constructor|intros e; by constructor|intros _].
  apply logs_after; [done|intros e; by constructor|intros code].
  apply logs_tell; [intros e; by constructor|intros e; by constructor|intros _].
  apply logs_done. intros res. by constructor.
Qed.

Lemma complete_logs client generate_code nonce id :
  logs (complete_creator_connect_flow clock store_clock fates others client generate_code nonce id)
    (λ _ evs, complete_log id evs).
Proof.
  unfold complete_creator_connect_flow. apply logs_ask; [constructor|intros found].
  apply logs_lift; [constructor|intros pending _].
  apply logs_after; [done|constructor|intros now].
  destruct (flow_is_expired_at pending now).
  { apply logs_tell; [constructor|constructor|intros _]. apply logs_done. constructor. }
  apply logs_lift; [constructor|intros kind _]. apply logs_lift; [constructor|intros _ _].
  eapply (logs_bind _ _ (λ r evs,
    match r with
    | Ok a => evs = [ApprovalGiven (pf_authorization_url pending) (ca_creator a) (ca_secret a)]
    | Err _ => evs = []
    end)).
  - unfold await_authority. destruct client as [await|await];
      (apply logs_after; [done|done|intros approval; apply logs_note; intros _]);
      intros w res w' [= <- <-]; exists []; by rewrite app_nil_r.
  - intros e evs ->. constructor.
  - intros a evs ->. cbn [app]. apply logs_after; [done|intros e; constructor|intros completed_at].
    apply logs_lift; [intros e; constructor|intros _ _]. by apply commit_logs.
Qed.

Lemma check_code_Ok r state t u :
  check_code r state t = Ok u → sc_consumed_at r = None ∧ t < sc_expires_at r ∧ sc_state r = state.
Proof.
  unfold check_code. intros Hc. peel. unfold code_is_expired_at in *. props.
  destruct (sc_consumed_at r); [done|]. split_and!; [done|lia|done].
Qed.

Lemma exchange_logs generate_token request :
  logs (exchange_frontend_session_code clock store_clock fates others generate_token request)
    (λ _ evs, exchange_log evs).
Proof.
  unfold exchange_frontend_session_code. apply logs_after; [done|constructor|intros now].
  apply logs_call; [intros e; constructor|intros [r|] e; constructor|intros o].
  apply logs_lift; [intros e; destruct o as [r|]; constructor|intros r Hr%ok_or_Ok].
  subst o. apply logs_lift; [intros e; constructor|intros u (Hn & Ht & Hs)%check_code_Ok].
  apply logs_after; [done|intros e; constructor|intros token].
  apply logs_tell; [intros e; constructor|intros e; by constructor|intros _].
  apply logs_done. intros res. by constructor.
Qed.

Lemma validate_logs token :
  logs (validate_frontend_session clock store_clock fates others token) (λ _ evs, evs = []).
Proof.
  apply logs_quiet; [|done]. intros w. unfold validate_frontend_session, current_session.
  unfold run_bind, Run.now, ask, connect_call, run_lift, run_ret. cbn.
  destruct (get_frontend_session _ _ _) as [[o|e] s'];
    destruct (fates _); cbn; rewrite ?app_nil_r; try done; destruct o as [r|]; cbn; try done;
    by destruct (reject_if _ _).
Qed.

Lemma signout_logs token :
  logs (signout clock store_clock fates others token) (λ _ evs, evs = [] ∨ evs = [SessionEnded token]).
Proof.
  unfold signout. eapply logs_bind; [apply validate_logs|auto|].
  intros a evs ->. cbn [app]. intros w res w' Hw. unfold tell, connect_call in Hw.
  destruct (delete_frontend_session _ _ _) as [[[]|e] s']; destruct (fates _); injection Hw as <- <-;
    (eexists; split; [done|auto]).
Qed.
End runs.

(** * Histories of a store *)

(** The calls the ports offer, and what they log. *)
Inductive connect_op {S : Type} `{ConnectStore S} : ∀ {A},
    (OffsetDateTime → S → result ApplicationError A * S) → (A → option ConnectEvent) → Prop :=
  | op_insert_flow r :
      connect_op (insert_pending_creator_connect_flow r) (λ _, Some (FlowStarted r))
  | op_get_flow id : connect_op (get_pending_creator_connect_flow id) (λ _, None)
  | op_delete_flow id :
      connect_op (delete_pending_creator_connect_flow id) (λ _, Some (FlowDropped id))
  | op_consume_flow id now :
      connect_op (consume_pending_creator_connect_flow id now) (λ o, FlowConsumed id <$> o)
  | op_upsert_authority id a nonce :
      connect_op (upsert_creator_authority a nonce) (λ _, Some (AuthorityStored id a nonce))
  | op_get_authority c : connect_op (get_creator_authority c) (λ _, None)
  | op_delete_authority c : connect_op (delete_creator_authority c) (λ _, None)
  | op_insert_code id r : connect_op (insert_frontend_session_code r) (λ _, Some (CodeIssued id r))
  | op_consume_code code now :
      connect_op (consume_frontend_session_code code now) (λ o, CodeTaken code <$> o)
  | op_insert_session code state r :
      connect_op (insert_frontend_session r) (λ _, Some (SessionIssued code state r))
  | op_get_session token : connect_op (get_frontend_session token) (λ _, None)
  | op_delete_session token :
      connect_op (delete_frontend_session token) (λ _, Some (SessionEnded token)).

Definition logged {A} (event : A → option ConnectEvent) (res : result ApplicationError A) :
    list ConnectEvent :=
  match res with Ok a => option_list (event a) | Err _ => [] end.

Inductive connect_history {S : Type} `{ConnectLaws S} : list ConnectEvent → S → Prop :=
  | history_empty s : flows s = ∅ → codes s = ∅ → connect_history [] s
  | history_call {A} log s (op : OffsetDateTime → S → result ApplicationError A * S) event t res s' :
      connect_history log s → connect_op op event → op t s = (res, s') →
      connect_history (log ++ logged event res) s'
  | history_approval log s url creator secret :
      connect_history log s → connect_history (log ++ [ApprovalGiven url creator secret]) s.

(** How often an event of a kind occurs. *)
Definition occurrences (p : ConnectEvent → bool) (log : list ConnectEvent) : nat :=
  length (filter (λ e, p e = true) log).
Arguments occurrences : simpl never.

Lemma occurrences_nil p : occurrences p [] = 0%nat.
Proof. done. Qed.

Lemma occurrences_cons p e log :
  occurrences p (e :: log) = ((if p e then 1 else 0) + occurrences p log)%nat.
Proof. unfold occurrences. rewrite filter_cons. by destruct (p e). Qed.

Lemma occurrences_app p l l' : occurrences p (l ++ l') = (occurrences p l + occurrences p l')%nat.
Proof. unfold occurrences. by rewrite filter_app, length_app. Qed.

Lemma occurrences_perm p l l' : l ≡ₚ l' → occurrences p l = occurrences p l'.
Proof. intros Hl. unfold occurrences. by rewrite Hl. Qed.

Lemma occurrences_none p l : (∀ e, e ∈ l → p e = false) → occurrences p l = 0%nat.
Proof.
  induction l as [|e l IH]; [done|]. intros Hl. rewrite occurrences_cons.
  rewrite (Hl e), IH; [done| |]; set_solver.
Qed.

(** A bound on every part is a bound on the whole. *)
Lemma occurrences_concat p q ls :
  Forall (λ l, (occurrences p l ≤ occurrences q l)%nat) ls →
  (occurrences p (mjoin ls) ≤ occurrences q (mjoin ls))%nat.
Proof.
  induction 1 as [|l ls Hl _ IH]; [done|].
  change (mjoin (l :: ls)) with (l ++ mjoin ls). rewrite !occurrences_app. lia.
Qed.

Definition starts_of (id : CreatorConnectFlowId) (e : ConnectEvent) : bool :=
  match e with FlowStarted r => pf_flow_id r == id | _ => false end.
Definition consumes (id : CreatorConnectFlowId) (e : ConnectEvent) : bool :=
  match e with FlowConsumed i _ => i == id | _ => false end.
Definition stores_authority_of (id : CreatorConnectFlowId) (e : ConnectEvent) : bool :=
  match e with AuthorityStored i _ _ => i == id | _ => false end.
Definition issues_code_of (id : CreatorConnectFlowId) (e : ConnectEvent) : bool :=
  match e with CodeIssued i _ => i == id | _ => false end.

Section histories.
  Context {S : Type} `{ConnectLaws S}.

Definition issues_code (key : bytes) (e : ConnectEvent) : bool :=
  match e with CodeIssued _ r => code_key (sc_code r) == key | _ => false end.
(** a code taken for the first time *)
Definition takes_code (key : bytes) (e : ConnectEvent) : bool :=
  match e with
  | CodeTaken code r => (code_key code == key) && is_none (sc_consumed_at r)
  | _ => false
  end.
Definition issues_session (key : bytes) (e : ConnectEvent) : bool :=
  match e with SessionIssued code _ _ => code_key code == key | _ => false end.

(** A pending flow, and a code nobody has taken. *)
Definition pending_here (s : S) (id : CreatorConnectFlowId) : nat :=
  match flows s !! id with Some _ => 1%nat | None => 0%nat end.
Definition untaken_here (s : S) (key : bytes) : nat :=
  match codes s !! key with Some row => if is_none (co_consumed_at row) then 1%nat else 0%nat | None => 0%nat end.

(** A row that came from a code of the log. *)
Definition row_issued (log : list ConnectEvent) (key : bytes) (row : CodeRow) : Prop :=
  ∃ id r, CodeIssued id r ∈ log ∧ code_key (sc_code r) = key
    ∧ co_creator row = CreatorPubky_display (sc_creator r) ∧ co_state row = sc_state r
    ∧ co_expires_at row = kept (sc_expires_at r).

Definition flow_started (log : list ConnectEvent) (id : CreatorConnectFlowId)
    (r : PendingCreatorConnectFlowRecord) : Prop :=
  ∃ p, FlowStarted p ∈ log ∧ pf_flow_id p = id ∧ r = flow_as_kept kept p.

Record history_ok (log : list ConnectEvent) (s : S) : Prop := {
  ho_flow_count id :
    (occurrences (consumes id) log + pending_here s id ≤ occurrences (starts_of id) log)%nat;
  ho_code_count key :
    (occurrences (takes_code key) log + untaken_here s key ≤ occurrences (issues_code key) log)%nat;
  ho_flows id r : flows s !! id = Some r → flow_started log id r;
  ho_consumed id r : FlowConsumed id r ∈ log → flow_started log id r;
  ho_codes key row : codes s !! key = Some row → row_issued log key row;
  ho_taken code r : CodeTaken code r ∈ log →
    ∃ row, row_issued log (code_key code) row ∧ creator_read (co_creator row) = Some (sc_creator r)
      ∧ sc_state r = co_state row ∧ sc_expires_at r = co_expires_at row;
}.

Lemma row_issued_more log log' key row : row_issued log key row → row_issued (log ++ log') key row.
Proof. intros (id & r & Hin & Hr). exists id, r. split; [set_solver|done]. Qed.

Lemma flow_started_more log log' id r : flow_started log id r → flow_started (log ++ log') id r.
Proof. intros (p & Hin & Hp). exists p. split; [set_solver|done]. Qed.

(** A step of a history, by what it does to the flows, to the codes and to the counts. *)
Lemma history_step log log' s s' :
  history_ok log s →
  (∀ id, (occurrences (consumes id) log' + pending_here s' id
          ≤ occurrences (starts_of id) log' + pending_here s id)%nat) →
  (∀ key, (occurrences (takes_code key) log' + untaken_here s' key
           ≤ occurrences (issues_code key) log' + untaken_here s key)%nat) →
  (∀ id r, flows s' !! id = Some r → flows s !! id = Some r ∨ flow_started log' id r) →
  (∀ id r, FlowConsumed id r ∈ log' → flows s !! id = Some r) →
  (∀ key row, codes s' !! key = Some row →
     row_issued log' key row
     ∨ ∃ row', codes s !! key = Some row' ∧ co_creator row' = co_creator row
         ∧ co_state row' = co_state row ∧ co_expires_at row' = co_expires_at row) →
  (∀ code r, CodeTaken code r ∈ log' →
     ∃ row, codes s !! code_key code = Some row ∧ creator_read (co_creator row) = Some (sc_creator r)
       ∧ sc_state r = co_state row ∧ sc_expires_at r = co_expires_at row) →
  history_ok (log ++ log') s'.
Proof.
  intros [Hf Hc Hfs Hco Hcs Ht] Hf' Hc' Hfs' Hco' Hcs' Ht'. split.
  - intros id. specialize (Hf id). specialize (Hf' id). rewrite !occurrences_app. lia.
  - intros key. specialize (Hc key). specialize (Hc' key). rewrite !occurrences_app. lia.
  - intros id r [Hr|(p & Hp & Hpr)]%Hfs'; [by apply flow_started_more, Hfs|].
    exists p. split; [set_solver|done].
  - intros id r [Hin|Hin]%elem_of_app; apply flow_started_more; [by apply Hco|by apply Hfs, Hco'].
  - intros key row [(id & r & Hin & Hr)|(row' & Hrow & H1 & H2 & H3)]%Hcs'.
    + exists id, r. split; [set_solver|done].
    + apply row_issued_more. apply Hcs in Hrow as (id & r & Hin & Hk & Hr1 & Hr2 & Hr3).
      exists id, r. split_and!; congruence.
  - intros code r [Hin|Hin]%elem_of_app.
    + destruct (Ht _ _ Hin) as (row & Hrow & Hrest). exists row. split; [by apply row_issued_more|done].
    + destruct (Ht' _ _ Hin) as (row & Hrow & Hrest). exists row.
      split; [by apply row_issued_more, Hcs|done].
Qed.

(** Steps that leave flows and codes alone and log nothing about them. *)
Lemma history_same log log' s s' :
  history_ok log s → flows s' = flows s → codes s' = codes s →
  (∀ e, e ∈ log' → match e with
                   | FlowStarted _ | FlowConsumed _ _ | CodeIssued _ _ | CodeTaken _ _ => False
                   | _ => True
                   end) →
  history_ok (log ++ log') s'.
Proof.
  intros Hok Hf Hc Hlog.
  assert (∀ p, (∀ e, p e = true → match e with
      | FlowStarted _ | FlowConsumed _ _ | CodeIssued _ _ | CodeTaken _ _ => True | _ => False end) →
    occurrences p log' = 0%nat) as Hz.
  { intros p Hp. apply occurrences_none. intros e He. destruct (p e) eqn:Hpe; [|done].
    specialize (Hlog e He). specialize (Hp e Hpe). by destruct e. }
  apply (history_step log log' s s' Hok); unfold pending_here, untaken_here; rewrite ?Hf, ?Hc.
  - intros id. rewrite !Hz by (by intros []). lia.
  - intros key. rewrite !Hz by (by intros []). lia.
  - auto.
  - intros id r Hin. by destruct (Hlog _ Hin).
  - intros key row Hrow. right. by exists row.
  - intros code r Hin. by destruct (Hlog _ Hin).
Qed.

(** Steps that only touch the flow of one identifier. *)
Lemma history_flow log e id s s' :
  history_ok log s → codes s' = codes s →
  (∀ id', id' ≠ id → flows s' !! id' = flows s !! id') →
  match e with
  | FlowStarted r => pf_flow_id r = id ∧ flows s' !! id = Some (flow_as_kept kept r)
  | FlowConsumed i r => i = id ∧ flows s !! id = Some r ∧ flows s' !! id = None
  | FlowDropped _ => flows s' !! id = None
  | _ => False
  end →
  history_ok (log ++ [e]) s'.
Proof.
  intros Hok Hc Hframe He. apply (history_step log [e] s s' Hok).
  - intros id'. unfold pending_here. rewrite !occurrences_cons, !occurrences_nil.
    destruct (decide (id' = id)) as [->|Hne].
    + destruct e as [r|i|u c sec|i r|i a n|i r|c r|c st r|tk]; try done; cbn.
      * destruct He as [-> ->]. rewrite eqb_same. destruct (flows s !! id); lia.
      * rewrite He. destruct (flows s !! id); lia.
      * destruct He as (-> & -> & ->). rewrite eqb_same. lia.
    + rewrite Hframe by done. destruct e as [r|i|u c sec|i r|i a n|i r|c r|c st r|tk]; try done; cbn.
      * destruct He as (-> & _). rewrite (proj2 (eqb_false _ _)) by done. lia.
      * destruct He as (-> & _). rewrite (proj2 (eqb_false _ _)) by done. lia.
  - intros key. unfold untaken_here. rewrite Hc, !occurrences_cons, !occurrences_nil. by destruct e.
  - intros id' r Hr. destruct (decide (id' = id)) as [->|Hne]; [|left; by rewrite <- Hframe].
    destruct e as [r'|i|u c sec|i r'|i a n|i r'|c r'|c st r'|tk]; try done.
    + destruct He as [Hid Hf]. right. exists r'. rewrite Hf in Hr. injection Hr as <-. set_solver.
    + congruence.
    + destruct He as (_ & _ & Hf). congruence.
  - intros id' r Hin%list_elem_of_singleton. subst e. by destruct He as (-> & Hr & _).
  - intros key row Hrow. right. exists row. by rewrite <- Hc.
  - intros code r Hin%list_elem_of_singleton. by subst e.
Qed.

Lemma history_code_issued log id r s s' :
  history_ok log s → flows s' = flows s →
  codes s' = <[code_key (sc_code r) := code_row kept r]> (codes s) →
  history_ok (log ++ [CodeIssued id r]) s'.
Proof.
  intros Hok Hf Hc. apply (history_step log _ s s' Hok).
  - intros id'. unfold pending_here. by rewrite Hf.
  - intros key. unfold untaken_here. rewrite Hc, !occurrences_cons, !occurrences_nil. cbn.
    destruct (decide (code_key (sc_code r) = key)) as [<-|Hne].
    + rewrite lookup_insert_eq, eqb_same. destruct (is_none _); lia.
    + rewrite lookup_insert_ne, (proj2 (eqb_false _ _)) by done. lia.
  - intros id' r' Hr. left. by rewrite <- Hf.
  - by intros id' r' Hin%list_elem_of_singleton.
  - intros key row Hrow. rewrite Hc in Hrow.
    apply lookup_insert_Some in Hrow as [[<- <-]|[_ Hrow]]; [left|right; by exists row].
    exists id, r. split; [set_solver|done].
  - by intros code r' Hin%list_elem_of_singleton.
Qed.

Lemma history_code_taken log code o row t s s' :
  history_ok log s → flows s' = flows s → codes s !! code_key code = Some row →
  codes s' = <[code_key code := row_consumed_at row t]> (codes s) →
  (∀ r, o = Some r → creator_read (co_creator row) = Some (sc_creator r)
     ∧ sc_state r = co_state row ∧ sc_expires_at r = co_expires_at row
     ∧ sc_consumed_at r = co_consumed_at row) →
  history_ok (log ++ option_list (CodeTaken code <$> o)) s'.
Proof.
  intros Hok Hf Hrow Hc Ho. apply (history_step log _ s s' Hok).
  - intros id'. unfold pending_here. rewrite Hf. by destruct o.
  - intros key. unfold untaken_here. rewrite Hc.
    assert (occurrences (issues_code key) (option_list (CodeTaken code <$> o)) = 0%nat) as ->
      by by destruct o.
    destruct (decide (code_key code = key)) as [<-|Hne].
    + rewrite lookup_insert_eq, Hrow. cbn. destruct o as [r|]; cbn.
      * destruct (Ho r eq_refl) as (_ & _ & _ & Hcons). rewrite occurrences_cons, occurrences_nil.
        cbn. rewrite eqb_same, Hcons. cbn. destruct (is_none _); lia.
      * rewrite occurrences_nil. lia.
    + rewrite lookup_insert_ne by done. destruct o as [r|]; cbn; [|rewrite occurrences_nil; lia].
      rewrite occurrences_cons, occurrences_nil. cbn. rewrite (proj2 (eqb_false _ _)) by done. cbn. lia.
  - intros id' r' Hr. left. by rewrite <- Hf.
  - intros id' r' Hin. destruct o; cbn in Hin; set_solver.
  - intros key row' Hrow'. right. rewrite Hc in Hrow'.
    apply lookup_insert_Some in Hrow' as [[<- <-]|[_ Hrow']]; [by exists row|by exists row'].
  - intros code' r Hin. destruct o as [r'|]; cbn in Hin; [|set_solver].
    apply list_elem_of_singleton in Hin as [= -> ->].
    destruct (Ho r' eq_refl) as (Hcr & Hst & Hex & _). by exists row.
Qed.

Lemma connect_op_ok {A} log (op : OffsetDateTime → S → result ApplicationError A * S) event t s res s' :
  history_ok log s → connect_op op event → op t s = (res, s') → history_ok (log ++ logged event res) s'.
Proof.
  intros Hok Hop Hres.
  assert (∀ log', flows s' = flows s → codes s' = codes s → log' = [] → history_ok (log ++ log') s') as Hsame.
  { intros log' Hf Hc ->. apply (history_same _ _ s); [done..|]. intros e He. set_solver. }
  assert (∀ e, flows s' = flows s → codes s' = codes s →
    match e with FlowStarted _ | FlowConsumed _ _ | CodeIssued _ _ | CodeTaken _ _ => False | _ => True end →
    history_ok (log ++ [e]) s') as Hquiet.
  { intros e Hf Hc He. apply (history_same _ _ s); [done..|]. by intros ? ->%list_elem_of_singleton. }
  destruct Hop.
  - apply insert_flow_law in Hres as [Hc Hf]. destruct res as [[]|e]; cbn in *; [|by apply Hsame].
    apply (history_flow log _ (pf_flow_id r) s s'); [done|done| |].
    + intros id' Hne. rewrite Hf. by apply lookup_insert_ne.
    + by rewrite Hf, lookup_insert_eq.
  - apply get_flow_law in Hres as [Hf Hc]. apply Hsame; [done..|by destruct res].
  - apply delete_flow_law in Hres as [Hc Hf]. destruct res as [[]|e]; cbn in *; [|by apply Hsame].
    apply (history_flow log _ id s s'); [done|done| |].
    + intros id' Hne. rewrite Hf. by apply lookup_delete_ne.
    + by rewrite Hf, lookup_delete_eq.
  - apply consume_flow_law in Hres as [Hc Hf]. destruct res as [[r|]|e]; cbn in *; [|by apply Hsame..].
    destruct Hf as [Hr Hf]. apply (history_flow log _ id s s'); [done|done| |].
    + intros id' Hne. rewrite Hf. by apply lookup_delete_ne.
    + by rewrite Hf, lookup_delete_eq.
  - apply upsert_authority_law in Hres as [Hf Hc]. destruct res as [[]|e]; [by apply Hquiet|by apply Hsame].
  - apply get_authority_law in Hres as [Hf Hc]. apply Hsame; [done..|by destruct res].
  - apply delete_authority_law in Hres as [Hf Hc]. apply Hsame; [done..|by destruct res].
  - apply insert_code_law in Hres as [Hf Hc]. destruct res as [[]|e]; cbn in *; [|by apply Hsame].
    by apply (history_code_issued log id r s s').
  - apply consume_code_law in Hres as [Hf [[Hno Hc]|(row & t' & Hrow & Hc & Hr)]].
    + apply Hsame; [done..|]. destruct res as [[r|]|e]; [by destruct (Hno r)|done..].
    + destruct res as [o|e]; cbn.
      * apply (history_code_taken log code o row t' s s'); [done..|]. intros r ->. by apply Hr.
      * by apply (history_code_taken log code None row t' s s').
  - apply insert_session_law in Hres as [Hf Hc]. destruct res as [[]|e]; [by apply Hquiet|by apply Hsame].
  - apply get_session_law in Hres as [Hf Hc]. apply Hsame; [done..|by destruct res].
  - apply delete_session_law in Hres as [Hf Hc]. destruct res as [[]|e]; [by apply Hquiet|by apply Hsame].
Qed.

Lemma connect_history_ok log s : connect_history log s → history_ok log s.
Proof.
  induction 1 as [s Hf Hc|A log s op event t res s' _ IH Hop Hres|log s u c sec _ IH].
  - split; unfold pending_here, untaken_here; rewrite ?Hf, ?Hc; intros *; rewrite ?lookup_empty;
      try done; set_solver.
  - by eapply connect_op_ok.
  - apply (history_same _ _ s); [done..|]. by intros e ->%list_elem_of_singleton.
Qed.
End histories.

(** * Interleaved runs *)

(** What one run of a use case logs. *)
Inductive connect_trace {S : Type} `{ConnectStore S} `{FoldedServer.WebCrates} :
    list ConnectEvent → Prop :=
  | trace_start clock store_clock fates others client grant_client generate_flow_id request w res w' :
      start_creator_connect_flow clock store_clock fates others client grant_client generate_flow_id
        request w = (res, w') →
      w_entitlements w = [] → connect_trace (w_entitlements w')
  | trace_complete clock store_clock fates others client generate_code nonce flow_id w res w' :
      complete_creator_connect_flow clock store_clock fates others client generate_code nonce flow_id
        w = (res, w') →
      w_entitlements w = [] → connect_trace (w_entitlements w')
  | trace_exchange clock store_clock fates others generate_token request w res w' :
      exchange_frontend_session_code clock store_clock fates others generate_token request
        w = (res, w') →
      w_entitlements w = [] → connect_trace (w_entitlements w')
  | trace_signout clock store_clock fates others token w res w' :
      signout clock store_clock fates others token w = (res, w') →
      w_entitlements w = [] → connect_trace (w_entitlements w').

(** The logs a run may leave. *)
Inductive trace_shape : list ConnectEvent → Prop :=
  | shape_started r : trace_shape [FlowStarted r]
  | shape_complete id evs : complete_log id evs → trace_shape evs
  | shape_exchange evs : exchange_log evs → trace_shape evs
  | shape_ended token : trace_shape [SessionEnded token].

Section traces.
  Context {S : Type} `{ConnectLaws S} `{FoldedServer.WebCrates}.

Lemma trace_has_shape evs : connect_trace (S := S) evs → trace_shape evs.
Proof.
  intros [clock sc fates others client gc gf rq w res w' Hr Hw
         |clock sc fates others client gc n id w res w' Hr Hw
         |clock sc fates others gt rq w res w' Hr Hw
         |clock sc fates others tk w res w' Hr Hw].
  - apply start_logs in Hr as (evs' & -> & Hevs). rewrite Hw. cbn.
    destruct Hevs as [->|(r & ->)]; [apply (shape_exchange []); constructor|apply shape_started].
  - apply complete_logs in Hr as (evs' & -> & Hevs). rewrite Hw. by eapply shape_complete.
  - apply exchange_logs in Hr as (evs' & -> & Hevs). rewrite Hw. by apply shape_exchange.
  - apply signout_logs in Hr as (evs' & -> & Hevs). rewrite Hw. cbn.
    destruct Hevs as [->| ->]; [apply (shape_exchange []); constructor|apply shape_ended].
Qed.

(** A run stores at most one authority and issues at most one code for a flow it has
    consumed, and at most one session for a code it was the first to take. *)
Lemma trace_counts evs :
  trace_shape evs →
  (∀ id, (occurrences (stores_authority_of id) evs ≤ occurrences (consumes id) evs)%nat
     ∧ (occurrences (issues_code_of id) evs ≤ occurrences (consumes id) evs)%nat)
  ∧ ∀ key, (occurrences (issues_session key) evs ≤ occurrences (takes_code key) evs)%nat.
Proof.
  intros [r|i evs' []|evs' []|tk]; split; intros *; repeat rewrite !occurrences_cons;
    rewrite ?occurrences_nil; cbn; repeat match goal with
    | Hn : sc_consumed_at _ = None |- _ => rewrite Hn; clear Hn
    | |- context [_ == _] => destruct (_ == _); cbn
    end; lia.
Qed.

(** A code is issued for an approval of its flow, whose authority has been stored. *)
Definition code_justified (evs : list ConnectEvent) (id : CreatorConnectFlowId)
    (r : FrontendSessionCodeRecord) : Prop :=
  ∃ p a nonce, FlowConsumed id p ∈ evs
    ∧ ApprovalGiven (pf_authorization_url p) (ca_creator a) (ca_secret a) ∈ evs
    ∧ AuthorityStored id a nonce ∈ evs ∧ legal_code p a r.

Definition authority_justified (evs : list ConnectEvent) (id : CreatorConnectFlowId)
    (a : CreatorAuthorityRecord) : Prop :=
  ∃ p, FlowConsumed id p ∈ evs
    ∧ ApprovalGiven (pf_authorization_url p) (ca_creator a) (ca_secret a) ∈ evs.

Definition session_justified (evs : list ConnectEvent) (code : FrontendSessionCode) (state : string)
    (session : FrontendSessionRecord) : Prop :=
  ∃ r, CodeTaken code r ∈ evs ∧ sc_consumed_at r = None ∧ sc_state r = state
    ∧ fs_creator session = sc_creator r ∧ fs_created_at session < sc_expires_at r
    ∧ fs_expires_at session = fs_created_at session + FRONTEND_SESSION_TTL.

Lemma trace_justified evs e :
  trace_shape evs → e ∈ evs →
  match e with
  | CodeIssued id r => code_justified evs id r
  | AuthorityStored id a _ => authority_justified evs id a
  | SessionIssued code state session => session_justified evs code state session
  | _ => True
  end.
Proof.
  intros Hs He. destruct Hs as [r|i evs' Hc|evs' Hx|tk].
  - by apply list_elem_of_singleton in He as ->.
  - destruct Hc; repeat (apply elem_of_cons in He as [->|He]); try (by apply elem_of_nil in He);
      try done; subst.
    + exists p. set_solver.
    + exists p. set_solver.
    + exists p, a, n. split_and!; [set_solver..|done].
  - destruct Hx; repeat (apply elem_of_cons in He as [->|He]); try (by apply elem_of_nil in He);
      try done.
    exists r. split_and!; [set_solver|done..].
  - by apply list_elem_of_singleton in He as ->.
Qed.

(** An authority comes from the approval of a flow that was started. *)
Definition authority_granted (log : list ConnectEvent) (id : CreatorConnectFlowId)
    (a : CreatorAuthorityRecord) : Prop :=
  ∃ flow, FlowStarted flow ∈ log ∧ pf_flow_id flow = id
    ∧ ApprovalGiven (pf_authorization_url flow) (ca_creator a) (ca_secret a) ∈ log.

(** A session comes from a code in time, its state presented, which came from the approval
    of a flow started with that state. *)
Definition session_granted (log : list ConnectEvent) (code : FrontendSessionCode) (state : string)
    (session : FrontendSessionRecord) : Prop :=
  ∃ flow creator secret issued,
    FlowStarted flow ∈ log ∧ ApprovalGiven (pf_authorization_url flow) creator secret ∈ log
    ∧ CodeIssued (pf_flow_id flow) issued ∈ log
    ∧ code_key (sc_code issued) = code_key code
    ∧ pf_state flow = state
    ∧ creator_read (CreatorPubky_display creator) = Some (fs_creator session)
    ∧ fs_created_at session < kept (sc_created_at issued + FRONTEND_SESSION_CODE_TTL)
    ∧ fs_expires_at session = fs_created_at session + FRONTEND_SESSION_TTL.

Lemma granted_in_history log s ls :
  connect_history log s → log ≡ₚ mjoin ls → Forall trace_shape ls →
  (∀ id a n, AuthorityStored id a n ∈ log → authority_granted log id a)
  ∧ ∀ code state session, SessionIssued code state session ∈ log →
      session_granted log code state session.
Proof.
  intros Hh Hl Hs. pose proof (connect_history_ok _ _ Hh) as Hok.
  assert (∀ evs e, evs ∈ ls → e ∈ evs → e ∈ log) as Hup.
  { intros evs e Hin He. rewrite Hl. apply list_elem_of_join. eauto. }
  assert (∀ e, e ∈ log → ∃ evs, evs ∈ ls ∧ e ∈ evs ∧ trace_shape evs) as Hdown.
  { intros e He. rewrite Hl in He. apply list_elem_of_join in He as (evs & He & Hin).
    exists evs. rewrite Forall_forall in Hs. auto. }
  split.
  - intros id a n (evs & Hin & He & Hsh)%Hdown.
    destruct (trace_justified _ _ Hsh He) as (p & Hp & Ha).
    destruct (ho_consumed _ _ Hok _ _ (Hup _ _ Hin Hp)) as (p0 & Hp0 & Hid & ->).
    exists p0. split_and!; [done|done|by apply (Hup evs)].
  - intros code state session (evs & Hin & He & Hsh)%Hdown.
    destruct (trace_justified _ _ Hsh He) as (r & Hr & _ & Hst & Hcr & Ht & Hlife).
    destruct (ho_taken _ _ Hok _ _ (Hup _ _ Hin Hr)) as
      (row & (id & issued & Hci & Hkey & Hcc & Hcs & Hce) & Hread & Hrs & Hre).
    destruct (Hdown _ Hci) as (evs' & Hin' & He' & Hsh').
    destruct (trace_justified _ _ Hsh' He') as (p & a & n & Hp & Ha & _ & Hlc & Hls & _ & Hle & _).
    destruct (ho_consumed _ _ Hok _ _ (Hup _ _ Hin' Hp)) as (p0 & Hp0 & Hid & ->). cbn in *.
    exists p0, (ca_creator a), (ca_secret a), issued.
    split_and!; [done|by apply (Hup evs')|by rewrite Hid|done|congruence|congruence| |done].
    rewrite <- Hle. congruence.
Qed.

(** C17: However runs of the use cases interleave on a store, whatever calls are lost and
    whatever the clients and other callers do: a flow yields at most one authority and at
    most one code each time it is started, a code at most one session each time it is
    issued; an authority is only ever stored after its creator's signer approved, with that
    secret, a flow that was started; and a session is only ever issued on a code taken in
    time with the state its flow was started with, to the creator who approved that flow. *)
Theorem connect_granted_once log s ls :
  connect_history log s → log ≡ₚ mjoin ls → Forall (connect_trace (S := S)) ls →
  (∀ id, (occurrences (stores_authority_of id) log ≤ occurrences (starts_of id) log)%nat
     ∧ (occurrences (issues_code_of id) log ≤ occurrences (starts_of id) log)%nat)
  ∧ (∀ key, (occurrences (issues_session key) log ≤ occurrences (issues_code key) log)%nat)
  ∧ (∀ id a n, AuthorityStored id a n ∈ log → authority_granted log id a)
  ∧ ∀ code state session, SessionIssued code state session ∈ log →
      session_granted log code state session.
Proof.
  intros Hh Hl Ht. pose proof (connect_history_ok _ _ Hh) as Hok.
  assert (Forall trace_shape ls) as Hs by (eapply Forall_impl; [exact Ht|apply trace_has_shape]).
  assert (∀ p q, (∀ evs, trace_shape evs → (occurrences p evs ≤ occurrences q evs)%nat) →
    (occurrences p log ≤ occurrences q log)%nat) as Hsum.
  { intros p q Hpq. rewrite !(occurrences_perm _ _ _ Hl). apply occurrences_concat.
    eapply Forall_impl; [exact Hs|exact Hpq]. }
  split_and!; [| |by eapply granted_in_history..].
  - intros id. pose proof (ho_flow_count _ _ Hok id).
    pose proof (Hsum (stores_authority_of id) (consumes id) (λ e He, proj1 (proj1 (trace_counts e He) id))).
    pose proof (Hsum (issues_code_of id) (consumes id) (λ e He, proj2 (proj1 (trace_counts e He) id))). lia.
  - intros key. pose proof (ho_code_count _ _ Hok key).
    pose proof (Hsum (issues_session key) (takes_code key) (λ e He, proj2 (trace_counts e He) key)). lia.
Qed.
End traces.
