(* ===== verification/ConnectServer.v ===== *)
(** The connection of creators end to end on Postgres, and the parts of its HTTP handlers
    that decide what reaches a browser ([locks-server/src/api/creator_authority.rs],
    [locks-server/src/api/auth.rs]). *)

From S2P Require Import Prelude RustStr Externals Ids Errors ApiErrors Run.
From S2P Require Import Secrets TaskTables Connect ConnectDb.
From S2P Require Import FoldedServer.

(** * A connection that succeeds *)

Section success.
  Context `{WebCrates} `{Base32, PubkyKeysLaws, UuidCrate, Base64UrlLaws, AeadLaws, Blake3, PgTimeLaws}.
  Context (cipher : option bytes) (clock store_clock : nat → OffsetDateTime).
  Context (client : nat → list string → result ApplicationError CreatorConnectAuthorizationUrl).
  Context (url : CreatorConnectAuthorizationUrl) (approval : GrantCreatorConnectFlowApproval).
  Context (generate_flow_id : nat → CreatorConnectFlowId) (generate_code : nat → FrontendSessionCode).
  Context (generate_token : nat → FrontendSessionToken) (store_nonce : nat → bytes).
  Context (revalidate : nat → CreatorPubky → CreatorAuthoritySecret → result ApplicationError ()).
  (** the flow starts at [t0]; the clocks have microseconds and everything happens in time *)
  Context (t0 : OffsetDateTime).
  Hypothesis Hclock : ∀ n, clock n mod 1000 = 0 ∧ t0 ≤ clock n < t0 + CREATOR_CONNECT_FLOW_TTL.
  Hypothesis Hstore : ∀ n, t0 ≤ store_clock n < t0 + CREATOR_CONNECT_FLOW_TTL.
  Hypothesis Hgrant : t0 + CREATOR_CONNECT_FLOW_TTL ≤ ga_grant_expires_at approval.
  Hypothesis Hurl : url_auth_kind url = Ok Grant.
  Hypothesis Hcreator : canonical_creator (ga_creator approval).
  Hypothesis Hsecret : valid_utf8 (as_bytes (expose_secret (ga_grant_state approval))) = true.
  (** the cipher takes the secret, if there is one *)
  Hypothesis Hcipher : ∀ key n, cipher = Some key → Z.of_nat (length (store_nonce n)) = 24
    ∧ ∃ envelope, authority_encrypt key (ga_creator approval) Grant (ga_grant_state approval)
                    (store_nonce n) = Ok envelope.
  Hypothesis Hrevalidate :
    ∀ n, revalidate n (ga_creator approval) (ga_grant_state approval) = Ok ().

  #[local] Existing Instance pg_connect.
  Abbreviation PgWorld := (World ConnectDb (list ConnectEvent)).
  Abbreviation delivered := (λ _ : nat, Delivered).
  Abbreviation alone := (λ (_ : nat) (s : ConnectDb), s).

  Abbreviation start := (start_creator_connect_flow (H := pg_connect cipher) clock store_clock delivered
    alone client (Some (λ _ _ _, Ok url)) generate_flow_id).
  Abbreviation complete := (complete_creator_connect_flow (H := pg_connect cipher) clock store_clock
    delivered alone (SelectedGrant (λ _ _ _ _, Ok approval)) generate_code store_nonce).
  Abbreviation exchange := (exchange_frontend_session_code (H := pg_connect cipher) clock store_clock
    delivered alone generate_token).
  Abbreviation status := (get_creator_authority_status (H := pg_connect cipher) clock store_clock
    delivered alone Grant revalidate).

Lemma call_alone {A} (op : OffsetDateTime → ConnectDb → result ApplicationError A * ConnectDb) event
    (w : PgWorld) a db :
  op (store_clock (w_ticks w)) (w_store w) = (Ok a, db) →
  connect_call store_clock delivered alone op event w
  = (Ok a, MkWorld db (w_entitlements w ++ option_list (event a)) (w_ticks w + 1)%nat).
Proof. intros Hop. unfold connect_call. by rewrite Hop. Qed.

Lemma bind_ran {S E A B} (f : A → Run S E B) m (w : World S E) a w' :
  m w = (Ok a, w') → run_bind f m w = f a w'.
Proof. intros Hm. unfold run_bind. by rewrite Hm. Qed.

(** A flow waiting to be approved. *)
Definition waiting (id : CreatorConnectFlowId) (request : StartCreatorConnectFlowRequest)
    (db : ConnectDb) : Prop :=
  ∃ t, t0 ≤ t
    ∧ cd_flows db !! id
      = Some (MkFlowRow (sr_return_to request) (sr_state request) (expose_url url)
                default_requested_scopes t (t + CREATOR_CONNECT_FLOW_TTL)).

Lemma start_waits request (w : PgWorld) :
  validate_start_request request = Ok () →
  (∀ n, cd_flows (w_store w) !! generate_flow_id n = None) →
  ∃ started w', start request w = (Ok started, w')
    ∧ waiting (sp_flow_id started) request (w_store w')
    ∧ sp_authorization_url started = url ∧ sp_state started = sr_state request
    ∧ cd_codes (w_store w') = cd_codes (w_store w) ∧ cd_sessions (w_store w') = cd_sessions (w_store w).
Proof.
  intros Hv Hfresh. unfold start_creator_connect_flow.
  rewrite (bind_ran _ _ w () w) by (unfold run_lift; by rewrite Hv).
  erewrite bind_ran by reflexivity. do 2 (erewrite bind_ran by reflexivity). cbn.
  unfold tell. erewrite bind_ran.
  2:{ apply call_alone. cbn. unfold pg_insert_flow. cbn. rewrite Hfresh. reflexivity. }
  do 2 eexists. split; [reflexivity|]. cbn. split_and!; try done.
  destruct (Hclock (w_ticks w)) as [Hm Hr]. exists (clock (w_ticks w)). split; [lia|].
  cbn [cd_flows cd_with_flows]. rewrite lookup_insert_eq. unfold row_of_flow. cbn. destruct Hr.
  rewrite !pg_timestamp_exact; [done| |done]. unfold CREATOR_CONNECT_FLOW_TTL, minutes, NANOS_PER_SEC.
  rewrite Z.add_mod, Hm by lia. reflexivity.
Qed.
(** The code of a completed connection, and the authority behind it. *)
Definition code_waits (request : StartCreatorConnectFlowRequest) (code : FrontendSessionCode)
    (db : ConnectDb) : Prop :=
  ∃ t, t0 ≤ t
    ∧ cd_codes db !! secret_lookup_hash (expose_code code)
      = Some (MkCodeRow (CreatorPubky_display (ga_creator approval)) (sr_state request)
                (sr_return_to request) t (t + FRONTEND_SESSION_CODE_TTL) None).

Definition authority_kept (db : ConnectDb) : Prop :=
  ∃ a, pg_get_authority cipher (ga_creator approval) db = Ok (Some a)
    ∧ ca_auth_kind a = Grant ∧ ca_secret a = ga_grant_state approval
    ∧ ca_granted_scopes a = ga_granted_scopes approval.

(** The authority of the approval. *)
Abbreviation approved t := (MkAuthority (ga_creator approval) Grant (ga_granted_scopes approval)
  (ga_grant_state approval) (Some (ga_grant_expires_at approval)) (Some t)).

Lemma in_time flow t t' n :
  t0 ≤ t → pf_expires_at flow = t + CREATOR_CONNECT_FLOW_TTL →
  flow_is_expired_at flow (clock n) = false ∧ still_valid flow (approved t') (clock n) = Ok ().
Proof.
  intros Ht He. destruct (Hclock n) as [_ Hn].
  assert (flow_is_expired_at flow (clock n) = false) as Hf
    by (unfold flow_is_expired_at; rewrite He; apply Z.leb_gt; lia).
  split; [done|]. unfold still_valid. rewrite Hf. cbn.
  by rewrite (proj2 (Z.leb_gt _ _)) by lia.
Qed.

Lemma upsert_alone t n db :
  ∃ row, pg_upsert_authority cipher (approved t) (store_nonce n) db
    = (Ok (), cd_with_authorities db
                (<[CreatorPubky_display (ga_creator approval) := row]> (cd_authorities db)))
    ∧ authority_kept (cd_with_authorities db
                (<[CreatorPubky_display (ga_creator approval) := row]> (cd_authorities db))).
Proof.
  destruct (pg_upsert_authority cipher (approved t) (store_nonce n) db) as [r db'] eqn:Hu.
  assert (r = Ok () ∧ ∃ row, db' = cd_with_authorities db
    (<[CreatorPubky_display (ga_creator approval) := row]> (cd_authorities db))) as [-> (row & ->)].
  { unfold pg_upsert_authority in Hu. cbn in Hu. destruct cipher as [key|] eqn:Hk.
    - destruct (Hcipher key n eq_refl) as (_ & env & He). rewrite He in Hu.
      injection Hu as <- <-. split; [done|by eexists].
    - injection Hu as <- <-. split; [done|by eexists]. }
  exists row. split; [done|]. eexists. split.
  - apply (authority_read_back _ _ _ _ _ Hu); [done| |done].
    intros Hk. destruct cipher as [key|] eqn:Hc; [|done]. by destruct (Hcipher key n eq_refl).
  - done.
Qed.

Lemma url_eta : MkAuthorizationUrl (expose_url url) = url.
Proof. by destruct url. Qed.
Lemma kept_exact n d : d mod 1000 = 0 → pg_timestamp (clock n + d) = clock n + d.
Proof.
  intros Hd. apply pg_timestamp_exact. rewrite Z.add_mod by lia.
  by rewrite (proj1 (Hclock n)), Hd.
Qed.

Abbreviation waiting_row request t := (MkFlowRow (sr_return_to request) (sr_state request)
  (expose_url url) default_requested_scopes t (t + CREATOR_CONNECT_FLOW_TTL)).

(** From the approval on. *)
Lemma commit_issues id request t t' at_ (w : PgWorld) :
  t0 ≤ t → cd_flows (w_store w) !! id = Some (waiting_row request t) →
  (∀ n, cd_codes (w_store w) !! secret_lookup_hash (expose_code (generate_code n)) = None) →
  ∃ completed w',
    commit_connect_flow (H := pg_connect cipher) clock store_clock delivered alone generate_code
      store_nonce (flow_of_row id (waiting_row request t)) (approved t') id at_ w
      = (Ok completed, w')
    ∧ cr_creator completed = ga_creator approval ∧ cr_state completed = sr_state request
    ∧ cr_return_to completed = sr_return_to request
    ∧ code_waits request (cr_code completed) (w_store w') ∧ authority_kept (w_store w')
    ∧ cd_sessions (w_store w') = cd_sessions (w_store w).
Proof.
  intros Ht Hrow Hfresh. set (pending := flow_of_row id (waiting_row request t)).
  assert (pf_expires_at pending = t + CREATOR_CONNECT_FLOW_TTL) as He by done.
  unfold commit_connect_flow. erewrite bind_ran.
  2:{ apply call_alone. cbn [consume_pending_creator_connect_flow pg_connect]. unfold pg_consume_flow.
      rewrite Hrow. cbn [fl_expires_at].
      rewrite (proj2 (Z.ltb_lt _ _)) by (pose proof (Hstore (w_ticks w)); lia). reflexivity. }
  fold pending. cbn [mbind option_bind]. rewrite eqb_same. cbn [ok_or]. erewrite bind_ran by reflexivity.
  erewrite bind_ran by reflexivity. erewrite bind_ran.
  2:{ unfold run_lift. rewrite (proj2 (in_time pending t t' _ Ht He)). reflexivity. }
  erewrite bind_ran by reflexivity. cbn [w_ticks w_store w_entitlements].
  set (n := (w_ticks w + 1)%nat).
  destruct (upsert_alone (clock n) (n + 1) (cd_with_flows (w_store w) (delete id (cd_flows (w_store w)))))
    as (row & Hup & Hauth).
  unfold tell. erewrite bind_ran.
  2:{ apply call_alone. cbn [upsert_creator_authority pg_connect w_store]. exact Hup. }
  erewrite bind_ran by reflexivity. cbn [w_ticks w_store w_entitlements].
  erewrite bind_ran.
  2:{ apply call_alone. cbn [insert_frontend_session_code pg_connect w_store]. unfold pg_insert_code.
      cbn [sc_code cd_codes cd_with_authorities cd_with_flows]. rewrite Hfresh. reflexivity. }
  do 2 eexists. split; [reflexivity|]. cbn [cr_creator cr_state cr_return_to cr_code w_store].
  split_and!; try done. exists (clock n). split; [apply Hclock|].
  cbn [cd_codes cd_with_codes]. rewrite lookup_insert_eq. unfold code_row. cbn -[minutes].
  rewrite (kept_exact n FRONTEND_SESSION_CODE_TTL) by done.
  by rewrite pg_timestamp_exact by apply Hclock.
Qed.

Lemma complete_issues id request (w : PgWorld) :
  waiting id request (w_store w) →
  (∀ n, cd_codes (w_store w) !! secret_lookup_hash (expose_code (generate_code n)) = None) →
  ∃ completed w', complete id w = (Ok completed, w')
    ∧ cr_creator completed = ga_creator approval ∧ cr_state completed = sr_state request
    ∧ cr_return_to completed = sr_return_to request
    ∧ code_waits request (cr_code completed) (w_store w') ∧ authority_kept (w_store w')
    ∧ cd_sessions (w_store w') = cd_sessions (w_store w).
Proof.
  intros (t & Ht & Hrow) Hfresh. set (pending := flow_of_row id (waiting_row request t)).
  assert (pf_expires_at pending = t + CREATOR_CONNECT_FLOW_TTL) as He by done.
  unfold complete_creator_connect_flow, ask. erewrite bind_ran.
  2:{ apply call_alone. cbn [get_pending_creator_connect_flow pg_connect]. rewrite Hrow. reflexivity. }
  cbn [fmap option_fmap option_map ok_or]. erewrite bind_ran by reflexivity. fold pending.
  erewrite bind_ran by reflexivity. cbn [w_ticks w_store w_entitlements].
  rewrite (proj1 (in_time pending t 0 (w_ticks w + 1) Ht He)).
  erewrite bind_ran.
  2:{ unfold run_lift. cbn [pf_authorization_url pending flow_of_row fl_authorization_url].
      rewrite url_eta, Hurl. reflexivity. }
  erewrite bind_ran by reflexivity. erewrite bind_ran by reflexivity.
  cbn [w_ticks w_store w_entitlements]. erewrite bind_ran by reflexivity.
  erewrite bind_ran.
  2:{ unfold run_lift. rewrite (proj2 (in_time pending t (clock (w_ticks w + 1)) _ Ht He)). reflexivity. }
  match goal with |- context [commit_connect_flow _ _ _ _ _ _ _ _ _ ?at_ ?wd] =>
    by apply (commit_issues id request t (clock (w_ticks w + 1)) at_ wd) end.
Qed.

Lemma read_current token row (w : PgWorld) :
  cd_sessions (w_store w) !! secret_lookup_hash (expose_token token) = Some row →
  se_creator row = CreatorPubky_display (ga_creator approval) →
  clock (w_ticks w) < se_expires_at row →
  ∃ w', current_session (H := pg_connect cipher) clock store_clock delivered alone token w
    = (Ok (MkSessionRecord token (ga_creator approval) (se_created_at row) (se_expires_at row)), w')
    ∧ w_store w' = w_store w.
Proof.
  intros Hrow Hc Ht. unfold current_session, ask. erewrite bind_ran by reflexivity.
  erewrite bind_ran.
  2:{ apply call_alone. cbn [get_frontend_session pg_connect w_store]. unfold pg_get_session.
      rewrite Hrow. cbn [read_row]. unfold row_to_session_record, parse_creator.
      rewrite Hc, canonical_creator_roundtrip by done. reflexivity. }
  cbn [map_err fmap result_fmap mbind result_bind ok_or]. erewrite bind_ran by reflexivity.
  erewrite bind_ran.
  2:{ unfold run_lift, session_is_expired_at. cbn [fs_expires_at].
      rewrite (proj2 (Z.leb_gt _ _)) by done. reflexivity. }
  eexists. split; reflexivity.
Qed.

Lemma status_authorized token row (w : PgWorld) :
  cd_sessions (w_store w) !! secret_lookup_hash (expose_token token) = Some row →
  se_creator row = CreatorPubky_display (ga_creator approval) →
  clock (w_ticks w) < se_expires_at row → authority_kept (w_store w) →
  ∃ view w', status token w = (Ok view, w') ∧ av_creator view = ga_creator approval
    ∧ av_authorized view = true ∧ av_granted_scopes view = ga_granted_scopes approval.
Proof.
  intros Hrow Hc Ht (a & Ha & Hk & Hs & Hsc).
  destruct (read_current token row w Hrow Hc Ht) as (w1 & Hw1 & Hst).
  unfold get_creator_authority_status. erewrite bind_ran by exact Hw1. cbn [fs_creator].
  unfold revalidate_creator_authority, ask. erewrite bind_ran.
  2:{ apply call_alone. cbn [get_creator_authority pg_connect]. rewrite Hst, Ha. reflexivity. }
  cbn [ok_or]. erewrite bind_ran by reflexivity. rewrite Hk.
  erewrite bind_ran by (unfold run_lift; rewrite bool_decide_eq_false_2 by (intros Hn; by apply Hn); reflexivity).
  erewrite bind_ran by (unfold at_this_moment; rewrite Hs, Hrevalidate; reflexivity).
  do 2 eexists. split; [reflexivity|]. by rewrite <- Hsc.
Qed.

Lemma exchange_issues request code (w : PgWorld) :
  code_waits request code (w_store w) →
  (∀ n, cd_sessions (w_store w) !! secret_lookup_hash (expose_token (generate_token n)) = None) →
  ∃ exchanged w' row, exchange (MkExchange code (sr_state request)) w = (Ok exchanged, w')
    ∧ xp_creator exchanged = ga_creator approval
    ∧ cd_sessions (w_store w') !! secret_lookup_hash (expose_token (xp_session_token exchanged)) = Some row
    ∧ se_creator row = CreatorPubky_display (ga_creator approval)
    ∧ t0 + FRONTEND_SESSION_TTL ≤ se_expires_at row
    ∧ cd_authorities (w_store w') = cd_authorities (w_store w).
Proof.
  intros (t & Ht & Hrow) Hfresh. unfold exchange_frontend_session_code.
  erewrite bind_ran by reflexivity. erewrite bind_ran.
  2:{ apply call_alone. cbn [consume_frontend_session_code pg_connect w_store xr_code].
      unfold pg_consume_code. rewrite Hrow. cbn [co_consumed_at is_none].
      unfold row_to_code_record, parse_creator. cbn [co_creator].
      rewrite canonical_creator_roundtrip by done. reflexivity. }
  cbn [map_err fmap result_fmap mbind result_bind ok_or w_ticks w_store w_entitlements].
  erewrite bind_ran by reflexivity. erewrite bind_ran.
  2:{ unfold run_lift, check_code, code_is_expired_at.
      cbn [sc_consumed_at sc_expires_at sc_state is_some co_expires_at co_state co_consumed_at].
      destruct (Hclock (w_ticks w)) as [_ Hn].
      assert (CREATOR_CONNECT_FLOW_TTL = FRONTEND_SESSION_CODE_TTL) as Httl by done.
      rewrite (proj2 (Z.leb_gt _ _)) by lia. cbn [xr_state co_state]. rewrite eqb_same. reflexivity. }
  erewrite bind_ran by reflexivity. cbn [w_ticks w_store w_entitlements]. unfold tell.
  erewrite bind_ran.
  2:{ apply call_alone. cbn [insert_frontend_session pg_connect w_store]. unfold pg_insert_session.
      cbn [fs_token cd_sessions cd_with_codes]. rewrite Hfresh. reflexivity. }
  do 3 eexists. split; [reflexivity|]. cbn [xp_creator xp_session_token w_store cd_with_sessions cd_sessions].
  split_and!; [done|by rewrite lookup_insert_eq|done| |done].
  cbn [se_expires_at fs_expires_at]. rewrite kept_exact by done. pose proof (Hclock (w_ticks w)). lia.
Qed.

(** C28: On Postgres, a creator who is left undisturbed gets through: once the creator's
    signer approves in time, the flow that was started completes with the state and the
    return target it was started with, its code is good for a session of that creator of
    at least a day, and the session shows the authority as granted. *)
Theorem connect_succeeds request (w : PgWorld) :
  validate_start_request request = Ok () →
  (∀ n, cd_flows (w_store w) !! generate_flow_id n = None) →
  (∀ n, cd_codes (w_store w) !! secret_lookup_hash (expose_code (generate_code n)) = None) →
  (∀ n, cd_sessions (w_store w) !! secret_lookup_hash (expose_token (generate_token n)) = None) →
  ∃ started w1 completed w2 exchanged w3 view w4,
    start request w = (Ok started, w1) ∧ sp_authorization_url started = url
    ∧ complete (sp_flow_id started) w1 = (Ok completed, w2)
    ∧ cr_creator completed = ga_creator approval
    ∧ cr_state completed = sr_state request ∧ cr_return_to completed = sr_return_to request
    ∧ exchange (MkExchange (cr_code completed) (sr_state request)) w2 = (Ok exchanged, w3)
    ∧ xp_creator exchanged = ga_creator approval
    ∧ status (xp_session_token exchanged) w3 = (Ok view, w4)
    ∧ av_creator view = ga_creator approval ∧ av_authorized view = true
    ∧ av_granted_scopes view = ga_granted_scopes approval.
Proof.
  intros Hv Hflows Hcodes Hsessions.
  destruct (start_waits request w Hv Hflows) as (started & w1 & Hrun1 & Hw1 & Hu & _ & Hc1 & Hs1).
  destruct (complete_issues (sp_flow_id started) request w1 Hw1) as
    (completed & w2 & Hrun2 & Hcr & Hst & Hrt & Hcode & Hauth & Hs2); [intros n; by rewrite Hc1|].
  destruct (exchange_issues request (cr_code completed) w2 Hcode) as
    (exchanged & w3 & row & Hrun3 & Hxc & Hrow & Hrc & Hexp & Ha3); [intros n; by rewrite Hs2, Hs1|].
  destruct (status_authorized (xp_session_token exchanged) row w3) as (view & w4 & Hrun4 & Hvc & Hva & Hvs).
  - done.
  - done.
  - pose proof (Hclock (w_ticks w3)). assert (CREATOR_CONNECT_FLOW_TTL ≤ FRONTEND_SESSION_TTL) by done. lia.
  - destruct Hauth as (a & Ha & Hrest). exists a. split; [|done]. unfold pg_get_authority in *. by rewrite Ha3.
  - exists started, w1, completed, w2, exchanged, w3, view, w4. by split_and!.
Qed.
End success.

(** * What reaches the browser *)

(** [http::Uri], the text of whose parts is as it was parsed, and
    [serde_json::to_string] of a [str]. *)
Class HttpUris := {
  uri_parts : string → option (option string * option string);
  header_value_valid : string → bool;
  json_string : string → option string;
}.

Inductive ConnectDeliveryMode := DeliverRedirect | DeliverPostMessage.

#[global] Instance ConnectDeliveryMode_eq_dec : EqDecision ConnectDeliveryMode.
Proof. solve_decision. Defined.

Definition delivery_from_query (delivery : option string) : ConnectDeliveryMode :=
  match delivery with
  | Some d => if d == "postmessage" then DeliverPostMessage else DeliverRedirect
  | None => DeliverRedirect
  end.

Definition invalid_return_to_url : ApiError := MkApiError CodeInvalidRequest "invalid return_to".

(** [origin_from_return_to]. *)
Definition origin_from_return_to `{HttpUris} (return_to : string) : option string :=
  '(scheme, authority) ← uri_parts return_to;
  scheme ← scheme;
  if (scheme != "http") && (scheme != "https") then None
  else authority ← authority; Some (scheme +:+ "://" +:+ authority).

Definition validate_return_to_url `{HttpUris} (return_to : string) (allowed_origins : list string) :
    result ApiError string :=
  origin ← ok_or (origin_from_return_to return_to) invalid_return_to_url;
  if existsb (λ allowed, (allowed == "*") || (allowed == origin)) allowed_origins
  then Ok return_to else Err invalid_return_to_url.

(** [b'A'..=b'Z' | b'a'..=b'z' | b'0'..=b'9' | b'-' | b'_' | b'.' | b'~']. *)
Definition is_unreserved (c : ascii) : bool :=
  is_ascii_uppercase c || in_range 97 122 (byte_val c) || is_ascii_digit c
  || (byte_val c =? 45) || (byte_val c =? 95) || (byte_val c =? 46) || (byte_val c =? 126).

(** A digit of [{:02X}]. *)
Definition upper_hex (n : Z) : ascii := byte_of (if n <? 10 then 48 + n else 55 + n).

Definition percent_encode_byte (c : ascii) : list ascii :=
  if is_unreserved c then [c]
  else [byte_of 37; upper_hex (byte_val c / 16); upper_hex (byte_val c mod 16)].

Definition percent_encode_query_value (value : string) : string :=
  string_of_list_ascii (list_ascii_of_string value ≫= percent_encode_byte).

Definition append_connect_callback_params (return_to state code : string) : string :=
  return_to +:+ (if contains "?" return_to then "&" else "?") +:+ "state="
  +:+ percent_encode_query_value state +:+ "&code=" +:+ percent_encode_query_value code.

(** The bytes [escape_html] replaces are characters of their own in UTF-8. *)
Definition escape_html_byte (c : ascii) : list ascii :=
  list_ascii_of_string
    (if byte_val c =? 38 then "&amp;"
     else if byte_val c =? 60 then "&lt;"
     else if byte_val c =? 62 then "&gt;"
     else if byte_val c =? 34 then "&quot;"
     else if byte_val c =? 39 then "&#x27;"
     else String c "").

Definition escape_html (value : string) : string :=
  string_of_list_ascii (list_ascii_of_string value ≫= escape_html_byte).

(** [str::replace] of one byte. *)
Definition replace_byte (b : ascii) (by_ : string) (s : string) : string :=
  string_of_list_ascii
    (list_ascii_of_string s ≫= λ c, if c == b then list_ascii_of_string by_ else [c]).

Definition js_string_literal `{HttpUris} (value : string) : string :=
  let literal := default (string_of_list_ascii [byte_of 34; byte_of 34]) (json_string value) in
  replace_byte (byte_of 62) "\u003e" (replace_byte (byte_of 60) "\u003c" literal).

Definition bitkit_signin_url (authorization_url : string) : option string :=
  query ← strip_prefix "pubkyauth://signin_grant?" authorization_url;
  if query == "" then None else Some ("bitkit://pubky-auth/signin?" +:+ query).

Definition android_intent_url (authorization_url package : string) : option string :=
  rest ← strip_prefix "pubkyauth://" authorization_url;
  if is_some_and (λ query, query != "") (strip_prefix "signin_grant?" rest)
     && negb (existsb (λ c, (c =? 35) || is_whitespace c) (chars rest))
  then Some ("intent://" +:+ rest +:+ "#Intent;scheme=pubkyauth;package=" +:+ package +:+ ";end")
  else None.

(** [u8::eq_ignore_ascii_case], on strings. *)
Definition ascii_lower (c : ascii) : ascii :=
  if is_ascii_uppercase c then byte_of (byte_val c + 32) else c.
Definition eq_ignore_ascii_case (s t : string) : bool :=
  (ascii_lower <$> list_ascii_of_string s) == (ascii_lower <$> list_ascii_of_string t).

Definition frontend_session_unavailable : ApiError :=
  MkApiError CodeFrontendSessionUnavailable "frontend session unavailable".

(** The token of the [Authorization] headers: [value.split(' ')] has exactly two parts. *)
Definition parse_frontend_session_token `{WebCrates} (authorization : list bytes) :
    result ApiError FrontendSessionToken :=
  value ← ok_or (head authorization) frontend_session_unavailable;
  _ ← reject_if (1 <? length authorization)%nat frontend_session_unavailable;
  value ← ok_or (header_to_str value) frontend_session_unavailable;
  '(scheme, token) ← ok_or (split_once (byte_of 32) value) frontend_session_unavailable;
  _ ← reject_if (is_some (split_once (byte_of 32) token) || negb (eq_ignore_ascii_case scheme "Bearer")
                 || (token == "")) frontend_session_unavailable;
  Ok (MkSessionToken token).

Inductive ConnectResponse :=
  | RespondRedirect (location : string)
  | RespondPostMessage (state code : string).

Section handlers.
  Context {S : Type} `{ConnectStore S} `{WebCrates} `{HttpUris}.
  Context (clock store_clock : nat → OffsetDateTime).
  Context (fates : nat → Fate) (others : nat → S → S).
  Context (allowed_return_origins : list string).

  (** Handlers end in a response or an [ApiError]. *)
  Abbreviation Handler A := (World S (list ConnectEvent) → result ApiError A * World S (list ConnectEvent)).

Definition api_call {A B} (m : Run S (list ConnectEvent) A) (k : A → Handler B) : Handler B := λ w,
  match m w with
  | (Ok a, w') => k a w'
  | (Err e, w') => (Err (ApiError_from e), w')
  end.

(** The origin that may frame the page, and the flow it renders. *)
Definition connect_shell_start client grant_client generate_flow_id (return_to state : string) :
    Handler (string * StartCreatorConnectFlowResponse) := λ w,
  match (return_to ← validate_return_to_url return_to allowed_return_origins;
         target_origin ← ok_or (origin_from_return_to return_to) invalid_return_to_url;
         Ok (return_to, target_origin)) with
  | Err e => (Err e, w)
  | Ok (return_to, target_origin) =>
      api_call (start_creator_connect_flow clock store_clock fates others client grant_client
                  generate_flow_id (MkStartConnect return_to state))
        (λ response w,
          if header_value_valid ("frame-ancestors " +:+ target_origin)
          then (Ok (target_origin, response), w)
          else (Err (MkApiError CodeInvalidRequest "invalid return_to"), w)) w
  end.

Definition connect_response (delivery : ConnectDeliveryMode) (response : CompleteCreatorConnectFlowResponse) :
    result ApiError ConnectResponse :=
  return_to ← validate_return_to_url (cr_return_to response) allowed_return_origins;
  if delivery == DeliverPostMessage
  then Ok (RespondPostMessage (cr_state response) (expose_code (cr_code response)))
  else
    let location := append_connect_callback_params return_to (cr_state response)
                      (expose_code (cr_code response)) in
    _ ← reject_if (negb (header_value_valid location)) invalid_return_to_url;
    Ok (RespondRedirect location).

Definition connect_shell_complete client generate_code nonce (flow_id : string) (delivery : option string) :
    Handler ConnectResponse :=
  api_call (complete_creator_connect_flow clock store_clock fates others client generate_code nonce
              (MkConnectFlowId flow_id))
    (λ response w, (connect_response (delivery_from_query delivery) response, w)).

Definition exchange_frontend_session_code_route generate_token (code state : string) :
    Handler ExchangeFrontendSessionCodeResponse :=
  api_call (exchange_frontend_session_code clock store_clock fates others generate_token
              (MkExchange (MkSessionCode code) state)) (λ response w, (Ok response, w)).

(** A handler for the bearer of a session. *)
Definition with_session {A} (authorization : list bytes) (m : FrontendSessionToken → Run S (list ConnectEvent) A) :
    Handler A := λ w,
  match parse_frontend_session_token authorization with
  | Err e => (Err e, w)
  | Ok token => api_call (m token) (λ a w, (Ok a, w)) w
  end.

Definition frontend_session_signout_route (authorization : list bytes) : Handler () :=
  with_session authorization (signout clock store_clock fates others).

Definition creator_authority_status_route kind revalidate (authorization : list bytes) :
    Handler CreatorAuthorityStatusView :=
  with_session authorization (get_creator_authority_status clock store_clock fates others kind revalidate).

Definition authenticated_creator_from_headers (authorization : list bytes) : Handler CreatorPubky :=
  with_session authorization (λ token,
    run_bind (λ v, run_ret (vs_creator v)) (validate_frontend_session clock store_clock fates others token)).
End handlers.

(** * Encodings *)

Definition unhex (c : ascii) : option Z :=
  if is_ascii_digit c then Some (byte_val c - 48)
  else if in_range 65 70 (byte_val c) then Some (byte_val c - 55) else None.

(** What a reader of the query makes of a value. *)
Fixpoint percent_decode (l : list ascii) : option (list ascii) :=
  match l with
  | [] => Some []
  | c :: l =>
      if byte_val c =? 37 then
        match l with
        | hi :: lo :: l =>
            hi ← unhex hi; lo ← unhex lo; rest ← percent_decode l;
            Some (byte_of (16 * hi + lo) :: rest)
        | _ => None
        end
      else cons c <$> percent_decode l
  end.

Definition percent_decode_value (s : string) : option string :=
  string_of_list_ascii <$> percent_decode (list_ascii_of_string s).

(** Neither [&], [=] and [#] nor anything that ends a header line. *)
Definition is_query_value (s : string) : bool :=
  bytes_all (λ c, is_unreserved c || (byte_val c =? 37)) s.

(** Checked for each of the 256 bytes. *)
Lemma percent_digits c :
  forallb (λ b, is_unreserved b || (byte_val b =? 37)) (percent_encode_byte c) = true
  ∧ (is_unreserved c = true → (byte_val c =? 37) = false)
  ∧ unhex (upper_hex (byte_val c / 16)) = Some (byte_val c / 16)
  ∧ unhex (upper_hex (byte_val c mod 16)) = Some (byte_val c mod 16)
  ∧ byte_of (16 * (byte_val c / 16) + byte_val c mod 16) = c.
Proof. destruct c as [[] [] [] [] [] [] [] []]; vm_compute; by split_and!. Qed.

Lemma percent_byte_ok c l :
  percent_decode (percent_encode_byte c ++ l) = cons c <$> percent_decode l.
Proof.
  destruct (percent_digits c) as (_ & Hu & Hhi & Hlo & Hc). unfold percent_encode_byte.
  destruct (is_unreserved c); cbn [app percent_decode].
  - by rewrite Hu.
  - change (byte_val (byte_of 37) =? 37) with true. cbn iota. rewrite Hhi. cbn. rewrite Hlo. cbn.
    rewrite Hc. by destruct (percent_decode l).
Qed.

Lemma percent_roundtrip s :
  percent_decode_value (percent_encode_query_value s) = Some s
  ∧ is_query_value (percent_encode_query_value s) = true.
Proof.
  unfold percent_decode_value, percent_encode_query_value, is_query_value, bytes_all.
  rewrite !list_ascii_of_list_ascii.
  assert (∀ l, percent_decode (l ≫= percent_encode_byte) = Some l
     ∧ forallb (λ c, is_unreserved c || (byte_val c =? 37)) (l ≫= percent_encode_byte) = true) as Hl.
  { induction l as [|c l [IH1 IH2]]; [done|]. destruct (percent_digits c) as (Hb & _).
    pose proof (percent_byte_ok c) as Hd.
    change ((c :: l) ≫= percent_encode_byte) with (percent_encode_byte c ++ (l ≫= percent_encode_byte)).
    rewrite Hd, IH1, forallb_app, Hb, IH2. done. }
  destruct (Hl (list_ascii_of_string s)) as [-> ->]. split; [|done]. cbn.
  by rewrite string_of_as_bytes.
Qed.

(** A location up to its first [?], and the text behind it. *)
Fixpoint split_query (s : string) : string * option string :=
  match s with
  | EmptyString => ("", None)
  | String c s' =>
      if byte_val c =? 63 then ("", Some s')
      else ((String c (split_query s').1), (split_query s').2)
  end.

Lemma split_query_app s t :
  split_query (s +:+ t)
  = match (split_query s).2 with
    | Some q => ((split_query s).1, Some (q +:+ t))
    | None => (s +:+ (split_query t).1, (split_query t).2)
    end.
Proof.
  induction s as [|c s IH]; [cbn; rewrite !append_nil_l; by destruct (split_query t)|].
  change (String c s +:+ t) with (String c (s +:+ t)). cbn [split_query]. rewrite IH.
  destruct (byte_val c =? 63); [done|]. by destruct (split_query s).2.
Qed.

Lemma find_mark c s : find "?" (String c s) = if byte_val c =? 63 then Some O else S <$> find "?" s.
Proof.
  cbn [find]. enough (starts_with "?" (String c s) = (byte_val c =? 63)) as -> by done.
  unfold starts_with. by destruct c as [[] [] [] [] [] [] [] []].
Qed.

Lemma contains_query s : contains "?" s = is_some (split_query s).2.
Proof.
  unfold contains. induction s as [|c s IH]; [done|]. cbn [split_query].
  rewrite find_mark. destruct (byte_val c =? 63); [done|]. cbn [snd]. rewrite <- IH.
  by destruct (find "?" s).
Qed.

(** The location is the return target with the two parameters added to its query, the only
    ones there when it has none; their values are read back as they are. *)
Definition callback_location (location return_to state code : string) : Prop :=
  ∃ state' code', let params := "state=" +:+ state' +:+ "&code=" +:+ code' in
    split_query location
    = ((split_query return_to).1,
       Some (match (split_query return_to).2 with
             | Some query => query +:+ "&" +:+ params
             | None => params
             end))
    ∧ percent_decode_value state' = Some state ∧ is_query_value state' = true
    ∧ percent_decode_value code' = Some code ∧ is_query_value code' = true.

Lemma split_query_none s : (split_query s).2 = None → (split_query s).1 = s.
Proof.
  induction s as [|c s IH]; cbn [split_query]; [done|]. destruct (byte_val c =? 63); [done|].
  cbn [fst snd]. intros Hq. by rewrite IH.
Qed.

Lemma append_is_callback return_to state code :
  callback_location (append_connect_callback_params return_to state code) return_to state code.
Proof.
  destruct (percent_roundtrip state) as [Hs Hs'], (percent_roundtrip code) as [Hc Hc'].
  exists (percent_encode_query_value state), (percent_encode_query_value code).
  cbv zeta. split_and!; [|done..]. unfold append_connect_callback_params.
  rewrite contains_query, split_query_app.
  destruct (split_query return_to).2 as [q|] eqn:Hq; cbn [is_some]; [done|].
  by rewrite (split_query_none _ Hq), append_nil_r.
Qed.

(** A return target an allowed origin, or any, lies behind. *)
Definition return_allowed `{HttpUris} (allowed : list string) (return_to : string) : Prop :=
  ∃ origin, origin_from_return_to return_to = Some origin ∧ ("*" ∈ allowed ∨ origin ∈ allowed).

Lemma validate_return_to_Ok `{HttpUris} return_to allowed r :
  validate_return_to_url return_to allowed = Ok r ↔ r = return_to ∧ return_allowed allowed return_to.
Proof.
  unfold validate_return_to_url, return_allowed. destruct (origin_from_return_to return_to) as [o|]; cbn.
  - destruct (existsb _ allowed) eqn:He.
    + apply existsb_exists in He as (x & Hx%list_elem_of_In & Hor).
      rewrite orb_true_iff, !eqb_true in Hor. split; [intros [= <-]|by intros [-> _]].
      split; [done|]. exists o. split; [done|]. destruct Hor as [<-|<-]; auto.
    + split; [done|]. intros [_ (o' & [= <-] & Hin)]. exfalso.
      assert (existsb (λ a, (a == "*") || (a == o)) allowed = true); [|congruence].
      apply existsb_exists. destruct Hin as [Hin|Hin]; (eexists; split; [by apply list_elem_of_In|]);
        rewrite eqb_same; [done|apply orb_true_r].
  - split; [done|]. by intros (_ & ? & ? & _).
Qed.

Section browser.
  Context {S : Type} `{ConnectStore S} `{WebCrates} `{HttpUris}.
  Context (clock store_clock : nat → OffsetDateTime).
  Context (fates : nat → Fate) (others : nat → S → S).
  Context (allowed_return_origins : list string).

  Abbreviation complete client generate_code nonce flow_id :=
    (complete_creator_connect_flow clock store_clock fates others client generate_code nonce
       (MkConnectFlowId flow_id)).

(** C23: A completed connection hands its code only to a return target whose origin is
    allowed: the location is the return target with two parameters added at the end of its
    query, or as its query when it has none, made of unreserved characters and percent
    escapes, which decode to the state the flow was started with and to the code; a page that
    asked for a message gets the two as they are.  Nothing else is ever returned. *)
Theorem callback_delivered client generate_code nonce flow_id delivery w r w' :
  connect_shell_complete clock store_clock fates others allowed_return_origins client generate_code
    nonce flow_id delivery w = (Ok r, w') →
  ∃ completed, complete client generate_code nonce flow_id w = (Ok completed, w')
    ∧ return_allowed allowed_return_origins (cr_return_to completed)
    ∧ match r with
      | RespondRedirect location =>
          delivery ≠ Some "postmessage"
          ∧ callback_location location (cr_return_to completed) (cr_state completed)
              (expose_code (cr_code completed))
      | RespondPostMessage state code =>
          delivery = Some "postmessage" ∧ state = cr_state completed
          ∧ code = expose_code (cr_code completed)
      end.
Proof.
  unfold connect_shell_complete, api_call.
  destruct (complete client generate_code nonce flow_id w) as [[completed|e] w1] eqn:Hc; [|done].
  intros [= Hr <-]. exists completed. split; [done|]. unfold connect_response in Hr.
  apply bind_Ok in Hr as (rt & [-> Hall]%validate_return_to_Ok & Hr). split; [done|].
  assert (delivery_from_query delivery = DeliverPostMessage ↔ delivery = Some "postmessage") as Hd.
  { destruct delivery as [d|]; cbn; [|done]. destruct (d == _) eqn:Hq; [rewrite eqb_true in Hq|rewrite eqb_false in Hq];
      split; congruence. }
  destruct (_ == DeliverPostMessage) eqn:Hp.
  - rewrite eqb_true in Hp. injection Hr as <-. by rewrite <- Hd.
  - rewrite eqb_false in Hp. apply bind_Ok in Hr as ([] & _ & [= <-]). split; [by rewrite <- Hd|].
    apply append_is_callback.
Qed.

(** The page that starts a connection may be framed by the origin of its return target
    alone, which is an allowed one. *)
Lemma start_framed_by_origin client grant_client generate_flow_id return_to state w origin response w' :
  connect_shell_start clock store_clock fates others allowed_return_origins client grant_client
    generate_flow_id return_to state w = (Ok (origin, response), w') →
  origin_from_return_to return_to = Some origin ∧ return_allowed allowed_return_origins return_to.
Proof.
  unfold connect_shell_start, api_call. intros Hs.
  destruct (validate_return_to_url _ _) as [rt|e] eqn:Hv; [cbn [mbind result_bind ok_or] in Hs|done].
  apply validate_return_to_Ok in Hv as [-> Hall].
  destruct (origin_from_return_to return_to) as [o|] eqn:Ho; [cbn [mbind result_bind ok_or] in Hs|done].
  destruct (start_creator_connect_flow _ _ _ _ _ _ _ _ w) as [[a|e] w1]; [|done].
  destruct (header_value_valid _); [|done]. by injection Hs as <- _ _.
Qed.
End browser.

(** * Values in the page *)

(** What a browser makes of the escapes. *)
Fixpoint unescape_html (fuel : nat) (s : string) : string :=
  match fuel, s with
  | O, _ | _, EmptyString => s
  | S fuel, String c rest =>
      match strip_prefix "&amp;" s, strip_prefix "&lt;" s, strip_prefix "&gt;" s,
            strip_prefix "&quot;" s, strip_prefix "&#x27;" s with
      | Some r, _, _, _, _ => "&" +:+ unescape_html fuel r
      | _, Some r, _, _, _ => "<" +:+ unescape_html fuel r
      | _, _, Some r, _, _ => ">" +:+ unescape_html fuel r
      | _, _, _, Some r, _ => String (byte_of 34) (unescape_html fuel r)
      | _, _, _, _, Some r => "'" +:+ unescape_html fuel r
      | _, _, _, _, _ => String c (unescape_html fuel rest)
      end
  end.

(** No byte that ends an attribute or starts a tag. *)
Definition markup_free (s : string) : bool :=
  bytes_all (λ c, negb ((byte_val c =? 60) || (byte_val c =? 62) || (byte_val c =? 34) || (byte_val c =? 39))) s.

Lemma escape_byte_free c :
  forallb (λ c, negb ((byte_val c =? 60) || (byte_val c =? 62) || (byte_val c =? 34) || (byte_val c =? 39)))
    (escape_html_byte c) = true.
Proof. destruct c as [[] [] [] [] [] [] [] []]; vm_compute; reflexivity. Qed.

Lemma forallb_bind {A B} (p : B → bool) (f : A → list B) l :
  (∀ a, forallb p (f a) = true) → forallb p (l ≫= f) = true.
Proof.
  intros Hf. induction l as [|a l IH]; [done|]. change ((a :: l) ≫= f) with (f a ++ (l ≫= f)).
  by rewrite forallb_app, Hf, IH.
Qed.

Lemma escape_markup_free s : markup_free (escape_html s) = true.
Proof.
  unfold markup_free, escape_html, bytes_all. rewrite list_ascii_of_list_ascii.
  apply forallb_bind, escape_byte_free.
Qed.

(** A script literal cannot end its script element. *)
Lemma js_literal_stays_inside `{HttpUris} value :
  bytes_all (λ c, negb ((byte_val c =? 60) || (byte_val c =? 62))) (js_string_literal value) = true.
Proof.
  unfold js_string_literal, replace_byte, bytes_all. rewrite list_ascii_of_list_ascii.
  set (l := default _ _). rewrite list_ascii_of_list_ascii.
  induction (list_ascii_of_string l) as [|c l' IH]; [done|].
  change ((c :: l') ≫= ?f) with (f c ++ (l' ≫= f)).
  rewrite bind_app, forallb_app. apply andb_true_iff. split; [|exact IH].
  destruct c as [[] [] [] [] [] [] [] []]; vm_compute; reflexivity.
Qed.

Lemma unescape_step c fuel rest :
  unescape_html (S fuel) (string_of_list_ascii (escape_html_byte c) +:+ rest)
  = String c (unescape_html fuel rest).
Proof. destruct c as [[] [] [] [] [] [] [] []]; reflexivity. Qed.

Lemma string_of_app l l' :
  string_of_list_ascii (l ++ l') = string_of_list_ascii l +:+ string_of_list_ascii l'.
Proof. induction l as [|c l IH]; [done|]. cbn. by rewrite IH. Qed.

(** A value in the text or an attribute of the page stays a value, and the browser sees it
    as it is. *)
Lemma escaped_value_intact s :
  markup_free (escape_html s) = true ∧ unescape_html (String.length s) (escape_html s) = s.
Proof.
  split; [apply escape_markup_free|]. unfold escape_html. induction s as [|c s IH]; [done|].
  cbn [list_ascii_of_string String.list_ascii_of_string String.length].
  change ((c :: list_ascii_of_string s) ≫= escape_html_byte)
    with (escape_html_byte c ++ (list_ascii_of_string s ≫= escape_html_byte)).
  rewrite string_of_app, unescape_step. by rewrite IH.
Qed.

(** * Links to signer apps *)

(** An [intent://] link is only made of a grant sign-in; it keeps its query and names the
    package it is given. *)
Lemma android_intent_spec u package link :
  android_intent_url u package = Some link ↔
  ∃ query, u = "pubkyauth://signin_grant?" +:+ query ∧ query ≠ ""
    ∧ existsb (λ c, (c =? 35) || is_whitespace c) (chars ("signin_grant?" +:+ query)) = false
    ∧ link = "intent://signin_grant?" +:+ query +:+ "#Intent;scheme=pubkyauth;package=" +:+ package +:+ ";end".
Proof.
  unfold android_intent_url.
  assert (∀ q, "pubkyauth://signin_grant?" +:+ q = "pubkyauth://" +:+ ("signin_grant?" +:+ q)) as Hsplit
    by done.
  split.
  - intros (rest & ->%strip_prefix_Some & Hl)%bind_Some.
    destruct (strip_prefix "signin_grant?" rest) as [query|] eqn:Hq; [|done].
    apply strip_prefix_Some in Hq as ->. exists query. unfold is_some_and in Hl.
    destruct (query == "") eqn:He; [done|]. rewrite eqb_false in He. cbn [negb andb] in Hl.
    destruct (existsb _ _) eqn:Hex; [done|]. injection Hl as <-. by split_and!.
  - intros (query & -> & Hne & Hex & ->). rewrite Hsplit, strip_prefix_app. cbn [mbind option_bind].
    rewrite strip_prefix_app, Hex. cbn [is_some_and]. by rewrite (proj2 (eqb_false _ _) Hne).
Qed.

(** No byte of the string is the separator. *)
Definition without (sep : ascii) (s : string) : bool := bytes_all (λ c, negb (c == sep)) s.

Lemma split_once_None sep s : split_once sep s = None ↔ without sep s = true.
Proof.
  unfold without, bytes_all. induction s as [|c s IH]; [done|]. cbn.
  destruct (c == sep); [done|]. cbn. rewrite <- IH. destruct (split_once sep s) as [[a b]|]; naive_solver.
Qed.

Lemma split_once_Some sep s a b :
  split_once sep s = Some (a, b) ↔ s = a +:+ String sep b ∧ without sep a = true.
Proof.
  split; [|by intros [-> Ha]; apply split_once_at].
  unfold without, bytes_all. revert a. induction s as [|c s IH]; intros a; cbn; [done|].
  destruct (c == sep) eqn:Hc.
  - rewrite eqb_true in Hc. intros [= <- <-]. by subst.
  - destruct (split_once sep s) as [[a' b']|]; [|done]. cbn. intros [= <- ->].
    destruct (IH a' eq_refl) as [-> Ha]. by rewrite <- append_cons; cbn; rewrite Hc.
Qed.

(** A bearer token is taken from a single header of two words. *)
Lemma bearer_token_spec `{WebCrates} headers token :
  parse_frontend_session_token headers = Ok token ↔
  ∃ header scheme, headers = [header]
    ∧ header_to_str header = Some (scheme +:+ " " +:+ expose_token token)
    ∧ without (byte_of 32) scheme = true ∧ without (byte_of 32) (expose_token token) = true
    ∧ eq_ignore_ascii_case scheme "Bearer" = true ∧ expose_token token ≠ "".
Proof.
  unfold parse_frontend_session_token. split.
  - intros Hp. apply bind_Ok in Hp as (h & Hh%ok_or_Ok & Hp). apply bind_Ok in Hp as ([] & Hl%reject_if_Ok & Hp).
    apply bind_Ok in Hp as (v & Hv%ok_or_Ok & Hp). apply bind_Ok in Hp as ([scheme t] & Hs%ok_or_Ok & Hp).
    apply bind_Ok in Hp as ([] & Hr%reject_if_Ok & [= <-]).
    apply split_once_Some in Hs as [-> Hs]. rewrite !orb_false_iff, negb_false_iff, eqb_false in Hr.
    destruct Hr as [[Ht Hb] Hne]. destruct headers as [|h' [|h2 hs]]; [discriminate Hh| |discriminate Hl]. injection Hh as ->.
    exists h, scheme. split_and!; try done. apply split_once_None.
    cbn [expose_token]. by destruct (split_once _ t).
  - intros (h & scheme & -> & Hv & Hs & Ht & Hb & Hne). destruct token as [t]. cbn in *.
    rewrite Hv. cbn. change (" " +:+ t) with (String (byte_of 32) t).
    rewrite (split_once_at (byte_of 32) scheme t Hs). cbn.
    apply split_once_None in Ht. rewrite Ht, Hb. cbn. by rewrite (proj2 (eqb_false _ _) Hne).
Qed.
