(* ===== verification/GraphDb.v ===== *)
(** The Postgres repository of graph tasks
    ([locks-service/src/infrastructure/postgres/graph_tasks.rs]).

    A transaction that locks the row it writes is one step; where it reads the clock in
    several statements, each reading is an argument, and so is the database an insertion
    finds when others commit after its checks.  The second component of an operation is
    the database it leaves behind, on errors as well. *)

From S2P Require Import Prelude RustStr Externals Ids Json LockPolicy Wire Errors.
From S2P Require Import Lifecycle GraphTask PaymentTask Fence GraphStore FoldedAuth TaskTables.

(** A transaction that fails is rolled back. *)
Definition transaction {A} (db : LocksDb)
    (body : result ApplicationError (result ApplicationError A * LocksDb)) :
    result ApplicationError A * LocksDb :=
  match body with
  | Ok answer => answer
  | Err e => (Err e, db)
  end.

(** [evaluator_snapshot->'root'->>'status']; only the roots of graph tasks are asked for. *)
Definition GraphRootState_tag (root : GraphRootState) : string :=
  match root with
  | GraphPending => "pending"
  | GraphSatisfied => "satisfied"
  | GraphExpired _ => "expired"
  | GraphFailedInvalidResponse => "failed_invalid_response"
  end.

Definition root_tag (row : VerificationTaskRow) : option string :=
  match vt_evaluator_snapshot row with
  | Some (GraphColumn s) => Some (GraphRootState_tag (gs_root s))
  | _ => None
  end.

Definition graph_mode (row : VerificationTaskRow) : bool := vt_evaluator_mode row == Some "graph".

(** A bound on [BIGINT] parameters: [i64::try_from]. *)
Definition i64_of (v : Z) : option Z := if v <=? I64_MAX then Some v else None.

Section adapter.
  Context `{Base32, TimeCrate, UuidCrate, PgTime}.

(** * Rows and records *)

(** [GraphTaskSnapshot::from_json]; what serde says of another evaluator's snapshot is not
    modelled. *)
Definition GraphTaskSnapshot_from_json (column : EvaluatorSnapshot) :
    result string GraphTaskSnapshotV1 :=
  match column with
  | GraphColumn s => _ ← GraphTaskSnapshotV1_validate s; Ok s
  | PaymentColumn _ => Err ""
  end.

Definition submitted_field (row : VerificationTaskRow) (key : string) : option string :=
  json_get key (vt_submitted_proof_bundle row) ≫= as_str.

(** The identity columns say what the snapshot says. *)
Definition identity_diverges (row : VerificationTaskRow) (s : GraphTaskSnapshotV1) : bool :=
  (vt_creator row != CreatorPubky_display (gs_creator s))
  || (vt_bundle_id row != BundleId_display (gs_bundle_id s))
  || negb (vt_submitted_at row =? gs_accepted_at s)
  || (submitted_field row "bundle_id" != Some (BundleId_display (gs_bundle_id s)))
  || (submitted_field row "pubky_lock_resource"
      != Some (PubkyLockResource_display (gs_pubky_lock_resource s))).

Definition decode_entitlement (s : GraphTaskSnapshotV1) (column : option EntitlementColumn) :
    result ApplicationError (option VerifiedProofBundleV2) :=
  match column with
  | None => Ok None
  | Some (EntitlementV1 _) => Err (Storage "invalid graph entitlement payload stored in Postgres: ")
  | Some (EntitlementV2 v) =>
      _ ← map_err (λ _, Storage "invalid graph entitlement payload stored in Postgres: ")
            (VerifiedProofBundleV2_validate v);
      _ ← reject_if ((vb2_creator v != gs_creator s) || (vb2_reader v != gs_reader s)
                     || (vb2_bundle_id v != gs_bundle_id s)
                     || (vb2_pubky_lock_resource v != gs_pubky_lock_resource s)
                     || (vb2_satisfied_by v != [ByGraph]))
            (Storage "graph entitlement payload diverges from evaluator snapshot");
      Ok (Some v)
  end.

Definition decode_terminal_reason (column : option string) :
    result ApplicationError (option VerificationTerminalReason) :=
  match column with
  | None => Ok None
  | Some value =>
      reason ← ok_or (VerificationTerminalReason_from_storage_value value)
                 (Storage ("invalid graph task terminal reason stored in Postgres: " +:+ value));
      Ok (Some reason)
  end.

Definition lifecycle_matches (status : VerificationTaskStatus) (root : GraphRootState)
    (reason : option VerificationTerminalReason) (payload token completed : bool) : bool :=
  match status with
  | Pending => (root == GraphPending) && negb payload && negb token && negb completed
  | InProgress => negb payload && negb token && negb completed
  | PublishingEntitlement => (root == GraphSatisfied) && payload && token && negb completed
  | Completed => (root == GraphSatisfied) && payload && negb token && completed
  | Expired =>
      ((root == GraphExpired DeadlineFalse) || (reason == Some ContentLockDeleted))
      && negb payload && negb token && completed
  | Failed =>
      ((root == GraphExpired DeadlineUnavailable) || (root == GraphFailedInvalidResponse))
      && negb payload && negb token && completed
  end.

Definition row_to_task (id : TaskId) (row : VerificationTaskRow) :
    result ApplicationError GraphTaskRecord :=
  mode ← ok_or (vt_evaluator_mode row) sqlx_error;
  column ← ok_or (vt_evaluator_snapshot row) sqlx_error;
  _ ← reject_if (mode != "graph") (Storage "non-graph evaluator row reached graph decoder");
  task_id ← map_err (λ _, Storage "invalid graph task id stored in Postgres: ")
              (TaskId_from_str (TaskId_display id));
  s ← map_err (λ error, Storage ("invalid graph task snapshot stored in Postgres: " +:+ error))
        (GraphTaskSnapshot_from_json column);
  _ ← reject_if (identity_diverges row s)
        (Storage "graph task snapshot diverges from relational identity or timing");
  _ ← reject_if (vt_evaluator_revision row <? 0)
        (Storage "negative graph evaluator revision stored in Postgres");
  entitlement ← decode_entitlement s (vt_entitlement_to_publish row);
  status ← TaskStatus_from_database (vt_status row);
  reason ← decode_terminal_reason (vt_terminal_reason row);
  _ ← reject_if (negb (lifecycle_matches status (gs_root s) reason (is_some entitlement)
                         (is_some (vt_entitlement_publication_claim_token row))
                         (is_some (vt_completed_at row))))
        (Storage "graph task lifecycle diverges from evaluator snapshot");
  Ok (MkGraphTaskRecord task_id s (vt_evaluator_revision row) status entitlement
        (vt_entitlement_publication_claim_token row) (vt_completed_at row)).

(** * Admission *)

Definition pending_folded_auth (db : LocksDb) (handle : HandleKey) : bool :=
  existsb (λ '(_, row), ((far_creator row, far_bundle_id row) == handle_texts handle)
                        && (far_status row == "pending")) (map_to_list (ld_folded db)).

Definition find_graph_row (db : LocksDb) (handle : HandleKey) : option (TaskId * VerificationTaskRow) :=
  snd <$> find_first (λ '(_, row), (row_handle row == handle_texts handle) && graph_mode row
                                   && is_some (vt_evaluator_snapshot row))
            (map_to_list (ld_tasks db)).

Definition pg_get_graph_task_by_handle (db : LocksDb) (handle : HandleKey) :
    result ApplicationError (option GraphTaskRecord) :=
  match find_graph_row db handle with
  | None => Ok None
  | Some (id, row) => t ← row_to_task id row; Ok (Some t)
  end.

Definition submitted_json (s : GraphTaskSnapshotV1) : Json :=
  JObject [("version", JNumber (PosInt 2));
           ("bundle_id", JString (BundleId_display (gs_bundle_id s)));
           ("pubky_lock_resource", JString (PubkyLockResource_display (gs_pubky_lock_resource s)))].

(** The inserted row; the columns it does not name have their defaults. *)
Definition new_graph_row (s : GraphTaskSnapshotV1) : VerificationTaskRow :=
  MkVerificationTaskRow (CreatorPubky_display (gs_creator s)) (BundleId_display (gs_bundle_id s))
    "pending" (submitted_json s) (pg_timestamp (gs_accepted_at s)) None None None None None None None 0
    None "ready" None None None (Some "graph") (Some (GraphColumn s)) 0.

(** [ON CONFLICT DO NOTHING]: [None] when the identifier or the handle is taken. *)
Definition insert_graph_row (db : LocksDb) (t : GraphTaskRecord) :
    result ApplicationError (option LocksDb) :=
  if is_some (ld_tasks db !! gt_task_id t) || handle_exists db (gt_handle t) then Ok None
  else db' ← write_task db (gt_task_id t) (new_graph_row (gt_snapshot t)); Ok (Some db').

Definition same_graph_task (found t : GraphTaskRecord) : bool :=
  (gt_task_id found == gt_task_id t) && is_ok (ensure_same_binding (gt_snapshot found) (gt_snapshot t)).

(** [later]: the database the insertion finds. *)
Definition pg_insert_graph_task (db later : LocksDb) (t : GraphTaskRecord) :
    result ApplicationError GraphTaskRecord * LocksDb :=
  let s := gt_snapshot t in
  transaction later
    (_ ← validate_new_task t;
     _ ← reject_if (pending_folded_auth db (gt_handle t)) VerificationTaskConflict;
     match find_graph_row db (gt_handle t) with
     | Some (id, row) =>
         existing ← row_to_task id row;
         _ ← reject_if (negb (same_graph_task existing t)) VerificationTaskConflict;
         Ok (found ← pg_get_graph_task_by_handle later (gt_handle t);
             ok_or found VerificationTaskConflict, later)
     | None =>
         _ ← reject_deletion_cutoff later (gs_creator s) (resource_lock_id (gs_pubky_lock_resource s));
         inserted ← insert_graph_row later t;
         match inserted with
         | Some db' => Ok (row_to_task (gt_task_id t) (new_graph_row s), db')
         | None =>
             match find_graph_row later (gt_handle t) with
             | Some (id, row) =>
                 winner ← row_to_task id row;
                 _ ← reject_if (negb (same_graph_task winner t)) VerificationTaskConflict;
                 Ok (Ok winner, later)
             | None =>
                 _ ← reject_if (handle_exists later (gt_handle t)) VerificationTaskConflict;
                 Err (DuplicateRecord "verification_task")
             end
         end
     end).

(** * Leases *)

Definition due (now : OffsetDateTime) (at_ : option OffsetDateTime) : bool :=
  is_none_or (λ t, t <=? now) at_.

(** The [WHERE] clause of the candidates. *)
Definition claim_candidate (db : LocksDb) (now : OffsetDateTime) (id : TaskId)
    (row : VerificationTaskRow) : bool :=
  let status := vt_status row in
  graph_mode row && is_some (vt_evaluator_snapshot row) && not_deleted db id row
  && (((root_tag row == Some "pending")
       && (((status == "pending") && due now (vt_next_attempt_at row))
           || ((status == "in_progress") && is_some_and (λ e, e <=? now) (vt_claim_expires_at row))))
      || ((root_tag row == Some "satisfied") && (status == "publishing_entitlement")
          && due now (vt_claim_expires_at row) && due now (vt_next_attempt_at row))
      || (((root_tag row == Some "satisfied") || (root_tag row == Some "expired")
           || (root_tag row == Some "failed_invalid_response"))
          && (status == "in_progress") && due now (vt_claim_expires_at row))).

(** [ORDER BY submitted_at, task_id]. *)
Definition submitted_before (x y : TaskId * VerificationTaskRow) : Prop :=
  vt_submitted_at x.2 < vt_submitted_at y.2
  ∨ vt_submitted_at x.2 = vt_submitted_at y.2 ∧ TaskId_as_uuid x.1 ≤ TaskId_as_uuid y.1.
#[global] Instance submitted_before_dec : RelDecision submitted_before.
Proof. intros x y. unfold submitted_before. apply _. Defined.

(** [locked]: the rows other transactions hold, which [SKIP LOCKED] passes over. *)
Definition next_candidate (db : LocksDb) (locked : gset TaskId) (now : OffsetDateTime) :
    option (TaskId * VerificationTaskRow) :=
  head (merge_sort submitted_before
          (filter (λ '(id, row), claim_candidate db now id row = true ∧ id ∉ locked)
             (map_to_list (ld_tasks db)))).

Definition row_claimed_by (row : VerificationTaskRow) (worker_id : string) (token : Uuid)
    (expires now : OffsetDateTime) : VerificationTaskRow :=
  MkVerificationTaskRow (vt_creator row) (vt_bundle_id row)
    (if vt_status row == "publishing_entitlement" then vt_status row else "in_progress")
    (vt_submitted_proof_bundle row) (vt_submitted_at row) (Some (default now (vt_started_at row)))
    (vt_completed_at row) (vt_failure_message row) (vt_terminal_reason row) (Some worker_id)
    (Some token) (Some expires) (vt_attempt_count row + 1) None (vt_invoice_admission_phase row)
    (vt_entitlement_to_publish row) (vt_entitlement_publication_claim_token row)
    (vt_deletion_job_id row) (vt_evaluator_mode row) (vt_evaluator_snapshot row)
    (vt_evaluator_revision row).

(** [attempt_count] is an [INTEGER]. *)
Definition I32_MAX : Z := 2 ^ 31 - 1.

Definition pg_claim_next_graph_task (db : LocksDb) (locked : gset TaskId) (worker_id : string)
    (caller_now claim_expires_at now : OffsetDateTime) (claim_token : Uuid) :
    result ApplicationError (option ClaimedGraphTask) * LocksDb :=
  transaction db
    (_ ← reject_if (claim_expires_at <=? caller_now)
           (InvalidVerificationTaskState "graph task claim expiry must follow claim time");
     match next_candidate db locked now with
     | None => Ok (Ok None, db)
     | Some (id, row) =>
         let row := row_claimed_by row worker_id claim_token
                      (now + (pg_timestamp claim_expires_at - pg_timestamp caller_now)) now in
         _ ← reject_if (I32_MAX <? vt_attempt_count row) sqlx_error;
         db' ← write_task db id row;
         Ok (t ← row_to_task id row; Ok (Some (MkClaimedGraphTask t claim_token)), db')
     end).

(** The [WHERE] clause of an evaluation's result. *)
Definition live_row (db : LocksDb) (id : TaskId) (worker_id : string) (token : Uuid)
    (expected_revision : Z) (now : OffsetDateTime) (row : VerificationTaskRow) : bool :=
  graph_mode row && (vt_status row == "in_progress") && (vt_claimed_by row == Some worker_id)
  && (vt_claim_token row == Some token) && is_some_and (λ e, now <? e) (vt_claim_expires_at row)
  && (vt_evaluator_revision row =? expected_revision) && not_deleted db id row.

Definition evaluated (row : VerificationTaskRow) (s : GraphTaskSnapshotV1) (status : string)
    (reason : option string) (payload : option VerifiedProofBundleV2) (token : option Uuid)
    (retain_claim : bool) (now : OffsetDateTime) : VerificationTaskRow :=
  MkVerificationTaskRow (vt_creator row) (vt_bundle_id row) status (vt_submitted_proof_bundle row)
    (vt_submitted_at row) (vt_started_at row) (if retain_claim then None else Some now) None reason
    (if retain_claim then vt_claimed_by row else None)
    (if retain_claim then vt_claim_token row else None)
    (if retain_claim then vt_claim_expires_at row else None) (vt_attempt_count row) None
    (vt_invoice_admission_phase row) (EntitlementV2 <$> payload) token (vt_deletion_job_id row)
    (vt_evaluator_mode row) (Some (GraphColumn s)) (vt_evaluator_revision row + 1).

(** What the root decides for the task's columns. *)
Definition target_row (row : VerificationTaskRow) (s : GraphTaskSnapshotV1) (now : OffsetDateTime)
    (publication_token : Uuid) : result ApplicationError VerificationTaskRow :=
  match gs_root s with
  | GraphPending => Ok (evaluated row s "in_progress" None None None true now)
  | GraphSatisfied =>
      let publication := graph_publication s now in
      _ ← map_err (λ _, Storage "invalid graph entitlement publication: ")
            (VerifiedProofBundleV2_validate publication);
      Ok (evaluated row s "publishing_entitlement" None (Some publication) (Some publication_token)
            true now)
  | GraphExpired DeadlineFalse =>
      Ok (evaluated row s "expired" (Some "graph_condition_not_observed_by_deadline") None None
            false now)
  | GraphExpired DeadlineUnavailable =>
      Ok (evaluated row s "failed" (Some "verification_unavailable_by_deadline") None None false now)
  | GraphFailedInvalidResponse =>
      Ok (evaluated row s "failed" (Some "invalid_verifier_response") None None false now)
  end.

(** The checks of a replacement; a terminal snapshot may be written again as it is. *)
Definition pg_check_snapshot (current next : GraphTaskSnapshotV1) (always : bool)
    (now : OffsetDateTime) : result ApplicationError () :=
  _ ← map_err invalid_graph_snapshot (GraphTaskSnapshotV1_validate next);
  _ ← map_err invalid_graph_snapshot (validate_observations_not_after next now);
  _ ← ensure_same_binding current next;
  if always || (current != next) || (gs_root current == GraphPending)
  then map_err invalid_graph_snapshot (validate_graph_progress_from next current)
  else Ok ().

(** [now1], [now], [now2]: the clock when the row is selected, read, and when it is written. *)
Definition pg_persist_claimed_graph_snapshot (db : LocksDb) (id : TaskId) (worker_id : string)
    (claim_token : Uuid) (expected_revision : Z) (snapshot : GraphTaskSnapshotV1)
    (now1 now now2 : OffsetDateTime) (publication_token : Uuid) :
    result ApplicationError (option GraphTaskRecord) * LocksDb :=
  match i64_of expected_revision, ld_tasks db !! id with
  | Some expected_revision, Some row =>
      if negb (live_row db id worker_id claim_token expected_revision now1 row) then (Ok None, db)
      else transaction db
        (current ← row_to_task id row;
         _ ← pg_check_snapshot (gt_snapshot current) snapshot false now;
         _ ← reject_if (match gs_root snapshot with
                        | GraphExpired _ => now <? gs_deadline_at snapshot
                        | _ => false
                        end)
               (InvalidVerificationTaskState "graph task cannot expire before its deadline");
         _ ← ok_or (checked_add I64_MAX expected_revision 1)
               (Storage "graph evaluator revision overflow");
         target ← target_row row snapshot now publication_token;
         if negb (live_row db id worker_id claim_token expected_revision now2 row)
         then Ok (Ok None, db)
         else
           db' ← write_task db id target;
           Ok (t ← row_to_task id target; Ok (Some t), db'))
  | _, _ => (Ok None, db)
  end.

Definition row_retried (row : VerificationTaskRow) (s : GraphTaskSnapshotV1)
    (next_attempt_at : OffsetDateTime) : VerificationTaskRow :=
  MkVerificationTaskRow (vt_creator row) (vt_bundle_id row) "pending"
    (vt_submitted_proof_bundle row) (vt_submitted_at row) None (vt_completed_at row)
    (vt_failure_message row) (vt_terminal_reason row) None None None (vt_attempt_count row)
    (Some next_attempt_at) (vt_invoice_admission_phase row) (vt_entitlement_to_publish row)
    (vt_entitlement_publication_claim_token row) (vt_deletion_job_id row) (vt_evaluator_mode row)
    (Some (GraphColumn s)) (vt_evaluator_revision row + 1).

Definition pg_schedule_graph_task_retry (db : LocksDb) (id : TaskId) (worker_id : string)
    (claim_token : Uuid) (caller_now : OffsetDateTime) (expected_revision : Z)
    (snapshot : GraphTaskSnapshotV1) (requested_next_attempt_at : OffsetDateTime)
    (now1 now now2 : OffsetDateTime) : result ApplicationError (option GraphTaskRecord) * LocksDb :=
  let retry_delay := requested_next_attempt_at - caller_now in
  match i64_of expected_revision with
  | None => (Ok None, db)
  | Some expected_revision =>
      transaction db
        (_ ← ok_or (checked_add I64_MAX expected_revision 1)
               (Storage "graph evaluator revision overflow");
         match ld_tasks db !! id with
         | None => Ok (Ok None, db)
         | Some row =>
             if negb (live_row db id worker_id claim_token expected_revision now1 row)
             then Ok (Ok None, db)
             else
               current ← row_to_task id row;
               let next_attempt_at := (now + retry_delay) `min` gs_deadline_at snapshot in
               _ ← reject_if (negb (0 <? retry_delay))
                     (InvalidVerificationTaskState "graph retry delay must be positive");
               _ ← pg_check_snapshot (gt_snapshot current) snapshot true now;
               _ ← reject_if (gs_root snapshot != GraphPending)
                     (InvalidVerificationTaskState "graph retry requires pending snapshot");
               let target := row_retried row snapshot (pg_timestamp next_attempt_at) in
               if negb (live_row db id worker_id claim_token expected_revision now2 row)
               then Ok (Ok None, db)
               else
                 db' ← write_task db id target;
                 Ok (t ← row_to_task id target; Ok (Some t), db')
         end)
  end.

Definition row_released (row : VerificationTaskRow) : VerificationTaskRow :=
  MkVerificationTaskRow (vt_creator row) (vt_bundle_id row)
    (if (vt_status row == "in_progress") && (root_tag row == Some "pending") then "pending"
     else vt_status row)
    (vt_submitted_proof_bundle row) (vt_submitted_at row) (vt_started_at row) (vt_completed_at row)
    (vt_failure_message row) (vt_terminal_reason row) None None None (vt_attempt_count row)
    (vt_next_attempt_at row) (vt_invoice_admission_phase row) (vt_entitlement_to_publish row)
    (vt_entitlement_publication_claim_token row) (vt_deletion_job_id row) (vt_evaluator_mode row)
    (vt_evaluator_snapshot row) (vt_evaluator_revision row).

(** The rows a claim owns. *)
Definition owned_row (worker_id : string) (token : Uuid) (row : VerificationTaskRow) : bool :=
  graph_mode row && (vt_claimed_by row == Some worker_id) && (vt_claim_token row == Some token).

Definition pg_release_claimed_graph_task (db : LocksDb) (id : TaskId) (worker_id : string)
    (claim_token : Uuid) : result ApplicationError bool * LocksDb :=
  match ld_tasks db !! id with
  | Some row =>
      if owned_row worker_id claim_token row
      then transaction db (db' ← write_task db id (row_released row); Ok (Ok true, db'))
      else (Ok false, db)
  | None => (Ok false, db)
  end.

(** * Publication *)

Definition live_publication_row (db : LocksDb) (id : TaskId) (worker_id : string) (token : Uuid)
    (expected_revision : Z) (publication_token : Uuid) (now : OffsetDateTime)
    (row : VerificationTaskRow) : bool :=
  graph_mode row && (vt_status row == "publishing_entitlement")
  && (vt_claimed_by row == Some worker_id) && (vt_claim_token row == Some token)
  && is_some_and (λ e, now <? e) (vt_claim_expires_at row)
  && (vt_evaluator_revision row =? expected_revision)
  && (vt_entitlement_publication_claim_token row == Some publication_token)
  && not_deleted db id row.

(** Whether the guard for the external effect is granted, once its advisory lock is held. *)
Definition pg_acquire_graph_publication_action (db : LocksDb) (id : TaskId) (worker_id : string)
    (claim_token : Uuid) (expected_revision : Z) (publication_token : Uuid) (now : OffsetDateTime) :
    result ApplicationError bool :=
  match i64_of expected_revision, ld_tasks db !! id with
  | Some expected_revision, Some row =>
      if negb (graph_mode row) then Ok false
      else
        _ ← row_to_task id row;
        Ok (live_publication_row db id worker_id claim_token expected_revision publication_token now row)
  | _, _ => Ok false
  end.

Definition row_completed (row : VerificationTaskRow) (now : OffsetDateTime) : VerificationTaskRow :=
  MkVerificationTaskRow (vt_creator row) (vt_bundle_id row) "completed"
    (vt_submitted_proof_bundle row) (vt_submitted_at row) (vt_started_at row) (Some now)
    (vt_failure_message row) (vt_terminal_reason row) None None None (vt_attempt_count row) None
    (vt_invoice_admission_phase row) (vt_entitlement_to_publish row) None (vt_deletion_job_id row)
    (vt_evaluator_mode row) (vt_evaluator_snapshot row) (vt_evaluator_revision row).

(** Also what the guard's own [complete] does. *)
Definition pg_complete_claimed_graph_publication (db : LocksDb) (id : TaskId) (worker_id : string)
    (claim_token : Uuid) (expected_revision : Z) (publication_token : Uuid) (now : OffsetDateTime) :
    result ApplicationError (option GraphTaskRecord) * LocksDb :=
  match i64_of expected_revision, ld_tasks db !! id with
  | Some expected_revision, Some row =>
      if live_publication_row db id worker_id claim_token expected_revision publication_token now row
         && is_some (vt_entitlement_to_publish row)
      then
        transaction db
          (let row := row_completed row now in
           db' ← write_task db id row;
           Ok (t ← row_to_task id row; Ok (Some t), db'))
      else (Ok None, db)
  | _, _ => (Ok None, db)
  end.
End adapter.
