(* ===== verification/GraphDbSim.v ===== *)
(** The Postgres repository of graph tasks against the in-memory one.

    First the rows and the tasks they stand for: what the decoder accepts, and that every
    write of the adapter keeps a row readable and inside the table's check.  Then a relation
    between the tables and the fence, and what the two adapters do from related states. *)

From S2P Require Import Prelude RustStr Externals Ids Json LockPolicy Wire Errors Lifecycle.
From S2P Require Import GraphTask PaymentTask Fence GraphStore FoldedAuth TaskTables GraphDb.

Definition status_text (status : VerificationTaskStatus) : string :=
  match status with
  | Pending => "pending"
  | InProgress => "in_progress"
  | PublishingEntitlement => "publishing_entitlement"
  | Completed => "completed"
  | Failed => "failed"
  | Expired => "expired"
  end.

Lemma TaskStatus_from_database_Ok text status :
  TaskStatus_from_database text = Ok status ↔ text = status_text status.
Proof.
  unfold TaskStatus_from_database. split.
  - intros Hs. repeat (split_match in Hs; [props; injection Hs as <-; done|]). done.
  - intros ->. by destruct status.
Qed.

(** The state check, status by status. *)
Definition status_check (status : VerificationTaskStatus) (row : VerificationTaskRow) : bool :=
  let fresh := is_none (vt_failure_message row) && is_none (vt_terminal_reason row) in
  match status with
  | Pending =>
      is_none (vt_started_at row) && is_none (vt_completed_at row) && fresh
      && is_none (vt_entitlement_to_publish row)
      && (row_unclaimed row
          || ((vt_invoice_admission_phase row == "invoice_pending") && row_claimed row))
  | InProgress =>
      is_some (vt_started_at row) && is_none (vt_completed_at row) && fresh
      && is_none (vt_entitlement_to_publish row) && (row_unclaimed row || row_claimed row)
  | PublishingEntitlement =>
      is_some (vt_started_at row) && is_none (vt_completed_at row) && fresh
      && is_some (vt_entitlement_to_publish row) && (row_unclaimed row || row_claimed row)
  | Completed =>
      is_some (vt_started_at row) && is_some (vt_completed_at row) && fresh
      && is_some (vt_entitlement_to_publish row) && row_unclaimed row
  | Failed =>
      is_some (vt_started_at row) && is_some (vt_completed_at row)
      && ((not_blank (vt_failure_message row) && is_none (vt_terminal_reason row))
          || (is_none (vt_failure_message row)
              && one_of ["verification_unavailable_by_deadline"; "invalid_verifier_response";
                         "verification_conflict"] (vt_terminal_reason row)))
      && is_none (vt_entitlement_to_publish row) && row_unclaimed row
  | Expired =>
      is_some (vt_started_at row) && is_some (vt_completed_at row)
      && is_none (vt_failure_message row)
      && one_of ["payment_request_rejected"; "payment_request_canceled"; "proposal_expired";
                 "payment_deadline_expired"; "content_lock_deleted";
                 "graph_condition_not_observed_by_deadline"] (vt_terminal_reason row)
      && is_none (vt_entitlement_to_publish row) && row_unclaimed row
  end.

Lemma state_check_status row status :
  vt_status row = status_text status → state_check row = status_check status row.
Proof.
  intros Hs. unfold state_check. rewrite Hs. destruct status; cbn -[eqb];
    by rewrite <- ?andb_assoc.
Qed.

Lemma state_check_by status row :
  vt_status row = status_text status → status_check status row = true → state_check row = true.
Proof. intros Hs Hc. by rewrite (state_check_status _ _ Hs). Qed.

(** The check of a row whose status is known. *)
Ltac check_row :=
  first [ apply (state_check_by Pending); [done|] | apply (state_check_by InProgress); [done|]
        | apply (state_check_by PublishingEntitlement); [done|]
        | apply (state_check_by Completed); [done|] | apply (state_check_by Failed); [done|]
        | apply (state_check_by Expired); [done|] ];
  unfold status_check, row_unclaimed, row_claimed; cbn.

(** Use what is known of columns. *)
Ltac columns :=
  repeat match goal with
  | Hy : is_Some ?o |- _ => destruct Hy as [? ->]
  | Hy : _ = None |- _ => rewrite Hy; clear Hy
  | Hy : _ = GraphSatisfied |- _ => rewrite Hy; clear Hy
  end.

Section rows.
  Context `{Base32, TimeCrate, UuidCrate, PgTime}.

(** The columns and the task agree. *)
Record row_decodes (id : TaskId) (row : VerificationTaskRow) (t : GraphTaskRecord) : Prop := {
  rd_mode : vt_evaluator_mode row = Some "graph";
  rd_snapshot : vt_evaluator_snapshot row = Some (GraphColumn (gt_snapshot t));
  rd_id : TaskId_from_str (TaskId_display id) = Ok (gt_task_id t);
  rd_valid : GraphTaskSnapshotV1_validate (gt_snapshot t) = Ok ();
  rd_identity : identity_diverges row (gt_snapshot t) = false;
  rd_revision : vt_evaluator_revision row = gt_evaluator_revision t;
  rd_counts : 0 ≤ gt_evaluator_revision t;
  rd_payload : decode_entitlement (gt_snapshot t) (vt_entitlement_to_publish row)
               = Ok (gt_entitlement_to_publish t);
  rd_status : vt_status row = status_text (gt_status t);
  rd_token : vt_entitlement_publication_claim_token row = gt_entitlement_publication_token t;
  rd_completed : vt_completed_at row = gt_completed_at t;
  rd_lifecycle : ∃ reason, decode_terminal_reason (vt_terminal_reason row) = Ok reason
    ∧ lifecycle_matches (gt_status t) (gs_root (gt_snapshot t)) reason
        (is_some (gt_entitlement_to_publish t)) (is_some (gt_entitlement_publication_token t))
        (is_some (gt_completed_at t)) = true;
}.

Lemma row_to_task_Ok id row t : row_to_task id row = Ok t ↔ row_decodes id row t.
Proof.
  unfold row_to_task. split.
  - intros Hr. peel. props. subst.
    match goal with Hf : GraphTaskSnapshot_from_json ?c = Ok _ |- _ =>
      destruct c as [s|]; [|done]; cbn in Hf; apply bind_Ok in Hf as ([] & Hv & [= ->]) end.
    match goal with Hs : TaskStatus_from_database _ = Ok _ |- _ =>
      apply TaskStatus_from_database_Ok in Hs end.
    split; cbn; try done. by eexists.
  - intros [Hm Hs Hi Hv Hd Hr Hc Hp Hst Ht Hco (reason & Hre & Hl)]. rewrite Hm, Hs. cbn.
    rewrite Hi. cbn. rewrite Hv. cbn. rewrite Hd. cbn. rewrite Hr.
    assert (gt_evaluator_revision t <? 0 = false) as -> by lia. cbn. rewrite Hp. cbn.
    rewrite (proj2 (TaskStatus_from_database_Ok _ _) Hst). cbn. rewrite Hre. cbn.
    rewrite Ht, Hco, Hl. cbn. by destruct t.
Qed.

(** The columns of the identity are those of the snapshot. *)
Lemma identity_kept row row' s s' :
  vt_creator row' = vt_creator row → vt_bundle_id row' = vt_bundle_id row →
  vt_submitted_at row' = vt_submitted_at row →
  vt_submitted_proof_bundle row' = vt_submitted_proof_bundle row →
  ensure_same_binding s s' = Ok () → identity_diverges row s = false →
  identity_diverges row' s' = false.
Proof.
  intros Hc Hb Ha Hp (Ec & Eb & Er & _ & _ & Ea & _)%ensure_same_binding_Ok.
  unfold identity_diverges, submitted_field. by rewrite Hc, Hb, Ha, Hp, Ec, Eb, Er, Ea.
Qed.

Lemma same_binding_refl s : ensure_same_binding s s = Ok ().
Proof. by apply ensure_same_binding_Ok. Qed.

(** The publication of a snapshot is read back from its row. *)
Lemma publication_decodes s now :
  GraphTaskSnapshotV1_validate s = Ok () →
  decode_entitlement s (Some (EntitlementV2 (graph_publication s now)))
  = Ok (Some (graph_publication s now)).
Proof.
  intros Hv. unfold decode_entitlement. rewrite (graph_publication_valid s now Hv). cbn.
  by rewrite !eqb_same.
Qed.

(** * Writes *)

(** A claimed evaluation, as its row shows it. *)
Record evaluating (row : VerificationTaskRow) : Prop := {
  ev_status : vt_status row = status_text InProgress;
  ev_check : state_check row = true;
  ev_claimed : row_claimed row = true;
}.

Lemma evaluating_columns row :
  evaluating row → is_Some (vt_started_at row) ∧ vt_failure_message row = None
  ∧ vt_terminal_reason row = None ∧ vt_entitlement_to_publish row = None
  ∧ vt_completed_at row = None ∧ is_Some (vt_claimed_by row) ∧ is_Some (vt_claim_token row)
  ∧ is_Some (vt_claim_expires_at row).
Proof.
  intros [Hs Hc Hcl]. rewrite (state_check_status _ _ Hs) in Hc. unfold status_check in Hc.
  unfold row_claimed in Hcl. by props.
Qed.

(** What a replacement makes of the task. *)
Definition evaluated_task (t : GraphTaskRecord) (s : GraphTaskSnapshotV1) (now : OffsetDateTime)
    (publication_token : Uuid) : GraphTaskRecord :=
  let revision := gt_evaluator_revision t + 1 in
  match gs_root s with
  | GraphPending => gt_with_snapshot t s revision InProgress None None None
  | GraphSatisfied =>
      gt_with_snapshot t s revision PublishingEntitlement (Some (graph_publication s now))
        (Some publication_token) None
  | root =>
      gt_with_snapshot t s revision (default Failed (GraphRootState_terminal_status root)) None None
        (Some now)
  end.

(** Whether the task's holder keeps its claim. *)
Definition keeps_claim (s : GraphTaskSnapshotV1) : bool :=
  (gs_root s == GraphPending) || (gs_root s == GraphSatisfied).

Lemma target_row_ok id row t s now token :
  row_decodes id row t → gt_status t = InProgress → evaluating row →
  GraphTaskSnapshotV1_validate s = Ok () → ensure_same_binding (gt_snapshot t) s = Ok () →
  ∃ row', target_row row s now token = Ok row' ∧ state_check row' = true
    ∧ row_decodes id row' (evaluated_task t s now token)
    ∧ vt_deletion_job_id row' = vt_deletion_job_id row ∧ row_handle row' = row_handle row
    ∧ vt_claimed_by row' = (if keeps_claim s then vt_claimed_by row else None)
    ∧ vt_claim_token row' = (if keeps_claim s then vt_claim_token row else None)
    ∧ vt_claim_expires_at row' = (if keeps_claim s then vt_claim_expires_at row else None)
    ∧ vt_next_attempt_at row' = None.
Proof.
  intros [Hm Hs Hi Hv Hd Hr Hc Hp Hst Ht Hco (reason & Hre & Hl)] Hin Hev Hvs Hb.
  apply evaluating_columns in Hev as ([st Hst'] & Hf & Htr & Hpa & Hcm & [by_ Hby] & [tok Htok] & [ex Hex]).
  assert (∀ row' : VerificationTaskRow, vt_creator row' = vt_creator row →
    vt_bundle_id row' = vt_bundle_id row → vt_submitted_at row' = vt_submitted_at row →
    vt_submitted_proof_bundle row' = vt_submitted_proof_bundle row →
    identity_diverges row' s = false) as Hid.
  { intros row' ? ? ? ?. by eapply identity_kept. }
  pose proof (publication_decodes s now Hvs) as Hpub.
  unfold target_row, evaluated_task, keeps_claim. destruct (gs_root s) as [| |[]|] eqn:Hroot;
    rewrite ?(graph_publication_valid s now Hvs);
    (eexists; split_and!; [reflexivity| | |reflexivity..]).
  all: try (check_row; rewrite ?Hst', ?Hby, ?Htok, ?Hex; done).
  all: split; cbn; try done; try (rewrite Hr; lia); try lia; try (by apply Hid).
  all: try rewrite Hroot; by eexists.
Qed.

Lemma in_progress_unpublished id row t :
  row_decodes id row t → gt_status t = InProgress → unpublished t ∧ gt_completed_at t = None.
Proof.
  intros [_ _ _ _ _ _ _ _ _ _ _ (reason & _ & Hl)] Hin. rewrite Hin in Hl. cbn in Hl. by props.
Qed.

Lemma retried_row_ok id row t s next :
  row_decodes id row t → gt_status t = InProgress → evaluating row →
  GraphTaskSnapshotV1_validate s = Ok () → ensure_same_binding (gt_snapshot t) s = Ok () →
  gs_root s = GraphPending →
  state_check (row_retried row s next) = true
  ∧ row_decodes id (row_retried row s next)
      (gt_with_snapshot t s (gt_evaluator_revision t + 1) Pending (gt_entitlement_to_publish t)
         (gt_entitlement_publication_token t) (gt_completed_at t)).
Proof.
  intros Hdec Hin Hev Hvs Hb Hroot.
  destruct (in_progress_unpublished _ _ _ Hdec Hin) as [[Hnp Hnt] Hnc].
  destruct Hdec as [Hm Hs Hi Hv Hd Hr Hc Hp Hst Ht Hco _].
  apply evaluating_columns in Hev as (_ & Hf & Htr & Hpa & Hcm & _).
  split; [check_row; by rewrite Hf, Htr, Hpa, Hcm|].
  split; cbn; rewrite ?Hnp, ?Hnt, ?Hnc, ?Hpa, ?Htr, ?Hr, ?Hroot; try done; try lia.
  - by eapply identity_kept.
  - by rewrite Ht.
  - by exists None.
Qed.

(** A task that a claim may take. *)
Definition claimable_task (t : GraphTaskRecord) : Prop :=
  (gt_status t = Pending ∨ gt_status t = InProgress) ∧ gs_root (gt_snapshot t) = GraphPending
  ∨ gt_status t = PublishingEntitlement.

Definition claimed_task (t : GraphTaskRecord) : GraphTaskRecord :=
  if gt_status t != PublishingEntitlement then gt_with_status t InProgress else t.

Lemma claimed_row_ok id row t worker token expires now :
  row_decodes id row t → state_check row = true → claimable_task t →
  state_check (row_claimed_by row worker token expires now) = true
  ∧ row_decodes id (row_claimed_by row worker token expires now) (claimed_task t).
Proof.
  intros [Hm Hs Hi Hv Hd Hr Hc Hp Hst Ht Hco (reason & Hre & Hl)] Hck Hcl.
  rewrite (state_check_status _ _ Hst) in Hck.
  assert (gt_status t = PublishingEntitlement ∨ gt_status t = Pending ∨ gt_status t = InProgress)
    as Hcases by (destruct Hcl as [[[?|?] _]|?]; auto).
  unfold claimed_task. destruct Hcases as [Hx|Hx].
  - rewrite Hx in *. cbn in Hck. unfold row_claimed_by. rewrite Hst. cbn [status_text].
    rewrite !eqb_same. props.
    split; [check_row; by columns|].
    split; cbn; rewrite ?Hx; try done. by exists reason.
  - assert (gt_status t != PublishingEntitlement = true) as -> by (by destruct Hx as [->| ->]).
    assert ((vt_status row == "publishing_entitlement") = false) as Hne
      by (rewrite Hst; by destruct Hx as [->| ->]).
    assert (vt_completed_at row = None ∧ vt_failure_message row = None ∧ vt_terminal_reason row = None
            ∧ vt_entitlement_to_publish row = None) as (Hcm & Hf & Htr & Hpa).
    { destruct Hx as [Hx|Hx]; rewrite Hx in Hck; cbn in Hck; by props. }
    assert (gt_entitlement_publication_token t = None) as Hnt.
    { destruct Hx as [Hx|Hx]; rewrite Hx in Hl; cbn in Hl; by props. }
    rewrite Hpa in Hp. injection Hp as Hp. rewrite Hcm in Hco.
    unfold row_claimed_by. rewrite Hne.
    split; [check_row; by rewrite Hcm, Hf, Htr, Hpa|].
    split; cbn; try done; rewrite <- ?Hp, ?Hpa, ?Htr, <- ?Hco, ?Hnt; try done. by exists None.
Qed.

Lemma released_row_ok id row t :
  row_decodes id row t → state_check row = true → gt_status t = PublishingEntitlement →
  state_check (row_released row) = true ∧ row_decodes id (row_released row) t.
Proof.
  intros [Hm Hs Hi Hv Hd Hr Hc Hp Hst Ht Hco (reason & Hre & Hl)] Hck Hx.
  rewrite (state_check_status _ _ Hst), Hx in Hck. cbn in Hck. rewrite Hx in Hst.
  unfold row_released. rewrite Hst. cbn. props.
  split; [check_row; by columns|].
  split; cbn; rewrite ?Hx; try done. exists reason. by rewrite <- Hx.
Qed.

(** The row of an evaluation cannot go back to [pending]: it keeps [started_at]. *)
Lemma released_evaluation_violates id row t :
  row_decodes id row t → state_check row = true → gt_status t = InProgress →
  gs_root (gt_snapshot t) = GraphPending → state_check (row_released row) = false.
Proof.
  intros [Hm Hs Hi Hv Hd Hr Hc Hp Hst Ht Hco _] Hck Hx Hroot.
  rewrite (state_check_status _ _ Hst), Hx in Hck. cbn in Hck. rewrite Hx in Hst.
  unfold row_released, root_tag. rewrite Hst, Hs, Hroot. cbn -[state_check].
  rewrite (state_check_status _ Pending) by done. cbn. props.
  match goal with Hy : is_Some (vt_started_at row) |- _ => destruct Hy as [? ->] end. done.
Qed.

Lemma completed_row_ok id row t now :
  row_decodes id row t → state_check row = true → gt_status t = PublishingEntitlement →
  state_check (row_completed row now) = true
  ∧ row_decodes id (row_completed row now)
      (gt_with_snapshot t (gt_snapshot t) (gt_evaluator_revision t) Completed
         (gt_entitlement_to_publish t) None (Some now)).
Proof.
  intros [Hm Hs Hi Hv Hd Hr Hc Hp Hst Ht Hco (reason & Hre & Hl)] Hck Hx.
  rewrite (state_check_status _ _ Hst), Hx in Hck. cbn in Hck. rewrite Hx in Hl. cbn in Hl. props.
  split; [check_row; by columns|].
  split; cbn; try done. exists reason. split; [done|].
  by columns.
Qed.

Lemma whole_microseconds t : is_multiple_of (nanosecond t) 1000 = true → t mod 1000 = 0.
Proof.
  unfold is_multiple_of, nanosecond. rewrite Z.eqb_eq, Z.mod_mod_divide; [done|].
  by exists 1000000.
Qed.

(** An admitted task is read back from its row, whose timestamps have microseconds. *)
Lemma new_row_ok `{!PgTimeLaws} t :
  validate_new_task t = Ok () → TaskId_from_str (TaskId_display (gt_task_id t)) = Ok (gt_task_id t) →
  state_check (new_graph_row (gt_snapshot t)) = true
  ∧ row_decodes (gt_task_id t) (new_graph_row (gt_snapshot t)) t.
Proof.
  intros Hnew Hid. apply validate_new_task_Ok in Hnew as (Hst & [Hp Ht] & Hc & Hv & Hroot & Hrev).
  split; [check_row; done|]. split; cbn; rewrite ?Hst, ?Hp, ?Ht, ?Hc, ?Hrev, ?Hroot; try done.
  - unfold identity_diverges. cbn. rewrite pg_timestamp_exact; [by rewrite !eqb_same, Z.eqb_refl|].
    apply graph_validate_Ok in Hv as [Hb _]. unfold validate_graph_binding in Hb. peel. props.
    by apply whole_microseconds.
  - by exists None.
Qed.
End rows.

Section sim.
  Context `{Base32, TimeCrate, UuidCrate, PgTime}.

(** * The relation *)

(** The row of a stored graph task. *)
Record stands_for (db : LocksDb) (f : Fence) (row : VerificationTaskRow) (st : StoredGraphTask) :
    Prop := {
  sf_task : row_decodes (sg_id st) row (sg_task st);
  sf_check : state_check row = true;
  sf_by : vt_claimed_by row = sg_claimed_by st;
  sf_token : vt_claim_token row = sg_claim_token st;
  sf_expires : vt_claim_expires_at row = sg_claim_expires_at st;
  sf_next : vt_next_attempt_at row = sg_next_attempt_at st;
  sf_taken : gt_status (sg_task st) = InProgress → sg_next_attempt_at st = None;
  sf_deleted : not_deleted db (sg_id st) row = undeleted f (sg_id st);
}.

(** The tables and the fence: the same tasks, deletions and pending attempts. *)
Record graph_sim (db : LocksDb) (f : Fence) : Prop := {
  gm_ok : graph_store_ok f;
  gm_rows st : st ∈ graph_records f →
    ∃ row, ld_tasks db !! sg_id st = Some row ∧ stands_for db f row st;
  gm_graph id row : ld_tasks db !! id = Some row → graph_mode row = true →
    id ∈ sg_id <$> graph_records f;
  gm_tasks id : is_Some (fence_records f !! id) ↔ is_Some (ld_tasks db !! id);
  gm_handles id r row : fence_records f !! id = Some r → ld_tasks db !! id = Some row →
    row_handle row = handle_texts (fence_record_handle r);
  gm_unique id id' row row' : ld_tasks db !! id = Some row → ld_tasks db !! id' = Some row' →
    row_handle row' = row_handle row → id' = id;
  gm_snapshots id : id ∈ ld_task_snapshots db → is_Some (ld_tasks db !! id);
  gm_cutoffs creator lock_id : (creator, lock_id) ∈ deletion_cutoffs f ↔
    (CreatorPubky_display creator, LockId_display lock_id) ∈ ld_deletion_jobs db
    ∨ (CreatorPubky_display creator, LockId_display lock_id) ∈ ld_force_receipts db;
  gm_pending handle : handle ∈ folded_auth_reservations f ↔ pending_folded_auth db handle = true;
}.

Lemma handle_texts_inj h h' : handle_texts h = handle_texts h' → h = h'.
Proof. destruct h as [[?] [?]], h' as [[?] [?]]. unfold handle_texts. cbn. by intros [= -> ->]. Qed.

Lemma status_text_eqb s s' : (status_text s == status_text s') = (s == s').
Proof. by destruct s, s'. Qed.

(** ** Searches *)

(** A search for a task by its identifier finds it by its key. *)
Lemma find_by_id db f id (p : StoredGraphTask → bool) :
  graph_sim db f → (∀ st, p st = true → sg_id st = id) →
  (∃ i st row, graph_records f !! i = Some st ∧ sg_id st = id ∧ ld_tasks db !! id = Some row
               ∧ stands_for db f row st
               ∧ find_first p (graph_records f) = if p st then Some (i, st) else None)
  ∨ (∀ row, ld_tasks db !! id = Some row → graph_mode row = false)
    ∧ find_first p (graph_records f) = None.
Proof.
  intros Hsim Hp. destruct (decide (id ∈ sg_id <$> graph_records f)) as [Hin|Hno].
  - left. apply list_elem_of_fmap in Hin as (st & -> & Hin).
    destruct (gm_rows _ _ Hsim st Hin) as (row & Hrow & Hst).
    apply list_elem_of_lookup in Hin as [i Hi]. exists i, st, row. split_and!; try done.
    destruct (p st) eqn:Hpst.
    + apply find_first_unique; [done|done|]. intros j y Hj Hy.
      eapply NoDup_lookup; [apply (gso_ids _ (gm_ok _ _ Hsim))| |];
        rewrite list_lookup_fmap; [by rewrite Hj|]. rewrite Hi. cbn. by rewrite (Hp y Hy).
    + apply find_first_None. intros y Hy. apply not_true_iff_false. intros Hpy.
      rewrite (same_task f st y (gm_ok _ _ Hsim)) in Hpy; [congruence|..]; [|done|by apply Hp].
      by eapply list_elem_of_lookup_2.
  - right. split.
    + intros row Hrow. apply not_true_iff_false. intros Hm. by apply Hno, (gm_graph _ _ Hsim id row).
    + apply find_first_None. intros st Hst. apply not_true_iff_false. intros Hpst. apply Hno.
      rewrite <- (Hp st Hpst). by apply list_elem_of_fmap_2.
Qed.

Lemma graph_mode_of id row t : row_decodes id row t → graph_mode row = true.
Proof. intros []. unfold graph_mode. by apply eqb_true. Qed.

(** The two adapters agree on who holds a live claim. *)
Lemma live_row_agrees db f row st worker token revision now :
  stands_for db f row st →
  live_row db (sg_id st) worker token revision now row
  = live_evaluation f (sg_id st) worker token revision now st.
Proof.
  intros [Ht _ Hb Hto He _ _ Hd]. unfold live_row, live_evaluation.
  rewrite (graph_mode_of _ _ _ Ht), eqb_same, Hb, Hto, He, Hd, (rd_revision _ _ _ Ht).
  change "in_progress" with (status_text InProgress).
  rewrite (rd_status _ _ _ Ht), status_text_eqb. cbn.
  destruct (gt_status _ == InProgress); cbn; [|done].
  by destruct (gt_evaluator_revision _ =? _), (_ == Some worker), (_ == Some token),
    (is_some_and _ _).
Qed.

Lemma publication_row_agrees db f row st worker token revision publication now :
  stored_task_ok f st → stands_for db f row st →
  live_publication_row db (sg_id st) worker token revision publication now row
  = live_publication f (sg_id st) worker token revision publication now st.
Proof.
  intros [_ _ (r & Hr & _ & _ & Hpub)] [Ht _ Hb Hto He _ _ Hd].
  unfold live_publication_row, live_publication.
  rewrite (graph_mode_of _ _ _ Ht), eqb_same, Hb, Hto, He, Hd, (rd_revision _ _ _ Ht), (rd_token _ _ _ Ht).
  change "publishing_entitlement" with (status_text PublishingEntitlement).
  rewrite (rd_status _ _ _ Ht), status_text_eqb. unfold undeleted. rewrite Hr. cbn. rewrite Hpub.
  destruct (gt_status _ == PublishingEntitlement); cbn; [|done].
  destruct (gt_entitlement_publication_token _ == Some publication); cbn;
    by destruct (gt_evaluator_revision _ =? _), (_ == Some worker), (_ == Some token),
      (is_some_and _ _), (is_none _).
Qed.

Lemma evaluating_row db f row st :
  stands_for db f row st → stored_task_ok f st → gt_status (sg_task st) = InProgress → evaluating row.
Proof.
  intros [Ht Hc Hb Hto He _ _ _] [_ Hs _] Hin. unfold status_ok in Hs. rewrite Hin in Hs.
  destruct Hs as (_ & ([? E1] & [? E2] & [? E3]) & _).
  split; [rewrite (rd_status _ _ _ Ht); by rewrite Hin|done|].
  unfold row_claimed. by rewrite Hb, Hto, He, E1, E2, E3.
Qed.

(** ** Writes *)

(** What a write to a task leaves of the fence's record of it. *)
Definition fence_identity (r : TaskFenceRecord) : HandleKey * option Uuid :=
  (fence_record_handle r, fr_deletion_job_id r).

Lemma sim_write db f f' i st st' row' :
  graph_sim db f → graph_store_ok f' → graph_records f !! i = Some st →
  graph_records f' = <[i := st']> (graph_records f) → sg_id st' = sg_id st →
  (∀ id, fence_identity <$> fence_records f' !! id = fence_identity <$> fence_records f !! id) →
  deletion_cutoffs f' = deletion_cutoffs f →
  folded_auth_reservations f' = folded_auth_reservations f →
  (∀ row, ld_tasks db !! sg_id st = Some row → row_handle row' = row_handle row) →
  stands_for (ld_with_tasks db (<[sg_id st := row']> (ld_tasks db))) f' row' st' →
  graph_sim (ld_with_tasks db (<[sg_id st := row']> (ld_tasks db))) f'.
Proof.
  intros Hsim Hok Hi Hrec Hid Hfr Hcut Hres Hh Hst'.
  assert (∀ id, is_Some (fence_records f' !! id) ↔ is_Some (fence_records f !! id)) as Hdom.
  { intros id. by rewrite <- (fmap_is_Some fence_identity), Hfr, fmap_is_Some. }
  assert (graph_records f !! i = Some st → is_Some (ld_tasks db !! sg_id st)) as Hrow.
  { intros Hx. destruct (gm_rows _ _ Hsim st) as (row & Hr & _);
      [by eapply list_elem_of_lookup_2|]. by eexists. }
  specialize (Hrow Hi).
  destruct Hsim as [Hok0 Hrows Hgraph Htasks Hhandles Huniq Hsnaps Hcuts Hpend]. split; cbn; [done|..].
  - intros x Hx. rewrite Hrec in Hx. apply list_elem_of_lookup in Hx as [j Hj].
    destruct (decide (j = i)) as [->|Hne].
    + rewrite list_lookup_insert_eq in Hj by by eapply lookup_lt_Some. injection Hj as <-.
      exists row'. rewrite Hid, lookup_insert_eq. by split.
    + rewrite list_lookup_insert_ne in Hj by done.
      destruct (Hrows x) as (row & Hr & [? ? ? ? ? ? ? Hd]); [by eapply list_elem_of_lookup_2|].
      assert (sg_id x ≠ sg_id st) as Hxid.
      { intros Heq. apply Hne. eapply NoDup_lookup; [apply (gso_ids _ Hok0)| |];
          rewrite list_lookup_fmap; [by rewrite Hj|]. rewrite Hi. cbn. by rewrite Heq. }
      exists row. rewrite lookup_insert_ne by done. split; [done|]. split; try done.
      transitivity (not_deleted db (sg_id x) row); [done|]. rewrite Hd. unfold undeleted.
      specialize (Hfr (sg_id x)).
      destruct (fence_records f' !! sg_id x) as [r'|], (fence_records f !! sg_id x) as [r|]; try done.
      injection Hfr as _ _ Hj'. cbn. by rewrite Hj'.
  - intros id row Hl Hm. rewrite Hrec, list_fmap_insert.
    destruct (decide (id = sg_id st)) as [->|Hne].
    + rewrite Hid. apply list_elem_of_lookup. exists i. apply list_lookup_insert_eq.
      rewrite length_fmap. by eapply lookup_lt_Some.
    + rewrite lookup_insert_ne in Hl by done. rewrite Hid, list_insert_id; [by eapply Hgraph|].
      by rewrite list_lookup_fmap, Hi.
  - intros id. rewrite Hdom, Htasks. destruct (decide (id = sg_id st)) as [->|Hne].
    + rewrite lookup_insert_eq. split; [by eexists|done].
    + by rewrite lookup_insert_ne.
  - intros id r row Hr Hl. specialize (Hfr id). rewrite Hr in Hfr.
    destruct (fence_records f !! id) as [r0|] eqn:Hr0; [|done]. injection Hfr as Hrc Hrb _.
    assert (fence_record_handle r = fence_record_handle r0) as -> by (by unfold fence_record_handle; rewrite Hrc, Hrb).
    destruct (decide (id = sg_id st)) as [->|Hne].
    + rewrite lookup_insert_eq in Hl. injection Hl as <-. destruct Hrow as [row0 Hrow].
      rewrite (Hh row0 Hrow). by eapply Hhandles.
    + rewrite lookup_insert_ne in Hl by done. by eapply Hhandles.
  - destruct Hrow as [row0 Hrow]. specialize (Hh row0 Hrow).
    assert (∀ id row, <[sg_id st := row']> (ld_tasks db) !! id = Some row →
      ∃ row1, ld_tasks db !! id = Some row1 ∧ row_handle row1 = row_handle row) as Hsame.
    { intros id row [[<- <-]|[Hne Hl]]%lookup_insert_Some; [by exists row0|by exists row]. }
    intros id id' row row2 (row1 & Hl1 & Hh1)%Hsame (row3 & Hl3 & Hh3)%Hsame Heq.
    apply (Huniq id id' row1 row3 Hl1 Hl3). congruence.
  - intros id Hin. destruct (decide (id = sg_id st)) as [->|Hne]; [rewrite lookup_insert_eq; by eexists|].
    rewrite lookup_insert_ne by done. by apply Hsnaps.
  - by rewrite Hcut.
  - by rewrite Hres.
Qed.

(** * The operations *)

Lemma pg_check_agrees current next always now :
  always || (gs_root current == GraphPending) = true →
  pg_check_snapshot current next always now = check_replacement current next now.
Proof.
  intros Ha. unfold pg_check_snapshot, check_replacement.
  assert (always || (current != next) || (gs_root current == GraphPending) = true) as ->; [|done].
  by destruct always, (current != next), (gs_root current == GraphPending).
Qed.

Lemma write_task_Ok db id row :
  state_check row = true → write_task db id row = Ok (ld_with_tasks db (<[id := row]> (ld_tasks db))).
Proof. intros Hc. unfold write_task. by rewrite Hc. Qed.

Lemma i64_of_small v : v < I64_MAX → i64_of v = Some v.
Proof. intros Hv. unfold i64_of. by assert (v <=? I64_MAX = true) as -> by lia. Qed.

Lemma revision_fits max v : v < I64_MAX → I64_MAX ≤ max → checked_add max v 1 = Some (v + 1).
Proof. intros Hv Hm. apply checked_add_Some. split; [done|lia]. Qed.

Lemma update_status_identity f id i st status token x :
  fence_identity <$> fence_records (update_status f id i st status token) !! x
  = fence_identity <$> fence_records f !! x.
Proof.
  cbn. destruct (decide (x = id)) as [->|Hne].
  - rewrite lookup_alter_eq. by destruct (fence_records f !! id).
  - by rewrite lookup_alter_ne.
Qed.

(** What the in-memory adapter keeps of a task whose evaluation is persisted. *)
Definition evaluated_stored (st : StoredGraphTask) (s : GraphTaskSnapshotV1) (now : OffsetDateTime)
    (publication_token : Uuid) : StoredGraphTask :=
  let t := evaluated_task (sg_task st) s now publication_token in
  if keeps_claim s then MkStoredGraphTask t (sg_claimed_by st) (sg_claim_token st) (sg_claim_expires_at st)
         (sg_next_attempt_at st)
  else MkStoredGraphTask t None None None (sg_next_attempt_at st).

(** The write of a live evaluation by the in-memory adapter. *)
Lemma persist_live_Ok f id worker token revision s now publication i st :
  graph_store_ok f → graph_records f !! i = Some st →
  find_first (live_evaluation f id worker token revision now) (graph_records f) = Some (i, st) →
  replacement_ok (gt_snapshot (sg_task st)) s now →
  (∀ r, gs_root s = GraphExpired r → gs_deadline_at s ≤ now) → revision < I64_MAX →
  ∃ f', persist_claimed_graph_snapshot f id worker token revision s now publication
          = (Ok (Some (evaluated_task (sg_task st) s now publication)), f')
    ∧ graph_records f' = <[i := evaluated_stored st s now publication]> (graph_records f)
    ∧ (∀ x, fence_identity <$> fence_records f' !! x = fence_identity <$> fence_records f !! x)
    ∧ deletion_cutoffs f' = deletion_cutoffs f
    ∧ folded_auth_reservations f' = folded_auth_reservations f.
Proof.
  intros Hok Hi Hfind Hrep Hexp Hrev. unfold persist_claimed_graph_snapshot. rewrite Hfind.
  apply find_first_Some in Hfind as [_ [<- Hst Hr _ _ _ _]%live_evaluation_true].
  pose proof (stored_task_of f i st Hok Hi) as [_ Hs _].
  unfold status_ok in Hs. rewrite Hst in Hs. destruct Hs as (_ & _ & [Hnp Hnt] & Hnc).
  rewrite (proj2 (persist_checks_Ok _ _ _ _ (revision + 1))).
  2: { split_and!; [done|done|done|]. unfold U64_MAX, I64_MAX in *. lia. }
  pose proof Hrep as [Hv _ _ _]. rewrite (graph_publication_valid s now Hv).
  unfold evaluated_stored, evaluated_task, keeps_claim. rewrite Hr.
  destruct (gs_root s) as [| |[]|] eqn:Hroot; eexists;
    rewrite ?Hst, ?Hnp, ?Hnt, ?Hnc; (split_and!; [reflexivity|reflexivity| |done|done]);
    intros x; try done; apply update_status_identity.
Qed.

Lemma evaluated_stands db f f' row row' st s now token :
  stands_for db f row st → stored_task_ok f st → gt_status (sg_task st) = InProgress →
  GraphTaskSnapshotV1_validate s = Ok () → ensure_same_binding (gt_snapshot (sg_task st)) s = Ok () →
  (∀ x, fence_identity <$> fence_records f' !! x = fence_identity <$> fence_records f !! x) →
  target_row row s now token = Ok row' →
  state_check row' = true ∧ row_handle row' = row_handle row
  ∧ sg_id (evaluated_stored st s now token) = sg_id st
  ∧ sg_task (evaluated_stored st s now token) = evaluated_task (sg_task st) s now token
  ∧ stands_for (ld_with_tasks db (<[sg_id st := row']> (ld_tasks db))) f' row'
      (evaluated_stored st s now token).
Proof.
  intros Hst Hsok Hin Hv Hb Hfr Ht. pose proof (evaluating_row _ _ _ _ Hst Hsok Hin) as Hev.
  destruct Hst as [Hdec Hck Hby Hto Hex Hnx Htk Hdel].
  destruct (target_row_ok (sg_id st) row (sg_task st) s now token)
    as (row2 & Ht' & Hck' & Hdec' & Hd & Hh & Hb2 & Ht2 & He2 & Hn2); [done..|].
  rewrite Ht in Ht'. injection Ht' as <-.
  assert (sg_id (evaluated_stored st s now token) = sg_id st) as Hid.
  { unfold evaluated_stored, evaluated_task, keeps_claim. by destruct (gs_root s) as [| |[]|]. }
  split_and!; [done|done|done|unfold evaluated_stored; by destruct (keeps_claim s)|].
  specialize (Htk Hin).
  split; rewrite ?Hid; [| |unfold evaluated_stored; destruct (keeps_claim s); cbn; congruence..| | |].
  - unfold evaluated_stored. by destruct (keeps_claim s).
  - done.
  - unfold evaluated_stored. destruct (keeps_claim s); cbn; congruence.
  - intros _. unfold evaluated_stored. by destruct (keeps_claim s).
  - transitivity (not_deleted db (sg_id st) row); [unfold not_deleted; cbn; by rewrite Hd|].
    rewrite Hdel. unfold undeleted. specialize (Hfr (sg_id st)).
    destruct (fence_records f' !! sg_id st) as [r'|], (fence_records f !! sg_id st) as [r|]; try done.
    injection Hfr as _ _ Hj. cbn. by rewrite Hj.
Qed.

(** Two answers agree, and so do the states they leave. *)
Definition agree {A} (pg : result ApplicationError A * LocksDb) (mem : result ApplicationError A * Fence) :
    Prop :=
  pg.1 = mem.1 ∧ graph_sim pg.2 mem.2.

(** Both adapters find the evaluation a live claim owns, or neither does. *)
Lemma live_cases db f id worker token revision now :
  graph_sim db f →
  (∃ i st row, graph_records f !! i = Some st ∧ sg_id st = id ∧ ld_tasks db !! id = Some row
     ∧ stands_for db f row st ∧ stored_task_ok f st ∧ gt_status (sg_task st) = InProgress
     ∧ gs_root (gt_snapshot (sg_task st)) = GraphPending
     ∧ live_row db id worker token revision now row = true
     ∧ find_first (live_evaluation f id worker token revision now) (graph_records f) = Some (i, st))
  ∨ find_first (live_evaluation f id worker token revision now) (graph_records f) = None
    ∧ (∀ row, ld_tasks db !! id = Some row → live_row db id worker token revision now row = false).
Proof.
  intros Hsim.
  destruct (find_by_id db f id (live_evaluation f id worker token revision now) Hsim)
    as [(i & st & row & Hi & <- & Hrow & Hst & Hfind)|[Hno Hfind]].
  { by intros st' [? _ _ _ _ _ _]%live_evaluation_true. }
  - pose proof (live_row_agrees db f row st worker token revision now Hst) as Hl.
    destruct (live_evaluation _ _ _ _ _ _ _) eqn:Hlive.
    + left. pose proof (stored_task_of f i st (gm_ok _ _ Hsim) Hi) as Hsok.
      apply live_evaluation_true in Hlive as [_ Hin _ _ _ _ _].
      pose proof (sto_status _ _ Hsok) as Hs. unfold status_ok in Hs. rewrite Hin in Hs.
      exists i, st, row. destruct Hs as [Hroot _]. by split_and!.
    + right. split; [done|]. intros row2 Hrow2. congruence.
  - right. split; [done|]. intros row Hrow. unfold live_row. by rewrite (Hno row Hrow).
Qed.

Lemma row_to_task_of db f row st :
  stands_for db f row st → row_to_task (sg_id st) row = Ok (sg_task st).
Proof. intros Hst. apply row_to_task_Ok, (sf_task _ _ _ _ Hst). Qed.

Lemma persist_agrees db f id worker token revision s now publication :
  graph_sim db f → revision < I64_MAX →
  agree (pg_persist_claimed_graph_snapshot db id worker token revision s now now now publication)
        (persist_claimed_graph_snapshot f id worker token revision s now publication).
Proof.
  intros Hsim Hrev. unfold pg_persist_claimed_graph_snapshot. rewrite i64_of_small by done.
  destruct (live_cases db f id worker token revision now Hsim)
    as [(i & st & row & Hi & <- & Hrow & Hst & Hsok & Hin & Hroot & Hlive & Hfind)|[Hfind Hno]].
  2: { unfold persist_claimed_graph_snapshot. rewrite Hfind.
       destruct (ld_tasks db !! id) as [row|]; [|done]. by rewrite (Hno row eq_refl). }
  rewrite Hrow, Hlive, (row_to_task_of _ _ _ _ Hst), bind_of_Ok. cbn [negb].
  rewrite pg_check_agrees by (rewrite Hroot; by rewrite eqb_same).
  destruct (check_replacement (gt_snapshot (sg_task st)) s now) as [[]|e] eqn:Hc.
  2: { unfold persist_claimed_graph_snapshot. rewrite Hfind, Hc. by split. }
  rewrite bind_of_Ok. destruct (reject_if _ _) as [[]|e] eqn:Hexp.
  2: { unfold persist_claimed_graph_snapshot. rewrite Hfind, Hc, bind_of_Ok, Hexp. by split. }
  rewrite bind_of_Ok, revision_fits by done. cbn [ok_or]. rewrite bind_of_Ok.
  apply check_replacement_Ok in Hc. pose proof Hc as [Hv _ Hb _].
  destruct (persist_live_Ok f (sg_id st) worker token revision s now publication i st)
    as (f' & Hp & Hrec & Hfr & Hcut & Hres); [apply Hsim|done|done|done| |done|].
  { intros r Hr. rewrite Hr in Hexp. apply reject_if_Ok in Hexp. by props. }
  destruct (target_row_ok (sg_id st) row (sg_task st) s now publication) as (row' & Ht & _);
    [apply Hst|done|by eapply evaluating_row|done|done|].
  destruct (evaluated_stands db f f' row row' st s now publication) as (Hck & Hh & Hid & Htask & Hst');
    [done..|].
  rewrite Ht, bind_of_Ok. cbn [negb]. rewrite write_task_Ok, bind_of_Ok by done.
  pose proof (row_to_task_of _ _ _ _ Hst') as Hdec. rewrite Hid, Htask in Hdec.
  unfold transaction. rewrite Hdec, bind_of_Ok, Hp. split; [done|]. eapply sim_write; try done.
  - pose proof (persist_preserves f (sg_id st) worker token revision s now publication (gm_ok _ _ Hsim)) as Hok.
    by rewrite Hp in Hok.
  - intros row2 Hrow2. congruence.
Qed.

(** A write that leaves the fence's records of tasks alone. *)
Lemma sim_write_graph db f i st st' row row' statuses :
  graph_sim db f → graph_records f !! i = Some st → ld_tasks db !! sg_id st = Some row →
  row_handle row' = row_handle row → vt_deletion_job_id row' = vt_deletion_job_id row →
  stands_for db f row st → sg_id st' = sg_id st →
  row_decodes (sg_id st) row' (sg_task st') → state_check row' = true →
  vt_claimed_by row' = sg_claimed_by st' → vt_claim_token row' = sg_claim_token st' →
  vt_claim_expires_at row' = sg_claim_expires_at st' →
  vt_next_attempt_at row' = sg_next_attempt_at st' →
  (gt_status (sg_task st') = InProgress → sg_next_attempt_at st' = None) →
  graph_store_ok (MkFence (fence_records f) (<[i := st']> (graph_records f)) statuses
                    (deletion_cutoffs f) (folded_auth_reservations f)) →
  graph_sim (ld_with_tasks db (<[sg_id st := row']> (ld_tasks db)))
    (MkFence (fence_records f) (<[i := st']> (graph_records f)) statuses
       (deletion_cutoffs f) (folded_auth_reservations f)).
Proof.
  intros Hsim Hi Hrow Hh Hj Hst Hid Hdec Hck Hb Ht He Hn Hfree Hok.
  eapply sim_write; try done; [congruence|]. split; rewrite ?Hid; try done.
  transitivity (not_deleted db (sg_id st) row); [unfold not_deleted; cbn; by rewrite Hj|].
  apply (sf_deleted _ _ _ _ Hst).
Qed.

(** The delay that takes the clock to the planned time, or to the deadline when that is
    earlier. *)
Definition clamped_request (caller now : OffsetDateTime) (s : GraphTaskSnapshotV1)
    (requested : OffsetDateTime) : OffsetDateTime :=
  caller + ((now + (requested - caller)) `min` gs_deadline_at s - now).

Lemma schedule_agrees `{!PgTimeLaws} db f id worker token caller revision s requested now :
  graph_sim db f → revision < I64_MAX → caller < requested → now < gs_deadline_at s →
  ((now + (requested - caller)) `min` gs_deadline_at s) mod 1000 = 0 →
  let mem := schedule_graph_task_retry f id worker token caller revision s
               (clamped_request caller now s requested) now in
  agree (pg_schedule_graph_task_retry db id worker token caller revision s requested now now now)
        (match mem with Ok (r, f') => (Ok r, f') | Err e => (Err e, f) end).
Proof.
  intros Hsim Hrev Hdelay Hnow Hmicro. cbv zeta. unfold pg_schedule_graph_task_retry.
  rewrite i64_of_small, revision_fits by done. cbn [ok_or]. rewrite bind_of_Ok.
  pose proof (λ t f', schedule_preserves f id worker token caller revision s
    (clamped_request caller now s requested) now t f' (gm_ok _ _ Hsim)) as Hok. revert Hok.
  unfold schedule_graph_task_retry, clamped_request.
  destruct (live_cases db f id worker token revision now Hsim)
    as [(i & st & row & Hi & <- & Hrow & Hst & Hsok & Hin & Hroot & Hlive & Hfind)|[Hfind Hno]].
  2: { rewrite Hfind. destruct (ld_tasks db !! id) as [row|]; [|done]. by rewrite (Hno row eq_refl). }
  rewrite Hrow, Hlive, Hfind, (row_to_task_of _ _ _ _ Hst), bind_of_Ok. cbn [negb].
  set (next := (now + (requested - caller)) `min` gs_deadline_at s) in *.
  replace (now + (caller + (next - now) - caller)) with next by lia.
  assert ((0 <? requested - caller) = true) as -> by lia.
  assert ((next <=? now) || (gs_deadline_at s <? next) = false) as -> by lia.
  rewrite pg_check_agrees by done. cbn [negb reject_if]. rewrite !bind_of_Ok.
  destruct (check_replacement (gt_snapshot (sg_task st)) s now) as [[]|e] eqn:Hc; [|by split].
  rewrite !bind_of_Ok. destruct (gs_root s != GraphPending) eqn:Hpend; [by split|].
  apply check_replacement_Ok in Hc. pose proof Hc as [Hv _ Hb _].
  rewrite negb_false_iff, eqb_true in Hpend.
  destruct (retried_row_ok (sg_id st) row (sg_task st) s next) as [Hck Hdec];
    [apply Hst|done|by eapply evaluating_row|done..|].
  assert (gt_evaluator_revision (sg_task st) = revision) as Hr.
  { apply find_first_Some in Hfind as [_ [_ _ Hr _ _ _ _]%live_evaluation_true]. done. }
  rewrite Hr in Hdec. pose proof (proj2 (row_to_task_Ok _ _ _) Hdec) as Hdec'.
  cbn [reject_if]. rewrite !bind_of_Ok, revision_fits by (done || unfold U64_MAX, I64_MAX in *; lia).
  rewrite pg_timestamp_exact, write_task_Ok by done. cbn [ok_or]. rewrite !bind_of_Ok.
  cbn [transaction]. rewrite Hdec', bind_of_Ok. intros Hok. split; [done|].
  by eapply sim_write_graph; [| | | | | | | | | | | | | |eapply Hok].
Qed.

(** ** Release *)

(** A claim on an evaluation cannot be released: the row would be [pending] and keep the
    time it was started at. *)
Lemma evaluation_release_fails db f row st worker token :
  graph_sim db f → st ∈ graph_records f → ld_tasks db !! sg_id st = Some row →
  stands_for db f row st → gt_status (sg_task st) = InProgress →
  sg_claimed_by st = Some worker → sg_claim_token st = Some token →
  pg_release_claimed_graph_task db (sg_id st) worker token = (Err sqlx_error, db).
Proof.
  intros Hsim Hin Hrow Hst Hs Hb Ht. unfold pg_release_claimed_graph_task. rewrite Hrow.
  pose proof (gso_tasks _ (gm_ok _ _ Hsim) st Hin) as [_ Hok _]. unfold status_ok in Hok.
  rewrite Hs in Hok. destruct Hok as (Hroot & _). destruct Hst as [Hdec Hck Hby Hto _ _ _ _].
  unfold owned_row. rewrite (graph_mode_of _ _ _ Hdec), Hby, Hto, Hb, Ht, !eqb_same. cbn.
  unfold write_task. by rewrite (released_evaluation_violates _ _ _ Hdec Hck Hs Hroot).
Qed.

Lemma owned_cases db f id worker token :
  let p := λ st, (sg_id st == id) && (sg_claimed_by st == Some worker)
                 && (sg_claim_token st == Some token) in
  graph_sim db f →
  (∃ i st row, graph_records f !! i = Some st ∧ sg_id st = id ∧ ld_tasks db !! id = Some row
     ∧ stands_for db f row st ∧ stored_task_ok f st
     ∧ sg_claimed_by st = Some worker ∧ sg_claim_token st = Some token
     ∧ owned_row worker token row = true ∧ find_first p (graph_records f) = Some (i, st))
  ∨ find_first p (graph_records f) = None
    ∧ (∀ row, ld_tasks db !! id = Some row → owned_row worker token row = false).
Proof.
  intros p Hsim.
  destruct (find_by_id db f id p Hsim) as [(i & st & row & Hi & <- & Hrow & Hst & Hfind)|[Hno Hfind]].
  { intros st Hp. subst p. cbn in Hp. by props. }
  - assert (owned_row worker token row = p st) as Ho.
    { unfold owned_row, p. destruct Hst as [Hdec _ Hb Ht _ _ _ _].
      by rewrite (graph_mode_of _ _ _ Hdec), Hb, Ht, eqb_same. }
    destruct (p st) eqn:Hp.
    + left. exists i, st, row. subst p. cbn in Hp. props.
      pose proof (stored_task_of f i st (gm_ok _ _ Hsim) Hi). by split_and!.
    + right. split; [done|]. intros row2 Hrow2. congruence.
  - right. split; [done|]. intros row Hrow. unfold owned_row. by rewrite (Hno row Hrow).
Qed.

Lemma claimed_status_text st f :
  stored_task_ok f st → is_Some (sg_claim_token st) →
  gt_status (sg_task st) = InProgress ∨ gt_status (sg_task st) = PublishingEntitlement.
Proof.
  intros [_ Hs _] [t Ht]. unfold status_ok in Hs.
  destruct (gt_status (sg_task st)); destruct_and? Hs; try (by left); try (by right);
    unfold unclaimed in *; destruct_and?; congruence.
Qed.

Lemma release_agrees db f id worker token :
  graph_sim db f →
  (∀ st, st ∈ graph_records f → sg_id st = id → sg_claim_token st = Some token →
         gt_status (sg_task st) ≠ InProgress) →
  let mem := release_claimed_graph_task f id worker token in
  agree (pg_release_claimed_graph_task db id worker token) (Ok mem.1, mem.2).
Proof.
  intros Hsim Hne. cbv zeta. unfold pg_release_claimed_graph_task.
  pose proof (release_preserves f id worker token (gm_ok _ _ Hsim)) as Hok. revert Hok.
  unfold release_claimed_graph_task.
  destruct (owned_cases db f id worker token Hsim)
    as [(i & st & row & Hi & <- & Hrow & Hst & Hsok & Hb & Ht & Hown & Hfind)|[Hfind Hno]]; cbv zeta in Hfind.
  2: { rewrite Hfind. destruct (ld_tasks db !! id) as [row|]; [|done]. by rewrite (Hno row eq_refl). }
  rewrite Hrow, Hown, Hfind.
  assert (gt_status (sg_task st) = PublishingEntitlement) as Hpub.
  { destruct (claimed_status_text st f Hsok) as [Hx|Hx]; [by eexists| |done]. exfalso.
    by apply (Hne st (list_elem_of_lookup_2 _ _ _ Hi) eq_refl Ht). }
  destruct (released_row_ok (sg_id st) row (sg_task st)) as [Hck Hdec]; [apply Hst..|done|].
  rewrite write_task_Ok, bind_of_Ok by done. rewrite Hpub.
  change (PublishingEntitlement == InProgress) with false. cbn. intros Hok. split; [done|].
  eapply sim_write_graph; try done; cbn; [apply (sf_next _ _ _ _ Hst)|by rewrite Hpub].
Qed.

(** ** Publication *)

Lemma complete_agrees db f id worker token revision publication now :
  graph_sim db f → revision ≤ I64_MAX →
  let mem := complete_claimed_graph_publication f id worker token revision publication now in
  agree (pg_complete_claimed_graph_publication db id worker token revision publication now)
        (Ok mem.1, mem.2).
Proof.
  intros Hsim Hrev. cbv zeta. unfold pg_complete_claimed_graph_publication, i64_of.
  assert (revision <=? I64_MAX = true) as -> by lia.
  pose proof (complete_preserves f id worker token revision publication now (gm_ok _ _ Hsim)) as Hok. revert Hok.
  unfold complete_claimed_graph_publication.
  match goal with |- context [find_first ?p (graph_records f)] =>
    destruct (find_by_id db f id p Hsim) as [(i & st & row & Hi & <- & Hrow & Hst & Hfind)|[Hno Hfind]] end.
  { intros st Hp. unfold live_publication in Hp. by props. }
  2: { rewrite Hfind. destruct (ld_tasks db !! id) as [row|]; [|done].
       unfold live_publication_row. by rewrite (Hno row eq_refl). }
  pose proof (stored_task_of f i st (gm_ok _ _ Hsim) Hi) as Hsok.
  rewrite Hrow, Hfind, (publication_row_agrees db f row st) by done.
  destruct (live_publication _ _ _ _ _ _ _ _) eqn:Hlive; [|done]. cbn [andb].
  unfold live_publication in Hlive. props.
  match goal with Hx : gt_status _ = PublishingEntitlement |- _ => rename Hx into Hpub end.
  pose proof (sto_status _ _ Hsok) as Hs. unfold status_ok in Hs. rewrite Hpub in Hs.
  destruct Hs as (_ & _ & [at_ Hpay] & _).
  destruct (completed_row_ok (sg_id st) row (sg_task st) now) as [Hck Hdec]; [apply Hst..|done|].
  assert (is_some (vt_entitlement_to_publish row) = true) as ->.
  { destruct (sf_task _ _ _ _ Hst) as [_ _ _ _ _ _ _ Hp _ _ _ _]. rewrite Hpay in Hp.
    by destruct (vt_entitlement_to_publish row). }
  rewrite Hpay. cbn [is_some]. rewrite write_task_Ok, bind_of_Ok by done. cbn [transaction].
  rewrite (proj2 (row_to_task_Ok _ _ _) Hdec), bind_of_Ok, Hpay. intros Hok. split; [done|].
  eapply sim_write; try done; [intros x; apply update_status_identity
                           |intros row2 Hrow2; by assert (row2 = row) as -> by congruence|].
  rewrite Hpay in Hdec. split; try done.
  transitivity (undeleted f (sg_id st)); [apply (sf_deleted _ _ _ _ Hst)|].
  unfold undeleted. cbn. rewrite lookup_alter_eq. by destruct (fence_records f !! sg_id st).
Qed.

Lemma guard_agrees db f id worker token revision publication now :
  graph_sim db f → revision ≤ I64_MAX →
  let held := existsb (live_publication f id worker token revision publication now) (graph_records f) in
  pg_acquire_graph_publication_action db id worker token revision publication now = Ok held
  ∧ acquire_graph_publication_action f id worker token revision publication now
    = held && negb (existsb (λ st, (sg_id st == id)
                                   && bool_decide (gt_lock_key (sg_task st) ∈ deletion_cutoffs f))
                      (graph_records f)).
Proof.
  intros Hsim Hrev. cbv zeta. unfold pg_acquire_graph_publication_action, i64_of.
  assert (revision <=? I64_MAX = true) as -> by lia. unfold acquire_graph_publication_action.
  assert (∀ st st', st ∈ graph_records f → st' ∈ graph_records f → sg_id st' = sg_id st → st' = st) as Hsame
    by (intros st st' Hst Hst' Hid; by apply (same_task f st st' (gm_ok _ _ Hsim))).
  assert (∀ st, live_publication f id worker token revision publication now st = true → sg_id st = id) as Hlive
    by (intros st Hl; unfold live_publication in Hl; by props).
  destruct (find_by_id db f id (λ st, sg_id st == id) Hsim)
    as [(i & st & row & Hi & <- & Hrow & Hst & Hfind)|[Hno Hfind]].
  { intros st Hp. by props. }
  2: { rewrite Hfind. rewrite find_first_None in Hfind.
       assert (existsb (live_publication f id worker token revision publication now) (graph_records f) = false) as ->.
       { apply existsb_false. intros x Hx. apply not_true_iff_false. intros Hlx%Hlive.
         specialize (Hfind x Hx). cbn in Hfind. by rewrite Hlx, eqb_same in Hfind. }
       destruct (ld_tasks db !! id) as [row|]; [|done]. by rewrite (Hno row eq_refl). }
  cbn beta in Hfind. rewrite eqb_same in Hfind. pose proof (list_elem_of_lookup_2 _ _ _ Hi) as Hin.
  assert (∀ p : StoredGraphTask → bool, (∀ x, p x = true → sg_id x = sg_id st) →
            existsb p (graph_records f) = p st) as Hone.
  { intros p Hp. destruct (p st) eqn:Hps.
    - apply existsb_exists. exists st. by rewrite <- list_elem_of_In.
    - apply existsb_false. intros x Hx. apply not_true_iff_false. intros Hpx.
      rewrite (Hsame st x Hin Hx (Hp x Hpx)) in Hpx. congruence. }
  rewrite (Hone (live_publication _ _ _ _ _ _ _)) by apply Hlive.
  rewrite (Hone (λ x, (sg_id x == sg_id st) && _)) by (intros x Hx; by props). rewrite eqb_same, Hfind.
  rewrite Hrow, (graph_mode_of _ _ _ (sf_task _ _ _ _ Hst)), (row_to_task_of _ _ _ _ Hst).
  cbn [negb andb]. rewrite bind_of_Ok.
  rewrite (publication_row_agrees db f row st) by (done || by apply (stored_task_of f i st (gm_ok _ _ Hsim))).
  split; [done|]. by destruct (bool_decide _); cbn [negb]; rewrite ?andb_false_r, ?andb_true_r.
Qed.
End sim.
