(* ===== verification/GraphDbSafe.v ===== *)
(** The Postgres repository of graph tasks: how it admits and hands out tasks, where it
    does what the in-memory one does and where it does not. *)

From S2P Require Import Prelude RustStr Externals Ids Json LockPolicy Wire Errors.
From S2P Require Import Lifecycle GraphTask PaymentTask Fence GraphStore FoldedAuth.
From S2P Require Import TaskTables GraphDb GraphDbSim.

Section safe.
  Context `{Base32, TimeCrate, UuidCrate, PgTime}.

(** * Handles *)

Lemma row_handle_of db f row st : stands_for db f row st → row_handle row = handle_texts (sg_handle st).
Proof.
  intros [[_ _ _ _ Hd _ _ _ _ _ _ _] _ _ _ _ _ _ _]. unfold identity_diverges in Hd. props.
  unfold row_handle, handle_texts. cbn. by f_equal.
Qed.

Lemma submitted_at_of db f row st :
  stands_for db f row st → vt_submitted_at row = gs_accepted_at (gt_snapshot (sg_task st)).
Proof.
  intros [[_ _ _ _ Hd _ _ _ _ _ _ _] _ _ _ _ _ _ _]. unfold identity_diverges in Hd. by props.
Qed.

Lemma find_graph_row_Some db f handle id row :
  graph_sim db f → find_graph_row db handle = Some (id, row) →
  ∃ st, st ∈ graph_records f ∧ sg_id st = id ∧ ld_tasks db !! id = Some row
        ∧ stands_for db f row st ∧ sg_handle st = handle.
Proof.
  intros Hsim Hf. unfold find_graph_row in Hf.
  destruct (find_first _ _) as [[i [id' row']]|] eqn:Hfind; [|done]. injection Hf as -> ->.
  apply find_first_Some in Hfind as [Hi Hp]. apply list_elem_of_lookup_2, elem_of_map_to_list in Hi.
  props. match goal with Hm : graph_mode row = true |- _ => rename Hm into Hmode end.
  pose proof (gm_graph _ _ Hsim id row Hi Hmode) as (st & -> & Hin)%list_elem_of_fmap.
  destruct (gm_rows _ _ Hsim st Hin) as (row' & Hrow & Hst). rewrite Hi in Hrow. injection Hrow as <-.
  exists st. split_and!; try done. apply handle_texts_inj. by rewrite <- (row_handle_of _ _ _ _ Hst).
Qed.

Lemma find_graph_row_None db f st :
  graph_sim db f → st ∈ graph_records f → find_graph_row db (sg_handle st) ≠ None.
Proof.
  intros Hsim Hin Hf. unfold find_graph_row in Hf.
  destruct (find_first _ _) as [[]|] eqn:Hfind; [done|]. rewrite find_first_None in Hfind.
  destruct (gm_rows _ _ Hsim st Hin) as (row & Hrow & Hst).
  specialize (Hfind (sg_id st, row)). cbn in Hfind.
  rewrite (row_handle_of _ _ _ _ Hst), eqb_same, (graph_mode_of _ _ _ (sf_task _ _ _ _ Hst)),
    (rd_snapshot _ _ _ (sf_task _ _ _ _ Hst)) in Hfind.
  cbn in Hfind. discriminate Hfind. by apply elem_of_map_to_list.
Qed.

Lemma handle_exists_true db f handle :
  graph_sim db f →
  handle_exists db handle = true ↔
  ∃ id r, fence_records f !! id = Some r ∧ fence_record_handle r = handle.
Proof.
  intros Hsim. unfold handle_exists. rewrite existsb_exists. split.
  - intros ([id row] & Hin & Hh). apply list_elem_of_In, elem_of_map_to_list in Hin. rewrite eqb_true in Hh.
    destruct (proj2 (gm_tasks _ _ Hsim id)) as [r Hr]; [by eexists|]. exists id, r. split; [done|].
    apply handle_texts_inj. by rewrite <- (gm_handles _ _ Hsim id r row Hr Hin).
  - intros (id & r & Hr & <-). destruct (proj1 (gm_tasks _ _ Hsim id)) as [row Hrow]; [by eexists|].
    exists (id, row). split; [by apply list_elem_of_In, elem_of_map_to_list|].
    apply eqb_true. by apply (gm_handles _ _ Hsim id r row).
Qed.

(** * Admission *)

Lemma cutoff_agrees db f creator lock_id :
  graph_sim db f →
  reject_deletion_cutoff db creator lock_id
  = reject_if (bool_decide ((creator, lock_id) ∈ deletion_cutoffs f)) ContentLockDeletionInProgress.
Proof.
  intros Hsim. unfold reject_deletion_cutoff. f_equal. apply eq_true_iff_eq.
  by rewrite orb_true_iff, !bool_decide_eq_true, (gm_cutoffs _ _ Hsim).
Qed.

Lemma pending_agrees db f handle :
  graph_sim db f →
  pending_folded_auth db handle = bool_decide (handle ∈ folded_auth_reservations f).
Proof.
  intros Hsim. apply eq_true_iff_eq. by rewrite bool_decide_eq_true, (gm_pending _ _ Hsim).
Qed.

(** A new task joins both. *)
Lemma sim_insert `{!PgTimeLaws} db f t reservations :
  graph_sim db f → validate_new_task t = Ok () →
  TaskId_from_str (TaskId_display (gt_task_id t)) = Ok (gt_task_id t) →
  ld_tasks db !! gt_task_id t = None →
  handle_exists db (gt_handle t) = false →
  (∀ h, h ∈ reservations ↔ pending_folded_auth db h = true) →
  let f' := MkFence (<[gt_task_id t := new_fence_record t]> (fence_records f))
              (graph_records f ++ [MkStoredGraphTask t None None None None])
              (<[gt_task_id t := gt_status t]> (current_statuses f)) (deletion_cutoffs f) reservations in
  graph_store_ok f' →
  graph_sim (ld_with_tasks db (<[gt_task_id t := new_graph_row (gt_snapshot t)]> (ld_tasks db))) f'.
Proof.
  intros Hsim Hnew Hid Hfree Hhe Hres f' Hok.
  destruct (new_row_ok t Hnew Hid) as [Hck Hdec].
  pose proof (handle_exists_true db f (gt_handle t) Hsim) as Hex. rewrite Hhe in Hex.
  pose proof Hsim as [Hok0 Hrows Hgraph Htasks Hhandles Huniq Hsnaps Hcuts Hpend].
  assert (∀ st, st ∈ graph_records f → sg_id st ≠ gt_task_id t) as Hne.
  { intros st Hin Heq. destruct (Hrows st Hin) as (row & Hrow & _). congruence. }
  split; cbn; [done|..].
  - intros st [Hin| ->%list_elem_of_singleton]%elem_of_app.
    + destruct (Hrows st Hin) as (row & Hrow & [? ? ? ? ? ? ? Hd]). exists row.
      rewrite lookup_insert_ne by (symmetry; by apply Hne). split; [done|]. split; try done.
      transitivity (not_deleted db (sg_id st) row); [done|]. rewrite Hd. unfold undeleted. cbn.
      rewrite lookup_insert_ne by (symmetry; by apply Hne). done.
    + exists (new_graph_row (gt_snapshot t)). cbn. rewrite lookup_insert_eq. split; [done|].
      split; try done. unfold not_deleted, undeleted. cbn. rewrite lookup_insert_eq. cbn.
      rewrite bool_decide_eq_false_2; [done|]. intros [row Hrow]%Hsnaps. change (ld_tasks db !! gt_task_id t = Some row) in Hrow. congruence.
  - intros id row [[<- <-]|[Hn Hl]]%lookup_insert_Some Hm; rewrite fmap_app; apply elem_of_app.
    + right. by apply list_elem_of_singleton.
    + left. by eapply Hgraph.
  - intros id. destruct (decide (id = gt_task_id t)) as [->|Hn].
    + rewrite !lookup_insert_eq. split; by eexists.
    + by rewrite !lookup_insert_ne.
  - intros id r row [[<- <-]|[Hn Hr]]%lookup_insert_Some Hl.
    + rewrite lookup_insert_eq in Hl. by injection Hl as <-.
    + rewrite lookup_insert_ne in Hl by done. by eapply Hhandles.
  - assert (∀ id row, ld_tasks db !! id = Some row →
      row_handle row ≠ row_handle (new_graph_row (gt_snapshot t))) as Hfresh.
    { intros id row Hrow Heq. destruct (proj2 (Htasks id)) as [r Hr]; [by eexists|].
      assert (false = true); [|done]. apply Hex. exists id, r. split; [done|].
      apply handle_texts_inj. by rewrite <- (Hhandles id r row Hr Hrow), Heq. }
    intros id id' row row' [[<- <-]|[Hn Hr]]%lookup_insert_Some [[<- <-]|[Hn' Hr']]%lookup_insert_Some Heq;
      [done| | |by eapply Huniq]; exfalso; by eapply Hfresh.
  - intros id Hin. destruct (decide (id = gt_task_id t)) as [->|Hn]; [rewrite lookup_insert_eq; by eexists|].
    rewrite lookup_insert_ne by done. by apply Hsnaps.
  - done.
  - done.
Qed.

(** The task a handle has in both. *)
Lemma found_row db f handle :
  graph_sim db f →
  (∃ i st row, find_first (λ st, sg_handle st == handle) (graph_records f) = Some (i, st)
     ∧ st ∈ graph_records f ∧ sg_handle st = handle
     ∧ find_graph_row db handle = Some (sg_id st, row) ∧ row_to_task (sg_id st) row = Ok (sg_task st))
  ∨ find_first (λ st, sg_handle st == handle) (graph_records f) = None
    ∧ find_graph_row db handle = None.
Proof.
  intros Hsim. destruct (find_first _ _) as [[i st]|] eqn:Hf.
  - left. apply find_first_Some in Hf as [Hi Hh]. props.
    pose proof (list_elem_of_lookup_2 _ _ _ Hi) as Hin.
    destruct (find_graph_row db handle) as [[id row]|] eqn:Hr.
    + destruct (find_graph_row_Some db f handle id row Hsim Hr) as (st2 & Hin2 & Hid & _ & Hst & Hh2).
      assert (st2 = st) as ->.
      { apply list_elem_of_lookup in Hin2 as [j Hj].
        assert (j = i) as ->; [|congruence].
        eapply NoDup_lookup; [apply (gso_handles _ (gm_ok _ _ Hsim))| |];
          rewrite list_lookup_fmap; [by rewrite Hj|]. rewrite Hi. cbn. congruence. }
      subst id. exists i, st, row. split_and!; try done. by eapply row_to_task_of.
    + exfalso. apply (find_graph_row_None db f st Hsim Hin). congruence.
  - right. split; [done|]. destruct (find_graph_row db handle) as [[id row]|] eqn:Hr; [|done].
    destruct (find_graph_row_Some db f handle id row Hsim Hr) as (st & Hin & _ & _ & _ & Hh).
    rewrite find_first_None in Hf. specialize (Hf st Hin). cbn in Hf. by rewrite Hh, eqb_same in Hf.
Qed.

(** The answer when the handle has its task already. *)
Lemma pg_insert_known db f t st row :
  graph_sim db f → validate_new_task t = Ok () → pending_folded_auth db (gt_handle t) = false →
  find_graph_row db (gt_handle t) = Some (sg_id st, row) →
  row_to_task (sg_id st) row = Ok (sg_task st) →
  pg_insert_graph_task db db t
  = (if same_graph_task (sg_task st) t then Ok (sg_task st) else Err VerificationTaskConflict, db).
Proof.
  intros Hsim Hnew Hpend Hf Hdec. unfold pg_insert_graph_task, pg_get_graph_task_by_handle.
  rewrite Hnew, bind_of_Ok, Hpend. cbn [reject_if]. rewrite bind_of_Ok, Hf, Hdec, !bind_of_Ok.
  by destruct (same_graph_task _ _).
Qed.

(** The answer when it has none. *)
Lemma pg_insert_fresh db t :
  validate_new_task t = Ok () → pending_folded_auth db (gt_handle t) = false →
  find_graph_row db (gt_handle t) = None →
  reject_deletion_cutoff db (gs_creator (gt_snapshot t))
    (resource_lock_id (gs_pubky_lock_resource (gt_snapshot t))) = Ok () →
  is_some (ld_tasks db !! gt_task_id t) || handle_exists db (gt_handle t) = true →
  pg_insert_graph_task db db t
  = (Err (if handle_exists db (gt_handle t) then VerificationTaskConflict
          else DuplicateRecord "verification_task"), db).
Proof.
  intros Hnew Hpend Hf Hcut Hcon. unfold pg_insert_graph_task.
  rewrite Hnew, bind_of_Ok, Hpend. cbn [reject_if]. rewrite bind_of_Ok, Hf, Hcut, bind_of_Ok.
  unfold insert_graph_row. rewrite Hcon, bind_of_Ok.
  by destruct (handle_exists db (gt_handle t)).
Qed.

(** The checks of the in-memory adapter after the one on the reservation. *)
Definition mem_checks (f : Fence) (t : GraphTaskRecord) : result ApplicationError () :=
  let is_graph id := existsb (λ st, sg_id st == id) (graph_records f) in
  _ ← reject_if (bool_decide (gt_lock_key t ∈ deletion_cutoffs f)) ContentLockDeletionInProgress;
  _ ← reject_if (is_some (fence_records f !! gt_task_id t) && negb (is_graph (gt_task_id t)))
        (DuplicateRecord "verification_task");
  reject_if
    (existsb (λ '(id, r), (fence_record_handle r == gt_handle t) && negb (is_graph id))
       (map_to_list (fence_records f)))
    VerificationTaskConflict.

(** The task a handle has passes them, but for the cutoff. *)
Lemma known_checks db f st t :
  graph_sim db f → st ∈ graph_records f → sg_handle st = gt_handle t → sg_id st = gt_task_id t →
  mem_checks f t
  = reject_if (bool_decide (gt_lock_key t ∈ deletion_cutoffs f)) ContentLockDeletionInProgress.
Proof.
  intros Hsim Hin Hh Hid. unfold mem_checks.
  destruct (reject_if (bool_decide _) _) as [[]|e]; [|done]. rewrite bind_of_Ok.
  assert (∀ id, id = sg_id st → existsb (λ st0, sg_id st0 == id) (graph_records f) = true) as Hex.
  { intros id ->. apply existsb_exists. exists st. split; [by apply list_elem_of_In|apply eqb_same]. }
  rewrite Hex, andb_false_r by done. cbn [reject_if negb]. rewrite bind_of_Ok.
  apply reject_if_Ok, existsb_false. intros [id r] Hr%elem_of_map_to_list.
  apply andb_false_iff. destruct (fence_record_handle r == gt_handle t) eqn:Hx; [right|by left].
  rewrite eqb_true in Hx. rewrite Hex; [done|].
  destruct (proj1 (gm_tasks _ _ Hsim id)) as [row Hrow]; [by eexists|].
  destruct (gm_rows _ _ Hsim st Hin) as (row' & Hrow' & Hst).
  apply (gm_unique _ _ Hsim _ _ row' row Hrow' Hrow).
  rewrite (gm_handles _ _ Hsim id r row Hr Hrow), (row_handle_of _ _ _ _ Hst). congruence.
Qed.

Lemma admission_unfolds f t :
  insert_graph_task f t =
  (_ ← validate_new_task t;
   _ ← reject_if (bool_decide (gt_handle t ∈ folded_auth_reservations f)) VerificationTaskConflict;
   _ ← mem_checks f t;
   match find_first (λ st, sg_handle st == gt_handle t) (graph_records f) with
   | Some (_, st) =>
       if same_graph_task (sg_task st) t then Ok (sg_task st, f) else Err VerificationTaskConflict
   | None =>
       _ ← reject_if (existsb (λ st, sg_id st == gt_task_id t) (graph_records f))
             (DuplicateRecord "verification_task");
       Ok (t, MkFence (<[gt_task_id t := new_fence_record t]> (fence_records f))
                (graph_records f ++ [MkStoredGraphTask t None None None None])
                (<[gt_task_id t := gt_status t]> (current_statuses f)) (deletion_cutoffs f)
                (folded_auth_reservations f))
   end).
Proof.
  unfold insert_graph_task, insert_graph_task_under_admission, mem_checks.
  destruct (validate_new_task t) as [[]|]; [|done]. rewrite !bind_of_Ok.
  destruct (bool_decide (gt_handle t ∈ _)); [done|]. change (negb (eqb false false)) with false.
  cbn [reject_if]. rewrite !bind_of_Ok.
  destruct (bool_decide (gt_lock_key t ∈ _)); [done|]. cbn [reject_if]. rewrite !bind_of_Ok.
  destruct (is_some (fence_records f !! _) && _); [done|]. cbn [reject_if]. rewrite !bind_of_Ok.
  by destruct (existsb _ (map_to_list (fence_records f))).
Qed.

(** The checks name the obstacle. *)
Lemma mem_checks_Err f t e :
  mem_checks f t = Err e →
  gt_lock_key t ∈ deletion_cutoffs f ∧ e = ContentLockDeletionInProgress
  ∨ gt_lock_key t ∉ deletion_cutoffs f
    ∧ (e = DuplicateRecord "verification_task" ∧ is_Some (fence_records f !! gt_task_id t)
       ∨ e = VerificationTaskConflict
         ∧ ∃ id r, fence_records f !! id = Some r ∧ fence_record_handle r = gt_handle t).
Proof.
  unfold mem_checks. destruct (bool_decide (gt_lock_key t ∈ _)) eqn:Hcut.
  { intros [= <-]. left. by apply bool_decide_eq_true in Hcut. }
  apply bool_decide_eq_false in Hcut. cbn [reject_if]. rewrite bind_of_Ok.
  destruct (is_some (fence_records f !! gt_task_id t) && _) eqn:Hid.
  { intros [= <-]. right. split; [done|]. left. split; [done|]. apply andb_true_iff in Hid as [Hid _].
    by destruct (fence_records f !! gt_task_id t). }
  cbn [reject_if]. rewrite bind_of_Ok. destruct (existsb _ (map_to_list _)) eqn:Hh; cbn [reject_if]; [|done].
  intros [= <-].
  right. split; [done|]. right. split; [done|]. apply existsb_exists in Hh as ([id r] & Hin & Hp).
  apply list_elem_of_In, elem_of_map_to_list in Hin. props. by exists id, r.
Qed.

(** Admission by the two adapters.  What the in-memory one admits, the other admits, with
    the same answer; what it refuses is refused with the same error and changes nothing, but
    for two cases.  Once the deletion of the lock has begun, the other still answers for a
    handle that has its graph task; and when both the identifier and the handle are taken,
    the one reports the identifier, the other the handle. *)
Definition refused_as (db : LocksDb) (f : Fence) (t : GraphTaskRecord) (e : ApplicationError)
    (r : result ApplicationError GraphTaskRecord) : Prop :=
  r = Err e
  ∨ e = ContentLockDeletionInProgress ∧ gt_lock_key t ∈ deletion_cutoffs f
    ∧ (∃ st, st ∈ graph_records f ∧ sg_handle st = gt_handle t
         ∧ r = if same_graph_task (sg_task st) t then Ok (sg_task st) else Err VerificationTaskConflict)
  ∨ e = DuplicateRecord "verification_task" ∧ r = Err VerificationTaskConflict
    ∧ is_Some (fence_records f !! gt_task_id t) ∧ handle_exists db (gt_handle t) = true.

Definition admissions_agree (db : LocksDb) (f : Fence) (t : GraphTaskRecord)
    (mem : result ApplicationError (GraphTaskRecord * Fence)) : Prop :=
  match mem with
  | Ok (found, f') => ∃ db', pg_insert_graph_task db db t = (Ok found, db') ∧ graph_sim db' f'
  | Err e => ∃ r, pg_insert_graph_task db db t = (r, db) ∧ refused_as db f t e r
  end.

Lemma refused_agree db f t e :
  pg_insert_graph_task db db t = (Err e, db) → admissions_agree db f t (Err e).
Proof. intros He. eexists. split; [exact He|by left]. Qed.

(** A refusal of a task whose handle has no graph task. *)
Lemma fresh_refused db f t e :
  graph_sim db f → validate_new_task t = Ok () → pending_folded_auth db (gt_handle t) = false →
  find_graph_row db (gt_handle t) = None → mem_checks f t = Err e → admissions_agree db f t (Err e).
Proof.
  intros Hsim Hnew Hpend Hr He.
  pose proof (cutoff_agrees db f (gs_creator (gt_snapshot t))
    (resource_lock_id (gs_pubky_lock_resource (gt_snapshot t))) Hsim) as Hcut.
  change (_, resource_lock_id _) with (gt_lock_key t) in Hcut.
  destruct (mem_checks_Err f t e He) as [[Hin ->]|[Hno Hwhy]].
  { apply refused_agree. unfold pg_insert_graph_task. rewrite Hnew, bind_of_Ok, Hpend. cbn [reject_if].
    by rewrite bind_of_Ok, Hr, Hcut, bool_decide_eq_true_2. }
  rewrite bool_decide_eq_false_2 in Hcut by done.
  assert (is_some (ld_tasks db !! gt_task_id t) || handle_exists db (gt_handle t) = true) as Htaken.
  { apply orb_true_iff. destruct Hwhy as [[_ Hid]|[_ Hh]];
      [left; by apply is_some_true, (gm_tasks _ _ Hsim)|right; by apply (handle_exists_true db f)]. }
  eexists. split; [by apply pg_insert_fresh|].
  destruct Hwhy as [[-> Hid]|[-> Hh]].
  - destruct (handle_exists db (gt_handle t)) eqn:Hx; [|by left]. right. right. done.
  - rewrite (proj2 (handle_exists_true db f (gt_handle t) Hsim)) by done. by left.
Qed.

(** The handle of a task that passes the checks is free in the table. *)
Lemma checked_handle_free db f t :
  graph_sim db f → (∀ st, st ∈ graph_records f → sg_handle st ≠ gt_handle t) →
  mem_checks f t = Ok () → handle_exists db (gt_handle t) = false.
Proof.
  intros Hsim Hnone Hm. apply not_true_iff_false. rewrite (handle_exists_true db f _ Hsim).
  intros (id & r & Hr & Hh). unfold mem_checks in Hm.
  apply bind_Ok in Hm as ([] & _ & Hm). apply bind_Ok in Hm as ([] & _ & Hm%reject_if_Ok).
  rewrite existsb_false in Hm. specialize (Hm (id, r) (proj2 (elem_of_map_to_list _ _ _) Hr)).
  cbn in Hm. rewrite Hh, eqb_same in Hm. apply negb_false_iff, existsb_exists in Hm as (st & Hin & Hst).
  apply list_elem_of_In in Hin. rewrite eqb_true in Hst. subst id.
  destruct (gso_tasks _ (gm_ok _ _ Hsim) st Hin) as [_ _ (r' & Hr' & Hh' & _)].
  apply (Hnone st Hin). congruence.
Qed.

(** The others pass them when nothing is in the way of the insertion. *)
Lemma fresh_checks db f t :
  graph_sim db f → (∀ st, st ∈ graph_records f → sg_handle st ≠ gt_handle t) →
  mem_checks f t = Ok () ∧ existsb (λ st, sg_id st == gt_task_id t) (graph_records f) = false ↔
  bool_decide (gt_lock_key t ∈ deletion_cutoffs f) = false
  ∧ is_some (ld_tasks db !! gt_task_id t) || handle_exists db (gt_handle t) = false.
Proof.
  intros Hsim Hnone. unfold mem_checks. rewrite orb_false_iff. split.
  - intros [Hc Hid]. peel. rewrite Hid in *. cbn [negb] in *. rewrite andb_true_r in *.
    split; [done|]. split.
    + apply is_some_false, eq_None_not_Some. rewrite <- (gm_tasks _ _ Hsim).
      match goal with Hs : is_some (fence_records f !! _) = false |- _ =>
        apply is_some_false in Hs; rewrite Hs end. by intros [].
    + apply not_true_iff_false. rewrite (handle_exists_true db f _ Hsim). intros (id & r & Hr & Hh).
      match goal with Hx : existsb (λ '(_, _), _) _ = false |- _ => rewrite existsb_false in Hx;
        specialize (Hx (id, r) (proj2 (elem_of_map_to_list _ _ _) Hr)); cbn in Hx;
        rewrite Hh, eqb_same in Hx; cbn in Hx; apply negb_false_iff, existsb_exists in Hx
          as (st & Hin & Hst) end.
      apply list_elem_of_In in Hin. rewrite eqb_true in Hst. subst id.
      destruct (gso_tasks _ (gm_ok _ _ Hsim) st Hin) as [_ _ (r' & Hr' & Hh' & _)].
      apply (Hnone st Hin). congruence.
  - intros (Hcut & Hid & Hh). apply is_some_false in Hid. rewrite Hcut. cbn [reject_if]. rewrite bind_of_Ok.
    assert (fence_records f !! gt_task_id t = None) as ->.
    { apply eq_None_not_Some. rewrite (gm_tasks _ _ Hsim), Hid. by intros []. }
    cbn [is_some andb reject_if]. rewrite bind_of_Ok. split.
    + apply reject_if_Ok, existsb_false. intros [id r] Hr%elem_of_map_to_list. apply andb_false_iff. left.
      apply eqb_false. intros Hx. assert (false = true); [|done]. rewrite <- Hh.
      apply (handle_exists_true db f _ Hsim). by exists id, r.
    + apply existsb_false. intros st Hin. apply eqb_false. intros Hx.
      destruct (gm_rows _ _ Hsim st Hin) as (row & Hrow & _). congruence.
Qed.

Lemma pg_insert_admits `{!PgTimeLaws} db f t :
  graph_sim db f → validate_new_task t = Ok () → pending_folded_auth db (gt_handle t) = false →
  find_graph_row db (gt_handle t) = None →
  TaskId_from_str (TaskId_display (gt_task_id t)) = Ok (gt_task_id t) →
  bool_decide (gt_lock_key t ∈ deletion_cutoffs f) = false →
  is_some (ld_tasks db !! gt_task_id t) || handle_exists db (gt_handle t) = false →
  pg_insert_graph_task db db t
  = (Ok t, ld_with_tasks db (<[gt_task_id t := new_graph_row (gt_snapshot t)]> (ld_tasks db))).
Proof.
  intros Hsim Hnew Hpend Hr Hid Hcut Hfree. destruct (new_row_ok t Hnew Hid) as [Hck Hdec].
  unfold pg_insert_graph_task. rewrite Hnew, bind_of_Ok, Hpend. cbn [reject_if].
  rewrite bind_of_Ok, Hr, (cutoff_agrees db f) by done.
  change (_, resource_lock_id _) with (gt_lock_key t). rewrite Hcut. cbn [reject_if].
  rewrite bind_of_Ok. unfold insert_graph_row. rewrite Hfree, write_task_Ok, !bind_of_Ok by done.
  cbn [transaction]. by rewrite (proj2 (row_to_task_Ok _ _ _) Hdec).
Qed.

Lemma known_agrees db f t i st row :
  graph_sim db f → validate_new_task t = Ok () → pending_folded_auth db (gt_handle t) = false →
  find_first (λ st, sg_handle st == gt_handle t) (graph_records f) = Some (i, st) →
  st ∈ graph_records f → sg_handle st = gt_handle t →
  find_graph_row db (gt_handle t) = Some (sg_id st, row) →
  row_to_task (sg_id st) row = Ok (sg_task st) →
  admissions_agree db f t
    (_ ← mem_checks f t;
     if same_graph_task (sg_task st) t then Ok (sg_task st, f) else Err VerificationTaskConflict).
Proof.
  intros Hsim Hnew Hpend Hf Hin Hh Hr Hdec. pose proof (pg_insert_known db f t st row) as Hpg.
  destruct (mem_checks f t) as [[]|e] eqn:Hm; cbn [mbind result_bind].
  { destruct (same_graph_task (sg_task st) t); unfold admissions_agree; rewrite Hpg by done;
      eexists; (split; [done|]); [done|by left]. }
  eexists. split; [by apply Hpg|].
  destruct (mem_checks_Err f t e Hm) as [[Hcut ->]|[Hcut Hwhy]].
  { right. left. split_and!; [done|done|]. by exists st. }
  destruct (same_graph_task (sg_task st) t) eqn:Hsame.
  { rewrite (known_checks db f st t), bool_decide_eq_false_2 in Hm
      by (done || (unfold same_graph_task in Hsame; by props)). done. }
  destruct Hwhy as [[-> Hid]|[-> _]]; [|by left]. right. right. split_and!; [done|done|done|].
  apply (handle_exists_true db f _ Hsim).
  destruct (gso_tasks _ (gm_ok _ _ Hsim) st Hin) as [_ _ (r & Hrec & Hhr & _)].
  exists (sg_id st), r. split; [done|]. congruence.
Qed.

Lemma admission_agrees `{!PgTimeLaws} db f t :
  graph_sim db f → TaskId_from_str (TaskId_display (gt_task_id t)) = Ok (gt_task_id t) →
  admissions_agree db f t (insert_graph_task f t).
Proof.
  intros Hsim Hid. pose proof (λ t' f', insert_preserves f t (λ _, Ok ()) false t' f' (gm_ok _ _ Hsim)) as Hok.
  revert Hok. change (insert_graph_task_under_admission f t _ false) with (insert_graph_task f t).
  rewrite admission_unfolds. destruct (validate_new_task t) as [[]|e] eqn:Hnew.
  2: { intros _. apply refused_agree. unfold pg_insert_graph_task. by rewrite Hnew. }
  rewrite !bind_of_Ok, <- (pending_agrees db f _ Hsim).
  destruct (pending_folded_auth db (gt_handle t)) eqn:Hpend.
  { intros _. apply refused_agree. unfold pg_insert_graph_task. by rewrite Hnew, bind_of_Ok, Hpend. }
  cbn [reject_if]. rewrite !bind_of_Ok.
  destruct (found_row db f (gt_handle t) Hsim) as [(i & st & row & Hf & Hin & Hh & Hr & Hdec)|[Hf Hr]]; rewrite Hf;
    [intros _; by eapply known_agrees|].
  assert (∀ st, st ∈ graph_records f → sg_handle st ≠ gt_handle t) as Hnone.
  { rewrite find_first_None in Hf. intros st Hin Heq. specialize (Hf st Hin). cbn in Hf.
    by rewrite Heq, eqb_same in Hf. }
  destruct (mem_checks f t) as [[]|e] eqn:Hm; [|intros _; by apply fresh_refused].
  rewrite !bind_of_Ok. destruct (existsb (λ st, sg_id st == gt_task_id t) (graph_records f)) eqn:Hex.
  - intros _. apply refused_agree. pose proof (checked_handle_free db f t Hsim Hnone Hm) as Hfree.
    apply bind_Ok in Hm as ([] & Hcut%reject_if_Ok & _).
    rewrite pg_insert_fresh; [by rewrite Hfree|done..| |].
    + rewrite (cutoff_agrees db f) by done. change (_, resource_lock_id _) with (gt_lock_key t). by rewrite Hcut.
    + apply orb_true_iff. left. apply existsb_exists in Hex as (st & Hin%list_elem_of_In & Hst). props.
      destruct (gm_rows _ _ Hsim st Hin) as (row & Hrow & _). apply is_some_true. rewrite <- Hst. by eexists.
  - cbn [reject_if]. rewrite !bind_of_Ok. intros Hok.
    destruct (proj1 (fresh_checks db f t Hsim Hnone) (conj Hm Hex)) as [Hcut Hfree].
    eexists. split; [by apply (pg_insert_admits db f)|]. apply orb_false_iff in Hfree as [Hid' Hhe].
    apply sim_insert; try done; [by apply is_some_false|apply Hsim|by eapply Hok].
Qed.

(** * Claims *)

Lemma candidate_agrees db f row st now :
  stands_for db f row st → stored_task_ok f st →
  claim_candidate db now (sg_id st) row = claimable f now st.
Proof.
  intros [Hdec _ _ _ He Hn Htk Hd] [_ Hs _]. unfold claim_candidate, claimable, root_tag, due.
  rewrite (graph_mode_of _ _ _ Hdec), (rd_snapshot _ _ _ Hdec), (rd_status _ _ _ Hdec), Hd, He, Hn.
  unfold status_ok in Hs. cbn [is_some andb].
  change (undeleted f (gt_task_id (sg_task st))) with (undeleted f (sg_id st)).
  destruct (gt_status (sg_task st)) eqn:Hst.
  - destruct Hs as (-> & (_ & _ & ->) & _). cbn. by destruct (undeleted f (sg_id st)), (is_none_or _ _).
  - destruct Hs as (-> & (_ & _ & [e ->]) & _). rewrite (Htk eq_refl). cbn.
    by destruct (undeleted f (sg_id st)), (e <=? now).
  - destruct Hs as (-> & _). cbn.
    by destruct (undeleted f (sg_id st)), (is_none_or _ (sg_claim_expires_at st)), (is_none_or _ _).
  - cbn. destruct (undeleted f (sg_id st)); cbn; by rewrite ?andb_false_r.
  - cbn. destruct (undeleted f (sg_id st)); cbn; by rewrite ?andb_false_r.
  - cbn. destruct (undeleted f (sg_id st)); cbn; by rewrite ?andb_false_r.
Qed.

#[local] Instance submitted_before_total : Total submitted_before.
Proof. intros x y. unfold submitted_before. lia. Qed.
#[local] Instance submitted_before_trans : Transitive submitted_before.
Proof. intros x y z. unfold submitted_before. lia. Qed.

(** The candidate is the oldest of those nobody has locked. *)
Lemma next_candidate_spec db locked now :
  match next_candidate db locked now with
  | Some (id, row) =>
      ld_tasks db !! id = Some row ∧ claim_candidate db now id row = true ∧ id ∉ locked
      ∧ ∀ id' row', ld_tasks db !! id' = Some row' → claim_candidate db now id' row' = true →
                    id' ∉ locked → submitted_before (id, row) (id', row')
  | None =>
      ∀ id row, ld_tasks db !! id = Some row → claim_candidate db now id row = true → id ∈ locked
  end.
Proof.
  unfold next_candidate. set (l := filter _ _).
  assert (∀ id row, (id, row) ∈ merge_sort submitted_before l ↔
    ld_tasks db !! id = Some row ∧ claim_candidate db now id row = true ∧ id ∉ locked) as Hl.
  { intros id row. rewrite merge_sort_Permutation. subst l.
    rewrite list_elem_of_filter, elem_of_map_to_list. naive_solver. }
  pose proof (StronglySorted_merge_sort submitted_before l) as Hs.
  destruct (merge_sort submitted_before l) as [|[id row] rest] eqn:Hm; cbn.
  - intros id row Hr Hc. destruct (decide (id ∈ locked)) as [|Hno]; [done|].
    exfalso. eapply not_elem_of_nil. by apply (Hl id row).
  - destruct (proj1 (Hl id row) (list_elem_of_here _ _)) as (Hr & Hc & Hno).
    split_and!; try done. intros id' row' Hr' Hc' Hno'.
    assert ((id', row') ∈ (id, row) :: rest) as [[= -> ->]|Hin]%elem_of_cons by by apply Hl.
    + by destruct (submitted_before_total (id, row) (id, row)).
    + apply StronglySorted_inv in Hs as [_ Hf]. rewrite Forall_forall in Hf. by apply Hf.
Qed.

(** The task as its new holder has it. *)
Definition leased (st : StoredGraphTask) (worker : string) (token : Uuid) (expires : OffsetDateTime) :
    StoredGraphTask :=
  MkStoredGraphTask (claimed_task (sg_task st)) (Some worker) (Some token) (Some expires) None.

Lemma leased_ok f i st worker token expires now :
  graph_store_ok f → graph_records f !! i = Some st → claimable f now st = true →
  sg_id (leased st worker token expires) = sg_id st
  ∧ claimable_task (sg_task st)
  ∧ graph_store_ok (fence_with_graph f (<[i := leased st worker token expires]> (graph_records f))).
Proof.
  intros Hok Hi Hc. pose proof (stored_task_of f i st Hok Hi) as [Hv Hs _].
  assert (sg_id (leased st worker token expires) = sg_id st) as Hid.
  { unfold leased, claimed_task. by destruct (_ != _). }
  unfold claimable in Hc. unfold status_ok in Hs.
  split_and!; [done| |].
  { unfold claimable_task. destruct (gt_status (sg_task st)); try done; destruct_and? Hs; auto. }
  apply (quiet_update_ok f i st); try done.
  - unfold leased, claimed_task. by destruct (_ != _).
  - unfold leased, claimed_task. by destruct (_ != _).
  - unfold leased, claimed_task. by destruct (_ != _).
  - assert (claimed (leased st worker token expires)) as Hcl by (split_and!; by eexists).
    unfold status_ok, leased in *. cbn [sg_task] in *. destruct (gt_status (sg_task st)) eqn:Hst; try done.
    + assert (claimed_task (sg_task st) = gt_with_status (sg_task st) InProgress) as ->
        by (unfold claimed_task; by rewrite Hst). by destruct Hs as (? & _ & ? & ?).
    + assert (claimed_task (sg_task st) = gt_with_status (sg_task st) InProgress) as ->
        by (unfold claimed_task; by rewrite Hst). by destruct Hs as (? & _ & ? & ?).
    + assert (claimed_task (sg_task st) = sg_task st) as ->
        by (unfold claimed_task; by rewrite Hst). rewrite Hst. destruct Hs as (? & _ & ? & ? & ?).
      split_and!; try done. by right.
  - unfold leased, claimed_task. by destruct (_ != _).
Qed.

(** The write of a claim. *)
Lemma claim_write db f i st row worker token expires now :
  graph_sim db f → graph_records f !! i = Some st → ld_tasks db !! sg_id st = Some row →
  stands_for db f row st → claimable f now st = true →
  let row' := row_claimed_by row worker token expires now in
  state_check row' = true ∧ row_to_task (sg_id st) row' = Ok (claimed_task (sg_task st))
  ∧ graph_sim (ld_with_tasks db (<[sg_id st := row']> (ld_tasks db)))
      (fence_with_graph f (<[i := leased st worker token expires]> (graph_records f))).
Proof.
  intros Hsim Hi Hrow Hst Hc row'.
  destruct (leased_ok f i st worker token expires now (gm_ok _ _ Hsim) Hi Hc) as (Hid & Hct & Hok).
  destruct (claimed_row_ok (sg_id st) row (sg_task st) worker token expires now) as [Hck Hdec];
    [apply Hst|apply Hst|done|].
  split_and!; [done|by apply row_to_task_Ok|]. by eapply sim_write_graph.
Qed.

(** C25: Claims in Postgres.  Of the tasks that are due, undeleted and not locked by another
    transaction, a claim takes the one submitted first, with the smaller identifier among
    equals; the task found is one the in-memory repository would hand out, and its record
    becomes the lease that repository would write, for the duration the caller asked for,
    counted from the database's clock.  Without such a task nothing changes.  A claim never
    fails, as long as no task has been claimed 2^31 - 1 times. *)
Theorem pg_claim_takes_oldest db f locked worker caller expires now token :
  graph_sim db f → caller < expires →
  (∀ id row, ld_tasks db !! id = Some row → vt_attempt_count row < I32_MAX) →
  match pg_claim_next_graph_task db locked worker caller expires now token with
  | (Ok None, db') =>
      db' = db ∧ ∀ st, st ∈ graph_records f → claimable f now st = true → sg_id st ∈ locked
  | (Ok (Some claim), db') =>
      ∃ i st, graph_records f !! i = Some st ∧ claimable f now st = true ∧ sg_id st ∉ locked
        ∧ (∀ st', st' ∈ graph_records f → claimable f now st' = true → sg_id st' ∉ locked →
             let at_ := gs_accepted_at (gt_snapshot (sg_task st)) in
             let at' := gs_accepted_at (gt_snapshot (sg_task st')) in
             at_ < at' ∨ at_ = at' ∧ TaskId_as_uuid (sg_id st) ≤ TaskId_as_uuid (sg_id st'))
        ∧ let lease := leased st worker token (now + (pg_timestamp expires - pg_timestamp caller)) in
          claim = MkClaimedGraphTask (sg_task lease) token
          ∧ graph_sim db' (fence_with_graph f (<[i := lease]> (graph_records f)))
  | (Err _, _) => False
  end.
Proof.
  intros Hsim Hlt Hcount. unfold pg_claim_next_graph_task.
  assert (expires <=? caller = false) as -> by lia. cbn [reject_if]. rewrite bind_of_Ok.
  pose proof (next_candidate_spec db locked now) as Hnext.
  destruct (next_candidate db locked now) as [[id row]|].
  2: { split; [done|]. intros st Hin Hc. destruct (gm_rows _ _ Hsim st Hin) as (row & Hrow & Hst).
       apply (Hnext _ row Hrow). rewrite (candidate_agrees db f row st now); [done..|].
       by apply (gso_tasks _ (gm_ok _ _ Hsim)). }
  destruct Hnext as (Hrow & Hc & Hno & Hold).
  assert (graph_mode row = true) as Hmode by (unfold claim_candidate in Hc; by props).
  pose proof (gm_graph _ _ Hsim id row Hrow Hmode) as (st & -> & Hin)%list_elem_of_fmap.
  destruct (gm_rows _ _ Hsim st Hin) as (row' & Hrow' & Hst). rewrite Hrow in Hrow'. injection Hrow' as <-.
  rewrite (candidate_agrees db f row st now) in Hc; [|done|by apply (gso_tasks _ (gm_ok _ _ Hsim))].
  pose proof Hin as [i Hi]%list_elem_of_lookup.
  set (until := now + (pg_timestamp expires - pg_timestamp caller)).
  destruct (claim_write db f i st row worker token until now) as (Hck & Hdec & Hsim'); [done..|].
  specialize (Hcount _ _ Hrow). cbn [vt_attempt_count row_claimed_by].
  assert (I32_MAX <? vt_attempt_count row + 1 = false) as -> by lia. cbn [reject_if].
  rewrite write_task_Ok, !bind_of_Ok by done. cbn [transaction]. rewrite Hdec, bind_of_Ok.
  exists i, st. split_and!; try done. intros st' Hin' Hc' Hno'.
  destruct (gm_rows _ _ Hsim st' Hin') as (row2 & Hrow2 & Hst2).
  rewrite <- (submitted_at_of _ _ _ _ Hst), <- (submitted_at_of _ _ _ _ Hst2).
  apply (Hold _ row2 Hrow2); [|done]. rewrite (candidate_agrees db f row2 st' now); [done..|].
  by apply (gso_tasks _ (gm_ok _ _ Hsim)).
Qed.

(** C27: A worker that shuts down cannot give back the evaluation it has just claimed.  The
    statement would make the row [pending] again without clearing the time it was started
    at, which the table's check forbids: it fails, the claim stays, and until the claim
    expires no claim hands the task out. *)
Theorem claimed_evaluation_not_released db f st worker token expires :
  graph_sim db f → st ∈ graph_records f → gt_status (sg_task st) = InProgress →
  sg_claimed_by st = Some worker → sg_claim_token st = Some token →
  sg_claim_expires_at st = Some expires →
  pg_release_claimed_graph_task db (sg_id st) worker token = (Err sqlx_error, db)
  ∧ (∀ other, (release_claimed_graph_task f (sg_id st) worker other).1 = (other =? token))
  ∧ ∀ locked now id row, now < expires → next_candidate db locked now = Some (id, row) → id ≠ sg_id st.
Proof.
  intros Hsim Hin Hs Hb Ht He. destruct (gm_rows _ _ Hsim st Hin) as (row & Hrow & Hst). split_and!.
  - by eapply evaluation_release_fails.
  - intros other. unfold release_claimed_graph_task.
    destruct (owned_cases db f (sg_id st) worker other Hsim)
      as [(i & st2 & row2 & Hi & Hid & _ & _ & _ & _ & Ht2 & _ & Hfind)|[Hfind _]];
      cbv zeta in Hfind; rewrite Hfind; symmetry.
    + rewrite (same_task f st st2 (gm_ok _ _ Hsim) Hin) in Ht2;
        [|by eapply list_elem_of_lookup_2|done]. apply Z.eqb_eq. congruence.
    + apply Z.eqb_neq. intros ->. rewrite find_first_None in Hfind. specialize (Hfind st Hin).
      by rewrite Hb, Ht, !eqb_same in Hfind.
  - intros locked now id row2 Hlt Hn ->. pose proof (next_candidate_spec db locked now) as Hspec.
    rewrite Hn in Hspec. destruct Hspec as (Hr & Hc & _). rewrite Hrow in Hr. injection Hr as <-.
    rewrite (candidate_agrees db f row st now) in Hc; [|done|by apply (gso_tasks _ (gm_ok _ _ Hsim))].
    unfold claimable in Hc. rewrite He in Hc. props. cbn in *. props. lia.
Qed.

(** The outcome of an operation that changes nothing when it fails. *)
Definition kept {A} (f : Fence) (r : result ApplicationError (A * Fence)) :
    result ApplicationError A * Fence :=
  match r with Ok (a, f') => (Ok a, f') | Err e => (Err e, f) end.

(** A retry asked for a time within the deadline is the same; one asked for a later time is
    planned for the deadline in the table. *)
Lemma retry_within `{!PgTimeLaws} db f id worker token caller revision s requested now :
  graph_sim db f → revision < I64_MAX → caller < requested →
  now + (requested - caller) ≤ gs_deadline_at s → (now + (requested - caller)) mod 1000 = 0 →
  agree (pg_schedule_graph_task_retry db id worker token caller revision s requested now now now)
    (kept f (schedule_graph_task_retry f id worker token caller revision s requested now)).
Proof.
  intros Hsim Hrev Hd Hn Hm.
  pose proof (schedule_agrees db f id worker token caller revision s requested now Hsim Hrev Hd) as Ha.
  unfold clamped_request in Ha. rewrite Z.min_l in Ha by done.
  replace (caller + (now + (requested - caller) - now)) with requested in Ha by lia. apply Ha; [lia|done].
Qed.

Lemma retry_beyond `{!PgTimeLaws} db f id worker token caller revision s requested now :
  graph_sim db f → revision < I64_MAX → caller < requested → now < gs_deadline_at s →
  gs_deadline_at s < now + (requested - caller) → gs_deadline_at s mod 1000 = 0 →
  agree (pg_schedule_graph_task_retry db id worker token caller revision s requested now now now)
    (kept f (schedule_graph_task_retry f id worker token caller revision s
               (caller + (gs_deadline_at s - now)) now))
  ∧ ∀ t f', schedule_graph_task_retry f id worker token caller revision s requested now ≠ Ok (Some t, f').
Proof.
  intros Hsim Hrev Hd Hn Hlate Hm. split.
  - pose proof (schedule_agrees db f id worker token caller revision s requested now Hsim Hrev Hd Hn) as Ha.
    unfold clamped_request in Ha. rewrite Z.min_r in Ha by lia. by apply Ha.
  - intros t f'. unfold schedule_graph_task_retry. destruct (find_first _ _) as [[i st]|]; [|done].
    assert ((now + (requested - caller) <=? now) || (gs_deadline_at s <? now + (requested - caller)) = true)
      as -> by lia. done.
Qed.

End safe.
