(* ===== verification/FoldedDb.v ===== *)
(** The Postgres repository of folded attempts
    ([locks-service/src/infrastructure/postgres/folded_auth.rs]).

    Every operation is one statement, or one transaction that locks the attempt's row or
    the admission of its handle, so it is one step on the tables of [TaskTables]; the second
    component of a write is the database it leaves.  [now] is the database's clock: the times
    the callers pass are not read. *)

From S2P Require Import Prelude RustStr Externals Ids Json LockPolicy Wire Errors.
From S2P Require Import GraphTask Fence GraphStore FoldedAuth FoldedStore TaskTables GraphDb.

Section adapter.
  Context `{Base32, TimeCrate, UuidCrate, PubkyKeys, Base64Url, Aead, PlaintextJson, PgTime}.
  Context (cipher_key : bytes).

(** * Rows and attempts *)

Definition validate_stored (attempt : FoldedAuthAttempt) (has_secret : bool) :
    result ApplicationError () :=
  expected_expiry ← ok_or (time_checked_add (fa_created_at attempt) FOLDED_AUTH_TTL)
                      (folded_invalid_state "folded auth expiry overflow");
  let submitted := fa_submitted_proof_bundle attempt in
  _ ← reject_if (negb (expected_expiry =? fa_expires_at attempt)
                 || (resource_creator (fa_pubky_lock_resource attempt) != fa_creator attempt)
                 || (sb2_bundle_id submitted != fa_bundle_id attempt)
                 || (sb2_pubky_lock_resource submitted != fa_pubky_lock_resource attempt)
                 || is_some (sb2_reader_pubky submitted))
        (folded_invalid_state "folded auth durable binding is invalid");
  let pending := fa_status attempt == FoldedPending in
  reject_if (negb (eqb pending has_secret)
             || negb (eqb pending (is_none (fa_terminal_at attempt)))
             || negb (eqb pending (is_none (fa_purge_after attempt)))
             || (negb pending && fa_poll_dispatched attempt)
             || negb (eqb (fa_status attempt == FoldedAccepted) (is_some (fa_task_id attempt))))
    (folded_invalid_state "folded auth durable lifecycle is invalid").

Definition decode_task_id (column : option TaskId) : result ApplicationError (option TaskId) :=
  match column with
  | None => Ok None
  | Some id =>
      id ← map_err (λ _, folded_invalid_state "invalid folded auth task id")
             (TaskId_from_str (TaskId_display id));
      Ok (Some id)
  end.

Definition row_to_stored (hash : FoldedAuthStateHash) (row : FoldedAuthRow) :
    result ApplicationError (FoldedAuthAttempt * option EncryptedFoldedAuthFlowSecret) :=
  _ ← reject_if (negb (length (FoldedAuthStateHash_as_bytes hash) =? 32)%nat)
        (folded_invalid_state "invalid folded auth state hash length");
  _ ← reject_if (negb (length (far_lock_hash row) =? 32)%nat)
        (folded_invalid_state "invalid folded auth lock hash length");
  creator ← map_err (λ _, folded_invalid_state "invalid folded auth creator")
              (CreatorPubky_from_str (far_creator row));
  bundle_id ← map_err (λ _, folded_invalid_state "invalid folded auth bundle id")
                (BundleId_from_str (far_bundle_id row));
  _ ← reject_if (far_generation row <? 0) (folded_invalid_state "invalid folded auth generation");
  lock_resource ← map_err (λ _, folded_invalid_state "invalid folded auth lock resource")
                    (PubkyLockResource_from_str (far_pubky_lock_resource row));
  _ ← reject_if (far_verification_window_seconds row <? 0)
        (folded_invalid_state "invalid folded auth verification window");
  status ← ok_or (FoldedAuthStatus_from_storage_value (far_status row))
             (folded_invalid_state "invalid folded auth status");
  task_id ← decode_task_id (far_task_id row);
  let attempt :=
    MkAttempt creator bundle_id (far_generation row) hash status (far_submitted_proof_bundle row)
      lock_resource (MkLockHash (far_lock_hash row)) (far_verification_window_seconds row)
      (far_graph_policy row) (far_created_at row) (far_expires_at row)
      (is_some (far_poll_dispatched_at row)) (far_terminal_at row) (far_purge_after row) task_id in
  _ ← validate_stored attempt (is_some (far_encrypted_flow_secret row));
  Ok (attempt, MkEncryptedFlow <$> far_encrypted_flow_secret row).

(** [row.map(row_to_stored).transpose()]. *)
Definition stored_of (hash : FoldedAuthStateHash) (row : option FoldedAuthRow) :
    result ApplicationError (option (FoldedAuthAttempt * option EncryptedFoldedAuthFlowSecret)) :=
  match row with
  | None => Ok None
  | Some row => stored ← row_to_stored hash row; Ok (Some stored)
  end.

Definition far_handle (row : FoldedAuthRow) : string * string := (far_creator row, far_bundle_id row).
Definition far_pending (row : FoldedAuthRow) : bool := far_status row == "pending".

(** * Reads *)

(** [ORDER BY generation DESC LIMIT 1]; a handle has each generation once. *)
Definition latest_row (db : LocksDb) (handle : HandleKey) : option (FoldedAuthStateHash * FoldedAuthRow) :=
  max_by_key (λ '(_, row), far_generation row)
    (filter (λ '(_, row), (far_handle row == handle_texts handle) = true) (map_to_list (ld_folded db))).

Definition latest_stored (db : LocksDb) (handle : HandleKey) :
    result ApplicationError
      (option (FoldedAuthStateHash * (FoldedAuthAttempt * option EncryptedFoldedAuthFlowSecret))) :=
  match latest_row db handle with
  | None => Ok None
  | Some (hash, row) => stored ← row_to_stored hash row; Ok (Some (hash, stored))
  end.

Definition pg_get_latest_by_handle (db : LocksDb) (handle : HandleKey) :
    result ApplicationError (option FoldedAuthAttempt) :=
  match latest_stored db handle with
  | Ok (Some (_, (attempt, _))) => Ok (Some attempt)
  | Ok None => Ok None
  | Err e => Err e
  end.

Definition pg_get_by_state_hash (db : LocksDb) (hash : FoldedAuthStateHash) :
    result ApplicationError (option FoldedAuthAttempt) :=
  match stored_of hash (ld_folded db !! hash) with
  | Ok (Some (attempt, _)) => Ok (Some attempt)
  | Ok None => Ok None
  | Err e => Err e
  end.

Definition pg_accepted_graph_task (db : LocksDb) (hash : FoldedAuthStateHash) :
    result ApplicationError (option GraphTaskRecord) :=
  attempt ← pg_get_by_state_hash db hash;
  match attempt with
  | None => Ok None
  | Some attempt =>
      if fa_status attempt != FoldedAccepted then Ok None
      else pg_get_graph_task_by_handle db (fa_handle attempt)
  end.

Definition pg_restore_pending (db : LocksDb) (hash : FoldedAuthStateHash) :
    result ApplicationError (option RestoredFoldedAuthAttempt) :=
  stored ← stored_of hash (ld_folded db !! hash);
  match stored with
  | None => Ok None
  | Some (attempt, encrypted) =>
      if (fa_status attempt != FoldedPending) || fa_poll_dispatched attempt then Ok None
      else
        encrypted ← ok_or encrypted
                      (folded_invalid_state "pending folded auth attempt lacks flow secret");
        flow_secret ← folded_decrypt cipher_key (attempt_context attempt) encrypted;
        Ok (Some (MkRestored attempt flow_secret))
  end.

(** * Statements *)

Definition write_attempt (db : LocksDb) (hash : FoldedAuthStateHash) (row : FoldedAuthRow) :
    result ApplicationError LocksDb :=
  if folded_check hash row then Ok (ld_with_folded db (<[hash := row]> (ld_folded db)))
  else Err sqlx_error.

(** The primary key and the two unique indexes. *)
Definition collides (hash : FoldedAuthStateHash) (row : FoldedAuthRow)
    (other : FoldedAuthStateHash * FoldedAuthRow) : bool :=
  (other.1 == hash)
  || ((far_handle other.2 == far_handle row)
      && ((far_generation other.2 =? far_generation row) || (far_pending other.2 && far_pending row))).

Definition insert_attempt (db : LocksDb) (hash : FoldedAuthStateHash) (row : FoldedAuthRow) :
    result ApplicationError LocksDb :=
  _ ← reject_if (existsb (collides hash row) (map_to_list (ld_folded db))) sqlx_error;
  write_attempt db hash row.

Definition row_ended (row : FoldedAuthRow) (status : string) (now purge_after : OffsetDateTime)
    (task_id : option TaskId) : FoldedAuthRow :=
  MkFoldedAuthRow (far_creator row) (far_bundle_id row) (far_generation row) status
    (far_submitted_proof_bundle row) (far_pubky_lock_resource row) (far_lock_hash row)
    (far_verification_window_seconds row) (far_graph_policy row) None (far_created_at row)
    (far_expires_at row) None (Some now) (Some purge_after) task_id.

Definition row_polled (row : FoldedAuthRow) (dispatched_at : option OffsetDateTime) : FoldedAuthRow :=
  MkFoldedAuthRow (far_creator row) (far_bundle_id row) (far_generation row) (far_status row)
    (far_submitted_proof_bundle row) (far_pubky_lock_resource row) (far_lock_hash row)
    (far_verification_window_seconds row) (far_graph_policy row) (far_encrypted_flow_secret row)
    (far_created_at row) (far_expires_at row) dispatched_at (far_terminal_at row)
    (far_purge_after row) (far_task_id row).

(** [WHERE state_hash = $1 AND generation = $2 AND status = 'pending']. *)
Definition pending_row (db : LocksDb) (hash : FoldedAuthStateHash) (generation : Z) :
    option FoldedAuthRow :=
  row ← ld_folded db !! hash;
  if (far_generation row =? generation) && far_pending row then Some row else None.

(** * Starting *)

Definition new_attempt_row (request : StartFoldedAuthAttempt) (generation : Z)
    (encrypted : EncryptedFoldedAuthFlowSecret) (now expires_at : OffsetDateTime) : FoldedAuthRow :=
  MkFoldedAuthRow (CreatorPubky_display (sf_creator request)) (BundleId_display (sf_bundle_id request))
    generation "pending" (sf_submitted_proof_bundle request)
    (PubkyLockResource_display (sf_pubky_lock_resource request))
    (LockHash_as_bytes (sf_lock_hash request))
    (default I64_MAX (i64_of (sf_verification_window_seconds request))) (sf_graph request)
    (Some (EncryptedFlow_as_str encrypted)) now expires_at None None None None.

(** The latest attempt is ended where it is still pending. *)
Definition end_previous (db : LocksDb)
    (latest : option (FoldedAuthStateHash * (FoldedAuthAttempt * option EncryptedFoldedAuthFlowSecret)))
    (previous_terminal : option (FoldedAuthStatus * OffsetDateTime)) (now : OffsetDateTime) :
    result ApplicationError LocksDb :=
  match latest, previous_terminal with
  | Some (hash, _), Some (status, purge_after) =>
      match ld_folded db !! hash with
      | Some row =>
          if far_pending row
          then write_attempt db hash
                 (row_ended row (FoldedAuthStatus_as_str status) now purge_after (far_task_id row))
          else Err VerificationTaskConflict
      | None => Err VerificationTaskConflict
      end
  | _, _ => Ok db
  end.

Definition pg_start_or_rotate (db : LocksDb) (request : StartFoldedAuthAttempt) (now : OffsetDateTime)
    (nonce : bytes) : result ApplicationError FoldedAuthStartResult * LocksDb :=
  let handle := (sf_creator request, sf_bundle_id request) in
  transaction db
    (_ ← map_err folded_invalid_state (sf_validate request);
     latest ← latest_stored db handle;
     _ ← reject_if (handle_exists db handle) VerificationTaskConflict;
     expires_at ← ok_or (time_checked_add now FOLDED_AUTH_TTL) (Storage "folded auth expiry overflow");
     '(generation, previous_terminal, disposition) ←
       match latest with
       | Some (_, (attempt, _)) => rotation attempt request now
       | None => Ok (1, None, FoldedStarted)
       end;
     encrypted ← folded_encrypt cipher_key nonce
                   (MkFoldedContext (sf_creator request) (sf_bundle_id request) generation
                      (sf_pubky_lock_resource request) (sf_lock_hash request))
                   (sf_flow_secret request);
     generation ← ok_or (i64_of generation) (Storage "folded auth generation exceeds Postgres BIGINT");
     db' ← end_previous db latest previous_terminal now;
     let row := new_attempt_row request generation encrypted now expires_at in
     db' ← insert_attempt db' (sf_state_hash request) row;
     Ok (stored ← row_to_stored (sf_state_hash request) row;
         Ok (MkStartResult (fst stored) disposition), db')).

(** * The poll of an attempt *)

(** [set_poll_dispatched] and the renewal: one [UPDATE] with a predicate on the poll. *)
Definition set_poll (db : LocksDb) (hash : FoldedAuthStateHash) (expected_generation : Z)
    (dispatched : bool) (value : option OffsetDateTime) :
    result ApplicationError (option FoldedAuthAttempt) * LocksDb :=
  match i64_of expected_generation ≫= pending_row db hash with
  | Some row =>
      if eqb (is_some (far_poll_dispatched_at row)) dispatched
      then
        transaction db
          (db' ← write_attempt db hash (row_polled row value);
           Ok (stored ← row_to_stored hash (row_polled row value); Ok (Some (fst stored)), db'))
      else (Ok None, db)
  | None => (Ok None, db)
  end.

Definition pg_mark_poll_dispatched (db : LocksDb) (hash : FoldedAuthStateHash)
    (expected_generation : Z) (now : OffsetDateTime) :=
  set_poll db hash expected_generation false (Some now).
Definition pg_renew_poll_dispatch (db : LocksDb) (hash : FoldedAuthStateHash)
    (expected_generation : Z) (now : OffsetDateTime) :=
  set_poll db hash expected_generation true (Some now).
Definition pg_confirm_not_attempted (db : LocksDb) (hash : FoldedAuthStateHash)
    (expected_generation : Z) :=
  set_poll db hash expected_generation true None.

(** The attempt as the caller is told, without another read. *)
Definition told_ended (a : FoldedAuthAttempt) (status : FoldedAuthStatus)
    (now purge_after : OffsetDateTime) : FoldedAuthAttempt :=
  MkAttempt (fa_creator a) (fa_bundle_id a) (fa_generation a) (fa_state_hash a) status
    (fa_submitted_proof_bundle a) (fa_pubky_lock_resource a) (fa_lock_hash a)
    (fa_verification_window_seconds a) (fa_graph a) (fa_created_at a) (fa_expires_at a) false
    (Some now) (Some purge_after) (fa_task_id a).

Definition told_unpolled (a : FoldedAuthAttempt) : FoldedAuthAttempt :=
  MkAttempt (fa_creator a) (fa_bundle_id a) (fa_generation a) (fa_state_hash a) (fa_status a)
    (fa_submitted_proof_bundle a) (fa_pubky_lock_resource a) (fa_lock_hash a)
    (fa_verification_window_seconds a) (fa_graph a) (fa_created_at a) (fa_expires_at a) false
    (fa_terminal_at a) (fa_purge_after a) (fa_task_id a).

(** [terminalize_pending_tx]: the row is locked and pending. *)
Definition terminalize_pending (db : LocksDb) (hash : FoldedAuthStateHash) (row : FoldedAuthRow)
    (status : FoldedAuthStatus) (now : OffsetDateTime) : result ApplicationError LocksDb :=
  purge_after ← checked_purge_after now;
  write_attempt db hash (row_ended row (FoldedAuthStatus_as_str status) now purge_after (far_task_id row)).

Definition transition_after_poll (db : LocksDb) (hash : FoldedAuthStateHash)
    (expected_generation : Z) (requested_terminal : option FoldedAuthStatus) (now : OffsetDateTime) :
    result ApplicationError (option FoldedAuthAttempt) * LocksDb :=
  match i64_of expected_generation ≫= pending_row db hash with
  | Some row =>
      transaction db
        ('(attempt, _) ← row_to_stored hash row;
         let terminal :=
           if fa_expires_at attempt <=? now then Some FoldedExpired
           else match requested_terminal with
                | Some status => if status != FoldedExpired then Some status else None
                | None => None
                end in
         match terminal with
         | Some status =>
             db' ← terminalize_pending db hash row status now;
             purge_after ← checked_purge_after now;
             Ok (Ok (Some (told_ended attempt status now purge_after)), db')
         | None =>
             db' ← write_attempt db hash (row_polled row None);
             Ok (Ok (Some (told_unpolled attempt)), db')
         end)
  | None => (Ok None, db)
  end.

Definition pg_confirm_pending_generation (db : LocksDb) (hash : FoldedAuthStateHash)
    (expected_generation : Z) (now : OffsetDateTime) :=
  transition_after_poll db hash expected_generation None now.
Definition pg_require_restart (db : LocksDb) (hash : FoldedAuthStateHash) (expected_generation : Z)
    (now : OffsetDateTime) :=
  transition_after_poll db hash expected_generation (Some FoldedRestartRequired) now.
Definition pg_expire (db : LocksDb) (hash : FoldedAuthStateHash) (expected_generation : Z)
    (now : OffsetDateTime) :=
  transition_after_poll db hash expected_generation (Some FoldedExpired) now.

(** * Acceptance *)

Definition insert_graph_task_tx (db : LocksDb) (t : GraphTaskRecord) : result ApplicationError LocksDb :=
  let s := gt_snapshot t in
  _ ← reject_deletion_cutoff db (gs_creator s) (resource_lock_id (gs_pubky_lock_resource s));
  inserted ← insert_graph_row db t;
  ok_or inserted VerificationTaskConflict.

Definition pg_accept_and_insert_graph_task (db : LocksDb) (hash : FoldedAuthStateHash)
    (expected_generation : Z) (task_id : TaskId) (reader : CreatorPubky) (now : OffsetDateTime) :
    result ApplicationError (option GraphTaskRecord) * LocksDb :=
  match i64_of expected_generation ≫= pending_row db hash with
  | Some row =>
      transaction db
        ('(attempt, _) ← row_to_stored hash row;
         if fa_expires_at attempt <=? now then
           db' ← terminalize_pending db hash row FoldedExpired now;
           Ok (Ok None, db')
         else
           task ← map_err folded_invalid_state (attempt_graph_task attempt task_id reader now);
           db' ← insert_graph_task_tx db task;
           purge_after ← checked_purge_after now;
           db' ← write_attempt db' hash (row_ended row "accepted" now purge_after (Some (gt_task_id task)));
           Ok (Ok (Some task), db'))
  | None => (Ok None, db)
  end.

(** * Cleanup *)

(** An [UPDATE] of the pending rows that satisfy a predicate. *)
Definition end_where (folded : gmap FoldedAuthStateHash FoldedAuthRow) (p : FoldedAuthRow → bool)
    (status : string) (now purge_after : OffsetDateTime) :
    result ApplicationError (gmap FoldedAuthStateHash FoldedAuthRow) :=
  let update row :=
    if far_pending row && p row then row_ended row status now purge_after (far_task_id row) else row in
  _ ← reject_if (negb (forallb (λ '(hash, row), negb (far_pending row && p row)
                                                || folded_check hash (update row)) (map_to_list folded)))
        sqlx_error;
  Ok (update <$> folded).

Definition purgeable (now : OffsetDateTime) (row : FoldedAuthRow) : bool :=
  one_of ["accepted"; "expired"; "restart_required"] (Some (far_status row))
  && is_some_and (λ purge_after, purge_after <=? now) (far_purge_after row).

(** The count is of rows, which are fewer than 2^64. *)
Definition pg_purge_terminal_before (db : LocksDb) (now : OffsetDateTime) :
    result ApplicationError Z * LocksDb :=
  transaction db
    (purge_after ← checked_purge_after now;
     let abandoned_before := now - FOLDED_AUTH_POLL_ABANDONED_AFTER in
     folded ← end_where (ld_folded db) (λ row, far_expires_at row <=? now) "expired" now purge_after;
     folded ← end_where folded
                (λ row, is_some_and (λ t, t <=? abandoned_before) (far_poll_dispatched_at row))
                "restart_required" now purge_after;
     let kept := filter (λ '(_, row), purgeable now row = false) folded in
     Ok (Ok (Z.of_nat (size folded) - Z.of_nat (size kept)), ld_with_folded db kept)).
End adapter.
