(* ===== verification/FoldedDbSim.v ===== *)
(** The Postgres repository of folded attempts against the in-memory one: the rows of
    stored attempts, the relation between the two states, and the operations. *)

From S2P Require Import Prelude RustStr Externals Ids Json LockPolicy Wire Errors.
From S2P Require Import GraphTask Fence GraphStore FoldedAuth FoldedStore FoldedInv FoldedSteps.
From S2P Require Import TaskTables GraphDb GraphDbSim GraphDbSafe FoldedDb.

Section sim.
  Context `{Base32, TimeLaws, UuidCrate, PubkyKeys, Base64Url, Aead, PlaintextJson, PgTime}.
  Context (cipher_key : bytes).

(** * Rows *)

(** The row of a stored attempt. *)
Definition row_of (st : StoredAttempt) : FoldedAuthRow :=
  let a := sa_attempt st in
  MkFoldedAuthRow (CreatorPubky_display (fa_creator a)) (BundleId_display (fa_bundle_id a))
    (fa_generation a) (FoldedAuthStatus_as_str (fa_status a)) (fa_submitted_proof_bundle a)
    (PubkyLockResource_display (fa_pubky_lock_resource a)) (LockHash_as_bytes (fa_lock_hash a))
    (fa_verification_window_seconds a) (fa_graph a)
    (EncryptedFlow_as_str <$> sa_encrypted_flow_secret st) (fa_created_at a) (fa_expires_at a)
    (sa_poll_dispatched_at st) (fa_terminal_at a) (fa_purge_after a) (fa_task_id a).

(** What the columns can hold and the parsers read back. *)
Record attempt_wf (a : FoldedAuthAttempt) : Prop := {
  aw_creator : CreatorPubky_from_str (CreatorPubky_display (fa_creator a)) = Ok (fa_creator a);
  aw_bundle : BundleId_from_str (BundleId_display (fa_bundle_id a)) = Ok (fa_bundle_id a);
  aw_resource : PubkyLockResource_from_str (PubkyLockResource_display (fa_pubky_lock_resource a))
                = Ok (fa_pubky_lock_resource a);
  aw_hash : length (FoldedAuthStateHash_as_bytes (fa_state_hash a)) = 32%nat;
  aw_lock : length (LockHash_as_bytes (fa_lock_hash a)) = 32%nat;
  aw_window : 60 ≤ fa_verification_window_seconds a ≤ 604800;
  aw_generation : 0 < fa_generation a ≤ I64_MAX;
  aw_owner : resource_creator (fa_pubky_lock_resource a) = fa_creator a;
  aw_submitted : sb2_bundle_id (fa_submitted_proof_bundle a) = fa_bundle_id a
    ∧ sb2_pubky_lock_resource (fa_submitted_proof_bundle a) = fa_pubky_lock_resource a
    ∧ sb2_reader_pubky (fa_submitted_proof_bundle a) = None;
  aw_expiry : time_checked_add (fa_created_at a) FOLDED_AUTH_TTL = Some (fa_expires_at a);
  aw_task id : fa_task_id a = Some id → TaskId_from_str (TaskId_display id) = Ok id;
}.

Lemma status_storage status :
  FoldedAuthStatus_from_storage_value (FoldedAuthStatus_as_str status) = Some status.
Proof. by destruct status. Qed.

Lemma attempt_columns st :
  attempt_ok st →
  fa_expires_at (sa_attempt st) = fa_created_at (sa_attempt st) + FOLDED_AUTH_TTL
  ∧ fa_poll_dispatched (sa_attempt st) = is_some (sa_poll_dispatched_at st)
  ∧ match fa_status (sa_attempt st) with
    | FoldedPending =>
        is_Some (sa_encrypted_flow_secret st) ∧ fa_terminal_at (sa_attempt st) = None
        ∧ fa_purge_after (sa_attempt st) = None ∧ fa_task_id (sa_attempt st) = None
    | status =>
        sa_encrypted_flow_secret st = None ∧ sa_poll_dispatched_at st = None
        ∧ (∃ t, fa_terminal_at (sa_attempt st) = Some t
                ∧ fa_purge_after (sa_attempt st) = Some (t + FOLDED_AUTH_TOMBSTONE_TTL))
        ∧ match status with
          | FoldedAccepted => is_Some (fa_task_id (sa_attempt st))
          | _ => fa_task_id (sa_attempt st) = None
          end
    end.
Proof.
  intros (He & Hp & Hlife). split_and!; [done|done|]. unfold sa_status in Hlife.
  destruct (fa_status (sa_attempt st)); cbn in Hlife; [done| | |];
    destruct Hlife as (? & ? & ? & Ht); split_and!; try done; [by apply Ht| |];
    destruct (fa_task_id _); try done; by discriminate (proj1 Ht (ex_intro _ _ eq_refl)).
Qed.

Lemma validate_stored_Ok st :
  attempt_wf (sa_attempt st) → attempt_ok st →
  validate_stored (sa_attempt st) (is_some (sa_encrypted_flow_secret st)) = Ok ().
Proof.
  intros [_ _ _ _ _ _ _ Hown (Hb & Hr & Hre) Hexp _] (_ & Hpoll & Hlife)%attempt_columns. unfold validate_stored.
  rewrite Hexp. cbn [ok_or]. rewrite bind_of_Ok, Z.eqb_refl, Hown, Hb, Hr, Hre, !eqb_same. cbn [negb orb reject_if is_some].
  rewrite bind_of_Ok, Hpoll. apply reject_if_Ok.
  destruct (fa_status (sa_attempt st)); [by destruct Hlife as ([? ->] & -> & -> & ->)| | |];
    by destruct Hlife as (-> & -> & (t & -> & ->) & Ht); first [rewrite Ht|destruct Ht as [? ->]].
Qed.

(** The decoder gives back the attempt and its secret. *)
Lemma row_of_decodes st :
  attempt_wf (sa_attempt st) → attempt_ok st →
  row_to_stored (sa_hash st) (row_of st) = Ok (sa_attempt st, sa_encrypted_flow_secret st).
Proof.
  intros Hwf Hok. pose proof (validate_stored_Ok st Hwf Hok) as Hval.
  destruct Hwf as [Hc Hb Hr Hh Hl Hw Hg _ _ _ Ht]. destruct Hok as (_ & Hpoll & _).
  unfold row_to_stored. cbn [row_of far_lock_hash far_creator far_bundle_id far_generation
    far_pubky_lock_resource far_verification_window_seconds far_status far_task_id
    far_submitted_proof_bundle far_graph_policy far_created_at far_expires_at far_poll_dispatched_at
    far_terminal_at far_purge_after far_encrypted_flow_secret].
  unfold sa_hash. rewrite Hh, Hl, Hc, Hb, Hr, status_storage.
  assert (fa_generation (sa_attempt st) <? 0 = false) as -> by lia.
  assert (fa_verification_window_seconds (sa_attempt st) <? 0 = false) as -> by lia.
  cbn [Nat.eqb negb reject_if map_err ok_or]. rewrite !bind_of_Ok.
  assert (decode_task_id (fa_task_id (sa_attempt st)) = Ok (fa_task_id (sa_attempt st))) as ->.
  { unfold decode_task_id. destruct (fa_task_id _) as [id|]; [|done]. by rewrite (Ht id eq_refl). }
  rewrite bind_of_Ok. destruct st as [[] enc poll]. cbn in *. subst. destruct fa_lock_hash. cbn in *.
  assert (is_some (EncryptedFlow_as_str <$> enc) = is_some enc) as -> by (by destruct enc).
  rewrite Hval, bind_of_Ok. do 2 f_equal. by destruct enc as [[]|].
Qed.

(** The table's checks hold. *)
Lemma row_of_checks st :
  attempt_wf (sa_attempt st) → attempt_ok st → folded_check (sa_hash st) (row_of st) = true.
Proof.
  intros [_ _ _ Hh Hl Hw Hg _ _ _ _] (He & Hpoll & Hlife)%attempt_columns. unfold folded_check, sa_hash.
  cbn [row_of far_lock_hash far_generation far_verification_window_seconds far_status far_task_id
    far_created_at far_expires_at far_poll_dispatched_at far_terminal_at far_purge_after
    far_encrypted_flow_secret]. rewrite Hh, Hl, He, Z.eqb_refl.
  assert (0 <? fa_generation (sa_attempt st) = true) as -> by lia.
  assert (in_range 60 604800 (fa_verification_window_seconds (sa_attempt st)) = true) as ->
    by (apply in_range_true; lia). cbn [andb Nat.eqb].
  destruct (fa_status (sa_attempt st)); [by destruct Hlife as ([? ->] & -> & -> & ->)| | |];
    by destruct Hlife as (-> & -> & (t & -> & ->) & Ht); first [rewrite Ht|destruct Ht as [? ->]].
Qed.

(** * The relation *)

(** The rows are those of the stored attempts. *)
Definition rows_of (folded : gmap FoldedAuthStateHash FoldedAuthRow) (records : list StoredAttempt) :
    Prop :=
  ∀ hash row, folded !! hash = Some row ↔
    ∃ st, st ∈ records ∧ sa_hash st = hash ∧ row = row_of st.

Record folded_sim (db : LocksDb) (s : FoldedState) : Prop := {
  fs_graph : graph_sim db (fo_fence s);
  fs_ok : folded_ok s;
  fs_wf st : st ∈ fo_records s → attempt_wf (sa_attempt st);
  fs_rows : rows_of (ld_folded db) (fo_records s);
}.

Lemma row_handle_text st : far_handle (row_of st) = handle_texts (sa_handle st).
Proof. done. Qed.

Lemma row_pending st : far_pending (row_of st) = (sa_status st == FoldedPending).
Proof. unfold far_pending, sa_status. cbn. by destruct (fa_status (sa_attempt st)). Qed.

(** The pending rows are the reserved handles. *)
Lemma pending_rows db s :
  folded_ok s → rows_of (ld_folded db) (fo_records s) →
  ∀ h, h ∈ folded_auth_reservations (fo_fence s) ↔ pending_folded_auth db h = true.
Proof.
  intros Hok Hrows h. rewrite (fk_reserved _ Hok). unfold pending_folded_auth.
  rewrite existsb_exists. split.
  - intros (st & Hin & Hst & <-). exists (sa_hash st, row_of st).
    split; [apply list_elem_of_In, elem_of_map_to_list, Hrows; by exists st|].
    pose proof (row_pending st) as Hp. unfold far_pending in Hp. rewrite Hp, Hst.
    change (far_creator _, far_bundle_id _) with (handle_texts (sa_handle st)). by rewrite !eqb_same.
  - intros ([hash row] & Hin & Hp). apply list_elem_of_In, elem_of_map_to_list in Hin.
    apply Hrows in Hin as (st & Hin & _ & ->). exists st. split; [done|].
    apply andb_true_iff in Hp as [Hh Hp].
    change (far_status (row_of st) == "pending") with (far_pending (row_of st)) in Hp.
    rewrite row_pending in Hp. rewrite eqb_true in Hp. rewrite eqb_true in Hh. split; [done|]. by apply handle_texts_inj.
Qed.

(** The graph tasks do not see what becomes of attempts. *)
Lemma sim_intro db f folded s :
  graph_sim db f → fo_fence s = fence_with_reservations f (folded_auth_reservations (fo_fence s)) →
  folded_ok s → (∀ st, st ∈ fo_records s → attempt_wf (sa_attempt st)) →
  rows_of folded (fo_records s) → folded_sim (ld_with_folded db folded) s.
Proof.
  intros Hg Hf Hok Hwf Hrows. split; [|done|done|done].
  pose proof (pending_rows (ld_with_folded db folded) s Hok Hrows) as Hpend.
  destruct Hg as [Hgok Hr Hgr Ht Hh Hu Hs Hc _]. rewrite Hf in *. split; cbn; try done.
  - by eapply graph_store_ok_records; [| |exact Hgok].
  - intros st Hin. destruct (Hr st Hin) as (row & Hrow & [? ? ? ? ? ? ? ?]).
    exists row. split; [done|]. by split.
Qed.

(** ** Writes *)

Lemma rows_write folded records i st st' :
  rows_of folded records → NoDup (sa_hash <$> records) → records !! i = Some st →
  sa_hash st' = sa_hash st → rows_of (<[sa_hash st := row_of st']> folded) (<[i := st']> records).
Proof.
  intros Hrows Hnd Hi Hh hash row.
  assert (∀ j x, records !! j = Some x → sa_hash x = sa_hash st → j = i) as Huniq.
  { intros j x Hj Hx. eapply NoDup_lookup; [exact Hnd| |]; rewrite list_lookup_fmap; [by rewrite Hj|].
    rewrite Hi. cbn. by rewrite Hx. }
  split.
  - intros [[<- <-]|[Hne Hl]]%lookup_insert_Some.
    + exists st'. split; [|done]. apply (elem_of_insert_at _ _ _ _ _ Hi). by left.
    + apply Hrows in Hl as (x & Hx & <- & ->). exists x. split; [|done].
      apply (elem_of_insert_at _ _ _ _ _ Hi). right. apply list_elem_of_lookup in Hx as [j Hj].
      exists j. split; [|done]. intros ->. congruence.
  - intros (x & Hx & <- & ->). apply (elem_of_insert_at _ _ _ _ _ Hi) in Hx as [->|(j & Hne & Hj)].
    + by rewrite Hh, lookup_insert_eq.
    + rewrite lookup_insert_ne; [apply Hrows; exists x; split; [by eapply list_elem_of_lookup_2|done]|].
      intros Heq. apply Hne. by apply (Huniq j x).
Qed.

Lemma wf_write s i st' :
  (∀ st, st ∈ fo_records s → attempt_wf (sa_attempt st)) → attempt_wf (sa_attempt st') →
  ∀ st, st ∈ <[i := st']> (fo_records s) → attempt_wf (sa_attempt st).
Proof.
  intros Hwf Hst' st [j Hj]%list_elem_of_lookup.
  apply list_lookup_insert_Some in Hj as [(-> & <- & _)|[_ Hj]]; [done|].
  by eapply Hwf, list_elem_of_lookup_2.
Qed.

Lemma wf_polled st o : attempt_wf (sa_attempt st) → attempt_wf (sa_attempt (with_poll st o)).
Proof. intros []. by split. Qed.

Lemma wf_ended st status now purge_after task :
  attempt_wf (sa_attempt st) → (∀ id, task = Some id → TaskId_from_str (TaskId_display id) = Ok id) →
  attempt_wf (sa_attempt (terminalized st status now purge_after task)).
Proof. intros [] Ht. by split. Qed.

(** An attempt's row is written, and its reservation kept or released. *)
Lemma sim_write_attempt db s i st st' f' :
  folded_sim db s → fo_records s !! i = Some st → sa_hash st' = sa_hash st →
  attempt_wf (sa_attempt st') →
  f' = fence_with_reservations (fo_fence s) (folded_auth_reservations f') →
  folded_ok (MkFoldedState f' (<[i := st']> (fo_records s))) →
  write_attempt db (sa_hash st) (row_of st')
  = Ok (ld_with_folded db (<[sa_hash st := row_of st']> (ld_folded db)))
  ∧ row_to_stored (sa_hash st) (row_of st') = Ok (sa_attempt st', sa_encrypted_flow_secret st')
  ∧ folded_sim (ld_with_folded db (<[sa_hash st := row_of st']> (ld_folded db)))
      (MkFoldedState f' (<[i := st']> (fo_records s))).
Proof.
  intros Hsim Hi Hh Hwf Hf Hok.
  assert (attempt_ok st') as Hat.
  { apply (fk_attempts _ Hok). cbn. apply (elem_of_insert_at _ _ _ _ _ Hi). by left. }
  split_and!.
  - unfold write_attempt. rewrite <- Hh, row_of_checks by done. done.
  - rewrite <- Hh. by apply row_of_decodes.
  - eapply sim_intro; [apply (fs_graph _ _ Hsim)|done|done| |].
    + apply wf_write; [apply Hsim|done].
    + apply rows_write; [apply Hsim|apply (fk_hashes _ (fs_ok _ _ Hsim))|done|done].
Qed.

(** ** Searches *)

Lemma find_hash db s hash :
  folded_sim db s →
  (∃ i st, find_first (λ st, sa_hash st == hash) (fo_records s) = Some (i, st)
     ∧ fo_records s !! i = Some st ∧ sa_hash st = hash ∧ ld_folded db !! hash = Some (row_of st)
     ∧ stored_of hash (ld_folded db !! hash)
       = Ok (Some (sa_attempt st, sa_encrypted_flow_secret st)))
  ∨ find_first (λ st, sa_hash st == hash) (fo_records s) = None ∧ ld_folded db !! hash = None.
Proof.
  intros Hsim. destruct (find_first _ _) as [[i st]|] eqn:Hf.
  - left. apply find_first_Some in Hf as [Hi Hh]. props. subst hash.
    pose proof (list_elem_of_lookup_2 _ _ _ Hi) as Hin.
    assert (ld_folded db !! sa_hash st = Some (row_of st)) as Hrow by (apply (fs_rows _ _ Hsim); by exists st).
    exists i, st. split_and!; try done. rewrite Hrow. cbn [stored_of].
    rewrite row_of_decodes; [done|by apply (fs_wf _ _ Hsim)|by apply (fk_attempts _ (fs_ok _ _ Hsim))].
  - right. split; [done|]. destruct (ld_folded db !! hash) as [row|] eqn:Hrow; [|done].
    apply (fs_rows _ _ Hsim) in Hrow as (st & Hin & Hh & _). rewrite find_first_None in Hf.
    specialize (Hf st Hin). cbn in Hf. by rewrite Hh, eqb_same in Hf.
Qed.

Lemma pending_cases db s hash generation :
  folded_sim db s →
  (∃ i st, exact_pending s hash generation = Some (i, st) ∧ fo_records s !! i = Some st
     ∧ sa_hash st = hash ∧ sa_status st = FoldedPending ∧ attempt_wf (sa_attempt st) ∧ attempt_ok st
     ∧ i64_of generation ≫= pending_row db hash = Some (row_of st)
     ∧ row_to_stored hash (row_of st) = Ok (sa_attempt st, sa_encrypted_flow_secret st))
  ∨ exact_pending s hash generation = None ∧ i64_of generation ≫= pending_row db hash = None.
Proof.
  intros Hsim. destruct (exact_pending s hash generation) as [[i st]|] eqn:Hp.
  - left. apply exact_pending_Some in Hp as (Hi & <- & <- & Hst).
    pose proof (list_elem_of_lookup_2 _ _ _ Hi) as Hin.
    pose proof (fs_wf _ _ Hsim st Hin) as Hwf. pose proof (fk_attempts _ (fs_ok _ _ Hsim) st Hin) as Hat.
    exists i, st. split_and!; try done; [|by apply row_of_decodes].
    unfold i64_of. pose proof (aw_generation _ Hwf).
    assert (sa_generation st <=? I64_MAX = true) as -> by (unfold sa_generation; lia). cbn.
    unfold pending_row. rewrite (proj2 (fs_rows _ _ Hsim _ _) (ex_intro _ st (conj Hin (conj eq_refl eq_refl)))).
    cbn -[far_pending]. rewrite row_pending, Hst. change (fa_generation (sa_attempt st)) with (sa_generation st).
    by rewrite Z.eqb_refl.
  - right. split; [done|]. unfold i64_of. destruct (generation <=? I64_MAX); [|done]. cbn.
    unfold pending_row. destruct (ld_folded db !! hash) as [row|] eqn:Hrow; [|done]. cbn.
    apply (fs_rows _ _ Hsim) in Hrow as (st & Hin & Hh & ->). unfold exact_pending in Hp.
    rewrite find_first_None in Hp. specialize (Hp st Hin). cbn in Hp. rewrite Hh, eqb_same in Hp.
    change (far_status (row_of st) == "pending") with (far_pending (row_of st)).
    rewrite row_pending. change (far_generation (row_of st)) with (sa_generation st).
    cbn in Hp. by rewrite Hp.
Qed.
End sim.
