(* ===== verification/FoldedDbSafe.v ===== *)
(** The Postgres repository of folded attempts: that it refines the in-memory one, and
    where it does not. *)

From S2P Require Import Prelude RustStr Externals Ids Json LockPolicy Wire Errors GraphTask.
From S2P Require Import Fence GraphStore FoldedAuth FoldedStore FoldedInv FoldedSteps TaskTables.
From S2P Require Import GraphDb GraphDbSim GraphDbSafe FoldedDb FoldedDbSim.

Section safe.
  Context `{Base32, TimeLaws, UuidCrate, PubkyKeys, Base64Url, Aead, PlaintextJson, PgTimeLaws}.
  Context (cipher_key : bytes).

(** Two answers agree, and so do the states they leave. *)
Definition folded_agree {A} (pg : result ApplicationError A * LocksDb)
    (mem : result ApplicationError A * FoldedState) : Prop :=
  pg.1 = mem.1 ∧ folded_sim pg.2 mem.2.

(** An operation of the in-memory repository that fails changes nothing. *)
Definition answered {A} (s : FoldedState) (r : result ApplicationError (A * FoldedState)) :
    result ApplicationError A * FoldedState :=
  match r with Ok (a, s') => (Ok a, s') | Err e => (Err e, s) end.

Lemma unchanged_reservations f : f = fence_with_reservations f (folded_auth_reservations f).
Proof. by destruct f. Qed.

(** * Polls *)

Lemma set_poll_agrees db s hash generation dispatched value :
  folded_sim db s →
  let mem :=
    match exact_pending s hash generation with
    | None => (None, s)
    | Some (i, st) =>
        if eqb (fa_poll_dispatched (sa_attempt st)) dispatched
        then (Some (sa_attempt (with_poll st value)), store_attempt s i (with_poll st value))
        else (None, s)
    end in
  folded_agree (set_poll db hash generation dispatched value) (Ok mem.1, mem.2).
Proof.
  intros Hsim. cbv zeta. unfold set_poll.
  destruct (pending_cases db s hash generation Hsim)
    as [(i & st & Hp & Hi & <- & Hst & Hwf & Hat & Hrow & Hdec)|[Hp Hrow]]; rewrite Hp, Hrow; [|by split].
  destruct Hat as (_ & Hpoll & _). rewrite Hpoll.
  change (far_poll_dispatched_at (row_of st)) with (sa_poll_dispatched_at st).
  destruct (eqb _ dispatched); [|by split].
  change (row_polled (row_of st) value) with (row_of (with_poll st value)).
  destruct (sim_write_attempt db s i st (with_poll st value) (fo_fence s)) as (Hw & Hd & Hs);
    [done|done|done|by apply wf_polled|apply unchanged_reservations
    |by apply poll_preserves; [apply Hsim|..]|].
  rewrite Hw, Hd, !bind_of_Ok. cbn [transaction]. by split.
Qed.

Lemma polls_agree db s hash generation now :
  folded_sim db s →
  let answers (r : option FoldedAuthAttempt * FoldedState) := (Ok r.1, r.2) in
  folded_agree (pg_mark_poll_dispatched db hash generation now)
    (answers (mark_poll_dispatched s hash generation now))
  ∧ folded_agree (pg_renew_poll_dispatch db hash generation now)
      (answers (renew_poll_dispatch s hash generation now))
  ∧ folded_agree (pg_confirm_not_attempted db hash generation)
      (answers (confirm_not_attempted s hash generation)).
Proof.
  intros Hsim. cbv zeta.
  pose proof (set_poll_agrees db s hash generation false (Some now) Hsim) as Hmark.
  pose proof (set_poll_agrees db s hash generation true (Some now) Hsim) as Hrenew.
  pose proof (set_poll_agrees db s hash generation true None Hsim) as Hnot.
  unfold mark_poll_dispatched, renew_poll_dispatch, confirm_not_attempted.
  destruct (exact_pending s hash generation) as [[i st]|]; [|done].
  by destruct (fa_poll_dispatched (sa_attempt st)).
Qed.

(** * Ends *)

Lemma end_agrees db s i st status now :
  folded_sim db s → fo_records s !! i = Some st → sa_status st = FoldedPending →
  attempt_wf (sa_attempt st) → attempt_ok st →
  status = FoldedExpired ∨ status = FoldedRestartRequired →
  match checked_purge_after now with
  | Err e => terminalize_pending db (sa_hash st) (row_of st) status now = Err e
  | Ok p =>
      ∃ db', terminalize_pending db (sa_hash st) (row_of st) status now = Ok db'
        ∧ folded_sim db' (end_attempt s i (terminalize_attempt st status now p))
  end.
Proof.
  intros Hsim Hi Hst Hwf Hat Hs. unfold terminalize_pending.
  destruct (checked_purge_after now) as [p|e] eqn:Hp; [|done]. rewrite bind_of_Ok.
  apply checked_purge_after_Ok in Hp as ->. set (p := now + FOLDED_AUTH_TOMBSTONE_TTL).
  change (row_ended (row_of st) (FoldedAuthStatus_as_str status) now p (far_task_id (row_of st)))
    with (row_of (terminalize_attempt st status now p)).
  destruct (sim_write_attempt db s i st (terminalize_attempt st status now p)
              (release_folded_auth_reservation (fo_fence s) (sa_handle st))) as (Hw & _ & Hs');
    [done|done|done| |done|by apply end_preserves; [apply Hsim|..]|by eexists].
  apply wf_ended; [done|]. by rewrite pending_no_task.
Qed.

(** How a request ends the attempt, when it does. *)
Definition terminal_for (a : FoldedAuthAttempt) (requested : option FoldedAuthStatus)
    (now : OffsetDateTime) : option FoldedAuthStatus :=
  if fa_expires_at a <=? now then Some FoldedExpired
  else match requested with
       | Some status => if status != FoldedExpired then Some status else None
       | None => None
       end.

(** A transition that ends the attempt, or that gives up its poll. *)
Definition mem_transition (s : FoldedState) (hash : FoldedAuthStateHash) (generation : Z)
    (requested : option FoldedAuthStatus) (now : OffsetDateTime) :
    result ApplicationError (option FoldedAuthAttempt) * FoldedState :=
  match exact_pending s hash generation with
  | None => (Ok None, s)
  | Some (i, st) =>
      match terminal_for (sa_attempt st) requested now with
      | Some status =>
          answered s (p ← checked_purge_after now;
                      Ok (Some (sa_attempt (terminalize_attempt st status now p)),
                          end_attempt s i (terminalize_attempt st status now p)))
      | None => (Ok (Some (sa_attempt (with_poll st None))), store_attempt s i (with_poll st None))
      end
  end.

Lemma transition_agrees db s hash generation requested now :
  folded_sim db s →
  (∀ status, requested = Some status → status = FoldedExpired ∨ status = FoldedRestartRequired) →
  folded_agree (transition_after_poll db hash generation requested now)
    (mem_transition s hash generation requested now).
Proof.
  intros Hsim Hreq. unfold transition_after_poll, mem_transition.
  destruct (pending_cases db s hash generation Hsim)
    as [(i & st & Hp & Hi & <- & Hst & Hwf & Hat & Hrow & Hdec)|[Hp Hrow]]; rewrite Hp, Hrow; [|by split].
  rewrite Hdec, bind_of_Ok. fold (terminal_for (sa_attempt st) requested now).
  destruct (terminal_for (sa_attempt st) requested now) as [status|] eqn:Ht.
  - assert (status = FoldedExpired ∨ status = FoldedRestartRequired) as Hs.
    { unfold terminal_for in Ht. destruct (_ <=? now); [injection Ht as <-; by left|].
      destruct requested as [r|]; [|done]. destruct (r != FoldedExpired); [|done]. injection Ht as <-.
      by apply Hreq. }
    pose proof (end_agrees db s i st status now Hsim Hi Hst Hwf Hat Hs) as He.
    destruct (checked_purge_after now) as [p|e]; [|by rewrite He].
    destruct He as (db' & -> & Hsim'). rewrite !bind_of_Ok. by split.
  - change (row_polled (row_of st) None) with (row_of (with_poll st None)).
    destruct (sim_write_attempt db s i st (with_poll st None) (fo_fence s)) as (Hw & _ & Hs);
      [done|done|done|by apply wf_polled|apply unchanged_reservations
      |by apply poll_preserves; [apply Hsim|..]|].
    rewrite Hw, bind_of_Ok. by split.
Qed.

Lemma confirm_agrees db s hash generation now :
  folded_sim db s →
  folded_agree (pg_confirm_pending_generation db hash generation now)
    (answered s (confirm_pending_generation s hash generation now)).
Proof.
  intros Hsim. pose proof (transition_agrees db s hash generation None now Hsim) as Ht.
  unfold mem_transition, terminal_for in Ht. unfold confirm_pending_generation.
  destruct (exact_pending s hash generation) as [[i st]|]; [|by apply Ht].
  destruct (fa_expires_at (sa_attempt st) <=? now); by apply Ht.
Qed.

Lemma restart_agrees db s hash generation now :
  folded_sim db s →
  folded_agree (pg_require_restart db hash generation now)
    (answered s (require_restart s hash generation now)).
Proof.
  intros Hsim. pose proof (transition_agrees db s hash generation (Some FoldedRestartRequired) now Hsim) as Ht.
  unfold mem_transition, terminal_for in Ht. unfold require_restart.
  destruct (exact_pending s hash generation) as [[i st]|]; [|apply Ht; intros ? [= <-]; by right].
  destruct (fa_expires_at (sa_attempt st) <=? now); apply Ht; intros ? [= <-]; by right.
Qed.

Lemma expire_agrees db s hash generation now :
  folded_sim db s →
  (∀ i st, exact_pending s hash generation = Some (i, st) → fa_expires_at (sa_attempt st) ≤ now) →
  folded_agree (pg_expire db hash generation now) (answered s (expire_attempt s hash generation now)).
Proof.
  intros Hsim Hexp. pose proof (transition_agrees db s hash generation (Some FoldedExpired) now Hsim) as Ht.
  unfold mem_transition, terminal_for in Ht. unfold expire_attempt.
  destruct (exact_pending s hash generation) as [[i st]|]; [|apply Ht; intros ? [= <-]; by left].
  specialize (Hexp i st eq_refl). assert (now <? fa_expires_at (sa_attempt st) = false) as -> by lia.
  assert (fa_expires_at (sa_attempt st) <=? now = true) as Hx by lia. rewrite Hx in Ht.
  apply Ht; intros ? [= <-]; by left.
Qed.

(** * Acceptance *)

(** The task of an approved attempt may be admitted. *)
Lemma attempt_task_pristine a task_id reader now task :
  attempt_graph_task a task_id reader now = Ok task → validate_new_task task = Ok ().
Proof.
  intros Ht. pose proof (attempt_graph_task_Ok a task_id reader now task Ht) as (_ & _ & _ & _ & _ & _ & _ & _ & _ & _ & Hv).
  apply bind_Ok in Ht as (sn & Hsn & [= <-]). cbn in Hv. unfold GraphTaskSnapshotV1_new in Hsn.
  apply bind_Ok in Hsn as ([] & _ & Hsn). apply bind_Ok in Hsn as (w & _ & Hsn).
  apply bind_Ok in Hsn as (d & _ & Hsn). apply bind_Ok in Hsn as ([] & _ & [= <-]).
  unfold validate_new_task. cbn [gt_status gt_evaluator_revision gt_entitlement_to_publish
    gt_entitlement_publication_token gt_completed_at gt_snapshot]. pass; [done|].
  apply map_err_Ok. unfold validate_graph_pristine_admission. rewrite Hv, bind_of_Ok.
  apply reject_if_Ok, orb_false_iff. split; [done|]. apply existsb_false.
  by intros st (p & -> & _)%list_elem_of_fmap.
Qed.

(** What the in-memory admission of it comes to. *)
Lemma folded_admission f t :
  validate_new_task t = Ok () → gt_handle t ∈ folded_auth_reservations f →
  (∀ st, st ∈ graph_records f → sg_handle st ≠ gt_handle t) →
  insert_graph_task_under_admission f t (λ _, Ok ()) true =
  (_ ← mem_checks f t;
   _ ← reject_if (existsb (λ st, sg_id st == gt_task_id t) (graph_records f))
         (DuplicateRecord "verification_task");
   Ok (t, MkFence (<[gt_task_id t := new_fence_record t]> (fence_records f))
            (graph_records f ++ [MkStoredGraphTask t None None None None])
            (<[gt_task_id t := gt_status t]> (current_statuses f)) (deletion_cutoffs f)
            (folded_auth_reservations f ∖ {[gt_handle t]}))).
Proof.
  intros Hnew Hres Hnone. unfold insert_graph_task_under_admission, mem_checks.
  rewrite Hnew, !bind_of_Ok, (bool_decide_eq_true_2 (gt_handle t ∈ folded_auth_reservations f)) by done.
  change (negb (eqb true true)) with false.
  cbn [reject_if]. rewrite !bind_of_Ok.
  assert (find_first (λ st, sg_handle st == gt_handle t) (graph_records f) = None) as ->.
  { apply find_first_None. intros st Hin. apply eqb_false. by apply Hnone. }
  destruct (bool_decide (gt_lock_key t ∈ _)); [done|]. cbn [reject_if]. rewrite !bind_of_Ok.
  destruct (is_some (fence_records f !! _) && _); [done|]. cbn [reject_if]. rewrite !bind_of_Ok.
  by destruct (existsb _ (map_to_list (fence_records f))).
Qed.

(** The transaction's insertion succeeds when that admission does. *)
Lemma insert_tx_cases db f t :
  graph_sim db f → validate_new_task t = Ok () →
  TaskId_from_str (TaskId_display (gt_task_id t)) = Ok (gt_task_id t) →
  (∀ st, st ∈ graph_records f → sg_handle st ≠ gt_handle t) →
  (mem_checks f t = Ok () ∧ existsb (λ st, sg_id st == gt_task_id t) (graph_records f) = false
   ∧ is_some (ld_tasks db !! gt_task_id t) || handle_exists db (gt_handle t) = false
   ∧ insert_graph_task_tx db t
     = Ok (ld_with_tasks db (<[gt_task_id t := new_graph_row (gt_snapshot t)]> (ld_tasks db))))
  ∨ (∃ e, insert_graph_task_tx db t = Err e)
    ∧ ¬ (mem_checks f t = Ok () ∧ existsb (λ st, sg_id st == gt_task_id t) (graph_records f) = false).
Proof.
  intros Hsim Hnew Hid Hnone. destruct (new_row_ok t Hnew Hid) as [Hck _].
  pose proof (fresh_checks db f t Hsim Hnone) as Hfresh. unfold insert_graph_task_tx.
  rewrite (cutoff_agrees db f) by done. change (_, resource_lock_id _) with (gt_lock_key t).
  destruct (bool_decide (gt_lock_key t ∈ deletion_cutoffs f)).
  { right. split; [by eexists|]. rewrite Hfresh. by intros [? _]. }
  cbn [reject_if]. rewrite bind_of_Ok. unfold insert_graph_row.
  destruct (is_some (ld_tasks db !! gt_task_id t) || handle_exists db (gt_handle t)).
  { right. split; [by eexists|]. rewrite Hfresh. by intros [_ ?]. }
  left. destruct (proj2 Hfresh (conj eq_refl eq_refl)). by rewrite write_task_Ok, !bind_of_Ok.
Qed.

(** The two writes of an acceptance. *)
Lemma accept_write db s i st t now purge_after :
  let st' := terminalized st FoldedAccepted now purge_after (Some (gt_task_id t)) in
  let f' := MkFence (<[gt_task_id t := new_fence_record t]> (fence_records (fo_fence s)))
              (graph_records (fo_fence s) ++ [MkStoredGraphTask t None None None None])
              (<[gt_task_id t := gt_status t]> (current_statuses (fo_fence s)))
              (deletion_cutoffs (fo_fence s))
              (folded_auth_reservations (fo_fence s) ∖ {[gt_handle t]}) in
  let db' := ld_with_tasks db (<[gt_task_id t := new_graph_row (gt_snapshot t)]> (ld_tasks db)) in
  folded_sim db s → fo_records s !! i = Some st → attempt_wf (sa_attempt st) →
  validate_new_task t = Ok () → TaskId_from_str (TaskId_display (gt_task_id t)) = Ok (gt_task_id t) →
  is_some (ld_tasks db !! gt_task_id t) || handle_exists db (gt_handle t) = false →
  graph_store_ok f' → folded_ok (MkFoldedState f' (<[i := st']> (fo_records s))) →
  ∃ db2, write_attempt db' (sa_hash st) (row_of st') = Ok db2
         ∧ folded_sim db2 (MkFoldedState f' (<[i := st']> (fo_records s))).
Proof.
  intros st' f' db' Hsim Hi Hwf Hnew Hid Hfree Hg Hok. apply orb_false_iff in Hfree as [Hnone Hhe].
  assert (attempt_wf (sa_attempt st')) as Hwf'. { apply wf_ended; [done|]. by intros ? [= <-]. }
  assert (attempt_ok st') as Hat.
  { apply (fk_attempts _ Hok). cbn. apply (elem_of_insert_at _ _ _ _ _ Hi). by left. }
  exists (ld_with_folded db' (<[sa_hash st := row_of st']> (ld_folded db))). split.
  { unfold write_attempt. change (sa_hash st) with (sa_hash st'). by rewrite row_of_checks. }
  apply (sim_intro db' (fence_with_reservations f' (folded_auth_reservations (fo_fence s)))); try done.
  - apply (sim_insert db (fo_fence s) t); try done; [apply Hsim|by apply is_some_false| |].
    + intros h. apply (gm_pending _ _ (fs_graph _ _ Hsim)).
    + by eapply graph_store_ok_records; [| |exact Hg].
  - apply wf_write; [apply Hsim|done].
  - apply rows_write; [apply Hsim|apply (fk_hashes _ (fs_ok _ _ Hsim))|done|done].
Qed.

(** Acceptance by the two adapters: what the in-memory one accepts or finds expired, the
    other does too; when one refuses, so does the other, and nothing changes. *)
Lemma accept_agrees db s hash generation task_id reader now :
  folded_sim db s → TaskId_from_str (TaskId_display task_id) = Ok task_id →
  match accept_and_insert_graph_task s hash generation task_id reader now with
  | Ok (found, s') =>
      ∃ db', pg_accept_and_insert_graph_task db hash generation task_id reader now = (Ok found, db')
             ∧ folded_sim db' s'
  | Err _ => ∃ e, pg_accept_and_insert_graph_task db hash generation task_id reader now = (Err e, db)
  end.
Proof.
  intros Hsim Hid. pose proof (λ o s', accept_preserves s hash generation task_id reader now o s'
    (fs_ok _ _ Hsim)) as Hok. revert Hok.
  unfold pg_accept_and_insert_graph_task, accept_and_insert_graph_task.
  destruct (pending_cases db s hash generation Hsim)
    as [(i & st & Hp & Hi & <- & Hst & Hwf & Hat & Hrow & Hdec)|[Hp Hrow]]; rewrite Hp, Hrow; [|by eexists].
  rewrite Hdec, bind_of_Ok. destruct (fa_expires_at (sa_attempt st) <=? now).
  { intros _. pose proof (end_agrees db s i st FoldedExpired now Hsim Hi Hst Hwf Hat (or_introl eq_refl)) as He.
    destruct (checked_purge_after now) as [p|e]; [|rewrite He; by eexists].
    destruct He as (db' & -> & Hsim'). rewrite !bind_of_Ok. by eexists. }
  destruct (attempt_graph_task (sa_attempt st) task_id reader now) as [t|e] eqn:Ht; [|by eexists].
  cbn [map_err]. rewrite !bind_of_Ok.
  pose proof (attempt_task_pristine _ _ _ _ _ Ht) as Hnew.
  apply attempt_graph_task_Ok in Ht as (Htid & Hth & _). subst task_id.
  change (fa_handle (sa_attempt st)) with (sa_handle st) in Hth.
  assert (gt_handle t ∈ folded_auth_reservations (fo_fence s)) as Hres.
  { rewrite Hth. apply (fk_reserved _ (fs_ok _ _ Hsim)). exists st.
    split; [by eapply list_elem_of_lookup_2|done]. }
  pose proof (fk_free _ (fs_ok _ _ Hsim) _ Hres) as Hno.
  assert (∀ g, g ∈ graph_records (fo_fence s) → sg_handle g ≠ gt_handle t) as Hnone.
  { intros g Hg Heq. apply Hno. rewrite <- Heq. by apply list_elem_of_fmap_2. }
  rewrite (proj2 (has_graph_task_false _ _) Hno).
  pose proof (insert_preserves (fo_fence s) t (λ _, Ok ()) true) as Hg.
  rewrite (folded_admission _ _ Hnew Hres Hnone) in *.
  destruct (insert_tx_cases db (fo_fence s) t (fs_graph _ _ Hsim) Hnew Hid Hnone)
    as [(Hm & Hex & Hfree & ->)|[[e ->] Hbad]].
  2: { intros _. destruct (checked_purge_after now); [|by eexists]. rewrite bind_of_Ok.
       destruct (mem_checks (fo_fence s) t) as [[]|] eqn:Hm; [|by eexists]. rewrite !bind_of_Ok.
       destruct (existsb _ _); [by eexists|]. exfalso. by apply Hbad. }
  rewrite Hm, Hex in *. cbn [reject_if] in *. rewrite !bind_of_Ok in *.
  destruct (checked_purge_after now) as [p|e]; [|by eexists]. rewrite !bind_of_Ok. intros Hok.
  specialize (Hg _ _ (gm_ok _ _ (fs_graph _ _ Hsim)) eq_refl). specialize (Hok _ _ eq_refl).
  destruct (accept_write db s i st t now p Hsim Hi Hwf Hnew Hid Hfree Hg Hok) as (db2 & Hw & Hsim2).
  exists db2. split; [|done].
  change (row_ended (row_of st) "accepted" now p (Some (gt_task_id t)))
    with (row_of (terminalized st FoldedAccepted now p (Some (gt_task_id t)))).
  by rewrite Hw.
Qed.
End safe.

Section refine.
  Context `{Base32, TimeLaws, UuidCrate, PubkyKeys, Base64Url, Aead, PlaintextJson, PgTimeLaws}.
  Context (cipher_key : bytes).

(** Two outcomes agree, and a refused operation changes nothing. *)
Definition outcomes_agree {A} (db : LocksDb) (pg : result ApplicationError A * LocksDb)
    (mem : result ApplicationError (A * FoldedState)) : Prop :=
  match mem with
  | Ok (a, s') => ∃ db', pg = (Ok a, db') ∧ folded_sim db' s'
  | Err _ => ∃ e, pg = (Err e, db)
  end.

(** * Reads *)

(** A row is that of the attempt stored under its hash. *)
Lemma row_attempt db s hash row :
  folded_sim db s → ld_folded db !! hash = Some row →
  ∃ st, st ∈ fo_records s ∧ sa_hash st = hash ∧ row = row_of st
    ∧ row_to_stored hash row = Ok (sa_attempt st, sa_encrypted_flow_secret st).
Proof.
  intros Hsim (st & Hin & <- & ->)%(fs_rows _ _ Hsim). exists st. split_and!; try done.
  apply row_of_decodes; [by apply (fs_wf _ _ Hsim)|by apply (fk_attempts _ (fs_ok _ _ Hsim))].
Qed.

(** The attempts of a handle differ in their generations. *)
Lemma same_generation s st st' :
  folded_ok s → st ∈ fo_records s → st' ∈ fo_records s → sa_handle st' = sa_handle st →
  sa_generation st' = sa_generation st → st' = st.
Proof.
  intros Hok [i Hi]%list_elem_of_lookup [j Hj]%list_elem_of_lookup Hh Hg.
  assert (j = i) as ->; [|congruence].
  eapply NoDup_lookup; [exact (fk_keys _ Hok)| |]; rewrite list_lookup_fmap; [by rewrite Hj|].
  rewrite Hi. cbn. unfold sa_key. by rewrite Hh, Hg.
Qed.

Lemma handle_rows db s handle st :
  folded_sim db s → st ∈ fo_records s → sa_handle st = handle →
  (sa_hash st, row_of st)
  ∈ filter (λ '(_, row), (far_handle row == handle_texts handle) = true) (map_to_list (ld_folded db)).
Proof.
  intros Hsim Hin <-. apply list_elem_of_filter. split; [by rewrite row_handle_text, eqb_same|].
  apply elem_of_map_to_list, (fs_rows _ _ Hsim). by exists st.
Qed.

Lemma latest_agrees db s handle :
  folded_sim db s →
  match latest_index (fo_records s) handle with
  | Some (_, st) =>
      latest_stored db handle = Ok (Some (sa_hash st, (sa_attempt st, sa_encrypted_flow_secret st)))
  | None => latest_stored db handle = Ok None
  end.
Proof.
  intros Hsim. unfold latest_stored, latest_row.
  match goal with |- context [max_by_key ?k ?l] => pose proof (max_by_key_spec k l) as Hm;
    destruct (max_by_key k l) as [[hash row]|] end.
  - destruct Hm as [[Hh Hin]%list_elem_of_filter Hmax]. apply elem_of_map_to_list in Hin.
    destruct (row_attempt db s hash row Hsim Hin) as (x & Hx & <- & -> & ->). rewrite bind_of_Ok.
    rewrite row_handle_text, eqb_true in Hh. apply handle_texts_inj in Hh.
    destruct (latest_index (fo_records s) handle) as [[i st]|] eqn:Hl.
    + apply latest_index_Some in Hl as (Hi & Hst & Hge).
      pose proof (list_elem_of_lookup_2 _ _ _ Hi) as Hin'. rewrite (same_generation s st x); try done.
      * apply (fs_ok _ _ Hsim).
      * congruence.
      * apply Z.le_antisymm; [by apply Hge|].
        by apply (Hmax (sa_hash st, row_of st)), (handle_rows db s).
    + exfalso. by apply (latest_index_None _ _ Hl x).
  - destruct (latest_index (fo_records s) handle) as [[i st]|] eqn:Hl; [|done].
    apply latest_index_Some in Hl as (Hi & Hst & _). apply list_elem_of_lookup_2 in Hi.
    exfalso. apply (not_elem_of_nil (sa_hash st, row_of st)). rewrite <- Hm.
    by apply (handle_rows db s).
Qed.

(** What is read of attempts and of their tasks is the same. *)
Lemma reads_agree db s :
  folded_sim db s →
  (∀ handle, pg_get_latest_by_handle db handle = Ok (get_latest_by_handle s handle))
  ∧ (∀ hash, pg_get_by_state_hash db hash = Ok (get_by_state_hash s hash))
  ∧ (∀ hash, pg_accepted_graph_task db hash = Ok (folded_accepted_graph_task s hash))
  ∧ (∀ hash, pg_restore_pending cipher_key db hash = restore_pending cipher_key s hash).
Proof.
  intros Hsim.
  assert (∀ hash, pg_get_by_state_hash db hash = Ok (get_by_state_hash s hash)) as Hget.
  { intros hash. unfold pg_get_by_state_hash, get_by_state_hash.
    by destruct (find_hash db s hash Hsim) as [(i & st & -> & _ & _ & _ & ->)|[-> ->]]. }
  split_and!; [|done|..].
  - intros handle. unfold pg_get_latest_by_handle, get_latest_by_handle.
    pose proof (latest_agrees db s handle Hsim) as Hl.
    by destruct (latest_index (fo_records s) handle) as [[i st]|]; rewrite Hl.
  - intros hash. unfold pg_accepted_graph_task, folded_accepted_graph_task.
    rewrite Hget, bind_of_Ok. destruct (get_by_state_hash s hash) as [a|]; [|done]. cbn -[eqb].
    destruct (fa_status a != FoldedAccepted); [done|].
    unfold pg_get_graph_task_by_handle, get_graph_task_by_handle.
    destruct (found_row db (fo_fence s) (fa_handle a) (fs_graph _ _ Hsim))
      as [(i & st & row & -> & _ & _ & -> & Hdec)|[-> ->]]; [|done].
    by rewrite Hdec.
  - intros hash. unfold pg_restore_pending, restore_pending.
    destruct (find_hash db s hash Hsim) as [(i & st & -> & _ & _ & _ & ->)|[-> ->]];
      done.
Qed.

(** * Cleanup *)

(** Tables and records that change row by row. *)
Lemma rows_fmap folded l (u : FoldedAuthRow → FoldedAuthRow) (g : StoredAttempt → StoredAttempt) :
  rows_of folded l → (∀ st, st ∈ l → sa_hash (g st) = sa_hash st ∧ u (row_of st) = row_of (g st)) →
  rows_of (u <$> folded) (g <$> l).
Proof.
  intros Hrows Hg hash row. rewrite lookup_fmap, fmap_Some. split.
  - intros (x & (st & Hin & <- & ->)%Hrows & ->). destruct (Hg st Hin) as [Hh ->].
    exists (g st). split; [by apply list_elem_of_fmap_2|done].
  - intros (x & (st & -> & Hin)%list_elem_of_fmap & <- & ->). destruct (Hg st Hin) as [Hh Hu].
    exists (row_of st). split; [|done]. apply Hrows. by exists st.
Qed.

Lemma rows_filter folded l (p : FoldedAuthRow → bool) (keep : StoredAttempt → bool) :
  rows_of folded l → NoDup (sa_hash <$> l) → (∀ st, st ∈ l → p (row_of st) = negb (keep st)) →
  rows_of (filter (λ '(_, row), p row = false) folded) (filter (λ st, keep st = true) l).
Proof.
  intros Hrows Hnd Hp hash row. rewrite map_lookup_filter_Some. split.
  - intros [(st & Hin & <- & ->)%Hrows Hf]. cbn in Hf. exists st. split; [|done].
    rewrite (Hp st Hin) in Hf. by apply list_elem_of_filter; split; [apply negb_false_iff|].
  - intros (st & [Hk Hin]%list_elem_of_filter & <- & ->). split; [apply Hrows; by exists st|].
    cbn. by rewrite (Hp st Hin), Hk.
Qed.

Lemma rows_size folded l : rows_of folded l → NoDup (sa_hash <$> l) → size folded = length l.
Proof.
  intros Hrows Hnd. rewrite <- length_map_to_list, <- (length_fmap (λ st, (sa_hash st, row_of st)) l).
  apply Permutation_length, NoDup_Permutation.
  - apply NoDup_map_to_list.
  - apply (NoDup_fmap_1 fst). by rewrite <- list_fmap_compose.
  - intros [hash row]. rewrite elem_of_map_to_list, list_elem_of_fmap, (Hrows hash row).
    split; intros (st & ? & ?); exists st; [split; [by f_equal; naive_solver|naive_solver]|naive_solver].
Qed.

(** One of the two updates. *)
Definition end_one (p : FoldedAuthRow → bool) (status : FoldedAuthStatus)
    (now purge_after : OffsetDateTime) (st : StoredAttempt) : StoredAttempt :=
  if (sa_status st == FoldedPending) && p (row_of st) then terminalize_attempt st status now purge_after
  else st.

Lemma end_one_ok p status now st :
  (status = FoldedExpired ∨ status = FoldedRestartRequired) →
  attempt_wf (sa_attempt st) → attempt_ok st →
  let st' := end_one p status now (now + FOLDED_AUTH_TOMBSTONE_TTL) st in
  attempt_wf (sa_attempt st') ∧ attempt_ok st'.
Proof.
  intros Hs Hwf Hok. unfold end_one. destruct (sa_status st == FoldedPending) eqn:Hp; [|done].
  rewrite eqb_true in Hp. destruct (p (row_of st)); [|done]. cbn [andb].
  unfold terminalize_attempt. rewrite (pending_no_task st Hok Hp). split; [by apply wf_ended|].
  by eapply am_ok, (end_moves st); [..|split; [by intros []|]]; try done; destruct Hs as [->| ->].
Qed.

Lemma end_where_agrees folded l p status now :
  (status = FoldedExpired ∨ status = FoldedRestartRequired) → rows_of folded l →
  (∀ st, st ∈ l → attempt_wf (sa_attempt st) ∧ attempt_ok st) →
  let q := now + FOLDED_AUTH_TOMBSTONE_TTL in
  ∃ folded', end_where folded p (FoldedAuthStatus_as_str status) now q = Ok folded'
    ∧ rows_of folded' (end_one p status now q <$> l)
    ∧ ∀ st, st ∈ end_one p status now q <$> l → attempt_wf (sa_attempt st) ∧ attempt_ok st.
Proof.
  intros Hs Hrows Hl q.
  set (u := λ row, if far_pending row && p row
                   then row_ended row (FoldedAuthStatus_as_str status) now q (far_task_id row) else row).
  assert (∀ st, u (row_of st) = row_of (end_one p status now q st)) as Hu.
  { intros st. unfold u, end_one. rewrite row_pending. by destruct (_ && _). }
  assert (∀ st, st ∈ end_one p status now q <$> l → attempt_wf (sa_attempt st) ∧ attempt_ok st) as Hl'.
  { intros x (st & -> & Hin)%list_elem_of_fmap. destruct (Hl st Hin). by apply end_one_ok. }
  exists (u <$> folded). split_and!; [|apply rows_fmap; [done|]|done].
  - change ((_ ← reject_if (negb (forallb (λ '(hash, row), negb (far_pending row && p row)
                                                         || folded_check hash (u row)) (map_to_list folded)))
                   sqlx_error; Ok (u <$> folded)) = Ok (u <$> folded)).
    rewrite (proj2 (forallb_forall _ _)); [done|]. intros [hash row] Hin%list_elem_of_In%elem_of_map_to_list.
    apply Hrows in Hin as (st & Hin & <- & ->). apply orb_true_iff. right. rewrite Hu.
    assert (sa_hash st = sa_hash (end_one p status now q st)) as ->
      by (unfold end_one; by destruct (_ && _)).
    by apply row_of_checks; apply Hl'; apply list_elem_of_fmap_2.
  - intros st Hin. split; [unfold end_one; by destruct (_ && _)|done].
Qed.

(** The two updates are the sweep. *)
Lemma sweep_two now q st :
  end_one (λ row, is_some_and (λ t, t <=? now - FOLDED_AUTH_POLL_ABANDONED_AFTER)
                    (far_poll_dispatched_at row)) FoldedRestartRequired now q
    (end_one (λ row, far_expires_at row <=? now) FoldedExpired now q st)
  = sweep_one now q st.
Proof.
  unfold sweep_one, swept, end_one at 2. destruct (sa_status st == FoldedPending) eqn:Hp.
  - change (far_expires_at (row_of st)) with (fa_expires_at (sa_attempt st)). cbn [andb].
    destruct (_ <=? now); [done|]. unfold end_one. rewrite Hp. cbn [andb].
    change (is_some_and _ (far_poll_dispatched_at (row_of st))) with (abandoned st now).
    by destruct (abandoned st now).
  - cbn [andb]. unfold end_one. by rewrite Hp.
Qed.

Lemma sweep_frame f l now p :
  (sweep f l now p).1 = fence_with_reservations f (folded_auth_reservations (sweep f l now p).1).
Proof.
  revert f. induction l as [|st l IH]; intros f; cbn [sweep]; [by destruct f|].
  destruct (swept st now p).
  - pose proof (IH (release_folded_auth_reservation f (sa_handle st))) as Hf.
    destruct (sweep _ l now p) as [f' l']. exact Hf.
  - pose proof (IH f) as Hf. destruct (sweep _ l now p) as [f' l']. exact Hf.
Qed.

Lemma purgeable_row now st : purgeable now (row_of st) = negb (retained now st).
Proof.
  unfold purgeable, retained, sa_status. cbn [row_of far_status far_purge_after].
  destruct (fa_purge_after (sa_attempt st)) as [p|]; destruct (fa_status (sa_attempt st)); try done;
    cbn -[Z.leb Z.ltb]; rewrite Z.ltb_antisym; by destruct (p <=? now).
Qed.

Lemma purge_agrees db s now :
  folded_sim db s →
  folded_agree (pg_purge_terminal_before db now) (answered s (purge_terminal_before s now)).
Proof.
  intros Hsim. pose proof (λ n s', purge_preserves s now n s' (fs_ok _ _ Hsim)) as Hok. revert Hok.
  unfold pg_purge_terminal_before, purge_terminal_before.
  destruct (checked_purge_after now) as [q|e] eqn:Hq; [|by split].
  apply checked_purge_after_Ok in Hq as ->. rewrite !bind_of_Ok.
  set (q := now + FOLDED_AUTH_TOMBSTONE_TTL). cbv zeta.
  destruct (end_where_agrees (ld_folded db) (fo_records s) (λ row, far_expires_at row <=? now)
              FoldedExpired now) as (m1 & Hm1 & Hr1 & Hl1); [by left|apply Hsim| |].
  { intros st Hin. split; [by apply (fs_wf _ _ Hsim)|by apply (fk_attempts _ (fs_ok _ _ Hsim))]. }
  destruct (end_where_agrees m1 _ (λ row, is_some_and (λ t, t <=? now - FOLDED_AUTH_POLL_ABANDONED_AFTER)
              (far_poll_dispatched_at row)) FoldedRestartRequired now (or_intror eq_refl) Hr1 Hl1)
    as (m2 & Hm2 & Hr2 & Hl2).
  cbv zeta in Hm1, Hm2, Hr2, Hl2. fold q in Hm1, Hm2, Hr2, Hl2.
  rewrite <- list_fmap_compose, (list_fmap_ext _ (sweep_one now q)) in Hr2, Hl2 by (intros; apply sweep_two).
  cbn [FoldedAuthStatus_as_str] in Hm1, Hm2. rewrite Hm1, bind_of_Ok, Hm2, bind_of_Ok.
  destruct (sweep_spec (fo_fence s) (fo_records s) now q) as (Hsw & _).
  pose proof (sweep_frame (fo_fence s) (fo_records s) now q) as Hframe.
  destruct (sweep (fo_fence s) (fo_records s) now q) as [f' l'] eqn:Heq. cbn [fst snd] in *. subst l'.
  intros Hok. specialize (Hok _ _ eq_refl).
  assert (NoDup (sa_hash <$> (sweep_one now q <$> fo_records s))) as Hnd.
  { apply (fk_hashes (MkFoldedState f' _)). apply (sweep_preserves s now); [apply Hsim|done]. }
  pose proof (rows_filter _ _ _ (retained now) Hr2 Hnd (λ st _, purgeable_row now st)) as Hr3.
  split; cbn [fst snd transaction answered].
  - rewrite (rows_size m2 _ Hr2 Hnd), (rows_size _ _ Hr3) by apply (fk_hashes _ Hok). done.
  - apply (sim_intro db (fo_fence s)); [apply Hsim|done|done| |done].
    intros st [_ Hin]%list_elem_of_filter. by apply Hl2.
Qed.

(** * Starting *)

(** The texts of a request are canonical, and its hashes have 32 bytes. *)
Record request_wf (r : StartFoldedAuthAttempt) : Prop := {
  rw_creator : CreatorPubky_from_str (CreatorPubky_display (sf_creator r)) = Ok (sf_creator r);
  rw_bundle : BundleId_from_str (BundleId_display (sf_bundle_id r)) = Ok (sf_bundle_id r);
  rw_resource : PubkyLockResource_from_str (PubkyLockResource_display (sf_pubky_lock_resource r))
                = Ok (sf_pubky_lock_resource r);
  rw_hash : length (FoldedAuthStateHash_as_bytes (sf_state_hash r)) = 32%nat;
  rw_lock : length (LockHash_as_bytes (sf_lock_hash r)) = 32%nat;
}.

Lemma started_wf request g now e :
  request_wf request → sf_validate request = Ok () → 0 < g ≤ I64_MAX →
  time_checked_add now FOLDED_AUTH_TTL = Some e → attempt_wf (started_attempt request g now e).
Proof.
  intros [Hc Hb Hr Hh Hl] Hv Hg He. unfold sf_validate in Hv.
  apply bind_Ok in Hv as ([] & _ & Hv). apply bind_Ok in Hv as ([] & Hbind%reject_if_Ok & Hv).
  apply bind_Ok in Hv as ([] & Hw%reject_if_Ok & _). apply negb_false_iff, in_range_true in Hw.
  apply orb_false_iff in Hbind as [Hbind Ho]. apply orb_false_iff in Hbind as [Hbind Hres].
  apply orb_false_iff in Hbind as [_ Hre]. apply negb_false_iff in Hres, Ho. rewrite eqb_true in Hres. rewrite eqb_true in Ho.
  split; cbn [started_attempt fa_creator fa_bundle_id fa_pubky_lock_resource fa_state_hash fa_lock_hash
    fa_verification_window_seconds fa_generation fa_submitted_proof_bundle fa_created_at fa_expires_at
    fa_task_id]; try done.
  split_and!; [done|done|]. by apply is_some_false.
Qed.

Lemma rows_push folded l st :
  rows_of folded l → sa_hash st ∉ sa_hash <$> l →
  rows_of (<[sa_hash st := row_of st]> folded) (l ++ [st]).
Proof.
  intros Hrows Hno hash row. setoid_rewrite elem_of_app. setoid_rewrite list_elem_of_singleton.
  rewrite lookup_insert_Some. split.
  - intros [[<- <-]|[Hne (x & Hx & <- & ->)%Hrows]]; [exists st; naive_solver|exists x; naive_solver].
  - intros (x & [Hx| ->] & <- & ->); [right|by left]. split; [|apply Hrows; by exists x].
    intros Heq. apply Hno. rewrite Heq. by apply list_elem_of_fmap_2.
Qed.

(** The row of a new attempt breaks no index. *)
Lemma insert_attempt_Ok db s st :
  folded_ok s → (∃ l, fo_records s = l ++ [st] ∧ rows_of (ld_folded db) l) →
  attempt_wf (sa_attempt st) → sa_status st = FoldedPending →
  insert_attempt db (sa_hash st) (row_of st)
  = Ok (ld_with_folded db (<[sa_hash st := row_of st]> (ld_folded db)))
  ∧ rows_of (<[sa_hash st := row_of st]> (ld_folded db)) (fo_records s).
Proof.
  intros Hok (l & Hl & Hrows) Hwf Hst.
  assert (fo_records s !! length l = Some st) as Hi by (rewrite Hl; by apply list_lookup_middle).
  assert (∀ x j, l !! j = Some x → fo_records s !! j = Some x ∧ j ≠ length l) as Hold.
  { intros x j Hj. apply lookup_lt_Some in Hj as Hlt. rewrite Hl, lookup_app_l by done. split; [done|lia]. }
  pose proof (fk_hashes _ Hok) as Hnd. rewrite Hl, fmap_app in Hnd. apply NoDup_app in Hnd as (_ & Hno & _).
  assert (sa_hash st ∉ sa_hash <$> l) as Hfresh by (intros Hin; apply (Hno _ Hin), list_elem_of_singleton; done).
  split; [|rewrite Hl; by apply rows_push].
  unfold insert_attempt. assert (existsb (collides (sa_hash st) (row_of st)) (map_to_list (ld_folded db)) = false) as ->.
  2: { cbn [reject_if]. rewrite bind_of_Ok. unfold write_attempt. rewrite row_of_checks; [done|done|].
       apply (fk_attempts _ Hok). by eapply list_elem_of_lookup_2. }
  apply existsb_false. intros [hash row] Hin%elem_of_map_to_list.
  apply Hrows in Hin as (x & Hx & <- & ->). unfold collides. cbn [fst snd].
  pose proof Hx as [j [Hj Hne]%Hold]%list_elem_of_lookup.
  apply orb_false_iff. split.
  { apply eqb_false. intros Heq. apply Hfresh. rewrite <- Heq. by apply list_elem_of_fmap_2. }
  rewrite !row_handle_text, !row_pending. apply andb_false_iff.
  destruct (handle_texts (sa_handle x) == handle_texts (sa_handle st)) eqn:Hh; [right|by left].
  rewrite eqb_true in Hh. apply handle_texts_inj in Hh. apply orb_false_iff. split.
  - apply Z.eqb_neq. intros Hg. apply Hne. eapply NoDup_lookup; [exact (fk_keys _ Hok)| |];
      rewrite list_lookup_fmap; [by rewrite Hj|]. rewrite Hi. cbn. unfold sa_key.
    by rewrite Hh, (Hg : sa_generation x = sa_generation st).
  - apply andb_false_iff. left. apply eqb_false. intros Hp. apply Hne.
    by apply (pending_unique s j (length l) x st Hok Hj Hi); [left|left|].
Qed.

(** A state hash that is in use. *)
Lemma end_previous_keeps db latest prev now db' hash :
  end_previous db latest prev now = Ok db' → is_Some (ld_folded db !! hash) →
  is_Some (ld_folded db' !! hash).
Proof.
  unfold end_previous. intros He Hhash.
  destruct latest as [[h stored]|]; [|by injection He as <-].
  destruct prev as [[status q]|]; [|by injection He as <-].
  destruct (ld_folded db !! h) as [row|]; [|done]. destruct (far_pending row); [|done].
  unfold write_attempt in He. destruct (folded_check _ _); [|done]. injection He as <-. cbn.
  destruct (decide (h = hash)) as [->|Hne]; [by rewrite lookup_insert_eq; eexists|by rewrite lookup_insert_ne].
Qed.

Lemma start_taken db request now nonce :
  is_Some (ld_folded db !! sf_state_hash request) →
  ∃ e, pg_start_or_rotate cipher_key db request now nonce = (Err e, db).
Proof.
  intros Hhash. unfold pg_start_or_rotate. cbv zeta.
  destruct (map_err folded_invalid_state (sf_validate request)) as [[]|]; [|by eexists].
  destruct (latest_stored db _) as [latest|]; [|by eexists].
  destruct (handle_exists db _); [by eexists|].
  destruct (ok_or (time_checked_add now FOLDED_AUTH_TTL) _) as [e|]; [|by eexists].
  rewrite !bind_of_Ok. cbn [reject_if]. rewrite !bind_of_Ok.
  match goal with |- context [transaction db (?plan ≫= _)] =>
    destruct plan as [[[g prev] d]|]; [|by eexists] end.
  rewrite bind_of_Ok. destruct (folded_encrypt _ _ _ _) as [enc|]; [|by eexists].
  rewrite bind_of_Ok. destruct (i64_of g) as [g'|]; [|by eexists]. cbn [ok_or]. rewrite bind_of_Ok.
  destruct (end_previous db latest prev now) as [db'|] eqn:He; [|by eexists]. rewrite bind_of_Ok.
  destruct (end_previous_keeps _ _ _ _ _ _ He Hhash) as [row Hrow].
  unfold insert_attempt. rewrite (proj2 (existsb_exists _ _)); [by eexists|].
  exists (sf_state_hash request, row). split; [by apply list_elem_of_In, elem_of_map_to_list|].
  unfold collides. cbn [fst]. by rewrite eqb_same.
Qed.

(** The end of the attempt that a start replaces. *)
Definition records_after (records : list StoredAttempt) (latest : option (nat * StoredAttempt))
    (previous_terminal : option (FoldedAuthStatus * OffsetDateTime)) (now : OffsetDateTime) :
    list StoredAttempt :=
  match latest, previous_terminal with
  | Some (i, st), Some (status, purge_after) =>
      <[i := terminalize_attempt st status now purge_after]> records
  | _, _ => records
  end.

Lemma end_previous_agrees db s latest prev now :
  folded_sim db s →
  (∀ i st, latest = Some (i, st) → fo_records s !! i = Some st
     ∧ ∀ status q, prev = Some (status, q) → sa_status st = FoldedPending
         ∧ q = now + FOLDED_AUTH_TOMBSTONE_TTL
         ∧ (status = FoldedExpired ∨ status = FoldedRestartRequired)) →
  ∃ folded,
    end_previous db ((λ '(_, st), (sa_hash st, (sa_attempt st, sa_encrypted_flow_secret st))) <$> latest)
      prev now = Ok (ld_with_folded db folded)
    ∧ rows_of folded (records_after (fo_records s) latest prev now)
    ∧ ∀ st, st ∈ records_after (fo_records s) latest prev now → attempt_wf (sa_attempt st).
Proof.
  intros Hsim Hlat. unfold end_previous, records_after.
  assert (∃ folded, Ok db = (Ok (ld_with_folded db folded) : result ApplicationError _)
            ∧ rows_of folded (fo_records s)
            ∧ ∀ st, st ∈ fo_records s → attempt_wf (sa_attempt st)) as Hsame.
  { exists (ld_folded db). split_and!; [by destruct db|apply Hsim..]. }
  destruct latest as [[i st]|]; cbn [fmap option_fmap option_map]; [|done].
  destruct prev as [[status q]|]; [|done].
  destruct (Hlat i st eq_refl) as (Hi & Hprev). destruct (Hprev status q eq_refl) as (Hst & -> & Hs).
  pose proof (list_elem_of_lookup_2 _ _ _ Hi) as Hin.
  rewrite (proj2 (fs_rows _ _ Hsim _ _) (ex_intro _ st (conj Hin (conj eq_refl eq_refl)))).
  rewrite row_pending, Hst. cbn [eqb].
  change (row_ended (row_of st) (FoldedAuthStatus_as_str status) now _ _)
    with (row_of (terminalize_attempt st status now (now + FOLDED_AUTH_TOMBSTONE_TTL))).
  set (st' := terminalize_attempt st status now (now + FOLDED_AUTH_TOMBSTONE_TTL)).
  destruct (sim_write_attempt db s i st st' (release_folded_auth_reservation (fo_fence s) (sa_handle st)))
    as (Hw & _ & [_ _ Hwf Hrows]); try done.
  - apply wf_ended; [by apply (fs_wf _ _ Hsim)|].
    by rewrite (pending_no_task st) by (done || by apply (fk_attempts _ (fs_ok _ _ Hsim))).
  - by apply end_preserves; [apply Hsim|..].
  - rewrite eqb_same, Hw. by eexists.
Qed.

(** The two writes of a start. *)
Lemma start_write db s request latest now nonce r s' g prev d e enc :
  folded_sim db s → request_wf request → sf_validate request = Ok () →
  latest = latest_index (fo_records s) (sf_creator request, sf_bundle_id request) →
  match latest with
  | Some (_, st) => rotation (sa_attempt st) request now
  | None => Ok (1, None, FoldedStarted)
  end = Ok (g, prev, d) →
  (∀ st, st ∈ fo_records s → sa_generation st < I64_MAX) →
  time_checked_add now FOLDED_AUTH_TTL = Some e →
  start_or_rotate cipher_key s request now nonce = Ok (r, s') →
  let st := MkStoredAttempt (started_attempt request g now e) (Some enc) None in
  s' = MkFoldedState (reserve_folded_auth (fo_fence s) (sf_creator request, sf_bundle_id request))
         (records_after (fo_records s) latest prev now ++ [st]) →
  i64_of g = Some g ∧ new_attempt_row request g enc now e = row_of st
  ∧ ∃ db1 db2,
      end_previous db ((λ '(_, st), (sa_hash st, (sa_attempt st, sa_encrypted_flow_secret st))) <$> latest)
        prev now = Ok db1
      ∧ insert_attempt db1 (sf_state_hash request) (row_of st) = Ok db2
      ∧ row_to_stored (sf_state_hash request) (row_of st) = Ok (sa_attempt st, Some enc)
      ∧ folded_sim db2 s'.
Proof.
  intros Hsim Hreq Hval Hlat Hrot Hgen He Hmem st Hs'.
  pose proof (start_preserves _ s request now nonce r s' (fs_ok _ _ Hsim) Hmem) as Hok.
  assert (0 < g ≤ I64_MAX ∧ ∀ i x, latest = Some (i, x) → fo_records s !! i = Some x
     ∧ ∀ status q, prev = Some (status, q) → sa_status x = FoldedPending
         ∧ q = now + FOLDED_AUTH_TOMBSTONE_TTL
         ∧ (status = FoldedExpired ∨ status = FoldedRestartRequired)) as [Hg Hlatest].
  { destruct latest as [[i x]|]; [|injection Hrot as <- <- <-; by split].
    symmetry in Hlat. apply latest_index_Some in Hlat as (Hi & _ & _).
    apply rotation_Ok in Hrot as (_ & -> & _ & Hprev). pose proof (list_elem_of_lookup_2 _ _ _ Hi) as Hin.
    pose proof (aw_generation _ (fs_wf _ _ Hsim x Hin)). specialize (Hgen x Hin). unfold sa_generation in Hgen.
    split; [lia|]. intros ? ? [= <- <-]. split; [done|]. intros status q ->.
    destruct Hprev as [[Hp [= -> ->]]|[_ ?]]; [|done]. split_and!; [done|done|].
    by destruct (_ <=? now); [left|right]. }
  pose proof (started_wf request g now e Hreq Hval Hg He) as Hwf.
  destruct (end_previous_agrees db s latest prev now Hsim Hlatest) as (m & Hend & Hrows & Hwfs).
  assert (attempt_ok st) as Hat by (apply (fk_attempts _ Hok); rewrite Hs'; apply elem_of_app; right;
    by apply list_elem_of_singleton).
  destruct (insert_attempt_Ok (ld_with_folded db m) s' st Hok) as [Hins Hrows']; [|done|done|].
  { exists (records_after (fo_records s) latest prev now). by rewrite Hs'. }
  split_and!.
  - unfold i64_of. by assert (g <=? I64_MAX = true) as -> by lia.
  - unfold sf_validate in Hval. apply bind_Ok in Hval as ([] & _ & Hv).
    apply bind_Ok in Hv as ([] & _ & Hv). apply bind_Ok in Hv as ([] & Hw%reject_if_Ok & _).
    apply negb_false_iff, in_range_true in Hw. unfold new_attempt_row, i64_of.
    assert (sf_verification_window_seconds request <=? I64_MAX = true) as -> by (unfold I64_MAX; lia). done.
  - exists (ld_with_folded db m). eexists. split_and!; [done|exact Hins|by apply (row_of_decodes st)|].
    apply (sim_intro db (fo_fence s)); [apply Hsim|by rewrite Hs'|done| |done].
    rewrite Hs'. intros x [Hx|Hx%list_elem_of_singleton]%elem_of_app; [by apply Hwfs|by rewrite Hx].
Qed.

(** Where only graph tasks can hold the handle and no generation has run out, the start
    of an attempt is the same; it fails in one adapter when it fails in the other. *)
Lemma start_agrees db s request now nonce :
  folded_sim db s → request_wf request →
  handle_exists db (sf_creator request, sf_bundle_id request)
  = has_graph_task_by_handle (fo_fence s) (sf_creator request, sf_bundle_id request) →
  (∀ st, st ∈ fo_records s → sa_generation st < I64_MAX) →
  match start_or_rotate cipher_key s request now nonce with
  | Ok (r, s') =>
      ∃ db', pg_start_or_rotate cipher_key db request now nonce = (Ok r, db') ∧ folded_sim db' s'
  | Err _ => ∃ e, pg_start_or_rotate cipher_key db request now nonce = (Err e, db)
  end.
Proof.
  intros Hsim Hreq Hhe Hgen.
  set (h := (sf_creator request, sf_bundle_id request)) in *.
  destruct (existsb (λ st, sa_hash st == sf_state_hash request) (fo_records s)) eqn:Hfresh.
  { apply existsb_exists in Hfresh as (x & Hx%list_elem_of_In & Hh). rewrite eqb_true in Hh.
    destruct (start_taken db request now nonce) as [e Hpg];
      [eexists; apply (fs_rows _ _ Hsim); by exists x|].
    destruct (start_or_rotate cipher_key s request now nonce) as [[r s']|] eqn:Hs; [|by eexists].
    exfalso. apply bind_Ok in Hs as ([] & _ & Hs). apply bind_Ok in Hs as ([] & _ & Hs).
    apply bind_Ok in Hs as (e' & _ & Hs). apply bind_Ok in Hs as ([] & Hf%reject_if_Ok & _).
    rewrite existsb_false in Hf. specialize (Hf x Hx). cbn in Hf. by rewrite Hh, eqb_same in Hf. }
  pose proof (start_write db s request (latest_index (fo_records s) h) now nonce) as Hwrite. revert Hwrite.
  assert (latest_stored db h = Ok ((λ '(_, st), (sa_hash st, (sa_attempt st, sa_encrypted_flow_secret st)))
                                     <$> latest_index (fo_records s) h)) as Hl.
  { pose proof (latest_agrees db s h Hsim) as Hl. by destruct (latest_index _ _) as [[]|]. }
  unfold start_or_rotate, pg_start_or_rotate. cbv zeta. fold h. rewrite Hhe, Hl, Hfresh.
  destruct (sf_validate request) as [[]|] eqn:Hval; cbn [map_err]; rewrite ?bind_of_Ok; [|by eexists].
  destruct (has_graph_task_by_handle _ _); [by eexists|]. cbn [reject_if]. rewrite ?bind_of_Ok.
  destruct (time_checked_add now FOLDED_AUTH_TTL) as [e|] eqn:He; cbn [ok_or]; rewrite ?bind_of_Ok; [|by eexists].
  set (latest := latest_index (fo_records s) h) in *.
  replace (match (λ '(_, st), (sa_hash st, (sa_attempt st, sa_encrypted_flow_secret st))) <$> latest with
           | Some (_, (attempt, _)) => rotation attempt request now
           | None => Ok (1, None, FoldedStarted)
           end)
    with (match latest with
          | Some (_, st) => rotation (sa_attempt st) request now
          | None => Ok (1, None, FoldedStarted)
          end) by (by destruct latest as [[]|]).
  destruct (match latest with Some (_, st) => rotation (sa_attempt st) request now | None => _ end)
    as [[[g prev] d]|] eqn:Hrot; rewrite ?bind_of_Ok; [|by eexists].
  destruct (folded_encrypt _ _ _ _) as [enc|]; rewrite ?bind_of_Ok; [|by eexists].
  intros Hwrite.
  destruct (Hwrite _ _ g prev d e enc Hsim Hreq eq_refl eq_refl eq_refl Hgen eq_refl eq_refl)
    as (-> & Hrow & db1 & db2 & Hend & Hins & Hdec & Hsim2); [by destruct latest as [[]|], prev as [[]|]|].
  cbn [ok_or]. rewrite bind_of_Ok, Hend, bind_of_Ok, Hrow, Hins, bind_of_Ok. cbn [transaction].
  rewrite Hdec, bind_of_Ok. exists db2. split; [done|exact Hsim2].
Qed.

(** A handle with a graph task in memory has a task in the table. *)
Lemma graph_task_exists db s handle :
  folded_sim db s → has_graph_task_by_handle (fo_fence s) handle = true → handle_exists db handle = true.
Proof.
  intros Hsim (st & Hin%list_elem_of_In & Hh)%existsb_exists. props. subst handle. unfold handle_exists.
  destruct (gm_rows _ _ (fs_graph _ _ Hsim) st Hin) as (row & Hrow & Hst). apply existsb_exists.
  exists (sg_id st, row). split; [by apply list_elem_of_In, elem_of_map_to_list|].
  by rewrite (row_handle_of _ _ _ _ Hst), eqb_same.
Qed.

(** A start is refused in Postgres when any task holds the handle. *)
Lemma start_refused db s request now nonce :
  folded_sim db s → handle_exists db (sf_creator request, sf_bundle_id request) = true →
  ∃ e, pg_start_or_rotate cipher_key db request now nonce = (Err e, db)
       ∧ (sf_validate request = Ok () → e = VerificationTaskConflict).
Proof.
  intros Hsim Hex. unfold pg_start_or_rotate. cbv zeta. rewrite Hex.
  pose proof (latest_agrees db s (sf_creator request, sf_bundle_id request) Hsim) as Hl.
  assert (∃ l, latest_stored db (sf_creator request, sf_bundle_id request) = Ok l) as [l ->]
    by (destruct (latest_index _ _) as [[]|]; eauto).
  destruct (sf_validate request) as [[]|]; cbn [map_err]; rewrite ?bind_of_Ok; by eexists.
Qed.

(** * Claims *)

(** C13: The Postgres repository of folded attempts does what the in-memory one does.  From
    related states and at the same clock reading, what is read of attempts, of their secrets
    and of the tasks they led to is the same; the dispatch, the renewal and the release of a
    poll, the confirmation that an attempt is pending, its restart, its end once it has
    expired and the cleanup give the same answers, errors included, and leave related states.
    An acceptance for a canonical task identifier succeeds or fails alike, with the same task
    and related states when it succeeds, and changes nothing when it fails.  So does a start
    with canonical texts while no generation has reached the last 64-bit integer, with one
    exception: where the table has a task under the handle that is not a graph task, Postgres
    refuses the start with a conflict and changes nothing, whatever the in-memory repository,
    which does not see that task, answers. *)
Theorem folded_adapters_agree db s hash generation now :
  folded_sim db s →
  let same {A} (pg : result ApplicationError A * LocksDb) mem := folded_agree pg (answered s mem) in
  (∀ handle, pg_get_latest_by_handle db handle = Ok (get_latest_by_handle s handle))
  ∧ pg_get_by_state_hash db hash = Ok (get_by_state_hash s hash)
  ∧ pg_accepted_graph_task db hash = Ok (folded_accepted_graph_task s hash)
  ∧ pg_restore_pending cipher_key db hash = restore_pending cipher_key s hash
  ∧ same (pg_mark_poll_dispatched db hash generation now) (Ok (mark_poll_dispatched s hash generation now))
  ∧ same (pg_renew_poll_dispatch db hash generation now) (Ok (renew_poll_dispatch s hash generation now))
  ∧ same (pg_confirm_not_attempted db hash generation) (Ok (confirm_not_attempted s hash generation))
  ∧ same (pg_confirm_pending_generation db hash generation now)
      (confirm_pending_generation s hash generation now)
  ∧ same (pg_require_restart db hash generation now) (require_restart s hash generation now)
  ∧ ((∀ i st, exact_pending s hash generation = Some (i, st) → fa_expires_at (sa_attempt st) ≤ now) →
     same (pg_expire db hash generation now) (expire_attempt s hash generation now))
  ∧ same (pg_purge_terminal_before db now) (purge_terminal_before s now)
  ∧ (∀ task_id reader, TaskId_from_str (TaskId_display task_id) = Ok task_id →
       outcomes_agree db (pg_accept_and_insert_graph_task db hash generation task_id reader now)
         (accept_and_insert_graph_task s hash generation task_id reader now))
  ∧ (∀ request nonce,
       let handle := (sf_creator request, sf_bundle_id request) in
       request_wf request →
       (∀ st, st ∈ fo_records s → sa_generation st < I64_MAX) →
       let pg := pg_start_or_rotate cipher_key db request now nonce in
       if handle_exists db handle && negb (has_graph_task_by_handle (fo_fence s) handle)
       then ∃ e, pg = (Err e, db) ∧ (sf_validate request = Ok () → e = VerificationTaskConflict)
       else outcomes_agree db pg (start_or_rotate cipher_key s request now nonce)).
Proof.
  intros Hsim same. destruct (reads_agree db s Hsim) as (Hlat & Hget & Hacc & Hrest).
  destruct (polls_agree db s hash generation now Hsim) as (Hmark & Hrenew & Hnot).
  assert (∀ A (pg : result ApplicationError A * LocksDb) r, folded_agree pg (Ok r.1, r.2) → same A pg (Ok r))
    as Hok by (by intros A pg []).
  split_and!; auto.
  - by apply confirm_agrees.
  - by apply restart_agrees.
  - by apply expire_agrees.
  - by apply purge_agrees.
  - intros task_id reader Hid. by apply accept_agrees.
  - intros request nonce handle Hreq Hgen pg. destruct (handle_exists db handle) eqn:Hex; cbn [andb].
    + destruct (has_graph_task_by_handle (fo_fence s) handle) eqn:Hg; cbn [negb];
        [apply start_agrees; try done; by etrans; [exact Hex|]|by eapply start_refused].
    + apply start_agrees; try done. etrans; [exact Hex|]. symmetry. apply not_true_iff_false.
      intros Hg. by rewrite (graph_task_exists db s handle Hsim Hg) in Hex.
Qed.

(** An attempt is found again after a change of its poll. *)
Lemma exact_pending_polled s hash generation i st o :
  folded_ok (store_attempt s i (with_poll st o)) → exact_pending s hash generation = Some (i, st) →
  exact_pending (store_attempt s i (with_poll st o)) hash generation = Some (i, with_poll st o).
Proof.
  intros Hok (Hi & Hh & Hg & Hst)%exact_pending_Some. apply find_first_unique.
  - apply list_lookup_insert_eq. by eapply lookup_lt_Some.
  - change (sa_hash (with_poll st o)) with (sa_hash st). change (sa_generation (with_poll st o)) with (sa_generation st).
    change (sa_status (with_poll st o)) with (sa_status st). by rewrite Hh, Hg, Hst, !eqb_same, Z.eqb_refl.
  - intros j y Hj Hy. props. eapply NoDup_lookup; [exact (fk_hashes _ Hok)|by rewrite list_lookup_fmap, Hj|].
    cbn [store_attempt fo_records]. rewrite list_lookup_fmap, list_lookup_insert_eq by (by eapply lookup_lt_Some).
    cbn. f_equal. unfold sa_hash in *. congruence.
Qed.

(** C26: Where the two repositories of folded attempts differ.  A caller whose clock is ahead
    asks for the end of an attempt that, by the repository's clock, has not expired, while
    another caller polls for its approval.  The in-memory repository answers the attempt as it
    is, and no second poll can be dispatched; the Postgres repository takes the poll away from
    the caller that runs it, so that a second one is dispatched, at once, with the secret of
    the same flow. *)
Theorem early_expire_frees_poll db s hash generation i st now :
  folded_sim db s → exact_pending s hash generation = Some (i, st) →
  fa_poll_dispatched (sa_attempt st) = true → now < fa_expires_at (sa_attempt st) →
  expire_attempt s hash generation now = Ok (Some (sa_attempt st), s)
  ∧ mark_poll_dispatched s hash generation now = (None, s)
  ∧ (pg_mark_poll_dispatched db hash generation now).1 = Ok None
  ∧ ∃ db', pg_expire db hash generation now = (Ok (Some (told_unpolled (sa_attempt st))), db')
    ∧ (pg_mark_poll_dispatched db' hash generation now).1
      = Ok (Some (sa_attempt (with_poll st (Some now)))).
Proof.
  intros Hsim Hp Hpoll Hlt.
  pose proof (transition_agrees db s hash generation (Some FoldedExpired) now Hsim) as [Ht1 Ht2];
    [by intros ? [= <-]; left|].
  assert (fa_expires_at (sa_attempt st) <=? now = false) as Hle by lia.
  assert (mark_poll_dispatched s hash generation now = (None, s)) as Hmark
    by (unfold mark_poll_dispatched; by rewrite Hp, Hpoll).
  pose proof (polls_agree db s hash generation now Hsim) as ([Hm _] & _). rewrite Hmark in Hm.
  split_and!; [|done|exact Hm|].
  { unfold expire_attempt. rewrite Hp. by assert (now <? fa_expires_at (sa_attempt st) = true) as -> by lia. }
  assert (mem_transition s hash generation (Some FoldedExpired) now
          = (Ok (Some (sa_attempt (with_poll st None))), store_attempt s i (with_poll st None))) as Hmem
    by (unfold mem_transition, terminal_for; by rewrite Hp, Hle).
  rewrite Hmem in Ht1, Ht2.
  unfold pg_expire. destruct (transition_after_poll db hash generation _ now) as [r db'].
  cbn [fst snd] in *. subst r. exists db'. split; [by destruct st as [[]]|].
  pose proof (polls_agree db' _ hash generation now Ht2) as ([Hm' _] & _). rewrite Hm'. cbn [fst].
  unfold mark_poll_dispatched.
  by rewrite (exact_pending_polled s hash generation i st None (fs_ok _ _ Ht2) Hp).
Qed.
End refine.
