(* ===== verification/Publication.v ===== *)
(** The publishing half of the workers
    ([locks-server/src/payment_worker.rs], [publish], and
    [locks-server/src/graph_worker.rs], [publish_claimed_entitlement]).

    A task whose snapshot is satisfied carries the entitlement to publish and a
    publication token.  The worker acquires the action guard, reconciles the
    entitlement with the store, and completes the task once a read has shown it
    there.  The guard and the lease keep others from the task, so that the
    repository only moves with the worker's own calls; the clock moves between
    them.  [shutdown] is what the worker sees of the shutdown signal. *)

From S2P Require Import Prelude RustStr Externals Ids Json LockPolicy Wire Errors Entitlements.
From S2P Require Import GraphTask PaymentTask Fence GraphStore PaymentStore.

Inductive PaymentWorkerTick :=
  | PaymentIdle
  | PaymentRetryScheduled (id : TaskId)
  | PaymentTerminal (id : TaskId)
  | PaymentPublicationDeferred (id : TaskId)
  | PaymentClaimLost.

Inductive GraphWorkerTick :=
  | GraphIdle
  | GraphPersisted (id : TaskId)
  | GraphRetryScheduled (id : TaskId)
  | GraphTerminal (id : TaskId)
  | GraphPublicationDeferred (id : TaskId)
  | GraphClaimLost.

Section reconcile.
  Context {E : Type} `{!EntitlementStore E, !EntitlementStoreLaws E}.

(** Bring the entitlement into the store: [Ok true] when a read has shown it there,
    [Ok false] to try again later. *)
Definition reconcile (e : E) (payload : VerifiedProofBundleV2) (conflict : string) :
    result ApplicationError bool * E :=
  let '(existing, e1) := ent_get_v2 e (vb2_creator payload) (vb2_bundle_id payload) in
  match existing with
  | Err _ => (Ok false, e1)
  | Ok (Some existing) =>
      if existing == payload then (Ok true, e1) else (Err (Storage conflict), e1)
  | Ok None =>
      let '(written, e2) := ent_insert_v2 e1 payload in
      match written with
      | Err _ => (Ok false, e2)
      | Ok _ =>
          let '(readback, e3) := ent_get_v2 e2 (vb2_creator payload) (vb2_bundle_id payload) in
          match readback with
          | Err _ => (Ok false, e3)
          | Ok readback => (Ok (readback == Some payload), e3)
          end
      end
  end.

(** Where a bundle can still be published. *)
Definition publishable (records : Entitlements) (payload : VerifiedProofBundleV2) : Prop :=
  records !! v2_key payload = None ∨ records !! v2_key payload = Some (EntitlementV2 payload).

Lemma get_v2_Some records payload :
  get_verified_proof_bundle_v2 records (vb2_creator payload) (vb2_bundle_id payload) = Some payload
  ↔ records !! v2_key payload = Some (EntitlementV2 payload).
Proof.
  unfold get_verified_proof_bundle_v2, v2_key. destruct (records !! _) as [[b|b]|]; cbn; naive_solver.
Qed.

(** The last call was a read that returned the bundle. *)
Definition read_back (payload : VerifiedProofBundleV2) (e' : E) : Prop :=
  ∃ e, ent_get_v2 e (vb2_creator payload) (vb2_bundle_id payload) = (Ok (Some payload), e').

Lemma read_back_stored payload e' :
  read_back payload e' → ent_contents e' !! v2_key payload = Some (EntitlementV2 payload).
Proof.
  intros (e & [Hc Hr]%ent_get_law). rewrite Hc. apply get_v2_Some. symmetry. by apply Hr.
Qed.

Lemma reconcile_spec e payload conflict o e' :
  reconcile e payload conflict = (o, e') →
  (ent_contents e' = ent_contents e
   ∨ insert_verified_proof_bundle_v2 (ent_contents e) payload = Ok (ent_contents e'))
  ∧ (o = Ok true → read_back payload e')
  ∧ (publishable (ent_contents e) payload →
     publishable (ent_contents e') payload ∧ ∃ b, o = Ok b).
Proof.
  unfold reconcile. intros Hr.
  destruct (ent_get_v2 e _ _) as [r1 e1] eqn:Hg. pose proof Hg as [Hc1 Hr1]%ent_get_law.
  destruct r1 as [[existing|]|err].
  - specialize (Hr1 _ eq_refl). destruct (existing == payload) eqn:Heq; injection Hr as <- <-.
    + apply (proj1 (eqb_true _ _)) in Heq as ->. symmetry in Hr1. rewrite Hc1.
      split_and!; [by left|intros _; by exists e|by eauto].
    + apply (proj1 (eqb_false _ _)) in Heq. rewrite Hc1. split_and!; [by left|done|].
      intros [Hn|Hs]; unfold get_verified_proof_bundle_v2, v2_key in *.
      * by rewrite Hn in Hr1.
      * rewrite Hs in Hr1. cbn in Hr1. congruence.
  - destruct (ent_insert_v2 e1 payload) as [w e2] eqn:Hi. apply ent_insert_law in Hi as Hc2.
    rewrite Hc1 in Hc2.
    assert (publishable (ent_contents e) payload → publishable (ent_contents e2) payload) as Hpub.
    { intros Hp. destruct Hc2 as [-> | Hins]; [done|]. apply insert_v2_Ok in Hins as (_ & _ & ->).
      right. apply lookup_insert_eq. }
    destruct w as [[]|]; [|injection Hr as <- <-; split_and!; [done|done|by eauto]].
    destruct (ent_get_v2 e2 _ _) as [rb e3] eqn:Hg2. pose proof Hg2 as [Hc3 _]%ent_get_law.
    destruct rb as [rb|]; injection Hr as <- <-; rewrite Hc3; split_and!; eauto; [|done].
    intros [= Hrb]. apply (proj1 (eqb_true _ _)) in Hrb as ->. by exists e2.
  - injection Hr as <- <-. rewrite Hc1. split_and!; [by left|done|by eauto].
Qed.

End reconcile.

Section publish.
  Context `{Base32, TimeCrate}.
  Context {E : Type} `{!EntitlementStore E, !EntitlementStoreLaws E}.

(** * Payment tasks *)

Definition publish (s : PaymentRepo) (e : E) (worker_id : string) (task : PaymentTaskRecord)
    (claim_token : Uuid) (expected_revision : Z) (shutdown : bool)
    (acquired_at completed_at : OffsetDateTime) :
    result ApplicationError PaymentWorkerTick * PaymentRepo * E :=
  let id := ptr_task_id task in
  match ptr_entitlement_to_publish task with
  | None =>
      (Err (Storage "publishing payment task is missing durable entitlement payload"), s, e)
  | Some payload =>
      match ptr_entitlement_publication_token task with
      | None => (Err (Storage "publishing payment task is missing external-effect fence"), s, e)
      | Some publication_token =>
          if negb (acquire_payment_publication_action s id worker_id claim_token expected_revision
                     publication_token acquired_at)
          then (Ok PaymentClaimLost, s, e)
          else if shutdown then
            (Ok PaymentClaimLost, (release_claimed_payment_task s id worker_id claim_token).2, e)
          else
            let '(outcome, e') :=
              reconcile e payload
                "published v2 entitlement conflicts with durable payment payload" in
            match outcome with
            | Err error => (Err error, s, e')
            | Ok false => (Ok (PaymentPublicationDeferred id), s, e')
            | Ok true =>
                let '(completed, s') :=
                  complete_publication s id worker_id claim_token expected_revision
                    publication_token completed_at in
                (Ok (if is_some completed then PaymentTerminal id else PaymentClaimLost), s', e')
            end
      end
  end.

(** A granted guard names the stored, undeleted task under a live claim. *)
Lemma acquired_payment s id worker token revision publication now st :
  lanes_ok s → st ∈ pr_records s → sp_id st = id →
  acquire_payment_publication_action s id worker token revision publication now = true →
  live_payment_publication id worker token revision publication now st = true
  ∧ undeleted (pr_fence s) id = true.
Proof.
  intros Hok Hin Hid Ha. unfold acquire_payment_publication_action in Ha.
  destruct (is_none _); [done|]. destruct (undeleted _ _); [|done]. cbn [negb] in Ha.
  apply existsb_exists in Ha as (x & Hx%list_elem_of_In & Hl).
  assert (sp_id x = id) as Hxid.
  { unfold live_payment_publication in Hl. props.
    match goal with Hy : payment_live _ _ _ _ _ _ = true |- _ =>
      by apply payment_live_true in Hy as [? _ _ _ _] end. }
  assert (x = st) as -> by (eapply same_payment; [by apply lanes_payment|done|done|congruence]).
  done.
Qed.

(** Completion under a live publication claim. *)
Lemma complete_publication_live s id worker token revision publication now st :
  lanes_ok s → st ∈ pr_records s → undeleted (pr_fence s) id = true →
  live_payment_publication id worker token revision publication now st = true →
  ∃ s', complete_publication s id worker token revision publication now
        = (Some (sp_task (terminalize st Completed now)), s')
        ∧ terminalize st Completed now ∈ pr_records s'.
Proof.
  intros Hok Hin Hun Hl. unfold complete_publication.
  destruct (find_first _ _) as [[i x]|] eqn:Hfind.
  - apply find_first_Some in Hfind as [Hi Hx].
    assert (x = st) as ->.
    { unfold live_payment_publication in Hx, Hl. apply andb_true_iff in Hx as [[Hx _]%andb_true_iff _].
      apply andb_true_iff in Hl as [[Hl _]%andb_true_iff _]. apply payment_live_true in Hx, Hl.
      eapply same_payment; [by apply lanes_payment|done|by eapply list_elem_of_lookup_2|].
      destruct Hx, Hl. congruence. }
    rewrite Hun. cbn [negb]. eexists. split; [done|]. cbn.
    apply list_elem_of_insert. by eapply lookup_lt_Some.
  - rewrite find_first_None in Hfind. specialize (Hfind st Hin). congruence.
Qed.

(** The stored task under a granted guard: satisfied, with its own entitlement. *)
Lemma acquired_task s id worker token revision publication now st payload :
  lanes_ok s → st ∈ pr_records s → sp_id st = id →
  ptr_entitlement_to_publish (sp_task st) = Some payload →
  acquire_payment_publication_action s id worker token revision publication now = true →
  ptr_status (sp_task st) = PublishingEntitlement ∧ undeleted (pr_fence s) id = true
  ∧ payment_claim id worker token revision now st
  ∧ ∃ at_, payload = payment_entitlement (sp_snapshot st) at_.
Proof.
  intros Hok Hin Hid Hp Ha. destruct (acquired_payment _ _ _ _ _ _ _ _ Hok Hin Hid Ha) as [Hl Hun].
  unfold live_payment_publication in Hl. apply andb_true_iff in Hl as [[Hl Hst]%andb_true_iff _].
  apply payment_live_true in Hl. apply (proj1 (eqb_true _ _)) in Hst. split_and!; [done|done|done|].
  destruct (pso_tasks s (lanes_payment s Hok) st Hin) as [_ Hs _].
  unfold payment_status_ok in Hs. rewrite Hst in Hs.
  destruct Hs as (_ & _ & [[at_ Hpre] _] & _). exists at_. unfold sp_snapshot. congruence.
Qed.

(** What a worker can find stored after its own release or completion. *)
Lemma release_publishing s worker token st :
  lanes_ok s → st ∈ pr_records s → ptr_status (sp_task st) = PublishingEntitlement →
  ∃ st', st' ∈ pr_records (release_claimed_payment_task s (sp_id st) worker token).2
         ∧ sp_id st' = sp_id st ∧ sp_task st' = sp_task st.
Proof.
  intros Hok Hin Hst. unfold release_claimed_payment_task.
  destruct (find_first _ _) as [[i x]|] eqn:Hfind; [|by exists st].
  destruct (negb _); [by exists st|]. apply find_first_Some in Hfind as [Hi Hx]. props.
  assert (x = st) as ->.
  { eapply same_payment; [by apply lanes_payment|done|by eapply list_elem_of_lookup_2|done]. }
  rewrite Hst. change (PublishingEntitlement == InProgress) with false. cbn [andb].
  eexists. split; [cbn; apply list_elem_of_insert; by eapply lookup_lt_Some|]. done.
Qed.

Lemma complete_cases s worker token revision publication now st c s' :
  lanes_ok s → st ∈ pr_records s →
  complete_publication s (sp_id st) worker token revision publication now = (c, s') →
  (c = None ∧ s' = s) ∨ (is_Some c ∧ terminalize st Completed now ∈ pr_records s').
Proof.
  intros Hok Hin Hc. unfold complete_publication in Hc.
  destruct (find_first _ _) as [[i x]|] eqn:Hfind; [|injection Hc as <- <-; by left].
  destruct (negb _); [injection Hc as <- <-; by left|].
  apply find_first_Some in Hfind as [Hi Hx]. unfold live_payment_publication in Hx.
  apply andb_true_iff in Hx as [[[Hid _ _ _ _]%payment_live_true _]%andb_true_iff _].
  assert (x = st) as ->.
  { eapply same_payment; [by apply lanes_payment|done|by eapply list_elem_of_lookup_2|done]. }
  injection Hc as <- <-. right. split; [done|]. cbn.
  apply list_elem_of_insert. by eapply lookup_lt_Some.
Qed.

(** C34: publication is safe, whatever the entitlement store answers at each call and
    whether or not a write takes effect.  The store is written only for an undeleted,
    satisfied task under the worker's own live claim, only with the entitlement of that
    task's snapshot, and only where nothing else is stored.  The task completes only when
    the last call to the store was a read that returned its entitlement, which therefore is
    there, and in every other outcome its record is as it was. *)
Theorem payment_publication_safe s e st worker token revision shutdown t1 t2 r s' e' :
  lanes_ok s → st ∈ pr_records s →
  publish s e worker (sp_task st) token revision shutdown t1 t2 = (r, s', e') →
  (ent_contents e' = ent_contents e
   ∨ (ptr_status (sp_task st) = PublishingEntitlement
      ∧ undeleted (pr_fence s) (sp_id st) = true
      ∧ payment_claim (sp_id st) worker token revision t1 st
      ∧ ∃ at_, insert_verified_proof_bundle_v2 (ent_contents e)
                 (payment_entitlement (sp_snapshot st) at_) = Ok (ent_contents e')))
  ∧ (∃ st', st' ∈ pr_records s' ∧ sp_id st' = sp_id st
       ∧ match r with
         | Ok (PaymentTerminal _) =>
             ptr_status (sp_task st') = Completed
             ∧ ∃ payload, ptr_entitlement_to_publish (sp_task st') = Some payload
                 ∧ read_back payload e'
                 ∧ ent_contents e' !! v2_key payload = Some (EntitlementV2 payload)
         | _ => sp_task st' = sp_task st
         end).
Proof.
  intros Hok Hin Hp. assert (∃ st', st' ∈ pr_records s ∧ sp_id st' = sp_id st
    ∧ sp_task st' = sp_task st) as Hsame by (by exists st).
  unfold publish in Hp. destruct (ptr_entitlement_to_publish (sp_task st)) as [payload|] eqn:Hpay;
    [|injection Hp as <- <- <-; by split; [left|]].
  destruct (ptr_entitlement_publication_token (sp_task st)) as [pub|];
    [|injection Hp as <- <- <-; by split; [left|]].
  change (ptr_task_id (sp_task st)) with (sp_id st) in Hp.
  destruct (acquire_payment_publication_action _ _ _ _ _ _ _) eqn:Hacq; cbn [negb] in Hp;
    [|injection Hp as <- <- <-; by split; [left|]].
  destruct (acquired_task _ _ _ _ _ _ _ st payload Hok Hin eq_refl Hpay Hacq)
    as (Hst & Hun & Hclaim & at_ & Hent).
  destruct shutdown.
  { injection Hp as <- <- <-. split; [by left|]. by apply release_publishing. }
  destruct (reconcile e payload _) as [o e1] eqn:Hrec.
  apply reconcile_spec in Hrec as (Hc & Hshown & _).
  assert (ent_contents e1 = ent_contents e
   ∨ (ptr_status (sp_task st) = PublishingEntitlement
      ∧ undeleted (pr_fence s) (sp_id st) = true
      ∧ payment_claim (sp_id st) worker token revision t1 st
      ∧ ∃ at_, insert_verified_proof_bundle_v2 (ent_contents e)
                 (payment_entitlement (sp_snapshot st) at_) = Ok (ent_contents e1))) as Hwrite.
  { destruct Hc as [Hc|Hc]; [by left|right]. rewrite Hent in Hc. eauto 6. }
  destruct o as [[]|err].
  - destruct (complete_publication _ _ _ _ _ _ _) as [c s1] eqn:Hcomp. injection Hp as <- <- <-.
    split; [by apply Hwrite|].
    destruct (complete_cases _ _ _ _ _ _ _ _ _ Hok Hin Hcomp) as [[-> ->]|[[t ->] Hin1]]; [done|].
    exists (terminalize st Completed t2). split; [done|]. split; [done|]. cbn. split; [done|].
    exists payload. split_and!; [done|by apply Hshown|by apply read_back_stored, Hshown].
  - injection Hp as <- <- <-. split; [by apply Hwrite|done].
  - injection Hp as <- <- <-. split; [by apply Hwrite|done].
Qed.

End publish.

Section retry.
  Context `{Base32, TimeCrate}.
  Context {E : Type} `{!EntitlementStore E, !EntitlementStoreLaws E}.

(** The in-memory store takes a publishable bundle. *)
Lemma reconcile_memory (records : Entitlements) payload conflict :
  VerifiedProofBundleV2_validate payload = Ok () → publishable records payload →
  reconcile records payload conflict
  = (Ok true, <[v2_key payload := EntitlementV2 payload]> records).
Proof.
  intros Hv Hp. unfold reconcile. cbn.
  destruct Hp as [Hn|Hs].
  - assert (get_verified_proof_bundle_v2 records (vb2_creator payload) (vb2_bundle_id payload) = None)
      as -> by (unfold get_verified_proof_bundle_v2; unfold v2_key in Hn; by rewrite Hn).
    assert (insert_verified_proof_bundle_v2 records payload
            = Ok (<[v2_key payload := EntitlementV2 payload]> records)) as ->
      by (apply insert_v2_Ok; split_and!; [done|by left|done]).
    rewrite (proj2 (get_v2_Some _ payload)) by apply lookup_insert_eq. by rewrite eqb_same.
  - rewrite (proj2 (get_v2_Some _ payload) Hs), eqb_same. by rewrite insert_id.
Qed.

(** A deferred publication is not lost.  If an attempt against a store that
    may fail anywhere was deferred, and nothing else was stored for the bundle
    before, then repository and task are as they were, and the next attempt under a
    live claim against a store that answers completes the task and leaves exactly
    its entitlement published. *)
Theorem payment_publication_resumes s e st payload worker token revision publication
    t1 t2 s' e' worker' token' revision' t3 t4 :
  lanes_ok s → st ∈ pr_records s → ptr_entitlement_to_publish (sp_task st) = Some payload →
  publishable (ent_contents e) payload →
  publish s e worker (sp_task st) token revision false t1 t2
    = (Ok (PaymentPublicationDeferred (sp_id st)), s', e') →
  ptr_entitlement_publication_token (sp_task st) = Some publication →
  live_payment_publication (sp_id st) worker' token' revision' publication t3 st = true →
  live_payment_publication (sp_id st) worker' token' revision' publication t4 st = true →
  s' = s
  ∧ ∃ s'', publish s (ent_contents e') worker' (sp_task st) token' revision' false t3 t4
           = (Ok (PaymentTerminal (sp_id st)), s'',
              <[v2_key payload := EntitlementV2 payload]> (ent_contents e'))
           ∧ terminalize st Completed t4 ∈ pr_records s''.
Proof.
  intros Hok Hin Hpay Hpubl Hp Hpub Hl3 Hl4. unfold publish in Hp. rewrite Hpay, Hpub in Hp.
  destruct (acquire_payment_publication_action _ _ _ _ _ _ _) eqn:Hacq; cbn [negb] in Hp; [|done].
  change (ptr_task_id (sp_task st)) with (sp_id st) in *.
  destruct (acquired_task _ _ _ _ _ _ _ st payload Hok Hin eq_refl Hpay Hacq)
    as (Hst & Hun & _ & at_ & Hent).
  destruct (reconcile e payload _) as [o e1] eqn:Hrec.
  apply reconcile_spec in Hrec as (_ & _ & Hkeep). destruct (Hkeep Hpubl) as [Hpubl' [b ->]].
  destruct b; [by destruct (complete_publication _ _ _ _ _ _ _) as [[] ?]|].
  injection Hp as <- <-. split; [done|].
  assert (VerifiedProofBundleV2_validate payload = Ok ()) as Hv.
  { rewrite Hent. apply payment_entitlement_valid.
    by destruct (pso_tasks s (lanes_payment s Hok) st Hin). }
  destruct (complete_publication_live s (sp_id st) worker' token' revision' publication t4 st
              Hok Hin Hun Hl4) as (s'' & Hcomp & Hin'').
  exists s''. split; [|done]. unfold publish. rewrite Hpay, Hpub.
  change (ptr_task_id (sp_task st)) with (sp_id st).
  rewrite (reconcile_memory _ _ _ Hv Hpubl'), Hcomp.
  assert (acquire_payment_publication_action s (sp_id st) worker' token' revision' publication t3
          = true) as ->; [|done].
  unfold acquire_payment_publication_action. rewrite Hun.
  destruct (find_first _ _) eqn:Hfind; cbn.
  - apply existsb_exists. exists st. by split; [apply list_elem_of_In|].
  - rewrite find_first_None in Hfind. specialize (Hfind st Hin). by rewrite eqb_same in Hfind.
Qed.

End retry.

Section graph_publish.
  Context `{Base32, TimeCrate}.
  Context {E : Type} `{!EntitlementStore E, !EntitlementStoreLaws E}.

(** * Graph tasks *)

Definition publish_claimed_entitlement (f : Fence) (e : E) (worker_id : string)
    (task : GraphTaskRecord) (claim_token : Uuid) (expected_revision : Z) (shutdown : bool)
    (acquired_at completed_at : OffsetDateTime) :
    result ApplicationError GraphWorkerTick * Fence * E :=
  let id := gt_task_id task in
  match gt_entitlement_to_publish task with
  | None => (Err (Storage "publishing graph task is missing durable entitlement payload"), f, e)
  | Some payload =>
      match gt_entitlement_publication_token task with
      | None => (Err (Storage "publishing graph task is missing external-effect fence"), f, e)
      | Some publication_token =>
          if negb (acquire_graph_publication_action f id worker_id claim_token expected_revision
                     publication_token acquired_at)
          then (Ok GraphClaimLost, f, e)
          else if shutdown then
            (Ok GraphClaimLost, (release_claimed_graph_task f id worker_id claim_token).2, e)
          else
            let '(outcome, e') :=
              reconcile e payload
                "published v2 entitlement conflicts with durable graph payload" in
            match outcome with
            | Err error => (Err error, f, e')
            | Ok false => (Ok (GraphPublicationDeferred id), f, e')
            | Ok true =>
                let '(completed, f') :=
                  complete_claimed_graph_publication f id worker_id claim_token expected_revision
                    publication_token completed_at in
                (Ok (if is_some completed then GraphTerminal id else GraphClaimLost), f', e')
            end
      end
  end.

(** The stored task under a granted guard. *)
Lemma acquired_graph_task f worker token revision publication now st payload :
  graph_store_ok f → st ∈ graph_records f → gt_entitlement_to_publish (sg_task st) = Some payload →
  acquire_graph_publication_action f (sg_id st) worker token revision publication now = true →
  gt_status (sg_task st) = PublishingEntitlement ∧ undeleted f (sg_id st) = true
  ∧ gt_lock_key (sg_task st) ∉ deletion_cutoffs f
  ∧ sg_claim_token st = Some token ∧ (∃ x, sg_claim_expires_at st = Some x ∧ now < x)
  ∧ ∃ at_, payload = graph_publication (gt_snapshot (sg_task st)) at_.
Proof.
  intros Hok Hin Hp Ha. unfold acquire_graph_publication_action in Ha.
  destruct (find_first _ _) as [[i y]|] eqn:Hfind; [|done].
  apply find_first_Some in Hfind as [Hi Hy]. apply (proj1 (eqb_true _ _)) in Hy.
  assert (y = st) as -> by (eapply same_task; [done|done|by eapply list_elem_of_lookup_2|done]).
  destruct (bool_decide _) eqn:Hcut; [done|]. apply bool_decide_eq_false in Hcut.
  apply existsb_exists in Ha as (x & Hx%list_elem_of_In & Hl). unfold live_publication in Hl. props.
  assert (x = st) as -> by (by eapply same_task).
  match goal with Hm : is_some_and _ (fence_records f !! _) = true |- _ =>
    apply is_some_and_true in Hm as (r & Hr & Hdel) end.
  apply andb_true_iff in Hdel as [Hdel _].
  match goal with Hm : is_some_and _ (sg_claim_expires_at st) = true |- _ =>
    apply is_some_and_true in Hm as (ex & Hex & Hlt) end.
  destruct (gso_tasks f Hok st Hin) as [_ Hs _]. unfold status_ok in Hs.
  match goal with Hm : gt_status (sg_task st) = _ |- _ => rewrite Hm in Hs end.
  destruct Hs as (_ & _ & [at_ Hpre] & _).
  split_and!; [done|by unfold undeleted; rewrite Hr|done|done|exists ex; split; [done|lia]|].
  exists at_. congruence.
Qed.

Lemma graph_release_publishing f worker token st :
  graph_store_ok f → st ∈ graph_records f → gt_status (sg_task st) = PublishingEntitlement →
  ∃ st', st' ∈ graph_records (release_claimed_graph_task f (sg_id st) worker token).2
         ∧ sg_id st' = sg_id st ∧ sg_task st' = sg_task st.
Proof.
  intros Hok Hin Hst. unfold release_claimed_graph_task.
  destruct (find_first _ _) as [[i x]|] eqn:Hfind; [|by exists st].
  apply find_first_Some in Hfind as [Hi Hx]. props.
  assert (x = st) as -> by (eapply same_task; [done|done|by eapply list_elem_of_lookup_2|done]).
  rewrite Hst. change (PublishingEntitlement == InProgress) with false. cbn [andb].
  eexists. split; [cbn; apply list_elem_of_insert; by eapply lookup_lt_Some|]. done.
Qed.

Lemma graph_complete_cases f worker token revision publication now st c f' :
  graph_store_ok f → st ∈ graph_records f →
  complete_claimed_graph_publication f (sg_id st) worker token revision publication now = (c, f') →
  (c = None ∧ f' = f)
  ∨ (is_Some c ∧ ∃ st', st' ∈ graph_records f' ∧ sg_id st' = sg_id st
       ∧ gt_status (sg_task st') = Completed
       ∧ gt_entitlement_to_publish (sg_task st') = gt_entitlement_to_publish (sg_task st)).
Proof.
  intros Hok Hin Hc. unfold complete_claimed_graph_publication in Hc.
  destruct (find_first _ _) as [[i x]|] eqn:Hfind; [|injection Hc as <- <-; by left].
  apply find_first_Some in Hfind as [Hi Hx]. unfold live_publication in Hx. props.
  assert (x = st) as -> by (eapply same_task; [done|done|by eapply list_elem_of_lookup_2|done]).
  injection Hc as <- <-. right. split; [done|].
  eexists. split; [cbn; apply list_elem_of_insert; by eapply lookup_lt_Some|]. done.
Qed.

(** Publication of graph tasks is safe in the same way.  The store is written
    only under the worker's own live claim, for a satisfied task that no deletion
    owns and whose lock is not being deleted, only with the entitlement of the
    task's snapshot and only where nothing else is stored; the task completes only
    after a read has shown the entitlement, and is otherwise as it was. *)
Theorem graph_publication_safe f e st worker token revision shutdown t1 t2 r f' e' :
  graph_store_ok f → st ∈ graph_records f →
  publish_claimed_entitlement f e worker (sg_task st) token revision shutdown t1 t2 = (r, f', e') →
  (ent_contents e' = ent_contents e
   ∨ (gt_status (sg_task st) = PublishingEntitlement ∧ undeleted f (sg_id st) = true
      ∧ gt_lock_key (sg_task st) ∉ deletion_cutoffs f
      ∧ sg_claim_token st = Some token ∧ (∃ x, sg_claim_expires_at st = Some x ∧ t1 < x)
      ∧ ∃ at_, insert_verified_proof_bundle_v2 (ent_contents e)
                 (graph_publication (gt_snapshot (sg_task st)) at_) = Ok (ent_contents e')))
  ∧ (∃ st', st' ∈ graph_records f' ∧ sg_id st' = sg_id st
       ∧ match r with
         | Ok (GraphTerminal _) =>
             gt_status (sg_task st') = Completed
             ∧ ∃ payload, gt_entitlement_to_publish (sg_task st') = Some payload
                 ∧ ent_contents e' !! v2_key payload = Some (EntitlementV2 payload)
         | _ => sg_task st' = sg_task st
         end).
Proof.
  intros Hok Hin Hp. assert (∃ st', st' ∈ graph_records f ∧ sg_id st' = sg_id st
    ∧ sg_task st' = sg_task st) as Hsame by (by exists st).
  unfold publish_claimed_entitlement in Hp.
  destruct (gt_entitlement_to_publish (sg_task st)) as [payload|] eqn:Hpay;
    [|injection Hp as <- <- <-; by split; [left|]].
  destruct (gt_entitlement_publication_token (sg_task st)) as [pub|];
    [|injection Hp as <- <- <-; by split; [left|]].
  change (gt_task_id (sg_task st)) with (sg_id st) in Hp.
  destruct (acquire_graph_publication_action _ _ _ _ _ _ _) eqn:Hacq; cbn [negb] in Hp;
    [|injection Hp as <- <- <-; by split; [left|]].
  destruct (acquired_graph_task _ _ _ _ _ _ st payload Hok Hin Hpay Hacq)
    as (Hst & Hun & Hcut & Htok & Hexp & at_ & Hent).
  destruct shutdown.
  { injection Hp as <- <- <-. split; [by left|]. by apply graph_release_publishing. }
  destruct (reconcile e payload _) as [o e1] eqn:Hrec.
  apply reconcile_spec in Hrec as (Hc & Hshown & _).
  destruct o as [[]|err]; [|injection Hp as <- <- <-|injection Hp as <- <- <-];
    [|split; [destruct Hc as [Hc|Hc]; [by left|right; rewrite Hent in Hc; eauto 8]|done]..].
  destruct (complete_claimed_graph_publication _ _ _ _ _ _ _) as [c f1] eqn:Hcomp.
  injection Hp as <- <- <-.
  split; [destruct Hc as [Hc|Hc]; [by left|right; rewrite Hent in Hc; eauto 8]|].
  destruct (graph_complete_cases _ _ _ _ _ _ _ _ _ Hok Hin Hcomp)
    as [[-> ->]|[[t ->] (st' & Hin' & Hid' & Hst' & Hpay')]]; [done|].
  exists st'. split; [done|]. split; [done|]. cbn. split; [done|].
  exists payload. rewrite Hpay'. split; [done|by apply read_back_stored, Hshown].
Qed.

End graph_publish.
