(* ===== verification/Instances.v ===== *)
(** Concrete implementations of the third-party interfaces of [Externals] and
    [LockPolicy], with proofs of their laws.

    A base-32 codec over an arbitrary alphabet gives both Crockford base 32 and the
    z-base-32 rendering of public keys; UUIDs are rendered as hyphenated
    hexadecimal.  The theorems of the development are instantiated with these in
    [Witnesses]. *)

From S2P Require Import Prelude RustStr Externals Ids Json LockPolicy Wire Errors Entitlements.
From S2P Require Import DeletionJob AccessUse.

Lemma length_list_ascii_of_string s : length (list_ascii_of_string s) = String.length s.
Proof. induction s as [|c s IH]; [done|]. cbn. by rewrite IH. Qed.

(** * Base 32 over an alphabet *)

Definition byte_bits (c : ascii) : list bool :=
  match c with
  | Ascii.Ascii b0 b1 b2 b3 b4 b5 b6 b7 => [b7; b6; b5; b4; b3; b2; b1; b0]
  end.

Definition bits_of (bs : bytes) : list bool := bs ≫= byte_bits.

Fixpoint bytes_of (l : list bool) : bytes :=
  match l with
  | b7 :: b6 :: b5 :: b4 :: b3 :: b2 :: b1 :: b0 :: r =>
      Ascii.Ascii b0 b1 b2 b3 b4 b5 b6 b7 :: bytes_of r
  | _ => []
  end.

Section base32.
Context (digit : bool → bool → bool → bool → bool → ascii).
Context (undigit : ascii → option (list bool)).
Context (Hdigit : ∀ a b c d e, undigit (digit a b c d e) = Some [a; b; c; d; e]).

Fixpoint encode_bits (l : list bool) : list ascii :=
  match l with
  | a :: b :: c :: d :: e :: r => digit a b c d e :: encode_bits r
  | [] => []
  | [a] => [digit a false false false false]
  | [a; b] => [digit a b false false false]
  | [a; b; c] => [digit a b c false false]
  | [a; b; c; d] => [digit a b c d false]
  end.

Fixpoint decode_bits (cs : list ascii) : option (list bool) :=
  match cs with
  | [] => Some []
  | c :: cs => d ← undigit c; r ← decode_bits cs; Some (d ++ r)
  end.

Definition base32_encode (bs : bytes) : string :=
  string_of_list_ascii (encode_bits (bits_of bs)).

Definition base32_decode (s : string) : option bytes :=
  bytes_of <$> decode_bits (list_ascii_of_string s).

Lemma encode_bits_ind (P : list bool → Prop) :
  P [] → (∀ a, P [a]) → (∀ a b, P [a; b]) → (∀ a b c, P [a; b; c]) →
  (∀ a b c d, P [a; b; c; d]) → (∀ a b c d e r, P r → P (a :: b :: c :: d :: e :: r)) →
  ∀ l, P l.
Proof.
  intros H0 H1 H2 H3 H4 H5 l. remember (length l) as n eqn:Hn.
  revert l Hn. induction (lt_wf n) as [n _ IH]. intros l ->.
  destruct l as [|a [|b [|c [|d [|e r]]]]]; auto.
  apply H5. eapply IH; [|done]. cbn. lia.
Qed.

Lemma decode_encode_bits l :
  ∃ pad, decode_bits (encode_bits l) = Some (l ++ pad) ∧ (length pad < 5)%nat.
Proof.
  induction l as [|a|a b|a b c|a b c d|a b c d e r IH] using encode_bits_ind.
  { exists []. split; [done|cbn; lia]. }
  { exists [false; false; false; false]. cbn. rewrite Hdigit. split; [done|cbn; lia]. }
  { exists [false; false; false]. cbn. rewrite Hdigit. split; [done|cbn; lia]. }
  { exists [false; false]. cbn. rewrite Hdigit. split; [done|cbn; lia]. }
  { exists [false]. cbn. rewrite Hdigit. split; [done|cbn; lia]. }
  destruct IH as (pad & IH & Hpad). exists pad. split; [|done].
  cbn. rewrite Hdigit. cbn. by rewrite IH.
Qed.

Lemma encode_bits_length l : length (encode_bits l) = ((length l + 4) / 5)%nat.
Proof.
  induction l as [|a|a b|a b c|a b c d|a b c d e r IH] using encode_bits_ind; try done.
  cbn [encode_bits length]. rewrite IH.
  replace (S (S (S (S (S (length r))))) + 4)%nat with (1 * 5 + (length r + 4))%nat by lia.
  rewrite Nat.div_add_l by lia. lia.
Qed.

Lemma encode_bits_alphabet (p : ascii → bool) l :
  (∀ a b c d e, p (digit a b c d e) = true) → forallb p (encode_bits l) = true.
Proof.
  intros Hp. induction l as [|a|a b|a b c|a b c d|a b c d e r IH] using encode_bits_ind;
    cbn [encode_bits forallb]; rewrite ?Hp; done.
Qed.

Lemma bytes_of_bits bs pad : (length pad < 5)%nat → bytes_of (bits_of bs ++ pad) = bs.
Proof.
  intros Hpad. induction bs as [|c bs IH].
  - destruct pad as [|? [|? [|? [|? [|? ?]]]]]; cbn in *; (done || lia).
  - destruct c. cbn. f_equal. exact IH.
Qed.

Lemma bits_of_length bs : length (bits_of bs) = (8 * length bs)%nat.
Proof.
  induction bs as [|c bs IH]; [done|]. unfold bits_of in *. cbn. rewrite length_app, IH.
  destruct c. cbn. lia.
Qed.

Lemma base32_decode_encode bs : base32_decode (base32_encode bs) = Some bs.
Proof.
  unfold base32_decode, base32_encode. rewrite list_ascii_of_list_ascii.
  destruct (decode_encode_bits (bits_of bs)) as (pad & -> & Hpad). cbn.
  by rewrite bytes_of_bits.
Qed.
End base32.

(** * Alphabets *)

Definition bits_value (l : list bool) : nat :=
  fold_left (λ acc b, (2 * acc + Nat.b2n b)%nat) l 0%nat.

Definition alphabet_digit (alphabet : string) (a b c d e : bool) : ascii :=
  default Ascii.zero (list_ascii_of_string alphabet !! bits_value [a; b; c; d; e]).

Definition five_bits (n : nat) : list bool :=
  [Nat.testbit n 4; Nat.testbit n 3; Nat.testbit n 2; Nat.testbit n 1; Nat.testbit n 0].

Definition alphabet_undigit (alphabet : string) (c : ascii) : option (list bool) :=
  (λ '(i, _), five_bits i) <$> list_find (λ x, x = c) (list_ascii_of_string alphabet).

Definition CROCKFORD : string := "0123456789ABCDEFGHJKMNPQRSTVWXYZ".
Definition ZBASE32 : string := "ybndrfg8ejkmcpqxot1uwisza345h769".

Lemma crockford_digit a b c d e :
  alphabet_undigit CROCKFORD (alphabet_digit CROCKFORD a b c d e) = Some [a; b; c; d; e].
Proof. by destruct a, b, c, d, e. Qed.

Lemma zbase32_digit a b c d e :
  alphabet_undigit ZBASE32 (alphabet_digit ZBASE32 a b c d e) = Some [a; b; c; d; e].
Proof. by destruct a, b, c, d, e. Qed.

#[global] Instance crockford_base32 : Base32 := {|
  b32_encode := base32_encode (alphabet_digit CROCKFORD);
  b32_decode := base32_decode (alphabet_undigit CROCKFORD);
|}.

#[global] Instance crockford_base32_laws : Base32Laws.
Proof.
  split.
  - intros bs. apply base32_decode_encode, crockford_digit.
  - intros bs. cbn. unfold base32_encode. rewrite <- length_list_ascii_of_string,
      list_ascii_of_list_ascii, encode_bits_length, bits_of_length. done.
  - intros bs. cbn. unfold base32_encode, bytes_all.
    rewrite list_ascii_of_list_ascii. apply encode_bits_alphabet.
    by intros [] [] [] [] [].
Qed.

(** A public key is its key bytes. *)
#[global] Instance zbase32_keys : PubkyKeys := {|
  PublicKey := bytes;
  public_key_from_str s :=
    rest ← strip_prefix "pubky" s; base32_decode (alphabet_undigit ZBASE32) rest;
  public_key_to_string k := "pubky" +:+ base32_encode (alphabet_digit ZBASE32) k;
|}.

#[global] Instance zbase32_keys_laws : PubkyKeysLaws.
Proof.
  split.
  - intros k. cbn [public_key_from_str public_key_to_string zbase32_keys].
    rewrite strip_prefix_app. cbn [mbind option_bind]. apply base32_decode_encode, zbase32_digit.
  - intros k. unfold bytes_all. cbn [public_key_to_string zbase32_keys].
    rewrite list_ascii_append, forallb_app. apply andb_true_iff. split; [done|].
    unfold base32_encode. rewrite list_ascii_of_list_ascii.
    apply encode_bits_alphabet. by intros [] [] [] [] [].
Qed.

(** * UUIDs *)

Fixpoint nibbles (k : nat) (u : Z) : list Z :=
  match k with
  | O => []
  | S k => nibbles k (u / 16) ++ [u mod 16]
  end.

Definition nibbles_value (l : list Z) : Z := fold_left (λ acc d, acc * 16 + d) l 0.

Definition HEX : string := "0123456789abcdef".

Definition hex_char (n : Z) : ascii := default Ascii.zero (list_ascii_of_string HEX !! Z.to_nat n).
Definition hex_value (c : ascii) : option Z :=
  (λ '(i, _), Z.of_nat i) <$> list_find (λ x, x = c) (list_ascii_of_string HEX).

Definition hyphen : ascii := Ascii.ascii_of_N 45.

Definition hyphenate (l : list ascii) : list ascii :=
  take 8 l ++ hyphen :: take 4 (drop 8 l) ++ hyphen :: take 4 (drop 12 l)
  ++ hyphen :: take 4 (drop 16 l) ++ hyphen :: drop 20 l.

#[global] Instance hex_uuids : UuidCrate := {|
  uuid_parse_str s :=
    ds ← mapM hex_value (filter (λ c, c ≠ hyphen) (list_ascii_of_string s));
    if (length ds =? 32)%nat then Some (nibbles_value ds) else None;
  uuid_hyphenated u := string_of_list_ascii (hyphenate (hex_char <$> nibbles 32 u));
  uuid_get_version_num u := (u / 2 ^ 76) mod 16;
|}.

Lemma nibbles_length k u : length (nibbles k u) = k.
Proof. revert u. induction k; intros u; cbn; rewrite ?length_app, ?IHk; cbn; lia. Qed.

Lemma nibbles_range k u : Forall (λ d, 0 ≤ d < 16) (nibbles k u).
Proof.
  revert u. induction k; intros u; cbn; [constructor|]. apply Forall_app. split; [done|].
  constructor; [|constructor]. apply Z.mod_pos_bound. lia.
Qed.

Lemma nibbles_value_correct k u : 0 ≤ u < 16 ^ Z.of_nat k → nibbles_value (nibbles k u) = u.
Proof.
  revert u. induction k as [|k IH]; intros u Hu; cbn; [cbn in Hu; lia|].
  unfold nibbles_value in *. rewrite fold_left_app. cbn. rewrite IH.
  - pose proof (Z.div_mod u 16). lia.
  - rewrite Nat2Z.inj_succ, Z.pow_succ_r in Hu by lia.
    split; [apply Z.div_pos; lia|apply Z.div_lt_upper_bound; lia].
Qed.

Lemma nibbles_value_range ds : Forall (λ d, 0 ≤ d < 16) ds →
  0 ≤ nibbles_value ds < 16 ^ Z.of_nat (length ds).
Proof.
  unfold nibbles_value. induction ds as [|d ds IH] using rev_ind; intros Hds; cbn; [lia|].
  apply Forall_app in Hds as [Hds [Hd _]%Forall_cons]. rewrite fold_left_app, length_app.
  cbn [length fold_left]. replace (Z.of_nat (length ds + 1)) with (Z.succ (Z.of_nat (length ds))) by lia.
  rewrite Z.pow_succ_r by lia. specialize (IH Hds). lia.
Qed.

Lemma hex_value_char n : 0 ≤ n < 16 → hex_value (hex_char n) = Some n ∧ hex_char n ≠ hyphen.
Proof.
  intros Hn. assert (∃ k, n = Z.of_nat k ∧ (k < 16)%nat) as (k & -> & Hk) by (exists (Z.to_nat n); lia).
  do 16 (destruct k as [|k]; [by split|]). lia.
Qed.

Lemma hex_value_range c n : hex_value c = Some n → 0 ≤ n < 16.
Proof.
  unfold hex_value. intros ([i x] & Hi & ->)%fmap_Some.
  apply list_find_Some in Hi as (Hi%lookup_lt_Some & _). cbn in Hi. lia.
Qed.

Lemma filter_keeps_all {A} (P : A → Prop) `{∀ x, Decision (P x)} l :
  Forall P l → filter P l = l.
Proof. induction 1; [done|]. rewrite filter_cons_True by done. congruence. Qed.

Lemma filter_hyphenate l :
  Forall (λ c, c ≠ hyphen) l → length l = 32%nat →
  filter (λ c, c ≠ hyphen) (hyphenate l) = l.
Proof.
  intros Hl Hlen.
  assert (∀ k n, filter (λ c, c ≠ hyphen) (take k (drop n l)) = take k (drop n l)) as Htd.
  { intros k n. by apply filter_keeps_all, Forall_take, Forall_drop. }
  assert (∀ xs, filter (λ c, c ≠ hyphen) (hyphen :: xs) = filter (λ c, c ≠ hyphen) xs) as Hh.
  { intros xs. by rewrite filter_cons_False by naive_solver. }
  unfold hyphenate. do 4 rewrite filter_app, Hh.
  rewrite !Htd, (filter_keeps_all _ (drop 20 l)) by (by apply Forall_drop).
  rewrite (filter_keeps_all _ (take 8 l)) by (by apply Forall_take).
  clear -Hlen. do 20 (destruct l as [|? l]; [done|]). done.
Qed.

Lemma mapM_hex l : Forall (λ d, 0 ≤ d < 16) l → mapM hex_value (hex_char <$> l) = Some l.
Proof.
  induction 1 as [|d l Hd Hl IH]; [done|]. cbn [fmap list_fmap mapM]. destruct (hex_value_char d Hd) as [-> _]. cbn.
  by rewrite IH.
Qed.

Lemma mapM_hex_range cs ds : mapM hex_value cs = Some ds → Forall (λ d, 0 ≤ d < 16) ds.
Proof.
  revert ds. induction cs as [|c cs IH]; cbn; intros ds Hds; [injection Hds as <-; constructor|].
  apply bind_Some in Hds as (d & Hd%hex_value_range & (ds' & Hds & [= <-])%bind_Some).
  constructor; auto.
Qed.

#[global] Instance hex_uuid_laws : UuidLaws.
Proof.
  split.
  - intros u Hu. cbn [uuid_hyphenated uuid_parse_str hex_uuids].
    rewrite list_ascii_of_list_ascii, filter_hyphenate.
    + rewrite mapM_hex by apply nibbles_range. cbn [mbind option_bind]. rewrite nibbles_length.
      cbn [Nat.eqb]. f_equal. apply nibbles_value_correct. exact Hu.
    + apply Forall_fmap. eapply Forall_impl; [apply nibbles_range|].
      intros d Hd. by apply hex_value_char.
    + by rewrite length_fmap, nibbles_length.
  - intros s u Hu. cbn in Hu. apply bind_Some in Hu as (ds & Hds & Hu).
    destruct (Nat.eqb_spec (length ds) 32) as [Hlen|]; [|done]. injection Hu as <-.
    apply mapM_hex_range, nibbles_value_range in Hds. rewrite Hlen in Hds. exact Hds.
Qed.

(** * The remaining crates *)

(** A media type has a slash between two non-empty parts. *)
#[global] Instance slash_mime : MimeCrate := {|
  mime_parses s :=
    match find "/" s with
    | Some n => (0 <? Z.of_nat n) && (Z.of_nat n + 1 <? str_len s)
    | None => false
    end;
|}.

(** Years up to 9999, in nanoseconds since the epoch. *)
#[global] Instance bounded_time : TimeCrate := {|
  time_checked_add t d := if t + d <? 253402300800000000000 then Some (t + d) else None;
|}.

#[global] Instance bounded_time_laws : TimeLaws.
Proof. split. intros t d t'. cbn. destruct (_ <? _); naive_solver. Qed.

(** A 32-byte digest: the message padded and cut. *)
#[global] Instance padding_hash : Blake3 := {|
  blake3_hash bs := take 32 (bs ++ replicate 32 Ascii.zero);
|}.

#[global] Instance padding_hash_laws : Blake3Laws.
Proof.
  split. intros bs. cbn [blake3_hash padding_hash].
  rewrite length_take, length_app, length_replicate. lia.
Qed.

#[global] Instance creator_canonicalizer : JsonCanonicalizer := {|
  canonical_json_v1 lock := Some (list_ascii_of_string (CreatorPubky_str (cl_creator lock)));
  canonical_json_v2 lock := Some (list_ascii_of_string (CreatorPubky_str (cl2_creator lock)));
|}.

Definition ascii_lower (c : ascii) : ascii :=
  if is_ascii_uppercase c then Ascii.ascii_of_N (Z.to_N (byte_val c + 32)) else c.

#[global] Instance ascii_case : UnicodeCase := {|
  to_lowercase s := string_of_list_ascii (ascii_lower <$> list_ascii_of_string s);
|}.

(** * An entitlement store that loses answers

    Each call takes the next entry of [lost]: [true] means that the call takes
    effect and its answer does not arrive. *)

Record FlakyStore := MkFlaky { flaky_contents : Entitlements; flaky_lost : list bool }.

Definition answer_lost (e : FlakyStore) : bool := default false (head (flaky_lost e)).

#[global] Instance flaky_entitlements : EntitlementStore FlakyStore := {|
  ent_contents := flaky_contents;
  ent_get_v2 e creator bundle_id :=
    (if answer_lost e then Err (Storage "no answer")
     else Ok (get_verified_proof_bundle_v2 (flaky_contents e) creator bundle_id),
     MkFlaky (flaky_contents e) (tail (flaky_lost e)));
  ent_insert_v2 e bundle :=
    match insert_verified_proof_bundle_v2 (flaky_contents e) bundle with
    | Ok records =>
        (if answer_lost e then Err (Storage "no answer") else Ok (),
         MkFlaky records (tail (flaky_lost e)))
    | Err error => (Err error, MkFlaky (flaky_contents e) (tail (flaky_lost e)))
    end;
|}.

#[global] Instance flaky_entitlements_laws : EntitlementStoreLaws FlakyStore.
Proof.
  split; cbn.
  - intros e creator bundle_id r e' [= <- <-]. split; [done|].
    intros o Ho. destruct (answer_lost e); [done|]. by injection Ho.
  - intros e bundle r e'. destruct (insert_verified_proof_bundle_v2 _ bundle) as [m|] eqn:Hi;
      intros [= <- <-]; cbn; [by right|by left].
Qed.

(** * Secrets *)

(** The base-32 codec also serves as the base-64 one: its alphabet is a part of the
    URL-safe alphabet. *)
#[global] Instance base32_as_base64 : Base64Url := {|
  b64_encode := b32_encode;
  b64_decode := b32_decode;
|}.

Lemma crockford_is_base64url c : is_crockford c = true → is_base64url c = true.
Proof.
  unfold is_crockford, is_base64url. rewrite orb_true_iff, andb_true_iff.
  intros [-> | [-> _]]; [done|]. by rewrite orb_true_r.
Qed.

#[global] Instance base32_as_base64_laws : Base64UrlLaws.
Proof.
  split; intros bs.
  - apply b32_decode_encode.
  - eapply bytes_all_impl; [apply crockford_is_base64url|]. apply b32_encode_alphabet.
Qed.

(** A sealed message is the message behind the key, nonce and associated data. *)
Fixpoint open_prefix (p bs : bytes) : option bytes :=
  match p, bs with
  | [], _ => Some bs
  | c :: p, d :: bs => if c == d then open_prefix p bs else None
  | _ :: _, [] => None
  end.

Lemma open_prefix_Some p bs msg : open_prefix p bs = Some msg ↔ bs = p ++ msg.
Proof.
  revert bs. induction p as [|c p IH]; intros bs; cbn; [naive_solver|].
  destruct bs as [|d bs]; [done|]. destruct (c == d) eqn:Hc; props.
  - subst. rewrite IH. naive_solver.
  - naive_solver.
Qed.

#[global] Instance prefix_aead : Aead := {|
  aead_seal key nonce aad msg := Some (key ++ nonce ++ aad ++ msg);
  aead_open key nonce aad ct := open_prefix (key ++ nonce ++ aad) ct;
|}.

#[global] Instance prefix_aead_laws : AeadLaws.
Proof.
  split. intros key nonce aad msg ct. cbn. rewrite open_prefix_Some, <- !app_assoc.
  split; [by intros [= <-]|by intros ->].
Qed.

#[global] Instance plain_kdf : Blake3Kdf := {| blake3_derive_key _ bs := bs |}.

#[global] Instance canonicalization_failed : CanonicalizationError :=
  {| canonicalization_message _ := "canonicalization failed" |}.
#[global] Instance canonicalization_failed_v2 : CanonicalizationErrorV2 :=
  {| canonicalization_message_v2 _ := "canonicalization failed" |}.
