(* ===== verification/Witnesses.v ===== *)
(** Concrete instances of the theorems.

    Each lemma applies one theorem of the development at a concrete input, with
    the third-party interfaces implemented as in [Instances], and discharges its
    hypotheses by computation. *)

From S2P Require Import Prelude RustStr Externals Ids Json LockPolicy Wire Errors.
From S2P Require Import Lifecycle Ownership RateLimit.
From S2P Require Import GraphTask GraphWorker PaymentTask PaymentWorker Fence GraphStore Lanes.
From S2P Require Import Entitlements PaymentStore Lanes Publication Instances.

(** * Identifiers *)

Definition key_bytes (n : N) : bytes := replicate 32 (Ascii.ascii_of_N n).

Definition alice : CreatorPubky := MkCreatorPubky (public_key_to_string (key_bytes 1)).
Definition bob : CreatorPubky := MkCreatorPubky (public_key_to_string (key_bytes 2)).

Definition sample_hash : LockHash := MkLockHash (key_bytes 7).
Definition sample_bundle : BundleId := BundleId_from_bytes (replicate 16 (Ascii.ascii_of_N 9)).
Definition sample_resource : PubkyLockResource :=
  MkPubkyLockResource alice (MkContentLockPath (LockId_from_hash sample_hash)).

Lemma PubkyLockResource_parse_normalises_witness :
  PubkyLockResource_from_str (PubkyLockResource_display sample_resource) = Ok sample_resource
  ∧ LockId_from_str (LockId_display (resource_lock_id sample_resource))
    = Ok (resource_lock_id sample_resource).
Proof.
  destruct (PubkyLockResource_parse_normalises (PubkyLockResource_display sample_resource)
              sample_resource) as (Hd & Hl & _); [vm_compute; reflexivity|].
  split; [exact Hd|exact Hl].
Defined.

Lemma derived_identifiers_roundtrip_witness :
  LockId_from_str (LockId_display (LockId_from_hash sample_hash)) = Ok (LockId_from_hash sample_hash)
  ∧ str_len (BundleId_display sample_bundle) = 26.
Proof.
  destruct (derived_identifiers_roundtrip sample_hash sample_hash
              (replicate 16 (Ascii.ascii_of_N 9)) (key_bytes 3)) as (Hl & _ & _ & _ & Hlen & _);
    [reflexivity|reflexivity|]. split; [exact Hl|exact Hlen].
Defined.

(** A version-4 UUID. *)
Definition sample_uuid : Z := 4 * 2 ^ 76 + 5.
Definition sample_task_id : TaskId := MkTaskId sample_uuid.

Lemma opaque_identifiers_accepted_witness :
  TaskId_from_str (TaskId_display sample_task_id) = Ok sample_task_id.
Proof.
  destruct (opaque_identifiers_accepted (TaskId_display sample_task_id) sample_task_id
              (MkClientReference "order-1")) as (_ & Hrt & _).
  apply Hrt. vm_compute. reflexivity.
Defined.

(** * Content locks *)

Definition primary : GuardedResource :=
  MkGuardedResource (GUARDED_RESOURCE_CONTENT_PATH_PREFIX +:+ "song.mp3")
    (MkGuardedResourceHash (key_bytes 5)) "audio/mpeg" 1000.

Definition cover_path : string := GUARDED_RESOURCE_CONTENT_PATH_PREFIX +:+ "cover.png".

Definition secondary : gmap string SecondaryGuardedResource :=
  {[ cover_path := MkSecondaryGuardedResource (MkGuardedResourceHash (key_bytes 6)) "image/png" 50 ]}.

Definition sample_lock : ContentLock :=
  MkContentLock 1 alice (Some primary) secondary [] (LogicAll []) (MkAccessPolicy 60)
    (MkLockServerConfig None) 0.

Lemma sample_sizes : sizes_u64 (Some primary) secondary.
Proof.
  split; [by intros r [= <-]|]. unfold secondary. intros k r [_ <-]%lookup_singleton_Some. done.
Qed.

Lemma resource_set_validators_agree_witness :
  validate_resource_set sample_lock = Ok () ∧ resource_set_ok (Some primary) secondary.
Proof.
  destruct (resource_set_validators_agree sample_lock sample_sizes) as [_ [Hok _]].
  assert (validate_resource_set sample_lock = Ok ()) as Hv by (vm_compute; reflexivity).
  split; [exact Hv|exact (Hok Hv)].
Defined.

Lemma total_resource_size_exact_witness : total_resource_size sample_lock = Ok 1050.
Proof. rewrite (total_resource_size_exact sample_lock sample_sizes). vm_compute. reflexivity. Defined.

Lemma resource_for_path_exact_witness :
  descriptor_ok (gr_path primary) (gr_content_type primary) (gr_size primary).
Proof.
  destruct (resource_for_path_exact sample_lock (gr_path primary) primary sample_sizes)
    as [_ Hok]; [vm_compute; reflexivity|]. apply Hok. vm_compute. reflexivity.
Defined.

Definition sample_lock_v2 : ContentLockV2 :=
  MkContentLockV2 2 alice (Some primary) secondary
    (Some (MkPaymentPolicyV2 alice "2500" "BTC" 1)) None 3600 (MkAccessPolicy 60)
    (MkLockServerConfig None) 0.

Lemma content_lock_v2_validate_spec_witness : content_lock_v2_ok sample_lock_v2.
Proof.
  apply (content_lock_v2_validate_spec sample_lock_v2 sample_sizes). vm_compute. reflexivity.
Defined.

(** * Graph tasks *)

Definition follows : GraphPredicateV2 := Follows Reader Creator.
Definition tagged : GraphPredicateV2 := Tagged Creator Reader "vip".

Definition graph_start : GraphTaskSnapshotV1 :=
  MkGraphSnapshot 1 alice sample_bundle sample_resource sample_hash bob 0 (seconds 60) (Some Or)
    [GraphPredicateState_new follows; GraphPredicateState_new tagged] GraphPending.

(** The first predicate observed true after a second, the root not yet reduced. *)
Definition seen_true : GraphPredicateObservation :=
  MkObservation OutcomeTrue (seconds 1) (Some "https://nexus") (Some 200).
Definition graph_seen : GraphTaskSnapshotV1 :=
  gs_with_predicates graph_start
    [nexus_predicate (GraphPredicateState_new follows) seen_true None None 0 0;
     GraphPredicateState_new tagged].

Definition seen_false : GraphPredicateObservation :=
  MkObservation OutcomeFalse (seconds 2) (Some "https://nexus") (Some 404).
Definition graph_later : GraphTaskSnapshotV1 :=
  gs_with_predicates graph_start
    [nexus_predicate (GraphPredicateState_new follows) seen_true None None 0 0;
     nexus_predicate (GraphPredicateState_new tagged) seen_false None (Some (seconds 7)) 0 0].

Lemma reduce_graph_snapshot_spec_witness :
  ∃ s', reduce_graph_snapshot graph_start (seconds 60) = Ok s'
        ∧ gs_root s' = GraphExpired DeadlineFalse.
Proof.
  destruct (reduce_graph_snapshot_spec graph_start (seconds 60)) as (s' & Hr & _ & _ & _ & Hlate & _);
    [vm_compute; reflexivity|vm_compute; reflexivity|].
  exists s'. split; [exact Hr|]. apply Hlate; [reflexivity|vm_compute; discriminate].
Defined.

Lemma graph_seen_forced : forced_root graph_seen GraphSatisfied.
Proof. apply (early_root_forced graph_seen GraphSatisfied); [vm_compute; reflexivity|done|done]. Qed.

Lemma graph_replacement_keeps_decision_witness :
  terminal_root_from_observations graph_later = GraphSatisfied.
Proof.
  apply (graph_replacement_keeps_decision graph_seen graph_later GraphSatisfied);
    [vm_compute; reflexivity|reflexivity|exact graph_seen_forced].
Defined.

Definition sample_answers : list (nat * (NexusObservation * OffsetDateTime)) :=
  [(1%nat, (NexusOperational OperationalTimeout "https://nexus" None (Some 90), seconds 2));
   (0%nat, (NexusValid true "https://nexus" 200, seconds 3))].

Lemma new_predicate_tracked p : tracked (GraphPredicateState_new p).
Proof. by split. Qed.

Lemma graph_start_tracked : Forall tracked (gs_predicates graph_start).
Proof. repeat (apply Forall_cons; split; [apply new_predicate_tracked|]). apply Forall_nil. done. Qed.

Lemma sample_answers_ok : answers_ok graph_start (seconds 4) sample_answers.
Proof.
  split; [cbn; repeat constructor; set_solver|].
  intros i obs at_ Hin. unfold sample_answers in Hin.
  apply elem_of_cons in Hin as [[= -> -> ->]|Hin];
    [|apply elem_of_cons in Hin as [[= -> -> ->]|Hin]; [|by apply elem_of_nil in Hin]];
    (split; [vm_compute; discriminate|]); eexists; (split_and!; [reflexivity|reflexivity|]);
    (split; [intros Ht; vm_compute in Ht; discriminate|vm_compute; discriminate
            |intros o [=]|vm_compute; reflexivity]).
Qed.

Lemma evaluate_claimed_task_accepted_witness :
  ∃ plan, evaluate_claimed_task id graph_start (seconds 1) sample_answers (seconds 4) = Ok plan
          ∧ plan_ok graph_start plan.
Proof.
  destruct (evaluate_claimed_task_accepted id graph_start (seconds 1) sample_answers (seconds 4))
    as (plan & Hplan & Hok & _);
    [vm_compute; reflexivity|reflexivity|exact graph_start_tracked|vm_compute; reflexivity
    |vm_compute; discriminate|exact sample_answers_ok|].
  exists plan. split; [exact Hplan|exact Hok].
Defined.

(** * Payment tasks *)

Definition sample_submission : SubmittedProofBundleV2 :=
  MkSubmittedProofBundleV2 2 sample_bundle sample_resource (Some bob).

Definition payment_start : PaymentTaskSnapshotV1 :=
  MkPaymentSnapshot 1 alice sample_bundle sample_submission sample_resource (key_bytes 7) bob
    (MkPaymentTermsV2 alice "2500" 2500 Btc 1) 0 (seconds 600) InvoicePending None 0 0
    None None None None None PaymentRootPending.

Definition payment_invoiced : PaymentTaskSnapshotV1 :=
  pt_with_invoice payment_start (InvoiceCreated (seconds 1) (seconds 60)).

Definition paid_sample : PaymentSampleV2 :=
  MkPaymentSample (seconds 30) SampleConfirmed
    (Some (MkOutpoint "00000000000000000000000000000000000000000000000000000000000000aa" 0)) 1 true.

Definition paid_status : PaymentProviderStatus :=
  MkProviderStatus alice sample_bundle RequestAccepted PaymentConfirmed (seconds 1) (seconds 60)
    (seconds 600) Btc 1 (Some paid_sample) (Some paid_sample).

Definition payment_paid : PaymentTaskSnapshotV1 := pt_with_status payment_invoiced paid_status.

Lemma reduce_payment_snapshot_spec_witness :
  ∃ s', reduce_payment_snapshot payment_paid (seconds 31) = Ok s'
        ∧ pt_root s' = PaymentRootSatisfied ∧ threshold_evidence payment_paid paid_sample.
Proof.
  destruct (reduce_payment_snapshot_spec payment_paid (seconds 31))
    as (s' & Hr & _ & _ & _ & _ & Hsat & Hev); [vm_compute; reflexivity|].
  assert (payment_settled payment_paid) as Hset.
  { exists paid_status. split; [reflexivity|]. split; [reflexivity|]. eexists; reflexivity. }
  exists s'. split; [exact Hr|]. split; [by apply Hsat|].
  destruct (Hev Hset) as (first & Hf & He). injection Hf as <-. exact He.
Defined.

Lemma payment_history_monotone_witness :
  has_same_admission_binding payment_paid payment_start = true.
Proof.
  apply (payment_history_monotone payment_start payment_paid).
  - eapply (rtc_l _ _ payment_invoiced); [vm_compute; reflexivity|].
    eapply rtc_once. vm_compute. reflexivity.
  - vm_compute. reflexivity.
Defined.

Lemma evaluate_claimed_payment_accepted_witness :
  ∃ plan, evaluate_claimed_payment payment_invoiced (seconds 20)
            (Err (MkProviderError ProviderRetryable None)) (Ok paid_status) (seconds 31) = Ok plan
          ∧ payment_plan_ok payment_invoiced plan.
Proof.
  apply evaluate_claimed_payment_accepted; [vm_compute; reflexivity|reflexivity|].
  split; [vm_compute; discriminate|intros t [=]|vm_compute; discriminate|].
  split; vm_compute; discriminate.
Defined.

(** * The graph repository *)

Definition sample_record : GraphTaskRecord :=
  MkGraphTaskRecord sample_task_id graph_start 0 Pending None None None.

Definition fence_inserted : Fence :=
  match insert_graph_task Fence_new sample_record with Ok (_, f) => f | Err _ => Fence_new end.

Definition fence_claimed : Fence :=
  match claim_next_graph_task fence_inserted "worker-a" 0 (seconds 30) (seconds 1) 77 with
  | Ok (_, f) => f
  | Err _ => Fence_new
  end.

Definition claimed_record : StoredGraphTask :=
  MkStoredGraphTask (gt_with_status sample_record InProgress) (Some "worker-a") (Some 77)
    (Some (seconds 31)) None.

Lemma fence_claimed_records : graph_records fence_claimed = [claimed_record].
Proof. vm_compute. reflexivity. Qed.

Lemma fence_claimed_reachable : rtc graph_step Fence_new fence_claimed.
Proof.
  apply (rtc_l _ _ fence_inserted).
  - eapply (step_insert Fence_new sample_record (λ _, Ok ()) false sample_record).
    vm_compute. reflexivity.
  - apply rtc_once.
    eapply (step_claim fence_inserted "worker-a" 0 (seconds 30) (seconds 1) 77
              (Some (MkClaimedGraphTask (gt_with_status sample_record InProgress) 77))).
    vm_compute. reflexivity.
Qed.

Lemma fence_claimed_ok : graph_store_ok fence_claimed.
Proof. apply (graph_steps_ok _ _ fence_claimed_reachable), graph_store_ok_new. Qed.

Lemma claimed_record_stored : claimed_record ∈ graph_records fence_claimed.
Proof. rewrite fence_claimed_records. by left. Qed.

Lemma claimed_record_live now :
  now < seconds 31 → live_claim fence_claimed sample_task_id "worker-a" 77 0 now claimed_record.
Proof. intros Hnow. split; try done. by exists (seconds 31). Qed.

Lemma graph_store_invariant_witness : graph_store_ok fence_claimed.
Proof. apply (graph_store_invariant fence_claimed), fence_claimed_reachable. Defined.

Lemma graph_lease_exclusive_witness :
  release_claimed_graph_task fence_claimed sample_task_id "worker-b" 78 = (false, fence_claimed).
Proof.
  destruct (graph_lease_exclusive fence_claimed claimed_record 77 fence_claimed_ok
              claimed_record_stored eq_refl) as [Hstale _].
  apply (Hstale 78 "worker-b" 0 0 graph_start 0 0 0). discriminate.
Defined.

Lemma persist_claimed_graph_snapshot_spec_witness :
  match (persist_claimed_graph_snapshot fence_claimed sample_task_id "worker-a" 77 0
           (gs_with_root graph_seen GraphSatisfied) (seconds 3) 99).1 with
  | Ok (Some t) => gt_status t = PublishingEntitlement
  | _ => False
  end.
Proof.
  pose proof (persist_claimed_graph_snapshot_spec fence_claimed sample_task_id "worker-a" 77 0
    (gs_with_root graph_seen GraphSatisfied) (seconds 3) 99 _ _ fence_claimed_ok
    (surjective_pairing _)) as Hspec.
  remember (persist_claimed_graph_snapshot fence_claimed sample_task_id "worker-a" 77 0
    (gs_with_root graph_seen GraphSatisfied) (seconds 3) 99).1 as res eqn:Hres.
  vm_compute in Hres. subst res. destruct Hspec as (_ & _ & _ & _ & _ & Hst & _). exact Hst.
Defined.

Lemma worker_plan_is_stored_witness :
  ∃ plan, evaluate_claimed_task id graph_start (seconds 1) sample_answers (seconds 4) = Ok plan
          ∧ plan_stored fence_claimed sample_task_id "worker-a" 77 0 plan (seconds 5) 99.
Proof.
  destruct (worker_plan_is_stored (S := Fence) id fence_claimed sample_task_id "worker-a" 77 0
    (seconds 5) 99 graph_start (seconds 1) sample_answers (seconds 4)) as (plan & Hplan & Hst);
    [|vm_compute; reflexivity|vm_compute; reflexivity|reflexivity|exact graph_start_tracked
     |vm_compute; reflexivity|vm_compute; discriminate|vm_compute; discriminate
     |exact sample_answers_ok|].
  - split; [exact fence_claimed_ok|]. exists claimed_record. split; [exact claimed_record_stored|].
    split; [|reflexivity]. apply claimed_record_live. vm_compute. reflexivity.
  - exists plan. split; [exact Hplan|]. apply Hst.
    vm_compute in Hplan. injection Hplan as <-. vm_compute. done.
Defined.

(** * The task lifecycle *)

Definition sample_verified : VerifiedProofBundle :=
  MkVerifiedProofBundle 1 sample_bundle sample_resource (MkVerificationResult []) Unbounded.

Definition task_pending : VerificationTaskRecord :=
  MkTaskRecord sample_task_id alice
    (MkSubmittedProofBundle 1 sample_bundle sample_resource (Some bob) None [])
    Pending 0 None None None None None.
Definition task_started : VerificationTaskRecord :=
  default task_pending (ok (transition_to task_pending InProgress (seconds 1) None)).
Definition task_publishing : VerificationTaskRecord :=
  default task_pending (ok (begin_entitlement_publication task_started sample_verified)).
Definition task_completed : VerificationTaskRecord :=
  default task_pending (ok (complete_entitlement_publication task_publishing (seconds 2))).

Lemma lifecycle_history_witness :
  fields_consistent task_completed = true
  ∧ tr_entitlement_to_publish task_completed = Some sample_verified.
Proof.
  assert (rtc lifecycle_step task_pending task_publishing) as Hpub.
  { apply rtc_l with task_started; [by apply (Lifecycle.step_transition _ _ InProgress (seconds 1) None)|].
    apply rtc_once. by apply (Lifecycle.step_begin _ _ sample_verified). }
  destruct (lifecycle_history _ _ Hpub eq_refl) as (Hc & _).
  destruct (lifecycle_history task_publishing task_completed) as (Hc' & _ & _ & Hpay);
    [apply rtc_once; by apply (Lifecycle.step_complete _ _ (seconds 2))|exact Hc|].
  split; [exact Hc'|]. destruct (Hpay eq_refl) as [Heq|(_ & _ & Hp)]; [|exact Hp].
  rewrite Heq. reflexivity.
Defined.

(** * Ownership of guarded paths *)

Definition owned_reserved : OwnershipRecords :=
  default ∅ (ok (reserve_paths ∅ alice ["/pub/a"; "/pub/b"] (LockId_from_hash sample_hash))).
Definition owned_published : OwnershipRecords :=
  default ∅ (ok (mark_paths_published owned_reserved alice ["/pub/a"]
                         (LockId_from_hash sample_hash))).

Lemma ownership_exclusive_witness :
  compensate_reserved_paths owned_published alice ["/pub/a"; "/pub/b"]
    (LockId_from_hash sample_hash) !! (alice, "/pub/a")
  = Some (MkOwnership alice "/pub/a" (LockId_from_hash sample_hash) OwnershipPublished).
Proof.
  destruct (ownership_exclusive owned_published
    (compensate_reserved_paths owned_published alice ["/pub/a"; "/pub/b"]
       (LockId_from_hash sample_hash)) (alice, "/pub/a")
    (MkOwnership alice "/pub/a" (LockId_from_hash sample_hash) OwnershipPublished))
    as (_ & Hkept & _).
  - apply rtc_l with owned_reserved.
    + by apply (step_reserve_paths ∅ alice ["/pub/a"; "/pub/b"] (LockId_from_hash sample_hash)).
    + apply rtc_once. by apply (step_mark_published _ alice ["/pub/a"] (LockId_from_hash sample_hash)).
  - apply rtc_once. apply step_compensate.
  - vm_compute. reflexivity.
  - apply Hkept. reflexivity.
Defined.

(** * Rate limits *)

Definition two_per_minute : SubmissionRateLimitConfig := MkSubmissionConfig true 2 60.
Definition busy : gmap string WindowCounter := {["10.0.0.1" := MkWindow 0 1]}.

Lemma submission_quota_exact_witness :
  allowed_for "10.0.0.1"
    [("10.0.0.1", seconds 1); ("10.0.0.2", seconds 2); ("10.0.0.1", seconds 59)]
    (submission_run two_per_minute busy
       [("10.0.0.1", seconds 1); ("10.0.0.2", seconds 2); ("10.0.0.1", seconds 59)]).1 = 1.
Proof.
  rewrite (submission_quota_exact two_per_minute busy "10.0.0.1" 0 1);
    [vm_compute; reflexivity|reflexivity|vm_compute; reflexivity|vm_compute; split; discriminate|].
  intros now Hin.
  assert (now = seconds 1 ∨ now = seconds 59) as [-> | ->] by set_solver; reflexivity.
Defined.

Definition exhausted : gmap string WindowCounter := {["10.0.0.1" := MkWindow 0 2]}.

Lemma submission_retry_after_sufficient_witness :
  0 < 50 ≤ 60
  ∧ allowed (submission_check two_per_minute
      (submission_check two_per_minute exhausted "10.0.0.1" (seconds 10)).2
      "10.0.0.1" (seconds 10 + seconds 50)).1 = true.
Proof.
  apply (submission_retry_after_sufficient two_per_minute exhausted "10.0.0.1" (seconds 10)
           (submission_check two_per_minute exhausted "10.0.0.1" (seconds 10)).1);
    [apply surjective_pairing|vm_compute; reflexivity|vm_compute; reflexivity| |reflexivity|reflexivity].
  intros w Hw. vm_compute in Hw. injection Hw as <-. vm_compute. discriminate.
Defined.

Definition small_lookup : LookupRateLimitConfig := MkLookupConfig 2 60 4 1 1 1.

Definition lookups : list (string * (OffsetDateTime * Z)) :=
  [("alice", (0, seconds 1)); ("alice", (0, seconds 1)); ("bob", (0, seconds 2));
   ("alice", (0, seconds 3))].

Lemma lookup_limiter_bounds_witness :
  Z.of_nat (size (look_windows (lookup_run small_lookup (lookup_new_at small_lookup 0) lookups).2)) ≤ 1
  ∧ (lookup_run small_lookup (lookup_new_at small_lookup 0) lookups).1 * 1000000000 ≤ 4000000000.
Proof.
  destruct (lookup_limiter_bounds (K := string) small_lookup) with (requests := lookups) (t0 := 0)
    (n := (lookup_run small_lookup (lookup_new_at small_lookup 0) lookups).1)
    (state := (lookup_run small_lookup (lookup_new_at small_lookup 0) lookups).2)
    as (Hsz & _ & Hn);
    [vm_compute; split; discriminate|vm_compute; discriminate|reflexivity|vm_compute; discriminate
    |repeat split; vm_compute; discriminate|apply surjective_pairing|].
  split; [exact Hsz|exact Hn].
Defined.

(** * Refused retries and failed tasks *)

Lemma retry_at_deadline_refused_witness :
  schedule_graph_task_retry fence_claimed sample_task_id "worker-a" 77 (seconds 4) 0 graph_start
    (gs_deadline_at graph_start) (seconds 5)
  = Err (InvalidVerificationTaskState "graph retry must be after now and no later than deadline").
Proof.
  apply (retry_at_deadline_refused fence_claimed sample_task_id "worker-a" 77 0 (seconds 5)
           (seconds 4) graph_start claimed_record);
    [exact fence_claimed_ok|exact claimed_record_stored| |vm_compute; reflexivity].
  apply claimed_record_live. vm_compute. reflexivity.
Defined.

Lemma equal_invoice_timestamps_fail_task_witness :
  handle_status (pt_with_invoice payment_start (InvoiceCreated (seconds 60) (seconds 60)))
    paid_status (seconds 61)
  = Ok (PaymentPersist
          (pt_with_root (pt_with_invoice payment_start (InvoiceCreated (seconds 60) (seconds 60)))
             (PaymentRootFailed InvalidVerifierResponse)) (seconds 61)).
Proof.
  apply (equal_invoice_timestamps_fail_task payment_start (seconds 60)).
  vm_compute. reflexivity.
Defined.

(** * The payment repository *)

Definition pay_request : AdmitPaymentTask :=
  MkAdmitPaymentTask sample_task_id sample_submission (key_bytes 7)
    (MkPaymentPolicyV2 alice "2500" "BTC" 1) 600.

Definition repo_admitted : PaymentRepo :=
  from_option snd PaymentRepo_new (ok (admit_payment_task PaymentRepo_new pay_request 0)).

Definition repo_claimed : PaymentRepo :=
  from_option snd PaymentRepo_new
    (ok (claim_next_payment_task repo_admitted "payer" 0 (seconds 30) (seconds 1) 77)).

Definition repo_publishing : PaymentRepo :=
  (persist_claimed_payment_snapshot repo_claimed sample_task_id "payer" 77 0
     (pt_with_root payment_paid PaymentRootSatisfied) (seconds 30) 99).2.

Definition repo_completed : PaymentRepo :=
  (complete_publication repo_publishing sample_task_id "payer" 77 1 99 (seconds 30)).2.

Definition payment_admitted : PaymentTaskRecord :=
  MkPaymentTaskRecord sample_task_id payment_start 0 Pending None None None.

Definition payment_claimed : StoredPaymentTask :=
  MkStoredPaymentTask (ptr_with_status payment_admitted InProgress) (Some "payer") (Some 77)
    (Some (seconds 31)) None.

Definition payment_publishing : StoredPaymentTask :=
  MkStoredPaymentTask
    (MkPaymentTaskRecord sample_task_id (pt_with_root payment_paid PaymentRootSatisfied) 1
       PublishingEntitlement
       (Some (payment_entitlement payment_paid (seconds 30))) (Some 99) None)
    (Some "payer") (Some 77) (Some (seconds 31)) None.

Lemma request_admitted : admit_payment_task PaymentRepo_new pay_request 0
                 = Ok (payment_admitted, repo_admitted).
Proof. vm_compute. reflexivity. Qed.

Lemma payment_claimed_stored : payment_claimed ∈ pr_records repo_claimed.
Proof. apply list_elem_of_lookup. exists 0%nat. vm_compute. reflexivity. Qed.

Lemma payment_publishing_stored : payment_publishing ∈ pr_records repo_publishing.
Proof. apply list_elem_of_lookup. exists 0%nat. vm_compute. reflexivity. Qed.

Lemma repo_claimed_reachable : rtc lane_step repo_admitted repo_claimed.
Proof.
  apply rtc_once.
  apply (lane_claim repo_admitted "payer" 0 (seconds 30) (seconds 1) 77
           (Some (MkClaimedPaymentTask (sp_task payment_claimed) 77))).
  vm_compute. reflexivity.
Qed.

Lemma repo_admitted_reachable : rtc lane_step PaymentRepo_new repo_admitted.
Proof. apply rtc_once. eapply lane_admit; [|exact request_admitted]. vm_compute. reflexivity. Qed.

Lemma repo_claimed_ok : lanes_ok repo_claimed.
Proof.
  eapply lane_steps_ok; [|exact lanes_ok_new].
  transitivity repo_admitted; [apply repo_admitted_reachable|apply repo_claimed_reachable].
Qed.

Lemma payment_claimed_live now :
  now < seconds 31 → payment_claim sample_task_id "payer" 77 0 now payment_claimed.
Proof. intros Hlt. split; [reflexivity..|]. by exists (seconds 31). Qed.

Lemma lanes_invariant_witness : lanes_ok repo_claimed.
Proof.
  apply lanes_invariant. transitivity repo_admitted.
  - exact repo_admitted_reachable.
  - exact repo_claimed_reachable.
Defined.

Lemma payment_task_history_witness :
  ∃ st', st' ∈ pr_records repo_completed ∧ sp_id st' = sample_task_id
  ∧ ∃ at_, ptr_entitlement_to_publish (sp_task st')
           = Some (payment_entitlement (sp_snapshot payment_publishing) at_).
Proof.
  destruct (payment_task_history repo_publishing repo_completed payment_publishing)
    as (st' & Hin & Hid & _ & _ & Hsat).
  - transitivity repo_admitted; [exact repo_admitted_reachable|].
    transitivity repo_claimed; [exact repo_claimed_reachable|].
    apply rtc_once. apply lane_persist. vm_compute. reflexivity.
  - apply rtc_once. apply lane_complete.
  - exact payment_publishing_stored.
  - exists st'. split; [exact Hin|]. split; [exact Hid|]. apply Hsat. reflexivity.
Defined.

Lemma admit_payment_task_idempotent_witness :
  ∃ t', admit_payment_task repo_claimed pay_request (seconds 9) = Ok (t', repo_claimed)
        ∧ ptr_task_id t' = sample_task_id.
Proof.
  destruct (admit_payment_task_idempotent PaymentRepo_new pay_request 0 payment_admitted repo_admitted
              repo_claimed (seconds 9)) as (t' & Ha & Hid & _).
  - apply rtc_refl.
  - vm_compute. reflexivity.
  - exact request_admitted.
  - exact repo_claimed_reachable.
  - exists t'. split; [exact Ha|exact Hid].
Defined.

Lemma payment_lease_exclusive_witness :
  release_claimed_payment_task repo_claimed sample_task_id "payer" 78 = (false, repo_claimed).
Proof.
  destruct (payment_lease_exclusive repo_claimed payment_claimed 77) as [Hstale _];
    [exact repo_claimed_ok|exact payment_claimed_stored|reflexivity|].
  apply (Hstale 78 "payer" 0 0 payment_start 1 99 0); [discriminate|reflexivity].
Defined.

Lemma payment_plan_is_stored_witness :
  ∃ plan t s',
    evaluate_claimed_payment payment_start (seconds 2)
      (Ok (MkCreateResponse (seconds 2) (seconds 60) (seconds 600)))
      (Err (MkProviderError ProviderRetryable None)) (seconds 3) = Ok plan
    ∧ carry_out repo_claimed sample_task_id "payer" 77 0 plan (seconds 4) 99 = (Ok (Some t), s')
    ∧ ptr_snapshot t = payment_plan_snapshot plan.
Proof.
  destruct (payment_plan_is_stored repo_claimed sample_task_id "payer" 77 0 (seconds 4) 99
              payment_claimed (seconds 2) (Ok (MkCreateResponse (seconds 2) (seconds 60) (seconds 600)))
              (Err (MkProviderError ProviderRetryable None)) (seconds 3))
    as (plan & t & s' & Hev & Hc & _ & _ & Hsn & _).
  - exact repo_claimed_ok.
  - split; [exact payment_claimed_stored| |reflexivity|vm_compute; reflexivity].
    apply payment_claimed_live. vm_compute. reflexivity.
  - vm_compute. reflexivity.
  - split; [vm_compute; discriminate|intros t [=]|vm_compute; discriminate|].
    split; vm_compute; discriminate.
  - exists plan, t, s'. split; [exact Hev|]. split; [exact Hc|exact Hsn].
Defined.

(** * Publication *)

Lemma repo_publishing_ok : lanes_ok repo_publishing.
Proof. apply payment_persist_preserves; [exact repo_claimed_ok|vm_compute; reflexivity]. Qed.

Definition paid_entitlement : VerifiedProofBundleV2 :=
  payment_entitlement payment_paid (seconds 30).

Lemma triple_eta {A B C} (p : A * B * C) (a : A) : p.1.1 = a → p = (a, p.1.2, p.2).
Proof. by destruct p as [[? ?] ?]; intros <-. Qed.

Definition publish_once :=
  publish repo_publishing (∅ : Entitlements) "payer" (sp_task payment_publishing) 77 1
    false (seconds 30) (seconds 30).

Lemma publish_once_terminal : publish_once.1.1 = Ok (PaymentTerminal sample_task_id).
Proof. vm_compute. reflexivity. Qed.

Lemma payment_publication_safe_witness :
  ∃ st', st' ∈ pr_records publish_once.1.2 ∧ ptr_status (sp_task st') = Completed.
Proof.
  destruct (payment_publication_safe repo_publishing (∅ : Entitlements) payment_publishing "payer" 77 1
              false (seconds 30) (seconds 30) _ _ _ repo_publishing_ok payment_publishing_stored
              (triple_eta publish_once _ publish_once_terminal)) as [_ (st' & Hin & _ & Hst & _)].
  exists st'. split; [exact Hin|exact Hst].
Defined.

(** The write takes effect and its answer is lost. *)
Definition lost_write : FlakyStore := MkFlaky ∅ [false; true].

Lemma lost_write_publishable : publishable (ent_contents lost_write) paid_entitlement.
Proof. left. apply lookup_empty. Qed.

Definition publish_lost :=
  publish repo_publishing lost_write "payer" (sp_task payment_publishing) 77 1
    false (seconds 30) (seconds 30).

Lemma publish_lost_deferred : publish_lost.1.1 = Ok (PaymentPublicationDeferred (sp_id payment_publishing)).
Proof. vm_compute. reflexivity. Qed.

Lemma publishing_live :
  live_payment_publication (sp_id payment_publishing) "payer" 77 1 99 (seconds 30) payment_publishing
  = true.
Proof. vm_compute. reflexivity. Qed.

Lemma payment_publication_resumes_witness :
  ∃ s'', publish repo_publishing (ent_contents publish_lost.2) "payer"
           (sp_task payment_publishing) 77 1 false (seconds 30) (seconds 30)
         = (Ok (PaymentTerminal (sp_id payment_publishing)), s'',
            <[v2_key paid_entitlement := EntitlementV2 paid_entitlement]>
              (ent_contents publish_lost.2)).
Proof.
  destruct (payment_publication_resumes repo_publishing lost_write payment_publishing paid_entitlement
              "payer" 77 1 99 (seconds 30) (seconds 30) _ _ "payer" 77 1 (seconds 30) (seconds 30)
              repo_publishing_ok payment_publishing_stored eq_refl lost_write_publishable
              (triple_eta publish_lost _ publish_lost_deferred) eq_refl publishing_live publishing_live)
    as [_ (s'' & Hp & _)].
  exists s''. exact Hp.
Defined.

Definition fence_publishing : Fence :=
  (persist_claimed_graph_snapshot fence_claimed sample_task_id "worker-a" 77 0
     (gs_with_root graph_seen GraphSatisfied) (seconds 3) 99).2.

Definition graph_publishing : StoredGraphTask :=
  MkStoredGraphTask
    (MkGraphTaskRecord sample_task_id (gs_with_root graph_seen GraphSatisfied) 1
       PublishingEntitlement
       (Some (graph_publication (gs_with_root graph_seen GraphSatisfied) (seconds 3))) (Some 99) None)
    (Some "worker-a") (Some 77) (Some (seconds 31)) None.

Lemma fence_publishing_ok : graph_store_ok fence_publishing.
Proof. apply persist_preserves. exact fence_claimed_ok. Qed.

Lemma graph_publishing_stored : graph_publishing ∈ graph_records fence_publishing.
Proof. apply list_elem_of_lookup. exists 0%nat. vm_compute. reflexivity. Qed.

Definition publish_graph_once :=
  publish_claimed_entitlement fence_publishing (∅ : Entitlements) "worker-a"
    (sg_task graph_publishing) 77 1 false (seconds 4) (seconds 5).

Lemma publish_graph_terminal : publish_graph_once.1.1 = Ok (GraphTerminal sample_task_id).
Proof. vm_compute. reflexivity. Qed.

Lemma graph_publication_safe_witness :
  ∃ st', st' ∈ graph_records publish_graph_once.1.2 ∧ gt_status (sg_task st') = Completed.
Proof.
  destruct (graph_publication_safe fence_publishing (∅ : Entitlements) graph_publishing "worker-a" 77 1
              false (seconds 4) (seconds 5) _ _ _ fence_publishing_ok graph_publishing_stored
              (triple_eta publish_graph_once _ publish_graph_terminal))
    as [_ (st' & Hin & _ & Hst & _)].
  exists st'. split; [exact Hin|exact Hst].
Defined.
