(* ===== verification/DeletionWitnesses.v ===== *)
(** Concrete instances of the theorems about deletions.

    One deletion is followed from its request to the deletion of the content: a
    lock with one paid bundle, whose reader gets a final credential and reads both
    resources with it.  Each state of the run is computed; each lemma applies one
    theorem to a state of the run. *)

From S2P Require Import Prelude HashMaps RustStr Externals Ids Json LockPolicy Wire Errors.
From S2P Require Import Secrets Lifecycle Ownership DeletionJob GraphTask Fence TaskStore.
From S2P Require Import AccessStore DeletionStore DeletionHistory AccessReads Instances Witnesses.

(** * The run *)

Definition get_ok {E A} (d : A) (r : result E A) : A :=
  match r with Ok a => a | Err _ => d end.

Lemma get_ok_spec {E A} (d : A) (r : result E A) : is_ok r = true → r = Ok (get_ok d r).
Proof. by destruct r. Qed.

Definition lock_key : CreatorPubky * LockId :=
  (alice, default (LockId_from_hash sample_hash) (lock_id sample_lock)).

Definition job_id : Uuid := 77.
Definition worker : string := "worker-1".

Definition paid_task : TaskFenceRecord :=
  MkTaskFenceRecord alice lock_key.2 sample_bundle true true Completed None None.

(** The fence with the paid task of the lock. *)
Definition fenced_tasks : TaskRepo :=
  MkTaskRepo (MkFence {[ sample_task_id := paid_task ]} [] ∅ ∅ ∅) ∅ ∅ [].

Definition with_task : DeletionRepo :=
  MkDeletionRepo ∅ ∅ ∅ ∅ fenced_tasks AccessState_new.

Definition new_job : ContentLockDeletionJob :=
  get_ok (MkDeletionJob 0 alice lock_key.2 sample_lock 0 DelQueued Withdraw 0 None None None)
    (ContentLockDeletionJob_new job_id sample_lock 10).

Definition requested : DeletionRepo := get_ok with_task (insert_job with_task new_job 10).

Definition claim_at (r : DeletionRepo) (now : OffsetDateTime) : DeletionRepo :=
  (claim_next r [lock_key] worker 1000 now now).2.

Definition advance_at (r : DeletionRepo) (now : OffsetDateTime) (next : ContentLockDeletionPhase) :
    DeletionRepo :=
  (get_ok (AdvanceClaimLost, r)
     (advance_phase (claim_at r now) job_id worker now next (now + 1))).2.

Definition aggregate_at (r : DeletionRepo) (now : OffsetDateTime) : DeletionRepo :=
  del_with_access r
    (complete_deletion_payment_aggregate (del_access r) job_id worker now (now + 1)).2.

Definition draining : DeletionRepo :=
  advance_at (advance_at requested 20 StartPaymentDrain) 30 DrainPayments.
Definition settled : DeletionRepo := aggregate_at (claim_at draining 40) 40.
Definition drained_payments : DeletionRepo :=
  (get_ok (AdvanceClaimLost, settled)
     (advance_phase settled job_id worker 40 DrainExistingCredentials 42)).2.
Definition issuing : DeletionRepo := advance_at drained_payments 50 IssueFinalCredentials.
Definition windows : DeletionRepo :=
  del_with_access (claim_at issuing 60)
    (get_ok (WindowsClaimLost, del_access (claim_at issuing 60))
       (initialize_final_access_windows (del_access (claim_at issuing 60)) job_id worker 60
          1000 1000 61)).2.

Definition cipher : bytes := key_bytes 3.
Definition nonce : bytes := replicate 24 (Ascii.ascii_of_N 4).
Definition bearer : AccessCredential := MkCredential "final-bearer".

Definition issue_once :=
  issue_or_replay_final_credential_for_worker cipher nonce (del_access windows) job_id worker 60
    alice sample_bundle bearer 62.
Definition issued_access : AccessState := (get_ok (None, del_access windows) issue_once).2.
Definition issued : DeletionRepo := del_with_access windows issued_access.
Definition reading : DeletionRepo :=
  (get_ok (AdvanceClaimLost, issued)
     (advance_phase issued job_id worker 60 DrainFinalReads 63)).2.

Definition prepare_at (r : DeletionRepo) (path : string) (now : OffsetDateTime) (token : Uuid) :
    DeletionRepo :=
  del_with_access r
    (get_ok (None, del_access r)
       (prepare_deletion_read (del_access r) (derive_lookup_key bearer) path (seconds 30) now
          token)).2.
Definition consume_at (r : DeletionRepo) (path : string) (now : OffsetDateTime) (token : Uuid) :
    DeletionRepo :=
  del_with_access r (consume_deletion_read (del_access r) (derive_lookup_key bearer) path token now).2.

Definition prepared : DeletionRepo := prepare_at reading (gr_path primary) 70 701.
Definition read_song : DeletionRepo := consume_at prepared (gr_path primary) 71 701.
Definition read_both : DeletionRepo :=
  consume_at (prepare_at read_song cover_path 72 702) cover_path 73 702.
Definition deleting : DeletionRepo := advance_at read_both 80 DeleteContent.

(** * The run is a history *)

#[local] Opaque advance_phase claim_next complete_deletion_payment_aggregate
  initialize_final_access_windows prepare_deletion_read consume_deletion_read insert_job
  issue_or_replay_final_credential_for_worker.

Lemma pair_snd {A B} (p : A * B) : p = (p.1, p.2).
Proof. by destruct p. Qed.

Lemma claim_reaches clock r now : clock ≤ now → rtc timed_step (clock, r) (now, claim_at r now).
Proof. intros Hle. apply rtc_once, step_at; [done|]. apply ds_claim. Qed.

Lemma advance_reaches clock r token next now d :
  clock ≤ now → is_ok (advance_phase r job_id worker token next now) = true →
  rtc timed_step (clock, r)
    (now, (get_ok (AdvanceClaimLost, d) (advance_phase r job_id worker token next now)).2).
Proof.
  intros Hle Hok. apply rtc_once, step_at; [done|].
  eapply ds_advance. rewrite <- pair_snd. by apply get_ok_spec.
Qed.

Lemma advance_at_reaches clock r now next :
  clock ≤ now → is_ok (advance_phase (claim_at r now) job_id worker now next (now + 1)) = true →
  rtc timed_step (clock, r) (now + 1, advance_at r now next).
Proof.
  intros Hle Hok. etrans; [by apply claim_reaches|]. by apply advance_reaches; [lia|].
Qed.

Lemma access_reaches clock r now a' :
  clock ≤ now → access_op now (del_access r) a' →
  rtc timed_step (clock, r) (now, del_with_access r a').
Proof. intros Hle Hop. by apply rtc_once, step_at, ds_access. Qed.

Lemma requested_reached : rtc timed_step (0, DeletionRepo_new) (10, requested).
Proof.
  eapply rtc_l; [apply (step_at 0 0); [done|];
                 apply (ds_environment 0 DeletionRepo_new ∅ fenced_tasks)|].
  apply rtc_once, (step_at 0 10); [done|]. eapply (ds_insert _ _ job_id sample_lock 10 new_job).
  - apply get_ok_spec. vm_compute. reflexivity.
  - apply get_ok_spec. vm_compute. reflexivity.
Qed.

Lemma claimed_reached : rtc timed_step (0, DeletionRepo_new) (20, claim_at requested 20).
Proof. etrans; [apply requested_reached|]. by apply claim_reaches. Qed.

Lemma to_draining : rtc timed_step (10, requested) (31, draining).
Proof.
  etrans; [apply (advance_at_reaches 10 requested 20 StartPaymentDrain); [done|vm_compute; reflexivity]|].
  apply (advance_at_reaches 21 _ 30 DrainPayments); [done|vm_compute; reflexivity].
Qed.

Lemma to_issuing : rtc timed_step (31, draining) (51, issuing).
Proof.
  etrans; [apply (claim_reaches 31 draining 40); done|].
  etrans; [apply (access_reaches 40 (claim_at draining 40) 41); [done|apply ao_aggregate]|].
  etrans; [apply (advance_reaches 41 settled 40 DrainExistingCredentials 42 settled);
           [done|vm_compute; reflexivity]|].
  apply (advance_at_reaches 42 drained_payments 50); [done|vm_compute; reflexivity].
Qed.

Lemma to_windows : rtc timed_step (51, issuing) (61, windows).
Proof.
  etrans; [apply (claim_reaches 51 issuing 60); done|].
  apply access_reaches; [done|]. eapply ao_windows. rewrite <- pair_snd. apply get_ok_spec.
  vm_compute. reflexivity.
Qed.

Lemma issue_once_Ok : issue_once = Ok (Some (MkIssued bearer (61 + 1000 + 1000)), issued_access).
Proof.
  rewrite (get_ok_spec (None, del_access windows) issue_once) by (vm_compute; reflexivity).
  rewrite (pair_snd (get_ok _ _)). by do 2 f_equal.
Qed.

Lemma to_reading : rtc timed_step (61, windows) (63, reading).
Proof.
  etrans; [apply (access_reaches 61 windows 62); [done|]; eapply ao_issue_worker, issue_once_Ok|].
  apply (advance_reaches 62 issued 60 DrainFinalReads 63 issued); [done|vm_compute; reflexivity].
Qed.

Lemma prepare_reaches clock r path now token :
  clock ≤ now →
  is_ok (prepare_deletion_read (del_access r) (derive_lookup_key bearer) path (seconds 30) now
           token) = true →
  rtc timed_step (clock, r) (now, prepare_at r path now token).
Proof.
  intros Hle Hok. apply access_reaches; [done|]. eapply ao_prepare. rewrite <- pair_snd.
  by apply get_ok_spec.
Qed.

Lemma consume_reaches clock r path now token :
  clock ≤ now → rtc timed_step (clock, r) (now, consume_at r path now token).
Proof. intros Hle. apply access_reaches; [done|apply ao_consume]. Qed.

Lemma to_prepared : rtc timed_step (63, reading) (70, prepared).
Proof. apply (prepare_reaches 63); [done|vm_compute; reflexivity]. Qed.

Lemma to_deleting : rtc timed_step (70, prepared) (81, deleting).
Proof.
  etrans; [apply (consume_reaches 70 prepared (gr_path primary) 71 701); done|].
  etrans; [apply (prepare_reaches 71 read_song cover_path 72 702); [done|vm_compute; reflexivity]|].
  etrans; [apply (consume_reaches 72 (prepare_at read_song cover_path 72 702) cover_path 73 702); done|].
  apply (advance_at_reaches 73 read_both 80 DeleteContent); [done|vm_compute; reflexivity].
Qed.

Lemma windows_reached : rtc timed_step (0, DeletionRepo_new) (61, windows).
Proof.
  etrans; [apply requested_reached|]. etrans; [apply to_draining|].
  etrans; [apply to_issuing|apply to_windows].
Qed.

Lemma prepared_reached : rtc timed_step (0, DeletionRepo_new) (70, prepared).
Proof. etrans; [apply windows_reached|]. etrans; [apply to_reading|apply to_prepared]. Qed.

Lemma deleting_reached : rtc timed_step (0, DeletionRepo_new) (81, deleting).
Proof. etrans; [apply prepared_reached|apply to_deleting]. Qed.

Lemma requested_to_deleting : rtc timed_step (10, requested) (81, deleting).
Proof.
  etrans; [apply to_draining|]. etrans; [apply to_issuing|]. etrans; [apply to_windows|].
  etrans; [apply to_reading|]. etrans; [apply to_prepared|apply to_deleting].
Qed.

(** * Witnesses *)

(** The job of the lock in a state of the run. *)
Definition job_in (r : DeletionRepo) : StoredJob :=
  default (unclaimed_job new_job) (del_jobs r !! lock_key).

Lemma job_in_spec r : is_some (del_jobs r !! lock_key) = true → del_jobs r !! lock_key = Some (job_in r).
Proof. unfold job_in. by destruct (del_jobs r !! lock_key). Qed.

Lemma deletion_honours_obligations_witness :
  ∃ d, acc_deletions (del_access deleting) !! job_id = Some d
       ∧ payment_aggregate_completed d = true
       ∧ has_live_access_obligation (del_access deleting) job_id 81 = false.
Proof.
  destruct (deletion_honours_obligations 0 81 deleting lock_key (job_in deleting) deleting_reached)
    as (d & Hd & _ & _ & Hp & Ho).
  - apply job_in_spec. vm_compute. reflexivity.
  - left. vm_compute. intros Hx. discriminate Hx.
  - assert (dj_job_id (sj_job (job_in deleting)) = job_id) as E by (vm_compute; reflexivity).
    rewrite E in Hd, Ho. exists d. split; [exact Hd|split; [exact Hp|exact Ho]].
Defined.

Lemma publication_excludes_deletion_witness :
  del_intents requested !! lock_key = None
  ∧ ∀ token original r', begin_publication requested alice lock_key.2 token original ≠ Ok r'.
Proof.
  destruct (publication_excludes_deletion 0 10 requested alice lock_key.2 requested_reached) as [_ Hb].
  destruct Hb as (Hi & Hn & _); [left; apply is_some_true; vm_compute; reflexivity|].
  split; [exact Hi|exact Hn].
Defined.

Lemma deletion_history_witness :
  ∃ sj', del_jobs deleting !! lock_key = Some sj' ∧ job_evolves (sj_job (job_in requested)) (sj_job sj').
Proof.
  destruct (deletion_history 0 10 requested 81 deleting lock_key requested_reached
              requested_to_deleting) as [Hj _].
  destruct (Hj (job_in requested)) as [Hev|[Hnone _]].
  - apply job_in_spec. vm_compute. reflexivity.
  - exact Hev.
  - exfalso. rewrite (job_in_spec deleting) in Hnone by (vm_compute; reflexivity). discriminate Hnone.
Defined.

(** The job under its first lease. *)
Definition leased : DeletionRepo := claim_at requested 20.

Lemma leased_job : del_jobs leased !! lock_key = Some (job_in leased).
Proof. apply job_in_spec. vm_compute. reflexivity. Qed.

Lemma leased_fields :
  dj_job_id (sj_job (job_in leased)) = job_id ∧ sj_claimed_by (job_in leased) = Some worker
  ∧ sj_claim_token (job_in leased) = Some 20 ∧ sj_claim_expires_at (job_in leased) = Some 1020.
Proof. vm_compute. auto. Qed.

Lemma deletion_lease_exclusive_witness :
  finish leased job_id "other" 20 None 30 = Ok (None, leased)
  ∧ ∀ c, (claim_next leased [lock_key] "other" 10 30 5).1 = Some c → dj_job_id (cdj_job c) ≠ job_id.
Proof.
  destruct leased_fields as (Hid & Hw & Ht & He).
  destruct (deletion_lease_exclusive 0 20 leased lock_key (job_in leased) worker 20 1020
              claimed_reached leased_job Hw Ht He) as [Hops Hclaim].
  rewrite Hid in Hops, Hclaim. split.
  - assert (("other", 20) ≠ (worker, 20)) as Hne by (intros Hx; discriminate Hx).
    destruct (Hops "other" 20 30 Hne) as (_ & _ & _ & Hf & _). exact (Hf None).
  - apply Hclaim. lia.
Defined.

Lemma active_job_claimable_witness :
  ∃ due, ∀ now, due ≤ now →
    ∃ c r', claim_next leased [lock_key] worker 1000 now now = (Some c, r') ∧ cdj_claim_token c = now.
Proof.
  destruct (active_job_claimable 0 20 leased lock_key (job_in leased) claimed_reached leased_job)
    as [due Hdue]; [right; vm_compute; reflexivity|].
  exists due. intros now Hle.
  destruct (Hdue now [lock_key] worker 1000 now Hle (list_elem_of_here _ _)) as (c & r' & Hc & _ & _ & _ & Ht & _).
  exists c, r'. split; [exact Hc|exact Ht].
Defined.

(** The access store's view of the deletion. *)
Definition access_in (r : DeletionRepo) : DeletionAccessState :=
  default (MkDeletionAccess alice lock_key.2 sample_lock DelQueued Withdraw false None None None None
             None None None ∅) (acc_deletions (del_access r) !! job_id).

Lemma access_in_spec r :
  is_some (acc_deletions (del_access r) !! job_id) = true →
  acc_deletions (del_access r) !! job_id = Some (access_in r).
Proof. unfold access_in. by destruct (acc_deletions (del_access r) !! job_id). Qed.

Lemma access_claim_refines_witness :
  find_owned leased job_id worker 20 30 = Some (lock_key, job_in leased).
Proof.
  destruct leased_fields as (Hid & _).
  destruct (access_claim_refines 0 20 leased lock_key (job_in leased) (access_in leased)
              (λ p, p == Withdraw) worker 20 30 claimed_reached leased_job) as [Hf _].
  - rewrite Hid. apply access_in_spec. vm_compute. reflexivity.
  - vm_compute. reflexivity.
  - rewrite Hid in Hf. exact Hf.
Defined.

Lemma resume_detaches_running_claim_witness :
  ∃ d, acc_deletions (del_access (resume_failed_job leased alice lock_key.2).2) !! job_id = Some d
       ∧ live_claim d (λ _, true) worker 20 30 = false.
Proof.
  destruct leased_fields as (Hid & _).
  destruct (resume_detaches_running_claim 0 20 leased alice lock_key.2 (job_in leased) worker 20 30
              claimed_reached leased_job) as (_ & d & Hd & Hno).
  - vm_compute. reflexivity.
  - vm_compute. reflexivity.
  - rewrite Hid in Hd. exists d. split; [exact Hd|apply Hno].
Defined.

(** The final credential's lookup key. *)
Definition bearer_key : AccessCredentialLookupKey := derive_lookup_key bearer.

Lemma final_read_at_most_once_witness :
  consume_deletion_read (del_access prepared) bearer_key (gr_path primary) 701 71
  = (true, del_access read_song)
  ∧ ∀ token' now', consume_deletion_read (del_access read_song) bearer_key (gr_path primary) token' now'
                   = (false, del_access read_song).
Proof.
  destruct (final_read_at_most_once 0 70 prepared bearer_key (gr_path primary) 701 71
              (del_access read_song) 71 read_song prepared_reached) as [Hno _].
  - rewrite (pair_snd (consume_deletion_read _ _ _ _ _)). by f_equal.
  - apply rtc_refl.
  - split; [|exact Hno]. rewrite (pair_snd (consume_deletion_read _ _ _ _ _)). by f_equal.
Defined.

Lemma final_credential_replayed_witness :
  issue_or_replay_final_credential_for_worker cipher nonce (del_access windows) job_id worker 60
    alice sample_bundle bearer 62 = Ok (Some (MkIssued bearer (61 + 1000 + 1000)), issued_access)
  ∧ ∀ o a2, issue_or_replay_final_credential_for_worker cipher nonce (del_access issued) job_id worker
              60 alice sample_bundle (MkCredential "another") 62 = Ok (o, a2) →
            a2 = del_access issued.
Proof.
  destruct (final_credential_replayed 0 61 windows cipher nonce job_id worker 60 alice sample_bundle
              bearer 62 (MkIssued bearer (61 + 1000 + 1000)) issued_access 62 issued windows_reached)
    as [_ Hagain].
  - vm_compute. reflexivity.
  - exact issue_once_Ok.
  - vm_compute. reflexivity.
  - vm_compute. reflexivity.
  - apply rtc_refl.
  - split; [exact issue_once_Ok|]. intros o a2 Hi. exact (proj2 (Hagain _ _ _ _ _ _ _ Hi)).
Defined.

Definition sample_context : FinalCredentialContext := MkContext job_id alice sample_bundle.
Definition sealed : EncryptedFinalCredential :=
  get_ok (MkEncrypted "") (encrypt cipher nonce sample_context bearer).

Lemma final_credential_envelope_witness : decrypt cipher sample_context sealed = Ok bearer.
Proof.
  destruct (final_credential_envelope cipher nonce sample_context bearer sealed) as [Hd _].
  - apply get_ok_spec. vm_compute. reflexivity.
  - vm_compute. reflexivity.
  - vm_compute. reflexivity.
  - exact Hd.
Defined.
