(* ===== verification/TaskWitnesses.v ===== *)
(** Concrete instances of the theorems about v1 tasks, their workers and access.

    A submission with a development proof is inserted, claimed, verified and
    published; a paid submission waits for its invoice; the entitled reader gets a
    credential and reads a resource through the proxy. *)

From S2P Require Import Prelude HashMaps RustStr Externals Ids Json LockPolicy Wire Errors.
From S2P Require Import Run Verifiers Secrets Entitlements Lifecycle DeletionJob GraphTask Fence.
From S2P Require Import TaskStore TaskInv AccessStore DeletionStore TaskWorker InvoiceWorker.
From S2P Require Import PaymentStore AccessUse.
From S2P Require Import Instances Witnesses DeletionWitnesses.

(** * A verified task *)

Definition dev_criterion : Criterion :=
  MkCriterion "criterion-1" DevStatic (JObject [("satisfied", JBool true)]).

Definition dev_lock : ContentLock :=
  MkContentLock 1 alice (Some primary) secondary [dev_criterion] (LogicAll ["criterion-1"])
    (MkAccessPolicy 60) (MkLockServerConfig None) 0.

Definition dev_resource : PubkyLockResource :=
  MkPubkyLockResource alice
    (MkContentLockPath (default (LockId_from_hash sample_hash) (lock_id dev_lock))).

Definition dev_submission : SubmittedProofBundle :=
  MkSubmittedProofBundle 1 sample_bundle dev_resource None None
    [MkProof "criterion-1" DevStatic JNull].

Definition dev_task : VerificationTaskRecord :=
  MkTaskRecord sample_task_id alice dev_submission Pending 0 None None None None None.

Definition tasks_inserted : TaskRepo :=
  get_ok TaskRepo_new (insert_verification_task TaskRepo_new dev_task).

Lemma tasks_inserted_reached : rtc task_step TaskRepo_new tasks_inserted.
Proof.
  apply rtc_once. apply (ts_insert _ dev_task); [done|vm_compute; reflexivity|].
  apply get_ok_spec. vm_compute. reflexivity.
Qed.

Definition claim_tasks (s : TaskRepo) (now : OffsetDateTime) (token : Uuid) :
    option ClaimedVerificationTask * TaskRepo :=
  get_ok (None, s) (claim_next_verification_task s "v1" now (now + 100) token).

Definition tasks_claimed : TaskRepo := (claim_tasks tasks_inserted 10 5).2.
Definition dev_claim : ClaimedVerificationTask :=
  default (MkClaimedTask dev_task 0) (claim_tasks tasks_inserted 10 5).1.

Lemma claim_tasks_step s now token :
  is_ok (claim_next_verification_task s "v1" now (now + 100) token) = true →
  task_step s (claim_tasks s now token).2.
Proof. intros Hok. eapply ts_claim. rewrite <- pair_snd. by apply get_ok_spec. Qed.

Lemma tasks_claimed_reached : rtc task_step TaskRepo_new tasks_claimed.
Proof.
  eapply rtc_r; [apply tasks_inserted_reached|]. apply claim_tasks_step. vm_compute. reflexivity.
Qed.

Lemma task_store_invariant_witness : tasks_ok tasks_claimed.
Proof. exact (proj1 (task_store_invariant tasks_claimed tasks_claimed_reached)). Defined.

(** * One tick of the worker *)

Definition ticking (n : nat) : OffsetDateTime := 10 + Z.of_nat n.
Definition dev_content_locks (_ : nat) (_ : CreatorPubky) (_ : ContentLockPath) :
    result ApplicationError (option ContentLock) := Ok (Some dev_lock).
Definition undisturbed (_ : OffsetDateTime) (s : TaskRepo) : TaskRepo := s.

Definition dev_worker : VerificationWorker :=
  MkVerificationWorker true DevStaticVerifier_verify (λ _, None)
    (MkLockServerPubky "server") "v1" 30 100.

Definition before_tick : World TaskRepo Entitlements := MkWorld tasks_inserted ∅ 0.
Definition tick_result :=
  run_once ticking dev_content_locks undisturbed dev_worker 5 before_tick.
Definition tasks_completed : TaskRepo := w_store tick_result.2.

Lemma tick_completes : tick_result.1 = Ok (TickCompleted sample_task_id).
Proof. vm_compute. reflexivity. Qed.

Lemma undisturbed_rely token : ∀ at_ s, rely token s (undisturbed at_ s).
Proof. intros at_ s. split; [apply rtc_refl|]. by intros r Hr _. Qed.

Lemma inserted_tokens : ∀ r, r ∈ claimer_records tasks_inserted → ct_claim_token r ≠ Some 5.
Proof.
  assert (forallb (λ r, is_none (ct_claim_token r)) (claimer_records tasks_inserted) = true) as Hall
    by (vm_compute; reflexivity).
  intros r Hr%list_elem_of_In. rewrite forallb_forall in Hall. specialize (Hall r Hr).
  apply is_none_true in Hall. congruence.
Qed.

#[local] Opaque claim_next_verification_task run_once.

(** No task of the store before the tick is being published. *)
Lemma inserted_backed : backed dev_content_locks tasks_inserted.
Proof.
  intros id t b Ht Hp. exfalso.
  assert (map_Forall (λ _ t, tr_status t ≠ PublishingEntitlement) (task_records tasks_inserted)) as Hall
    by (apply (proj1 (bool_decide_eq_true _)); vm_compute; reflexivity).
  exact (Hall id t Ht Hp).
Qed.

Lemma verification_tick_safe_witness :
  rtc task_step TaskRepo_new tasks_completed
  ∧ ∃ t', task_records tasks_completed !! sample_task_id = Some t'
      ∧ (tr_status t' = Expired
         ∨ tr_status t' = Completed
           ∧ ∃ b, tr_entitlement_to_publish t' = Some b
               ∧ published_by ∅ (w_entitlements tick_result.2) b (Ok (Some b))).
Proof.
  pose proof (verification_tick_safe ticking dev_content_locks undisturbed dev_worker 5 before_tick
                tick_result.2 tick_result.1 tasks_inserted_reached inserted_backed inserted_tokens
                (undisturbed_rely 5) (λ _ _ Hb, Hb) (pair_snd _)) as Hsafe.
  destruct (claim_next_verification_task (w_store before_tick) _ _ _ _) as [[[claim|] s1]|e] eqn:Hc.
  - destruct Hsafe as (Hr & _ & Hid & Hend & _). split; [exact Hr|].
    pose proof (Hid sample_task_id (or_introl tick_completes)) as Hsame.
    rewrite tick_completes, <- Hsame in Hend.
    destruct Hend as [[_ Hd]|(b & read & Hpub & _ & Hd)].
    + destruct (Hd eq_refl) as (t' & Ht' & Hst). exists t'. split; [exact Ht'|by left].
    + destruct (Hd eq_refl) as (-> & t' & Ht' & Hst & Hb). exists t'. split; [exact Ht'|]. right. eauto.
  - exfalso. destruct Hsafe as [Hidle _]. rewrite tick_completes in Hidle. discriminate Hidle.
  - destruct Hsafe.
Defined.

(** * To completion by hand *)

Definition queued (s : TaskRepo) : ClaimableVerificationTask :=
  default (MkClaimable dev_task PhaseReady None None None None) (claimer_records s !! 0%nat).

Lemma queued_in s : is_some (claimer_records s !! 0%nat) = true → queued s ∈ claimer_records s.
Proof.
  intros Hs. apply (list_elem_of_lookup_2 _ 0%nat). unfold queued.
  by destruct (claimer_records s !! 0%nat).
Qed.

Definition persist_at (s : TaskRepo) (t : VerificationTaskRecord) (now : OffsetDateTime) : TaskRepo :=
  (get_ok (None, s) (persist_claimed_verification_task_transition s t "v1" 5 now)).2.

Lemma persist_step s t now :
  is_some (claimer_records s !! 0%nat) = true → ct_claim_token (queued s) = Some 5 →
  lifecycle_step (ct_task (queued s)) t →
  is_ok (persist_claimed_verification_task_transition s t "v1" 5 now) = true →
  task_step s (persist_at s t now).
Proof.
  intros Hs Ht Hl Hok. eapply (ts_persist s (queued s)); [by apply queued_in|done|done|].
  unfold persist_at. rewrite <- pair_snd. by apply get_ok_spec.
Qed.

Definition dev_entitlement : VerifiedProofBundle :=
  MkVerifiedProofBundle 1 sample_bundle dev_resource (MkVerificationResult []) Unbounded.
Definition dev_publishing : VerificationTaskRecord :=
  get_ok dev_task (begin_entitlement_publication (ct_task (queued tasks_claimed)) dev_entitlement).
Definition publishing_store : TaskRepo := persist_at tasks_claimed dev_publishing 20.
Definition dev_completed : VerificationTaskRecord :=
  get_ok dev_task (complete_entitlement_publication (ct_task (queued publishing_store)) 30).
Definition completed_store : TaskRepo := persist_at publishing_store dev_completed 30.

Lemma to_publishing : task_step tasks_claimed publishing_store.
Proof.
  apply persist_step; try (vm_compute; reflexivity).
  apply (Lifecycle.step_begin _ _ dev_entitlement). apply get_ok_spec. vm_compute. reflexivity.
Qed.

Lemma to_completed : task_step publishing_store completed_store.
Proof.
  apply persist_step; try (vm_compute; reflexivity).
  apply (Lifecycle.step_complete _ _ 30). apply get_ok_spec. vm_compute. reflexivity.
Qed.

Lemma publishing_reached : rtc task_step TaskRepo_new publishing_store.
Proof. eapply rtc_r; [apply tasks_claimed_reached|apply to_publishing]. Qed.

Lemma completed_reached : rtc task_step TaskRepo_new completed_store.
Proof. eapply rtc_r; [apply publishing_reached|apply to_completed]. Qed.

(** The record of the task in a store. *)
Definition stored_task (s : TaskRepo) : VerificationTaskRecord :=
  default dev_task (task_records s !! sample_task_id).

Lemma stored_task_spec s :
  is_some (task_records s !! sample_task_id) = true →
  task_records s !! sample_task_id = Some (stored_task s).
Proof. unfold stored_task. by destruct (task_records s !! sample_task_id). Qed.

Lemma task_history_witness :
  ∃ t', task_records completed_store !! sample_task_id = Some t' ∧ tr_status t' = Completed.
Proof.
  destruct (task_history sample_task_id publishing_store completed_store (stored_task publishing_store)
              publishing_reached) as (t' & Ht' & _ & _ & _ & Hpub).
  - apply rtc_once. split; [exact to_completed|]. apply is_some_true. vm_compute. reflexivity.
  - apply stored_task_spec. vm_compute. reflexivity.
  - exists t'. split; [exact Ht'|].
    assert (tr_status (stored_task publishing_store) = PublishingEntitlement) as Hp
      by (vm_compute; reflexivity).
    destruct (Hpub Hp) as [Hsame|[Hc _]]; [|exact Hc]. exfalso.
    assert (task_records completed_store !! sample_task_id = Some (stored_task completed_store)) as Hst
      by (apply stored_task_spec; vm_compute; reflexivity).
    assert (tr_status (stored_task completed_store) = Completed) as Hc by (vm_compute; reflexivity).
    assert (stored_task completed_store = t') as Heq
      by (apply (inj Some); rewrite <- Hst; exact Ht').
    rewrite Heq, Hsame, Hp in Hc. discriminate Hc.
Defined.

Lemma task_claimable_witness :
  ∃ due, ∀ now worker expires token, due ≤ now →
    ∃ claim s', claim_next_verification_task tasks_claimed worker now expires token
                = Ok (Some claim, s').
Proof.
  destruct (task_claimable tasks_claimed sample_task_id (stored_task tasks_claimed)
              tasks_claimed_reached) as [_ Hopen].
  - apply stored_task_spec. vm_compute. reflexivity.
  - apply Hopen.
    + vm_compute. reflexivity.
    + assert (is_none (invoice_admissions tasks_claimed !! sample_task_id) = true) as Hn
        by (vm_compute; reflexivity).
      intros a Ha. rewrite Ha in Hn. discriminate Hn.
    + assert (is_none_or (λ fr, is_none (fr_deletion_job_id fr))
                (fence_records (task_fence tasks_claimed) !! sample_task_id) = true) as Hn
        by (vm_compute; reflexivity).
      intros fr Hfr. rewrite Hfr in Hn. apply is_none_true. exact Hn.
Defined.

Definition fenced_status (s : TaskRepo) : TaskFenceRecord :=
  default paid_task (fence_records (task_fence s) !! sample_task_id).

Lemma completed_task_pending_in_fence_witness : fr_status (fenced_status completed_store) = Pending.
Proof.
  apply (completed_task_pending_in_fence completed_store sample_task_id (stored_task completed_store)
           (fenced_status completed_store) completed_reached).
  - apply stored_task_spec. vm_compute. reflexivity.
  - vm_compute. reflexivity.
  - assert (is_some (fence_records (task_fence completed_store) !! sample_task_id) = true) as Hs
      by (vm_compute; reflexivity).
    unfold fenced_status. destruct (fence_records _ !! _); [reflexivity|discriminate Hs].
Defined.

(** * Invoices *)

Definition paid_submission : SubmittedProofBundle :=
  MkSubmittedProofBundle 1 sample_bundle dev_resource (Some bob) None
    [MkProof "criterion-1" PaykitPayment JNull].
Definition paid_task_record : VerificationTaskRecord :=
  MkTaskRecord sample_task_id alice paid_submission Pending 0 None None None None None.
Definition paid_intent : InvoiceAdmissionIntentV1 :=
  MkIntent 1 alice sample_bundle dev_resource bob 2500.

Definition invoice_store : TaskRepo :=
  (get_ok (new_admission paid_task_record paid_intent, TaskRepo_new)
     (insert_invoice_pending_task TaskRepo_new paid_task_record paid_intent)).2.

Lemma invoice_store_reached : rtc task_step TaskRepo_new invoice_store.
Proof.
  apply rtc_once. eapply (ts_insert_invoice _ paid_task_record paid_intent).
  - vm_compute. reflexivity.
  - unfold invoice_store. rewrite <- pair_snd. apply get_ok_spec. vm_compute. reflexivity.
Qed.

Definition paykit_down (_ : nat) (_ : Uuid) (_ : PaykitInvoiceRequest) :
    sum PaykitClientError PaykitInvoiceWindow := inl (InvoiceTransport true false).

Definition invoice_tick :=
  invoice_run_once ticking paykit_down (OsFullJitter_delay 12345) undisturbed "v1-invoice"
    (seconds 30) 9 (MkWorld invoice_store () 0).

Lemma invoice_tick_retries : invoice_tick.1 = Ok (InvoiceRetryScheduled sample_task_id).
Proof. vm_compute. reflexivity. Qed.

#[local] Opaque invoice_run_once.

Lemma invoice_tick_safe_witness :
  ∃ a due, invoice_admissions (w_store invoice_tick.2) !! sample_task_id = Some a
    ∧ ia_next_attempt_at (ma_record a) = Some due.
Proof.
  destruct (invoice_tick_safe ticking paykit_down (OsFullJitter_delay 12345) undisturbed "v1-invoice"
              (seconds 30) (λ at_ s, rtc_refl _ _) 9 (MkWorld invoice_store () 0) invoice_tick.2
              invoice_tick.1 invoice_store_reached (pair_snd _)) as [[_ Hrep] _].
  destruct (Hrep _ invoice_tick_retries) as (a & due & Ha & _ & Hdue & _).
  exists a, due. split; [exact Ha|exact Hdue].
Defined.

Lemma invoice_retry_delay_bounded_witness : OsFullJitter_delay (2 ^ 63) 3 ≤ seconds 60.
Proof.
  destruct (invoice_retry_delay_bounded (2 ^ 63) 3 InvoiceBodyTooLarge 0) as [[[_ Hle] _] _];
    [lia|lia|exact Hle].
Defined.

(** The admission of the invoice is claimed and marked ready in the window. *)
Definition window_written : InvoiceAdmissionRecord * bool * TaskRepo :=
  get_ok (new_admission paid_task_record paid_intent, false, TaskRepo_new)
    (insert_invoice_pending_task_writes TaskRepo_new paid_task_record paid_intent).
Definition window_claimed : option ClaimedInvoiceAdmission * TaskRepo :=
  claim_next_invoice_admission window_written.2 "v1-invoice" 5 (seconds 30) 9.
Definition window_ready : option InvoiceAdmissionRecord * TaskRepo :=
  get_ok (None, window_claimed.2)
    (mark_invoice_admission_ready window_claimed.2 sample_task_id "v1-invoice" 9 6 7 (seconds 60)).
Definition window_registered : TaskRepo :=
  tell_claimer window_ready.2 paid_task_record PhaseInvoicePending.

Lemma ready_before_registered_lost_witness :
  ia_phase ∘ ma_record <$> invoice_admissions window_registered !! sample_task_id = Some PhaseReady
  ∧ ∀ worker now expires token c s,
      claim_next_verification_task window_registered worker now expires token = Ok (Some c, s) →
      tr_task_id (cvt_task c) ≠ sample_task_id.
Proof.
  split; [vm_compute; reflexivity|].
  assert (∃ r, window_ready = (Some r, window_ready.2)) as [r Hr]
    by (eexists; vm_compute; reflexivity).
  refine (proj1 (proj2 (ready_before_registered_lost TaskRepo_new paid_task_record paid_intent
    window_written.1.1 window_written.2 "v1-invoice" 5 (seconds 30) 9 window_claimed.1 window_claimed.2
    6 7 (seconds 60) r window_ready.2 window_registered (rtc_refl _ _) _ _ _ (rtc_refl _ _)))).
  - vm_compute. reflexivity.
  - vm_compute. reflexivity.
  - rewrite <- Hr. unfold window_ready. apply get_ok_spec. vm_compute. reflexivity.
Defined.

(** * Access *)

Definition dev_verified : VerifiedProofBundle :=
  MkVerifiedProofBundle 1 sample_bundle dev_resource
    (MkVerificationResult
       [MkCriterionVerificationResult "criterion-1" true 5 (MkLockServerPubky "server") DevStatic])
    Unbounded.

Definition dev_get_entitlement (_ : CreatorPubky) (_ : BundleId) :
    result ApplicationError (option VerifiedProofBundlePayload) := Ok (Some (VerifiedV1 dev_verified)).
Definition dev_get_lock (_ : CreatorPubky) (_ : ContentLockPath) :
    result ApplicationError (option ContentLock) := Ok (Some dev_lock).
Definition dev_get_payload (_ : CreatorPubky) (_ : ContentLockPath) :
    result ApplicationError (option ContentLockPayload) := Ok (Some (LockV1 dev_lock)).
Definition quiet (_ : nat) (a : AccessState) : AccessState := a.

Definition song : GuardedResourceRecord :=
  MkGuardedRecord alice (gr_path primary) (gr_hash primary) (gr_content_type primary)
    (gr_size primary) (key_bytes 9).
Definition song_repository (_ : CreatorPubky) (path : string) :
    result ApplicationError (option GuardedResourceRecord) :=
  Ok (if path == gr_path primary then Some song else None).

Definition policy : AccessCredentialPolicy := AccessCredentialPolicy_new 3600.
Definition dev_bearer : AccessCredential := MkCredential "bearer-1".

Definition issue_run :=
  issue_access_credential dev_get_entitlement dev_get_lock dev_get_payload ticking quiet policy
    cipher nonce [] (Ok dev_bearer) (Ok dev_bearer) alice sample_bundle (MkWorld AccessState_new () 0).
Definition issued_dev : IssuedAccessCredential :=
  MkIssuedAccess dev_bearer (10 + seconds 60).

Lemma issue_run_Ok : issue_run.1 = Ok issued_dev.
Proof. vm_compute. reflexivity. Qed.

Lemma dev_ttl v :
  load_valid_entitlement dev_get_entitlement dev_get_lock dev_get_payload alice sample_bundle = Ok v →
  0 ≤ ve_requested_credential_ttl_seconds v.
Proof.
  assert (load_valid_entitlement dev_get_entitlement dev_get_lock dev_get_payload alice sample_bundle
          = Ok (MkValidEntitlement (LockV1 dev_lock) (resource_lock_id dev_resource))) as ->
    by (vm_compute; reflexivity).
  intros [= <-]. cbn. lia.
Qed.

Definition read_run (bearer : AccessCredential) (path : string) (w : World AccessState ()) :=
  proxy_read_guarded_resource dev_get_entitlement dev_get_lock dev_get_payload ticking quiet
    song_repository bearer path ticking (λ n, Z.of_nat n) w.

Definition song_read := read_run dev_bearer (gr_path primary) issue_run.2.
Definition song_response : ProxiedGuardedResource :=
  MkProxied (gr_path primary) (gr_content_type primary) (gr_hash primary) (key_bytes 9) None.

Lemma song_read_Ok : song_read.1 = Ok song_response.
Proof. vm_compute. reflexivity. Qed.

(** A final read of a resource whose bytes are gone. *)
Definition final_world : World AccessState () := MkWorld (del_access reading) () 60.
Definition lost_read :=
  proxy_read_guarded_resource dev_get_entitlement dev_get_lock dev_get_payload ticking quiet
    song_repository bearer cover_path (λ _, 70) (λ n, Z.of_nat n) final_world.

Lemma lost_read_Err : lost_read.1 = Err GuardedResourceUnavailable.
Proof. vm_compute. reflexivity. Qed.

Definition final_record : FinalCredentialRecord :=
  default (MkFinalCredential bearer_key (MkEncrypted "") 0 ∅)
    (acc_final_credentials (del_access reading) !! (job_id, sample_bundle)).

Lemma final_record_stored :
  acc_final_credentials (del_access reading) !! (job_id, sample_bundle) = Some final_record.
Proof.
  assert (is_some (acc_final_credentials (del_access reading) !! (job_id, sample_bundle)) = true) as Hs
    by (vm_compute; reflexivity).
  unfold final_record. by destruct (acc_final_credentials (del_access reading) !! _).
Qed.

#[local] Opaque issue_access_credential proxy_read_guarded_resource.

Lemma eq_pair {A B} (p : A * B) (a : A) : p.1 = a → p = (a, p.2).
Proof. intros <-. apply pair_snd. Qed.


Lemma proxy_read_authorized_witness :
  ∃ creator r, serves song_repository creator r song_response ∧ gr_path r = gr_path primary.
Proof.
  destruct (proxy_read_authorized dev_get_entitlement dev_get_lock dev_get_payload ticking quiet
              song_repository dev_bearer (gr_path primary) ticking (λ n, Z.of_nat n) issue_run.2
              song_response song_read.2) as (creator & r & Hs & Hp & _).
  - exact (eq_pair song_read _ song_read_Ok).
  - exists creator, r. split; [exact Hs|exact Hp].
Defined.

Lemma failed_read_returns_claim_witness :
  ∃ c' read', acc_final_credentials (w_store lost_read.2) !! (job_id, sample_bundle) = Some c'
    ∧ fcr_reads c' !! cover_path = Some read' ∧ read_taken read' 100 = false.
Proof.
  apply (failed_read_returns_claim dev_get_entitlement dev_get_lock dev_get_payload ticking quiet
           song_repository bearer cover_path (λ _, 70) (λ n, Z.of_nat n) final_world
           GuardedResourceUnavailable lost_read.2 job_id sample_bundle final_record
           FinalReadState_default 100).
  - intros n a. reflexivity.
  - vm_compute. reflexivity.
  - exact final_record_stored.
  - vm_compute. reflexivity.
  - vm_compute. reflexivity.
  - exact (eq_pair lost_read _ lost_read_Err).
Defined.

(** The repository of entitlements out of order. *)
Definition broken_get_entitlement (_ : CreatorPubky) (_ : BundleId) :
    result ApplicationError (option VerifiedProofBundlePayload) := Err (Storage "timeout").
Definition fixed_clock (_ : nat) : OffsetDateTime := 20.
Definition revoking_run :=
  validate_access_credential broken_get_entitlement dev_get_lock dev_get_payload fixed_clock quiet
    dev_bearer issue_run.2.

Lemma repository_failure_revokes_credential_witness :
  get_access_credential (w_store revoking_run.2) (derive_lookup_key dev_bearer) = None.
Proof.
  destruct (repository_failure_revokes_credential broken_get_entitlement dev_get_lock dev_get_payload
              fixed_clock quiet dev_bearer issue_run.2
              (MkCredentialRecord alice sample_bundle (10 + seconds 60)) (Storage "timeout")
              revoking_run.1 revoking_run.2) as (_ & Hgone & _).
  - intros n a. reflexivity.
  - vm_compute. reflexivity.
  - intros n. vm_compute. reflexivity.
  - reflexivity.
  - exact (pair_snd revoking_run).
  - exact Hgone.
Defined.

Lemma payment_entitlement_refused_witness :
  load_valid_entitlement (λ _ _, Ok (Some (VerifiedV2 (payment_entitlement payment_paid 5)))) dev_get_lock
    dev_get_payload alice sample_bundle = Err EntitlementNotSatisfied.
Proof. apply (payment_entitlement_refused _ _ _ alice sample_bundle payment_paid 5). reflexivity. Defined.
