(* ===== verification/SubmissionWitnesses.v ===== *)
(** Concrete instances of the theorems about the creation of content locks and about
    submissions.

    Alice locks a song and its cover.  The public store is a map that takes every
    write, or one that refuses them all; the guarded resources are the ones the
    request describes.  In one run the answer to the first recording of the write is
    lost.  Then the development proof of her lock is submitted while another server takes
    the same submission, and again when the task is completed; a payment submission is
    admitted, also under a handle a folded attempt has reserved. *)

From S2P Require Import Prelude HashMaps RustStr Externals Ids Json LockPolicy Wire Errors Run.
From S2P Require Import ApiErrors Verifiers Secrets Entitlements Lifecycle Ownership DeletionJob.
From S2P Require Import GraphTask Fence TaskStore TaskInv AccessStore DeletionStore TaskWorker.
From S2P Require Import Submission AccessUse CreateLock Instances Witnesses DeletionWitnesses.
From S2P Require Import TaskWitnesses.

(** * Public stores *)

Abbreviation Locks := (gmap (CreatorPubky * ContentLockPath) ContentLock).

#[local] Instance map_store : ContentLockStore Locks := {|
  cls_locks := id;
  cls_get _ l creator path := Ok (l !! (creator, path));
  cls_upsert _ l creator path lock := (Ok (), <[(creator, path) := lock]> l);
|}.

#[local] Instance map_store_laws : ContentLockStoreLaws Locks.
Proof. split; cbn; congruence. Qed.

Record ReadOnly := MkReadOnly { ro_locks : Locks }.

Definition maintenance : ApplicationError := Storage "maintenance".

#[local] Instance read_only_store : ContentLockStore ReadOnly := {|
  cls_locks := ro_locks;
  cls_get _ l creator path := Ok (ro_locks l !! (creator, path));
  cls_upsert _ l creator path lock := (Err (WriteNotStarted maintenance), l);
|}.

#[local] Instance read_only_store_laws : ContentLockStoreLaws ReadOnly.
Proof. split; cbn; congruence. Qed.

(** * The request *)

Definition create_request : CreateContentLockRequest :=
  MkCreateRequest alice (Some primary) secondary [dev_criterion] (LogicAll ["criterion-1"])
    (MkAccessPolicy 60) (MkLockServerConfig None).

Definition stored_resources (_ : nat) (creator : CreatorPubky) (path : string) :
    result ApplicationError (option GuardedResourceRecord) :=
  Ok ((λ d, MkGuardedRecord creator path (gr_hash d) (gr_content_type d) (gr_size d) [])
      <$> List.find (λ d, String.eqb (gr_path d) path)
            (resource_descriptors (requested_lock create_request 0))).

Lemma create_request_acceptable : acceptable stored_resources create_request.
Proof.
  split; [vm_compute; reflexivity..|]. intros n d Hd.
  assert (Forall (λ d', List.find (λ x, String.eqb (gr_path x) (gr_path d'))
                         (resource_descriptors (requested_lock create_request 0)) = Some d')
            (resource_descriptors (requested_lock create_request 0))) as Hfind.
  { vm_compute. repeat constructor. }
  rewrite Forall_forall in Hfind. unfold stored_resources. cbn [fmap].
  rewrite (Hfind d Hd). eexists. split; [reflexivity|done].
Qed.

Definition created_id : LockId :=
  default (LockId_from_hash sample_hash) (lock_id (requested_lock create_request (ticking 0))).

Lemma created_id_is : lock_id (requested_lock create_request (ticking 0)) = Some created_id.
Proof. vm_compute. reflexivity. Qed.

Definition nothing_yet {L} (locks : L) : World (PublishingState L) () :=
  MkWorld (MkPublishing DeletionRepo_new locks) () 0.

Definition alone {L} (_ : nat) (s : PublishingState L) : PublishingState L := s.

Lemma alone_same {L} : ∀ n (s : PublishingState L), s = alone n s.
Proof. done. Qed.

Definition all_delivered (_ : nat) : Fate := Delivered.

(** * Runs *)

(** The answer to the first recording of the write is lost. *)
Definition one_unanswered (n : nat) : Fate :=
  if (n =? 6)%nat then Unanswered (Storage "connection reset") else Delivered.

Definition bumpy_run :=
  create_content_lock ticking one_unanswered alone stored_resources create_request 5
    (nothing_yet (∅ : Locks)).

Lemma bumpy_run_succeeds :
  bumpy_run.1
  = Ok (MkCreated created_id (ContentLockPath_from_lock_id created_id)
          (requested_lock create_request (ticking 0))).
Proof. vm_compute. reflexivity. Qed.

Lemma nothing_undeleted {L} (locks : L) key : undeleted_key (w_store (nothing_yet locks)) key.
Proof. split; apply lookup_empty. Qed.

Lemma nothing_reserved {L} (locks : L) :
  ∀ p, p ∈ request_paths create_request →
    del_ownership (pub_repo (w_store (nothing_yet locks))) !! (ccl_creator create_request, p) = None.
Proof. intros p _. apply lookup_empty. Qed.

Lemma nothing_intended {L} (locks : L) key :
  del_intents (pub_repo (w_store (nothing_yet locks))) !! key = None.
Proof. apply lookup_empty. Qed.

#[local] Opaque create_content_lock.

Lemma create_lock_outcome_witness :
  published (w_store bumpy_run.2) alice (request_paths create_request)
    (requested_lock create_request 0) created_id (requested_lock create_request (ticking 0)).
Proof.
  pose proof (create_lock_outcome ticking one_unanswered alone stored_resources alone_same
                create_request 5 (nothing_yet (∅ : Locks)) bumpy_run.1 bumpy_run.2 (pair_snd _))
    as [_ Hout].
  rewrite bumpy_run_succeeds in Hout. exact (proj2 (proj2 (proj2 Hout))).
Defined.

Lemma create_lock_completes_witness :
  ∃ w', create_content_lock ticking all_delivered alone stored_resources create_request 5
          (nothing_yet (∅ : Locks))
        = (Ok (MkCreated created_id (ContentLockPath_from_lock_id created_id)
                 (requested_lock create_request (ticking 0))), w')
        ∧ published (w_store w') alice (request_paths create_request)
            (requested_lock create_request 0) created_id
            (requested_lock create_request (ticking 0)).
Proof.
  refine (create_lock_completes ticking all_delivered alone stored_resources alone_same
            create_request 5 (nothing_yet (∅ : Locks)) created_id _ _ _ _
            create_request_acceptable (or_introl _)); [done..|].
  split; [reflexivity|]. split; [exact created_id_is|].
  auto using nothing_reserved, nothing_undeleted, nothing_intended.
Defined.

Lemma refused_write_undone_witness :
  ∃ w', create_content_lock ticking all_delivered alone stored_resources create_request 5
          (nothing_yet (MkReadOnly ∅))
        = (Err maintenance, w')
        ∧ pub_repo (w_store w') = DeletionRepo_new.
Proof.
  exact (refused_write_undone ticking all_delivered alone stored_resources alone_same
           create_request 5 (nothing_yet (MkReadOnly ∅)) created_id maintenance
           (λ _, eq_refl) (λ _ _ _ _, eq_refl) (λ _ _ _ _ _, eq_refl)
           create_request_acceptable created_id_is (nothing_reserved _) (nothing_undeleted _ _)
           (nothing_intended _ _)).
Defined.

Definition sample_ids (_ : nat) : result ApplicationError TaskId := Ok sample_task_id.
Definition left_alone (_ : nat) (s : TaskRepo) : TaskRepo := s.

(** * The same submission at the same time *)

(** Another server inserts the task just before this one does. *)
Definition racing (n : nat) (s : TaskRepo) : TaskRepo :=
  if (n =? 2)%nat then get_ok s (insert_verification_task s dev_task) else s.

Lemma racing_history : ∀ n s, rtc task_step s (racing n s).
Proof.
  intros n s. unfold racing. destruct (n =? 2)%nat; [|done].
  destruct (insert_verification_task s dev_task) as [s'|e] eqn:Hi; [|done].
  by apply rtc_once, (ts_insert _ dev_task).
Qed.

Definition no_tasks : World TaskRepo () := MkWorld TaskRepo_new () 0.
Definition race :=
  submit_v1 ticking all_delivered racing sample_ids dev_content_locks true dev_submission no_tasks.

Lemma race_won_by_other : race.1 = Ok (VerificationTaskLifecycleView_from dev_task).
Proof. vm_compute. reflexivity. Qed.

#[local] Opaque submit_v1.

Lemma submission_outcome_witness :
  answers_for dev_submission (w_store race.2) (VerificationTaskLifecycleView_from dev_task).
Proof.
  destruct (submission_outcome ticking all_delivered racing sample_ids dev_content_locks true
              racing_history dev_submission no_tasks race.1 race.2 (rtc_refl _ _) (pair_snd _))
    as [_ Hout].
  rewrite race_won_by_other in Hout. exact Hout.
Defined.

(** * The same submission again *)

Lemma left_alone_keeps id :
  ∀ n s, is_Some (task_records s !! id) → rtc (kept_step id) s (left_alone n s).
Proof. done. Qed.

Definition completed_world : World TaskRepo () := MkWorld completed_store () 0.
Definition resubmission :=
  submit_v1 ticking all_delivered left_alone sample_ids dev_content_locks true dev_submission
    completed_world.

Lemma resubmission_finds_task_witness :
  ∃ res', resubmission.1 = map_err ApiError_from res'
    ∧ finds all_delivered sample_task_id (stored_task completed_store) dev_submission
        (w_store resubmission.2) res'.
Proof.
  refine (proj2 (resubmission_finds_task ticking all_delivered left_alone sample_ids
    dev_content_locks true sample_task_id (stored_task completed_store) (left_alone_keeps _)
    dev_submission completed_world resubmission.1 resubmission.2 completed_reached _ _ (pair_snd _))).
  - apply stored_task_spec. vm_compute. reflexivity.
  - vm_compute. reflexivity.
Defined.

(** * A payment *)

Definition pay_members : list (string * Json) :=
  [("recipient_pubky", JString (CreatorPubky_display alice)); ("amount", JString "2500");
   ("asset", JString "BTC"); ("payment_in", JNumber (PosInt 600))].
Definition pay_criterion : Criterion := MkCriterion "pay" PaykitPayment (JObject pay_members).
Definition pay_lock : ContentLock :=
  MkContentLock 1 alice (Some primary) secondary [pay_criterion] (LogicAll ["pay"])
    (MkAccessPolicy 60) (MkLockServerConfig None) 0.
Definition pay_resource : PubkyLockResource :=
  MkPubkyLockResource alice
    (MkContentLockPath (default (LockId_from_hash sample_hash) (lock_id pay_lock))).
Definition pay_submission : SubmittedProofBundle :=
  MkSubmittedProofBundle 1 sample_bundle pay_resource (Some bob) None
    [MkProof "pay" PaykitPayment (JObject [])].
Definition pay_content_locks (_ : nat) (_ : CreatorPubky) (_ : ContentLockPath) :
    result ApplicationError (option ContentLock) := Ok (Some pay_lock).

Lemma pay_submission_pays : pays_for pay_submission pay_lock 600.
Proof. apply check_paykit_submission_Ok. vm_compute. reflexivity. Qed.

Lemma pay_submission_payable s :
  fence_records (task_fence s) = ∅ → deletion_cutoffs (task_fence s) = ∅ →
  payable sample_ids pay_content_locks true s pay_submission pay_lock 600 bob sample_task_id.
Proof.
  intros Hf Hc. split; try done.
  - apply pay_submission_pays.
  - intros p ->%list_elem_of_singleton. done.
  - split; rewrite Hf; [apply lookup_empty|]. intros id' fr Hfr. by rewrite lookup_empty in Hfr.
  - rewrite Hc. set_solver.
Qed.

Lemma paykit_submission_admitted_witness :
  ∃ w' at_, submit_v1 ticking all_delivered left_alone sample_ids pay_content_locks true
              pay_submission no_tasks
            = (Ok (VerificationTaskLifecycleView_from (pending_task sample_task_id pay_submission at_)),
               w')
    ∧ rtc task_step (w_store no_tasks) (w_store w')
    ∧ task_records (w_store w') !! sample_task_id = Some (pending_task sample_task_id pay_submission at_)
    ∧ get_invoice_admission (w_store w') sample_task_id
      = Some (new_admission (pending_task sample_task_id pay_submission at_)
                (invoice_intent pay_submission bob 600)).
Proof.
  exact (paykit_submission_admitted ticking all_delivered left_alone sample_ids pay_content_locks true
           (λ _, eq_refl) (λ _ _, eq_refl) pay_submission pay_lock 600 bob sample_task_id no_tasks
           (rtc_refl _ _) (pay_submission_payable TaskRepo_new eq_refl eq_refl)).
Defined.

(** A folded attempt holds the handle. *)
Definition reserved_store : TaskRepo :=
  repo_with_fence TaskRepo_new (MkFence ∅ [] ∅ ∅ {[ (alice, sample_bundle) ]}).

Lemma reserved_store_reached : rtc task_step TaskRepo_new reserved_store.
Proof.
  apply rtc_once, ts_environment. intros id fr [t Ht]. cbn in Ht.
  by rewrite lookup_empty in Ht.
Qed.

Lemma reserved_handle_taken_by_payment_witness :
  (∃ w', submit_v1 ticking all_delivered left_alone sample_ids pay_content_locks true dev_submission
           (MkWorld reserved_store () 0)
         = (Err (ApiError_from VerificationTaskConflict), w')
         ∧ w_store w' = reserved_store)
  ∧ ∃ w' t, (submit_v1 ticking all_delivered left_alone sample_ids pay_content_locks true
               pay_submission (MkWorld reserved_store () 0)).2 = w'
      ∧ task_records (w_store w') !! sample_task_id = Some t
      ∧ tr_handle t = (alice, sample_bundle)
      ∧ (alice, sample_bundle) ∈ folded_auth_reservations (task_fence (w_store w')).
Proof.
  refine (reserved_handle_taken_by_payment ticking all_delivered left_alone sample_ids
            pay_content_locks true (λ _, eq_refl) (λ _ _, eq_refl) pay_submission dev_submission
            pay_lock 600 bob sample_task_id (MkWorld reserved_store () 0) reserved_store_reached
            (pay_submission_payable reserved_store eq_refl eq_refl) _ eq_refl _).
  - vm_compute. reflexivity.
  - vm_compute. reflexivity.
Defined.
