(* ===== verification/ExecWitnesses.v ===== *)
(** Concrete instances of the theorems about the execution of deletions, the worker that
    runs them and the payments they settle. *)

From stdpp Require Import pretty.
From S2P Require Import Prelude HashMaps RustStr Externals Ids Json LockPolicy Wire Errors Run.
From S2P Require Import Run Verifiers Secrets Entitlements Lifecycle DeletionJob AccessStore.
From S2P Require Import DeletionStore DeletionInv DeletionHistory DeletionEvidence AccessUse.
From S2P Require Import CreateLock Resources DeletionExec DeletionTrace DeletionEffects.
From S2P Require Import DeletionWorker DeletionProgress PaymentDrains PaymentSafe.
From S2P Require Import PaymentDrainDb PaymentDrainHistory DeletionServer Instances Witnesses.
From S2P Require Import DeletionWitnesses.

(** Nanoseconds since the epoch, in decimal. *)
#[global] Instance decimal_rfc3339 : Rfc3339 := {| rfc3339_format t := Ok (pretty t) |}.

(** * The world *)

Definition delivered (n : nat) : Fate := Delivered.
Definition alone (n : nat) (s : ExecState) : ExecState := s.

Definition idle_job : ContentLockDeletionJob := sj_job (job_in requested).
Definition withdraw_claim : ClaimedContentLockDeletionJob :=
  default (MkClaimedDeletionJob idle_job 0) (claim_next requested [lock_key] worker 1000 20 20).1.

Definition published : PublicContentLocks :=
  {[ (alice, cj_path withdraw_claim) := get_ok [] (canonical_json_bytes sample_lock) ]}.
Definition tombstone_bytes : bytes := get_ok [] (canonical_tombstone_bytes (tombstone withdraw_claim)).

(** The job claimed at 20, and a clock of 21. *)
Definition withdrawing_world : World ExecState unit :=
  MkWorld (MkExecState 21 (claim_at requested 20) published ∅ ∅) tt 0.

Definition test_generator (n : nat) : result ApplicationError AccessCredential := Ok bearer.
Definition executor_config : ContentLockDeletionPhaseExecutorConfig := MkExecutorConfig 1000 1000 10.
Definition no_payments (claim : ClaimedContentLockDeletionJob) (worker : string) :
    Act ExecState unit DeletionPhaseExecution :=
  act_ret (repository_execution PhaseDeferred).

Definition withdrawal :=
  execute_with_evidence delivered alone 1 cipher (λ _, nonce) test_generator executor_config
    no_payments withdraw_claim worker withdrawing_world.

(** The job under its claim. *)
Definition withdrawing_entry : (CreatorPubky * LockId) * StoredJob :=
  default (lock_key, unclaimed_job idle_job)
    (find_owned (claim_at requested 20) (cj_id withdraw_claim) worker (cdj_claim_token withdraw_claim) 21).

Lemma withdrawing_claimed :
  claimed_job withdraw_claim worker (w_store withdrawing_world) withdrawing_entry.1 withdrawing_entry.2.
Proof. split_and!; vm_compute; reflexivity. Qed.

Definition withdrawn_store : ExecState :=
  ex_with_public (w_store withdrawing_world)
    (public_put published alice (cj_path withdraw_claim) tombstone_bytes).

Lemma withdrawing_phase : dj_phase (cdj_job withdraw_claim) = Withdraw.
Proof. vm_compute. reflexivity. Qed.

Lemma withdrawing_permits : permits (dj_phase (cdj_job withdraw_claim)) StartPaymentDrain = true.
Proof. by rewrite withdrawing_phase. Qed.

Lemma withdrawing_conditions :
  conditions_met executor_config withdraw_claim worker (w_store withdrawing_world) withdrawn_store.
Proof.
  pose proof withdrawing_phase as Hp.
  assert (dj_creator (cdj_job withdraw_claim) = alice) as Ha by (vm_compute; reflexivity).
  unfold conditions_met. rewrite Hp, Ha.
  exists tombstone_bytes, (get_ok [] (canonical_json_bytes sample_lock)).
  split; [apply get_ok_spec; vm_compute; reflexivity|].
  split; [vm_compute; reflexivity|]. right. split; [|reflexivity].
  unfold public_get. apply (lookup_singleton_eq (M := gmap (CreatorPubky * ContentLockPath))).
Qed.

Lemma withdrawing_obligations : obligations_met withdraw_claim withdrawn_store StartPaymentDrain.
Proof. split; [intros _|]; vm_compute; reflexivity. Qed.

Lemma phase_progresses_witness :
  let (x, w') := withdrawal in
  pe_outcome x = Progressed ∧ tombstoned withdraw_claim (w_store w').
Proof.
  pose proof (phase_progresses delivered alone (λ _, eq_refl) (λ _ _, eq_refl) executor_config 1
    withdraw_claim worker cipher (λ _, nonce) test_generator no_payments withdrawing_world
    withdrawn_store StartPaymentDrain withdrawing_entry.1 withdrawing_entry.2) as Hp.
  cbn zeta in Hp. unfold withdrawal.
  destruct (execute_with_evidence _ _ _ _ _ _ _ _ _ _ _) as [x w'].
  destruct Hp as ([Hx _] & _ & _ & _ & Ht).
  - reflexivity.
  - exact withdrawing_claimed.
  - exact withdrawing_permits.
  - exact withdrawing_conditions.
  - exact withdrawing_obligations.
  - split; [exact Hx|apply Ht; exact withdrawing_phase].
Defined.

(** * Graceful executions *)

Lemma no_payments_ok :
  dj_phase (cdj_job withdraw_claim) = StartPaymentDrain ∨ dj_phase (cdj_job withdraw_claim) = DrainPayments →
  inside alone (graceful_step 1 withdraw_claim worker) 1 (cj_id withdraw_claim)
    (no_payments withdraw_claim worker)
    (λ s x s', truthful alone 1 withdraw_claim worker (dj_phase (cdj_job withdraw_claim)) s (pe_outcome x) s').
Proof. intros [Hp|Hp]; vm_compute in Hp; discriminate Hp. Qed.

Lemma claimed_ok : exec_ok (w_store withdrawing_world).
Proof. apply (repo_ok_mono 20); [done|]. by eapply reachable_ok, claimed_reached. Qed.

Lemma graceful_execution_safe_witness :
  exec_ok (w_store withdrawal.2)
  ∧ truthful alone 1 withdraw_claim worker Withdraw (w_store withdrawing_world)
      (pe_outcome withdrawal.1) (w_store withdrawal.2).
Proof.
  pose proof (graceful_execution_safe delivered alone 1 withdraw_claim worker cipher (λ _, nonce)
    test_generator executor_config no_payments withdrawing_world (λ _ _ Ho, Ho) no_payments_ok) as Hs.
  unfold withdrawal. destruct (execute_with_evidence _ _ _ _ _ _ _ _ _ _ _) as [x w'].
  destruct Hs as (_ & _ & Ht & Hok). cbn [fst snd]. split.
  - apply Hok; [intros n s Hs; exact Hs|exact claimed_ok].
  - replace Withdraw with (dj_phase (cdj_job withdraw_claim)) by (vm_compute; reflexivity). exact Ht.
Defined.

Lemma graceful_execution_alone_witness :
  keeps (cj_id withdraw_claim) (w_store withdrawing_world) (w_store withdrawal.2)
  ∧ ex_owned (w_store withdrawal.2) = ∅.
Proof.
  pose proof (graceful_execution_alone delivered alone (λ _ _, eq_refl) 1 withdraw_claim worker cipher
    (λ _, nonce) test_generator executor_config no_payments no_payments_ok withdrawing_world) as Hs.
  unfold withdrawal. destruct (execute_with_evidence _ _ _ _ _ _ _ _ _ _ _) as [x w'].
  destruct Hs as (Hk & Ho & _). split; [exact Hk|exact Ho].
Defined.

(** * Forced executions *)

Definition forced_repo : DeletionRepo := (prepare_force_deletion requested alice lock_key.2 15).2.
Definition forced_claim : ClaimedContentLockDeletionJob :=
  default (MkClaimedDeletionJob idle_job 0) (claim_next forced_repo [lock_key] worker 1000 20 20).1.
Definition stored_song : GuardedResourceRecord :=
  MkGuardedRecord alice (gr_path primary) (gr_hash primary) "audio/ogg" 0 [].
Definition forced_world : World ExecState unit :=
  MkWorld (MkExecState 21 (claim_next forced_repo [lock_key] worker 1000 20 20).2 published
             {[ (alice, gr_path primary) := stored_song ]} ∅) tt 0.
Definition forced :=
  forced_execute_with_evidence delivered alone 1 forced_claim worker forced_world.

Lemma forced_execution_safe_witness :
  fe_outcome forced.1 = ForceCompleted
  ∧ completed_properly alone 1 forced_claim worker (w_store forced_world) (w_store forced.2).
Proof.
  assert (fe_outcome forced.1 = ForceCompleted) as Hc by (vm_compute; reflexivity).
  split; [exact Hc|].
  pose proof (forced_execution_safe delivered alone 1 forced_claim worker (λ _ _ Ho, Ho) forced_world)
    as Hs.
  unfold forced in *. destruct (forced_execute_with_evidence _ _ _ _ _ _) as [x w'].
  destruct Hs as (_ & _ & Hp). exact (proj2 (Hp Hc)).
Defined.

Lemma forced_execution_alone_witness :
  public_get (ex_public (w_store forced.2)) alice (cj_path forced_claim) = None
  ∧ get_current_guarded_resource (ex_resources (w_store forced.2)) alice (gr_path primary) = None.
Proof.
  assert (fe_outcome forced.1 = ForceCompleted) as Hc by (vm_compute; reflexivity).
  assert (dj_creator (cdj_job forced_claim) = alice) as Ha by (vm_compute; reflexivity).
  assert (gr_path primary ∈ frozen_resource_paths forced_claim) as Hin.
  { apply (bool_decide_unpack _). vm_compute. exact I. }
  pose proof (forced_execution_alone delivered alone (λ _ _, eq_refl) 1 forced_claim worker
    forced_world) as Hs.
  unfold forced in *. destruct (forced_execute_with_evidence _ _ _ _ _ _) as [x w'].
  destruct Hs as (_ & _ & _ & [[_ Hn]|(_ & Hp & Hr)]); [destruct (Hn Hc)|].
  specialize (Hr _ Hin). unfold public_absent, resource_absent in *. rewrite Ha in Hp, Hr.
  split; [exact Hp|exact Hr].
Defined.

(** * Iterations *)

Definition worker_config : DeletionWorkerConfig :=
  MkWorkerConfig worker 1000000 30000000000 5 1000000000 60000000000.
Definition midway_jitter (n : nat) (cap : Z) : Z := Z.max 0 (cap / 2).
Definition lock_order (n : nat) : list (CreatorPubky * LockId) := [lock_key].
Definition fresh_tokens (n : nat) : Z := 500 + Z.of_nat n.

Definition requested_world : World ExecState unit :=
  MkWorld (MkExecState 20 requested published ∅ ∅) tt 0.
Definition first_claim :=
  claim_next requested [lock_key] worker 30000000000 20 (fresh_tokens 1).
Definition first_claimed : ClaimedContentLockDeletionJob :=
  default (MkClaimedDeletionJob idle_job 0) first_claim.1.

Lemma requested_ok : exec_ok (w_store requested_world).
Proof. apply (repo_ok_mono 10); [done|]. by eapply reachable_ok, requested_reached. Qed.

Lemma first_claim_claims :
  claims lock_order fresh_tokens worker_config requested_world first_claimed first_claim.2.
Proof.
  unfold claims.
  replace (claim_next _ _ _ _ _ _) with first_claim by reflexivity.
  rewrite (pair_snd first_claim). f_equal.
Qed.

Lemma worker_config_ok :
  0 ≤ dw_retry_initial_backoff worker_config
  ∧ 0 ≤ dw_retry_max_backoff worker_config ≤ STD_DURATION_MAX
  ∧ 0 ≤ dw_retry_max_attempts worker_config
  ∧ 0 < to_time_duration (dw_claim_timeout worker_config).
Proof. vm_compute. repeat split; intros Hx; discriminate Hx. Qed.

Definition tick shutdown execute :=
  run_once_with_evidence delivered alone shutdown lock_order fresh_tokens midway_jitter worker_config
    execute requested_world.
Definition runtime_execute :=
  runtime_execute_claimed (E := unit) 1 delivered alone cipher (λ _, nonce) test_generator 1000 1000
    None.
Definition running (n : nat) : bool := false.

Definition unavailable_execute (claim : ClaimedContentLockDeletionJob) (worker_id : string) :
    Act ExecState unit DeletionPhaseExecution :=
  act_ret (repository_execution TransientDependencyFailure).

Lemma transient_failure_retried_witness :
  ∃ x, (tick running unavailable_execute).1 = Ok x ∧ dwe_outcome x = WorkerRetryScheduled.
Proof.
  pose proof (transient_failure_retried delivered alone (λ _, eq_refl) (λ _ _, eq_refl) running lock_order
    fresh_tokens midway_jitter worker_config (λ _ cap, Z.le_max_l 0 (cap / 2)) worker_config_ok
    unavailable_execute requested_world first_claimed first_claim.2 requested_ok first_claim_claims
    eq_refl eq_refl (λ _, conj eq_refl eq_refl)) as Hs.
  unfold tick. destruct (run_once_with_evidence _ _ _ _ _ _ _ _ _) as [res w'].
  destruct Hs as (x & Hx & Hr & _). exists x. split; [exact Hx|].
  apply Hr. vm_compute. reflexivity.
Defined.

Definition stopping (n : nat) : bool := (1 <? n)%nat.

Lemma shutdown_returns_claim_witness :
  ∃ x, (tick stopping runtime_execute).1 = Ok x ∧ dwe_outcome x = WorkerCancelled.
Proof.
  destruct (shutdown_returns_claim delivered alone (λ _, eq_refl) (λ _ _, eq_refl) stopping lock_order
    fresh_tokens midway_jitter worker_config worker_config_ok runtime_execute requested_world
    requested_ok (or_intror eq_refl)) as (_ & _ & Hc).
  destruct (Hc first_claimed first_claim.2 eq_refl first_claim_claims) as (x & Hx & Ho & _).
  exists x. split; [exact Hx|exact Ho].
Defined.

Lemma readiness_reports_last_observation_witness :
  worker_state (readiness_after DeletionReadinessRecovery_default (WorkerReadiness_new false true)
     [(WorkerRetryScheduled, evidence_unavailable PaymentProvider); (WorkerIdle, evidence_none)]).2
    DeletionWorkerKind = StateDegraded.
Proof.
  apply (readiness_reports_last_observation (WorkerReadiness_new false true)
    [(WorkerRetryScheduled, evidence_unavailable PaymentProvider); (WorkerIdle, evidence_none)]).
  - repeat constructor; cbn; intros Hx; discriminate Hx.
  - intros Hx. discriminate Hx.
  - exists PaymentProvider, (evidence_unavailable PaymentProvider), [], [evidence_none].
    split; [reflexivity|]. split; [vm_compute; reflexivity|]. repeat constructor.
Defined.

Lemma retry_cap_spec_witness : retry_cap 1000000000 60000000000 4 = 8000000000.
Proof.
  destruct (retry_cap_spec 1000000000 60000000000 4 5) as [Hc _]; [lia|vm_compute; split; discriminate|lia..|].
  rewrite Hc. reflexivity.
Defined.

(** * Base64 *)

(** The URL-safe alphabet, without padding: cleanup tokens are 43 characters. *)
Definition b64_alphabet : string := "ABCDEFGHIJKLMNOPQRSTUVWXYZabcdefghijklmnopqrstuvwxyz0123456789-_".
Definition b64_char (n : N) : ascii := default Ascii.zero (String.get (N.to_nat n) b64_alphabet).

Fixpoint b64_encode_chars (l : list N) : list ascii :=
  match l with
  | a :: b :: c :: l =>
      b64_char (a / 4) :: b64_char (a mod 4 * 16 + b / 16) :: b64_char (b mod 16 * 4 + c / 64)
      :: b64_char (c mod 64) :: b64_encode_chars l
  | [a; b] => [b64_char (a / 4); b64_char (a mod 4 * 16 + b / 16); b64_char (b mod 16 * 4)]
  | [a] => [b64_char (a / 4); b64_char (a mod 4 * 16)]
  | [] => []
  end%N.

Fixpoint b64_decode_values (l : list N) : option (list N) :=
  match l with
  | a :: b :: c :: d :: l =>
      rest ← b64_decode_values l;
      Some (a * 4 + b / 16 :: b mod 16 * 16 + c / 4 :: c mod 4 * 64 + d :: rest)
  | [a; b; c] => if c mod 4 =? 0 then Some [a * 4 + b / 16; b mod 16 * 16 + c / 4] else None
  | [a; b] => if b mod 16 =? 0 then Some [a * 4 + b / 16] else None
  | [_] => None
  | [] => Some []
  end%N.

#[local] Instance real_base64 : Base64Url := {|
  b64_encode bs := string_of_list_ascii (b64_encode_chars (map Ascii.N_of_ascii bs));
  b64_decode s :=
    values ← mapM (λ c, option_map N.of_nat (String.index 0 (String c EmptyString) b64_alphabet))
               (list_ascii_of_string s);
    bs ← b64_decode_values values; Some (map Ascii.ascii_of_N bs);
|}.

(** * The world *)

Definition paid_claim : ClaimedContentLockDeletionJob :=
  default (MkClaimedDeletionJob idle_job 0) (claim_next draining [lock_key] worker 1000 40 40).1.

Definition cleanup : PaymentDrainCleanupToken := MkCleanupToken (b64_encode (replicate 32 Ascii.zero)).

Definition owned_row : DeletionOwnershipRow :=
  MkOwnershipRow "running" "drain_payments" None (Some worker) (Some 40) (Some 1040).
Definition active_row : DrainRow := MkDrainRow "active" 1 0 0 (cleanup_token_str cleanup) 30 30.
Definition frozen_row : SnapshotRow :=
  MkSnapshotRow (CreatorPubky_display alice) (BundleId_display sample_bundle)
    (PubkyLockResource_display sample_resource) "payment" (Some 1) (Some 9) (Some true) "pending" false
    None None None.
Definition pending_row : TaskRow :=
  MkTaskRow "pending" "ready" (Some job_id) None None None None None None None None None None None 5.

Definition payment_db : PaymentDb :=
  MkPaymentDb {[ job_id := owned_row ]} {[ job_id := active_row ]}
    {[ (job_id, sample_task_id) := frozen_row ]} {[ sample_task_id := pending_row ]}.

Definition still (n : nat) (db : PaymentDb) : PaymentDb := db.
Definition db_clock (n : nat) : OffsetDateTime := 41.
Definition db_tokens (n : nat) : Z := 900 + Z.of_nat n.

Definition settled_summary : PaymentDrainSummary := MkDrainSummary DrainCompleted 0 1 0 cleanup.
Definition paid_status : PaymentRequestStatus :=
  MkRequestStatus DrainAccepted Confirmed 1 9 (Some (MkPaymentObservation 3 true true)) None.

Definition answers_start (n : nat) (resource : PubkyLockResource) :
    result PaymentDrainClientError PaymentDrainSummary := Ok settled_summary.
Definition answers_lookup (n : nat) (resource : PubkyLockResource) :
    result PaymentDrainClientError (option PaymentDrainSummary) := Ok (Some settled_summary).
Definition answers_status (n : nat) (creator : CreatorPubky) (bundle : BundleId) :
    result PaymentDrainClientError (option PaymentRequestStatus) := Ok (Some paid_status).

#[local] Instance test_drains : PaymentDrains PaymentWorld :=
  served_drains delivered still db_clock db_tokens.
#[local] Instance test_paykit : PaykitDrainClient PaymentWorld :=
  served_paykit answers_start answers_lookup answers_status.
#[local] Instance test_entitlements : EntitlementStoreV1 PaymentWorld := served_entitlements.

Definition lock_server : LockServerPubky := MkLockServerPubky (public_key_to_string (key_bytes 8)).

(** The claim at 42, in its lane. *)
Definition paid_world : World ExecState PaymentWorld :=
  MkWorld (MkExecState 42 settled ∅ ∅ {[ cj_id paid_claim := 1%nat ]})
    (MkPaymentWorld payment_db ∅ 0) 0.

Definition paid_drain :=
  drain_execute_claimed_with_evidence delivered alone lock_server 1 paid_claim worker paid_world.

Lemma paid_claim_phase : dj_phase (cdj_job paid_claim) = DrainPayments.
Proof. vm_compute. reflexivity. Qed.

Lemma paid_lane : ex_owned (w_store paid_world) !! cj_id paid_claim = Some 1%nat.
Proof. vm_compute. reflexivity. Qed.

Lemma paid_drain_progresses : pe_outcome paid_drain.1 = Progressed.
Proof. vm_compute. reflexivity. Qed.

(** * Witnesses *)

Lemma payment_drain_safe_witness :
  ∃ tr, performs paid_claim worker (w_entitlements paid_world) tr (w_entitlements paid_drain.2)
        ∧ drain_over tr.
Proof.
  pose proof (payment_drain_safe delivered alone lock_server 1 1 paid_claim worker paid_world
    (λ _ _ Ho, Ho) (or_intror paid_claim_phase) paid_lane) as Hs.
  pose proof paid_drain_progresses as Hx. unfold paid_drain in *.
  destruct (drain_execute_claimed_with_evidence _ _ _ _ _ _ _) as [x w'].
  destruct Hs as (_ & _ & _ & tr & Hp & _ & _ & _ & Hover). exists tr. split; [exact Hp|].
  exact (Hover Hx paid_claim_phase).
Defined.

Lemma still_evolves n db : db_evolves db (still n db).
Proof. reflexivity. Qed.

Lemma payments_settled_witness :
  db_evolves payment_db (pw_db (w_entitlements paid_drain.2)).
Proof.
  pose proof (payments_settled delivered still db_clock db_tokens answers_start answers_lookup
    answers_status still_evolves) as Hs.
  specialize (Hs ltac:(intros n r summary [= <-]; vm_compute; intros Hx; discriminate Hx)).
  specialize (Hs ltac:(intros n r summary [= <-]; vm_compute; intros Hx; discriminate Hx)).
  specialize (Hs paid_claim worker lock_server 1 delivered alone 1%nat (λ _ _ Ho, Ho) paid_world
    paid_claim_phase paid_lane).
  unfold paid_drain. destruct (drain_execute_claimed_with_evidence _ _ _ _ _ _ _) as [x w'].
  exact (proj1 Hs).
Defined.

(** The obligation expires. *)
Definition expired_transition : PaymentDrainTerminalTransition :=
  MkTerminalTransition Expired None (Some PaymentDeadlineExpired).
Definition expired_db : PaymentDb :=
  (get_ok (false, payment_db)
     (pg_persist_terminal_obligation payment_db 41 job_id worker 40 sample_task_id expired_transition)).2.

Lemma expired_persisted :
  pg_persist_terminal_obligation payment_db 41 job_id worker 40 sample_task_id expired_transition
  = Ok (true, expired_db).
Proof.
  rewrite (get_ok_spec (false, payment_db) (pg_persist_terminal_obligation _ _ _ _ _ _ _))
    by (vm_compute; reflexivity).
  rewrite (pair_snd (get_ok _ _)). f_equal.
Qed.

Lemma obligation_settled_once_witness :
  pg_persist_terminal_obligation expired_db 50 job_id worker 40 sample_task_id
    (MkTerminalTransition Completed (Some 1) None) = Ok (false, expired_db).
Proof.
  destruct (obligation_settled_once payment_db 41 job_id worker 40 sample_task_id expired_transition
    expired_db expired_db expired_persisted (rtc_refl _ _))
    as (sn & t & sn' & t' & _ & _ & _ & _ & _ & _ & _ & _ & _ & _ & _ & Hno).
  apply (Hno 50 worker 40). reflexivity.
Defined.

Lemma progress_checks_agree_witness :
  validate_aggregate_progress (MkDrainSummary DrainActive 1 0 0 cleanup) settled_summary = Ok ().
Proof.
  apply (progress_checks_agree active_row).
  - vm_compute. reflexivity.
  - vm_compute. intros Hx. discriminate Hx.
  - vm_compute. reflexivity.
Defined.

(** * The server's worker *)

Definition server_world : World ExecState PaymentWorld :=
  MkWorld (w_store requested_world) (MkPaymentWorld payment_db ∅ 0) 0.
Definition server_tick :=
  run_once_with_evidence delivered alone running lock_order fresh_tokens midway_jitter worker_config
    (runtime_execute_claimed 1 delivered alone cipher (λ _, nonce) test_generator 1000 1000
       (server_payments delivered alone lock_server (Some 1))) server_world.

Lemma deletion_never_completes_witness :
  completes_nothing (w_store server_world) (w_store server_tick.2).
Proof.
  destruct (deletion_never_completes delivered alone lock_server (Some 1) 1 cipher (λ _, nonce)
    test_generator 1000 1000 running lock_order fresh_tokens midway_jitter worker_config server_world)
    as [Hc _].
  - intros n s id Ho. exact Ho.
  - intros n s key sj' Hk Hs. exists sj'. split; [exact Hk|exact Hs].
  - exact Hc.
Defined.
