(* ===== verification/FoldedWitnesses.v ===== *)
(** Concrete instances of the theorems on folded authorisation.

    One lock with a graph policy, one submission for it, a wallet flow, and the
    repository after each of its steps. *)

From S2P Require Import Prelude RustStr Externals Ids Json LockPolicy Wire Errors ApiErrors Run.
From S2P Require Import RateLimit GraphTask PaymentTask Fence GraphStore PaymentStore.
From S2P Require Import FoldedAuth FoldedStore FoldedInv FoldedSteps FoldedSafe FoldedUse.
From S2P Require Import FoldedFlights FoldedServer Instances Witnesses.
From S2P Require Secrets.

(** A version 1 plaintext is its flow state. *)
#[global] Instance bare_plaintext : PlaintextJson := {|
  plaintext_to_vec version flow_state :=
    if version =? 1 then Some (Secrets.as_bytes flow_state) else None;
  plaintext_from_slice bs := Some (1, string_of_list_ascii bs);
|}.

#[global] Instance bare_plaintext_laws : PlaintextJsonLaws.
Proof.
  split. intros version flow_state bs. cbn. destruct (version =? 1) eqn:Hv; [|done].
  intros [= <-]. rewrite Secrets.string_of_as_bytes. by apply Z.eqb_eq in Hv as ->.
Qed.

Definition folded_graph : GraphPolicyV2 := MkGraphPolicyV2 [follows; tagged] (Some Or).

Definition folded_lock : ContentLockV2 :=
  MkContentLockV2 2 alice (Some primary) secondary None (Some folded_graph) 3600 (MkAccessPolicy 60)
    (MkLockServerConfig None) 0.

Definition folded_lock_hash : LockHash := default sample_hash (lock_hash_v2 folded_lock).
Definition folded_resource : PubkyLockResource :=
  MkPubkyLockResource alice (MkContentLockPath (LockId_from_hash folded_lock_hash)).
Definition folded_submission : SubmittedProofBundleV2 :=
  MkSubmittedProofBundleV2 2 sample_bundle folded_resource None.

Definition folded_key : bytes := key_bytes 40.
Definition folded_nonce : bytes := replicate 24 (Ascii.ascii_of_N 41).
Definition folded_token : Uuid := sample_uuid.
Definition folded_hash : FoldedAuthStateHash :=
  FoldedAuthStateHash_derive (Secrets.as_bytes (uuid_hyphenated folded_token)).
Definition folded_secret : FoldedAuthFlowSecret := MkFlowSecret (key_bytes 42).

Definition folded_request : StartFoldedAuthAttempt :=
  MkStart folded_submission folded_resource folded_lock_hash 3600 folded_graph folded_hash
    folded_secret 0.

Definition folded_empty : FoldedState := FoldedState_new Fence_new.

(** The state an operation leads to. *)
Definition after {A} (s : FoldedState) (r : result ApplicationError (A * FoldedState)) : FoldedState :=
  match r with Ok (_, s') => s' | Err _ => s end.

Definition folded_started : FoldedState :=
  after folded_empty (start_or_rotate folded_key folded_empty folded_request 0 folded_nonce).
Definition folded_polled : FoldedState :=
  (mark_poll_dispatched folded_started folded_hash 1 (seconds 5)).2.
Definition folded_approved : result ApplicationError (option GraphTaskRecord * FoldedState) :=
  accept_and_insert_graph_task folded_polled folded_hash 1 sample_task_id bob (seconds 9).

Lemma started_reached : folded_reachable folded_key folded_started.
Proof.
  exists Fence_new. split; [reflexivity|]. apply rtc_once.
  eapply (fstep_start _ _ folded_request 0 folded_nonce); [reflexivity|].
  vm_compute. reflexivity.
Qed.

Lemma polled_reached : folded_reachable folded_key folded_polled.
Proof.
  destruct started_reached as (f & Hf & Hr). exists f. split; [exact Hf|].
  eapply rtc_r; [exact Hr|]. apply fstep_mark.
Qed.

Lemma folded_invariant_witness :
  folded_ok folded_polled ∧ length (fo_records folded_polled) = 1%nat.
Proof. split; [exact (folded_invariant folded_key _ polled_reached)|vm_compute; reflexivity]. Defined.

Lemma empty_reached : folded_reachable folded_key folded_empty.
Proof. exists Fence_new. by split. Qed.

(** The secret handed over at the start is what the poll restores. *)
Lemma flow_secret_restored_witness :
  ra_flow_secret <$> from_option id None (ok (restore_pending folded_key folded_started folded_hash))
  = Some folded_secret
  ∧ restore_pending folded_key folded_polled folded_hash = Ok None.
Proof.
  destruct (flow_secret_restored folded_key folded_empty empty_reached) as (_ & Hstart & _).
  split; [|vm_compute; reflexivity].
  assert (∃ r, start_or_rotate folded_key folded_empty folded_request 0 folded_nonce
               = Ok (r, folded_started)) as [r Hs] by (eexists; vm_compute; reflexivity).
  unfold folded_hash. change (FoldedAuthStateHash_derive _) with (sf_state_hash folded_request).
  rewrite (Hstart folded_request 0 folded_nonce r folded_started); [reflexivity|reflexivity|exact Hs].
Defined.

Definition folded_task : option GraphTaskRecord := from_option fst None (ok folded_approved).
Definition folded_settled : FoldedState := after folded_polled folded_approved.

(** After the approval the handle cannot be used again, also by the same request. *)
Lemma acceptance_settles_handle_witness :
  ∃ task, folded_task = Some task ∧ gs_reader (gt_snapshot task) = bob
    ∧ (sample_task_id, gt_handle task) ∈ graph_subject <$> graph_records (fo_fence folded_settled)
    ∧ ∀ t nonce r s, start_or_rotate folded_key folded_settled folded_request t nonce ≠ Ok (r, s).
Proof.
  assert (∃ task, folded_task = Some task ∧ folded_approved = Ok (Some task, folded_settled)
    ∧ (sf_creator folded_request, sf_bundle_id folded_request) = gt_handle task) as (task & Ht & Ha & Hh)
    by (eexists; split_and!; vm_compute; reflexivity).
  exists task. destruct (acceptance_settles_handle folded_key folded_polled folded_hash 1 sample_task_id
    bob (seconds 9) task folded_settled folded_settled polled_reached Ha (rtc_refl _ _))
    as ((st & _ & _ & _ & _ & _ & _ & _ & _ & _ & _ & Hr & _) & Hin & _ & Hno).
  split_and!; [exact Ht|exact Hr|exact Hin|]. intros t nonce r s. by apply Hno.
Defined.

(** Twenty minutes later the attempt has expired, and its handle is free. *)
Lemma cleanup_exact_witness :
  ∃ s', purge_terminal_before folded_polled (minutes 20) = Ok (0, s')
    ∧ sa_status <$> fo_records s' = [FoldedExpired]
    ∧ (alice, sample_bundle) ∉ folded_auth_reservations (fo_fence s').
Proof.
  destruct (cleanup_exact folded_key folded_polled (minutes 20)
    (minutes 20 + FOLDED_AUTH_TOMBSTONE_TTL) polled_reached ltac:(vm_compute; reflexivity))
    as (s' & Hp & Hrec & _ & _ & Hres).
  assert (sa_status <$> fo_records s' = [FoldedExpired]) as Hst by (rewrite Hrec; vm_compute; reflexivity).
  exists s'. split_and!; [|exact Hst|].
  - rewrite Hp. rewrite Hrec. vm_compute. reflexivity.
  - intros (st & Hin & _ & _ & Hlt & _)%Hres.
    assert (fo_records folded_polled = [with_poll (default (MkStoredAttempt
      (started_attempt folded_request 1 0 0) None None) (head (fo_records folded_started))) (Some (seconds 5))])
      as Heq by (vm_compute; reflexivity).
    rewrite Heq in Hin. apply list_elem_of_singleton in Hin as ->. vm_compute in Hlt. discriminate Hlt.
Defined.

(** * The poll *)

Definition wallet (n : nat) (secret : FoldedAuthFlowSecret) : FoldedAuthPollCall :=
  if secret == folded_secret then PollAttempted (Some (PollApproved bob))
  else PollAttempted None.
Definition alone (n : nat) (s : FoldedState) : FoldedState := s.

Lemma alone_legal n s : rtc (folded_step folded_key) s (alone n s).
Proof. constructor. Qed.

Definition folded_poll :=
  execute_poll folded_key (λ n, seconds (Z.of_nat n)) (λ n, seconds (Z.of_nat n)) (λ _, Delivered) alone wallet (λ _, 2%nat)
    sample_task_id folded_hash (MkWorld folded_started [] 0).

(** The wallet approves for the reader, after two renewals of the lease. *)
Lemma poll_reports_truth_witness :
  ∃ task e, folded_poll.1 = Ok (OutcomeAccepted task) ∧ w_entitlements folded_poll.2 = [e]
    ∧ pe_secret e = folded_secret ∧ gs_reader (gt_snapshot task) = bob
    ∧ outcome_true (w_store folded_poll.2) folded_hash (OutcomeAccepted task).
Proof.
  pose proof (poll_reports_truth folded_key (λ n, seconds (Z.of_nat n)) (λ n, seconds (Z.of_nat n)) (λ _, Delivered) alone wallet
    (λ _, 2%nat) sample_task_id alone_legal folded_hash (MkWorld folded_started [] 0) started_reached) as Hp.
  fold folded_poll in Hp.
  assert (∃ task e, folded_poll.1 = Ok (OutcomeAccepted task) ∧ w_entitlements folded_poll.2 = [e]
    ∧ pe_secret e = folded_secret ∧ gs_reader (gt_snapshot task) = bob) as (task & e & Ho & He & Hs & Hr)
    by (do 2 eexists; split_and!; vm_compute; reflexivity).
  destruct folded_poll as [r w']. destruct Hp as (_ & Htrue & _).
  exists task, e. split_and!; [exact Ho|exact He|exact Hs|exact Hr|exact (Htrue _ Ho)].
Defined.

(** Another process polls while this one, later, finds the attempt taken. *)
Definition folded_flights : Flights :=
  MkFlights folded_polled [(2%nat, (folded_hash, 1))] [folded_hash].


(** * A submission *)

(** Every URL is an origin over https. *)
#[local] Instance trusting_web : WebCrates := {|
  url_parse value := Some (MkUrl "https" (Some value) "" None "/" None None value);
  header_to_str bs := Some (string_of_list_ascii bs);
|}.

Definition v2_empty : V2State := MkV2State PaymentRepo_new [].
Definition app_origin : bytes := Secrets.as_bytes "https://app".

Definition submit_sample (origin : option bytes) :=
  submit_v2 (MkSubmissionConfig true 10 60) folded_key (λ n, seconds (Z.of_nat n)) (λ n, seconds (Z.of_nat n)) (λ _, Delivered)
    (λ _ s, s) (λ _ _ _, Ok (Some (LockV2 folded_lock))) (λ _, Ok sample_task_id)
    (λ _ _, Ok ("pubkyauth://flow", folded_secret)) true true true (Some ["https://app"])
    1%nat origin folded_submission folded_token sample_uuid folded_nonce (MkWorld v2_empty ∅ 0).

(** Nobody else acts. *)
Lemma once_kept (n : nat) (s : V2State) :
  NoDup (sa_hash <$> v2_attempts s) → NoDup (sa_hash <$> v2_attempts s).
Proof. done. Qed.

Lemma terms_kept (n : nat) (s : V2State) st st' :
  NoDup (sa_hash <$> v2_attempts s) → st ∈ v2_attempts s → st' ∈ v2_attempts s →
  sa_hash st' = sa_hash st → attempt_terms (sa_attempt st') = attempt_terms (sa_attempt st).
Proof.
  intros Hnd [i Hi]%list_elem_of_lookup [j Hj]%list_elem_of_lookup Hh.
  assert (i = j) as ->; [|congruence].
  eapply NoDup_lookup; [exact Hnd|by rewrite list_lookup_fmap, Hi|].
  rewrite list_lookup_fmap, Hj. cbn. by rewrite Hh.
Qed.

Lemma v2_submission_answer_witness :
  ∃ w, submit_sample (Some app_origin)
       = (Ok (V2AuthPending "pubkyauth://flow" (uuid_hyphenated folded_token)
                (seconds 7 + FOLDED_AUTH_TTL)), w)
    ∧ (∃ st, st ∈ v2_attempts (w_store w) ∧ sa_hash st = folded_hash ∧ sa_status st = FoldedPending)
    ∧ (submit_sample (Some (Secrets.as_bytes "https://evil"))).1 = Ok V2OriginDenied.
Proof.
  assert (∃ w, submit_sample (Some app_origin)
       = (Ok (V2AuthPending "pubkyauth://flow" (uuid_hyphenated folded_token)
                (seconds 7 + FOLDED_AUTH_TTL)), w)) as [w Hw] by (eexists; vm_compute; reflexivity).
  destruct (v2_submission_answer (MkSubmissionConfig true 10 60) folded_key
    (λ n, seconds (Z.of_nat n)) (λ n, seconds (Z.of_nat n)) (λ _, Delivered) (λ _ s, s) (λ _ _ _, Ok (Some (LockV2 folded_lock)))
    (λ _, Ok sample_task_id) (λ _ _, Ok ("pubkyauth://flow", folded_secret)) true true true
    (Some ["https://app"]) once_kept terms_kept 1%nat (Some app_origin) folded_submission folded_token
    sample_uuid folded_nonce (MkWorld v2_empty ∅ 0) _ w (NoDup_nil_2) Hw) as (_ & (_ & _ & _ & st & _ & _ & _ & _ & Hin & Hst & Hh & _) & _).
  exists w. split_and!; [exact Hw|exists st; split_and!; [exact Hin|exact Hh|exact Hst]|].
  vm_compute. reflexivity.
Defined.
