(* ===== verification/DbWitnesses.v ===== *)
(** Concrete instances of the theorems on the connection of creators (a flow that is
    started, approved, completed and exchanged, on both stores) and on the Postgres
    adapters of graph tasks and of folded attempts (related states after a few operations
    on empty tables). *)

From S2P Require Import Prelude RustStr Externals Ids Json LockPolicy Wire Errors Run ApiErrors.
From S2P Require Import Secrets Lifecycle GraphTask PaymentTask Fence GraphStore FoldedAuth.
From S2P Require Import FoldedStore FoldedInv FoldedSteps FoldedServer Connect ConnectDb.
From S2P Require Import ConnectSafe ConnectServer TaskTables GraphDb GraphDbSim GraphDbSafe.
From S2P Require Import FoldedDb FoldedDbSim FoldedDbSafe Instances Witnesses FoldedWitnesses.

#[local] Instance connect_pg_time : PgTime := {| pg_timestamp t := t / 1000 * 1000 |}.
#[local] Instance connect_pg_time_laws : PgTimeLaws.
Proof. split. intros t Ht. cbn. pose proof (Z.div_mod t 1000 ltac:(lia)). lia. Qed.

(** URLs of the form [pubkyauth://host?..]. *)
#[local] Instance auth_urls : WebCrates := {|
  url_parse value :=
    rest ← strip_prefix "pubkyauth://" value;
    '(host, query) ← split_once (byte_of 63) rest;
    Some (MkUrl "pubkyauth" (Some host) "" None "" (Some query) None "null");
  header_to_str bs := Some (string_of_list_ascii bs);
|}.

#[local] Instance https_uris : HttpUris := {|
  uri_parts s :=
    rest ← strip_prefix "https://" s;
    Some (Some "https", Some (default (rest, "") (split_once (byte_of 47) rest)).1);
  header_value_valid _ := true;
  json_string s := Some s;
|}.

Definition connect_creator : CreatorPubky := MkCreatorPubky (public_key_to_string (as_bytes "alice")).
Definition connect_url : CreatorConnectAuthorizationUrl :=
  MkAuthorizationUrl "pubkyauth://signin_grant?secret=7".
Definition connect_approval : GrantCreatorConnectFlowApproval :=
  MkGrantApproval connect_creator (MkAuthoritySecret "grant") default_requested_scopes (seconds 1000).
Definition connect_request : StartCreatorConnectFlowRequest :=
  MkStartConnect "https://app/back?x=1" "opaque state".
Definition connect_nonce : bytes := replicate 24 Ascii.zero.
Definition connect_key : bytes := replicate 32 Ascii.one.
Definition connect_code : FrontendSessionCode := MkSessionCode "code-1".
Definition connect_token : FrontendSessionToken := MkSessionToken "token-1".

(** The runs one after the other, the log begun anew for each. *)
Section runs.
  Context {S : Type} (store : ConnectStore S) (s0 : S).

  Abbreviation midnight := (λ _ : nat, 0).
  Abbreviation delivered := (λ _ : nat, Delivered).
  Abbreviation alone := (λ (_ : nat) (s : S), s).
  Abbreviation again w := (MkWorld (w_store w) [] 0 : World S (list ConnectEvent)).

Definition run_start :=
  start_creator_connect_flow (H := store) midnight midnight delivered alone
    (λ _ _, Ok connect_url) (Some (λ _ _ _, Ok connect_url)) (λ _, MkConnectFlowId "flow-1") connect_request
    (MkWorld s0 [] 0).
Definition run_complete :=
  complete_creator_connect_flow (H := store) midnight midnight delivered alone
    (SelectedGrant (λ _ _ _ _, Ok connect_approval)) (λ _, connect_code) (λ _, connect_nonce)
    (MkConnectFlowId "flow-1") (again run_start.2).
Definition run_exchange :=
  exchange_frontend_session_code (H := store) midnight midnight delivered alone (λ _, connect_token)
    (MkExchange connect_code "opaque state") (again run_complete.2).

Definition run_log : list ConnectEvent :=
  w_entitlements run_start.2 ++ w_entitlements run_complete.2 ++ w_entitlements run_exchange.2.
End runs.

Definition memory_empty : ConnectMemory := MkConnectMemory ∅ ∅ ∅ ∅.
Definition tables_empty : ConnectDb := MkConnectDb ∅ ∅ ∅ ∅.
Definition pg_store : ConnectStore ConnectDb := pg_connect (Some connect_key).

(** What the three runs log, in full. *)
Definition sample_flow : PendingCreatorConnectFlowRecord :=
  MkPendingFlow (MkConnectFlowId "flow-1") "https://app/back?x=1" "opaque state" connect_url
    default_requested_scopes 0 CREATOR_CONNECT_FLOW_TTL.
Definition sample_authority : CreatorAuthorityRecord :=
  MkAuthority connect_creator Grant default_requested_scopes (MkAuthoritySecret "grant")
    (Some (seconds 1000)) (Some 0).
Definition sample_code : FrontendSessionCodeRecord :=
  MkCodeRecord connect_code connect_creator "opaque state" "https://app/back?x=1" 0
    FRONTEND_SESSION_CODE_TTL None.
Definition sample_session : FrontendSessionRecord :=
  MkSessionRecord connect_token connect_creator 0 FRONTEND_SESSION_TTL.

Definition expected_log : list ConnectEvent :=
  [FlowStarted sample_flow;
   ApprovalGiven connect_url connect_creator (MkAuthoritySecret "grant");
   FlowConsumed (MkConnectFlowId "flow-1") sample_flow;
   AuthorityStored (MkConnectFlowId "flow-1") sample_authority connect_nonce;
   CodeIssued (MkConnectFlowId "flow-1") sample_code;
   CodeTaken connect_code sample_code;
   SessionIssued connect_code "opaque state" sample_session].

Lemma memory_log : run_log memory_connect memory_empty = expected_log.
Proof. vm_compute. reflexivity. Qed.

Lemma pg_log : run_log pg_store tables_empty = expected_log.
Proof. vm_compute. reflexivity. Qed.

Lemma history_did {S : Type} `{ConnectLaws S} {A} log s
    (op : OffsetDateTime → S → result ApplicationError A * S) event :
  connect_history log s → connect_op op event →
  connect_history (log ++ logged event (op 0 s).1) (op 0 s).2.
Proof. intros Hh Hop. eapply (history_call _ _ _ _ 0); [done..|]. by destruct (op 0 s). Qed.

(** The same calls as a history of the store in memory. *)
Lemma memory_history : ∃ s : ConnectMemory, connect_history expected_log s.
Proof.
  pose proof (history_empty memory_empty eq_refl eq_refl) as Hh.
  apply (λ Hh, history_did _ _ _ _ Hh (op_insert_flow sample_flow)) in Hh.
  eapply history_approval in Hh.
  apply (λ Hh, history_did _ _ _ _ Hh (op_consume_flow (MkConnectFlowId "flow-1") 0)) in Hh.
  apply (λ Hh, history_did _ _ _ _ Hh
    (op_upsert_authority (MkConnectFlowId "flow-1") sample_authority connect_nonce)) in Hh.
  apply (λ Hh, history_did _ _ _ _ Hh (op_insert_code (MkConnectFlowId "flow-1") sample_code)) in Hh.
  apply (λ Hh, history_did _ _ _ _ Hh (op_consume_code connect_code 0)) in Hh.
  apply (λ Hh, history_did _ _ _ _ Hh
    (op_insert_session connect_code "opaque state" sample_session)) in Hh.
  eexists. refine (eq_ind _ (λ l, connect_history l _) Hh _ _). vm_compute. reflexivity.
Qed.

Lemma memory_traces :
  Forall (connect_trace (S := ConnectMemory))
    [w_entitlements (run_start memory_connect memory_empty).2;
     w_entitlements (run_complete memory_connect memory_empty).2;
     w_entitlements (run_exchange memory_connect memory_empty).2].
Proof.
  repeat constructor.
  - eapply trace_start; [apply surjective_pairing|done].
  - eapply trace_complete; [apply surjective_pairing|done].
  - eapply trace_exchange; [apply surjective_pairing|done].
Qed.

Lemma connect_granted_once_witness :
  SessionIssued connect_code "opaque state" sample_session ∈ expected_log
  ∧ session_granted (S := ConnectMemory) expected_log connect_code "opaque state" sample_session
  ∧ authority_granted expected_log (MkConnectFlowId "flow-1") sample_authority.
Proof.
  destruct memory_history as (s & Hh).
  assert (SessionIssued connect_code "opaque state" sample_session ∈ expected_log) as Hin
    by (do 6 right; left).
  assert (expected_log ≡ₚ mjoin [w_entitlements (run_start memory_connect memory_empty).2;
     w_entitlements (run_complete memory_connect memory_empty).2;
     w_entitlements (run_exchange memory_connect memory_empty).2]) as Hl
    by (rewrite <- memory_log at 1; unfold run_log; cbn [mjoin list_join]; by rewrite app_nil_r).
  destruct (connect_granted_once expected_log s _ Hh Hl memory_traces) as (_ & _ & Ha & Hs).
  split_and!; [done|by apply Hs|]. eapply Ha. do 3 right. left.
Defined.

Lemma stored_ok : ∃ db, pg_upsert_authority (Some connect_key) sample_authority connect_nonce tables_empty = (Ok (), db).
Proof. eexists. vm_compute. reflexivity. Qed.

Lemma authority_restored_witness :
  ∃ db, pg_get_authority (Some connect_key) connect_creator db = Ok (Some sample_authority).
Proof.
  destruct stored_ok as (db & Hdb). exists db.
  destruct (authority_restored _ _ _ _ _ Hdb) as (Hget & _);
    [by eexists|vm_compute; reflexivity|vm_compute; reflexivity|].
  etrans; [exact Hget|]. vm_compute. reflexivity.
Defined.

Definition sample_answer : ExchangeFrontendSessionCodeResponse :=
  MkExchanged connect_token connect_creator FRONTEND_SESSION_TTL.

Lemma run_exchanges {S : Type} (store : ConnectStore S) s0 :
  (run_exchange store s0).1 = Ok sample_answer →
  exchange_frontend_session_code (H := store) (λ _, 0) (λ _, 0) (λ _, Delivered) (λ _ s, s)
    (λ _, connect_token) (MkExchange connect_code "opaque state")
    (MkWorld (w_store (run_complete store s0).2) [] 0) = (Ok sample_answer, (run_exchange store s0).2).
Proof. intros <-. apply surjective_pairing. Qed.

Lemma code_replay_answers_witness :
  (exchange_frontend_session_code (H := memory_connect) (λ _, 0) (λ _, 0) (λ _, Delivered) (λ _ s, s)
     (λ _, connect_token) (MkExchange connect_code "opaque state")
     (run_exchange memory_connect memory_empty).2).1 = Err FrontendSessionCodeAlreadyConsumed
  ∧ (exchange_frontend_session_code (H := pg_store) (λ _, 0) (λ _, 0) (λ _, Delivered) (λ _ s, s)
       (λ _, connect_token) (MkExchange connect_code "opaque state")
       (run_exchange pg_store tables_empty).2).1 = Err FrontendSessionCodeUnavailable.
Proof.
  destruct (code_replay_answers (Some connect_key) (λ _, 0) (λ _, 0) (λ _, connect_token) connect_code
              "opaque state" "opaque state") as [Hm Hp].
  split; [eapply Hm|eapply Hp]; apply run_exchanges; vm_compute; reflexivity.
Defined.

Lemma callback_delivered_witness :
  ∃ location, callback_location location "https://app/back?x=1" "opaque state" "code-1".
Proof.
  destruct (connect_shell_complete (λ _, 0) (λ _, 0) (λ _, Delivered) (λ _ s, s) ["https://app"]
    (SelectedGrant (λ _ _ _ _, Ok connect_approval)) (λ _, connect_code) (λ _, connect_nonce) "flow-1" None
    (run_start memory_connect memory_empty).2) as [[r|e] w] eqn:Hc; [|by vm_compute in Hc].
  pose proof (callback_delivered _ _ _ _ _ _ _ _ _ _ _ _ _ Hc) as (completed & Hrun & _ & Hr).
  destruct r as [location|st code]; [|by destruct Hr].
  destruct Hr as [_ Hr]. exists location. vm_compute in Hrun. by injection Hrun as <- _.
Defined.

Lemma connect_succeeds_witness :
  ∃ token w view w',
    get_creator_authority_status (H := pg_store) (λ _, 0) (λ _, 0) (λ _, Delivered) (λ _ s, s) Grant
      (λ _ _ _, Ok ()) token w = (Ok view, w')
    ∧ av_creator view = connect_creator ∧ av_authorized view = true.
Proof.
  destruct (connect_succeeds (Some connect_key) (λ _, 0) (λ _, 0) (λ _ _, Ok connect_url) connect_url
    connect_approval (λ _, MkConnectFlowId "flow-1") (λ _, connect_code) (λ _, connect_token)
    (λ _, connect_nonce) (λ _ _ _, Ok ()) 0) with (request := connect_request)
    (w := MkWorld tables_empty ([] : list ConnectEvent) 0) as (st & w1 & cd & w2 & ex & w3 & view & w4 & Hall);
    [intros n; by split|intros n; by split|by vm_compute|by vm_compute|by eexists|by vm_compute
    | |done|by vm_compute|done..|].
  - intros key n [= <-]. split; [vm_compute; reflexivity|]. eexists. vm_compute. reflexivity.
  - destruct Hall as (_ & _ & _ & _ & _ & _ & _ & _ & Hst & Hcr & Hau & _).
    by exists (xp_session_token ex), w3, view, w4.
Defined.

#[local] Instance truncating_time : PgTime := {| pg_timestamp t := t / 1000 * 1000 |}.

#[local] Instance truncating_time_laws : PgTimeLaws.
Proof. split. intros t Ht. cbn. pose proof (Z.div_mod t 1000 ltac:(lia)). lia. Qed.

Definition db_empty : LocksDb := MkLocksDb ∅ ∅ ∅ ∅ ∅.

Lemma empty_related : graph_sim db_empty Fence_new.
Proof.
  split; try done; cbn.
  - apply graph_store_ok_new.
  - by intros st Hin%elem_of_nil.
  - intros id. rewrite !lookup_empty. split; by intros [].
  - intros creator lock_id. set_solver.
Qed.

(** * Graph tasks *)

Definition db_inserted : LocksDb := (pg_insert_graph_task db_empty db_empty sample_record).2.
Definition db_claimed : LocksDb :=
  (pg_claim_next_graph_task db_inserted ∅ "worker-a" 0 (seconds 30) (seconds 1) 77).2.

Lemma sample_id_canonical : TaskId_from_str (TaskId_display sample_task_id) = Ok sample_task_id.
Proof. vm_compute. reflexivity. Qed.

Lemma inserted_related : graph_sim db_inserted fence_inserted.
Proof.
  pose proof (admission_agrees db_empty Fence_new sample_record empty_related sample_id_canonical) as Ha.
  unfold admissions_agree in Ha. unfold db_inserted, fence_inserted.
  destruct (insert_graph_task Fence_new sample_record) as [[t f]|e] eqn:Hi; [|by vm_compute in Hi].
  by destruct Ha as (db' & -> & Hsim).
Qed.

Definition inserted_record : StoredGraphTask := MkStoredGraphTask sample_record None None None None.

Lemma inserted_records : graph_records fence_inserted = [inserted_record].
Proof. vm_compute. reflexivity. Qed.

Lemma claimed_related : graph_sim db_claimed fence_claimed.
Proof.
  assert (inserted_record ∈ graph_records fence_inserted) as Hin by (rewrite inserted_records; left).
  destruct (gm_rows _ _ inserted_related inserted_record Hin) as (row & Hrow & Hst).
  assert (ld_tasks db_inserted !! sg_id inserted_record = Some (new_graph_row graph_start)) as Hrow'
    by (vm_compute; reflexivity).
  rewrite Hrow' in Hrow. injection Hrow as <-.
  destruct (claim_write db_inserted fence_inserted 0 inserted_record (new_graph_row graph_start) "worker-a" 77
              (seconds 31) (seconds 1)) as (_ & _ & Hsim);
    [exact inserted_related|by rewrite inserted_records|exact Hrow'|exact Hst|vm_compute; reflexivity|].
  replace db_claimed with (ld_with_tasks db_inserted (<[sg_id inserted_record :=
    row_claimed_by (new_graph_row graph_start) "worker-a" 77 (seconds 31) (seconds 1)]> (ld_tasks db_inserted)))
    by (vm_compute; reflexivity).
  by replace fence_claimed with (fence_with_graph fence_inserted
    (<[0%nat := leased inserted_record "worker-a" 77 (seconds 31)]> (graph_records fence_inserted)))
    by (vm_compute; reflexivity).
Qed.

(** The only task is handed out, unless another transaction holds its row. *)
Lemma pg_claim_takes_oldest_witness :
  (∃ claim, (pg_claim_next_graph_task db_inserted ∅ "worker-a" 0 (seconds 30) (seconds 1) 77).1
            = Ok (Some claim) ∧ graph_sim db_claimed fence_claimed)
  ∧ (pg_claim_next_graph_task db_inserted {[sample_task_id]} "worker-a" 0 (seconds 30) (seconds 1) 77).1
    = Ok None.
Proof.
  assert (∀ id row, ld_tasks db_inserted !! id = Some row → vt_attempt_count row < I32_MAX) as Hcount.
  { assert (ld_tasks db_inserted = {[sample_task_id := new_graph_row graph_start]}) as ->
      by (vm_compute; reflexivity). intros id row [<- <-]%lookup_singleton_Some. vm_compute. reflexivity. }
  split; [|vm_compute; reflexivity].
  pose proof (pg_claim_takes_oldest db_inserted fence_inserted ∅ "worker-a" 0 (seconds 30) (seconds 1) 77
                inserted_related ltac:(vm_compute; reflexivity) Hcount) as Hc.
  unfold db_claimed.
  assert (∃ claim, (pg_claim_next_graph_task db_inserted ∅ "worker-a" 0 (seconds 30) (seconds 1) 77).1
                   = Ok (Some claim)) as [claim Hpg] by (eexists; vm_compute; reflexivity).
  destruct (pg_claim_next_graph_task db_inserted ∅ "worker-a" 0 (seconds 30) (seconds 1) 77) as [r db'].
  cbn [fst snd] in *. subst r.
  destruct Hc as (i & st & Hi & _ & _ & _ & Hclaim & Hsim). exists claim. split; [reflexivity|]. clear Hclaim.
  assert (i = 0%nat ∧ st = inserted_record) as [-> ->].
  { rewrite inserted_records in Hi. destruct i; [by injection Hi as <-|done]. }
  by replace fence_claimed with (fence_with_graph fence_inserted
    (<[0%nat := leased inserted_record "worker-a" 77 (seconds 1 + (pg_timestamp (seconds 30) - pg_timestamp 0))]>
       (graph_records fence_inserted))) by (vm_compute; reflexivity).
Defined.

(** The worker cannot give its evaluation back, and the task is not handed out again while
    the claim lasts. *)
Lemma claimed_evaluation_not_released_witness :
  pg_release_claimed_graph_task db_claimed sample_task_id "worker-a" 77 = (Err sqlx_error, db_claimed)
  ∧ (release_claimed_graph_task fence_claimed sample_task_id "worker-a" 77).1 = true
  ∧ ∀ id row, next_candidate db_claimed ∅ (seconds 2) = Some (id, row) → id ≠ sample_task_id.
Proof.
  destruct (claimed_evaluation_not_released db_claimed fence_claimed claimed_record "worker-a" 77 (seconds 31)
    claimed_related claimed_record_stored eq_refl eq_refl eq_refl eq_refl) as (Hpg & Hmem & Hnext).
  split_and!; [exact Hpg|exact (Hmem 77)|]. intros id row. apply Hnext. vm_compute. reflexivity.
Defined.


(** * Folded attempts *)

Definition pg_started := pg_start_or_rotate folded_key db_empty folded_request 0 folded_nonce.
Definition pg_polled := pg_mark_poll_dispatched pg_started.2 folded_hash 1 (seconds 5).

Lemma folded_empty_related : folded_sim db_empty folded_empty.
Proof.
  split; [exact empty_related|by apply folded_ok_new|by intros st Hin%elem_of_nil|].
  intros hash row. cbn. rewrite lookup_empty. split; [done|]. by intros (st & Hin%elem_of_nil & _).
Qed.

Lemma folded_request_wf : request_wf folded_request.
Proof. split; vm_compute; reflexivity. Qed.

Lemma started_related : folded_sim pg_started.2 folded_started.
Proof.
  pose proof (start_agrees folded_key db_empty folded_empty folded_request 0 folded_nonce
    folded_empty_related folded_request_wf eq_refl ltac:(by intros st Hin%elem_of_nil)) as Hs.
  unfold folded_started, after, pg_started.
  destruct (start_or_rotate folded_key folded_empty folded_request 0 folded_nonce) as [[r s]|e] eqn:He;
    [|by vm_compute in He]. by destruct Hs as (db' & -> & Hsim).
Qed.

Lemma polled_related : folded_sim pg_polled.2 folded_polled.
Proof.
  by destruct (polls_agree pg_started.2 folded_started folded_hash 1 (seconds 5) started_related)
    as ([_ Hsim] & _).
Qed.

(** The attempt is accepted by both, with the same task. *)
Lemma folded_adapters_agree_witness :
  ∃ task db', folded_task = Some task
    ∧ pg_accept_and_insert_graph_task pg_polled.2 folded_hash 1 sample_task_id bob (seconds 9)
      = (Ok (Some task), db')
    ∧ folded_sim db' folded_settled.
Proof.
  destruct (folded_adapters_agree folded_key pg_polled.2 folded_polled folded_hash 1 (seconds 9) polled_related)
    as (_ & _ & _ & _ & _ & _ & _ & _ & _ & _ & _ & Haccept & _).
  specialize (Haccept sample_task_id bob sample_id_canonical).
  assert (∃ task, folded_task = Some task ∧ folded_approved = Ok (Some task, folded_settled)) as (task & Ht & Ha)
    by (eexists; split; vm_compute; reflexivity).
  unfold folded_approved in Ha. rewrite Ha in Haccept. destruct Haccept as (db' & Hpg & Hsim).
  exists task, db'. split_and!; [exact Ht|exact Hpg|exact Hsim].
Defined.

(** Six seconds in, an end asked for too early lets a second poll begin. *)
Lemma early_expire_frees_poll_witness :
  expire_attempt folded_polled folded_hash 1 (seconds 6)
  = Ok ((exact_pending folded_polled folded_hash 1) ≫= (λ '(_, st), Some (sa_attempt st)), folded_polled)
  ∧ is_Some (ok (pg_mark_poll_dispatched (pg_expire pg_polled.2 folded_hash 1 (seconds 6)).2
                   folded_hash 1 (seconds 6)).1).
Proof.
  assert (∃ i st, exact_pending folded_polled folded_hash 1 = Some (i, st)
    ∧ fa_poll_dispatched (sa_attempt st) = true ∧ seconds 6 < fa_expires_at (sa_attempt st))
    as (i & st & Hp & Hpoll & Hlt) by (do 2 eexists; split_and!; vm_compute; reflexivity).
  destruct (early_expire_frees_poll pg_polled.2 folded_polled folded_hash 1 i st (seconds 6) polled_related
    Hp Hpoll Hlt) as (Hmem & _ & _ & db' & Hpg & Hmark).
  rewrite Hpg, Hp. cbn [snd]. rewrite Hmark. split; [exact Hmem|by eexists].
Defined.
